(* ===== verification/_CoqProject ===== *)
-Q . S2P
Prelude.v
Status.v
Url.v
Artifacts.v
Images.v
Helm.v
Authz.v
Schedule.v
RateLimit.v
Variables.v
RepositorySync.v
Workspace.v
JobFields.v
Dag.v
Pipeline.v
LegacyPlan.v
V1Plan.v
Table.v
Programs.v
Api.v
Ledger.v
LedgerHandlers.v
Creation.v
LedgerSafety.v
CreationTheorems.v
LedgerSteps.v
LedgerTheorems.v
LedgerLiveness.v
Sessions.v
SessionsSafety.v
SessionsTheorems.v
Outbox.v
OutboxSafety.v
OutboxTheorems.v
OutboxRules.v
Pulls.v
PullMerge.v
PullSafety.v
PullSystem.v
PullJournal.v
PullReach.v
PullSteps.v
PullTheorems.v
PullRun.v
PullExecute.v
PullSample.v
Runners.v
Uploads.v
UploadSafety.v
UploadTheorems.v
JobLogs.v
JobLogTheorems.v
LogClient.v
LogDelivery.v
LogSample.v
LeaseRequests.v
Custody.v
CustodySafety.v
CustodyTheorems.v
Deployments.v
DeploymentRuntime.v
DeploymentSafety.v
DeploymentTheorems.v
DeploymentSample.v
Scheduler.v
SchedulerTheorems.v
Quiescence.v
QuiescenceSafety.v
QuiescenceTheorems.v
SyncStore.v
SyncGit.v
SyncWorker.v
SyncSafety.v
SyncSystem.v
SyncJournal.v
SyncReach.v
SyncRun.v
SyncSample.v
SyncExecute.v
SyncTheorems.v
