(* ===== verification/Prelude.v ===== *)
(** * Forge CI/CD: a verification of the backend

    Forge is a CI/CD server.  Its Rust backend ([src/backend]) keeps projects,
    pipelines, stages and jobs in PostgreSQL, compiles [.forge-ci.yml] to an
    execution plan, hands jobs to an embedded runner or to external runners
    that poll for work, and guards all of it with a table of route policies.
    This library models the core of that backend as executable definitions and
    proves what makes it correct.

    ** How the parts interact

    A trigger (a push, a schedule, a person) asks [pipelines_routes.rs] to
    compile the configuration of a commit: the fields of the jobs are
    normalised, the dependency graph gets its levels, and the plan is frozen.
    The pipeline, its stages and jobs become rows; every job gets an attempt
    and, when it may run, a row in the queue.  A runner claims a row, which
    creates a lease with a generation; the lease is acknowledged, renewed and
    completed, or it expires.  Every change of a job makes [refresh_statuses]
    recompute its stage and its pipeline.  People cancel and retry; reconcilers
    repair what was lost.  Requests reach the handlers through the rate limiter
    and the route policies.

    ** The files

    - [Prelude]: results and the [?] operator, characters, strings and UTF-8,
      maps in key order, the generic lemmas and the tactics.
    - [Status]: [JobStatus], its transitions and its names ([domain/src/lib.rs]),
      both aggregations, and [refresh_statuses] ([api/jobs_routes.rs]) with its
      SQL aggregates written as folds over the rows.
    - [Table], [Ledger], [LedgerHandlers], [Creation]: the dispatch ledger.  [Table] is the fragment of SQL in use, with constraints
      as a class of row types.  [Ledger] has the rows of [execution_attempts],
      [job_leases] and [job_queue] with the constraints of the migrations, and
      one definition per statement or transaction of [infra/src/lib.rs],
      [runner.rs], [runner_protocol.rs] and [api/jobs_routes.rs].
      [LedgerHandlers] composes them to handlers in a small error monad, and
      has the writers of the embedded executors ([runner_docker.rs],
      [runner_kubernetes.rs], [runner_protocol_termination.rs]); [Creation] the
      rows of a new pipeline.
      [LedgerSafety] has the invariant [wf], the order [evolves] of ledgers and
      the relation [step], whose rules are the statements; [LedgerSteps] shows
      that every handler is a sequence of steps; [LedgerTheorems],
      [LedgerLiveness] and [CreationTheorems] have the results, for any
      interleaving of statements and handlers.
    - [Sessions], [SessionsSafety], [SessionsTheorems]: users, sessions with
      rotating refresh tokens, personal and service tokens ([app/src/auth.rs],
      [api/auth_routes.rs], [central_auth.rs], [platform.rs]).
    - [Outbox], [OutboxSafety], [OutboxTheorems], [OutboxRules]: events, rules, templates, the outbox and its parallel
      workers ([outbox.rs], [platform.rs]).
    - [Scheduler], [SchedulerTheorems]: schedules and their slots, worked on by
      parallel supervisors ([outbox.rs], [platform.rs]).
    - [Quiescence], [QuiescenceSafety], [QuiescenceTheorems]: the gate that
      drains the server for a backup ([quiescence/kernel.rs]): its records and
      kernel locks, and processes and coordinators as steps that interleave and
      crash; and the requests that continue during a drain
      ([quiescence.rs]).
    - [SyncStore], [SyncGit], [SyncWorker]: the runs of repository
      synchronisation.  [SyncStore] has the tables of the migrations 0093 to
      0114 and a definition per transaction of [infra/src/repository_sync.rs]
      and [repository_sync_schedule.rs]; [SyncGit] the Git session
      ([infra/src/sync_git.rs]) as programs over the calls [op];
      [SyncWorker] the execution of a run
      ([src/repository_sync_worker.rs]).  [SyncSafety] keeps a ghost state next
      to a worker and shows with [wp] that every call is justified;
      [SyncSystem] gives the calls their effects and lets workers, handlers and
      foreign changes interleave; [SyncJournal] and [SyncReach] have the
      invariant, [SyncTheorems] the results.  [SyncRun] executes a program with
      calls that succeed, [SyncExecute] shows what it does, [SyncSample] is a
      concrete system for the witnesses.
    - [Programs]: programs of calls, their proof rule [wp] and their execution,
      shared by the synchronisation worker, the merge handler and the external
      runner.  [Api]: the errors of the API ([api/mod.rs]), and JSON values.
    - [Pulls], [PullMerge]: pull requests.  [Pulls] has the rows, creation,
      listings and statements ([pulls.rs], [infra/src/pull_merge.rs]),
      [PullMerge] the handler of merge, close and reopen as a program.
      [PullSafety] shows with [wp] that each of its calls is justified,
      [PullSystem] lets handlers interleave with each other, crash and lose
      connections, [PullJournal], [PullReach] and [PullSteps] have the
      invariant and its preservation, [PullTheorems] the results.  [PullRun]
      and [PullExecute] say what an undisturbed handler does; [PullSample] is
      a merge for the witnesses.
    - [Runners]: external runners ([runner_protocol.rs]): validation of
      their requests, registration and credentials, heartbeats, capabilities,
      the agreement of typed jobs with their frozen plan.
    - [LeaseRequests]: the secrets of projects, sealed at rest
      ([infra/src/secrets.rs], [platform.rs]), and the requests of a runner under
      a lease: its control, its secrets, single artifacts, its receipt
      ([runner_protocol.rs]).
    - [Custody], [CustodySafety], [CustodyTheorems]: the external runner on a
      host without Kubernetes.  [Custody] has the directories of attempts with
      their records ([runner_workspace.rs]) and the start and the turns of
      [bin/forge-runner.rs] as programs; [CustodySafety] shows with [wp] that
      each call is justified and lets runners, the ledger, crashes, torn files
      and lost answers interleave; [CustodyTheorems] has the results.
    - [Uploads], [UploadSafety], [UploadTheorems]: artifacts
      and the sessions that upload them in chunks ([runner_protocol.rs],
      [platform.rs], migration 0027), the store and its files as one state; the
      invariant, the results for any interleaving, an upload for the witnesses.
    - [JobLogs], [JobLogTheorems], [LogClient], [LogDelivery], [LogSample]: the
      logs of jobs.  [JobLogs] appends, numbers and reads them
      ([infra/src/lib.rs], [runner_protocol.rs], [api/jobs_routes.rs]);
      [LogClient] is the runner that masks, batches and posts its output
      ([bin/forge-runner.rs]) against a server that is a class; [LogDelivery]
      shows the client's promise for every such server, that the handler is
      one, and both together.
    - [Deployments], [DeploymentRuntime], [DeploymentSafety],
      [DeploymentTheorems], [DeploymentSample]: environments, deployments,
      approvals and rollbacks ([platform.rs], migrations 0001, 0024, 0108,
      0109), and what a claim prepares and a completion finishes
      ([deployment_runtime.rs]).  [DeploymentSafety] has the invariant and lets
      requests, claims, the reconciler and the ledger interleave.
    - [Pipeline], [Dag], [JobFields], [LegacyPlan], [V1Plan]: the compiler of
      [api/pipelines_routes.rs].  [JobFields] validates fields, [Dag] is the
      search for levels, [Pipeline] the two compilers from the deserialised file
      to stages and plan; the other two files hold their theorems.
    - [Schedule]: cron expressions ([schedule.rs]), over a calendar.
    - [Authz]: roles, the published table of routes and the decisions
      ([app/src/lib.rs]).
    - [RateLimit]: the window limiter and its middleware ([rate_limit.rs],
      [api/authz_mw.rs]).
    - [Variables]: the environment of a pipeline ([domain/src/pipeline_variables.rs]).
    - [Images], [Helm], [Artifacts]: build specifications, publications,
      deployments and artifact names ([domain/src]).
    - [RepositorySync], [Url]: synchronisation with external repositories, clone
      URLs ([domain/src/repository_sync.rs], [repository_url.rs]).
    - [Workspace]: task workspaces and delivery commands ([domain/src]).

    ** What the theorems show

    - Plans: a compiled file gives a plan with every job once and exactly the
      declared dependencies, each on an earlier stage; levels are the longest
      paths and exist exactly on closed acyclic graphs; typed actions stay
      recognisable and carry no secrets; images of a deployment come from
      earlier publications of the same plan; accepted files are bounded.
    - Dispatch: the ledger keeps its constraints under every interleaving, no
      job has two active leases, live attempts or open queue rows; leases are
      fenced by their generation and stay closed; claims hand out only what
      waits; a cancellation ends all work of a pipeline and nothing else.
      [refused_claim_fails], [project_cap_oversubscribed] and
      [canceled_pipeline_revived] show what the code does not keep.
      A pass of the reconcilers ends and settles what ran out; a trigger adds
      exactly its pipeline.
    - Sessions: a refresh token works once, its reuse ends the family and the
      access tokens of the user for good; a login yields credentials that work.
    - Outbox: a message is tried at most eight times, spaced, by one worker at
      a time; what cannot be delivered is given up, except what
      [last_attempt_lost] shows; a merge triggers exactly its commit; rendered
      templates keep no placeholder.
    - Scheduler: every slot of a schedule once and in order, with at most one
      pipeline each.
    - Quiescence: one coordinator in control, a fence without effects next to
      it, a verified cohort is complete, processes exit only under the fence,
      and only the listed requests continue.
    - Synchronisation: the journal of runs stays well-formed, its history is
      final, workers push only what is journaled and forward, lose their run to
      a later claim and get no permission after a stop; undisturbed, a run does
      what its plan says.
    - Pull requests: a branch only moves by publishing a committed intent of
      observed heads behind the gate, at most once for a pull request; rows,
      attempts and branches agree; a merge and its CI are recorded together;
      an unconfirmed merge is settled by the references; undisturbed, a merge
      succeeds; answers are true.
    - Runners: a credential is the key of exactly its runner until it expires.
    - Secrets: what is stored comes back; only the runner of a running lease gets
      secrets, those its job declares, for a bounded time.
    - Custody: a workspace is given up only after the server keeps its result, a
      result is posted and commands are started at most once; one without a
      record of its end stops the host for good ([stranded], [unmarked_blocks]);
      what has its end on record is settled by a reconciliation.
    - Uploads: a session holds exactly the chunks it accepted, an artifact is
      exactly its session's bytes and stays so until it expires, an interrupted
      upload can be finished, a closed one cannot be begun again.
    - Logs: what a runner forwards arrives masked, in order, none twice and none
      skipped, whatever gets lost; following the pages shows every match once;
      the stream shows all it read; a search finds exactly what it says.
    - Deployments: one unresolved execution per environment, always with a
      validated offer of images that were published for its commit; nothing
      protected runs without its approvals; what has ended stays, and no older
      pipeline follows a newer one.  [approval_lost] and [replay_degrades] show
      what the code does not keep.
    - Status: the life cycle of jobs, and what a refresh computes.
    - Schedules: the next fire time is the least later minute the five words
      denote, and the search ends.
    - Authorization: decisions do not depend on the order of the table, viewers
      only read, sessions of people stay out of technical routes.
    - Limits: in any interleaving at most twice the limit passes in less than a
      window.
    - Data: validators accept exactly the documented values and what they accept
      is safe to use (paths stay below their directory, clone URLs carry no
      options, references are pinned), normalised data is canonical.

    ** Representation

    Texts are lists of Unicode code points; machine integers are [Z] with their
    bounds written out where the code can reach them; instants and timestamps
    are nanoseconds; identifiers ([Uuid]) are [N].  Fresh identifiers, the clock
    and the outcomes of services outside the repository are arguments.  The
    crates [url], [chrono], [serde_yaml] and [serde_json] are parameters, as
    classes or section variables.  The database is a record of finite maps; a
    statement or a transaction is atomic and sees the state it starts from; an
    unchecked update is proved never to break a constraint, a checked one
    returns an error.  [refresh_statuses] counts as one step.

    ** Fuel

    The level search gets one unit per job and one more: a path of the
    depth-first search never repeats a job, and [compute_levels_errors] shows
    that the fuel never runs out.  The marks of a cron range get the length of
    the range, the search for a fire time the minutes of five years, which is
    the bound of the code.  A claim gets the eight tries of the code.

    ** What is not modelled

    Rows of the ledger are never deleted (the cascade of a deleted project) and
    the triggers of the namespace migrations are absent.  The signature of
    webhooks, the preferences of users, the event stream and the listings are
    left out of the outbox; the admission to spaces, product tokens and the
    audit log of the sessions; the generations, permissions and links of paths
    and the inspection of the database of the gate; the loop of the supervisor,
    the delivery of CI events and the listings of the synchronisation.  Of
    deployments, the queries on development workspaces and the reading of JSON
    are parameters.  Of the external runner, links and foreign files, process
    groups, the renewal next to an execution and the Kubernetes mode are left
    out; of the embedded executors, everything but what they write to the
    ledger.  Process and container control, HTTP, the identity services, the
    Git host, the reading of the environment, the command line client and the web front end are
    outside: they are I/O, or calls to programs that are not in the repository.

    What could still be modelled are the Kubernetes execution journal
    ([execution/kubernetes.rs]), the delivery of tasks ([task_delivery/]) and the
    handlers of development workspaces; each is a subsystem of its own. *)
From Stdlib Require Export Ascii String ZArith Lia.
From stdpp Require Export base decidable list gmap sorting strings.

Declare Scope rust_scope.
Delimit Scope rust_scope with rust.
Open Scope rust_scope.

(** ** Results: Rust's [Result<A, E>] and the [?] operator *)

Inductive result (A E : Type) : Type :=
| Ok (a : A)
| Err (e : E).
Arguments Ok {A E} a.
Arguments Err {A E} e.

#[export] Instance result_eq_dec {A E} `{EqDecision A, EqDecision E} :
  EqDecision (result A E).
Proof. solve_decision. Defined.

Definition rbind {A B E} (r : result A E) (k : A -> result B E) : result B E :=
  match r with Ok a => k a | Err e => Err e end.

Notation "'let?' x := e 'in' k" := (rbind e (fun x => k))
  (at level 10, x pattern, e at level 200, k at level 200,
   format "'[v' 'let?'  x  :=  e  'in' '/' k ']'") : rust_scope.
(** [opt.ok_or(e)] and [res.is_ok()] *)
Definition ok_or {A E} (o : option A) (e : E) : result A E :=
  match o with Some a => Ok a | None => Err e end.
Definition is_ok {A E} (r : result A E) : bool :=
  match r with Ok _ => true | Err _ => false end.

Lemma rbind_Ok_inv {A B E} (r : result A E) (k : A -> result B E) b :
  rbind r k = Ok b -> exists a, r = Ok a /\ k a = Ok b.
Proof. destruct r; simpl; [eauto | discriminate]. Qed.

Lemma ok_or_Ok {A E} (o : option A) (e : E) a : ok_or o e = Ok a <-> o = Some a.
Proof. destruct o; simpl; split; congruence. Qed.

Lemma is_ok_true {A E} (r : result A E) : is_ok r = true <-> exists a, r = Ok a.
Proof. destruct r; simpl; split; [eauto | eauto | discriminate | intros [? [=]]]. Qed.

Definition is_none {A} (o : option A) : bool := match o with None => true | Some _ => false end.
Definition is_some {A} (o : option A) : bool := negb (is_none o).

Lemma is_none_true {A} (o : option A) : is_none o = true <-> o = None.
Proof. by destruct o. Qed.

(** Iterating a fallible body over a list ([for x in xs { ...? }]). *)
Section fold_result.
Context {A S E : Type} (body : S -> A -> result S E).

Fixpoint rfold (s : S) (xs : list A) : result S E :=
  match xs with
  | [] => Ok s
  | x :: r => let? s' := body s x in rfold s' r
  end.

Lemma rfold_app s xs ys : rfold s (xs ++ ys) = rbind (rfold s xs) (fun s' => rfold s' ys).
Proof. revert s. induction xs as [|x xs IH]; intros s; simpl; [done|]. destruct (body s x); simpl; auto. Qed.

(** Rule of loop invariants. *)
Lemma rfold_invariant (P : list A -> S -> Prop) s0 xs s :
  P [] s0 ->
  (forall pre x post s s', xs = pre ++ x :: post -> P pre s -> body s x = Ok s' -> P (pre ++ [x]) s') ->
  rfold s0 xs = Ok s -> P xs s.
Proof.
  intros H0 Hstep.
  assert (G : forall todo done_ s1, xs = done_ ++ todo -> P done_ s1 -> rfold s1 todo = Ok s -> P xs s).
  { induction todo as [|x todo IH]; intros dn s1 -> HP; simpl.
    - intros [= <-]. by rewrite app_nil_r.
    - intros (s2 & Hb & Hr)%rbind_Ok_inv. apply (IH (dn ++ [x]) s2); [by rewrite <- app_assoc| |done].
      eapply Hstep; eauto. }
  intros Hr. by apply (G xs [] s0).
Qed.
End fold_result.

(** A loop of checks succeeds exactly when every check does. *)
Lemma rfold_check {A E} (check : unit -> A -> result unit E) l :
  rfold check tt l = Ok tt <-> forall x, x ∈ l -> check tt x = Ok tt.
Proof.
  induction l as [|x l IH]; cbn [rfold].
  - split; [by intros _ x ?%elem_of_nil|done].
  - setoid_rewrite elem_of_cons. destruct (check tt x) as [[]|e] eqn:E1; cbn [rbind].
    + rewrite IH. split; [intros H y [->|Hy]; auto|auto].
    + split; [done|]. intros H. rewrite (H x) in E1 by auto. done.
Qed.

(** ** Characters and strings

    A Rust [char] is its Unicode scalar value, a [str] the list of its
    characters; [bytes] is the UTF-8 encoding and [len] counts bytes. *)

Abbreviation char := N (only parsing).
Abbreviation str := (list N).

Definition char_bytes (c : char) : list N :=
  (if c <? 0x80 then [c]
   else if c <? 0x800 then [0xC0 + c / 64; 0x80 + c mod 64]
   else if c <? 0x10000 then [0xE0 + c / 4096; 0x80 + (c / 64) mod 64; 0x80 + c mod 64]
   else [0xF0 + c / 262144; 0x80 + (c / 4096) mod 64; 0x80 + (c / 64) mod 64; 0x80 + c mod 64])%N.

Definition bytes (s : str) : list N := flat_map char_bytes s.

Definition len (s : str) : Z := Z.of_nat (length (bytes s)).
Definition zlen {A} (l : list A) : Z := Z.of_nat (length l).

Fixpoint utf8_decode (bs : list N) : str :=
  match bs with
  | [] => []
  | b0 :: r =>
    if (b0 <? 0x80)%N then b0 :: utf8_decode r
    else match r with
    | [] => []
    | b1 :: r1 =>
      if (b0 <? 0xE0)%N then ((b0 - 0xC0) * 64 + (b1 - 0x80))%N :: utf8_decode r1
      else match r1 with
      | [] => []
      | b2 :: r2 =>
        if (b0 <? 0xF0)%N
        then ((b0 - 0xE0) * 4096 + (b1 - 0x80) * 64 + (b2 - 0x80))%N :: utf8_decode r2
        else match r2 with
        | [] => []
        | b3 :: r3 =>
          ((b0 - 0xF0) * 262144 + (b1 - 0x80) * 4096 + (b2 - 0x80) * 64 + (b3 - 0x80))%N :: utf8_decode r3
        end
      end
    end
  end.

(** A string literal of the source. *)
Definition lit (s : string) : str := utf8_decode (map N_of_ascii (list_ascii_of_string s)).
Arguments lit : simpl never.
Arguments len : simpl never.
Notation "§ x" := (lit x%string) (at level 8, x at level 0, format "§ x") : rust_scope.

Definition str_eqb (a b : str) : bool := bool_decide (a = b).

(** ** Character classes ([u8]/[char] methods of the standard library) *)

Definition between (lo hi c : N) : bool := ((lo <=? c) && (c <=? hi))%N.
Definition is_ascii_digit := between 48 57.
Definition is_ascii_lowercase := between 97 122.
Definition is_ascii_uppercase := between 65 90.
Definition is_ascii_alphabetic (c : N) : bool := is_ascii_lowercase c || is_ascii_uppercase c.
Definition is_ascii_alphanumeric (c : N) : bool := is_ascii_alphabetic c || is_ascii_digit c.
Definition is_ascii_hexdigit (c : N) : bool := is_ascii_digit c || between 97 102 c || between 65 70 c.
Definition is_ascii_control (c : N) : bool := (c <? 32)%N || (c =? 127)%N.
(** Unicode general category [Cc]. *)
Definition is_control (c : char) : bool := (c <? 32)%N || between 127 159 c.
(** Unicode [White_Space]. *)
Definition is_whitespace (c : char) : bool :=
  between 9 13 c || (c =? 32)%N || (c =? 0x85)%N || (c =? 0xA0)%N || (c =? 0x1680)%N
  || between 0x2000 0x200A c || (c =? 0x2028)%N || (c =? 0x2029)%N || (c =? 0x202F)%N
  || (c =? 0x205F)%N || (c =? 0x3000)%N.

Definition to_ascii_uppercase (s : str) : str :=
  map (fun c => if is_ascii_lowercase c then (c - 32)%N else c) s.

(** Membership of a character in a literal set, as in [b"-_.".contains(&c)]. *)
Definition char_in (set : str) (c : char) : bool := existsb (N.eqb c) set.

(** Lowercase hexadecimal digits, [b'0'..=b'9' | b'a'..=b'f']. *)
Definition is_lower_hex (c : N) : bool := is_ascii_digit c || between 97 102 c.

(** ** String operations of the standard library *)

Definition is_empty {A} (s : list A) : bool := match s with [] => true | _ => false end.

Fixpoint strip_prefix (p s : str) : option str :=
  match p, s with
  | [], _ => Some s
  | x :: p', y :: s' => if (x =? y)%N then strip_prefix p' s' else None
  | _ :: _, [] => None
  end.

Definition starts_with (p s : str) : bool := match strip_prefix p s with Some _ => true | None => false end.
Definition ends_with (p s : str) : bool := starts_with (rev p) (rev s).

(** [s.split_once(pat)] and [s.contains(pat)]. *)
Fixpoint split_once (pat s : str) : option (str * str) :=
  match strip_prefix pat s with
  | Some r => Some ([], r)
  | None =>
    match s with
    | [] => None
    | c :: s' => match split_once pat s' with Some (a, b) => Some (c :: a, b) | None => None end
    end
  end.

Definition contains (pat s : str) : bool := match split_once pat s with Some _ => true | None => false end.
Definition contains_char (c : char) (s : str) : bool := existsb (N.eqb c) s.

(** [s.split(c)]: always at least one part. *)
Fixpoint split (c : char) (s : str) : list str :=
  match s with
  | [] => [[]]
  | x :: s' =>
    if (x =? c)%N then [] :: split c s'
    else match split c s' with [] => [[x]] | p :: ps => (x :: p) :: ps end
  end.

Fixpoint drop_while {A} (f : A -> bool) (s : list A) : list A :=
  match s with [] => [] | x :: s' => if f x then drop_while f s' else s end.

Definition trim_start_matches (f : char -> bool) : str -> str := drop_while f.
Definition trim_end_matches (f : char -> bool) (s : str) : str := rev (drop_while f (rev s)).
Definition trim_matches (f : char -> bool) (s : str) : str := trim_end_matches f (trim_start_matches f s).
Definition trim : str -> str := trim_matches is_whitespace.

(** [s.trim_end_matches("suffix")]: the suffix is removed as often as it occurs. *)
Fixpoint strip_prefixes (fuel : nat) (p s : str) : str :=
  match fuel with
  | O => s
  | S f => match strip_prefix p s with Some r => strip_prefixes f p r | None => s end
  end.
Definition trim_end_str (p s : str) : str := rev (strip_prefixes (length s) (rev p) (rev s)).

(** [s.split_whitespace()] *)
Fixpoint split_words (s : str) : list str :=
  match s with
  | [] => [[]]
  | x :: s' =>
    if is_whitespace x then [] :: split_words s'
    else match split_words s' with [] => [[x]] | p :: ps => (x :: p) :: ps end
  end.
Definition split_whitespace (s : str) : list str := filter (fun w => w <> []) (split_words s).

(** [parts.join(sep)] *)
Fixpoint join (sep : str) (l : list str) : str :=
  match l with
  | [] => []
  | [x] => x
  | x :: r => x ++ sep ++ join sep r
  end.

(** ** Integers *)

Definition i32_max : Z := 2147483647.
Definition i64_max : Z := 9223372036854775807.
Definition u32_max : Z := 4294967295.
(** The largest integer exactly representable in an IEEE double. *)
Definition max_safe_integer : Z := 9007199254740991.

Definition in_range (lo hi n : Z) : bool := (lo <=? n)%Z && (n <=? hi)%Z.

(** [a.checked_mul(b)] and [a.checked_add(b)] with [MAX] the largest value of
    the type, for non-negative operands. *)
Definition checked_mul (max a b : Z) : option Z := if (a * b <=? max)%Z then Some (a * b)%Z else None.
Definition checked_add (max a b : Z) : option Z := if (a + b <=? max)%Z then Some (a + b)%Z else None.

Fixpoint digits_val (acc : Z) (s : str) : option Z :=
  match s with
  | [] => Some acc
  | c :: r => if is_ascii_digit c then digits_val (acc * 10 + (Z.of_N c - 48)) r else None
  end.

(** [s.parse::<u32>()] and its siblings: an optional [+], then digits. *)
Definition parse_unsigned (max : Z) (s : str) : option Z :=
  let d := match s with c :: r => if (c =? 43)%N then r else s | [] => s end in
  match d with
  | [] => None
  | _ => match digits_val 0 d with
         | Some v => if (v <=? max)%Z then Some v else None
         | None => None
         end
  end.

(** [s.parse::<i32>()], [s.parse::<i64>()]: an optional sign, then digits. *)
Definition parse_signed (max : Z) (s : str) : option Z :=
  match s with
  | c :: ((_ :: _) as d) =>
    if (c =? 45)%N then
      match digits_val 0 d with
      | Some v => if (v <=? max + 1)%Z then Some (- v)%Z else None
      | None => None
      end
    else parse_unsigned max s
  | _ => parse_unsigned max s
  end.

(** [n.to_string()] for a non-negative integer. *)
Fixpoint show_digits (fuel : nat) (n : Z) (acc : str) : str :=
  match fuel with
  | O => acc
  | S f =>
    let acc' := Z.to_N (48 + n mod 10) :: acc in
    if (n <? 10)%Z then acc' else show_digits f (n / 10) acc'
  end.
Definition show_nonneg (n : Z) : str := show_digits (S (Z.to_nat (Z.log2 n))) n [].
Definition show_Z (n : Z) : str := if (n <? 0)%Z then 45%N :: show_nonneg (- n) else show_nonneg n.

(** ** Automation shared by the components *)

Create HintDb rust discriminated.
Create Rewrite HintDb rust.

(** Turns boolean facts in the context and the goal into propositions. *)
Ltac bool_norm :=
  repeat match goal with
  | H : (_ && _)%bool = true |- _ => apply andb_true_iff in H; destruct H
  | H : (_ || _)%bool = false |- _ => apply orb_false_iff in H; destruct H
  | H : negb _ = true |- _ => apply negb_true_iff in H
  | H : negb _ = false |- _ => apply negb_false_iff in H
  | H : bool_decide _ = true |- _ => apply bool_decide_eq_true in H
  | H : bool_decide _ = false |- _ => apply bool_decide_eq_false in H
  | H : (_ <=? _)%Z = true |- _ => apply Z.leb_le in H
  | H : (_ <=? _)%Z = false |- _ => apply Z.leb_gt in H
  | H : (_ <? _)%Z = true |- _ => apply Z.ltb_lt in H
  | H : (_ <? _)%Z = false |- _ => apply Z.ltb_ge in H
  | H : (_ =? _)%Z = true |- _ => apply Z.eqb_eq in H
  | H : (_ =? _)%Z = false |- _ => apply Z.eqb_neq in H
  | H : (_ <=? _)%N = true |- _ => apply N.leb_le in H
  | H : (_ <=? _)%N = false |- _ => apply N.leb_gt in H
  | H : (_ <? _)%N = true |- _ => apply N.ltb_lt in H
  | H : (_ <? _)%N = false |- _ => apply N.ltb_ge in H
  | H : (_ =? _)%N = true |- _ => apply N.eqb_eq in H
  | H : (_ =? _)%N = false |- _ => apply N.eqb_neq in H
  | H : str_eqb _ _ = true |- _ => unfold str_eqb in H
  | H : str_eqb _ _ = false |- _ => unfold str_eqb in H
  end.

(** Splits a hypothesis [(if b1 then Err _ else ... Ok x) = Ok y] along the
    tests the code makes. *)
Ltac ok_inv H :=
  repeat match type of H with
  | (if ?b then Err _ else _) = Ok _ => let E := fresh "Hguard" in destruct b eqn:E; [discriminate H|]
  | (if ?b then _ else Err _) = Ok _ => let E := fresh "Hguard" in destruct b eqn:E; [|discriminate H]
  | rbind _ _ = Ok _ =>
    let a := fresh "a" in let Ha := fresh "Hok" in
    apply rbind_Ok_inv in H; destruct H as (a & Ha & H); cbn beta in H
  | Ok _ = Ok _ => injection H as H
  | Err _ = Ok _ => discriminate H
  end.

(** ** Facts about characters and strings *)

Lemma str_eqb_true a b : str_eqb a b = true <-> a = b.
Proof. unfold str_eqb. by rewrite bool_decide_eq_true. Qed.

Lemma str_eqb_refl a : str_eqb a a = true.
Proof. by apply str_eqb_true. Qed.

Lemma between_iff lo hi c : between lo hi c = true <-> (lo <= c <= hi)%N.
Proof. unfold between. rewrite andb_true_iff, !N.leb_le. lia. Qed.

Lemma char_in_iff set c : char_in set c = true <-> c ∈ set.
Proof.
  unfold char_in. rewrite existsb_exists. setoid_rewrite N.eqb_eq.
  rewrite list_elem_of_In. split; [intros (? & ? & ->); done | eauto].
Qed.

Lemma forallb_iff {A} (f : A -> bool) l : forallb f l = true <-> forall x, x ∈ l -> f x = true.
Proof. rewrite forallb_forall. by setoid_rewrite list_elem_of_In. Qed.

Lemma existsb_iff {A} (f : A -> bool) l : existsb f l = true <-> exists x, x ∈ l /\ f x = true.
Proof. rewrite existsb_exists. by setoid_rewrite list_elem_of_In. Qed.

Lemma existsb_false_iff {A} (f : A -> bool) l : existsb f l = false <-> forall x, x ∈ l -> f x = false.
Proof.
  rewrite <- not_true_iff_false, existsb_iff. split.
  - intros H x Hx. destruct (f x) eqn:E; [|done]. exfalso; eauto.
  - intros H (x & Hx & E). rewrite (H x Hx) in E. done.
Qed.

Lemma char_bytes_ascii c : (c < 128)%N -> char_bytes c = [c].
Proof. intros H. unfold char_bytes. by rewrite (proj2 (N.ltb_lt _ _)). Qed.

Lemma char_bytes_high c b : (128 <= c)%N -> b ∈ char_bytes c -> (128 <= b)%N.
Proof.
  intros H Hb. cut (Forall (fun b => (128 <= b)%N) (char_bytes c)).
  { rewrite Forall_forall. by intros Hf; apply Hf. }
  clear b Hb. unfold char_bytes. rewrite (proj2 (N.ltb_ge _ _)) by lia.
  repeat case_match; repeat apply Forall_cons_2; try apply Forall_nil_2;
    (apply N.le_trans with (128 + 0)%N; [lia | apply N.add_le_mono; [done | apply N.le_0_l]]).
Qed.

(** A test on bytes that only accepts ASCII is the same test on characters. *)
Lemma forallb_bytes (p : N -> bool) s :
  (forall c, p c = true -> (c < 128)%N) -> forallb p (bytes s) = forallb p s.
Proof.
  intros Hp. induction s as [|c s IH]; [done|].
  unfold bytes in *. cbn [flat_map forallb]. rewrite forallb_app, IH. f_equal.
  destruct (N.lt_ge_cases c 128) as [Hc|Hc].
  - rewrite char_bytes_ascii by done. cbn. by rewrite andb_true_r.
  - assert (Hf : p c = false) by (apply not_true_iff_false; intros ?%Hp; lia). rewrite Hf.
    destruct (char_bytes c) as [|b bs] eqn:E.
    { exfalso. revert E. unfold char_bytes. repeat case_match; discriminate. }
    cbn. assert (Hb : p b = false); [|by rewrite Hb].
    apply not_true_iff_false; intros ?%Hp.
    pose proof (char_bytes_high c b Hc) as Hh. rewrite E in Hh. specialize (Hh ltac:(set_solver)). lia.
Qed.

Lemma is_ascii_alphanumeric_lt c : is_ascii_alphanumeric c = true -> (c < 128)%N.
Proof.
  unfold is_ascii_alphanumeric, is_ascii_alphabetic, is_ascii_lowercase, is_ascii_uppercase, is_ascii_digit.
  rewrite !orb_true_iff, !between_iff. lia.
Qed.

Lemma is_lower_hex_lt c : is_lower_hex c = true -> (c < 128)%N.
Proof. unfold is_lower_hex, is_ascii_digit. rewrite orb_true_iff, !between_iff. lia. Qed.

Lemma strip_prefix_Some p s r : strip_prefix p s = Some r <-> s = p ++ r.
Proof.
  revert s. induction p as [|x p IH]; intros [|y s]; simpl; try (split; congruence).
  destruct (N.eqb_spec x y) as [->|Hne].
  - rewrite IH. split; congruence.
  - split; congruence.
Qed.

Lemma starts_with_iff p s : starts_with p s = true <-> exists r, s = p ++ r.
Proof.
  unfold starts_with. destruct (strip_prefix p s) as [r|] eqn:E.
  - apply strip_prefix_Some in E. split; eauto.
  - split; [done|]. intros [r Hr]. apply strip_prefix_Some in Hr. congruence.
Qed.

Lemma split_once_Some pat s a b : split_once pat s = Some (a, b) -> s = a ++ pat ++ b.
Proof.
  revert a. induction s as [|c s IH]; intros a; simpl; destruct (strip_prefix pat _) as [r|] eqn:E;
    try apply strip_prefix_Some in E.
  - intros [= <- <-]. done.
  - done.
  - intros [= <- <-]. done.
  - destruct (split_once pat s) as [[a' b']|]; [|done]. intros [= <- <-]. simpl. by rewrite (IH a').
Qed.

Lemma split_once_None pat s : split_once pat s = None -> forall a b, s <> a ++ pat ++ b.
Proof.
  induction s as [|c s IH]; simpl; destruct (strip_prefix pat _) as [r|] eqn:E; try done.
  - intros _ [|? ?] b; [|done]. simpl. intros H. apply strip_prefix_Some in H. simpl in E, H. congruence.
  - destruct (split_once pat s) as [[? ?]|] eqn:E'; [done|]. intros _ [|x a] b; simpl.
    + intros H. apply strip_prefix_Some in H. congruence.
    + intros [= -> H]. by apply (IH eq_refl a b).
Qed.

(** The first occurrence of a character separates. *)
Lemma split_once_char c a b : c ∉ a -> split_once [c] (a ++ c :: b) = Some (a, b).
Proof.
  induction a as [|x a IH]; cbn; [by rewrite N.eqb_refl|]. rewrite not_elem_of_cons. intros [Hx Ha].
  destruct (N.eqb_spec c x); [congruence|]. by rewrite IH.
Qed.

Lemma contains_iff pat s : contains pat s = true <-> exists a b, s = a ++ pat ++ b.
Proof.
  unfold contains. destruct (split_once pat s) as [[a b]|] eqn:E.
  - apply split_once_Some in E. split; eauto.
  - split; [done|]. intros (a & b & H). by apply (split_once_None _ _ E) in H.
Qed.

Lemma contains_char_iff c s : contains_char c s = true <-> c ∈ s.
Proof. apply char_in_iff. Qed.

Lemma split_nonnil c s : split c s <> [].
Proof. destruct s as [|x s]; simpl; [done|]. destruct (x =? c)%N; [done|]. by destruct (split c s). Qed.

(** Splitting and joining are inverse. *)
Lemma join_split c s : join [c] (split c s) = s.
Proof.
  induction s as [|x s IH]; simpl; [done|]. pose proof (split_nonnil c s).
  destruct (N.eqb_spec x c) as [->|Hne].
  - destruct (split c s); [done|]. simpl. by rewrite <- IH.
  - destruct (split c s) as [|p ps]; [done|]. destruct ps; simpl in *; by rewrite <- IH.
Qed.

Lemma split_no_sep c s p : p ∈ split c s -> c ∉ p.
Proof.
  revert p. induction s as [|x s IH]; intros p; simpl.
  - rewrite list_elem_of_singleton. intros ->. apply not_elem_of_nil.
  - destruct (N.eqb_spec x c) as [->|Hne].
    + rewrite elem_of_cons. intros [->|Hp]; [apply not_elem_of_nil | by apply IH].
    + pose proof (split_nonnil c s). destruct (split c s) as [|q qs]; [done|].
      rewrite elem_of_cons. intros [->|Hp].
      * rewrite not_elem_of_cons. split; [congruence | apply IH; left].
      * apply IH. by right.
Qed.

Lemma split_char_elem c s p x : p ∈ split c s -> x ∈ p -> x ∈ s.
Proof.
  revert p. induction s as [|y s IH]; intros p; simpl.
  - rewrite list_elem_of_singleton. by intros ->.
  - destruct (N.eqb_spec y c) as [->|Hne].
    + rewrite elem_of_cons. intros [->|Hp] Hx; [by apply elem_of_nil in Hx | right; eauto].
    + pose proof (split_nonnil c s). destruct (split c s) as [|q qs]; [done|].
      rewrite elem_of_cons. intros [->|Hp] Hx.
      * apply elem_of_cons in Hx as [->|Hx]; [left|right; apply (IH q); [left|done]].
      * right. apply (IH p); [by right|done].
Qed.

Lemma split_no_char c s : c ∉ s -> split c s = [s].
Proof.
  induction s as [|x s IH]; [done|]. rewrite not_elem_of_cons. intros [Hx Hs]. simpl.
  rewrite (IH Hs). by destruct (N.eqb_spec x c).
Qed.

Lemma split_app c a b : c ∉ a -> split c (a ++ c :: b) = a :: split c b.
Proof.
  induction a as [|x a IH]; simpl.
  - by rewrite N.eqb_refl.
  - rewrite not_elem_of_cons. intros [Hx Ha]. rewrite (IH Ha). by destruct (N.eqb_spec x c).
Qed.

Lemma split_join c l : l <> [] -> (forall p, p ∈ l -> c ∉ p) -> split c (join [c] l) = l.
Proof.
  induction l as [|x [|y l] IH]; intros Hn Hl; [done| |].
  - simpl. apply split_no_char, Hl. left.
  - cbn [join app]. rewrite split_app by (apply Hl; left).
    f_equal. apply IH; [done|]. intros p Hp. apply Hl. by right.
Qed.

(** [trim] leaves no white space at either end, and is idempotent. *)
Lemma drop_while_head {A} (f : A -> bool) l x r : drop_while f l = x :: r -> f x = false.
Proof. induction l as [|y l IH]; simpl; [done|]. destruct (f y) eqn:E; [done|]. by intros [= <- <-]. Qed.

Lemma drop_while_id {A} (f : A -> bool) l : (forall x r, l = x :: r -> f x = false) -> drop_while f l = l.
Proof. destruct l as [|x r]; [done|]. intros H. simpl. by rewrite (H x r). Qed.

Lemma drop_while_suffix {A} (f : A -> bool) l : exists p, l = p ++ drop_while f l /\ forallb f p = true.
Proof.
  induction l as [|x l [p [Hp Hf]]]; [by exists []|]. simpl. destruct (f x) eqn:E.
  - exists (x :: p). split; simpl; [congruence | by rewrite E].
  - by exists [].
Qed.

Lemma trim_end_prefix f s : exists t, s = trim_end_matches f s ++ t /\ forallb f t = true.
Proof.
  unfold trim_end_matches. destruct (drop_while_suffix f (rev s)) as [p [Hp Hf]]. exists (rev p). split.
  - rewrite <- rev_app_distr, <- Hp. symmetry. apply rev_involutive.
  - apply forallb_iff. intros x Hx. rewrite forallb_iff in Hf. apply Hf.
    apply list_elem_of_In. apply in_rev. by apply list_elem_of_In in Hx.
Qed.

Lemma trim_matches_idemp f s : trim_matches f (trim_matches f s) = trim_matches f s.
Proof.
  unfold trim_matches, trim_start_matches. set (u := drop_while f s).
  destruct (trim_end_prefix f u) as [t [Ht _]].
  assert (Hu : drop_while f (trim_end_matches f u) = trim_end_matches f u).
  { apply drop_while_id. intros x r E. rewrite E in Ht. simpl in Ht.
    eapply (drop_while_head f s). fold u. exact Ht. }
  rewrite Hu. unfold trim_end_matches at 1. f_equal.
  unfold trim_end_matches at 1. rewrite rev_involutive. unfold trim_end_matches.
  apply (f_equal (@rev N)). rewrite drop_while_id.
  - done.
  - intros x r E. by apply drop_while_head in E.
Qed.

Lemma trim_no_space s : (forall c, c ∈ s -> is_whitespace c = false) -> trim s = s.
Proof.
  intros H. assert (Hd : forall l, (forall c, c ∈ l -> is_whitespace c = false) -> drop_while is_whitespace l = l).
  { intros l Hl. apply drop_while_id. intros x r ->. apply Hl. left. }
  unfold trim, trim_matches, trim_end_matches, trim_start_matches. rewrite (Hd s H), Hd; [apply rev_involutive|].
  intros c Hc. apply H. apply list_elem_of_In, in_rev. by apply list_elem_of_In in Hc.
Qed.

(** ** Decimal numbers *)

Lemma is_ascii_digit_iff c : is_ascii_digit c = true <-> (48 <= c <= 57)%N.
Proof. apply between_iff. Qed.

Lemma digits_val_app a s t : digits_val a (s ++ t) = match digits_val a s with Some v => digits_val v t | None => None end.
Proof. revert a. induction s as [|c s IH]; intros a; simpl; [done|]. destruct (is_ascii_digit c); auto. Qed.

Lemma digits_val_ge a s v : (0 <= a)%Z -> digits_val a s = Some v -> (a <= v)%Z.
Proof.
  revert a. induction s as [|c s IH]; intros a Ha; simpl; [intros [= ->]; lia|].
  destruct (is_ascii_digit c) eqn:E; [|done]. apply is_ascii_digit_iff in E.
  intros H. apply IH in H; lia.
Qed.

Lemma digits_val_digits a s v : digits_val a s = Some v -> forallb is_ascii_digit s = true.
Proof.
  revert a. induction s as [|c s IH]; intros a; simpl; [done|].
  destruct (is_ascii_digit c); [apply IH | done].
Qed.

Lemma digits_val_total a s : forallb is_ascii_digit s = true -> exists v, digits_val a s = Some v.
Proof.
  revert a. induction s as [|c s IH]; intros a; simpl; [eauto|].
  destruct (is_ascii_digit c); [apply IH | done].
Qed.

Lemma parse_unsigned_range max s v : parse_unsigned max s = Some v -> (0 <= v <= max)%Z.
Proof.
  unfold parse_unsigned. set (d := match s with [] => s | c :: r => if (c =? 43)%N then r else s end).
  destruct d as [|c d]; [done|]. destruct (digits_val 0 (c :: d)) as [w|] eqn:E; [|done].
  destruct (Z.leb_spec w max); [|done]. intros [= <-]. apply digits_val_ge in E; lia.
Qed.

Lemma parse_signed_range max s v : (0 <= max)%Z -> parse_signed max s = Some v -> (- max - 1 <= v <= max)%Z.
Proof.
  intros Hm. assert (Hu : parse_unsigned max s = Some v -> (- max - 1 <= v <= max)%Z).
  { intros H%parse_unsigned_range. lia. }
  unfold parse_signed. destruct s as [|c [|x r]]; try exact Hu.
  destruct (N.eqb_spec c 45); [|exact Hu].
  destruct (digits_val 0 (x :: r)) as [w|] eqn:E; [|done].
  destruct (Z.leb_spec w (max + 1)); [|done]. intros [= <-]. apply digits_val_ge in E; lia.
Qed.

Lemma show_digits_val fuel n acc v :
  (0 <= n)%Z -> (n < 2 ^ Z.of_nat fuel)%Z -> fuel <> O ->
  forall a, digits_val n acc = Some v -> a = 0%Z -> digits_val a (show_digits fuel n acc) = Some v.
Proof.
  intros Hn Hf Hz a Hv ->. revert n acc Hn Hf Hv.
  assert (Hd : forall n acc, (0 <= n)%Z ->
    digits_val (n / 10) (Z.to_N (48 + n mod 10) :: acc) = digits_val n acc).
  { intros n acc Hn. cbn [digits_val]. pose proof (Z.mod_pos_bound n 10 ltac:(lia)).
    rewrite (proj2 (is_ascii_digit_iff _)) by lia. apply (f_equal (fun a => digits_val a acc)).
    rewrite ?Z2N.id by lia. pose proof (Z.div_mod n 10 ltac:(lia)). lia. }
  induction fuel as [|f IH]; [done|]. intros n acc Hn Hf Hv. cbn [show_digits].
  destruct (Z.ltb_spec n 10) as [Hlt|Hge].
  - rewrite <- Hv, <- (Hd n acc Hn), (Z.div_small n 10) by lia. done.
  - apply IH.
    + intros ->. simpl in Hf. lia.
    + apply Z.div_pos; lia.
    + apply Z.div_lt_upper_bound; [lia|]. rewrite Nat2Z.inj_succ, Z.pow_succ_r in Hf by lia. lia.
    + by rewrite Hd.
Qed.

Lemma show_nonneg_val n : (0 <= n)%Z -> digits_val 0 (show_nonneg n) = Some n.
Proof.
  intros Hn. unfold show_nonneg. apply (show_digits_val _ n []); try done.
  rewrite Nat2Z.inj_succ, Z2Nat.id by apply Z.log2_nonneg.
  destruct (Z.eq_dec n 0%Z) as [->|Hne]; [done|]. apply Z.log2_spec; lia.
Qed.

Lemma show_nonneg_inj n m : (0 <= n)%Z -> (0 <= m)%Z -> show_nonneg n = show_nonneg m -> n = m.
Proof. intros Hn Hm H. apply show_nonneg_val in Hn, Hm. rewrite H in Hn. congruence. Qed.

Lemma show_nonneg_digits n : (0 <= n)%Z -> forallb is_ascii_digit (show_nonneg n) = true.
Proof. intros Hn%show_nonneg_val. by eapply digits_val_digits. Qed.

(** The decimal of a positive number has no leading zero. *)
Lemma show_digits_head fuel n acc :
  (0 < n < 2 ^ Z.of_nat fuel)%Z -> exists c r, show_digits fuel n acc = c :: r /\ is_ascii_digit c = true /\ c <> 48%N.
Proof.
  revert n acc. induction fuel as [|f IH]; intros n acc Hn; [simpl in Hn; lia|]. cbn [show_digits].
  destruct (Z.ltb_spec n 10) as [Hlt|Hge].
  - rewrite Z.mod_small by lia. do 2 eexists. split; [reflexivity|]. rewrite is_ascii_digit_iff. lia.
  - apply IH. split; [apply Z.div_str_pos; lia|]. apply Z.div_lt_upper_bound; [lia|].
    rewrite Nat2Z.inj_succ, Z.pow_succ_r in Hn by lia. lia.
Qed.

Lemma show_nonneg_head n : (0 < n)%Z -> exists c r, show_nonneg n = c :: r /\ is_ascii_digit c = true /\ c <> 48%N.
Proof.
  intros Hn. apply show_digits_head. split; [done|].
  rewrite Nat2Z.inj_succ, Z2Nat.id by apply Z.log2_nonneg. apply Z.log2_spec; lia.
Qed.

Lemma show_Z_nonneg n : (0 <= n)%Z -> show_Z n = show_nonneg n.
Proof. intros H. unfold show_Z. by rewrite (proj2 (Z.ltb_ge _ _)). Qed.

(** ** Ordered iteration: [BTreeMap<String, V>] and [BTreeSet<String>]

    Rust orders strings by their bytes, which for UTF-8 is the order of the
    code points.  A map is a [gmap]; iterating over it visits the bindings in
    the order of their keys. *)

Fixpoint str_leb (a b : str) : bool :=
  match a, b with
  | [], _ => true
  | _ :: _, [] => false
  | x :: a', y :: b' => (x <? y)%N || ((x =? y)%N && str_leb a' b')
  end.
Definition str_le (a b : str) : Prop := str_leb a b = true.
#[export] Instance str_le_dec : RelDecision str_le.
Proof. intros a b. unfold str_le. apply _. Defined.

#[export] Instance str_le_total : Total str_le.
Proof.
  intros a. unfold str_le. induction a as [|x a IH]; intros [|y b]; simpl; auto.
  destruct (N.lt_trichotomy x y) as [H|[->|H]].
  - left. by rewrite (proj2 (N.ltb_lt _ _)).
  - rewrite N.eqb_refl, N.ltb_irrefl. simpl. apply IH.
  - right. by rewrite (proj2 (N.ltb_lt _ _)).
Qed.

#[export] Instance str_le_po : PartialOrder str_le.
Proof.
  unfold str_le. repeat split.
  - intros a. induction a as [|x a IH]; simpl; [done|]. by rewrite N.eqb_refl, IH, orb_true_r.
  - intros a. induction a as [|x a IH]; intros [|y b] [|z c]; simpl; try done.
    rewrite !orb_true_iff, !andb_true_iff, !N.ltb_lt, !N.eqb_eq. intros [?|[-> ?]] [?|[-> ?]]; eauto.
    left. lia.
  - intros a. induction a as [|x a IH]; intros [|y b]; simpl; try done.
    rewrite !orb_true_iff, !andb_true_iff, !N.ltb_lt, !N.eqb_eq.
    intros [?|[-> ?]] [?|[? ?]]; try lia. f_equal; auto.
Qed.

Section btree.
Context {V : Type}.
Implicit Types m : gmap str V.

Definition key_le (p q : str * V) : Prop := str_le p.1 q.1.
#[export] Instance key_le_dec : RelDecision key_le.
Proof. intros p q. unfold key_le. apply _. Defined.
#[export] Instance key_le_total : Total key_le.
Proof. intros p q. apply (total str_le). Qed.
#[export] Instance key_le_trans : Transitive key_le.
Proof. intros p q r. unfold key_le. apply transitivity. Qed.

Definition bindings m : list (str * V) := merge_sort key_le (map_to_list m).
Definition keys m : list str := map fst (bindings m).
Definition values m : list V := map snd (bindings m).

Lemma bindings_perm m : bindings m ≡ₚ map_to_list m.
Proof. apply merge_sort_Permutation. Qed.

Lemma elem_of_bindings m k v : (k, v) ∈ bindings m <-> m !! k = Some v.
Proof. rewrite bindings_perm. apply elem_of_map_to_list. Qed.

Lemma elem_of_keys m k : k ∈ keys m <-> is_Some (m !! k).
Proof.
  unfold keys. rewrite list_elem_of_fmap. split.
  - intros ([k' v] & -> & Hb). apply elem_of_bindings in Hb. by exists v.
  - intros [v Hv]. exists (k, v). split; [done|]. by apply elem_of_bindings.
Qed.

Lemma elem_of_values m v : v ∈ values m <-> exists k, m !! k = Some v.
Proof.
  unfold values. rewrite list_elem_of_fmap. split.
  - intros ([k' v'] & -> & Hb). apply elem_of_bindings in Hb. eauto.
  - intros [k Hk]. exists (k, v). split; [done|]. by apply elem_of_bindings.
Qed.

Lemma NoDup_keys m : NoDup (keys m).
Proof. unfold keys. rewrite bindings_perm. apply NoDup_fst_map_to_list. Qed.

Lemma keys_sorted m : StronglySorted str_le (keys m).
Proof.
  unfold keys. pose proof (StronglySorted_merge_sort key_le (map_to_list m)) as Hs.
  fold (bindings m) in Hs. induction Hs as [|p l Hs IH Hf]; simpl; constructor; [done|].
  by apply Forall_fmap.
Qed.

Lemma length_bindings m : length (bindings m) = size m.
Proof. rewrite bindings_perm. apply length_map_to_list. Qed.
End btree.

(** The elements of a [BTreeSet<String>] built from a list, in order. *)
Definition sort_dedup (l : list str) : list str := merge_sort str_le (elements (list_to_set (C := gset str) l)).

Lemma elem_of_sort_dedup l x : x ∈ sort_dedup l <-> x ∈ l.
Proof. unfold sort_dedup. rewrite merge_sort_Permutation, elem_of_elements. apply elem_of_list_to_set. Qed.

Lemma NoDup_sort_dedup l : NoDup (sort_dedup l).
Proof. unfold sort_dedup. rewrite merge_sort_Permutation. apply NoDup_elements. Qed.

Lemma sort_dedup_sorted l : StronglySorted str_le (sort_dedup l).
Proof. apply (StronglySorted_merge_sort _). Qed.

Lemma sort_dedup_ext l k : (forall x, x ∈ l <-> x ∈ k) -> sort_dedup l = sort_dedup k.
Proof.
  intros H. unfold sort_dedup. f_equal. f_equal. apply set_eq. intros x.
  by rewrite !elem_of_list_to_set.
Qed.

#[export] Hint Resolve NoDup_keys NoDup_sort_dedup keys_sorted sort_dedup_sorted : rust.
#[export] Hint Rewrite @elem_of_keys @elem_of_values elem_of_sort_dedup str_eqb_true char_in_iff
  between_iff @forallb_iff @existsb_iff andb_true_iff orb_true_iff negb_true_iff
  Z.leb_le Z.ltb_lt Z.eqb_eq N.leb_le N.ltb_lt N.eqb_eq : rust.

(** [xs.enumerate().all(f)] *)
Fixpoint forallbi_from {A} (i : nat) (f : nat -> A -> bool) (l : list A) : bool :=
  match l with [] => true | x :: r => f i x && forallbi_from (S i) f r end.
Definition forallbi {A} (f : nat -> A -> bool) (l : list A) : bool := forallbi_from 0 f l.

Lemma forallbi_iff {A} (f : nat -> A -> bool) l :
  forallbi f l = true <-> forall i x, l !! i = Some x -> f i x = true.
Proof.
  unfold forallbi. enough (H : forall k, forallbi_from k f l = true <-> forall i x, l !! i = Some x -> f (k + i) x = true) by apply H.
  induction l as [|y l IH]; intros k; simpl.
  - split; [intros _ i x; by rewrite lookup_nil | done].
  - rewrite andb_true_iff, IH. split.
    + intros [H0 Hr] [|i] x; simpl; [intros [= <-]; by rewrite Nat.add_0_r|].
      intros Hx. rewrite <- Nat.add_succ_comm. by apply Hr.
    + intros H. split; [rewrite <- (Nat.add_0_r k); by apply H|].
      intros i x Hx. rewrite Nat.add_succ_comm. by apply H.
Qed.

Lemma sublist_filter_bool {A} (f : A -> bool) l : List.filter f l `sublist_of` l.
Proof. induction l as [|x l IH]; cbn; [constructor|]. destruct (f x); by constructor. Qed.

Lemma is_empty_true {A} (l : list A) : is_empty l = true <-> l = [].
Proof. by destruct l. Qed.
Lemma is_empty_false {A} (l : list A) : is_empty l = false <-> l <> [].
Proof. by destruct l. Qed.

(** [value.len() == n && value.bytes().all(lowercase hexadecimal)] *)
Definition lower_hex (value : str) (n : Z) : bool :=
  (len value =? n)%Z && forallb is_lower_hex (bytes value).

Lemma bytes_ascii s : forallb (fun c => (c <? 128)%N) s = true -> bytes s = s.
Proof.
  induction s as [|c s IH]; [done|]. cbn [forallb]. rewrite andb_true_iff, N.ltb_lt. intros [Hc Hs].
  unfold bytes in *. cbn [flat_map]. by rewrite char_bytes_ascii, IH.
Qed.

Lemma bytes_app s t : bytes (s ++ t) = bytes s ++ bytes t.
Proof. apply flat_map_app. Qed.

Lemma len_app s t : (len (s ++ t) = len s + len t)%Z.
Proof. unfold len. rewrite bytes_app, length_app. lia. Qed.

Lemma lower_hex_iff v n : lower_hex v n = true <-> zlen v = n /\ forall c, c ∈ v -> is_lower_hex c = true.
Proof.
  unfold lower_hex. rewrite andb_true_iff, Z.eqb_eq, forallb_bytes by apply is_lower_hex_lt.
  assert (Hl : forallb is_lower_hex v = true -> len v = zlen v).
  { intros H. unfold len, zlen. rewrite bytes_ascii; [done|]. apply forallb_iff. intros c Hc.
    rewrite forallb_iff in H. apply N.ltb_lt, is_lower_hex_lt, H, Hc. }
  rewrite <- forallb_iff. split; intros [H1 H2]; split; try done; rewrite <- H1; [symmetry|]; auto.
Qed.
