(* ===== verification/Status.v ===== *)
(** * Job, stage and pipeline status

    The status domain of [backend/domain/src/lib.rs] ([JobStatus], its
    transition relation, the parsing of its names and the pure aggregation of
    children), the runner's [aggregate_statuses] of [backend/src/runner.rs],
    and the recomputation of stage and pipeline statuses after a job changed,
    [refresh_statuses] of [backend/src/api/jobs_routes.rs], whose SQL
    aggregates are written out as folds over the rows. *)
From S2P Require Import Prelude.

(** ** The job status and its transitions *)

Inductive JobStatus : Type := Queued | Running | Success | Failed | Canceled.

#[export] Instance JobStatus_eq_dec : EqDecision JobStatus.
Proof. solve_decision. Defined.

Inductive TransitionError : Type :=
| TerminalStatus
| InvalidTransition (from to : JobStatus).

Definition as_str (s : JobStatus) : str :=
  match s with
  | Queued => §"queued"
  | Running => §"running"
  | Success => §"success"
  | Failed => §"failed"
  | Canceled => §"canceled"
  end.

Definition is_terminal (s : JobStatus) : bool :=
  match s with Success | Failed | Canceled => true | _ => false end.

Definition transition_to (self next : JobStatus) : result JobStatus TransitionError :=
  if is_terminal self then Err TerminalStatus
  else if bool_decide (self = next)
          || match self, next with
             | Queued, (Running | Canceled) => true
             | Running, (Success | Failed | Canceled) => true
             | _, _ => false
             end
  then Ok next
  else Err (InvalidTransition self next).

Definition try_from (value : str) : result JobStatus str :=
  if str_eqb value §"queued" then Ok Queued
  else if str_eqb value §"running" then Ok Running
  else if str_eqb value §"success" then Ok Success
  else if str_eqb value §"failed" then Ok Failed
  else if str_eqb value §"canceled" then Ok Canceled
  else Err (§"unknown job status: " ++ value).

(** The pipeline status is a separate type with the same names. *)
Inductive PipelineStatus : Type := PQueued | PRunning | PSuccess | PFailed | PCanceled.

Definition pipeline_as_str (s : PipelineStatus) : str :=
  match s with
  | PQueued => §"queued"
  | PRunning => §"running"
  | PSuccess => §"success"
  | PFailed => §"failed"
  | PCanceled => §"canceled"
  end.

Definition pipeline_try_from (value : str) : result PipelineStatus str :=
  if str_eqb value §"queued" then Ok PQueued
  else if str_eqb value §"running" then Ok PRunning
  else if str_eqb value §"success" then Ok PSuccess
  else if str_eqb value §"failed" then Ok PFailed
  else if str_eqb value §"canceled" then Ok PCanceled
  else Err (§"unknown pipeline status: " ++ value).

(** ** Aggregation *)

(** [domain::aggregate_status] *)
Definition aggregate_status (children : list JobStatus) : JobStatus :=
  if is_empty children then Queued
  else if existsb (fun s => match s with Failed => true | _ => false end) children then Failed
  else if existsb (fun s => match s with Running | Queued => true | _ => false end) children then Running
  else Success.

(** [runner::aggregate_statuses]: one pass over the status names that sets
    five flags. *)
Record agg_flags := { has_failed : bool; has_running : bool; has_canceled : bool; all_success : bool; any : bool }.

Definition agg_step (f : agg_flags) (status : str) : agg_flags :=
  if str_eqb status §"failed" then
    {| has_failed := true; has_running := has_running f; has_canceled := has_canceled f; all_success := false; any := true |}
  else if str_eqb status §"running" then
    {| has_failed := has_failed f; has_running := true; has_canceled := has_canceled f; all_success := false; any := true |}
  else if str_eqb status §"canceled" then
    {| has_failed := has_failed f; has_running := has_running f; has_canceled := true; all_success := false; any := true |}
  else if str_eqb status §"success" then
    {| has_failed := has_failed f; has_running := has_running f; has_canceled := has_canceled f; all_success := all_success f; any := true |}
  else
    {| has_failed := has_failed f; has_running := has_running f; has_canceled := has_canceled f; all_success := false; any := true |}.

Definition aggregate_statuses (statuses : list str) : str :=
  let f := fold_left agg_step statuses
             {| has_failed := false; has_running := false; has_canceled := false; all_success := true; any := false |} in
  if negb (any f) then §"queued"
  else if has_failed f then §"failed"
  else if has_running f then §"running"
  else if has_canceled f then §"canceled"
  else if all_success f then §"success"
  else §"queued".

(** ** The recomputation after a job changed *)

(** SQL's [bool_or] and [bool_and] under [CASE WHEN]: over no rows both are
    NULL, which a [WHEN] does not take. *)
Definition bool_or {A} (f : A -> bool) (rows : list A) : bool := existsb f rows.
Definition bool_and {A} (f : A -> bool) (rows : list A) : bool := negb (is_empty rows) && forallb f rows.

(** The rows: the columns that the modelled statements read or write. *)
Record job_row := {
  job_stage : N;
  job_status : JobStatus;
  allow_failure : bool;
  job_manual : bool;
  job_command : str;
  job_required_tags : list str;
  job_timeout_seconds : option Z;
  job_started_at : option Z;
  job_finished_at : option Z }.

Record stage_row := { stage_pipeline : N; stage_position : Z; stage_status : JobStatus }.

Record pipeline_row := {
  project_id : N;
  pipeline_status : JobStatus;
  started_at : option Z;
  finished_at : option Z;
  pipeline_created_at : Z;
  (** a row of [pipeline_plans] exists *)
  has_plan : bool }.
Record event := { event_project : N; event_pipeline : N; event_status : JobStatus }.

Record db := {
  jobs : gmap N job_row;
  stages : gmap N stage_row;
  pipelines : gmap N pipeline_row;
  events : list event;
  (** wake-ups sent to the runner work channel *)
  wakeups : nat }.

Definition rows {V} (m : gmap N V) : list V := map snd (map_to_list m).

(** The [CASE WHEN] over the jobs of a stage. *)
Definition stage_case (js : list job_row) : JobStatus :=
  if bool_or (fun j => bool_decide (job_status j = Failed) && negb (allow_failure j)) js then Failed
  else if bool_and (fun j => bool_decide (job_status j = Success)
                             || (bool_decide (job_status j = Failed) && allow_failure j)) js then Success
  else if bool_or (fun j => bool_decide (job_status j = Running)) js then Running
  else if bool_or (fun j => bool_decide (job_status j = Canceled)) js then Canceled
  else Queued.

(** The [CASE WHEN] over the stages of a pipeline. *)
Definition pipeline_case (ss : list JobStatus) : JobStatus :=
  if bool_or (fun s => bool_decide (s = Failed)) ss then Failed
  else if bool_and (fun s => bool_decide (s = Success)) ss then Success
  else if bool_or (fun s => bool_decide (s = Running)) ss then Running
  else if bool_or (fun s => bool_decide (s = Canceled)) ss then Canceled
  else Queued.

Definition jobs_of (d : db) (stage : N) : list job_row :=
  filter (fun j => job_stage j = stage) (rows (jobs d)).
Definition stages_of (d : db) (pipeline : N) : list JobStatus :=
  map stage_status (filter (fun s => stage_pipeline s = pipeline) (rows (stages d))).

Definition with_pipeline_status (status : JobStatus) (started finished : option Z) (p : pipeline_row) : pipeline_row :=
  {| project_id := project_id p;
     pipeline_status := status;
     started_at := started;
     finished_at := finished;
     pipeline_created_at := pipeline_created_at p;
     has_plan := has_plan p |}.

Definition set_pipeline_status (now : Z) (status : JobStatus) (p : pipeline_row) : pipeline_row :=
  with_pipeline_status status
    (if bool_decide (status = Running) then Some (default now (started_at p)) else started_at p)
    (if is_terminal status then Some now else finished_at p) p.

Definition set_stage_status (status : JobStatus) (st : stage_row) : stage_row :=
  {| stage_pipeline := stage_pipeline st; stage_position := stage_position st; stage_status := status |}.

(** [refresh_statuses(pool, stage_id)] at time [now]; an unknown stage is the
    error of [fetch_one]. *)
Definition refresh_statuses (now : Z) (d : db) (stage_id : N) : result db str :=
  let stage_status' := stage_case (jobs_of d stage_id) in
  let? st := ok_or (stages d !! stage_id) §"RowNotFound" in
  let pipeline_id := stage_pipeline st in
  let stages' := <[stage_id := set_stage_status stage_status' st]> (stages d) in
  let d1 := {| jobs := jobs d; stages := stages'; pipelines := pipelines d; events := events d; wakeups := wakeups d |} in
  let pipeline_status' := pipeline_case (stages_of d1 pipeline_id) in
  let previous := pipeline_status <$> (pipelines d1 !! pipeline_id) in
  let pipelines' := alter (set_pipeline_status now pipeline_status') pipeline_id (pipelines d1) in
  let wakeups' := match pipeline_status' with Queued | Running => S (wakeups d1) | _ => wakeups d1 end in
  let events' :=
    if is_terminal pipeline_status' && negb (bool_decide (previous = Some pipeline_status')) then
      match pipelines' !! pipeline_id with
      | Some p => events d1 ++ [{| event_project := project_id p; event_pipeline := pipeline_id; event_status := pipeline_status' |}]
      | None => events d1
      end
    else events d1 in
  Ok {| jobs := jobs d1; stages := stages d1; pipelines := pipelines'; events := events'; wakeups := wakeups' |}.

(** ** Transitions *)

(** The specification of a transition: a step relation on statuses. *)
Inductive status_step : JobStatus -> JobStatus -> Prop :=
| step_start : status_step Queued Running
| step_cancel_queued : status_step Queued Canceled
| step_succeed : status_step Running Success
| step_fail : status_step Running Failed
| step_cancel_running : status_step Running Canceled.

#[export] Hint Constructors status_step : rust.

Lemma transition_to_Ok s n m :
  transition_to s n = Ok m <-> m = n /\ is_terminal s = false /\ (s = n \/ status_step s n).
Proof.
  split.
  - destruct s, n; vm_compute; intros [= <-]; auto with rust.
  - intros (-> & Ht & [->|Hs]); [destruct n; done | by destruct Hs].
Qed.

(** A job history: the statuses a job takes under accepted transitions. *)
Inductive history : JobStatus -> list JobStatus -> JobStatus -> Prop :=
| history_nil s : history s [] s
| history_cons s n l e : transition_to s n = Ok n -> history n l e -> history s (n :: l) e.

(** How far a status is in the life of a job. *)
Definition progress (s : JobStatus) : nat :=
  match s with Queued => 0 | Running => 1 | _ => 2 end.

(** Number of accepted transitions of a history that change the status. *)
Fixpoint changes (s : JobStatus) (l : list JobStatus) : nat :=
  match l with [] => 0 | n :: r => (if decide (s = n) then 0 else 1) + changes n r end.

Lemma step_progress s n : status_step s n -> progress s < progress n.
Proof. destruct 1; simpl; lia. Qed.

Lemma history_progress s l e : history s l e -> progress s + changes s l <= progress e.
Proof.
  induction 1 as [s|s n l e Ht _ IH]; simpl; [lia|].
  apply transition_to_Ok in Ht as (_ & _ & [->|Hs]).
  - rewrite decide_True by done. lia.
  - apply step_progress in Hs. destruct (decide (s = n)); lia.
Qed.

(** [transition_to] accepts exactly the steps of the life cycle: a job changes
    status at most twice, and a terminal status ends its history. *)
Theorem transition_lifecycle s l e :
  history s l e ->
  changes s l <= 2 /\ (is_terminal s = true -> l = [] /\ e = s) /\
  (s = Queued -> e = Success \/ e = Failed -> Running ∈ l).
Proof.
  intros H. split_and!.
  - pose proof (history_progress s l e H). destruct e; simpl in *; lia.
  - intros Ht. destruct H as [s|s n l e Htr _]; [done|].
    apply transition_to_Ok in Htr as (_ & Hf & _). congruence.
  - intros -> He. remember Queued as q eqn:Hq. revert Hq He.
    induction H as [s|s n l e Ht Hh IH]; intros -> He; [destruct He; congruence|].
    apply transition_to_Ok in Ht as (_ & _ & [<-|Hs]); [right; auto|].
    inversion Hs; subst; [left|].
    inversion Hh as [|? ? ? ? Ht]; subst; [destruct He; congruence|].
    apply transition_to_Ok in Ht as (_ & Hf & _). done.
Qed.

Lemma transition_lifecycle_witness :
  history Queued [Running; Running; Failed] Failed /\
  (changes Queued [Running; Running; Failed] <= 2 /\
   (is_terminal Queued = true -> [Running; Running; Failed] = [] /\ Failed = Queued) /\
   (Queued = Queued -> Failed = Success \/ Failed = Failed -> Running ∈ [Running; Running; Failed])).
Proof.
  assert (H : history Queued [Running; Running; Failed] Failed).
  { repeat (eapply history_cons; [reflexivity|]). apply history_nil. }
  split; [exact H | exact (transition_lifecycle _ _ _ H)].
Defined.

(** ** Names *)

Lemma try_from_as_str s : try_from (as_str s) = Ok s.
Proof. by destruct s. Qed.

(** The names of the statuses parse back, and nothing else parses. *)
Theorem try_from_roundtrip v s :
  (try_from v = Ok s <-> v = as_str s) /\ (pipeline_try_from v = Err (§"unknown pipeline status: " ++ v) <->
                                           forall p, v <> pipeline_as_str p).
Proof.
  split.
  - split; [|intros ->; apply try_from_as_str]. unfold try_from.
    repeat (case_match; bool_norm; [intros [= <-]; done|]). done.
  - unfold pipeline_try_from. split.
    + repeat (case_match; bool_norm; [done|]). intros _ []; done.
    + intros H. repeat (case_match; bool_norm; [subst; exfalso;
        first [by apply (H PQueued) | by apply (H PRunning) | by apply (H PSuccess) | by apply (H PFailed) | by apply (H PCanceled)]|]).
      done.
Qed.

(** ** Aggregation *)

Lemma agg_fold js f :
  fold_left agg_step (map as_str js) f =
  {| has_failed := has_failed f || existsb (fun s => bool_decide (s = Failed)) js;
     has_running := has_running f || existsb (fun s => bool_decide (s = Running)) js;
     has_canceled := has_canceled f || existsb (fun s => bool_decide (s = Canceled)) js;
     all_success := all_success f && forallb (fun s => bool_decide (s = Success)) js;
     any := any f || negb (is_empty js) |}.
Proof.
  revert f. induction js as [|s js IH]; intros f; simpl.
  - destruct f; simpl. by rewrite !orb_false_r, andb_true_r.
  - rewrite IH. destruct s, f; simpl; by rewrite ?orb_true_r, ?orb_false_r, ?andb_false_r.
Qed.

Lemma aggregate_statuses_case js :
  aggregate_statuses (map as_str js) = as_str (pipeline_case js).
Proof.
  unfold aggregate_statuses, pipeline_case, bool_or, bool_and. rewrite agg_fold. simpl.
  destruct js as [|s0 js]; [done|]. remember (s0 :: js) as l eqn:Hl.
  assert (He : is_empty l = false) by (by rewrite Hl). rewrite He. cbn [negb andb]. clear He Hl.
  destruct (existsb (fun s => bool_decide (s = Failed)) l) eqn:Ef; [done|].
  destruct (forallb (fun s => bool_decide (s = Success)) l) eqn:Es; simpl.
  - assert (H : forall t, t <> Success -> existsb (fun s => bool_decide (s = t)) l = false).
    { intros t Ht. apply existsb_false_iff. intros x Hx. rewrite forallb_iff in Es. apply Es in Hx.
      bool_norm. apply bool_decide_eq_false. congruence. }
    by rewrite (H Running), (H Canceled).
  - destruct (existsb (fun s => bool_decide (s = Running)) l); [done|].
    by destruct (existsb (fun s => bool_decide (s = Canceled)) l).
Qed.

(** The runner's one-pass aggregation computes the SQL [CASE WHEN] over the
    stages of a pipeline, the empty set included. *)
Theorem aggregate_statuses_is_sql js :
  aggregate_statuses (map as_str js) = as_str (pipeline_case js).
Proof. apply aggregate_statuses_case. Qed.

(** The domain crate's [aggregate_status] differs from it exactly on non-empty
    children with no failure and nothing running, of which one is canceled or
    queued: there it reports [Success] or [Running]. *)
Theorem aggregate_status_divergence js :
  as_str (aggregate_status js) <> aggregate_statuses (map as_str js) <->
  Failed ∉ js /\ Running ∉ js /\ (Canceled ∈ js \/ Queued ∈ js).
Proof.
  rewrite aggregate_statuses_case.
  assert (Hinj : forall a b, as_str a <> as_str b <-> a <> b).
  { intros a b. split; [congruence|]. intros Hab He. apply Hab.
    pose proof (try_from_as_str a) as Ha. rewrite He, try_from_as_str in Ha. congruence. }
  rewrite Hinj.
  assert (Hin : forall t, existsb (fun s => bool_decide (s = t)) js = bool_decide (t ∈ js)).
  { intros t. apply eq_bool_prop_intro. rewrite !Is_true_true, existsb_iff, bool_decide_eq_true.
    setoid_rewrite bool_decide_eq_true. split; [intros (? & ? & ->); done | eauto]. }
  unfold aggregate_status, pipeline_case, bool_or, bool_and. rewrite !Hin.
  assert (HF : existsb (fun s => match s with Failed => true | _ => false end) js = bool_decide (Failed ∈ js)).
  { rewrite <- Hin. clear. induction js as [|[]]; simpl; congruence. }
  assert (HR : existsb (fun s => match s with Running | Queued => true | _ => false end) js
               = bool_decide (Running ∈ js) || bool_decide (Queued ∈ js)).
  { rewrite <- !Hin. clear. induction js as [|[] l IH]; simpl; try done. by rewrite orb_true_r. }
  assert (HS : forallb (fun s => bool_decide (s = Success)) js
               = negb (bool_decide (Failed ∈ js) || bool_decide (Running ∈ js) || bool_decide (Canceled ∈ js) || bool_decide (Queued ∈ js))).
  { rewrite <- !Hin. clear. induction js as [|[] l IH]; simpl; try done; try by rewrite !orb_true_r. }
  rewrite HF, HR, HS. destruct js as [|s l]; [set_solver|]. simpl is_empty. cbn [negb].
  destruct (bool_decide_reflect (Failed ∈ s :: l)); simpl; [naive_solver|].
  destruct (bool_decide_reflect (Running ∈ s :: l)); simpl; [naive_solver|].
  destruct (bool_decide_reflect (Canceled ∈ s :: l)); destruct (bool_decide_reflect (Queued ∈ s :: l)); simpl; naive_solver.
Qed.

(** ** The recomputation after a job changed *)

(** What a refresh promises, stated on the database before and after. *)
Record refreshed (d d' : db) (stage_id pipeline_id : N) : Prop := {
  rf_jobs : jobs d' = jobs d;
  rf_stage : stages d' !! stage_id = set_stage_status (stage_case (jobs_of d stage_id)) <$> (stages d !! stage_id);
  rf_other_stages : forall i, i <> stage_id -> stages d' !! i = stages d !! i;
  rf_pipeline : pipeline_status <$> (pipelines d' !! pipeline_id) =
    (fun _ => pipeline_case (stages_of d' pipeline_id)) <$> (pipelines d !! pipeline_id);
  rf_other_pipelines : forall i, i <> pipeline_id -> pipelines d' !! i = pipelines d !! i;
  rf_events : events d' = events d \/
    exists p, pipelines d !! pipeline_id = Some p /\
      pipeline_status p <> pipeline_case (stages_of d' pipeline_id) /\
      is_terminal (pipeline_case (stages_of d' pipeline_id)) = true /\
      events d' = events d ++ [{| event_project := project_id p; event_pipeline := pipeline_id;
                                  event_status := pipeline_case (stages_of d' pipeline_id) |}] }.

Lemma stages_of_ext d d' p : stages d = stages d' -> stages_of d p = stages_of d' p.
Proof. unfold stages_of. by intros ->. Qed.

Lemma refresh_statuses_refreshed now d stage_id :
  match refresh_statuses now d stage_id with
  | Err _ => stages d !! stage_id = None
  | Ok d' => exists st, stages d !! stage_id = Some st /\ refreshed d d' stage_id (stage_pipeline st)
  end.
Proof.
  unfold refresh_statuses. destruct (stages d !! stage_id) as [st|] eqn:Est; [|done]. cbn.
  exists st. split; [done|]. set (pid := stage_pipeline st).
  set (ps := pipeline_case _). split; cbn.
  - done.
  - by rewrite lookup_insert_eq, Est.
  - intros i Hi. by rewrite lookup_insert_ne.
  - rewrite lookup_alter, decide_True by done. by destruct (pipelines d !! pid).
  - intros i Hi. by rewrite lookup_alter_ne.
  - unfold stages_of; cbn. change (pipeline_case _) with ps.
    destruct (is_terminal ps) eqn:Et; [|by left]. destruct (pipelines d !! pid) as [p|] eqn:Ep; cbn.
    + destruct (bool_decide_reflect (Some (pipeline_status p) = Some ps)) as [?|Hne]; cbn; [by left|].
      rewrite lookup_alter, decide_True, Ep by done. right. exists p. split_and!; try done. congruence.
    + rewrite lookup_alter, decide_True, Ep by done. by left.
Qed.

(** What an aggregated status means: a blocking failure decides first, success
    needs every child (and one), then running and canceled children decide. *)
Definition aggregates {A} (blocking good running canceled : A -> Prop) (xs : list A) (s : JobStatus) : Prop :=
  match s with
  | Failed => exists x, x ∈ xs /\ blocking x
  | Success => xs <> [] /\ forall x, x ∈ xs -> good x
  | Running => (forall x, x ∈ xs -> ~ blocking x) /\ exists x, x ∈ xs /\ running x
  | Canceled => (forall x, x ∈ xs -> ~ blocking x /\ ~ running x) /\ exists x, x ∈ xs /\ canceled x
  | Queued => (forall x, x ∈ xs -> ~ blocking x /\ ~ running x /\ ~ canceled x) /\
              (xs = [] \/ exists x, x ∈ xs /\ ~ good x)
  end.

(** Over the jobs of a stage, where an allowed failure counts as a success. *)
Definition stage_aggregates : list job_row -> JobStatus -> Prop :=
  aggregates (fun j => job_status j = Failed /\ allow_failure j = false)
             (fun j => job_status j = Success \/ (job_status j = Failed /\ allow_failure j = true))
             (fun j => job_status j = Running) (fun j => job_status j = Canceled).

(** Over the statuses of the stages of a pipeline. *)
Definition pipeline_aggregates : list JobStatus -> JobStatus -> Prop :=
  aggregates (fun s => s = Failed) (fun s => s = Success) (fun s => s = Running) (fun s => s = Canceled).

Section aggregation.
Context {A : Type} (blocking good running canceled : A -> bool).

Definition ladder (xs : list A) : JobStatus :=
  if bool_or blocking xs then Failed
  else if bool_and good xs then Success
  else if bool_or running xs then Running
  else if bool_or canceled xs then Canceled
  else Queued.

Lemma ladder_aggregates (P Q R S : A -> Prop) xs :
  (forall x, blocking x = true <-> P x) -> (forall x, good x = true <-> Q x) ->
  (forall x, running x = true <-> R x) -> (forall x, canceled x = true <-> S x) ->
  aggregates P Q R S xs (ladder xs).
Proof.
  intros HP HQ HR HS. unfold ladder, bool_or, bool_and.
  assert (Hor : forall f (F : A -> Prop), (forall x, f x = true <-> F x) ->
            (existsb f xs = true -> exists x, x ∈ xs /\ F x) /\ (existsb f xs = false -> forall x, x ∈ xs -> ~ F x)).
  { intros f F Hf. split.
    - intros (x & Hx & Ht)%existsb_iff. exists x. by rewrite <- Hf.
    - rewrite existsb_false_iff. intros Hn x Hx. rewrite <- Hf, (Hn x Hx). done. }
  destruct (Hor _ _ HP) as [P1 P2], (Hor _ _ HR) as [R1 R2], (Hor _ _ HS) as [S1 S2].
  destruct (existsb blocking xs); [exact (P1 eq_refl)|].
  destruct (negb (is_empty xs) && forallb good xs) eqn:Eg.
  { apply andb_true_iff in Eg as [Hne Hall]. split; [by intros ->|].
    rewrite forallb_iff in Hall. intros x Hx. apply HQ. by apply Hall. }
  destruct (existsb running xs); [split; [exact (P2 eq_refl)|exact (R1 eq_refl)]|].
  destruct (existsb canceled xs); cbn [aggregates]; (split; [intros x Hx|]); eauto 6.
  destruct xs as [|y l]; [by left|]. right. cbn [is_empty negb andb] in Eg.
  destruct (existsb (fun x => negb (good x)) (y :: l)) eqn:Ex.
  - apply existsb_iff in Ex as (x & Hx & Hg%negb_true_iff). exists x. split; [done|]. rewrite <- HQ, Hg. done.
  - exfalso. rewrite existsb_false_iff in Ex. enough (forallb good (y :: l) = true) by congruence.
    apply forallb_iff. intros x Hx. specialize (Ex x Hx). by apply negb_false_iff in Ex.
Qed.
End aggregation.

Lemma stage_case_aggregates js : stage_aggregates js (stage_case js).
Proof.
  refine (ladder_aggregates _ _ _ _ _ _ _ _ js _ _ _ _); intros j.
  - rewrite andb_true_iff, bool_decide_eq_true, negb_true_iff. done.
  - rewrite orb_true_iff, andb_true_iff, !bool_decide_eq_true. done.
  - by rewrite bool_decide_eq_true.
  - by rewrite bool_decide_eq_true.
Qed.

Lemma pipeline_case_aggregates ss : pipeline_aggregates ss (pipeline_case ss).
Proof. refine (ladder_aggregates _ _ _ _ _ _ _ _ ss _ _ _ _); intros s; by rewrite bool_decide_eq_true. Qed.

(** [refresh_statuses] fails exactly on an unknown stage; otherwise the
    stage and its pipeline get the statuses that their jobs and stages
    determine - an allowed failure never blocks a stage - nothing else
    changes, and at most one event is emitted, for the pipeline and only when
    it enters a terminal status. *)
Theorem refresh_statuses_spec now d stage_id :
  match refresh_statuses now d stage_id with
  | Err _ => stages d !! stage_id = None
  | Ok d' => exists st status, stages d !! stage_id = Some st /\ refreshed d d' stage_id (stage_pipeline st) /\
      stages d' !! stage_id = Some (set_stage_status status st) /\
      stage_aggregates (jobs_of d stage_id) status /\
      forall p, pipelines d' !! stage_pipeline st = Some p ->
        pipeline_aggregates (stages_of d' (stage_pipeline st)) (pipeline_status p)
  end.
Proof.
  pose proof (refresh_statuses_refreshed now d stage_id) as H. destruct (refresh_statuses now d stage_id) as [d'|e]; [|done].
  destruct H as (st & Hst & R). exists st, (stage_case (jobs_of d stage_id)).
  split_and!; [done|done|by rewrite (rf_stage _ _ _ _ R), Hst|apply stage_case_aggregates|].
  intros p Hp. pose proof (rf_pipeline _ _ _ _ R) as E. rewrite Hp in E.
  destruct (pipelines d !! stage_pipeline st); [|discriminate E]. injection E as ->. apply pipeline_case_aggregates.
Qed.

(** Refreshing again without a job change keeps every status and emits no
    second event. *)
Theorem refresh_statuses_idempotent now now' d d' d'' stage_id :
  refresh_statuses now d stage_id = Ok d' ->
  refresh_statuses now' d' stage_id = Ok d'' ->
  stages d'' = stages d' /\ events d'' = events d' /\
  forall i, pipeline_status <$> (pipelines d'' !! i) = pipeline_status <$> (pipelines d' !! i).
Proof.
  intros H1 H2. pose proof (refresh_statuses_refreshed now d stage_id) as R1. rewrite H1 in R1.
  destruct R1 as (st & Hst & R1).
  pose proof (refresh_statuses_refreshed now' d' stage_id) as R2. rewrite H2 in R2.
  destruct R2 as (st' & Hst' & R2). rewrite (rf_stage _ _ _ _ R1), Hst in Hst'. injection Hst' as <-. simpl in R2.
  assert (Hs : stages d'' = stages d').
  { apply map_eq. intros i. destruct (decide (i = stage_id)) as [->|Hi].
    - rewrite (rf_stage _ _ _ _ R2), (rf_stage _ _ _ _ R1), Hst. unfold jobs_of. by rewrite (rf_jobs _ _ _ _ R1).
    - by apply (rf_other_stages _ _ _ _ R2). }
  assert (Hp : forall i, pipeline_status <$> (pipelines d'' !! i) = pipeline_status <$> (pipelines d' !! i)).
  { intros i. destruct (decide (i = stage_pipeline st)) as [->|Hi].
    - rewrite (rf_pipeline _ _ _ _ R2), (rf_pipeline _ _ _ _ R1), (stages_of_ext d'' d') by done.
      pose proof (rf_pipeline _ _ _ _ R1) as E.
      destruct (pipelines d' !! stage_pipeline st), (pipelines d !! stage_pipeline st); done.
    - by rewrite (rf_other_pipelines _ _ _ _ R2). }
  split_and!; [done| |done].
  destruct (rf_events _ _ _ _ R2) as [He|(p & Hl & Hne & _)]; [done|]. exfalso. apply Hne.
  pose proof (rf_pipeline _ _ _ _ R1) as E. rewrite Hl in E.
  rewrite (stages_of_ext d'' d') by done. destruct (pipelines d !! stage_pipeline st); [by injection E | done].
Qed.

Definition sample_job (status : JobStatus) (allowed : bool) : job_row :=
  {| job_stage := 7; job_status := status; allow_failure := allowed; job_manual := false; job_command := §"make";
     job_required_tags := []; job_timeout_seconds := None; job_started_at := Some 5%Z; job_finished_at := None |}.

Definition sample_db : db :=
  {| jobs := {[ 1%N := sample_job Success false; 2%N := sample_job Failed true ]};
     stages := {[ 7%N := {| stage_pipeline := 9; stage_position := 0; stage_status := Running |} ]};
     pipelines := {[ 9%N := {| project_id := 3; pipeline_status := Running; started_at := Some 5%Z; finished_at := None;
                               pipeline_created_at := 0; has_plan := true |} ]};
     events := []; wakeups := 0 |}.

(** A failed job that may fail does not fail its stage; the second refresh is silent. *)
Lemma refresh_statuses_idempotent_witness :
  exists d' d'', refresh_statuses 10 sample_db 7 = Ok d' /\ refresh_statuses 11 d' 7 = Ok d'' /\
    events d' = [{| event_project := 3; event_pipeline := 9; event_status := Success |}] /\
    (stages d'' = stages d' /\ events d'' = events d' /\
     forall i, pipeline_status <$> (pipelines d'' !! i) = pipeline_status <$> (pipelines d' !! i)).
Proof.
  destruct (refresh_statuses 10 sample_db 7) as [d'|e] eqn:E1; [|exfalso; vm_compute in E1; discriminate].
  destruct (refresh_statuses 11 d' 7) as [d''|e] eqn:E2.
  2:{ exfalso. vm_compute in E1. injection E1 as <-. vm_compute in E2. discriminate. }
  exists d', d''. split; [reflexivity|]. split; [exact E2|]. split.
  - vm_compute in E1. injection E1 as <-. reflexivity.
  - exact (refresh_statuses_idempotent _ _ _ _ _ _ E1 E2).
Defined.
