(* ===== verification/Url.v ===== *)
(** * The [url] crate as the program sees it

    URL parsing belongs to the third-party crate [url]; the program only uses
    [Url::parse], the accessors below and [Host::parse].  They are the fields
    of a class, so every definition and theorem that parses a URL takes the
    crate as a parameter. *)
From S2P Require Import Prelude.

Record Url : Type := {
  url_scheme : str;
  url_username : str;
  url_password : option str;
  url_host_str : option str;
  url_path : str;
  url_query : option str;
  url_fragment : option str;
  url_as_str : str;
  (** [url.origin().ascii_serialization()] *)
  url_origin : str }.

Inductive Host : Type :=
| HostDomain (name : str)
| HostIp (address : str).

Class UrlCrate : Type := {
  url_parse : str -> option Url;
  host_parse : str -> option Host }.

(** A small concrete parser for the witnesses: [scheme://[user@]host[/path]]. *)
Definition sample_parse (s : str) : option Url :=
  match split_once §"://" s with
  | None => None
  | Some (sc, rest) =>
    let '(authority, path) := match split_once §"/" rest with Some (a, p) => (a, 47%N :: p) | None => (rest, §"/") end in
    let '(user, host) := match split_once §"@" authority with Some (u, h) => (u, h) | None => ([], authority) end in
    if is_empty host then None
    else Some {| url_scheme := sc; url_username := user; url_password := None; url_host_str := Some host;
                 url_path := path; url_query := None; url_fragment := None;
                 url_as_str := sc ++ §"://" ++ authority ++ path; url_origin := sc ++ §"://" ++ host |}
  end.

Definition sample_crate : UrlCrate := {| url_parse := sample_parse; host_parse := fun h => Some (HostDomain h) |}.
