(* ===== verification/Artifacts.v ===== *)
(** * Artifact names

    [backend/domain/src/artifact_names.rs]: the wire encoding of a declared
    artifact path, the inventory of declared names and the test that an
    attempt produced all of them. *)
From S2P Require Import Prelude.

(** [path.replace(['/', '\\'], "__")] *)
Definition artifact_name_from_declared_path (path : str) : str :=
  flat_map (fun c => if (c =? 47)%N || (c =? 92)%N then §"__" else [c]) path.

Definition names_step (s : gset str * list str) (path : str) : result (gset str * list str) str :=
  let '(seen, names) := s in
  let name := artifact_name_from_declared_path path in
  if is_empty name || bool_decide (name ∈ seen) then Err §"ambiguous declared artifact names"
  else Ok ({[name]} ∪ seen, names ++ [name]).

Definition declared_artifact_names (paths : list str) : result (list str) str :=
  let? s := rfold names_step (∅, []) paths in Ok s.2.

(** [observed.iter().all(|name| !name.is_empty() && available.insert(name))],
    which stops at the first rejected name. *)
Fixpoint insert_all (available : gset str) (observed : list str) : bool * gset str :=
  match observed with
  | [] => (true, available)
  | name :: r =>
    if negb (is_empty name) && negb (bool_decide (name ∈ available))
    then insert_all ({[name]} ∪ available) r
    else (false, available)
  end.

Definition declared_artifacts_complete (paths observed : list str) : bool :=
  match declared_artifact_names paths with
  | Err _ => false
  | Ok expected =>
    let '(fresh, available) := insert_all ∅ observed in
    if negb fresh then false
    else forallb (fun name => bool_decide (name ∈ available)) expected
  end.

(** ** Properties *)

Definition distinct_names (names : list str) : Prop := NoDup names /\ [] ∉ names.

Lemma names_fold seen names paths s :
  rfold names_step (seen, names) paths = Ok s <->
  s = (list_to_set (rev (map artifact_name_from_declared_path paths)) ∪ seen,
       names ++ map artifact_name_from_declared_path paths) /\
  distinct_names (map artifact_name_from_declared_path paths) /\
  (forall p, p ∈ paths -> artifact_name_from_declared_path p ∉ seen).
Proof.
  unfold distinct_names. revert seen names. induction paths as [|p paths IH]; intros seen names.
  - cbn. rewrite app_nil_r, union_empty_l_L.
    split; [|by intros (-> & _)]. intros [= <-]. split_and!; [done|apply NoDup_nil_2|apply not_elem_of_nil|].
    intros p Hp. by apply elem_of_nil in Hp.
  - cbn [rfold names_step map rev]. set (n := artifact_name_from_declared_path p).
    destruct (is_empty n || bool_decide (n ∈ seen)) eqn:E; cbn [rbind].
    + split; [done|]. intros (_ & [_ Hn] & Hs). exfalso. apply orb_true_iff in E as [E|E].
      * apply is_empty_true in E. apply Hn. rewrite <- E. left.
      * apply bool_decide_eq_true in E. apply (Hs p); [left|done].
    + apply orb_false_iff in E as [E1 E2]. apply is_empty_false in E1. apply bool_decide_eq_false in E2.
      rewrite IH, <- app_assoc, list_to_set_app_L. cbn [app list_to_set]. rewrite NoDup_cons, not_elem_of_cons.
      assert (Hset : list_to_set (rev (map artifact_name_from_declared_path paths)) ∪ ({[n]} ∪ seen)
                     = (list_to_set (rev (map artifact_name_from_declared_path paths)) ∪ ({[n]} ∪ ∅)) ∪ seen :> gset str)
        by set_solver. rewrite Hset.
      split; intros (-> & [Hd He] & Hs); (split; [done|]).
      * split_and!; try done.
        -- intros (q & Hq & Hin)%list_elem_of_fmap. apply (Hs q Hin). rewrite <- Hq. set_solver.
        -- intros q [->|Hq]%elem_of_cons; [done|]. specialize (Hs q Hq). set_solver.
      * destruct Hd as [Hn Hd], He as [_ He]. split_and!; try done.
        intros q Hq Hin. apply elem_of_union in Hin as [Hin|Hin].
        -- apply elem_of_singleton in Hin. apply Hn. apply list_elem_of_fmap. by exists q.
        -- apply (Hs q); [by right|done].
Qed.

(** The inventory succeeds exactly when the encoded names are distinct and
    non-empty, and then lists them in declaration order. *)
Lemma declared_artifact_names_spec paths names :
  declared_artifact_names paths = Ok names <->
  names = map artifact_name_from_declared_path paths /\ distinct_names names.
Proof.
  unfold declared_artifact_names. split.
  - intros (s & Hs & [= <-])%rbind_Ok_inv. apply names_fold in Hs as (-> & Hd & _). by split.
  - intros [-> Hd].
    assert (Hs : rfold names_step (∅, []) paths =
      Ok (list_to_set (rev (map artifact_name_from_declared_path paths)) ∪ ∅, [] ++ map artifact_name_from_declared_path paths)).
    { apply names_fold. split_and!; [done|done|]. intros; apply not_elem_of_empty. }
    by rewrite Hs.
Qed.

Lemma insert_all_spec av observed :
  fst (insert_all av observed) = true ->
  distinct_names observed /\ (forall n, n ∈ observed -> n ∉ av) /\
  snd (insert_all av observed) = list_to_set observed ∪ av.
Proof.
  unfold distinct_names. revert av. induction observed as [|n r IH]; intros av; cbn.
  - intros _. split_and!; [apply NoDup_nil_2|apply not_elem_of_nil| |set_solver]. intros n Hn. by apply elem_of_nil in Hn.
  - destruct (negb (is_empty n) && _) eqn:E; [|done]. bool_norm. apply is_empty_false in H.
    intros Hi. apply IH in Hi as ([Hd He] & Hav & Hs). rewrite Hs. split_and!.
    + constructor; [|done]. intros Hin. apply Hav in Hin. set_solver.
    + rewrite not_elem_of_cons. split; [congruence|done].
    + intros m [->|Hm]%elem_of_cons; [done|]. apply Hav in Hm. set_solver.
    + set_solver.
Qed.

Lemma insert_all_fresh av observed :
  distinct_names observed -> (forall n, n ∈ observed -> n ∉ av) -> fst (insert_all av observed) = true.
Proof.
  unfold distinct_names. revert av. induction observed as [|n r IH]; intros av [Hd He] Hav; [done|]. cbn.
  apply NoDup_cons in Hd as [Hn Hd]. apply not_elem_of_cons in He as [He0 He].
  assert (H1 : is_empty n = false) by (apply is_empty_false; congruence).
  assert (H2 : bool_decide (n ∈ av) = false) by (apply bool_decide_eq_false, Hav; left).
  rewrite H1, H2. cbn. apply IH; [done|]. intros m Hm. assert (m <> n) by congruence.
  specialize (Hav m ltac:(by right)). set_solver.
Qed.

(** An attempt is complete exactly when declarations and observations are each
    unambiguous and every declared name was observed; extras are kept. *)
Theorem declared_artifacts_complete_spec paths observed :
  declared_artifacts_complete paths observed = true <->
  distinct_names (map artifact_name_from_declared_path paths) /\ distinct_names observed /\
  forall p, p ∈ paths -> artifact_name_from_declared_path p ∈ observed.
Proof.
  unfold declared_artifacts_complete.
  destruct (declared_artifact_names paths) as [names|e] eqn:E.
  - apply declared_artifact_names_spec in E as [-> Hd].
    pose proof (insert_all_spec ∅ observed) as Hi. pose proof (insert_all_fresh ∅ observed) as Hf.
    destruct (insert_all ∅ observed) as [fresh av]. cbn [fst snd] in *. destruct fresh; cbn [negb].
    + destruct (Hi eq_refl) as (Ho & _ & ->). rewrite forallb_iff.
      setoid_rewrite bool_decide_eq_true. split.
      * intros H. split_and!; [done|done|]. intros p Hp.
        specialize (H _ (list_elem_of_fmap_2 _ _ _ Hp)). set_solver.
      * intros (_ & _ & H) n (p & -> & Hp)%list_elem_of_fmap. specialize (H p Hp). set_solver.
    + split; [done|]. intros (_ & Ho & _). apply Hf; [done|]. intros; apply not_elem_of_empty.
  - split; [done|]. intros (Hd & _).
    rewrite (proj2 (declared_artifact_names_spec paths _) (conj eq_refl Hd)) in E. done.
Qed.
