(* ===== verification/Images.v ===== *)
(** * Image builds, publications and their references

    [backend/domain/src/image_build.rs], [published_image.rs] and
    [image_publish.rs]: portable repository paths, the closed build input, the
    OCI candidate descriptor, and references that pin a registry image by its
    digest. *)
From S2P Require Import Prelude Url Artifacts.

(** ** [image_build.rs] *)

Definition valid_relative_path (path : str) (allow_root : bool) : bool :=
  (allow_root && str_eqb path §".")
  || (negb (is_empty path)
      && (len path <=? 1024)%Z
      && negb (existsb (char_in [92; 58]%N) path)
      && negb (existsb is_control path)
      && forallb (fun part => negb (is_empty part) && negb (str_eqb part §".") && negb (str_eqb part §"..")
                              && negb (starts_with §"-" part)) (split 47 path)).

Definition valid_commit (commit : str) : bool := lower_hex commit 40.

Definition valid_image_id (image : str) : bool :=
  match strip_prefix §"sha256:" image with
  | Some digest => lower_hex digest 64
  | None => false
  end.

(** [u32] versions. *)
Definition valid_versions (versions : list Z) : bool :=
  negb (is_empty versions)
  && (zlen versions <=? 16)%Z
  && forallbi (fun index version => (0 <? version)%Z && negb (bool_decide (version ∈ take index versions))) versions.

Record ImageBuildSpec : Type := {
  ib_context : str;
  ib_dockerfile : str;
  ib_target : option str;
  ib_descriptor_artifact : str;
  ib_readable_schema_versions : list Z }.

Definition target_byte (index : nat) (byte : N) : bool :=
  is_ascii_alphanumeric byte || ((0 <? Z.of_nat index)%Z && char_in [95; 45; 46]%N byte).

Definition ImageBuildSpec_validate (s : ImageBuildSpec) : result unit str :=
  if negb (valid_relative_path (ib_context s) true)
     || negb (valid_relative_path (ib_dockerfile s) false)
     || negb (valid_relative_path (ib_descriptor_artifact s) false)
  then Err §"image build requires portable relative paths"
  else if match ib_target s with
          | Some target => is_empty target || (128 <? len target)%Z || negb (forallbi target_byte (bytes target))
          | None => false
          end
  then Err §"image build target is invalid"
  else if negb (valid_versions (ib_readable_schema_versions s))
  then Err §"image build schema versions must be positive and unique (1..16)"
  else Ok tt.

Record OciCandidateDescriptor : Type := {
  oci_schema : str;
  oci_image_id : str;
  oci_source_commit : str;
  oci_data_protocol : str;
  oci_readable_schema_versions : list Z;
  oci_migrations : list str }.

Definition OciCandidateDescriptor_validate (d : OciCandidateDescriptor) : result unit str :=
  if negb (str_eqb (oci_schema d) §"forge/oci-candidate/v1")
     || negb (valid_image_id (oci_image_id d))
     || negb (valid_commit (oci_source_commit d))
     || negb (str_eqb (oci_data_protocol d) §"readonly_snapshot_v1")
     || negb (valid_versions (oci_readable_schema_versions d))
     || negb (is_empty (oci_migrations d))
  then Err §"invalid readonly OCI candidate descriptor"
  else Ok tt.

Definition OciCandidateDescriptor_new (image_id source_commit : str) (readable_schema_versions : list Z)
  : result OciCandidateDescriptor str :=
  let descriptor := {| oci_schema := §"forge/oci-candidate/v1"; oci_image_id := image_id;
                       oci_source_commit := source_commit; oci_data_protocol := §"readonly_snapshot_v1";
                       oci_readable_schema_versions := readable_schema_versions; oci_migrations := [] |} in
  let? _ := OciCandidateDescriptor_validate descriptor in Ok descriptor.

(** ** [published_image.rs] *)

Record PublishedImage : Type := {
  pi_schema : str;
  pi_source_commit : str;
  pi_image_ref : str;
  pi_descriptor_sha256 : str }.

#[export] Instance PublishedImage_eq_dec : EqDecision PublishedImage.
Proof. solve_decision. Defined.

Section registry.
Context `{UrlCrate}.

Definition registry_part (part : str) : bool :=
  negb (is_empty part) && negb (str_eqb part §".") && negb (str_eqb part §"..")
  && forallb (fun b => is_ascii_lowercase b || is_ascii_digit b || char_in §"._-" b) (bytes part).

Definition immutable_registry_ref (value : str) : bool :=
  match split_once §"@" value with
  | None => false
  | Some (repository, digest) =>
    if (1024 <? len value)%Z || negb (valid_image_id digest) then false
    else match split_once §"/" repository with
    | None => false
    | Some (registry, path) =>
      match url_parse (§"https://" ++ registry) with
      | None => false
      | Some url =>
        is_some (url_host_str url) && is_empty (url_username url) && is_none (url_password url)
        && str_eqb (url_path url) §"/" && is_none (url_query url) && is_none (url_fragment url)
        && forallb registry_part (split 47 path)
      end
    end
  end.

Definition PublishedImage_validate (p : PublishedImage) : result unit str :=
  if negb (str_eqb (pi_schema p) §"forge/published-image/v1")
     || negb (valid_commit (pi_source_commit p))
     || negb (valid_image_id (§"sha256:" ++ pi_descriptor_sha256 p))
     || negb (immutable_registry_ref (pi_image_ref p))
  then Err §"invalid registry publication artifact"
  else Ok tt.

Definition PublishedImage_new (source_commit image_ref descriptor_sha256 : str) : result PublishedImage str :=
  let r := {| pi_schema := §"forge/published-image/v1"; pi_source_commit := source_commit;
              pi_image_ref := image_ref; pi_descriptor_sha256 := descriptor_sha256 |} in
  let? _ := PublishedImage_validate r in Ok r.

Definition PublishedImage_binds (p : PublishedImage) (source_commit descriptor_sha256 : str) : bool :=
  is_ok (PublishedImage_validate p)
  && str_eqb (pi_source_commit p) source_commit
  && str_eqb (pi_descriptor_sha256 p) descriptor_sha256.

(** ** [image_publish.rs] *)

Record ImagePublishSpec : Type := {
  ip_context : str;
  ip_dockerfile : str;
  ip_repository : str;
  ip_descriptor_artifact : str;
  ip_published_artifact : str;
  ip_target : option str;
  ip_build_args : gmap str str }.

Definition identifier (value : str) (limit : Z) : bool :=
  negb (is_empty value) && (len value <=? limit)%Z && forallbi target_byte (bytes value).

Definition ImagePublishSpec_validate (s : ImagePublishSpec) : result unit str :=
  if negb (valid_relative_path (ip_context s) true)
     || negb (valid_relative_path (ip_dockerfile s) false)
     || negb (valid_relative_path (ip_descriptor_artifact s) false)
     || negb (valid_relative_path (ip_published_artifact s) false)
     || str_eqb (ip_descriptor_artifact s) (ip_published_artifact s)
  then Err §"image_publish requires distinct portable artifact paths"
  else
  let? _ := declared_artifact_names [ip_descriptor_artifact s; ip_published_artifact s] in
  let immutable := ip_repository s ++ §"@sha256:" ++ repeat 97%N 64 in
  if negb (immutable_registry_ref immutable)
  then Err §"image_publish requires a registry/repository without a tag"
  else if match ip_target s with Some t => negb (identifier t 128) | None => false end
          || (32 <? zlen (bindings (ip_build_args s)))%Z
          || existsb (fun '(key, value) => negb (identifier key 128) || (4096 <? len value)%Z
                                            || existsb is_control value) (bindings (ip_build_args s))
  then Err §"invalid image_publish target or build arguments"
  else Ok tt.
End registry.

(** ** Portable paths stay inside the directory they are joined to

    The reference semantics of a path: its components are walked from a
    directory (the list of its components, innermost first); [..] leaves the
    directory, and leaving the top is an error. *)
Fixpoint walk (dir : list str) (parts : list str) : option (list str) :=
  match parts with
  | [] => Some dir
  | part :: r =>
    if is_empty part || str_eqb part §"." then walk dir r
    else if str_eqb part §".." then match dir with [] => None | _ :: up => walk up r end
    else walk (part :: dir) r
  end.

Definition resolve (dir : list str) (path : str) : option (list str) := walk dir (split 47 path).

Definition plain_part (part : str) : bool :=
  negb (is_empty part) && negb (str_eqb part §".") && negb (str_eqb part §"..").

Lemma walk_plain dir parts : forallb plain_part parts = true -> walk dir parts = Some (rev parts ++ dir).
Proof.
  revert dir. induction parts as [|p parts IH]; intros dir; [done|]. cbn [forallb walk].
  unfold plain_part at 1. intros H. bool_norm.
  assert (E1 : is_empty p || str_eqb p §"." = false).
  { apply orb_false_iff. split; [done|]. unfold str_eqb. by apply bool_decide_eq_false. }
  assert (E2 : str_eqb p §".." = false) by (unfold str_eqb; by apply bool_decide_eq_false).
  rewrite E1, E2, IH by done. cbn [rev]. by rewrite <- app_assoc.
Qed.

Lemma valid_relative_path_inv path root :
  valid_relative_path path root = true ->
  (root = true /\ path = §".") \/
  (path <> [] /\ (len path <= 1024)%Z /\ 92%N ∉ path /\ 58%N ∉ path /\
   (forall c, c ∈ path -> is_control c = false) /\
   (forall part, part ∈ split 47 path -> plain_part part = true /\ starts_with §"-" part = false)).
Proof.
  unfold valid_relative_path. rewrite orb_true_iff. intros [H|H]; bool_norm; [by left|]. right.
  rewrite existsb_false_iff in *. apply is_empty_false in H. split_and!; try done.
  - intros Hc. specialize (H2 _ Hc). done.
  - intros Hc. specialize (H2 _ Hc). done.
  - intros part Hp. rewrite forallb_iff in H0. specialize (H0 _ Hp). unfold plain_part. bool_norm.
    split; [|done]. rewrite !andb_true_iff, !negb_true_iff. unfold str_eqb. by rewrite !bool_decide_eq_false.
Qed.

(** A portable path resolves, from any directory, to a place strictly below
    it: the components are those of the path, none of them is an option
    string, and the path is in normal form and relative. *)
Theorem valid_relative_path_contained path dir :
  valid_relative_path path false = true ->
  resolve dir path = Some (rev (split 47 path) ++ dir) /\
  starts_with §"/" path = false /\
  (forall part, part ∈ split 47 path -> part <> [] /\ part <> §".." /\ starts_with §"-" part = false).
Proof.
  intros [[? _]|(Hne & _ & _ & _ & _ & Hp)]%valid_relative_path_inv; [done|]. split_and!.
  - apply walk_plain, forallb_iff. intros part Hin. by apply Hp.
  - apply not_true_iff_false. intros [r ->]%starts_with_iff.
    destruct (Hp []) as [Hpl _]; [|done]. change (§"/" ++ r) with (47%N :: r). cbn. left.
  - intros part Hin. destruct (Hp _ Hin) as [Hpl Hs]. unfold plain_part in Hpl. bool_norm.
    split_and!; [by apply is_empty_false | done | done].
Qed.

Lemma valid_relative_path_contained_witness :
  valid_relative_path §"deploy/helm/r1" false = true /\
  resolve [§"repo"] §"deploy/helm/r1" = Some [§"r1"; §"helm"; §"deploy"; §"repo"] /\
  (resolve [§"repo"] §"deploy/helm/r1" = Some (rev (split 47 §"deploy/helm/r1") ++ [§"repo"]) /\
   starts_with §"/" §"deploy/helm/r1" = false /\
   (forall part, part ∈ split 47 §"deploy/helm/r1" -> part <> [] /\ part <> §".." /\ starts_with §"-" part = false)).
Proof.
  split; [vm_compute; reflexivity|]. split; [vm_compute; reflexivity|].
  apply valid_relative_path_contained. vm_compute. reflexivity.
Defined.

(** ** References that pin an image *)

Lemma valid_image_id_iff image : valid_image_id image = true <-> exists d, image = §"sha256:" ++ d /\ lower_hex d 64 = true.
Proof.
  unfold valid_image_id. destruct (strip_prefix §"sha256:" image) as [d|] eqn:E.
  - apply strip_prefix_Some in E as ->. split; [eauto|]. intros (d' & ->%app_inv_head & Hd). done.
  - split; [done|]. intros (d & -> & _). rewrite (proj2 (strip_prefix_Some _ _ d)) in E; done.
Qed.

Lemma lower_hex_len d n : lower_hex d n = true -> len d = n.
Proof. unfold lower_hex. by intros [H%Z.eqb_eq _]%andb_true_iff. Qed.

Lemma split_once_at a b : 64%N ∉ a -> split_once §"@" (a ++ 64%N :: b) = Some (a, b).
Proof. exact (split_once_char 64 a b). Qed.

Lemma split_once_at_left s a b : split_once §"@" s = Some (a, b) -> 64%N ∉ a.
Proof.
  revert a. induction s as [|c s IH]; intros a; cbn [split_once]; change (§"@") with [64%N]; cbn [strip_prefix].
  - done.
  - destruct (N.eqb_spec 64 c) as [<-|Hne].
    + intros [= <- <-]. apply not_elem_of_nil.
    + change [64%N] with (§"@"). destruct (split_once §"@" s) as [[a' b']|]; [|done].
      intros [= <- <-]. rewrite not_elem_of_cons. split; [done|by eapply IH].
Qed.

Section registry_facts.
Context `{UrlCrate}.

(** What an accepted reference looks like. *)
Lemma immutable_registry_ref_inv v :
  immutable_registry_ref v = true ->
  exists registry path digest, v = registry ++ [47%N] ++ path ++ §"@sha256:" ++ digest /\
    64%N ∉ registry ++ [47%N] ++ path /\ lower_hex digest 64 = true /\
    forall part, part ∈ split 47 path -> registry_part part = true.
Proof.
  unfold immutable_registry_ref. destruct (split_once §"@" v) as [[repo dg]|] eqn:Ev; [|done].
  pose proof (split_once_at_left _ _ _ Ev) as Hat. apply split_once_Some in Ev.
  destruct (_ || _) eqn:E; [done|]. bool_norm. apply valid_image_id_iff in H1 as (d & -> & Hd).
  destruct (split_once §"/" repo) as [[registry path]|] eqn:Er; [|done]. apply split_once_Some in Er.
  destruct (url_parse _) as [u|]; [|done]. intros Hg. bool_norm. exists registry, path, d. subst. split_and!.
  - rewrite <- !app_assoc. done.
  - done.
  - done.
  - by apply forallb_iff.
Qed.

Lemma not_hex_at d : lower_hex d 64 = true -> 64%N ∉ d.
Proof. intros [_ H1]%lower_hex_iff Hin. by apply H1 in Hin. Qed.

(** Whether a repository is accepted does not depend on the digest. *)
Lemma immutable_any_digest r d1 d2 :
  lower_hex d1 64 = true -> lower_hex d2 64 = true ->
  immutable_registry_ref (r ++ §"@sha256:" ++ d1) = true ->
  64%N ∉ r /\ immutable_registry_ref (r ++ §"@sha256:" ++ d2) = true.
Proof.
  intros H1 H2 Hi.
  assert (Hr : 64%N ∉ r).
  { intros Hin. revert Hi. unfold immutable_registry_ref.
    apply list_elem_of_split_l in Hin as (a & b & -> & Ha).
    change (§"@sha256:" ++ d1) with (64%N :: §"sha256:" ++ d1).
    rewrite <- app_assoc. cbn [app]. rewrite split_once_at by done.
    assert (Hv : valid_image_id (b ++ 64%N :: §"sha256:" ++ d1) = false); [|by rewrite Hv, orb_true_r].
    apply not_true_iff_false. intros (d & E & Hd)%valid_image_id_iff. apply not_hex_at in Hd.
    assert (Hin : 64%N ∈ §"sha256:" ++ d) by (rewrite <- E, elem_of_app; right; left).
    apply elem_of_app in Hin as [Hin|Hin]; [|done]. by vm_compute in Hin; repeat (apply elem_of_cons in Hin as [?|Hin]; [done|]); apply elem_of_nil in Hin. }
  split; [done|]. revert Hi. unfold immutable_registry_ref.
  change (§"@sha256:" ++ d1) with (64%N :: §"sha256:" ++ d1).
  change (§"@sha256:" ++ d2) with (64%N :: §"sha256:" ++ d2).
  rewrite !split_once_at by done.
  rewrite (proj2 (valid_image_id_iff (§"sha256:" ++ d2))) by eauto.
  rewrite (proj2 (valid_image_id_iff (§"sha256:" ++ d1))) by eauto.
  replace (len (r ++ 64%N :: §"sha256:" ++ d2)) with (len (r ++ 64%N :: §"sha256:" ++ d1)); [done|].
  change (64%N :: §"sha256:" ++ d1) with (§"@sha256:" ++ d1).
  change (64%N :: §"sha256:" ++ d2) with (§"@sha256:" ++ d2).
  rewrite !len_app, (lower_hex_len _ _ H1), (lower_hex_len _ _ H2). done.
Qed.

Lemma registry_part_no_colon part : registry_part part = true -> 58%N ∉ part.
Proof.
  unfold registry_part. intros Hp Hin. bool_norm. rewrite forallb_bytes in H1.
  - rewrite forallb_iff in H1. by apply H1 in Hin.
  - intros c. rewrite !orb_true_iff, char_in_iff. unfold is_ascii_lowercase, is_ascii_digit.
    rewrite !between_iff. intros [[?|?]|Hc]; [lia|lia|]. repeat (apply elem_of_cons in Hc as [->|Hc]; [done|]).
    by apply elem_of_nil in Hc.
Qed.

Lemma image_publish_inv s :
  ImagePublishSpec_validate s = Ok tt ->
  immutable_registry_ref (ip_repository s ++ §"@sha256:" ++ repeat 97%N 64) = true /\
  artifact_name_from_declared_path (ip_descriptor_artifact s) <> artifact_name_from_declared_path (ip_published_artifact s).
Proof.
  unfold ImagePublishSpec_validate. intros Hs. ok_inv Hs. bool_norm.
  apply declared_artifact_names_spec in Hok as [-> [Hd _]]. cbn in Hd. apply NoDup_cons in Hd as [Hd _].
  rewrite list_elem_of_singleton in Hd. done.
Qed.

(** A validated publication spec names a repository, never a tag: every
    digest the registry can return gives a pinned reference, and with it the
    publication artifact of a commit exists and binds that commit and
    descriptor only. *)
Theorem image_publish_pins s commit digest hash :
  ImagePublishSpec_validate s = Ok tt ->
  valid_commit commit = true -> lower_hex digest 64 = true -> lower_hex hash 64 = true ->
  let image := ip_repository s ++ §"@sha256:" ++ digest in
  (exists registry path, ip_repository s = registry ++ [47%N] ++ path /\ 58%N ∉ path) /\
  exists p, PublishedImage_new commit image hash = Ok p /\ pi_image_ref p = image /\
    forall c h, PublishedImage_binds p c h = true <-> c = commit /\ h = hash.
Proof.
  intros Hs Hc Hd Hh image. apply image_publish_inv in Hs as [Hi _].
  destruct (immutable_any_digest (ip_repository s) (repeat 97%N 64) digest ltac:(vm_compute; reflexivity) Hd Hi) as [Hat Hi']. fold image in Hi'.
  split.
  - destruct (immutable_registry_ref_inv _ Hi) as (registry & path & d & E & Hat' & _ & Hp).
    exists registry, path. split.
    + assert (Hsp : split_once §"@" (ip_repository s ++ §"@sha256:" ++ repeat 97%N 64) =
                    split_once §"@" ((registry ++ [47%N] ++ path) ++ §"@sha256:" ++ d))
        by (rewrite E; by rewrite <- !app_assoc).
      change (§"@sha256:" ++ repeat 97%N 64) with (64%N :: §"sha256:" ++ repeat 97%N 64) in Hsp.
      change (§"@sha256:" ++ d) with (64%N :: §"sha256:" ++ d) in Hsp.
      rewrite (split_once_at _ _ Hat), (split_once_at _ _ Hat') in Hsp.
      apply (f_equal (fun o => fst (default ([], []) o))) in Hsp. exact Hsp.
    + intros Hin. rewrite <- (join_split 47 path) in Hin.
      assert (Hj : forall l, (58%N ∈ join [47%N] l) -> exists p, p ∈ l /\ 58%N ∈ p).
      { clear. induction l as [|x [|y l] IH]; cbn [join]; [by intros ?%elem_of_nil | intros; exists x; split; [left|done]|].
        rewrite !elem_of_app. intros [Hx|[Hx|Hx]].
        - exists x. split; [left|done].
        - apply list_elem_of_singleton in Hx. done.
        - destruct (IH Hx) as (p & Hp & ?). exists p. split; [by right|done]. }
      apply Hj in Hin as (p & Hp1 & Hp2). by apply (registry_part_no_colon p (Hp p Hp1)).
  - set (p := {| pi_schema := §"forge/published-image/v1"; pi_source_commit := commit;
                 pi_image_ref := image; pi_descriptor_sha256 := hash |}).
    assert (Hv : PublishedImage_validate p = Ok tt).
    { unfold PublishedImage_validate, p. cbn [pi_schema pi_source_commit pi_descriptor_sha256 pi_image_ref].
      rewrite str_eqb_refl, Hc, Hi', (proj2 (valid_image_id_iff (§"sha256:" ++ hash))) by eauto. reflexivity. }
    exists p. unfold PublishedImage_new. fold p. rewrite Hv. split; [reflexivity|]. split; [reflexivity|].
    intros c h. unfold PublishedImage_binds. rewrite Hv. cbn [is_ok andb]. unfold p. cbn [pi_source_commit pi_descriptor_sha256]. rewrite andb_true_iff, !str_eqb_true.
    split; intros [? ?]; split; congruence.
Qed.
End registry_facts.

Definition sample_publish : ImagePublishSpec :=
  {| ip_context := §"."; ip_dockerfile := §"Dockerfile"; ip_repository := §"registry.example.test/team/web";
     ip_descriptor_artifact := §"out/build.json"; ip_published_artifact := §"out/image.json";
     ip_target := None; ip_build_args := {[ §"NODE_HEAP_MB" := §"3072" ]} |}.

Lemma image_publish_pins_witness :
  let _ := sample_crate in
  @ImagePublishSpec_validate sample_crate sample_publish = Ok tt /\
  exists p, PublishedImage_new (repeat 97%N 40) (§"registry.example.test/team/web@sha256:" ++ repeat 99%N 64) (repeat 98%N 64) = Ok p /\
    (forall c h, PublishedImage_binds p c h = true <-> c = repeat 97%N 40 /\ h = repeat 98%N 64).
Proof.
  cbv zeta. split; [vm_compute; reflexivity|].
  destruct (@image_publish_pins sample_crate sample_publish (repeat 97%N 40) (repeat 99%N 64) (repeat 98%N 64)
    ltac:(vm_compute; reflexivity) ltac:(vm_compute; reflexivity) ltac:(vm_compute; reflexivity)
    ltac:(vm_compute; reflexivity)) as [_ (p & Hp & _ & Hb)].
  exists p. split; [exact Hp | exact Hb].
Defined.

(** ** Candidate descriptors *)

Lemma valid_versions_iff vs :
  valid_versions vs = true <-> vs <> [] /\ (zlen vs <= 16)%Z /\ NoDup vs /\ forall v, v ∈ vs -> (0 < v)%Z.
Proof.
  unfold valid_versions. rewrite !andb_true_iff, negb_true_iff, is_empty_false, Z.leb_le, forallbi_iff.
  setoid_rewrite andb_true_iff. setoid_rewrite Z.ltb_lt. setoid_rewrite negb_true_iff.
  setoid_rewrite bool_decide_eq_false. split.
  - intros [[? ?] Hv]. split_and!; [done|done| |].
    + apply NoDup_alt. intros i j x Hi Hj. destruct (Nat.lt_trichotomy i j) as [Hl|[->|Hl]]; [|done|]; exfalso.
      * apply (proj2 (Hv j x Hj)). apply list_elem_of_lookup. exists i. by rewrite lookup_take_lt.
      * apply (proj2 (Hv i x Hi)). apply list_elem_of_lookup. exists j. by rewrite lookup_take_lt.
    + intros v Hin. apply list_elem_of_lookup in Hin as [i Hi]. by apply (Hv i).
  - intros (? & ? & Hd & Hp). split; [done|]. intros i v Hi. split.
    + apply Hp. apply list_elem_of_lookup. eauto.
    + intros Hin. apply list_elem_of_lookup in Hin as [j Hj].
      apply lookup_take_Some in Hj as [Hj Hlt]. rewrite NoDup_alt in Hd.
      specialize (Hd _ _ _ Hj Hi). lia.
Qed.

(** A descriptor validates exactly when [new] builds it: the schema and the
    protocol are fixed, no migration is allowed, the image is a digest, the
    commit is full, and the versions are 1 to 16 distinct positive numbers. *)
Theorem oci_descriptor_closed d :
  OciCandidateDescriptor_validate d = Ok tt <->
  exists image commit vs, OciCandidateDescriptor_new image commit vs = Ok d /\
    valid_image_id image = true /\ valid_commit commit = true /\
    vs <> [] /\ (zlen vs <= 16)%Z /\ NoDup vs /\ (forall v, v ∈ vs -> (0 < v)%Z).
Proof.
  split.
  - intros Hd. pose proof Hd as Hd'. unfold OciCandidateDescriptor_validate in Hd'. ok_inv Hd'. bool_norm.
    destruct d as [sc im co pr vs mi]; cbn [oci_schema oci_image_id oci_source_commit oci_data_protocol
      oci_readable_schema_versions oci_migrations] in *.
    apply is_empty_true in H0. subst. exists im, co, vs.
    unfold OciCandidateDescriptor_new. rewrite Hd. split; [reflexivity|]. split; [assumption|]. split; [assumption|].
    by apply valid_versions_iff.
  - intros (im & co & vs & Hn & _). unfold OciCandidateDescriptor_new in Hn. ok_inv Hn. subst d. by destruct a.
Qed.
