(* ===== verification/Helm.v ===== *)
(** * Helm deployments

    [backend/domain/src/helm_deploy.rs]: the deployment target of an
    environment, the execution input offered to a runner, the receipt and the
    observation it returns, and the release metadata that is installed.

    A [Uuid] is its 128-bit value. *)
From S2P Require Import Prelude Url Artifacts Images.

Abbreviation Uuid := N.
Definition is_nil (u : Uuid) : bool := (u =? 0)%N.

Record KubernetesTarget : Type := {
  kt_schema : str;
  kt_cluster : str;
  kt_namespace : str;
  kt_release : str;
  kt_chart : str;
  kt_values : list str;
  kt_files : gmap str str;
  kt_health_url : str }.

Definition dns_byte (n : Z) (i : nat) (b : N) : bool :=
  is_ascii_lowercase b || is_ascii_digit b || ((0 <? Z.of_nat i)%Z && (Z.of_nat i + 1 <? n)%Z && (b =? 45)%N).

Definition dns (value : str) : bool :=
  negb (is_empty value) && (len value <=? 63)%Z && forallbi (dns_byte (len value)) (bytes value).

Definition value_key (value : str) : bool :=
  (len value <=? 256)%Z
  && forallb (fun part => negb (is_empty part)
                          && forallb (fun b => is_ascii_alphanumeric b || char_in §"_-" b) (bytes part)) (split 46 value)
  && negb (match split 46 value with first :: _ => str_eqb first §"_forge" | [] => false end).

Record ImageBinding : Type := { bd_job : str; bd_artifact : str }.

Record HelmDeploySpec : Type := {
  hd_environment_id : Uuid;
  hd_images : gmap str ImageBinding;
  hd_receipt_artifact : str }.

Definition job_byte (i : nat) (b : N) : bool :=
  is_ascii_alphabetic b || ((0 <? Z.of_nat i)%Z && (is_ascii_digit b || char_in §"_-." b)).

Definition invalid_binding (value_path : str) (binding : ImageBinding) : bool :=
  negb (value_key value_path)
  || is_empty (bd_job binding)
  || (63 <? len (bd_job binding))%Z
  || negb (forallbi job_byte (bytes (bd_job binding)))
  || negb (valid_relative_path (bd_artifact binding) false).

Definition HelmDeploySpec_validate (s : HelmDeploySpec) : result unit str :=
  if is_nil (hd_environment_id s)
     || is_empty (bindings (hd_images s))
     || (16 <? zlen (bindings (hd_images s)))%Z
     || negb (valid_relative_path (hd_receipt_artifact s) false)
  then Err §"helm_deploy requires an environment identity and 1..16 image bindings"
  else if existsb (fun '(value_path, binding) => invalid_binding value_path binding) (bindings (hd_images s))
  then Err §"invalid Helm image binding"
  else Ok tt.

Record ReleaseMetadata : Type := {
  rm_environment_id : Uuid;
  rm_deployment_id : Uuid;
  rm_pipeline_id : Uuid;
  rm_attempt_id : Uuid;
  rm_lease_id : Uuid;
  rm_generation : Z;
  rm_source_commit : str;
  rm_pipeline_order : Z;
  rm_images : gmap str str }.

Record RollbackRelease : Type := {
  rb_revision : Z;
  rb_expected_current_revision : Z;
  rb_metadata : ReleaseMetadata }.

Record DeploymentOffer : Type := {
  of_environment_id : Uuid;
  of_deployment_id : Uuid;
  of_pipeline_id : Uuid;
  of_job_id : Uuid;
  of_attempt_id : Uuid;
  of_lease_id : Uuid;
  of_generation : Z;
  of_source_commit : str;
  of_pipeline_order : Z;
  of_target : KubernetesTarget;
  of_images : gmap str PublishedImage;
  of_receipt_artifact : str;
  of_rollback : option RollbackRelease }.

Record DeploymentReceipt : Type := {
  rc_schema : str;
  rc_deployment_id : Uuid;
  rc_pipeline_id : Uuid;
  rc_attempt_id : Uuid;
  rc_lease_id : Uuid;
  rc_generation : Z;
  rc_source_commit : str;
  rc_cluster : str;
  rc_namespace : str;
  rc_namespace_uid : Uuid;
  rc_release : str;
  rc_release_revision : Z;
  rc_images : gmap str str;
  rc_health_status : Z;
  rc_health_transport : str }.

Record DeploymentObservation : Type := {
  ob_schema : str;
  ob_phase : str;
  ob_deployment_id : Uuid;
  ob_pipeline_id : Uuid;
  ob_attempt_id : Uuid;
  ob_lease_id : Uuid;
  ob_generation : Z;
  ob_source_commit : str;
  ob_namespace_uid : Uuid;
  ob_release_revision : option Z;
  ob_receipt : option DeploymentReceipt }.

(** [offer.images.iter().map(|(key, image)| (key, image.image_ref)).collect()] *)
Definition image_refs (images : gmap str PublishedImage) : gmap str str := pi_image_ref <$> images.

Definition DeploymentReceipt_validates (r : DeploymentReceipt) (offer : DeploymentOffer) : bool :=
  str_eqb (rc_schema r) §"forge/kubernetes-deployment/v1"
  && (rc_deployment_id r =? of_deployment_id offer)%N
  && (rc_pipeline_id r =? of_pipeline_id offer)%N
  && (rc_attempt_id r =? of_attempt_id offer)%N
  && (rc_lease_id r =? of_lease_id offer)%N
  && (rc_generation r =? of_generation offer)%Z
  && str_eqb (rc_source_commit r) (of_source_commit offer)
  && str_eqb (rc_cluster r) (kt_cluster (of_target offer))
  && str_eqb (rc_namespace r) (kt_namespace (of_target offer))
  && negb (is_nil (rc_namespace_uid r))
  && str_eqb (rc_release r) (kt_release (of_target offer))
  && (0 <? rc_release_revision r)%Z
  && ((200 <=? rc_health_status r)%Z && (rc_health_status r <? 300)%Z)
  && (str_eqb (rc_health_transport r) §"public-https" || str_eqb (rc_health_transport r) §"cluster-service-http")
  && bool_decide (rc_images r = image_refs (of_images offer)).

Definition ReleaseMetadata_installed (offer : DeploymentOffer) : ReleaseMetadata :=
  match of_rollback offer with
  | Some rollback => rb_metadata rollback
  | None =>
    {| rm_environment_id := of_environment_id offer;
       rm_deployment_id := of_deployment_id offer;
       rm_pipeline_id := of_pipeline_id offer;
       rm_attempt_id := of_attempt_id offer;
       rm_lease_id := of_lease_id offer;
       rm_generation := of_generation offer;
       rm_source_commit := of_source_commit offer;
       rm_pipeline_order := of_pipeline_order offer;
       rm_images := image_refs (of_images offer) |}
  end.

Definition DeploymentObservation_validates (o : DeploymentObservation) (offer : DeploymentOffer) : bool :=
  str_eqb (ob_schema o) §"forge/kubernetes-deployment-observation/v1"
  && (ob_deployment_id o =? of_deployment_id offer)%N
  && (ob_pipeline_id o =? of_pipeline_id offer)%N
  && (ob_attempt_id o =? of_attempt_id offer)%N
  && (ob_lease_id o =? of_lease_id offer)%N
  && (ob_generation o =? of_generation offer)%Z
  && str_eqb (ob_source_commit o) (of_source_commit offer)
  && negb (is_nil (ob_namespace_uid o))
  && match ob_release_revision o with None => true | Some v => (0 <? v)%Z end
  && (if str_eqb (ob_phase o) §"deployed"
      then match ob_receipt o with
           | Some receipt =>
             DeploymentReceipt_validates receipt offer
             && (rc_namespace_uid receipt =? ob_namespace_uid o)%N
             && bool_decide (Some (rc_release_revision receipt) = ob_release_revision o)
           | None => false
           end
      else (str_eqb (ob_phase o) §"failed" || str_eqb (ob_phase o) §"no-effect" || str_eqb (ob_phase o) §"superseded")
           && is_none (ob_receipt o)).

Section validation.
Context `{UrlCrate}.

Definition KubernetesTarget_validate (t : KubernetesTarget) : result unit str :=
  if negb (str_eqb (kt_schema t) §"forge/kubernetes-environment/v1")
     || negb (dns (kt_cluster t))
     || negb (dns (kt_namespace t))
     || negb (dns (kt_release t))
     || (53 <? len (kt_release t))%Z
     || negb (valid_relative_path (kt_chart t) false)
     || (16 <? zlen (bindings (kt_files t)))%Z
     || negb (forallb (fun '(key, path) => value_key key && valid_relative_path path false) (bindings (kt_files t)))
     || (16 <? zlen (kt_values t))%Z
     || negb (forallb (fun v => valid_relative_path v false) (kt_values t))
  then Err §"invalid Kubernetes environment identity or repository paths"
  else
  let? url := ok_or (url_parse (kt_health_url t)) §"invalid deployment health URL" in
  if negb (str_eqb (url_scheme url) §"https")
     || is_none (url_host_str url)
     || negb (is_empty (url_username url))
     || is_some (url_password url)
     || is_some (url_query url)
     || is_some (url_fragment url)
  then Err §"deployment health requires a credential-free HTTPS URL"
  else Ok tt.

Definition invalid_image (source_commit : str) (key : str) (image : PublishedImage) : bool :=
  negb (value_key key) || negb (is_ok (PublishedImage_validate image))
  || negb (str_eqb (pi_source_commit image) source_commit).

Definition DeploymentOffer_validate (o : DeploymentOffer) : result unit str :=
  let? _ := KubernetesTarget_validate (of_target o) in
  if existsb is_nil [of_environment_id o; of_deployment_id o; of_pipeline_id o; of_job_id o; of_attempt_id o; of_lease_id o]
     || (of_generation o <=? 0)%Z
     || (of_pipeline_order o <=? 0)%Z
     || negb (valid_commit (of_source_commit o))
     || negb (valid_relative_path (of_receipt_artifact o) false)
     || is_empty (bindings (of_images o))
     || (16 <? zlen (bindings (of_images o)))%Z
     || existsb (fun '(key, image) => invalid_image (of_source_commit o) key image) (bindings (of_images o))
  then Err §"invalid immutable Helm execution input"
  else match of_rollback o with
  | Some rollback =>
    if (rb_revision rollback <=? 0)%Z
       || (rb_expected_current_revision rollback <? rb_revision rollback)%Z
       || negb (rm_environment_id (rb_metadata rollback) =? of_environment_id o)%N
       || negb (str_eqb (rm_source_commit (rb_metadata rollback)) (of_source_commit o))
       || negb (bool_decide (rm_images (rb_metadata rollback) = image_refs (of_images o)))
    then Err §"invalid rollback release snapshot"
    else Ok tt
  | None => Ok tt
  end.
End validation.

(** ** Facts *)

Section facts.
Context `{UrlCrate}.

(** Every image of a validated offer is a publication of the offered commit,
    pinned by a digest. *)
Lemma offer_images_pinned o key image :
  DeploymentOffer_validate o = Ok tt -> of_images o !! key = Some image ->
  value_key key = true /\ pi_source_commit image = of_source_commit o /\
  immutable_registry_ref (pi_image_ref image) = true.
Proof.
  unfold DeploymentOffer_validate. intros Ho Hk. ok_inv Ho. bool_norm.
  match goal with E : existsb _ (bindings (of_images o)) = false |- _ =>
    rewrite existsb_false_iff in E; specialize (E (key, image) (proj2 (elem_of_bindings _ _ _) Hk));
    unfold invalid_image in E end.
  bool_norm. destruct (PublishedImage_validate image) as [u|] eqn:Hu; [|done]. unfold PublishedImage_validate in Hu. ok_inv Hu. bool_norm. done.
Qed.

Lemma offer_images_some o : DeploymentOffer_validate o = Ok tt -> of_images o <> ∅.
Proof.
  unfold DeploymentOffer_validate. intros Ho He. ok_inv Ho. bool_norm. by rewrite He in *.
Qed.

Lemma deployed_receipt ob o :
  DeploymentObservation_validates ob o = true -> ob_phase ob = §"deployed" ->
  exists r, ob_receipt ob = Some r /\ DeploymentReceipt_validates r o = true /\
    rc_namespace_uid r = ob_namespace_uid ob /\ ob_release_revision ob = Some (rc_release_revision r).
Proof.
  unfold DeploymentObservation_validates. intros Hv Hp. rewrite Hp, str_eqb_refl in Hv. bool_norm.
  destruct (ob_receipt ob) as [r|]; [|done]. bool_norm. by exists r.
Qed.

(** An observation that reports a deployment of a validated offer carries
    a receipt whose images are exactly the offered value keys, each at the
    digest-pinned reference published for the offered commit; the receipt
    belongs to the observed namespace and revision and saw a healthy
    response. *)
Theorem deployed_receipt_pins_images ob o :
  DeploymentOffer_validate o = Ok tt -> DeploymentObservation_validates ob o = true ->
  ob_phase ob = §"deployed" ->
  exists r, ob_receipt ob = Some r /\
    rc_namespace_uid r = ob_namespace_uid ob /\ ob_release_revision ob = Some (rc_release_revision r) /\
    (0 < rc_release_revision r)%Z /\ (200 <= rc_health_status r < 300)%Z /\
    rc_source_commit r = of_source_commit o /\ rc_images r <> ∅ /\
    forall key image_ref, rc_images r !! key = Some image_ref <->
      exists image, of_images o !! key = Some image /\ pi_image_ref image = image_ref /\
        value_key key = true /\ pi_source_commit image = rc_source_commit r /\
        immutable_registry_ref image_ref = true.
Proof.
  intros Ho Hob Hp. destruct (deployed_receipt ob o Hob Hp) as (r & Hr & Hv & Hns & Hrev).
  exists r. unfold DeploymentReceipt_validates in Hv. bool_norm.
  match goal with E : rc_images r = _ |- _ => rewrite E; clear E end.
  match goal with E : rc_source_commit r = _ |- _ => rewrite E end. unfold image_refs. split_and!; try done.
  - rewrite fmap_empty_iff. by apply offer_images_some.
  - intros key ref. rewrite lookup_fmap, fmap_Some. split.
    + intros (image & Hi & ->). exists image. destruct (offer_images_pinned o key image Ho Hi) as (? & ? & ?).
      split_and!; done.
    + intros (image & Hi & <- & _). by exists image.
Qed.

(** Whatever a validated offer installs - a fresh release, or the
    snapshot of an earlier one on rollback - the recorded metadata names the
    offered environment and commit and the offered image references; and a
    rollback never moves past the revision it expects to be current. *)
Theorem installed_release_matches_offer o :
  DeploymentOffer_validate o = Ok tt ->
  let m := ReleaseMetadata_installed o in
  rm_environment_id m = of_environment_id o /\ rm_source_commit m = of_source_commit o /\
  rm_images m = image_refs (of_images o) /\
  (forall key ref, rm_images m !! key = Some ref -> immutable_registry_ref ref = true) /\
  (forall rb, of_rollback o = Some rb -> (0 < rb_revision rb <= rb_expected_current_revision rb)%Z /\ m = rb_metadata rb).
Proof.
  intros Ho. cbv zeta. pose proof (offer_images_pinned o) as Hpin.
  assert (Hm : rm_images (ReleaseMetadata_installed o) = image_refs (of_images o) /\
               rm_environment_id (ReleaseMetadata_installed o) = of_environment_id o /\
               rm_source_commit (ReleaseMetadata_installed o) = of_source_commit o /\
               forall rb, of_rollback o = Some rb -> (0 < rb_revision rb <= rb_expected_current_revision rb)%Z /\
                 ReleaseMetadata_installed o = rb_metadata rb).
  { unfold ReleaseMetadata_installed. pose proof Ho as Ho'. unfold DeploymentOffer_validate in Ho'.
    destruct (of_rollback o) as [rb|]; [|done]. ok_inv Ho'. bool_norm. split_and!; try done.
    intros rb' [= <-]. split; [lia|done]. }
  destruct Hm as (-> & -> & -> & Hrb). split_and!; try done.
  intros key ref. unfold image_refs. rewrite lookup_fmap, fmap_Some. intros (image & Hi & ->).
  by apply (Hpin key image Ho Hi).
Qed.
End facts.

(** ** A concrete offer *)

Definition sample_commit : str := repeat 97%N 40.
Definition sample_image : PublishedImage :=
  {| pi_schema := §"forge/published-image/v1"; pi_source_commit := sample_commit;
     pi_image_ref := §"registry.example.test/team/web@sha256:" ++ repeat 99%N 64; pi_descriptor_sha256 := repeat 98%N 64 |}.
Definition sample_target : KubernetesTarget :=
  {| kt_schema := §"forge/kubernetes-environment/v1"; kt_cluster := §"pdlc"; kt_namespace := §"r1-dev";
     kt_release := §"r1"; kt_chart := §"deploy/helm/r1"; kt_values := [§"deploy/dev-values.yaml"];
     kt_files := ∅; kt_health_url := §"https://r1-dev.example.test/health" |}.
Definition sample_offer (rollback : option RollbackRelease) : DeploymentOffer :=
  {| of_environment_id := 1; of_deployment_id := 2; of_pipeline_id := 3; of_job_id := 4; of_attempt_id := 5;
     of_lease_id := 6; of_generation := 1; of_source_commit := sample_commit; of_pipeline_order := 7;
     of_target := sample_target; of_images := {[ §"web.image" := sample_image ]};
     of_receipt_artifact := §"out/receipt.json"; of_rollback := rollback |}.
Definition sample_rollback : RollbackRelease :=
  {| rb_revision := 2; rb_expected_current_revision := 3;
     rb_metadata := ReleaseMetadata_installed (sample_offer None) |}.
Definition sample_receipt : DeploymentReceipt :=
  {| rc_schema := §"forge/kubernetes-deployment/v1"; rc_deployment_id := 2; rc_pipeline_id := 3; rc_attempt_id := 5;
     rc_lease_id := 6; rc_generation := 1; rc_source_commit := sample_commit; rc_cluster := §"pdlc";
     rc_namespace := §"r1-dev"; rc_namespace_uid := 9; rc_release := §"r1"; rc_release_revision := 4;
     rc_images := {[ §"web.image" := pi_image_ref sample_image ]}; rc_health_status := 204;
     rc_health_transport := §"public-https" |}.
Definition sample_observation : DeploymentObservation :=
  {| ob_schema := §"forge/kubernetes-deployment-observation/v1"; ob_phase := §"deployed"; ob_deployment_id := 2;
     ob_pipeline_id := 3; ob_attempt_id := 5; ob_lease_id := 6; ob_generation := 1; ob_source_commit := sample_commit;
     ob_namespace_uid := 9; ob_release_revision := Some 4%Z; ob_receipt := Some sample_receipt |}.

Lemma deployed_receipt_pins_images_witness :
  @DeploymentOffer_validate sample_crate (sample_offer None) = Ok tt /\
  exists r, ob_receipt sample_observation = Some r /\ (200 <= rc_health_status r < 300)%Z.
Proof.
  split; [vm_compute; reflexivity|].
  destruct (@deployed_receipt_pins_images sample_crate sample_observation (sample_offer None)
    ltac:(vm_compute; reflexivity) ltac:(vm_compute; reflexivity) ltac:(reflexivity))
    as (r & Hr & _ & _ & _ & Hs & _).
  exists r. split; [exact Hr|exact Hs].
Defined.

Lemma installed_release_matches_offer_witness :
  @DeploymentOffer_validate sample_crate (sample_offer (Some sample_rollback)) = Ok tt /\
  rm_source_commit (ReleaseMetadata_installed (sample_offer (Some sample_rollback))) = sample_commit.
Proof.
  split; [vm_compute; reflexivity|].
  destruct (@installed_release_matches_offer sample_crate (sample_offer (Some sample_rollback))
    ltac:(vm_compute; reflexivity)) as (_ & Hc & _).
  exact Hc.
Defined.
