(* ===== verification/Authz.v ===== *)
(** * Authorization policy

    [backend/app/src/lib.rs]: roles, the published route table
    [ROUTE_POLICIES] (entry by entry, in the order of the source), and the
    decisions taken from it. *)
From S2P Require Import Prelude.

Inductive Action : Type := Read | Write | ActAdmin.
Inductive Role : Type := Viewer | Developer | Maintainer | Admin.

#[export] Instance Action_eq_dec : EqDecision Action.
Proof. solve_decision. Defined.
#[export] Instance Role_eq_dec : EqDecision Role.
Proof. solve_decision. Defined.

(** The derived order of the enum. *)
Definition role_rank (r : Role) : nat :=
  match r with Viewer => 0 | Developer => 1 | Maintainer => 2 | Admin => 3 end.
Definition role_geb (a b : Role) : bool := role_rank b <=? role_rank a.

Definition role_as_str (r : Role) : str :=
  match r with
  | Viewer => §"viewer"
  | Developer => §"developer"
  | Maintainer => §"maintainer"
  | Admin => §"admin"
  end.

Definition role_parse (value : str) : option Role :=
  if str_eqb value §"viewer" then Some Viewer
  else if str_eqb value §"user" || str_eqb value §"developer" then Some Developer
  else if str_eqb value §"maintainer" then Some Maintainer
  else if str_eqb value §"admin" then Some Admin
  else if str_eqb value §"service_account" then Some Developer
  else None.

Definition is_project_role (r : Role) : bool := match r with Admin => false | _ => true end.

(** [valid_project_role] of [backend/src/api/pipelines_routes.rs]. *)
Definition valid_project_role (role : str) : bool :=
  match role_parse role with Some r => is_project_role r | None => false end.

Inductive RouteAccess : Type :=
| Public
| User (action : Action) (min_role : Role)
| Runner
| System
| NamespaceOwner
| NamespaceReader
| Git (action : Action) (min_role : Role).

Inductive HumanAccess : Type := Work | Administration | Technical.

#[export] Instance RouteAccess_eq_dec : EqDecision RouteAccess.
Proof. solve_decision. Defined.
#[export] Instance HumanAccess_eq_dec : EqDecision HumanAccess.
Proof. solve_decision. Defined.

Record RoutePolicy : Type := RoutePolicy_ {
  methods : list str;
  path : str;
  access : RouteAccess;
  human_access : HumanAccess }.

Definition GET : list str := [§"GET"].
Definition POST : list str := [§"POST"].
Definition PUT : list str := [§"PUT"].
Definition PATCH : list str := [§"PATCH"].
Definition DELETE : list str := [§"DELETE"].
Definition PATCH_DELETE : list str := [§"PATCH"; §"DELETE"].

Definition public (m : list str) (p : str) : RoutePolicy := RoutePolicy_ m p Public Technical.
Definition runner (m : list str) (p : str) : RoutePolicy := RoutePolicy_ m p Runner Technical.
Definition system (m : list str) (p : str) : RoutePolicy := RoutePolicy_ m p System Technical.
Definition git (m : list str) (p : str) (a : Action) (r : Role) : RoutePolicy := RoutePolicy_ m p (Git a r) Work.
Definition work (m : list str) (p : str) (a : Action) (r : Role) : RoutePolicy := RoutePolicy_ m p (User a r) Work.
Definition administration (m : list str) (p : str) (a : Action) (r : Role) : RoutePolicy :=
  RoutePolicy_ m p (User a r) Administration.

(** ** The route table *)

Definition route_policies_1 : list RoutePolicy := [
  work GET §"/api/v1/projects/{project_id}/development-workspaces" Read Viewer;
  work GET §"/api/v1/projects/{project_id}/development-workspace-profiles" Read Viewer;
  work POST §"/api/v1/projects/{project_id}/development-workspaces" Write Maintainer;
  work GET §"/api/v1/development-workspaces/{workspace_id}" Read Viewer;
  work GET §"/api/v1/development-workspaces/{workspace_id}/operations" Read Viewer;
  work POST §"/api/v1/development-workspaces/{workspace_id}/operations" Write Developer;
  work GET §"/api/v1/development-workspaces/{workspace_id}/operations/{operation_id}" Read Viewer;
  work POST §"/api/v1/development-workspaces/{workspace_id}/operations/{operation_id}/reconcile" Write Maintainer;
  work GET §"/api/v1/space-admission" Read Viewer;
  administration GET §"/api/v1/repository-syncs" Read Viewer;
  administration GET §"/api/v1/repository-sync-schedule" Read Admin;
  administration PUT §"/api/v1/repository-sync-schedule" ActAdmin Admin;
  administration GET §"/api/v1/catalog/repositories/{id}/sync" Read Viewer;
  administration PUT §"/api/v1/catalog/repositories/{id}/sync" Write Developer;
  administration POST §"/api/v1/catalog/repositories/{id}/sync/check" Write Developer;
  administration POST §"/api/v1/catalog/repositories/{id}/sync/runs" Write Developer;
  administration GET §"/api/v1/catalog/repositories/{id}/sync/runs" Read Viewer;
  administration GET §"/api/v1/catalog/repositories/{id}/sync/runs/{run_id}" Read Viewer;
  administration GET §"/api/v1/catalog/repositories/{id}/sync/runs/{run_id}/refs" Read Viewer;
  work GET §"/api/v1/projects/{project_id}/pipelines/{pipeline_id}/task-workspace" Read Viewer;
  work POST §"/api/v1/projects/{project_id}/sdlc/workspace-operations/{operation_key}/delivery-operations" Write Developer;
  work GET §"/api/v1/projects/{project_id}/sdlc/workspace-operations/{operation_key}/delivery-operations/{delivery_key}" Read Viewer;
  work GET §"/api/v1/projects/{project_id}/sdlc/workspace-operations/{operation_key}/candidate-evidence" Read Viewer;
  work POST §"/api/v1/projects/{project_id}/sdlc/workspace-operations" Write Developer;
  work GET §"/api/v1/projects/{project_id}/sdlc/workspace-operations/{operation_key}" Read Viewer;
  RoutePolicy_ GET §"/api/v2/spaces/{registry}/{space}/owner-state" NamespaceOwner Technical].

Definition route_policies_2 : list RoutePolicy := [
  RoutePolicy_ PUT §"/api/v2/spaces/{registry}/{space}/owner-state" NamespaceOwner Technical;
  RoutePolicy_ GET §"/api/v1/namespace-resources/git_group/{id}" NamespaceOwner Technical;
  RoutePolicy_ PUT §"/api/v1/namespace-resources/git_group/{id}" NamespaceOwner Technical;
  RoutePolicy_ GET §"/api/v1/namespace-repositories" NamespaceReader Technical;
  RoutePolicy_ GET §"/api/v1/namespace-repositories/{id}" NamespaceReader Technical;
  RoutePolicy_ GET §"/api/v1/namespace-repositories/{id}/source" NamespaceReader Technical;
  RoutePolicy_ GET §"/api/v1/namespace-repositories/{id}/devops-evidence" NamespaceReader Technical;
  RoutePolicy_ GET §"/api/v1/namespace-task-evidence/{tracker}/{task}" NamespaceReader Technical;
  work GET §"/api/v1/namespace-available-resources" Read Viewer;
  work GET §"/api/v1/namespace-stats/{registry}/{namespace}" Read Viewer;
  work GET §"/api/v1/catalog/available-repositories" Read Viewer;
  administration PUT §"/api/v1/catalog/repositories/{id}/group" Write Developer;
  work GET §"/api/v1/catalog/repositories/{id}/pulls/{number}/tasks" Read Viewer;
  work POST §"/api/v1/catalog/repositories/{id}/pulls/{number}/tasks" Write Developer;
  work GET §"/api/v1/workspace-pipelines" Read Viewer;
  work GET §"/api/v1/workspace-summary" Read Viewer;
  work GET §"/api/v1/catalog/repositories" Read Viewer;
  administration GET §"/api/v1/catalog/repositories/{id}/delivery-config-operations/{operation}" Read Viewer;
  work GET §"/api/v1/workspace-projects" Read Viewer;
  work GET §"/api/v1/workspace-projects/{registry}/{namespace}" Read Viewer;
  work GET §"/api/v1/workspace-projects/{registry}/{namespace}/summary" Read Viewer;
  work GET §"/api/v1/workspace-projects/{registry}/{namespace}/pipelines" Read Viewer;
  work GET §"/api/v1/workspace-projects/{registry}/{namespace}/deployments" Read Viewer;
  work GET §"/api/v1/catalog/repositories/{id}/pipelines" Read Viewer;
  work GET §"/api/v1/catalog/repositories/{id}/deployments" Read Viewer].

Definition route_policies_3 : list RoutePolicy := [
  administration GET §"/api/v1/delivery-configurations" Read Viewer;
  administration GET §"/api/v1/delivery-configurations/{id}" Read Viewer;
  administration GET §"/api/v1/catalog/repositories/{id}/delivery-configs" Read Viewer;
  administration POST §"/api/v1/catalog/repositories/{id}/delivery-configs" Write Developer;
  administration GET §"/api/v1/catalog/repositories/{id}/push-config" Read Viewer;
  administration PUT §"/api/v1/catalog/repositories/{id}/push-config" Write Developer;
  work GET §"/api/v1/namespace-contexts" Read Viewer;
  work GET §"/api/v1/namespace-contexts/{registry}/{namespace}" Read Viewer;
  work GET §"/api/v1/git-groups/{id}/repositories" Read Viewer;
  administration POST §"/api/v1/git-groups/{id}/repositories" Write Developer;
  administration PUT §"/api/v1/catalog/repositories/{id}/delivery-configs/{project_id}" Write Developer;
  work GET §"/api/v1/catalog/repositories/{id}" Read Viewer;
  work GET §"/api/v1/catalog/repositories/{id}/pulls" Read Viewer;
  work POST §"/api/v1/catalog/repositories/{id}/pulls" Write Developer;
  work GET §"/api/v1/catalog/repositories/{id}/pulls/{number}" Read Viewer;
  work POST §"/api/v1/catalog/repositories/{id}/pulls/{number}/action" Write Developer;
  git GET §"/git/{group}/{repo}/info/refs" Read Viewer;
  git POST §"/git/{group}/{repo}/git-upload-pack" Read Viewer;
  git POST §"/git/{group}/{repo}/git-receive-pack" Write Developer;
  public GET §"/health";
  public GET §"/api/v1/health";
  public GET §"/api/v1/readiness";
  public GET §"/api/v1/openapi.json";
  public GET §"/metrics";
  public POST §"/api/v1/auth/login";
  public POST §"/api/v1/auth/refresh";
  public POST §"/api/v1/auth/logout";
  system POST §"/api/v1/internal/git-push";
  system POST §"/api/v1/internal/task-git-check";
  system POST §"/api/v1/internal/development-workspace-git-check";
  system POST §"/api/v1/projects/{project_id}/pipelines/{pipeline_id}/credential-renewals";
  system GET §"/api/v1/projects/{project_id}/pipelines/{pipeline_id}/credential-renewals/{renewal_key}";
  runner POST §"/api/v1/runner/register";
  runner POST §"/api/v1/runner/heartbeat";
  runner POST §"/api/v1/runner/work:poll";
  runner POST §"/api/v1/runner/leases/{lease_id}/ack";
  runner POST §"/api/v1/runner/leases/{lease_id}/renew";
  runner GET §"/api/v1/runner/leases/{lease_id}/control";
  runner GET §"/api/v1/runner/leases/{lease_id}/receipt";
  runner POST §"/api/v1/runner/leases/{lease_id}/secrets:resolve";
  runner POST §"/api/v1/runner/leases/{lease_id}/artifact-sessions:begin"].

Definition route_policies_4 : list RoutePolicy := [
  runner POST §"/api/v1/runner/leases/{lease_id}/artifact-sessions/{session_id}/chunks";
  runner POST §"/api/v1/runner/leases/{lease_id}/artifact-sessions/{session_id}/complete";
  runner POST §"/api/v1/runner/leases/{lease_id}/artifact-sessions/{session_id}/abort";
  runner POST §"/api/v1/runner/leases/{lease_id}/artifacts";
  runner POST §"/api/v1/runner/leases/{lease_id}/logs";
  runner POST §"/api/v1/runner/leases/{lease_id}/complete";
  git GET §"/git/{repo}/info/refs" Read Viewer;
  git POST §"/git/{repo}/git-upload-pack" Read Viewer;
  git POST §"/git/{repo}/git-receive-pack" Write Developer;
  administration GET §"/api/v1/audit-log" Read Maintainer;
  administration GET §"/api/v1/audit-log/page" Read Maintainer;
  administration GET §"/api/v1/users" Read Maintainer;
  administration POST §"/api/v1/users" ActAdmin Admin;
  administration PATCH §"/api/v1/users/{user_id}" ActAdmin Admin;
  administration GET §"/api/v1/api-tokens" Read Maintainer;
  administration POST §"/api/v1/api-tokens" ActAdmin Admin;
  administration DELETE §"/api/v1/api-tokens/{token_id}" ActAdmin Admin;
  administration GET §"/api/v1/runners" Read Maintainer;
  administration POST §"/api/v1/runners" ActAdmin Admin;
  administration DELETE §"/api/v1/runners/{runner_id}" ActAdmin Admin;
  administration POST §"/api/v1/runners/{runner_id}/heartbeat" ActAdmin Admin;
  work GET §"/api/v1/projects" Read Viewer;
  administration POST §"/api/v1/projects" Write Developer;
  work GET §"/api/v1/projects/{project_id}" Read Viewer;
  administration PATCH §"/api/v1/projects/{project_id}" Write Developer;
  administration DELETE §"/api/v1/projects/{project_id}" Write Developer;
  administration GET §"/api/v1/projects/{project_id}/memberships" Read Maintainer;
  administration POST §"/api/v1/projects/{project_id}/memberships" ActAdmin Maintainer;
  administration DELETE §"/api/v1/projects/{project_id}/memberships/{user_id}" ActAdmin Maintainer;
  work GET §"/api/v1/projects/{project_id}/pipelines" Read Viewer;
  work POST §"/api/v1/projects/{project_id}/pipelines" Write Developer;
  work GET §"/api/v1/pipelines/{pipeline_id}" Read Viewer;
  work POST §"/api/v1/pipelines/{pipeline_id}/cancel" Write Developer;
  work POST §"/api/v1/pipelines/{pipeline_id}/retry" Write Developer;
  work GET §"/api/v1/pipelines/{pipeline_id}/badge.svg" Read Viewer;
  work GET §"/api/v1/pipelines/{pipeline_id}/variables" Read Viewer;
  administration POST §"/api/v1/jobs/{job_id}/status" Write Developer].

Definition route_policies_5 : list RoutePolicy := [
  work POST §"/api/v1/jobs/{job_id}/retry" Write Developer;
  work POST §"/api/v1/jobs/{job_id}/start" Write Developer;
  work GET §"/api/v1/jobs/{job_id}/attempts" Read Viewer;
  work GET §"/api/v1/jobs/{job_id}/attempts/{attempt_id}/logs" Read Viewer;
  work GET §"/api/v1/jobs/{job_id}/attempts/{attempt_id}/logs/page" Read Viewer;
  work GET §"/api/v1/jobs/{job_id}/logs" Read Viewer;
  administration POST §"/api/v1/jobs/{job_id}/logs" Write Developer;
  work GET §"/api/v1/jobs/{job_id}/logs/page" Read Viewer;
  work GET §"/api/v1/jobs/{job_id}/logs/stream" Read Viewer;
  work GET §"/api/v1/jobs/{job_id}/test-report" Read Viewer;
  administration POST §"/api/v1/jobs/{job_id}/test-report" Write Developer;
  work GET §"/api/v1/jobs/{job_id}/artifacts" Read Viewer;
  administration POST §"/api/v1/jobs/{job_id}/artifacts" Write Developer;
  work GET §"/api/v1/artifacts/{artifact_id}/download" Read Viewer;
  administration GET §"/api/v1/projects/{project_id}/secrets" Read Viewer;
  administration POST §"/api/v1/projects/{project_id}/secrets" ActAdmin Maintainer;
  administration DELETE §"/api/v1/secrets/{secret_id}" ActAdmin Maintainer;
  work GET §"/api/v1/projects/{project_id}/environments" Read Viewer;
  administration POST §"/api/v1/projects/{project_id}/environments" Write Developer;
  administration PATCH_DELETE §"/api/v1/environments/{environment_id}" Write Developer;
  work GET §"/api/v1/environments/{environment_id}/deployments" Read Viewer;
  administration POST §"/api/v1/environments/{environment_id}/deployments" Write Developer;
  work GET §"/api/v1/deployments/{deployment_id}/approvals" Read Viewer;
  administration POST §"/api/v1/deployments/{deployment_id}/approvals" ActAdmin Maintainer].

Definition route_policies_6 : list RoutePolicy := [
  administration POST §"/api/v1/deployments/{deployment_id}/rollback" ActAdmin Maintainer;
  administration GET §"/api/v1/projects/{project_id}/schedules" Read Viewer;
  administration POST §"/api/v1/projects/{project_id}/schedules" Write Developer;
  administration PATCH_DELETE §"/api/v1/schedules/{schedule_id}" Write Developer;
  administration GET §"/api/v1/projects/{project_id}/webhooks" Read Viewer;
  administration POST §"/api/v1/projects/{project_id}/webhooks" Write Developer;
  administration DELETE §"/api/v1/webhooks/{webhook_id}" Write Developer;
  work GET §"/api/v1/projects/{project_id}/outbox-deliveries" Read Viewer;
  work GET §"/api/v1/projects/{project_id}/outbox-deliveries/page" Read Viewer;
  work GET §"/api/v1/outbox-deliveries/{delivery_id}" Read Viewer;
  administration POST §"/api/v1/outbox-deliveries/{delivery_id}/requeue" ActAdmin Maintainer;
  work GET §"/api/v1/projects/{project_id}/notifications" Read Viewer;
  administration PUT §"/api/v1/projects/{project_id}/notifications" Write Developer;
  work GET §"/api/v1/projects/{project_id}/notification-events" Read Viewer;
  work GET §"/api/v1/projects/{project_id}/destination-alerts" Read Viewer;
  work POST §"/api/v1/destination-alerts/{alert_id}/acknowledge" Write Developer;
  work GET §"/api/v1/projects/{project_id}/notification-rules" Read Viewer;
  administration PUT §"/api/v1/projects/{project_id}/notification-rules" Write Developer;
  work GET §"/api/v1/projects/{project_id}/notification-preferences" Read Viewer;
  work PUT §"/api/v1/projects/{project_id}/notification-preferences" Write Viewer;
  work GET §"/api/v1/projects/{project_id}/notification-templates" Read Viewer;
  administration PUT §"/api/v1/projects/{project_id}/notification-templates" Write Developer;
  work GET §"/api/v1/projects/{project_id}/notifications/stream" Read Viewer;
  work GET §"/api/v1/projects/{project_id}/reports/summary" Read Viewer;
  work GET §"/api/v1/repositories" Read Viewer;
  administration POST §"/api/v1/repositories" Write Developer].

Definition route_policies_7 : list RoutePolicy := [
  administration DELETE §"/api/v1/repositories/{name}" Write Developer;
  work GET §"/api/v1/repos/{repo}/refs" Read Viewer;
  work GET §"/api/v1/repos/{repo}/tree" Read Viewer;
  work GET §"/api/v1/repos/{repo}/blob" Read Viewer;
  work GET §"/api/v1/repos/{repo}/tags" Read Viewer;
  work GET §"/api/v1/repos/{repo}/commits" Read Viewer;
  work GET §"/api/v1/repos/{repo}/compare" Read Viewer;
  work GET §"/api/v1/repos/{repo}/releases" Read Viewer;
  work POST §"/api/v1/repos/{repo}/releases" Write Developer;
  work GET §"/api/v1/repos/{repo}/releases/{tag}" Read Viewer;
  work DELETE §"/api/v1/repos/{repo}/releases/{tag}" Write Developer;
  work GET §"/api/v1/repos/{repo}/pulls" Read Viewer;
  work GET §"/api/v1/repos/{repo}/pulls/page" Read Viewer;
  work GET §"/api/v1/repos/{repo}/pulls/{number}" Read Viewer;
  work POST §"/api/v1/repos/{repo}/pulls" Write Developer;
  work POST §"/api/v1/repos/{repo}/pulls/{number}/action" Write Developer;
  administration GET §"/api/v1/admin/tenants" Read Admin;
  administration POST §"/api/v1/admin/tenants" Write Admin;
  administration GET §"/api/v1/admin/tenants/{tenant_id}" Read Admin;
  administration POST §"/api/v1/admin/tenants/{tenant_id}/memberships" Write Admin;
  administration DELETE §"/api/v1/admin/tenants/{tenant_id}/memberships/{user_id}" Write Admin;
  work GET §"/api/v1/auth/principal" Read Viewer;
  administration GET §"/api/v1/admin/service-accounts" Read Admin;
  administration POST §"/api/v1/admin/service-accounts" Write Admin;
  administration PATCH §"/api/v1/admin/service-accounts/{account_id}" Write Admin;
  administration POST §"/api/v1/admin/service-accounts/{account_id}/tokens" Write Admin].

Definition ROUTE_POLICIES : list RoutePolicy :=
  route_policies_1 ++ route_policies_2 ++ route_policies_3 ++ route_policies_4 ++ route_policies_5 ++ route_policies_6 ++ route_policies_7.

(** ** Matching *)

Definition method_matches (method : str) (ms : list str) : bool :=
  existsb (fun candidate => str_eqb candidate method
                            || (str_eqb method §"HEAD" && str_eqb candidate §"GET")) ms.

(** [s.trim_matches('/').split('/')] *)
Definition segments (p : str) : list str := split 47 (trim_matches (N.eqb 47) p).

Definition is_placeholder (s : str) : bool := starts_with §"{" s && ends_with §"}" s.

Definition path_matches (policy_path actual_path : str) : bool :=
  forallb (fun '(policy, actual) => is_placeholder policy || str_eqb policy actual)
          (zip (segments policy_path) (segments actual_path))
  && (length (segments policy_path) =? length (segments actual_path)).

Definition matches (method p : str) (policy : RoutePolicy) : bool :=
  method_matches method (methods policy) && path_matches (path policy) p.

(** [ROUTE_POLICIES.iter().find(..)] *)
Definition find_policy (method p : str) : option RoutePolicy := List.find (matches method p) ROUTE_POLICIES.

Definition route_access (method p : str) : option RouteAccess := access <$> find_policy method p.

Definition human_allows (administrator : bool) (method p : str) : bool :=
  match find_policy method p with
  | None => false
  | Some policy =>
    match human_access policy with
    | Work => true
    | Administration => administrator
    | Technical => false
    end
  end.

Definition user_required_role (method p : str) : option (Action * Role) :=
  match route_access method p with
  | Some (User action min_role) => Some (action, min_role)
  | _ => None
  end.

Definition is_read_only (method : str) : bool :=
  str_eqb method §"GET" || str_eqb method §"HEAD" || str_eqb method §"OPTIONS".

Definition required_role (method p : str) : Action * Role :=
  match user_required_role method p with
  | Some r => r
  | None => if is_read_only method then (Read, Viewer) else (Write, Developer)
  end.

Definition allows (role : Role) (method p : str) : bool :=
  match user_required_role method p with
  | Some (_, min_role) => role_geb role min_role
  | None => false
  end.

(** ** Facts about matching *)

Lemma find_policy_Some m a p :
  find_policy m a = Some p -> p ∈ ROUTE_POLICIES /\ matches m a p = true.
Proof. unfold find_policy. intros [H1 H2]%List.find_some. split; [by apply list_elem_of_In|done]. Qed.

Lemma find_policy_None m a : find_policy m a = None -> forall p, p ∈ ROUTE_POLICIES -> matches m a p = false.
Proof. unfold find_policy. intros H p Hp%list_elem_of_In. by apply (List.find_none _ _ H). Qed.

Definition unify_segments (a b : list str) : bool :=
  (length a =? length b)
  && forallb (fun '(x, y) => is_placeholder x || is_placeholder y || str_eqb x y) (zip a b).

Definition read_method (m : str) : bool := str_eqb m §"GET" || str_eqb m §"HEAD".

Definition methods_overlap (a b : list str) : bool :=
  existsb (fun c => existsb (fun d => str_eqb c d || (read_method c && read_method d)) b) a.

(** What the check below needs of an entry, computed once. *)
Definition row (p : RoutePolicy) : list str * list str * (RouteAccess * HumanAccess) :=
  (methods p, segments (path p), (access p, human_access p)).

(** Two entries that some request could match at once. *)
Definition overlap (p q : list str * list str * (RouteAccess * HumanAccess)) : bool :=
  unify_segments p.1.2 q.1.2 && methods_overlap p.1.1 q.1.1.

Lemma method_matches_iff m ms :
  method_matches m ms = true <-> exists c, c ∈ ms /\ (c = m \/ (m = §"HEAD" /\ c = §"GET")).
Proof.
  unfold method_matches. rewrite existsb_iff. setoid_rewrite orb_true_iff. setoid_rewrite andb_true_iff.
  setoid_rewrite str_eqb_true. done.
Qed.

Lemma path_matches_unify pol1 pol2 a :
  path_matches pol1 a = true -> path_matches pol2 a = true ->
  unify_segments (segments pol1) (segments pol2) = true.
Proof.
  unfold path_matches, unify_segments. generalize (segments pol1) (segments pol2) (segments a).
  intros l1 l2 l. rewrite !andb_true_iff, !Nat.eqb_eq. intros [H1 E1] [H2 E2]. split; [congruence|].
  revert l1 l2 H1 E1 H2 E2. induction l as [|x l IH]; intros [|y1 l1] [|y2 l2]; cbn; try done.
  rewrite !andb_true_iff. intros [H1 H1'] E1 [H2 H2'] E2. split; [|by apply IH; auto].
  apply orb_true_iff in H1 as [->|H1%str_eqb_true]; [done|].
  apply orb_true_iff in H2 as [->|H2%str_eqb_true]; [by rewrite orb_true_r|].
  subst. by rewrite str_eqb_refl, orb_true_r.
Qed.

Lemma matches_overlap m a p q : matches m a p = true -> matches m a q = true -> overlap (row p) (row q) = true.
Proof.
  unfold matches, overlap. rewrite !andb_true_iff, !method_matches_iff.
  intros [(c & Hc & Hcm) Hp] [(d & Hd & Hdm) Hq]. split; [by eapply path_matches_unify|].
  apply existsb_iff. exists c. split; [done|]. apply existsb_iff. exists d. split; [done|].
  apply orb_true_iff. destruct Hcm as [->|[-> ->]], Hdm as [->|[? ->]]; subst;
    try (left; by apply str_eqb_true); by right.
Qed.

Definition decision (p : RoutePolicy) : RouteAccess * HumanAccess := (access p, human_access p).

(** The table is unambiguous: overlapping entries decide alike. *)
Lemma table_unambiguous :
  let table := map row ROUTE_POLICIES in
  forallb (fun p => forallb (fun q => negb (overlap p q) || bool_decide (p.2 = q.2)) table) table = true.
Proof. vm_compute. reflexivity. Qed.

Lemma table_forall (f : RoutePolicy -> bool) :
  forallb f ROUTE_POLICIES = true -> forall p, p ∈ ROUTE_POLICIES -> f p = true.
Proof. by rewrite forallb_iff. Qed.

Lemma decision_of_match m a p :
  p ∈ ROUTE_POLICIES -> matches m a p = true -> exists q, find_policy m a = Some q /\ decision q = decision p.
Proof.
  intros Hp Hm. destruct (find_policy m a) as [q|] eqn:E.
  - exists q. split; [done|]. apply find_policy_Some in E as [Hq Hqm].
    pose proof table_unambiguous as H. cbv zeta in H. rewrite forallb_iff in H.
    specialize (H _ (list_elem_of_fmap_2 row _ _ Hq)). cbv beta in H. rewrite forallb_iff in H.
    specialize (H _ (list_elem_of_fmap_2 row _ _ Hp)). apply orb_true_iff in H as [H|H].
    + by rewrite (matches_overlap m a q p) in H.
    + by apply bool_decide_eq_true in H.
  - by rewrite (find_policy_None _ _ E p Hp) in Hm.
Qed.

(** ** The policy *)

(** The order of the table is irrelevant: a request is decided by any entry
    that matches it, and denied to every human and role when none does. *)
Theorem route_decision_order_free m a :
  (forall p, p ∈ ROUTE_POLICIES -> matches m a p = true ->
     route_access m a = Some (access p) /\
     forall administrator, human_allows administrator m a =
       match human_access p with Work => true | Administration => administrator | Technical => false end) /\
  ((forall p, p ∈ ROUTE_POLICIES -> matches m a p = false) ->
     route_access m a = None /\ (forall r, allows r m a = false) /\ forall adm, human_allows adm m a = false).
Proof.
  split.
  - intros p Hp Hm. destruct (decision_of_match m a p Hp Hm) as (q & Hq & [= Ha Hh]).
    unfold route_access, human_allows. rewrite Hq. cbn. by rewrite Ha, Hh.
  - intros H. assert (E : find_policy m a = None).
    { destruct (find_policy m a) as [p|] eqn:E; [|done]. apply find_policy_Some in E as [Hp Hm].
      by rewrite (H p Hp) in Hm. }
    unfold allows, user_required_role, human_allows, route_access. by rewrite E.
Qed.

Lemma route_decision_order_free_witness :
  let p := git GET §"/git/{repo}/info/refs" Read Viewer in
  let r := §"/git/app/info/refs" in
  p ∈ ROUTE_POLICIES /\ matches §"HEAD" r p = true /\
  route_access §"HEAD" r = Some (Git Read Viewer) /\
  matches §"GET" §"/api/v1/unknown" p = false /\ human_allows true §"GET" §"/api/v1/unknown" = false.
Proof.
  cbv zeta. assert (Hin : git GET §"/git/{repo}/info/refs" Read Viewer ∈ ROUTE_POLICIES).
  { apply list_elem_of_lookup. exists 98. vm_compute. reflexivity. }
  assert (Hm : matches §"HEAD" §"/git/app/info/refs" (git GET §"/git/{repo}/info/refs" Read Viewer) = true)
    by (vm_compute; reflexivity).
  split; [exact Hin|]. split; [exact Hm|]. split; [|split; [vm_compute; reflexivity|]].
  - exact (proj1 (proj1 (route_decision_order_free _ _) _ Hin Hm)).
  - refine (proj2 (proj2 (proj2 (route_decision_order_free _ _) _)) true).
    intros q Hq. apply not_true_iff_false. intros Hqm.
    pose proof (table_forall (fun p => negb (matches §"GET" §"/api/v1/unknown" p)) ltac:(vm_compute; reflexivity) q Hq) as Hn.
    cbv beta in Hn. rewrite Hqm in Hn. discriminate Hn.
Defined.

Lemma allows_policy r m a :
  allows r m a = true <->
  exists p act min, find_policy m a = Some p /\ access p = User act min /\ role_geb r min = true.
Proof.
  unfold allows, user_required_role, route_access. destruct (find_policy m a) as [p|]; cbn.
  - destruct (access p) eqn:Ea; split; try done; try (intros (? & ? & ? & [= <-] & Ha & ?); congruence); eauto 6.
  - split; [done|]. by intros (? & ? & ? & ? & _).
Qed.

Lemma role_geb_trans a b c : role_geb a b = true -> role_geb b c = true -> role_geb a c = true.
Proof. unfold role_geb. rewrite !Nat.leb_le. lia. Qed.

Definition viewer_write_path : str := §"/api/v1/projects/{project_id}/notification-preferences".

Definition least_privilege_entry (p : RoutePolicy) : bool :=
  match access p with
  | User act min =>
    (* administrative actions need a maintainer *)
    (if bool_decide (act = ActAdmin) then role_geb min Maintainer else true)
    (* a viewer only reads, but for their own preferences *)
    && (role_geb min Developer
        || bool_decide (methods p = GET)
        || (bool_decide (methods p = PUT) && str_eqb (path p) viewer_write_path))
  | _ => true
  end.

(** Least privilege: the policy is monotone in the role, an administrative
    action needs at least a maintainer, and a viewer may send nothing but
    reads, the update of the notification preferences excepted. *)
Theorem least_privilege r m a :
  (forall r', role_geb r' r = true -> allows r m a = true -> allows r' m a = true) /\
  (allows r m a = true -> fst (required_role m a) = ActAdmin -> role_geb r Maintainer = true) /\
  (allows Viewer m a = true -> m <> §"GET" -> m <> §"HEAD" ->
   m = §"PUT" /\ path_matches viewer_write_path a = true).
Proof.
  assert (Htab : forallb least_privilege_entry ROUTE_POLICIES = true) by (vm_compute; reflexivity).
  assert (Hent : forall p, find_policy m a = Some p -> least_privilege_entry p = true /\ matches m a p = true).
  { intros p [Hin Hm]%find_policy_Some. split; [by apply (table_forall _ Htab)|done]. }
  split_and!.
  - intros r' Hr (p & act & mn & Hf & Ha & Hg)%allows_policy. apply allows_policy. exists p, act, mn.
    split_and!; [done|done|]. by eapply role_geb_trans.
  - intros (p & act & mn & Hf & Ha & Hg)%allows_policy.
    unfold required_role, user_required_role, route_access. rewrite Hf. cbn [fmap option_fmap option_map].
    rewrite Ha. cbn. intros ->. destruct (Hent p Hf) as [He _]. unfold least_privilege_entry in He.
    rewrite Ha in He. rewrite bool_decide_true in He by done. apply andb_true_iff in He as [He _].
    exact (role_geb_trans r mn Maintainer Hg He).
  - intros (p & act & mn & Hf & Ha & Hg)%allows_policy Hget Hhead. destruct (Hent p Hf) as [He Hm].
    unfold least_privilege_entry in He. rewrite Ha in He. apply andb_true_iff in He as [_ He].
    unfold matches in Hm. apply andb_true_iff in Hm as [Hmm Hp]. apply method_matches_iff in Hmm as (c & Hc & Hcm).
    apply orb_true_iff in He as [He|He]; [apply orb_true_iff in He as [He|He]|].
    + destruct mn; cbn in Hg, He; discriminate.
    + apply bool_decide_eq_true in He. rewrite He in Hc. apply list_elem_of_singleton in Hc.
      destruct Hcm as [->|[-> _]]; [by destruct Hget | by destruct Hhead].
    + apply andb_true_iff in He as [He Hpath]. apply bool_decide_eq_true in He. apply str_eqb_true in Hpath.
      rewrite He in Hc. apply list_elem_of_singleton in Hc. rewrite Hpath in Hp.
      destruct Hcm as [->|[-> _]]; [done | by destruct Hhead].
Qed.

Lemma least_privilege_witness :
  let a := §"/api/v1/projects/p1/notification-preferences" in
  allows Viewer §"PUT" a = true /\ allows Developer §"PUT" a = true /\
  (§"PUT" = §"PUT" /\ path_matches viewer_write_path a = true).
Proof.
  cbv zeta. assert (Hv : allows Viewer §"PUT" §"/api/v1/projects/p1/notification-preferences" = true) by (vm_compute; reflexivity).
  split; [exact Hv|]. split.
  - exact (proj1 (least_privilege Viewer _ _) Developer eq_refl Hv).
  - apply (proj2 (proj2 (least_privilege Viewer _ _)) Hv); vm_compute; discriminate.
Defined.

Definition human_entry (p : RoutePolicy) : bool :=
  match access p with
  | User act min =>
    (* administrative actions and routes for administrators are administration *)
    bool_decide (human_access p = Administration)
    || (bool_decide (human_access p = Work) && negb (bool_decide (act = ActAdmin)) && negb (bool_decide (min = Admin)))
  | Git _ _ => bool_decide (human_access p = Work)
  | _ => bool_decide (human_access p = Technical)
  end && negb (existsb (str_eqb §"HEAD") (methods p)).

(** The boundary between people and machines: a route that authenticates a
    runner, a service or nobody is closed to every human, whatever their role;
    a non-administrator never reaches more than an administrator, and neither
    administrative actions nor routes for the administrator role; and [HEAD] is
    decided as [GET]. *)
Theorem human_boundary m a :
  (forall adm, human_allows adm m a = true ->
     exists act min, route_access m a = Some (User act min) \/ route_access m a = Some (Git act min)) /\
  (forall r adm, allows r m a = true -> adm = true -> human_allows adm m a = true) /\
  (human_allows false m a = true -> human_allows true m a = true) /\
  (human_allows false m a = true ->
     forall act min, route_access m a = Some (User act min) -> act <> ActAdmin /\ min <> Admin) /\
  route_access §"HEAD" a = route_access §"GET" a /\
  (forall adm, human_allows adm §"HEAD" a = human_allows adm §"GET" a).
Proof.
  assert (Htab : forallb human_entry ROUTE_POLICIES = true) by (vm_compute; reflexivity).
  assert (Hent : forall m p, find_policy m a = Some p -> human_entry p = true).
  { intros m' p [Hin _]%find_policy_Some. by apply (table_forall _ Htab). }
  assert (Hhead : find_policy §"HEAD" a = find_policy §"GET" a).
  { unfold find_policy. pose proof (table_forall _ Htab) as Ht. revert Ht. clear.
    induction ROUTE_POLICIES as [|p l IH]; intros Ht; [done|]. cbn [List.find].
    assert (E : matches §"HEAD" a p = matches §"GET" a p).
    { unfold matches. f_equal. apply eq_bool_prop_intro. rewrite !Is_true_true, !method_matches_iff.
      specialize (Ht p ltac:(left)). unfold human_entry in Ht. apply andb_true_iff in Ht as [_ Ht].
      apply negb_true_iff in Ht. rewrite existsb_false_iff in Ht. split; intros (c & Hc & Hm).
      - exists c. split; [done|]. destruct Hm as [->|[_ ->]]; [|by left]. specialize (Ht _ Hc). by rewrite str_eqb_refl in Ht.
      - exists c. split; [done|]. destruct Hm as [->|[Hx _]]; [by right|]. vm_compute in Hx. discriminate. }
    rewrite E. destruct (matches §"GET" a p); [done|]. apply IH. intros q Hq. apply Ht. by right. }
  unfold route_access, human_allows. rewrite Hhead. split_and!; [| | | |done|done].
  - intros adm. destruct (find_policy m a) as [p|] eqn:E; [|done]. specialize (Hent m p E).
    unfold human_entry in Hent. apply andb_true_iff in Hent as [Hent _]. cbn [fmap option_fmap option_map].
    destruct (access p) as [|act mn| | | | |act mn];
      try (apply bool_decide_eq_true in Hent; rewrite Hent; intros Hd; discriminate Hd);
      intros _; exists act, mn; [left|right]; reflexivity.
  - intros r adm (p & act & mn & Hf & Ha & Hg)%allows_policy ->. rewrite Hf. specialize (Hent m p Hf).
    unfold human_entry in Hent. rewrite Ha in Hent. destruct (human_access p); [reflexivity|reflexivity|discriminate Hent].
  - destruct (find_policy m a) as [p|]; [|intros Hd; exact Hd]. destruct (human_access p); intros Hd; first [exact Hd | reflexivity].
  - destruct (find_policy m a) as [p|] eqn:E; [|intros Hd; discriminate Hd]. specialize (Hent m p E). intros Hh act mn Ha.
    injection Ha as Ha. unfold human_entry in Hent. rewrite Ha in Hent. apply andb_true_iff in Hent as [Hent _].
    destruct (human_access p); [|discriminate Hh|discriminate Hh]. cbn in Hent. apply andb_true_iff in Hent as [Hact Hmn].
    split; intros ->; [discriminate Hact | discriminate Hmn].
Qed.

Lemma human_boundary_witness :
  human_allows true §"POST" §"/api/v1/users" = true /\
  (exists act min, route_access §"POST" §"/api/v1/users" = Some (User act min) \/
                   route_access §"POST" §"/api/v1/users" = Some (Git act min)).
Proof.
  split; [vm_compute; reflexivity|].
  apply (proj1 (human_boundary _ _) true). vm_compute. reflexivity.
Defined.
