(* ===== verification/Schedule.v ===== *)
(** * Cron schedules

    [backend/src/schedule.rs]: parsing of five-field cron expressions, the
    match of a point in time and the search for the next fire time.

    A [DateTime<Utc>] is its number of nanoseconds since the epoch.  The
    calendar fields come from the crate [chrono], which is a parameter. *)
From S2P Require Import Prelude.

Definition minute_ns : Z := 60000000000.
Definition day_ns : Z := 86400000000000.
Definition SEARCH_WINDOW_DAYS : Z := 366 * 5.

Record CronField : Type := { cf_values : list bool; cf_any : bool }.

Record CronSchedule : Type := {
  minutes : CronField;
  hours : CronField;
  days_of_month : CronField;
  months : CronField;
  days_of_week : CronField }.

Inductive CronFieldKind : Type := Minute | Hour | DayOfMonth | Month | DayOfWeek.

(** ** Bounds and names *)

Definition raw_bounds (kind : CronFieldKind) : Z * Z :=
  match kind with
  | Minute => (0, 59)
  | Hour => (0, 23)
  | DayOfMonth => (1, 31)
  | Month => (1, 12)
  | DayOfWeek => (0, 7)
  end%Z.

Definition normalized_bounds (kind : CronFieldKind) : Z * Z :=
  match kind with DayOfWeek => (0, 6)%Z | _ => raw_bounds kind end.

Definition expansion_bounds (kind : CronFieldKind) : Z * Z :=
  match kind with DayOfWeek => (0, 6)%Z | _ => raw_bounds kind end.

Definition month_names : list str :=
  [§"JAN"; §"FEB"; §"MAR"; §"APR"; §"MAY"; §"JUN"; §"JUL"; §"AUG"; §"SEP"; §"OCT"; §"NOV"; §"DEC"].
Definition day_names : list str := [§"SUN"; §"MON"; §"TUE"; §"WED"; §"THU"; §"FRI"; §"SAT"].

(** The arms of a [match] on names, numbered from [first]. *)
Fixpoint name_index (first : Z) (names : list str) (raw : str) : option Z :=
  match names with
  | [] => None
  | n :: r => if str_eqb raw n then Some first else name_index (first + 1) r raw
  end.

Definition named_value (raw : str) (kind : CronFieldKind) : option Z :=
  match kind with
  | Month => name_index 1 month_names raw
  | DayOfWeek => name_index 0 day_names raw
  | _ => None
  end.

Definition outside (raw : str) (bounds : Z * Z) : str :=
  §"cron value `" ++ raw ++ §"` is outside " ++ show_Z bounds.1 ++ §".." ++ show_Z bounds.2.

Definition normalize_value (kind : CronFieldKind) (value : Z) : result Z str :=
  let normalized := match kind with DayOfWeek => if (value =? 7)%Z then 0%Z else value | _ => value end in
  let bounds := normalized_bounds kind in
  if (normalized <? bounds.1)%Z || (bounds.2 <? normalized)%Z
  then Err (outside (show_Z value) bounds)
  else Ok normalized.

Definition parse_raw_value (raw : str) (kind : CronFieldKind) : result Z str :=
  match named_value (to_ascii_uppercase raw) kind with
  | Some value => Ok value
  | None =>
    let? value := ok_or (parse_unsigned u32_max raw) (§"invalid cron value `" ++ raw ++ §"`") in
    let bounds := raw_bounds kind in
    if (value <? bounds.1)%Z || (bounds.2 <? value)%Z then Err (outside raw bounds) else Ok value
  end.

(** ** One item of a field *)

Definition parse_step (part : str) : result (str * option Z) str :=
  match split_once §"/" part with
  | None => Ok (part, None)
  | Some (base, step) =>
    if is_empty base || is_empty step || contains_char 47 step then Err §"invalid cron step"
    else
      let? step := ok_or (parse_unsigned u32_max step) §"cron step must be a positive number" in
      if (step =? 0)%Z then Err §"cron step must be positive" else Ok (base, Some step)
  end.

Definition expand_base (base : str) (has_step : bool) (kind : CronFieldKind) : result (list (Z * Z)) str :=
  if str_eqb base §"*" then Ok [expansion_bounds kind]
  else match split_once §"-" base with
  | Some (start, end_) =>
    if is_empty start || is_empty end_ || contains_char 45 end_ then Err §"invalid cron range"
    else
      let? s := parse_raw_value start kind in
      let? e := parse_raw_value end_ kind in
      Ok [(s, e)]
  | None =>
    let? start := parse_raw_value base kind in
    let end_ := if has_step then (expansion_bounds kind).2 else start in
    Ok [(start, end_)]
  end.

(** [while value <= end { ... }]; the fuel is the length of the range. *)
Fixpoint mark (kind : CronFieldKind) (step end_ : Z) (fuel : nat) (values : list bool) (value : Z)
  : result (list bool) str :=
  match fuel with
  | O => Ok values
  | S f =>
    if (value <=? end_)%Z then
      let? normalized := normalize_value kind value in
      let values' := <[Z.to_nat normalized := true]> values in
      match checked_add u32_max value step with
      | Some next => mark kind step end_ f values' next
      | None => Ok values'
      end
    else Ok values
  end.

Definition mark_range (kind : CronFieldKind) (step : option Z) (values : list bool) (range : Z * Z)
  : result (list bool) str :=
  let '(start, end_) := range in
  if (end_ <? start)%Z then Err §"cron range start must be before range end"
  else mark kind (default 1%Z step) end_ (Z.to_nat (end_ - start + 1)) values start.

Definition parse_item (kind : CronFieldKind) (values : list bool) (part : str) : result (list bool) str :=
  if is_empty part then Err §"empty cron list item"
  else
    let? bs := parse_step part in
    let? ranges := expand_base bs.1 (match bs.2 with Some _ => true | None => false end) kind in
    rfold (mark_range kind bs.2) values ranges.

Definition nth_value (values : list bool) (v : Z) : bool := default false (values !! Z.to_nat v).

Definition z_range (lo hi : Z) : list Z := map (fun i => (lo + Z.of_nat i)%Z) (seq 0 (Z.to_nat (hi - lo + 1))).

Definition parse_field (raw : str) (kind : CronFieldKind) : result CronField str :=
  if is_empty raw then Err §"empty cron field"
  else
    let bounds := normalized_bounds kind in
    let? values := rfold (parse_item kind) (repeat false (Z.to_nat (bounds.2 + 1))) (split 44 raw) in
    let any := forallb (nth_value values) (z_range bounds.1 bounds.2) in
    if negb (existsb id values) then Err §"cron field has no allowed values"
    else Ok {| cf_values := values; cf_any := any |}.

Definition parse_cron (expression : str) : result CronSchedule str :=
  match split_whitespace expression with
  | [p0; p1; p2; p3; p4] =>
    let? m := parse_field p0 Minute in
    let? h := parse_field p1 Hour in
    let? dom := parse_field p2 DayOfMonth in
    let? mo := parse_field p3 Month in
    let? dow := parse_field p4 DayOfWeek in
    Ok {| minutes := m; hours := h; days_of_month := dom; months := mo; days_of_week := dow |}
  | _ => Err §"cron must have five fields"
  end.

(** ** Matching and searching *)

(** The calendar accessors of [chrono] on a UTC time. *)
Class Chrono : Type := {
  dt_minute : Z -> Z;
  dt_hour : Z -> Z;
  dt_day : Z -> Z;
  dt_month : Z -> Z;
  (** [weekday().num_days_from_sunday()] *)
  dt_weekday : Z -> Z;
  (** [with_second(0)] followed by [with_nanosecond(0)] *)
  dt_zero_second : Z -> Z }.

Definition field_matches (f : CronField) (value : Z) : bool := nth_value (cf_values f) value.

Section search.
Context `{Chrono}.

Definition schedule_matches (s : CronSchedule) (t : Z) : bool :=
  let day_matches :=
    if negb (cf_any (days_of_month s)) && negb (cf_any (days_of_week s))
    then field_matches (days_of_month s) (dt_day t) || field_matches (days_of_week s) (dt_weekday t)
    else field_matches (days_of_month s) (dt_day t) && field_matches (days_of_week s) (dt_weekday t) in
  field_matches (minutes s) (dt_minute t)
  && field_matches (hours s) (dt_hour t)
  && day_matches
  && field_matches (months s) (dt_month t).

(** [while candidate <= deadline { ... candidate += 1 minute }] *)
Fixpoint search (s : CronSchedule) (deadline : Z) (fuel : nat) (candidate : Z) : option Z :=
  match fuel with
  | O => None
  | S f =>
    if (candidate <=? deadline)%Z then
      if schedule_matches s candidate then Some candidate
      else search s deadline f (candidate + minute_ns)
    else None
  end.

(** One iteration per minute of the window. *)
Definition search_fuel : nat := Z.to_nat (SEARCH_WINDOW_DAYS * 1440 + 1).

Definition next_fire_after (s : CronSchedule) (after : Z) : option Z :=
  let candidate := dt_zero_second (after + minute_ns) in
  let deadline := (after + SEARCH_WINDOW_DAYS * day_ns)%Z in
  search s deadline search_fuel candidate.

Definition next_fire_after_expr (expression : str) (after : Z) : result Z str :=
  let? schedule := parse_cron expression in
  ok_or (next_fire_after schedule after) §"cron expression has no matching fire time in the next five years".
End search.

(** ** What a field denotes *)

(** The values an item stands for: [base/step] steps through the range of its
    base, and 7 is Sunday. *)
Definition item_denotes (kind : CronFieldKind) (part : str) (v : Z) : Prop :=
  exists base step s e k,
    parse_step part = Ok (base, step) /\
    expand_base base (match step with Some _ => true | None => false end) kind = Ok [(s, e)] /\
    (0 <= k)%Z /\ (s + k * default 1%Z step <= e)%Z /\ normalize_value kind (s + k * default 1%Z step)%Z = Ok v.

Definition field_denotes (kind : CronFieldKind) (raw : str) (v : Z) : Prop :=
  exists part, part ∈ split 44 raw /\ item_denotes kind part v.

Definition in_bounds (kind : CronFieldKind) (v : Z) : Prop :=
  ((normalized_bounds kind).1 <= v <= (normalized_bounds kind).2)%Z.

Lemma normalized_bounds_pos kind : (0 <= (normalized_bounds kind).1 <= (normalized_bounds kind).2)%Z.
Proof. destruct kind; cbn; lia. Qed.

Lemma raw_bounds_pos kind : (0 <= (raw_bounds kind).1 /\ (raw_bounds kind).2 <= 59)%Z.
Proof. destruct kind; cbn; lia. Qed.

Lemma normalize_value_bounds kind x v : normalize_value kind x = Ok v -> in_bounds kind v.
Proof.
  unfold normalize_value, in_bounds. intros E. ok_inv E. bool_norm. subst. lia.
Qed.

Lemma nth_value_insert values n v :
  (0 <= n)%Z -> (0 <= v)%Z -> (n < zlen values)%Z ->
  nth_value (<[Z.to_nat n := true]> values) v = bool_decide (v = n) || nth_value values v.
Proof.
  unfold nth_value, zlen. intros Hn Hv Hl. destruct (decide (v = n)) as [->|Hne].
  - rewrite list_lookup_insert_eq by lia. by rewrite bool_decide_true.
  - rewrite list_lookup_insert_ne by lia. by rewrite bool_decide_false.
Qed.

Definition stepped (kind : CronFieldKind) (start st end_ v : Z) : Prop :=
  exists k, (0 <= k)%Z /\ (start + k * st <= end_)%Z /\ normalize_value kind (start + k * st)%Z = Ok v.

Lemma stepped_none kind start st end_ v : (0 < st)%Z -> (end_ < start)%Z -> ~ stepped kind start st end_ v.
Proof. intros Hs He (k & Hk & Hle & _). nia. Qed.

Lemma stepped_next kind start st end_ v n :
  (0 < st)%Z -> (start <= end_)%Z -> normalize_value kind start = Ok n ->
  stepped kind start st end_ v <-> v = n \/ stepped kind (start + st)%Z st end_ v.
Proof.
  intros Hs Hle Hn. split.
  - intros (k & Hk & Hke & Hkv). destruct (Z.eq_dec k 0%Z) as [->|Hk0].
    + left. rewrite Z.mul_0_l, Z.add_0_r in Hkv. congruence.
    + right. exists (k - 1)%Z. split_and!; [lia| |]; replace (start + st + (k - 1) * st)%Z with (start + k * st)%Z by ring; done.
  - intros [->|(k & Hk & Hke & Hkv)].
    + exists 0%Z. rewrite Z.mul_0_l, Z.add_0_r. done.
    + exists (k + 1)%Z. replace (start + (k + 1) * st)%Z with (start + st + k * st)%Z by ring. split_and!; [lia|done|done].
Qed.

(** The marking loop terminates within its fuel and marks exactly the stepped
    values. *)
Lemma mark_spec kind st end_ fuel values value r :
  (0 < st)%Z -> (0 <= value)%Z -> (end_ <= u32_max)%Z -> (end_ - value < Z.of_nat fuel)%Z ->
  zlen values = ((normalized_bounds kind).2 + 1)%Z ->
  mark kind st end_ fuel values value = Ok r ->
  zlen r = zlen values /\
  forall v, (0 <= v)%Z -> nth_value r v = true <-> stepped kind value st end_ v \/ nth_value values v = true.
Proof.
  intros Hst. revert values value. induction fuel as [|f IH]; intros values value Hv He Hf Hl; cbn [mark].
  { intros [= <-]. split; [done|]. intros v Hv'. split; [by right|].
    intros [Hs|]; [|done]. exfalso. eapply stepped_none in Hs; [done|done|]. lia. }
  destruct (Z.leb_spec value end_) as [Hle|Hgt].
  2:{ intros [= <-]. split; [done|]. intros v Hv'. split; [by right|].
      intros [Hs|]; [|done]. exfalso. by eapply stepped_none in Hs. }
  intros (n & Hn & Hm)%rbind_Ok_inv. cbn beta in Hm.
  pose proof (normalize_value_bounds _ _ _ Hn) as [Hb1 Hb2]. pose proof (normalized_bounds_pos kind).
  assert (Hins : forall v, (0 <= v)%Z -> nth_value (<[Z.to_nat n:=true]> values) v = bool_decide (v = n) || nth_value values v).
  { intros v Hv'. apply nth_value_insert; lia. }
  assert (Hlen : zlen (<[Z.to_nat n:=true]> values) = zlen values) by (unfold zlen; by rewrite length_insert).
  unfold checked_add in Hm. destruct (Z.leb_spec (value + st) u32_max) as [Ho|Ho].
  - apply IH in Hm as [Hr1 Hr2]; [|lia|done|lia|lia]. split; [lia|]. intros v Hv'.
    rewrite Hr2, Hins, orb_true_iff, bool_decide_eq_true, (stepped_next kind value st end_ v n) by done. tauto.
  - injection Hm as <-. split; [done|]. intros v Hv'.
    rewrite Hins, orb_true_iff, bool_decide_eq_true, (stepped_next kind value st end_ v n) by done.
    assert (Hs : ~ stepped kind (value + st)%Z st end_ v) by (apply stepped_none; lia). tauto.
Qed.

Lemma parse_raw_value_bounds raw kind v : parse_raw_value raw kind = Ok v -> (0 <= v <= 59)%Z.
Proof.
  unfold parse_raw_value. destruct (named_value _ kind) as [n|] eqn:En.
  - intros [= <-]. revert En. generalize (to_ascii_uppercase raw). intros u.
    destruct kind; cbn [named_value]; try done; cbn [name_index month_names day_names];
      repeat (case_match; [intros [= <-]; lia|]); done.
  - intros E. ok_inv E. bool_norm. subst. pose proof (raw_bounds_pos kind). lia.
Qed.

Lemma expand_base_single base hs kind rs :
  expand_base base hs kind = Ok rs -> exists s e, rs = [(s, e)] /\ (0 <= s)%Z /\ (e <= 59)%Z.
Proof.
  unfold expand_base. destruct (str_eqb base §"*").
  - intros [= <-]. exists (expansion_bounds kind).1, (expansion_bounds kind).2.
    destruct kind; cbn; split_and!; done || lia.
  - destruct (split_once §"-" base) as [[a b]|].
    + intros E. ok_inv E. subst. apply parse_raw_value_bounds in Hok, Hok0. do 2 eexists. split_and!; [done|lia|lia].
    + intros E. ok_inv E. subst. apply parse_raw_value_bounds in Hok. do 2 eexists. split_and!; [done|lia|].
      destruct hs; [destruct kind; cbn; lia|lia].
Qed.

Lemma parse_step_pos part base step : parse_step part = Ok (base, step) -> (0 < default 1%Z step)%Z.
Proof.
  unfold parse_step. destruct (split_once §"/" part) as [[b s]|]; [|by intros [= <- <-]].
  intros E. ok_inv E; simplify_eq. apply ok_or_Ok, parse_unsigned_range in Hok. bool_norm. cbn. lia.
Qed.

Lemma parse_item_spec kind values part r :
  zlen values = ((normalized_bounds kind).2 + 1)%Z ->
  parse_item kind values part = Ok r ->
  zlen r = zlen values /\
  forall v, (0 <= v)%Z -> nth_value r v = true <-> item_denotes kind part v \/ nth_value values v = true.
Proof.
  intros Hl. unfold parse_item. intros E. ok_inv E. destruct a as [base step].
  cbn [fst snd] in *. destruct (expand_base_single _ _ _ _ Hok0) as (s & e & -> & Hs & He).
  cbn [rfold] in E. apply rbind_Ok_inv in E as (r' & E & [= <-]). unfold mark_range in E. ok_inv E. bool_norm.
  pose proof (parse_step_pos _ _ _ Hok) as Hst.
  apply mark_spec in E as [Hr1 Hr2]; [|done|done|unfold u32_max; lia|lia|done]. split; [done|].
  intros v Hv. rewrite Hr2 by done. split; (intros [H|H]; [left|by right]).
  - destruct H as (k & Hk & Hke & Hkv). exists base, step, s, e, k. done.
  - destruct H as (base' & step' & s' & e' & k & Hp & Hx & Hk & Hke & Hkv).
    rewrite Hok in Hp. injection Hp as <- <-. rewrite Hok0 in Hx. injection Hx as <- <-. by exists k.
Qed.

Lemma z_range_iff lo hi v : v ∈ z_range lo hi <-> (lo <= v <= hi)%Z.
Proof.
  unfold z_range. rewrite list_elem_of_fmap. setoid_rewrite elem_of_seq. split.
  - intros (i & -> & Hi). lia.
  - intros Hv. exists (Z.to_nat (v - lo)). lia.
Qed.

(** A parsed field allows exactly the values its items denote, all within the
    bounds of the field; [any] says that it allows all of them. *)
Lemma parse_field_denotes raw kind f :
  parse_field raw kind = Ok f ->
  (forall v, (0 <= v)%Z -> field_matches f v = true <-> field_denotes kind raw v) /\
  (cf_any f = true <-> forall v, in_bounds kind v -> field_denotes kind raw v) /\
  (exists v, field_denotes kind raw v).
Proof.
  unfold parse_field. intros E. ok_inv E. subst f. cbn [cf_values cf_any]. unfold field_matches. cbn [cf_values].
  set (init := repeat false _) in Hok.
  assert (Hinit : zlen init = ((normalized_bounds kind).2 + 1)%Z).
  { unfold init, zlen. rewrite repeat_length. pose proof (normalized_bounds_pos kind). lia. }
  assert (Hfold : zlen a = zlen init /\ forall v, (0 <= v)%Z ->
            nth_value a v = true <-> exists part, part ∈ split 44 raw /\ item_denotes kind part v).
  { eapply (rfold_invariant (parse_item kind) (fun done_ vs => zlen vs = zlen init /\ forall v, (0 <= v)%Z ->
       nth_value vs v = true <-> exists part, part ∈ done_ /\ item_denotes kind part v)); [| |exact Hok].
    - split; [done|]. intros v Hv. split; [|by intros (p & Hp%elem_of_nil & _)].
      unfold nth_value, init. destruct (repeat false _ !! Z.to_nat v) as [b|] eqn:El; [|done].
      apply list_elem_of_lookup_2, list_elem_of_In, repeat_spec in El. by rewrite El.
    - intros pre x post vs vs' _ [Hl Hd] Hp. apply parse_item_spec in Hp as [Hl' Hp]; [|congruence].
      split; [congruence|]. intros v Hv. rewrite Hp, Hd by done. setoid_rewrite elem_of_app.
      setoid_rewrite list_elem_of_singleton. naive_solver. }
  destruct Hfold as [Hl Hd].
  assert (Hany : forallb (nth_value a) (z_range (normalized_bounds kind).1 (normalized_bounds kind).2) = true <->
                 forall v, in_bounds kind v -> field_denotes kind raw v).
  { rewrite forallb_iff. unfold in_bounds. pose proof (normalized_bounds_pos kind) as Hnb. split.
    - intros H v Hv. apply Hd; [lia|]. apply H. by apply z_range_iff.
    - intros H v Hv%z_range_iff. apply Hd; [lia|]. by apply H. }
  split_and!; [done|done|].
  bool_norm. apply existsb_iff in Hguard0 as (b & Hb & Ht). apply list_elem_of_lookup in Hb as [i Hi].
  exists (Z.of_nat i). apply Hd; [lia|]. unfold nth_value. rewrite Nat2Z.id, Hi. done.
Qed.

(** ** The search *)

(** A minute of the clock. *)
Definition aligned (t : Z) : Prop := (t mod minute_ns = 0)%Z.

Lemma aligned_next c u : aligned c -> aligned u -> (c < u)%Z -> (c + minute_ns <= u)%Z.
Proof.
  unfold aligned. intros Hc Hu Hlt. apply Z.div_exact in Hc, Hu; [|done..]. rewrite Hc, Hu in *.
  assert ((c / minute_ns < u / minute_ns)%Z) by (unfold minute_ns in *; nia). unfold minute_ns in *. nia.
Qed.

Lemma aligned_step c : aligned c -> aligned (c + minute_ns).
Proof. unfold aligned. intros H. rewrite <- H. rewrite <- (Z.mul_1_l minute_ns) at 1. by apply Z_mod_plus_full. Qed.

Section search_spec.
Context `{Chrono}.

(** With enough fuel the loop returns the first match at or after its
    candidate, and [None] exactly when the window holds none. *)
Lemma search_spec s deadline fuel c :
  aligned c -> (deadline - c < Z.of_nat fuel * minute_ns)%Z ->
  match search s deadline fuel c with
  | Some t => (c <= t <= deadline)%Z /\ aligned t /\ schedule_matches s t = true /\
              forall u, aligned u -> (c <= u < t)%Z -> schedule_matches s u = false
  | None => forall u, aligned u -> (c <= u <= deadline)%Z -> schedule_matches s u = false
  end.
Proof.
  revert c. induction fuel as [|f IH]; intros c Hc Hf; cbn [search].
  { intros u _ Hu. lia. }
  destruct (Z.leb_spec c deadline) as [Hle|Hgt]; [|intros u _ Hu; lia].
  destruct (schedule_matches s c) eqn:Em.
  { split; [lia|]. split; [done|]. split; [done|]. intros u _ Hu. lia. }
  specialize (IH (c + minute_ns)%Z (aligned_step _ Hc) ltac:(lia)).
  assert (Hcase : forall u, aligned u -> (c <= u)%Z -> u = c \/ (c + minute_ns <= u)%Z).
  { intros u Hu Hcu. destruct (Z.eq_dec u c) as [->|]; [by left|right]. apply aligned_next; [done|done|lia]. }
  destruct (search s deadline f (c + minute_ns)) as [t|].
  - destruct IH as ([H1 H2] & Ht & Hm & Hleast). unfold minute_ns in *. split_and!; try done; [lia|].
    intros u Hu [Hcu Hut]. destruct (Hcase u Hu Hcu) as [->|Hge]; [done|]. by apply Hleast.
  - intros u Hu [Hcu Hud]. destruct (Hcase u Hu Hcu) as [->|Hge]; [done|]. by apply IH.
Qed.
End search_spec.

(** What the code relies on from [chrono]: zeroing the seconds of a time rounds
    it down to its minute, and calendar fields are not negative. *)
Class ChronoLaws (C : Chrono) : Prop := {
  zero_second_floor : forall t, dt_zero_second t = (t - t mod minute_ns)%Z;
  fields_nonneg : forall t, (0 <= dt_minute t /\ 0 <= dt_hour t /\ 0 <= dt_day t /\ 0 <= dt_month t /\ 0 <= dt_weekday t)%Z }.

Definition deadline (after : Z) : Z := (after + SEARCH_WINDOW_DAYS * day_ns)%Z.

Section fire.
Context {C : Chrono} {L : ChronoLaws C}.

Lemma first_candidate after :
  let c := dt_zero_second (after + minute_ns) in
  aligned c /\ (after < c)%Z /\ forall u, aligned u -> (after < u)%Z -> (c <= u)%Z.
Proof.
  cbn zeta. rewrite zero_second_floor. set (a := (after + minute_ns)%Z).
  pose proof (Z.mod_pos_bound a minute_ns ltac:(done)) as Hm.
  assert (Hal : aligned (a - a mod minute_ns)).
  { unfold aligned. rewrite Zminus_mod_idemp_r, Z.sub_diag. done. }
  split_and!; [done|lia|]. intros u Hu Hlt.
  destruct (Z.le_gt_cases (a - a mod minute_ns) u) as [|Hgt]; [done|].
  pose proof (aligned_next u _ Hu Hal Hgt). lia.
Qed.

Lemma search_fuel_enough after c : (after < c)%Z -> (deadline after - c < Z.of_nat search_fuel * minute_ns)%Z.
Proof.
  intros Hc. unfold search_fuel, deadline. rewrite Z2Nat.id by done.
  unfold SEARCH_WINDOW_DAYS, day_ns, minute_ns. lia.
Qed.

(** The time found is the first matching minute strictly after [after]. *)
Lemma next_fire_after_first s after :
  match next_fire_after s after with
  | Some t => (after < t <= deadline after)%Z /\ aligned t /\ schedule_matches s t = true /\
              forall u, aligned u -> (after < u < t)%Z -> schedule_matches s u = false
  | None => forall u, aligned u -> (after < u <= deadline after)%Z -> schedule_matches s u = false
  end.
Proof.
  destruct (first_candidate after) as (Hal & Hgt & Hleast). unfold next_fire_after. fold (deadline after).
  pose proof (search_spec s (deadline after) search_fuel _ Hal (search_fuel_enough after _ Hgt)) as Hs.
  destruct (search s (deadline after) search_fuel _) as [t|].
  - destruct Hs as ([H1 H2] & Ht & Hm & Hl). split_and!; [lia|done..|].
    intros u Hu [? ?]. apply Hl; [done|]. split; [by apply Hleast|done].
  - intros u Hu [? ?]. apply Hs; [done|]. split; [by apply Hleast|done].
Qed.

(** The five words of a cron expression at a time: every field allows its
    component; the two day fields are alternatives when both are restricted. *)
Definition restricted (kind : CronFieldKind) (raw : str) : Prop :=
  exists v, in_bounds kind v /\ ~ field_denotes kind raw v.

Definition fires (p0 p1 p2 p3 p4 : str) (t : Z) : Prop :=
  field_denotes Minute p0 (dt_minute t) /\ field_denotes Hour p1 (dt_hour t) /\
  field_denotes Month p3 (dt_month t) /\
  ((restricted DayOfMonth p2 /\ restricted DayOfWeek p4 /\
      (field_denotes DayOfMonth p2 (dt_day t) \/ field_denotes DayOfWeek p4 (dt_weekday t))) \/
   (~ (restricted DayOfMonth p2 /\ restricted DayOfWeek p4) /\
      field_denotes DayOfMonth p2 (dt_day t) /\ field_denotes DayOfWeek p4 (dt_weekday t))).

Lemma cf_any_restricted raw kind f : parse_field raw kind = Ok f -> cf_any f = false <-> restricted kind raw.
Proof.
  intros Hp. destruct (parse_field_denotes _ _ _ Hp) as (Hm & Ha & _). unfold restricted. split.
  - intros Hf. assert (Hn : Exists (fun v => field_matches f v = false) (z_range (normalized_bounds kind).1 (normalized_bounds kind).2)).
    { apply dec_stable. intros Hn.
      assert (Hall : forall v, in_bounds kind v -> field_denotes kind raw v).
      { intros v Hv. apply Hm; [pose proof (normalized_bounds_pos kind); unfold in_bounds in Hv; lia|].
        destruct (field_matches f v) eqn:E; [done|]. exfalso. apply Hn, Exists_exists. exists v.
        split; [by apply z_range_iff|done]. }
      apply Ha in Hall. congruence. }
    apply Exists_exists in Hn as (v & Hv%z_range_iff & Hfv). exists v. split; [done|].
    intros Hd. apply Hm in Hd; [congruence|]. pose proof (normalized_bounds_pos kind). lia.
  - intros (v & Hv & Hn). destruct (cf_any f) eqn:E; [|done]. exfalso. by apply Hn, Ha.
Qed.

Lemma matches_fires p0 p1 p2 p3 p4 m h dom mo dow t :
  parse_field p0 Minute = Ok m -> parse_field p1 Hour = Ok h -> parse_field p2 DayOfMonth = Ok dom ->
  parse_field p3 Month = Ok mo -> parse_field p4 DayOfWeek = Ok dow ->
  schedule_matches {| minutes := m; hours := h; days_of_month := dom; months := mo; days_of_week := dow |} t = true
  <-> fires p0 p1 p2 p3 p4 t.
Proof.
  intros H0 H1 H2 H3 H4. unfold schedule_matches, fires.
  cbn [minutes hours days_of_month months days_of_week].
  pose proof (cf_any_restricted _ _ _ H2) as R2. pose proof (cf_any_restricted _ _ _ H4) as R4.
  apply parse_field_denotes in H0 as [H0 _], H1 as [H1 _], H2 as [H2 _], H3 as [H3 _], H4 as [H4 _].
  destruct (fields_nonneg t) as (N0 & N1 & N2 & N3 & N4).
  rewrite <- H0, <- H1, <- H2, <- H3, <- H4, <- R2, <- R4 by done.
  rewrite !andb_true_iff. destruct (cf_any dom), (cf_any dow); cbn [negb andb];
    rewrite ?andb_true_iff, ?orb_true_iff; intuition congruence.
Qed.

(** C39. The next fire time of a schedule is the first minute boundary
    strictly after the given time, and within the five-year window, at which
    all fields match; [None] is returned exactly when the window has none.
    The loop always finishes: its fuel covers every minute of the window. *)
Theorem next_fire_after_spec s after :
  (next_fire_after s after = None <->
    forall u, aligned u -> (after < u <= deadline after)%Z -> schedule_matches s u = false) /\
  (forall t, next_fire_after s after = Some t <->
    (after < t <= deadline after)%Z /\ aligned t /\ schedule_matches s t = true /\
    forall u, aligned u -> (after < u < t)%Z -> schedule_matches s u = false).
Proof.
  pose proof (next_fire_after_first s after) as Hs. destruct (next_fire_after s after) as [t0|].
  - destruct Hs as (Hr & Ha & Hm & Hl). split.
    + split; [done|]. intros Hn. rewrite (Hn t0) in Hm by done. done.
    + intros t. split; [by intros [= <-]|]. intros (Hr' & Ha' & Hm' & Hl'). f_equal.
      destruct (Z.lt_trichotomy t0 t) as [Hlt|[Heq|Hgt]]; [|done|].
      * rewrite (Hl' t0) in Hm by (done || lia). done.
      * rewrite (Hl t) in Hm' by (done || lia). done.
  - split; [done|]. intros t. split; [done|]. intros (Hr & Ha & Hm & _). rewrite (Hs t) in Hm; done.
Qed.

End fire.

(** ** A concrete calendar

    The proleptic Gregorian calendar, as the UTC accessors of [chrono] compute
    it, for the witnesses. *)
Module Calendar.
Definition days (t : Z) : Z := (t / day_ns)%Z.
Definition doe (z : Z) : Z := ((z + 719468) mod 146097)%Z.
Definition yoe (z : Z) : Z := ((doe z - doe z / 1460 + doe z / 36524 - doe z / 146096) / 365)%Z.
Definition doy (z : Z) : Z := (doe z - (365 * yoe z + yoe z / 4 - yoe z / 100))%Z.
Definition mp (z : Z) : Z := ((5 * doy z + 2) / 153)%Z.

#[global] Instance utc : Chrono := {
  dt_minute t := ((t / minute_ns) mod 60)%Z;
  dt_hour t := ((t / (60 * minute_ns)) mod 24)%Z;
  dt_day t := (doy (days t) - (153 * mp (days t) + 2) / 5 + 1)%Z;
  dt_month t := (if mp (days t) <? 10 then mp (days t) + 3 else mp (days t) - 9)%Z;
  dt_weekday t := ((days t + 4) mod 7)%Z;
  dt_zero_second t := (t - t mod minute_ns)%Z }.

Lemma doy_nonneg z : (0 <= doy z)%Z.
Proof.
  unfold doy, yoe. pose proof (Z.mod_pos_bound (z + 719468) 146097 ltac:(lia)) as Hd. fold (doe z) in Hd.
  revert Hd. generalize (doe z). intros d Hd. Z.div_mod_to_equations. lia.
Qed.

#[global] Instance utc_laws : ChronoLaws utc.
Proof.
  split; [done|]. intros t. cbn [dt_minute dt_hour dt_day dt_month dt_weekday utc].
  pose proof (doy_nonneg (days t)) as Hy. unfold mp. revert Hy. generalize (doy (days t)). intros y Hy.
  split_and!; try (apply Z.mod_pos_bound; lia).
  - Z.div_mod_to_equations. lia.
  - case_match; bool_norm; Z.div_mod_to_equations; lia.
Qed.
End Calendar.

(** From a Monday, 31 August 2026, 03:58:30, four o'clock the same day is the
    next fire time of [0 4 * * MON]. *)
Definition monday : Z := 1788148710 * 1000000000.

Lemma search_fuel_three : exists k, search_fuel = S (S (S k)).
Proof.
  exists (Z.to_nat (SEARCH_WINDOW_DAYS * 1440 - 2)). unfold search_fuel, SEARCH_WINDOW_DAYS.
  rewrite <- !Z2Nat.inj_succ by lia. reflexivity.
Qed.

Lemma monday_fires : next_fire_after_expr §"0 4 * * MON" monday = Ok (monday + 90 * 1000000000)%Z.
Proof.
  unfold next_fire_after_expr. set (s := parse_cron _). vm_compute in s. subst s. cbn [rbind].
  unfold next_fire_after. destruct search_fuel_three as [k ->]. vm_compute. reflexivity.
Qed.

Lemma next_fire_after_spec_witness :
  exists s, parse_cron §"0 4 * * MON" = Ok s /\
    schedule_matches s (monday + 90 * 1000000000)%Z = true /\
    schedule_matches s (monday + 30 * 1000000000)%Z = false.
Proof.
  pose proof monday_fires as H. unfold next_fire_after_expr in H.
  apply rbind_Ok_inv in H. destruct H as (s & Hs & Ht%ok_or_Ok). exists s. split; [exact Hs|].
  apply (next_fire_after_spec (C := Calendar.utc) (L := Calendar.utc_laws) s monday) in Ht.
  destruct Ht as (_ & _ & Hm & Hl). split; [exact Hm|]. apply Hl; vm_compute; [reflexivity|split; reflexivity].
Defined.

