(* ===== verification/RateLimit.v ===== *)
(** * Rate limiting

    [backend/src/rate_limit.rs], the fixed-window limiter, and the middleware
    [rate_limit_mw] of [backend/src/api/authz_mw.rs] with its table of rules.

    An [Instant] is its number of nanoseconds; the clock is an argument.  The
    lock makes every call atomic, so the state is passed from call to call. *)
From S2P Require Import Prelude.

Definition second_ns : Z := 1000000000.

(** [now.duration_since(start).as_secs()], which saturates at zero. *)
Definition elapsed_secs (now start : Z) : Z := (Z.max 0 (now - start) / second_ns)%Z.

(** The entry of a key: the start of its window and the requests counted. *)
Record Entry : Type := { en_start : Z; en_count : Z }.

Abbreviation Limiter := (gmap str Entry).

(** [allow(key, limit, window_secs)] at time [now]. *)
Definition allow (now : Z) (key : str) (limit window_secs : Z) (hits : Limiter) : bool * Limiter :=
  let entry := default {| en_start := now; en_count := 0 |} (hits !! key) in
  if (window_secs <=? elapsed_secs now (en_start entry))%Z
  then (true, <[ key := {| en_start := now; en_count := 1 |} ]> hits)
  else if (limit <=? en_count entry)%Z then (false, <[ key := entry ]> hits)
  else (true, <[ key := {| en_start := en_start entry; en_count := en_count entry + 1 |} ]> hits).

Definition keeps (now window_secs : Z) (kv : str * Entry) : Prop :=
  (elapsed_secs now (en_start kv.2) < window_secs * 4)%Z.
#[export] Instance keeps_dec now window_secs kv : Decision (keeps now window_secs kv).
Proof. unfold keeps. apply _. Defined.

Definition prune (now window_secs : Z) (hits : Limiter) : Limiter := filter (keeps now window_secs) hits.

(** ** The rules *)

Inductive Method : Type := GET | POST | PUT | PATCH | DELETE | HEAD | OPTIONS.
#[export] Instance Method_eq_dec : EqDecision Method.
Proof. solve_decision. Defined.

Record RateLimitRule : Type := { rl_class : str; rl_limit : Z; rl_window_secs : Z }.

Definition rule (class : str) (limit : Z) : RateLimitRule :=
  {| rl_class := class; rl_limit := limit; rl_window_secs := 60 |}.

Definition is_write (m : Method) : bool := match m with POST | PUT | PATCH | DELETE => true | _ => false end.
Definition is_post (m : Method) : bool := match m with POST => true | _ => false end.

Definition rate_limit_rule (m : Method) (path : str) : option RateLimitRule :=
  if str_eqb path §"/health" || str_eqb path §"/api/v1/health" || str_eqb path §"/api/v1/readiness"
     || str_eqb path §"/api/v1/openapi.json" || str_eqb path §"/metrics" then None
  else if str_eqb path §"/api/v1/auth/login" then Some (rule §"auth-login" 30)
  else if str_eqb path §"/api/v1/auth/refresh" then Some (rule §"auth-refresh" 120)
  else if str_eqb path §"/api/v1/auth/logout" then Some (rule §"auth-logout" 120)
  else if str_eqb path §"/api/v1/internal/git-push" || str_eqb path §"/api/v1/internal/task-git-check"
          || str_eqb path §"/api/v1/internal/development-workspace-git-check"
       then Some (rule §"internal-git-push" 120)
  else if starts_with §"/api/v1/runner/" path then Some (rule §"runner-protocol" 1200)
  else if starts_with §"/git/" path
       then Some (rule (if is_post m && ends_with §"/git-receive-pack" path then §"git-push" else §"git-read") 240)
  else if is_post m && starts_with §"/api/v1/jobs/" path && ends_with §"/artifacts" path
       then Some (rule §"artifact-upload" 60)
  else if starts_with §"/api/" path
       then Some (rule (if is_write m then §"api-write" else §"api-read") (if is_write m then 600 else 1200))
  else None.

(** ** The middleware *)

Record Request : Type := { rq_now : Z; rq_method : Method; rq_path : str; rq_client : str }.

Definition limit_key (r : RateLimitRule) (client : str) : str := rl_class r ++ §":" ++ client.

(** [true]: the request is passed on; [false]: [429 Too Many Requests]. *)
Definition rate_limit_mw (hits : Limiter) (rq : Request) : bool * Limiter :=
  match rate_limit_rule (rq_method rq) (rq_path rq) with
  | None => (true, hits)
  | Some r =>
    let hits := prune (rq_now rq) (rl_window_secs r) hits in
    allow (rq_now rq) (limit_key r (rq_client rq)) (rl_limit r) (rl_window_secs r) hits
  end.

Fixpoint serve (hits : Limiter) (requests : list Request) : list bool * Limiter :=
  match requests with
  | [] => ([], hits)
  | rq :: rest =>
    let '(ok, hits) := rate_limit_mw hits rq in
    let '(oks, hits) := serve hits rest in
    (ok :: oks, hits)
  end.

(** ** Facts *)

Lemma elapsed_ge now start w : (1 <= w)%Z -> (w <= elapsed_secs now start)%Z <-> (start + w * second_ns <= now)%Z.
Proof.
  intros Hw. unfold elapsed_secs, second_ns. split.
  - intros H. assert (H' : (w * 1000000000 <= Z.max 0 (now - start))%Z).
    { pose proof (Z.mul_div_le (Z.max 0 (now - start)) 1000000000 ltac:(lia)). lia. }
    lia.
  - intros H. apply Z.div_le_lower_bound; lia.
Qed.

(** The class of a rule and its limit: the limit is a function of the class. *)
Definition class_limit (class : str) : Z :=
  if str_eqb class §"auth-login" then 30
  else if str_eqb class §"auth-refresh" || str_eqb class §"auth-logout" || str_eqb class §"internal-git-push" then 120
  else if str_eqb class §"git-push" || str_eqb class §"git-read" then 240
  else if str_eqb class §"artifact-upload" then 60
  else if str_eqb class §"api-write" then 600
  else 1200.

Definition classes : list str :=
  [§"auth-login"; §"auth-refresh"; §"auth-logout"; §"internal-git-push"; §"runner-protocol"; §"git-push"; §"git-read";
   §"artifact-upload"; §"api-write"; §"api-read"].

Lemma rate_limit_rule_shape m path r :
  rate_limit_rule m path = Some r ->
  rl_window_secs r = 60%Z /\ rl_class r ∈ classes /\ rl_limit r = class_limit (rl_class r).
Proof.
  intros Hr. assert (H : existsb (fun c => str_eqb (rl_class r) c && (rl_limit r =? class_limit c)%Z) classes
                         && (rl_window_secs r =? 60)%Z = true).
  { revert Hr. unfold rate_limit_rule. destruct (is_write m), (is_post m && ends_with _ path);
      repeat (match goal with |- (if ?b then _ else _) = _ -> _ => destruct b end);
      intros E; try discriminate E; injection E as <-; vm_compute; reflexivity. }
  apply andb_true_iff in H as [H Hw]. apply existsb_iff in H as (c & Hc & H). apply andb_true_iff in H as [E Hl].
  apply str_eqb_true in E. bool_norm. subst c. done.
Qed.

Lemma class_limit_pos c : (30 <= class_limit c <= 1200)%Z.
Proof. unfold class_limit. repeat case_match; lia. Qed.

Lemma classes_no_colon c : c ∈ classes -> 58%N ∉ c.
Proof.
  intros Hc Hin. assert (H : forallb (fun c => negb (contains_char 58 c)) classes = true) by (vm_compute; reflexivity).
  rewrite forallb_iff in H. specialize (H c Hc). apply negb_true_iff in H. unfold contains_char in H.
  rewrite existsb_false_iff in H. specialize (H _ Hin). done.
Qed.

(** Different classes or clients never share a budget. *)
Lemma limit_key_inj r r' client client' :
  rl_class r ∈ classes -> rl_class r' ∈ classes -> limit_key r client = limit_key r' client' ->
  rl_class r = rl_class r' /\ client = client'.
Proof.
  intros H H'. unfold limit_key. change (§":") with [58%N]. cbn [app]. intros E.
  apply classes_no_colon in H, H'. assert (Ec : rl_class r = rl_class r').
  { apply (f_equal (split 58)) in E. rewrite !split_app in E by done. congruence. }
  split; [done|]. rewrite Ec in E. apply app_inv_head in E. congruence.
Qed.

(** The budget a key has left in a period that starts at [t0] and is shorter
    than one window. *)
Definition budget (limit t0 : Z) (e : option Entry) : Z :=
  match e with
  | None => limit
  | Some e => (Z.max 0 (limit - en_count e) + (if en_start e <? t0 then limit else 0))%Z
  end.

Lemma budget_nonneg limit t0 e : (0 <= limit)%Z -> (0 <= budget limit t0 e)%Z.
Proof. destruct e as [e|]; cbn; [case_match|]; lia. Qed.

Lemma prune_budget limit t0 now w hits key :
  (1 <= limit)%Z -> (1 <= w)%Z -> (t0 <= now < t0 + w * second_ns)%Z ->
  (budget limit t0 (prune now w hits !! key) <= budget limit t0 (hits !! key))%Z.
Proof.
  intros Hl Hw Hn. unfold prune. rewrite map_lookup_filter. destruct (hits !! key) as [e|]; [|done]. cbn [mbind option_bind].
  case_guard as Hk; [done|]. cbn [mbind option_bind mfail option_mfail budget]. unfold keeps in Hk. cbn [snd] in Hk.
  assert (Hs : (en_start e + (w * 4) * second_ns <= now)%Z) by (apply elapsed_ge; lia).
  unfold second_ns in *. rewrite (proj2 (Z.ltb_lt (en_start e) t0)) by lia. lia.
Qed.

Lemma allow_budget limit w t0 now hits key ok hits' :
  (1 <= limit)%Z -> (1 <= w)%Z -> (t0 <= now < t0 + w * second_ns)%Z ->
  allow now key limit w hits = (ok, hits') ->
  (budget limit t0 (hits' !! key) + (if ok then 1 else 0) <= budget limit t0 (hits !! key))%Z.
Proof.
  intros Hl Hw Hn. unfold allow. destruct (hits !! key) as [e|] eqn:E; cbn [default from_option id].
  - destruct (Z.leb_spec w (elapsed_secs now (en_start e))) as [Hx|Hx].
    + apply elapsed_ge in Hx; [|done]. intros [<- <-]%pair_equal_spec. rewrite lookup_insert_eq. cbn [budget en_count en_start].
      unfold second_ns in *. rewrite (proj2 (Z.ltb_ge now t0)), (proj2 (Z.ltb_lt (en_start e) t0)) by lia. lia.
    + destruct (Z.leb_spec limit (en_count e)); intros [<- <-]%pair_equal_spec; rewrite lookup_insert_eq; cbn [budget en_count en_start];
        case_match; lia.
  - cbn [id en_start en_count]. assert (H0 : elapsed_secs now now = 0%Z) by (unfold elapsed_secs; by rewrite Z.sub_diag). rewrite H0.
    rewrite (proj2 (Z.leb_gt w 0)), (proj2 (Z.leb_gt limit 0)) by lia. intros [<- <-]%pair_equal_spec. rewrite lookup_insert_eq.
    cbn [budget en_count en_start]. rewrite (proj2 (Z.ltb_ge now t0)) by lia. lia.
Qed.

Lemma allow_other now key key' limit w hits : key <> key' -> (allow now key limit w hits).2 !! key' = hits !! key'.
Proof. intros H. unfold allow. repeat case_match; cbn [snd]; by rewrite lookup_insert_ne. Qed.

(** ** Properties *)

(** The key a request is counted under. *)
Definition counted (key : str) (rq : Request) : bool :=
  match rate_limit_rule (rq_method rq) (rq_path rq) with
  | Some r => str_eqb (limit_key r (rq_client rq)) key
  | None => false
  end.

Definition admitted (key : str) (requests : list Request) (oks : list bool) : Z :=
  zlen (filter (fun p => counted key p.1 && p.2 = true) (zip requests oks)).

Lemma admitted_cons key rq rest ok oks :
  admitted key (rq :: rest) (ok :: oks) = ((if counted key rq && ok then 1 else 0) + admitted key rest oks)%Z.
Proof.
  unfold admitted, zlen. cbn [zip zip_with]. rewrite filter_cons. cbn [fst snd].
  destruct (decide (counted key rq && ok = true)) as [->|Hn]; cbn [length]; [lia|].
  apply not_true_is_false in Hn. rewrite Hn. lia.
Qed.

(** One request changes the budget of a key by what it admits. *)
Lemma mw_budget class client t0 hits rq ok hits' :
  class ∈ classes -> (t0 <= rq_now rq < t0 + 60 * second_ns)%Z ->
  rate_limit_mw hits rq = (ok, hits') ->
  let key := class ++ §":" ++ client in
  (budget (class_limit class) t0 (hits' !! key) + (if counted key rq && ok then 1 else 0)
     <= budget (class_limit class) t0 (hits !! key))%Z.
Proof.
  intros Hc Ht. cbn zeta. set (key := class ++ §":" ++ client). unfold rate_limit_mw, counted. pose proof (class_limit_pos class) as Hl.
  destruct (rate_limit_rule (rq_method rq) (rq_path rq)) as [r|] eqn:Er.
  2:{ intros [= <- <-]. cbn [andb]. lia. }
  apply rate_limit_rule_shape in Er as (Hw & Hrc & Hlim). rewrite Hw. intros E.
  pose proof (prune_budget (class_limit class) t0 (rq_now rq) 60 hits key ltac:(lia) ltac:(lia) Ht) as Hp.
  destruct (str_eqb (limit_key r (rq_client rq)) key) eqn:Ek.
  - apply str_eqb_true in Ek. rewrite Ek in E.
    assert (Ecl : rl_class r = class).
    { set (r0 := {| rl_class := class; rl_limit := 0; rl_window_secs := 0 |}).
      by apply (limit_key_inj r r0 (rq_client rq) client). }
    rewrite Hlim, Ecl in E. apply (allow_budget _ _ t0) in E; [|lia|lia|done]. cbn [andb]. lia.
  - apply (f_equal snd) in E. cbn [snd] in E. subst hits'. cbn [andb].
    rewrite allow_other by (intros Eq; rewrite Eq, str_eqb_refl in Ek; done). lia.
Qed.

(** C40. From any state of the limiter and in any interleaving with other clients and
    classes, fewer than a window's length of requests of one class from one
    client passes at most twice the limit of the class - and at most the limit
    itself when the client starts without an open window. *)
Theorem flood_bounded class client t0 hits requests :
  class ∈ classes ->
  (forall rq, rq ∈ requests -> (t0 <= rq_now rq < t0 + 60 * second_ns)%Z) ->
  (forall e, hits !! (class ++ §":" ++ client) = Some e -> (0 <= en_count e)%Z) ->
  let n := admitted (class ++ §":" ++ client) requests (serve hits requests).1 in
  (n <= 2 * class_limit class)%Z /\
  (hits !! (class ++ §":" ++ client) = None -> (n <= class_limit class)%Z).
Proof.
  intros Hc Ht Hwf. cbn zeta. set (key := class ++ §":" ++ client) in *. pose proof (class_limit_pos class) as Hl.
  enough (Hb : forall hits, (admitted key requests (serve hits requests).1 <= budget (class_limit class) t0 (hits !! key))%Z).
  { specialize (Hb hits). split.
    - destruct (hits !! key) as [e|]; cbn [budget] in Hb; [specialize (Hwf e eq_refl); destruct (en_start e <? t0)%Z; lia|lia].
    - intros Hn. rewrite Hn in Hb. exact Hb. }
  clear hits Hwf. induction requests as [|rq rest IH]; intros hits; cbn [serve].
  { cbn [fst]. unfold admitted. cbn. pose proof (budget_nonneg (class_limit class) t0 (hits !! key)). unfold zlen. cbn. lia. }
  destruct (rate_limit_mw hits rq) as [ok hits1] eqn:E.
  apply (mw_budget class client t0) in E; [|done|apply Ht; left]. cbn zeta in E. fold key in E.
  specialize (IH ltac:(intros x Hx; apply Ht; by right) hits1).
  destruct (serve hits1 rest) as [oks hits2]. cbn [fst] in *. rewrite admitted_cons. lia.
Qed.

Definition login (i : nat) : Request :=
  {| rq_now := Z.of_nat i; rq_method := POST; rq_path := §"/api/v1/auth/login"; rq_client := §"10.0.0.1" |}.

Lemma flood_bounded_witness :
  admitted (§"auth-login" ++ §":" ++ §"10.0.0.1") (map login (seq 0 40)) (serve ∅ (map login (seq 0 40))).1 = 30%Z /\
  (admitted (§"auth-login" ++ §":" ++ §"10.0.0.1") (map login (seq 0 40)) (serve ∅ (map login (seq 0 40))).1
     <= class_limit §"auth-login")%Z.
Proof.
  split; [vm_compute; reflexivity|].
  assert (Ht : forall rq, rq ∈ map login (seq 0 40) -> (0 <= rq_now rq < 0 + 60 * second_ns)%Z).
  { intros rq Hin. apply list_elem_of_fmap in Hin as (i & -> & Hi). apply elem_of_seq in Hi.
    cbn [rq_now login]. unfold second_ns. lia. }
  assert (Hc : §"auth-login" ∈ classes) by (left).
  assert (Hn : (∅ : Limiter) !! (§"auth-login" ++ §":" ++ §"10.0.0.1") = None) by (exact (lookup_empty _)).
  assert (He : forall e, (∅ : Limiter) !! (§"auth-login" ++ §":" ++ §"10.0.0.1") = Some e -> (0 <= en_count e)%Z).
  { intros e He. rewrite lookup_empty in He. discriminate He. }
  exact (proj2 (flood_bounded §"auth-login" §"10.0.0.1" 0 ∅ (map login (seq 0 40)) Hc Ht He) Hn).
Defined.
