(* ===== verification/Variables.v ===== *)
(** * Pipeline variables

    [backend/domain/src/pipeline_variables.rs]: the one environment contract of
    a pipeline, and the check every runner makes of it.

    A [serde_json::Value] is known by the three questions the code asks: is it
    null, a string, an object; the text of any other value is a parameter. *)
From S2P Require Import Prelude.

Inductive Value : Type :=
| VNull
| VString (s : str)
| VObject (entries : list (str * Value))
| VOther (id : N).     (** booleans, numbers, arrays *)

(** [value.to_string()] of a value that is not a string. *)
Class Json : Type := { json_to_string : Value -> str }.

Definition as_object (v : Value) : option (list (str * Value)) := match v with VObject es => Some es | _ => None end.
Definition as_str (v : Value) : option str := match v with VString s => Some s | _ => None end.
Definition is_null (v : Value) : bool := match v with VNull => true | _ => false end.

Definition PREFIX : str := §"CICD_VAR_".

(** [key.to_ascii_uppercase().replace('-', "_")] after the prefix. *)
Definition var_name (key : str) : str :=
  PREFIX ++ map (fun c => if (c =? 45)%N then 95%N else c) (to_ascii_uppercase key).

Definition valid_key (key : str) : bool :=
  negb (is_empty key) && forallb (fun c => is_ascii_alphanumeric c || (c =? 95)%N || (c =? 45)%N) (bytes key).

Definition valid_name_key (key : str) : bool :=
  negb (is_empty key) && forallb (fun c => is_ascii_uppercase c || is_ascii_digit c || (c =? 95)%N) (bytes key).

Definition validate_entry (secrets : list str) (_ : unit) (entry : str * str) : result unit str :=
  match strip_prefix PREFIX entry.1 with
  | None => Err §"Pipeline environment cannot replace runner identity"
  | Some key =>
    if negb (valid_name_key key) then Err §"Pipeline environment name is invalid"
    else if contains_char 0 entry.2 then Err §"Pipeline variable contains an invalid environment value"
    else if bool_decide (entry.1 ∈ secrets) then Err §"Pipeline environment conflicts with a declared secret"
    else Ok tt
  end.

Definition validate (environment : gmap str str) (secrets : list str) : result unit str :=
  rfold (validate_entry secrets) tt (bindings environment).

Section variables.
Context `{Json}.

Definition text (value : Value) : str := default (json_to_string value) (as_str value).

Definition insert_variable (acc : gmap str str) (entry : str * Value) : result (gmap str str) str :=
  if negb (valid_key entry.1) then Err §"Pipeline variable name is invalid"
  else
    let name := var_name entry.1 in
    match acc !! name with
    | Some _ => Err §"Pipeline variable names collide after normalization"
    | None => Ok (<[ name := text entry.2 ]> acc)
    end.

Definition from_variables (variables : option Value) (secrets : list str) : result (gmap str str) str :=
  match variables with
  | None => Ok ∅
  | Some value =>
    if is_null value then Ok ∅
    else
      let? entries := ok_or (as_object value) §"Pipeline variables must be an object" in
      let? env := rfold insert_variable ∅ entries in
      let? _ := validate env secrets in
      Ok env
  end.
End variables.

(** ** Facts *)

Lemma valid_key_iff key :
  valid_key key = true <-> key <> [] /\ forall c, c ∈ key -> is_ascii_alphanumeric c || (c =? 95)%N || (c =? 45)%N = true.
Proof.
  unfold valid_key. rewrite andb_true_iff, negb_true_iff, is_empty_false, forallb_bytes, forallb_iff; [done|].
  intros c. unfold is_ascii_alphanumeric, is_ascii_alphabetic, is_ascii_lowercase, is_ascii_uppercase, is_ascii_digit.
  rewrite !orb_true_iff, !between_iff, !N.eqb_eq. lia.
Qed.

Lemma valid_name_key_iff key :
  valid_name_key key = true <-> key <> [] /\ forall c, c ∈ key -> is_ascii_uppercase c || is_ascii_digit c || (c =? 95)%N = true.
Proof.
  unfold valid_name_key. rewrite andb_true_iff, negb_true_iff, is_empty_false, forallb_bytes, forallb_iff; [done|].
  intros c. unfold is_ascii_uppercase, is_ascii_digit. rewrite !orb_true_iff, !between_iff, !N.eqb_eq. lia.
Qed.

(** A normalised name of a valid key is a valid environment name. *)
Lemma var_name_valid key : valid_key key = true -> exists k, strip_prefix PREFIX (var_name key) = Some k /\ valid_name_key k = true.
Proof.
  intros [Hne Hc]%valid_key_iff. eexists. split; [by apply strip_prefix_Some|]. apply valid_name_key_iff. split.
  - destruct key; [done|]. cbn. done.
  - intros c Hin. apply list_elem_of_fmap in Hin as (c1 & -> & Hin). unfold to_ascii_uppercase in Hin.
    apply list_elem_of_fmap in Hin as (c0 & -> & Hin). specialize (Hc _ Hin). revert Hc.
    unfold is_ascii_alphanumeric, is_ascii_alphabetic, is_ascii_uppercase, is_ascii_digit.
    destruct (is_ascii_lowercase c0) eqn:El; unfold is_ascii_lowercase in El.
    + intros _. apply between_iff in El. rewrite (proj2 (N.eqb_neq (c0 - 32) 45)) by lia.
      rewrite !orb_true_iff, !between_iff. lia.
    + rewrite !orb_true_iff. intros Hc. destruct (N.eqb_spec c0 45) as [->|Hn]; [by right|].
      rewrite !between_iff, !N.eqb_eq in *. destruct Hc as [[[[?|?]|?]|?]|?]; try lia; congruence.
Qed.

Lemma validate_iff env secrets :
  validate env secrets = Ok tt <-> forall name value, env !! name = Some value -> validate_entry secrets tt (name, value) = Ok tt.
Proof.
  unfold validate. rewrite rfold_check. split.
  - intros Hv name value Hn. apply Hv. by apply elem_of_bindings.
  - intros Hv [name value] Hin%elem_of_bindings. by apply Hv.
Qed.

(** The accepted entries and the environment they make. *)
Section spec.
Context `{Json}.

Definition good_entry (secrets : list str) (entry : str * Value) : Prop :=
  valid_key entry.1 = true /\ contains_char 0 (text entry.2) = false /\ var_name entry.1 ∉ secrets.

Definition environment (entries : list (str * Value)) : gmap str str :=
  list_to_map (map (fun e => (var_name e.1, text e.2)) entries).

Lemma validate_entry_var secrets key value :
  valid_key key = true ->
  validate_entry secrets tt (var_name key, value) = Ok tt <-> contains_char 0 value = false /\ var_name key ∉ secrets.
Proof.
  intros Hk. destruct (var_name_valid key Hk) as (k & Hs & Hv). unfold validate_entry. cbn [fst snd].
  rewrite Hs, Hv. cbn [negb]. destruct (contains_char 0 value); [by split; [|intros []]|].
  destruct (bool_decide_reflect (var_name key ∈ secrets)); [split; [done|by intros []]|done].
Qed.

(** The loop inserts each variable once. *)
Lemma insert_variables_spec entries acc out :
  rfold insert_variable acc entries = Ok out <->
  (forall e, e ∈ entries -> valid_key e.1 = true /\ acc !! var_name e.1 = None) /\
  NoDup (map (fun e => var_name e.1) entries) /\ out = environment entries ∪ acc.
Proof.
  revert acc. induction entries as [|e entries IH]; intros acc; cbn [rfold map].
  - unfold environment. cbn. rewrite (left_id_L ∅ (∪)). split.
    + intros [= <-]. split_and!; [by intros e ?%elem_of_nil|apply NoDup_nil_2|done].
    + by intros (_ & _ & ->).
  - unfold insert_variable at 1. destruct (valid_key e.1) eqn:Ev; cbn [negb rbind].
    2:{ split; [done|]. intros (Ha & _). destruct (Ha e ltac:(left)). congruence. }
    destruct (acc !! var_name e.1) eqn:Ea; cbn [rbind].
    { split; [done|]. intros (Ha & _). destruct (Ha e ltac:(left)). congruence. }
    rewrite IH, NoDup_cons. setoid_rewrite elem_of_cons.
    assert (Hun : environment (e :: entries) ∪ acc = <[var_name e.1 := text e.2]> (environment entries ∪ acc)).
    { unfold environment. cbn [map list_to_map]. cbn. by rewrite insert_union_l. }
    rewrite Hun. split.
    + intros (Hv & Hd & ->). assert (Hn : var_name e.1 ∉ map (fun e => var_name e.1) entries).
      { intros Hin. apply list_elem_of_fmap in Hin as (e' & E & He'). destruct (Hv e' He') as [_ Hl].
        rewrite <- E, lookup_insert_eq in Hl. done. }
      split_and!; [|done|done|].
      * intros e' [->|He']; [done|]. destruct (Hv e' He') as [? Hl]. split; [done|].
        destruct (decide (var_name e'.1 = var_name e.1)) as [E|Hne]; [by rewrite E|by rewrite lookup_insert_ne in Hl].
      * rewrite <- insert_union_r; [done|]. unfold environment. apply not_elem_of_list_to_map_1.
        rewrite <- list_fmap_compose. exact Hn.
    + intros (Hv & [Hn Hd] & ->). split_and!; [|done|].
      * intros e' He'. destruct (Hv e' (or_intror He')) as [? Hl]. split; [done|].
        rewrite lookup_insert_ne; [done|]. intros E. apply Hn. rewrite E. by apply (list_elem_of_fmap_2 (fun e => var_name e.1)).
      * rewrite <- insert_union_r; [done|]. unfold environment. apply not_elem_of_list_to_map_1.
        rewrite <- list_fmap_compose. exact Hn.
Qed.

(** An object of variables is accepted exactly when every name is valid, no value
    holds a NUL, no normalised name is a declared secret and no two names
    collide; the environment then holds one entry per variable, under a name
    that starts with [CICD_VAR_], and passes the check runners make again. *)
Theorem from_variables_spec entries secrets env :
  (from_variables (Some (VObject entries)) secrets = Ok env <->
     (forall e, e ∈ entries -> good_entry secrets e) /\ NoDup (map (fun e => var_name e.1) entries) /\
     env = environment entries) /\
  (from_variables (Some (VObject entries)) secrets = Ok env ->
     validate env secrets = Ok tt /\ size env = length entries /\
     forall name, is_Some (env !! name) -> starts_with PREFIX name = true).
Proof.
  unfold from_variables. cbn [is_null as_object ok_or rbind].
  assert (Hlook : forall e, e ∈ entries -> NoDup (map (fun e => var_name e.1) entries) ->
            environment entries !! var_name e.1 = Some (text e.2)).
  { intros e He Hd. apply elem_of_list_to_map_1.
    - rewrite <- list_fmap_compose. exact Hd.
    - apply list_elem_of_fmap. by exists e. }
  assert (Hinv : forall name value, environment entries !! name = Some value -> exists e, e ∈ entries /\ name = var_name e.1 /\ value = text e.2).
  { intros name value Hn%elem_of_list_to_map_2. apply list_elem_of_fmap in Hn as (e & [= -> ->] & He). by exists e. }
  assert (Hsize : NoDup (map (fun e => var_name e.1) entries) -> size (environment entries) = length entries).
  { intros Hd. unfold environment. rewrite <- length_map_to_list, map_to_list_to_map; [by rewrite length_map|].
    rewrite <- list_fmap_compose. exact Hd. }
  assert (Hinsert : forall env0, rfold insert_variable ∅ entries = Ok env0 <->
            (forall e, e ∈ entries -> valid_key e.1 = true) /\ NoDup (map (fun e => var_name e.1) entries) /\ env0 = environment entries).
  { intros env0. rewrite insert_variables_spec, (right_id_L ∅ (∪)). split; intros (Hk & ? & ?); split_and!; try done.
    - intros e He. by apply Hk.
    - intros e He. split; [by apply Hk|apply lookup_empty]. }
  assert (Hval : (forall e, e ∈ entries -> valid_key e.1 = true) -> NoDup (map (fun e => var_name e.1) entries) ->
            validate (environment entries) secrets = Ok tt <-> forall e, e ∈ entries -> good_entry secrets e).
  { intros Hk Hd. rewrite validate_iff. split.
    - intros Hv e He. specialize (Hv _ _ (Hlook e He Hd)). apply validate_entry_var in Hv as [? ?]; [split; [by apply Hk|done]|by apply Hk].
    - intros Hg name value (e & He & -> & ->)%Hinv. apply validate_entry_var; [by apply Hk|]. apply (Hg e He). }
  assert (Hiff : (let? env0 := rfold insert_variable ∅ entries in let? _ := validate env0 secrets in Ok env0) = Ok env <->
     (forall e, e ∈ entries -> good_entry secrets e) /\ NoDup (map (fun e => var_name e.1) entries) /\ env = environment entries).
  { split.
    - intros (env0 & (Hk & Hd & ->)%Hinsert & Hr)%rbind_Ok_inv. apply rbind_Ok_inv in Hr as ([] & Hv & [= <-]).
      pose proof (proj1 (Hval Hk Hd) Hv) as Hg. split_and!; [exact Hg|exact Hd|reflexivity].
    - intros (Hg & Hd & ->). assert (Hk : forall e, e ∈ entries -> valid_key e.1 = true) by (intros e He; apply (Hg e He)).
      rewrite (proj2 (Hinsert (environment entries))) by done. cbn [rbind]. by rewrite (proj2 (Hval Hk Hd) Hg). }
  split; [exact Hiff|]. intros (Hg & Hd & ->)%Hiff. split_and!; [|by apply Hsize|].
  - apply Hval; [|done|done]. intros e He. apply (Hg e He).
  - intros name [value (e & _ & -> & _)%Hinv]. apply starts_with_iff. eexists. reflexivity.
Qed.
End spec.

(** The sample of the unit tests: a mixed key, a number and a flag. *)
Definition sample_json : Json := {| json_to_string := fun v => match v with VOther 1 => §"42" | _ => §"true" end |}.
Definition sample_entries : list (str * Value) :=
  [(§"mixed-key", VString §"$HOME; echo no"); (§"number", VOther 1); (§"flag", VOther 2)].

Lemma from_variables_spec_witness : exists env,
  @from_variables sample_json (Some (VObject sample_entries)) [] = Ok env /\ size env = 3 /\
  env !! §"CICD_VAR_MIXED_KEY" = Some §"$HOME; echo no".
Proof.
  assert (E : is_ok (@from_variables sample_json (Some (VObject sample_entries)) []) = true) by (vm_compute; reflexivity).
  apply is_ok_true in E as [env E]. exists env. split; [exact E|].
  destruct (proj2 (@from_variables_spec sample_json sample_entries [] env) E) as (_ & Hs & _). split; [exact Hs|].
  destruct (proj1 (proj1 (@from_variables_spec sample_json sample_entries [] env)) E) as (_ & _ & ->). vm_compute. reflexivity.
Defined.
