(* ===== verification/RepositorySync.v ===== *)
(** * Synchronising with external Git repositories

    [backend/domain/src/repository_sync.rs]: the settings of a connection and
    their validation, the schedule, and the plan for one reference;
    [backend/domain/src/repository_url.rs]: clone URLs of projects. *)
From S2P Require Import Prelude Url.

(** ** Settings *)

Inductive Provider : Type := Gitlab | Github.
Inductive Direction : Type := Disabled | Pull | Push | Both.
Inductive ProtectedBranchUpdates : Type := Blocked | SourceFastForward.

#[export] Instance Provider_eq_dec : EqDecision Provider.
Proof. solve_decision. Defined.
#[export] Instance Direction_eq_dec : EqDecision Direction.
Proof. solve_decision. Defined.
#[export] Instance ProtectedBranchUpdates_eq_dec : EqDecision ProtectedBranchUpdates.
Proof. solve_decision. Defined.

Record Settings : Type := {
  ss_provider : Provider;
  ss_instance_url : str;
  ss_repository_path : str;
  ss_direction : Direction;
  ss_automatic : bool;
  ss_branch : option str;
  ss_protected_branch_updates : ProtectedBranchUpdates }.

Definition permits_protected_pull (s : Settings) : bool :=
  bool_decide (ss_direction s = Pull) && bool_decide (ss_protected_branch_updates s = SourceFastForward).

Definition with_instance_url (s : Settings) (u : str) : Settings :=
  {| ss_provider := ss_provider s; ss_instance_url := u; ss_repository_path := ss_repository_path s;
     ss_direction := ss_direction s; ss_automatic := ss_automatic s; ss_branch := ss_branch s;
     ss_protected_branch_updates := ss_protected_branch_updates s |}.

Definition with_repository_path (s : Settings) (p : str) : Settings :=
  {| ss_provider := ss_provider s; ss_instance_url := ss_instance_url s; ss_repository_path := p;
     ss_direction := ss_direction s; ss_automatic := ss_automatic s; ss_branch := ss_branch s;
     ss_protected_branch_updates := ss_protected_branch_updates s |}.

(** The rules of [git check-ref-format --branch] the code applies. *)
Definition bad_branch (branch : str) : bool :=
  is_empty branch
  || starts_with §"-" branch
  || str_eqb branch §"@"
  || contains §".." branch
  || contains §"@{" branch
  || ends_with §"." branch
  || existsb (fun b => (b <=? 32)%N || (b =? 127)%N || char_in §"~^:?*[\" b) (bytes branch)
  || existsb (fun part => is_empty part || starts_with §"." part || ends_with §".lock" part) (split 47 branch).

Definition bad_part (part : str) : bool :=
  is_empty part || str_eqb part §"." || str_eqb part §".." || starts_with §"-" part
  || negb (forallb (fun b => is_ascii_alphanumeric b || char_in §"-_." b) (bytes part)).

Definition trim_slashes : str -> str := trim_end_matches (N.eqb 47).

Section settings.
Context `{UrlCrate}.

(** [Settings::validate(&mut self, ..)]: the settings as the call leaves them,
    and its result. *)
Definition Settings_validate (s : Settings) (allowed_gitlab_origins : list str) : Settings * result unit str :=
  if bool_decide (ss_protected_branch_updates s = SourceFastForward) && negb (bool_decide (ss_direction s = Pull))
  then (s, Err §"Обновление защищённых веток разрешено только из источника в Forge")
  else if match ss_branch s with Some branch => bad_branch branch | None => false end
  then (s, Err §"Некорректное имя ветки синхронизации")
  else if existsb (fun byte => (byte =? 92)%N || is_ascii_control byte) (bytes (ss_instance_url s))
  then (s, Err §"Адрес провайдера содержит неоднозначные символы")
  else
    let s := with_instance_url s (trim_slashes (trim (ss_instance_url s))) in
    if contains_char 92 (ss_instance_url s) || existsb is_whitespace (ss_instance_url s) || existsb is_control (ss_instance_url s)
    then (s, Err §"Некорректный HTTPS-адрес провайдера")
    else
      let s := with_repository_path s (trim_end_str §".git" (trim (ss_repository_path s))) in
      match url_parse (ss_instance_url s) with
      | None => (s, Err §"Некорректный адрес провайдера")
      | Some url =>
        if negb (str_eqb (url_scheme url) §"https") || negb (is_empty (url_username url)) || is_some (url_password url)
           || is_some (url_query url) || is_some (url_fragment url) || is_none (url_host_str url)
        then (s, Err §"Нужен HTTPS-адрес без credentials, query и fragment")
        else if match ss_provider s with
                | Github => negb (str_eqb (ss_instance_url s) §"https://github.com")
                | Gitlab => false
                end
        then (s, Err §"Поддерживается только GitHub.com")
        else if match ss_provider s with
                | Gitlab => negb (bool_decide (url_origin url ∈ allowed_gitlab_origins))
                | Github => false
                end
        then (s, Err §"Инстанс GitLab не разрешён оператором")
        else
          let s := with_instance_url s (trim_slashes (url_as_str url)) in
          let parts := split 47 (ss_repository_path s) in
          if (zlen parts <? 2)%Z
             || (bool_decide (ss_provider s = Github) && negb (zlen parts =? 2)%Z)
             || existsb bad_part parts
          then (s, Err §"Некорректный путь репозитория")
          else (s, Ok tt)
      end.

Definition Settings_url (s : Settings) : str := ss_instance_url s ++ §"/" ++ ss_repository_path s ++ §".git".
End settings.

Definition same_endpoint (a b : Settings) : bool :=
  bool_decide (ss_provider a = ss_provider b) && str_eqb (ss_instance_url a) (ss_instance_url b).

Record SyncSchedule : Type := { sc_interval_seconds : Z; sc_on_change : bool }.

Definition Schedule_validate (s : SyncSchedule) : result unit str :=
  if negb (in_range 1 86400 (sc_interval_seconds s))
  then Err §"Период синхронизации должен быть от 1 до 86400 секунд"
  else Ok tt.

(** ** The plan for one reference *)

Inductive RefPlan : Type := PlanNoChange | PlanPull | PlanPush | PlanConflict | PlanProtected.
#[export] Instance RefPlan_eq_dec : EqDecision RefPlan.
Proof. solve_decision. Defined.

Definition plan_ref (direction : Direction) (tag protected : bool) (local remote : option str)
  (local_ancestor remote_ancestor : bool) : RefPlan :=
  if bool_decide (direction = Disabled) || bool_decide (local = remote) then PlanNoChange
  else
    let candidate :=
      match direction, local, remote with
      | (Pull | Both), None, Some _ => PlanPull
      | (Push | Both), Some _, None => PlanPush
      | Pull, Some _, None | Push, None, Some _ => PlanNoChange
      | _, Some _, Some _ =>
        if negb tag then
          match direction with
          | Pull => if local_ancestor then PlanPull else PlanConflict
          | Push => if remote_ancestor then PlanPush else PlanConflict
          | Both => if local_ancestor then PlanPull else if remote_ancestor then PlanPush else PlanConflict
          | Disabled => PlanConflict
          end
        else PlanConflict
      | _, _, _ => PlanConflict
      end in
    if bool_decide (candidate = PlanPull) && protected then PlanProtected else candidate.

(** ** What a plan does to the two repositories

    The commits of the two repositories under a reference, and Git's ancestry. *)
Section plan.
Context (ancestor : str -> str -> bool).

Definition is_ancestor (a b : option str) : bool :=
  match a, b with Some a, Some b => ancestor a b | _, _ => false end.

(** The plan the adapter computes, with ancestry from the snapshot. *)
Definition planned (direction : Direction) (tag protected : bool) (refs : option str * option str) : RefPlan :=
  plan_ref direction tag protected refs.1 refs.2 (is_ancestor refs.1 refs.2) (is_ancestor refs.2 refs.1).

(** Pulling sets the local reference to the remote commit, pushing the remote
    one to the local commit; nothing else changes a reference. *)
Definition apply (p : RefPlan) (refs : option str * option str) : option str * option str :=
  match p with
  | PlanPull => (refs.2, refs.2)
  | PlanPush => (refs.1, refs.1)
  | _ => refs
  end.

(** A reference may be created, or moved to a descendant unless it is a tag. *)
Definition advances (tag : bool) (old new : option str) : Prop :=
  old = new \/ old = None \/ (tag = false /\ exists a b, old = Some a /\ new = Some b /\ ancestor a b = true).

Lemma plan_equal direction tag protected r : planned direction tag protected (r, r) = PlanNoChange.
Proof. unfold planned, plan_ref. cbn [fst snd]. by rewrite (bool_decide_true (r = r)), orb_true_r by done. Qed.

(** When a plan pulls, and when it pushes. *)
Lemma planned_pull direction tag protected local remote :
  planned direction tag protected (local, remote) = PlanPull ->
  protected = false /\ (direction = Pull \/ direction = Both) /\ advances tag local remote /\ is_Some remote.
Proof.
  unfold planned, plan_ref, advances. cbn [fst snd]. destruct (_ || _); [done|].
  destruct local as [a|], remote as [b|]; cbn [is_ancestor];
    [destruct (ancestor a b) eqn:E1, (ancestor b a) eqn:E2| | |];
    destruct direction, tag, protected; intros H; vm_compute in H; try discriminate H; clear H; split_and!;
    first [reflexivity | by left | by right | by right; left | by eexists | right; right; split; [reflexivity|]; by do 2 eexists].
Qed.

Lemma planned_push direction tag protected local remote :
  planned direction tag protected (local, remote) = PlanPush ->
  (direction = Push \/ direction = Both) /\ advances tag remote local /\ is_Some local.
Proof.
  unfold planned, plan_ref, advances. cbn [fst snd]. destruct (_ || _); [done|].
  destruct local as [a|], remote as [b|]; cbn [is_ancestor];
    [destruct (ancestor a b) eqn:E1, (ancestor b a) eqn:E2| | |];
    destruct direction, tag, protected; intros H; vm_compute in H; try discriminate H; clear H; split_and!;
    first [reflexivity | by left | by right | by right; left | by eexists | right; right; split; [reflexivity|]; by do 2 eexists].
Qed.

(** With both directions, doing nothing means the sides agree. *)
Lemma planned_both_nochange tag protected local remote :
  planned Both tag protected (local, remote) = PlanNoChange -> local = remote.
Proof.
  unfold planned, plan_ref. cbn [fst snd]. rewrite (bool_decide_false (Both = Disabled)) by done. cbn [orb].
  destruct (bool_decide_reflect (local = remote)) as [|_]; [done|].
  destruct local as [a|], remote as [b|]; cbn [is_ancestor];
    [destruct (ancestor a b), (ancestor b a)| | |];
    destruct tag, protected; intros H; vm_compute in H; try discriminate H; done.
Qed.

(** Synchronising a reference never loses history: each repository keeps its
    commit, gains a reference it lacked, or moves to a descendant; tags never
    move, a protected reference is never pulled, each direction writes only
    its own side, one round settles - the next plan changes nothing - and
    two-way synchronisation without a conflict makes both sides agree. *)
Theorem sync_preserves_history direction tag protected local remote :
  let p := planned direction tag protected (local, remote) in
  let refs := apply p (local, remote) in
  advances tag local refs.1 /\ advances tag remote refs.2 /\
  (protected = true -> refs.1 = local) /\
  (direction <> Pull -> direction <> Both -> refs.1 = local) /\
  (direction <> Push -> direction <> Both -> refs.2 = remote) /\
  apply (planned direction tag protected refs) refs = refs /\
  (direction = Both -> p <> PlanConflict -> p <> PlanProtected -> refs.1 = refs.2).
Proof.
  cbv zeta. destruct (planned direction tag protected (local, remote)) eqn:Ep; cbn [apply fst snd].
  - rewrite Ep. cbn [apply]. split_and!; try done; try by left.
    intros -> _ _. by eapply planned_both_nochange.
  - apply planned_pull in Ep as (-> & Hd & Ha & _). rewrite plan_equal. cbn [apply].
    split_and!; try done; [by left|by intros; destruct Hd].
  - apply planned_push in Ep as (Hd & Ha & _). rewrite plan_equal. cbn [apply].
    split_and!; try done; [by left|by intros; destruct Hd].
  - rewrite Ep. cbn [apply]. split_and!; try done; by left.
  - rewrite Ep. cbn [apply]. split_and!; try done; by left.
Qed.
End plan.

(** ** Validated settings *)

Lemma strip_prefixes_none fuel p s : p <> [] -> length s <= fuel -> strip_prefix p (strip_prefixes fuel p s) = None.
Proof.
  intros Hp. revert s. induction fuel as [|f IH]; intros s Hl; cbn [strip_prefixes].
  - destruct s; [|cbn in Hl; lia]. by destruct p.
  - destruct (strip_prefix p s) as [r|] eqn:E; [|done]. apply IH. apply strip_prefix_Some in E as ->.
    rewrite length_app in Hl. destruct p; [done|]. cbn in Hl. lia.
Qed.

(** [trim_end_matches("suffix")] leaves no suffix. *)
Lemma trim_end_str_none suffix s : suffix <> [] -> ends_with suffix (trim_end_str suffix s) = false.
Proof.
  intros Hs. unfold ends_with, trim_end_str, starts_with. rewrite rev_involutive.
  rewrite strip_prefixes_none; [done| |by rewrite length_rev].
  intros E. apply Hs. rewrite <- (rev_involutive suffix), E. done.
Qed.

Section validated.
Context `{UrlCrate}.

Definition safe_part (part : str) : Prop :=
  part <> [] /\ part <> §"." /\ part <> §".." /\ starts_with §"-" part = false /\
  forall c, c ∈ part -> is_ascii_alphanumeric c || char_in §"-_." c = true.

(** Splits along the early returns of a [validate(&mut self)]. *)
Ltac guards :=
  repeat match goal with
  | |- (if ?b then (_, Err _) else _) = (_, Ok _) -> _ =>
    let G := fresh "G" in let E := fresh "E" in
    destruct b eqn:G; [intros E; discriminate E|]; repeat (apply orb_false_iff in G as [G ?])
  end.

Lemma alnum_lt c : is_ascii_alphanumeric c = true -> (c < 128)%N.
Proof.
  unfold is_ascii_alphanumeric, is_ascii_alphabetic, is_ascii_lowercase, is_ascii_uppercase, is_ascii_digit.
  rewrite !orb_true_iff, !between_iff. lia.
Qed.

Lemma bad_part_false part : bad_part part = false <-> safe_part part.
Proof.
  unfold bad_part, safe_part. rewrite !orb_false_iff, negb_false_iff, is_empty_false, forallb_bytes, forallb_iff.
  - unfold str_eqb. rewrite !bool_decide_eq_false. tauto.
  - intros c. rewrite orb_true_iff. intros [Hc|Hc]; [by apply alnum_lt|].
    apply char_in_iff in Hc. assert (Hall : forallb (fun x => (x <? 128)%N) §"-_." = true) by (vm_compute; reflexivity).
    rewrite forallb_iff in Hall. apply N.ltb_lt. by apply Hall.
Qed.

(** Validated settings name a repository Git can be pointed at: an HTTPS endpoint
    without credentials whose canonical form is used, on GitHub.com or on an
    origin the operator allows, a path of at least two portable parts none of
    which is an option or leaves its parent, a clean branch name, and
    protected branches only writable when pulling. *)
Theorem sync_settings_safe s allowed s' :
  Settings_validate s allowed = (s', Ok tt) ->
  (exists input url, url_parse input = Some url /\ url_scheme url = §"https" /\ url_username url = [] /\
     url_password url = None /\ url_query url = None /\ url_fragment url = None /\ url_host_str url <> None /\
     92%N ∉ input /\ (forall c, c ∈ input -> is_whitespace c = false /\ is_control c = false) /\
     ss_instance_url s' = trim_slashes (url_as_str url) /\
     match ss_provider s with Github => input = §"https://github.com" | Gitlab => url_origin url ∈ allowed end) /\
  Settings_url s' = ss_instance_url s' ++ §"/" ++ ss_repository_path s' ++ §".git" /\
  ends_with §".git" (ss_repository_path s') = false /\
  (2 <= zlen (split 47 (ss_repository_path s')))%Z /\
  (ss_provider s = Github -> zlen (split 47 (ss_repository_path s')) = 2%Z) /\
  (forall part, part ∈ split 47 (ss_repository_path s') -> safe_part part) /\
  (forall branch, ss_branch s' = Some branch ->
     branch <> [] /\ starts_with §"-" branch = false /\ contains §".." branch = false) /\
  (ss_protected_branch_updates s' = SourceFastForward -> ss_direction s' = Pull) /\
  ss_provider s' = ss_provider s /\ ss_direction s' = ss_direction s /\ ss_branch s' = ss_branch s.
Proof.
  unfold Settings_validate. cbv zeta.
  cbn [ss_instance_url with_repository_path ss_repository_path ss_provider with_instance_url].
  set (input := trim_slashes (trim (ss_instance_url s))).
  set (path := trim_end_str §".git" (trim (ss_repository_path s))).
  guards. destruct (url_parse input) as [url|] eqn:Eu; [|discriminate]. guards. intros [= <-].
  cbn [ss_instance_url ss_repository_path ss_provider ss_direction ss_branch ss_protected_branch_updates with_instance_url with_repository_path].
  rewrite existsb_false_iff in H0. rewrite existsb_false_iff in H1. rewrite existsb_false_iff in H7. unfold contains_char in G2. rewrite existsb_false_iff in G2.
  apply negb_false_iff in G3, H3, H4, H5, H6. apply str_eqb_true in G3. apply is_none_true in H3, H4, H5.
  apply is_empty_true in H6. apply Z.ltb_ge in G6. split_and!; try reflexivity.
  - exists input, url. split_and!; try assumption; try reflexivity.
    + intros E. by rewrite E in H2.
    + intros Hin. specialize (G2 _ Hin). discriminate G2.
    + intros c Hc. split; [by apply H1|by apply H0].
    + destruct (ss_provider s); [|by apply negb_false_iff, str_eqb_true in G4].
      apply negb_false_iff, bool_decide_eq_true in G5. exact G5.
  - apply trim_end_str_none. intros E. apply (f_equal length) in E. vm_compute in E. discriminate E.
  - exact G6.
  - intros Hp. rewrite Hp in H8. cbn in H8. apply negb_false_iff, Z.eqb_eq in H8. exact H8.
  - intros part Hpart. apply bad_part_false. by apply H7.
  - intros branch Hb. rewrite Hb in G0. unfold bad_branch in G0.
    repeat (apply orb_false_iff in G0 as [G0 ?]). apply is_empty_false in G0. by split_and!.
  - intros Hp. rewrite (bool_decide_true _ Hp) in G. cbn [andb] in G.
    apply negb_false_iff, bool_decide_eq_true in G. exact G.
Qed.
End validated.

Definition sample_settings : Settings :=
  {| ss_provider := Github; ss_instance_url := §"https://github.com/"; ss_repository_path := §" team/repo.git";
     ss_direction := Both; ss_automatic := true; ss_branch := Some §"main"; ss_protected_branch_updates := Blocked |}.

Lemma sync_settings_safe_witness : exists s',
  @Settings_validate sample_crate sample_settings [] = (s', Ok tt) /\ zlen (split 47 (ss_repository_path s')) = 2%Z.
Proof.
  assert (E : exists s', @Settings_validate sample_crate sample_settings [] = (s', Ok tt)) by (eexists; vm_compute; reflexivity).
  destruct E as [s' E]. exists s'. split; [exact E|].
  destruct (@sync_settings_safe sample_crate _ _ _ E) as (_ & _ & _ & _ & H2 & _). apply H2. reflexivity.
Defined.

(** ** Clone URLs *)

Definition INVALID_URL : str :=
  §"repository_url must be an HTTP(S), SSH or Git URL with a host and repository path, or user@host:path; passwords, query and fragment are not allowed".

Definition user_char (c : char) : bool := is_ascii_alphanumeric c || char_in §"-_." c.

Section clone_urls.
Context `{UrlCrate}.

(** SCP-style SSH, [user@host:path] with an optional bracketed address. *)
Definition parse_scp (input : str) : result Url str :=
  let? parts := ok_or (split_once §"@" input) INVALID_URL in
  let '(user, rest) := parts in
  if is_empty user || negb (forallb user_char user) then Err INVALID_URL
  else
    let? hp := ok_or (if starts_with §"[" rest
                      then match split_once §"]:" rest with Some (h, p) => Some (h ++ §"]", p) | None => None end
                      else split_once §":" rest) INVALID_URL in
    let '(host, path) := hp in
    if is_empty host || is_empty path || existsb (char_in §"/@") host || starts_with §":" path then Err INVALID_URL
    else ok_or (url_parse (§"ssh://" ++ user ++ §"@" ++ host ++ §"/" ++ path)) INVALID_URL.

Definition parse_clone_url (input : str) : result Url str :=
  match split_once §"://" input with
  | Some (scheme, rest) =>
    if negb (bool_decide (scheme ∈ [§"http"; §"https"; §"ssh"; §"git"])) || starts_with §"/" rest then Err INVALID_URL
    else ok_or (url_parse input) INVALID_URL
  | None => parse_scp input
  end.

Definition validate_repository_url (input : str) : result unit str :=
  let input := trim input in
  if is_empty input || existsb (fun c => is_whitespace c || is_control c) input || existsb (char_in §"\?#") input
  then Err INVALID_URL
  else
    let? parsed := parse_clone_url input in
    let? host := ok_or (url_host_str parsed) INVALID_URL in
    let? host := ok_or (host_parse host) INVALID_URL in
    let username := url_username parsed in
    if match host with HostDomain name => is_empty name || starts_with §"-" name | HostIp _ => false end
       || (str_eqb (url_scheme parsed) §"ssh"
           && (starts_with §"-" username || starts_with §"%2D" username || starts_with §"%2d" username))
       || is_empty (trim_matches (N.eqb 47) (url_path parsed))
       || is_some (url_password parsed) || is_some (url_query parsed) || is_some (url_fragment parsed)
    then Err INVALID_URL
    else Ok tt.

(** An accepted clone URL can carry no option to Git or OpenSSH and no secret:
    it parses to a URL with a network host that does not start with a dash,
    over SSH its user does not either, raw or percent-encoded, it has a path,
    and no password, query or fragment; the text holds no white space,
    control character or backslash. *)
Theorem clone_url_no_options input :
  validate_repository_url input = Ok tt ->
  (forall c, c ∈ trim input -> is_whitespace c = false /\ is_control c = false /\ char_in §"\?#" c = false) /\
  exists parsed h host, parse_clone_url (trim input) = Ok parsed /\ url_host_str parsed = Some h /\ host_parse h = Some host /\
    (forall name, host = HostDomain name -> name <> [] /\ starts_with §"-" name = false) /\
    (url_scheme parsed = §"ssh" -> starts_with §"-" (url_username parsed) = false /\
       starts_with §"%2D" (url_username parsed) = false /\ starts_with §"%2d" (url_username parsed) = false) /\
    trim_matches (N.eqb 47) (url_path parsed) <> [] /\
    url_password parsed = None /\ url_query parsed = None /\ url_fragment parsed = None.
Proof.
  unfold validate_repository_url. cbv zeta. intros E.
  destruct (_ || _) eqn:G in E; [discriminate E|]. apply rbind_Ok_inv in E as (parsed & Hp & E).
  apply rbind_Ok_inv in E as (h & Hh%ok_or_Ok & E). apply rbind_Ok_inv in E as (host & Hhost%ok_or_Ok & E).
  destruct (_ || is_some (url_fragment parsed)) eqn:G' in E; [discriminate E|].
  repeat (apply orb_false_iff in G as [G ?]). repeat (apply orb_false_iff in G' as [G' ?]).
  split.
  - intros c Hc. repeat match goal with Hx : existsb _ _ = false |- _ => rewrite existsb_false_iff in Hx; specialize (Hx _ Hc) end.
    bool_norm. done.
  - exists parsed, h, host. split_and!; try assumption.
    + intros name ->. apply orb_false_iff in G' as [?%is_empty_false ?]. done.
    + intros Hs. match goal with Hx : str_eqb _ _ && _ = false |- _ => rewrite Hs, str_eqb_refl in Hx; cbn [andb] in Hx;
        by repeat (apply orb_false_iff in Hx as [Hx ?]) end.
    + by apply is_empty_false.
    + by apply is_none_true, negb_false_iff.
    + by apply is_none_true, negb_false_iff.
    + by apply is_none_true, negb_false_iff.
Qed.
End clone_urls.

Lemma clone_url_no_options_witness :
  @validate_repository_url sample_crate §"build-user@example.test:team/repo.git" = Ok tt /\
  (forall c, c ∈ trim §"build-user@example.test:team/repo.git" -> is_whitespace c = false).
Proof.
  assert (E : @validate_repository_url sample_crate §"build-user@example.test:team/repo.git" = Ok tt) by (vm_compute; reflexivity).
  split; [exact E|]. intros c Hc. apply (proj1 (@clone_url_no_options sample_crate _ E) c Hc).
Defined.
