(* ===== verification/Workspace.v ===== *)
(** * Task workspaces and deliveries

    [backend/domain/src/sdlc_workspace.rs], [development_workspace.rs] and
    [task_delivery.rs]: what a task may ask of a workspace, the exact request a
    runner records for it, the actions on a development workspace, and the
    delivery commands of a task. *)
From S2P Require Import Prelude Url Artifacts Images Helm.

(** [Uuid::parse_str] and [to_string] of the crate [uuid]. *)
Class UuidCrate : Type := {
  uuid_parse : str -> option Uuid;
  uuid_to_string : Uuid -> str }.

(** ** [sdlc_workspace.rs] *)

Record WorkspaceTaskBinding : Type := {
  wb_tracker_instance_id : str;
  wb_tracker_project_id : Uuid;
  wb_task_id : Uuid;
  wb_root_task_id : Uuid;
  wb_assignment_id : Uuid;
  wb_execution_id : Uuid;
  wb_routing_snapshot_id : Uuid;
  wb_requirement_revision : Z;
  wb_fencing_token : Z;
  wb_assignment_hash : str;
  wb_workflow_task_ref : str }.

Inductive WorkspaceRole : Type := Analyst | Architect | Developer | Reviewer | Tester | Devops.
Inductive WorkspaceAccess : Type := ReadOnly | ReadWrite.
#[export] Instance WorkspaceRole_eq_dec : EqDecision WorkspaceRole.
Proof. solve_decision. Defined.
#[export] Instance WorkspaceAccess_eq_dec : EqDecision WorkspaceAccess.
Proof. solve_decision. Defined.

Record WorkspaceOperationRequest : Type := {
  wr_contract_version : Z;
  wr_operation_key : str;
  wr_binding : WorkspaceTaskBinding;
  wr_repository_id : Uuid;
  wr_source_commit : str;
  wr_lease_id : Uuid;
  wr_attempt_id : Uuid;
  wr_workspace_generation : Z;
  wr_workspace_id : str;
  wr_role : WorkspaceRole;
  wr_access : WorkspaceAccess }.

Record TaskWorkspaceIntent : Type := {
  ti_operation_key : str;
  ti_binding : WorkspaceTaskBinding;
  ti_repository_id : Uuid;
  ti_source_commit : str;
  ti_role : WorkspaceRole;
  ti_agent_id : Uuid;
  ti_tracker_lease_id : Uuid;
  ti_holder_subject : str;
  ti_expected_lease_version : Z }.

Definition operation_key_char (b : N) : bool := is_ascii_alphanumeric b || char_in §"-_.:" b.

Definition bad_operation_key (key : str) : bool :=
  is_empty key || (128 <? len key)%Z || negb (forallb operation_key_char (bytes key)).

Definition safe_positive (n : Z) : bool := in_range 1 max_safe_integer n.

(** [workflow_task_ref.strip_prefix("SDLC-").unwrap_or("")] *)
Definition ordinal (b : WorkspaceTaskBinding) : str := default [] (strip_prefix §"SDLC-" (wb_workflow_task_ref b)).

(** [value.trim() != value] *)
Definition untrimmed (value : str) : bool := negb (str_eqb (trim value) value).

Section requests.
Context `{UuidCrate}.

Definition TaskWorkspaceIntent_validate (i : TaskWorkspaceIntent) : result unit str :=
  let b := ti_binding i in
  let? instance := ok_or (uuid_parse (wb_tracker_instance_id b)) §"canonical mapped Tracker instance required" in
  if is_nil instance
     || negb (str_eqb (uuid_to_string instance) (wb_tracker_instance_id b))
     || existsb is_nil [wb_tracker_project_id b; wb_task_id b; wb_root_task_id b; wb_assignment_id b; wb_execution_id b;
                        wb_routing_snapshot_id b; ti_repository_id i; ti_agent_id i; ti_tracker_lease_id i]
     || negb (wb_task_id b =? wb_root_task_id b)%N
  then Err §"exact single-task identities required"
  else if negb (lower_hex (wb_assignment_hash b) 64)
          || negb (lower_hex (ti_source_commit i) 40)
          || negb (forallb safe_positive [wb_requirement_revision b; wb_fencing_token b; ti_expected_lease_version i])
  then Err §"invalid task source or fence"
  else if negb (match parse_signed i64_max (ordinal b) with
                | Some n => (0 <? n)%Z && str_eqb (show_Z n) (ordinal b)
                | None => false
                end)
          || bad_operation_key (ti_operation_key i)
          || is_empty (ti_holder_subject i)
          || (256 <? len (ti_holder_subject i))%Z
          || untrimmed (ti_holder_subject i)
          || existsb is_control (ti_holder_subject i)
  then Err §"invalid task operation identity"
  else Ok tt.

Definition workspace_prefix (attempt : Uuid) (generation : Z) : str :=
  §"attempt-" ++ uuid_to_string attempt ++ §"-" ++ show_Z generation ++ §"-".

Definition WorkspaceOperationRequest_validate (r : WorkspaceOperationRequest) : result unit str :=
  let b := wr_binding r in
  if negb (wr_contract_version r =? 1)%Z then Err §"unsupported contractVersion"
  else if bad_operation_key (wr_operation_key r) then Err §"invalid operationKey"
  else if existsb is_nil [wb_tracker_project_id b; wb_task_id b; wb_root_task_id b; wb_assignment_id b; wb_execution_id b;
                          wb_routing_snapshot_id b; wr_repository_id r; wr_lease_id r; wr_attempt_id r]
  then Err §"nil identity is not allowed"
  else if is_empty (trim (wb_tracker_instance_id b)) || (256 <? len (wb_tracker_instance_id b))%Z
          || untrimmed (wb_tracker_instance_id b) || existsb is_control (wb_tracker_instance_id b)
  then Err §"invalid exact Tracker instance namespace"
  else if (wb_requirement_revision b <=? 0)%Z || (max_safe_integer <? wb_requirement_revision b)%Z
          || (wb_fencing_token b <=? 0)%Z || (max_safe_integer <? wb_fencing_token b)%Z
          || (wr_workspace_generation r <=? 0)%Z
  then Err §"revisions and fences must be positive"
  else if negb (lower_hex (wb_assignment_hash b) 64) || negb (lower_hex (wr_source_commit r) 40)
  then Err §"full lowercase assignment hash and source SHA are required"
  else if is_empty (ordinal b) || starts_with §"0" (ordinal b) || negb (forallb is_ascii_digit (bytes (ordinal b)))
          || match parse_signed i64_max (ordinal b) with Some n => negb (0 <? n)%Z | None => true end
  then Err §"invalid workflowTaskRef"
  else
    let nonce := default [] (strip_prefix (workspace_prefix (wr_attempt_id r) (wr_workspace_generation r)) (wr_workspace_id r)) in
    if negb (lower_hex nonce 32) || match uuid_parse nonce with Some id => is_nil id | None => true end
    then Err §"workspaceId must match attempt and generation"
    else if bool_decide (wr_access r = ReadWrite) && negb (bool_decide (wr_role r = Developer))
    then Err §"only Developer may request scoped write access"
    else Ok tt.

Definition TaskWorkspaceIntent_request (i : TaskWorkspaceIntent) (lease attempt : Uuid) (generation : Z) (workspace : str)
  : result WorkspaceOperationRequest str :=
  let? _ := TaskWorkspaceIntent_validate i in
  let request := {| wr_contract_version := 1; wr_operation_key := ti_operation_key i; wr_binding := ti_binding i;
                    wr_repository_id := ti_repository_id i; wr_source_commit := ti_source_commit i; wr_lease_id := lease;
                    wr_attempt_id := attempt; wr_workspace_generation := generation; wr_workspace_id := workspace;
                    wr_role := ti_role i; wr_access := ReadOnly |} in
  let? _ := WorkspaceOperationRequest_validate request in
  Ok request.
End requests.

(** ** [development_workspace.rs] *)

Record SelectedSource : Type := { sl_key : str; sl_repository_id : Uuid; sl_commit : str }.
Record LocalTool : Type := { lt_name : str; lt_version : str; lt_requirement : str }.
Record LocalRepository : Type := { lr_key : str; lr_commit : str; lr_dirty : bool }.
Record LocalPreparation : Type := {
  lo_machine_id : Uuid;
  lo_profile_hash : str;
  lo_repositories : list LocalRepository;
  lo_tools : list LocalTool }.

Inductive WorkspaceAction : Type :=
| Register
| Create
| Prepare (sources : list SelectedSource) (local : LocalPreparation)
| Observe
| Start
| Stop
| BeginSession (task : str)
| EndSession (session_id : Uuid)
| RecoverSession (session_id : Uuid)
| CheckAction (recipe source_commit : str)
| Build (source_commit : str).

Definition requires_free_workspace (a : WorkspaceAction) : bool :=
  match a with Register | Create | Stop | BeginSession _ => true | _ => false end.

Definition requires_session (a : WorkspaceAction) : bool :=
  match a with Prepare _ _ | CheckAction _ _ | Build _ | EndSession _ => true | _ => false end.

Definition valid_ws_key (value : str) : bool := negb (bad_operation_key value).
Definition valid_ws_commit (value : str) : bool := lower_hex value 40.

Definition reported (source : SelectedSource) (item : LocalRepository) : bool :=
  str_eqb (lr_key item) (sl_key source) && str_eqb (lr_commit item) (sl_commit source).

Definition bad_local (sources : list SelectedSource) (local : LocalPreparation) : bool :=
  is_nil (lo_machine_id local)
  || (32 <? zlen (lo_tools local))%Z
  || existsb (fun tool => negb (valid_ws_key (lt_name tool)) || (64 <? len (lt_version tool))%Z
                          || (64 <? len (lt_requirement tool))%Z) (lo_tools local)
  || negb (len (lo_profile_hash local) =? 64)%Z
  || negb (forallb is_ascii_hexdigit (bytes (lo_profile_hash local)))
  || negb (zlen (lo_repositories local) =? zlen sources)%Z
  || existsb (fun source => negb (zlen (filter (fun item => reported source item = true) (lo_repositories local)) =? 1)%Z) sources.

(** [sources.iter().any(.. || !keys.insert(&source.key))]: the set of keys seen
    so far, until the first bad source. *)
Fixpoint bad_sources (keys : gset str) (sources : list SelectedSource) : bool :=
  match sources with
  | [] => false
  | source :: rest =>
    negb (valid_ws_key (sl_key source)) || is_nil (sl_repository_id source) || negb (valid_ws_commit (sl_commit source))
    || bool_decide (sl_key source ∈ keys) || bad_sources ({[ sl_key source ]} ∪ keys) rest
  end.

Definition WorkspaceAction_validate (a : WorkspaceAction) : result unit str :=
  match a with
  | BeginSession task => if negb (valid_ws_key task) then Err §"invalid_task_reference" else Ok tt
  | EndSession session_id | RecoverSession session_id =>
    if is_nil session_id then Err §"invalid_session_identity" else Ok tt
  | CheckAction recipe source_commit =>
    if negb (valid_ws_key recipe) || negb (valid_ws_commit source_commit) then Err §"invalid_check_selection" else Ok tt
  | Build source_commit => if negb (valid_ws_commit source_commit) then Err §"invalid_build_source" else Ok tt
  | Prepare sources local =>
    if bad_local sources local then Err §"invalid_local_preparation_report"
    else if is_empty sources || (16 <? zlen sources)%Z || bad_sources ∅ sources then Err §"invalid_explicit_sources"
    else Ok tt
  | Register | Create | Observe | Start | Stop => Ok tt
  end.

(** ** [task_delivery.rs] *)

Inductive DeliveryAction : Type := Deploy | Rollback.

Record WorkspaceOperationLookup : Type := {
  lk_request_hash : str;
  lk_task_id : Uuid;
  lk_root_task_id : Uuid;
  lk_assignment_id : Uuid;
  lk_execution_id : Uuid;
  lk_fencing_token : Z }.

Record TaskDeliveryFence : Type := {
  tf_development_result_id : Uuid;
  tf_assignment_id : Uuid;
  tf_execution_id : Uuid;
  tf_agent_id : Uuid;
  tf_lease_id : Uuid;
  tf_fencing_token : Z;
  tf_expected_lease_version : Z;
  tf_assignment_hash : str }.

Record DeliveryCommand : Type := {
  dc_operation_key : str;
  dc_workspace_operation_key : str;
  dc_original : WorkspaceOperationLookup;
  dc_action : DeliveryAction;
  dc_artifact_id : option Uuid;
  dc_expected_manifest_sha256 : option str;
  dc_task_fence : option TaskDeliveryFence }.

Definition digest (value : str) : bool := lower_hex value 64.

Definition bad_fence (fence : TaskDeliveryFence) : bool :=
  existsb is_nil [tf_development_result_id fence; tf_assignment_id fence; tf_execution_id fence; tf_agent_id fence; tf_lease_id fence]
  || negb (safe_positive (tf_fencing_token fence))
  || negb (safe_positive (tf_expected_lease_version fence))
  || negb (digest (tf_assignment_hash fence)).

Definition DeliveryCommand_validate (c : DeliveryCommand) : result unit str :=
  if match dc_task_fence c with Some fence => bad_fence fence | None => false end
  then Err §"Нужен точный положительный Tracker delivery fence"
  else if existsb bad_operation_key [dc_operation_key c; dc_workspace_operation_key c]
  then Err §"invalid original operation key"
  else if negb (digest (lk_request_hash (dc_original c)))
          || match dc_expected_manifest_sha256 c with Some h => negb (digest h) | None => false end
  then Err §"full lowercase SHA256 is required"
  else if existsb is_nil [lk_task_id (dc_original c); lk_root_task_id (dc_original c); lk_assignment_id (dc_original c);
                          lk_execution_id (dc_original c)]
          || (lk_fencing_token (dc_original c) <=? 0)%Z
  then Err §"original task identity is required"
  else match dc_action c with
  | Deploy => if match dc_artifact_id c with None => true | Some id => is_nil id end
              then Err §"deploy requires exact artifact ID" else Ok tt
  | Rollback => if is_some (dc_artifact_id c) || is_none (dc_expected_manifest_sha256 c)
                then Err §"rollback uses only the last confirmed manifest and exact current CAS" else Ok tt
  end.

(** ** Requests made from an intent *)

(** What the code relies on from the crate [uuid]: the text of an identity is
    its 36 characters of lower-case hexadecimal digits and dashes. *)
Class UuidLaws (C : UuidCrate) : Prop := {
  uuid_text : forall u, zlen (uuid_to_string u) = 36%Z /\ forall c, c ∈ uuid_to_string u -> is_lower_hex c || (c =? 45)%N = true }.

Lemma uuid_char c : is_lower_hex c || (c =? 45)%N = true -> (45 <= c < 127)%N /\ is_whitespace c = false /\ is_control c = false.
Proof.
  unfold is_lower_hex, is_ascii_digit, between. intros H.
  assert (Hr : (45 <= c <= 102)%N) by (repeat (apply orb_true_iff in H as [H|H]; bool_norm); bool_norm; lia).
  split; [lia|]. unfold is_whitespace, is_control, between.
  repeat match goal with |- context [(?a <=? ?b)%N] => destruct (N.leb_spec a b); [try lia|] end;
  repeat match goal with |- context [(?a =? ?b)%N] => destruct (N.eqb_spec a b); [lia|] end;
  repeat match goal with |- context [(?a <? ?b)%N] => destruct (N.ltb_spec a b); [lia|] end;
  try (exfalso; lia); split; reflexivity || lia.
Qed.

Section intents.
Context {C : UuidCrate} {L : UuidLaws C}.

(** The instance text of a valid intent is the text of a UUID. *)
Lemma uuid_namespace u :
  let t := uuid_to_string u in
  is_empty (trim t) = false /\ (256 <? len t)%Z = false /\ untrimmed t = false /\ existsb is_control t = false.
Proof.
  cbv zeta. destruct (uuid_text u) as [Hlen Hc].
  assert (Ht : trim (uuid_to_string u) = uuid_to_string u) by (apply trim_no_space; intros c Hin; by apply uuid_char, Hc).
  assert (Hb : bytes (uuid_to_string u) = uuid_to_string u).
  { apply bytes_ascii, forallb_iff. intros c Hin. apply N.ltb_lt. destruct (uuid_char c (Hc c Hin)). lia. }
  unfold untrimmed. rewrite Ht, str_eqb_refl. unfold len. rewrite Hb. unfold zlen in Hlen. rewrite Hlen.
  split_and!; [|done|done|].
  - apply is_empty_false. intros E. by rewrite E in Hlen.
  - apply existsb_false_iff. intros c Hin. by apply uuid_char, Hc.
Qed.

(** A canonical positive ordinal passes the checks of the request. *)
Lemma ordinal_checks o n :
  parse_signed i64_max o = Some n -> (0 < n)%Z -> show_Z n = o ->
  is_empty o || starts_with §"0" o || negb (forallb is_ascii_digit (bytes o)) = false.
Proof.
  intros _ Hn <-. rewrite show_Z_nonneg by lia. destruct (show_nonneg_head n Hn) as (c & r & E & Hc & H0).
  pose proof (show_nonneg_digits n ltac:(lia)) as Hd. rewrite bytes_ascii, Hd.
  - rewrite E. change (§"0") with [48%N]. unfold starts_with. cbn [is_empty strip_prefix orb negb].
    by destruct (N.eqb_spec 48 c).
  - apply forallb_iff. intros x Hx. rewrite forallb_iff in Hd. specialize (Hd x Hx). apply is_ascii_digit_iff in Hd.
    apply N.ltb_lt. lia.
Qed.

(** The identity of the workspace a runner supplies. *)
Definition workspace_identity (attempt : Uuid) (generation : Z) (workspace : str) : Prop :=
  exists nonce id, workspace = workspace_prefix attempt generation ++ nonce /\ lower_hex nonce 32 = true /\
    uuid_parse nonce = Some id /\ is_nil id = false.

Lemma workspace_identity_check attempt generation workspace :
  let nonce := default [] (strip_prefix (workspace_prefix attempt generation) workspace) in
  negb (lower_hex nonce 32) || match uuid_parse nonce with Some id => is_nil id | None => true end = false
  <-> workspace_identity attempt generation workspace.
Proof.
  cbv zeta. unfold workspace_identity. split.
  - destruct (strip_prefix _ workspace) as [nonce|] eqn:E; [|done]. cbn [default from_option id].
    rewrite orb_false_iff, negb_false_iff. intros [Hh Hn]. apply strip_prefix_Some in E as ->.
    unfold id in *. destruct (uuid_parse nonce) as [u|] eqn:Eu; [|done]. by exists nonce, u.
  - intros (nonce & u & -> & Hh & Hu & Hn). rewrite (proj2 (strip_prefix_Some _ _ nonce) eq_refl).
    cbn [default from_option]. unfold id. by rewrite Hh, Hu, Hn.
Qed.

(** For a valid task intent, a request exists exactly when the runner's own lease,
    attempt and workspace identities are in order - every condition on the
    task side already holds - and it copies the intent unchanged, read-only,
    and is itself valid. *)
Theorem intent_request_exact i lease attempt generation workspace :
  TaskWorkspaceIntent_validate i = Ok tt ->
  (is_ok (TaskWorkspaceIntent_request i lease attempt generation workspace) = true <->
     is_nil lease = false /\ is_nil attempt = false /\ (0 < generation)%Z /\ workspace_identity attempt generation workspace) /\
  forall r, TaskWorkspaceIntent_request i lease attempt generation workspace = Ok r ->
    WorkspaceOperationRequest_validate r = Ok tt /\ wr_binding r = ti_binding i /\ wr_repository_id r = ti_repository_id i /\
    wr_source_commit r = ti_source_commit i /\ wr_role r = ti_role i /\ wr_access r = ReadOnly /\
    wr_operation_key r = ti_operation_key i /\ wr_lease_id r = lease /\ wr_attempt_id r = attempt.
Proof.
  intros Hi. unfold TaskWorkspaceIntent_request. rewrite Hi. cbn [rbind].
  match goal with |- context [WorkspaceOperationRequest_validate ?q] => set (req := q) end.
  split.
  2:{ intros r E. apply rbind_Ok_inv in E as ([] & Hv & E). injection E as <-. by split_and!. }
  assert (Hok : is_ok (let? _ := WorkspaceOperationRequest_validate req in Ok req) = true <->
                WorkspaceOperationRequest_validate req = Ok tt).
  { destruct (WorkspaceOperationRequest_validate req) as [[]|]; cbn; by split. }
  rewrite Hok, <- workspace_identity_check. clear Hok.
  unfold TaskWorkspaceIntent_validate in Hi. ok_inv Hi. apply ok_or_Ok in Hok.
  repeat match goal with Hx : _ || _ = false |- _ => apply orb_false_iff in Hx; destruct Hx end.
  destruct (parse_signed i64_max (ordinal (ti_binding i))) as [n|] eqn:En; [|done].
  repeat match goal with Hx : negb _ = false |- _ => apply negb_false_iff in Hx end.
  match goal with Hx : (0 <? n)%Z && _ = true |- _ => apply andb_true_iff in Hx as [Hn Hs] end.
  apply Z.ltb_lt in Hn. apply str_eqb_true in Hs.
  pose proof (ordinal_checks _ _ En Hn Hs) as Hord.
  match goal with Hx : str_eqb (uuid_to_string a) _ = true |- _ => apply str_eqb_true in Hx; rename Hx into Ha end.
  destruct (uuid_namespace a) as (U1 & U2 & U3 & U4). rewrite Ha in U1, U2, U3, U4.
  cbn [existsb forallb] in *. unfold WorkspaceOperationRequest_validate, req.
  cbn [wr_contract_version wr_operation_key wr_binding wr_repository_id wr_source_commit wr_lease_id wr_attempt_id
       wr_workspace_generation wr_workspace_id wr_role wr_access existsb].
  repeat match goal with Hx : _ || _ = false |- _ => apply orb_false_iff in Hx; destruct Hx end.
  repeat match goal with Hx : _ && _ = true |- _ => apply andb_true_iff in Hx; destruct Hx end.
  assert (Hpos : forall z, safe_positive z = true -> (z <=? 0)%Z = false /\ (max_safe_integer <? z)%Z = false).
  { intros z Hz. unfold safe_positive, in_range in Hz. bool_norm. split; [apply Z.leb_gt|apply Z.ltb_ge]; lia. }
  repeat match goal with Hx : safe_positive _ = true |- _ => apply Hpos in Hx; destruct Hx end.
  rewrite Z.eqb_refl, En. cbn [negb].
  repeat match goal with Hx : _ = false |- _ => rewrite Hx; clear Hx end.
  repeat match goal with Hx : lower_hex _ _ = true |- _ => rewrite Hx; clear Hx end.
  rewrite (proj2 (Z.ltb_lt _ _) Hn), (bool_decide_false (ReadOnly = ReadWrite)) by done. cbn [negb orb andb].
  destruct (is_nil lease), (is_nil attempt), (Z.leb_spec generation 0); cbn [orb];
    destruct (_ || _); split; first [discriminate | intros (? & ? & ? & ?); first [discriminate | lia | reflexivity] | intros _; split_and!; first [reflexivity | assumption]].
Qed.
End intents.

(** A concrete reader and writer of identities for the witness. *)
Module Hex.
Definition digit (n : N) : N := (if n <? 10 then 48 + n else 87 + n)%N.
Fixpoint encode (k : nat) (u : N) : str := match k with O => [] | S k' => encode k' (u / 16)%N ++ [digit (u mod 16)] end.
Definition value (c : N) : N := (if c <? 58 then c - 48 else c - 87)%N.
Definition decode (s : str) : N := foldl (fun acc c => 16 * acc + value c)%N 0%N s.
Definition hyphenate (h : str) : str :=
  take 8 h ++ [45%N] ++ take 4 (drop 8 h) ++ [45%N] ++ take 4 (drop 12 h) ++ [45%N] ++ take 4 (drop 16 h) ++ [45%N] ++ drop 20 h.
Definition parse (s : str) : option Uuid :=
  let h := filter (fun c => c <> 45%N) s in
  if forallb is_lower_hex h && (zlen h =? 32)%Z then Some (decode h) else None.

#[global] Instance crate : UuidCrate := { uuid_parse := parse; uuid_to_string := fun u => hyphenate (encode 32 u) }.

Lemma encode_spec k u : length (encode k u) = k /\ forall c, c ∈ encode k u -> is_lower_hex c = true.
Proof.
  revert u. induction k as [|k IH]; intros u; cbn [encode]; [by split; [|intros c ?%elem_of_nil]|].
  destruct (IH (u / 16)%N) as [Hl Hc]. rewrite length_app, Hl. cbn [length]. split; [lia|]. intros c.
  rewrite elem_of_app, list_elem_of_singleton. intros [Hin| ->]; [by apply Hc|].
  pose proof (N.mod_lt u 16 ltac:(done)) as Hm. revert Hm. generalize (u mod 16)%N. intros m Hm. unfold digit, is_lower_hex, is_ascii_digit. rewrite orb_true_iff, !between_iff.
  destruct (N.ltb_spec m 10); [left|right]; lia.
Qed.

#[global] Instance laws : UuidLaws crate.
Proof.
  split. intros u. cbn [uuid_to_string crate]. destruct (encode_spec 32 u) as [Hl Hc]. revert Hl Hc.
  generalize (encode 32 u). intros h Hl Hc. unfold hyphenate. split.
  - unfold zlen. rewrite !length_app, !length_take, !length_drop. cbn [length]. lia.
  - intros c. rewrite !elem_of_app, !list_elem_of_singleton.
    assert (Hin : c ∈ h -> is_lower_hex c || (c =? 45)%N = true) by (intros Hx; by rewrite (Hc c Hx)).
    assert (Ht : forall n m, c ∈ take n (drop m h) -> c ∈ h).
    { intros n m Hx. rewrite <- (take_drop m h), <- (take_drop n (drop m h)), !elem_of_app. auto. }
    intros [Hx|[->|[Hx|[->|[Hx|[->|[Hx|[->|Hx]]]]]]]]; try done; apply Hin; try (by eapply Ht).
    + by apply (Ht 8 0).
    + rewrite <- (take_drop 20 h), elem_of_app. by right.
Qed.
End Hex.

Definition sample_intent : TaskWorkspaceIntent :=
  {| ti_operation_key := §"prepare:original";
     ti_binding := {| wb_tracker_instance_id := uuid_to_string 3; wb_tracker_project_id := 1; wb_task_id := 2; wb_root_task_id := 2;
                      wb_assignment_id := 4; wb_execution_id := 5; wb_routing_snapshot_id := 6; wb_requirement_revision := 1;
                      wb_fencing_token := 1; wb_assignment_hash := repeat 98%N 64; wb_workflow_task_ref := §"SDLC-17" |};
     ti_repository_id := 7; ti_source_commit := repeat 97%N 40; ti_role := Developer; ti_agent_id := 8;
     ti_tracker_lease_id := 9; ti_holder_subject := §"scheduler"; ti_expected_lease_version := 1 |}.

Lemma intent_request_exact_witness :
  TaskWorkspaceIntent_validate sample_intent = Ok tt /\
  is_ok (TaskWorkspaceIntent_request sample_intent 10 11 1 (workspace_prefix 11 1 ++ repeat 99%N 32)) = true.
Proof.
  assert (E : TaskWorkspaceIntent_validate sample_intent = Ok tt) by (vm_compute; reflexivity).
  split; [exact E|].
  apply (intent_request_exact (C := Hex.crate) (L := Hex.laws) sample_intent 10 11 1 _ E).
  split; [reflexivity|]. split; [reflexivity|]. split; [lia|]. exists (repeat 99%N 32). eexists.
  split; [reflexivity|]. split; [vm_compute; reflexivity|]. split; [vm_compute; reflexivity|]. vm_compute. reflexivity.
Defined.

(** ** Preparations *)

Lemma bad_sources_false keys sources :
  bad_sources keys sources = false ->
  NoDup (map sl_key sources) /\ (forall s, s ∈ sources -> sl_key s ∉ keys /\ valid_ws_key (sl_key s) = true /\
    is_nil (sl_repository_id s) = false /\ valid_ws_commit (sl_commit s) = true).
Proof.
  revert keys. induction sources as [|s sources IH]; intros keys; cbn [bad_sources map].
  { intros _. split; [apply NoDup_nil_2|by intros s ?%elem_of_nil]. }
  intros H. repeat (apply orb_false_iff in H as [H ?]). apply IH in H0 as [Hd Hk]. apply bool_decide_eq_false in H1.
  apply negb_false_iff in H, H2. split.
  - apply NoDup_cons. split; [|done]. intros (s' & E & Hs')%list_elem_of_fmap. destruct (Hk s' Hs') as [Hn _]. set_solver.
  - intros s'. rewrite elem_of_cons. intros [->|Hs']; [done|]. destruct (Hk s' Hs') as [Hn ?]. split; [set_solver|done].
Qed.

(** Distinct pairs that each occur once in a list of the same length make up
    the list. *)
Lemma once_each_Permutation {A} `{EqDecision A} (xs ys : list A) :
  NoDup xs -> length ys = length xs -> (forall x, x ∈ xs -> x ∈ ys) -> ys ≡ₚ xs.
Proof.
  intros Hd Hl Hin. symmetry. apply submseteq_length_Permutation; [by apply NoDup_submseteq|lia].
Qed.

Lemma NoDup_pairs (sources : list SelectedSource) : NoDup (map sl_key sources) -> NoDup (map (fun s => (sl_key s, sl_commit s)) sources).
Proof.
  intros H. apply (NoDup_fmap_1 fst). rewrite <- list_fmap_compose. exact H.
Qed.

(** A preparation is accepted only when the machine reports exactly the selected
    sources: 1 to 16 sources with distinct keys and full commits, and local
    repositories that are, up to order, the same keys at the same commits, none
    missing, extra or repeated. *)
Theorem prepare_report_exact sources local :
  WorkspaceAction_validate (Prepare sources local) = Ok tt ->
  (1 <= zlen sources <= 16)%Z /\ NoDup (map sl_key sources) /\
  map (fun r => (lr_key r, lr_commit r)) (lo_repositories local) ≡ₚ map (fun s => (sl_key s, sl_commit s)) sources /\
  (forall s, s ∈ sources -> valid_ws_key (sl_key s) = true /\ valid_ws_commit (sl_commit s) = true /\ is_nil (sl_repository_id s) = false) /\
  is_nil (lo_machine_id local) = false.
Proof.
  cbn [WorkspaceAction_validate]. destruct (bad_local sources local) eqn:El; [discriminate|].
  destruct (_ || bad_sources ∅ sources) eqn:Es; [discriminate|]. intros _.
  repeat (apply orb_false_iff in Es as [Es ?]). apply bad_sources_false in H as [Hd Hk].
  apply is_empty_false in Es. apply Z.ltb_ge in H0. unfold bad_local in El.
  repeat (apply orb_false_iff in El as [El ?]). apply negb_false_iff, Z.eqb_eq in H1. rewrite existsb_false_iff in H.
  split_and!; try done.
  - unfold zlen. destruct sources; [done|cbn; lia].
  - apply once_each_Permutation; [by apply NoDup_pairs|rewrite !length_map; unfold zlen in *; lia|].
    intros x Hx. apply list_elem_of_fmap in Hx as (s & -> & Hs). specialize (H s Hs).
    apply negb_false_iff, Z.eqb_eq in H. destruct (filter _ (lo_repositories local)) as [|r l] eqn:Ef; [discriminate H|].
    assert (Hr : r ∈ filter (fun item => reported s item = true) (lo_repositories local)) by (rewrite Ef; left).
    apply list_elem_of_filter in Hr as [Hr Hin]. unfold reported in Hr. apply andb_true_iff in Hr as [E1%str_eqb_true E2%str_eqb_true].
    apply list_elem_of_fmap. exists r. split; [congruence|done].
  - intros s Hs. by destruct (Hk s Hs) as (_ & ? & ? & ?).
Qed.

Definition sample_sources : list SelectedSource :=
  [ {| sl_key := §"app"; sl_repository_id := 1; sl_commit := repeat 97%N 40 |};
    {| sl_key := §"lib"; sl_repository_id := 2; sl_commit := repeat 98%N 40 |} ].
Definition sample_local : LocalPreparation :=
  {| lo_machine_id := 3; lo_profile_hash := repeat 48%N 64;
     lo_repositories := [ {| lr_key := §"lib"; lr_commit := repeat 98%N 40; lr_dirty := false |};
                          {| lr_key := §"app"; lr_commit := repeat 97%N 40; lr_dirty := true |} ];
     lo_tools := [] |}.

Lemma prepare_report_exact_witness :
  WorkspaceAction_validate (Prepare sample_sources sample_local) = Ok tt /\ NoDup (map sl_key sample_sources).
Proof.
  assert (E : WorkspaceAction_validate (Prepare sample_sources sample_local) = Ok tt) by (vm_compute; reflexivity).
  split; [exact E|]. apply (prepare_report_exact _ _ E).
Defined.

(** ** Delivery commands *)

(** A delivery command is accepted exactly when its fence, keys, hashes and
    original identity are well formed and its action has exactly its own
    inputs: a deployment one artifact, a rollback no artifact but the hash of
    the manifest it expects to replace. *)
Theorem delivery_command_spec c :
  DeliveryCommand_validate c = Ok tt <->
  (forall fence, dc_task_fence c = Some fence -> bad_fence fence = false) /\
  bad_operation_key (dc_operation_key c) = false /\ bad_operation_key (dc_workspace_operation_key c) = false /\
  digest (lk_request_hash (dc_original c)) = true /\
  (forall h, dc_expected_manifest_sha256 c = Some h -> digest h = true) /\
  Forall (fun u => is_nil u = false) [lk_task_id (dc_original c); lk_root_task_id (dc_original c);
    lk_assignment_id (dc_original c); lk_execution_id (dc_original c)] /\
  (0 < lk_fencing_token (dc_original c))%Z /\
  match dc_action c with
  | Deploy => exists id, dc_artifact_id c = Some id /\ is_nil id = false
  | Rollback => dc_artifact_id c = None /\ exists h, dc_expected_manifest_sha256 c = Some h
  end.
Proof.
  unfold DeliveryCommand_validate. rewrite !Forall_cons. cbn [existsb]. split.
  - intros E. destruct (match dc_task_fence c with Some f => bad_fence f | None => false end) eqn:Ef; [discriminate E|].
    destruct (bad_operation_key (dc_operation_key c) || _) eqn:Ek; [discriminate E|].
    destruct (negb (digest _) || _) eqn:Eh; [discriminate E|]. destruct (_ || (_ <=? 0)%Z) eqn:Ei; [discriminate E|].
    repeat match goal with Hx : _ || _ = false |- _ => apply orb_false_iff in Hx; destruct Hx end. bool_norm.
    split_and!; try done.
    + intros f Hf. by rewrite Hf in Ef.
    + intros h Hh. match goal with Hx : match dc_expected_manifest_sha256 c with _ => _ end = false |- _ => rewrite Hh in Hx; by apply negb_false_iff in Hx end.
    + destruct (dc_action c), (dc_artifact_id c) as [u|], (dc_expected_manifest_sha256 c) as [h|]; cbn in E; try discriminate E; eauto;
        destruct (is_nil u) eqn:Eu; try discriminate E; eauto.
  - intros (Hf & Hk1 & Hk2 & Hh & Hm & (Hi1 & Hi2 & Hi3 & Hi4 & _) & Ht & Ha).
    assert (E1 : match dc_task_fence c with Some f => bad_fence f | None => false end = false) by (destruct (dc_task_fence c); auto).
    assert (E2 : match dc_expected_manifest_sha256 c with Some h => negb (digest h) | None => false end = false).
    { destruct (dc_expected_manifest_sha256 c) as [h|]; [by rewrite (Hm h)|done]. }
    rewrite E1, Hk1, Hk2, Hh, E2, Hi1, Hi2, Hi3, Hi4, (proj2 (Z.leb_gt _ _) Ht). cbn [negb orb].
    destruct (dc_action c).
    + destruct Ha as (u & -> & Hu). by rewrite Hu.
    + destruct Ha as (-> & h & ->). done.
Qed.
