(* ===== verification/JobFields.v ===== *)
(** * The fields of a pipeline job

    [backend/src/api/pipelines_routes.rs], the validators and normalisers of
    the fields a job declares in [.forge-ci.yml]: timeouts, runner tags, secret
    names, artifact paths, job keys and image references. *)
From S2P Require Import Prelude.

(** ** Timeouts *)

(** [raw.split_at(raw.find(|c| !c.is_ascii_digit()).unwrap_or(raw.len()))] *)
Fixpoint leading_digits (s : str) : str :=
  match s with
  | c :: r => if is_ascii_digit c then c :: leading_digits r else []
  | [] => []
  end.
Definition after_digits : str -> str := drop_while is_ascii_digit.

Definition parse_timeout (raw : option str) : option Z :=
  raw ← raw;
  let raw := trim raw in
  if is_empty raw then None
  else
    value ← parse_signed i32_max (leading_digits raw);
    let unit_ := trim (after_digits raw) in
    if str_eqb unit_ §"s" || str_eqb unit_ §"sec" || str_eqb unit_ §"secs" || str_eqb unit_ [] then Some value
    else if str_eqb unit_ §"m" || str_eqb unit_ §"min" || str_eqb unit_ §"mins" then checked_mul i32_max value 60
    else if str_eqb unit_ §"h" || str_eqb unit_ §"hour" || str_eqb unit_ §"hours" then checked_mul i32_max value 3600
    else None.

Definition v1_error (field rest : str) : str := §".forge-ci.yml v1 " ++ field ++ rest.

Definition too_large (field : str) : str := v1_error field §" duration is too large".

Definition v1_seconds (field : str) (value : Z) (unit_ : str) : result Z str :=
  if str_eqb unit_ §"s" then Ok value
  else if str_eqb unit_ §"m" then ok_or (checked_mul i32_max value 60) (too_large field)
  else if str_eqb unit_ §"h" then ok_or (checked_mul i32_max value 3600) (too_large field)
  else if str_eqb unit_ §"d" then ok_or (checked_mul i32_max value 86400) (too_large field)
  else Err (v1_error field §" must use duration unit s, m, h, or d").

Definition parse_v1_timeout (field : str) (raw : option str) : result (option Z) str :=
  match raw with
  | None => Ok None
  | Some raw =>
    let raw := trim raw in
    if is_empty raw then Ok None
    else
      let digits := leading_digits raw in
      if is_empty digits || is_empty (after_digits raw)
      then Err (v1_error field §" must use a positive duration with unit s, m, h, or d")
      else
        let? value := ok_or (parse_signed i32_max digits) (too_large field) in
        if (value <=? 0)%Z then Err (v1_error field §" must use a positive duration")
        else
          let? seconds := v1_seconds field value (after_digits raw) in
          if (86400 <? seconds)%Z then Err (v1_error field §" must not exceed 24h") else Ok (Some seconds)
  end.

(** ** Names *)

Definition is_valid_runner_tag (tag : str) : bool :=
  let bs := bytes tag in
  match bs with
  | [] => false
  | first :: _ =>
    if (63 <? zlen bs)%Z then false
    else if negb (is_ascii_lowercase first) && negb (is_ascii_digit first) then false
    else forallb (fun b => is_ascii_lowercase b || is_ascii_digit b || char_in §"._-" b) bs
  end.

Definition is_valid_v1_secret_name (name : str) : bool :=
  let bs := bytes name in
  match bs with
  | [] => false
  | first :: _ =>
    if (128 <? zlen bs)%Z then false
    else if negb (is_ascii_uppercase first) then false
    else forallb (fun b => is_ascii_uppercase b || is_ascii_digit b || (b =? 95)%N) bs
  end.

Definition is_valid_v1_artifact_path (path : str) : bool :=
  negb (is_empty path)
  && (len path <=? 255)%Z
  && negb (starts_with §"/" path)
  && negb (starts_with §"\" path)
  && negb (contains_char 92 path)
  && negb (contains_char 58 path)
  && negb (existsb is_control path)
  && forallb (fun segment => negb (is_empty segment) && negb (str_eqb segment §".") && negb (str_eqb segment §".."))
       (split 47 path).

Definition is_valid_v1_job_key (key : str) : bool :=
  match key with
  | [] => false
  | first :: rest =>
    (len key <=? 63)%Z
    && is_ascii_alphabetic first
    && forallb (fun c => is_ascii_alphanumeric c || char_in §"_.-" c) rest
  end.

(** ** Lists of names: trimmed, checked, sorted and without duplicates *)

(** [normalized.insert(name.trim())] after its check. *)
Definition insert_trimmed (valid : str -> bool) (error : str -> str) (normalized : gset str) (name : str)
  : result (gset str) str :=
  let name := trim name in
  if negb (valid name) then Err (error name) else Ok ({[ name ]} ∪ normalized).

(** [normalized.into_iter().collect()] *)
Definition into_sorted (normalized : gset str) : list str := merge_sort str_le (elements normalized).

Definition normalize_v1_tags (field : str) (tags : list str) : result (list str) str :=
  if (64 <? zlen tags)%Z then Err (v1_error field §" supports at most 64 tags")
  else
    let? normalized := rfold (insert_trimmed is_valid_runner_tag
      (fun tag => v1_error field (§" tag '" ++ tag ++ §"' must match ^[a-z0-9][a-z0-9._-]{0,62}$"))) ∅ tags in
    Ok (into_sorted normalized).

Definition normalize_v1_secret_names (field : str) (names : list str) : result (list str) str :=
  if (64 <? zlen names)%Z then Err (v1_error field §" supports at most 64 secrets")
  else
    let? normalized := rfold (insert_trimmed is_valid_v1_secret_name
      (fun name => v1_error field (§" secret '" ++ name ++ §"' must match ^[A-Z][A-Z0-9_]{0,127}$"))) ∅ names in
    Ok (into_sorted normalized).

Definition normalize_v1_artifact_paths (field : str) (paths : list str) : result (list str) str :=
  if (32 <? zlen paths)%Z then Err (v1_error field §" supports at most 32 paths")
  else
    let? normalized := rfold (insert_trimmed is_valid_v1_artifact_path
      (fun path => v1_error field (§" path '" ++ path ++ §"' must be a safe relative file path"))) ∅ paths in
    Ok (into_sorted normalized).

(** ** Image references *)

Definition safe_name (name : str) : bool :=
  negb (is_empty name)
  && negb (starts_with §"." name)
  && negb (contains §".." name)
  && forallb (fun c => is_ascii_alphanumeric c || char_in §"/:._-" c) name.

Definition is_safe_image_reference (image : str) : bool :=
  match split_once §"@" image with
  | Some (name, digest) =>
    match strip_prefix §"sha256:" digest with
    | None => false
    | Some hash =>
      if negb (len hash =? 64)%Z || negb (forallb is_lower_hex (bytes hash)) then false else safe_name name
    end
  | None => safe_name image
  end.

(** ** Lemmas: timeouts *)

Lemma leading_after s : s = leading_digits s ++ after_digits s.
Proof. unfold after_digits. induction s as [|c s IH]; [done|]. cbn. destruct (is_ascii_digit c); [|done]. cbn. by f_equal. Qed.

Lemma leading_digits_digits s : forallb is_ascii_digit (leading_digits s) = true.
Proof. induction s as [|c s IH]; [done|]. cbn. destruct (is_ascii_digit c) eqn:E; [|done]. cbn. by rewrite E. Qed.

Lemma leading_digits_app ds c u :
  forallb is_ascii_digit ds = true -> is_ascii_digit c = false ->
  leading_digits (ds ++ c :: u) = ds /\ after_digits (ds ++ c :: u) = c :: u.
Proof.
  intros Hd Hc. unfold after_digits. induction ds as [|d ds IH]; cbn.
  - by rewrite Hc.
  - cbn in Hd. bool_norm. rewrite H. destruct IH as [-> ->]; done.
Qed.

(** On a string of digits, signed and unsigned parsing agree. *)
Lemma parse_signed_digits max ds v :
  forallb is_ascii_digit ds = true ->
  parse_signed max ds = Some v <-> ds <> [] /\ digits_val 0 ds = Some v /\ (v <= max)%Z.
Proof.
  intros Hd. assert (Hu : parse_unsigned max ds = Some v <-> ds <> [] /\ digits_val 0 ds = Some v /\ (v <= max)%Z).
  { unfold parse_unsigned. destruct ds as [|c r]; [split; [done|by intros [? _]]|].
    assert (Hc : (c =? 43)%N = false).
    { cbn in Hd. bool_norm. apply is_ascii_digit_iff in H. apply N.eqb_neq. lia. }
    rewrite Hc. destruct (digits_val 0 (c :: r)) as [w|]; [|naive_solver].
    destruct (Z.leb_spec w max); split; try naive_solver lia. }
  rewrite <- Hu. unfold parse_signed. destruct ds as [|c [|x r]]; try done.
  cbn in Hd. bool_norm. apply is_ascii_digit_iff in H.
  rewrite (proj2 (N.eqb_neq c 45)) by lia. done.
Qed.

(** The documented units. *)
Definition unit_seconds (u : str) : option Z :=
  if str_eqb u §"s" then Some 1%Z else if str_eqb u §"m" then Some 60%Z
  else if str_eqb u §"h" then Some 3600%Z else if str_eqb u §"d" then Some 86400%Z else None.

Lemma unit_seconds_shape u k : unit_seconds u = Some k -> (1 <= k <= 86400)%Z /\ exists c r, u = c :: r /\ is_ascii_digit c = false.
Proof.
  assert (H : forall (b : str) c r n, b = c :: r -> is_ascii_digit c = false -> (1 <= n <= 86400)%Z ->
    str_eqb u b = true -> Some n = Some k -> (1 <= k <= 86400)%Z /\ exists c r, u = c :: r /\ is_ascii_digit c = false).
  { intros b c r n -> Hc Hn ->%str_eqb_true [= <-]. eauto. }
  unfold unit_seconds.
  destruct (str_eqb u §"s") eqn:E1; [apply (H §"s" 115%N [] 1%Z); done|].
  destruct (str_eqb u §"m") eqn:E2; [apply (H §"m" 109%N [] 60%Z); done|].
  destruct (str_eqb u §"h") eqn:E3; [apply (H §"h" 104%N [] 3600%Z); done|].
  destruct (str_eqb u §"d") eqn:E4; [apply (H §"d" 100%N [] 86400%Z); done|]. done.
Qed.

Lemma v1_seconds_spec field v u n :
  (0 < v <= i32_max)%Z ->
  v1_seconds field v u = Ok n <-> exists k, unit_seconds u = Some k /\ n = (v * k)%Z /\ (n <= i32_max)%Z.
Proof.
  intros Hv. unfold v1_seconds, unit_seconds.
  assert (H : forall m, ok_or (checked_mul i32_max v m) (too_large field) = Ok n <->
    exists k, Some m = Some k /\ n = (v * k)%Z /\ (n <= i32_max)%Z).
  { intros m. rewrite ok_or_Ok. unfold checked_mul. destruct (Z.leb_spec (v * m) i32_max); split; try naive_solver.
    intros (k & [= <-] & -> & ?). lia. }
  destruct (str_eqb u §"s").
  { split; [intros [= <-]; exists 1%Z; split_and!; [done|lia|lia]|intros (k & [= <-] & -> & _); f_equal; lia]. }
  destruct (str_eqb u §"m"); [apply H|]. destruct (str_eqb u §"h"); [apply H|].
  destruct (str_eqb u §"d"); [apply H|]. naive_solver.
Qed.

Lemma parse_v1_timeout_range field raw n : parse_v1_timeout field raw = Ok (Some n) -> (1 <= n <= 86400)%Z.
Proof.
  destruct raw as [raw|]; [|done]. cbn [parse_v1_timeout]. cbv zeta. destruct (is_empty (trim raw)); [done|].
  intros E. ok_inv E. bool_norm. assert (a0 = n) as -> by congruence.
  apply ok_or_Ok, parse_signed_digits in Hok as (_ & _ & Hm); [|apply leading_digits_digits].
  apply v1_seconds_spec in Hok0 as (k & Hk & -> & _); [|lia].
  apply unit_seconds_shape in Hk as [? _]. nia.
Qed.

(** ** Lemmas: names *)

(** A name matching [^first rest{0,n}$], the regular expression the error
    message documents. *)
Definition matches_regex (first rest : N -> bool) (n : Z) (s : str) : Prop :=
  exists c r, s = c :: r /\ first c = true /\ forallb rest r = true /\ (zlen r <= n)%Z.

Lemma forallb_ascii_bytes p s : (forall c, p c = true -> (c < 128)%N) -> forallb p s = true -> bytes s = s.
Proof. intros Hp Hs. apply bytes_ascii, forallb_iff. intros c Hc. rewrite forallb_iff in Hs. apply N.ltb_lt, Hp, Hs, Hc. Qed.

(** The common shape of the byte-wise validators. *)
Lemma bytewise_regex (first rest : N -> bool) (n : Z) s :
  (forall c, first c = true -> rest c = true) -> (forall c, rest c = true -> (c < 128)%N) ->
  (match bytes s with
   | [] => false
   | b :: _ => if (n + 1 <? zlen (bytes s))%Z then false else if negb (first b) then false else forallb rest (bytes s)
   end = true) <-> matches_regex first rest n s.
Proof.
  intros Hfr Hr. split.
  - intros H. assert (Hs : forallb rest s = true /\ (zlen (bytes s) <= n + 1)%Z /\ exists b l, bytes s = b :: l /\ first b = true).
    { destruct (bytes s) as [|b l] eqn:E; [done|]. repeat case_match; bool_norm; try done.
      rewrite <- (forallb_bytes rest s Hr), E. split_and!; eauto. }
    destruct Hs as (Hs & Hl & b & l & Hb & Hfirst). rewrite (forallb_ascii_bytes rest s Hr Hs) in *.
    subst s. cbn in Hs. bool_norm. exists b, l. unfold zlen in *. cbn in Hl. split_and!; try done. lia.
  - intros (c & r & -> & Hc & Hrest & Hl).
    assert (Hall : forallb rest (c :: r) = true) by (cbn; by rewrite (Hfr c Hc), Hrest).
    rewrite (forallb_ascii_bytes rest _ Hr Hall), Hc. cbn [negb]. unfold zlen in *. cbn [length].
    rewrite (proj2 (Z.ltb_ge _ _)) by lia. done.
Qed.

Definition tag_char (c : N) : bool := is_ascii_lowercase c || is_ascii_digit c || char_in §"._-" c.
Definition secret_char (c : N) : bool := is_ascii_uppercase c || is_ascii_digit c || (c =? 95)%N.
Definition key_char (c : N) : bool := is_ascii_alphanumeric c || char_in §"_.-" c.

Lemma char_in_lt set c : forallb (fun x => (x <? 128)%N) set = true -> char_in set c = true -> (c < 128)%N.
Proof. intros Hs Hc%char_in_iff. rewrite forallb_iff in Hs. by apply N.ltb_lt, Hs. Qed.

Lemma tag_char_lt c : tag_char c = true -> (c < 128)%N.
Proof.
  unfold tag_char, is_ascii_lowercase, is_ascii_digit. rewrite !orb_true_iff, !between_iff.
  intros [[?|?]|H]; [lia|lia|]. by apply char_in_lt in H.
Qed.

Lemma secret_char_lt c : secret_char c = true -> (c < 128)%N.
Proof. unfold secret_char, is_ascii_uppercase, is_ascii_digit. rewrite !orb_true_iff, !between_iff, N.eqb_eq. lia. Qed.

Lemma key_char_lt c : key_char c = true -> (c < 128)%N.
Proof.
  unfold key_char, is_ascii_alphanumeric, is_ascii_alphabetic, is_ascii_lowercase, is_ascii_uppercase, is_ascii_digit.
  rewrite !orb_true_iff, !between_iff. intros [?|H]; [lia|]. by apply char_in_lt in H.
Qed.

Lemma alphabetic_key_char c : is_ascii_alphabetic c = true -> key_char c = true.
Proof. unfold key_char, is_ascii_alphanumeric. by intros ->. Qed.

Lemma is_valid_runner_tag_iff tag :
  is_valid_runner_tag tag = true <-> matches_regex (fun c => is_ascii_lowercase c || is_ascii_digit c) tag_char 62 tag.
Proof.
  rewrite <- bytewise_regex.
  - unfold is_valid_runner_tag. destruct (bytes tag) as [|b l]; [done|]. rewrite negb_orb. done.
  - intros c H. unfold tag_char. by rewrite H.
  - apply tag_char_lt.
Qed.

Lemma is_valid_v1_secret_name_iff name :
  is_valid_v1_secret_name name = true <-> matches_regex is_ascii_uppercase secret_char 127 name.
Proof.
  rewrite <- bytewise_regex; [done| |apply secret_char_lt]. intros c H. unfold secret_char. by rewrite H.
Qed.

Lemma is_valid_v1_job_key_iff key :
  is_valid_v1_job_key key = true <-> matches_regex is_ascii_alphabetic key_char 62 key.
Proof.
  unfold is_valid_v1_job_key. change (fun c => is_ascii_alphanumeric c || char_in §"_.-" c) with key_char.
  assert (Hlen : forall c r, is_ascii_alphabetic c = true -> forallb key_char r = true -> len (c :: r) = (1 + zlen r)%Z).
  { intros c r Hc Hr. unfold len. rewrite (forallb_ascii_bytes key_char); [unfold zlen; cbn [length]; lia|apply key_char_lt|].
    cbn. by rewrite (alphabetic_key_char c Hc), Hr. }
  split.
  - destruct key as [|c r]; [done|]. intros H. bool_norm. exists c, r. rewrite Hlen in H by done. split_and!; try done. lia.
  - intros (c & r & -> & Hc & Hr & Hl). rewrite (Hlen c r Hc Hr), Hc, Hr, (proj2 (Z.leb_le _ _)) by lia. done.
Qed.

(** ** Lemmas: normalised lists *)

Lemma insert_trimmed_fold valid error names acc out :
  rfold (insert_trimmed valid error) acc names = Ok out <->
  (forall x, x ∈ names -> valid (trim x) = true) /\ out = list_to_set (map trim names) ∪ acc.
Proof.
  revert acc. induction names as [|x names IH]; intros acc; cbn [rfold map].
  - split; [intros [= <-]; split; [by intros x ?%elem_of_nil|set_solver]|]. intros [_ ->]. f_equal. set_solver.
  - unfold insert_trimmed at 1. cbn zeta. destruct (valid (trim x)) eqn:E; cbn [negb rbind].
    + rewrite IH. cbn [list_to_set]. setoid_rewrite elem_of_cons. split.
      * intros [H ->]. split; [naive_solver|]. set_solver.
      * intros [H ->]. split; [naive_solver|]. set_solver.
    + split; [done|]. intros [H _]. rewrite H in E; [done|left].
Qed.

Lemma into_sorted_sort_dedup l : into_sorted (list_to_set l ∪ ∅) = sort_dedup l.
Proof. unfold into_sorted, sort_dedup. f_equal. f_equal. set_solver. Qed.

(** All three normalisers are instances of this one. *)
Definition normalize (valid : str -> bool) (limit : Z) (names out : list str) : Prop :=
  (zlen names <= limit)%Z /\ (forall x, x ∈ names -> valid (trim x) = true) /\ out = sort_dedup (map trim names).

Lemma normalizer_spec valid error limit (err : str) names out :
  (if (limit <? zlen names)%Z then Err err
   else let? s := rfold (insert_trimmed valid error) ∅ names in Ok (into_sorted s)) = Ok out
  <-> normalize valid limit names out.
Proof.
  unfold normalize. destruct (Z.ltb_spec limit (zlen names)) as [Hlt|Hle]; [split; [done|intros [? _]; lia]|].
  split.
  - intros (s & [Hv ->]%insert_trimmed_fold & [= <-])%rbind_Ok_inv. split_and!; try done. by rewrite into_sorted_sort_dedup.
  - intros (_ & Hv & ->).
    assert (Hs : rfold (insert_trimmed valid error) ∅ names = Ok (list_to_set (map trim names) ∪ ∅))
      by (by apply insert_trimmed_fold).
    rewrite Hs. cbn [rbind]. by rewrite into_sorted_sort_dedup.
Qed.

Lemma normalize_v1_tags_spec field tags out :
  normalize_v1_tags field tags = Ok out <-> normalize is_valid_runner_tag 64 tags out.
Proof. apply normalizer_spec. Qed.

Lemma normalize_v1_secret_names_spec field names out :
  normalize_v1_secret_names field names = Ok out <-> normalize is_valid_v1_secret_name 64 names out.
Proof. apply normalizer_spec. Qed.

Lemma normalize_v1_artifact_paths_spec field paths out :
  normalize_v1_artifact_paths field paths = Ok out <-> normalize is_valid_v1_artifact_path 32 paths out.
Proof. apply normalizer_spec. Qed.

Lemma trim_idemp s : trim (trim s) = trim s.
Proof. apply trim_matches_idemp. Qed.

Lemma normalize_elem valid limit names out x : normalize valid limit names out -> x ∈ out -> valid x = true /\ trim x = x.
Proof.
  intros (_ & Hv & ->). rewrite elem_of_sort_dedup, list_elem_of_fmap. intros (y & -> & Hy).
  split; [by apply Hv|apply trim_idemp].
Qed.

Lemma sort_dedup_length l : (zlen (sort_dedup l) <= zlen l)%Z.
Proof.
  unfold zlen. apply inj_le. apply submseteq_length, NoDup_submseteq; [apply NoDup_sort_dedup|].
  intros x. by rewrite elem_of_sort_dedup.
Qed.

Lemma sort_dedup_sort_dedup l : sort_dedup (sort_dedup l) = sort_dedup l.
Proof. apply sort_dedup_ext, elem_of_sort_dedup. Qed.

Lemma map_id_on {A} (f : A -> A) l : (forall x, x ∈ l -> f x = x) -> map f l = l.
Proof. intros H. induction l as [|x l IH]; [done|]. cbn. rewrite H, IH; [done| |left]. intros y Hy. apply H. by right. Qed.

(** A normalised list is canonical: sorted, without duplicates, valid, and
    normalising it again changes nothing. *)
Lemma normalize_canonical valid limit names out :
  normalize valid limit names out ->
  StronglySorted str_le out /\ NoDup out /\ (zlen out <= limit)%Z /\
  (forall x, x ∈ out <-> exists y, y ∈ names /\ x = trim y) /\
  (forall x, x ∈ out -> valid x = true) /\ normalize valid limit out out.
Proof.
  intros Hn. pose proof (normalize_elem valid limit names out) as He.
  assert (Hl : (zlen out <= limit)%Z).
  { destruct Hn as (Hl & _ & ->). pose proof (sort_dedup_length (map trim names)). unfold zlen in *. rewrite length_map in *. lia. }
  split_and!.
  - destruct Hn as (_ & _ & ->). apply sort_dedup_sorted.
  - destruct Hn as (_ & _ & ->). apply NoDup_sort_dedup.
  - done.
  - destruct Hn as (_ & _ & ->). intros x. rewrite elem_of_sort_dedup, list_elem_of_fmap. naive_solver.
  - intros x Hx. by apply (He x Hn).
  - split_and!; [done| |].
    + intros x Hx. destruct (He x Hn Hx) as [Hv ->]. done.
    + rewrite map_id_on by (intros x Hx; by apply (He x Hn)).
      destruct Hn as (_ & _ & ->). symmetry. apply sort_dedup_sort_dedup.
Qed.

(** ** Properties *)

(** A version 1 timeout is accepted exactly when its trimmed text is a
    decimal number followed by one of the units s, m, h and d and denotes
    between one second and 24 hours; the result is that number of seconds, and
    no multiplication overflows.  A missing or blank timeout means none. *)
Theorem parse_v1_timeout_spec field raw :
  (parse_v1_timeout field raw = Ok None <-> forall s, raw = Some s -> trim s = []) /\
  forall n, parse_v1_timeout field raw = Ok (Some n) <->
    exists s ds u v k, raw = Some s /\ trim s = ds ++ u /\ ds <> [] /\ forallb is_ascii_digit ds = true /\
      digits_val 0 ds = Some v /\ unit_seconds u = Some k /\ n = (v * k)%Z /\ (1 <= n <= 86400)%Z.
Proof.
  destruct raw as [raw|]; [|split; [split; [by intros|done]|intros n; split; [done|by intros (?&?&?&?&?&?&_)]]].
  cbn [parse_v1_timeout]. cbv zeta. destruct (trim raw) as [|c0 r0] eqn:Et.
  { split; [split; [by intros _ s [= <-]|done]|]. intros n. split; [done|].
    intros (s & ds & u & v & k & [= <-] & E & Hds & _). rewrite Et in E. by destruct ds. }
  rewrite <- Et. assert (Hne : is_empty (trim raw) = false) by (by rewrite Et). rewrite Hne.
  pose proof (leading_after (trim raw)) as Hsplit. pose proof (leading_digits_digits (trim raw)) as Hd.
  split.
  { split; [|intros H; specialize (H raw eq_refl); by rewrite H in Et].
    destruct (_ || _); [done|]. intros (v & _ & H)%rbind_Ok_inv. ok_inv H. done. }
  intros n. split.
  - intros H. ok_inv H. bool_norm. apply ok_or_Ok, parse_signed_digits in Hok as (Hds & Hv & Hm); [|done].
    assert (a0 = n) as -> by congruence. apply v1_seconds_spec in Hok0 as (k & Hk & -> & Ho); [|lia].
    destruct (unit_seconds_shape _ _ Hk) as [Hkb _].
    exists raw, (leading_digits (trim raw)), (after_digits (trim raw)), a, k. split_and!; try done; nia.
  - intros (s & ds & u & v & k & [= <-] & E & Hds & Hdd & Hv & Hk & -> & Hn).
    destruct (unit_seconds_shape u k Hk) as (Hkb & c & r & -> & Hc).
    destruct (leading_digits_app ds c r Hdd Hc) as [E1 E2]. rewrite E, E1, E2.
    assert (Hds' : is_empty ds = false) by (by apply is_empty_false). rewrite Hds'. cbn [is_empty orb].
    assert (Hvk : (0 < v <= i32_max)%Z) by (unfold i32_max; nia).
    rewrite (proj2 (parse_signed_digits i32_max ds v Hdd)) by (split_and!; [done|done|lia]).
    cbn [ok_or rbind]. rewrite (proj2 (Z.leb_gt v 0)) by lia.
    rewrite (proj2 (v1_seconds_spec field v (c :: r) (v * k)%Z Hvk)) by (exists k; unfold i32_max; split_and!; [done|done|lia]).
    cbn [rbind]. by rewrite (proj2 (Z.ltb_ge _ _)) by lia.
Qed.

(** Job keys, runner tags and secret names are accepted exactly when they match
    the regular expressions their error messages document. *)
Theorem job_names_match_documented s :
  (is_valid_v1_job_key s = true <-> matches_regex is_ascii_alphabetic key_char 62 s) /\
  (is_valid_runner_tag s = true <-> matches_regex (fun c => is_ascii_lowercase c || is_ascii_digit c) tag_char 62 s) /\
  (is_valid_v1_secret_name s = true <-> matches_regex is_ascii_uppercase secret_char 127 s).
Proof. split_and!; [apply is_valid_v1_job_key_iff|apply is_valid_runner_tag_iff|apply is_valid_v1_secret_name_iff]. Qed.

(** Normalised tags, secret names and artifact paths are canonical: sorted,
    distinct, within the limit, valid, exactly the trimmed inputs, and a fixed
    point of the same normaliser. *)
Theorem normalized_lists_canonical field names out :
  (normalize_v1_tags field names = Ok out ->
     StronglySorted str_le out /\ NoDup out /\ (zlen out <= 64)%Z /\
     (forall x, x ∈ out <-> exists y, y ∈ names /\ x = trim y) /\
     (forall x, x ∈ out -> is_valid_runner_tag x = true) /\ normalize_v1_tags field out = Ok out) /\
  (normalize_v1_secret_names field names = Ok out ->
     StronglySorted str_le out /\ NoDup out /\ (zlen out <= 64)%Z /\
     (forall x, x ∈ out <-> exists y, y ∈ names /\ x = trim y) /\
     (forall x, x ∈ out -> is_valid_v1_secret_name x = true) /\ normalize_v1_secret_names field out = Ok out) /\
  (normalize_v1_artifact_paths field names = Ok out ->
     StronglySorted str_le out /\ NoDup out /\ (zlen out <= 32)%Z /\
     (forall x, x ∈ out <-> exists y, y ∈ names /\ x = trim y) /\
     (forall x, x ∈ out -> is_valid_v1_artifact_path x = true) /\ normalize_v1_artifact_paths field out = Ok out).
Proof.
  split; [|split]; intros H.
  - apply normalize_v1_tags_spec, normalize_canonical in H. by rewrite normalize_v1_tags_spec.
  - apply normalize_v1_secret_names_spec, normalize_canonical in H. by rewrite normalize_v1_secret_names_spec.
  - apply normalize_v1_artifact_paths_spec, normalize_canonical in H. by rewrite normalize_v1_artifact_paths_spec.
Qed.

Lemma normalized_lists_canonical_witness :
  normalize_v1_tags §"defaults.tags" [§"linux"; §" docker "; §"linux"] = Ok [§"docker"; §"linux"] /\
  NoDup [§"docker"; §"linux"] /\ normalize_v1_tags §"defaults.tags" [§"docker"; §"linux"] = Ok [§"docker"; §"linux"].
Proof.
  assert (E : normalize_v1_tags §"defaults.tags" [§"linux"; §" docker "; §"linux"] = Ok [§"docker"; §"linux"])
    by (vm_compute; reflexivity).
  split; [exact E|].
  destruct (proj1 (normalized_lists_canonical §"defaults.tags" [§"linux"; §" docker "; §"linux"] [§"docker"; §"linux"]) E)
    as (_ & Hd & _ & _ & _ & Hf).
  split; [exact Hd|exact Hf].
Defined.
