(* ===== verification/Dag.v ===== *)
(** * Levels of the job graph

    [backend/src/api/pipelines_routes.rs], [compute_v1_job_levels]: the
    depth-first search that assigns every job of a version 1 pipeline its
    level, and detects dependency cycles.

    A job is known by its key in an ordered map; [needs] is the field that
    lists the keys it depends on. *)
From S2P Require Import Prelude.

(** The two errors of the search; [OutOfFuel] is not one of the program's, and
    [compute_levels_spec] shows that it never occurs. *)
Inductive level_error : Type :=
| Cycle (key : str)
| Missing (key : str)
| OutOfFuel.

Definition level_message (e : level_error) : str :=
  match e with
  | Cycle key => §".forge-ci.yml v1 jobs.needs contains a dependency cycle at '" ++ key ++ §"'"
  | Missing key => §".forge-ci.yml v1 references missing job '" ++ key ++ §"'"
  | OutOfFuel => []
  end.

Section levels.
Context {Job : Type} (needs : Job -> list str).

(** [&mut levels] and [&mut visiting]. *)
Record search_state : Type := { st_levels : gmap str Z; st_visiting : gset str }.

Definition visit_need (visit : search_state -> str -> result (Z * search_state) level_error)
  (acc : Z * search_state) (need : str) : result (Z * search_state) level_error :=
  let? r := visit acc.2 need in Ok (Z.max acc.1 (r.1 + 1), r.2).

Fixpoint visit (fuel : nat) (jobs : gmap str Job) (st : search_state) (key : str)
  : result (Z * search_state) level_error :=
  match fuel with
  | O => Err OutOfFuel
  | S f =>
    match st_levels st !! key with
    | Some level => Ok (level, st)
    | None =>
      if bool_decide (key ∈ st_visiting st) then Err (Cycle key)
      else
        let st := {| st_levels := st_levels st; st_visiting := {[ key ]} ∪ st_visiting st |} in
        match jobs !! key with
        | None => Err (Missing key)
        | Some job =>
          let? r := rfold (visit_need (visit f jobs)) (0%Z, st) (needs job) in
          let '(level, st) := r in
          Ok (level, {| st_levels := <[ key := level ]> (st_levels st);
                        st_visiting := st_visiting st ∖ {[ key ]} |})
        end
    end
  end.

(** The recursion enters a job at most once per key on its stack. *)
Definition visit_fuel (jobs : gmap str Job) : nat := S (size jobs).

Definition compute_levels (jobs : gmap str Job) : result (gmap str Z) level_error :=
  let? st := rfold (fun st key => let? r := visit (visit_fuel jobs) jobs st key in Ok r.2)
                   {| st_levels := ∅; st_visiting := ∅ |} (keys jobs) in
  Ok (st_levels st).

Definition compute_v1_job_levels (jobs : gmap str Job) : result (gmap str Z) str :=
  match compute_levels jobs with
  | Ok levels => Ok levels
  | Err e => Err (level_message e)
  end.

(** ** The graph *)

Section graph.
Context (jobs : gmap str Job).

(** [edge k n]: job [k] lists [n] among its needs. *)
Definition edge (k n : str) : Prop := exists job, jobs !! k = Some job /\ n ∈ needs job.
Definition depends : relation str := tc edge.

Definition closed : Prop := forall k n, edge k n -> is_Some (jobs !! n).
Definition acyclic : Prop := forall k, ~ depends k k.

(** The level a job has when its needs have theirs. *)
Fixpoint level_of (levels : gmap str Z) (ns : list str) : Z :=
  match ns with
  | [] => 0%Z
  | n :: r => Z.max (default 0%Z (levels !! n) + 1) (level_of levels r)
  end.

Lemma level_of_nonneg levels ns : (0 <= level_of levels ns)%Z.
Proof. induction ns as [|n ns IH]; cbn; lia. Qed.

Lemma level_of_need levels ns n l : n ∈ ns -> levels !! n = Some l -> (l + 1 <= level_of levels ns)%Z.
Proof.
  intros Hn Hl. induction ns as [|m ns IH]; [by apply elem_of_nil in Hn|]. cbn.
  apply elem_of_cons in Hn as [<-|Hn]; [rewrite Hl; cbn; lia|]. specialize (IH Hn). lia.
Qed.

Lemma level_of_attained levels ns :
  (0 < level_of levels ns)%Z -> exists n, n ∈ ns /\ level_of levels ns = (default 0%Z (levels !! n) + 1)%Z.
Proof.
  induction ns as [|m ns IH]; cbn; [lia|]. intros H.
  destruct (Z.max_spec (default 0%Z (levels !! m) + 1) (level_of levels ns)) as [[? E]|[? E]]; rewrite E in *.
  - destruct (IH H) as (n & Hn & ->). exists n. split; [by right|done].
  - exists m. split; [left|done].
Qed.

Lemma level_of_ext levels levels' ns :
  (forall n, n ∈ ns -> levels !! n = levels' !! n) -> level_of levels ns = level_of levels' ns.
Proof.
  induction ns as [|m ns IH]; [done|]. intros H. cbn. rewrite (H m) by left. rewrite IH; [done|].
  intros n Hn. apply H. by right.
Qed.

(** ** The invariant of the search *)

Definition levelled (levels : gmap str Z) (k : str) (l : Z) : Prop :=
  exists job, jobs !! k = Some job /\ (forall n, n ∈ needs job -> is_Some (levels !! n)) /\
    l = level_of levels (needs job).

Record inv (st : search_state) : Prop := {
  inv_levels : forall k l, st_levels st !! k = Some l -> levelled (st_levels st) k l;
  inv_visiting : st_visiting st ⊆ dom jobs }.

(** What a call returns. *)
Definition visit_post (st : search_state) (key : str) (r : result (Z * search_state) level_error) : Prop :=
  match r with
  | Ok (l, st') => inv st' /\ st_levels st ⊆ st_levels st' /\ st_visiting st' = st_visiting st /\
                   st_levels st' !! key = Some l
  | Err (Cycle k) => depends k k
  | Err (Missing k) => jobs !! k = None /\ (k = key \/ exists j, edge j k)
  | Err OutOfFuel => False
  end.

Definition visit_pre (fuel : nat) (st : search_state) (key : str) : Prop :=
  (size jobs < fuel + size (st_visiting st)) /\ inv st /\ forall v, v ∈ st_visiting st -> depends v key.

Lemma level_of_mono levels levels' ns :
  levels ⊆ levels' -> (forall n, n ∈ ns -> is_Some (levels !! n)) -> level_of levels ns = level_of levels' ns.
Proof.
  intros Hs Hn. apply level_of_ext. intros n [l Hl]%Hn. rewrite Hl. symmetry. by eapply lookup_weaken.
Qed.

(** The loop over the needs of a job. *)
Lemma visit_needs_post f key job :
  (forall st n, visit_pre f st n -> visit_post st n (visit f jobs st n)) ->
  jobs !! key = Some job ->
  forall ns acc st, ns ⊆ needs job -> (size jobs < f + size (st_visiting st)) -> inv st -> (0 <= acc)%Z ->
    (forall v, v ∈ st_visiting st -> v = key \/ depends v key) ->
    match rfold (visit_need (visit f jobs)) (acc, st) ns with
    | Ok (l, st') => inv st' /\ st_levels st ⊆ st_levels st' /\ st_visiting st' = st_visiting st /\
        (forall n, n ∈ ns -> is_Some (st_levels st' !! n)) /\ l = Z.max acc (level_of (st_levels st') ns)
    | Err (Cycle k) => depends k k
    | Err (Missing k) => jobs !! k = None /\ exists j, edge j k
    | Err OutOfFuel => False
    end.
Proof.
  intros IH Hj. induction ns as [|n ns IHn]; intros acc st Hns Hf Hinv Hacc Hp; cbn [rfold].
  { split_and!; try done; [by intros ? ?%elem_of_nil|cbn; lia]. }
  assert (Hedge : edge key n) by (exists job; split; [done|apply Hns; left]).
  assert (Hpre : visit_pre f st n).
  { split_and!; [done|done|]. intros v Hv. destruct (Hp v Hv) as [->|Hd]; [by apply tc_once|].
    by eapply tc_r. }
  specialize (IH st n Hpre). unfold visit_need at 1. cbn [fst snd].
  destruct (visit f jobs st n) as [[l1 st1]|[k|k|]]; cbn [rbind fst snd]; [|done| |done].
  2:{ destruct IH as [? [->|?]]; split; [done|by exists key|done|done]. }
  destruct IH as (Hinv1 & Hsub1 & Hv1 & Hl1).
  specialize (IHn (Z.max acc (l1 + 1)) st1). rewrite Hv1 in IHn.
  specialize (IHn ltac:(intros x Hx; apply Hns; by right) Hf Hinv1 ltac:(lia) Hp).
  destruct (rfold _ _ ns) as [[l2 st2]|[k|k|]]; try done.
  destruct IHn as (Hinv2 & Hsub2 & Hv2 & Hall & ->).
  assert (Hn2 : st_levels st2 !! n = Some l1) by (by eapply lookup_weaken).
  split_and!; [done|by etrans|done| |].
  - intros m Hm. apply elem_of_cons in Hm as [->|Hm]; eauto.
  - cbn [level_of]. rewrite Hn2. cbn. lia.
Qed.

Lemma visit_spec fuel st key : visit_pre fuel st key -> visit_post st key (visit fuel jobs st key).
Proof.
  revert st key. induction fuel as [|f IH]; intros st key (Hf & Hinv & Hp); cbn [visit].
  { pose proof (subseteq_size _ _ (inv_visiting _ Hinv)) as Hs. rewrite size_dom in Hs. lia. }
  destruct (st_levels st !! key) as [l|] eqn:El; [done|].
  destruct (bool_decide_reflect (key ∈ st_visiting st)) as [Hin|Hnin]; [by apply Hp|].
  destruct (jobs !! key) as [job|] eqn:Ej; [|split; [done|by left]].
  set (st1 := {| st_levels := st_levels st; st_visiting := {[key]} ∪ st_visiting st |}).
  assert (Hsz : size (st_visiting st1) = S (size (st_visiting st))).
  { unfold st1. cbn. rewrite size_union, size_singleton by set_solver. done. }
  assert (Hinv1 : inv st1).
  { split; [apply Hinv|]. unfold st1. cbn. pose proof (inv_visiting _ Hinv).
    assert (key ∈ dom jobs) by (by apply elem_of_dom). set_solver. }
  pose proof (visit_needs_post f key job IH Ej (needs job) 0%Z st1 ltac:(done) ltac:(lia) Hinv1 ltac:(done)) as Hloop.
  specialize (Hloop ltac:(unfold st1; cbn; intros v; rewrite elem_of_union, elem_of_singleton; intros [->|Hv]; auto)).
  destruct (rfold _ _ (needs job)) as [[l st2]|[k|k|]]; cbn [rbind]; [|done| |done].
  2:{ destruct Hloop. split; [done|by right]. }
  destruct Hloop as (Hinv2 & Hsub & Hv2 & Hall & ->). pose proof (level_of_nonneg (st_levels st2) (needs job)) as Hnn.
  rewrite Z.max_r by done. set (lvl := level_of (st_levels st2) (needs job)) in *.
  (* the new entry agrees with the old levels *)
  assert (Hsame : forall n l, st_levels st2 !! n = Some l -> <[key:=lvl]> (st_levels st2) !! n = Some l).
  { intros n l Hn. destruct (decide (n = key)) as [->|Hne]; [|by rewrite lookup_insert_ne].
    rewrite lookup_insert_eq. destruct (inv_levels _ Hinv2 key l Hn) as (job' & Ej' & _ & ->). assert (job' = job) as -> by congruence. done. }
  assert (Hext : forall ns, (forall n, n ∈ ns -> is_Some (st_levels st2 !! n)) ->
            level_of (st_levels st2) ns = level_of (<[key:=lvl]> (st_levels st2)) ns).
  { intros ns Hns. apply level_of_ext. intros n [x Hx]%Hns. rewrite Hx. symmetry. by apply Hsame. }
  assert (Hlev : forall k l, levelled (st_levels st2) k l -> levelled (<[key:=lvl]> (st_levels st2)) k l).
  { intros k l (job' & Hj' & Hn' & ->). exists job'. split_and!; [done| |by apply Hext].
    intros n [x Hx]%Hn'. exists x. by apply Hsame. }
  split_and!; cbn [st_levels st_visiting].
  - split; cbn [st_levels st_visiting].
    + intros k l. destruct (decide (k = key)) as [->|Hne].
      * rewrite lookup_insert_eq. intros [= <-]. apply Hlev. by exists job.
      * rewrite lookup_insert_ne by done. intros Hk. by apply Hlev, Hinv2.
    + rewrite Hv2. unfold st1. cbn. pose proof (inv_visiting _ Hinv). set_solver.
  - apply map_subseteq_spec. intros n x Hx. apply Hsame. by eapply lookup_weaken.
  - rewrite Hv2. unfold st1. cbn. set_solver.
  - apply lookup_insert_eq.
Qed.

(** ** The whole search *)

(** [levels] are the levels of the graph: every job has one, one more than
    the greatest level among its needs. *)
Definition is_levels (levels : gmap str Z) : Prop :=
  (forall k, is_Some (levels !! k) <-> is_Some (jobs !! k)) /\
  forall k job, jobs !! k = Some job -> levels !! k = Some (level_of levels (needs job)).

Lemma is_levels_edge levels k n lk ln :
  is_levels levels -> edge k n -> levels !! k = Some lk -> levels !! n = Some ln -> (ln < lk)%Z.
Proof.
  intros [_ Hl] (job & Hj & Hn) Hk Hln. rewrite (Hl _ _ Hj) in Hk. injection Hk as <-.
  pose proof (level_of_need levels (needs job) n ln Hn Hln). lia.
Qed.

(** Levels exist only for closed, acyclic graphs. *)
Lemma is_levels_acyclic levels : closed -> is_levels levels -> acyclic.
Proof.
  intros Hc Hl. assert (Hdec : forall k n, depends k n -> forall lk, levels !! k = Some lk ->
    exists ln, levels !! n = Some ln /\ (ln < lk)%Z).
  { assert (Hstep : forall k n lk, edge k n -> levels !! k = Some lk -> exists ln, levels !! n = Some ln /\ (ln < lk)%Z).
    { intros k n lk He Hk. destruct (proj2 (proj1 Hl n) (Hc k n He)) as [ln Hln].
      exists ln. split; [done|]. by eapply (is_levels_edge levels k n). }
    intros k n Hkn. induction Hkn as [k n He|k m n He Hmn IH]; intros lk Hk; [by eapply Hstep|].
    destruct (Hstep _ _ _ He Hk) as (lm & Hlm & ?). destruct (IH lm Hlm) as (ln & ? & ?). exists ln. split; [done|lia]. }
  intros k Hk. assert (Hlk : is_Some (levels !! k)).
  { apply (proj1 Hl). inversion Hk as [? ? (job & Hj & _)|? ? ? (job & Hj & _)]; eauto. }
  destruct Hlk as [lk Hlk]. destruct (Hdec k k Hk lk Hlk) as (l & Hl' & ?). simplify_eq. lia.
Qed.

Lemma is_levels_unique l1 l2 : closed -> is_levels l1 -> is_levels l2 -> l1 = l2.
Proof.
  intros Hc H1 H2. assert (Hsub : forall (m : nat) k x, l1 !! k = Some x -> (x < Z.of_nat m)%Z -> l2 !! k = Some x).
  { induction m as [|m IH]; intros k x Hk Hx.
    - destruct (proj1 (proj1 H1 k) ltac:(eauto)) as [job Hj]. rewrite (proj2 H1 k job Hj) in Hk. injection Hk as <-.
      pose proof (level_of_nonneg l1 (needs job)). lia.
    - destruct (proj1 (proj1 H1 k) ltac:(eauto)) as [job Hj]. rewrite (proj2 H1 k job Hj) in Hk. injection Hk as Hk.
      rewrite (proj2 H2 k job Hj). f_equal. rewrite <- Hk. symmetry. apply level_of_ext. intros n Hn.
      destruct (proj2 (proj1 H1 n) (Hc k n ltac:(by exists job))) as [y Hy]. rewrite Hy. symmetry. apply (IH n y Hy).
      pose proof (level_of_need l1 (needs job) n y Hn Hy). lia. }
  apply map_eq. intros k. destruct (l1 !! k) as [x|] eqn:Ek.
  - symmetry. apply (Hsub (Z.to_nat (x + 1)) k x Ek). lia.
  - symmetry. apply eq_None_not_Some. intros Hs. apply (proj1 H2), (proj1 H1) in Hs as [y Hy]. congruence.
Qed.

Lemma compute_loop_post ks st :
  (forall k, k ∈ ks -> is_Some (jobs !! k)) -> inv st -> st_visiting st = ∅ ->
  match rfold (fun st key => let? r := visit (visit_fuel jobs) jobs st key in Ok r.2) st ks with
  | Ok st' => inv st' /\ st_levels st ⊆ st_levels st' /\ forall k, k ∈ ks -> is_Some (st_levels st' !! k)
  | Err (Cycle k) => depends k k
  | Err (Missing k) => jobs !! k = None /\ exists j, edge j k
  | Err OutOfFuel => False
  end.
Proof.
  revert st. induction ks as [|k ks IH]; intros st Hks Hinv Hv; cbn [rfold].
  { split_and!; [done|done|by intros ? ?%elem_of_nil]. }
  assert (Hpre : visit_pre (visit_fuel jobs) st k).
  { split_and!; [unfold visit_fuel; lia|done|]. rewrite Hv. set_solver. }
  pose proof (visit_spec _ _ _ Hpre) as Hpost.
  destruct (visit (visit_fuel jobs) jobs st k) as [[l st1]|[c|c|]]; cbn [rbind snd]; try done.
  - destruct Hpost as (Hinv1 & Hsub & Hv1 & Hl). specialize (IH st1). rewrite Hv1, Hv in IH.
    specialize (IH ltac:(intros x Hx; apply Hks; by right) Hinv1 eq_refl).
    destruct (rfold _ st1 ks) as [st2|[c|c|]]; try done. destruct IH as (Hinv2 & Hsub2 & Hall).
    split_and!; [done|by etrans|]. intros x Hx. apply elem_of_cons in Hx as [->|Hx]; [|by apply Hall].
    exists l. by eapply lookup_weaken.
  - destruct Hpost as [Hm [->|He]]; [|done]. destruct (Hks k ltac:(left)). congruence.
Qed.

(** The outcome of the search: levels, a job on a cycle, or a key that a
    job needs and that does not exist. *)
Lemma compute_levels_post :
  match compute_levels jobs with
  | Ok levels => closed /\ is_levels levels
  | Err (Cycle k) => depends k k
  | Err (Missing k) => jobs !! k = None /\ exists j, edge j k
  | Err OutOfFuel => False
  end.
Proof.
  unfold compute_levels.
  pose proof (compute_loop_post (keys jobs) {| st_levels := ∅; st_visiting := ∅ |}) as H.
  specialize (H ltac:(intros k; by rewrite elem_of_keys)).
  specialize (H ltac:(split; cbn; [intros k l; by rewrite lookup_empty|set_solver]) eq_refl).
  destruct (rfold _ _ (keys jobs)) as [st|[c|c|]]; cbn [rbind]; try done.
  destruct H as (Hinv & _ & Hall).
  assert (Hdom : forall k, is_Some (st_levels st !! k) <-> is_Some (jobs !! k)).
  { intros k. split; [|intros Hk; apply Hall; by rewrite elem_of_keys].
    intros [l Hl]. destruct (inv_levels _ Hinv k l Hl) as (job & Hj & _). eauto. }
  assert (Heq : forall k job, jobs !! k = Some job ->
            (forall n, n ∈ needs job -> is_Some (st_levels st !! n)) /\
            st_levels st !! k = Some (level_of (st_levels st) (needs job))).
  { intros k job Hj. destruct (proj2 (Hdom k) ltac:(eauto)) as [l Hl].
    destruct (inv_levels _ Hinv k l Hl) as (job' & Hj' & Hn & ->). assert (job' = job) as -> by congruence. done. }
  split.
  - intros k n (job & Hj & Hn). apply Hdom. by apply (proj1 (Heq k job Hj)).
  - split; [done|]. intros k job Hj. by apply Heq.
Qed.

Lemma compute_levels_complete : closed -> acyclic -> exists levels, compute_levels jobs = Ok levels.
Proof.
  intros Hc Ha. pose proof compute_levels_post as H. destruct (compute_levels jobs) as [levels|[k|k|]]; eauto.
  - by destruct (Ha k).
  - destruct H as [Hk [j Hj]]. destruct (Hc j k Hj). congruence.
  - done.
Qed.

(** ** Levels are contiguous and few *)

Lemma is_levels_below levels k l :
  closed -> is_levels levels -> levels !! k = Some l -> (0 <= l)%Z /\ forall i, (0 <= i <= l)%Z -> exists n, levels !! n = Some i.
Proof.
  intros Hc Hl. remember (Z.to_nat l) as m eqn:Em. revert k l Em. induction m as [m IH] using lt_wf_ind.
  intros k l -> Hk. destruct (proj1 (proj1 Hl k) ltac:(eauto)) as [job Hj].
  pose proof Hk as Hk'. rewrite (proj2 Hl k job Hj) in Hk'. injection Hk' as Hk'.
  pose proof (level_of_nonneg levels (needs job)) as Hnn. split; [lia|]. intros i Hi.
  destruct (Z.eq_dec i l) as [->|Hne]; [eauto|].
  destruct (level_of_attained levels (needs job)) as (n & Hn & En); [lia|].
  destruct (proj2 (proj1 Hl n) (Hc k n ltac:(by exists job))) as [y Hy]. rewrite Hy in En. cbn in En.
  apply (proj2 (IH (Z.to_nat y) ltac:(destruct (proj1 (proj1 Hl n) ltac:(eauto)) as [j Hj'];
    pose proof (proj2 Hl n j Hj') as E; rewrite Hy in E; injection E as E;
    pose proof (level_of_nonneg levels (needs j)); lia) n y eq_refl Hy)). lia.
Qed.

Lemma is_levels_bound levels k l :
  closed -> is_levels levels -> levels !! k = Some l -> (0 <= l < Z.of_nat (size jobs))%Z.
Proof.
  intros Hc Hl Hk. destruct (is_levels_below levels k l Hc Hl Hk) as [H0 Hb]. split; [done|].
  assert (Hsz : size levels = size jobs).
  { rewrite <- !size_dom. f_equal. apply set_eq. intros x. rewrite !elem_of_dom. apply Hl. }
  assert (Hsub : seqZ 0 (l + 1) ⊆+ (map_to_list levels).*2).
  { apply NoDup_submseteq; [apply NoDup_seqZ|]. intros i Hi%elem_of_seqZ. destruct (Hb i ltac:(lia)) as [n Hn].
    apply list_elem_of_fmap. exists (n, i). split; [done|]. by apply elem_of_map_to_list. }
  apply submseteq_length in Hsub. rewrite length_seqZ, length_fmap, length_map_to_list in Hsub. lia.
Qed.
End graph.

(** ** Properties *)

(** C2. The level computation succeeds exactly on closed acyclic graphs and then
    gives the unique levels: each job is one above the highest job it needs,
    jobs without needs are at zero, and levels stay below the number of jobs,
    so the 32-bit additions cannot overflow. *)
Theorem compute_levels_spec jobs levels :
  compute_v1_job_levels jobs = Ok levels <->
  closed jobs /\ acyclic jobs /\ is_levels jobs levels /\
  forall k l, levels !! k = Some l -> (0 <= l < Z.of_nat (size jobs))%Z.
Proof.
  unfold compute_v1_job_levels. pose proof (compute_levels_post jobs) as H. split.
  - destruct (compute_levels jobs) as [ls|]; [|done]. intros [= ->]. destruct H as [Hc Hl]. split_and!; try done.
    + by eapply is_levels_acyclic.
    + intros k l Hk. by eapply is_levels_bound.
  - intros (Hc & Ha & Hl & _). destruct (compute_levels_complete jobs Hc Ha) as [ls E]. rewrite E in *.
    destruct H as [_ Hl']. f_equal. by eapply is_levels_unique.
Qed.

(** A failure of the level computation is never spurious: it names a job that
    transitively depends on itself, or a key that some job needs and no job
    defines.  The search needs no more stack than one frame per job. *)
Theorem compute_levels_errors jobs e :
  compute_levels jobs = Err e ->
  (exists k, e = Cycle k /\ depends jobs k k /\ ~ acyclic jobs) \/
  (exists k j, e = Missing k /\ jobs !! k = None /\ edge jobs j k /\ ~ closed jobs).
Proof.
  intros He. pose proof (compute_levels_post jobs) as H. rewrite He in H. destruct e as [k|k|]; [left|right|done].
  - exists k. split_and!; [done|done|]. intros Ha. by apply (Ha k).
  - destruct H as [Hk [j Hj]]. exists k, j. split_and!; [done..|]. intros Hc. destruct (Hc j k Hj). congruence.
Qed.
End levels.

(** A cycle of two jobs behind an innocent third. *)
Definition sample_cycle : gmap str (list str) := {[ §"a" := [§"b"]; §"b" := [§"c"]; §"c" := [§"b"] ]}.

Lemma compute_levels_errors_witness :
  compute_levels (fun ns : list str => ns) sample_cycle = Err (Cycle §"b") /\ ~ acyclic (fun ns => ns) sample_cycle.
Proof.
  assert (E : compute_levels (fun ns : list str => ns) sample_cycle = Err (Cycle §"b")) by (vm_compute; reflexivity).
  split; [exact E|].
  destruct (compute_levels_errors (fun ns : list str => ns) sample_cycle _ E) as [(k & _ & _ & H)|(k & j & He & _)];
    [exact H|discriminate He].
Defined.
