(* ===== verification/Pipeline.v ===== *)
(** * Pipeline configurations

    [backend/src/api/pipelines_routes.rs]: from the deserialized
    [.forge-ci.yml] to the stages and the execution plan of a pipeline, in the
    legacy linear format and in the version 1 graph format.

    Reading YAML belongs to the crate [serde_yaml]; what it returns for the
    program's types is a parameter. *)
From S2P Require Import Prelude Url Artifacts Images Helm JobFields Dag.

(** ** Stages and jobs *)

Record CiJob : Type := {
  cj_name : str;
  cj_image : str;
  cj_command : str;
  cj_required_tags : list str;
  cj_required_secrets : list str;
  cj_artifact_paths : list str;
  cj_timeout_seconds : option Z;
  cj_allow_failure : bool;
  cj_manual : bool }.

Record CiStage : Type := { cs_name : str; cs_jobs : list CiJob }.

Definition bad_job (job : CiJob) : bool :=
  is_empty (trim (cj_name job))
  || is_empty (trim (cj_command job))
  || negb (is_safe_image_reference (cj_image job))
  || existsb (fun tag => negb (is_valid_runner_tag tag)) (cj_required_tags job)
  || existsb (fun secret => negb (is_valid_v1_secret_name secret)) (cj_required_secrets job).

Definition validate_job (_ : unit) (job : CiJob) : result unit str :=
  if bad_job job
  then Err §"every job needs a name, command, safe image reference, safe runner tags and safe secret names"
  else Ok tt.

Definition validate_stage (_ : unit) (stage : CiStage) : result unit str :=
  if is_empty (trim (cs_name stage)) || is_empty (cs_jobs stage)
  then Err §"every stage must have a name and at least one job"
  else rfold validate_job tt (cs_jobs stage).

Definition validate_ci_stages (stages : list CiStage) : result unit str :=
  if is_empty stages then Err §".forge-ci.yml must define at least one stage"
  else rfold validate_stage tt stages.

Definition plain_job (name image command : str) : CiJob :=
  {| cj_name := name; cj_image := image; cj_command := command; cj_required_tags := []; cj_required_secrets := [];
     cj_artifact_paths := []; cj_timeout_seconds := None; cj_allow_failure := false; cj_manual := false |}.

Definition default_pipeline : list CiStage :=
  [ {| cs_name := §"build"; cs_jobs := [plain_job §"checkout" §"alpine/git:latest" §"git fetch --all"] |};
    {| cs_name := §"test"; cs_jobs := [plain_job §"unit-tests" §"rust:1.86" §"cargo test"] |};
    {| cs_name := §"deploy"; cs_jobs := [plain_job §"deploy" §"alpine:3.21" §"echo deploy"] |} ].

(** ** Plans *)

Record LegacyPlanDependency : Type := { dep_from : str; dep_to : str }.

#[export] Instance LegacyPlanDependency_eq_dec : EqDecision LegacyPlanDependency.
Proof. solve_decision. Defined.

Record LegacyPlanJob : Type := {
  lj_key : str;
  lj_name : str;
  lj_stage : str;
  lj_stage_position : Z;
  lj_position : Z;
  lj_image : str;
  lj_command : str;
  lj_required_tags : list str;
  lj_required_secrets : list str;
  lj_artifact_paths : list str;
  lj_timeout_seconds : option Z;
  lj_allow_failure : bool;
  lj_manual : bool;
  lj_needs : list str }.

Record LegacyPlanStage : Type := { ls_name : str; ls_position : Z; ls_jobs : list LegacyPlanJob }.

Record LegacyExecutionPlan : Type := {
  lp_format : str;
  lp_parser_version : str;
  lp_config_source : str;
  lp_git_ref : str;
  lp_resolved_commit_sha : option str;
  lp_stages : list LegacyPlanStage;
  lp_dependencies : list LegacyPlanDependency }.

Record WorkspaceDeploySpec : Type := { wd_compose : str; wd_images_manifest : str }.

Definition WorkspaceDeploySpec_validate (s : WorkspaceDeploySpec) : result unit str :=
  if negb (valid_relative_path (wd_compose s) false)
     || negb (valid_relative_path (wd_images_manifest s) false)
     || str_eqb (wd_compose s) (wd_images_manifest s)
  then Err §"workspace_deploy requires distinct portable relative files"
  else Ok tt.

Record V1PlanJob : Type := {
  pj_key : str;
  pj_stage : str;
  pj_stage_position : Z;
  pj_position : Z;
  pj_image : str;
  pj_commands : list str;
  pj_command : str;
  pj_required_tags : list str;
  pj_required_secrets : list str;
  pj_artifact_paths : list str;
  pj_timeout_seconds : option Z;
  pj_allow_failure : bool;
  pj_needs : list str;
  pj_image_build : option ImageBuildSpec;
  pj_image_publish : option ImagePublishSpec;
  pj_helm_deploy : option HelmDeploySpec;
  pj_workspace_deploy : option WorkspaceDeploySpec }.

Record V1PlanData : Type := { vp_jobs : list V1PlanJob; vp_dependencies : list LegacyPlanDependency }.

Inductive ParsedPipelinePlan : Type :=
| Legacy
| V1 (plan : V1PlanData).

Record ParsedPipelineConfig : Type := { pc_stages : list CiStage; pc_plan : ParsedPipelinePlan }.

Definition has_workspace_deploy (c : ParsedPipelineConfig) : bool :=
  match pc_plan c with V1 plan => existsb (fun job => is_some (pj_workspace_deploy job)) (vp_jobs plan) | Legacy => false end.

Definition has_image_build (c : ParsedPipelineConfig) : bool :=
  match pc_plan c with V1 plan => existsb (fun job => is_some (pj_image_build job)) (vp_jobs plan) | Legacy => false end.

Definition LEGACY_PIPELINE_PLAN_PARSER_VERSION : str := §"forge-legacy-linear/1".
Definition V1_PIPELINE_PLAN_PARSER_VERSION : str := §"forge-dsl/1.0.0".

Definition parser_version (c : ParsedPipelineConfig) : str :=
  match pc_plan c with
  | Legacy => LEGACY_PIPELINE_PLAN_PARSER_VERSION
  | V1 _ => V1_PIPELINE_PLAN_PARSER_VERSION
  end.

(** *** The linear plan *)

Definition legacy_key (stage_position job_position : Z) : str :=
  §"stage-" ++ show_Z stage_position ++ §"/job-" ++ show_Z job_position.

(** The loop over the jobs of a stage; every job needs all jobs of the
    previous stage. *)
Definition plan_legacy_job (stage : CiStage) (stage_position : Z) (needs : list str) (job_position : nat) (job : CiJob)
  : LegacyPlanJob :=
  {| lj_key := legacy_key stage_position (Z.of_nat job_position);
     lj_name := cj_name job;
     lj_stage := cs_name stage;
     lj_stage_position := stage_position;
     lj_position := Z.of_nat job_position;
     lj_image := cj_image job;
     lj_command := cj_command job;
     lj_required_tags := cj_required_tags job;
     lj_required_secrets := cj_required_secrets job;
     lj_artifact_paths := cj_artifact_paths job;
     lj_timeout_seconds := cj_timeout_seconds job;
     lj_allow_failure := cj_allow_failure job;
     lj_manual := cj_manual job;
     lj_needs := needs |}.

Definition job_dependencies (job : LegacyPlanJob) : list LegacyPlanDependency :=
  map (fun predecessor => {| dep_from := predecessor; dep_to := lj_key job |}) (lj_needs job).

Fixpoint plan_legacy_stages (stage_position : nat) (previous_stage_keys : list str) (stages : list CiStage)
  : list LegacyPlanStage * list LegacyPlanDependency :=
  match stages with
  | [] => ([], [])
  | stage :: rest =>
    let planned_jobs := imap (plan_legacy_job stage (Z.of_nat stage_position) previous_stage_keys) (cs_jobs stage) in
    let '(planned_stages, dependencies) :=
      plan_legacy_stages (S stage_position) (map lj_key planned_jobs) rest in
    ({| ls_name := cs_name stage; ls_position := Z.of_nat stage_position; ls_jobs := planned_jobs |} :: planned_stages,
     flat_map job_dependencies planned_jobs ++ dependencies)
  end.

Definition build_legacy_execution_plan (git_ref : str) (resolved_commit_sha : option str) (config_source : str)
  (stages : list CiStage) : LegacyExecutionPlan :=
  let '(planned_stages, dependencies) := plan_legacy_stages 0 [] stages in
  {| lp_format := §"legacy-linear";
     lp_parser_version := LEGACY_PIPELINE_PLAN_PARSER_VERSION;
     lp_config_source := config_source;
     lp_git_ref := git_ref;
     lp_resolved_commit_sha := resolved_commit_sha;
     lp_stages := planned_stages;
     lp_dependencies := dependencies |}.

(** ** What the YAML reader returns *)

Record YamlJob : Type := {
  yj_name : str;
  yj_image : option str;
  yj_command : str;
  yj_image_publish : bool;      (** the key is present *)
  yj_helm_deploy : bool;
  yj_workspace_deploy : bool;
  yj_timeout : option str;
  yj_allow_failure : bool;
  yj_when : option str }.

Record YamlStage : Type := { ys_name : str; ys_jobs : list YamlJob }.

Record YamlV1Job : Type := {
  y1_needs : list str;
  y1_image : option str;
  y1_commands : list str;
  y1_image_build : option ImageBuildSpec;
  y1_image_publish : option ImagePublishSpec;
  y1_helm_deploy : option HelmDeploySpec;
  y1_workspace_deploy : option WorkspaceDeploySpec;
  y1_timeout : option str;
  y1_tags : option (list str);
  y1_secrets : list str;
  y1_artifacts : option (list str);   (** [artifacts.paths] *)
  y1_allow_failure : bool }.

Record YamlV1Config : Type := {
  yc_version : Z;
  yc_default_image : option str;
  yc_default_timeout : option str;
  yc_default_tags : list str;
  yc_jobs : gmap str YamlV1Job }.

(** The root value: a mapping, with or without the key [version], or not. *)
Inductive YamlRoot : Type :=
| RootMapping (has_version : bool)
| RootOther.

(** [serde_yaml::from_str] at the three types the program reads. *)
Class Yaml : Type := {
  yaml_root : str -> result YamlRoot str;
  yaml_legacy : str -> result (list YamlStage) str;
  yaml_v1 : str -> result YamlV1Config str }.

(** ** The legacy parser *)

Definition compile_legacy_job (job : YamlJob) : CiJob :=
  {| cj_name := yj_name job;
     cj_image := default §"alpine:3.21" (yj_image job);
     cj_command := yj_command job;
     cj_required_tags := [];
     cj_required_secrets := [];
     cj_artifact_paths := [];
     cj_timeout_seconds := parse_timeout (yj_timeout job);
     cj_allow_failure := yj_allow_failure job;
     cj_manual := bool_decide (yj_when job = Some §"manual") |}.

Definition compile_legacy_stage (stage : YamlStage) : CiStage :=
  {| cs_name := ys_name stage; cs_jobs := map compile_legacy_job (ys_jobs stage) |}.

(** [parse_legacy_pipeline_config] after [serde_yaml::from_str]. *)
Definition compile_legacy (parsed : list YamlStage) : result ParsedPipelineConfig str :=
  if existsb (fun job => yj_workspace_deploy job || yj_image_publish job || yj_helm_deploy job) (flat_map ys_jobs parsed)
  then Err §"workspace_deploy execution is unavailable in legacy jobs; typed image/deploy declarations require version: 1"
  else
    let stages := filter (fun stage => is_empty (cs_jobs stage) = false) (map compile_legacy_stage parsed) in
    let? _ := validate_ci_stages stages in
    Ok {| pc_stages := stages; pc_plan := Legacy |}.

(** ** The version 1 parser *)

Record NormalizedV1Job : Type := {
  nj_key : str;
  nj_image : str;
  nj_commands : list str;
  nj_required_tags : list str;
  nj_required_secrets : list str;
  nj_artifact_paths : list str;
  nj_timeout_seconds : option Z;
  nj_allow_failure : bool;
  nj_needs : list str;
  nj_image_build : option ImageBuildSpec;
  nj_image_publish : option ImagePublishSpec;
  nj_helm_deploy : option HelmDeploySpec;
  nj_workspace_deploy : option WorkspaceDeploySpec }.

Definition job_error (key rest : str) : str := §".forge-ci.yml v1 job '" ++ key ++ §"'" ++ rest.
Definition jobs_field (key rest : str) : str := §"jobs." ++ key ++ rest.

Definition check_workspace_deploy (default_tags : list str) (job : YamlV1Job) : result unit str :=
  match y1_workspace_deploy job with
  | None => Ok tt
  | Some deployment =>
    let? _ := WorkspaceDeploySpec_validate deployment in
    if is_some (y1_image_build job) || is_some (y1_image_publish job) || is_some (y1_helm_deploy job)
       || is_some (y1_artifacts job) || y1_allow_failure job || is_some (y1_tags job) || negb (is_empty default_tags)
    then Err §"workspace_deploy requires repo commands and owner receipt only; no image_build, artifacts, allow_failure or external tags"
    else Ok tt
  end.

Definition check_helm_deploy (job : YamlV1Job) : result unit str :=
  match y1_helm_deploy job with
  | None => Ok tt
  | Some deploy =>
    let? _ := HelmDeploySpec_validate deploy in
    if is_some (y1_image_build job) || is_some (y1_image_publish job) || is_some (y1_workspace_deploy job)
       || negb (is_empty (y1_commands job)) || is_some (y1_image job) || is_some (y1_artifacts job)
       || negb (is_empty (y1_secrets job)) || y1_allow_failure job
    then Err §"helm_deploy cannot be combined with arbitrary execution or secrets"
    else Ok tt
  end.

Definition check_commands (key : str) (_ : unit) (command : str) : result unit str :=
  if is_empty (trim command) || (16 * 1024 <? len command)%Z || contains_char 0 command
  then Err (job_error key §" has an empty or oversized command")
  else Ok tt.

Section compile.
Context `{UrlCrate}.

Definition check_image_publish (job : YamlV1Job) : result unit str :=
  match y1_image_publish job with
  | None => Ok tt
  | Some build =>
    let? _ := ImagePublishSpec_validate build in
    if is_some (y1_image_build job) || is_some (y1_workspace_deploy job) || negb (is_empty (y1_commands job))
       || is_some (y1_image job) || is_some (y1_artifacts job) || negb (is_empty (y1_secrets job)) || y1_allow_failure job
    then Err §"image_publish cannot be combined with another execution or arbitrary secrets"
    else Ok tt
  end.

Definition check_image_build (default_tags : list str) (key : str) (job : YamlV1Job) : result unit str :=
  match y1_image_build job with
  | Some build =>
    let? _ := ImageBuildSpec_validate build in
    if negb (is_empty (y1_commands job)) || is_some (y1_image job) || is_some (y1_tags job)
       || negb (is_empty (y1_secrets job)) || is_some (y1_artifacts job) || y1_allow_failure job
       || negb (is_empty default_tags)
    then Err (job_error key §": image_build несовместим с commands, image, tags, secrets, artifacts и allow_failure")
    else Ok tt
  | None =>
    if is_none (y1_image_publish job) && is_none (y1_helm_deploy job)
       && (is_empty (y1_commands job) || (64 <? zlen (y1_commands job))%Z)
    then Err (job_error key §" must define 1..64 commands")
    else Ok tt
  end.

Definition job_image (default_image : str) (job : YamlV1Job) : str :=
  if is_some (y1_helm_deploy job) then §"forge:runner-helm-deploy"
  else if is_some (y1_image_publish job) then §"forge:runner-image-publish"
  else if is_some (y1_image_build job) then §"forge:backend-image-build"
  else default default_image (y1_image job).

Definition job_artifact_paths (key : str) (job : YamlV1Job) : result (list str) str :=
  match y1_helm_deploy job with
  | Some deploy => Ok [hd_receipt_artifact deploy]
  | None =>
  match y1_image_publish job with
  | Some build => Ok [ip_descriptor_artifact build; ip_published_artifact build]
  | None =>
  match y1_workspace_deploy job with
  | Some deployment => Ok [wd_images_manifest deployment]
  | None =>
  match y1_image_build job with
  | Some build => Ok [ib_descriptor_artifact build]
  | None =>
  match y1_artifacts job with
  | Some paths =>
    if is_empty paths
    then Err (§".forge-ci.yml v1 jobs." ++ key ++ §".artifacts.paths must define at least one path")
    else normalize_v1_artifact_paths (jobs_field key §".artifacts.paths") paths
  | None => Ok []
  end end end end end.

(** [for need in job.needs]: the state is [unique_needs] and [needs]. *)
Definition push_need (key : str) (acc : gset str * list str) (need : str) : result (gset str * list str) str :=
  if negb (is_valid_v1_job_key need) then Err (job_error key (§" has invalid need key '" ++ need ++ §"'"))
  else if bool_decide (need ∈ acc.1) then Err (job_error key (§" lists dependency '" ++ need ++ §"' more than once"))
  else Ok ({[ need ]} ∪ acc.1, acc.2 ++ [need]).

Definition job_needs (key : str) (job : YamlV1Job) : result (list str) str :=
  if (64 <? zlen (y1_needs job))%Z then Err (job_error key §" can depend on at most 64 jobs")
  else
    let? acc := rfold (push_need key) (∅, []) (y1_needs job) in
    Ok (merge_sort str_le acc.2).

(** The defaults of the file, after their own checks. *)
Record Defaults : Type := { df_image : str; df_timeout : option Z; df_tags : list str }.

Definition normalize_defaults (parsed : YamlV1Config) : result Defaults str :=
  let default_image := default §"alpine:3.21" (yc_default_image parsed) in
  if negb (is_safe_image_reference default_image)
  then Err §".forge-ci.yml v1 defaults.image must be a safe image reference"
  else
    let? default_timeout := parse_v1_timeout §"defaults.timeout" (yc_default_timeout parsed) in
    let? default_tags := normalize_v1_tags §"defaults.tags" (yc_default_tags parsed) in
    Ok {| df_image := default_image; df_timeout := default_timeout; df_tags := default_tags |}.

(** The body of [for (key, job) in parsed.jobs]. *)
Definition normalize_job (d : Defaults) (key : str) (job : YamlV1Job) : result NormalizedV1Job str :=
  if negb (is_valid_v1_job_key key)
  then Err (§".forge-ci.yml v1 job key '" ++ key ++ §"' must match ^[a-zA-Z][a-zA-Z0-9_.-]{0,62}$")
  else
    let? _ := check_workspace_deploy (df_tags d) job in
    let? _ := check_helm_deploy job in
    let? _ := check_image_publish job in
    let? _ := check_image_build (df_tags d) key job in
    let? _ := rfold (check_commands key) tt (y1_commands job) in
    let image := job_image (df_image d) job in
    if negb (is_safe_image_reference image) then Err (job_error key §" image must be a safe image reference")
    else
      let? timeout_seconds := match y1_timeout job with
                              | Some raw => parse_v1_timeout (jobs_field key §".timeout") (Some raw)
                              | None => Ok (df_timeout d)
                              end in
      let? required_tags := match y1_tags job with
                            | Some tags => normalize_v1_tags (jobs_field key §".tags") tags
                            | None => Ok (df_tags d)
                            end in
      let? required_secrets := normalize_v1_secret_names (jobs_field key §".secrets") (y1_secrets job) in
      let? artifact_paths := job_artifact_paths key job in
      let? needs := job_needs key job in
      Ok {| nj_key := key; nj_image := image; nj_commands := y1_commands job; nj_required_tags := required_tags;
            nj_required_secrets := required_secrets; nj_artifact_paths := artifact_paths;
            nj_timeout_seconds := timeout_seconds; nj_allow_failure := y1_allow_failure job; nj_needs := needs;
            nj_image_build := y1_image_build job; nj_image_publish := y1_image_publish job;
            nj_helm_deploy := y1_helm_deploy job; nj_workspace_deploy := y1_workspace_deploy job |}.

Definition insert_job (d : Defaults) (acc : gmap str NormalizedV1Job * Z) (entry : str * YamlV1Job)
  : result (gmap str NormalizedV1Job * Z) str :=
  let? job := normalize_job d entry.1 entry.2 in
  let edge_count := (acc.2 + zlen (nj_needs job))%Z in
  if (10000 <? edge_count)%Z then Err §".forge-ci.yml v1 supports at most 10000 DAG edges"
  else Ok (<[entry.1 := job]> acc.1, edge_count).

(** The references between jobs: the producers of Helm images, and needs. *)
Definition check_binding (jobs : gmap str NormalizedV1Job) (job : NormalizedV1Job) (_ : unit) (binding : ImageBinding)
  : result unit str :=
  let? producer := ok_or (jobs !! bd_job binding) §"helm_deploy references an unknown build job" in
  let? build := ok_or (nj_image_publish producer) §"helm_deploy accepts only typed image publication artifacts" in
  if negb (bool_decide (bd_job binding ∈ nj_needs job)) || negb (str_eqb (bd_artifact binding) (ip_published_artifact build))
  then Err §"helm_deploy image binding must match a required build and its publication artifact"
  else Ok tt.

Definition check_need (jobs : gmap str NormalizedV1Job) (job : NormalizedV1Job) (_ : unit) (need : str) : result unit str :=
  if str_eqb need (nj_key job) then Err (job_error (nj_key job) §" cannot depend on itself")
  else if is_none (jobs !! need) then Err (job_error (nj_key job) (§" depends on missing job '" ++ need ++ §"'"))
  else Ok tt.

Definition check_references (jobs : gmap str NormalizedV1Job) (_ : unit) (job : NormalizedV1Job) : result unit str :=
  let? _ := match nj_helm_deploy job with
            | Some deploy => rfold (check_binding jobs job) tt (values (hd_images deploy))
            | None => Ok tt
            end in
  rfold (check_need jobs job) tt (nj_needs job).

(** [grouped.entry(level).or_default().push(job)] over the jobs in key order. *)
Definition group_job (levels : gmap str Z) (grouped : gmap Z (list NormalizedV1Job)) (entry : str * NormalizedV1Job)
  : gmap Z (list NormalizedV1Job) :=
  let level := default 0%Z (levels !! entry.1) in
  <[ level := default [] (grouped !! level) ++ [entry.2] ]> grouped.

Definition group_jobs (levels : gmap str Z) (jobs : gmap str NormalizedV1Job) : gmap Z (list NormalizedV1Job) :=
  foldl (group_job levels) ∅ (bindings jobs).

(** [grouped.into_values()]: in the order of the levels. *)
Definition into_values (grouped : gmap Z (list NormalizedV1Job)) : list (list NormalizedV1Job) :=
  omap (fun level => grouped !! level) (merge_sort Z.le (elements (dom grouped))).

Definition v1_runtime_command (commands : list str) : str := §"set -e" ++ [10%N] ++ join [10%N] commands.

Definition job_command (job : NormalizedV1Job) : str :=
  if is_some (nj_helm_deploy job) then §"forge:helm-deploy"
  else if is_some (nj_image_publish job) then §"forge:image-publish"
  else if is_some (nj_image_build job) then §"forge:image-build"
  else v1_runtime_command (nj_commands job).

Definition stage_name (stage_position : Z) : str := §"dag-" ++ show_Z stage_position.

Definition ci_job (job : NormalizedV1Job) : CiJob :=
  {| cj_name := nj_key job; cj_image := nj_image job; cj_command := job_command job;
     cj_required_tags := nj_required_tags job; cj_required_secrets := nj_required_secrets job;
     cj_artifact_paths := nj_artifact_paths job; cj_timeout_seconds := nj_timeout_seconds job;
     cj_allow_failure := nj_allow_failure job; cj_manual := false |}.

Definition plan_job (stage_position : Z) (job_position : nat) (job : NormalizedV1Job) : V1PlanJob :=
  {| pj_key := nj_key job; pj_stage := stage_name stage_position; pj_stage_position := stage_position;
     pj_position := Z.of_nat job_position; pj_image := nj_image job; pj_commands := nj_commands job;
     pj_command := job_command job; pj_required_tags := nj_required_tags job;
     pj_required_secrets := nj_required_secrets job; pj_artifact_paths := nj_artifact_paths job;
     pj_timeout_seconds := nj_timeout_seconds job; pj_allow_failure := nj_allow_failure job;
     pj_needs := nj_needs job; pj_image_build := nj_image_build job; pj_image_publish := nj_image_publish job;
     pj_helm_deploy := nj_helm_deploy job; pj_workspace_deploy := nj_workspace_deploy job |}.

Definition v1_stage (stage_position : nat) (jobs : list NormalizedV1Job) : CiStage :=
  {| cs_name := stage_name (Z.of_nat stage_position); cs_jobs := map ci_job jobs |}.

Definition v1_dependencies (plan_jobs : list V1PlanJob) : list LegacyPlanDependency :=
  flat_map (fun job => map (fun need => {| dep_from := need; dep_to := pj_key job |}) (pj_needs job)) plan_jobs.

(** The jobs of the file, normalised and with their references checked. *)
Definition normalize_jobs (parsed : YamlV1Config) : result (gmap str NormalizedV1Job) str :=
  let? d := normalize_defaults parsed in
  let? acc := rfold (insert_job d) (∅, 0%Z) (bindings (yc_jobs parsed)) in
  let? _ := rfold (check_references acc.1) tt (values acc.1) in
  Ok acc.1.

(** The stages and the plan jobs, level by level. *)
Definition stage_jobs (grouped : list (list NormalizedV1Job)) : list CiStage * list V1PlanJob :=
  (imap v1_stage grouped, concat (imap (fun i jobs => imap (plan_job (Z.of_nat i)) jobs) grouped)).

(** [parse_v1_pipeline_config] after [serde_yaml::from_str]. *)
Definition compile_v1 (parsed : YamlV1Config) : result ParsedPipelineConfig str :=
  if negb (yc_version parsed =? 1)%Z then Err §"unsupported .forge-ci.yml version; only version: 1 is supported"
  else if is_empty (bindings (yc_jobs parsed)) then Err §".forge-ci.yml v1 must define at least one job"
  else if (500 <? zlen (bindings (yc_jobs parsed)))%Z then Err §".forge-ci.yml v1 supports at most 500 jobs"
  else
    let? jobs := normalize_jobs parsed in
    let? levels := compute_v1_job_levels nj_needs jobs in
    let '(stages, plan_jobs) := stage_jobs (into_values (group_jobs levels jobs)) in
    let? _ := validate_ci_stages stages in
    Ok {| pc_stages := stages;
          pc_plan := V1 {| vp_jobs := plan_jobs; vp_dependencies := v1_dependencies plan_jobs |} |}.

Context `{Yaml}.

Definition yaml_error (prefix error : str) : str := §"invalid .forge-ci.yml" ++ prefix ++ error.

Definition map_err {A} (f : str -> str) (r : result A str) : result A str :=
  match r with Ok a => Ok a | Err e => Err (f e) end.

Definition parse_legacy_pipeline_config (raw : str) : result ParsedPipelineConfig str :=
  let? parsed := map_err (yaml_error §": ") (yaml_legacy raw) in compile_legacy parsed.

Definition parse_v1_pipeline_config (raw : str) : result ParsedPipelineConfig str :=
  let? parsed := map_err (yaml_error §" v1: ") (yaml_v1 raw) in compile_v1 parsed.

Definition parse_pipeline_config (raw : option str) : result ParsedPipelineConfig str :=
  match raw with
  | None => Ok {| pc_stages := default_pipeline; pc_plan := Legacy |}
  | Some raw =>
    if (1024 * 1024 <? len raw)%Z then Err §".forge-ci.yml must be no larger than 1 MiB"
    else
      let? root := map_err (yaml_error §": ") (yaml_root raw) in
      match root with
      | RootOther => Err §".forge-ci.yml must be a YAML object"
      | RootMapping has_version =>
        if has_version then parse_v1_pipeline_config raw else parse_legacy_pipeline_config raw
      end
  end.
End compile.

(** ** Helm rollback *)

(** [helm_rollback_only]: reduces the plan to the one job that deploys to the
    environment. *)
Definition deploys_to (environment : Uuid) (job : V1PlanJob) : bool :=
  match pj_helm_deploy job with Some spec => (hd_environment_id spec =? environment)%N | None => false end.

Definition helm_rollback_only (c : ParsedPipelineConfig) (environment : Uuid) : result ParsedPipelineConfig str :=
  match pc_plan c with
  | Legacy => Err §"Qualified Helm rollback requires its original typed pipeline"
  | V1 plan =>
    match filter (fun job => deploys_to environment job = true) (vp_jobs plan) with
    | [selected] =>
      let job := {| pj_key := pj_key selected; pj_stage := pj_stage selected; pj_stage_position := 0; pj_position := 0;
                    pj_image := pj_image selected; pj_commands := pj_commands selected; pj_command := pj_command selected;
                    pj_required_tags := pj_required_tags selected; pj_required_secrets := pj_required_secrets selected;
                    pj_artifact_paths := pj_artifact_paths selected; pj_timeout_seconds := pj_timeout_seconds selected;
                    pj_allow_failure := pj_allow_failure selected; pj_needs := [];
                    pj_image_build := pj_image_build selected; pj_image_publish := pj_image_publish selected;
                    pj_helm_deploy := pj_helm_deploy selected; pj_workspace_deploy := pj_workspace_deploy selected |} in
      Ok {| pc_stages := [ {| cs_name := pj_stage job;
                              cs_jobs := [ {| cj_name := pj_key job; cj_image := pj_image job; cj_command := pj_command job;
                                              cj_required_tags := pj_required_tags job;
                                              cj_required_secrets := pj_required_secrets job;
                                              cj_artifact_paths := pj_artifact_paths job;
                                              cj_timeout_seconds := pj_timeout_seconds job;
                                              cj_allow_failure := false; cj_manual := false |} ] |} ];
            pc_plan := V1 {| vp_jobs := [job]; vp_dependencies := [] |} |}
    | _ => Err §"Rollback must select exactly one environment job"
    end
  end.
