(* ===== verification/LegacyPlan.v ===== *)
(** * The linear plan

    Facts about [validate_ci_stages], the legacy parser and
    [build_legacy_execution_plan] of [Pipeline]. *)
From S2P Require Import Prelude Url Artifacts Images Helm JobFields Dag Pipeline.

(** ** Validated stages *)

Definition good_job (job : CiJob) : Prop :=
  trim (cj_name job) <> [] /\ trim (cj_command job) <> [] /\ is_safe_image_reference (cj_image job) = true /\
  (forall tag, tag ∈ cj_required_tags job -> is_valid_runner_tag tag = true) /\
  (forall secret, secret ∈ cj_required_secrets job -> is_valid_v1_secret_name secret = true).

Lemma bad_job_false job : bad_job job = false <-> good_job job.
Proof.
  unfold bad_job, good_job. rewrite !orb_false_iff, negb_false_iff, !is_empty_false, !existsb_false_iff.
  setoid_rewrite negb_false_iff. tauto.
Qed.

Lemma validate_ci_stages_iff stages :
  validate_ci_stages stages = Ok tt <->
  stages <> [] /\ forall stage, stage ∈ stages ->
    trim (cs_name stage) <> [] /\ cs_jobs stage <> [] /\ forall job, job ∈ cs_jobs stage -> good_job job.
Proof.
  unfold validate_ci_stages. destruct (is_empty stages) eqn:Es.
  - apply is_empty_true in Es. split; [done|by intros [? _]].
  - apply is_empty_false in Es. rewrite rfold_check.
    assert (H : forall stage, validate_stage tt stage = Ok tt <->
      trim (cs_name stage) <> [] /\ cs_jobs stage <> [] /\ forall job, job ∈ cs_jobs stage -> good_job job).
    { intros stage. unfold validate_stage. destruct (_ || _) eqn:E.
      - apply orb_true_iff in E. rewrite !is_empty_true in E. split; [done|]. intros (? & ? & _). destruct E; done.
      - apply orb_false_iff in E as [E1%is_empty_false E2%is_empty_false]. rewrite rfold_check.
        setoid_rewrite <- bad_job_false. unfold validate_job.
        split; [intros Hj; split_and!; [done|done|]; intros job Hin; specialize (Hj job Hin); by destruct (bad_job job)
               |intros (_ & _ & Hj) job Hin; by rewrite (Hj job Hin)]. }
    setoid_rewrite H. tauto.
Qed.

(** ** Keys of the linear plan *)

Lemma show_Z_no_slash n : (0 <= n)%Z -> 47%N ∉ show_Z n.
Proof.
  intros Hn Hin. rewrite show_Z_nonneg in Hin by done. apply show_nonneg_digits in Hn.
  rewrite forallb_iff in Hn. specialize (Hn _ Hin). done.
Qed.

Lemma app_sep_inj (c : N) a b a' b' : c ∉ a -> c ∉ a' -> a ++ c :: b = a' ++ c :: b' -> a = a' /\ b = b'.
Proof.
  intros Ha Ha' E. assert (a = a') as ->.
  { apply (f_equal (split c)) in E. rewrite !split_app in E by done. congruence. }
  apply app_inv_head in E. by injection E.
Qed.

Lemma legacy_key_inj i j i' j' :
  (0 <= i)%Z -> (0 <= j)%Z -> (0 <= i')%Z -> (0 <= j')%Z -> legacy_key i j = legacy_key i' j' -> i = i' /\ j = j'.
Proof.
  intros Hi Hj Hi' Hj' E. unfold legacy_key in E. apply app_inv_head in E.
  change (§"/job-") with (47%N :: §"job-") in E. cbn [app] in E.
  apply app_sep_inj in E as [E1 E2]; [|by apply show_Z_no_slash..]. apply app_inv_head in E2.
  rewrite !show_Z_nonneg in E1, E2 by done. split; by apply show_nonneg_inj.
Qed.

(** The keys of the jobs of stage [i]. *)
Definition stage_keys (stages : list CiStage) (i : nat) : list str :=
  match stages !! i with
  | Some s => imap (fun j _ => legacy_key (Z.of_nat i) (Z.of_nat j)) (cs_jobs s)
  | None => []
  end.

Definition keys_at (n : nat) (s : CiStage) : list str :=
  imap (fun j _ => legacy_key (Z.of_nat n) (Z.of_nat j)) (cs_jobs s).

Lemma planned_keys s n needs :
  map lj_key (imap (plan_legacy_job s (Z.of_nat n) needs) (cs_jobs s)) = keys_at n s.
Proof. unfold keys_at. apply list_eq. intros j. rewrite list_lookup_fmap, !list_lookup_imap. by destruct (cs_jobs s !! j). Qed.

(** What stage [i] of the plan is, with the keys the loop carries. *)
Definition carried (n : nat) (prev : list str) (stages : list CiStage) (i : nat) : list str :=
  match i with
  | O => prev
  | S i' => match stages !! i' with Some s => keys_at (n + i') s | None => [] end
  end.

Definition planned_stage (n : nat) (needs : list str) (s : CiStage) : LegacyPlanStage :=
  {| ls_name := cs_name s; ls_position := Z.of_nat n;
     ls_jobs := imap (plan_legacy_job s (Z.of_nat n) needs) (cs_jobs s) |}.

Lemma plan_stages_cons n prev s rest :
  plan_legacy_stages n prev (s :: rest) =
  (planned_stage n prev s :: (plan_legacy_stages (S n) (keys_at n s) rest).1,
   flat_map job_dependencies (ls_jobs (planned_stage n prev s)) ++ (plan_legacy_stages (S n) (keys_at n s) rest).2).
Proof.
  cbn [plan_legacy_stages]. rewrite planned_keys. by destruct (plan_legacy_stages (S n) (keys_at n s) rest).
Qed.

Lemma plan_stages_lookup stages n prev i :
  (plan_legacy_stages n prev stages).1 !! i =
  (fun s => planned_stage (n + i) (carried n prev stages i) s) <$> stages !! i.
Proof.
  revert n prev i. induction stages as [|s rest IH]; intros n prev i; [done|].
  rewrite plan_stages_cons. cbn [fst]. destruct i as [|i]; cbn [lookup list_lookup fmap option_fmap option_map].
  - by rewrite Nat.add_0_r.
  - rewrite IH. rewrite Nat.add_succ_comm. destruct i as [|i]; cbn [carried lookup list_lookup].
    + by rewrite Nat.add_0_r.
    + by rewrite Nat.add_succ_comm.
Qed.

Lemma plan_stages_deps stages n prev d :
  d ∈ (plan_legacy_stages n prev stages).2 <->
  exists i s, stages !! i = Some s /\ dep_to d ∈ keys_at (n + i) s /\ dep_from d ∈ carried n prev stages i.
Proof.
  revert n prev. induction stages as [|s rest IH]; intros n prev.
  { split; [by intros ?%elem_of_nil|]. by intros (i & s & H & _). }
  rewrite plan_stages_cons. cbn [snd]. rewrite elem_of_app, IH.
  assert (Hflat : d ∈ flat_map job_dependencies (ls_jobs (planned_stage n prev s)) <->
                  dep_to d ∈ keys_at n s /\ dep_from d ∈ prev).
  { rewrite list_elem_of_In, in_flat_map. setoid_rewrite <- list_elem_of_In. cbn [ls_jobs planned_stage].
    split.
    - intros (lj & Hlj & Hd). unfold job_dependencies in Hd. apply list_elem_of_fmap in Hd as (p & -> & Hp).
      cbn [dep_to dep_from]. rewrite <- (planned_keys s n prev). split; [by apply list_elem_of_fmap_2|].
      apply elem_of_lookup_imap in Hlj as (j & job & -> & Hjob). done.
    - intros [Ht Hf]. rewrite <- (planned_keys s n prev) in Ht. apply list_elem_of_fmap in Ht as (lj & Ht & Hlj).
      exists lj. split; [done|]. apply elem_of_lookup_imap in Hlj as (j & job & -> & Hjob).
      unfold job_dependencies. apply list_elem_of_fmap. exists (dep_from d). split; [|done].
      destruct d; cbn in *; by subst. }
  rewrite Hflat. split.
  - intros [[Ht Hf]|(i & s' & Hi & Ht & Hf)].
    + exists O, s. rewrite Nat.add_0_r. done.
    + exists (S i), s'. rewrite <- Nat.add_succ_comm. split_and!; [done|done|].
      destruct i as [|i]; cbn [carried lookup list_lookup] in *; [by rewrite Nat.add_0_r|by rewrite <- Nat.add_succ_comm].
  - intros (i & s' & Hi & Ht & Hf). destruct i as [|i].
    + injection Hi as <-. rewrite Nat.add_0_r in Ht. by left.
    + right. exists i, s'. rewrite <- Nat.add_succ_comm in Ht. split_and!; [done|done|].
      destruct i as [|i]; cbn [carried lookup list_lookup] in *; [by rewrite Nat.add_0_r in Hf|by rewrite <- Nat.add_succ_comm in Hf].
Qed.

(** ** Properties *)

Section plan.
Context (git_ref : str) (sha : option str) (source : str).
Let plan := build_legacy_execution_plan git_ref sha source.

Lemma build_legacy_stages stages : lp_stages (plan stages) = (plan_legacy_stages 0 [] stages).1.
Proof. unfold plan, build_legacy_execution_plan. by destruct (plan_legacy_stages 0 [] stages). Qed.

Lemma build_legacy_deps stages : lp_dependencies (plan stages) = (plan_legacy_stages 0 [] stages).2.
Proof. unfold plan, build_legacy_execution_plan. by destruct (plan_legacy_stages 0 [] stages). Qed.

Lemma carried_keys stages i : carried 0 [] stages i = match i with O => [] | S i' => stage_keys stages i' end.
Proof. destruct i as [|i]; [done|]. cbn [carried Nat.add]. unfold stage_keys, keys_at. done. Qed.

(** The linear plan keeps every stage and every job in order, with its fields;
    job [j] of stage [i] has the key [stage-i/job-j], no two jobs share a
    key, every job needs exactly the jobs of the stage before, and the
    dependency list holds exactly those edges. *)
Theorem legacy_plan_linear stages :
  length (lp_stages (plan stages)) = length stages /\
  (forall i ls, lp_stages (plan stages) !! i = Some ls <->
     exists s, stages !! i = Some s /\ ls_name ls = cs_name s /\ ls_position ls = Z.of_nat i /\
       ls_jobs ls = imap (plan_legacy_job s (Z.of_nat i) (match i with O => [] | S i' => stage_keys stages i' end)) (cs_jobs s)) /\
  (forall i j s, stages !! i = Some s -> stage_keys stages i !! j =
     (fun _ => legacy_key (Z.of_nat i) (Z.of_nat j)) <$> cs_jobs s !! j) /\
  (forall i j i' j', legacy_key (Z.of_nat i) (Z.of_nat j) = legacy_key (Z.of_nat i') (Z.of_nat j') -> i = i' /\ j = j') /\
  (forall d, d ∈ lp_dependencies (plan stages) <->
     exists i, dep_from d ∈ stage_keys stages i /\ dep_to d ∈ stage_keys stages (S i)).
Proof.
  assert (Hlook : forall i, lp_stages (plan stages) !! i =
    (fun s => planned_stage i (match i with O => [] | S i' => stage_keys stages i' end) s) <$> stages !! i).
  { intros i. rewrite build_legacy_stages, plan_stages_lookup, carried_keys. done. }
  split_and!.
  - apply Nat.le_antisymm; apply Nat.le_ngt; intros Hlt.
    + apply lookup_lt_is_Some in Hlt. rewrite Hlook, (lookup_ge_None_2 stages) in Hlt by done. by destruct Hlt.
    + apply lookup_lt_is_Some in Hlt as [s Hs]. pose proof (Hlook (length (lp_stages (plan stages)))) as E.
      rewrite Hs, lookup_ge_None_2 in E by done. done.
  - intros i ls. rewrite Hlook, fmap_Some. split.
    + intros (s & Hs & ->). exists s. done.
    + intros (s & Hs & Hn & Hp & Hj). exists s. split; [done|]. destruct ls; cbn in *. by subst.
  - intros i j s Hs. unfold stage_keys. rewrite Hs, list_lookup_imap. done.
  - intros i j i' j' E. apply legacy_key_inj in E as [? ?]; lia.
  - intros d. rewrite build_legacy_deps, plan_stages_deps. split.
    + intros (i & s & Hs & Ht & Hf). rewrite carried_keys in Hf.
      destruct i as [|i]; [by apply elem_of_nil in Hf|]. exists i. split; [done|]. unfold stage_keys. by rewrite Hs.
    + intros (i & Hf & Ht). unfold stage_keys in Ht at 1. destruct (stages !! S i) as [s|] eqn:Hs; [|by apply elem_of_nil in Ht].
      exists (S i), s. rewrite carried_keys. done.
Qed.
End plan.
