(* ===== verification/V1Plan.v ===== *)
(** * The version 1 plan

    Facts about [compile_v1] of [Pipeline]: the normalised jobs, their levels,
    and the stages and dependencies of the plan. *)
From S2P Require Import Prelude Url Artifacts Images Helm JobFields Dag Pipeline LegacyPlan.

(** ** Consecutive levels *)

Lemma seqZ_sorted m : StronglySorted Z.le (seqZ 0 (Z.of_nat m)).
Proof.
  induction m as [|m IH]; [constructor|]. rewrite seqZ_S. apply StronglySorted_app_2; [|done|repeat constructor].
  intros x y Hx%elem_of_seqZ Hy%list_elem_of_singleton. lia.
Qed.

(** A finite set of numbers that holds with each the smaller ones is an initial
    segment. *)
Lemma initial_segment (D : gset Z) (N : nat) :
  (forall l, l ∈ D -> (0 <= l < Z.of_nat N)%Z) -> (forall l i, l ∈ D -> (0 <= i <= l)%Z -> i ∈ D) ->
  exists m : nat, forall l, l ∈ D <-> (0 <= l < Z.of_nat m)%Z.
Proof.
  induction N as [|N IH]; intros Hb Hd.
  - exists O. intros l. split; [by apply Hb|lia].
  - destruct (decide (Z.of_nat N ∈ D)) as [HN|HN].
    + exists (S N). intros l. split; [apply Hb|]. intros Hl. apply (Hd _ _ HN). lia.
    + apply IH; [|done]. intros l Hl. specialize (Hb l Hl). assert (l <> Z.of_nat N) by (intros ->; done). lia.
Qed.

Lemma sorted_segment (D : gset Z) (m : nat) :
  (forall l, l ∈ D <-> (0 <= l < Z.of_nat m)%Z) -> merge_sort Z.le (elements D) = seqZ 0 (Z.of_nat m).
Proof.
  intros HD. apply (StronglySorted_unique Z.le); [apply (StronglySorted_merge_sort _)|apply seqZ_sorted|].
  rewrite merge_sort_Permutation. apply NoDup_Permutation; [apply NoDup_elements|apply NoDup_seqZ|].
  intros l. rewrite elem_of_elements, HD, elem_of_seqZ. lia.
Qed.

(** ** Grouping by level *)

Section grouping.
Context (levels : gmap str Z).

Definition level_at (e : str * NormalizedV1Job) : Z := default 0%Z (levels !! e.1).

(** The entries of level [l], in the order of the list. *)
Definition at_level (es : list (str * NormalizedV1Job)) (l : Z) : list (str * NormalizedV1Job) :=
  filter (fun e => level_at e = l) es.

Lemma group_fold es l :
  foldl (group_job levels) ∅ es !! l =
  (if is_empty (at_level es l) then None else Some (map snd (at_level es l))).
Proof.
  induction es as [|e es IH] using rev_ind; [exact (lookup_empty l)|].
  rewrite foldl_app. cbn [foldl]. unfold group_job at 1. fold (level_at e). unfold at_level in *.
  rewrite filter_app, filter_cons, filter_nil. destruct (decide (level_at e = l)) as [<-|Hne].
  - rewrite lookup_insert_eq, IH. destruct (filter _ es) as [|x r]; [done|]. cbn. by rewrite map_app.
  - rewrite lookup_insert_ne by done. by rewrite IH, app_nil_r.
Qed.

Definition jobs_at (jobs : gmap str NormalizedV1Job) (l : Z) : list NormalizedV1Job :=
  map snd (at_level (bindings jobs) l).

Lemma elem_of_jobs_at jobs l job :
  job ∈ jobs_at jobs l <-> exists k, jobs !! k = Some job /\ default 0%Z (levels !! k) = l.
Proof.
  unfold jobs_at, at_level. rewrite list_elem_of_fmap. setoid_rewrite list_elem_of_filter. split.
  - intros ([k j] & -> & Hl & Hb%elem_of_bindings). by exists k.
  - intros (k & Hk & Hl). exists (k, job). split_and!; [done|done|by apply elem_of_bindings].
Qed.

(** With the levels of a closed graph, the groups are the levels 0, 1, ... *)
Lemma grouped_values jobs :
  closed nj_needs jobs -> is_levels nj_needs jobs levels ->
  exists m : nat, into_values (group_jobs levels jobs) = map (jobs_at jobs) (seqZ 0 (Z.of_nat m)) /\
    (forall k job, jobs !! k = Some job -> exists l, levels !! k = Some l /\ (0 <= l < Z.of_nat m)%Z) /\
    (forall l, (0 <= l < Z.of_nat m)%Z -> jobs_at jobs l <> []).
Proof.
  intros Hc Hl. set (D := dom (group_jobs levels jobs)).
  assert (HD : forall l, l ∈ D <-> exists k, levels !! k = Some l).
  { intros l. unfold D, group_jobs. rewrite elem_of_dom, group_fold. split.
    - destruct (at_level (bindings jobs) l) as [|[k j] r] eqn:E; [by intros []|]. intros _.
      assert (Hin : (k, j) ∈ at_level (bindings jobs) l) by (rewrite E; left).
      apply list_elem_of_filter in Hin as [Hlv Hb%elem_of_bindings]. exists k.
      destruct (proj2 (proj1 Hl k) ltac:(eauto)) as [x Hx]. unfold level_at in Hlv. cbn in Hlv. rewrite Hx in Hlv. cbn in Hlv. by subst.
    - intros [k Hk]. destruct (proj1 (proj1 Hl k) ltac:(eauto)) as [j Hj].
      assert (Hin : (k, j) ∈ at_level (bindings jobs) l).
      { apply list_elem_of_filter. split; [unfold level_at; cbn; by rewrite Hk|by apply elem_of_bindings]. }
      destruct (at_level (bindings jobs) l); [by apply elem_of_nil in Hin|]. by eexists. }
  destruct (initial_segment D (size jobs)) as [m Hm].
  { intros l [k Hk]%HD. by eapply is_levels_bound. }
  { intros l i [k Hk]%HD Hi. apply HD. by eapply is_levels_below. }
  exists m. assert (Hne : forall l, (0 <= l < Z.of_nat m)%Z -> group_jobs levels jobs !! l = Some (jobs_at jobs l) /\ jobs_at jobs l <> []).
  { intros l Hlm. apply Hm in Hlm. unfold D in Hlm. apply elem_of_dom in Hlm. unfold group_jobs, jobs_at in *.
    rewrite group_fold in *. by destruct (at_level (bindings jobs) l); [destruct Hlm|]. }
  split_and!.
  - unfold into_values. fold D. rewrite (sorted_segment D m Hm).
    assert (Hall : forall ls, (forall l, l ∈ ls -> (0 <= l < Z.of_nat m)%Z) ->
              omap (fun level => group_jobs levels jobs !! level) ls = map (jobs_at jobs) ls).
    { induction ls as [|l ls IH]; intros H; [done|]. cbn [omap list_omap map].
      rewrite (proj1 (Hne l (H l ltac:(left)))). f_equal. apply IH. intros x Hx. apply H. by right. }
    apply Hall. intros l Hin%elem_of_seqZ. lia.
  - intros k job Hk. destruct (proj2 (proj1 Hl k) ltac:(eauto)) as [l Hlk]. exists l. split; [done|].
    apply Hm, HD. eauto.
  - intros l Hlm. by apply Hne.
Qed.
End grouping.

(** ** The normalised jobs *)

Section jobs.
Context `{UrlCrate}.

Lemma normalize_job_key d k y job : normalize_job d k y = Ok job -> nj_key job = k.
Proof. unfold normalize_job. intros E. ok_inv E. by subst job. Qed.

Lemma job_needs_spec key y ns :
  job_needs key y = Ok ns ->
  NoDup ns /\ ns ≡ₚ y1_needs y /\ (zlen ns <= 64)%Z /\ forall n, n ∈ ns -> is_valid_v1_job_key n = true.
Proof.
  unfold job_needs. intros E. ok_inv E. bool_norm. subst ns.
  assert (Hf : forall todo acc out, NoDup acc.2 -> (forall x, x ∈ acc.1 <-> x ∈ acc.2) ->
    (forall x, x ∈ acc.2 -> is_valid_v1_job_key x = true) ->
    rfold (push_need key) acc todo = Ok out ->
    NoDup out.2 /\ out.2 = acc.2 ++ todo /\ forall x, x ∈ out.2 -> is_valid_v1_job_key x = true).
  { induction todo as [|x todo IH]; intros acc out Hn Hm Hv; cbn [rfold].
    - intros [= <-]. by rewrite app_nil_r.
    - unfold push_need at 1. destruct (negb _) eqn:Ev; [done|]. destruct (bool_decide _) eqn:Ei; [done|]. cbn [rbind].
      apply negb_false_iff in Ev. apply bool_decide_eq_false in Ei. intros Hr. apply IH in Hr as (Ho & Heq & Hv').
      + cbn [snd] in Heq. rewrite <- app_assoc in Heq. done.
      + cbn [snd]. apply NoDup_app. split_and!; [done| |apply NoDup_singleton].
        intros y' Hy ->%list_elem_of_singleton. by apply Ei, Hm.
      + cbn [fst snd]. intros z. rewrite elem_of_union, elem_of_singleton, elem_of_app, list_elem_of_singleton, Hm. tauto.
      + cbn [snd]. intros z. rewrite elem_of_app, list_elem_of_singleton. intros [?| ->]; auto. }
  destruct (Hf _ _ _ (NoDup_nil_2 : NoDup (∅ : gset str, [] : list str).2) ltac:(cbn; set_solver)
    ltac:(cbn; by intros x ?%elem_of_nil) Hok) as (Hn & Heq & Hv). cbn [snd app] in Heq. split_and!.
  - by rewrite merge_sort_Permutation.
  - by rewrite merge_sort_Permutation, Heq.
  - unfold zlen. rewrite merge_sort_Permutation, Heq. done.
  - intros n. rewrite merge_sort_Permutation. apply Hv.
Qed.

Lemma normalize_job_needs d k y job :
  normalize_job d k y = Ok job ->
  NoDup (nj_needs job) /\ nj_needs job ≡ₚ y1_needs y /\ (zlen (nj_needs job) <= 64)%Z.
Proof.
  unfold normalize_job. intros E. ok_inv E. subst job. cbn [nj_needs].
  match goal with Hn : job_needs k y = Ok _ |- _ => apply job_needs_spec in Hn as (? & ? & ? & _) end. done.
Qed.

Lemma insert_jobs_spec d m jobs n :
  rfold (insert_job d) (∅, 0%Z) (bindings m) = Ok (jobs, n) ->
  (forall k, is_Some (jobs !! k) <-> is_Some (m !! k)) /\
  (forall k job, jobs !! k = Some job -> exists y, m !! k = Some y /\ normalize_job d k y = Ok job) /\ (n <= 10000)%Z.
Proof.
  intros Hr.
  assert (Hinv : (forall k, is_Some (jobs !! k) <-> exists y, (k, y) ∈ bindings m) /\
                 (forall k job, jobs !! k = Some job -> exists y, (k, y) ∈ bindings m /\ normalize_job d k y = Ok job) /\
                 (n <= 10000)%Z).
  { change jobs with (jobs, n).1. change n with (jobs, n).2 at 2.
    eapply (rfold_invariant (insert_job d) (fun done_ acc =>
      (forall k, is_Some (acc.1 !! k) <-> exists y, (k, y) ∈ done_) /\
      (forall k job, acc.1 !! k = Some job -> exists y, (k, y) ∈ done_ /\ normalize_job d k y = Ok job) /\
      (acc.2 <= 10000)%Z)); [| |exact Hr].
    - cbn [fst snd]. split_and!; [|intros k job; by rewrite lookup_empty|lia].
      intros k. rewrite lookup_empty. split; [by intros []|]. by intros (y & ?%elem_of_nil).
    - intros pre [k y] post acc acc' Hpre (H1 & H2 & H3) Hb. unfold insert_job in Hb. cbn [fst snd] in Hb.
      ok_inv Hb. subst acc'. cbn [fst snd]. bool_norm. setoid_rewrite elem_of_app.
      setoid_rewrite list_elem_of_singleton. split_and!; [| |done].
      + intros k'. destruct (decide (k' = k)) as [->|Hne].
        * rewrite lookup_insert_eq. split; [|by eexists]. intros _. exists y. by right.
        * rewrite lookup_insert_ne by done. rewrite H1. split; [intros [y' ?]; eauto|].
          intros (y' & [?|[= -> ->]]); [eauto|done].
      + intros k' job. destruct (decide (k' = k)) as [->|Hne].
        * rewrite lookup_insert_eq. intros [= <-]. exists y. split; [by right|done].
        * rewrite lookup_insert_ne by done. intros Hj. destruct (H2 _ _ Hj) as (y' & ? & ?). exists y'. auto. }
  destruct Hinv as (H1 & H2 & H3). setoid_rewrite elem_of_bindings in H1. setoid_rewrite elem_of_bindings in H2. done.
Qed.

Lemma normalize_jobs_spec parsed jobs :
  normalize_jobs parsed = Ok jobs ->
  exists d, normalize_defaults parsed = Ok d /\
    (forall k, is_Some (jobs !! k) <-> is_Some (yc_jobs parsed !! k)) /\
    (forall k job, jobs !! k = Some job -> nj_key job = k /\
       exists y, yc_jobs parsed !! k = Some y /\ normalize_job d k y = Ok job) /\
    (forall k job, jobs !! k = Some job -> check_references jobs tt job = Ok tt).
Proof.
  unfold normalize_jobs. intros E. ok_inv E. subst jobs. destruct a0 as [jobs n]. cbn [fst snd] in *.
  exists a. apply insert_jobs_spec in Hok0 as (H1 & H2 & _). split_and!; [done|done| |].
  - intros k job Hj. destruct (H2 k job Hj) as (y & Hy & Hn). split; [by eapply normalize_job_key|by exists y].
  - intros k job Hj. destruct a1. rewrite rfold_check in Hok1. apply Hok1, elem_of_values. by exists k.
Qed.

(** After the reference checks, every need is another existing job. *)
Lemma check_references_needs jobs job n :
  check_references jobs tt job = Ok tt -> n ∈ nj_needs job -> n <> nj_key job /\ is_Some (jobs !! n).
Proof.
  unfold check_references. intros E Hn. apply rbind_Ok_inv in E as (_ & _ & E). cbn beta in E.
  rewrite rfold_check in E. specialize (E n Hn). unfold check_need in E. ok_inv E. bool_norm.
  split; [done|]. by destruct (jobs !! n).
Qed.

Lemma normalize_jobs_closed parsed jobs : normalize_jobs parsed = Ok jobs -> closed nj_needs jobs.
Proof.
  intros (d & _ & _ & _ & Hr)%normalize_jobs_spec k n (job & Hj & Hn).
  by apply (check_references_needs jobs job n (Hr k job Hj)).
Qed.
End jobs.

(** ** The jobs of the plan *)

Definition plan_jobs_of (grouped : list (list NormalizedV1Job)) : list V1PlanJob := (stage_jobs grouped).2.

Lemma elem_of_plan_jobs grouped pj :
  pj ∈ plan_jobs_of grouped <->
  exists i p js job, grouped !! i = Some js /\ js !! p = Some job /\ pj = plan_job (Z.of_nat i) p job.
Proof.
  unfold plan_jobs_of, stage_jobs. cbn [snd]. rewrite list_elem_of_In, in_concat. setoid_rewrite <- list_elem_of_In.
  split.
  - intros (l & Hl & Hp). apply elem_of_lookup_imap in Hl as (i & js & -> & Hi).
    apply elem_of_lookup_imap in Hp as (p & job & -> & Hp). eauto 10.
  - intros (i & p & js & job & Hi & Hp & ->). eexists. split; [by eapply elem_of_lookup_imap_2|].
    by eapply elem_of_lookup_imap_2.
Qed.

Lemma plan_jobs_keys grouped : map pj_key (plan_jobs_of grouped) = concat (map (map nj_key) grouped).
Proof.
  unfold plan_jobs_of, stage_jobs. cbn [snd]. rewrite concat_map. f_equal. apply list_eq. intros i.
  rewrite !list_lookup_fmap, list_lookup_imap. destruct (grouped !! i) as [js|]; [|done]. cbn. f_equal.
  apply list_eq. intros p. rewrite !list_lookup_fmap, list_lookup_imap. by destruct (js !! p).
Qed.

Lemma NoDup_fst_filter levels (es : list (str * NormalizedV1Job)) l :
  NoDup (map fst es) -> NoDup (map fst (at_level levels es l)).
Proof.
  unfold at_level. induction es as [|e es IH]; intros He; [done|]. cbn [map] in He. apply NoDup_cons in He as [Hn He].
  rewrite filter_cons. destruct (decide _); [|by apply IH]. cbn [map]. apply NoDup_cons. split; [|by apply IH].
  intros Hin. apply Hn. apply list_elem_of_fmap in Hin as (e' & -> & [_ Hin]%list_elem_of_filter). by apply list_elem_of_fmap_2.
Qed.

Lemma NoDup_at_levels levels es ls :
  NoDup (map fst es) -> NoDup ls -> NoDup (concat (map (fun l => map fst (at_level levels es l)) ls)).
Proof.
  intros He. induction ls as [|l ls IH]; intros Hl; [apply NoDup_nil_2|]. apply NoDup_cons in Hl as [Hnin Hl].
  cbn [map concat]. apply NoDup_app. split_and!; [| |by apply IH].
  - by apply NoDup_fst_filter.
  - intros k Hk Hc. rewrite list_elem_of_In, in_concat in Hc. destruct Hc as (ks & Hks & Hin).
    apply list_elem_of_In, list_elem_of_fmap in Hks as (l' & -> & Hl'). apply list_elem_of_In in Hin.
    apply list_elem_of_fmap in Hk as ([k1 j1] & -> & H1), Hin as ([k2 j2] & E & H2). cbn in E. subst k2.
    apply list_elem_of_filter in H1 as [H1 _], H2 as [H2 _]. unfold level_at in *. cbn in *. congruence.
Qed.

Section plan.
Context `{UrlCrate}.

(** What a successful compilation consists of. *)
Record compiled (parsed : YamlV1Config) (c : ParsedPipelineConfig) (jobs : gmap str NormalizedV1Job)
  (levels : gmap str Z) (grouped : list (list NormalizedV1Job)) : Prop := {
  co_jobs : normalize_jobs parsed = Ok jobs;
  co_closed : closed nj_needs jobs;
  co_levels : is_levels nj_needs jobs levels;
  co_stages : pc_stages c = imap v1_stage grouped;
  co_plan : pc_plan c = V1 {| vp_jobs := plan_jobs_of grouped; vp_dependencies := v1_dependencies (plan_jobs_of grouped) |};
  co_valid : validate_ci_stages (pc_stages c) = Ok tt;
  co_size : (zlen (bindings (yc_jobs parsed)) <= 500)%Z;
  co_grouped : exists m : nat, grouped = map (jobs_at levels jobs) (seqZ 0 (Z.of_nat m)) /\
    forall k job, jobs !! k = Some job -> exists l, levels !! k = Some l /\ (0 <= l < Z.of_nat m)%Z }.

Lemma compile_v1_inv parsed c : compile_v1 parsed = Ok c -> exists jobs levels grouped, compiled parsed c jobs levels grouped.
Proof.
  unfold compile_v1. intros E. ok_inv E. destruct (stage_jobs _) as [stages plan_jobs] eqn:Es in E. ok_inv E. bool_norm.
  subst c. exists a, a0, (into_values (group_jobs a0 a)).
  pose proof (normalize_jobs_closed _ _ Hok) as Hc.
  assert (Hl : is_levels nj_needs a a0).
  { pose proof (compute_levels_post nj_needs a) as Hp. unfold compute_v1_job_levels in Hok0.
    destruct (compute_levels nj_needs a); [|done]. injection Hok0 as ->. apply Hp. }
  destruct (grouped_values a0 a Hc Hl) as (m & Hg & Hm & _). destruct a1.
  assert (Ep : plan_jobs_of (into_values (group_jobs a0 a)) = plan_jobs) by (unfold plan_jobs_of; by rewrite Es).
  unfold stage_jobs in Es. injection Es as Es1 _.
  split; cbn [pc_stages pc_plan]; rewrite ?Ep; try done. exists m. done.
Qed.

Lemma compiled_lookup parsed c jobs levels grouped i js :
  compiled parsed c jobs levels grouped -> grouped !! i = Some js -> js = jobs_at levels jobs (Z.of_nat i).
Proof.
  intros Hco Hi. destruct (co_grouped _ _ _ _ _ Hco) as (m & -> & _).
  apply list_lookup_fmap_Some in Hi as (l & -> & [-> _]%lookup_seqZ). done.
Qed.

(** The plan job of a normalised job, and back. *)
Lemma compiled_plan_job parsed c jobs levels grouped pj :
  compiled parsed c jobs levels grouped ->
  pj ∈ plan_jobs_of grouped <->
  exists job p l, jobs !! pj_key pj = Some job /\ levels !! pj_key pj = Some (Z.of_nat l) /\
    grouped !! l = Some (jobs_at levels jobs (Z.of_nat l)) /\
    jobs_at levels jobs (Z.of_nat l) !! p = Some job /\ pj = plan_job (Z.of_nat l) p job.
Proof.
  intros Hco. destruct (normalize_jobs_spec _ _ (co_jobs _ _ _ _ _ Hco)) as (d & _ & _ & Hk & _).
  rewrite elem_of_plan_jobs. split.
  - intros (i & p & js & job & Hi & Hp & ->). pose proof (compiled_lookup _ _ _ _ _ _ _ Hco Hi) as ->.
    assert (Hin : job ∈ jobs_at levels jobs (Z.of_nat i)) by (apply list_elem_of_lookup; eauto).
    apply elem_of_jobs_at in Hin as (k & Hj & Hl). destruct (Hk k job Hj) as [Hkey _].
    destruct (proj2 (proj1 (co_levels _ _ _ _ _ Hco) k) ltac:(eauto)) as [l Hlk]. rewrite Hlk in Hl. cbn in Hl. subst l.
    exists job, p, i. cbn [pj_key plan_job]. rewrite Hkey. done.
  - intros (job & p & l & _ & _ & Hi & Hp & ->). eauto 10.
Qed.

Lemma compiled_plan_job_ex parsed c jobs levels grouped k job :
  compiled parsed c jobs levels grouped -> jobs !! k = Some job ->
  exists pj, pj ∈ plan_jobs_of grouped /\ pj_key pj = k /\ levels !! k = Some (pj_stage_position pj) /\ pj_needs pj = nj_needs job.
Proof.
  intros Hco Hj. destruct (co_grouped _ _ _ _ _ Hco) as (m & Hg & Hm). destruct (Hm k job Hj) as (l & Hl & Hlm).
  assert (Hin : job ∈ jobs_at levels jobs l).
  { apply elem_of_jobs_at. exists k. rewrite Hl. done. }
  apply list_elem_of_lookup in Hin as [p Hp].
  destruct (normalize_jobs_spec _ _ (co_jobs _ _ _ _ _ Hco)) as (d & _ & _ & Hk & _).
  exists (plan_job l p job). cbn [pj_key pj_stage_position plan_job pj_needs]. destruct (Hk k job Hj) as [-> _].
  split_and!; try done. apply elem_of_plan_jobs. exists (Z.to_nat l), p, (jobs_at levels jobs l), job.
  rewrite Z2Nat.id by lia. split_and!; [|done|done]. rewrite Hg, list_lookup_fmap, lookup_seqZ_lt by lia.
  cbn. do 2 f_equal. lia.
Qed.

Lemma compiled_keys parsed c jobs levels grouped :
  compiled parsed c jobs levels grouped -> map pj_key (plan_jobs_of grouped) ≡ₚ keys (yc_jobs parsed).
Proof.
  intros Hco. destruct (normalize_jobs_spec _ _ (co_jobs _ _ _ _ _ Hco)) as (d & _ & Hdom & Hk & _).
  apply NoDup_Permutation; [|apply NoDup_keys|].
  - rewrite plan_jobs_keys. destruct (co_grouped _ _ _ _ _ Hco) as (m & -> & _). rewrite map_map.
    erewrite map_ext_in; [apply (NoDup_at_levels levels (bindings jobs)); [apply NoDup_keys|apply NoDup_seqZ]|].
    intros l _. unfold jobs_at. rewrite map_map. apply map_ext_in. intros [k j] Hin%list_elem_of_In.
    apply list_elem_of_filter in Hin as [_ Hb%elem_of_bindings]. by apply Hk.
  - intros k. rewrite elem_of_keys, <- Hdom, list_elem_of_fmap. split.
    + intros (pj & -> & Hpj). apply (compiled_plan_job _ _ _ _ _ _ Hco) in Hpj as (job & _ & _ & Hj & _). eauto.
    + intros [job Hj]. destruct (compiled_plan_job_ex _ _ _ _ _ _ _ Hco Hj) as (pj & Hin & <- & _). eauto.
Qed.

Lemma elem_of_v1_dependencies pjs d : d ∈ v1_dependencies pjs <-> exists pj, pj ∈ pjs /\ dep_to d = pj_key pj /\ dep_from d ∈ pj_needs pj.
Proof.
  unfold v1_dependencies. rewrite list_elem_of_In, in_flat_map. setoid_rewrite <- list_elem_of_In.
  setoid_rewrite list_elem_of_fmap. split.
  - intros (pj & Hpj & n & -> & Hn). by exists pj.
  - intros (pj & Hpj & Ht & Hf). exists pj. split; [done|]. exists (dep_from d). split; [|done]. destruct d; cbn in *. by subst.
Qed.

(** C1. A version 1 file that compiles yields a plan with every job of the file
    exactly once; the dependencies are exactly the declared needs; every
    dependency points to a strictly earlier stage, every job outside the
    first stage needs one of the stage directly before, and stages are
    numbered without gaps.  Running stages in order respects all needs. *)
Theorem v1_plan_topological parsed c :
  compile_v1 parsed = Ok c ->
  exists plan, pc_plan c = V1 plan /\
    map pj_key (vp_jobs plan) ≡ₚ keys (yc_jobs parsed) /\
    (forall d, d ∈ vp_dependencies plan <->
       exists job, yc_jobs parsed !! dep_to d = Some job /\ dep_from d ∈ y1_needs job) /\
    (forall a b, a ∈ vp_jobs plan -> b ∈ vp_jobs plan -> pj_key a ∈ pj_needs b ->
       (pj_stage_position a < pj_stage_position b)%Z) /\
    (forall b, b ∈ vp_jobs plan -> (0 < pj_stage_position b)%Z ->
       exists a, a ∈ vp_jobs plan /\ pj_key a ∈ pj_needs b /\ (pj_stage_position a + 1 = pj_stage_position b)%Z) /\
    (forall b, b ∈ vp_jobs plan -> (0 <= pj_stage_position b < zlen (pc_stages c))%Z).
Proof.
  intros (jobs & levels & grouped & Hco)%compile_v1_inv.
  destruct (normalize_jobs_spec _ _ (co_jobs _ _ _ _ _ Hco)) as (d & _ & Hdom & Hk & _).
  pose proof (co_levels _ _ _ _ _ Hco) as Hl. pose proof (co_closed _ _ _ _ _ Hco) as Hc.
  eexists. split; [apply (co_plan _ _ _ _ _ Hco)|]. cbn [vp_jobs vp_dependencies].
  assert (Hpj : forall pj, pj ∈ plan_jobs_of grouped -> exists job, jobs !! pj_key pj = Some job /\
            levels !! pj_key pj = Some (pj_stage_position pj) /\ pj_needs pj = nj_needs job /\
            (0 <= pj_stage_position pj < zlen (pc_stages c))%Z).
  { intros pj Hin. apply (compiled_plan_job _ _ _ _ _ _ Hco) in Hin as (job & p & l & Hj & Hlv & Hg & _ & ->).
    exists job. rewrite (co_stages _ _ _ _ _ Hco). unfold zlen. rewrite length_imap.
    apply lookup_lt_Some in Hg. cbn [pj_stage_position plan_job pj_needs] in *. split_and!; done || lia. }
  split_and!.
  - by eapply compiled_keys.
  - intros dep. rewrite elem_of_v1_dependencies. split.
    + intros (pj & Hin & -> & Hf). destruct (Hpj pj Hin) as (job & Hj & _ & Hn & _).
      destruct (Hk _ _ Hj) as (_ & y & Hy & Hnorm). exists y. split; [done|].
      destruct (normalize_job_needs _ _ _ _ Hnorm) as (_ & Hperm & _). by rewrite <- Hperm, <- Hn.
    + intros (y & Hy & Hf). destruct (proj2 (Hdom (dep_to dep)) ltac:(eauto)) as [job Hj].
      destruct (Hk _ _ Hj) as (_ & y' & Hy' & Hnorm). assert (y' = y) as -> by congruence.
      destruct (normalize_job_needs _ _ _ _ Hnorm) as (_ & Hperm & _).
      destruct (compiled_plan_job_ex _ _ _ _ _ _ _ Hco Hj) as (pj & Hin & Hkey & _ & Hn).
      exists pj. rewrite Hkey, Hn, Hperm. done.
  - intros a b Ha Hb Hn. destruct (Hpj a Ha) as (ja & Hja & Hla & _), (Hpj b Hb) as (jb & Hjb & Hlb & Hnb & _).
    rewrite Hnb in Hn. eapply (is_levels_edge nj_needs jobs levels (pj_key b) (pj_key a)); try done. by exists jb.
  - intros b Hb Hpos. destruct (Hpj b Hb) as (jb & Hjb & Hlb & Hnb & _). pose proof Hlb as Hlb'.
    rewrite (proj2 Hl _ _ Hjb) in Hlb'. injection Hlb' as Elb.
    destruct (level_of_attained levels (nj_needs jb)) as (n & Hn & En); [lia|].
    destruct (Hc (pj_key b) n ltac:(by exists jb)) as [jn Hjn].
    destruct (compiled_plan_job_ex _ _ _ _ _ _ _ Hco Hjn) as (a & Ha & <- & Hla & _).
    exists a. rewrite Hla in En. cbn in En. rewrite Hnb. split_and!; [done|done|lia].
  - intros b Hb. by destruct (Hpj b Hb) as (_ & _ & _ & _ & ?).
Qed.

(** ** The fields of a plan job *)

(** Every plan job comes from a job of the file, through [normalize_job]. *)
Lemma compiled_source parsed c jobs levels grouped pj :
  compiled parsed c jobs levels grouped -> pj ∈ plan_jobs_of grouped ->
  exists d y job l p, normalize_defaults parsed = Ok d /\ yc_jobs parsed !! pj_key pj = Some y /\
    normalize_job d (pj_key pj) y = Ok job /\ pj = plan_job l p job.
Proof.
  intros Hco Hpj. destruct (normalize_jobs_spec _ _ (co_jobs _ _ _ _ _ Hco)) as (d & Hd & _ & Hk & _).
  apply (compiled_plan_job _ _ _ _ _ _ Hco) in Hpj as (job & p & l & Hj & _ & _ & _ & ->).
  destruct (Hk _ _ Hj) as (_ & y & Hy & Hn). exists d, y, job, (Z.of_nat l), p. done.
Qed.

(** The kinds of typed actions of a job. *)
Definition actions (pj : V1PlanJob) : list bool :=
  [is_some (pj_image_build pj); is_some (pj_image_publish pj); is_some (pj_helm_deploy pj); is_some (pj_workspace_deploy pj)].

Definition typed (pj : V1PlanJob) : bool :=
  is_some (pj_image_build pj) || is_some (pj_image_publish pj) || is_some (pj_helm_deploy pj).

(** The parts of [normalize_job]. *)
Lemma normalize_job_inv d k y job :
  normalize_job d k y = Ok job ->
  is_valid_v1_job_key k = true /\
  check_workspace_deploy (df_tags d) y = Ok tt /\ check_helm_deploy y = Ok tt /\ check_image_publish y = Ok tt /\
  check_image_build (df_tags d) k y = Ok tt /\ rfold (check_commands k) tt (y1_commands y) = Ok tt /\
  exists timeout tags secrets paths needs,
    match y1_timeout y with
    | Some raw => parse_v1_timeout (jobs_field k §".timeout") (Some raw) = Ok timeout
    | None => timeout = df_timeout d
    end /\
    match y1_tags y with
    | Some l => normalize_v1_tags (jobs_field k §".tags") l = Ok tags
    | None => tags = df_tags d
    end /\
    normalize_v1_secret_names (jobs_field k §".secrets") (y1_secrets y) = Ok secrets /\
    job_artifact_paths k y = Ok paths /\ job_needs k y = Ok needs /\
    job = {| nj_key := k; nj_image := job_image (df_image d) y; nj_commands := y1_commands y; nj_required_tags := tags;
             nj_required_secrets := secrets; nj_artifact_paths := paths; nj_timeout_seconds := timeout;
             nj_allow_failure := y1_allow_failure y; nj_needs := needs; nj_image_build := y1_image_build y;
             nj_image_publish := y1_image_publish y; nj_helm_deploy := y1_helm_deploy y;
             nj_workspace_deploy := y1_workspace_deploy y |}.
Proof.
  unfold normalize_job. intros E. ok_inv E. repeat match goal with u : unit |- _ => destruct u end. bool_norm.
  split_and!; try assumption. do 5 eexists. split_and!; [| |eassumption..|by subst job].
  - destruct (y1_timeout y); [eassumption|]. congruence.
  - destruct (y1_tags y); [eassumption|]. congruence.
Qed.

(** What the checks of [normalize_job] leave. *)
Definition kinds (y : YamlV1Job) : list bool :=
  [is_some (y1_image_build y); is_some (y1_image_publish y); is_some (y1_helm_deploy y); is_some (y1_workspace_deploy y)].

Definition typed_yaml (y : YamlV1Job) : bool :=
  is_some (y1_image_build y) || is_some (y1_image_publish y) || is_some (y1_helm_deploy y).

Lemma checks_actions tags k y :
  check_workspace_deploy tags y = Ok tt -> check_helm_deploy y = Ok tt -> check_image_publish y = Ok tt ->
  check_image_build tags k y = Ok tt ->
  (length (filter (fun b => b = true) (kinds y)) <= 1)%nat /\
  (typed_yaml y = true -> y1_commands y = [] /\ y1_secrets y = [] /\ y1_artifacts y = None /\ y1_allow_failure y = false) /\
  (typed_yaml y = false -> y1_commands y <> [] /\ (zlen (y1_commands y) <= 64)%Z) /\
  (is_some (y1_workspace_deploy y) = true ->
     y1_artifacts y = None /\ y1_allow_failure y = false /\ y1_tags y = None /\ tags = []).
Proof.
  unfold check_workspace_deploy, check_helm_deploy, check_image_publish, check_image_build, kinds, typed_yaml.
  intros H1 H2 H3 H4.
  destruct (y1_workspace_deploy y), (y1_helm_deploy y), (y1_image_publish y), (y1_image_build y);
    cbn [is_some is_none negb orb andb] in *; rewrite ?orb_true_r in *; 
    ok_inv H1; ok_inv H2; ok_inv H3; ok_inv H4; bool_norm;
    repeat match goal with
    | H : is_some _ = false |- _ => apply negb_false_iff, is_none_true in H
    | H : is_empty _ = true |- _ => apply is_empty_true in H
    | H : is_empty _ = false |- _ => apply is_empty_false in H
    end; try discriminate; split_and!; try discriminate; try done; vm_compute; lia.
Qed.

Lemma no_secrets field out : normalize_v1_secret_names field [] = Ok out -> out = [].
Proof.
  intros (_ & _ & ->)%normalize_v1_secret_names_spec. destruct (sort_dedup (map trim [])) as [|x r] eqn:E; [done|].
  assert (Hx : x ∈ sort_dedup (map trim [])) by (rewrite E; left). apply elem_of_sort_dedup in Hx. by apply elem_of_nil in Hx.
Qed.

Lemma v1_runtime_command_ne cmds s : s <> [] -> head s <> Some 115%N -> v1_runtime_command cmds <> s.
Proof. intros Hs Hh E. apply Hh. by rewrite <- E. Qed.

Lemma runtime_command_ne cmds :
  v1_runtime_command cmds <> §"forge:helm-deploy" /\ v1_runtime_command cmds <> §"forge:image-publish" /\
  v1_runtime_command cmds <> §"forge:image-build".
Proof. split_and!; apply v1_runtime_command_ne; vm_compute; discriminate. Qed.

Lemma sentinels_ne :
  §"forge:helm-deploy" <> §"forge:image-publish" /\ §"forge:helm-deploy" <> §"forge:image-build" /\
  §"forge:image-publish" <> §"forge:image-build".
Proof. split_and!; vm_compute; discriminate. Qed.

(** Every job of a compiled version 1 plan is either a list of 1 to 64 shell
    commands or exactly one typed action; the action is recognisable from the
    command alone, runs no commands, receives no secrets, cannot be allowed
    to fail, and declares exactly the artifacts of its specification. *)
Theorem v1_actions_closed parsed c plan pj :
  compile_v1 parsed = Ok c -> pc_plan c = V1 plan -> pj ∈ vp_jobs plan ->
  (length (filter (fun b => b = true) (actions pj)) <= 1)%nat /\
  (is_some (pj_helm_deploy pj) = true <-> pj_command pj = §"forge:helm-deploy") /\
  (is_some (pj_image_publish pj) = true <-> pj_command pj = §"forge:image-publish") /\
  (is_some (pj_image_build pj) = true <-> pj_command pj = §"forge:image-build") /\
  (typed pj = true -> pj_commands pj = [] /\ pj_required_secrets pj = [] /\ pj_allow_failure pj = false) /\
  (typed pj = false -> pj_commands pj <> [] /\ (zlen (pj_commands pj) <= 64)%Z /\
     pj_command pj = v1_runtime_command (pj_commands pj)) /\
  (forall s, pj_helm_deploy pj = Some s -> pj_artifact_paths pj = [hd_receipt_artifact s]) /\
  (forall s, pj_image_publish pj = Some s -> pj_artifact_paths pj = [ip_descriptor_artifact s; ip_published_artifact s]) /\
  (forall s, pj_image_build pj = Some s -> pj_artifact_paths pj = [ib_descriptor_artifact s]) /\
  (forall s, pj_workspace_deploy pj = Some s ->
     pj_artifact_paths pj = [wd_images_manifest s] /\ pj_allow_failure pj = false /\ pj_required_tags pj = []).
Proof.
  intros (jobs & levels & grouped & Hco)%compile_v1_inv Hpl Hpj.
  rewrite (co_plan _ _ _ _ _ Hco) in Hpl. injection Hpl as <-. cbn [vp_jobs] in Hpj.
  destruct (compiled_source _ _ _ _ _ _ Hco Hpj) as (d & y & job & l & p & _ & _ & Hn & E).
  apply normalize_job_inv in Hn as (_ & C1 & C2 & C3 & C4 & _ & t & tags & secrets & paths & ns & _ & Htags & Hsec & Hart & _ & ->).
  destruct (checks_actions _ _ _ C1 C2 C3 C4) as (K1 & K2 & K3 & K4). rewrite E. unfold actions, typed, plan_job, job_command.
  cbn [pj_helm_deploy pj_image_publish pj_image_build pj_workspace_deploy pj_command pj_commands pj_required_secrets
       pj_allow_failure pj_artifact_paths pj_required_tags nj_helm_deploy nj_image_publish nj_image_build
       nj_workspace_deploy nj_commands nj_required_secrets nj_allow_failure nj_artifact_paths nj_required_tags].
  destruct (runtime_command_ne (y1_commands y)) as (R1 & R2 & R3). destruct sentinels_ne as (N1 & N2 & N3).
  unfold kinds, typed_yaml, job_artifact_paths in *.
  destruct (y1_workspace_deploy y), (y1_helm_deploy y), (y1_image_publish y), (y1_image_build y);
    cbn [is_some is_none negb orb] in *; try (exfalso; vm_compute in K1; lia);
    (split; [exact K1|]); (split; [split; congruence|]); (split; [split; congruence|]); (split; [split; congruence|]);
    split_and!; try congruence;
    try (intros _; destruct (K2 eq_refl) as (Kc & Ks & _ & Ka); rewrite Ks in Hsec; apply no_secrets in Hsec; by split_and!);
    try (intros _; destruct (K3 eq_refl); by split_and!);
    intros s [= <-]; destruct (K4 eq_refl) as (Ka & Kf & Kt & Kd); rewrite Kt in Htags; split_and!; congruence.
Qed.

(** The executable job a plan job stands for. *)
Definition ci_of_plan (pj : V1PlanJob) : CiJob :=
  {| cj_name := pj_key pj; cj_image := pj_image pj; cj_command := pj_command pj;
     cj_required_tags := pj_required_tags pj; cj_required_secrets := pj_required_secrets pj;
     cj_artifact_paths := pj_artifact_paths pj; cj_timeout_seconds := pj_timeout_seconds pj;
     cj_allow_failure := pj_allow_failure pj; cj_manual := false |}.

(** The stages that are executed and the plan that is frozen describe the same
    jobs: the job at a position of a stage is the one the plan places there,
    with the same key, image, command, tags, secrets, artifacts and timeout,
    and never manual. *)
Theorem v1_stages_match_plan parsed c plan :
  compile_v1 parsed = Ok c -> pc_plan c = V1 plan ->
  forall i p job,
    (exists stage, pc_stages c !! i = Some stage /\ cs_jobs stage !! p = Some job) <->
    (exists pj, pj ∈ vp_jobs plan /\ pj_stage_position pj = Z.of_nat i /\ pj_position pj = Z.of_nat p /\ job = ci_of_plan pj).
Proof.
  intros (jobs & levels & grouped & Hco)%compile_v1_inv Hpl.
  rewrite (co_plan _ _ _ _ _ Hco) in Hpl. injection Hpl as <-. cbn [vp_jobs].
  rewrite (co_stages _ _ _ _ _ Hco). intros i p job. setoid_rewrite elem_of_plan_jobs.
  setoid_rewrite list_lookup_imap. setoid_rewrite fmap_Some. split.
  - intros (stage & (js & Hi & ->) & Hp). cbn [cs_jobs v1_stage] in Hp.
    apply list_lookup_fmap_Some in Hp as (nj & -> & Hp). exists (plan_job (Z.of_nat i) p nj). split_and!; try done.
    by exists i, p, js, nj.
  - intros (pj & (i' & p' & js & nj & Hi & Hp & ->) & Ei & Ep & ->). cbn [pj_stage_position pj_position plan_job] in Ei, Ep.
    apply Nat2Z.inj in Ei, Ep. subst i' p'. exists (v1_stage i js). split; [by exists js|].
    cbn [cs_jobs v1_stage]. apply list_lookup_fmap_Some. by exists nj.
Qed.

Lemma check_references_bindings jobs job spec key b :
  check_references jobs tt job = Ok tt -> nj_helm_deploy job = Some spec -> hd_images spec !! key = Some b ->
  exists producer publish, jobs !! bd_job b = Some producer /\ nj_image_publish producer = Some publish /\
    bd_job b ∈ nj_needs job /\ bd_artifact b = ip_published_artifact publish.
Proof.
  unfold check_references. intros E Hs Hb. rewrite Hs in E. apply rbind_Ok_inv in E as ([] & E & _).
  rewrite rfold_check in E. specialize (E b ltac:(apply elem_of_values; by exists key)). unfold check_binding in E.
  ok_inv E. bool_norm. apply ok_or_Ok in Hok, Hok0. exists a, a0. split_and!; try done.
Qed.

(** Every image a deployment of a compiled plan installs is bound to a job of the
    same plan that publishes it: the producer is a typed publication in a
    strictly earlier stage, a declared need of the deployment, and the bound
    artifact is one of the artifacts the producer declares. *)
Theorem helm_images_published parsed c plan pj spec key b :
  compile_v1 parsed = Ok c -> pc_plan c = V1 plan -> pj ∈ vp_jobs plan ->
  pj_helm_deploy pj = Some spec -> hd_images spec !! key = Some b ->
  exists producer publish, producer ∈ vp_jobs plan /\ pj_key producer = bd_job b /\
    pj_image_publish producer = Some publish /\ ip_published_artifact publish = bd_artifact b /\
    bd_artifact b ∈ pj_artifact_paths producer /\ pj_key producer ∈ pj_needs pj /\
    (pj_stage_position producer < pj_stage_position pj)%Z.
Proof.
  intros (jobs & levels & grouped & Hco)%compile_v1_inv Hpl Hpj Hs Hb.
  rewrite (co_plan _ _ _ _ _ Hco) in Hpl. injection Hpl as <-. cbn [vp_jobs] in *.
  destruct (normalize_jobs_spec _ _ (co_jobs _ _ _ _ _ Hco)) as (d & _ & _ & Hk & Hr).
  pose proof Hpj as Hpj'. apply (compiled_plan_job _ _ _ _ _ _ Hco) in Hpj' as (job & p & l & Hj & Hlv & _ & _ & E).
  assert (Hsp : nj_helm_deploy job = Some spec) by (by rewrite E in Hs).
  destruct (check_references_bindings jobs job spec key b (Hr _ _ Hj) Hsp Hb) as (producer & publish & Hpr & Hpub & Hneed & Hart).
  destruct (compiled_plan_job_ex _ _ _ _ _ _ _ Hco Hpr) as (pk & Hpk & Hkey & Hlk & _). exists pk, publish.
  pose proof Hpk as Hpk'. apply (compiled_plan_job _ _ _ _ _ _ Hco) in Hpk' as (job' & p' & l' & Hj' & _ & _ & _ & E').
  rewrite Hkey in Hj'. assert (job' = producer) as -> by congruence.
  destruct (Hk _ _ Hpr) as (_ & y & _ & Hn). apply normalize_job_inv in Hn as (_ & _ & C2 & _ & _ & _ & t & tags & secrets & paths & ns & _ & _ & _ & Hpaths & _ & En).
  split_and!.
  - done.
  - done.
  - by rewrite E'.
  - done.
  - rewrite E'. cbn [pj_artifact_paths plan_job]. rewrite En in Hpub |- *. cbn [nj_image_publish nj_artifact_paths] in *.
    unfold job_artifact_paths in Hpaths. unfold check_helm_deploy in C2. rewrite Hpub in Hpaths, C2.
    destruct (y1_helm_deploy y).
    + exfalso. ok_inv C2. bool_norm. done.
    + injection Hpaths as <-. rewrite Hart. right. left.
  - rewrite E, Hkey. done.
  - eapply (is_levels_edge nj_needs jobs levels (pj_key pj) (pj_key pk)).
    + apply (co_levels _ _ _ _ _ Hco).
    + exists job. rewrite Hkey. done.
    + rewrite Hlv, E. done.
    + by rewrite Hkey.
Qed.
End plan.

(** ** The whole parser *)

Section parser.
Context `{UrlCrate, Yaml}.

Lemma default_pipeline_valid : validate_ci_stages default_pipeline = Ok tt.
Proof. vm_compute. reflexivity. Qed.

Lemma parse_pipeline_config_inv raw c :
  parse_pipeline_config raw = Ok c ->
  (exists parsed, compile_v1 parsed = Ok c) \/
  (pc_plan c = Legacy /\ validate_ci_stages (pc_stages c) = Ok tt).
Proof.
  unfold parse_pipeline_config. destruct raw as [raw|].
  2:{ intros [= <-]. right. split; [done|apply default_pipeline_valid]. }
  intros E. ok_inv E. destruct a as [hv|]; [|done]. destruct hv.
  - left. unfold parse_v1_pipeline_config in E. ok_inv E. eauto.
  - right. unfold parse_legacy_pipeline_config in E. apply rbind_Ok_inv in E as (parsed & _ & E). cbn beta in E.
    unfold compile_legacy in E. ok_inv E. subst c. destruct a. split; done.
Qed.

(** Whatever [.forge-ci.yml] holds, a configuration that is accepted can be
    run: there is a stage, every stage has a name and jobs, every job has a
    name, a command, a safe image reference, and valid tags and secret names;
    in a version 1 plan there are at most 500 jobs, keyed by valid and
    distinct keys, with at most 64 distinct needs each and timeouts of at
    most a day. *)
Theorem parsed_config_runnable raw c :
  parse_pipeline_config raw = Ok c ->
  pc_stages c <> [] /\
  (forall stage, stage ∈ pc_stages c -> trim (cs_name stage) <> [] /\ cs_jobs stage <> [] /\
     forall job, job ∈ cs_jobs stage -> good_job job) /\
  (forall plan, pc_plan c = V1 plan ->
     (0 < zlen (vp_jobs plan) <= 500)%Z /\ NoDup (map pj_key (vp_jobs plan)) /\
     forall pj, pj ∈ vp_jobs plan ->
       is_valid_v1_job_key (pj_key pj) = true /\ NoDup (pj_needs pj) /\ (zlen (pj_needs pj) <= 64)%Z /\
       forall n, pj_timeout_seconds pj = Some n -> (1 <= n <= 86400)%Z).
Proof.
  intros [[parsed Hc]|[Hl Hv]]%parse_pipeline_config_inv.
  2:{ apply validate_ci_stages_iff in Hv as [? ?]. split_and!; [done|done|]. intros plan Hp. by rewrite Hl in Hp. }
  pose proof Hc as Hc0. apply compile_v1_inv in Hc as (jobs & levels & grouped & Hco).
  pose proof (co_valid _ _ _ _ _ Hco) as Hv. apply validate_ci_stages_iff in Hv as [Hne Hst]. split_and!; [done|done|].
  intros plan Hp. rewrite (co_plan _ _ _ _ _ Hco) in Hp. injection Hp as <-. cbn [vp_jobs].
  pose proof (compiled_keys _ _ _ _ _ Hco) as Hkeys.
  assert (Hlen : length (plan_jobs_of grouped) = length (bindings (yc_jobs parsed))).
  { apply Permutation_length in Hkeys. unfold keys in Hkeys. by rewrite !length_map in Hkeys. }
  pose proof (co_size _ _ _ _ _ Hco) as Hsz. unfold zlen in *. rewrite Hlen. split_and!.
  - rewrite <- Hlen. assert (Hn : plan_jobs_of grouped <> []); [|destruct (plan_jobs_of grouped); [done|cbn; lia]].
    rewrite (co_stages _ _ _ _ _ Hco) in *. destruct grouped as [|js grouped]; [done|].
    destruct (Hst (v1_stage 0 js) ltac:(apply (elem_of_lookup_imap_2 _ (js :: grouped) js 0); done)) as (_ & Hjs & _).
    destruct js as [|j js]; [done|]. intros E.
    assert (Hin : plan_job 0 0 j ∈ plan_jobs_of ((j :: js) :: grouped)) by (apply elem_of_plan_jobs; exists O, O; eauto).
    rewrite E in Hin. by apply elem_of_nil in Hin.
  - done.
  - rewrite Hkeys. apply NoDup_keys.
  - intros pj Hpj. destruct (compiled_source _ _ _ _ _ _ Hco Hpj) as (d & y & job & l & p & Hd & _ & Hn & E).
    pose proof (normalize_job_needs _ _ _ _ Hn) as (N1 & _ & N2).
    apply normalize_job_inv in Hn as (Hk & _ & _ & _ & _ & _ & t & tags & secrets & paths & ns & Ht & _ & _ & _ & _ & En).
    rewrite E. cbn [pj_key pj_needs pj_timeout_seconds plan_job]. rewrite E in Hk. cbn [pj_key plan_job] in Hk.
    split_and!; [done|done|done|]. intros n. rewrite En. cbn [nj_timeout_seconds]. intros ->.
    destruct (y1_timeout y) as [raw'|]; [by eapply parse_v1_timeout_range|].
    unfold normalize_defaults in Hd. ok_inv Hd. subst d. cbn [df_timeout] in Ht. subst a. by eapply parse_v1_timeout_range.
Qed.
End parser.

(** ** Rollback *)

Lemma filter_none {A} (f : A -> bool) l : (forall x, x ∈ l -> f x = false) -> filter (fun x => f x = true) l = [].
Proof.
  induction l as [|x l IH]; intros H; [done|]. rewrite filter_cons, decide_False by (rewrite H; [done|left]).
  apply IH. intros y Hy. apply H. by right.
Qed.

Lemma filter_one {A} (f : A -> bool) l x :
  filter (fun x => f x = true) l = [x] ->
  exists pre post, l = pre ++ x :: post /\ f x = true /\ forall y, y ∈ pre ++ post -> f y = false.
Proof.
  induction l as [|y l IH]; [done|]. rewrite filter_cons. destruct (decide (f y = true)) as [Hy|Hy].
  - intros [= -> Hl]. exists [], l. split_and!; try done. intros z Hz. destruct (f z) eqn:Ez; [|done]. exfalso.
    assert (Hin : z ∈ filter (fun x => f x = true) l) by (by apply list_elem_of_filter).
    rewrite Hl in Hin. by apply elem_of_nil in Hin.
  - intros (pre & post & -> & Hx & Hq)%IH. exists (y :: pre), post. split_and!; try done.
    intros z Hz. apply elem_of_cons in Hz as [->|Hz]; [by destruct (f y)|by apply Hq].
Qed.

(** A rollback plan is the one job of the original plan that deploys to the
    environment, moved to the front of a plan of its own, without needs,
    dependencies or permission to fail; it exists exactly when one such job
    does. *)
Theorem helm_rollback_only_spec c environment plan :
  pc_plan c = V1 plan ->
  (is_ok (helm_rollback_only c environment) = true <->
     exists pre pj post, vp_jobs plan = pre ++ pj :: post /\ deploys_to environment pj = true /\
       forall q, q ∈ pre ++ post -> deploys_to environment q = false) /\
  forall c', helm_rollback_only c environment = Ok c' ->
    exists pj pj', pj ∈ vp_jobs plan /\ deploys_to environment pj = true /\
      pc_plan c' = V1 {| vp_jobs := [pj']; vp_dependencies := [] |} /\
      pj_needs pj' = [] /\ pj_stage_position pj' = 0%Z /\ pj_position pj' = 0%Z /\
      pj_key pj' = pj_key pj /\ pj_helm_deploy pj' = pj_helm_deploy pj /\ pj_command pj' = pj_command pj /\
      pj_artifact_paths pj' = pj_artifact_paths pj /\
      exists job, pc_stages c' = [ {| cs_name := pj_stage pj; cs_jobs := [job] |} ] /\ cj_name job = pj_key pj /\
        cj_command job = pj_command pj /\ cj_image job = pj_image pj /\ cj_allow_failure job = false /\ cj_manual job = false.
Proof.
  intros Hp. unfold helm_rollback_only. rewrite Hp.
  destruct (filter _ (vp_jobs plan)) as [|pj [|pj2 r]] eqn:Ef.
  - split; [|done]. split; [done|]. intros (pre & pj & post & E & Hd & _). exfalso.
    assert (Hin : pj ∈ filter (fun job => deploys_to environment job = true) (vp_jobs plan)).
    { apply list_elem_of_filter. split; [done|]. rewrite E, elem_of_app. right. left. }
    rewrite Ef in Hin. by apply elem_of_nil in Hin.
  - split.
    + split; [intros _|done]. destruct (filter_one _ _ _ Ef) as (pre & post & E & Hd & Hq). exists pre, pj, post. done.
    + intros c' [= <-]. destruct (filter_one _ _ _ Ef) as (pre & post & E & Hd & Hq). exists pj. eexists. split_and!; try done.
      { rewrite E, elem_of_app. right. left. }
      eexists. split_and!; done.
  - split; [|done]. split; [done|]. intros (pre & q & post & E & Hd & Hq). exfalso.
    rewrite E, filter_app, filter_cons, decide_True in Ef by done.
    rewrite (filter_none _ pre), (filter_none _ post) in Ef by (intros x Hx; apply Hq; set_solver). done.
Qed.

(** ** A concrete file

    Two independent jobs, a publication and a test, and a deployment that needs
    both. *)
Definition blank_job : YamlV1Job :=
  {| y1_needs := []; y1_image := None; y1_commands := []; y1_image_build := None; y1_image_publish := None;
     y1_helm_deploy := None; y1_workspace_deploy := None; y1_timeout := None; y1_tags := None; y1_secrets := [];
     y1_artifacts := None; y1_allow_failure := false |}.
Definition sample_helm : HelmDeploySpec :=
  {| hd_environment_id := 1; hd_images := {[ §"web.image" := {| bd_job := §"publish"; bd_artifact := §"out/image.json" |} ]};
     hd_receipt_artifact := §"out/receipt.json" |}.
Definition sample_jobs : gmap str YamlV1Job :=
  {[ §"publish" := {| y1_needs := []; y1_image := None; y1_commands := []; y1_image_build := None;
                      y1_image_publish := Some sample_publish; y1_helm_deploy := None; y1_workspace_deploy := None;
                      y1_timeout := Some §"30m"; y1_tags := None; y1_secrets := []; y1_artifacts := None;
                      y1_allow_failure := false |};
     §"test" := {| y1_needs := []; y1_image := None; y1_commands := [§"make test"]; y1_image_build := None;
                   y1_image_publish := None; y1_helm_deploy := None; y1_workspace_deploy := None; y1_timeout := None;
                   y1_tags := None; y1_secrets := [§"TOKEN"]; y1_artifacts := Some [§"report.xml"]; y1_allow_failure := true |};
     §"deploy" := {| y1_needs := [§"test"; §"publish"]; y1_image := None; y1_commands := []; y1_image_build := None;
                     y1_image_publish := None; y1_helm_deploy := Some sample_helm; y1_workspace_deploy := None;
                     y1_timeout := None; y1_tags := None; y1_secrets := []; y1_artifacts := None; y1_allow_failure := false |} ]}.
Definition sample_file : YamlV1Config :=
  {| yc_version := 1; yc_default_image := None; yc_default_timeout := Some §"1h"; yc_default_tags := []; yc_jobs := sample_jobs |}.

(** A reader that returns the sample for every text. *)
Definition sample_yaml : Yaml :=
  {| yaml_root := fun _ => Ok (RootMapping true); yaml_legacy := fun _ => Ok []; yaml_v1 := fun _ => Ok sample_file |}.

Definition deploys (pj : V1PlanJob) : bool :=
  str_eqb (pj_key pj) §"deploy" && deploys_to 1 pj && bool_decide (pj_stage_position pj = 1%Z)
  && match pj_helm_deploy pj with Some s => bool_decide (is_Some (hd_images s !! §"web.image")) | None => false end.

Definition sample_ok : bool :=
  match @compile_v1 sample_crate sample_file with
  | Ok c => match pc_plan c with
            | V1 plan => existsb deploys (vp_jobs plan) && is_ok (helm_rollback_only c 1)
            | Legacy => false
            end
  | Err _ => false
  end.

Lemma sample_ok_true : sample_ok = true.
Proof. vm_compute. reflexivity. Qed.

(** The sample compiles to a plan in which the deployment is in stage 1. *)
Lemma sample_compiles : exists c plan pj spec b,
  @compile_v1 sample_crate sample_file = Ok c /\ pc_plan c = V1 plan /\ pj ∈ vp_jobs plan /\
  pj_stage_position pj = 1%Z /\ pj_helm_deploy pj = Some spec /\ hd_images spec !! §"web.image" = Some b /\
  is_ok (helm_rollback_only c 1) = true.
Proof.
  pose proof sample_ok_true as H. unfold sample_ok in H.
  destruct (@compile_v1 sample_crate sample_file) as [c|]; [|discriminate H].
  destruct (pc_plan c) as [|plan] eqn:Ep; [discriminate H|]. apply andb_true_iff in H as [H Hr].
  apply existsb_iff in H as (pj & Hin & H). unfold deploys in H. apply andb_true_iff in H as [H Hs].
  apply andb_true_iff in H as [_ Hpos]. apply bool_decide_eq_true in Hpos.
  destruct (pj_helm_deploy pj) as [s|] eqn:Eh; [|discriminate Hs]. apply bool_decide_eq_true in Hs as [b Hb].
  by exists c, plan, pj, s, b.
Qed.

Lemma v1_plan_topological_witness : exists c plan,
  @compile_v1 sample_crate sample_file = Ok c /\ pc_plan c = V1 plan /\ map pj_key (vp_jobs plan) ≡ₚ keys sample_jobs.
Proof.
  destruct sample_compiles as (c & plan & pj & s & b & Hc & Hp & _).
  destruct (@v1_plan_topological sample_crate _ _ Hc) as (plan' & Hp' & Hk & _). exists c, plan'. split; [exact Hc|]. split; [exact Hp'|exact Hk].
Defined.

Lemma v1_actions_closed_witness : exists c plan pj,
  @compile_v1 sample_crate sample_file = Ok c /\ pc_plan c = V1 plan /\ pj ∈ vp_jobs plan /\
  pj_commands pj = [] /\ pj_required_secrets pj = [] /\ pj_command pj = §"forge:helm-deploy".
Proof.
  destruct sample_compiles as (c & plan & pj & s & b & Hc & Hp & Hin & _ & Hs & _).
  destruct (@v1_actions_closed sample_crate _ _ _ _ Hc Hp Hin) as (_ & Hh & _ & _ & Ht & _).
  assert (Hsome : is_some (pj_helm_deploy pj) = true) by (rewrite Hs; reflexivity).
  destruct Ht as (H1 & H2 & _); [unfold typed; rewrite Hsome; apply orb_true_r|].
  exists c, plan, pj. split; [exact Hc|]. split; [exact Hp|]. split; [exact Hin|]. split; [exact H1|]. split; [exact H2|].
  apply Hh. exact Hsome.
Defined.

Lemma v1_stages_match_plan_witness : exists c plan,
  @compile_v1 sample_crate sample_file = Ok c /\ pc_plan c = V1 plan /\
  exists stage job, pc_stages c !! 1%nat = Some stage /\ job ∈ cs_jobs stage.
Proof.
  destruct sample_compiles as (c & plan & pj & s & b & Hc & Hp & Hin & Hpos & _).
  exists c, plan. split; [exact Hc|]. split; [exact Hp|].
  pose proof (compile_v1_inv _ _ Hc) as (jobs & levels & grouped & Hco).
  assert (Hq : exists q, pj_position pj = Z.of_nat q).
  { rewrite (co_plan _ _ _ _ _ Hco) in Hp. injection Hp as <-. apply elem_of_plan_jobs in Hin as (i & p & js & nj & _ & _ & ->). by exists p. }
  destruct Hq as [q Hq].
  destruct (proj2 (@v1_stages_match_plan sample_crate _ _ _ Hc Hp 1%nat q (ci_of_plan pj))) as (stage & Hst & Hj).
  { exists pj. split_and!; [exact Hin|exact Hpos|exact Hq|reflexivity]. }
  exists stage, (ci_of_plan pj). split; [exact Hst|]. apply list_elem_of_lookup. by exists q.
Defined.

Lemma helm_images_published_witness : exists c plan pj producer,
  @compile_v1 sample_crate sample_file = Ok c /\ pc_plan c = V1 plan /\ producer ∈ vp_jobs plan /\
  (pj_stage_position producer < pj_stage_position pj)%Z.
Proof.
  destruct sample_compiles as (c & plan & pj & s & b & Hc & Hp & Hin & _ & Hs & Hb & _).
  destruct (@helm_images_published sample_crate _ _ _ _ _ _ _ Hc Hp Hin Hs Hb) as (producer & publish & Hpr & _ & _ & _ & _ & _ & Hlt).
  exists c, plan, pj, producer. split; [exact Hc|]. split; [exact Hp|]. split; [exact Hpr|exact Hlt].
Defined.

Lemma parsed_config_runnable_witness : exists c,
  @parse_pipeline_config sample_crate sample_yaml (Some §"version: 1") = Ok c /\ pc_stages c <> [].
Proof.
  destruct sample_compiles as (c & plan & pj & s & b & Hc & _).
  assert (E : @parse_pipeline_config sample_crate sample_yaml (Some §"version: 1") = Ok c).
  { unfold parse_pipeline_config. assert (Hl : (1024 * 1024 <? len §"version: 1")%Z = false) by (vm_compute; reflexivity).
    rewrite Hl. cbn [yaml_root sample_yaml map_err rbind]. unfold parse_v1_pipeline_config.
    cbn [yaml_v1 sample_yaml map_err rbind]. exact Hc. }
  exists c. split; [exact E|]. apply (@parsed_config_runnable sample_crate sample_yaml _ _ E).
Defined.

Lemma helm_rollback_only_spec_witness : exists c plan pre pj post,
  pc_plan c = V1 plan /\ vp_jobs plan = pre ++ pj :: post /\ deploys_to 1 pj = true.
Proof.
  destruct sample_compiles as (c & plan & _ & _ & _ & _ & Hp & _ & _ & _ & _ & Hr).
  destruct (proj1 (proj1 (helm_rollback_only_spec c 1 plan Hp)) Hr) as (pre & pj & post & Hl & Hd & _).
  exists c, plan, pre, pj, post. split; [exact Hp|]. split; [exact Hl|exact Hd].
Defined.
