(* ===== verification/Table.v ===== *)
(** * Tables: the part of SQL the dispatch ledger uses

    A table is a finite map from the primary key to the row.  A row type comes
    with the constraints the migrations declare: a [CHECK] on single rows and
    unique indexes, given as the conflicts between two rows. *)
From S2P Require Import Prelude.

Class Schema (V : Type) : Type := {
  check : V -> bool;
  conflict : V -> V -> bool;
  conflict_sym : forall x y, conflict x y = conflict y x }.

(** [make_interval(secs => n)], in the nanoseconds of a timestamp. *)
Definition seconds (n : Z) : Z := (n * 1000000000)%Z.

(** What the database raises: a constraint violation, a missing row where
    the statement needs one, or a value that does not convert. *)
Inductive db_error : Type :=
| CheckViolation | UniqueViolation | ForeignKeyViolation | RowNotFound | DataException.

Section table.
Context {V : Type}.

(** [UPDATE t SET .. WHERE p] *)
Definition update_where (p : N -> V -> bool) (f : V -> V) (t : gmap N V) : gmap N V :=
  map_imap (fun k v => Some (if p k v then f v else v)) t.

Lemma lookup_update_where p f (t : gmap N V) k :
  update_where p f t !! k = (fun v => if p k v then f v else v) <$> (t !! k).
Proof. unfold update_where. rewrite map_lookup_imap. by destruct (t !! k). Qed.

Lemma update_where_Some p f (t : gmap N V) k v' :
  update_where p f t !! k = Some v' <-> exists v, t !! k = Some v /\ v' = if p k v then f v else v.
Proof. rewrite lookup_update_where, fmap_Some. done. Qed.

Lemma update_where_None p f (t : gmap N V) k : update_where p f t !! k = None <-> t !! k = None.
Proof. rewrite lookup_update_where, fmap_None. done. Qed.

Lemma update_where_row p f (t : gmap N V) k v :
  t !! k = Some v -> update_where (fun i w => (i =? k)%N && p w) f t = if p v then <[k := f v]> t else t.
Proof.
  intros Hk. apply map_eq. intros i. rewrite lookup_update_where. destruct (decide (i = k)) as [->|Hi].
  - rewrite Hk, N.eqb_refl. cbn. destruct (p v); [by rewrite lookup_insert_eq|done].
  - rewrite (proj2 (N.eqb_neq i k) Hi). destruct (p v); [rewrite lookup_insert_ne by done|]; by destruct (t !! i).
Qed.

(** [UPDATE t SET .. FROM src WHERE ..]: a row that joins with [x] becomes
    [f x row]. *)
Definition update_from {X} (src : N -> V -> option X) (f : X -> V -> V) (t : gmap N V) : gmap N V :=
  map_imap (fun k v => Some (match src k v with Some x => f x v | None => v end)) t.

Lemma lookup_update_from {X} (src : N -> V -> option X) f (t : gmap N V) k :
  update_from src f t !! k = (fun v => match src k v with Some x => f x v | None => v end) <$> (t !! k).
Proof. unfold update_from. rewrite map_lookup_imap. by destruct (t !! k). Qed.

(** The rows that satisfy a [WHERE], as a list. *)
Definition select (p : N -> V -> bool) (t : gmap N V) : list (N * V) :=
  List.filter (fun kv => p kv.1 kv.2) (map_to_list t).

Lemma elem_of_select p (t : gmap N V) k v : (k, v) ∈ select p t <-> t !! k = Some v /\ p k v = true.
Proof.
  unfold select. rewrite list_elem_of_In, filter_In, <- list_elem_of_In, elem_of_map_to_list. done.
Qed.

(** [EXISTS (SELECT 1 FROM t WHERE p)] *)
Definition exists_row (p : N -> V -> bool) (t : gmap N V) : bool := negb (is_empty (select p t)).

Lemma exists_row_true p (t : gmap N V) : exists_row p t = true <-> exists k v, t !! k = Some v /\ p k v = true.
Proof.
  unfold exists_row. rewrite negb_true_iff, is_empty_false. split.
  - intros Hne. destruct (select p t) as [|[k v] l] eqn:E; [done|]. exists k, v. apply elem_of_select. rewrite E. left.
  - intros (k & v & Hkv%elem_of_select) E. rewrite E in Hkv. by apply elem_of_nil in Hkv.
Qed.

Lemma exists_row_false p (t : gmap N V) : exists_row p t = false <-> forall k v, t !! k = Some v -> p k v = false.
Proof.
  rewrite <- not_true_iff_false, exists_row_true. split.
  - intros Hn k v Hk. destruct (p k v) eqn:E; [|done]. exfalso. eauto.
  - intros Ha (k & v & Hk & Hp). rewrite (Ha k v Hk) in Hp. done.
Qed.

(** [SELECT .. WHERE p ORDER BY score DESC LIMIT 1] *)
Definition best (score : V -> Z) (acc : option (N * V)) (kv : N * V) : option (N * V) :=
  match acc with
  | Some m => if (score kv.2 <=? score m.2)%Z then Some m else Some kv
  | None => Some kv
  end.

Definition select_max (score : V -> Z) (p : N -> V -> bool) (t : gmap N V) : option (N * V) :=
  foldl (best score) None (select p t).

(** [SELECT COALESCE(MAX(score), 0) WHERE p] *)
Definition max_of (score : V -> Z) (p : N -> V -> bool) (t : gmap N V) : Z :=
  match select_max score p t with Some kv => Z.max 0 (score kv.2) | None => 0%Z end.

Lemma foldl_best score l acc :
  match foldl (best score) acc l with
  | None => acc = None /\ l = []
  | Some m => (acc = Some m \/ m ∈ l) /\
              (forall kv, kv ∈ l -> (score kv.2 <= score m.2)%Z) /\
              (forall a, acc = Some a -> (score a.2 <= score m.2)%Z)
  end.
Proof.
  revert acc. induction l as [|kv l IH]; intros acc; cbn [foldl].
  - destruct acc as [m|]; [|done]. split_and!; [by left|by intros ? ?%elem_of_nil|by intros ? [= ->]].
  - specialize (IH (best score acc kv)).
    assert (Hb : exists b, best score acc kv = Some b /\ (acc = Some b \/ b = kv) /\ (score kv.2 <= score b.2)%Z /\
                 forall a, acc = Some a -> (score a.2 <= score b.2)%Z).
    { unfold best. destruct acc as [a|]; [|exists kv; split_and!; [done|by right|lia|done]].
      destruct (Z.leb_spec (score kv.2) (score a.2)); [exists a|exists kv]; split_and!; try done; try lia; try (by left); try (by right);
        intros ? [= <-]; lia. }
    destruct Hb as (b & Eb & Hor & Hkv & Hacc). rewrite Eb in *.
    destruct (foldl (best score) (Some b) l) as [m|]; [|by destruct IH].
    destruct IH as (Hm & Hl & Ha). specialize (Ha b eq_refl). split_and!.
    + destruct Hm as [[= <-]|Hm]; [|right; by right]. destruct Hor as [->| ->]; [by left|right; left].
    + intros x [->|Hx]%elem_of_cons; [lia|by apply Hl].
    + intros a' Ea. specialize (Hacc _ Ea). lia.
Qed.

Lemma select_max_Some score p (t : gmap N V) k v :
  select_max score p t = Some (k, v) -> t !! k = Some v /\ p k v = true.
Proof.
  unfold select_max. intros E. pose proof (foldl_best score (select p t) None) as H. rewrite E in H.
  destruct H as ([?|Hin] & _); [done|]. by apply elem_of_select in Hin.
Qed.

Lemma select_max_None score p (t : gmap N V) :
  select_max score p t = None -> forall k v, t !! k = Some v -> p k v = false.
Proof.
  unfold select_max. intros E. pose proof (foldl_best score (select p t) None) as H. rewrite E in H.
  destruct H as [_ H]. apply exists_row_false. unfold exists_row. by rewrite H.
Qed.

Lemma max_of_ge score p (t : gmap N V) k v :
  t !! k = Some v -> p k v = true -> (score v <= max_of score p t)%Z.
Proof.
  intros Hk Hp. unfold max_of, select_max. pose proof (foldl_best score (select p t) None) as H.
  assert (Hin : (k, v) ∈ select p t) by (by apply elem_of_select).
  destruct (foldl (best score) None (select p t)) as [m|].
  - destruct H as (_ & H & _). specialize (H _ Hin). cbn in H. lia.
  - destruct H as [_ H]. rewrite H in Hin. by apply elem_of_nil in Hin.
Qed.

Lemma max_of_nonneg score p (t : gmap N V) : (0 <= max_of score p t)%Z.
Proof. unfold max_of. destruct (select_max score p t); lia. Qed.
End table.

(** ** Constraints *)

Section constraints.
Context `{Schema V}.

(** No row fails its [CHECK] and no two rows meet in a unique index. *)
Record valid_table (t : gmap N V) : Prop := {
  vt_check : forall k v, t !! k = Some v -> check v = true;
  vt_unique : forall i j x y, i <> j -> t !! i = Some x -> t !! j = Some y -> conflict x y = false }.

(** A write of one row, with the constraints the database enforces. *)
Definition put (k : N) (v : V) (t : gmap N V) : result (gmap N V) db_error :=
  if negb (check v) then Err CheckViolation
  else if exists_row (fun i w => negb (i =? k)%N && conflict v w) t then Err UniqueViolation
  else Ok (<[k := v]> t).

(** [INSERT]: the primary key has to be free. *)
Definition insert_row (k : N) (v : V) (t : gmap N V) : result (gmap N V) db_error :=
  match t !! k with Some _ => Err UniqueViolation | None => put k v t end.

Lemma put_Ok k v t t' :
  put k v t = Ok t' <->
  t' = <[k := v]> t /\ check v = true /\ forall i w, i <> k -> t !! i = Some w -> conflict v w = false.
Proof.
  unfold put. destruct (check v); cbn [negb]; [|by split; [|intros (_ & ? & _)]].
  destruct (exists_row _ t) eqn:E.
  - split; [done|]. intros (_ & _ & Hf). apply exists_row_true in E as (i & w & Hi & Hc).
    apply andb_true_iff in Hc as [Hne%negb_true_iff%N.eqb_neq Hc]. by rewrite (Hf i w) in Hc.
  - rewrite exists_row_false in E. split.
    + intros [= <-]. split_and!; [done|done|]. intros i w Hi Hw. specialize (E i w Hw).
      apply andb_false_iff in E as [E|E]; [|done]. by apply negb_false_iff, N.eqb_eq in E.
    + intros (-> & _). done.
Qed.

Lemma insert_row_Ok k v t t' :
  insert_row k v t = Ok t' <->
  t !! k = None /\ t' = <[k := v]> t /\ check v = true /\ forall i w, t !! i = Some w -> conflict v w = false.
Proof.
  unfold insert_row. destruct (t !! k) eqn:E; [by split; [|intros (? & _)]|]. rewrite put_Ok. split.
  - intros (-> & ? & Hf). split_and!; try done. intros i w Hw. apply (Hf i); [|done]. intros ->. congruence.
  - intros (_ & -> & ? & Hf). split_and!; eauto.
Qed.

Lemma put_valid k v t t' : valid_table t -> put k v t = Ok t' -> valid_table t'.
Proof.
  intros [Hc Hu] (-> & Hv & Hf)%put_Ok. split.
  - intros i x. rewrite lookup_insert_Some. intros [[_ <-]|[_ Hi]]; eauto.
  - intros i j x y Hij. rewrite !lookup_insert_Some. intros [[<- <-]|[Hi Hx]] [[<- <-]|[Hj Hy]]; eauto; try done.
    rewrite conflict_sym. eauto.
Qed.

Lemma insert_row_valid k v t t' : valid_table t -> insert_row k v t = Ok t' -> valid_table t'.
Proof. unfold insert_row. destruct (t !! k); [done|]. apply put_valid. Qed.

(** An update that introduces no new conflict keeps the constraints: it need
    not be checked. *)
Lemma update_where_valid p f t :
  (forall k v, t !! k = Some v -> p k v = true -> check v = true -> check (f v) = true) ->
  (forall x y, conflict (f x) y = true -> conflict x y = true) ->
  valid_table t -> valid_table (update_where p f t).
Proof.
  intros Hf Hcf [Hc Hu]. split.
  - intros k v' (v & Hv & ->)%update_where_Some. destruct (p k v) eqn:E; eauto.
  - intros i j x' y' Hij (x & Hx & ->)%update_where_Some (y & Hy & ->)%update_where_Some.
    specialize (Hu i j x y Hij Hx Hy). apply not_true_iff_false. intros Ht. apply not_true_iff_false in Hu. apply Hu.
    assert (H1 : forall x y, conflict x (f y) = true -> conflict x y = true).
    { intros a b. rewrite (conflict_sym a (f b)), (conflict_sym a b). apply Hcf. }
    destruct (p i x), (p j y); eauto.
Qed.

Lemma update_from_valid {X} (src : N -> V -> option X) f t :
  (forall k v x, t !! k = Some v -> src k v = Some x -> check v = true -> check (f x v) = true) ->
  (forall k v x w, src k v = Some x -> conflict (f x v) w = true -> conflict v w = true) ->
  valid_table t -> valid_table (update_from src f t).
Proof.
  intros Hf Hcf [Hc Hu]. split.
  - intros k v'. rewrite lookup_update_from, fmap_Some. intros (v & Hv & ->). destruct (src k v) eqn:E; eauto.
  - intros i j x' y' Hij. rewrite !lookup_update_from, !fmap_Some. intros (x & Hx & ->) (y & Hy & ->).
    specialize (Hu i j x y Hij Hx Hy). apply not_true_iff_false. intros Ht. apply not_true_iff_false in Hu. apply Hu.
    destruct (src i x) eqn:E1, (src j y) eqn:E2; [|by eapply Hcf| |done].
    + apply (Hcf _ _ _ _ E1). rewrite conflict_sym. apply (Hcf _ _ _ _ E2). rewrite conflict_sym. done.
    + rewrite conflict_sym. apply (Hcf _ _ _ _ E2). rewrite conflict_sym. done.
Qed.

Lemma valid_table_empty : valid_table ∅.
Proof. split; intros *; rewrite ?lookup_empty; done. Qed.
End constraints.
