(* ===== verification/Programs.v ===== *)
(** * Programs of calls

    A program of the server is a tree of calls to what lies outside (the
    database, Git, locks), each with a continuation for its answer.  The calls
    and their answers are parameters; what they do is the matter of the
    systems in which a program runs.

    [wp] is the weakest precondition of a program over a ghost state: what the
    answers so far have told it.  A protocol says when a call is justified by
    the ghost, which answers there can be, and what they tell. *)
From S2P Require Import Prelude.

Section programs.
Context {op : Type} {answer : op -> Type}.

Inductive io (A : Type) : Type :=
| Done (a : A)
| Call (o : op) (k : answer o -> io A).

Fixpoint io_bind {A B} (p : io A) (k : A -> io B) : io B :=
  match p with Done _ a => k a | Call _ o q => Call _ o (fun r => io_bind (q r) k) end.

Definition call (o : op) : io (answer o) := Call _ o (Done _).

(** [e?] in a function that returns a [Result]. *)
Definition try_bind {E A B} (p : io (result A E)) (k : A -> io (result B E)) : io (result B E) :=
  io_bind p (fun r => match r with Ok a => k a | Err e => Done _ (Err e) end).

(** ** Justified programs *)

Section wp.
Context {ghost : Type} (may_call : op -> ghost -> Prop) (may_answer : forall o, answer o -> Prop) (after : forall o, answer o -> ghost -> ghost).

Fixpoint wp {A} (p : io A) (Q : A -> ghost -> Prop) (g : ghost) : Prop :=
  match p with
  | Done _ a => Q a g
  | Call _ o k => may_call o g /\ forall a, may_answer o a -> wp (k a) Q (after o a g)
  end.

Lemma wp_mono {A} (p : io A) (Q R : A -> ghost -> Prop) g : (forall a g, Q a g -> R a g) -> wp p Q g -> wp p R g.
Proof. intros HQ. revert g. induction p as [a|o k IH]; intros g; cbn [wp]; [apply HQ|]. intros [Ho Hk]. split; [done|]. auto. Qed.

Lemma wp_bind {A B} (p : io A) (k : A -> io B) Q g : wp p (fun a => wp (k a) Q) g -> wp (io_bind p k) Q g.
Proof. revert g. induction p as [a|o q IH]; intros g; cbn [wp io_bind]; [done|]. intros [Ho Hk]. split; [done|]. auto. Qed.

(** A program in a [Result] that goes on with a value. *)
Lemma wp_try {E A B} (p : io (result A E)) (k : A -> io (result B E)) Q g :
  wp p (fun r g => match r with Ok a => wp (k a) Q g | Err e => Q (Err e) g end) g -> wp (try_bind p k) Q g.
Proof. intros H. apply wp_bind. eapply wp_mono; [|exact H]. by intros [a|e] g'. Qed.

Lemma wp_call o (Q : answer o -> ghost -> Prop) g :
  may_call o g -> (forall a, may_answer o a -> Q a (after o a g)) -> wp (call o) Q g.
Proof. by split. Qed.
End wp.

(** ** Executions *)

Section run.
Context {state : Type} (perform : state -> forall o, answer o * state).

(** With an executable environment a program runs to its end. *)
Fixpoint run_io {A} (p : io A) (st : state) : A * state :=
  match p with Done _ a => (a, st) | Call _ o k => let r := perform st o in run_io (k r.1) r.2 end.

Lemma run_bind {A B} (p : io A) (k : A -> io B) st a st' : run_io p st = (a, st') -> run_io (io_bind p k) st = run_io (k a) st'.
Proof. revert st. induction p as [x|o q IH]; intros st; cbn [run_io io_bind]; [by intros [= -> ->]|]. apply IH. Qed.

Lemma run_try {E A B} (p : io (result A E)) (k : A -> io (result B E)) st a st' :
  run_io p st = (Ok a, st') -> run_io (try_bind p k) st = run_io (k a) st'.
Proof. intros H. unfold try_bind. by rewrite (run_bind _ _ _ _ _ H). Qed.
(** Sequences associate. *)
Lemma run_assoc {A B C} (p : io A) (k : A -> io B) (q : B -> io C) st :
  run_io (io_bind (io_bind p k) q) st = run_io (io_bind p (fun a => io_bind (k a) q)) st.
Proof. revert st. induction p as [a|o c IH]; intros st; cbn [run_io io_bind]; [done|]. apply IH. Qed.

Lemma run_try_assoc {E A B C} (p : io (result A E)) (k : A -> io (result B E)) (q : B -> io (result C E)) st :
  run_io (try_bind (try_bind p k) q) st = run_io (try_bind p (fun a => try_bind (k a) q)) st.
Proof.
  unfold try_bind. rewrite run_assoc. revert st. induction p as [[a|x]|o c IH]; intros st; cbn [run_io io_bind]; [done|done|]. apply IH.
Qed.

Lemma run_bind_try {E A B C} (p : io A) (k : A -> io (result B E)) (q : B -> io (result C E)) st :
  run_io (try_bind (io_bind p k) q) st = run_io (io_bind p (fun a => try_bind (k a) q)) st.
Proof. unfold try_bind. by rewrite run_assoc. Qed.
End run.
End programs.

Arguments io {op} answer A.
Arguments Done {op answer A} a.
Arguments Call {op answer A} o k.

Declare Scope io_scope.
Delimit Scope io_scope with io.
Notation "'run!' x := p 'in' k" := (io_bind p (fun x => k))
  (at level 10, x pattern, p at level 200, k at level 200, format "'[v' 'run!'  x  :=  p  'in' '/' k ']'") : io_scope.
Notation "'run?' x := p 'in' k" := (try_bind p (fun x => k))
  (at level 10, x pattern, p at level 200, k at level 200, format "'[v' 'run?'  x  :=  p  'in' '/' k ']'") : io_scope.
Open Scope io_scope.
