(* ===== verification/Api.v ===== *)
(** * Errors of the API, and JSON values

    [ApiError] of [backend/src/api/mod.rs]: a status code and a message.
    [serde_json::Value] as the backend reads it.  The fields of an object are
    a list, and an object has each key once. *)
From S2P Require Import Prelude Table.

Record ApiError : Type := { status : Z; message : str }.
#[export] Instance ApiError_eq_dec : EqDecision ApiError.
Proof. solve_decision. Defined.

Definition api (status : Z) (message : str) : ApiError := {| status := status; message := message |}.

Definition bad_request (message : str) : ApiError := api 400 message.
Definition unauthorized : ApiError := api 401 §"unauthorized".
Definition forbidden : ApiError := api 403 §"forbidden".
Definition not_found : ApiError := api 404 §"resource not found".
Definition not_found_named (what : str) : ApiError := api 404 what.
Definition conflict_error (message : str) : ApiError := api 409 message.
Definition gone (message : str) : ApiError := api 410 message.
Definition payload_too_large (message : str) : ApiError := api 413 message.
Definition too_many_requests : ApiError := api 429 §"rate limit exceeded".
Definition service_unavailable (message : str) : ApiError := api 503 message.
Definition unavailable : ApiError := service_unavailable §"database is unavailable".
Definition internal_with_message (message : str) : ApiError := api 500 message.

(** What the database tells of an error: its code, constraint and message. *)
Record database_error : Type := { de_code : str; de_constraint : option str; de_message : str }.

(** [internal] *)
Definition internal_error (e : option database_error) : ApiError :=
  match e with
  | Some d =>
    if str_eqb (de_code d) §"42501" && str_eqb (de_message d) §"forge_request_authority_expired"
    then service_unavailable §"Original admission proof expired before COMMIT"
    else if str_eqb (de_code d) §"23505" &&
      bool_decide (de_constraint d = Some §"delivery_configuration_repository_name" \/ de_constraint d = Some §"legacy_unbound_configuration_name")
    then conflict_error §"delivery_configuration_name_conflict"
    else if str_eqb (de_code d) §"42501" &&
      bool_decide (de_message d ∈ [§"namespace_resource_read_only"; §"delivery_configuration_history_protected"; §"delivery_checkout_identity_immutable"])
    then conflict_error (de_message d)
    else internal_with_message §"internal server error"
  | None => internal_with_message §"internal server error"
  end.

(** The errors of a database that are not singled out. *)
Definition internal : ApiError := internal_error None.

(** [resource_delete] *)
Definition resource_delete (e : option database_error) : ApiError :=
  if match e with
     | Some d => str_eqb (de_code d) §"23503" && match de_constraint d with Some name => starts_with §"sdlc_workspace_operations_" name | None => false end
     | None => false
     end
  then conflict_error §"resource is retained by immutable SDLC workspace history"
  else internal_error e.

(** [code] *)
Definition code (e : ApiError) : str :=
  if (status e =? 400)%Z then §"invalid_request"
  else if (status e =? 401)%Z then §"unauthorized"
  else if (status e =? 403)%Z then §"permission_denied"
  else if (status e =? 404)%Z then §"not_found"
  else if (status e =? 409)%Z then §"conflict"
  else if (status e =? 410)%Z then §"expired"
  else if (status e =? 429)%Z then §"rate_limited"
  else if (status e =? 413)%Z then §"payload_too_large"
  else if (status e =? 503)%Z then §"unavailable"
  else §"internal_error".

(** [map_err(ApiError::internal)] *)
Definition or_internal {A} (r : result A db_error) : result A ApiError :=
  match r with Ok a => Ok a | Err _ => Err internal end.

(** [map_err(|_| e)] *)
Definition or_error {A E} (e : ApiError) (r : result A E) : result A ApiError :=
  match r with Ok a => Ok a | Err _ => Err e end.

Lemma or_internal_Ok {A} (r : result A db_error) a : or_internal r = Ok a -> r = Ok a.
Proof. by destruct r; [intros [= ->]|]. Qed.

(** ** JSON values *)

(** Numbers: integers, and the text of everything else. *)
Inductive json : Type :=
| JsonNull
| JsonBool (b : bool)
| JsonNumber (n : Z)
| JsonFloat (text : str)
| JsonText (s : str)
| JsonArray (items : list json)
| JsonObject (fields : list (str * json)).

Fixpoint field (key : str) (fields : list (str * json)) : option json :=
  match fields with
  | [] => None
  | (k, v) :: rest => if str_eqb k key then Some v else field key rest
  end.

(** [Value::get], and [value[key]], which is [Null] when there is none. *)
Definition json_get (v : json) (key : str) : option json :=
  match v with JsonObject fields => field key fields | _ => None end.
Definition json_index (v : json) (key : str) : json := default JsonNull (json_get v key).

Definition as_object (v : json) : option (list (str * json)) := match v with JsonObject f => Some f | _ => None end.
Definition as_array (v : json) : option (list json) := match v with JsonArray l => Some l | _ => None end.
Definition as_text (v : json) : option str := match v with JsonText s => Some s | _ => None end.
Definition is_boolean (v : json) : bool := match v with JsonBool _ => true | _ => false end.

(** [value == "text"], [value == 1], [value == false], [value == json!([..])] *)
Definition is_text (v : json) (s : str) : bool := match v with JsonText t => str_eqb t s | _ => false end.
Definition is_number (v : json) (n : Z) : bool := match v with JsonNumber m => (m =? n)%Z | _ => false end.
Definition is_bool (v : json) (b : bool) : bool := match v with JsonBool c => Bool.eqb b c | _ => false end.
Fixpoint all_texts (items : list json) (l : list str) : bool :=
  match items, l with
  | [], [] => true
  | v :: items, s :: l => is_text v s && all_texts items l
  | _, _ => false
  end.
Definition is_texts (v : json) (l : list str) : bool := match v with JsonArray items => all_texts items l | _ => false end.

Lemma is_text_true v s : is_text v s = true <-> v = JsonText s.
Proof. destruct v; cbn; try (by split). rewrite str_eqb_true. split; [by intros ->|by intros [= ->]]. Qed.

Lemma is_number_true v n : is_number v n = true <-> v = JsonNumber n.
Proof. destruct v; cbn; try (by split). rewrite Z.eqb_eq. split; [by intros ->|by intros [= ->]]. Qed.

Lemma is_texts_true v l : is_texts v l = true <-> v = JsonArray (map JsonText l).
Proof.
  destruct v as [| | | | |items|]; cbn; try (by split).
  assert (H : forall items, all_texts items l = true <-> items = map JsonText l).
  { clear items. induction l as [|s l IH]; intros [|x items]; cbn [all_texts map]; try (by split).
    rewrite andb_true_iff, is_text_true, IH. split; [by intros [-> ->]|by intros [= -> ->]]. }
  rewrite H. split; [by intros ->|by intros [= ->]].
Qed.
