(* ===== verification/Ledger.v ===== *)
(** * The dispatch ledger: attempts, queue and leases

    The tables behind job execution and the SQL statements that change them:
    [backend/infra/src/lib.rs], [backend/src/runner.rs] and
    [backend/src/runner_protocol.rs], with the constraints of
    [backend/migrations].  One definition is one statement, or one transaction
    where the code uses one: the units that run atomically.  [now] is the
    database clock, identifiers made by [Uuid::new_v4] or [gen_random_uuid] are
    arguments.  Rows are never deleted here, the cascade of a deleted project
    is not modelled. *)
From S2P Require Import Prelude Status Table.

(** ** Rows *)

Inductive LeaseStatus : Type := Active | Completed | Expired | LeaseCanceled.
Inductive QueueState : Type := QQueued | QLeased | QCompleted | QCanceled.

#[export] Instance LeaseStatus_eq_dec : EqDecision LeaseStatus.
Proof. solve_decision. Defined.
#[export] Instance QueueState_eq_dec : EqDecision QueueState.
Proof. solve_decision. Defined.

(** [execution_attempts] *)
Record attempt_row : Type := {
  at_job : N;
  at_no : Z;
  at_status : JobStatus;
  at_trigger : str;
  at_created_at : Z;
  at_started_at : option Z;
  at_finished_at : option Z;
  at_exit_code : option Z;
  at_error_tail : option str }.

(** [job_leases]; a lease of an external runner has a runner and a token. *)
Record lease_row : Type := {
  le_job : N;
  le_attempt : N;
  le_runner : option N;
  le_token_hash : option str;
  le_status : LeaseStatus;
  le_generation : Z;
  le_expires_at : Z;
  le_ack_deadline : option Z;
  le_acknowledged_at : option Z;
  le_cancel_requested_at : option Z;
  le_completed_at : option Z;
  le_completion_received_at : option Z;
  le_terminal_status : option JobStatus;
  le_error_tail : option str }.

(** [job_queue] *)
Record queue_row : Type := {
  qu_job : N;
  qu_attempt : N;
  qu_pipeline : N;
  qu_stage : N;
  qu_state : QueueState;
  qu_not_before : Z;
  qu_required_tags : list str;
  qu_queued_at : Z;
  qu_leased_at : option Z;
  qu_lease : option N;
  qu_completed_at : option Z }.

Record ledger : Type := {
  core : db;
  attempts : gmap N attempt_row;
  leases : gmap N lease_row;
  queue : gmap N queue_row;
  (** [projects.max_running_jobs] *)
  max_running_jobs : gmap N (option Z) }.

Definition with_core (d : db) (l : ledger) : ledger :=
  {| core := d; attempts := attempts l; leases := leases l; queue := queue l; max_running_jobs := max_running_jobs l |}.
Definition with_attempts (t : gmap N attempt_row) (l : ledger) : ledger :=
  {| core := core l; attempts := t; leases := leases l; queue := queue l; max_running_jobs := max_running_jobs l |}.
Definition with_leases (t : gmap N lease_row) (l : ledger) : ledger :=
  {| core := core l; attempts := attempts l; leases := t; queue := queue l; max_running_jobs := max_running_jobs l |}.
Definition with_queue (t : gmap N queue_row) (l : ledger) : ledger :=
  {| core := core l; attempts := attempts l; leases := leases l; queue := t; max_running_jobs := max_running_jobs l |}.
Definition with_jobs (t : gmap N job_row) (l : ledger) : ledger :=
  with_core {| jobs := t; stages := stages (core l); pipelines := pipelines (core l);
               events := events (core l); wakeups := wakeups (core l) |} l.
Definition with_stages (t : gmap N stage_row) (l : ledger) : ledger :=
  with_core {| jobs := jobs (core l); stages := t; pipelines := pipelines (core l);
               events := events (core l); wakeups := wakeups (core l) |} l.
Definition with_pipelines (t : gmap N pipeline_row) (l : ledger) : ledger :=
  with_core {| jobs := jobs (core l); stages := stages (core l); pipelines := t;
               events := events (core l); wakeups := wakeups (core l) |} l.
(** [notify_runner_work()] *)
Definition notify_runner_work (l : ledger) : ledger :=
  with_core {| jobs := jobs (core l); stages := stages (core l); pipelines := pipelines (core l);
               events := events (core l); wakeups := S (wakeups (core l)) |} l.

(** SQL's [COALESCE] of two columns. *)
Definition coalesce {A} (a b : option A) : option A := match a with Some _ => a | None => b end.

(** ** Constraints of the migrations *)

(** [status IN ('queued','running')] *)
Definition live (s : JobStatus) : bool := match s with Queued | Running => true | _ => false end.
Definition lease_active (r : lease_row) : bool := bool_decide (le_status r = Active).
(** [state IN ('queued','leased')] *)
Definition queue_open (q : queue_row) : bool := match qu_state q with QQueued | QLeased => true | _ => false end.

(** Equality of two nullable unique columns: NULLs never meet. *)
Definition same_key {A} `{EqDecision A} (a b : option A) : bool := is_some a && bool_decide (a = b).

Lemma same_key_sym {A} `{EqDecision A} (a b : option A) : same_key a b = same_key b a.
Proof.
  unfold same_key. destruct (bool_decide_reflect (a = b)) as [->|Hne]; [by rewrite bool_decide_true|].
  by rewrite bool_decide_false, !andb_false_r by congruence.
Qed.

(** [UNIQUE(job_id, attempt_no)] and [idx_execution_attempts_active_job] *)
Definition attempt_conflict (x y : attempt_row) : bool :=
  (at_job x =? at_job y)%N && ((at_no x =? at_no y)%Z || (live (at_status x) && live (at_status y))).

(** The [CHECK] of migration 0015, and [job_leases_completion_received_terminal]
    of 0039. *)
Definition received_check (r : lease_row) : bool :=
  negb (is_some (le_completion_received_at r))
  || (match le_status r with Completed | LeaseCanceled => true | _ => false end
      && is_some (le_completed_at r) && is_some (le_acknowledged_at r) && is_some (le_terminal_status r)).

Definition lease_check (r : lease_row) : bool :=
  (if lease_active r then negb (is_some (le_completed_at r)) && negb (is_some (le_terminal_status r))
   else is_some (le_completed_at r))
  && received_check r.

(** [UNIQUE(job_id, generation)], [idx_job_leases_active_job] and
    [idx_job_leases_active_token_hash] *)
Definition lease_conflict (x y : lease_row) : bool :=
  ((le_job x =? le_job y)%N && ((le_generation x =? le_generation y)%Z || (lease_active x && lease_active y)))
  || (lease_active x && lease_active y && same_key (le_token_hash x) (le_token_hash y)).

Definition queue_check (q : queue_row) : bool :=
  match qu_state q with
  | QQueued => negb (is_some (qu_leased_at q)) && negb (is_some (qu_lease q)) && negb (is_some (qu_completed_at q))
  | QLeased => is_some (qu_leased_at q) && negb (is_some (qu_completed_at q))
  | QCompleted | QCanceled => is_some (qu_completed_at q)
  end.

(** [idx_job_queue_attempt], [idx_job_queue_open_job] and [idx_job_queue_lease] *)
Definition queue_conflict (x y : queue_row) : bool :=
  (qu_attempt x =? qu_attempt y)%N
  || ((qu_job x =? qu_job y)%N && queue_open x && queue_open y)
  || same_key (qu_lease x) (qu_lease y).

#[export, program] Instance attempt_schema : Schema attempt_row :=
  {| check := fun _ => true; conflict := attempt_conflict |}.
Next Obligation.
  intros x y. unfold attempt_conflict. by rewrite (N.eqb_sym (at_job y)), (Z.eqb_sym (at_no y)), (andb_comm (live (at_status y))).
Qed.

#[export, program] Instance lease_schema : Schema lease_row := {| check := lease_check; conflict := lease_conflict |}.
Next Obligation.
  intros x y. unfold lease_conflict.
  by rewrite (N.eqb_sym (le_job y)), (Z.eqb_sym (le_generation y)), (andb_comm (lease_active y)), (same_key_sym (le_token_hash y)).
Qed.

#[export, program] Instance queue_schema : Schema queue_row := {| check := queue_check; conflict := queue_conflict |}.
Next Obligation.
  intros x y. unfold queue_conflict.
  by rewrite (N.eqb_sym (qu_attempt y)), (N.eqb_sym (qu_job y)), <- !andb_assoc, (andb_comm (queue_open y)), (same_key_sym (qu_lease y)).
Qed.

(** ** Row updates *)

Definition set_job (status : JobStatus) (started finished : option Z) (j : job_row) : job_row :=
  {| job_stage := job_stage j; job_status := status; allow_failure := allow_failure j; job_manual := job_manual j;
     job_command := job_command j; job_required_tags := job_required_tags j;
     job_timeout_seconds := job_timeout_seconds j; job_started_at := started; job_finished_at := finished |}.

Definition clear_manual (j : job_row) : job_row :=
  {| job_stage := job_stage j; job_status := job_status j; allow_failure := allow_failure j; job_manual := false;
     job_command := job_command j; job_required_tags := job_required_tags j;
     job_timeout_seconds := job_timeout_seconds j; job_started_at := job_started_at j;
     job_finished_at := job_finished_at j |}.

Definition set_attempt (status : JobStatus) (trigger : str) (started finished exit_code : option Z) (tail : option str)
  (a : attempt_row) : attempt_row :=
  {| at_job := at_job a; at_no := at_no a; at_status := status; at_trigger := trigger; at_created_at := at_created_at a;
     at_started_at := started; at_finished_at := finished; at_exit_code := exit_code; at_error_tail := tail |}.

(** [SET status, finished_at = COALESCE(finished_at, now()), error_tail = COALESCE(error_tail, tail)] *)
Definition finish_attempt (now : Z) (status : JobStatus) (tail : option str) (a : attempt_row) : attempt_row :=
  set_attempt status (at_trigger a) (at_started_at a) (coalesce (at_finished_at a) (Some now)) (at_exit_code a)
    (coalesce (at_error_tail a) tail) a.

(** The columns of a lease that change after it was granted. *)
Definition set_lease (status : LeaseStatus) (expires : Z) (acknowledged cancel_requested completed received : option Z)
  (terminal : option JobStatus) (tail : option str) (r : lease_row) : lease_row :=
  {| le_job := le_job r; le_attempt := le_attempt r; le_runner := le_runner r; le_token_hash := le_token_hash r;
     le_status := status; le_generation := le_generation r; le_expires_at := expires;
     le_ack_deadline := le_ack_deadline r; le_acknowledged_at := acknowledged;
     le_cancel_requested_at := cancel_requested; le_completed_at := completed;
     le_completion_received_at := received; le_terminal_status := terminal; le_error_tail := tail |}.

(** [SET lease_status, completed_at = COALESCE(completed_at, now()), terminal_status, error_tail = COALESCE(..)] *)
Definition close_lease (now : Z) (status : LeaseStatus) (terminal : JobStatus) (tail : option str) (r : lease_row) : lease_row :=
  set_lease status (le_expires_at r) (le_acknowledged_at r) (le_cancel_requested_at r)
    (coalesce (le_completed_at r) (Some now)) (le_completion_received_at r) (Some terminal)
    (coalesce (le_error_tail r) tail) r.

(** [SET cancel_requested_at = COALESCE(..), error_tail = COALESCE(..)] *)
Definition request_cancel (now : Z) (tail : str) (r : lease_row) : lease_row :=
  set_lease (le_status r) (le_expires_at r) (le_acknowledged_at r) (coalesce (le_cancel_requested_at r) (Some now))
    (le_completed_at r) (le_completion_received_at r) (le_terminal_status r) (coalesce (le_error_tail r) (Some tail)) r.

Definition set_queue (state : QueueState) (not_before : Z) (tags : list str) (leased : option Z) (lease : option N)
  (completed : option Z) (q : queue_row) : queue_row :=
  {| qu_job := qu_job q; qu_attempt := qu_attempt q; qu_pipeline := qu_pipeline q; qu_stage := qu_stage q;
     qu_state := state; qu_not_before := not_before; qu_required_tags := tags; qu_queued_at := qu_queued_at q;
     qu_leased_at := leased; qu_lease := lease; qu_completed_at := completed |}.

Definition queue_state_for_terminal (terminal : JobStatus) : QueueState :=
  match terminal with Canceled => QCanceled | _ => QCompleted end.

Definition lease_status_for_terminal (terminal : JobStatus) : LeaseStatus :=
  match terminal with Canceled => LeaseCanceled | _ => Completed end.

(** [SET state, completed_at = COALESCE(completed_at, now())] *)
Definition close_queue_row (now : Z) (state : QueueState) (q : queue_row) : queue_row :=
  set_queue state (qu_not_before q) (qu_required_tags q) (qu_leased_at q) (qu_lease q)
    (coalesce (qu_completed_at q) (Some now)) q.

Definition truncate_error_tail (value : str) : str := take 1000 value.

(** An external runner holds the lease. *)
Definition lease_external (r : lease_row) : bool := is_some (le_runner r) && is_some (le_token_hash r).

(** ** Joins *)

Definition pipeline_of_job (l : ledger) (job : N) : option N :=
  j ← jobs (core l) !! job; s ← stages (core l) !! job_stage j; Some (stage_pipeline s).

Definition in_pipeline (l : ledger) (pipeline job : N) : bool := bool_decide (pipeline_of_job l job = Some pipeline).

(** The status of the pipeline of a job. *)
Definition pipeline_status_of (l : ledger) (pipeline : N) : option JobStatus :=
  pipeline_status <$> (pipelines (core l) !! pipeline).

Definition project_of_job (l : ledger) (job : N) : option N :=
  p ← pipeline_of_job l job; row ← pipelines (core l) !! p; Some (project_id row).

(** A job of a pipeline in the given status. *)
Definition in_pipeline_with (l : ledger) (status : JobStatus) (job : N) : bool :=
  match pipeline_of_job l job with
  | Some p => bool_decide (pipeline_status_of l p = Some status)
  | None => false
  end.

(** ** Attempts and the queue: [backend/infra/src/lib.rs] *)

Definition has_active_lease (l : ledger) (job : N) : bool :=
  exists_row (fun _ r => (le_job r =? job)%N && lease_active r) (leases l).

Definition next_attempt_no (l : ledger) (job : N) : Z :=
  (max_of at_no (fun _ a => (at_job a =? job)%N) (attempts l) + 1)%Z.

Definition new_attempt (now : Z) (job : N) (no : Z) (status : JobStatus) (trigger : str) : attempt_row :=
  {| at_job := job; at_no := no; at_status := status; at_trigger := trigger; at_created_at := now;
     at_started_at := None; at_finished_at := None; at_exit_code := None; at_error_tail := None |}.

(** [job_id UUID NOT NULL REFERENCES jobs(id)] *)
Definition insert_attempt (id : N) (a : attempt_row) (l : ledger) : result ledger db_error :=
  let? _ := ok_or (jobs (core l) !! at_job a) ForeignKeyViolation in
  let? t := insert_row id a (attempts l) in Ok (with_attempts t l).

Definition open_attempt_id (now : Z) (new_id job : N) (trigger : str) (l : ledger) : result (N * ledger) db_error :=
  match select_max at_no (fun _ a => (at_job a =? job)%N && live (at_status a)) (attempts l) with
  | Some (id, _) => Ok (id, l)
  | None =>
    let? _ := ok_or (jobs (core l) !! job) RowNotFound in
    let? l' := insert_attempt new_id (new_attempt now job (next_attempt_no l job) Queued trigger) l in
    Ok (new_id, l')
  end.

Definition active_or_latest_attempt_id (now : Z) (new_id job : N) (l : ledger) : result (N * ledger) db_error :=
  match select_max at_no (fun _ a => (at_job a =? job)%N && live (at_status a)) (attempts l),
        select_max at_no (fun _ a => (at_job a =? job)%N) (attempts l) with
  | Some (id, _), _ | None, Some (id, _) => Ok (id, l)
  | None, None =>
    let? j := ok_or (jobs (core l) !! job) RowNotFound in
    let? l' := insert_attempt new_id (new_attempt now job 1 (job_status j) §"compat") l in
    Ok (new_id, l')
  end.

(** [INSERT INTO job_queue .. ON CONFLICT (attempt_id) DO UPDATE .. WHERE
    job_queue.state IN ('queued','completed','canceled')]; the number of rows
    it touched. *)
Definition upsert_queue (new_id : N) (row : queue_row) (reopened : queue_row -> queue_row) (l : ledger)
  : result (nat * ledger) db_error :=
  match select (fun _ q => (qu_attempt q =? qu_attempt row)%N) (queue l) with
  | (id, q) :: _ =>
    if bool_decide (qu_state q = QLeased) then Ok (0, l)
    else let? t := put id (reopened q) (queue l) in Ok (1, with_queue t l)
  | [] => let? t := insert_row new_id row (queue l) in Ok (1, with_queue t l)
  end.

Definition queued_row (not_before queued_at : Z) (job attempt pipeline stage : N) (tags : list str) : queue_row :=
  {| qu_job := job; qu_attempt := attempt; qu_pipeline := pipeline; qu_stage := stage; qu_state := QQueued;
     qu_not_before := not_before; qu_required_tags := tags; qu_queued_at := queued_at; qu_leased_at := None;
     qu_lease := None; qu_completed_at := None |}.

Definition enqueue_job_attempt_tx (now : Z) (new_id job attempt : N) (l : ledger) : result (nat * ledger) db_error :=
  match jobs (core l) !! job, attempts l !! attempt with
  | Some j, Some a =>
    match stages (core l) !! job_stage j with
    | Some s =>
      match pipelines (core l) !! stage_pipeline s with
      | Some p =>
        if (at_job a =? job)%N && bool_decide (job_status j = Queued) && bool_decide (at_status a = Queued)
           && negb (job_manual j) && live (pipeline_status p)
        then upsert_queue new_id (queued_row now now job attempt (stage_pipeline s) (job_stage j) (job_required_tags j))
               (set_queue QQueued now (job_required_tags j) None None None) l
        else Ok (0, l)
      | None => Ok (0, l)
      end
    | None => Ok (0, l)
    end
  | _, _ => Ok (0, l)
  end.

Definition notify_if (affected : nat) (l : ledger) : ledger := if (0 <? affected)%nat then notify_runner_work l else l.

Definition enqueue_job_attempt (now : Z) (new_id job attempt : N) (l : ledger) : result (nat * ledger) db_error :=
  let? r := enqueue_job_attempt_tx now new_id job attempt l in Ok (r.1, notify_if r.1 r.2).

Definition enqueue_current_job_attempt (now : Z) (new_id job : N) (l : ledger) : result (nat * ledger) db_error :=
  match select_max at_no (fun _ a => (at_job a =? job)%N && bool_decide (at_status a = Queued)) (attempts l) with
  | Some (attempt, _) => enqueue_job_attempt now new_id job attempt l
  | None => Ok (0, l)
  end.

(** The [SELECT] of [enqueue_missing_ready_jobs] for one job: the row to
    insert. *)
Definition missing_ready (now : Z) (l : ledger) (job : N) (j : job_row) : option queue_row :=
  s ← stages (core l) !! job_stage j;
  p ← pipelines (core l) !! stage_pipeline s;
  a ← select_max at_no (fun _ a => (at_job a =? job)%N && bool_decide (at_status a = Queued)) (attempts l);
  if bool_decide (job_status j = Queued) && negb (job_manual j) && live (pipeline_status p)
     && (has_plan p || (now - seconds (24 * 3600) <? pipeline_created_at p)%Z)
     && negb (has_active_lease l job)
  then Some (queued_row now (at_created_at a.2) job a.1 (stage_pipeline s) (job_stage j) (job_required_tags j))
  else None.

(** The conflict branch keeps [not_before]. *)
Definition enqueue_missing_ready_jobs (now : Z) (ids : N -> N) (l : ledger) : result (nat * ledger) db_error :=
  let rows := omap (fun kv => missing_ready now l kv.1 kv.2) (map_to_list (jobs (core l))) in
  let? r := rfold (fun acc row =>
                     let? r := upsert_queue (ids (qu_job row)) row
                                 (fun q => set_queue QQueued (qu_not_before q) (qu_required_tags row) None None None q) acc.2 in
                     Ok (acc.1 + r.1, r.2)) (0, l) rows in
  Ok (r.1, notify_if r.1 r.2).

(** [close_job_queue_for_attempt], [.._for_job], [.._for_lease] and
    [.._for_pipeline]: one [UPDATE] with different keys. *)
Definition close_job_queue (p : queue_row -> bool) (now : Z) (terminal : JobStatus) (l : ledger) : ledger :=
  with_queue (update_where (fun _ q => p q && queue_open q)
                           (close_queue_row now (queue_state_for_terminal terminal)) (queue l)) l.

Definition close_job_queue_for_attempt (now : Z) (attempt : N) : JobStatus -> ledger -> ledger :=
  close_job_queue (fun q => (qu_attempt q =? attempt)%N) now.
Definition close_job_queue_for_job (now : Z) (job : N) : JobStatus -> ledger -> ledger :=
  close_job_queue (fun q => (qu_job q =? job)%N) now.
Definition close_job_queue_for_lease (now : Z) (lease : N) : JobStatus -> ledger -> ledger :=
  close_job_queue (fun q => bool_decide (qu_lease q = Some lease)) now.
Definition close_job_queue_for_pipeline (now : Z) (pipeline : N) : JobStatus -> ledger -> ledger :=
  close_job_queue (fun q => (qu_pipeline q =? pipeline)%N) now.

(** ** Claims *)

(** A queue row joined with its job, attempt, stage, pipeline and project. *)
Record queue_join : Type := {
  qj_job : job_row;
  qj_attempt : attempt_row;
  qj_stage : stage_row;
  qj_pipeline : pipeline_row;
  qj_cap : option Z }.

Definition join_queue (l : ledger) (q : queue_row) : option queue_join :=
  j ← jobs (core l) !! qu_job q;
  a ← attempts l !! qu_attempt q;
  s ← stages (core l) !! job_stage j;
  p ← pipelines (core l) !! stage_pipeline s;
  cap ← max_running_jobs l !! project_id p;
  Some {| qj_job := j; qj_attempt := a; qj_stage := s; qj_pipeline := p; qj_cap := cap |}.

(** The conditions that both claims share. *)
Definition dispatchable (now : Z) (l : ledger) (q : queue_row) (j : job_row) (a : attempt_row) (p : pipeline_row) : bool :=
  bool_decide (qu_state q = QQueued) && (qu_not_before q <=? now)%Z
  && bool_decide (job_status j = Queued) && bool_decide (at_status a = Queued)
  && negb (job_manual j) && live (pipeline_status p)
  && negb (has_active_lease l (qu_job q)).

(** The subquery that counts the active leases of a project. *)
Definition running_leases (counts : lease_row -> bool) (l : ledger) (project : N) : Z :=
  zlen (select (fun _ r => lease_active r && counts r && bool_decide (project_of_job l (le_job r) = Some project)) (leases l)).

Definition below_cap (counts : lease_row -> bool) (l : ledger) (x : queue_join) : bool :=
  match qj_cap x with
  | None => true
  | Some cap => (running_leases counts l (project_id (qj_pipeline x)) <? cap)%Z
  end.

(** No job of an earlier stage is unfinished, and none of the same position
    failed for good. *)
Definition stage_turn (l : ledger) (s : stage_row) : bool :=
  negb (exists_row (fun _ j =>
          match stages (core l) !! job_stage j with
          | Some xs => (stage_pipeline xs =? stage_pipeline s)%N && (stage_position xs <? stage_position s)%Z
                       && negb (bool_decide (job_status j = Success))
                       && negb (bool_decide (job_status j = Failed) && allow_failure j)
          | None => false
          end) (jobs (core l)))
  && negb (exists_row (fun _ j =>
          match stages (core l) !! job_stage j with
          | Some ys => (stage_pipeline ys =? stage_pipeline s)%N && (stage_position ys =? stage_position s)%Z
                       && bool_decide (job_status j = Failed) && negb (allow_failure j)
          | None => false
          end) (jobs (core l))).

Definition publish_command : str := §"forge:image-publish".
Definition deploy_command : str := §"forge:helm-deploy".
Definition build_command : str := §"forge:image-build".

(** The embedded runner takes jobs without tags and without remote actions. *)
Definition embedded_job (q : queue_row) (j : job_row) : bool :=
  is_empty (qu_required_tags q) && negb (str_eqb (job_command j) publish_command)
  && negb (str_eqb (job_command j) deploy_command).

Definition next_generation (l : ledger) (job : N) : Z :=
  (max_of le_generation (fun _ r => (le_job r =? job)%N) (leases l) + 1)%Z.

Definition new_lease (job attempt : N) (runner : option N) (token_hash : option str) (generation expires : Z)
  (ack_deadline : option Z) : lease_row :=
  {| le_job := job; le_attempt := attempt; le_runner := runner; le_token_hash := token_hash; le_status := Active;
     le_generation := generation; le_expires_at := expires; le_ack_deadline := ack_deadline;
     le_acknowledged_at := None; le_cancel_requested_at := None; le_completed_at := None;
     le_completion_received_at := None; le_terminal_status := None; le_error_tail := None |}.

(** The data-modifying part of both claims: the job and the attempt start, the
    lease is created and the queue row is leased. *)
Definition grant (now : Z) (lease_id qid : N) (q : queue_row) (trigger : str) (job_started : option Z -> option Z)
  (lease : lease_row) (l : ledger) : result ledger db_error :=
  let? leases' := insert_row lease_id lease (leases l) in
  let jobs' := update_where (fun k j => (k =? qu_job q)%N && bool_decide (job_status j = Queued))
                 (fun j => set_job Running (job_started (job_started_at j)) (job_finished_at j) j) (jobs (core l)) in
  let attempts' := update_where (fun k a => (k =? qu_attempt q)%N && bool_decide (at_status a = Queued))
                     (fun a => set_attempt Running trigger (coalesce (at_started_at a) (Some now)) (at_finished_at a)
                                 (at_exit_code a) (at_error_tail a) a) (attempts l) in
  let? queue' := put qid (set_queue QLeased (qu_not_before q) (qu_required_tags q) (Some now) (Some lease_id)
                                    (qu_completed_at q) q) (queue l) in
  Ok (with_jobs jobs' (with_attempts attempts' (with_leases leases' (with_queue queue' l)))).

(** [LEAST(GREATEST(COALESCE(j.timeout_seconds, 3600), 5), 86400)] *)
Definition clamp_timeout (t : option Z) : Z := Z.min (Z.max (default 3600%Z t) 5) 86400.

Definition embedded_ready (now : Z) (job : N) (admitted : option N) (l : ledger) (q : queue_row) : bool :=
  (qu_job q =? job)%N && match admitted with None => true | Some a => (qu_attempt q =? a)%N end
  && match join_queue l q with
     | Some x => dispatchable now l q (qj_job x) (qj_attempt x) (qj_pipeline x) && embedded_job q (qj_job x) && below_cap (fun _ => true) l x
     | None => false
     end.

(** The transaction of [claim_embedded_job_lease]; a serialization failure is
    an aborted transaction, and returns [None] as well. *)
Definition claim_embedded_tx (now : Z) (lease_id job : N) (admitted : option N) (l : ledger)
  : result (option (N * N * Z) * ledger) db_error :=
  match select (fun _ q => embedded_ready now job admitted l q) (queue l) with
  | (qid, q) :: _ =>
    let generation := next_generation l job in
    let ttl := clamp_timeout (j ← jobs (core l) !! job; job_timeout_seconds j) in
    let lease := new_lease (qu_job q) (qu_attempt q) None None generation (now + seconds (ttl + 60)) None in
    let? l' := grant now lease_id qid q §"runner" (fun _ => Some now) lease l in
    Ok (Some (lease_id, qu_attempt q, generation), l')
  | [] => Ok (None, l)
  end.

(** [claim_next_work]: [others] stands for the conditions that read tables
    outside the ledger (capabilities of the runner, task intents, pipeline
    variables, deployment targets, namespaces).  [SKIP LOCKED] lets the
    statement pass over rows other transactions hold, so any eligible row
    [qid] can be the one it takes. *)
Definition external_ready (now : Z) (tags : list str) (others : N -> bool) (l : ledger) (qid : N) (q : queue_row) : bool :=
  others qid
  && match join_queue l q with
     | Some x =>
       dispatchable now l q (qj_job x) (qj_attempt x) (qj_pipeline x) && negb (str_eqb (job_command (qj_job x)) build_command)
       && forallb (fun t => bool_decide (t ∈ tags)) (qu_required_tags q)
       && below_cap (fun r => is_some (le_runner r)) l x
       && stage_turn l (qj_stage x)
     | None => false
     end.

Definition claim_external_tx (now : Z) (lease_id runner : N) (token_hash : str) (tags : list str) (others : N -> bool)
  (qid : N) (l : ledger) : result (option (N * N * Z) * ledger) db_error :=
  match queue l !! qid with
  | Some q =>
    if external_ready now tags others l qid q then
      let generation := next_generation l (qu_job q) in
      let lease := new_lease (qu_job q) (qu_attempt q) (Some runner) (Some token_hash) generation
                     (now + seconds 120) (Some (now + seconds 30)%Z) in
      let? l' := grant now lease_id qid q §"external_runner" (fun started => coalesce started (Some now)) lease l in
      Ok (Some (lease_id, qu_attempt q, generation), l')
    else Ok (None, l)
  | None => Ok (None, l)
  end.

(** [refuse_undispatched]: the claimed work cannot be offered; it fails inside
    the claiming transaction. *)
Definition refuse_lease (now : Z) (diagnostic : str) (r : lease_row) : lease_row :=
  set_lease Completed (le_expires_at r) (le_acknowledged_at r) (le_cancel_requested_at r) (Some now) (Some now)
    (Some Failed) (Some diagnostic) r.

Definition refuse_undispatched (now : Z) (lease_id job attempt : N) (diagnostic : str) (l : ledger)
  : result ledger db_error :=
  let attempts' := update_where (fun k a => (k =? attempt)%N && bool_decide (at_status a = Running))
                     (fun a => set_attempt Failed (at_trigger a) (at_started_at a) (Some now) (at_exit_code a) (Some diagnostic) a)
                     (attempts l) in
  let jobs' := update_where (fun k j => (k =? job)%N && bool_decide (job_status j = Running))
                 (fun j => set_job Failed (job_started_at j) (Some now) j) (jobs (core l)) in
  let? leases' := match leases l !! lease_id with
                  | Some r => if lease_active r then put lease_id (refuse_lease now diagnostic r) (leases l) else Ok (leases l)
                  | None => Ok (leases l)
                  end in
  Ok (close_job_queue_for_attempt now attempt Failed (with_jobs jobs' (with_attempts attempts' (with_leases leases' l)))).

(** What the checks between the claim and the commit say: offer the work,
    refuse it with a diagnostic, or roll back after a serialization failure or
    another error. *)
Inductive verdict : Type := Offer | Refuse (diagnostic : str) | Contended | Abort (message : str).

Inductive claim_outcome : Type :=
| NoWork
| Offered (lease attempt : N) (generation : Z) (stage : N)
| Refused (stage : N)
| RolledBack (message : option str).

(** The transaction of one iteration of [claim_next_work]. *)
Definition claim_next_work_tx (now : Z) (lease_id runner : N) (token_hash : str) (tags : list str) (others : N -> bool)
  (qid : N) (checks : N -> N -> verdict) (l : ledger) : result (claim_outcome * ledger) db_error :=
  let? r := claim_external_tx now lease_id runner token_hash tags others qid l in
  let candidate := q ← queue l !! qid; j ← jobs (core l) !! qu_job q; Some (qu_job q, job_stage j) in
  match r.1, candidate with
  | Some (lease, attempt, generation), Some (job, stage) =>
    match checks job attempt with
    | Offer => Ok (Offered lease attempt generation stage, r.2)
    | Refuse diagnostic =>
      let? l' := refuse_undispatched now lease job attempt diagnostic r.2 in Ok (Refused stage, l')
    | Contended => Ok (RolledBack None, l)
    | Abort message => Ok (RolledBack (Some message), l)
    end
  | _, _ => Ok (NoWork, l)
  end.

(** ** The protocol of external runners *)

(** [WHERE id, runner_id, lease_token_hash, generation], an active lease that
    has not expired. *)
Definition held (now : Z) (runner : N) (token_hash : str) (generation : Z) (r : lease_row) : bool :=
  bool_decide (le_runner r = Some runner) && lease_active r && bool_decide (le_token_hash r = Some token_hash)
  && (le_generation r =? generation)%Z && (now <? le_expires_at r)%Z.

Definition min_opt (a : Z) (b : option Z) : Z := match b with Some b => Z.min a b | None => a end.

(** [owner_until] bounds the lease by the owner's session, where there is one. *)
Definition owner_ok (now : Z) (owner_until : option Z) : bool :=
  match owner_until with Some u => (now <? u)%Z | None => true end.

Definition ackable (now : Z) (runner : N) (token_hash : str) (generation : Z) (owner_until : option Z) (r : lease_row) : bool :=
  held now runner token_hash generation r && owner_ok now owner_until
  && (is_some (le_acknowledged_at r)
      || match le_ack_deadline r with None => true | Some d => (now <? d)%Z end).

Definition ack_runner_lease (now : Z) (lease_id runner : N) (token_hash : str) (generation : Z) (owner_until : option Z)
  (l : ledger) : option lease_row * ledger :=
  let ack r := set_lease (le_status r) (min_opt (le_expires_at r) owner_until)
                 (coalesce (le_acknowledged_at r) (Some now)) (le_cancel_requested_at r) (le_completed_at r)
                 (le_completion_received_at r) (le_terminal_status r) (le_error_tail r) r in
  match leases l !! lease_id with
  | Some r =>
    if ackable now runner token_hash generation owner_until r
    then (Some (ack r), with_leases (<[lease_id := ack r]> (leases l)) l)
    else (None, l)
  | None => (None, l)
  end.

Definition renew_runner_lease (now : Z) (lease_id runner : N) (token_hash : str) (generation : Z) (owner_until : option Z)
  (l : ledger) : option lease_row * ledger :=
  let renew r := set_lease (le_status r) (min_opt (now + seconds 120) owner_until) (le_acknowledged_at r)
                   (le_cancel_requested_at r) (le_completed_at r) (le_completion_received_at r)
                   (le_terminal_status r) (le_error_tail r) r in
  match leases l !! lease_id with
  | Some r =>
    if held now runner token_hash generation r && owner_ok now owner_until && is_some (le_acknowledged_at r)
    then (Some (renew r), with_leases (<[lease_id := renew r]> (leases l)) l)
    else (None, l)
  | None => (None, l)
  end.

Definition terminal_status_for_outcome (outcome : str) : option JobStatus :=
  if str_eqb outcome §"success" then Some Success
  else if str_eqb outcome §"failed" || str_eqb outcome §"timed_out" || str_eqb outcome §"lost" then Some Failed
  else if str_eqb outcome §"canceled" then Some Canceled
  else None.

Record completion : Type := {
  cp_runner : N;
  cp_token_hash : str;
  cp_generation : Z;
  cp_attempt : N;
  cp_terminal : JobStatus;
  cp_exit_code : option Z;
  cp_finished_at : Z;
  cp_diagnostic : option str }.

(** The [SELECT .. FOR UPDATE] of [complete_runner_lease]. *)
Definition completable (now : Z) (c : completion) (l : ledger) (r : lease_row) : bool :=
  held now (cp_runner c) (cp_token_hash c) (cp_generation c) r && (le_attempt r =? cp_attempt c)%N
  && is_some (le_acknowledged_at r)
  && match jobs (core l) !! le_job r, attempts l !! le_attempt r with
     | Some j, Some a =>
       (live (job_status j) && live (at_status a))
       || (bool_decide (cp_terminal c = Canceled) && bool_decide (job_status j = Canceled)
           && bool_decide (at_status a = Canceled))
     | _, _ => false
     end.

Definition complete_writes (now : Z) (lease_id : N) (c : completion) (r : lease_row) (l : ledger) : ledger :=
  let attempts' := update_where (fun k a => (k =? le_attempt r)%N && live (at_status a))
                     (fun a => set_attempt (cp_terminal c) (at_trigger a) (at_started_at a)
                                 (coalesce (at_finished_at a) (Some (cp_finished_at c))) (cp_exit_code c)
                                 (match cp_diagnostic c with None => at_error_tail a | d => d end) a) (attempts l) in
  let jobs' := update_where (fun k j => (k =? le_job r)%N && live (job_status j))
                 (fun j => set_job (cp_terminal c) (coalesce (job_started_at j) (Some (cp_finished_at c)))
                             (coalesce (job_finished_at j) (Some (cp_finished_at c))) j) (jobs (core l)) in
  let leases' := update_where (fun k r => (k =? lease_id)%N && lease_active r)
                   (fun r => set_lease (lease_status_for_terminal (cp_terminal c)) (le_expires_at r) (le_acknowledged_at r)
                               (le_cancel_requested_at r) (coalesce (le_completed_at r) (Some (cp_finished_at c)))
                               (Some now) (Some (cp_terminal c)) (coalesce (le_error_tail r) (cp_diagnostic c)) r)
                   (leases l) in
  close_job_queue_for_attempt now (le_attempt r) (cp_terminal c)
    (with_jobs jobs' (with_attempts attempts' (with_leases leases' l))).

(** The transaction of [complete_runner_lease]: the stage to refresh, or
    nothing when the lease does not admit the completion. *)
Definition complete_runner_lease_tx (now : Z) (lease_id : N) (c : completion) (l : ledger) : option N * ledger :=
  match leases l !! lease_id with
  | Some r =>
    if completable now c l r
    then (job_stage <$> jobs (core l) !! le_job r, complete_writes now lease_id c r l)
    else (None, l)
  | None => (None, l)
  end.

(** [lease_mutation_error]: why a statement on a lease found no row. *)
Inductive lease_error : Type := LeaseGone | LeaseNotActive | LeaseFenced | LeaseNotFound.

Definition lease_mutation_error (now : Z) (lease_id runner : N) (l : ledger) : lease_error :=
  match leases l !! lease_id with
  | Some r =>
    if negb (bool_decide (le_runner r = Some runner)) then LeaseNotFound
    else if (le_expires_at r <=? now)%Z
         || match le_ack_deadline r, le_acknowledged_at r with Some d, None => (d <=? now)%Z | _, _ => false end
    then LeaseGone
    else if negb (lease_active r) then LeaseNotActive
    else LeaseFenced
  | None => LeaseNotFound
  end.

(** ** Completion and cancellation: [backend/src/runner.rs] *)

Definition complete_lease_by_id (now : Z) (lease_id : N) (terminal : JobStatus) (tail : option str) (l : ledger)
  : nat * ledger :=
  match leases l !! lease_id with
  | Some r =>
    if lease_active r then
      (1, close_job_queue_for_lease now lease_id terminal
            (with_leases (update_where (fun k r => (k =? lease_id)%N && lease_active r)
                            (close_lease now (lease_status_for_terminal terminal) terminal (truncate_error_tail <$> tail))
                            (leases l)) l))
    else (0, l)
  | None => (0, l)
  end.

Definition complete_active_lease_for_job (now : Z) (job : N) (terminal : JobStatus) (tail : option str) (l : ledger) : ledger :=
  close_job_queue_for_job now job terminal
    (with_leases (update_where (fun _ r => (le_job r =? job)%N && lease_active r)
                    (close_lease now (lease_status_for_terminal terminal) terminal (truncate_error_tail <$> tail))
                    (leases l)) l).

(** The two statements on leases that both cancellations share, for the leases
    of the jobs in [scope]: external runners are told, embedded leases close. *)
Definition signal_external (now : Z) (scope : N -> bool) (tail : str) (l : ledger) : ledger :=
  with_leases (update_where (fun _ r => lease_active r && negb (is_some (le_cancel_requested_at r)) && lease_external r
                                        && scope (le_job r))
                 (request_cancel now tail) (leases l)) l.

Definition close_embedded (now : Z) (scope : N -> bool) (tail : str) (l : ledger) : ledger :=
  with_leases (update_where (fun _ r => lease_active r && negb (lease_external r) && scope (le_job r))
                 (close_lease now LeaseCanceled Canceled (Some tail)) (leases l)) l.

Definition cancel_active_leases_for_pipeline (now : Z) (pipeline : N) (reason : str) (l : ledger) : ledger :=
  let tail := truncate_error_tail reason in
  close_job_queue_for_pipeline now pipeline Canceled
    (close_embedded now (in_pipeline l pipeline) tail (signal_external now (in_pipeline l pipeline) tail l)).

Definition force_cancel_active_leases_for_pipeline (now : Z) (pipeline : N) (reason : str) (l : ledger) : ledger :=
  close_job_queue_for_pipeline now pipeline Canceled
    (with_leases (update_where (fun _ r => lease_active r && in_pipeline l pipeline (le_job r))
                    (close_lease now LeaseCanceled Canceled (Some (truncate_error_tail reason))) (leases l)) l).

(** A queue row of a canceled pipeline. *)
Definition queue_of_canceled (l : ledger) (q : queue_row) : bool :=
  bool_decide (pipeline_status_of l (qu_pipeline q) = Some Canceled).

Definition pipeline_canceled : str := §"pipeline canceled".

Definition cancel_active_leases_for_canceled_pipelines (now : Z) (l : ledger) : ledger :=
  let scope := in_pipeline_with l Canceled in
  close_job_queue (queue_of_canceled l) now Canceled
    (close_embedded now scope pipeline_canceled (signal_external now scope pipeline_canceled l)).

(** ** The reconcilers *)

(** Why a lease that ran out ends: canceled when that was requested. *)
Definition expires_to (r : lease_row) : JobStatus := if is_some (le_cancel_requested_at r) then Canceled else Failed.

Definition expiry_tail (r : lease_row) : str :=
  if is_some (le_cancel_requested_at r) then pipeline_canceled else §"runner lease expired".

Definition expire_lease (now : Z) (r : lease_row) : lease_row :=
  close_lease now (if is_some (le_cancel_requested_at r) then LeaseCanceled else Expired) (expires_to r)
    (Some (expiry_tail r)) r.

Definition is_expired (now : Z) (r : lease_row) : bool := lease_active r && (le_expires_at r <=? now)%Z.

(** The leases a reconciler closed, joined with a job, an attempt or a queue
    row. *)
Definition of_attempt (rows : list (N * lease_row)) (k : N) : option (N * lease_row) :=
  List.find (fun e => (le_attempt e.2 =? k)%N) rows.
Definition of_job (rows : list (N * lease_row)) (k : N) : option (N * lease_row) :=
  List.find (fun e => (le_job e.2 =? k)%N) rows.
Definition of_queue (rows : list (N * lease_row)) (q : queue_row) : option (N * lease_row) :=
  List.find (fun e => bool_decide (qu_lease q = Some e.1) || (qu_attempt q =? le_attempt e.2)%N) rows.

(** [RETURNING j.id, j.stage_id]: the stages to refresh. *)
Definition changed_stages (changed : N -> job_row -> bool) (l : ledger) : list N :=
  map (fun kj => job_stage kj.2) (select changed (jobs (core l))).

Definition finish_job (now : Z) (status : JobStatus) (j : job_row) : job_row :=
  set_job status (job_started_at j) (coalesce (job_finished_at j) (Some now)) j.

(** The statement of [reconcile_expired_leases]: its common table expressions
    all read the state before it. *)
Definition expire_leases (now : Z) (l : ledger) : list N * ledger :=
  let expired := select (fun _ r => is_expired now r) (leases l) in
  let attempts' := update_from (fun k a => if live (at_status a) then of_attempt expired k else None)
                     (fun e => finish_attempt now (expires_to e.2) (Some (expiry_tail e.2))) (attempts l) in
  let jobs' := update_from (fun k j => if live (job_status j) then of_job expired k else None)
                 (fun e => finish_job now (expires_to e.2)) (jobs (core l)) in
  let queue' := update_from (fun _ q => if queue_open q then of_queue expired q else None)
                  (fun e => close_queue_row now (queue_state_for_terminal (expires_to e.2))) (queue l) in
  (changed_stages (fun k j => live (job_status j) && is_some (of_job expired k)) l,
   with_jobs jobs' (with_attempts attempts'
     (with_leases (update_where (fun _ r => is_expired now r) (expire_lease now) (leases l)) (with_queue queue' l)))).

(** The statement of [reconcile_unacknowledged_leases]: an offer nobody
    acknowledged in time goes back to the queue. *)
Definition is_unacknowledged (now : Z) (l : ledger) (id : N) (r : lease_row) : bool :=
  lease_active r && negb (is_some (le_acknowledged_at r))
  && match le_ack_deadline r with Some d => (d <=? now)%Z | None => false end
  && exists_row (fun _ q =>
       bool_decide (qu_state q = QLeased) && (qu_job q =? le_job r)%N && (qu_attempt q =? le_attempt r)%N
       && (bool_decide (qu_lease q = Some id) || negb (is_some (qu_lease q)))) (queue l)
  && match jobs (core l) !! le_job r, attempts l !! le_attempt r with
     | Some j, Some a => bool_decide (job_status j = Running) && bool_decide (at_status a = Running)
     | _, _ => false
     end
  && match pipeline_of_job l (le_job r) with
     | Some p => match pipeline_status_of l p with Some s => live s | None => false end
     | None => false
     end.

Definition requeue_unacknowledged (now : Z) (l : ledger) : list N * ledger :=
  let requeued := select (is_unacknowledged now l) (leases l) in
  let attempts' := update_from (fun k a => if bool_decide (at_status a = Running) then of_attempt requeued k else None)
                     (fun _ a => set_attempt Queued (at_trigger a) None None None None a) (attempts l) in
  let jobs' := update_from (fun k j => if bool_decide (job_status j = Running) then of_job requeued k else None)
                 (fun _ j => set_job Queued None None j) (jobs (core l)) in
  let queue' := update_from (fun _ q => if bool_decide (qu_state q = QLeased) then of_queue requeued q else None)
                  (fun _ q => set_queue QQueued now (qu_required_tags q) None None None q) (queue l) in
  (changed_stages (fun k j => bool_decide (job_status j = Running) && is_some (of_job requeued k)) l,
   with_jobs jobs' (with_attempts attempts'
     (with_leases (update_where (is_unacknowledged now l)
                     (close_lease now Expired Failed (Some §"runner lease ack deadline exceeded")) (leases l))
        (with_queue queue' l)))).

(** [reconcile_terminal_pipeline_queues] *)
Definition in_terminal_pipeline (l : ledger) (q : queue_row) : bool :=
  match pipeline_status_of l (qu_pipeline q) with Some s => negb (live s) | None => false end.

Definition reconcile_terminal_pipeline_queues (now : Z) (l : ledger) : ledger :=
  let terminal := select (fun _ q => bool_decide (qu_state q = QQueued) && in_terminal_pipeline l q) (queue l) in
  let attempts' := update_where (fun k a => bool_decide (at_status a = Queued)
                                            && existsb (fun t => (qu_attempt t.2 =? k)%N) terminal)
                     (finish_attempt now Canceled (Some §"pipeline reached a terminal state")) (attempts l) in
  let jobs' := update_where (fun k j => bool_decide (job_status j = Queued)
                                        && existsb (fun t => (qu_job t.2 =? k)%N) terminal)
                 (finish_job now Canceled) (jobs (core l)) in
  let queue' := update_where (fun _ q => bool_decide (qu_state q = QQueued) && in_terminal_pipeline l q)
                  (close_queue_row now QCanceled) (queue l) in
  with_jobs jobs' (with_attempts attempts' (with_queue queue' l)).

(** The statement of [reconcile_queue_timeouts_with_config]; [runner_fits]
    says that an online runner can take the row. *)
Definition is_timed_out (now timeout_seconds : Z) (embedded_enabled : bool) (runner_fits : N -> bool) (l : ledger)
  (id : N) (q : queue_row) : bool :=
  match jobs (core l) !! qu_job q, attempts l !! qu_attempt q, stages (core l) !! qu_stage q,
        pipelines (core l) !! qu_pipeline q with
  | Some j, Some a, Some s, Some p =>
    dispatchable now l q j a p && (qu_queued_at q <=? now - seconds timeout_seconds)%Z
    && stage_turn l s && negb (embedded_enabled && embedded_job q j) && negb (runner_fits id)
  | _, _, _, _ => false
  end.

Definition time_out_queue (now timeout_seconds : Z) (embedded_enabled : bool) (runner_fits : N -> bool) (l : ledger)
  : list N * ledger :=
  let p := is_timed_out now timeout_seconds embedded_enabled runner_fits l in
  let timed_out := select p (queue l) in
  let attempts' := update_where (fun k a => bool_decide (at_status a = Queued)
                                            && existsb (fun t => (qu_attempt t.2 =? k)%N) timed_out)
                     (finish_attempt now Failed (Some §"no compatible runner before queue timeout")) (attempts l) in
  let hit k j := bool_decide (job_status j = Queued) && existsb (fun t => (qu_job t.2 =? k)%N) timed_out in
  let jobs' := update_where hit (finish_job now Failed) (jobs (core l)) in
  let queue' := update_where p (close_queue_row now QCompleted) (queue l) in
  (changed_stages hit l, with_jobs jobs' (with_attempts attempts' (with_queue queue' l))).

(** The statement of [reconcile_unleased_running_jobs]. *)
Definition is_unleased (now : Z) (l : ledger) (id : N) (j : job_row) : bool :=
  bool_decide (job_status j = Running)
  && match job_started_at j with None => true | Some t => (t <=? now - seconds 300)%Z end
  && negb (has_active_lease l id).

Definition fail_unleased (now : Z) (l : ledger) : list N * ledger :=
  let stale k := match jobs (core l) !! k with Some j => is_unleased now l k j | None => false end in
  let attempts' := update_where (fun _ a => live (at_status a) && stale (at_job a))
                     (finish_attempt now Failed (Some §"runner lease missing")) (attempts l) in
  let jobs' := update_where (is_unleased now l) (finish_job now Failed) (jobs (core l)) in
  let queue' := update_where (fun _ q => queue_open q && stale (qu_job q)) (close_queue_row now QCompleted) (queue l) in
  (changed_stages (is_unleased now l) l, with_jobs jobs' (with_attempts attempts' (with_queue queue' l))).

(** The four statements of [cancel_jobs_for_canceled_pipelines]. *)
Definition cancel_job (now : Z) (j : job_row) : job_row := set_job Canceled (job_started_at j) (Some now) j.

Definition cancel_jobs_where (now : Z) (scope : N -> bool) (l : ledger) : ledger :=
  with_jobs (update_where (fun k j => live (job_status j) && scope k) (cancel_job now) (jobs (core l))) l.

Definition cancel_attempts_where (now : Z) (scope : N -> bool) (tail : str) (l : ledger) : ledger :=
  with_attempts (update_where (fun _ a => live (at_status a) && scope (at_job a))
                    (finish_attempt now Canceled (Some tail)) (attempts l)) l.

Definition cancel_stages_where (scope : N -> bool) (l : ledger) : ledger :=
  with_stages (update_where (fun _ s => live (stage_status s) && scope (stage_pipeline s))
                  (set_stage_status Canceled) (stages (core l))) l.

Definition cancel_jobs_for_canceled_pipelines (now : Z) (l : ledger) : ledger :=
  let canceled p := bool_decide (pipeline_status_of l p = Some Canceled) in
  let scope := in_pipeline_with l Canceled in
  close_job_queue (queue_of_canceled l) now Canceled
    (cancel_stages_where canceled
       (cancel_attempts_where now scope pipeline_canceled (cancel_jobs_where now scope l))).
