(* ===== verification/LedgerHandlers.v ===== *)
(** * The handlers over the dispatch ledger

    The functions that combine the statements of [Ledger]:
    [backend/src/api/jobs_routes.rs], [backend/src/runner.rs] and
    [backend/src/runner_protocol.rs].  A handler runs on the ledger and returns
    a response or an error; the statements that ran before an error stay, but
    for those inside a transaction. *)
From S2P Require Import Prelude Status Table Ledger.

Inductive api_error : Type :=
| NotFound
| Conflict (message : str)
| Gone (message : str)
| BadRequest (message : str)
| Internal (e : db_error)
| External (message : str).

Definition handler (A : Type) : Type := ledger -> result A api_error * ledger.

Definition ret {A} (a : A) : handler A := fun l => (Ok a, l).
Definition fail {A} (e : api_error) : handler A := fun l => (Err e, l).
Definition hbind {A B} (m : handler A) (k : A -> handler B) : handler B := fun l =>
  match m l with
  | (Ok a, l') => k a l'
  | (Err e, l') => (Err e, l')
  end.
Notation "'do!' x := m 'in' k" := (hbind m (fun x => k))
  (at level 10, x pattern, m at level 200, k at level 200,
   format "'[v' 'do!'  x  :=  m  'in' '/' k ']'") : rust_scope.

(** A query, a statement that cannot fail, and one that can. *)
Definition query {A} (f : ledger -> A) : handler A := fun l => (Ok (f l), l).
Definition execute (f : ledger -> ledger) : handler unit := fun l => (Ok tt, f l).
Definition returning {A} (f : ledger -> A * ledger) : handler A := fun l => let r := f l in (Ok r.1, r.2).
Definition statement {A} (error : db_error -> api_error) (f : ledger -> result (A * ledger) db_error) : handler A := fun l =>
  match f l with
  | Ok (a, l') => (Ok a, l')
  | Err e => (Err (error e), l)
  end.
Definition require {A} (o : option A) (e : api_error) : handler A :=
  match o with Some a => ret a | None => fail e end.
Definition guard (b : bool) (e : api_error) : handler unit := if b then ret tt else fail e.

(** [pool.begin() .. tx.commit()]: an error rolls everything back. *)
Definition transaction {A} (m : handler A) : handler A := fun l =>
  match m l with
  | (Ok a, l') => (Ok a, l')
  | (Err e, _) => (Err e, l)
  end.

(** [for x in xs { .. }] *)
Fixpoint for_each {A} (xs : list A) (body : A -> handler unit) : handler unit :=
  match xs with
  | [] => ret tt
  | x :: rest => do! _ := body x in for_each rest body
  end.

(** [if let Err(error) = m { warn }]: the error is only logged. *)
Definition logged {A} (m : handler A) : handler unit := fun l => (Ok tt, (m l).2).

Definition unit_statement (f : ledger -> result ledger db_error) (l : ledger) : result (unit * ledger) db_error :=
  let? l' := f l in Ok (tt, l').

(** ** Refreshing *)

Definition refresh (now : Z) (stage : N) : handler unit :=
  statement Internal (fun l =>
    match refresh_statuses now (core l) stage with
    | Ok d => Ok (tt, with_core d l)
    | Err _ => Err RowNotFound
    end).

(** [refresh_stage] *)
Definition refresh_stage (now : Z) (job : N) : handler unit :=
  do! j := query (fun l => jobs (core l) !! job) in
  match j with
  | Some j => refresh now (job_stage j)
  | None => ret tt
  end.

(** The reconcilers refresh the stages of the jobs they changed. *)
Definition refreshing (now : Z) (stmt : ledger -> list N * ledger) : handler nat :=
  do! changed := returning stmt in
  do! _ := for_each changed (fun stage => logged (refresh now stage)) in
  ret (length changed).

Definition reconcile_expired_leases (now : Z) : handler nat := refreshing now (expire_leases now).
Definition reconcile_unacknowledged_leases (now : Z) : handler nat := refreshing now (requeue_unacknowledged now).
Definition reconcile_unleased_running_jobs (now : Z) : handler nat := refreshing now (fail_unleased now).
Definition reconcile_queue_timeouts (now : Z) (timeout : option Z) (embedded_enabled : bool) (runner_fits : N -> bool)
  : handler nat :=
  match timeout with
  | None => ret 0
  | Some t => refreshing now (time_out_queue now t embedded_enabled runner_fits)
  end.

(** The part of [reconcile_runtime_state_with_config] that works on the ledger. *)
Definition reconcile_runtime_state (now : Z) (timeout : option Z) (embedded_enabled : bool) (runner_fits : N -> bool)
  : handler unit :=
  do! _ := reconcile_unacknowledged_leases now in
  do! _ := reconcile_expired_leases now in
  do! _ := execute (reconcile_terminal_pipeline_queues now) in
  do! _ := reconcile_queue_timeouts now timeout embedded_enabled runner_fits in
  do! _ := reconcile_unleased_running_jobs now in
  do! _ := execute (cancel_active_leases_for_canceled_pipelines now) in
  execute (cancel_jobs_for_canceled_pipelines now).

(** ** Manual status changes *)

Definition attempt_lookup_error (e : db_error) : api_error :=
  match e with RowNotFound => NotFound | other => Internal other end.

(** [UPDATE execution_attempts SET .. WHERE id = $1]: nothing guards the
    status the row has by then. *)
Definition update_attempt (now : Z) (attempt : N) (status : JobStatus) (l : ledger) : result ledger db_error :=
  match attempts l !! attempt with
  | Some a =>
    let a' := set_attempt status (at_trigger a)
                (if bool_decide (status = Running) then coalesce (at_started_at a) (Some now) else at_started_at a)
                (if is_terminal status then Some now else at_finished_at a) (at_exit_code a) (at_error_tail a) a in
    let? t := put attempt a' (attempts l) in Ok (with_attempts t l)
  | None => Ok l
  end.

Definition transition_open_attempt (now : Z) (new_id job : N) (status : JobStatus) (trigger : str) : handler N :=
  do! attempt := statement attempt_lookup_error (open_attempt_id now new_id job trigger) in
  do! _ := statement Internal (unit_statement (update_attempt now attempt status)) in
  do! _ := (if is_terminal status then execute (close_job_queue_for_attempt now attempt status) else ret tt) in
  ret attempt.

(** [UPDATE jobs SET status = $2, .. WHERE id = $1]: unguarded as well. *)
Definition update_job (now : Z) (job : N) (status : JobStatus) (l : ledger) : result (job_row * ledger) db_error :=
  let? j := ok_or (jobs (core l) !! job) RowNotFound in
  let j' := set_job status (if bool_decide (status = Running) then Some now else job_started_at j)
              (if is_terminal status then Some now else job_finished_at j) j in
  Ok (j', with_jobs (<[job := j']> (jobs (core l))) l).

(** [{status:?}] and the messages of [TransitionError] *)
Definition debug_name (s : JobStatus) : str :=
  match s with
  | Queued => §"Queued"
  | Running => §"Running"
  | Success => §"Success"
  | Failed => §"Failed"
  | Canceled => §"Canceled"
  end.

Definition transition_message (e : TransitionError) : str :=
  match e with
  | TerminalStatus => §"terminal status cannot change"
  | InvalidTransition from to => §"invalid status transition from " ++ debug_name from ++ §" to " ++ debug_name to
  end.

(** What [change_job_status] does once the transition is accepted: five
    statements outside any transaction. *)
Definition apply_status_change (now : Z) (new_id job : N) (status : JobStatus) : handler job_row :=
  do! _ := transition_open_attempt now new_id job status §"manual_status" in
  do! updated := statement Internal (update_job now job status) in
  do! _ := (if is_terminal status
            then execute (complete_active_lease_for_job now job status (Some §"manual status transition"))
            else ret tt) in
  do! _ := refresh now (job_stage updated) in
  ret updated.

Definition change_job_status (now : Z) (new_id job : N) (status : JobStatus) : handler job_row :=
  do! j := query (fun l => jobs (core l) !! job) in
  do! j := require j NotFound in
  do! _ := match transition_to (job_status j) status with
           | Ok _ => ret tt
           | Err e => fail (BadRequest (transition_message e))
           end in
  apply_status_change now new_id job status.

(** ** Cancellation *)

Definition cancel_pipeline_row (now : Z) (pipeline : N) (l : ledger) : ledger :=
  with_pipelines (alter (fun p => with_pipeline_status Canceled (started_at p) (Some now) p) pipeline (pipelines (core l))) l.

(** [cancel_pipeline]; stopping the processes comes after the writes. *)
Definition cancel_pipeline (now : Z) (pipeline : N) : handler N :=
  do! status := query (fun l => pipeline_status_of l pipeline) in
  do! status := require status NotFound in
  do! _ := guard (live status) (Conflict §"pipeline is not active") in
  do! _ := execute (cancel_pipeline_row now pipeline) in
  do! _ := execute (fun l => cancel_jobs_where now (in_pipeline l pipeline) l) in
  do! _ := execute (fun l => cancel_attempts_where now (in_pipeline l pipeline) pipeline_canceled l) in
  do! _ := execute (cancel_active_leases_for_pipeline now pipeline pipeline_canceled) in
  do! _ := execute (cancel_stages_where (fun p => (p =? pipeline)%N)) in
  ret pipeline.

(** ** Retries *)

(** The jobs a retry is about: those of the pipeline, or one of them. *)
Definition retry_scope (pipeline : N) (job : option N) (l : ledger) (j : N) : bool :=
  in_pipeline l pipeline j && match job with None => true | Some job => (j =? job)%N end.

Definition job_in (statuses : JobStatus -> bool) (l : ledger) (job : N) : bool :=
  match jobs (core l) !! job with Some j => statuses (job_status j) | None => false end.

(** [status IN ('failed','canceled')] *)
Definition retryable (s : JobStatus) : bool := match s with Failed | Canceled => true | _ => false end.

(** An external runner has not confirmed the end of its execution. *)
Definition unconfirmed (r : lease_row) : bool :=
  lease_external r
  && (lease_active r || (is_some (le_acknowledged_at r) && negb (is_some (le_completion_received_at r)))).

(** [close_retry_leases]; [pending] asks the Docker or Kubernetes executor for
    evidence that the previous execution of a job and attempt is over. *)
Definition close_retry_leases (now : Z) (pending : N -> N -> result bool str) (pipeline : N) (job : option N) (reason : str)
  : handler unit :=
  do! blocked := query (fun l => exists_row (fun _ r => retry_scope pipeline job l (le_job r) && unconfirmed r) (leases l)) in
  do! _ := guard (negb blocked) (Conflict §"previous external runner termination is unconfirmed") in
  do! embedded := query (fun l => select (fun _ r => retry_scope pipeline job l (le_job r) && job_in retryable l (le_job r)
                                                     && negb (lease_external r)) (leases l)) in
  do! _ := for_each embedded (fun r =>
             match pending (le_job r.2) (le_attempt r.2) with
             | Ok false => ret tt
             | Ok true => fail (Conflict §"previous embedded execution has not completed recovery")
             | Err e => fail (Conflict e)
             end) in
  do! _ := execute (fun l => with_leases (update_where
             (fun _ r => retry_scope pipeline job l (le_job r) && job_in retryable l (le_job r) && lease_active r)
             (close_lease now LeaseCanceled Canceled (Some reason)) (leases l)) l) in
  execute (fun l => with_queue (update_where
             (fun _ q => retry_scope pipeline job l (qu_job q) && job_in retryable l (qu_job q) && queue_open q)
             (close_queue_row now QCanceled) (queue l)) l).

(** A new attempt of a job, numbered after all others. *)
Definition insert_next_attempt (now : Z) (attempt job : N) (trigger : str) : handler unit :=
  statement Internal (unit_statement (fun l =>
    insert_attempt attempt (new_attempt now job (next_attempt_no l job) Queued trigger) l)).

Definition enqueue (now : Z) (queue_id job attempt : N) : handler nat :=
  statement Internal (enqueue_job_attempt_tx now queue_id job attempt).

(** [UPDATE jobs SET status = 'queued', started_at = NULL, finished_at = NULL WHERE id = $1 RETURNING ..] *)
Definition requeue_job (job : N) (l : ledger) : result (job_row * ledger) db_error :=
  let? j := ok_or (jobs (core l) !! job) RowNotFound in
  let j' := set_job Queued None None j in
  Ok (j', with_jobs (<[job := j']> (jobs (core l))) l).

(** [retry_job]; [reserved] are the jobs the embedded runner still holds and
    [authority] the checks of the pipeline's human owner. *)
Definition retry_job (now : Z) (reserved : gset N) (pending : N -> N -> result bool str) (authority : result unit str)
  (attempt queue_id job : N) : handler job_row :=
  do! r := transaction (
    do! pipeline := query (fun l => pipeline_of_job l job) in
    do! pipeline := require pipeline NotFound in
    do! j := query (fun l => jobs (core l) !! job) in
    do! j := require j NotFound in
    do! _ := guard (retryable (job_status j)) (Conflict §"only failed or canceled jobs can be retried") in
    do! _ := guard (negb (bool_decide (job ∈ reserved)))
               (Conflict §"previous embedded execution has not released its reservation") in
    do! _ := match authority with Ok _ => ret tt | Err e => fail (External e) end in
    do! _ := close_retry_leases now pending pipeline (Some job) §"job retry superseded canceled lease" in
    do! _ := insert_next_attempt now attempt job §"job_retry" in
    do! updated := statement Internal (requeue_job job) in
    do! _ := execute (fun l => with_stages (update_where (fun k s => (k =? job_stage j)%N && retryable (stage_status s))
                                              (set_stage_status Queued) (stages (core l))) l) in
    do! _ := execute (fun l => with_pipelines (update_where (fun k p => (k =? pipeline)%N && retryable (pipeline_status p))
                                                 (fun p => with_pipeline_status Running (started_at p) None p)
                                                 (pipelines (core l))) l) in
    do! _ := enqueue now queue_id job attempt in
    ret updated) in
  do! _ := execute notify_runner_work in
  ret r.

(** Waiting work that a newly admitted attempt replaces. *)
Definition cancel_queued_attempt (now : Z) (a : attempt_row) : attempt_row :=
  set_attempt Canceled (at_trigger a) (at_started_at a) (Some now) (at_exit_code a) (at_error_tail a) a.

Definition cancel_queued_row (now : Z) (q : queue_row) : queue_row :=
  set_queue QCanceled (qu_not_before q) (qu_required_tags q) (qu_leased_at q) (qu_lease q) (Some now) q.

(** [retry_pipeline]; [admission_active] is [application_policy_required()]. *)
Definition retry_jobs_of (admission_active : bool) (pipeline : N) (l : ledger) : list N :=
  map fst (select (fun k j => in_pipeline l pipeline k
                              && (retryable (job_status j) || (admission_active && bool_decide (job_status j = Queued))))
                  (jobs (core l))).

Definition retry_pipeline (now : Z) (reserved : gset N) (pending : N -> N -> result bool str) (authority : result unit str)
  (admission_active : bool) (attempt_ids queue_ids : N -> N) (pipeline : N) : handler N :=
  do! _ := transaction (
    do! status := query (fun l => pipeline_status_of l pipeline) in
    do! status := require status NotFound in
    do! _ := guard (retryable status) (Conflict §"only failed or canceled pipelines can be retried") in
    do! held := query (fun l => exists_row (fun k j => in_pipeline l pipeline k && retryable (job_status j)
                                                       && bool_decide (k ∈ reserved)) (jobs (core l))) in
    do! _ := guard (negb held) (Conflict §"previous embedded execution has not released its reservation") in
    do! _ := match authority with Ok _ => ret tt | Err e => fail (External e) end in
    do! _ := (if admission_active then
      execute (fun l =>
        let queued k := in_pipeline l pipeline k && job_in (fun s => bool_decide (s = Queued)) l k in
        with_attempts (update_where (fun _ a => queued (at_job a) && bool_decide (at_status a = Queued))
                         (cancel_queued_attempt now) (attempts l))
          (with_queue (update_where (fun _ q => queued (qu_job q) && bool_decide (qu_state q = QQueued))
                         (cancel_queued_row now) (queue l)) l))
      else ret tt) in
    do! _ := close_retry_leases now pending pipeline None §"pipeline retry superseded canceled lease" in
    do! retried := query (retry_jobs_of admission_active pipeline) in
    do! _ := for_each retried (fun job => insert_next_attempt now (attempt_ids job) job §"pipeline_retry") in
    do! _ := execute (fun l => with_jobs (update_where (fun k j => retryable (job_status j) && in_pipeline l pipeline k)
                                            (set_job Queued None None) (jobs (core l))) l) in
    do! _ := execute (fun l => with_stages (update_where (fun _ s => retryable (stage_status s) && (stage_pipeline s =? pipeline)%N)
                                              (set_stage_status Queued) (stages (core l))) l) in
    do! _ := execute (fun l => with_pipelines (alter (with_pipeline_status Queued None None) pipeline (pipelines (core l))) l) in
    for_each retried (fun job => do! _ := enqueue now (queue_ids job) job (attempt_ids job) in ret tt)) in
  do! _ := execute notify_runner_work in
  ret pipeline.

(** ** Manual jobs *)

(** [start_manual_job], for installations without the application policy. *)
Definition start_manual_job (now : Z) (queue_id job : N) : handler bool :=
  do! j := query (fun l => jobs (core l) !! job) in
  do! j := require j NotFound in
  do! _ := guard (job_manual j) (Conflict §"job is not manual") in
  do! _ := guard (bool_decide (job_status j = Queued)) (Conflict §"manual job is not waiting") in
  do! updated := returning (fun l =>
    let waiting j := job_manual j && bool_decide (job_status j = Queued) in
    (match jobs (core l) !! job with Some j => waiting j | None => false end,
     with_jobs (update_where (fun k j => (k =? job)%N && waiting j) clear_manual (jobs (core l))) l)) in
  do! _ := guard updated (Conflict §"job already started") in
  do! _ := statement Internal (enqueue_current_job_attempt now queue_id job) in
  ret true.

(** [start_manual_job_admitted], with the application policy: the waiting
    attempt is replaced by one of the person who starts the job; [authority]
    and [recorded] are the checks and the record of that person. *)
Definition start_manual_job_admitted (now : Z) (authority recorded : result unit str) (attempt queue_id job : N) : handler bool :=
  do! _ := transaction (
    do! pipeline := query (fun l => pipeline_of_job l job) in
    do! _ := require pipeline NotFound in
    do! j := query (fun l => jobs (core l) !! job) in
    do! _ := guard (match j with Some j => job_manual j && bool_decide (job_status j = Queued) | None => false end)
               (Conflict §"job is not a waiting manual job") in
    do! _ := match authority with Ok _ => ret tt | Err e => fail (External e) end in
    do! _ := execute (fun l => with_queue (update_where
               (fun _ q => (qu_job q =? job)%N && bool_decide (qu_state q = QQueued)) (cancel_queued_row now) (queue l)) l) in
    do! _ := execute (fun l => with_attempts (update_where
               (fun _ a => (at_job a =? job)%N && bool_decide (at_status a = Queued)) (cancel_queued_attempt now) (attempts l)) l) in
    do! _ := insert_next_attempt now attempt job §"manual" in
    do! _ := match recorded with Ok _ => ret tt | Err e => fail (External e) end in
    do! _ := execute (fun l => with_jobs (update_where (fun k _ => (k =? job)%N) clear_manual (jobs (core l))) l) in
    do! affected := enqueue now queue_id job attempt in
    guard (affected =? 1)%nat (Conflict §"pipeline is not active")) in
  do! _ := execute notify_runner_work in
  ret true.

(** ** The end of an embedded execution *)

(** [UPDATE execution_attempts SET .. WHERE id = $1 AND status NOT IN ('success','failed','canceled')] *)
Definition finish_attempt_by_id (now : Z) (attempt : N) (f : attempt_row -> attempt_row) (l : ledger) : ledger :=
  with_attempts (update_where (fun k a => (k =? attempt)%N && negb (is_terminal (at_status a))) f (attempts l)) l.

Definition mark_attempt_failed (now : Z) (attempt : N) (tail : str) : handler unit :=
  execute (finish_attempt_by_id now attempt (fun a =>
    set_attempt Failed (at_trigger a) (at_started_at a) (coalesce (at_finished_at a) (Some now)) (at_exit_code a) (Some tail) a)).

Definition mark_attempt_canceled (now : Z) (attempt : N) (tail : str) : handler unit :=
  execute (finish_attempt_by_id now attempt (finish_attempt now Canceled (Some tail))).

(** [complete_embedded_job_lease] *)
Definition complete_embedded (now : Z) (lease : N) (terminal : JobStatus) (tail : option str) : handler unit :=
  do! _ := returning (complete_lease_by_id now lease terminal tail) in ret tt.

Definition superseded_tail : str := §"runner: job canceled before process result".

(** [UPDATE jobs SET status = $2, finished_at = now() WHERE id = $1 AND
    status = 'running'] while the attempt runs; whether it changed the job. *)
Definition end_running_job (now : Z) (job attempt : N) (final : JobStatus) (l : ledger) : bool * ledger :=
  let hit k j := (k =? job)%N && bool_decide (job_status j = Running)
                 && match attempts l !! attempt with Some a => bool_decide (at_status a = Running) | None => false end in
  (exists_row hit (jobs (core l)),
   with_jobs (update_where hit (fun j => set_job final (job_started_at j) (Some now) j) (jobs (core l))) l).

(** The end of [run_job_inner]: the result of the process of a claimed job (one
    that builds no image, after the checks of a delegated effect). *)
Definition finish_execution (now : Z) (job attempt lease : N) (final : JobStatus) (exit_code : option Z) (tail : option str)
  : handler bool :=
  do! updated := returning (end_running_job now job attempt final) in
  if updated then
    do! _ := execute (finish_attempt_by_id now attempt (fun a =>
               set_attempt final (at_trigger a) (at_started_at a) (Some now) exit_code tail a)) in
    do! _ := complete_embedded now lease final tail in
    do! _ := refresh_stage now job in
    ret true
  else
    do! _ := mark_attempt_canceled now attempt superseded_tail in
    do! _ := complete_embedded now lease Canceled (Some superseded_tail) in
    do! _ := refresh_stage now job in
    ret false.

(** The branch of [run_job_inner] for a process that ran out of time. *)
Definition timeout_tail : str := §"runner: job canceled before timeout result".

Definition finish_timed_out (now : Z) (job attempt lease : N) (message : str) : handler bool :=
  do! updated := returning (end_running_job now job attempt Failed) in
  if updated then
    do! _ := mark_attempt_failed now attempt message in
    do! _ := complete_embedded now lease Failed (Some message) in
    do! _ := refresh_stage now job in
    ret true
  else
    do! _ := mark_attempt_canceled now attempt timeout_tail in
    do! _ := complete_embedded now lease Canceled (Some timeout_tail) in
    do! _ := refresh_stage now job in
    ret false.

(** [finish_job_after_runner_error]; errors of its steps are only logged. *)
Definition finish_job_after_runner_error (now : Z) (new_id job : N) (message : str) : handler unit :=
  do! active := query (fun l => has_active_lease l job) in
  do! status := query (fun l => job_status <$> (jobs (core l) !! job)) in
  match active, status with
  | true, Some (Queued | Running | Failed) =>
    let tail := truncate_error_tail (§"runner: internal failure: " ++ message) in
    do! _ := execute (fun l => with_jobs (update_where (fun k j => (k =? job)%N && live (job_status j))
                                 (fun j => set_job Failed (job_started_at j) (Some now) j) (jobs (core l))) l) in
    do! _ := logged (do! attempt := statement Internal (active_or_latest_attempt_id now new_id job) in
                     mark_attempt_failed now attempt tail) in
    do! _ := execute (complete_active_lease_for_job now job Failed (Some tail)) in
    logged (refresh_stage now job)
  | _, _ => ret tt
  end.

(** ** The handlers of external runners *)

(** One iteration of [claim_next_work]: the fresh identifiers, the row the
    statement picks and the verdict of the checks. *)
Record claim_try : Type := { ct_lease : N; ct_token_hash : str; ct_row : N; ct_checks : N -> N -> verdict }.

Fixpoint claim_loop (now : Z) (runner : N) (tags : list str) (others : N -> bool) (tries : list claim_try)
  : handler (option (N * N * Z)) :=
  match tries with
  | [] => ret None
  | t :: rest =>
    do! outcome := statement Internal (claim_next_work_tx now (ct_lease t) runner (ct_token_hash t) tags others
                                         (ct_row t) (ct_checks t)) in
    match outcome with
    | NoWork => ret None
    | Offered lease attempt generation stage => do! _ := refresh now stage in ret (Some (lease, attempt, generation))
    | Refused stage => do! _ := refresh now stage in claim_loop now runner tags others rest
    | RolledBack None => claim_loop now runner tags others rest
    | RolledBack (Some message) => fail (External message)
    end
  end.

Definition CLAIM_SERIALIZATION_ATTEMPTS : nat := 8.

Definition claim_next_work (now : Z) (queue_ids : N -> N) (runner : N) (tags : list str) (others : N -> bool)
  (tries : list claim_try) : handler (option (N * N * Z)) :=
  do! _ := statement Internal (enqueue_missing_ready_jobs now queue_ids) in
  claim_loop now runner tags others (take CLAIM_SERIALIZATION_ATTEMPTS tries).

(** [claim_embedded_job_lease] *)
Definition claim_embedded_job_lease (now : Z) (queue_ids : N -> N) (lease_id job : N) (admitted : option N)
  : handler (option (N * N * Z)) :=
  do! _ := statement Internal (enqueue_missing_ready_jobs now queue_ids) in
  statement Internal (claim_embedded_tx now lease_id job admitted).

(** ** The protocol handlers *)

(** A computation that needs no state. *)
Definition lift {A} (r : result A api_error) : handler A :=
  match r with Ok a => ret a | Err e => fail e end.

Definition PROTOCOL_VERSION : Z := 1.

Definition validate_protocol_version (version : Z) : result unit api_error :=
  if (version =? PROTOCOL_VERSION)%Z then Ok tt else Err (BadRequest §"unsupported_protocol_version").

(** [RunnerLeaseControlRequest] *)
Record control_request : Type := { cr_protocol_version : Z; cr_lease_token : str; cr_fencing_token : Z }.

Definition validate_control (input : control_request) : result unit api_error :=
  let? _ := validate_protocol_version (cr_protocol_version input) in
  if (cr_fencing_token input <? 1)%Z || is_empty (trim (cr_lease_token input))
  then Err (BadRequest §"lease token and fencing token are required")
  else Ok tt.

(** The answers of [lease_mutation_error] *)
Definition lease_failure (e : lease_error) : api_error :=
  match e with
  | LeaseGone => Gone §"runner lease expired"
  | LeaseNotActive => Conflict §"lease is not active"
  | LeaseFenced => Conflict §"lease_fenced"
  | LeaseNotFound => NotFound
  end.

Definition refused_lease {A} (now : Z) (lease_id runner : N) : handler A :=
  do! e := query (lease_mutation_error now lease_id runner) in fail (lease_failure e).

Section protocol.
(** [hash_token], [authenticate_runner] (the table of runners), the switch
    [application_policy_required], [pipeline_authority::confirm], which bounds
    the lease by a session of the pipeline's owner, and the second look at that
    bound after the statement. *)
Context (hash_token : str -> str) (authenticated : result N api_error) (policy_required : bool).
Context (confirm : N -> N -> result (option Z) api_error) (still_valid : result unit api_error).

Definition lease_owner_clock (now : Z) (lease_id runner : N) (token_hash : str) (generation : Z) (l : ledger)
  : result (option Z) api_error :=
  let selected := r ← leases l !! lease_id;
                  p ← pipeline_of_job l (le_job r);
                  if held now runner token_hash generation r then Some (p, le_attempt r) else None in
  match selected with
  | Some (pipeline, attempt) => confirm pipeline attempt
  | None => if policy_required then Err (Gone §"lease is no longer active") else Ok None
  end.

(** The common shape of [ack_runner_lease] and [renew_runner_lease]. *)
Definition mutate_lease (statement : N -> str -> Z -> option Z -> ledger -> option lease_row * ledger)
  (now : Z) (lease_id : N) (input : control_request) : handler lease_row :=
  do! _ := lift (validate_control input) in
  do! runner := lift authenticated in
  let token_hash := hash_token (trim (cr_lease_token input)) in
  do! clock := query (lease_owner_clock now lease_id runner token_hash (cr_fencing_token input)) in
  do! owner_until := lift clock in
  do! row := returning (statement runner token_hash (cr_fencing_token input) owner_until) in
  do! _ := lift (match owner_until with Some _ => still_valid | None => Ok tt end) in
  match row with Some row => ret row | None => refused_lease now lease_id runner end.

Definition ack_handler (now : Z) (lease_id : N) : control_request -> handler lease_row :=
  mutate_lease (ack_runner_lease now lease_id) now lease_id.
Definition renew_handler (now : Z) (lease_id : N) : control_request -> handler lease_row :=
  mutate_lease (renew_runner_lease now lease_id) now lease_id.

(** [RunnerCompleteRequest]; the termination proof is an argument of the handler. *)
Record complete_request : Type := {
  rq_control : control_request;
  rq_attempt_id : N;
  rq_outcome : str;
  rq_exit_code : option Z;
  rq_finished_at : Z;
  rq_diagnostic : option str;
  rq_deployment_observation : bool }.

Definition truncate_diagnostic (value : str) : str := take 4096 value.

Definition reported_diagnostic (input : complete_request) : option str :=
  match rq_diagnostic input with
  | Some value => let kept := truncate_diagnostic (trim value) in if is_empty kept then None else Some kept
  | None => None
  end.

Definition parse_completion (input : complete_request) : result (N -> completion) api_error :=
  let? _ := validate_control (rq_control input) in
  if match rq_exit_code input with Some code => (code <? 0)%Z || (255 <? code)%Z | None => false end
  then Err (BadRequest §"exit_code must be between 0 and 255")
  else
    let? terminal := ok_or (terminal_status_for_outcome (rq_outcome input)) (BadRequest §"unsupported runner outcome") in
    Ok (fun runner =>
      {| cp_runner := runner; cp_token_hash := hash_token (trim (cr_lease_token (rq_control input)));
         cp_generation := cr_fencing_token (rq_control input); cp_attempt := rq_attempt_id input; cp_terminal := terminal;
         cp_exit_code := rq_exit_code input; cp_finished_at := rq_finished_at input;
         cp_diagnostic := reported_diagnostic input |}).

Definition lease_command (lease_id : N) (l : ledger) : option str :=
  r ← leases l !! lease_id; j ← jobs (core l) !! le_job r; Some (job_command j).

(** ** Executions whose lease ran out *)

(** No other lease of the job is active, and none has a higher generation. *)
Definition latest_generation (l : ledger) (job : N) (generation : Z) : bool :=
  (max_of le_generation (fun _ r => (le_job r =? job)%N) (leases l) =? generation)%Z.

Definition only_active (l : ledger) (job lease_id : N) : bool :=
  negb (exists_row (fun k r => (le_job r =? job)%N && negb (k =? lease_id)%N && lease_active r) (leases l)).

(** The [SELECT .. FOR UPDATE] of [acknowledge_with_observation];
    [source_matches] compares the commit of the pipeline. *)
Definition stopped (now : Z) (c : completion) (source_matches : bool) (lease_id job : N) (l : ledger) (r : lease_row) : bool :=
  bool_decide (le_runner r = Some (cp_runner c)) && bool_decide (le_token_hash r = Some (cp_token_hash c))
  && (le_job r =? job)%N && (le_attempt r =? cp_attempt c)%N && (le_generation r =? cp_generation c)%Z
  && is_some (le_acknowledged_at r) && (le_expires_at r <=? now)%Z
  && negb (lease_active r) && bool_decide (le_terminal_status r = Some (cp_terminal c))
  && match jobs (core l) !! job, attempts l !! cp_attempt c with
     | Some j, Some a => bool_decide (job_status j = cp_terminal c) && bool_decide (at_status a = cp_terminal c)
                         && is_some (at_finished_at a)
     | _, _ => false
     end
  && is_some (pipeline_of_job l job) && source_matches
  && latest_generation l job (cp_generation c) && only_active l job lease_id.

Definition receive_completion (now : Z) (c : completion) (r : lease_row) : lease_row :=
  set_lease (lease_status_for_terminal (cp_terminal c)) (le_expires_at r) (le_acknowledged_at r) (le_cancel_requested_at r)
    (le_completed_at r) (Some now) (le_terminal_status r) (le_error_tail r) r.

Definition acknowledge_stopped (now : Z) (c : completion) (source_matches : bool) (lease_id job : N) (l : ledger) : bool * ledger :=
  match cp_terminal c, leases l !! lease_id with
  | (Failed | Canceled), Some r =>
    if stopped now c source_matches lease_id job l r
    then (true, if is_some (le_completion_received_at r) then l
                else with_leases (<[lease_id := receive_completion now c r]> (leases l)) l)
    else (false, l)
  | _, _ => (false, l)
  end.

(** [deployment] is the verdict of [deployment_runtime::finish], which works on
    the tables of deployments, on a job with the given command. *)
Definition deployment_verdict (deployment : completion -> result unit api_error) (observed : bool) (ordinary : str)
  (c : completion) (command : option str) : handler unit :=
  if bool_decide (command = Some deploy_command) then lift (deployment c) else guard (negb observed) (Conflict ordinary).

(** [termination::complete]: the custody of the Kubernetes executor has to prove
    that the execution is over, for the job it names. *)
Definition complete_terminated (now : Z) (lease_id : N) (outcome : str) (custody : result (N * bool) str)
  (deployment : completion -> result unit api_error) (observed : bool) (c : completion) : handler JobStatus :=
  do! _ := guard (str_eqb outcome §"failed" || str_eqb outcome §"failure" || str_eqb outcome §"canceled")
             (Conflict §"Expired execution cannot report success") in
  do! owned := query (fun l => match leases l !! lease_id with
                               | Some r => bool_decide (le_runner r = Some (cp_runner c))
                                           && bool_decide (le_token_hash r = Some (cp_token_hash c))
                                           && (le_attempt r =? cp_attempt c)%N && (le_generation r =? cp_generation c)%Z
                                           && (le_expires_at r <=? now)%Z && is_some (le_acknowledged_at r)
                               | None => false
                               end) in
  do! _ := guard owned (Conflict §"Original expired lease unavailable") in
  do! scope := lift (match custody with Ok scope => Ok scope | Err e => Err (Conflict e) end) in
  do! job := query (fun l => le_job <$> leases l !! lease_id) in
  do! _ := guard (bool_decide (job = Some scope.1)) (Conflict §"Termination proof identity mismatch") in
  do! accepted := transaction (
    do! command := query (lease_command lease_id) in
    do! accepted := returning (acknowledge_stopped now c scope.2 lease_id scope.1) in
    do! _ := (if accepted
              then deployment_verdict deployment observed §"Ordinary stopped job cannot submit a deployment observation" c command
              else ret tt) in
    ret accepted) in
  do! _ := guard accepted (Conflict §"Expired termination no longer owns this attempt") in
  ret (cp_terminal c).

(** [termination] holds the custody's answer when the request carries a proof
    and the runner is in Kubernetes mode. *)
Definition complete_runner_lease (now : Z) (lease_id : N) (deployment : completion -> result unit api_error)
  (termination : option (result (N * bool) str)) (input : complete_request) : handler JobStatus :=
  do! parsed := lift (parse_completion input) in
  do! runner := lift authenticated in
  let c := parsed runner in
  do! command := query (lease_command lease_id) in
  do! stage := transaction (
    do! stage := returning (complete_runner_lease_tx now lease_id c) in
    do! _ := match stage with
             | None => ret tt
             | Some _ => deployment_verdict deployment (rq_deployment_observation input)
                           §"Ordinary job cannot submit a deployment observation" c command
             end in
    ret stage) in
  match stage with
  | Some stage => do! _ := refresh now stage in ret (cp_terminal c)
  | None =>
    match termination with
    | Some custody =>
      complete_terminated now lease_id (rq_outcome input) custody deployment (rq_deployment_observation input) c
    | None => refused_lease now lease_id runner
    end
  end.
End protocol.

(** ** The embedded executors

    What the executors of the embedded runner write to the dispatch ledger:
    the end of an image build and the retention of a workspace
    ([backend/src/runner.rs]), the recovery of interrupted Compose projects
    ([backend/src/runner_docker.rs]) and of Kubernetes executions
    ([backend/src/runner_kubernetes.rs]), and the preparation of a task
    workspace ([backend/src/api/sdlc_workspace/task_pipeline.rs]).  A lease
    without a runner is an embedded one: rows of runners are never deleted
    here. *)

(** [EmbeddedJobLease] *)
Record embedded_lease : Type := { el_id : N; el_attempt : N; el_generation : Z }.

(** The lease row is the one the executor holds. *)
Definition names_lease (e : embedded_lease) (r : lease_row) : bool :=
  (le_attempt r =? el_attempt e)%N && (le_generation r =? el_generation e)%Z && negb (is_some (le_runner r)).

(** [lease_status IN ('completed','canceled')] *)
Definition ended (s : LeaseStatus) : bool := match s with Completed | LeaseCanceled => true | _ => false end.

(** ** [finish_image_build_success] *)

Definition build_succeeds (now : Z) (job : N) (e : embedded_lease) (l : ledger) (r : lease_row) : bool :=
  names_lease e r && (le_job r =? job)%N && lease_active r && negb (is_some (le_cancel_requested_at r))
  && (now <? le_expires_at r)%Z && latest_generation l job (el_generation e)
  && match attempts l !! el_attempt e, jobs (core l) !! job, pipeline_of_job l job with
     | Some a, Some j, Some p =>
       (at_job a =? job)%N && bool_decide (at_status a = Running) && bool_decide (job_status j = Running)
       && match pipeline_status_of l p with Some s => live s | None => false end
     | _, _, _ => false
     end.

Definition succeed_lease (now : Z) (r : lease_row) : lease_row :=
  set_lease Completed (le_expires_at r) (le_acknowledged_at r) (le_cancel_requested_at r) (Some now)
    (le_completion_received_at r) (Some Success) (le_error_tail r) r.

Definition leased_row (job : N) (e : embedded_lease) (q : queue_row) : bool :=
  bool_decide (qu_lease q = Some (el_id e)) && (qu_attempt q =? el_attempt e)%N && (qu_job q =? job)%N
  && bool_decide (qu_state q = QLeased).

(** The queue row closes with the lease. *)
Definition complete_queue_row (now : Z) (q : queue_row) : queue_row :=
  set_queue QCompleted (qu_not_before q) (qu_required_tags q) (qu_leased_at q) (qu_lease q) (Some now) q.

(** [late] says that a deadline passed while the transaction ran; every
    predicate that fails rolls all writes back. *)
Definition finish_image_build_success (now : Z) (late : bool) (job : N) (e : embedded_lease) (exit_code : option Z) (l : ledger)
  : bool * ledger :=
  match leases l !! el_id e with
  | Some r =>
    if build_succeeds now job e l r && exists_row (fun _ q => leased_row job e q) (queue l) && negb late
    then
      (true,
       with_leases (<[el_id e := succeed_lease now r]> (leases l))
         (with_attempts (update_where (fun k a => (k =? el_attempt e)%N && bool_decide (at_status a = Running))
            (fun a => set_attempt Success (at_trigger a) (at_started_at a) (Some now) exit_code None a) (attempts l))
           (with_queue (update_where (fun _ q => leased_row job e q) (complete_queue_row now) (queue l))
             (with_jobs (update_where (fun k j => (k =? job)%N && bool_decide (job_status j = Running))
                (fun j => set_job Success (job_started_at j) (Some now) j) (jobs (core l))) l))))
    else (false, l)
  | None => (false, l)
  end.

(** ** [finish_workspace_retention] *)

(** The terminal status that lease and attempt agree on. *)
Definition terminal_readback (e : embedded_lease) (l : ledger) : option JobStatus :=
  r ← leases l !! el_id e;
  a ← attempts l !! el_attempt e;
  t ← le_terminal_status r;
  if (le_attempt r =? el_attempt e)%N && (le_generation r =? el_generation e)%Z && is_some (le_completed_at r)
     && ended (le_status r) && bool_decide (at_status a = t) && is_some (at_finished_at a)
  then Some t else None.

Definition accept_completion (now : Z) (e : embedded_lease) (outcome : JobStatus) (l : ledger) : bool * ledger :=
  match leases l !! el_id e with
  | Some r =>
    if names_lease e r && is_some (le_completed_at r) && bool_decide (le_terminal_status r = Some outcome) && ended (le_status r)
    then (true, with_leases (<[el_id e :=
                  set_lease (le_status r) (le_expires_at r) (coalesce (le_acknowledged_at r) (Some now))
                    (le_cancel_requested_at r) (le_completed_at r) (coalesce (le_completion_received_at r) (Some now))
                    (le_terminal_status r) (le_error_tail r) r]> (leases l)) l)
    else (false, l)
  | None => (false, l)
  end.

(** [journaled] is the verdict of the workspace journal; [false] holds the
    workspace. *)
Definition finish_workspace_retention (now : Z) (e : embedded_lease) (journaled : JobStatus -> bool) : handler bool :=
  do! acknowledged := query (terminal_readback e) in
  match acknowledged with
  | Some outcome => if journaled outcome then returning (accept_completion now e outcome) else ret false
  | None => ret false
  end.

(** ** Interrupted Compose projects: [runner_docker::reconcile] *)

Definition interrupted_tail : str := §"runner interrupted; explicit retry required".
Definition uncertain_tail : str := §"runner interrupted; execution outcome uncertain; explicit retry required".

(** The transaction; the stage of the job it failed. *)
Definition interrupt_attempt (now : Z) (job attempt : N) (l : ledger) : option N * ledger :=
  let queued := exists_row (fun _ q => (qu_job q =? job)%N && (qu_attempt q =? attempt)%N) (queue l) in
  let hit k j := (k =? job)%N && live (job_status j) && queued in
  let l1 := with_attempts (update_where (fun k a => (k =? attempt)%N && (at_job a =? job)%N && live (at_status a))
                             (finish_attempt now Failed (Some uncertain_tail)) (attempts l)) l in
  let l2 := with_jobs (update_where hit (finish_job now Failed) (jobs (core l))) l1 in
  let l3 := with_leases (update_where (fun _ r => (le_attempt r =? attempt)%N && (le_job r =? job)%N && lease_active r)
                           (close_lease now Completed Failed (Some interrupted_tail)) (leases l)) l2 in
  (match jobs (core l) !! job with Some j => if hit job j then Some (job_stage j) else None | None => None end,
   close_job_queue_for_attempt now attempt Failed l3).

Definition reconcile_interrupted (now : Z) (job attempt : N) : handler unit :=
  do! stage := returning (interrupt_attempt now job attempt) in
  match stage with Some stage => refresh now stage | None => ret tt end.

(** ** Kubernetes executions: [runner_kubernetes] *)

(** [terminal_acknowledged] *)
Definition terminal_acknowledged (job : N) (e : embedded_lease) (l : ledger) : bool :=
  match leases l !! el_id e, jobs (core l) !! job, attempts l !! el_attempt e with
  | Some r, Some j, Some a =>
    names_lease e r && (le_job r =? job)%N && (at_job a =? job)%N && latest_generation l job (el_generation e)
    && is_some (le_completed_at r) && is_some (job_finished_at j) && is_some (at_finished_at a)
    && bool_decide (le_terminal_status r = Some (job_status j)) && bool_decide (at_status a = job_status j)
    && is_terminal (job_status j) && bool_decide (le_status r = lease_status_for_terminal (job_status j))
    && only_active l job (el_id e)
  | _, _, _ => false
  end.

(** The end of [run_kubernetes_job]: [delegated] holds whether a deadline passed
    before and during the transaction, when the success of a task pipeline has
    to be published under its lease. *)
Definition finish_kubernetes (now : Z) (job : N) (e : embedded_lease) (status : JobStatus) (exit_code : Z)
  (delegated : option (bool * bool)) : handler bool :=
  do! written := match status, delegated with
                 | Success, Some (early, late) =>
                   if early then ret false else returning (finish_image_build_success now late job e (Some exit_code))
                 | _, _ =>
                   do! updated := returning (end_running_job now job (el_attempt e) status) in
                   if updated then
                     do! _ := execute (fun l => with_attempts (update_where
                                (fun k a => (k =? el_attempt e)%N && bool_decide (at_status a = Running))
                                (fun a => set_attempt status (at_trigger a) (at_started_at a) (Some now) (Some exit_code) (at_error_tail a) a)
                                (attempts l)) l) in
                     do! _ := complete_embedded now (el_id e) status None in
                     ret true
                   else ret false
                 end in
  if written then
    do! acknowledged := query (terminal_acknowledged job e) in
    if acknowledged then do! _ := refresh_stage now job in ret true else ret false
  else ret false.

(** The statement of [reconcile_terminal] for an execution that is known to
    have stopped. *)
Definition recover_lease (now : Z) (status : JobStatus) (r : lease_row) : lease_row :=
  set_lease (lease_status_for_terminal status) (le_expires_at r) (coalesce (le_acknowledged_at r) (Some now))
    (le_cancel_requested_at r) (coalesce (le_completed_at r) (Some now)) (Some now) (Some status) (le_error_tail r) r.

Definition recover_terminal (now : Z) (job : N) (e : embedded_lease) (status : JobStatus) (l : ledger) : bool * ledger :=
  match leases l !! el_id e with
  | Some r =>
    if names_lease e r && (le_job r =? job)%N && latest_generation l job (el_generation e) && only_active l job (el_id e)
    then (true, with_leases (<[el_id e := recover_lease now status r]> (leases l)) l)
    else (false, l)
  | None => (false, l)
  end.

(** One record of [reconcile_terminal] that no worker holds: [has_stopped] is
    the answer of the Kubernetes API; a running execution is taken up again. *)
Definition reconcile_terminal (now : Z) (job : N) (e : embedded_lease) (has_stopped : bool) : handler bool :=
  do! row := query (fun l =>
    r ← leases l !! el_id e;
    j ← jobs (core l) !! job;
    a ← attempts l !! el_attempt e;
    if names_lease e r && (le_job r =? job)%N && latest_generation l job (el_generation e)
    then Some (job_status j, at_status a, le_status r) else None) in
  match row with
  | Some (Running, Running, Active) | None => ret false
  | Some (status, attempt_status, _) =>
    do! ack := query (terminal_acknowledged job e) in
    if has_stopped && bool_decide (status = attempt_status) && (retryable status || (bool_decide (status = Success) && ack)) then
      do! recovered := (if ack then ret true else returning (recover_terminal now job e status)) in
      if recovered then do! _ := refresh_stage now job in ret true else ret false
    else ret false
  end.

(** ** Task workspaces *)

(** The acknowledgement of the embedded lease when its workspace is prepared. *)
Definition acknowledge_prepared (now : Z) (lease_id : N) (l : ledger) : ledger :=
  match leases l !! lease_id with
  | Some r =>
    if is_some (le_runner r) then l
    else with_leases (<[lease_id := set_lease (le_status r) (le_expires_at r) (coalesce (le_acknowledged_at r) (Some now))
                          (le_cancel_requested_at r) (le_completed_at r) (le_completion_received_at r)
                          (le_terminal_status r) (le_error_tail r) r]> (leases l)) l
  | None => l
  end.
