(* ===== verification/Creation.v ===== *)
(** * The rows of a new pipeline

    The last part of the trigger handlers of
    [backend/src/api/pipelines_routes.rs]: a compiled configuration becomes a
    pipeline with its stages, jobs and first attempts, and every job that may
    run gets a row in the queue.  The identifiers are fresh ones. *)
From S2P Require Import Prelude Pipeline Status Table Ledger LedgerHandlers.

(** [INSERT INTO pipelines ..], [stages ..] and [jobs ..]: the primary keys,
    the foreign keys and [UNIQUE(pipeline_id, position)].  Positions of jobs are
    not kept; they count the jobs of a new stage. *)
Definition insert_pipeline (id : N) (p : pipeline_row) (l : ledger) : result ledger db_error :=
  let? _ := ok_or (max_running_jobs l !! project_id p) ForeignKeyViolation in
  match pipelines (core l) !! id with
  | Some _ => Err UniqueViolation
  | None => Ok (with_pipelines (<[id := p]> (pipelines (core l))) l)
  end.

Definition insert_stage (id : N) (s : stage_row) (l : ledger) : result ledger db_error :=
  let? _ := ok_or (pipelines (core l) !! stage_pipeline s) ForeignKeyViolation in
  match stages (core l) !! id with
  | Some _ => Err UniqueViolation
  | None =>
    if exists_row (fun _ x => (stage_pipeline x =? stage_pipeline s)%N && (stage_position x =? stage_position s)%Z) (stages (core l))
    then Err UniqueViolation
    else Ok (with_stages (<[id := s]> (stages (core l))) l)
  end.

Definition insert_job_row (id : N) (j : job_row) (l : ledger) : result ledger db_error :=
  let? _ := ok_or (stages (core l) !! job_stage j) ForeignKeyViolation in
  match jobs (core l) !! id with
  | Some _ => Err UniqueViolation
  | None => Ok (with_jobs (<[id := j]> (jobs (core l))) l)
  end.

(** The identifiers drawn for stage [p] and for job [k] of stage [p]. *)
Record new_ids : Type := {
  ni_pipeline : N;
  ni_stage : nat -> N;
  ni_job : nat -> nat -> N;
  ni_attempt : nat -> nat -> N;
  ni_queue : nat -> nat -> N }.

Definition queued_pipeline (now : Z) (project : N) : pipeline_row :=
  {| project_id := project; pipeline_status := Queued; started_at := None; finished_at := None;
     pipeline_created_at := now; has_plan := true |}.

Definition queued_stage (pipeline : N) (position : nat) : stage_row :=
  {| stage_pipeline := pipeline; stage_position := Z.of_nat position; stage_status := Queued |}.

Definition queued_job (stage : N) (j : CiJob) : job_row :=
  {| job_stage := stage; job_status := Queued; allow_failure := cj_allow_failure j; job_manual := cj_manual j;
     job_command := cj_command j; job_required_tags := cj_required_tags j; job_timeout_seconds := cj_timeout_seconds j;
     job_started_at := None; job_finished_at := None |}.

(** [xs.iter().enumerate()] *)
Definition enumerate {A} (xs : list A) : list (nat * A) := imap pair xs.

Section creation.
Context (now : Z) (ids : new_ids).

Definition create_job (p : nat) (job : nat * CiJob) : handler unit :=
  let k := job.1 in
  let id := ni_job ids p k in
  do! _ := statement Internal (unit_statement (insert_job_row id (queued_job (ni_stage ids p) job.2))) in
  do! _ := statement Internal (unit_statement (insert_attempt (ni_attempt ids p k) (new_attempt now id 1 Queued §"initial"))) in
  do! _ := enqueue now (ni_queue ids p k) id (ni_attempt ids p k) in
  ret tt.

Definition create_stage (stage : nat * CiStage) : handler unit :=
  do! _ := statement Internal (unit_statement (insert_stage (ni_stage ids stage.1) (queued_stage (ni_pipeline ids) stage.1))) in
  for_each (enumerate (cs_jobs stage.2)) (create_job stage.1).

(** The verdict of the other tables. *)
Definition recording (recorded : result unit str) : handler unit :=
  match recorded with Ok _ => ret tt | Err e => fail (External e) end.

(** From the insertion of the pipeline to the commit.  [known] is the pipeline
    an earlier trigger with the same key made, with whether its fingerprint is
    the same; [recorded] the verdict of the records of owners, plans and tasks
    that other tables keep, which a replay consults as well.  The answer says whether the trigger was a replay. *)
Definition trigger_pipeline (known : option (N * bool)) (recorded : result unit str) (project : N) (stages : list CiStage)
  : handler (N * bool) :=
  match known with
  | Some (pipeline, same) =>
    do! _ := guard same (Conflict §"idempotency key was already used for a different pipeline trigger") in
    do! _ := recording recorded in
    ret (pipeline, true)
  | None =>
    do! _ := transaction (
      do! _ := statement Internal (unit_statement (insert_pipeline (ni_pipeline ids) (queued_pipeline now project))) in
      do! _ := recording recorded in
      for_each (enumerate stages) create_stage) in
    do! _ := execute notify_runner_work in
    ret (ni_pipeline ids, false)
  end.
End creation.
