(* ===== verification/LedgerSafety.v ===== *)
(** * Safety of the dispatch ledger

    The invariant of the tables, the steps the statements make, and what every
    interleaving of them preserves. *)
From stdpp Require Import relations.
From S2P Require Import Prelude Status Table Ledger LedgerHandlers Creation.

(** ** Evolution of tables *)

(** An update keeps the rows and relates each old row to the new one. *)
Definition follows {V} (R : V -> V -> Prop) (t t' : gmap N V) : Prop := forall k, option_Forall2 R (t !! k) (t' !! k).

Lemma follows_refl {V} (R : V -> V -> Prop) t : (forall v, R v v) -> follows R t t.
Proof. intros HR k. destruct (t !! k); constructor; auto. Qed.

Lemma follows_Some {V} (R : V -> V -> Prop) t t' k v : follows R t t' -> t !! k = Some v -> exists v', t' !! k = Some v' /\ R v v'.
Proof. intros Hf Hk. specialize (Hf k). rewrite Hk in Hf. inversion Hf; subst. eauto. Qed.

Lemma follows_Some_inv {V} (R : V -> V -> Prop) t t' k v' : follows R t t' -> t' !! k = Some v' -> exists v, t !! k = Some v /\ R v v'.
Proof. intros Hf Hk. specialize (Hf k). rewrite Hk in Hf. inversion Hf; subst. eauto. Qed.

(** Every row stays, related to what it was; rows may be new. *)
Definition grows {V} (R : V -> V -> Prop) (t t' : gmap N V) : Prop :=
  forall k v, t !! k = Some v -> exists v', t' !! k = Some v' /\ R v v'.

Lemma follows_grows {V} (R : V -> V -> Prop) (t t' : gmap N V) : follows R t t' -> grows R t t'.
Proof. intros Hf k v Hk. by eapply follows_Some. Qed.

Lemma grows_fresh {V} (R : V -> V -> Prop) (t : gmap N V) k v : (forall v, R v v) -> t !! k = None -> grows R t (<[k := v]> t).
Proof. intros HR Hn i w Hi. exists w. split; [|done]. rewrite lookup_insert_ne; [done|]. intros ->. congruence. Qed.

Lemma follows_update_from {V X} (R : V -> V -> Prop) (src : N -> V -> option X) f t :
  (forall v, R v v) -> (forall k v x, src k v = Some x -> R v (f x v)) -> follows R t (update_from src f t).
Proof.
  intros HR Hf k. rewrite lookup_update_from. destruct (t !! k) as [v|]; cbn; constructor.
  destruct (src k v) eqn:E; eauto.
Qed.

Lemma update_where_from {V} (p : N -> V -> bool) f (t : gmap N V) :
  update_where p f t = update_from (fun k v => if p k v then Some tt else None) (fun _ => f) t.
Proof.
  apply map_eq. intros k. rewrite lookup_update_where, lookup_update_from. destruct (t !! k) as [v|]; [|done]. cbn.
  by destruct (p k v).
Qed.

Lemma follows_update_where {V} (R : V -> V -> Prop) p f (t : gmap N V) :
  (forall v, R v v) -> (forall k v, p k v = true -> R v (f v)) -> follows R t (update_where p f t).
Proof.
  intros HR Hf. rewrite update_where_from. apply follows_update_from; [done|].
  intros k v x. destruct (p k v) eqn:E; [|done]. intros _. eauto.
Qed.

Lemma follows_insert {V} (R : V -> V -> Prop) (t : gmap N V) k v v' :
  (forall v, R v v) -> t !! k = Some v -> R v v' -> follows R t (<[k := v']> t).
Proof.
  intros HR Hk Hv i. destruct (decide (i = k)) as [->|Hi].
  - rewrite lookup_insert_eq, Hk. by constructor.
  - rewrite lookup_insert_ne by done. destruct (t !! i); by constructor.
Qed.

(** What stays the same in a row, whatever happens to it. *)
Definition job_same (j j' : job_row) : Prop := job_stage j' = job_stage j.
Definition stage_same (s s' : stage_row) : Prop := stage_pipeline s' = stage_pipeline s.
Definition attempt_same (a a' : attempt_row) : Prop := at_job a' = at_job a /\ at_no a' = at_no a.
Definition queue_same (q q' : queue_row) : Prop :=
  qu_job q' = qu_job q /\ qu_attempt q' = qu_attempt q /\ qu_pipeline q' = qu_pipeline q /\ qu_stage q' = qu_stage q.

(** A lease keeps its identity; a closed lease stays closed, keeps the time it
    was closed at and, when an external runner held it, how it ended. *)
Record lease_same (r r' : lease_row) : Prop := {
  ls_job : le_job r' = le_job r;
  ls_attempt : le_attempt r' = le_attempt r;
  ls_runner : le_runner r' = le_runner r;
  ls_token : le_token_hash r' = le_token_hash r;
  ls_generation : le_generation r' = le_generation r;
  ls_closed : lease_active r = false ->
    lease_active r' = false /\ (is_Some (le_completed_at r) -> le_completed_at r' = le_completed_at r) /\
    (is_Some (le_runner r) -> le_terminal_status r' = le_terminal_status r) }.

Lemma lease_same_refl r : lease_same r r.
Proof. by split. Qed.

Lemma lease_same_inactive r r' : lease_same r r' -> lease_active r = false -> lease_active r' = false.
Proof. intros H Hr. exact (proj1 (ls_closed _ _ H Hr)). Qed.

Lemma lease_same_trans r r' r'' : lease_same r r' -> lease_same r' r'' -> lease_same r r''.
Proof.
  intros H1 H2. pose proof (lease_same_inactive _ _ H1) as Hin. destruct H1 as [A1 A2 A3 A4 A5 A6], H2 as [B1 B2 B3 B4 B5 B6].
  split; try congruence. intros Hr. destruct (A6 Hr) as (? & C1 & C2), (B6 (Hin Hr)) as (? & D1 & D2). split_and!; [done| |].
  - intros Hs. rewrite D1, C1; rewrite ?C1; done.
  - intros Hs. rewrite D2, C2; [done|done|]. by rewrite A3.
Qed.

(** ** The invariant *)

(** A queue row names an attempt of its job, and the stage and the pipeline of
    that job. *)
Record row_fits (l : ledger) (q : queue_row) : Prop := {
  rf_attempt : exists a, attempts l !! qu_attempt q = Some a /\ at_job a = qu_job q;
  rf_place : exists j s, jobs (core l) !! qu_job q = Some j /\ job_stage j = qu_stage q /\
                         stages (core l) !! qu_stage q = Some s /\ stage_pipeline s = qu_pipeline q }.

Record wf (l : ledger) : Prop := {
  wf_attempts : valid_table (attempts l);
  wf_leases : valid_table (leases l);
  wf_queue : valid_table (queue l);
  wf_attempt_job : forall k a, attempts l !! k = Some a -> is_Some (jobs (core l) !! at_job a);
  wf_lease_attempt : forall k r, leases l !! k = Some r ->
    exists a, attempts l !! le_attempt r = Some a /\ at_job a = le_job r;
  wf_queue_row : forall k q, queue l !! k = Some q -> row_fits l q;
  wf_queue_lease : forall k q i, queue l !! k = Some q -> qu_lease q = Some i ->
    exists r, leases l !! i = Some r /\ le_attempt r = qu_attempt q /\ le_job r = qu_job q }.

(** ** Evolution of ledgers *)

Record evolves (l l' : ledger) : Prop := {
  ev_jobs : grows job_same (jobs (core l)) (jobs (core l'));
  ev_stages : grows stage_same (stages (core l)) (stages (core l'));
  ev_attempts : forall k a, attempts l !! k = Some a -> exists a', attempts l' !! k = Some a' /\ attempt_same a a';
  ev_leases : forall k r, leases l !! k = Some r -> exists r', leases l' !! k = Some r' /\ lease_same r r';
  ev_queue : forall k q, queue l !! k = Some q -> exists q', queue l' !! k = Some q' /\ queue_same q q';
  ev_new_lease : forall k r, leases l' !! k = Some r -> leases l !! k = None ->
    forall i r0, leases l !! i = Some r0 -> le_job r0 = le_job r -> (le_generation r0 < le_generation r)%Z }.

Lemma evolves_refl l : evolves l l.
Proof. split; [| | | | |congruence]; apply follows_grows, follows_refl; done || apply lease_same_refl. Qed.

Lemma evolves_trans l l' l'' : evolves l l' -> evolves l' l'' -> evolves l l''.
Proof.
  intros E1 E2. split.
  - intros k j Hj. destruct (ev_jobs _ _ E1 k j Hj) as (j1 & H1 & S1), (ev_jobs _ _ E2 k j1 H1) as (j2 & H2 & S2).
    exists j2. split; [done|]. unfold job_same in *. congruence.
  - intros k s Hs. destruct (ev_stages _ _ E1 k s Hs) as (s1 & H1 & S1), (ev_stages _ _ E2 k s1 H1) as (s2 & H2 & S2).
    exists s2. split; [done|]. unfold stage_same in *. congruence.
  - intros k a Ha. destruct (ev_attempts _ _ E1 k a Ha) as (a' & Ha' & ? & ?), (ev_attempts _ _ E2 k a' Ha') as (a'' & ? & ? & ?).
    exists a''. split; [done|]. split; congruence.
  - intros k r Hr. destruct (ev_leases _ _ E1 k r Hr) as (r' & Hr' & S1), (ev_leases _ _ E2 k r' Hr') as (r'' & ? & S2).
    exists r''. split; [done|]. by eapply lease_same_trans.
  - intros k q Hq. destruct (ev_queue _ _ E1 k q Hq) as (q' & Hq' & S1), (ev_queue _ _ E2 k q' Hq') as (q'' & ? & S2).
    exists q''. split; [done|]. unfold queue_same in *. intuition congruence.
  - intros k r Hr Hn i r0 Hr0 Hj. destruct (ev_leases _ _ E1 i r0 Hr0) as (r0' & Hr0' & S1).
    destruct (leases l' !! k) as [r1|] eqn:E.
    + destruct (ev_leases _ _ E2 k r1 E) as (r2 & Hr2 & S2). rewrite Hr in Hr2. injection Hr2 as <-.
      rewrite (ls_generation _ _ S2). apply (ev_new_lease _ _ E1 k r1 E Hn i r0 Hr0). by rewrite <- (ls_job _ _ S2).
    + rewrite <- (ls_generation _ _ S1). apply (ev_new_lease _ _ E2 k r Hr E i r0' Hr0'). by rewrite (ls_job _ _ S1).
Qed.

(** What every step does: it evolves the ledger and keeps the invariant. *)
Definition good (l l' : ledger) : Prop := evolves l l' /\ (wf l -> wf l').

Lemma good_refl l : good l l.
Proof. split; [apply evolves_refl|done]. Qed.

Lemma good_trans l l' l'' : good l l' -> good l' l'' -> good l l''.
Proof. intros [E1 W1] [E2 W2]. split; [by eapply evolves_trans|auto]. Qed.

(** ** Updates of whole tables *)

(** An update of one table, with the validity it keeps. *)
Record attempts_evolve (t t' : gmap N attempt_row) : Prop := {
  ae_follows : follows attempt_same t t';
  ae_valid : valid_table t -> valid_table t' }.
Record leases_evolve (t t' : gmap N lease_row) : Prop := {
  lv_follows : follows lease_same t t';
  lv_valid : valid_table t -> valid_table t' }.
(** A queue row keeps its lease or loses it. *)
Definition queue_keeps (q q' : queue_row) : Prop := queue_same q q' /\ (qu_lease q' = qu_lease q \/ qu_lease q' = None).
Record queue_evolve (t t' : gmap N queue_row) : Prop := {
  qe_follows : follows queue_keeps t t';
  qe_valid : valid_table t -> valid_table t' }.

Lemma attempts_evolve_refl t : attempts_evolve t t.
Proof. split; [by apply follows_refl|done]. Qed.
Lemma leases_evolve_refl t : leases_evolve t t.
Proof. split; [apply follows_refl, lease_same_refl|done]. Qed.
Lemma queue_evolve_refl t : queue_evolve t t.
Proof. split; [|done]. apply follows_refl. intros q. split; [done|by left]. Qed.

Lemma attempts_evolve_from {X} (src : N -> attempt_row -> option X) f t :
  (forall k a x, src k a = Some x -> attempt_same a (f x a) /\ (live (at_status (f x a)) = true -> live (at_status a) = true)) ->
  attempts_evolve t (update_from src f t).
Proof.
  intros Hf. split.
  - apply follows_update_from; [done|]. intros. by eapply Hf.
  - apply update_from_valid; [done|]. intros k a x w Hs. destruct (Hf k a x Hs) as [[Hj Hn] Hl].
    unfold conflict; cbn. unfold attempt_conflict. rewrite Hj, Hn. destruct (live (at_status (f x a))); [by rewrite Hl|].
    cbn [andb]. rewrite orb_false_r. by intros [-> ->]%andb_true_iff.
Qed.

Lemma leases_evolve_from {X} (src : N -> lease_row -> option X) f t :
  (forall k r x, src k r = Some x -> lease_same r (f x r) /\ (lease_check r = true -> lease_check (f x r) = true) /\
                 (lease_active (f x r) = true -> lease_active r = true)) ->
  leases_evolve t (update_from src f t).
Proof.
  intros Hf. split.
  - apply follows_update_from; [apply lease_same_refl|]. intros. by eapply Hf.
  - apply update_from_valid; [intros; by eapply Hf|].
    intros k r x w Hs. destruct (Hf k r x Hs) as (Hsame & _ & Ha). destruct Hsame as [E1 _ _ E4 E5 _].
    unfold conflict; cbn. unfold lease_conflict. rewrite E1, E4, E5.
    destruct (lease_active (f x r)); [by rewrite Ha|]. cbn [andb]. rewrite !orb_false_r. by intros [-> ->]%andb_true_iff.
Qed.

Lemma queue_evolve_from {X} (src : N -> queue_row -> option X) f t :
  (forall k q x, src k q = Some x -> queue_keeps q (f x q) /\ (queue_check q = true -> queue_check (f x q) = true) /\
                 (queue_open (f x q) = true -> queue_open q = true)) ->
  queue_evolve t (update_from src f t).
Proof.
  intros Hf. split.
  - apply follows_update_from; [intros q; split; [done|by left]|]. intros. by eapply Hf.
  - apply update_from_valid; [intros; by eapply Hf|].
    intros k q x w Hs. destruct (Hf k q x Hs) as (((Hj & Ha & _) & Hl) & _ & Ho).
    unfold conflict; cbn. unfold queue_conflict. rewrite Hj, Ha.
    destruct (qu_attempt q =? qu_attempt w)%N; [done|]. cbn [orb].
    intros [H|H]%orb_true_iff; apply orb_true_iff; [left|right].
    + destruct (queue_open (f x q)); [by rewrite Ho|]. by rewrite andb_false_r in H.
    + destruct Hl as [E|E]; rewrite E in H; [done|discriminate H].
Qed.

Ltac as_from := rewrite update_where_from.
(** The source of an [update_where] in its general form. *)
Ltac where_source := intros ? ? []; match goal with |- (if ?b then _ else _) = _ -> _ => destruct b eqn:?Hw; [intros _|discriminate] end.

Lemma attempts_evolve_where p f t :
  (forall k a, p k a = true -> attempt_same a (f a) /\ (live (at_status (f a)) = true -> live (at_status a) = true)) ->
  attempts_evolve t (update_where p f t).
Proof. intros Hf. as_from. apply attempts_evolve_from. where_source. eauto. Qed.

Lemma leases_evolve_where p f t :
  (forall k r, p k r = true -> lease_same r (f r) /\ (lease_check r = true -> lease_check (f r) = true) /\
               (lease_active (f r) = true -> lease_active r = true)) ->
  leases_evolve t (update_where p f t).
Proof. intros Hf. as_from. apply leases_evolve_from. where_source. eauto. Qed.

Lemma queue_evolve_where p f t :
  (forall k q, p k q = true -> queue_keeps q (f q) /\ (queue_check q = true -> queue_check (f q) = true) /\
               (queue_open (f q) = true -> queue_open q = true)) ->
  queue_evolve t (update_where p f t).
Proof. intros Hf. as_from. apply queue_evolve_from. where_source. eauto. Qed.

(** Statements that only update rows are good. *)
Lemma good_updates l l' :
  follows job_same (jobs (core l)) (jobs (core l')) ->
  follows stage_same (stages (core l)) (stages (core l')) ->
  attempts_evolve (attempts l) (attempts l') ->
  leases_evolve (leases l) (leases l') ->
  queue_evolve (queue l) (queue l') ->
  good l l'.
Proof.
  intros Hj Hs [Ha Va] [Hl Vl] [Hq Vq]. split.
  - split; [by apply follows_grows|by apply follows_grows| | | |].
    + intros k a Hk. by eapply follows_Some.
    + intros k r Hk. by eapply follows_Some.
    + intros k q Hk. destruct (follows_Some _ _ _ _ _ Hq Hk) as (q' & ? & ? & _). eauto.
    + intros k r Hk Hn. destruct (follows_Some_inv _ _ _ _ _ Hl Hk) as (r0 & ? & _). congruence.
  - intros [W1 W2 W3 W4 W5 W6 W7]. split; [auto|auto|auto| | | |].
    + intros k a Hk. destruct (follows_Some_inv _ _ _ _ _ Ha Hk) as (a0 & Hk0 & Ej & _).
      rewrite Ej. destruct (W4 k a0 Hk0) as [j Hjj]. destruct (follows_Some _ _ _ _ _ Hj Hjj) as (j' & ? & _). by exists j'.
    + intros k r Hk. destruct (follows_Some_inv _ _ _ _ _ Hl Hk) as (r0 & Hk0 & Hsm).
      destruct (W5 k r0 Hk0) as (a & Hat & Ej). destruct (follows_Some _ _ _ _ _ Ha Hat) as (a' & Hat' & E1 & _).
      exists a'. rewrite (ls_attempt _ _ Hsm), (ls_job _ _ Hsm). split; [done|congruence].
    + intros k q Hk. destruct (follows_Some_inv _ _ _ _ _ Hq Hk) as (q0 & Hk0 & (E1 & E2 & E3 & E4) & _).
      destruct (W6 k q0 Hk0) as [(a & Hat & Ea) (j & s & Hjj & Ejs & Hss & Esp)].
      destruct (follows_Some _ _ _ _ _ Ha Hat) as (a' & Hat' & Eb & _).
      destruct (follows_Some _ _ _ _ _ Hj Hjj) as (j' & Hj' & Ec).
      destruct (follows_Some _ _ _ _ _ Hs Hss) as (s' & Hs' & Ed). unfold job_same, stage_same in *. split.
      * exists a'. rewrite E1, E2. split; [done|congruence].
      * exists j', s'. rewrite E1, E3, E4. split_and!; congruence.
    + intros k q i Hk Hi. destruct (follows_Some_inv _ _ _ _ _ Hq Hk) as (q0 & Hk0 & (E1 & E2 & _) & Hor).
      destruct Hor as [E|E]; [|congruence]. rewrite E in Hi. destruct (W7 k q0 i Hk0 Hi) as (r & Hr & Er & Erj).
      destruct (follows_Some _ _ _ _ _ Hl Hr) as (r' & Hr' & Hsm). exists r'.
      rewrite (ls_attempt _ _ Hsm), (ls_job _ _ Hsm). split_and!; congruence.
Qed.

Lemma jobs_refl (t : gmap N job_row) : follows job_same t t.
Proof. by apply follows_refl. Qed.
Lemma stages_refl (t : gmap N stage_row) : follows stage_same t t.
Proof. by apply follows_refl. Qed.
Lemma jobs_where p f (t : gmap N job_row) : (forall j, job_same j (f j)) -> follows job_same t (update_where p f t).
Proof. intros Hf. apply follows_update_where; [done|]. intros. apply Hf. Qed.
Lemma jobs_from {X} (src : N -> job_row -> option X) f t : (forall x j, job_same j (f x j)) -> follows job_same t (update_from src f t).
Proof. intros Hf. apply follows_update_from; [done|]. intros. apply Hf. Qed.

Create HintDb ledger.
#[export] Hint Resolve jobs_refl stages_refl attempts_evolve_refl leases_evolve_refl queue_evolve_refl
  jobs_where jobs_from good_refl follows_grows : ledger.
#[export] Hint Extern 1 (job_same _ _) => reflexivity : ledger.
#[export] Hint Extern 1 (stage_same _ _) => reflexivity : ledger.

(** ** The row updates of the statements *)

Lemma active_not_received r : lease_active r = true -> lease_check r = true -> le_completion_received_at r = None.
Proof.
  unfold lease_check, received_check, lease_active. intros Ha%bool_decide_eq_true [_ Hc]%andb_true_iff. rewrite Ha in Hc.
  by destruct (le_completion_received_at r).
Qed.

Lemma close_lease_ok now status terminal tail r :
  status <> Active -> lease_active r = true ->
  lease_same r (close_lease now status terminal tail r) /\
  (lease_check r = true -> lease_check (close_lease now status terminal tail r) = true) /\
  (lease_active (close_lease now status terminal tail r) = true -> lease_active r = true).
Proof.
  intros Hs Ha. split_and!; [|intros Hc|done].
  - split; try done. intros Hf. congruence.
  - apply active_not_received in Hc; [|done].
    unfold lease_check, received_check, lease_active, close_lease, set_lease; cbn. rewrite bool_decide_false by done.
    rewrite Hc. by destruct (le_completed_at r).
Qed.

Lemma request_cancel_ok now tail r :
  lease_same r (request_cancel now tail r) /\
  (lease_check r = true -> lease_check (request_cancel now tail r) = true) /\
  (lease_active (request_cancel now tail r) = true -> lease_active r = true).
Proof. split_and!; [|done|done]. by split. Qed.

Lemma close_queue_ok now state q :
  state = QCompleted \/ state = QCanceled ->
  queue_keeps q (close_queue_row now state q) /\
  (queue_check q = true -> queue_check (close_queue_row now state q) = true) /\
  (queue_open (close_queue_row now state q) = true -> queue_open q = true).
Proof.
  intros Hs. split_and!.
  - split; [done|by left].
  - intros _. unfold queue_check, close_queue_row, set_queue; cbn. destruct Hs as [-> | ->]; by destruct (qu_completed_at q).
  - unfold queue_open, close_queue_row, set_queue; cbn. by destruct Hs as [-> | ->].
Qed.

Lemma queue_state_closed terminal : queue_state_for_terminal terminal = QCompleted \/ queue_state_for_terminal terminal = QCanceled.
Proof. destruct terminal; auto. Qed.

Lemma lease_status_closed terminal : lease_status_for_terminal terminal <> Active.
Proof. by destruct terminal. Qed.

Lemma good_close_queue p now terminal l : good l (close_job_queue p now terminal l).
Proof.
  apply good_updates; cbn; auto with ledger. apply queue_evolve_where. intros. apply close_queue_ok, queue_state_closed.
Qed.

(** ** Inserted and rewritten rows *)

Lemma good_insert_attempt id a l l' :
  insert_attempt id a l = Ok l' -> good l l'.
Proof.
  unfold insert_attempt. intros (j & Hj%ok_or_Ok & (t & Hok & [= <-])%rbind_Ok_inv)%rbind_Ok_inv.
  apply insert_row_Ok in Hok as (Hn & -> & Hc & Hf).
  assert (Hold : forall k x, attempts l !! k = Some x -> <[id := a]> (attempts l) !! k = Some x).
  { intros k x Hk. rewrite lookup_insert_ne; [done|]. intros ->. congruence. }
  split.
  - split; cbn; auto with ledger; eauto using lease_same_refl; [intros k x Hk|by eexists|congruence].
    exists x. split; [by apply Hold|done].
  - intros [W1 W2 W3 W4 W5 W6 W7]. split; cbn; try done.
    + apply (insert_row_valid id a (attempts l)); [done|]. apply insert_row_Ok. done.
    + intros k x. rewrite lookup_insert_Some. intros [[<- <-]|[_ Hk]]; eauto.
    + intros k r Hk. destruct (W5 k r Hk) as (x & Hx & Ex). eauto.
    + intros k q Hk. destruct (W6 k q Hk) as [(x & Hx & Ex) Hp]. split; cbn; eauto.
Qed.

(** A row written with its constraints checked. *)
Lemma good_put_attempt id a a' l t :
  attempts l !! id = Some a -> attempt_same a a' -> put id a' (attempts l) = Ok t -> good l (with_attempts t l).
Proof.
  intros Hk Hs Hp. pose proof Hp as Hp'. apply put_Ok in Hp' as (-> & _ & _). apply good_updates; cbn; auto with ledger.
  split; [by eapply follows_insert|]. intros Hv. by eapply put_valid.
Qed.

Lemma good_put_queue id q q' l t :
  queue l !! id = Some q -> queue_keeps q q' -> put id q' (queue l) = Ok t -> good l (with_queue t l).
Proof.
  intros Hk Hs Hp. pose proof Hp as Hp'. apply put_Ok in Hp' as (-> & _ & _). apply good_updates; cbn; auto with ledger.
  split; [|intros Hv; by eapply put_valid]. eapply follows_insert; [|done|done]. intros x. split; [done|by left].
Qed.

Lemma good_insert_queue id q l t :
  (wf l -> row_fits l q) -> qu_lease q = None -> insert_row id q (queue l) = Ok t -> good l (with_queue t l).
Proof.
  intros Hfit Hl Hp. pose proof Hp as Hp'. apply insert_row_Ok in Hp' as (Hn & -> & Hc & Hf). split.
  - split; cbn; auto with ledger; eauto using lease_same_refl; [by eexists| |congruence].
    intros k x Hk. exists x. split; [|done]. rewrite lookup_insert_ne; [done|]. intros ->. congruence.
  - intros W. pose proof W as [W1 W2 W3 W4 W5 W6 W7]. split; cbn; try done.
    + by apply (insert_row_valid id q (queue l)).
    + intros k x. rewrite lookup_insert_Some. intros [[<- <-]|[_ Hk]].
      * destruct (Hfit W). by split.
      * destruct (W6 k x Hk). by split.
    + intros k x i. rewrite lookup_insert_Some. intros [[<- <-]|[_ Hk]] Hi; [congruence|eauto].
Qed.

Lemma good_upsert new_id row reopened l n l' :
  (wf l -> row_fits l row) -> qu_lease row = None ->
  (forall q, queue_same q (reopened q) /\ qu_lease (reopened q) = None) ->
  upsert_queue new_id row reopened l = Ok (n, l') -> good l l'.
Proof.
  intros Hfit Hl Hr. unfold upsert_queue. destruct (select _ (queue l)) as [|[id q] rest] eqn:Es.
  - intros (t & Hok & [= _ <-])%rbind_Ok_inv. by eapply good_insert_queue.
  - destruct (bool_decide (qu_state q = QLeased)); [intros [= _ <-]; apply good_refl|].
    intros (t & Hok & [= _ <-])%rbind_Ok_inv. assert (Hq : queue l !! id = Some q).
    { assert (Hin : (id, q) ∈ select (fun _ q => (qu_attempt q =? qu_attempt row)%N) (queue l)) by (rewrite Es; left).
      apply elem_of_select in Hin. apply Hin. }
    eapply good_put_queue; [done| |done]. destruct (Hr q). split; [done|by right].
Qed.

Lemma upsert_frame new_id row reopened l n l' :
  upsert_queue new_id row reopened l = Ok (n, l') -> exists t, l' = with_queue t l.
Proof.
  unfold upsert_queue. destruct (select _ (queue l)) as [|[id q] rest].
  - intros (t & Hok & [= _ <-])%rbind_Ok_inv. eauto.
  - destruct (bool_decide (qu_state q = QLeased)).
    + intros [= _ <-]. exists (queue l). by destruct l.
    + intros (t & Hok & [= _ <-])%rbind_Ok_inv. eauto.
Qed.

Lemma good_notify n l : good l (notify_if n l).
Proof. unfold notify_if. destruct (0 <? n); [|apply good_refl]. apply good_updates; cbn; auto with ledger. Qed.

(** ** The statements of the queue *)

Lemma good_open_attempt now id job trigger l n l' : open_attempt_id now id job trigger l = Ok (n, l') -> good l l'.
Proof.
  unfold open_attempt_id. destruct (select_max _ _ _) as [[k a]|]; [intros [= _ <-]; apply good_refl|].
  intros (j & Hj%ok_or_Ok & (l1 & Hi & [= _ <-])%rbind_Ok_inv)%rbind_Ok_inv.
  by eapply good_insert_attempt.
Qed.

Lemma good_compat_attempt now id job l n l' : active_or_latest_attempt_id now id job l = Ok (n, l') -> good l l'.
Proof.
  unfold active_or_latest_attempt_id.
  destruct (select_max _ _ _) as [[k a]|]; [intros [= _ <-]; apply good_refl|].
  destruct (select_max _ _ _) as [[k a]|]; [intros [= _ <-]; apply good_refl|].
  intros (j & Hj%ok_or_Ok & (l1 & Hi & [= _ <-])%rbind_Ok_inv)%rbind_Ok_inv.
  by eapply good_insert_attempt.
Qed.

Lemma good_enqueue now id job attempt l n l' : enqueue_job_attempt_tx now id job attempt l = Ok (n, l') -> good l l'.
Proof.
  unfold enqueue_job_attempt_tx.
  destruct (jobs (core l) !! job) as [j|] eqn:Ej; [|intros [= _ <-]; apply good_refl].
  destruct (attempts l !! attempt) as [a|] eqn:Ea; [|intros [= _ <-]; apply good_refl].
  destruct (stages (core l) !! job_stage j) as [s|] eqn:Es; [|intros [= _ <-]; apply good_refl].
  destruct (pipelines (core l) !! stage_pipeline s) as [p|]; [|intros [= _ <-]; apply good_refl].
  destruct (at_job a =? job)%N eqn:Eb; cbn [andb]; [|intros [= _ <-]; apply good_refl]. apply N.eqb_eq in Eb.
  match goal with |- context [if ?b then _ else _] => destruct b end; [|intros [= _ <-]; apply good_refl].
  apply good_upsert; [|done|done]. intros _. split; cbn; [by exists a|by exists j, s].
Qed.

Lemma missing_ready_row now l job j row :
  missing_ready now l job j = Some row ->
  qu_job row = job /\ qu_stage row = job_stage j /\ qu_lease row = None /\
  (exists s, stages (core l) !! job_stage j = Some s /\ qu_pipeline row = stage_pipeline s) /\
  exists a, attempts l !! qu_attempt row = Some a /\ at_job a = job.
Proof.
  unfold missing_ready. intros (s & Hs & (p & Hp & ([k a] & Ha & E)%bind_Some)%bind_Some)%bind_Some.
  apply select_max_Some in Ha as [Ha Hw]. apply andb_true_iff in Hw as [Hw%N.eqb_eq _].
  match type of E with (if ?b then _ else _) = _ => destruct b; [|done] end. injection E as <-. cbn. split_and!; eauto.
Qed.

Lemma good_enqueue_missing now ids l n l' : enqueue_missing_ready_jobs now ids l = Ok (n, l') -> good l l'.
Proof.
  unfold enqueue_missing_ready_jobs. intros E. apply rbind_Ok_inv in E as ([m l1] & E & E'). injection E' as <- <-.
  apply (good_trans l l1); [|apply good_notify]. cbn [snd].
  refine (proj1 (rfold_invariant _ (fun _ acc => good l acc.2 /\ exists t, acc.2 = with_queue t l) (0, l) _ (m, l1) _ _ E)).
  - split; [apply good_refl|]. exists (queue l). by destruct l.
  - intros pre row post [c l2] [c' l3] Hxs [G [t Et]] Hb. cbn in G, Et, Hb. subst.
    apply rbind_Ok_inv in Hb as ([a l4] & Hok & [= <- <-]).
    assert (Hin : row ∈ omap (fun kv => missing_ready now l kv.1 kv.2) (map_to_list (jobs (core l)))).
    { rewrite Hxs, elem_of_app. right. left. }
    apply list_elem_of_omap in Hin as ([job j] & Hj & Hrow). apply elem_of_map_to_list in Hj. cbn in Hrow.
    apply missing_ready_row in Hrow as (E1 & E2 & E3 & (s & Hs & E4) & (a0 & Ha0 & Ea0)).
    split.
    + apply (good_trans _ _ _ G). refine (good_upsert _ _ _ _ _ _ _ E3 _ Hok); [|done]. intros _. split; cbn.
      * exists a0. by rewrite E1.
      * exists j, s. rewrite E1, E2, E4. done.
    + apply upsert_frame in Hok as [t' ->]. by exists t'.
Qed.

(** ** Claims *)

Lemma next_generation_greater l job k r :
  leases l !! k = Some r -> le_job r = job -> (le_generation r < next_generation l job)%Z.
Proof.
  intros Hk Hj. unfold next_generation.
  pose proof (max_of_ge le_generation (fun _ r => (le_job r =? job)%N) (leases l) k r Hk) as H.
  specialize (H ltac:(by apply N.eqb_eq)). lia.
Qed.

(** A grant of a lease that starts the next generation of its job. *)
Lemma good_grant now lease_id qid q trigger js lease l l' :
  queue l !! qid = Some q -> qu_job q = le_job lease -> qu_attempt q = le_attempt lease ->
  le_generation lease = next_generation l (le_job lease) ->
  grant now lease_id qid q trigger js lease l = Ok l' -> good l l'.
Proof.
  intros Hq Ejob Eat Egen. unfold grant. intros (lt & Hl & (qt & Hqt & [= <-])%rbind_Ok_inv)%rbind_Ok_inv.
  pose proof Hl as Hl0. apply insert_row_Ok in Hl as (Hn & -> & Hc & Hf).
  pose proof Hqt as Hqt0. apply put_Ok in Hqt as (-> & _ & _).
  set (jobs' := update_where _ _ (jobs (core l))). set (attempts' := update_where _ _ (attempts l)).
  assert (Hjobs : follows job_same (jobs (core l)) jobs') by (apply jobs_where; reflexivity).
  assert (Hatt : attempts_evolve (attempts l) attempts').
  { apply attempts_evolve_where. intros k a [_ Ha]%andb_true_iff. apply bool_decide_eq_true in Ha. rewrite Ha. done. }
  assert (Hold : forall k r, leases l !! k = Some r -> <[lease_id := lease]> (leases l) !! k = Some r).
  { intros k r Hk. rewrite lookup_insert_ne; [done|]. intros ->. congruence. }
  split.
  - split; cbn; auto with ledger.
    + intros k a Hk. destruct Hatt as [Hfa _]. by eapply follows_Some.
    + intros k r Hk. exists r. split; [by apply Hold|apply lease_same_refl].
    + intros k x Hk. destruct (decide (k = qid)) as [->|Hne].
      * rewrite lookup_insert_eq. rewrite Hq in Hk. injection Hk as ->. eexists. split; [reflexivity|]. done.
      * rewrite lookup_insert_ne by done. by exists x.
    + intros k r. rewrite lookup_insert_Some. intros [[<- <-]|[_ Hk]] Hnk i r0 Hi Hj0; [|congruence].
      rewrite Egen. by eapply next_generation_greater.
  - intros [W1 W2 W3 W4 W5 W6 W7]. split; cbn.
    + by apply (ae_valid _ _ Hatt).
    + by eapply insert_row_valid.
    + by eapply put_valid.
    + intros k a Hk. destruct (follows_Some_inv _ _ _ _ _ (ae_follows _ _ Hatt) Hk) as (a0 & Hk0 & Ej & _).
      rewrite Ej. destruct (W4 k a0 Hk0) as [j Hj]. destruct (follows_Some _ _ _ _ _ Hjobs Hj) as (j' & ? & _). by exists j'.
    + assert (Hlift : forall i x, (exists a, attempts l !! i = Some a /\ at_job a = x) ->
                                  exists a, attempts' !! i = Some a /\ at_job a = x).
      { intros i x (a & Ha & <-). destruct (follows_Some _ _ _ _ _ (ae_follows _ _ Hatt) Ha) as (a' & ? & ? & _). by exists a'. }
      intros k r. rewrite lookup_insert_Some. intros [[<- <-]|[_ Hk]]; [|by apply Hlift; eauto].
      apply Hlift. destruct (W6 qid q Hq) as [Ha _]. by rewrite Eat, Ejob in Ha.
    + assert (Hfit : forall x, row_fits l x -> forall y, queue_same x y -> row_fits
                (with_jobs jobs' (with_attempts attempts' (with_leases (<[lease_id := lease]> (leases l)) l))) y).
      { intros x [(a & Ha & Ea) (j & s & Hj & Es & Hs & Ep)] y (Y1 & Y2 & Y3 & Y4). split; cbn; rewrite ?Y1, ?Y2, ?Y3, ?Y4.
        - destruct (follows_Some _ _ _ _ _ (ae_follows _ _ Hatt) Ha) as (a' & ? & ? & _). exists a'. split; [done|congruence].
        - destruct (follows_Some _ _ _ _ _ Hjobs Hj) as (j' & ? & Ejj). exists j', s. unfold job_same in Ejj. split_and!; congruence. }
      intros k x. rewrite lookup_insert_Some. intros [[<- <-]|[_ Hk]].
      * destruct (Hfit q (W6 qid q Hq) (set_queue QLeased (qu_not_before q) (qu_required_tags q) (Some now) (Some lease_id) (qu_completed_at q) q) ltac:(done)). by split.
      * destruct (Hfit x (W6 k x Hk) x ltac:(done)). by split.
    + intros k x i. rewrite lookup_insert_Some. intros [[<- <-]|[_ Hk]] Hi.
      * injection Hi as <-. exists lease. rewrite lookup_insert_eq. cbn. split_and!; congruence.
      * destruct (W7 k x i Hk Hi) as (r & Hr & E1 & E2). exists r. split; [by apply Hold|done].
Qed.

Lemma embedded_claimed now lease_id job admitted l c l' :
  claim_embedded_tx now lease_id job admitted l = Ok (Some c, l') ->
  exists qid q, queue l !! qid = Some q /\ embedded_ready now job admitted l q = true /\ qu_job q = job /\
    c = (lease_id, qu_attempt q, next_generation l job) /\
    grant now lease_id qid q §"runner" (fun _ => Some now)
      (new_lease (qu_job q) (qu_attempt q) None None (next_generation l job)
         (now + seconds (clamp_timeout (j ← jobs (core l) !! job; job_timeout_seconds j) + 60)) None) l = Ok l'.
Proof.
  unfold claim_embedded_tx. destruct (select _ (queue l)) as [|[qid q] rest] eqn:Es; [done|].
  intros (l1 & Hg & [= <- <-])%rbind_Ok_inv.
  assert (Hin : (qid, q) ∈ select (fun _ q => embedded_ready now job admitted l q) (queue l)) by (rewrite Es; left).
  apply elem_of_select in Hin as [Hq Hr]. exists qid, q. split_and!; try done.
  unfold embedded_ready in Hr. apply andb_true_iff in Hr as [Hr _]. apply andb_true_iff in Hr as [Hr _]. by apply N.eqb_eq.
Qed.

Lemma good_claim_embedded now lease_id job admitted l c l' :
  claim_embedded_tx now lease_id job admitted l = Ok (c, l') -> good l l'.
Proof.
  destruct c as [c|].
  - intros (qid & q & Hq & _ & <- & _ & Hg)%embedded_claimed. eapply good_grant; [exact Hq| | | |exact Hg]; reflexivity.
  - unfold claim_embedded_tx. destruct (select _ (queue l)) as [|[qid q] rest]; [intros [= <-]; apply good_refl|].
    intros (l1 & _ & [=])%rbind_Ok_inv.
Qed.

Lemma external_claimed now lease_id runner token tags others qid l c l' :
  claim_external_tx now lease_id runner token tags others qid l = Ok (Some c, l') ->
  exists q, queue l !! qid = Some q /\ external_ready now tags others l qid q = true /\
    c = (lease_id, qu_attempt q, next_generation l (qu_job q)) /\
    grant now lease_id qid q §"external_runner" (fun started => coalesce started (Some now))
      (new_lease (qu_job q) (qu_attempt q) (Some runner) (Some token) (next_generation l (qu_job q))
         (now + seconds 120) (Some (now + seconds 30)%Z)) l = Ok l'.
Proof.
  unfold claim_external_tx. destruct (queue l !! qid) as [q|] eqn:Eq; [|done].
  destruct (external_ready _ _ _ _ _ _) eqn:Er; [|done]. intros (l1 & Hg & [= <- <-])%rbind_Ok_inv. by exists q.
Qed.

Lemma good_claim_external now lease_id runner token tags others qid l c l' :
  claim_external_tx now lease_id runner token tags others qid l = Ok (c, l') -> good l l'.
Proof.
  destruct c as [c|].
  - intros (q & Hq & _ & _ & Hg)%external_claimed. eapply good_grant; [exact Hq| | | |exact Hg]; reflexivity.
  - unfold claim_external_tx. destruct (queue l !! qid) as [q|]; [|intros [= <-]; apply good_refl].
    destruct (external_ready _ _ _ _ _ _); [|intros [= <-]; apply good_refl]. intros (l1 & _ & [=])%rbind_Ok_inv.
Qed.

(** ** The protocol and completions *)

Lemma leases_evolve_insert (t : gmap N lease_row) k r r' :
  t !! k = Some r -> lease_same r r' -> (lease_check r = true -> lease_check r' = true) ->
  (lease_active r' = true -> lease_active r = true) -> leases_evolve t (<[k := r']> t).
Proof.
  intros Hk Hs Hc Ha.
  assert (E : <[k := r']> t = update_from (fun i _ => if (i =? k)%N then Some tt else None) (fun _ _ => r') t).
  { apply map_eq. intros i. rewrite lookup_update_from. destruct (decide (i = k)) as [->|Hi].
    - by rewrite lookup_insert_eq, Hk, N.eqb_refl.
    - rewrite lookup_insert_ne by done. destruct (t !! i); [|done]. cbn. by rewrite (proj2 (N.eqb_neq i k) Hi). }
  split; [eapply follows_insert; [apply lease_same_refl|done|done]|].
  intros [Vc Vu]. split.
  - intros i x. rewrite lookup_insert_Some. intros [[<- <-]|[_ Hi]]; [apply Hc; by apply (Vc k)|by apply (Vc i)].
  - assert (Hcf : forall w, conflict r' w = true -> conflict r w = true).
    { intros w. destruct Hs as [E1 _ _ E4 E5 _]. unfold conflict; cbn. unfold lease_conflict. rewrite E1, E4, E5.
      destruct (lease_active r'); [by rewrite Ha|]. cbn [andb]. rewrite !orb_false_r. intros Hb. apply andb_true_iff in Hb as [H1 H2]. by rewrite H1, H2. }
    intros i j x y Hij. rewrite !lookup_insert_Some. intros [[<- <-]|[Hi Hx]] [[<- <-]|[Hj Hy]]; [done| | |exact (Vu i j x y Hij Hx Hy)].
    + apply not_true_iff_false. intros Ht%Hcf. by rewrite (Vu _ _ _ _ Hij Hk Hy) in Ht.
    + apply not_true_iff_false. rewrite conflict_sym. intros Ht%Hcf. rewrite conflict_sym in Ht. by rewrite (Vu _ _ _ _ Hij Hx Hk) in Ht.
Qed.

Lemma good_refuse now lease_id job attempt diagnostic l l' :
  refuse_undispatched now lease_id job attempt diagnostic l = Ok l' -> good l l'.
Proof.
  unfold refuse_undispatched. intros (lt & Hl & [= <-])%rbind_Ok_inv.
  eapply good_trans; [|apply good_close_queue]. apply good_updates; cbn; auto with ledger.
  - apply attempts_evolve_where. intros k a _. by split.
  - destruct (leases l !! lease_id) as [r|] eqn:Er; [|injection Hl as <-; apply leases_evolve_refl].
    destruct (lease_active r) eqn:Ea; [|injection Hl as <-; apply leases_evolve_refl].
    apply put_Ok in Hl as (-> & Hc & _). eapply leases_evolve_insert; [done| |done|done].
    split; try done. intros. congruence.
Qed.

Lemma good_claim_next now lease_id runner token tags others qid checks l o l' :
  claim_next_work_tx now lease_id runner token tags others qid checks l = Ok (o, l') -> good l l'.
Proof.
  unfold claim_next_work_tx. intros ([c l1] & Hc & E)%rbind_Ok_inv. apply good_claim_external in Hc. cbn in E.
  destruct c as [[[lease attempt] generation]|]; [|injection E as _ <-; apply good_refl].
  destruct (_ ≫= _) as [[job stage]|]; [|injection E as _ <-; apply good_refl].
  destruct (checks job attempt); [|apply rbind_Ok_inv in E as (l2 & Hr & [= _ <-])| |];
    try (injection E as _ <-; try apply good_refl; done).
  eapply good_trans; [done|by eapply good_refuse].
Qed.

Lemma held_active now runner token gen r : held now runner token gen r = true -> lease_active r = true.
Proof. unfold held. rewrite !andb_true_iff. tauto. Qed.

Lemma good_ack now id runner token gen until l : good l (ack_runner_lease now id runner token gen until l).2.
Proof.
  unfold ack_runner_lease. destruct (leases l !! id) as [r|] eqn:Er; [|apply good_refl].
  destruct (ackable _ _ _ _ _ _) eqn:Ea; [|apply good_refl].
  assert (Hact : lease_active r = true).
  { unfold ackable in Ea. apply andb_true_iff in Ea as [Ea _]. apply andb_true_iff in Ea as [Ea _]. by eapply held_active. }
  apply good_updates; cbn; auto with ledger. eapply leases_evolve_insert; [done|by split| |done].
  intros Hc. pose proof (active_not_received _ Hact Hc) as Hn. revert Hc.
  unfold lease_check, received_check; cbn. by rewrite Hn.
Qed.

Lemma good_renew now id runner token gen until l : good l (renew_runner_lease now id runner token gen until l).2.
Proof.
  unfold renew_runner_lease. destruct (leases l !! id) as [r|] eqn:Er; [|apply good_refl].
  destruct (held now runner token gen r) eqn:Eh; [|apply good_refl]. cbn [andb].
  destruct (owner_ok now until && is_some (le_acknowledged_at r)); [|apply good_refl]. apply held_active in Eh.
  apply good_updates; cbn; auto with ledger. eapply leases_evolve_insert; [done|by split|done|done].
Qed.

(** Writes that end live rows. *)
Lemma attempts_end p f t :
  (forall a, attempt_same a (f a)) -> (forall k a, p k a = true -> live (at_status a) = true) ->
  attempts_evolve t (update_where p f t).
Proof. intros Hf Hp. apply attempts_evolve_where. intros k a Hk. split; [apply Hf|]. intros _. by eapply Hp. Qed.

Lemma good_complete_writes now id c r l :
  leases l !! id = Some r -> is_some (le_acknowledged_at r) = true -> good l (complete_writes now id c r l).
Proof.
  intros Hr Hack. unfold complete_writes. eapply good_trans; [|apply good_close_queue].
  apply good_updates; cbn; auto with ledger.
  - apply attempts_end; [done|]. by intros k a [_ Ha]%andb_true_iff.
  - rewrite (update_where_row lease_active _ _ _ r) by done. destruct (lease_active r) eqn:Ea; [|apply leases_evolve_refl].
    eapply leases_evolve_insert; [done| | |done]; [split; try done; intros; congruence|]. intros _.
    unfold lease_check, received_check, lease_active, set_lease; cbn. rewrite bool_decide_false by apply lease_status_closed.
    rewrite Hack, !andb_true_r. destruct (cp_terminal c), (le_completed_at r); done.
Qed.

Lemma completable_acknowledged now c l r : completable now c l r = true -> is_some (le_acknowledged_at r) = true.
Proof. unfold completable. rewrite !andb_true_iff. tauto. Qed.

Lemma good_complete now id c l : good l (complete_runner_lease_tx now id c l).2.
Proof.
  unfold complete_runner_lease_tx. destruct (leases l !! id) as [r|] eqn:Er; [|apply good_refl].
  destruct (completable now c l r) eqn:Ec; [|apply good_refl]. apply good_complete_writes; [done|].
  by eapply completable_acknowledged.
Qed.

(** Closing active leases. *)
Definition close_leases (p : N -> lease_row -> bool) (now : Z) (status : LeaseStatus) (terminal : JobStatus)
  (tail : option str) (l : ledger) : ledger :=
  with_leases (update_where (fun k r => p k r && lease_active r) (close_lease now status terminal tail) (leases l)) l.

Lemma good_close_leases p now status terminal tail l : status <> Active -> good l (close_leases p now status terminal tail l).
Proof.
  intros Hs. apply good_updates; cbn; auto with ledger. apply leases_evolve_where.
  intros k r [_ Ha]%andb_true_iff. by apply close_lease_ok.
Qed.

Lemma update_where_ext {V} p p' (f : V -> V) t : (forall k v, p k v = p' k v) -> update_where p f t = update_where p' f t.
Proof. intros Hp. apply map_eq. intros k. rewrite !lookup_update_where. destruct (t !! k); [|done]. cbn. by rewrite Hp. Qed.

Lemma good_leases_where p f l :
  (forall k r, p k r = true -> lease_same r (f r) /\ (lease_check r = true -> lease_check (f r) = true) /\
               (lease_active (f r) = true -> lease_active r = true)) ->
  good l (with_leases (update_where p f (leases l)) l).
Proof. intros Hf. apply good_updates; cbn; auto with ledger. by apply leases_evolve_where. Qed.

Lemma good_complete_by_id now id terminal tail l : good l (complete_lease_by_id now id terminal tail l).2.
Proof.
  unfold complete_lease_by_id. destruct (leases l !! id) as [r|]; [|apply good_refl].
  destruct (lease_active r); [|apply good_refl]. eapply good_trans; [|apply good_close_queue].
  apply good_leases_where. intros k x [_ Ha]%andb_true_iff. by apply close_lease_ok; [apply lease_status_closed|].
Qed.

Lemma good_complete_for_job now job terminal tail l : good l (complete_active_lease_for_job now job terminal tail l).
Proof.
  unfold complete_active_lease_for_job. eapply good_trans; [|apply good_close_queue].
  apply good_leases_where. intros k x [_ Ha]%andb_true_iff. by apply close_lease_ok; [apply lease_status_closed|].
Qed.

Lemma good_signal now scope tail l : good l (signal_external now scope tail l).
Proof. apply good_leases_where. intros. apply request_cancel_ok. Qed.

Lemma good_close_embedded now scope tail l : good l (close_embedded now scope tail l).
Proof. apply good_leases_where. intros k r H. apply close_lease_ok; [done|]. rewrite !andb_true_iff in H. tauto. Qed.

(** ** The reconcilers *)

Lemma good_expire now l : good l (expire_leases now l).2.
Proof.
  unfold expire_leases; cbn [snd]. apply good_updates; cbn; auto with ledger.
  - apply attempts_evolve_from. intros k a x. destruct (live (at_status a)); [|done]. done.
  - apply leases_evolve_where. intros k r [Ha _]%andb_true_iff. unfold expire_lease. apply close_lease_ok; [|done].
    by destruct (is_some (le_cancel_requested_at r)).
  - apply queue_evolve_from. intros k q x. intros _.
    apply (close_queue_ok now (queue_state_for_terminal (expires_to x.2)) q), queue_state_closed.
Qed.

Lemma good_requeue now l : good l (requeue_unacknowledged now l).2.
Proof.
  unfold requeue_unacknowledged; cbn [snd]. apply good_updates; cbn; auto with ledger.
  - apply attempts_evolve_from. intros k a x. destruct (bool_decide_reflect (at_status a = Running)) as [E|]; [|done].
    intros _. split; [done|]. by rewrite E.
  - apply leases_evolve_where. intros k r H. apply close_lease_ok; [done|]. unfold is_unacknowledged in H. rewrite !andb_true_iff in H. tauto.
  - apply queue_evolve_from. intros k q x. destruct (bool_decide_reflect (qu_state q = QLeased)) as [E|]; [|done].
    intros _. split_and!; [split; [done|by right]|done|]. intros _. unfold queue_open. by rewrite E.
Qed.

Lemma good_terminal_queues now l : good l (reconcile_terminal_pipeline_queues now l).
Proof.
  unfold reconcile_terminal_pipeline_queues. apply good_updates; cbn; auto with ledger.
  - apply attempts_end; [done|]. intros k a [Ha _]%andb_true_iff. apply bool_decide_eq_true in Ha. by rewrite Ha.
  - apply queue_evolve_where. intros. apply close_queue_ok. by right.
Qed.

Lemma good_time_out now t e f l : good l (time_out_queue now t e f l).2.
Proof.
  unfold time_out_queue; cbn [snd]. apply good_updates; cbn; auto with ledger.
  - apply attempts_end; [done|]. intros k a [Ha _]%andb_true_iff. apply bool_decide_eq_true in Ha. by rewrite Ha.
  - apply queue_evolve_where. intros. apply close_queue_ok. by left.
Qed.

Lemma good_unleased now l : good l (fail_unleased now l).2.
Proof.
  unfold fail_unleased; cbn [snd]. apply good_updates; cbn; auto with ledger.
  - apply attempts_end; [done|]. by intros k a [Ha _]%andb_true_iff.
  - apply queue_evolve_where. intros. apply close_queue_ok. by left.
Qed.

(** ** Jobs, stages and attempts *)

Lemma good_jobs t l : follows job_same (jobs (core l)) t -> good l (with_jobs t l).
Proof. intros Ht. apply good_updates; cbn; auto with ledger. Qed.

Lemma good_stages t l : follows stage_same (stages (core l)) t -> good l (with_stages t l).
Proof. intros Ht. apply good_updates; cbn; auto with ledger. Qed.

Lemma good_pipelines t l : good l (with_pipelines t l).
Proof. apply good_updates; cbn; auto with ledger. Qed.

Lemma good_refresh now l stage d : refresh_statuses now (core l) stage = Ok d -> good l (with_core d l).
Proof.
  intros E. pose proof (refresh_statuses_refreshed now (core l) stage) as H. rewrite E in H. destruct H as (st & Hst & R).
  apply good_updates; cbn; auto with ledger.
  - rewrite (rf_jobs _ _ _ _ R). auto with ledger.
  - intros k. destruct (decide (k = stage)) as [->|Hk].
    + rewrite (rf_stage _ _ _ _ R), Hst. cbn. by constructor.
    + rewrite (rf_other_stages _ _ _ _ R k Hk). destruct (stages (core l) !! k); by constructor.
Qed.

Lemma good_attempts_where p f l :
  (forall a, attempt_same a (f a)) -> (forall k a, p k a = true -> live (at_status a) = true) ->
  good l (with_attempts (update_where p f (attempts l)) l).
Proof. intros Hf Hp. apply good_updates; cbn; auto with ledger. by apply attempts_end. Qed.

Lemma good_update_attempt now attempt status l l' : update_attempt now attempt status l = Ok l' -> good l l'.
Proof.
  unfold update_attempt. destruct (attempts l !! attempt) as [a|] eqn:Ea; [|intros [= <-]; apply good_refl].
  intros (t & Hp & [= <-])%rbind_Ok_inv. eapply good_put_attempt; [exact Ea| |exact Hp]. done.
Qed.

Lemma good_finish_by_id now attempt f l :
  (forall a, attempt_same a (f a)) -> good l (finish_attempt_by_id now attempt f l).
Proof.
  intros Hf. apply good_attempts_where; [done|]. intros k a [_ Ha]%andb_true_iff. revert Ha. by destruct (at_status a).
Qed.

(** ** The executors *)

Lemma closed_completed r : lease_active r = false -> lease_check r = true -> is_some (le_completed_at r) = true.
Proof. unfold lease_check. intros ->. by intros [H _]%andb_true_iff. Qed.

Lemma lease_closed_check status expires acked cancel completed received terminal tail r :
  ended status = true -> is_some completed = true -> is_some acked = true -> is_some terminal = true ->
  lease_check (set_lease status expires acked cancel completed received terminal tail r) = true.
Proof.
  intros Hs Hc Ha Ht. unfold lease_check, received_check, lease_active, set_lease; cbn.
  rewrite bool_decide_false by (by destruct status). rewrite Hc, Ha, Ht. destruct status; try done; by rewrite orb_true_r.
Qed.

Lemma good_leases_insert k r r' l :
  leases l !! k = Some r -> lease_same r r' -> (lease_check r = true -> lease_check r' = true) ->
  (lease_active r' = true -> lease_active r = true) -> good l (with_leases (<[k := r']> (leases l)) l).
Proof. intros Hk Hs Hc Ha. apply good_updates; cbn; auto with ledger. by eapply leases_evolve_insert. Qed.

Lemma ended_not_active s : ended s = true -> s <> Active.
Proof. by destruct s. Qed.

Lemma is_some_is_Some {A} (o : option A) : is_some o = true -> is_Some o.
Proof. destruct o; [by eexists|done]. Qed.

Lemma good_build_success now late job e code l : good l (finish_image_build_success now late job e code l).2.
Proof.
  unfold finish_image_build_success. destruct (leases l !! el_id e) as [r|] eqn:Er; [|apply good_refl].
  destruct (build_succeeds now job e l r) eqn:Eb; [|apply good_refl]. cbn [andb].
  destruct (exists_row _ (queue l) && negb late); [|apply good_refl]. cbn [snd].
  assert (Ha : lease_active r = true). { unfold build_succeeds in Eb. rewrite !andb_true_iff in Eb. tauto. }
  apply good_updates; cbn; auto with ledger.
  - apply attempts_end; [done|]. intros k a [_ H]%andb_true_iff. apply bool_decide_eq_true in H. by rewrite H.
  - eapply leases_evolve_insert; [done| | |done].
    + split; try done. intros. congruence.
    + intros Hc. pose proof (active_not_received _ Ha Hc) as Hn.
      unfold lease_check, received_check, lease_active, succeed_lease, set_lease; cbn. by rewrite Hn.
  - apply queue_evolve_where. intros k q H. split_and!; [split; [done|by left]|done|done].
Qed.

Lemma good_accept now e outcome l : good l (accept_completion now e outcome l).2.
Proof.
  unfold accept_completion. destruct (leases l !! el_id e) as [r|] eqn:Er; [|apply good_refl].
  destruct (_ && ended (le_status r)) eqn:Eb; [|apply good_refl]. rewrite !andb_true_iff in Eb.
  destruct Eb as (((_ & Hc) & Ht%bool_decide_eq_true) & He). cbn [snd]. eapply good_leases_insert; [done| | |done].
  - by split.
  - intros _. apply lease_closed_check; rewrite ?Ht; try done. by destruct (le_acknowledged_at r).
Qed.

Lemma good_recover now job e status l : is_terminal status = true -> good l (recover_terminal now job e status l).2.
Proof.
  intros Hst. unfold recover_terminal. destruct (leases l !! el_id e) as [r|] eqn:Er; [|apply good_refl].
  destruct (names_lease e r && _ && _ && _) eqn:Eb; [|apply good_refl]. cbn [snd].
  assert (Hrun : le_runner r = None).
  { unfold names_lease in Eb. rewrite !andb_true_iff in Eb. destruct Eb as (((((_ & _) & Hn) & _) & _) & _). by destruct (le_runner r). }
  assert (Hin : lease_active (recover_lease now status r) = false) by (by destruct status).
  eapply good_leases_insert; [done| | |congruence].
  - split; try done. intros _. split_and!; [done| |].
    + cbn. intros [t Hc]. by rewrite Hc.
    + rewrite Hrun. by intros [? ?].
  - intros _. apply lease_closed_check; [by destruct status|by destruct (le_completed_at r)|by destruct (le_acknowledged_at r)|done].
Qed.

Lemma good_stopped now c source id job l : good l (acknowledge_stopped now c source id job l).2.
Proof.
  unfold acknowledge_stopped. destruct (leases l !! id) as [r|] eqn:Er; [|destruct (cp_terminal c); apply good_refl].
  assert (Hmain : (cp_terminal c = Failed \/ cp_terminal c = Canceled) ->
    good l (if stopped now c source id job l r
            then (true, if is_some (le_completion_received_at r) then l
                        else with_leases (<[id := receive_completion now c r]> (leases l)) l)
            else (false, l)).2); [|destruct (cp_terminal c); try apply good_refl; apply Hmain; auto].
  intros Hterm. destruct (stopped _ _ _ _ _ _ _) eqn:Es; [|apply good_refl]. cbn [snd].
  destruct (is_some (le_completion_received_at r)); [apply good_refl|].
  unfold stopped in Es. rewrite !andb_true_iff in Es. destruct Es as (((((((((((((_ & _) & _) & _) & _) & Hack) & _) & Ha) & Ht) & _) & _) & _) & _) & _).
  apply negb_true_iff in Ha. apply bool_decide_eq_true in Ht.
  assert (He : ended (lease_status_for_terminal (cp_terminal c)) = true) by (by destruct Hterm as [-> | ->]).
  assert (Hin : lease_active (receive_completion now c r) = false) by (by destruct Hterm as [E|E]; unfold receive_completion, lease_active; cbn; rewrite E).
  eapply good_leases_insert; [done| | |congruence].
  - by split.
  - intros Hc. apply lease_closed_check; rewrite ?Ht; try done. by apply closed_completed.
Qed.

Lemma good_interrupt now job attempt l : good l (interrupt_attempt now job attempt l).2.
Proof.
  unfold interrupt_attempt; cbn [snd]. eapply good_trans; [|apply good_close_queue]. apply good_updates; cbn; auto with ledger.
  - apply attempts_end; [done|]. by intros k a [_ Ha]%andb_true_iff.
  - apply leases_evolve_where. intros k r [_ Ha]%andb_true_iff. by apply close_lease_ok.
Qed.

Lemma good_prepared now id l : good l (acknowledge_prepared now id l).
Proof.
  unfold acknowledge_prepared. destruct (leases l !! id) as [r|] eqn:Er; [|apply good_refl].
  destruct (is_some (le_runner r)); [apply good_refl|]. eapply good_leases_insert; [done|by split| |done].
  unfold lease_check, received_check, lease_active; cbn. intros [H1 H2]%andb_true_iff. rewrite H1. cbn [andb].
  destruct (le_completion_received_at r); [|done]. cbn in *. rewrite !andb_true_iff in *. destruct (le_acknowledged_at r); tauto.
Qed.

(** ** New rows *)

Lemma good_grow l l' :
  grows job_same (jobs (core l)) (jobs (core l')) -> grows stage_same (stages (core l)) (stages (core l')) ->
  attempts l' = attempts l -> leases l' = leases l -> queue l' = queue l -> good l l'.
Proof.
  intros Hj Hs Ea El Eq. split.
  - split; rewrite ?Ea, ?El, ?Eq; [done|done|..]; [by eexists| |by eexists|congruence].
    intros k r Hr. exists r. split; [done|apply lease_same_refl].
  - intros [W1 W2 W3 W4 W5 W6 W7]. split; rewrite ?Ea, ?El, ?Eq; try done.
    + intros k a Ha. destruct (W4 k a Ha) as [j Hjj]. destruct (Hj _ _ Hjj) as (j' & ? & _). by exists j'.
    + intros k q Hq. destruct (W6 k q Hq) as [A (j & s & Hjj & Ejs & Hss & Esp)]. split; [by rewrite Ea|].
      destruct (Hj _ _ Hjj) as (j' & Hj' & E1), (Hs _ _ Hss) as (s' & Hs' & E2). unfold job_same, stage_same in *.
      exists j', s'. split_and!; congruence.
Qed.

Lemma grows_refl {V} (R : V -> V -> Prop) (t : gmap N V) : (forall v, R v v) -> grows R t t.
Proof. intros HR. by apply follows_grows, follows_refl. Qed.

Lemma good_insert_pipeline id p l l' : insert_pipeline id p l = Ok l' -> good l l'.
Proof.
  unfold insert_pipeline. intros (? & _ & E)%rbind_Ok_inv. destruct (pipelines _ !! id); [done|]. injection E as <-.
  apply good_pipelines.
Qed.

Lemma good_insert_stage id s l l' : insert_stage id s l = Ok l' -> good l l'.
Proof.
  unfold insert_stage. intros (? & _ & E)%rbind_Ok_inv. destruct (stages _ !! id) eqn:Es; [done|].
  destruct (exists_row _ _); [done|]. injection E as <-. apply good_grow; cbn; try done; [by apply grows_refl|by apply grows_fresh].
Qed.

Lemma good_insert_job id j l l' : insert_job_row id j l = Ok l' -> good l l'.
Proof.
  unfold insert_job_row. intros (? & _ & E)%rbind_Ok_inv. destruct (jobs _ !! id) eqn:Es; [done|].
  injection E as <-. apply good_grow; cbn; try done; [by apply grows_fresh|by apply grows_refl].
Qed.

(** ** The steps of the ledger

    One constructor per statement or transaction; [UPDATE]s of jobs, stages
    and pipelines are covered for any values they write. *)
Inductive step (l : ledger) : ledger -> Prop :=
| step_open_attempt now id job trigger n l' : open_attempt_id now id job trigger l = Ok (n, l') -> step l l'
| step_compat_attempt now id job n l' : active_or_latest_attempt_id now id job l = Ok (n, l') -> step l l'
| step_insert_attempt now id job no trigger l' :
    insert_attempt id (new_attempt now job no Queued trigger) l = Ok l' -> step l l'
| step_update_attempt now attempt status l' : update_attempt now attempt status l = Ok l' -> step l l'
| step_finish_attempt now attempt f : (forall a, attempt_same a (f a)) -> step l (finish_attempt_by_id now attempt f l)
| step_end_attempts p f : (forall a, attempt_same a (f a)) -> (forall k a, p k a = true -> live (at_status a) = true) ->
    step l (with_attempts (update_where p f (attempts l)) l)
| step_enqueue now id job attempt n l' : enqueue_job_attempt_tx now id job attempt l = Ok (n, l') -> step l l'
| step_enqueue_missing now ids n l' : enqueue_missing_ready_jobs now ids l = Ok (n, l') -> step l l'
| step_notify : step l (notify_runner_work l)
| step_close_queue p now terminal : step l (close_job_queue p now terminal l)
| step_cancel_queued p now : step l (with_queue (update_where (fun k q => p k q && bool_decide (qu_state q = QQueued))
    (fun q => set_queue QCanceled (qu_not_before q) (qu_required_tags q) (qu_leased_at q) (qu_lease q) (Some now) q) (queue l)) l)
| step_claim_embedded now id job admitted c l' : claim_embedded_tx now id job admitted l = Ok (c, l') -> step l l'
| step_claim_next now id runner token tags others qid checks o l' :
    claim_next_work_tx now id runner token tags others qid checks l = Ok (o, l') -> step l l'
| step_ack now id runner token generation until : step l (ack_runner_lease now id runner token generation until l).2
| step_renew now id runner token generation until : step l (renew_runner_lease now id runner token generation until l).2
| step_complete now id c : step l (complete_runner_lease_tx now id c l).2
| step_close_leases p now status terminal tail : status <> Active -> step l (close_leases p now status terminal tail l)
| step_signal now scope tail : step l (signal_external now scope tail l)
| step_close_embedded now scope tail : step l (close_embedded now scope tail l)
| step_expire now : step l (expire_leases now l).2
| step_requeue now : step l (requeue_unacknowledged now l).2
| step_terminal_queues now : step l (reconcile_terminal_pipeline_queues now l)
| step_time_out now timeout embedded fits : step l (time_out_queue now timeout embedded fits l).2
| step_unleased now : step l (fail_unleased now l).2
| step_jobs t : follows job_same (jobs (core l)) t -> step l (with_jobs t l)
| step_stages t : follows stage_same (stages (core l)) t -> step l (with_stages t l)
| step_pipelines t : step l (with_pipelines t l)
| step_refresh now stage d : refresh_statuses now (core l) stage = Ok d -> step l (with_core d l)
| step_build_success now late job e code : step l (finish_image_build_success now late job e code l).2
| step_accept now e outcome : step l (accept_completion now e outcome l).2
| step_recover now job e status : is_terminal status = true -> step l (recover_terminal now job e status l).2
| step_stopped now c source id job : step l (acknowledge_stopped now c source id job l).2
| step_interrupt now job attempt : step l (interrupt_attempt now job attempt l).2
| step_prepared now id : step l (acknowledge_prepared now id l)
| step_insert_pipeline id p l' : insert_pipeline id p l = Ok l' -> step l l'
| step_insert_stage id s l' : insert_stage id s l = Ok l' -> step l l'
| step_insert_job id j l' : insert_job_row id j l = Ok l' -> step l l'.

Lemma step_good l l' : step l l' -> good l l'.
Proof.
  destruct 1.
  - by eapply good_open_attempt.
  - by eapply good_compat_attempt.
  - eapply good_insert_attempt; eassumption.
  - by eapply good_update_attempt.
  - by apply good_finish_by_id.
  - by apply good_attempts_where.
  - by eapply good_enqueue.
  - by eapply good_enqueue_missing.
  - exact (good_notify 1 l).
  - apply good_close_queue.
  - apply good_updates; cbn; auto with ledger. apply queue_evolve_where. intros k q [_ Hq]%andb_true_iff.
    apply bool_decide_eq_true in Hq. split_and!; [split; [done|by left]|done|done].
  - by eapply good_claim_embedded.
  - by eapply good_claim_next.
  - apply good_ack.
  - apply good_renew.
  - apply good_complete.
  - by apply good_close_leases.
  - apply good_signal.
  - apply good_close_embedded.
  - apply good_expire.
  - apply good_requeue.
  - apply good_terminal_queues.
  - apply good_time_out.
  - apply good_unleased.
  - by apply good_jobs.
  - by apply good_stages.
  - apply good_pipelines.
  - by eapply good_refresh.
  - apply good_build_success.
  - apply good_accept.
  - by apply good_recover.
  - apply good_stopped.
  - apply good_interrupt.
  - apply good_prepared.
  - by eapply good_insert_pipeline.
  - by eapply good_insert_stage.
  - by eapply good_insert_job.
Qed.

Lemma steps_good l l' : rtc step l l' -> good l l'.
Proof. induction 1 as [l|l l1 l2 Hs _ IH]; [apply good_refl|]. eapply good_trans; [by apply step_good|done]. Qed.
