(* ===== verification/CreationTheorems.v ===== *)
(** * What a trigger creates

    The rows that [trigger_pipeline] of [Creation] adds, in closed form. *)
From S2P Require Import Prelude Pipeline Status Table Ledger LedgerHandlers Creation LedgerSafety.

(** Inserting rows one after another. *)
Definition insert_rows {V} (rows : list (N * V)) (t : gmap N V) : gmap N V := foldl (fun t e => <[e.1 := e.2]> t) t rows.

Lemma insert_rows_snoc {V} (rows : list (N * V)) e t : insert_rows (rows ++ [e]) t = <[e.1 := e.2]> (insert_rows rows t).
Proof. unfold insert_rows. by rewrite foldl_app. Qed.

Lemma lookup_insert_rows_old {V} (rows : list (N * V)) t k : (forall e, e ∈ rows -> e.1 <> k) -> insert_rows rows t !! k = t !! k.
Proof.
  induction rows as [|e rows IH] using rev_ind; intros Hn; [done|]. rewrite insert_rows_snoc.
  rewrite lookup_insert_ne by (apply Hn; set_solver). apply IH. intros x Hx. apply Hn. set_solver.
Qed.

Lemma lookup_insert_rows_Some {V} (rows : list (N * V)) t k v :
  insert_rows rows t !! k = Some v -> (k, v) ∈ rows \/ t !! k = Some v.
Proof.
  induction rows as [|[i w] rows IH] using rev_ind; [by right|]. rewrite insert_rows_snoc. cbn.
  rewrite lookup_insert_Some. intros [[<- <-]|[_ H]]; [left; set_solver|].
  destruct (IH H); [left; set_solver|by right].
Qed.

Lemma lookup_insert_rows_new {V} (rows : list (N * V)) t e :
  (forall x y, x ∈ rows -> y ∈ rows -> x.1 = y.1 -> x = y) -> e ∈ rows -> insert_rows rows t !! e.1 = Some e.2.
Proof.
  induction rows as [|x rows IH] using rev_ind; [by intros _ ?%elem_of_nil|]. intros Hinj He. rewrite insert_rows_snoc.
  destruct (decide (x.1 = e.1)) as [E|Hne].
  - rewrite E, lookup_insert_eq. f_equal. f_equal. apply Hinj; set_solver.
  - rewrite lookup_insert_ne by done. apply IH; [|set_solver]. intros a b Ha Hb. apply Hinj; set_solver.
Qed.

(** A job with the position of its stage and its own. *)
Definition slot : Type := nat * nat * CiJob.

Definition stage_slots (stage : nat * CiStage) : list slot := map (fun kj => (stage.1, kj.1, kj.2)) (enumerate (cs_jobs stage.2)).
Definition job_slots (stages : list CiStage) : list slot := concat (map stage_slots (enumerate stages)).

Section rows.
Context (now : Z) (ids : new_ids).

Definition stage_entry (p : nat) : N * stage_row := (ni_stage ids p, queued_stage (ni_pipeline ids) p).
Definition job_entry (s : slot) : N * job_row := (ni_job ids s.1.1 s.1.2, queued_job (ni_stage ids s.1.1) s.2).
Definition attempt_entry (s : slot) : N * attempt_row :=
  (ni_attempt ids s.1.1 s.1.2, new_attempt now (ni_job ids s.1.1 s.1.2) 1 Queued §"initial").
(** A manual job waits outside the queue. *)
Definition queue_entry (s : slot) : option (N * queue_row) :=
  if cj_manual s.2 then None
  else Some (ni_queue ids s.1.1 s.1.2,
             queued_row now now (ni_job ids s.1.1 s.1.2) (ni_attempt ids s.1.1 s.1.2) (ni_pipeline ids) (ni_stage ids s.1.1)
               (cj_required_tags s.2)).

(** The ledger with a pipeline, some of its stages and some of its jobs. *)
Definition with_pipeline_rows (project : N) (positions : list nat) (slots : list slot) (l : ledger) : ledger :=
  {| core := {| jobs := insert_rows (map job_entry slots) (jobs (core l));
                stages := insert_rows (map stage_entry positions) (stages (core l));
                pipelines := <[ni_pipeline ids := queued_pipeline now project]> (pipelines (core l));
                events := events (core l); wakeups := wakeups (core l) |};
     attempts := insert_rows (map attempt_entry slots) (attempts l);
     leases := leases l;
     queue := insert_rows (omap queue_entry slots) (queue l);
     max_running_jobs := max_running_jobs l |}.

(** The identifiers are new and distinct, and no stage refers to the pipeline
    before it exists. *)
Record fresh_ids (l : ledger) : Prop := {
  fr_pipeline : pipelines (core l) !! ni_pipeline ids = None;
  fr_unreferenced : forall k s, stages (core l) !! k = Some s -> stage_pipeline s <> ni_pipeline ids;
  fr_stage : forall p, stages (core l) !! ni_stage ids p = None;
  fr_job : forall p k, jobs (core l) !! ni_job ids p k = None;
  fr_attempt : forall p k, attempts l !! ni_attempt ids p k = None;
  fr_queue : forall p k, queue l !! ni_queue ids p k = None;
  fr_stage_inj : forall p p', ni_stage ids p = ni_stage ids p' -> p = p';
  fr_job_inj : forall p k p' k', ni_job ids p k = ni_job ids p' k' -> (p, k) = (p', k');
  fr_attempt_inj : forall p k p' k', ni_attempt ids p k = ni_attempt ids p' k' -> (p, k) = (p', k');
  fr_queue_inj : forall p k p' k', ni_queue ids p k = ni_queue ids p' k' -> (p, k) = (p', k') }.

Context (project : N) (l : ledger) (W : wf l) (F : fresh_ids l).

Local Abbreviation state := (fun positions slots => with_pipeline_rows project positions slots l).

Lemma stage_added positions slots p :
  p ∉ positions ->
  insert_stage (ni_stage ids p) (queued_stage (ni_pipeline ids) p) (state positions slots) = Ok (state (positions ++ [p]) slots).
Proof.
  intros Hp. unfold insert_stage. cbn. rewrite lookup_insert_eq. cbn.
  rewrite lookup_insert_rows_old.
  2:{ intros e (q & -> & Hq)%list_elem_of_fmap. cbn. intros E%(fr_stage_inj _ F). subst. done. }
  rewrite (fr_stage _ F). destruct (exists_row _ _) eqn:E.
  - exfalso. apply exists_row_true in E as (k & s & Hs & Hc). apply andb_true_iff in Hc as [H1%N.eqb_eq H2%Z.eqb_eq].
    apply lookup_insert_rows_Some in Hs as [(q & [= -> ->] & Hq)%list_elem_of_fmap|Hs].
    + cbn in H2. apply Nat2Z.inj in H2. subst. done.
    + by apply (fr_unreferenced _ F k s Hs).
  - unfold with_pipeline_rows, with_stages, with_core; cbn. rewrite map_app. change (map stage_entry [p]) with [stage_entry p].
    by rewrite insert_rows_snoc.
Qed.

(** Slots are told apart by their positions. *)
Definition positions_of (s : slot) : nat * nat := s.1.

Lemma state_wf_rows positions slots :
  (forall k q, queue (state positions slots) !! k = Some q ->
     (exists s, s ∈ slots /\ queue_entry s = Some (k, q)) \/ queue l !! k = Some q) /\
  (forall k a, attempts (state positions slots) !! k = Some a ->
     (exists s, s ∈ slots /\ attempt_entry s = (k, a)) \/ attempts l !! k = Some a).
Proof.
  split.
  - intros k q [Hin|]%lookup_insert_rows_Some; [|by right]. left. by apply list_elem_of_omap in Hin.
  - intros k a [Hin|]%lookup_insert_rows_Some; [|by right]. left.
    apply list_elem_of_fmap in Hin as (s & E & Hs). by exists s.
Qed.

Lemma queue_entry_Some s k q : queue_entry s = Some (k, q) ->
  k = ni_queue ids s.1.1 s.1.2 /\ qu_job q = ni_job ids s.1.1 s.1.2 /\ qu_attempt q = ni_attempt ids s.1.1 s.1.2.
Proof. unfold queue_entry. destruct (cj_manual s.2); [done|]. by intros [= <- <-]. Qed.

Section slot.
Context (positions : list nat) (slots : list slot) (s : slot).
Hypothesis (Hp : s.1.1 ∈ positions) (Hs : forall s', s' ∈ slots -> s'.1 <> s.1).

Local Abbreviation job_id := (ni_job ids s.1.1 s.1.2).
Local Abbreviation attempt_id := (ni_attempt ids s.1.1 s.1.2).
Local Abbreviation queue_id := (ni_queue ids s.1.1 s.1.2).

Lemma slot_neq s' : s' ∈ slots -> (s'.1.1, s'.1.2) <> (s.1.1, s.1.2).
Proof. intros Hin E. apply (Hs s' Hin). by rewrite (surjective_pairing s'.1), (surjective_pairing s.1). Qed.

Lemma job_fresh : jobs (core (state positions slots)) !! job_id = None.
Proof.
  cbn. rewrite lookup_insert_rows_old; [apply (fr_job _ F)|].
  intros e (s' & -> & Hin)%list_elem_of_fmap. cbn. intros E%(fr_job_inj _ F). by apply (slot_neq s').
Qed.

Lemma attempt_fresh : attempts (state positions slots) !! attempt_id = None.
Proof.
  cbn. rewrite lookup_insert_rows_old; [apply (fr_attempt _ F)|].
  intros e (s' & -> & Hin)%list_elem_of_fmap. cbn. intros E%(fr_attempt_inj _ F). by apply (slot_neq s').
Qed.

Lemma queue_fresh : queue (state positions slots) !! queue_id = None.
Proof.
  cbn. rewrite lookup_insert_rows_old; [apply (fr_queue _ F)|].
  intros [k q] (s' & Hin & (-> & _ & _)%queue_entry_Some)%list_elem_of_omap. cbn. intros E%(fr_queue_inj _ F). by apply (slot_neq s').
Qed.

Lemma stage_there : stages (core (state positions slots)) !! ni_stage ids s.1.1 = Some (queued_stage (ni_pipeline ids) s.1.1).
Proof.
  cbn. apply (lookup_insert_rows_new (map stage_entry positions) _ (stage_entry s.1.1)).
  - intros x y (p & -> & _)%list_elem_of_fmap (p' & -> & _)%list_elem_of_fmap. cbn. by intros ->%(fr_stage_inj _ F).
  - by apply list_elem_of_fmap_2.
Qed.

(** No attempt is about the new job, and no queue row about it or its attempt. *)
Lemma attempts_elsewhere k a : attempts (state positions slots) !! k = Some a -> at_job a <> job_id.
Proof.
  intros [(s' & Hin & [= _ <-])|Ha]%(proj2 (state_wf_rows positions slots)); cbn.
  - intros E%(fr_job_inj _ F). by apply (slot_neq s').
  - intros E. destruct (wf_attempt_job _ W k a Ha) as [j Hj]. rewrite E, (fr_job _ F) in Hj. done.
Qed.

Lemma queue_elsewhere k q : queue (state positions slots) !! k = Some q -> qu_job q <> job_id /\ qu_attempt q <> attempt_id.
Proof.
  intros [(s' & Hin & (_ & -> & ->)%queue_entry_Some)|Hq]%(proj1 (state_wf_rows positions slots)).
  - split; [intros E%(fr_job_inj _ F)|intros E%(fr_attempt_inj _ F)]; by apply (slot_neq s').
  - destruct (wf_queue_row _ W k q Hq) as [(a & Ha & _) (j & ? & Hj & _)]. split; intros E.
    + by rewrite E, (fr_job _ F) in Hj.
    + by rewrite E, (fr_attempt _ F) in Ha.
Qed.
Lemma insert_free {V} `{Schema V} k v (t : gmap N V) :
  t !! k = None -> check v = true -> (forall i w, t !! i = Some w -> conflict v w = false) ->
  insert_row k v t = Ok (<[k := v]> t).
Proof. intros. by apply insert_row_Ok. Qed.

Lemma job_created : create_job now ids s.1.1 (s.1.2, s.2) (state positions slots) = (Ok tt, state positions (slots ++ [s])).
Proof.
  set (l1 := with_jobs (<[job_id := (job_entry s).2]> (jobs (core (state positions slots)))) (state positions slots)).
  set (l2 := with_attempts (<[attempt_id := (attempt_entry s).2]> (attempts (state positions slots))) l1).
  assert (H1 : insert_job_row job_id (queued_job (ni_stage ids s.1.1) s.2) (state positions slots) = Ok l1).
  { unfold insert_job_row. cbn [job_stage queued_job]. rewrite stage_there, job_fresh. done. }
  assert (H2 : insert_attempt attempt_id (new_attempt now job_id 1 Queued §"initial") l1 = Ok l2).
  { unfold insert_attempt. assert (E : jobs (core l1) !! at_job (new_attempt now job_id 1 Queued §"initial") = Some (job_entry s).2) by apply lookup_insert_eq.
    rewrite E. cbn [ok_or rbind]. change (attempts l1) with (attempts (state positions slots)).
    rewrite insert_free; [done|exact attempt_fresh|done|]. intros i a Ha. unfold conflict; cbn [attempt_schema]. unfold attempt_conflict.
    cbn [at_job new_attempt]. rewrite (proj2 (N.eqb_neq _ _)); [done|]. intros E'. by apply (attempts_elsewhere i a). }
  unfold create_job, hbind, statement, unit_statement. cbn [fst snd]. rewrite H1. cbn [rbind]. rewrite H2. cbn [rbind].
  unfold enqueue, statement, enqueue_job_attempt_tx.
  assert (E1 : jobs (core l2) !! job_id = Some (queued_job (ni_stage ids s.1.1) s.2)) by apply lookup_insert_eq.
  assert (E2 : attempts l2 !! attempt_id = Some (new_attempt now job_id 1 Queued §"initial")) by apply lookup_insert_eq.
  assert (E3 : stages (core l2) !! ni_stage ids s.1.1 = Some (queued_stage (ni_pipeline ids) s.1.1)) by exact stage_there.
  assert (E4 : pipelines (core l2) !! ni_pipeline ids = Some (queued_pipeline now project)) by apply lookup_insert_eq.
  rewrite E1, E2. cbn [job_stage queued_job]. rewrite E3. cbn [stage_pipeline queued_stage]. rewrite E4.
  cbn [at_job new_attempt job_status at_status job_manual pipeline_status queued_pipeline live queued_job job_required_tags]. rewrite N.eqb_refl. cbn [andb].
  rewrite !bool_decide_true by done. cbn [andb]. rewrite andb_true_r.
  assert (Hdone : forall t, t = insert_rows (omap queue_entry (slots ++ [s])) (queue l) ->
            with_queue t l2 = state positions (slots ++ [s])).
  { intros t ->. unfold with_pipeline_rows, l2, l1, with_queue, with_attempts, with_jobs, with_core. cbn [core attempts leases queue max_running_jobs jobs stages pipelines events wakeups].
    rewrite !map_app. cbn [map]. by rewrite !insert_rows_snoc. }
  rewrite omap_app in Hdone. cbn [omap list_omap] in Hdone. unfold queue_entry at 2 in Hdone. destruct (cj_manual s.2) eqn:Em; cbn [negb].
  - rewrite <- (Hdone (queue l2)) by (by rewrite app_nil_r). unfold ret. by destruct l2.
  - unfold upsert_queue. destruct (select _ (queue l2)) as [|[k q] rest] eqn:Es.
    + rewrite insert_free; [|exact queue_fresh|done|].
      * unfold ret. cbn [rbind]. f_equal. apply Hdone. by rewrite insert_rows_snoc.
      * intros i w Hw. destruct (queue_elsewhere i w Hw) as [Hj Ha]. unfold conflict; cbn [queue_schema]. unfold queue_conflict, queued_row, same_key.
        cbn. rewrite (proj2 (N.eqb_neq attempt_id (qu_attempt w))), (proj2 (N.eqb_neq job_id (qu_job w))) by congruence. done.
    + exfalso. assert (Hin : (k, q) ∈ select (fun _ q => (qu_attempt q =? attempt_id)%N) (queue l2)) by (cbn in Es |- *; rewrite Es; left).
      apply elem_of_select in Hin as [Hq Ha%N.eqb_eq]. by destruct (queue_elsewhere k q Hq).
Qed.
End slot.

Lemma jobs_created p positions (numbered : list (nat * CiJob)) slots :
  p ∈ positions -> NoDup (map fst numbered) ->
  (forall kj s, kj ∈ numbered -> s ∈ slots -> s.1 <> (p, kj.1)) ->
  for_each numbered (create_job now ids p) (state positions slots)
  = (Ok tt, state positions (slots ++ map (fun kj => (p, kj.1, kj.2)) numbered)).
Proof.
  intros Hp. revert slots. induction numbered as [|[k j] numbered IH]; intros slots Hnd Hnew.
  - cbn. by rewrite app_nil_r.
  - cbn [map fst] in Hnd. apply NoDup_cons in Hnd as [Hk Hnd]. cbn [for_each]. unfold hbind.
    assert (E : create_job now ids p (k, j) (state positions slots) = (Ok tt, state positions (slots ++ [(p, k, j)]))).
    { apply (job_created positions slots (p, k, j)); [done|]. intros s Hs. apply (Hnew (k, j)); [left|done]. }
    rewrite E. rewrite IH; [by rewrite <- app_assoc|done|].
    intros kj s Hin [Hs| ->%list_elem_of_singleton]%elem_of_app; [apply Hnew; [by right|done]|].
    cbn. intros [= Ek]. apply Hk. rewrite Ek. by apply list_elem_of_fmap_2.
Qed.

Lemma map_fst_enumerate {A} (xs : list A) : map fst (enumerate xs) = seq 0 (length xs).
Proof.
  unfold enumerate. assert (H : forall n, map fst (imap (fun i x => (n + i, x)) xs) = seq n (length xs)); [|apply (H 0)].
  induction xs as [|x xs IH]; intros n; [done|]. cbn. rewrite Nat.add_0_r. f_equal. rewrite <- (IH (S n)). f_equal.
  apply imap_ext. intros i y _. cbn. by rewrite Nat.add_succ_r.
Qed.

Lemma NoDup_enumerate {A} (xs : list A) : NoDup (map fst (enumerate xs)).
Proof. rewrite map_fst_enumerate. apply NoDup_seq. Qed.

Lemma stage_slots_position stage s : s ∈ stage_slots stage -> s.1.1 = stage.1.
Proof. by intros ([k j] & -> & _)%list_elem_of_fmap. Qed.

Lemma stages_created (numbered : list (nat * CiStage)) positions slots :
  NoDup (map fst numbered) ->
  (forall ps, ps ∈ numbered -> ps.1 ∉ positions /\ forall s, s ∈ slots -> s.1.1 <> ps.1) ->
  for_each numbered (create_stage now ids) (state positions slots)
  = (Ok tt, state (positions ++ map fst numbered) (slots ++ concat (map stage_slots numbered))).
Proof.
  revert positions slots. induction numbered as [|[p stage] numbered IH]; intros positions slots Hnd Hnew.
  - cbn. by rewrite !app_nil_r.
  - cbn [map fst] in Hnd. apply NoDup_cons in Hnd as [Hk Hnd]. cbn [for_each]. unfold hbind at 1.
    destruct (Hnew (p, stage)) as [Hp Hs]; [left|]. unfold create_stage at 1, hbind, statement, unit_statement. cbn [fst snd].
    rewrite (stage_added positions slots p Hp). cbn [rbind].
    rewrite jobs_created; [|set_solver|apply NoDup_enumerate|].
    2:{ intros kj s _ Hin E. apply (Hs s Hin). by rewrite E. }
    rewrite IH; [cbn [map concat fst]; by rewrite <- !app_assoc|done|].
    intros ps Hin. destruct (Hnew ps) as [Hp' Hs']; [by right|]. assert (Hne : ps.1 <> p).
    { intros E. apply Hk. rewrite <- E. by apply list_elem_of_fmap_2. }
    split; [set_solver|]. intros s [Hsl|Hsl]%elem_of_app; [by apply Hs'|].
    apply (stage_slots_position (p, stage)) in Hsl. cbn in Hsl. congruence.
Qed.
End rows.

(** C9. A trigger with a new key never fails on the tables:
    it adds one queued pipeline, its stages in order, every job of the compiled
    configuration with one queued attempt, and a queue row for exactly the jobs
    that are not manual, changes nothing else and wakes the runners.  A known
    key adds nothing, and a refused record leaves the ledger as it was. *)
Theorem trigger_creates now ids project known recorded stages l cap :
  wf l -> fresh_ids ids l -> max_running_jobs l !! project = Some cap ->
  trigger_pipeline now ids known recorded project stages l =
  match known, recorded with
  | Some (pipeline, true), Ok _ => (Ok (pipeline, true), l)
  | Some (_, false), _ => (Err (Conflict §"idempotency key was already used for a different pipeline trigger"), l)
  | _, Err e => (Err (External e), l)
  | None, Ok _ =>
    (Ok (ni_pipeline ids, false),
     notify_runner_work (with_pipeline_rows now ids project (map fst (enumerate stages)) (job_slots stages) l))
  end.
Proof.
  intros W F Hcap. unfold trigger_pipeline. destruct known as [[pipeline []]|]; [by destruct recorded as [[]|]|done|].
  unfold hbind, transaction, statement, unit_statement, insert_pipeline. cbn [project_id queued_pipeline].
  rewrite Hcap. cbn [ok_or rbind]. rewrite (fr_pipeline _ _ F). cbn [rbind]. destruct recorded as [[]|e]; [|done]. cbn [recording].
  unfold ret. change (with_pipelines _ l) with (with_pipeline_rows now ids project [] [] l).
  rewrite (stages_created now ids project l W F (enumerate stages) [] []); [done|apply NoDup_enumerate|].
  intros ps _. split; [by intros ?%elem_of_nil|by intros s ?%elem_of_nil].
Qed.

(** Identifiers that never repeat, for an empty project. *)
Definition numbered_ids : new_ids :=
  {| ni_pipeline := 7; ni_stage := fun p => Npos (encode p); ni_job := fun p k => Npos (encode (p, k));
     ni_attempt := fun p k => Npos (encode (p, k)); ni_queue := fun p k => Npos (encode (p, k)) |}.

Definition empty_project : ledger :=
  {| core := {| jobs := ∅; stages := ∅; pipelines := ∅; events := []; wakeups := 0 |};
     attempts := ∅; leases := ∅; queue := ∅; max_running_jobs := <[9%N := None]> ∅ |}.

Definition sample_job (manual : bool) : CiJob :=
  {| cj_name := §"build"; cj_image := §"alpine:3.20"; cj_command := §"make"; cj_required_tags := []; cj_required_secrets := [];
     cj_artifact_paths := []; cj_timeout_seconds := None; cj_allow_failure := false; cj_manual := manual |}.

Definition sample_stages : list CiStage :=
  [{| cs_name := §"build"; cs_jobs := [sample_job false; sample_job false] |};
   {| cs_name := §"deploy"; cs_jobs := [sample_job true] |}].

Lemma wf_empty_project : wf empty_project.
Proof. split; cbn; try (intros *; rewrite lookup_empty; done); apply valid_table_empty. Qed.

Lemma numbered_ids_fresh : fresh_ids numbered_ids empty_project.
Proof. split; cbn; intros; try done; by simplify_eq. Qed.

Lemma trigger_creates_witness :
  trigger_pipeline 0 numbered_ids None (Ok tt) 9 sample_stages empty_project
  = (Ok (7%N, false),
     notify_runner_work (with_pipeline_rows 0 numbered_ids 9 [0; 1] (job_slots sample_stages) empty_project)).
Proof.
  exact (trigger_creates 0 numbered_ids 9 None (Ok tt) sample_stages empty_project None wf_empty_project numbered_ids_fresh eq_refl).
Defined.
