(* ===== verification/LedgerSteps.v ===== *)
(** * The handlers as steps of the dispatch ledger

    Every handler is a sequence of the steps of [LedgerSafety]: it keeps the
    invariant, alone and interleaved with others. *)
From stdpp Require Import relations.
From S2P Require Import Prelude Status Table Ledger LedgerHandlers Creation LedgerSafety.

(** ** Handlers are sequences of steps *)

Definition steps {A} (m : handler A) : Prop := forall l, rtc step l (m l).2.

Lemma steps_ret {A} (a : A) : steps (ret a).
Proof. intros l. apply rtc_refl. Qed.
Lemma steps_fail {A} e : steps (@fail A e).
Proof. intros l. apply rtc_refl. Qed.
Lemma steps_query {A} (f : ledger -> A) : steps (query f).
Proof. intros l. apply rtc_refl. Qed.
Lemma steps_require {A} (o : option A) e : steps (require o e).
Proof. destruct o; [apply steps_ret|apply steps_fail]. Qed.
Lemma steps_guard b e : steps (guard b e).
Proof. destruct b; [apply steps_ret|apply steps_fail]. Qed.

Lemma steps_bind {A B} (m : handler A) (k : A -> handler B) : steps m -> (forall a, steps (k a)) -> steps (hbind m k).
Proof.
  intros Hm Hk l. unfold hbind. specialize (Hm l). destruct (m l) as [[a|e] l1]; [|done]. cbn in Hm.
  etrans; [exact Hm|apply Hk].
Qed.

Lemma steps_transaction {A} (m : handler A) : steps m -> steps (transaction m).
Proof. intros Hm l. unfold transaction. specialize (Hm l). destruct (m l) as [[a|e] l1]; [done|apply rtc_refl]. Qed.
Lemma steps_logged {A} (m : handler A) : steps m -> steps (logged m).
Proof. intros Hm l. apply Hm. Qed.
Lemma steps_for_each {A} (xs : list A) body : (forall x, steps (body x)) -> steps (for_each xs body).
Proof. intros Hb. induction xs as [|x xs IH]; cbn [for_each]; [apply steps_ret|]. by apply steps_bind. Qed.
Lemma steps_execute f : (forall l, rtc step l (f l)) -> steps (execute f).
Proof. intros Hf l. apply Hf. Qed.
Lemma steps_returning {A} (f : ledger -> A * ledger) : (forall l, rtc step l (f l).2) -> steps (returning f).
Proof. intros Hf l. apply Hf. Qed.
Lemma steps_statement {A} err (f : ledger -> result (A * ledger) db_error) :
  (forall l a l', f l = Ok (a, l') -> rtc step l l') -> steps (statement err f).
Proof. intros Hf l. unfold statement. destruct (f l) as [[a l1]|e] eqn:E; [by eapply Hf|apply rtc_refl]. Qed.

(** Walk through a handler; statements are left. *)
Ltac walk := repeat match goal with
  | |- steps (hbind _ _) => apply steps_bind; [|intros ?]
  | |- steps (transaction _) => apply steps_transaction
  | |- steps (logged _) => apply steps_logged
  | |- steps (for_each _ _) => apply steps_for_each; intros ?
  | |- steps (ret _) => apply steps_ret
  | |- steps (fail _) => apply steps_fail
  | |- steps (query _) => apply steps_query
  | |- steps (require _ _) => apply steps_require
  | |- steps (guard _ _) => apply steps_guard
  end.
Ltac one := intros ?; apply rtc_once.

Lemma steps_refresh now stage : steps (refresh now stage).
Proof.
  apply steps_statement. intros l a l'. destruct (refresh_statuses now (core l) stage) eqn:E; [|done].
  intros [= _ <-]. apply rtc_once. by eapply step_refresh.
Qed.

Lemma steps_refresh_stage now job : steps (refresh_stage now job).
Proof. unfold refresh_stage. walk. case_match; [apply steps_refresh|apply steps_ret]. Qed.

Lemma steps_refreshing now stmt : (forall l, step l (stmt l).2) -> steps (refreshing now stmt).
Proof. intros Hs. unfold refreshing. walk; [|apply steps_refresh]. apply steps_returning. one. apply Hs. Qed.

Lemma steps_enqueue now id job attempt : steps (enqueue now id job attempt).
Proof. apply steps_statement. intros l n l' E. apply rtc_once. by eapply step_enqueue. Qed.

Lemma steps_close_queue p now terminal : steps (execute (close_job_queue p now terminal)).
Proof. apply steps_execute. one. apply step_close_queue. Qed.

Lemma steps_jobs_where p f l : (forall j, job_same j (f j)) -> rtc step l (with_jobs (update_where p f (jobs (core l))) l).
Proof. intros Hf. apply rtc_once, step_jobs. by apply jobs_where. Qed.

Lemma steps_complete_for_job now job terminal tail l : rtc step l (complete_active_lease_for_job now job terminal tail l).
Proof.
  eapply rtc_l; [|apply rtc_once, step_close_queue].
  exact (step_close_leases l (fun _ r => (le_job r =? job)%N) now _ terminal _ (lease_status_closed terminal)).
Qed.

Lemma steps_complete_embedded now lease terminal tail : steps (complete_embedded now lease terminal tail).
Proof.
  unfold complete_embedded. walk. apply steps_returning. intros l. unfold complete_lease_by_id.
  destruct (leases l !! lease) as [r|]; [|apply rtc_refl]. destruct (lease_active r); [|apply rtc_refl].
  eapply rtc_l; [|apply rtc_once, step_close_queue].
  exact (step_close_leases l (fun k _ => (k =? lease)%N) now _ terminal _ (lease_status_closed terminal)).
Qed.

Lemma steps_transition_open now id job status trigger : steps (transition_open_attempt now id job status trigger).
Proof.
  unfold transition_open_attempt. walk.
  - apply steps_statement. intros l n l' E. apply rtc_once. by eapply step_open_attempt.
  - apply steps_statement. unfold unit_statement. intros l [] l' (l1 & E & [= <-])%rbind_Ok_inv. apply rtc_once.
    by eapply step_update_attempt.
  - destruct (is_terminal status); [apply steps_close_queue|apply steps_ret].
Qed.

Lemma steps_apply_status_change now id job status : steps (apply_status_change now id job status).
Proof.
  unfold apply_status_change. walk.
  - apply steps_transition_open.
  - apply steps_statement. unfold update_job. intros l j l' (j0 & Hj%ok_or_Ok & [= <- <-])%rbind_Ok_inv.
    apply rtc_once, step_jobs. by eapply follows_insert.
  - destruct (is_terminal status); [|apply steps_ret]. apply steps_execute. intros l. apply steps_complete_for_job.
  - apply steps_refresh.
Qed.

Lemma steps_change_job_status now id job status : steps (change_job_status now id job status).
Proof. unfold change_job_status. walk; [destruct (transition_to _ _); walk|apply steps_apply_status_change]. Qed.

Lemma steps_cancel_leases now pipeline reason l : rtc step l (cancel_active_leases_for_pipeline now pipeline reason l).
Proof.
  unfold cancel_active_leases_for_pipeline. eapply rtc_l; [apply step_signal|]. eapply rtc_l; [apply step_close_embedded|].
  apply rtc_once, step_close_queue.
Qed.

Lemma steps_cancel_attempts now scope tail l : step l (cancel_attempts_where now scope tail l).
Proof. apply step_end_attempts; [done|]. by intros k a [Ha _]%andb_true_iff. Qed.

Lemma steps_stages_where p f l : (forall s, stage_same s (f s)) -> step l (with_stages (update_where p f (stages (core l))) l).
Proof. intros Hf. apply step_stages, follows_update_where; [done|]. intros. apply Hf. Qed.

Lemma steps_cancel_pipeline now pipeline : steps (cancel_pipeline now pipeline).
Proof.
  unfold cancel_pipeline. walk; apply steps_execute.
  - one. apply step_pipelines.
  - intros l. by apply steps_jobs_where.
  - one. apply steps_cancel_attempts.
  - intros l. apply steps_cancel_leases.
  - one. by apply steps_stages_where.
Qed.

Lemma steps_close_retry now pending pipeline job reason : steps (close_retry_leases now pending pipeline job reason).
Proof.
  unfold close_retry_leases. walk.
  - destruct (pending _ _) as [[]|]; walk.
  - apply steps_execute. one. by eapply (step_close_leases _ (fun _ r => _ && _)).
  - apply steps_execute. one. exact (step_close_queue l (fun q => retry_scope pipeline job l (qu_job q) && job_in retryable l (qu_job q)) now Canceled).
Qed.

Lemma steps_insert_next now attempt job trigger : steps (insert_next_attempt now attempt job trigger).
Proof.
  apply steps_statement. unfold unit_statement. intros l [] l' (l1 & E & [= <-])%rbind_Ok_inv. apply rtc_once.
  by eapply step_insert_attempt.
Qed.

Lemma steps_notify : steps (execute notify_runner_work).
Proof. apply steps_execute. one. apply step_notify. Qed.

Lemma steps_requeue_job job : steps (statement Internal (requeue_job job)).
Proof.
  apply steps_statement. unfold requeue_job. intros l j l' (j0 & Hj%ok_or_Ok & [= <- <-])%rbind_Ok_inv.
  apply rtc_once, step_jobs. by eapply follows_insert.
Qed.

Lemma steps_retry_job now reserved pending authority attempt queue_id job :
  steps (retry_job now reserved pending authority attempt queue_id job).
Proof.
  unfold retry_job. walk.
  - destruct authority; walk.
  - apply steps_close_retry.
  - apply steps_insert_next.
  - apply steps_requeue_job.
  - apply steps_execute. one. by apply steps_stages_where.
  - apply steps_execute. one. apply step_pipelines.
  - apply steps_enqueue.
  - apply steps_notify.
Qed.

Lemma steps_retry_pipeline now reserved pending authority admission attempt_ids queue_ids pipeline :
  steps (retry_pipeline now reserved pending authority admission attempt_ids queue_ids pipeline).
Proof.
  unfold retry_pipeline. walk.
  - destruct authority; walk.
  - destruct admission; [|apply steps_ret]. apply steps_execute. intros l. eapply rtc_l; [|apply rtc_once].
    + exact (step_cancel_queued l (fun _ q => in_pipeline l pipeline (qu_job q)
               && job_in (fun s => bool_decide (s = Queued)) l (qu_job q)) now).
    + refine (step_end_attempts (with_queue _ l) _ _ _ _); [done|]. intros k at_row [_ Ha]%andb_true_iff.
      apply bool_decide_eq_true in Ha. by rewrite Ha.
  - apply steps_close_retry.
  - apply steps_insert_next.
  - apply steps_execute. intros l. by apply steps_jobs_where.
  - apply steps_execute. one. by apply steps_stages_where.
  - apply steps_execute. one. apply step_pipelines.
  - apply steps_enqueue.
  - apply steps_notify.
Qed.

Lemma steps_start_manual now queue_id job : steps (start_manual_job now queue_id job).
Proof.
  unfold start_manual_job. walk.
  - apply steps_returning. intros l. by apply steps_jobs_where.
  - apply steps_statement. unfold enqueue_current_job_attempt, enqueue_job_attempt. intros l n l'.
    destruct (select_max _ _ _) as [[attempt row]|]; [|intros [= _ <-]; apply rtc_refl].
    intros ([m l1] & E & [= _ <-])%rbind_Ok_inv. eapply rtc_l; [by eapply step_enqueue|]. unfold notify_if. cbn [fst snd].
    destruct (0 <? m); [apply rtc_once, step_notify|apply rtc_refl].
Qed.

Lemma steps_finish_by_id now attempt f : (forall a, attempt_same a (f a)) -> steps (execute (finish_attempt_by_id now attempt f)).
Proof. intros Hf. apply steps_execute. one. by apply step_finish_attempt. Qed.

Lemma steps_start_admitted now authority recorded attempt queue_id job :
  steps (start_manual_job_admitted now authority recorded attempt queue_id job).
Proof.
  unfold start_manual_job_admitted. walk.
  - case_match; walk.
  - apply steps_execute. one. exact (step_cancel_queued l (fun _ q => (qu_job q =? job)%N) now).
  - apply steps_execute. one. apply step_end_attempts; [done|]. intros k x [_ Ha]%andb_true_iff.
    apply bool_decide_eq_true in Ha. by rewrite Ha.
  - apply steps_insert_next.
  - case_match; walk.
  - apply steps_execute. intros l. by apply steps_jobs_where.
  - apply steps_enqueue.
  - apply steps_notify.
Qed.

Lemma steps_end_running now job attempt final : steps (returning (end_running_job now job attempt final)).
Proof. apply steps_returning. intros l. by apply steps_jobs_where. Qed.

Lemma steps_finish_timed_out now job attempt lease message : steps (finish_timed_out now job attempt lease message).
Proof.
  unfold finish_timed_out. walk; [apply steps_end_running|].
  case_match; walk; auto using steps_complete_embedded, steps_refresh_stage; by apply steps_finish_by_id.
Qed.

Lemma steps_finish_execution now job attempt lease final code tail :
  steps (finish_execution now job attempt lease final code tail).
Proof.
  unfold finish_execution. walk.
  - apply steps_end_running.
  - case_match; walk; auto using steps_complete_embedded, steps_refresh_stage; by apply steps_finish_by_id.
Qed.

Lemma steps_runner_error now id job message : steps (finish_job_after_runner_error now id job message).
Proof.
  unfold finish_job_after_runner_error. walk.
  assert (Hmain : forall tail, steps (
    do! _ := execute (fun l => with_jobs (update_where (fun k j => (k =? job)%N && live (job_status j))
                                 (fun j => set_job Failed (job_started_at j) (Some now) j) (jobs (core l))) l) in
    do! _ := logged (do! attempt := statement Internal (active_or_latest_attempt_id now id job) in
                     mark_attempt_failed now attempt tail) in
    do! _ := execute (complete_active_lease_for_job now job Failed (Some tail)) in
    logged (refresh_stage now job))).
  { intros tail. walk.
    - apply steps_execute. intros l. by apply steps_jobs_where.
    - apply steps_statement. intros l n l' E. apply rtc_once. by eapply step_compat_attempt.
    - by apply steps_finish_by_id.
    - apply steps_execute. intros l. apply steps_complete_for_job.
    - apply steps_refresh_stage. }
  repeat case_match; first [apply Hmain | apply steps_ret].
Qed.

Lemma steps_enqueue_missing now ids : steps (statement Internal (enqueue_missing_ready_jobs now ids)).
Proof. apply steps_statement. intros l n l' E. apply rtc_once. by eapply step_enqueue_missing. Qed.

Lemma steps_claim_embedded now ids lease_id job admitted : steps (claim_embedded_job_lease now ids lease_id job admitted).
Proof.
  unfold claim_embedded_job_lease. walk; [apply steps_enqueue_missing|].
  apply steps_statement. intros l c l' E. apply rtc_once. by eapply step_claim_embedded.
Qed.

Lemma steps_claim_loop now runner tags others tries : steps (claim_loop now runner tags others tries).
Proof.
  induction tries as [|t rest IH]; cbn [claim_loop]; [apply steps_ret|]. walk.
  - apply steps_statement. intros l o l' E. apply rtc_once. by eapply step_claim_next.
  - repeat case_match; walk; try apply steps_refresh; apply IH.
Qed.

Lemma steps_claim_next now ids runner tags others tries : steps (claim_next_work now ids runner tags others tries).
Proof. unfold claim_next_work. walk; [apply steps_enqueue_missing|apply steps_claim_loop]. Qed.

Lemma steps_lift {A} (r : result A api_error) : steps (lift r).
Proof. destruct r; [apply steps_ret|apply steps_fail]. Qed.

Lemma steps_refused {A} now id runner : steps (refused_lease (A := A) now id runner).
Proof. unfold refused_lease. walk. Qed.

Lemma steps_mutate hash auth policy confirm valid statement now id input :
  (forall runner token generation until l, step l (statement runner token generation until l).2) ->
  steps (mutate_lease hash auth policy confirm valid statement now id input).
Proof.
  intros Hs. unfold mutate_lease. walk; try apply steps_lift; [apply steps_returning; one; apply Hs|].
  case_match; [apply steps_ret|apply steps_refused].
Qed.

Lemma steps_verdict deployment observed ordinary c command : steps (deployment_verdict deployment observed ordinary c command).
Proof. unfold deployment_verdict. destruct (bool_decide _); [apply steps_lift|apply steps_guard]. Qed.

Lemma steps_terminated now id outcome custody deployment observed c :
  steps (complete_terminated now id outcome custody deployment observed c).
Proof.
  unfold complete_terminated. walk; [apply steps_lift| |].
  - apply steps_returning. one. apply step_stopped.
  - case_match; [apply steps_verdict|apply steps_ret].
Qed.

Lemma steps_complete_runner hash auth now id deployment termination input :
  steps (complete_runner_lease hash auth now id deployment termination input).
Proof.
  unfold complete_runner_lease. walk; try apply steps_lift.
  - apply steps_returning. one. apply step_complete.
  - case_match; [apply steps_verdict|apply steps_ret].
  - repeat case_match; walk; [apply steps_refresh|apply steps_terminated|apply steps_refused].
Qed.

Lemma steps_cancel_canceled now l : rtc step l (cancel_active_leases_for_canceled_pipelines now l).
Proof.
  unfold cancel_active_leases_for_canceled_pipelines. eapply rtc_l; [apply step_signal|].
  eapply rtc_l; [apply step_close_embedded|]. apply rtc_once, step_close_queue.
Qed.

Lemma steps_cancel_jobs now l : rtc step l (cancel_jobs_for_canceled_pipelines now l).
Proof.
  unfold cancel_jobs_for_canceled_pipelines.
  set (l1 := cancel_jobs_where _ _ l). set (l2 := cancel_attempts_where _ _ _ l1). set (l3 := cancel_stages_where _ l2).
  assert (H1 : rtc step l l1) by (apply steps_jobs_where; reflexivity).
  assert (H2 : step l1 l2) by apply steps_cancel_attempts.
  assert (H3 : step l2 l3) by (apply steps_stages_where; reflexivity).
  etrans; [exact H1|]. eapply rtc_l; [exact H2|]. eapply rtc_l; [exact H3|]. apply rtc_once, step_close_queue.
Qed.

Lemma steps_reconcile now timeout embedded fits : steps (reconcile_runtime_state now timeout embedded fits).
Proof.
  unfold reconcile_runtime_state. walk.
  - apply steps_refreshing. intros l. apply step_requeue.
  - apply steps_refreshing. intros l. apply step_expire.
  - apply steps_execute. one. apply step_terminal_queues.
  - unfold reconcile_queue_timeouts. destruct timeout; [|apply steps_ret]. apply steps_refreshing. intros l. apply step_time_out.
  - apply steps_refreshing. intros l. apply step_unleased.
  - apply steps_execute. apply steps_cancel_canceled.
  - apply steps_execute. apply steps_cancel_jobs.
Qed.

(** ** The executors and the triggers *)

Lemma steps_retention now e journaled : steps (finish_workspace_retention now e journaled).
Proof.
  unfold finish_workspace_retention. walk. repeat case_match; walk. apply steps_returning. one. apply step_accept.
Qed.

Lemma steps_interrupted now job attempt : steps (reconcile_interrupted now job attempt).
Proof.
  unfold reconcile_interrupted. walk; [apply steps_returning; one; apply step_interrupt|].
  case_match; [apply steps_refresh|apply steps_ret].
Qed.

Lemma steps_kubernetes now job e status code delegated : steps (finish_kubernetes now job e status code delegated).
Proof.
  unfold finish_kubernetes. walk.
  - assert (Hwrite : steps (
      do! updated := returning (end_running_job now job (el_attempt e) status) in
      if updated then
        do! _ := execute (fun l => with_attempts (update_where
                   (fun k a => (k =? el_attempt e)%N && bool_decide (at_status a = Running))
                   (fun a => set_attempt status (at_trigger a) (at_started_at a) (Some now) (Some code) (at_error_tail a) a)
                   (attempts l)) l) in
        do! _ := complete_embedded now (el_id e) status None in ret true
      else ret false)).
    { walk; [apply steps_end_running|]. case_match; walk; [|apply steps_complete_embedded].
      apply steps_execute. one. apply step_end_attempts; [done|]. intros k x [_ Ha]%andb_true_iff.
      apply bool_decide_eq_true in Ha. by rewrite Ha. }
    destruct status; try exact Hwrite. destruct delegated as [[[] late]|]; [walk| |exact Hwrite].
    apply steps_returning. one. apply step_build_success.
  - case_match; walk. case_match; walk. apply steps_refresh_stage.
Qed.

Lemma steps_reconcile_terminal now job e stopped : steps (reconcile_terminal now job e stopped).
Proof.
  unfold reconcile_terminal. walk. intros l. revert l.
  match goal with |- forall l, rtc step l (?m l).2 => change (steps m) end.
  assert (Hmain : forall status attempt_status, steps (
    do! ack := query (terminal_acknowledged job e) in
    if stopped && bool_decide (status = attempt_status) && (retryable status || (bool_decide (status = Success) && ack)) then
      do! recovered := (if ack then ret true else returning (recover_terminal now job e status)) in
      if recovered then do! _ := refresh_stage now job in ret true else ret false
    else ret false)).
  { intros status attempt_status. walk. case_match; walk.
    - case_match; walk. apply steps_returning. one. apply step_recover. subst. by destruct status, stopped, (bool_decide _).
    - case_match; walk. apply steps_refresh_stage. }
  repeat case_match; first [apply Hmain|apply steps_ret].
Qed.

Lemma steps_unit_statement f : (forall l l', f l = Ok l' -> step l l') -> steps (statement Internal (unit_statement f)).
Proof.
  intros Hf. apply steps_statement. unfold unit_statement. intros l [] l' (l1 & E & [= <-])%rbind_Ok_inv.
  apply rtc_once. eauto.
Qed.

Lemma steps_create_job now ids p job : steps (create_job now ids p job).
Proof.
  unfold create_job. walk; [| |apply steps_enqueue]; apply steps_unit_statement; intros.
  - by eapply step_insert_job.
  - by eapply step_insert_attempt.
Qed.

Lemma steps_recording recorded : steps (recording recorded).
Proof. destruct recorded; [apply steps_ret|apply steps_fail]. Qed.

Lemma steps_trigger now ids known recorded project stages : steps (trigger_pipeline now ids known recorded project stages).
Proof.
  unfold trigger_pipeline. destruct known as [[pipeline same]|]; walk; try apply steps_recording.
  - apply steps_unit_statement. intros. by eapply step_insert_pipeline.
  - unfold create_stage. walk; [|apply steps_create_job]. apply steps_unit_statement. intros. by eapply step_insert_stage.
  - apply steps_notify.
Qed.
