(* ===== verification/LedgerTheorems.v ===== *)
(** * Theorems about the dispatch ledger

    What holds however the handlers interleave, and what the claims and the
    cancellation of a pipeline do. *)
From stdpp Require Import relations.
From S2P Require Import Prelude Status Table Ledger LedgerHandlers Creation LedgerSafety LedgerSteps.

(** A complete run of a handler, with its response or error. *)
Inductive handled (l : ledger) : ledger -> Prop :=
| run_change_job_status now id job status : handled l (change_job_status now id job status l).2
| run_cancel_pipeline now pipeline : handled l (cancel_pipeline now pipeline l).2
| run_retry_job now reserved pending authority attempt queue_id job :
    handled l (retry_job now reserved pending authority attempt queue_id job l).2
| run_retry_pipeline now reserved pending authority admission attempt_ids queue_ids pipeline :
    handled l (retry_pipeline now reserved pending authority admission attempt_ids queue_ids pipeline l).2
| run_start_manual_job now queue_id job : handled l (start_manual_job now queue_id job l).2
| run_claim_embedded now ids lease_id job admitted : handled l (claim_embedded_job_lease now ids lease_id job admitted l).2
| run_claim_next_work now ids runner tags others tries : handled l (claim_next_work now ids runner tags others tries l).2
| run_finish_execution now job attempt lease final code tail :
    handled l (finish_execution now job attempt lease final code tail l).2
| run_runner_error now id job message : handled l (finish_job_after_runner_error now id job message l).2
| run_ack hash auth policy confirm valid now id input : handled l (ack_handler hash auth policy confirm valid now id input l).2
| run_renew hash auth policy confirm valid now id input : handled l (renew_handler hash auth policy confirm valid now id input l).2
| run_complete hash auth now id deployment termination input :
    handled l (complete_runner_lease hash auth now id deployment termination input l).2
| run_reconcile now timeout embedded fits : handled l (reconcile_runtime_state now timeout embedded fits l).2
| run_start_admitted now authority recorded attempt queue_id job :
    handled l (start_manual_job_admitted now authority recorded attempt queue_id job l).2
| run_timed_out now job attempt lease message : handled l (finish_timed_out now job attempt lease message l).2
| run_retention now e journaled : handled l (finish_workspace_retention now e journaled l).2
| run_interrupted now job attempt : handled l (reconcile_interrupted now job attempt l).2
| run_kubernetes now job e status code delegated : handled l (finish_kubernetes now job e status code delegated l).2
| run_recovery now job e stopped : handled l (reconcile_terminal now job e stopped l).2
| run_prepared now lease : handled l (acknowledge_prepared now lease l)
| run_trigger now ids known recorded project stages :
    handled l (trigger_pipeline now ids known recorded project stages l).2.

Lemma handled_steps l l' : handled l l' -> rtc step l l'.
Proof.
  destruct 1.
  - apply steps_change_job_status.
  - apply steps_cancel_pipeline.
  - apply steps_retry_job.
  - apply steps_retry_pipeline.
  - apply steps_start_manual.
  - apply steps_claim_embedded.
  - apply steps_claim_next.
  - apply steps_finish_execution.
  - apply steps_runner_error.
  - apply steps_mutate. intros. apply step_ack.
  - apply steps_mutate. intros. apply step_renew.
  - apply steps_complete_runner.
  - apply steps_reconcile.
  - apply steps_start_admitted.
  - apply steps_finish_timed_out.
  - apply steps_retention.
  - apply steps_interrupted.
  - apply steps_kubernetes.
  - apply steps_reconcile_terminal.
  - apply rtc_once, step_prepared.
  - apply steps_trigger.
Qed.

(** An event: a handler runs, or a statement of a handler that others
    interleave with. *)
Definition ledger_event (l l' : ledger) : Prop := step l l' \/ handled l l'.

Lemma events_good l l' : rtc ledger_event l l' -> good l l'.
Proof.
  induction 1 as [l|l l1 l2 Hs _ IH]; [apply good_refl|]. eapply good_trans; [|exact IH].
  destruct Hs as [Hs|Hh]; [by apply step_good|]. by apply steps_good, handled_steps.
Qed.

(** No job runs twice: at most one active lease, live attempt and open queue
    row per job. *)
Record exclusive (l : ledger) : Prop := {
  ex_lease : forall i j r s, leases l !! i = Some r -> leases l !! j = Some s -> le_job r = le_job s ->
    lease_active r = true -> lease_active s = true -> i = j;
  ex_attempt : forall i j a b, attempts l !! i = Some a -> attempts l !! j = Some b -> at_job a = at_job b ->
    live (at_status a) = true -> live (at_status b) = true -> i = j;
  ex_queue : forall i j q r, queue l !! i = Some q -> queue l !! j = Some r -> qu_job q = qu_job r ->
    queue_open q = true -> queue_open r = true -> i = j }.

Lemma wf_exclusive l : wf l -> exclusive l.
Proof.
  intros [W1 W2 W3 _ _ _ _]. split.
  - intros i j r s Hi Hj E A B. destruct (decide (i = j)) as [|Hne]; [done|]. exfalso.
    pose proof (vt_unique _ W2 i j r s Hne Hi Hj) as H. unfold conflict in H; cbn in H. unfold lease_conflict in H.
    rewrite E, N.eqb_refl, A, B, orb_true_r in H. discriminate H.
  - intros i j a b Hi Hj E A B. destruct (decide (i = j)) as [|Hne]; [done|]. exfalso.
    pose proof (vt_unique _ W1 i j a b Hne Hi Hj) as H. unfold conflict in H; cbn in H. unfold attempt_conflict in H.
    rewrite E, N.eqb_refl, A, B, orb_true_r in H. discriminate H.
  - intros i j q r Hi Hj E A B. destruct (decide (i = j)) as [|Hne]; [done|]. exfalso.
    pose proof (vt_unique _ W3 i j q r Hne Hi Hj) as H. unfold conflict in H; cbn in H. unfold queue_conflict in H.
    rewrite E, N.eqb_refl, A, B in H. by rewrite orb_true_r in H.
Qed.

(** C3. However the handlers run and interleave, statement
    by statement, the ledger stays well formed: the constraints of the
    migrations hold without ever being violated by an unchecked update, every
    queue row and lease belongs to an attempt of its job, and no job has two
    active leases, two live attempts or two open queue rows. *)
Theorem ledger_invariant l l' : wf l -> rtc ledger_event l l' -> wf l' /\ exclusive l'.
Proof. intros W H%events_good. destruct H as [_ H]. split; [auto|]. by apply wf_exclusive, H. Qed.

(** C4. Leases are fenced, under every interleaving: a lease
    keeps its identity, and once closed it stays closed, with the time it was
    closed at and, for an external runner, the outcome;
    a lease granted later for the same job has a higher generation, and while
    it is active every earlier lease of the job is closed; and with a closed
    lease nothing can be acknowledged, renewed or completed. *)
Theorem lease_fencing l l' id r :
  wf l -> rtc ledger_event l l' -> leases l !! id = Some r ->
  exists r', leases l' !! id = Some r' /\ lease_same r r' /\
    (forall id2 r2, leases l' !! id2 = Some r2 -> leases l !! id2 = None -> le_job r2 = le_job r ->
       (le_generation r < le_generation r2)%Z /\ (lease_active r2 = true -> lease_active r' = false)) /\
    (lease_active r' = false -> forall now runner token generation until c,
       ack_runner_lease now id runner token generation until l' = (None, l') /\
       renew_runner_lease now id runner token generation until l' = (None, l') /\
       complete_runner_lease_tx now id c l' = (None, l') /\
       complete_lease_by_id now id (cp_terminal c) (cp_diagnostic c) l' = (0, l')).
Proof.
  intros W H%events_good Hr. destruct H as [E Hw]. destruct (ev_leases _ _ E id r Hr) as (r' & Hr' & Hsame).
  exists r'. split_and!; [done|done| |].
  - intros id2 r2 H2 Hn Hj. split; [by apply (ev_new_lease _ _ E id2 r2 H2 Hn id r Hr)|].
    intros Ha. destruct (lease_active r') eqn:Ea; [|done]. exfalso.
    assert (id2 = id) as ->; [|congruence].
    apply (ex_lease _ (wf_exclusive _ (Hw W)) id2 id r2 r' H2 Hr'); [|done|done]. by rewrite (ls_job _ _ Hsame).
  - intros Hc now runner token generation until c.
    assert (Hh : forall rn tk g, held now rn tk g r' = false).
    { intros. apply not_true_iff_false. intros Hh%held_active. congruence. }
    unfold ack_runner_lease, renew_runner_lease, complete_runner_lease_tx, complete_lease_by_id, ackable, completable.
    rewrite Hr', !Hh, Hc. done.
Qed.

(** ** Claims *)

(** What a grant changes. *)
Record granted (l l' : ledger) (job lease attempt : N) (row : lease_row) : Prop := {
  gr_lease : leases l !! lease = None /\ leases l' = <[lease := row]> (leases l);
  gr_row : le_job row = job /\ le_attempt row = attempt /\ lease_active row = true;
  gr_job : exists j, jobs (core l) !! job = Some j /\ job_status j = Queued /\ job_manual j = false /\
             job_status <$> (jobs (core l') !! job) = Some Running;
  gr_attempt : exists a, attempts l !! attempt = Some a /\ at_status a = Queued /\
             at_status <$> (attempts l' !! attempt) = Some Running;
  gr_pipeline : exists p, pipeline_of_job l job = Some p /\
             (pipeline_status_of l p = Some Queued \/ pipeline_status_of l p = Some Running);
  gr_idle : forall id r, leases l !! id = Some r -> le_job r = job -> lease_active r = false;
  gr_queue : exists qid q, queue l !! qid = Some q /\ qu_job q = job /\ qu_attempt q = attempt /\ qu_state q = QQueued /\
             exists q', queue l' !! qid = Some q' /\ qu_state q' = QLeased /\ qu_lease q' = Some lease;
  gr_frame : (forall k, k <> job -> jobs (core l') !! k = jobs (core l) !! k) /\
             stages (core l') = stages (core l) /\ pipelines (core l') = pipelines (core l) }.

Lemma grant_granted now lease_id qid q trigger js lease l l' x :
  grant now lease_id qid q trigger js lease l = Ok l' ->
  queue l !! qid = Some q -> join_queue l q = Some x ->
  dispatchable now l q (qj_job x) (qj_attempt x) (qj_pipeline x) = true ->
  le_job lease = qu_job q -> le_attempt lease = qu_attempt q -> lease_active lease = true ->
  granted l l' (qu_job q) lease_id (qu_attempt q) lease.
Proof.
  intros Hg Hq Hx Hd R1 R2 R3. unfold grant in Hg.
  apply rbind_Ok_inv in Hg as (lt & Hl & Hg). apply rbind_Ok_inv in Hg as (qt & Hqt & [= <-]).
  apply insert_row_Ok in Hl as (Hn & -> & _ & _). apply put_Ok in Hqt as (-> & _ & _).
  unfold join_queue in Hx. apply bind_Some in Hx as (j & Hj & Hx). apply bind_Some in Hx as (a & Ha & Hx).
  apply bind_Some in Hx as (s & Hs & Hx). apply bind_Some in Hx as (p & Hp & Hx). apply bind_Some in Hx as (cap & Hcap & Hx).
  injection Hx as <-. cbn [qj_job qj_attempt qj_pipeline] in Hd. unfold dispatchable in Hd. rewrite !andb_true_iff in Hd.
  destruct Hd as ((((((D1 & D2) & D3) & D4) & D5) & D6) & D7). apply bool_decide_eq_true in D1, D3, D4.
  apply negb_true_iff in D5, D7. split; cbn.
  - done.
  - done.
  - exists j. rewrite lookup_update_where, Hj. cbn. rewrite N.eqb_refl, D3. cbn. done.
  - exists a. rewrite lookup_update_where, Ha. cbn. rewrite N.eqb_refl, D4. cbn. done.
  - exists (stage_pipeline s). unfold pipeline_of_job, pipeline_status_of. rewrite Hj. cbn. rewrite Hs. cbn. rewrite Hp. cbn.
    split; [done|]. destruct (pipeline_status p); try discriminate D6; auto.
  - intros id r Hr Hjr. unfold has_active_lease in D7. rewrite exists_row_false in D7. specialize (D7 id r Hr).
    rewrite Hjr, N.eqb_refl in D7. exact D7.
  - exists qid, q. split_and!; try done. rewrite lookup_insert_eq. by eexists.
  - split; [|done]. intros k Hk. rewrite lookup_update_where. destruct (jobs (core l) !! k) as [jk|]; [|done]. cbn.
    by rewrite (proj2 (N.eqb_neq k (qu_job q)) Hk).
Qed.

(** The places of jobs do not change with a grant. *)
Lemma granted_project l l' job lease attempt row : granted l l' job lease attempt row -> evolves l l' ->
  forall k, project_of_job l' k = project_of_job l k.
Proof.
  intros G E k. destruct (gr_frame _ _ _ _ _ _ G) as (_ & Es & Ep). unfold project_of_job, pipeline_of_job. rewrite Es, Ep.
  destruct (gr_frame _ _ _ _ _ _ G) as (Ej & _). destruct (decide (k = job)) as [->|Hk]; [|by rewrite Ej].
  destruct (gr_job _ _ _ _ _ _ G) as (j & Hj & _). destruct (ev_jobs _ _ E job j Hj) as (j' & Hj' & Hs).
  rewrite Hj, Hj'. cbn. unfold job_same in Hs. by rewrite Hs.
Qed.

Lemma length_select_insert {V} (p : N -> V -> bool) (t : gmap N V) k v :
  t !! k = None -> length (select p (<[k := v]> t)) = (length (select p t) + (if p k v then 1 else 0))%nat.
Proof.
  intros Hn. unfold select. assert (Hperm : map_to_list (<[k := v]> t) ≡ₚ (k, v) :: map_to_list t) by (by apply map_to_list_insert).
  assert (Hf : forall (l1 l2 : list (N * V)), l1 ≡ₚ l2 -> length (List.filter (fun kv => p kv.1 kv.2) l1) = length (List.filter (fun kv => p kv.1 kv.2) l2)).
  { induction 1; cbn; repeat case_match; cbn; congruence. }
  rewrite (Hf _ _ Hperm). cbn. destruct (p k v); cbn; lia.
Qed.

Lemma running_after_grant counts l l' job lease attempt row project :
  granted l l' job lease attempt row -> evolves l l' ->
  (running_leases counts l' project <= running_leases counts l project + 1)%Z.
Proof.
  intros G E. destruct (gr_lease _ _ _ _ _ _ G) as [Hn Hl]. unfold running_leases. rewrite Hl.
  pose proof (granted_project _ _ _ _ _ _ G E) as Hp. unfold zlen.
  assert (Hext : forall t, select (fun _ r => lease_active r && counts r && bool_decide (project_of_job l' (le_job r) = Some project)) t
                 = select (fun _ r => lease_active r && counts r && bool_decide (project_of_job l (le_job r) = Some project)) t).
  { intros t. unfold select. apply List.filter_ext. intros [k r]. cbn. by rewrite Hp. }
  rewrite Hext, length_select_insert by done. case_match; lia.
Qed.

(** The generation of the new lease tops all leases of its job. *)
Definition fenced_above (l : ledger) (job : N) (generation : Z) : Prop :=
  forall id r, leases l !! id = Some r -> le_job r = job -> (le_generation r < generation)%Z.


(** ** Cancellation *)

(** Jobs that stay in their stage stay in their pipeline. *)
Lemma in_pipeline_jobs_where l p f pipeline k :
  (forall j, job_same j (f j)) ->
  in_pipeline (with_jobs (update_where p f (jobs (core l))) l) pipeline k = in_pipeline l pipeline k.
Proof.
  intros Hf. unfold in_pipeline, pipeline_of_job. cbn. rewrite lookup_update_where.
  destruct (jobs (core l) !! k) as [j|]; [|done]. cbn. destruct (p k j); [|done]. specialize (Hf j). unfold job_same in Hf.
  by rewrite Hf.
Qed.

(** Everything of the pipeline is over: only leases of external runners are
    still active, and those have been told. *)
Record quiet (l l' : ledger) (pipeline : N) : Prop := {
  qt_pipeline : pipeline_status_of l' pipeline = Some Canceled;
  qt_jobs : forall k j, jobs (core l') !! k = Some j -> in_pipeline l pipeline k = true -> live (job_status j) = false;
  qt_attempts : forall k a, attempts l' !! k = Some a -> in_pipeline l pipeline (at_job a) = true -> live (at_status a) = false;
  qt_stages : forall k s, stages (core l') !! k = Some s -> stage_pipeline s = pipeline -> live (stage_status s) = false;
  qt_queue : forall k q, queue l' !! k = Some q -> qu_pipeline q = pipeline -> queue_open q = false;
  qt_leases : forall k r, leases l' !! k = Some r -> in_pipeline l pipeline (le_job r) = true -> lease_active r = true ->
    lease_external r = true /\ is_Some (le_cancel_requested_at r) }.

(** Finished rows, and rows of other pipelines, are as they were. *)
Record untouched (l l' : ledger) (pipeline : N) : Prop := {
  un_jobs : forall k j, jobs (core l) !! k = Some j -> in_pipeline l pipeline k = false \/ live (job_status j) = false ->
    jobs (core l') !! k = Some j;
  un_attempts : forall k a, attempts l !! k = Some a -> in_pipeline l pipeline (at_job a) = false \/ live (at_status a) = false ->
    attempts l' !! k = Some a;
  un_leases : forall k r, leases l !! k = Some r -> in_pipeline l pipeline (le_job r) = false \/ lease_active r = false ->
    leases l' !! k = Some r;
  un_queue : forall k q, queue l !! k = Some q -> qu_pipeline q <> pipeline \/ queue_open q = false -> queue l' !! k = Some q }.

(** The ledger after the five statements, table by table. *)
Definition cancel_writes (now : Z) (pipeline : N) (l : ledger) : ledger :=
  cancel_stages_where (fun p => (p =? pipeline)%N)
    (cancel_active_leases_for_pipeline now pipeline pipeline_canceled
      ((fun l => cancel_attempts_where now (in_pipeline l pipeline) pipeline_canceled l)
        ((fun l => cancel_jobs_where now (in_pipeline l pipeline) l) (cancel_pipeline_row now pipeline l)))).

Lemma update_where_gone {V} (p : N -> V -> bool) (f : V -> V) t k v' :
  (forall v, p k (f v) = false) -> update_where p f t !! k = Some v' -> p k v' = false.
Proof. intros Hf (v & Hv & ->)%update_where_Some. destruct (p k v) eqn:E; [apply Hf|done]. Qed.

Lemma update_where_keep {V} (p : N -> V -> bool) (f : V -> V) t k v :
  t !! k = Some v -> p k v = false -> update_where p f t !! k = Some v.
Proof. intros Hk Hp. rewrite lookup_update_where, Hk. cbn. by rewrite Hp. Qed.

Lemma cancel_writes_tables now pipeline l :
  let l' := cancel_writes now pipeline l in
  let scope := in_pipeline l pipeline in
  jobs (core l') = update_where (fun k j => live (job_status j) && scope k) (cancel_job now) (jobs (core l)) /\
  attempts l' = update_where (fun _ a => live (at_status a) && scope (at_job a))
                  (finish_attempt now Canceled (Some pipeline_canceled)) (attempts l) /\
  stages (core l') = update_where (fun _ s => live (stage_status s) && (stage_pipeline s =? pipeline)%N)
                       (set_stage_status Canceled) (stages (core l)) /\
  pipelines (core l') = pipelines (core (cancel_pipeline_row now pipeline l)) /\
  leases l' = update_where (fun _ r => lease_active r && negb (lease_external r) && scope (le_job r))
                (close_lease now LeaseCanceled Canceled (Some (truncate_error_tail pipeline_canceled)))
                (update_where (fun _ r => lease_active r && negb (is_some (le_cancel_requested_at r)) && lease_external r && scope (le_job r))
                  (request_cancel now (truncate_error_tail pipeline_canceled)) (leases l)) /\
  queue l' = update_where (fun _ q => (qu_pipeline q =? pipeline)%N && queue_open q) (close_queue_row now QCanceled) (queue l).
Proof.
  cbv zeta. set (l1 := cancel_pipeline_row now pipeline l).
  assert (E1 : forall k, in_pipeline l1 pipeline k = in_pipeline l pipeline k) by (intros k; reflexivity).
  set (l2 := cancel_jobs_where now (in_pipeline l1 pipeline) l1).
  assert (E2 : forall k, in_pipeline l2 pipeline k = in_pipeline l pipeline k).
  { intros k. rewrite <- E1. by apply in_pipeline_jobs_where. }
  set (l3 := cancel_attempts_where now (in_pipeline l2 pipeline) pipeline_canceled l2).
  assert (E3 : forall k, in_pipeline l3 pipeline k = in_pipeline l pipeline k) by (intros k; rewrite <- E2; reflexivity).
  split_and!; try reflexivity.
  - apply (update_where_ext (V := attempt_row)). intros k a. by rewrite E2.
  - cbn. rewrite (update_where_ext (V := lease_row) _ (fun _ r => lease_active r && negb (lease_external r) && in_pipeline l pipeline (le_job r))).
    2:{ intros k r. f_equal. apply E3. }
    f_equal. apply (update_where_ext (V := lease_row)). intros k r. f_equal. apply E3.
Qed.


(** ** Completions *)

(** The lease a completion closes, before and after. *)
Lemma complete_row now lease c stage l l' : complete_runner_lease_tx now lease c l = (Some stage, l') ->
  exists x x', leases l !! lease = Some x /\ lease_active x = true /\ le_runner x = Some (cp_runner c) /\ le_attempt x = cp_attempt c /\ le_generation x = cp_generation c /\
    leases l' !! lease = Some x' /\ lease_active x' = false /\ le_runner x' = le_runner x /\ le_attempt x' = le_attempt x /\ le_generation x' = le_generation x /\
    le_terminal_status x' = Some (cp_terminal c) /\ is_Some (le_completed_at x').
Proof.
  intros E. unfold complete_runner_lease_tx in E. destruct (leases l !! lease) as [x|] eqn:Ex; [|done]. destruct (completable now c l x) eqn:Ec; [|done]. injection E as _ <-.
  unfold completable, held in Ec. rewrite !andb_true_iff in Ec.
  destruct Ec as (((((((Hr%bool_decide_eq_true_1 & Hact) & _) & Hg%Z.eqb_eq) & _) & Ha%N.eqb_eq) & _) & _).
  exists x, (set_lease (lease_status_for_terminal (cp_terminal c)) (le_expires_at x) (le_acknowledged_at x)
            (le_cancel_requested_at x) (coalesce (le_completed_at x) (Some (cp_finished_at c)))
            (Some now) (Some (cp_terminal c)) (coalesce (le_error_tail x) (cp_diagnostic c)) x).
  split_and!; try done; [| |by destruct (le_completed_at x)].
  - unfold complete_writes. cbn [leases with_jobs with_core with_attempts with_leases].
    unfold close_job_queue_for_attempt. cbn. rewrite lookup_update_where, Ex. cbn. by rewrite N.eqb_refl, Hact.
  - by destruct (cp_terminal c).
Qed.

(** ** A small ledger *)

Module Sample.

(** Two queued jobs in one stage of a project that runs one job at a time. *)
Definition job : job_row :=
  {| job_stage := 5; job_status := Queued; allow_failure := false; job_manual := false; job_command := §"make";
     job_required_tags := []; job_timeout_seconds := None; job_started_at := None; job_finished_at := None |}.

Definition fresh : ledger :=
  {| core := {| jobs := <[1%N := job]> (<[2%N := job]> ∅);
                stages := <[5%N := {| stage_pipeline := 7; stage_position := 1; stage_status := Queued |}]> ∅;
                pipelines := <[7%N := {| project_id := 9; pipeline_status := Queued; started_at := None; finished_at := None;
                                         pipeline_created_at := 0; has_plan := true |}]> ∅;
                events := []; wakeups := 0 |};
     attempts := ∅; leases := ∅; queue := ∅; max_running_jobs := <[9%N := Some 1%Z]> ∅ |}.

(** The state after a statement. *)
Definition after {A E} (r : result (A * ledger) E) : ledger := match r with Ok x => x.2 | Err _ => fresh end.

Definition attempted (id job : N) (l : ledger) : ledger :=
  after (let? l' := insert_attempt id (new_attempt 0 job 1 Queued §"created") l in Ok (tt, l') : result (unit * ledger) db_error).

Definition ready : ledger :=
  after (enqueue_job_attempt_tx 0 22 2 12 (after (enqueue_job_attempt_tx 0 21 1 11 (attempted 12 2 (attempted 11 1 fresh))))).

Definition claimed : ledger := after (claim_external_tx 1 31 3 §"secret" [] (fun _ => true) 21 ready).

Definition finished : completion :=
  {| cp_runner := 3; cp_token_hash := §"secret"; cp_generation := 1; cp_attempt := 11; cp_terminal := Failed;
     cp_exit_code := Some 2%Z; cp_finished_at := 6; cp_diagnostic := None |}.

Definition control : control_request := {| cr_protocol_version := 1; cr_lease_token := §"secret"; cr_fencing_token := 1 |}.

Definition report : complete_request :=
  {| rq_control := control; rq_attempt_id := 11; rq_outcome := §"failed"; rq_exit_code := Some 2%Z; rq_finished_at := 6;
     rq_diagnostic := None; rq_deployment_observation := false |}.

(** The runner takes up the lease, the job fails, is retried and claimed again. *)
Definition acknowledged : ledger := (ack_handler id (Ok 3%N) false (fun _ _ => Ok None) (Ok tt) 2 31 control claimed).2.
Definition failed : ledger := (complete_runner_lease id (Ok 3%N) 6 31 (fun _ => Ok tt) None report acknowledged).2.
Definition retried : ledger :=
  (retry_job 8 ∅ (fun _ _ => Ok false) (Ok tt) 13 23 1 failed).2.
Definition reclaimed : ledger := after (claim_embedded_tx 9 32 1 None retried).

Lemma attempted_step id job l :
  match insert_attempt id (new_attempt 0 job 1 Queued §"created") l with Ok _ => True | Err _ => False end -> ledger_event l (attempted id job l).
Proof.
  unfold attempted. destruct (insert_attempt _ _ l) as [l'|e] eqn:E; [|done]. intros _. left.
  by apply (step_insert_attempt l 0 id job 1 §"created" l').
Qed.

Lemma enqueued_step now id job attempt l :
  match enqueue_job_attempt_tx now id job attempt l with Ok _ => True | Err _ => False end ->
  ledger_event l (after (enqueue_job_attempt_tx now id job attempt l)).
Proof.
  destruct (enqueue_job_attempt_tx now id job attempt l) as [[n l']|e] eqn:E; [|done]. intros _. left.
  by apply (step_enqueue l now id job attempt n l').
Qed.

Lemma wf_fresh : wf fresh.
Proof. split; cbn; try (intros *; rewrite lookup_empty; done); apply valid_table_empty. Qed.

Lemma fresh_ready : rtc ledger_event fresh ready.
Proof.
  eapply rtc_l; [apply (attempted_step 11 1); vm_compute; exact I|].
  eapply rtc_l; [apply (attempted_step 12 2); vm_compute; exact I|].
  eapply rtc_l; [apply (enqueued_step 0 21 1 11); vm_compute; exact I|].
  eapply rtc_l; [apply (enqueued_step 0 22 2 12); vm_compute; exact I|]. apply rtc_refl.
Qed.

Lemma claimed_eq :
  claim_external_tx 1 31 3 §"secret" [] (fun _ => true) 21 ready = Ok (Some (31%N, 11%N, 1%Z), claimed).
Proof. vm_compute. reflexivity. Qed.

Lemma reclaimed_eq : claim_embedded_tx 9 32 1 None retried = Ok (Some (32%N, 13%N, 2%Z), reclaimed).
Proof. vm_compute. reflexivity. Qed.

Lemma ready_claimed : ledger_event ready claimed.
Proof.
  left. apply (step_claim_next _ 1 31 3 §"secret" [] (fun _ => true) 21 (fun _ _ => Offer) (Offered 31 11 1 5)).
  vm_compute. reflexivity.
Qed.

Lemma wf_ready : wf ready.
Proof. exact (proj2 (events_good _ _ fresh_ready) wf_fresh). Qed.

Lemma wf_claimed : wf claimed.
Proof. exact (proj2 (events_good _ _ (rtc_once _ _ ready_claimed)) wf_ready). Qed.

Lemma claimed_reclaimed : rtc ledger_event claimed reclaimed.
Proof.
  eapply rtc_l; [right; apply run_ack|]. eapply rtc_l; [right; apply run_complete|].
  eapply rtc_l; [right; apply (run_retry_job _ 8 ∅ (fun _ _ => Ok false) (Ok tt) 13 23 1)|].
  eapply rtc_l; [left; apply (step_claim_embedded _ 9 32 1 None _ _ reclaimed_eq)|]. apply rtc_refl.
Qed.

Lemma reclaimed_leases : le_status <$> (leases reclaimed !! 31%N) = Some Completed /\
  (le_generation <$> (leases reclaimed !! 32%N)) = Some 2%Z.
Proof. by vm_compute. Qed.

End Sample.

Lemma ledger_invariant_witness : wf Sample.reclaimed /\ exclusive Sample.reclaimed.
Proof. exact (ledger_invariant Sample.claimed Sample.reclaimed Sample.wf_claimed Sample.claimed_reclaimed). Defined.

Definition Sample_lease : lease_row := new_lease 1 11 (Some 3%N) (Some §"secret") 1 (1 + seconds 120) (Some (1 + seconds 30)%Z).

Lemma lease_fencing_witness : exists r',
  leases Sample.reclaimed !! 31%N = Some r' /\ lease_active r' = false /\
  complete_runner_lease_tx 10 31 Sample.finished Sample.reclaimed = (None, Sample.reclaimed).
Proof.
  assert (Hr : leases Sample.claimed !! 31%N = Some Sample_lease) by (vm_compute; reflexivity).
  destruct (lease_fencing Sample.claimed Sample.reclaimed 31 Sample_lease Sample.wf_claimed Sample.claimed_reclaimed Hr)
    as (r' & Hr' & _ & _ & Hc).
  assert (Ha : lease_active r' = false).
  { pose proof (proj1 Sample.reclaimed_leases) as H. rewrite Hr' in H. injection H as H. unfold lease_active. by rewrite H. }
  exists r'. split; [exact Hr'|]. split; [exact Ha|].
  exact (proj1 (proj2 (proj2 (Hc Ha 10%Z 3%N §"secret" 1%Z None Sample.finished)))).
Defined.


(** ** Two gaps *)

(** The cap of a project bounds the leases the claims count, not all of them:
    next to an embedded lease a runner still gets one, and with a cap of one
    two jobs of the project run. *)
Theorem project_cap_oversubscribed : exists l l',
  wf l /\ rtc ledger_event l l' /\ max_running_jobs l !! 9%N = Some (Some 1%Z) /\
  running_leases (fun _ => true) l 9 = 0%Z /\ running_leases (fun _ => true) l' 9 = 2%Z.
Proof.
  exists Sample.ready, (Sample.after (claim_external_tx 1 31 3 §"secret" [] (fun _ => true) 22
                                       (Sample.after (claim_embedded_tx 1 32 1 None Sample.ready)))).
  split; [exact Sample.wf_ready|]. split; [|by vm_compute].
  eapply rtc_l; [left; apply (step_claim_embedded _ 1 32 1 None (Some (32%N, 11%N, 1%Z))); vm_compute; reflexivity|].
  apply rtc_once. left.
  apply (step_claim_next _ 1 31 3 §"secret" [] (fun _ => true) 22 (fun _ _ => Offer) (Offered 31 12 1 5)).
  vm_compute. reflexivity.
Qed.

(** A manual status change checks the transition first and writes later,
    without a guard: when the pipeline is canceled in between, the job, its
    stage and the pipeline run again, with a new attempt but no lease. *)
Theorem canceled_pipeline_revived : exists l l1 l2 j,
  wf l /\ jobs (core l) !! 1%N = Some j /\ transition_to (job_status j) Running = Ok Running /\
  cancel_pipeline 5 7 l = (Ok 7%N, l1) /\ pipeline_status_of l1 7 = Some Canceled /\
  (apply_status_change 6 41 1 Running l1).2 = l2 /\ pipeline_status_of l2 7 = Some Running /\
  job_status <$> (jobs (core l2) !! 1%N) = Some Running /\ has_active_lease l2 1 = false.
Proof.
  exists Sample.ready, (cancel_pipeline 5 7 Sample.ready).2. eexists _, Sample.job.
  split; [exact Sample.wf_ready|]. repeat (split; [vm_compute; reflexivity|]). vm_compute. reflexivity.
Qed.

(** ** Refused work *)

Lemma refuse_unacknowledged now lease job attempt diagnostic l r :
  leases l !! lease = Some r -> lease_active r = true -> le_acknowledged_at r = None ->
  refuse_undispatched now lease job attempt diagnostic l = Err CheckViolation.
Proof.
  intros Hr Ha Hn. unfold refuse_undispatched. rewrite Hr, Ha. unfold put. cbn [check lease_schema].
  unfold lease_check, received_check, refuse_lease, set_lease; cbn. rewrite Hn. reflexivity.
Qed.

(** Work that cannot be offered is never recorded as
    failed: the refusal marks a completion as received on a lease that nobody
    has acknowledged, which migration 0039 forbids, so the transaction of the
    claim fails instead, the handler answers with an internal error and the
    ledger keeps the row queued for the next poll. *)
Theorem refused_claim_fails now lease_id runner token tags others qid checks l :
  (forall stage l', claim_next_work_tx now lease_id runner token tags others qid checks l <> Ok (Refused stage, l')) /\
  (forall c l1, claim_external_tx now lease_id runner token tags others qid l = Ok (Some c, l1) ->
     (forall job attempt, exists diagnostic, checks job attempt = Refuse diagnostic) ->
     forall rest,
       claim_loop now runner tags others
         ({| ct_lease := lease_id; ct_token_hash := token; ct_row := qid; ct_checks := checks |} :: rest) l
       = (Err (Internal CheckViolation), l)).
Proof.
  assert (Hnew : forall c l1, claim_external_tx now lease_id runner token tags others qid l = Ok (Some c, l1) ->
            c.1.1 = lease_id /\ (exists q, queue l !! qid = Some q /\ is_Some (jobs (core l) !! qu_job q)) /\
            exists r, leases l1 !! lease_id = Some r /\ lease_active r = true /\ le_acknowledged_at r = None).
  { intros c l1 (q & Hq & Hr & -> & Hg)%external_claimed. split; [done|]. split.
    - exists q. split; [done|]. unfold external_ready in Hr. apply andb_true_iff in Hr as [_ Hr]. unfold join_queue in Hr.
      by destruct (jobs (core l) !! qu_job q).
    - unfold grant in Hg. apply rbind_Ok_inv in Hg as (lt & Hl & Hg). apply rbind_Ok_inv in Hg as (qt & _ & [= <-]).
      apply insert_row_Ok in Hl as (_ & -> & _). eexists. cbn. split; [apply lookup_insert_eq|done]. }
  assert (Htx : forall c l1, claim_external_tx now lease_id runner token tags others qid l = Ok (Some c, l1) ->
            forall job attempt d, refuse_undispatched now lease_id job attempt d l1 = Err CheckViolation).
  { intros c l1 H job attempt d. destruct (Hnew c l1 H) as (_ & _ & r & Hr & Ha & Hn). by eapply refuse_unacknowledged. }
  split.
  - intros stage l' E. unfold claim_next_work_tx in E.
    destruct (claim_external_tx now lease_id runner token tags others qid l) as [[[[[le at_] g]|] l1]|e] eqn:Ec; try discriminate E.
    cbn in E. destruct (_ ≫= _) as [[job st]|]; [|discriminate E].
    pose proof (proj1 (Hnew _ _ eq_refl)) as Ele. cbn in Ele. subst le.
    destruct (checks job at_); try discriminate E. by rewrite (Htx _ _ eq_refl) in E.
  - intros c l1 Ec Hrefuse rest. destruct (Hnew c l1 Ec) as (Ele & (q & Hq & (j & Hj)) & _).
    destruct c as [[le at_] g]. cbn in Ele. subst le.
    assert (E : claim_next_work_tx now lease_id runner token tags others qid checks l = Err CheckViolation).
    { unfold claim_next_work_tx. rewrite Ec. cbn. rewrite Hq. cbn. rewrite Hj. cbn.
      destruct (Hrefuse (qu_job q) at_) as [d ->]. by rewrite (Htx _ _ Ec). }
    cbn [claim_loop]. unfold hbind, statement. cbn [ct_lease ct_token_hash ct_row ct_checks]. by rewrite E.
Qed.

Lemma refused_claim_fails_witness : exists diagnostic,
  claim_loop 1 3 [] (fun _ => true)
    [{| ct_lease := 31; ct_token_hash := §"secret"; ct_row := 21; ct_checks := fun _ _ => Refuse diagnostic |}] Sample.ready
  = (Err (Internal CheckViolation), Sample.ready).
Proof.
  exists §"variable is reserved".
  exact (proj2 (refused_claim_fails 1 31 3 §"secret" [] (fun _ => true) 21 (fun _ _ => Refuse §"variable is reserved") Sample.ready)
           _ _ Sample.claimed_eq (fun _ _ => ex_intro _ _ eq_refl) []).
Defined.
