(* ===== verification/LedgerLiveness.v ===== *)
(** * What the reconcilers achieve

    The supervisor repeats [reconcile_runtime_state].  One pass always comes to
    an end and settles everything whose time has run out, whatever state the
    ledger was left in. *)
From S2P Require Import Prelude Status Table Ledger LedgerHandlers LedgerSafety.

(** Refreshes touch neither jobs nor attempts, leases or the queue. *)
Record same_work (l l' : ledger) : Prop := {
  sw_jobs : jobs (core l') = jobs (core l);
  sw_attempts : attempts l' = attempts l;
  sw_leases : leases l' = leases l;
  sw_queue : queue l' = queue l }.

#[export] Instance same_work_refl : Reflexive same_work.
Proof. by split. Qed.
#[export] Instance same_work_trans : Transitive same_work.
Proof. intros l l' l'' [] []. split; congruence. Qed.

Lemma refresh_same_work now stage l : same_work l (refresh now stage l).2.
Proof.
  unfold refresh, statement. pose proof (refresh_statuses_refreshed now (core l) stage) as H.
  destruct (refresh_statuses now (core l) stage) as [d|e]; [|reflexivity]. destruct H as (st & _ & R).
  split; try done. exact (rf_jobs _ _ _ _ R).
Qed.

Lemma refreshes_same_work now changed l :
  exists l', for_each changed (fun stage => logged (refresh now stage)) l = (Ok tt, l') /\ same_work l l'.
Proof.
  revert l. induction changed as [|stage changed IH]; intros l; [by exists l|]. cbn [for_each]. unfold hbind, logged at 1.
  destruct (IH (refresh now stage l).2) as (l' & -> & H). exists l'. split; [done|]. etrans; [apply refresh_same_work|done].
Qed.

(** A reconciler that refreshes what it changed never fails. *)
Lemma refreshing_ends now stmt l : exists n l', refreshing now stmt l = (Ok n, l') /\ same_work (stmt l).2 l'.
Proof.
  unfold refreshing, hbind, returning. destruct (refreshes_same_work now (stmt l).1 (stmt l).2) as (l' & -> & H). by eauto.
Qed.

(** ** What holds after the steps of a pass *)

Definition no_expired (now : Z) (l : ledger) : Prop :=
  forall i r, leases l !! i = Some r -> lease_active r = true -> (now < le_expires_at r)%Z.

(** A running job started within five minutes, or a lease covers it. *)
Definition covered (now : Z) (l : ledger) (k : N) (j : job_row) : Prop :=
  has_active_lease l k = true \/ exists t, job_started_at j = Some t /\ (now - seconds 300 < t)%Z.

Definition all_covered (now : Z) (l : ledger) : Prop :=
  forall k j, jobs (core l) !! k = Some j -> job_status j = Running -> covered now l k j.

Lemma no_expired_leases now l l' : leases l' = leases l -> no_expired now l -> no_expired now l'.
Proof. unfold no_expired. by intros ->. Qed.

(** Closing and signalling leases only shrinks the set of active ones. *)
Lemma no_expired_where now p f l :
  (forall r, lease_active (f r) = true -> lease_active r = true /\ le_expires_at (f r) = le_expires_at r) ->
  no_expired now l -> no_expired now (with_leases (update_where p f (leases l)) l).
Proof.
  intros Hf Hn i r' (r & Hr & ->)%update_where_Some Ha. destruct (p i r); [|by eapply Hn].
  destruct (Hf r Ha) as [Ha' ->]. by eapply Hn.
Qed.

Lemma no_expired_expire now l : no_expired now (expire_leases now l).2.
Proof.
  intros i r'. cbn. intros (r & Hr & ->)%update_where_Some. unfold is_expired. destruct (lease_active r) eqn:Ea; cbn [andb]; [|congruence].
  destruct (Z.leb_spec (le_expires_at r) now); [|done]. unfold expire_lease, lease_active; cbn. by destruct (is_some _).
Qed.

Lemma covered_fail_unleased now l : all_covered now (fail_unleased now l).2.
Proof.
  intros k j'. cbn. intros (j & Hj & ->)%update_where_Some. destruct (is_unleased now l k j) eqn:E; [done|]. intros Hs.
  unfold is_unleased in E. rewrite Hs, bool_decide_true in E by done. cbn [andb] in E. apply andb_false_iff in E as [E|E].
  - right. destruct (job_started_at j) as [t|]; [|done]. exists t. split; [done|]. by apply Z.leb_gt.
  - left. by apply negb_false_iff in E.
Qed.

Lemma all_covered_same now l l' : same_work l l' -> all_covered now l -> all_covered now l'.
Proof. intros [Ej _ El _] H k j. rewrite Ej. intros Hj Hs. destruct (H k j Hj Hs) as [Ha|Ht]; [left|by right]. unfold has_active_lease in *. by rewrite El. Qed.

(** ** Canceled pipelines *)

(** Everything of a canceled pipeline is over. *)
Record over (l : ledger) : Prop := {
  ov_jobs : forall k j, jobs (core l) !! k = Some j -> in_pipeline_with l Canceled k = true -> live (job_status j) = false;
  ov_attempts : forall k a, attempts l !! k = Some a -> in_pipeline_with l Canceled (at_job a) = true -> live (at_status a) = false;
  ov_stages : forall k s, stages (core l) !! k = Some s -> pipeline_status_of l (stage_pipeline s) = Some Canceled ->
    live (stage_status s) = false;
  ov_queue : forall k q, queue l !! k = Some q -> pipeline_status_of l (qu_pipeline q) = Some Canceled -> queue_open q = false;
  ov_embedded : forall k r, leases l !! k = Some r -> in_pipeline_with l Canceled (le_job r) = true -> lease_active r = true ->
    lease_external r = true /\ is_Some (le_cancel_requested_at r) }.

(** The steps that end canceled pipelines keep every job in its pipeline. *)
Lemma in_pipeline_with_core l l' status k :
  pipelines (core l') = pipelines (core l) ->
  job_stage <$> (jobs (core l') !! k) = job_stage <$> (jobs (core l) !! k) ->
  (forall s, stage_pipeline <$> (stages (core l') !! s) = stage_pipeline <$> (stages (core l) !! s)) ->
  in_pipeline_with l' status k = in_pipeline_with l status k.
Proof.
  intros Ep Ej Es. unfold in_pipeline_with, pipeline_of_job, pipeline_status_of. rewrite Ep.
  destruct (jobs (core l') !! k) as [j'|], (jobs (core l) !! k) as [j|]; try done. injection Ej as Ej. cbn. rewrite Ej. specialize (Es (job_stage j)).
  by destruct (stages (core l') !! job_stage j), (stages (core l) !! job_stage j); simplify_eq/=; rewrite ?Es.
Qed.

Lemma in_pipeline_with_jobs l p f status k :
  (forall j, job_stage (f j) = job_stage j) ->
  in_pipeline_with (with_jobs (update_where p f (jobs (core l))) l) status k = in_pipeline_with l status k.
Proof.
  intros Hf. apply in_pipeline_with_core; try done. cbn. rewrite lookup_update_where.
  destruct (jobs (core l) !! k) as [j|]; [|done]. cbn. destruct (p k j); [by rewrite Hf|done].
Qed.

(** Both steps together, as updates of the tables under one scope. *)
Definition end_canceled (now : Z) (l : ledger) : ledger :=
  cancel_jobs_for_canceled_pipelines now (cancel_active_leases_for_canceled_pipelines now l).

Lemma end_canceled_tables now l (scope := in_pipeline_with l Canceled) (l' := end_canceled now l) :
  jobs (core l') = update_where (fun k j => live (job_status j) && scope k) (cancel_job now) (jobs (core l)) /\
  attempts l' = update_where (fun _ a => live (at_status a) && scope (at_job a))
                  (finish_attempt now Canceled (Some pipeline_canceled)) (attempts l) /\
  stages (core l') = update_where (fun _ s => live (stage_status s) && bool_decide (pipeline_status_of l (stage_pipeline s) = Some Canceled))
                       (set_stage_status Canceled) (stages (core l)) /\
  pipelines (core l') = pipelines (core l) /\
  leases l' = update_where (fun _ r => lease_active r && negb (lease_external r) && scope (le_job r))
                (close_lease now LeaseCanceled Canceled (Some pipeline_canceled))
                (leases (signal_external now scope pipeline_canceled l)) /\
  (forall k q, queue l' !! k = Some q -> pipeline_status_of l (qu_pipeline q) = Some Canceled -> queue_open q = false).
Proof.
  subst l' scope. unfold end_canceled, cancel_jobs_for_canceled_pipelines. cbv zeta.
  set (l1 := cancel_active_leases_for_canceled_pipelines now l).
  assert (E1 : forall k, in_pipeline_with l1 Canceled k = in_pipeline_with l Canceled k) by (intros k; reflexivity).
  set (l2 := cancel_jobs_where now (in_pipeline_with l1 Canceled) l1).
  split_and!; try reflexivity.
  intros k q'. cbn. intros (q & Hq & ->)%update_where_Some Hc.
  match goal with |- context [if ?b then _ else _] => destruct b eqn:Eb end; [done|]. apply andb_false_iff in Eb as [Eb|Eb]; [|done].
  exfalso. change (queue_of_canceled l q = false) in Eb. unfold queue_of_canceled in Eb. by rewrite bool_decide_true in Eb.
Qed.

Lemma end_canceled_over now l (l' := end_canceled now l) :
  (forall k, in_pipeline_with l' Canceled k = in_pipeline_with l Canceled k) /\ over l'.
Proof.
  subst l'. destruct (end_canceled_tables now l) as (Ej & Ea & Es & Ep & El & Hq).
  assert (Esc : forall k, in_pipeline_with (end_canceled now l) Canceled k = in_pipeline_with l Canceled k).
  { intros k. apply in_pipeline_with_core; [done| |].
    - rewrite Ej, lookup_update_where. destruct (jobs (core l) !! k) as [j|]; [|done]. cbn. by destruct (_ && _).
    - intros s. rewrite Es, lookup_update_where. destruct (stages (core l) !! s) as [r|]; [|done]. cbn. by destruct (_ && _). }
  assert (Eps : forall p, pipeline_status_of (end_canceled now l) p = pipeline_status_of l p)
    by (intros p; unfold pipeline_status_of; by rewrite Ep).
  split; [done|]. split.
  - intros k j'. rewrite Ej, Esc. intros (j & Hj & ->)%update_where_Some ->. destruct (live (job_status j)) eqn:E; cbn [andb]; [done|exact E].
  - intros k a'. rewrite Ea, Esc. intros (a & Ha & ->)%update_where_Some.
    destruct (live (at_status a)) eqn:E; cbn [andb].
    + destruct (in_pipeline_with l Canceled (at_job a)) eqn:E2; [done|]. congruence.
    + intros _. exact E.
  - intros k s'. rewrite Es, Eps. intros (s & Hs & ->)%update_where_Some.
    destruct (live (stage_status s)) eqn:E; cbn [andb]; [|intros _; exact E].
    destruct (bool_decide _) eqn:E2; [done|]. intros Hc. by rewrite bool_decide_true in E2.
  - intros k q Hk. rewrite Eps. by eapply Hq.
  - intros k r'. rewrite El, Esc. intros (r & Hr & ->)%update_where_Some.
    destruct (lease_active r) eqn:Ea'; cbn [andb]; [|congruence].
    destruct (lease_external r) eqn:Ee; cbn [andb negb].
    + intros Hs _. split; [done|]. apply (update_where_Some (V := lease_row)) in Hr as (r0 & Hr0 & Er).
      match type of Er with _ = (if ?b then _ else _) => destruct b eqn:Ec end; subst r.
      * cbn. destruct (le_cancel_requested_at r0); by eexists.
      * rewrite Ea', Ee, Hs in Ec. destruct (le_cancel_requested_at r0); [by eexists|done].
    + destruct (in_pipeline_with l Canceled (le_job r)) eqn:E2; [intros _ H; discriminate H|]. intros; congruence.
Qed.

Lemma has_active_lease_iff l k : has_active_lease l k = true <-> exists i r, leases l !! i = Some r /\ le_job r = k /\ lease_active r = true.
Proof.
  unfold has_active_lease. rewrite exists_row_true. setoid_rewrite andb_true_iff. setoid_rewrite N.eqb_eq. naive_solver.
Qed.

(** A lease of a job outside [scope] stays as it was. *)
Lemma covered_end_canceled now l : all_covered now l -> all_covered now (end_canceled now l).
Proof.
  intros H k j'. destruct (end_canceled_tables now l) as (Ej & _ & _ & _ & El & _).
  rewrite Ej. intros (j & Hj & ->)%update_where_Some Hs.
  destruct (live (job_status j) && in_pipeline_with l Canceled k) eqn:E; [done|].
  rewrite Hs in E. cbn [live andb] in E. destruct (H k j Hj Hs) as [Ha|Ht]; [left|by right].
  apply has_active_lease_iff in Ha as (i & r & Hi & Hk & Ha). apply has_active_lease_iff. exists i, r. split; [|done].
  rewrite El, lookup_update_where. cbn. rewrite lookup_update_where, Hi. cbn.
  rewrite Hk, E, !andb_false_r. by rewrite Hk, E, !andb_false_r.
Qed.

Lemma no_expired_end_canceled now l : no_expired now l -> no_expired now (end_canceled now l).
Proof.
  intros H. destruct (end_canceled_tables now l) as (_ & _ & _ & _ & El & _).
  assert (H1 : no_expired now (signal_external now (in_pipeline_with l Canceled) pipeline_canceled l)).
  { apply no_expired_where; [|done]. by intros r Ha. }
  eapply (no_expired_leases now (with_leases (update_where _ _ _) _)); [exact El|]. apply no_expired_where; [|exact H1]. done.
Qed.

Lemma no_expired_same now l l' : same_work l l' -> no_expired now l -> no_expired now l'.
Proof. intros []. by apply no_expired_leases. Qed.

(** The reconcilers between the expiry and the end of a pass leave leases
    alone. *)
Lemma queue_timeouts_end now timeout embedded_enabled runner_fits l :
  exists n l', reconcile_queue_timeouts now timeout embedded_enabled runner_fits l = (Ok n, l') /\ leases l' = leases l.
Proof.
  destruct timeout as [t|]; cbn [reconcile_queue_timeouts]; [|by eexists _, _].
  destruct (refreshing_ends now (time_out_queue now t embedded_enabled runner_fits) l) as (n & l' & E & []).
  unfold reconcile_queue_timeouts. rewrite E. by eexists _, _.
Qed.

