(* ===== verification/Sessions.v ===== *)
(** * Sessions and tokens

    Browser sessions with rotating refresh tokens
    ([backend/app/src/auth.rs]), the handlers that hand them out and take them
    back ([backend/src/api/auth_routes.rs]), the users behind them
    ([backend/src/central_auth.rs], [backend/src/platform.rs]), personal and
    service tokens ([backend/src/platform.rs]) and the identity of a bearer
    token ([backend/src/api/authz_mw.rs]).  Hashing, signing and random values
    are arguments; the audit log is left out. *)
From S2P Require Import Prelude Authz Table.

Definition days (n : Z) : Z := (n * 86400 * 1000000000)%Z.
Definition timestamp (t : Z) : Z := (t / 1000000000)%Z.

Inductive auth_error : Type := InvalidCredentials | TokenExpired | InvalidToken | NotConfigured | Db (e : db_error).

(** The answers of the handlers that are not a success. *)
Inductive http_error : Type :=
| Unauthorized
| Forbidden
| Missing
| Rejected (message : str)
| Unavailable (message : str)
| Failure (e : db_error).

(** [impl From<AuthError> for ApiError] *)
Definition from_auth_error (e : auth_error) : http_error :=
  match e with Db e => Failure e | _ => Unauthorized end.

(** ** Tables *)

Record user_row : Type := {
  us_username : str;
  us_role : str;
  us_enabled : bool;
  us_token_version : Z;
  us_central_sub : option str }.

Record session_row : Type := {
  se_user : N;
  se_hash : str;
  se_csrf : option str;
  se_expires : Z;
  se_family : N;
  se_revoked : option Z;
  se_replaced_by : option N;
  se_reuse : option Z }.

(** [api_tokens]: [tk_service] is the service account of a row of that
    principal type. *)
Record token_row : Type := {
  tk_hash : str;
  tk_user : option N;
  tk_service : option N;
  tk_project : option N;
  tk_scopes : list str;
  tk_expires : option Z;
  tk_revoked : option Z;
  tk_last_used : option Z }.

Record service_row : Type := { sa_name : str; sa_enabled : bool }.

Record auth_db : Type := {
  users : gmap N user_row;
  credentials : gmap N str;
  sessions : gmap N session_row;
  api_tokens : gmap N token_row;
  service_accounts : gmap N service_row;
  known_projects : gset N;
  project_memberships : gmap (N * N) str }.

Definition with_users (t : gmap N user_row) (d : auth_db) : auth_db :=
  {| users := t; credentials := credentials d; sessions := sessions d; api_tokens := api_tokens d;
     service_accounts := service_accounts d; known_projects := known_projects d; project_memberships := project_memberships d |}.
Definition with_credentials (t : gmap N str) (d : auth_db) : auth_db :=
  {| users := users d; credentials := t; sessions := sessions d; api_tokens := api_tokens d;
     service_accounts := service_accounts d; known_projects := known_projects d; project_memberships := project_memberships d |}.
Definition with_sessions (t : gmap N session_row) (d : auth_db) : auth_db :=
  {| users := users d; credentials := credentials d; sessions := t; api_tokens := api_tokens d;
     service_accounts := service_accounts d; known_projects := known_projects d; project_memberships := project_memberships d |}.
Definition with_tokens (t : gmap N token_row) (d : auth_db) : auth_db :=
  {| users := users d; credentials := credentials d; sessions := sessions d; api_tokens := t;
     service_accounts := service_accounts d; known_projects := known_projects d; project_memberships := project_memberships d |}.
Definition with_services (t : gmap N service_row) (d : auth_db) : auth_db :=
  {| users := users d; credentials := credentials d; sessions := sessions d; api_tokens := api_tokens d;
     service_accounts := t; known_projects := known_projects d; project_memberships := project_memberships d |}.

(** [users_role_check], [username UNIQUE] and [users_central_sub_idx] *)
Definition valid_role (role : str) : bool :=
  bool_decide (role ∈ [§"admin"; §"maintainer"; §"developer"; §"viewer"]).
Definition user_check (u : user_row) : bool := valid_role (us_role u) || str_eqb (us_role u) §"service_account".
Definition user_conflict (x y : user_row) : bool :=
  str_eqb (us_username x) (us_username y)
  || (is_some (us_central_sub x) && bool_decide (us_central_sub x = us_central_sub y)).
#[export, refine] Instance user_schema : Schema user_row := { check := user_check; conflict := user_conflict }.
Proof.
  intros x y. unfold user_conflict, str_eqb. f_equal; [by apply bool_decide_ext|].
  destruct (decide (us_central_sub x = us_central_sub y)) as [E|E]; [by rewrite E|].
  by rewrite !bool_decide_false, !andb_false_r by congruence.
Defined.

(** [refresh_token_hash UNIQUE] and [token_hash UNIQUE] *)
#[export, refine] Instance session_schema : Schema session_row :=
  { check _ := true; conflict x y := str_eqb (se_hash x) (se_hash y) }.
Proof. intros x y. by apply bool_decide_ext. Defined.
#[export, refine] Instance token_schema : Schema token_row :=
  { check _ := true; conflict x y := str_eqb (tk_hash x) (tk_hash y) }.
Proof. intros x y. by apply bool_decide_ext. Defined.

(** The row a [WHERE] on a unique column finds. *)
Definition first_row {V} (p : V -> bool) (t : gmap N V) : option (N * V) := head (select (fun _ v => p v) t).

(** Every operation answers and leaves a database behind. *)
Definition outcome (A E : Type) : Type := (result A E * auth_db)%type.

(** ** Sessions: [backend/app/src/auth.rs] *)

Definition ACCESS_TTL_MINUTES : Z := 15.
Definition REFRESH_TTL_DAYS : Z := 30.

Record access_claims : Type := {
  sub : N;
  service_account_name : option str;
  sid : option N;
  token_id : option N;
  token_project_id : option N;
  token_scopes : list str;
  claims_role : str;
  ver : Z;
  iat : Z;
  exp : Z }.

Record session_user : Type := { su_user : N; su_role : str; su_token_version : Z }.

Definition revoke_row (now : Z) (s : session_row) : session_row :=
  {| se_user := se_user s; se_hash := se_hash s; se_csrf := se_csrf s; se_expires := se_expires s; se_family := se_family s;
     se_revoked := match se_revoked s with Some t => Some t | None => Some now end;
     se_replaced_by := se_replaced_by s; se_reuse := se_reuse s |}.

Definition new_session (user : N) (hash : str) (csrf : option str) (expires : Z) (family : N) : session_row :=
  {| se_user := user; se_hash := hash; se_csrf := csrf; se_expires := expires; se_family := family;
     se_revoked := None; se_replaced_by := None; se_reuse := None |}.

(** [INSERT INTO sessions ..] *)
Definition insert_session (id : N) (s : session_row) (d : auth_db) : result auth_db db_error :=
  let? _ := ok_or (users d !! se_user s) ForeignKeyViolation in
  let? t := insert_row id s (sessions d) in
  Ok (with_sessions t d).

Definition create_session_with_csrf (now : Z) (id user : N) (refresh_hash : str) (csrf_hash : option str) (d : auth_db)
  : outcome N auth_error :=
  match insert_session id (new_session user refresh_hash csrf_hash (now + days REFRESH_TTL_DAYS) id) d with
  | Ok d' => (Ok id, d')
  | Err e => (Err (Db e), d)
  end.

Definition session_by_hash (hash : str) (d : auth_db) : option (N * session_row) :=
  first_row (fun s => str_eqb (se_hash s) hash) (sessions d).

(** The conditions on a session and its user that every use of it repeats. *)
Definition usable (now : Z) (s : session_row) (u : user_row) : bool :=
  negb (is_some (se_revoked s)) && (now <? se_expires s)%Z && us_enabled u.

Definition session_user_for_refresh (now : Z) (refresh_hash : str) (csrf_hash : option str) (d : auth_db)
  : result session_user auth_error :=
  ok_or (s ← session_by_hash refresh_hash d;
         u ← users d !! se_user s.2;
         if usable now s.2 u && match csrf_hash with Some h => bool_decide (se_csrf s.2 = Some h) | None => true end
         then Some {| su_user := se_user s.2; su_role := us_role u; su_token_version := us_token_version u |}
         else None) InvalidCredentials.

Definition access_session_user_with_version (now : Z) (session_id user_id : N) (token_version : option Z) (d : auth_db)
  : result session_user auth_error :=
  ok_or (s ← sessions d !! session_id;
         u ← users d !! se_user s;
         if (se_user s =? user_id)%N && usable now s u
            && match token_version with Some v => (us_token_version u =? v)%Z | None => true end
         then Some {| su_user := se_user s; su_role := us_role u; su_token_version := us_token_version u |}
         else None) InvalidCredentials.

(** The random values of one rotation or login. *)
Record fresh_session : Type := { fs_id : N; fs_refresh : str; fs_csrf : str }.

Record rotated_session : Type := {
  ro_user : N; ro_role : str; ro_token_version : Z; ro_session : N; ro_refresh_token : str; ro_csrf_token : str }.

Definition mark_reuse (now : Z) (s : session_row) : session_row :=
  {| se_user := se_user s; se_hash := se_hash s; se_csrf := se_csrf s; se_expires := se_expires s; se_family := se_family s;
     se_revoked := se_revoked (revoke_row now s); se_replaced_by := se_replaced_by s; se_reuse := Some now |}.

Definition unmarked (family : N) (s : session_row) : bool := (se_family s =? family)%N && negb (is_some (se_reuse s)).

Definition bump_version (u : user_row) : user_row :=
  {| us_username := us_username u; us_role := us_role u; us_enabled := us_enabled u;
     us_token_version := us_token_version u + 1; us_central_sub := us_central_sub u |}.

Definition revoke_session_family (now : Z) (family_id user_id : N) (d : auth_db) : auth_db :=
  let newly_marked := exists_row (fun _ s => unmarked family_id s) (sessions d) in
  let marked := update_where (fun _ s => unmarked family_id s) (mark_reuse now) (sessions d) in
  let revoked := update_where (fun _ s => (se_family s =? family_id)%N) (revoke_row now) marked in
  let d := with_sessions revoked d in
  if newly_marked then with_users (update_where (fun k _ => (k =? user_id)%N) bump_version (users d)) d else d.

Definition replace_row (now : Z) (by_ : N) (s : session_row) : session_row :=
  {| se_user := se_user s; se_hash := se_hash s; se_csrf := se_csrf s; se_expires := se_expires s; se_family := se_family s;
     se_revoked := Some now; se_replaced_by := Some by_; se_reuse := se_reuse s |}.

(** [revoke_session] *)
Definition revoke_session (now : Z) (refresh_hash : str) (d : auth_db) : option N * auth_db :=
  match session_by_hash refresh_hash d with
  | Some (id, s) =>
    if is_some (se_revoked s) then (None, d) else (Some (se_user s), with_sessions (<[id := revoke_row now s]> (sessions d)) d)
  | None => (None, d)
  end.

Section tokens.
(** The hexadecimal SHA-256 of a token. *)
Context (hash_token : str -> str).

(** [rotate_session_with_csrf]: one transaction, which an advisory lock orders
    among those of the family. *)
Definition rotate_session_with_csrf (now : Z) (fresh : fresh_session) (old_refresh_hash : str) (old_csrf_hash : option str)
  (d : auth_db) : outcome rotated_session auth_error :=
  let found := s ← session_by_hash old_refresh_hash d; u ← users d !! se_user s.2; Some (s, u) in
  match found with
  | None => (Err InvalidCredentials, d)
  | Some ((id, row), u) =>
    if match old_csrf_hash with Some h => negb (bool_decide (se_csrf row = Some h)) | None => false end
    then (Err InvalidCredentials, d)
    else if is_some (se_replaced_by row)
    then (Err InvalidCredentials, revoke_session_family now (se_family row) (se_user row) d)
    else if negb (us_enabled u) || is_some (se_revoked row) || (se_expires row <=? now)%Z
    then (Err InvalidCredentials, d)
    else
      let session := new_session (se_user row) (hash_token (fs_refresh fresh)) (Some (hash_token (fs_csrf fresh)))
                       (now + days REFRESH_TTL_DAYS) (se_family row) in
      match insert_session (fs_id fresh) session d with
      | Err e => (Err (Db e), d)
      | Ok d' =>
        (Ok {| ro_user := se_user row; ro_role := us_role u; ro_token_version := us_token_version u;
               ro_session := fs_id fresh; ro_refresh_token := fs_refresh fresh; ro_csrf_token := fs_csrf fresh |},
         with_sessions (update_where (fun k _ => (k =? id)%N) (replace_row now (fs_id fresh)) (sessions d')) d')
      end
  end.
End tokens.

(** ** Access tokens *)

Record token_pair : Type := { tp_access : str; tp_expires_at : Z; tp_refresh : str }.

(** The entry point of a request: the clock, the configured secret and how
    tokens are signed and read back. *)
Class Jwt : Type := {
  encode_jwt : access_claims -> str -> option str;
  decode_jwt : Z -> str -> str -> result access_claims auth_error }.

Section access.
Context (hash_token : str -> str) `{Jwt}.

Definition issue_access_with_secret_version (now : Z) (user_id : N) (role : str) (session_id : N) (token_version : Z) (secret : str)
  : result token_pair auth_error :=
  let exp := (now + ACCESS_TTL_MINUTES * 60 * 1000000000)%Z in
  let claims := {| sub := user_id; service_account_name := None; sid := Some session_id; token_id := None;
                   token_project_id := None; token_scopes := []; claims_role := role; ver := token_version;
                   iat := timestamp now; exp := timestamp exp |} in
  let? token := ok_or (encode_jwt claims secret) InvalidToken in
  Ok {| tp_access := token; tp_expires_at := timestamp exp; tp_refresh := [] |}.

Definition with_refresh (token : str) (p : token_pair) : token_pair :=
  {| tp_access := tp_access p; tp_expires_at := tp_expires_at p; tp_refresh := token |}.

(** *** Users of the central directory: [link_central_user] *)

(** What the central server confirmed: [cu_current k] is the answer of the
    [k]-th look at the clock, [cu_machine] says that the subject is a
    registered machine or a delegate. *)
Record verified_central : Type := {
  cu_current : nat -> bool;
  cu_personal : bool;
  cu_scopes : list str;
  cu_subject_role : option str;
  cu_role : option str;
  cu_machine : bool;
  cu_email : option str;
  cu_subject : str;
  cu_session : option N;
  cu_valid_until : Z }.

Definition human_subject_role (role : option str) : bool :=
  bool_decide (role ∈ [Some §"member"; Some §"user"; Some §"operator"; Some §"admin"; Some §"platform_admin";
                       Some §"platform_operator"; Some §"editor"; Some §"platform_editor"]).

Definition effective_human_role (current : option str) : str :=
  if bool_decide (current = Some §"admin") then §"admin" else §"user".

Definition serving_human_role (application_policy_required : bool) (current : option str) : str :=
  if application_policy_required then effective_human_role current else §"admin".

(** [application_policy_required]: the variable of the environment. *)
Definition application_policy_required (value : option str) : result bool http_error :=
  match value with
  | None => Ok false
  | Some v => if str_eqb v §"true" then Ok true
              else if str_eqb v §"false" then Ok false
              else Err (Unavailable §"Invalid application access requirement")
  end.

Definition user_by_subject (subject : str) (d : auth_db) : option (N * user_row) :=
  first_row (fun u => bool_decide (us_central_sub u = Some subject)) (users d).

(** The transaction that adds an unknown subject; [username] is the name made
    from the fresh identifier. *)
Definition add_central_user (c : verified_central) (id : N) (username : str) (d : auth_db) : outcome (N * user_row) http_error :=
  match insert_row id {| us_username := username; us_role := §"developer"; us_enabled := true; us_token_version := 0;
                         us_central_sub := Some (cu_subject c) |} (users d) with
  | Err e => (Err (Failure e), d)
  | Ok t =>
    match user_by_subject (cu_subject c) (with_users t d) with
    | None => (Err (Failure RowNotFound), d)
    | Some (k, u) => if negb (cu_current c 1) || negb (us_enabled u) then (Err Unauthorized, d) else (Ok (k, u), with_users t d)
    end
  end.

Definition admissible (c : verified_central) : result unit http_error :=
  if negb (cu_current c 0) then Err Unauthorized
  else if cu_personal c && negb (existsb (fun s => str_eqb s §"ci-cd:read" || str_eqb s §"ci-cd:write") (cu_scopes c))
  then Err Forbidden
  else if negb (human_subject_role (cu_subject_role c)) || cu_machine c then Err Forbidden
  else if is_empty (trim (default [] (cu_email c))) || is_empty (trim (cu_subject c)) then Err Unauthorized
  else Ok tt.

Definition link_central_user (now : Z) (policy : result bool http_error) (c : verified_central) (id : N) (username : str) (d : auth_db)
  : outcome access_claims http_error :=
  match admissible c with
  | Err e => (Err e, d)
  | Ok _ =>
    let '(profile, d') := match user_by_subject (cu_subject c) d with
                          | Some profile => (Ok profile, d)
                          | None => add_central_user c id username d
                          end in
    (let? profile := profile in
     let? _ := if negb (us_enabled profile.2) || negb (cu_current c 2) then Err Unauthorized else Ok tt in
     let? _ := if str_eqb (us_role profile.2) §"service_account" || is_none (role_parse (us_role profile.2))
               then Err Forbidden else Ok tt in
     let? required := policy in
     let effective := serving_human_role required (match cu_role c with Some r => Some r | None => cu_subject_role c end) in
     let? _ := if negb (cu_current c 3) then Err Unauthorized else Ok tt in
     Ok {| sub := profile.1; service_account_name := None; sid := cu_session c; token_id := None; token_project_id := None;
           token_scopes := if cu_personal c then cu_scopes c else []; claims_role := effective; ver := 0;
           iat := timestamp now; exp := cu_valid_until c |}, d')
  end.

(** *** Logging in and out: [backend/src/api/auth_routes.rs] *)

(** What a browser has to store, next to the tokens of the answer. *)
Record signed_in : Type := { si_pair : token_pair; si_refresh : str; si_csrf : str }.

Definition open_session (now : Z) (fresh : fresh_session) (user : N) (role : str) (version : Z) (secret : option str) (d : auth_db)
  : outcome signed_in http_error :=
  let '(id, d') := create_session_with_csrf now (fs_id fresh) user (hash_token (fs_refresh fresh)) (Some (hash_token (fs_csrf fresh))) d in
  (let? id := match id with Ok id => Ok id | Err e => Err (from_auth_error e) end in
   let? secret := ok_or secret Unauthorized in
   match issue_access_with_secret_version now user role id version secret with
   | Ok issued => Ok {| si_pair := with_refresh (fs_refresh fresh) issued; si_refresh := fs_refresh fresh; si_csrf := fs_csrf fresh |}
   | Err _ => Err Unauthorized
   end, d').

(** [central] is the answer of the central server to the name and password:
    nothing, or what its token was confirmed to be. *)
Definition auth_login (now : Z) (browser_sso : bool) (central : option (result (option verified_central) http_error))
  (policy : result bool http_error) (linked : N * str) (verify_password : str -> bool) (username : str) (fresh : fresh_session)
  (secret : option str) (d : auth_db) : outcome signed_in http_error :=
  if browser_sso then (Err Forbidden, d)
  else
    let locally :=
      match first_row (fun u => str_eqb (us_username u) (trim username)) (users d) with
      | None => (Err Unauthorized, d)
      | Some (id, u) =>
        match credentials d !! id with
        | None => (Err Unauthorized, d)
        | Some hash =>
          if negb (us_enabled u) || negb (verify_password hash) then (Err Unauthorized, d)
          else open_session now fresh id (us_role u) (us_token_version u) secret d
        end
      end in
    match central with
    | None | Some (Ok None) => locally
    | Some (Err e) => (Err e, d)
    | Some (Ok (Some c)) =>
      match link_central_user now policy c linked.1 linked.2 d with
      | (Ok claims, d') => open_session now fresh (sub claims) (claims_role claims) (ver claims) secret d'
      | (Err e, d') => (Err e, d')
      end
    end.

(** The credentials of a request: cookies as [to_str] reads them, and the first
    CSRF header if there is one. *)
Record request_headers : Type := { rh_cookies : list (option str); rh_csrf : option (option str) }.

Record refresh_credentials : Type := { rc_refresh_token : str; rc_csrf_token : option str }.

Definition AUTH_REFRESH_COOKIE : str := §"forge_refresh".
Definition AUTH_CSRF_COOKIE : str := §"forge_csrf".

(** One part of a cookie header. *)
Definition cookie_part (name part : str) : option str :=
  match split_once §"=" (trim part) with
  | Some (candidate, value) => if str_eqb candidate name && negb (is_empty value) then Some value else None
  | None => None
  end.

Definition cookie_value (headers : request_headers) (name : str) : option str :=
  head (omap (cookie_part name) (concat (map (split 59) (omap id (rh_cookies headers))))).

Definition cookie_refresh_credential (headers : request_headers) : result (option refresh_credentials) http_error :=
  match cookie_value headers AUTH_REFRESH_COOKIE with
  | None => Ok None
  | Some refresh_token =>
    let? csrf_cookie := ok_or (cookie_value headers AUTH_CSRF_COOKIE) Unauthorized in
    let? csrf_header := ok_or (h ← rh_csrf headers; v ← h; if is_empty (trim v) then None else Some (trim v)) Unauthorized in
    if negb (bool_decide (csrf_cookie = csrf_header)) then Err Unauthorized
    else Ok (Some {| rc_refresh_token := refresh_token; rc_csrf_token := Some csrf_cookie |})
  end.

Definition logout_credential (headers : request_headers) (body : str) : result (option refresh_credentials) http_error :=
  if negb (is_empty (trim body)) then Ok (Some {| rc_refresh_token := trim body; rc_csrf_token := None |})
  else cookie_refresh_credential headers.

Definition refresh_credential (headers : request_headers) (body : str) : result refresh_credentials http_error :=
  if negb (is_empty (trim body)) then Ok {| rc_refresh_token := trim body; rc_csrf_token := None |}
  else let? c := cookie_refresh_credential headers in ok_or c Unauthorized.

Definition auth_refresh (now : Z) (browser_sso : bool) (headers : request_headers) (body : str) (fresh : fresh_session)
  (secret : option str) (d : auth_db) : outcome signed_in http_error :=
  if browser_sso then (Err Unauthorized, d)
  else
    match refresh_credential headers body with
    | Err e => (Err e, d)
    | Ok c =>
      let '(rotated, d') := rotate_session_with_csrf hash_token now fresh (hash_token (rc_refresh_token c))
                              (hash_token <$> rc_csrf_token c) d in
      (match rotated with
       | Err _ => Err Unauthorized
       | Ok r =>
         let? secret := ok_or secret Unauthorized in
         match issue_access_with_secret_version now (ro_user r) (ro_role r) (ro_session r) (ro_token_version r) secret with
         | Ok issued => Ok {| si_pair := with_refresh (ro_refresh_token r) issued; si_refresh := ro_refresh_token r;
                              si_csrf := ro_csrf_token r |}
         | Err _ => Err Unauthorized
         end
       end, d')
    end.

Definition auth_logout (now : Z) (headers : request_headers) (body : str) (d : auth_db) : outcome bool http_error :=
  match logout_credential headers body with
  | Err e => (Err e, d)
  | Ok None => (Ok false, d)
  | Ok (Some c) => let '(user, d') := revoke_session now (hash_token (rc_refresh_token c)) d in (Ok (is_some user), d')
  end.

(** [format_auth_cookie] and the two cookies of an answer. *)
Definition format_auth_cookie (name value path : str) (http_only : bool) (max_age_seconds : Z) (secure : bool) : str :=
  name ++ §"=" ++ value ++ §"; Path=" ++ path ++ §"; Max-Age=" ++ show_Z max_age_seconds ++ §"; SameSite=Lax"
    ++ (if http_only then §"; HttpOnly" else []) ++ (if secure then §"; Secure" else []).

Definition auth_cookies (secure : bool) (refresh_token csrf_token : str) : list str :=
  [format_auth_cookie AUTH_REFRESH_COOKIE refresh_token §"/api/v1/auth" true (REFRESH_TTL_DAYS * 24 * 60 * 60) secure;
   format_auth_cookie AUTH_CSRF_COOKIE csrf_token §"/" false (REFRESH_TTL_DAYS * 24 * 60 * 60) secure].

Definition clear_auth_cookies (secure : bool) : list str :=
  [format_auth_cookie AUTH_REFRESH_COOKIE [] §"/api/v1/auth" true 0 secure;
   format_auth_cookie AUTH_CSRF_COOKIE [] §"/" false 0 secure].

(** ** Who a bearer token stands for: [local_identity_for_bearer_token] *)

Definition SAT_PREFIX : str := §"forge_sat_".
Definition PAT_PREFIX : str := §"cicd_".

Definition touch (now : Z) (id : N) (d : auth_db) : auth_db :=
  with_tokens (update_where (fun k _ => (k =? id)%N)
    (fun t => {| tk_hash := tk_hash t; tk_user := tk_user t; tk_service := tk_service t; tk_project := tk_project t;
                 tk_scopes := tk_scopes t; tk_expires := tk_expires t; tk_revoked := tk_revoked t; tk_last_used := Some now |})
    (api_tokens d)) d.

Definition token_live (now : Z) (t : token_row) : bool :=
  negb (is_some (tk_revoked t)) && match tk_expires t with Some e => (now <? e)%Z | None => true end.

Definition token_by_hash (hash : str) (d : auth_db) : option (N * token_row) :=
  first_row (fun t => str_eqb (tk_hash t) hash) (api_tokens d).

Definition token_claims (now : Z) (subject : N) (service : option str) (role : str) (id : N) (t : token_row) : access_claims :=
  {| sub := subject; service_account_name := service; sid := None; token_id := Some id; token_project_id := tk_project t;
     token_scopes := tk_scopes t; claims_role := role; ver := 0; iat := timestamp now; exp := timestamp now + 900 |}.

Definition service_identity (now : Z) (token : str) (d : auth_db) : option (N * access_claims) :=
  t ← token_by_hash (hash_token token) d;
  account ← tk_service t.2;
  a ← service_accounts d !! account;
  if sa_enabled a && token_live now t.2
  then Some (t.1, token_claims now account (Some (sa_name a)) §"service_account" t.1 t.2) else None.

Definition personal_identity (now : Z) (token : str) (d : auth_db) : option (N * access_claims) :=
  t ← token_by_hash (hash_token token) d;
  owner ← tk_user t.2;
  u ← users d !! owner;
  if us_enabled u && token_live now t.2 then Some (t.1, token_claims now owner None (us_role u) t.1 t.2) else None.

Definition session_identity (now : Z) (secret token : str) (d : auth_db) : option access_claims :=
  match decode_jwt now token secret with
  | Err _ => None
  | Ok claims =>
    session ← sid claims;
    match access_session_user_with_version now session (sub claims) (Some (ver claims)) d with
    | Err _ => None
    | Ok current =>
      Some {| sub := sub claims; service_account_name := service_account_name claims; sid := sid claims; token_id := token_id claims;
              token_project_id := token_project_id claims; token_scopes := token_scopes claims; claims_role := su_role current;
              ver := su_token_version current; iat := iat claims; exp := exp claims |}
    end
  end.

Definition local_identity_for_bearer_token (now : Z) (policy : result bool http_error) (browser_sso : bool) (secret token : str) (d : auth_db)
  : outcome access_claims http_error :=
  match policy with
  | Err e => (Err e, d)
  | Ok required =>
    if required && negb (starts_with SAT_PREFIX token) then (Err Forbidden, d)
    else if starts_with SAT_PREFIX token || starts_with PAT_PREFIX token then
      match (if starts_with SAT_PREFIX token then service_identity else personal_identity) now token d with
      | None => (Err Unauthorized, d)
      | Some (id, claims) => (Ok claims, touch now id d)
      end
    else if browser_sso then (Err Unauthorized, d)
    else (ok_or (session_identity now secret token d) Unauthorized, d)
  end.
End access.

(** *** Scopes of tokens *)

Definition bearer_token_has_scope (claims : access_claims) (required_scope : str) : bool :=
  if is_none (token_id claims) && is_empty (token_scopes claims) then true
  else
    let required :=
      if is_none (token_id claims)
      then if str_eqb required_scope §"api:read" || str_eqb required_scope §"git:read" then §"ci-cd:read"
           else if str_eqb required_scope §"api:write" || str_eqb required_scope §"git:write" then §"ci-cd:write"
           else required_scope
      else required_scope in
    existsb (fun scope => str_eqb scope required) (token_scopes claims).

Definition api_token_scope_allows (claims : access_claims) (method : str) : bool :=
  bearer_token_has_scope claims
    (if str_eqb method §"GET" || str_eqb method §"HEAD" || str_eqb method §"OPTIONS" then §"api:read" else §"api:write").

(** ** Managing users and tokens: [backend/src/platform.rs] *)

Record user_input : Type := {
  ui_username : str; ui_role : str; ui_enabled : option bool; ui_password : option str }.

Definition given_password (input : user_input) : option str :=
  match ui_password input with Some p => if is_empty p then None else Some p | None => None end.

Section administration.
(** [hash_password] and the hexadecimal SHA-256; [browser_sso] says that the
    central directory owns the users. *)
Context (hash_password : str -> option str) (hash_token : str -> str) (browser_sso : bool).

Definition valid_user_input (input : user_input) : bool := negb (is_empty (trim (ui_username input))) && valid_role (ui_role input).

(** The two statements are separate: a refused password leaves the user. *)
Definition create_user (id : N) (input : user_input) (d : auth_db) : outcome N http_error :=
  if browser_sso then (Err Forbidden, d)
  else if negb (valid_user_input input)
  then (Err (Rejected §"username and role (admin, maintainer, developer, viewer) are required"), d)
  else
    match insert_row id {| us_username := trim (ui_username input); us_role := ui_role input;
                           us_enabled := default true (ui_enabled input); us_token_version := 0; us_central_sub := None |} (users d) with
    | Err e => (Err (Failure e), d)
    | Ok t =>
      let d := with_users t d in
      match given_password input with
      | None => (Ok id, d)
      | Some p =>
        match hash_password p with
        | None => (Err (Rejected §"password hashing failed"), d)
        | Some h => match credentials d !! id with
                    | Some _ => (Err (Failure UniqueViolation), d)
                    | None => (Ok id, with_credentials (<[id := h]> (credentials d)) d)
                    end
        end
      end
    end.

Definition set_user (input : user_input) (u : user_row) : user_row :=
  {| us_username := trim (ui_username input); us_role := ui_role input; us_enabled := default true (ui_enabled input);
     us_token_version := us_token_version u; us_central_sub := us_central_sub u |}.

Definition update_user (id : N) (input : user_input) (d : auth_db) : outcome user_row http_error :=
  if browser_sso then (Err Forbidden, d)
  else if negb (valid_user_input input) then (Err (Rejected §"username and role are required"), d)
  else
    let stored := match given_password input with
                  | None => Ok d
                  | Some p =>
                    let? h := ok_or (hash_password p) (Rejected §"password hashing failed") in
                    let? _ := ok_or (users d !! id) (Failure ForeignKeyViolation) in
                    Ok (with_credentials (<[id := h]> (credentials d)) d)
                  end in
    match stored with
    | Err e => (Err e, d)
    | Ok d =>
      match users d !! id with
      | None => (Err Missing, d)
      | Some u =>
        match put id (set_user input u) (users d) with
        | Err e => (Err (Failure e), d)
        | Ok t => (Ok (set_user input u), with_users t d)
        end
      end
    end.

Definition DEFAULT_TOKEN_SCOPES : list str := [§"api:read"; §"api:write"; §"git:read"; §"git:write"].

Definition normalize_step (normalized : list str) (scope : str) : result (list str) http_error :=
  let scope := trim scope in
  if is_empty scope then Ok normalized
  else if negb (existsb (fun s => str_eqb s scope) DEFAULT_TOKEN_SCOPES) then Err (Rejected §"unsupported token scope")
  else if existsb (fun s => str_eqb s scope) normalized then Ok normalized
  else Ok (normalized ++ [scope]).

Definition normalize_token_scopes (scopes : list str) : result (list str) http_error :=
  let? normalized := rfold normalize_step [] scopes in
  if is_empty normalized then Err (Rejected §"at least one token scope is required") else Ok normalized.

Definition DEFAULT_TOKEN_LIFETIME_DAYS : Z := 30.
Definition MAX_TOKEN_LIFETIME_DAYS : Z := 365.

Definition token_expires_at (now : Z) (expires_in_days : option Z) (auth_enabled : bool) : result (option Z) http_error :=
  match (match expires_in_days with Some n => Some n | None => if auth_enabled then Some DEFAULT_TOKEN_LIFETIME_DAYS else None end) with
  | None => Ok None
  | Some n =>
    if negb (in_range 1 MAX_TOKEN_LIFETIME_DAYS n) then Err (Rejected §"expires_in_days must be between 1 and 365")
    else Ok (Some (now + days n)%Z)
  end.

Definition project_membership_role (user project : N) (d : auth_db) : option Role :=
  role ← project_memberships d !! (user, project); role_parse role.

Definition validate_token_owner_and_project (user_id project_id : option N) (d : auth_db) : result unit http_error :=
  match project_id with
  | None => Ok tt
  | Some project =>
    if negb (bool_decide (project ∈ known_projects d)) then Err Missing
    else
      let? user := ok_or user_id (Rejected §"user_id is required for scoped tokens") in
      let? u := ok_or (u ← users d !! user; if us_enabled u then Some u else None) Missing in
      if str_eqb (us_role u) §"admin" || is_some (project_membership_role user project d) then Ok tt
      else Err (Rejected §"token owner must be a member of the scoped project")
  end.

Record create_token_input : Type := {
  ct_name : str; ct_user : option N; ct_project : option N; ct_scopes : list str; ct_days : option Z }.

Definition new_token (hash : str) (user service project : option N) (scopes : list str) (expires : option Z) : token_row :=
  {| tk_hash := hash; tk_user := user; tk_service := service; tk_project := project; tk_scopes := scopes;
     tk_expires := expires; tk_revoked := None; tk_last_used := None |}.

(** [INSERT INTO api_tokens ..] *)
Definition insert_token (id : N) (t : token_row) (d : auth_db) : result auth_db http_error :=
  if match tk_user t with Some u => is_none (users d !! u) | None => false end
     || match tk_service t with Some a => is_none (service_accounts d !! a) | None => false end
     || match tk_project t with Some p => negb (bool_decide (p ∈ known_projects d)) | None => false end
  then Err (Failure ForeignKeyViolation)
  else match insert_row id t (api_tokens d) with Ok rows => Ok (with_tokens rows d) | Err e => Err (Failure e) end.

(** [random] are the 64 digits after the prefix. *)
Definition create_token (now : Z) (auth_enabled : bool) (requester : option N) (id : N) (random : str) (input : create_token_input)
  (d : auth_db) : outcome str http_error :=
  let user := match ct_user input with Some u => Some u | None => requester end in
  let value := PAT_PREFIX ++ random in
  let row :=
    let? _ := if browser_sso then Err Forbidden else Ok tt in
    let? _ := if is_empty (trim (ct_name input)) then Err (Rejected §"token name is required") else Ok tt in
    let? _ := if auth_enabled && is_none (ct_project input) then Err (Rejected §"project_id is required for scoped tokens") else Ok tt in
    let? scopes := normalize_token_scopes (ct_scopes input) in
    let? _ := validate_token_owner_and_project user (ct_project input) d in
    let? expires := token_expires_at now (ct_days input) auth_enabled in
    insert_token id (new_token (hash_token value) user None (ct_project input) scopes expires) d in
  match row with Ok d' => (Ok value, d') | Err e => (Err e, d) end.

Definition delete_token (now : Z) (id : N) (d : auth_db) : outcome N http_error :=
  if browser_sso then (Err Forbidden, d)
  else
    match api_tokens d !! id with
    | Some t =>
      if is_some (tk_revoked t) then (Err Missing, d)
      else (Ok id, with_tokens (<[id := {| tk_hash := tk_hash t; tk_user := tk_user t; tk_service := tk_service t; tk_project := tk_project t;
                                           tk_scopes := tk_scopes t; tk_expires := tk_expires t; tk_revoked := Some now;
                                           tk_last_used := tk_last_used t |}]> (api_tokens d)) d)
    | None => (Err Missing, d)
    end.

(** [require_admin_claims] of the service accounts *)
Definition require_admin_claims (claims : option access_claims) : result unit http_error :=
  match claims with
  | Some c => if str_eqb (claims_role c) §"admin" then Ok tt else Err Forbidden
  | None => Ok tt
  end.

Definition create_service_account (claims : option access_claims) (id : N) (name : str) (d : auth_db) : outcome N http_error :=
  let row :=
    let? _ := require_admin_claims claims in
    if is_empty (trim name) || (64 <? len (trim name))%Z then Err (Rejected §"service account name is required (1-64 chars)")
    else if is_some (service_accounts d !! id) || exists_row (fun _ a => str_eqb (sa_name a) (trim name)) (service_accounts d)
    then Err (Rejected §"service account name already exists")
    else Ok (with_services (<[id := {| sa_name := trim name; sa_enabled := true |}]> (service_accounts d)) d) in
  match row with Ok d' => (Ok id, d') | Err e => (Err e, d) end.

Definition update_service_account (claims : option access_claims) (id : N) (enabled : option bool) (d : auth_db) : outcome N http_error :=
  let row :=
    let? _ := require_admin_claims claims in
    let? a := ok_or (service_accounts d !! id) Missing in
    Ok (with_services (<[id := {| sa_name := sa_name a; sa_enabled := default (sa_enabled a) enabled |}]> (service_accounts d)) d) in
  match row with Ok d' => (Ok id, d') | Err e => (Err e, d) end.

Definition issue_service_account_token (now : Z) (auth_enabled : bool) (claims : option access_claims) (account id : N) (random : str)
  (input : create_token_input) (d : auth_db) : outcome str http_error :=
  let value := SAT_PREFIX ++ random in
  let row :=
    let? _ := require_admin_claims claims in
    let? _ := if is_empty (trim (ct_name input)) then Err (Rejected §"token name is required") else Ok tt in
    let? scopes := normalize_token_scopes (ct_scopes input) in
    let? expires := token_expires_at now (ct_days input) auth_enabled in
    let? _ := ok_or (a ← service_accounts d !! account; if sa_enabled a then Some a else None) Missing in
    let? _ := match ct_project input with
              | Some p => if bool_decide (p ∈ known_projects d) then Ok tt else Err (Rejected §"project not found")
              | None => Ok tt
              end in
    insert_token id (new_token (hash_token value) None (Some account) (ct_project input) scopes expires) d in
  match row with Ok d' => (Ok value, d') | Err e => (Err e, d) end.
End administration.
