(* ===== verification/SessionsSafety.v ===== *)
(** * What the operations on sessions and tokens preserve

    The constraints of the tables, the shape of session families, and what
    never changes back: a revoked session, a dead family, a revoked token, a
    version of a user. *)
From S2P Require Import Prelude Authz Table Sessions.

Lemma first_row_Some {V} (p : V -> bool) (t : gmap N V) k v :
  first_row p t = Some (k, v) -> t !! k = Some v /\ p v = true.
Proof.
  unfold first_row. intros E. apply (elem_of_select (fun _ v => p v) t k v).
  destruct (select _ t) as [|x l]; [done|]. injection E as ->. left.
Qed.

Lemma first_row_None {V} (p : V -> bool) (t : gmap N V) :
  first_row p t = None -> forall k v, t !! k = Some v -> p v = false.
Proof.
  unfold first_row. intros E k v Hk. destruct (p v) eqn:Hp; [|done]. exfalso.
  assert (Hin : (k, v) ∈ select (fun _ v => p v) t) by (by apply elem_of_select).
  destruct (select _ t); [by apply elem_of_nil in Hin|done].
Qed.

(** A unique column finds its row. *)
Lemma first_row_unique {V} (p : V -> bool) (t : gmap N V) k v :
  (forall j w, t !! j = Some w -> p w = true -> j = k) ->
  t !! k = Some v -> p v = true -> first_row p t = Some (k, v).
Proof.
  intros Hu Hk Hp. destruct (first_row p t) as [[j w]|] eqn:E.
  - apply first_row_Some in E as [Hj Hw]. pose proof (Hu j w Hj Hw) as ->. congruence.
  - by rewrite (first_row_None _ _ E k v Hk) in Hp.
Qed.

(** ** Families of sessions *)

Definition revoked (s : session_row) : Prop := is_Some (se_revoked s).

Record families (t : gmap N session_row) : Prop := {
  fa_valid : valid_table t;
  fa_root : forall k s, t !! k = Some s -> is_Some (t !! se_family s);
  fa_replaced : forall k s, t !! k = Some s -> is_Some (se_replaced_by s) -> revoked s;
  fa_live : forall k k' s s', t !! k = Some s -> t !! k' = Some s' -> se_family s = se_family s' ->
    se_revoked s = None -> se_revoked s' = None -> k = k';
  fa_user : forall k k' s s', t !! k = Some s -> t !! k' = Some s' -> se_family s = se_family s' -> se_user s = se_user s';
  fa_marked : forall k k' s s', t !! k = Some s -> t !! k' = Some s' -> se_family s = se_family s' ->
    is_Some (se_reuse s) -> revoked s' /\ is_Some (se_reuse s') }.

(** Every session of the family has ended. *)
Definition dead (f : N) (t : gmap N session_row) : Prop :=
  is_Some (t !! f) /\ forall k s, t !! k = Some s -> se_family s = f -> revoked s.

Record row_later (s s' : session_row) : Prop := {
  rl_user : se_user s' = se_user s;
  rl_hash : se_hash s' = se_hash s;
  rl_csrf : se_csrf s' = se_csrf s;
  rl_family : se_family s' = se_family s;
  rl_expires : se_expires s' = se_expires s;
  rl_revoked : revoked s -> se_revoked s' = se_revoked s;
  rl_replaced : is_Some (se_replaced_by s) -> se_replaced_by s' = se_replaced_by s;
  rl_reuse : is_Some (se_reuse s) -> is_Some (se_reuse s') }.

#[export] Instance row_later_refl : Reflexive row_later.
Proof. by split. Qed.
#[export] Instance row_later_trans : Transitive row_later.
Proof.
  intros s s' s'' [U H C F E R P M] [U' H' C' F' E' R' P' M']. split; try congruence.
  - intros Hr. rewrite <- (R Hr). apply R'. unfold revoked. by rewrite (R Hr).
  - intros Hr. rewrite <- (P Hr). apply P'. by rewrite (P Hr).
  - eauto.
Qed.

Record sessions_later (t t' : gmap N session_row) : Prop := {
  sl_rows : forall k s, t !! k = Some s -> exists s', t' !! k = Some s' /\ row_later s s';
  sl_dead : forall f, dead f t -> dead f t' }.

#[export] Instance sessions_later_refl : Reflexive sessions_later.
Proof. intros t. split; [|done]. intros k s Hk. by exists s. Qed.
#[export] Instance sessions_later_trans : Transitive sessions_later.
Proof.
  intros t t' t'' [R D] [R' D']. split; [|eauto]. intros k s Hk.
  destruct (R k s Hk) as (s' & Hk' & H). destruct (R' k s' Hk') as (s'' & Hk'' & H'). exists s''. split; [done|by etrans].
Qed.

(** The families stay in order and no row comes back. *)
Definition keeps_sessions (t t' : gmap N session_row) : Prop := families t -> families t' /\ sessions_later t t'.

Lemma keeps_sessions_refl t : keeps_sessions t t.
Proof. by split. Qed.

Lemma keeps_sessions_trans t t' t'' : keeps_sessions t t' -> keeps_sessions t' t'' -> keeps_sessions t t''.
Proof. intros H H' F. destruct (H F) as [F' L]. destruct (H' F') as [F'' L']. split; [done|by etrans]. Qed.

Lemma revoked_revoke_row now s : revoked (revoke_row now s).
Proof. unfold revoked. cbn. destruct (se_revoked s); by eexists. Qed.

Lemma revoke_row_later now s : row_later s (revoke_row now s).
Proof. split; try done. unfold revoked. cbn. by intros [t ->]. Qed.

(** Rows that are only revoked further keep everything. *)
Lemma keeps_rows t t' :
  (forall k, (t !! k = None /\ t' !! k = None) \/
             (exists s s', t !! k = Some s /\ t' !! k = Some s' /\ row_later s s' /\ se_replaced_by s' = se_replaced_by s)) ->
  (forall k k' s s', t' !! k = Some s -> t' !! k' = Some s' -> se_family s = se_family s' -> is_Some (se_reuse s) ->
     revoked s' /\ is_Some (se_reuse s')) ->
  keeps_sessions t t'.
Proof.
  intros Hr Hm F.
  assert (Hin : forall k s', t' !! k = Some s' -> exists s, t !! k = Some s /\ row_later s s' /\ se_replaced_by s' = se_replaced_by s).
  { intros k s' Hk. destruct (Hr k) as [[_ ?]|(s & s2 & Hs & Hs2 & H)]; [congruence|]. exists s. by simplify_eq. }
  assert (Hout : forall k s, t !! k = Some s -> exists s', t' !! k = Some s' /\ row_later s s').
  { intros k s Hk. destruct (Hr k) as [[? _]|(s1 & s2 & Hs & Hs2 & H & _)]; [congruence|]. exists s2. by simplify_eq. }
  assert (Hlive : forall k s', t' !! k = Some s' -> se_revoked s' = None -> exists s, t !! k = Some s /\ se_revoked s = None /\ se_family s = se_family s').
  { intros k s' Hk Hn. destruct (Hin k s' Hk) as (s & Hs & L & _). exists s. split; [done|]. split; [|by rewrite (rl_family _ _ L)].
    destruct (se_revoked s) eqn:E; [|done]. rewrite (rl_revoked _ _ L) in Hn; [congruence|]. unfold revoked. by rewrite E. }
  split.
  - destruct F as [V R P Li U M]. split.
    + split; [done|]. intros i j x y Hij Hx Hy. destruct (Hin i x Hx) as (x0 & Hx0 & Lx & _), (Hin j y Hy) as (y0 & Hy0 & Ly & _).
      cbn. rewrite (rl_hash _ _ Lx), (rl_hash _ _ Ly). by apply (vt_unique _ V i j).
    + intros k s' Hk. destruct (Hin k s' Hk) as (s & Hs & L & _). rewrite (rl_family _ _ L).
      destruct (R k s Hs) as [s0 Hs0]. destruct (Hout _ _ Hs0) as (s0' & ? & _). by eexists.
    + intros k s' Hk Hp. destruct (Hin k s' Hk) as (s & Hs & L & E). unfold revoked.
      rewrite E in Hp. pose proof (P k s Hs Hp) as Hv. rewrite (rl_revoked _ _ L Hv). exact Hv.
    + intros k k' s s' Hk Hk' Hf Hn Hn'. destruct (Hlive k s Hk Hn) as (x & Hx & Nx & Fx), (Hlive k' s' Hk' Hn') as (y & Hy & Ny & Fy).
      apply (Li k k' x y); congruence.
    + intros k k' s s' Hk Hk' Hf. destruct (Hin k s Hk) as (x & Hx & Lx & _), (Hin k' s' Hk') as (y & Hy & Ly & _).
      rewrite (rl_user _ _ Lx), (rl_user _ _ Ly). apply (U k k'); [done|done|]. by rewrite <- (rl_family _ _ Lx), <- (rl_family _ _ Ly).
    + exact Hm.
  - split; [exact Hout|]. intros f [[s0 Hs0] Hd]. split.
    + destruct (Hout _ _ Hs0) as (s0' & ? & _). by eexists.
    + intros k s' Hk Hf. destruct (Hin k s' Hk) as (s & Hs & L & _). rewrite (rl_family _ _ L) in Hf.
      pose proof (Hd k s Hs Hf) as Hv. unfold revoked. rewrite (rl_revoked _ _ L Hv). exact Hv.
Qed.

Lemma keeps_revoke now id s t : t !! id = Some s -> keeps_sessions t (<[id := revoke_row now s]> t).
Proof.
  intros Hs F. apply keeps_rows; [| |done].
  - intros k. destruct (decide (k = id)) as [->|Hk].
    + right. exists s, (revoke_row now s). rewrite lookup_insert_eq. split_and!; [done|done|apply revoke_row_later|done].
    + rewrite lookup_insert_ne by done. destruct (t !! k) as [x|] eqn:Hx; [|by left]. right. by exists x, x.
  - assert (Hin : forall k x', <[id := revoke_row now s]> t !! k = Some x' ->
                 exists x, t !! k = Some x /\ se_family x' = se_family x /\ se_reuse x' = se_reuse x /\ (revoked x -> revoked x')).
    { intros k x' [[<- <-]|[_ Hk]]%lookup_insert_Some; [exists s|by exists x'].
      split_and!; [done|done|done|]. intros _. apply revoked_revoke_row. }
    intros k k' x x' (y & Hy & Ef & Er & _)%Hin (y' & Hy' & Ef' & Er' & Hr)%Hin Hf Hm.
    destruct (fa_marked t F k k' y y' Hy Hy') as [H1 H2]; [congruence|by rewrite <- Er|]. rewrite Er'. auto.
Qed.

Definition revoke_family_rows (now : Z) (f : N) (t : gmap N session_row) : gmap N session_row :=
  update_where (fun _ s => (se_family s =? f)%N) (revoke_row now)
    (update_where (fun _ s => unmarked f s) (mark_reuse now) t).

Lemma revoke_family_row now f t k s' :
  revoke_family_rows now f t !! k = Some s' <->
  exists s, t !! k = Some s /\ s' = if (se_family s =? f)%N then revoke_row now (if unmarked f s then mark_reuse now s else s) else s.
Proof.
  unfold revoke_family_rows. rewrite update_where_Some. split.
  - intros (s1 & (s & Hs & ->)%update_where_Some & ->). exists s. split; [done|]. unfold unmarked.
    destruct (se_family s =? f)%N eqn:E; cbn [andb]; [|by rewrite E]. destruct (negb _); cbn; by rewrite E.
  - intros (s & Hs & ->). eexists. split; [apply update_where_Some; eexists; by split|]. unfold unmarked.
    destruct (se_family s =? f)%N eqn:E; cbn [andb]; [|by rewrite E]. destruct (negb _); cbn; by rewrite E.
Qed.

Lemma revoke_family_later now f s :
  row_later s (if (se_family s =? f)%N then revoke_row now (if unmarked f s then mark_reuse now s else s) else s).
Proof.
  destruct (se_family s =? f)%N; [|done]. etrans; [|apply revoke_row_later].
  destruct (unmarked f s) eqn:E; [|done]. split; try done. unfold revoked; cbn. by intros [t ->].
Qed.

Lemma keeps_revoke_family now f t : keeps_sessions t (revoke_family_rows now f t).
Proof.
  intros F. apply keeps_rows; [| |done].
  - intros k. destruct (t !! k) as [s|] eqn:Hs.
    + right. eexists s, _. split; [done|]. split; [apply revoke_family_row; by exists s|]. split; [apply revoke_family_later|].
      destruct (_ =? _)%N, (unmarked f s); done.
    + left. split; [done|]. unfold revoke_family_rows. by rewrite !lookup_update_where, Hs.
  - intros k k' s s' (x & Hx & ->)%revoke_family_row (x' & Hx' & ->)%revoke_family_row.
    pose proof (revoke_family_later now f x) as L. pose proof (revoke_family_later now f x') as L'.
    rewrite (rl_family _ _ L), (rl_family _ _ L'). intros Ef. rewrite <- Ef. clear L L'.
    destruct (N.eqb_spec (se_family x) f) as [E|E].
    + intros _. split; [apply revoked_revoke_row|]. unfold unmarked. rewrite <- Ef, (proj2 (N.eqb_eq _ _) E). cbn.
      destruct (se_reuse x') eqn:E'; cbn; by eexists.
    + intros Hm. by apply (fa_marked t F k k' x x').
Qed.

Lemma revoke_family_dead now f t : is_Some (t !! f) -> dead f (revoke_family_rows now f t).
Proof.
  intros [s Hs]. split.
  - eexists. apply revoke_family_row. by exists s.
  - intros k s' (x & Hx & ->)%revoke_family_row. destruct (N.eqb_spec (se_family x) f) as [E|E]; [|done].
    intros _. apply revoked_revoke_row.
Qed.

(** A login opens a new family. *)
Lemma keeps_new_family t t' id s :
  insert_row id s t = Ok t' -> se_family s = id -> se_reuse s = None -> se_replaced_by s = None -> keeps_sessions t t'.
Proof.
  intros E Hf Hr Hp F. pose proof (insert_row_valid _ _ _ _ (fa_valid t F) E) as V. apply insert_row_Ok in E as (Hn & -> & _ & _).
  assert (Hne : forall k x, t !! k = Some x -> se_family x <> id).
  { intros k x Hx Ef. destruct (fa_root t F k x Hx) as [r Hroot]. rewrite Ef in Hroot. congruence. }
  assert (Hks : forall k x, t !! k = Some x -> <[id := s]> t !! k = Some x).
  { intros k x Hx. rewrite lookup_insert_ne; [done|congruence]. }
  split.
  - destruct F as [_ R P Li U M]. split.
    + done.
    + intros k x [[<- <-]|[Hk Hx]]%lookup_insert_Some; [rewrite Hf, lookup_insert_eq; by eexists|].
      destruct (R k x Hx) as [r Hroot]. exists r. by apply Hks.
    + intros k x [[<- <-]|[_ Hx]]%lookup_insert_Some; [by rewrite Hp; intros [? [=]]|by eapply P].
    + intros k k' x y [[<- <-]|[_ Hx]]%lookup_insert_Some [[<- <-]|[_ Hy]]%lookup_insert_Some E; [done| | |by eapply Li].
      * exfalso. apply (Hne k' y Hy). congruence.
      * exfalso. apply (Hne k x Hx). congruence.
    + intros k k' x y [[<- <-]|[_ Hx]]%lookup_insert_Some [[<- <-]|[_ Hy]]%lookup_insert_Some E; [done| | |by eapply U].
      * exfalso. apply (Hne k' y Hy). congruence.
      * exfalso. apply (Hne k x Hx). congruence.
    + intros k k' x y [[<- <-]|[_ Hx]]%lookup_insert_Some [[<- <-]|[_ Hy]]%lookup_insert_Some E Hm; [| | |exact (M k k' x y Hx Hy E Hm)].
      * rewrite Hr in Hm. by destruct Hm.
      * rewrite Hr in Hm. by destruct Hm.
      * exfalso. apply (Hne k x Hx). congruence.
  - split.
    + intros k x Hx. exists x. split; [by apply Hks|done].
    + intros f [[r Hroot] Hd]. split; [exists r; by apply Hks|].
      intros k x [[<- <-]|[_ Hx]]%lookup_insert_Some E; [congruence|by eapply Hd].
Qed.

(** A rotation revokes the live session of its family and adds the next one. *)
Section rotation.
Context (now : Z) (t : gmap N session_row) (id new : N) (s s' : session_row).
Context (F : families t) (Hs : t !! id = Some s) (Hn : se_revoked s = None) (Hnew : t !! new = None).
Context (Ef : se_family s' = se_family s) (Eu : se_user s' = se_user s) (Er : se_reuse s' = None) (Ev : se_revoked s' = None)
  (Ep : se_replaced_by s' = None).

Definition rotated_rows : gmap N session_row := update_where (fun k _ => (k =? id)%N) (replace_row now new) (<[new := s']> t).

Lemma rotated_row k x' :
  rotated_rows !! k = Some x' <->
  (k = new /\ x' = s') \/ (k = id /\ x' = replace_row now new s) \/ (k <> id /\ k <> new /\ t !! k = Some x').
Proof.
  assert (Hid : id <> new) by congruence. unfold rotated_rows. rewrite lookup_update_where. destruct (decide (k = new)) as [->|Hkn].
  - rewrite lookup_insert_eq. cbn. rewrite (proj2 (N.eqb_neq new id)) by congruence. split; [intros [= <-]; by left|].
    intros [[_ ->]|[[? _]|(_ & ? & _)]]; [done|congruence|congruence].
  - rewrite lookup_insert_ne by done. destruct (decide (k = id)) as [->|Hki].
    + rewrite Hs. cbn. rewrite N.eqb_refl. split; [intros [= <-]; by right; left|]. intros [[? _]|[[_ ->]|(? & _ & _)]]; congruence.
    + destruct (t !! k) as [x|]; cbn; [|split; [done|]; intros [[? _]|[[? _]|(_ & _ & ?)]]; congruence].
      rewrite (proj2 (N.eqb_neq k id) Hki). split; [intros [= <-]; by right; right|]. intros [[? _]|[[? _]|(_ & _ & ?)]]; congruence.
Qed.

(** Where a row comes from: its family was there before. *)
Lemma rotated_origin k x' :
  rotated_rows !! k = Some x' ->
  exists j x, t !! j = Some x /\ se_family x' = se_family x /\ se_user x' = se_user x /\ (is_Some (se_reuse x') -> is_Some (se_reuse x)).
Proof.
  intros [[-> ->]|[[-> ->]|(_ & _ & Hx)]]%rotated_row; [exists id, s|exists id, s|by exists k, x']; split_and!; try done.
  rewrite Er. by intros [].
Qed.

Lemma rotated_keep k x : t !! k = Some x -> exists x', rotated_rows !! k = Some x' /\ row_later x x'.
Proof.
  intros Hx. destruct (decide (k = id)) as [->|Hk].
  - exists (replace_row now new s). simplify_eq. split; [apply rotated_row; by right; left|]. split; try done.
    + unfold revoked. rewrite Hn. by intros [].
    + intros Hr. pose proof (fa_replaced t F id s Hs Hr) as [? ?]. congruence.
  - exists x. split; [apply rotated_row; right; right; split_and!; congruence|done].
Qed.

(** The other sessions of the family have ended, and it is not marked. *)
Lemma rotated_last k x : t !! k = Some x -> se_family x = se_family s -> se_revoked x = None -> k = id.
Proof. intros Hx Hfx Hr. by apply (fa_live t F k id x s). Qed.

Lemma rotated_unmarked j x : t !! j = Some x -> se_family x = se_family s -> ~ is_Some (se_reuse x).
Proof. intros Hx Hfx Hm. destruct (fa_marked t F j id x s Hx Hs Hfx Hm) as [[? ?] _]. congruence. Qed.

Lemma rotated_valid : valid_table (<[new := s']> t) -> valid_table rotated_rows.
Proof.
  intros V. split; [done|]. intros i j x y Hij (x0 & Hx0 & ->)%update_where_Some (y0 & Hy0 & ->)%update_where_Some. cbn.
  pose proof (vt_unique _ V i j x0 y0 Hij Hx0 Hy0) as Hc. cbn in Hc. by destruct (i =? id)%N, (j =? id)%N.
Qed.

Lemma rotated_live k k' x y :
  rotated_rows !! k = Some x -> rotated_rows !! k' = Some y -> se_family x = se_family y ->
  se_revoked x = None -> se_revoked y = None -> k = k'.
Proof.
  intros [[-> ->]|[[-> ->]|(Hk & _ & Hx)]]%rotated_row [[-> ->]|[[-> ->]|(Hk' & _ & Hy)]]%rotated_row Efam Nx Ny; try done.
  - exfalso. apply Hk', (rotated_last k' y); [done|congruence|done].
  - exfalso. apply Hk, (rotated_last k x); [done|congruence|done].
  - by apply (fa_live t F k k' x y).
Qed.

Lemma rotated_marked k k' x y :
  rotated_rows !! k = Some x -> rotated_rows !! k' = Some y -> se_family x = se_family y -> is_Some (se_reuse x) ->
  revoked y /\ is_Some (se_reuse y).
Proof.
  intros Hx Hy Efam Hm.
  assert (Hno : se_family x <> se_family s).
  { intros Es. destruct (rotated_origin _ _ Hx) as (j & x0 & Hj & Fx & _ & Mx). apply (rotated_unmarked j x0 Hj); [congruence|auto]. }
  apply rotated_row in Hx as [[_ ->]|[[_ ->]|(_ & _ & Hx)]]; [done|done|].
  apply rotated_row in Hy as [[_ ->]|[[_ ->]|(_ & _ & Hy)]]; [cbn in Efam; congruence|cbn in Efam; congruence|].
  by apply (fa_marked t F k k' x y).
Qed.

Lemma rotated_families : valid_table (<[new := s']> t) -> families rotated_rows.
Proof.
  intros V. split; [by apply rotated_valid| | |exact rotated_live| |exact rotated_marked].
  - intros k x' (j & x & Hj & -> & _)%rotated_origin. destruct (fa_root t F j x Hj) as [r Hr].
    destruct (rotated_keep _ _ Hr) as (r' & ? & _). by eexists.
  - intros k x' [[-> ->]|[[-> ->]|(_ & _ & Hx)]]%rotated_row; [by rewrite Ep; intros []|by eexists|by apply (fa_replaced t F k)].
  - intros k k' x y Hx Hy Efam. destruct (rotated_origin _ _ Hx) as (j & x0 & Hj & Fx & Ux & _), (rotated_origin _ _ Hy) as (j' & y0 & Hj' & Fy & Uy & _).
    rewrite Ux, Uy. apply (fa_user t F j j'); [done|done|congruence].
Qed.

Lemma rotated_later : sessions_later t rotated_rows.
Proof.
  split; [exact rotated_keep|]. intros f [[r Hr] Hd]. split; [destruct (rotated_keep _ _ Hr) as (r' & ? & _); by eexists|].
  intros k x' [[-> ->]|[[-> ->]|(_ & _ & Hx)]]%rotated_row Hf; [|by eexists|by apply (Hd k)].
  exfalso. destruct (Hd id s Hs) as [? ?]; [congruence|congruence].
Qed.
End rotation.

(** ** The whole database *)

Record auth_wf (d : auth_db) : Prop := {
  aw_users : valid_table (users d);
  aw_sessions : families (sessions d);
  aw_tokens : valid_table (api_tokens d);
  aw_owner : forall k s, sessions d !! k = Some s -> is_Some (users d !! se_user s) }.

Record token_later (t t' : token_row) : Prop := {
  tl_hash : tk_hash t' = tk_hash t;
  tl_user : tk_user t' = tk_user t;
  tl_service : tk_service t' = tk_service t;
  tl_project : tk_project t' = tk_project t;
  tl_scopes : tk_scopes t' = tk_scopes t;
  tl_expires : tk_expires t' = tk_expires t;
  tl_revoked : is_Some (tk_revoked t) -> is_Some (tk_revoked t') }.

#[export] Instance token_later_refl : Reflexive token_later.
Proof. by split. Qed.
#[export] Instance token_later_trans : Transitive token_later.
Proof. intros t t' t'' [] []. split; try congruence. auto. Qed.

(** Versions of users only grow, they do when a session of theirs is marked,
    sessions and tokens stay what they are, and what has been revoked stays
    revoked. *)
Record later (d d' : auth_db) : Prop := {
  la_users : forall k u, users d !! k = Some u -> exists u', users d' !! k = Some u' /\ (us_token_version u <= us_token_version u')%Z;
  la_sessions : sessions_later (sessions d) (sessions d');
  la_marked : forall k s s' u u', sessions d !! k = Some s -> se_reuse s = None -> sessions d' !! k = Some s' -> is_Some (se_reuse s') ->
    users d !! se_user s = Some u -> users d' !! se_user s = Some u' -> (us_token_version u < us_token_version u')%Z;
  la_tokens : forall k t, api_tokens d !! k = Some t -> exists t', api_tokens d' !! k = Some t' /\ token_later t t' }.

#[export] Instance later_refl : Reflexive later.
Proof.
  intros d. split; [|done| |]; [by intros k x Hx; exists x| |by intros k x Hx; exists x].
  intros k s s' u u' Hk Hn Hk' Hm. simplify_eq. rewrite Hn in Hm. by destruct Hm.
Qed.
#[export] Instance later_trans : Transitive later.
Proof.
  intros d d' d'' [U S M T] [U' S' M' T']. split.
  - intros k u Hu. destruct (U k u Hu) as (u' & Hu' & ?). destruct (U' k u' Hu') as (u'' & ? & ?). exists u''. split; [done|lia].
  - by etrans.
  - intros k s s'' u u'' Hk Hn Hk'' Hm Hu Hu''. destruct (sl_rows _ _ S k s Hk) as (s' & Hk' & L). destruct (U _ _ Hu) as (u' & Hu' & Hle).
    destruct (U' _ _ Hu') as (w & Hw & Hle'). simplify_eq. destruct (se_reuse s') eqn:Er.
    + assert (us_token_version u < us_token_version u')%Z; [|lia]. apply (M k s s' u u'); by rewrite ?Er.
    + assert (us_token_version u' < us_token_version u'')%Z; [|lia]. apply (M' k s' s'' u' u''); try done; by rewrite (rl_user _ _ L).
  - intros k t Ht. destruct (T k t Ht) as (t' & Ht' & ?). destruct (T' k t' Ht') as (t'' & ? & ?). exists t''. split; [done|by etrans].
Qed.

Definition good (d d' : auth_db) : Prop := auth_wf d -> auth_wf d' /\ later d d'.

#[export] Instance good_refl : Reflexive good.
Proof. intros d W. by split. Qed.
#[export] Instance good_trans : Transitive good.
Proof. intros d d' d'' H H' W. destruct (H W) as [W' L]. destruct (H' W') as [W'' L']. split; [done|by etrans]. Qed.

(** Without new marks nothing is asked of the versions. *)
Lemma marked_same d d' :
  (forall k s s', sessions d !! k = Some s -> sessions d' !! k = Some s' -> se_reuse s' = se_reuse s) ->
  forall k s s' u u', sessions d !! k = Some s -> se_reuse s = None -> sessions d' !! k = Some s' -> is_Some (se_reuse s') ->
    users d !! se_user s = Some u -> users d' !! se_user s = Some u' -> (us_token_version u < us_token_version u')%Z.
Proof. intros Hs k s s' u u' Hk Hn Hk' Hm. rewrite (Hs k s s' Hk Hk'), Hn in Hm. by destruct Hm. Qed.

(** Operations on one table leave the others alone. *)
Lemma later_users t d :
  (forall k u, users d !! k = Some u -> exists u', t !! k = Some u' /\ (us_token_version u <= us_token_version u')%Z) ->
  later d (with_users t d).
Proof.
  intros Hl. split; cbn; [done|done| |by intros k x Hx; exists x].
  apply (marked_same d (with_users t d)). intros. cbn in *. by simplify_eq.
Qed.

Lemma good_users t d :
  (valid_table (users d) -> valid_table t) ->
  (forall k u, users d !! k = Some u -> exists u', t !! k = Some u' /\ (us_token_version u <= us_token_version u')%Z) ->
  good d (with_users t d).
Proof.
  intros Hv Hl W. split; [|by apply later_users]. split; cbn; [by apply Hv, W|apply W|apply W|].
  intros k s Hs. destruct (aw_owner d W k s Hs) as [u Hu]. destruct (Hl _ _ Hu) as (u' & ? & _). by eexists.
Qed.

Lemma good_sessions t d :
  (families (sessions d) -> families t /\ sessions_later (sessions d) t) ->
  (forall k s s', sessions d !! k = Some s -> t !! k = Some s' -> se_reuse s' = se_reuse s) ->
  (auth_wf d -> forall k s, t !! k = Some s -> is_Some (users d !! se_user s)) ->
  good d (with_sessions t d).
Proof.
  intros Hk Hm Ho W. destruct (Hk (aw_sessions d W)) as [F L].
  split; [|split; cbn; [by intros k u Hu; exists u|done|by apply (marked_same d (with_sessions t d))|by intros k x Hx; exists x]].
  split; cbn; [apply W|done|apply W|by apply Ho].
Qed.

Lemma later_other d d' :
  users d' = users d -> sessions d' = sessions d ->
  (forall k x, api_tokens d !! k = Some x -> exists x', api_tokens d' !! k = Some x' /\ token_later x x') -> later d d'.
Proof.
  intros Eu Es Ht. split; [|by rewrite Es| |done].
  - rewrite Eu. by intros k u Hu; exists u.
  - apply marked_same. rewrite Es. intros. by simplify_eq.
Qed.

Lemma good_tokens t d :
  (valid_table (api_tokens d) -> valid_table t) ->
  (forall k x, api_tokens d !! k = Some x -> exists x', t !! k = Some x' /\ token_later x x') ->
  good d (with_tokens t d).
Proof.
  intros Hv Hl W. split; [|by apply later_other]. split; cbn; [apply W|apply W|by apply Hv, W|apply W].
Qed.

Lemma good_credentials t d : good d (with_credentials t d).
Proof. intros []. split; [by split|]. apply later_other; [done|done|]. by intros k x Hx; exists x. Qed.
Lemma good_services t d : good d (with_services t d).
Proof. intros []. split; [by split|]. apply later_other; [done|done|]. by intros k x Hx; exists x. Qed.

(** *** Users *)

Lemma good_insert_user id u t d : insert_row id u (users d) = Ok t -> good d (with_users t d).
Proof.
  intros E. apply good_users; [intros V; by eapply insert_row_valid|]. intros k x Hx. exists x. split; [|done].
  apply insert_row_Ok in E as (Hn & -> & _). rewrite lookup_insert_ne; [done|congruence].
Qed.

Lemma good_set_user id u u' t d :
  users d !! id = Some u -> us_token_version u' = us_token_version u -> put id u' (users d) = Ok t -> good d (with_users t d).
Proof.
  intros Hu Ev E. apply good_users; [intros V; by eapply put_valid|]. apply put_Ok in E as (-> & _). intros k x Hx.
  destruct (decide (k = id)) as [->|Hk]; [|exists x; by rewrite lookup_insert_ne].
  exists u'. rewrite lookup_insert_eq. simplify_eq. split; [done|lia].
Qed.

(** *** Sessions *)

Lemma families_owner d (t : gmap N session_row) :
  auth_wf d -> (forall k s', t !! k = Some s' -> exists j s, sessions d !! j = Some s /\ se_user s' = se_user s) ->
  forall k s, t !! k = Some s -> is_Some (users d !! se_user s).
Proof. intros W H k s' Hk. destruct (H k s' Hk) as (j & s & Hj & ->). by eapply aw_owner. Qed.

Lemma good_insert_session id s d d' :
  insert_session id s d = Ok d' -> se_family s = id -> se_reuse s = None -> se_replaced_by s = None -> good d d'.
Proof.
  unfold insert_session. intros (u & Hu%ok_or_Ok & (t & Ht & [= <-])%rbind_Ok_inv)%rbind_Ok_inv Hf Hr Hp.
  apply good_sessions; [by eapply keeps_new_family| |].
  { apply insert_row_Ok in Ht as (Hn & -> & _). intros k x x' Hx. rewrite lookup_insert_ne by congruence. by intros; simplify_eq. }
  intros W k x. apply insert_row_Ok in Ht as (_ & -> & _). intros [[<- <-]|[_ Hx]]%lookup_insert_Some; [by eexists|by eapply aw_owner].
Qed.

Lemma good_create_session now id user hash csrf d : good d (create_session_with_csrf now id user hash csrf d).2.
Proof.
  unfold create_session_with_csrf. destruct (insert_session _ _ _) as [d'|e] eqn:E; [|done]. by eapply good_insert_session.
Qed.

Lemma session_by_hash_Some hash d k s : session_by_hash hash d = Some (k, s) -> sessions d !! k = Some s /\ se_hash s = hash.
Proof. intros [Hk E]%first_row_Some. split; [done|]. by apply bool_decide_eq_true in E. Qed.

Lemma good_revoke_session now hash d : good d (revoke_session now hash d).2.
Proof.
  unfold revoke_session. destruct (session_by_hash hash d) as [[id s]|] eqn:E; [|done].
  apply session_by_hash_Some in E as [Hs _]. destruct (is_some _); [done|]. cbn.
  apply good_sessions; [by apply keeps_revoke| |].
  { intros k x x' Hx [[<- <-]|[_ Hx']]%lookup_insert_Some; by simplify_eq. }
  intros W. apply families_owner; [done|].
  intros k x [[<- <-]|[_ Hx]]%lookup_insert_Some; [by exists id, s|by exists k, x].
Qed.

Lemma valid_bump user (t : gmap N user_row) : valid_table t -> valid_table (update_where (fun k _ => (k =? user)%N) bump_version t).
Proof. by apply update_where_valid. Qed.

Lemma bump_later user (t : gmap N user_row) k u :
  t !! k = Some u ->
  exists u', update_where (fun k _ => (k =? user)%N) bump_version t !! k = Some u' /\
    us_token_version u' = (us_token_version u + if (k =? user)%N then 1 else 0)%Z.
Proof. intros Hu. rewrite lookup_update_where, Hu. cbn. destruct (k =? user)%N; eexists; split; try done. cbn. lia. Qed.

(** The tables after [revoke_session_family]. *)
Lemma revoke_session_family_sessions now f user d :
  sessions (revoke_session_family now f user d) = revoke_family_rows now f (sessions d).
Proof. unfold revoke_session_family. by destruct (exists_row _ _). Qed.

Lemma revoke_session_family_users now f user d :
  users (revoke_session_family now f user d) =
  if exists_row (fun _ s => unmarked f s) (sessions d) then update_where (fun k _ => (k =? user)%N) bump_version (users d) else users d.
Proof. unfold revoke_session_family. by destruct (exists_row _ _). Qed.

Lemma revoke_session_family_tokens now f user d : api_tokens (revoke_session_family now f user d) = api_tokens d.
Proof. unfold revoke_session_family. by destruct (exists_row _ _). Qed.

Lemma good_revoke_session_family now id s d :
  sessions d !! id = Some s -> good d (revoke_session_family now (se_family s) (se_user s) d).
Proof.
  intros Hs W. destruct (keeps_revoke_family now (se_family s) (sessions d) (aw_sessions d W)) as [F L].
  assert (Hl : forall k u, users d !! k = Some u -> exists u', users (revoke_session_family now (se_family s) (se_user s) d) !! k = Some u' /\
             (us_token_version u <= us_token_version u')%Z).
  { intros k u Hu. rewrite revoke_session_family_users. destruct (exists_row _ _); [|by exists u].
    destruct (bump_later (se_user s) _ k u Hu) as (u' & ? & Ev). exists u'. split; [done|]. rewrite Ev. destruct (_ =? _)%N; lia. }
  split.
  - split; rewrite ?revoke_session_family_sessions, ?revoke_session_family_tokens; [|done|apply W|].
    + rewrite revoke_session_family_users. destruct (exists_row _ _); [apply valid_bump|]; apply W.
    + intros k x' (x & Hx & ->)%revoke_family_row. destruct (aw_owner d W k x Hx) as [u Hu]. destruct (Hl _ _ Hu) as (u' & Hu' & _).
      exists u'. by destruct (_ =? _)%N, (unmarked (se_family s) x).
  - split; rewrite ?revoke_session_family_sessions, ?revoke_session_family_tokens; [done|done| |by intros k x Hx; exists x].
    intros k x x' u u' Hx Hn (x0 & Hx0 & ->)%revoke_family_row Hm Hu. assert (x0 = x) as -> by congruence.
    destruct (N.eqb_spec (se_family x) (se_family s)) as [Ef|]; [|rewrite Hn in Hm; by destruct Hm].
    rewrite revoke_session_family_users, (proj2 (exists_row_true _ _)).
    2:{ exists k, x. split; [done|]. unfold unmarked. by rewrite Ef, N.eqb_refl, Hn. }
    destruct (bump_later (se_user s) _ _ u Hu) as (w & Hw & Ev). rewrite Hw. intros [= <-]. rewrite Ev.
    rewrite (fa_user _ (aw_sessions d W) k id x s Hx Hs Ef), N.eqb_refl. lia.
Qed.

(** What a successful rotation did. *)
Record rotation (hash_token : str -> str) (now : Z) (fresh : fresh_session) (hash : str) (csrf : option str)
  (d d' : auth_db) (r : rotated_session) (id : N) (s : session_row) (u : user_row) : Prop := {
  rt_row : sessions d !! id = Some s;
  rt_hash : se_hash s = hash;
  rt_user : users d !! se_user s = Some u;
  rt_enabled : us_enabled u = true;
  rt_live : se_revoked s = None;
  rt_csrf : csrf = None \/ csrf = se_csrf s;
  rt_new : sessions d !! fs_id fresh = None;
  rt_insert : insert_row (fs_id fresh) (new_session (se_user s) (hash_token (fs_refresh fresh)) (Some (hash_token (fs_csrf fresh)))
                (now + days REFRESH_TTL_DAYS) (se_family s)) (sessions d) =
              Ok (<[fs_id fresh := new_session (se_user s) (hash_token (fs_refresh fresh)) (Some (hash_token (fs_csrf fresh)))
                (now + days REFRESH_TTL_DAYS) (se_family s)]> (sessions d));
  rt_state : d' = with_sessions (rotated_rows now (sessions d) id (fs_id fresh)
               (new_session (se_user s) (hash_token (fs_refresh fresh)) (Some (hash_token (fs_csrf fresh)))
                  (now + days REFRESH_TTL_DAYS) (se_family s))) d;
  rt_result : r = {| ro_user := se_user s; ro_role := us_role u; ro_token_version := us_token_version u;
                     ro_session := fs_id fresh; ro_refresh_token := fs_refresh fresh; ro_csrf_token := fs_csrf fresh |} }.

Lemma rotate_Ok hash_token now fresh hash csrf d d' r :
  rotate_session_with_csrf hash_token now fresh hash csrf d = (Ok r, d') ->
  exists id s u, rotation hash_token now fresh hash csrf d d' r id s u.
Proof.
  unfold rotate_session_with_csrf. destruct (session_by_hash hash d) as [[id s]|] eqn:Es; [|done]. cbn.
  destruct (users d !! se_user s) as [u|] eqn:Eu; [|done]. cbn. apply session_by_hash_Some in Es as [Hs Hh].
  destruct (match csrf with Some h => _ | None => _ end) eqn:Ec; [done|]. destruct (is_some (se_replaced_by s)); [done|].
  destruct (negb (us_enabled u) || is_some (se_revoked s) || _) eqn:Ev; [done|].
  apply orb_false_iff in Ev as [[E1%negb_false_iff E2]%orb_false_iff _].
  unfold insert_session. cbn [new_session se_user]. rewrite Eu. cbn [ok_or rbind].
  destruct (insert_row _ _ _) as [t|e] eqn:Ei; cbn [rbind]; [|done]. intros [= <- <-].
  pose proof Ei as Ei'. apply insert_row_Ok in Ei as (Hn & -> & _). exists id, s, u. split; try done.
  - by destruct (se_revoked s).
  - destruct csrf as [h|]; [right|by left]. apply negb_false_iff, bool_decide_eq_true in Ec. done.
Qed.

Lemma good_rotate hash_token now fresh hash csrf d : good d (rotate_session_with_csrf hash_token now fresh hash csrf d).2.
Proof.
  destruct (rotate_session_with_csrf hash_token now fresh hash csrf d) as [[r|e] d'] eqn:E.
  - apply rotate_Ok in E as (id & s & u & R). cbn. rewrite (rt_state _ _ _ _ _ _ _ _ _ _ _ R).
    apply good_sessions.
    + intros F. pose proof (insert_row_valid _ _ _ _ (fa_valid _ F) (rt_insert _ _ _ _ _ _ _ _ _ _ _ R)) as V.
      split; [apply (rotated_families now _ id (fs_id fresh) s)|apply (rotated_later now _ id (fs_id fresh) s)]; try done; apply R.
    + intros k x x' Hx Hx'. apply (rotated_row now _ id (fs_id fresh) s) in Hx'; try done; try apply R.
      pose proof (rt_row _ _ _ _ _ _ _ _ _ _ _ R). pose proof (rt_new _ _ _ _ _ _ _ _ _ _ _ R).
      destruct Hx' as [[-> ->]|[[-> ->]|(_ & _ & ?)]]; by simplify_eq.
    + intros W. apply families_owner; [done|]. intros k x' Hx. apply (rotated_origin now _ id (fs_id fresh) s) in Hx; try done; try apply R.
      destruct Hx as (j & x & Hj & _ & Ej & _). by exists j, x.
  - revert E. unfold rotate_session_with_csrf. destruct (session_by_hash hash d) as [[id s]|] eqn:Es; [|by intros [= _ <-]]. cbn.
    apply session_by_hash_Some in Es as [Hs _]. destruct (users d !! se_user s) as [u|]; [|by intros [= _ <-]]. cbn.
    destruct (match csrf with Some h => _ | None => _ end); [by intros [= _ <-]|].
    destruct (is_some (se_replaced_by s)); [intros [= _ <-]; by eapply good_revoke_session_family|].
    destruct (_ || _); [by intros [= _ <-]|]. destruct (insert_session _ _ _); [done|by intros [= _ <-]].
Qed.

(** ** Every handler *)

Section events.
Context (hash_token : str -> str) (hash_password : str -> option str) `{Jwt}.

Inductive auth_event (d : auth_db) : auth_db -> Prop :=
| ev_login now sso central policy linked verify name fresh secret :
    auth_event d (auth_login hash_token now sso central policy linked verify name fresh secret d).2
| ev_link now policy c id name : auth_event d (link_central_user now policy c id name d).2
| ev_refresh now sso headers body fresh secret : auth_event d (auth_refresh hash_token now sso headers body fresh secret d).2
| ev_logout now headers body : auth_event d (auth_logout hash_token now headers body d).2
| ev_bearer now policy sso secret token : auth_event d (local_identity_for_bearer_token hash_token now policy sso secret token d).2
| ev_create_user sso id input : auth_event d (create_user hash_password sso id input d).2
| ev_update_user sso id input : auth_event d (update_user hash_password sso id input d).2
| ev_create_token sso now enabled requester id random input :
    auth_event d (create_token hash_token sso now enabled requester id random input d).2
| ev_delete_token sso now id : auth_event d (delete_token sso now id d).2
| ev_create_service claims id name : auth_event d (create_service_account claims id name d).2
| ev_update_service claims id enabled : auth_event d (update_service_account claims id enabled d).2
| ev_issue now enabled claims account id random input :
    auth_event d (issue_service_account_token hash_token now enabled claims account id random input d).2.

(** Any number of requests, one after the other. *)
Definition auth_history : auth_db -> auth_db -> Prop := rtc auth_event.

Lemma good_add_central c id name d : good d (add_central_user c id name d).2.
Proof.
  unfold add_central_user. destruct (insert_row _ _ _) as [t|] eqn:E; [|done]. destruct (user_by_subject _ _) as [[k u]|]; [|done].
  destruct (_ || _); [done|]. by eapply good_insert_user.
Qed.

Lemma good_link now policy c id name d : good d (link_central_user now policy c id name d).2.
Proof.
  unfold link_central_user. destruct (admissible c); [|done]. destruct (user_by_subject _ _); [done|].
  pose proof (good_add_central c id name d). by destruct (add_central_user c id name d).
Qed.

Lemma good_open_session now fresh user role version secret d :
  good d (open_session hash_token now fresh user role version secret d).2.
Proof.
  unfold open_session. pose proof (good_create_session now (fs_id fresh) user (hash_token (fs_refresh fresh)) (Some (hash_token (fs_csrf fresh))) d).
  by destruct (create_session_with_csrf _ _ _ _ _ _).
Qed.

Lemma good_login now sso central policy linked verify name fresh secret d :
  good d (auth_login hash_token now sso central policy linked verify name fresh secret d).2.
Proof.
  unfold auth_login. destruct sso; [done|]. cbv zeta.
  assert (Hl : good d (match first_row (fun u => str_eqb (us_username u) (trim name)) (users d) with
      | None => (Err Unauthorized, d)
      | Some (id, u) => match credentials d !! id with
        | None => (Err Unauthorized, d)
        | Some hash => if negb (us_enabled u) || negb (verify hash) then (Err Unauthorized, d)
                       else open_session hash_token now fresh id (us_role u) (us_token_version u) secret d end end).2).
  { destruct (first_row _ _) as [[id u]|]; [|done]. destruct (credentials d !! id); [|done].
    destruct (_ || _); [done|]. apply good_open_session. }
  destruct central as [[[c|]|e]|]; [|exact Hl|done|exact Hl].
  pose proof (good_link now policy c linked.1 linked.2 d) as Hk.
  destruct (link_central_user now policy c linked.1 linked.2 d) as [[claims|e] d']; [|exact Hk]. etrans; [exact Hk|apply good_open_session].
Qed.

Lemma good_update_token (f : token_row -> token_row) (p : N -> token_row -> bool) d :
  (forall x, token_later x (f x)) -> good d (with_tokens (update_where p f (api_tokens d)) d).
Proof.
  intros Hf. apply good_tokens.
  - apply update_where_valid; [done|]. intros x y. cbn. by rewrite (tl_hash _ _ (Hf x)).
  - intros k x Hx. rewrite lookup_update_where, Hx. cbn. destruct (p k x); eexists; by split.
Qed.

Lemma good_bearer now policy sso secret token d :
  good d (local_identity_for_bearer_token hash_token now policy sso secret token d).2.
Proof.
  unfold local_identity_for_bearer_token. destruct policy as [required|]; [|done]. destruct (required && _); [done|].
  destruct (_ || _); [|by destruct sso].
  destruct ((if starts_with SAT_PREFIX token then _ else _) now token d) as [[id claims]|]; [|done]. cbn.
  apply good_update_token. done.
Qed.

Lemma good_create_user sso id input d : good d (create_user hash_password sso id input d).2.
Proof.
  unfold create_user. destruct sso; [done|]. destruct (negb _); [done|]. destruct (insert_row _ _ _) as [t|] eqn:E; [|done]. cbv zeta.
  assert (H1 : good d (with_users t d)) by (by eapply good_insert_user).
  destruct (given_password input); [|exact H1]. destruct (hash_password _); [|exact H1].
  destruct (credentials _ !! id); [exact H1|]. etrans; [exact H1|apply good_credentials].
Qed.

Lemma good_set_user_row id input d :
  good d (match users d !! id with
          | None => (Err Missing, d)
          | Some u => match put id (set_user input u) (users d) with
                      | Err e => (Err (Failure e), d)
                      | Ok t => (Ok (set_user input u), with_users t d) end end).2.
Proof.
  destruct (users d !! id) as [u|] eqn:Eu; [|by cbn]. destruct (put _ _ _) as [t|] eqn:E; [|done]. by apply (good_set_user id u (set_user input u)).
Qed.

Lemma good_update_user sso id input d : good d (update_user hash_password sso id input d).2.
Proof.
  unfold update_user. destruct sso; [done|]. destruct (negb _); [done|]. cbv zeta.
  destruct (given_password input) as [p|]; [|apply good_set_user_row].
  destruct (hash_password p) as [h|]; [|done]. destruct (users d !! id) eqn:E; [|done]. cbn [ok_or rbind].
  etrans; [apply (good_credentials (<[id := h]> (credentials d)))|apply good_set_user_row].
Qed.

Lemma good_insert_token id t d d' : insert_token id t d = Ok d' -> good d d'.
Proof.
  unfold insert_token. destruct (_ || _); [done|]. destruct (insert_row _ _ _) as [rows|] eqn:E; [|done]. intros [= <-].
  apply good_tokens; [intros V; by eapply insert_row_valid|]. intros k x Hx. exists x. split; [|done].
  apply insert_row_Ok in E as (Hn & -> & _). rewrite lookup_insert_ne; [done|congruence].
Qed.

Lemma good_create_token sso now enabled requester id random input d :
  good d (create_token hash_token sso now enabled requester id random input d).2.
Proof.
  unfold create_token. cbv zeta. destruct (rbind _ _) as [d'|e] eqn:E; [|done]. cbn.
  repeat (apply rbind_Ok_inv in E as (? & _ & E)). by eapply good_insert_token.
Qed.

Lemma good_issue now enabled claims account id random input d :
  good d (issue_service_account_token hash_token now enabled claims account id random input d).2.
Proof.
  unfold issue_service_account_token. cbv zeta. destruct (rbind _ _) as [d'|e] eqn:E; [|done]. cbn.
  repeat (apply rbind_Ok_inv in E as (? & _ & E)). by eapply good_insert_token.
Qed.

Lemma good_delete_token sso now id d : good d (delete_token sso now id d).2.
Proof.
  unfold delete_token. destruct sso; [done|]. destruct (api_tokens d !! id) as [t|] eqn:Et; [|done].
  destruct (is_some (tk_revoked t)); [done|]. apply good_tokens.
  - intros V. eapply put_valid; [exact V|]. apply put_Ok. split; [done|]. split; [done|]. intros i w Hi Hw.
    exact (vt_unique _ V id i t w (not_eq_sym Hi) Et Hw).
  - intros k x Hx. destruct (decide (k = id)) as [->|Hk]; [|exists x; by rewrite lookup_insert_ne].
    eexists. rewrite lookup_insert_eq. simplify_eq. split; [done|]. by split.
Qed.

Lemma auth_event_good d d' : auth_event d d' -> good d d'.
Proof.
  destruct 1.
  - apply good_login.
  - apply good_link.
  - unfold auth_refresh. destruct sso; [done|]. destruct (refresh_credential headers body) as [c|]; [|done].
    pose proof (good_rotate hash_token now fresh (hash_token (rc_refresh_token c)) (hash_token <$> rc_csrf_token c) d).
    by destruct (rotate_session_with_csrf _ _ _ _ _ _).
  - unfold auth_logout. destruct (logout_credential headers body) as [[c|]|]; [|done|done].
    pose proof (good_revoke_session now (hash_token (rc_refresh_token c)) d). by destruct (revoke_session _ _ _).
  - apply good_bearer.
  - apply good_create_user.
  - apply good_update_user.
  - apply good_create_token.
  - apply good_delete_token.
  - unfold create_service_account. cbv zeta. destruct (rbind _ _) as [d'|e] eqn:E; [|done]. apply rbind_Ok_inv in E as (? & _ & E).
    destruct (_ || _); [done|]. destruct (_ || _); [done|]. injection E as <-. apply good_services.
  - unfold update_service_account. cbv zeta. destruct (rbind _ _) as [d'|e] eqn:E; [|done].
    apply rbind_Ok_inv in E as (? & _ & (a & _ & [= <-])%rbind_Ok_inv). apply good_services.
  - apply good_issue.
Qed.

Lemma auth_history_good d d' : auth_history d d' -> good d d'.
Proof. induction 1 as [|d d' d'' E _ IH]; [done|]. etrans; [by apply auth_event_good|done]. Qed.
End events.
