(* ===== verification/SessionsTheorems.v ===== *)
(** * Sessions and tokens: theorems

    A refresh token works once and its reuse ends the family for good; a
    revoked credential never comes back; a browser that logs in can refresh. *)
From Stdlib Require Import ZifyBool.
From S2P Require Import Prelude Authz Table Sessions SessionsSafety.

(** ** Cookies

    What a browser does with them: it keeps the part of a [Set-Cookie] before
    the attributes, sends the kept parts back in one header, and the page copies
    the CSRF cookie to the header of a request. *)
Definition kept_cookie (set_cookie : str) : str :=
  match split_once §";" set_cookie with Some (kept, _) => kept | None => set_cookie end.

Definition browser_headers (set_cookies : list str) (csrf : str) : request_headers :=
  {| rh_cookies := [Some (join §"; " (map kept_cookie set_cookies))]; rh_csrf := Some (Some csrf) |}.

(** The shape of the tokens: hexadecimal digits. *)
Definition token_shaped (t : str) : Prop := t <> [] /\ forall c, c ∈ t -> is_lower_hex c = true.

Lemma hex_facts c : is_lower_hex c = true -> is_whitespace c = false /\ c <> 59%N /\ c <> 61%N.
Proof. unfold is_lower_hex, is_ascii_digit, is_whitespace, between. lia. Qed.

Lemma kept_format name value path http_only age secure :
  59%N ∉ name -> 59%N ∉ value -> kept_cookie (format_auth_cookie name value path http_only age secure) = name ++ §"=" ++ value.
Proof.
  intros Hn Hv. unfold kept_cookie, format_auth_cookie. change (§"; Path=") with (59%N :: §" Path=").
  rewrite !(app_assoc name), !(app_assoc (name ++ _) value), <- app_comm_cons. change (§";") with [59%N].
  rewrite split_once_char; [by rewrite <- app_assoc|]. change (§"=") with [61%N]. rewrite !not_elem_of_app, list_elem_of_singleton. done.
Qed.

Lemma cookie_part_space name s : cookie_part name (32%N :: s) = cookie_part name s.
Proof. done. Qed.

Definition plain_name (name : str) : Prop := forall c, c ∈ name -> is_whitespace c = false /\ c <> 59%N /\ c <> 61%N.

Lemma plain_no_semicolon name : plain_name name -> 59%N ∉ name.
Proof. intros H Hin. by destruct (H _ Hin) as (_ & ? & _). Qed.

Lemma cookie_part_pair name name' value :
  plain_name name' -> token_shaped value ->
  cookie_part name (name' ++ §"=" ++ value) = if str_eqb name' name then Some value else None.
Proof.
  intros Hn [Hv Hx]. unfold cookie_part. rewrite trim_no_space.
  - change (§"=") with [61%N]. cbn [app]. rewrite split_once_char.
    + destruct value; [done|]. cbn. by rewrite andb_true_r.
    + intros [_ [_ ?]]%Hn. done.
  - intros c. rewrite !elem_of_app. intros [[? _]%Hn|[->%list_elem_of_singleton|[? _]%Hx%hex_facts]]; done.
Qed.

Lemma plain_cookie_names : plain_name AUTH_REFRESH_COOKIE /\ plain_name AUTH_CSRF_COOKIE.
Proof. split; intros c H; repeat (apply elem_of_cons in H as [->|H]; [by vm_compute; split_and!|]); by apply elem_of_nil in H. Qed.

Lemma shaped_no_semicolon t : token_shaped t -> 59%N ∉ t.
Proof. intros [_ H] ?%H%hex_facts. lia. Qed.

Lemma split_cookies r c :
  token_shaped r -> token_shaped c ->
  split 59 (join §"; " [AUTH_REFRESH_COOKIE ++ §"=" ++ r; AUTH_CSRF_COOKIE ++ §"=" ++ c])
  = [AUTH_REFRESH_COOKIE ++ §"=" ++ r; 32%N :: AUTH_CSRF_COOKIE ++ §"=" ++ c].
Proof.
  intros Hr Hc. destruct plain_cookie_names as [N1 N2].
  assert (Hno : forall name t, plain_name name -> token_shaped t -> 59%N ∉ name ++ §"=" ++ t).
  { intros name t Hn Ht. rewrite !not_elem_of_app. split_and!; [by apply plain_no_semicolon| |by apply shaped_no_semicolon].
    change (§"=") with [61%N]. rewrite list_elem_of_singleton. lia. }
  cbn [join]. change (§"; ") with ([59%N; 32%N]). cbn [app]. rewrite split_app by by apply Hno.
  f_equal. apply split_no_char. apply not_elem_of_cons. split; [done|by apply Hno].
Qed.

Lemma browser_cookie secure r c :
  token_shaped r -> token_shaped c ->
  cookie_value (browser_headers (auth_cookies secure r c) c) AUTH_REFRESH_COOKIE = Some r /\
  cookie_value (browser_headers (auth_cookies secure r c) c) AUTH_CSRF_COOKIE = Some c.
Proof.
  intros Hr Hc. destruct plain_cookie_names as [N1 N2]. unfold cookie_value, browser_headers. cbn [rh_cookies auth_cookies map].
  rewrite !kept_format by first [by apply shaped_no_semicolon|by apply plain_no_semicolon].
  cbn [omap list_omap id map concat]. rewrite app_nil_r, split_cookies by done. cbn [omap list_omap].
  rewrite !cookie_part_space, !cookie_part_pair by done. by split; vm_compute.
Qed.

Lemma browser_credential secure r c :
  token_shaped r -> token_shaped c ->
  cookie_refresh_credential (browser_headers (auth_cookies secure r c) c) = Ok (Some {| rc_refresh_token := r; rc_csrf_token := Some c |}).
Proof.
  intros Hr Hc. destruct (browser_cookie secure r c Hr Hc) as [E1 E2]. unfold cookie_refresh_credential. rewrite E1, E2. cbn.
  rewrite trim_no_space by by intros x [? _]%Hc%hex_facts. destruct c as [|x c]; [by destruct Hc|]. cbn.
  by rewrite bool_decide_true.
Qed.

(** What the model relies on of the token library: it signs, it reads back what
    it signed until the token expires, and nothing else, and a signed token is
    not mistaken for a personal or service token. *)
Class JwtLaws `{Jwt} : Prop := {
  jwt_total : forall c k, is_Some (encode_jwt c k);
  jwt_reads : forall c k t now, encode_jwt c k = Some t -> (timestamp now <= exp c)%Z -> decode_jwt now t k = Ok c;
  jwt_sound : forall c k t now c', encode_jwt c k = Some t -> decode_jwt now t k = Ok c' -> c' = c;
  jwt_name : forall c k t, encode_jwt c k = Some t -> starts_with SAT_PREFIX t = false /\ starts_with PAT_PREFIX t = false }.

Section theorems.
Context (hash_token : str -> str) (hash_password : str -> option str) `{Jwt}.
Local Abbreviation history := (auth_history hash_token hash_password).
Local Abbreviation rotate := (rotate_session_with_csrf hash_token).

(** ** Dead families *)

Lemma session_by_hash_row d k s :
  families (sessions d) -> sessions d !! k = Some s -> session_by_hash (se_hash s) d = Some (k, s).
Proof.
  intros F Hk. apply first_row_unique; [|done|by apply bool_decide_eq_true].
  intros j w Hj E. destruct (decide (j = k)) as [|Hne]; [done|]. exfalso.
  pose proof (vt_unique _ (fa_valid _ F) j k w s Hne Hj Hk) as Hc. cbn in Hc. unfold str_eqb in *. congruence.
Qed.

Lemma revoked_unusable now s u : revoked s -> usable now s u = false.
Proof. unfold revoked, usable. by intros [t ->]. Qed.

(** A revoked session identifies nobody. *)
Lemma revoked_access now k s user v d :
  sessions d !! k = Some s -> revoked s -> access_session_user_with_version now k user v d = Err InvalidCredentials.
Proof.
  intros Hk Hr. unfold access_session_user_with_version. rewrite Hk. cbn. destruct (users d !! se_user s) as [u|]; [|done]. cbn.
  by rewrite revoked_unusable, andb_false_r.
Qed.

(** Nor can it be rotated. *)
Lemma revoked_rotate now fresh k s csrf d :
  families (sessions d) -> sessions d !! k = Some s -> revoked s ->
  (rotate now fresh (se_hash s) csrf d).1 = Err InvalidCredentials.
Proof.
  intros F Hk [t Ht]. unfold rotate_session_with_csrf. rewrite (session_by_hash_row d k s F Hk). cbn.
  destruct (users d !! se_user s) as [u|]; [|done]. cbn. destruct (match csrf with Some h => _ | None => _ end); [done|].
  destruct (is_some (se_replaced_by s)); [done|]. by rewrite Ht, orb_true_r.
Qed.

Record finished (f : N) (d : auth_db) : Prop := {
  fd_access : forall k s, sessions d !! k = Some s -> se_family s = f ->
    forall now user v, access_session_user_with_version now k user v d = Err InvalidCredentials;
  fd_refresh : forall k s, sessions d !! k = Some s -> se_family s = f ->
    forall now fresh csrf, (rotate now fresh (se_hash s) csrf d).1 = Err InvalidCredentials }.

Lemma dead_finished f d : families (sessions d) -> dead f (sessions d) -> finished f d.
Proof.
  intros F [_ Hd]. split; intros k s Hk Hf; intros.
  - apply (revoked_access now k s); [done|by apply (Hd k)].
  - apply (revoked_rotate now fresh k s); [done|done|by apply (Hd k)].
Qed.

(** A token older than the user's version is refused. *)
Lemma outdated_access now k user u v d :
  users d !! user = Some u -> (v < us_token_version u)%Z ->
  access_session_user_with_version now k user (Some v) d = Err InvalidCredentials.
Proof.
  intros Hu Hv. unfold access_session_user_with_version. destruct (sessions d !! k) as [s|]; [|done]. cbn.
  destruct (users d !! se_user s) as [w|] eqn:Ew; [|done]. cbn. destruct (N.eqb_spec (se_user s) user) as [E|]; [|done].
  assert (w = u) as -> by congruence. rewrite (proj2 (Z.eqb_neq (us_token_version u) v)) by lia. by rewrite andb_false_r.
Qed.

(** ** Reuse *)

(** The state a reuse leaves behind. *)
Lemma reuse_state now fresh id s csrf d :
  auth_wf d -> sessions d !! id = Some s -> is_Some (se_replaced_by s) -> (csrf = None \/ csrf = se_csrf s) ->
  rotate now fresh (se_hash s) csrf d = (Err InvalidCredentials, revoke_session_family now (se_family s) (se_user s) d).
Proof.
  intros W Hs [b Hb] Hc. unfold rotate_session_with_csrf. rewrite (session_by_hash_row d id s (aw_sessions d W) Hs). cbn.
  destruct (aw_owner d W id s Hs) as [u Hu]. rewrite Hu. cbn. rewrite Hb.
  assert (E : match csrf with Some h => negb (bool_decide (se_csrf s = Some h)) | None => false end = false).
  { destruct csrf as [h|]; [|done]. destruct Hc as [?|Hc]; [done|]. by rewrite <- Hc, bool_decide_true. }
  by rewrite E.
Qed.

Lemma family_revoked now f user d : is_Some (sessions d !! f) -> dead f (sessions (revoke_session_family now f user d)).
Proof.
  intros Hf. rewrite revoke_session_family_sessions. by apply revoke_family_dead.
Qed.

Lemma marked_by_reuse now id s d :
  sessions d !! id = Some s ->
  exists s', sessions (revoke_session_family now (se_family s) (se_user s) d) !! id = Some s' /\ is_Some (se_reuse s').
Proof.
  intros Hs. rewrite revoke_session_family_sessions. eexists. split; [apply revoke_family_row; by exists s|].
  rewrite N.eqb_refl. unfold unmarked. rewrite N.eqb_refl. cbn. destruct (se_reuse s) eqn:E; cbn; rewrite ?E; by eexists.
Qed.

(** C7. A refresh token rotates once.  Presenting
    it again, at any later time and whatever happened in between, is refused and
    ends its family for good: after any further requests no session of the
    family answers for an access token or rotates, and every access token issued
    to the user up to the first rotation is refused in every session. *)
Theorem refresh_reuse_kills_family now now' fresh fresh' hash csrf csrf' d d1 d2 d4 r s :
  auth_wf d -> rotate now fresh hash csrf d = (Ok r, d1) -> history d1 d2 -> (csrf' = None \/ csrf' = csrf) ->
  history (rotate now' fresh' hash csrf' d2).2 d4 -> sessions d1 !! ro_session r = Some s ->
  (rotate now' fresh' hash csrf' d2).1 = Err InvalidCredentials /\
  finished (se_family s) d4 /\
  (forall k v now, (v <= ro_token_version r)%Z -> access_session_user_with_version now k (ro_user r) (Some v) d4 = Err InvalidCredentials).
Proof.
  intros W E H12 Hc H34 Hs. destruct (good_rotate hash_token now fresh hash csrf d W) as [W1 L1]. rewrite E in W1, L1. cbn in W1, L1.
  destruct (rotate_Ok _ _ _ _ _ _ _ _ E) as (id & x & u & R).
  assert (Hx : sessions d1 !! id = Some (replace_row now (fs_id fresh) x)).
  { rewrite (rt_state _ _ _ _ _ _ _ _ _ _ _ R). apply (rotated_row now _ id (fs_id fresh) x); try apply R; by right; left. }
  assert (Hn : sessions d1 !! fs_id fresh = Some (new_session (se_user x) (hash_token (fs_refresh fresh))
                 (Some (hash_token (fs_csrf fresh))) (now + days REFRESH_TTL_DAYS) (se_family x))).
  { rewrite (rt_state _ _ _ _ _ _ _ _ _ _ _ R). apply (rotated_row now _ id (fs_id fresh) x); try apply R; by left. }
  rewrite (rt_result _ _ _ _ _ _ _ _ _ _ _ R) in *. cbn [ro_session ro_user ro_token_version] in *. simplify_eq. cbn [new_session se_family].
  destruct (auth_history_good _ _ _ _ H12 W1) as [W2 L2]. destruct (sl_rows _ _ (la_sessions _ _ L2) _ _ Hx) as (x2 & Hx2 & Lx).
  assert (Hh : se_hash x2 = se_hash x) by (by rewrite (rl_hash _ _ Lx)).
  assert (Hf : se_family x2 = se_family x) by (by rewrite (rl_family _ _ Lx)).
  assert (Eu : se_user x2 = se_user x) by (by rewrite (rl_user _ _ Lx)).
  assert (Er : rotate now' fresh' (se_hash x2) csrf' d2 = (Err InvalidCredentials, revoke_session_family now' (se_family x2) (se_user x2) d2)).
  { apply (reuse_state now' fresh' id x2); [done|done| |].
    - rewrite (rl_replaced _ _ Lx) by (by eexists). by eexists.
    - rewrite (rl_csrf _ _ Lx). cbn. destruct (rt_csrf _ _ _ _ _ _ _ _ _ _ _ R); intuition congruence. }
  rewrite <- (rt_hash _ _ _ _ _ _ _ _ _ _ _ R), <- Hh, Er in *. cbn [fst snd] in *. split; [done|].
  destruct (good_revoke_session_family now' id x2 d2 Hx2 W2) as [W3 L3]. destruct (auth_history_good _ _ _ _ H34 W3) as [W4 L4]. split.
  - apply dead_finished; [apply W4|]. rewrite <- Hf. apply (la_sessions _ _ L4), family_revoked.
    by apply (fa_root _ (aw_sessions d2 W2) id).
  - intros k v t Hv.
    assert (Hu1 : users d1 !! se_user x = Some u) by (rewrite (rt_state _ _ _ _ _ _ _ _ _ _ _ R); apply R).
    destruct (la_users _ _ (transitivity L2 L3) _ _ Hu1) as (u3 & Hu3 & _). destruct (la_users _ _ L4 _ _ Hu3) as (u4 & Hu4 & Hle).
    apply (outdated_access t k (se_user x) u4); [done|].
    destruct (marked_by_reuse now' id x2 d2 Hx2) as (x3 & Hx3 & Hm).
    enough (us_token_version u < us_token_version u3)%Z by lia.
    apply (la_marked _ _ (transitivity L2 L3) _ _ x3 _ _ Hx); try done. cbn.
    destruct (se_reuse x) eqn:Ex; [|done]. pose proof (rt_row _ _ _ _ _ _ _ _ _ _ _ R) as Hr.
    destruct (fa_marked _ (aw_sessions d W) id id x x Hr Hr eq_refl) as [[? ?] _]; [by rewrite Ex|].
    pose proof (rt_live _ _ _ _ _ _ _ _ _ _ _ R). congruence.
Qed.

(** ** From one login to the next refresh *)

Local Abbreviation identity := (local_identity_for_bearer_token hash_token).

Record opened (now : Z) (fresh : fresh_session) (user : N) (role : str) (version : Z) (secret : option str) (d : auth_db)
  (s : signed_in) (d' : auth_db) (k : str) (row : session_row) : Prop := {
  op_secret : secret = Some k;
  op_row : row = new_session user (hash_token (fs_refresh fresh)) (Some (hash_token (fs_csrf fresh))) (now + days REFRESH_TTL_DAYS) (fs_id fresh);
  op_sessions : insert_row (fs_id fresh) row (sessions d) = Ok (sessions d');
  op_users : users d' = users d;
  op_found : sessions d' !! fs_id fresh = Some row;
  op_refresh : si_refresh s = fs_refresh fresh;
  op_csrf : si_csrf s = fs_csrf fresh;
  op_pair : exists p, si_pair s = with_refresh (fs_refresh fresh) p /\
            issue_access_with_secret_version now user role (fs_id fresh) version k = Ok p }.

Lemma open_session_Ok now fresh user role version secret d s d' :
  open_session hash_token now fresh user role version secret d = (Ok s, d') ->
  exists k row, opened now fresh user role version secret d s d' k row.
Proof.
  unfold open_session, create_session_with_csrf, insert_session. cbn [new_session se_user].
  destruct (users d !! user) as [u|] eqn:Eu; [|done]. cbn [ok_or rbind].
  destruct (insert_row _ _ _) as [t|e] eqn:Ei; [|done]. cbn [rbind]. destruct secret as [k|]; [|done]. cbn [ok_or rbind].
  destruct (issue_access_with_secret_version _ _ _ _ _ _) as [p|] eqn:Ep; [|done]. intros [= <- <-].
  exists k. eexists. split; try done; cbn; [|by exists p].
  apply insert_row_Ok in Ei as (_ & -> & _). apply lookup_insert_eq.
Qed.

(** What an access token of the server says to it. *)
Lemma issued_identity `{!JwtLaws} now now' user role session version secret p d s u :
  issue_access_with_secret_version now user role session version secret = Ok p ->
  (timestamp now' <= tp_expires_at p)%Z ->
  sessions d !! session = Some s -> se_user s = user -> users d !! user = Some u -> usable now' s u = true ->
  us_token_version u = version ->
  exists c, (identity now' (Ok false) false secret (tp_access p) d).1 = Ok c /\ sub c = user /\ sid c = Some session /\
    claims_role c = us_role u /\ token_scopes c = [].
Proof.
  unfold issue_access_with_secret_version. intros (token & Ht%ok_or_Ok & [= <-])%rbind_Ok_inv. cbn. intros Hexp Hs Hus Hu Huse Hv.
  destruct (jwt_name _ _ _ Ht) as [E1 E2]. unfold local_identity_for_bearer_token. cbn [andb]. rewrite E1, E2. cbn [orb fst].
  unfold session_identity. erewrite jwt_reads by (first [exact Ht|exact Hexp]). cbn.
  unfold access_session_user_with_version. rewrite Hs. cbn. rewrite Hus, Hu. cbn. rewrite N.eqb_refl, Huse, Hv, Z.eqb_refl. cbn.
  eexists. split; [done|]. by cbn.
Qed.

Lemma issued_refused `{!JwtLaws} now now' user role session version secret p d :
  issue_access_with_secret_version now user role session version secret = Ok p ->
  access_session_user_with_version now' session user (Some version) d = Err InvalidCredentials ->
  (identity now' (Ok false) false secret (tp_access p) d).1 = Err Unauthorized.
Proof.
  unfold issue_access_with_secret_version. intros (token & Ht%ok_or_Ok & [= <-])%rbind_Ok_inv. cbn. intros Hr.
  destruct (jwt_name _ _ _ Ht) as [E1 E2]. unfold local_identity_for_bearer_token. cbn [andb]. rewrite E1, E2. cbn [orb fst].
  unfold session_identity. destruct (decode_jwt now' token secret) as [c|] eqn:Ed; [|done]. rewrite (jwt_sound _ _ _ _ _ Ht Ed). cbn.
  by rewrite Hr.
Qed.

(** What a rotation of a live session does, with fresh values. *)
Lemma rotate_live now fresh id row u csrf d :
  auth_wf d -> sessions d !! id = Some row -> users d !! se_user row = Some u -> us_enabled u = true ->
  se_revoked row = None -> (now < se_expires row)%Z -> (csrf = None \/ csrf = se_csrf row) ->
  sessions d !! fs_id fresh = None -> (forall k x, sessions d !! k = Some x -> se_hash x <> hash_token (fs_refresh fresh)) ->
  exists r d', rotate now fresh (se_hash row) csrf d = (Ok r, d').
Proof.
  intros W Hrow Hu He Hr Hx Hc Hn Hh. unfold rotate_session_with_csrf. rewrite (session_by_hash_row d id row (aw_sessions d W) Hrow). cbn.
  rewrite Hu. cbn.
  assert (Ec : match csrf with Some h => negb (bool_decide (se_csrf row = Some h)) | None => false end = false).
  { destruct csrf as [h|]; [|done]. destruct Hc as [?|Hc]; [done|]. by rewrite <- Hc, bool_decide_true. }
  assert (Ep : is_some (se_replaced_by row) = false).
  { destruct (se_replaced_by row) eqn:E; [|done]. destruct (fa_replaced _ (aw_sessions d W) id row Hrow) as [? ?]; [by rewrite E|congruence]. }
  rewrite Ec, Ep, He, Hr. cbn [negb is_some is_none orb]. rewrite (proj2 (Z.leb_gt _ _)) by lia.
  unfold insert_session. cbn [new_session se_user]. rewrite Hu. cbn [ok_or rbind].
  erewrite (proj2 (insert_row_Ok _ _ (sessions d) (<[fs_id fresh := _]> (sessions d)))); [by eexists _, _|]. split_and!; [done|done|done|].
  intros i w Hw. cbn. apply bool_decide_eq_false. intros E. by apply (Hh i w Hw).
Qed.

(** A login by password. *)
Lemma password_login now central policy linked verify name fresh secret s d d1 :
  central = None \/ central = Some (Ok None) ->
  auth_login hash_token now false central policy linked verify name fresh secret d = (Ok s, d1) ->
  exists user u hash, users d !! user = Some u /\ us_username u = trim name /\ us_enabled u = true /\
    credentials d !! user = Some hash /\ verify hash = true /\
    open_session hash_token now fresh user (us_role u) (us_token_version u) secret d = (Ok s, d1).
Proof.
  intros Hc E.
  assert (E' : match first_row (fun u => str_eqb (us_username u) (trim name)) (users d) with
      | None => (Err Unauthorized, d)
      | Some (id, u) => match credentials d !! id with
        | None => (Err Unauthorized, d)
        | Some hash => if negb (us_enabled u) || negb (verify hash) then (Err Unauthorized, d)
                       else open_session hash_token now fresh id (us_role u) (us_token_version u) secret d end end = (Ok s, d1))
    by (destruct Hc as [-> | ->]; exact E).
  clear E. destruct (first_row _ _) as [[user u]|] eqn:Eu; [|done]. destruct (credentials d !! user) as [hash|] eqn:Ec; [|done].
  destruct (negb (us_enabled u) || negb (verify hash)) eqn:Ev; [done|]. apply orb_false_iff in Ev as [E1%negb_false_iff E2%negb_false_iff].
  apply first_row_Some in Eu as [Hu En]. exists user, u, hash. split_and!; try done. by apply bool_decide_eq_true in En.
Qed.

(** The access token of a fresh session works as long as it lasts. *)
Lemma fresh_identity `{!JwtLaws} now t user u session row key p d :
  issue_access_with_secret_version now user (us_role u) session (us_token_version u) key = Ok p ->
  sessions d !! session = Some row -> se_user row = user -> se_revoked row = None -> se_expires row = (now + days REFRESH_TTL_DAYS)%Z ->
  users d !! user = Some u -> us_enabled u = true ->
  (timestamp t <= timestamp (now + ACCESS_TTL_MINUTES * 60 * 1000000000))%Z ->
  exists c, (identity t (Ok false) false key (tp_access p) d).1 = Ok c /\ sub c = user /\ claims_role c = us_role u.
Proof.
  intros Hp Hrow Hus Hr Hx Hu He Ht.
  assert (Hexp : tp_expires_at p = timestamp (now + ACCESS_TTL_MINUTES * 60 * 1000000000)).
  { unfold issue_access_with_secret_version in Hp. by apply rbind_Ok_inv in Hp as (? & _ & [= <-]). }
  destruct (issued_identity now t user (us_role u) session (us_token_version u) key p d row u Hp) as (c & E & H1 & _ & H2 & _); try done.
  - by rewrite Hexp.
  - unfold usable. rewrite Hr, He, Hx, andb_true_r. cbn. apply Z.ltb_lt.
    unfold timestamp, ACCESS_TTL_MINUTES, REFRESH_TTL_DAYS, days in *. Z.div_mod_to_equations. lia.
  - by exists c.
Qed.

(** The answer to the refresh, and what it leaves of the old access token. *)
Lemma refreshed `{!JwtLaws} now now' fresh fresh' user u key d d1 d2 s row r secure :
  auth_wf d1 -> opened now fresh user (us_role u) (us_token_version u) (Some key) d s d1 key row ->
  users d1 !! user = Some u -> us_enabled u = true -> token_shaped (fs_refresh fresh) -> token_shaped (fs_csrf fresh) ->
  rotate now' fresh' (se_hash row) (Some (hash_token (fs_csrf fresh))) d1 = (Ok r, d2) ->
  exists s' d2, auth_refresh hash_token now' false (browser_headers (auth_cookies secure (fs_refresh fresh) (fs_csrf fresh)) (fs_csrf fresh)) [] fresh'
                  (Some key) d1 = (Ok s', d2) /\
    (forall t, (identity t (Ok false) false key (tp_access (si_pair s)) d2).1 = Err Unauthorized) /\
    (forall t, (timestamp t <= timestamp (now' + ACCESS_TTL_MINUTES * 60 * 1000000000))%Z ->
       exists c, (identity t (Ok false) false key (tp_access (si_pair s')) d2).1 = Ok c /\ sub c = user /\ claims_role c = us_role u).
Proof.
  intros W O Hu He Hr1 Hr2 E. pose proof (op_row _ _ _ _ _ _ _ _ _ _ _ O) as Erow. pose proof (op_found _ _ _ _ _ _ _ _ _ _ _ O) as Hf.
  destruct (op_pair _ _ _ _ _ _ _ _ _ _ _ O) as (p & Ep & Hp). rewrite Ep. cbn [with_refresh tp_access].
  destruct (rotate_Ok _ _ _ _ _ _ _ _ E) as (id & x & w & R). pose proof (rt_state _ _ _ _ _ _ _ _ _ _ _ R) as Ed.
  unfold auth_refresh, refresh_credential. change (is_empty (trim [])) with true. cbn [negb].
  rewrite browser_credential by done. cbn [rbind ok_or rc_refresh_token rc_csrf_token fmap option_fmap option_map].
  rewrite Erow in E. cbn [new_session se_hash] in E. rewrite E. cbn [ok_or rbind].
  assert (id = fs_id fresh) as ->.
  { pose proof (session_by_hash_row d1 id x (aw_sessions d1 W) (rt_row _ _ _ _ _ _ _ _ _ _ _ R)) as E1.
    pose proof (session_by_hash_row d1 _ row (aw_sessions d1 W) Hf) as E2. rewrite (rt_hash _ _ _ _ _ _ _ _ _ _ _ R) in E1. congruence. }
  assert (x = row) as -> by (pose proof (rt_row _ _ _ _ _ _ _ _ _ _ _ R); congruence).
  assert (Hus : se_user row = user) by (by rewrite Erow).
  assert (w = u) as -> by (pose proof (rt_user _ _ _ _ _ _ _ _ _ _ _ R); congruence).
  rewrite (rt_result _ _ _ _ _ _ _ _ _ _ _ R). cbn [ro_user ro_role ro_session ro_token_version ro_refresh_token ro_csrf_token]. rewrite Hus in *.
  destruct (issue_access_with_secret_version now' user (us_role u) (fs_id fresh') (us_token_version u) key) as [q|e] eqn:Eq.
  2:{ exfalso. revert Eq. unfold issue_access_with_secret_version.
      match goal with |- context [encode_jwt ?c ?k] => destruct (jwt_total c k) as [? ->] end. done. }
  eexists _, d2. split; [done|]. assert (Hrow : forall k y, sessions d2 !! k = Some y <-> _) by
    (intros k y; rewrite Ed; apply (rotated_row now' _ (fs_id fresh) (fs_id fresh') row); try apply R).
  split.
  - intros t. apply (issued_refused now t user (us_role u) (fs_id fresh) (us_token_version u)); [done|].
    apply (revoked_access t _ (replace_row now' (fs_id fresh') row)); [|by eexists]. apply Hrow. by right; left.
  - intros t Ht. cbn [si_pair with_refresh tp_access].
    apply (fresh_identity now' t user u (fs_id fresh') (new_session user (hash_token (fs_refresh fresh'))
      (Some (hash_token (fs_csrf fresh'))) (now' + days REFRESH_TTL_DAYS) (se_family row)) key q d2); try done.
    + apply Hrow. by left.
    + by rewrite Ed.
Qed.


(** A login through the central server gives its
    access token version 0, whatever the version of the user: once a reuse has
    raised the version, every such token is refused from the start. *)
Theorem central_login_outdated `{!JwtLaws} now policy c linked verify name fresh key s d d1 id u :
  auth_login hash_token now false (Some (Ok (Some c))) policy linked verify name fresh (Some key) d = (Ok s, d1) ->
  user_by_subject (cu_subject c) d = Some (id, u) -> us_token_version u <> 0%Z ->
  forall t, (identity t (Ok false) false key (tp_access (si_pair s)) d1).1 = Err Unauthorized.
Proof.
  intros E Hu Hv t. unfold auth_login in E. destruct (link_central_user now policy c linked.1 linked.2 d) as [[claims|e] d'] eqn:El; [|done].
  assert (Hl : d' = d /\ sub claims = id /\ ver claims = 0%Z).
  { revert El. unfold link_central_user. destruct (admissible c); [|done]. rewrite Hu. cbn [rbind fst snd]. intros [= Er <-]. split; [done|].
    apply rbind_Ok_inv in Er as (? & _ & (? & _ & (? & _ & (? & _ & [= <-])%rbind_Ok_inv)%rbind_Ok_inv)%rbind_Ok_inv). done. }
  destruct Hl as (-> & <- & Hz). destruct (open_session_Ok _ _ _ _ _ _ _ _ _ E) as (k & row & O).
  pose proof (op_secret _ _ _ _ _ _ _ _ _ _ _ O) as [= <-]. destruct (op_pair _ _ _ _ _ _ _ _ _ _ _ O) as (p & -> & Hp).
  apply (issued_refused now t _ _ _ _ _ p d1 Hp). unfold access_session_user_with_version.
  rewrite (op_found _ _ _ _ _ _ _ _ _ _ _ O), (op_row _ _ _ _ _ _ _ _ _ _ _ O). cbn. rewrite (op_users _ _ _ _ _ _ _ _ _ _ _ O).
  apply first_row_Some in Hu as [-> _]. cbn. rewrite Hz, (proj2 (Z.eqb_neq _ _)) by done. by rewrite !andb_false_r.
Qed.

(** ** Personal tokens *)

Lemma token_by_hash_row d k t :
  valid_table (api_tokens d) -> api_tokens d !! k = Some t -> token_by_hash (tk_hash t) d = Some (k, t).
Proof.
  intros V Hk. apply first_row_unique; [|done|by apply bool_decide_eq_true].
  intros j w Hj E. destruct (decide (j = k)) as [|Hne]; [done|]. exfalso.
  pose proof (vt_unique _ V j k w t Hne Hj Hk) as Hc. cbn in Hc. unfold str_eqb in *. congruence.
Qed.

Lemma pat_prefix random : starts_with SAT_PREFIX (PAT_PREFIX ++ random) = false /\ starts_with PAT_PREFIX (PAT_PREFIX ++ random) = true.
Proof. done. Qed.

(** What a personal token stands for. *)
Lemma personal_token_identity now sso secret random id t d :
  valid_table (api_tokens d) -> api_tokens d !! id = Some t -> tk_hash t = hash_token (PAT_PREFIX ++ random) ->
  (identity now (Ok false) sso secret (PAT_PREFIX ++ random) d).1 =
  ok_or (owner ← tk_user t; u ← users d !! owner;
         if us_enabled u && token_live now t then Some (token_claims now owner None (us_role u) id t) else None) Unauthorized.
Proof.
  intros V Ht Hh. destruct (pat_prefix random) as [E1 E2]. unfold local_identity_for_bearer_token. cbn [andb]. rewrite E1, E2. cbn [orb].
  unfold personal_identity. rewrite <- Hh, (token_by_hash_row d id t V Ht). cbn. destruct (tk_user t) as [owner|]; [|done]. cbn.
  destruct (users d !! owner) as [u|]; [|done]. cbn. by destruct (_ && _).
Qed.

Lemma normalize_step_spec normalized scope out :
  normalize_step normalized scope = Ok out ->
  (forall s, s ∈ normalized -> s ∈ DEFAULT_TOKEN_SCOPES) -> NoDup normalized ->
  (forall s, s ∈ out -> s ∈ DEFAULT_TOKEN_SCOPES) /\ NoDup out /\ (forall s, s ∈ out <-> s ∈ normalized \/ (s = trim scope /\ s <> [])).
Proof.
  unfold normalize_step. intros E Hd Hn. destruct (is_empty (trim scope)) eqn:Ee.
  { injection E as <-. split_and!; [done|done|]. intros s. destruct (trim scope) eqn:Et; [|done]. split; [by left|]. intros [?|[-> ?]]; done. }
  assert (Hne : trim scope <> []) by (intros E0; by rewrite E0 in Ee).
  assert (Hex : forall l, existsb (fun s => str_eqb s (trim scope)) l = true <-> trim scope ∈ l).
  { intros l. rewrite existsb_exists. unfold str_eqb. setoid_rewrite bool_decide_eq_true. setoid_rewrite <- list_elem_of_In. naive_solver. }
  destruct (existsb _ DEFAULT_TOKEN_SCOPES) eqn:E1; [|done]. apply Hex in E1. cbn [negb] in E.
  destruct (existsb _ normalized) eqn:E2; injection E as <-.
  - apply Hex in E2. split_and!; [done|done|]. intros s. split; [by left|]. intros [?|[-> _]]; done.
  - assert (Hni : trim scope ∉ normalized) by (intros Hin; apply Hex in Hin; congruence). split_and!.
    + intros s [?| ->%list_elem_of_singleton]%elem_of_app; auto.
    + apply NoDup_app. split_and!; [done|by intros s Hs ->%list_elem_of_singleton|apply NoDup_singleton].
    + intros s. rewrite elem_of_app, list_elem_of_singleton. naive_solver.
Qed.

(** The scopes of a token are the known ones that were asked for, once each. *)
Lemma normalize_token_scopes_spec scopes out :
  normalize_token_scopes scopes = Ok out ->
  out <> [] /\ NoDup out /\ (forall s, s ∈ out -> s ∈ DEFAULT_TOKEN_SCOPES) /\ (forall s, s ∈ out <-> s <> [] /\ s ∈ map trim scopes).
Proof.
  unfold normalize_token_scopes. intros (l & El & E)%rbind_Ok_inv. destruct (is_empty l) eqn:Ee; [done|]. injection E as ->.
  assert (Hf : forall acc, rfold normalize_step acc scopes = Ok out -> (forall s, s ∈ acc -> s ∈ DEFAULT_TOKEN_SCOPES) -> NoDup acc ->
            (forall s, s ∈ out -> s ∈ DEFAULT_TOKEN_SCOPES) /\ NoDup out /\ (forall s, s ∈ out <-> s ∈ acc \/ (s <> [] /\ s ∈ map trim scopes))).
  { clear El Ee. induction scopes as [|x scopes IH]; cbn [rfold]; intros acc.
    - intros [= <-] Hd Hn. split_and!; [done|done|]. intros s. cbn. rewrite elem_of_nil. naive_solver.
    - intros (acc' & E1 & E2)%rbind_Ok_inv Hd Hn. destruct (normalize_step_spec _ _ _ E1 Hd Hn) as (Hd' & Hn' & Hi).
      destruct (IH acc' E2 Hd' Hn') as (H1 & H2 & H3). split_and!; [done|done|]. intros s. rewrite H3, Hi. cbn [map]. rewrite elem_of_cons. naive_solver. }
  destruct (Hf [] El) as (H1 & H2 & H3); [by intros s ?%elem_of_nil|by apply NoDup_nil|].
  split_and!; [by destruct out|done|done|]. intros s. rewrite H3, elem_of_nil. naive_solver.
Qed.

(** A personal token is created with the known
    scopes that were asked for, for an existing owner, and authenticates as
    exactly that: after any further requests and until it is revoked, expires or
    its owner is disabled it stands for its owner with the current role, its
    project and its scopes.  Once deleted it is refused for good. *)
Theorem personal_token_lifecycle now sso enabled requester id random input value d d1 d2 :
  auth_wf d -> create_token hash_token sso now enabled requester id random input d = (Ok value, d1) -> history d1 d2 ->
  let owner := match ct_user input with Some u => Some u | None => requester end in
  exists scopes expires, normalize_token_scopes (ct_scopes input) = Ok scopes /\ token_expires_at now (ct_days input) enabled = Ok expires /\
    (forall s, s ∈ scopes -> s ∈ DEFAULT_TOKEN_SCOPES /\ s ∈ map trim (ct_scopes input)) /\
    (forall t now' sso' secret, api_tokens d2 !! id = Some t -> tk_revoked t = None ->
       (identity now' (Ok false) sso' secret value d2).1 =
       match owner with
       | Some o =>
         ok_or (u ← users d2 !! o;
                if us_enabled u && match expires with Some e => (now' <? e)%Z | None => true end
                then Some (token_claims now' o None (us_role u) id (new_token (hash_token value) (Some o) None (ct_project input) scopes expires))
                else None) Unauthorized
       | None => Err Unauthorized
       end) /\
    (forall now' d3 d4, delete_token sso now' id d2 = (Ok id, d3) -> history d3 d4 ->
       forall t sso' secret, (identity t (Ok false) sso' secret value d4).1 = Err Unauthorized).
Proof.
  intros W E H12 owner. pose proof (good_create_token hash_token sso now enabled requester id random input d W) as [W1 L1].
  rewrite E in W1, L1. cbn in W1, L1. unfold create_token in E. cbv zeta in E. fold owner in E.
  destruct (rbind _ _) as [d1'|] eqn:Er in E; [|done]. set (v := PAT_PREFIX ++ random) in *. injection E as <- <-.
  apply rbind_Ok_inv in Er as (? & _ & (? & _ & (? & _ & (scopes & Es & (? & _ & (expires & Ee & Ei)%rbind_Ok_inv)%rbind_Ok_inv)%rbind_Ok_inv)%rbind_Ok_inv)%rbind_Ok_inv).
  exists scopes, expires. split; [done|]. split; [done|]. destruct (normalize_token_scopes_spec _ _ Es) as (_ & _ & Hd & Hi).
  split; [intros s Hs; split; [by apply Hd|by apply Hi]|].
  destruct (auth_history_good _ _ _ _ H12 W1) as [W2 L2].
  set (row := new_token (hash_token (PAT_PREFIX ++ random)) owner None (ct_project input) scopes expires) in *.
  assert (Hrow : api_tokens d1' !! id = Some row).
  { unfold insert_token in Ei. destruct (_ || _); [done|]. destruct (insert_row _ _ _) as [rows|] eqn:Ew; [|done].
    apply insert_row_Ok in Ew as (_ & -> & _). injection Ei as <-. apply lookup_insert_eq. }
  split.
  - intros t now' sso' secret Ht Hr. destruct (la_tokens _ _ L2 id row Hrow) as (t' & Ht' & Lt). simplify_eq.
    unfold v. rewrite (personal_token_identity now' sso' secret random id t d2); [|apply W2|done|by rewrite (tl_hash _ _ Lt)].
    rewrite (tl_user _ _ Lt). unfold token_live, token_claims. rewrite Hr, (tl_expires _ _ Lt), (tl_project _ _ Lt), (tl_scopes _ _ Lt).
    cbn. by destruct owner.
  - intros now' d3 d4 Ed H34 t sso' secret. pose proof (good_delete_token sso now' id d2 W2) as [W3 L3]. rewrite Ed in W3, L3. cbn in W3, L3.
    destruct (auth_history_good _ _ _ _ H34 W3) as [W4 L4].
    assert (Hd3 : exists t3, api_tokens d3 !! id = Some t3 /\ is_Some (tk_revoked t3)).
    { unfold delete_token in Ed. destruct sso; [done|]. destruct (api_tokens d2 !! id); [|done]. destruct (is_some _); [done|].
      injection Ed as <-. eexists. split; [apply lookup_insert_eq|by eexists]. }
    destruct Hd3 as (t3 & Ht3 & Hr3), (la_tokens _ _ (transitivity L2 L3) id row Hrow) as (t3' & Ht3' & Lt3), (la_tokens _ _ L4 id t3 Ht3) as (t4 & Ht4 & Lt4).
    simplify_eq. unfold v. rewrite (personal_token_identity t sso' secret random id t4 d4); [|apply W4|done|by rewrite (tl_hash _ _ Lt4), (tl_hash _ _ Lt3)].
    destruct (tl_revoked _ _ Lt4 Hr3) as [r4 Hr4]. unfold token_live. rewrite Hr4. cbn.
    destruct (tk_user t4) as [o|]; [|done]. cbn. destruct (users d4 !! o) as [u|]; [|done]. cbn. by rewrite andb_false_r.
Qed.
End theorems.

(** ** A concrete server

    Tokens are their own hashes, passwords too, and a signed token is the code
    of its claims. *)
Definition claims_code (c : access_claims) : positive :=
  countable.encode (sub c, service_account_name c, sid c, token_id c, token_project_id c, token_scopes c, claims_role c, ver c, iat c, exp c).

Definition claims_of_code (p : positive) : option access_claims :=
  '(a, b, c, d, e, f, g, h, i, j) ← countable.decode p;
  Some {| sub := a; service_account_name := b; sid := c; token_id := d; token_project_id := e; token_scopes := f; claims_role := g;
          ver := h; iat := i; exp := j |}.

Lemma claims_of_code_code c : claims_of_code (claims_code c) = Some c.
Proof. unfold claims_of_code, claims_code. rewrite decode_encode. by destruct c. Qed.

Definition coded_jwt : Jwt :=
  {| encode_jwt c _ := Some [Npos (claims_code c)];
     decode_jwt now t _ := match t with
                           | [Npos p] => let? c := ok_or (claims_of_code p) InvalidToken in
                                         if (timestamp now <=? exp c)%Z then Ok c else Err TokenExpired
                           | _ => Err InvalidToken
                           end |}.

Lemma short_token a b p x : starts_with (a :: b :: p) [x] = false.
Proof. unfold starts_with. cbn [strip_prefix]. by destruct (a =? x)%N. Qed.

Lemma coded_jwt_laws : @JwtLaws coded_jwt.
Proof.
  split; cbn.
  - by eexists.
  - intros c k t now [= <-] Hle. rewrite claims_of_code_code. cbn. by rewrite (proj2 (Z.leb_le _ _)).
  - intros c k t now c' [= <-]. rewrite claims_of_code_code. cbn. destruct (_ <=? _)%Z; [by intros [= <-]|done].
  - intros c k t [= <-]. split; apply short_token.
Qed.

Definition empty_auth : auth_db :=
  {| users := ∅; credentials := ∅; sessions := ∅; api_tokens := ∅; service_accounts := ∅; known_projects := {[9%N]}; project_memberships := ∅ |}.

Definition alice : user_input :=
  {| ui_username := §"alice"; ui_role := §"admin"; ui_enabled := None; ui_password := Some §"secret" |}.

Definition with_alice : auth_db := (create_user (fun p => Some p) false 1 alice empty_auth).2.

Definition fresh_number (n : N) (refresh csrf : str) : fresh_session := {| fs_id := n; fs_refresh := refresh; fs_csrf := csrf |}.

Definition alice_signed_in : auth_db :=
  (@auth_login id coded_jwt 0 false None (Ok false) (0%N, []) (str_eqb §"secret") §"alice" (fresh_number 5 §"a5" §"c5") (Some §"key") with_alice).2.

Lemma auth_wf_empty : auth_wf empty_auth.
Proof.
  split; cbn; [apply valid_table_empty| |apply valid_table_empty|by intros *; rewrite lookup_empty].
  split; [apply valid_table_empty| | | | |]; intros *; rewrite lookup_empty; done.
Qed.

Lemma with_alice_wf : auth_wf with_alice.
Proof. exact (proj1 (good_create_user (fun p => Some p) false 1 alice empty_auth auth_wf_empty)). Qed.

Lemma alice_signed_in_wf : auth_wf alice_signed_in.
Proof. exact (proj1 (@good_login id coded_jwt _ _ _ _ _ _ _ _ _ with_alice with_alice_wf)). Qed.

(** One rotation, then the first token again. *)
Definition alice_rotated : auth_db := (rotate_session_with_csrf id 10 (fresh_number 6 §"a6" §"c6") §"a5" None alice_signed_in).2.

Lemma refresh_reuse_kills_family_witness :
  (rotate_session_with_csrf id 20 (fresh_number 7 §"a7" §"c7") §"a5" None alice_rotated).1 = Err InvalidCredentials /\
  @finished id 5 (rotate_session_with_csrf id 20 (fresh_number 7 §"a7" §"c7") §"a5" None alice_rotated).2.
Proof.
  pose (r := {| ro_user := 1%N; ro_role := §"admin"; ro_token_version := 0; ro_session := 6%N; ro_refresh_token := §"a6"; ro_csrf_token := §"c6" |}).
  pose (s := new_session 1 §"a6" (Some §"c6") (10 + days REFRESH_TTL_DAYS) 5).
  assert (E : rotate_session_with_csrf id 10 (fresh_number 6 §"a6" §"c6") §"a5" None alice_signed_in = (Ok r, alice_rotated)) by (vm_compute; reflexivity).
  assert (Es : sessions alice_rotated !! ro_session r = Some s) by (vm_compute; reflexivity).
  destruct (@refresh_reuse_kills_family id (fun p => Some p) coded_jwt 10 20 (fresh_number 6 §"a6" §"c6") (fresh_number 7 §"a7" §"c7") §"a5" None None
    alice_signed_in alice_rotated alice_rotated _ r s alice_signed_in_wf E (rtc_refl _ _) (or_introl eq_refl) (rtc_refl _ _) Es) as (H1 & H2 & _).
  split; [exact H1|exact H2].
Defined.

Lemma shaped_a5 : token_shaped §"a5" /\ token_shaped §"c5".
Proof. split; (split; [done|]); intros c H; repeat (apply elem_of_cons in H as [->|H]; [by vm_compute|]); by apply elem_of_nil in H. Qed.

(** What the login of [alice] answers. *)
Definition alice_claims (version : Z) : access_claims :=
  {| sub := 1; service_account_name := None; sid := Some 5%N; token_id := None; token_project_id := None; token_scopes := [];
     claims_role := §"admin"; ver := version; iat := 0; exp := 900 |}.

Definition alice_answer : signed_in :=
  {| si_pair := {| tp_access := [Npos (claims_code (alice_claims 0))]; tp_expires_at := 900; tp_refresh := §"a5" |};
     si_refresh := §"a5"; si_csrf := §"c5" |}.

Lemma alice_login :
  @auth_login id coded_jwt 0 false None (Ok false) (0%N, []) (str_eqb §"secret") §"alice" (fresh_number 5 §"a5" §"c5") (Some §"key") with_alice
  = (Ok alice_answer, alice_signed_in).
Proof. vm_compute. reflexivity. Qed.


(** [bob] comes from the central directory and has reused a token. *)
Definition bob_row : user_row :=
  {| us_username := §"central-2"; us_role := §"developer"; us_enabled := true; us_token_version := 1; us_central_sub := Some §"subject-2" |}.

Definition with_bob : auth_db := with_users (<[2%N := bob_row]> ∅) empty_auth.

Definition bob_confirmed : verified_central :=
  {| cu_current _ := true; cu_personal := false; cu_scopes := []; cu_subject_role := Some §"user"; cu_role := None; cu_machine := false;
     cu_email := Some §"bob@example.org"; cu_subject := §"subject-2"; cu_session := None; cu_valid_until := 1000 |}.

Definition bob_login : outcome signed_in http_error :=
  @auth_login id coded_jwt 0 false (Some (Ok (Some bob_confirmed))) (Ok false) (3%N, §"central-3") (fun _ => false) §"bob"
    (fresh_number 8 §"a8" §"c8") (Some §"key") with_bob.

Lemma central_login_outdated_witness :
  exists s, bob_login.1 = Ok s /\
    forall t, (@local_identity_for_bearer_token id coded_jwt t (Ok false) false §"key" (tp_access (si_pair s)) bob_login.2).1 = Err Unauthorized.
Proof.
  destruct bob_login as [[s|e] d1] eqn:E.
  - exists s. split; [reflexivity|].
    assert (Hu : user_by_subject (cu_subject bob_confirmed) with_bob = Some (2%N, bob_row)) by (vm_compute; reflexivity).
    exact (@central_login_outdated id coded_jwt coded_jwt_laws 0 (Ok false) bob_confirmed (3%N, §"central-3") (fun _ => false) §"bob"
             (fresh_number 8 §"a8" §"c8") §"key" s with_bob d1 2 bob_row E Hu ltac:(discriminate)).
  - exfalso. vm_compute in E. discriminate E.
Defined.

(** A personal token of [alice] for a project. *)
Definition alice_request : create_token_input :=
  {| ct_name := §"ci"; ct_user := None; ct_project := Some 9%N; ct_scopes := [§"api:read"; §" api:read "; []]; ct_days := None |}.

Definition alice_token : outcome str http_error :=
  create_token id false 0 true (Some 1%N) 4 §"77" alice_request with_alice.

Lemma personal_token_lifecycle_witness :
  alice_token.1 = Ok (PAT_PREFIX ++ §"77") /\
  forall t sso secret, (@local_identity_for_bearer_token id coded_jwt t (Ok false) sso secret (PAT_PREFIX ++ §"77")
                          (delete_token false 7 4 alice_token.2).2).1 = Err Unauthorized.
Proof.
  assert (E : create_token id false 0 true (Some 1%N) 4 §"77" alice_request with_alice = (Ok (PAT_PREFIX ++ §"77"), alice_token.2))
    by (vm_compute; reflexivity).
  destruct (@personal_token_lifecycle id (fun p => Some p) coded_jwt 0 false true (Some 1%N) 4 §"77" alice_request (PAT_PREFIX ++ §"77") with_alice
    alice_token.2 alice_token.2 with_alice_wf E (rtc_refl _ _)) as (scopes & expires & _ & _ & _ & _ & Hd).
  split; [exact (f_equal fst E)|].
  assert (E' : delete_token false 7 4 alice_token.2 = (Ok 4%N, (delete_token false 7 4 alice_token.2).2)) by (vm_compute; reflexivity).
  exact (Hd 7%Z _ _ E' (rtc_refl _ _)).
Defined.
