(* ===== verification/Outbox.v ===== *)
(** * The outbox: domain events, fan-out and deliveries

    [backend/src/outbox.rs] and the handlers of [platform.rs] that write its
    tables: what a finished pipeline enqueues, the claim of due messages, the
    statements after a delivery, requeueing and retention, and the settings of
    a project.  A statement or a transaction is one definition; what the
    network, the mail server and the merge trigger answer is an argument. *)
From S2P Require Import Prelude Table.

(** [Uuid]'s hyphenated and simple texts, and its parser. *)
Class UuidText : Type := {
  uuid_text : N -> str;
  uuid_simple : N -> str;
  uuid_parse : str -> option N;
  uuid_parse_text : forall a, uuid_parse (uuid_text a) = Some a }.

Lemma uuid_text_inj `{UuidText} a b : uuid_text a = uuid_text b -> a = b.
Proof. intros E. apply (f_equal uuid_parse) in E. rewrite !uuid_parse_text in E. congruence. Qed.

Definition DELIVERY_LEASE_SECS : Z := 300.
Definition MAX_ATTEMPTS : Z := 8.

(** ** Payloads: JSON objects of scalars, with [->>] and jsonb numbers *)

Inductive scalar : Type := JNull | JBool (b : bool) | JInt (n : Z) | JText (s : str).
Abbreviation payload := (gmap str scalar).

Definition json_text (v : scalar) : option str :=
  match v with
  | JNull => None
  | JBool b => Some (if b then §"true" else §"false")
  | JInt n => Some (show_Z n)
  | JText s => Some s
  end.

Definition arrow (p : payload) (key : str) : option str := p !! key ≫= json_text.

(** ** Rows *)

Record outbox_message : Type := {
  om_event : N;
  om_project : option N;
  om_subscription : str;
  om_channel : str;
  om_destination : str;
  om_payload : payload;
  om_attempts : Z;
  om_next_attempt_at : Z;
  om_delivered_at : option Z;
  om_failed_at : option Z;
  om_last_error : option str;
  om_created_at : Z;
  om_generation : Z;
  om_replay_of : option N }.

#[export] Instance outbox_message_schema : Schema outbox_message := {
  check m := bool_decide (om_channel m ∈ [§"webhook"; §"notification"; §"sse"; §"email"; §"pipeline_trigger"]);
  conflict _ _ := false;
  conflict_sym _ _ := eq_refl }.

Inductive outcome : Type := OUTCOME_DELIVERED | OUTCOME_RETRY_SCHEDULED | OUTCOME_FAILED.

(** A row of [outbox_delivery_attempts]; its unique pair of message and number
    is the key of the table. *)
Record DeliveryAttemptRecord : Type := {
  da_started_at : Z;
  da_finished_at : Z;
  da_outcome : outcome;
  da_http_status : option Z;
  da_error : option str }.

Record notification_config : Type := {
  nc_project : N;
  nc_channel : str;
  nc_target : str;
  nc_enabled : bool;
  nc_window_secs : Z;
  nc_quiet_start : Z;
  nc_quiet_end : Z;
  nc_quiet_action : str;
  nc_quiet_bypass : list str }.

#[export] Instance notification_config_schema : Schema notification_config := {
  check c := in_range 0 3600 (nc_window_secs c) && in_range (-1) 1439 (nc_quiet_start c)
             && in_range (-1) 1439 (nc_quiet_end c) && bool_decide (nc_quiet_action c ∈ [§"hold"; §"drop"]);
  conflict _ _ := false;
  conflict_sym _ _ := eq_refl }.

Record NotificationRuleRow : Type := {
  nr_project : N;
  nr_event_types : list str;
  nr_statuses : list str;
  nr_channels : list str;
  nr_enabled : bool }.

Record notification_template : Type := {
  nt_project : N;
  nt_channel : str;
  nt_subject : str;
  nt_body : str;
  nt_enabled : bool;
  nt_updated_at : Z }.

Record webhook : Type := { wh_project : N; wh_url : str; wh_events : list str; wh_secret : option str; wh_enabled : bool }.

Record destination_alert : Type := {
  al_project : N;
  al_channel : str;
  al_destination : str;
  al_last_error : str;
  al_state : str }.

Record domain_event : Type := {
  ev_type : str;
  ev_aggregate_type : str;
  ev_aggregate : N;
  ev_payload : payload }.

Record outbox : Type := {
  domain_events : gmap N domain_event;
  outbox_messages : gmap N outbox_message;
  delivery_attempts : gmap (N * Z) DeliveryAttemptRecord;
  notification_configs : gmap N notification_config;
  notification_rules : gmap N NotificationRuleRow;
  notification_templates : gmap N notification_template;
  webhooks : gmap N webhook;
  alerts : gmap N destination_alert }.

Definition set_messages (f : gmap N outbox_message -> gmap N outbox_message) (o : outbox) : outbox := {|
  domain_events := domain_events o; outbox_messages := f (outbox_messages o); delivery_attempts := delivery_attempts o;
  notification_configs := notification_configs o; notification_rules := notification_rules o;
  notification_templates := notification_templates o; webhooks := webhooks o; alerts := alerts o |}.

Definition set_alerts (f : gmap N destination_alert -> gmap N destination_alert) (o : outbox) : outbox := {|
  domain_events := domain_events o; outbox_messages := outbox_messages o; delivery_attempts := delivery_attempts o;
  notification_configs := notification_configs o; notification_rules := notification_rules o;
  notification_templates := notification_templates o; webhooks := webhooks o; alerts := f (alerts o) |}.

Definition set_attempts (f : gmap (N * Z) DeliveryAttemptRecord -> gmap (N * Z) DeliveryAttemptRecord) (o : outbox) : outbox := {|
  domain_events := domain_events o; outbox_messages := outbox_messages o; delivery_attempts := f (delivery_attempts o);
  notification_configs := notification_configs o; notification_rules := notification_rules o;
  notification_templates := notification_templates o; webhooks := webhooks o; alerts := alerts o |}.

Definition add_event (id : N) (e : domain_event) (o : outbox) : outbox := {|
  domain_events := <[id := e]> (domain_events o); outbox_messages := outbox_messages o; delivery_attempts := delivery_attempts o;
  notification_configs := notification_configs o; notification_rules := notification_rules o;
  notification_templates := notification_templates o; webhooks := webhooks o; alerts := alerts o |}.

(** A message neither delivered nor given up. *)
Definition pending (m : outbox_message) : bool := is_none (om_delivered_at m) && is_none (om_failed_at m).

(** ** Templates *)

(** [s.replace(pat, value)] for a non-empty pattern. *)
Fixpoint replace_from (fuel : nat) (pat value s : str) : str :=
  match fuel with
  | O => s
  | S f => match split_once pat s with
           | Some (before, after) => before ++ value ++ replace_from f pat value after
           | None => s
           end
  end.
Definition replace (pat value s : str) : str := replace_from (length s) pat value s.

(** The loop that removes placeholders: each turn shortens the text, so its
    length is enough fuel. *)
Fixpoint strip_placeholders (fuel : nat) (out : str) : str :=
  match fuel with
  | O => out
  | S f =>
    match split_once §"{{" out with
    | None => out
    | Some (before, rest) =>
      match split_once §"}}" (§"{{" ++ rest) with
      | None => out
      | Some (_, after) => strip_placeholders f (before ++ after)
      end
    end
  end.

Definition placeholder (key : str) : str := §"{{" ++ key ++ §"}}".

Section render.
Context `{UuidText}.

Definition template_vars (event_type : str) (project pipeline : N) (status : str) : list (str * str) :=
  [(§"event", event_type); (§"project_id", uuid_text project); (§"pipeline_id", uuid_text pipeline); (§"status", status)].

Definition substitute (vars : list (str * str)) (template : str) : str :=
  foldl (fun out kv => replace (placeholder kv.1) kv.2 out) template vars.

Definition render_template (template event_type : str) (project pipeline : N) (status : str) : str :=
  let out := substitute (template_vars event_type project pipeline status) template in
  strip_placeholders (length out) out.
End render.

(** ** Rules *)

Definition to_ascii_lowercase (s : str) : str :=
  map (fun c => if is_ascii_uppercase c then (c + 32)%N else c) s.

Definition eq_ignore_ascii_case (a b : str) : bool := str_eqb (to_ascii_lowercase a) (to_ascii_lowercase b).

Definition rule_matches (r : NotificationRuleRow) (event_type status channel : str) : bool :=
  let event_ok := is_empty (nr_event_types r) || existsb (fun e => str_eqb e event_type) (nr_event_types r) in
  let status_ok := is_empty (nr_statuses r) || existsb (fun s => str_eqb s status) (nr_statuses r) in
  let channel_ok := is_empty (nr_channels r) || existsb (fun c => eq_ignore_ascii_case c channel) (nr_channels r) in
  event_ok && status_ok && channel_ok.

Definition rules_allow (o : outbox) (project : N) (event_type status channel : str) : bool :=
  let rules := select (fun _ r => (nr_project r =? project)%N && nr_enabled r) (notification_rules o) in
  if is_empty rules then true else existsb (fun kr => rule_matches kr.2 event_type status channel) rules.

Definition template_for (o : outbox) (project : N) (channel : str) : option (str * str) :=
  (fun kt => (nt_subject kt.2, nt_body kt.2)) <$>
  select_max nt_updated_at
    (fun _ t => (nt_project t =? project)%N && nt_enabled t && eq_ignore_ascii_case (nt_channel t) channel)
    (notification_templates o).

(** ** Aggregation *)

(** [coalesce((payload->>'agg_count')::int, 0) + 1] *)
Definition next_count (p : payload) : option Z :=
  match arrow p §"agg_count" with
  | None => Some 1%Z
  | Some t => n ← parse_signed i32_max t; if (n + 1 <=? i32_max)%Z then Some (n + 1)%Z else None
  end.

Definition set_payload (p : payload) (m : outbox_message) : outbox_message := {|
  om_event := om_event m; om_project := om_project m; om_subscription := om_subscription m; om_channel := om_channel m;
  om_destination := om_destination m; om_payload := p; om_attempts := om_attempts m;
  om_next_attempt_at := om_next_attempt_at m; om_delivered_at := om_delivered_at m; om_failed_at := om_failed_at m;
  om_last_error := om_last_error m; om_created_at := om_created_at m; om_generation := om_generation m;
  om_replay_of := om_replay_of m |}.

(** The pending message a repeated event collapses into. *)
Definition collapsible (now : Z) (project : N) (subscription status : str) (window : Z) (m : outbox_message) : bool :=
  pending m && bool_decide (om_project m = Some project) && str_eqb (om_subscription m) subscription
  && bool_decide (arrow (om_payload m) §"status" = Some status) && (now - seconds window <? om_created_at m)%Z.

Definition try_aggregate (now : Z) (project : N) (subscription status : str) (window : Z) (o : outbox) :
    result (bool * outbox) db_error :=
  if (window <=? 0)%Z then Ok (false, o)
  else match select_max om_created_at (fun _ => collapsible now project subscription status window) (outbox_messages o) with
       | None => Ok (false, o)
       | Some (id, m) =>
         let? n := ok_or (next_count (om_payload m)) DataException in
         Ok (true, set_messages (insert id (set_payload (<[§"agg_count" := JInt n]> (om_payload m)) m)) o)
       end.

(** ** The fan-out of an event *)

Definition NOTIFICATION_CHANNEL_IN_APP : str := §"in_app".
Definition NOTIFICATION_CHANNEL_SSE : str := §"sse".
Definition NOTIFICATION_CHANNEL_SLACK_WEBHOOK : str := §"slack_webhook".
Definition NOTIFICATION_CHANNEL_GENERIC_WEBHOOK : str := §"generic_webhook".
Definition NOTIFICATION_CHANNEL_EMAIL : str := §"email".
Definition CHANNEL_PIPELINE_TRIGGER : str := §"pipeline_trigger".

Definition new_message (now : Z) (event project : N) (subscription channel destination : str) (p : payload) : outbox_message := {|
  om_event := event; om_project := Some project; om_subscription := subscription; om_channel := channel;
  om_destination := destination; om_payload := p; om_attempts := 0; om_next_attempt_at := now;
  om_delivered_at := None; om_failed_at := None; om_last_error := None; om_created_at := now;
  om_generation := 0; om_replay_of := None |}.

Definition insert_message (id : N) (m : outbox_message) (o : outbox) : result outbox db_error :=
  let? t := insert_row id m (outbox_messages o) in Ok (set_messages (fun _ => t) o).

Definition insert_event (id : N) (e : domain_event) (o : outbox) : result outbox db_error :=
  match domain_events o !! id with Some _ => Err UniqueViolation | None => Ok (add_event id e o) end.

Section emit.
Context `{UuidText} (now : Z) (new_id : str -> N) (event_id project pipeline : N) (event_type status : str).

Definition notification_destination : str := §"project:" ++ uuid_text project.
Definition subscription_of (config : N) : str := §"notification:" ++ uuid_text config.

(** The tail the three loops share: rules, aggregation, then one message. *)
Definition notify (config : N) (c : notification_config) (channel : str) (build : outbox -> outbox_message) (o : outbox) :
    result outbox db_error :=
  if negb (rules_allow o project event_type status channel) then Ok o
  else
    let? r := try_aggregate now project (subscription_of config) status (nc_window_secs c) o in
    if r.1 then Ok r.2 else insert_message (new_id (subscription_of config)) (build r.2) r.2.

Definition emit_webhook (o : outbox) (kw : N * webhook) : result outbox db_error :=
  let subscription := §"webhook:" ++ uuid_text kw.1 in
  insert_message (new_id subscription)
    (new_message now event_id project subscription §"webhook" (wh_url kw.2)
       (list_to_map [(§"event", JText event_type); (§"pipeline_id", JText (uuid_text pipeline)); (§"status", JText status);
                     (§"signed", JBool (is_some (wh_secret kw.2)))])) o.

Definition render (template : str) : str := render_template template event_type project pipeline status.

Definition emit_email (o : outbox) (kc : N * notification_config) : result outbox db_error :=
  notify kc.1 kc.2 §"email"
    (fun o =>
       let t := default (§"Forge pipeline {{status}}",
                         §"Pipeline {{pipeline_id}} of project {{project_id}} finished with status {{status}} ({{event}}).")
                        (template_for o project §"email") in
       new_message now event_id project (subscription_of kc.1) §"email" (nc_target kc.2)
         (list_to_map [(§"to", JText (nc_target kc.2)); (§"subject", JText (render t.1)); (§"body", JText (render t.2))])) o.

Definition slack_payload : payload :=
  {[ §"text" := JText (§"Pipeline " ++ uuid_text pipeline ++ §" of project " ++ uuid_text project ++ §" finished: "
                        ++ status ++ §" (" ++ event_type ++ §")") ]}.

Definition emit_external (o : outbox) (kc : N * notification_config) : result outbox db_error :=
  let channel := to_ascii_lowercase (nc_channel kc.2) in
  notify kc.1 kc.2 channel
    (fun _ =>
       new_message now event_id project (subscription_of kc.1) §"webhook" (nc_target kc.2)
         (if str_eqb channel NOTIFICATION_CHANNEL_SLACK_WEBHOOK then slack_payload
          else list_to_map [(§"event", JText event_type); (§"project_id", JText (uuid_text project));
                            (§"pipeline_id", JText (uuid_text pipeline)); (§"status", JText status)])) o.

Definition emit_local (o : outbox) (kc : N * notification_config) : result outbox db_error :=
  let channel := to_ascii_lowercase (nc_channel kc.2) in
  notify kc.1 kc.2 channel
    (fun o =>
       let message := match template_for o project channel with
                      | Some t => render t.2
                      | None => §"Pipeline " ++ uuid_simple pipeline ++ §" finished with status " ++ status
                      end in
       new_message now event_id project (subscription_of kc.1) §"notification" notification_destination
         (list_to_map [(§"event", JText event_type); (§"project_id", JText (uuid_text project));
                       (§"pipeline_id", JText (uuid_text pipeline)); (§"status", JText status);
                       (§"channel", JText channel); (§"target", JText (nc_target kc.2)); (§"message", JText message)])) o.

(** [WHERE project_id = $1 AND enabled AND lower(channel) IN (..)] *)
Definition configs_for (channels : list str) (o : outbox) : list (N * notification_config) :=
  select (fun _ c => (nc_project c =? project)%N && nc_enabled c && bool_decide (to_ascii_lowercase (nc_channel c) ∈ channels))
         (notification_configs o).

Definition emit_pipeline_event (o : outbox) : result outbox db_error :=
  let? o1 := insert_event event_id {|
    ev_type := event_type; ev_aggregate_type := §"pipeline"; ev_aggregate := pipeline;
    ev_payload := list_to_map [(§"project_id", JText (uuid_text project)); (§"status", JText status)] |} o in
  let? o2 := rfold emit_webhook o1 (select (fun _ w => (wh_project w =? project)%N && wh_enabled w) (webhooks o1)) in
  let? o3 := rfold emit_email o2 (configs_for [§"email"] o2) in
  let? o4 := rfold emit_external o3 (configs_for [§"slack_webhook"; §"generic_webhook"] o3) in
  rfold emit_local o4 (configs_for [§"in_app"; §"sse"] o4).
End emit.

(** ** The trigger of a merge *)

Record MergePipelineTrigger : Type := {
  mt_schema_version : Z;
  mt_repository : N;
  mt_configuration : N;
  mt_reference : str;
  mt_commit : str;
  mt_key : str;
  mt_merge_attempt : option N;
  mt_owner : option N }.

(** [repository_push_operations], by repository and trigger key. *)
Abbreviation push_operations := (gmap (N * str) (option N)).

(** [push_decision_for_ref] with a key: the first decision is kept. *)
Definition push_decision_for_ref (policy : option N) (repository : N) (key : str) (ops : push_operations) :
    option N * push_operations :=
  match ops !! (repository, key) with
  | Some decision => (decision, ops)
  | None => (policy, <[(repository, key) := policy]> ops)
  end.

Section merge_ci.
Context `{UuidText} (digest : str -> str).

(** [git_push_idempotency_key]: [digest] is the hexadecimal SHA-256. *)
Definition git_push_idempotency_key (repository reference rev : str) : str :=
  §"git-push:" ++ digest (repository ++ [0%N] ++ reference ++ [0%N] ++ rev).

Definition opt_uuid (u : option N) : scalar := match u with Some i => JText (uuid_text i) | None => JNull end.

(** [serde_json::to_value] *)
Definition trigger_value (t : MergePipelineTrigger) : payload :=
  list_to_map [(§"schemaVersion", JInt (mt_schema_version t)); (§"repositoryId", JText (uuid_text (mt_repository t)));
               (§"configurationId", JText (uuid_text (mt_configuration t))); (§"reference", JText (mt_reference t));
               (§"commitSha", JText (mt_commit t)); (§"idempotencyKey", JText (mt_key t));
               (§"mergeAttempt", opt_uuid (mt_merge_attempt t)); (§"ownerSubject", opt_uuid (mt_owner t))].

Definition text_field (p : payload) (k : str) : option str := match p !! k with Some (JText s) => Some s | _ => None end.
Definition uuid_field (p : payload) (k : str) : option N := text_field p k ≫= uuid_parse.
Definition u32_field (p : payload) (k : str) : option Z :=
  match p !! k with Some (JInt n) => if in_range 0 u32_max n then Some n else None | _ => None end.
(** An [Option<Uuid>] with [#[serde(default)]]. *)
Definition opt_uuid_field (p : payload) (k : str) : option (option N) :=
  match p !! k with
  | None | Some JNull => Some None
  | Some (JText s) => Some <$> uuid_parse s
  | _ => None
  end.

Definition trigger_fields : list str :=
  [§"schemaVersion"; §"repositoryId"; §"configurationId"; §"reference"; §"commitSha"; §"idempotencyKey"; §"mergeAttempt"; §"ownerSubject"].

(** [serde_json::from_value] with [deny_unknown_fields] *)
Definition trigger_from_value (p : payload) : option MergePipelineTrigger :=
  if negb (forallb (fun kv => bool_decide (kv.1 ∈ trigger_fields)) (map_to_list p)) then None
  else
    v ← u32_field p §"schemaVersion"; r ← uuid_field p §"repositoryId"; c ← uuid_field p §"configurationId";
    n ← text_field p §"reference"; s ← text_field p §"commitSha"; k ← text_field p §"idempotencyKey";
    m ← opt_uuid_field p §"mergeAttempt"; o ← opt_uuid_field p §"ownerSubject";
    Some {| mt_schema_version := v; mt_repository := r; mt_configuration := c; mt_reference := n; mt_commit := s;
            mt_key := k; mt_merge_attempt := m; mt_owner := o |}.

(** [enqueue_merge_ci].  [policy] is the configuration the current settings
    name for the reference, [repository_of] the column of [projects]. *)
Definition enqueue_merge_ci (now : Z) (event_id message_id : N) (repository : N) (storage : str) (pull_request : N)
    (reference commit : str) (merge_attempt owner : option N) (policy : option N) (repository_of : N -> option N)
    (ops : push_operations) (o : outbox) : result (outbox * push_operations) (option db_error) :=
  let key := git_push_idempotency_key storage reference commit in
  let d := push_decision_for_ref policy repository key ops in
  match d.1 with
  | None => Ok (o, d.2)
  | Some configuration =>
    if negb (bool_decide (repository_of configuration = Some repository)) then Err None
    else
      let p := trigger_value {| mt_schema_version := 1; mt_repository := repository; mt_configuration := configuration;
                                mt_reference := reference; mt_commit := commit; mt_key := key;
                                mt_merge_attempt := merge_attempt; mt_owner := owner |} in
      match insert_event event_id {| ev_type := §"git.merge"; ev_aggregate_type := §"repository"; ev_aggregate := repository;
                                     ev_payload := p |} o with
      | Err e => Err (Some e)
      | Ok o1 =>
        match insert_message message_id
                (new_message now event_id configuration (§"git-merge:" ++ uuid_text pull_request) CHANNEL_PIPELINE_TRIGGER
                   (§"forge-ci:" ++ uuid_text repository) p) o1 with
        | Err e => Err (Some e)
        | Ok o2 => Ok (o2, d.2)
        end
      end
  end.

(** The trigger [deliver_merge_ci] asks for: configuration, branch, key and
    exact commit, in the name of the owner. *)
Record pipeline_request : Type := {
  pr_configuration : N; pr_branch : str; pr_key : str; pr_commit : str; pr_owner : option N }.

(** [deliver_merge_ci] up to the creation of the pipeline.  [confirmed] is the
    [EXISTS] on the merge attempts. *)
Definition deliver_merge_ci (repository_of : N -> option N) (storage_by_id : N -> result str str) (ops : push_operations)
    (confirmed : N -> N -> str -> bool) (configuration : N) (p : payload) : result pipeline_request str :=
  let? trigger := ok_or (trigger_from_value p) (§"invalid merge CI payload") in
  let? branch := ok_or (b ← strip_prefix §"refs/heads/" (mt_reference trigger); if is_empty b then None else Some b)
                       (§"invalid merge CI reference") in
  if negb (mt_schema_version trigger =? 1)%Z || negb (mt_configuration trigger =? configuration)%N
     || negb ((len (mt_commit trigger) =? 40)%Z || (len (mt_commit trigger) =? 64)%Z)
     || negb (forallb is_ascii_hexdigit (bytes (mt_commit trigger)))
  then Err (§"invalid merge CI version or commit")
  else if negb (bool_decide (repository_of configuration = Some (mt_repository trigger)))
  then Err (§"merge CI configuration repository mismatch")
  else
    let? storage := storage_by_id (mt_repository trigger) in
    let key := git_push_idempotency_key storage (mt_reference trigger) (mt_commit trigger) in
    if negb (str_eqb key (mt_key trigger)) || negb (bool_decide (ops !! (mt_repository trigger, key) = Some (Some configuration)))
    then Err (§"merge CI captured decision mismatch")
    else if match mt_merge_attempt trigger with
            | Some attempt => negb (confirmed attempt (mt_repository trigger) (mt_commit trigger))
            | None => false
            end
    then Err (§"merge publication is not confirmed; exact ref reconciliation required")
    else Ok {| pr_configuration := configuration; pr_branch := branch; pr_key := mt_key trigger;
               pr_commit := mt_commit trigger; pr_owner := mt_owner trigger |}.
End merge_ci.

(** ** Quiet hours and the claim of due messages *)

(** SQL's three-valued logic. *)
Definition sql_or (a b : option bool) : option bool :=
  match a, b with
  | Some true, _ | _, Some true => Some true
  | Some false, Some false => Some false
  | _, _ => None
  end.
Definition sql_not (a : option bool) : option bool := negb <$> a.
(** A row passes a [WHERE] when the condition is true, not null. *)
Definition passes (a : option bool) : bool := bool_decide (a = Some true).
(** [x = ANY (xs)] *)
Definition sql_any (x : option str) (xs : list str) : option bool :=
  if is_empty xs then Some false else (fun s => existsb (str_eqb s) xs) <$> x.

(** [extract(hour from now()) * 60 + extract(minute from now())], in UTC. *)
Definition minute_of_day (now : Z) : Z := (now / seconds 60) mod 1440.

(** The reference in Rust, with a comment that the claim evaluates the same in SQL. *)
Definition in_quiet_window (now_min start_min end_min : Z) : bool :=
  if (start_min <? 0)%Z || (end_min <? 0)%Z then false
  else if (start_min =? end_min)%Z then false
  else if (start_min <? end_min)%Z then (start_min <=? now_min)%Z && (now_min <? end_min)%Z
  else (start_min <=? now_min)%Z || (now_min <? end_min)%Z.

(** The window of the claim's statement. *)
Definition sql_quiet_window (now_min start_min end_min : Z) : bool :=
  (0 <=? start_min)%Z && in_range start_min (end_min - 1) now_min.

Section claim.
Context `{UuidText}.

Definition quiets (now : Z) (m : outbox_message) (id : N) (c : notification_config) : bool :=
  bool_decide (om_project m = Some (nc_project c)) && nc_enabled c && str_eqb (subscription_of id) (om_subscription m)
  && str_eqb (nc_quiet_action c) §"drop" && sql_quiet_window (minute_of_day now) (nc_quiet_start c) (nc_quiet_end c)
  && passes (sql_not (sql_or (sql_any (arrow (om_payload m) §"status") (nc_quiet_bypass c))
                             (Some (is_empty (nc_quiet_bypass c))))).

Definition due (now : Z) (o : outbox) (m : outbox_message) : bool :=
  pending m && (om_next_attempt_at m <=? now)%Z && (om_attempts m <? MAX_ATTEMPTS)%Z
  && negb (exists_row (quiets now m) (notification_configs o)).

Definition due_order (a b : N * outbox_message) : Prop :=
  (om_next_attempt_at a.2 < om_next_attempt_at b.2)%Z \/
  om_next_attempt_at a.2 = om_next_attempt_at b.2 /\ (a.1 <= b.1)%N.
#[export] Instance due_order_dec : RelDecision due_order.
Proof. intros a b. unfold due_order. apply _. Defined.

(** [ORDER BY next_attempt_at, id LIMIT 20 FOR UPDATE SKIP LOCKED]; [locked]
    are the rows another statement holds. *)
Definition due_batch (now : Z) (locked : N -> bool) (o : outbox) : list (N * outbox_message) :=
  take 20 (merge_sort due_order (select (fun id m => due now o m && negb (locked id)) (outbox_messages o))).

Definition bump (now : Z) (m : outbox_message) : outbox_message := {|
  om_event := om_event m; om_project := om_project m; om_subscription := om_subscription m; om_channel := om_channel m;
  om_destination := om_destination m; om_payload := om_payload m; om_attempts := om_attempts m + 1;
  om_next_attempt_at := now + seconds DELIVERY_LEASE_SECS; om_delivered_at := om_delivered_at m;
  om_failed_at := om_failed_at m; om_last_error := om_last_error m; om_created_at := om_created_at m;
  om_generation := om_generation m; om_replay_of := om_replay_of m |}.

Record claimed : Type := {
  cl_id : N; cl_project : N; cl_channel : str; cl_url : str; cl_payload : payload; cl_attempts : Z }.

(** A returned row: its project must not be null. *)
Definition claimed_row (now : Z) (im : N * outbox_message) : option claimed :=
  p ← om_project im.2;
  Some {| cl_id := im.1; cl_project := p; cl_channel := om_channel im.2; cl_url := om_destination im.2;
          cl_payload := om_payload im.2; cl_attempts := om_attempts im.2 + 1 |}.

(** The rows are claimed even when one of them does not decode: then the
    worker goes on with none of them. *)
Definition claim_due (now : Z) (locked : N -> bool) (o : outbox) : list claimed * outbox :=
  let batch := due_batch now locked o in
  (default [] (mapM (claimed_row now) batch),
   set_messages (update_where (fun id _ => bool_decide (id ∈ map fst batch)) (bump now)) o).
End claim.

(** ** Delivery *)

(** [15s * 2^attempts], at most an hour; the shift is by an unsigned number. *)
Definition next_delay (attempts : Z) : Z := seconds (Z.min (15 * Z.shiftl 1 (Z.min attempts 8)) 3600).

(** The statements a worker issues once a delivery is decided. *)
Inductive write : Type :=
| MarkDelivered (id : N)
| MarkFailed (id : N) (error : str)
| Reschedule (id : N) (error : str) (delay : Z)
| OpenAlert (id : N) (error : str)
| RecordAttempt (id : N) (number started : Z) (result : outcome) (http : option Z) (error : option str)
| ResolveAlert (project : N) (channel destination : str).

(** [webhook_host_allowed] ([config.rs]) *)
Definition webhook_host_allowed (allowlist : list str) (url : str) : bool :=
  if is_empty allowlist then true
  else match (rest ← split_once §"://" url;
              Some (to_ascii_lowercase (match split 47%N (match split_once §"://" rest.2 with Some p => p.1 | None => rest.2 end) with
                                        | h :: _ => match split 63%N h with h' :: _ => h' | [] => h end
                                        | [] => []
                                        end))) with
       | Some host => existsb (fun allowed => str_eqb (to_ascii_lowercase allowed) host) allowlist
       | None => false
       end.

(** [egress_config_from_env] of [CICD_WEBHOOK_ALLOWLIST] *)
Definition egress_allowlist (raw : str) : list str := List.filter (fun p => negb (is_empty p)) (map trim (split 44%N raw)).

(** What is outside: the trigger of a merge, SMTP with the texts of the errors of
    the JSON reader, and HTTP, whose answer is a status or a classified transport
    error. *)
Record transports : Type := {
  tr_merge_ci : N -> payload -> result unit str;
  tr_smtp_enabled : bool;
  tr_json_error : payload -> str;
  tr_smtp : str -> str -> str -> result unit str;
  tr_allowlist : list str;
  tr_post : str -> payload -> result Z str }.

Definition supported_local_notification_channel (channel : str) : bool :=
  let c := to_ascii_lowercase (trim channel) in str_eqb c NOTIFICATION_CHANNEL_IN_APP || str_eqb c NOTIFICATION_CHANNEL_SSE.

(** [record_failed_delivery_attempt] *)
Definition record_failed_delivery_attempt (id : N) (attempt_number started : Z) (http : option Z) (error : str) : list write :=
  if (MAX_ATTEMPTS <=? attempt_number)%Z
  then [MarkFailed id error; OpenAlert id error; RecordAttempt id attempt_number started OUTCOME_FAILED http (Some error)]
  else [Reschedule id error (next_delay (attempt_number - 1));
        RecordAttempt id attempt_number started OUTCOME_RETRY_SCHEDULED http (Some error)].

Definition delivered_writes (c : claimed) (started : Z) (http : option Z) (channel destination : str) : list write :=
  [MarkDelivered (cl_id c); RecordAttempt (cl_id c) (cl_attempts c) started OUTCOME_DELIVERED http None;
   ResolveAlert (cl_project c) channel destination].

(** [payload.get(k).and_then(as_str).unwrap_or_default()] *)
Definition text_or_default (p : payload) (k : str) : str := default [] (text_field p k).

(** [deliver_email]: the payload must have its three texts. *)
Definition deliver_email (t : transports) (p : payload) : result unit str :=
  match text_field p §"to", text_field p §"subject", text_field p §"body" with
  | Some to, Some subject, Some body => tr_smtp t to subject body
  | _, _, _ => Err (§"invalid email payload: " ++ tr_json_error t p)
  end.

(** The body of the loop of [deliver_due_with_git_root] for one row. *)
Definition deliver (t : transports) (started : Z) (c : claimed) : list write :=
  let fail := record_failed_delivery_attempt (cl_id c) (cl_attempts c) started in
  if str_eqb (cl_channel c) CHANNEL_PIPELINE_TRIGGER then
    match tr_merge_ci t (cl_project c) (cl_payload c) with
    | Ok _ => delivered_writes c started None (cl_channel c) (cl_url c)
    | Err error => fail None error
    end
  else if str_eqb (cl_channel c) §"notification" then
    let local := text_or_default (cl_payload c) §"channel" in
    if supported_local_notification_channel local
    then delivered_writes c started None local (text_or_default (cl_payload c) §"target")
    else
      let error := §"unsupported notification channel: " ++ local in
      if (MAX_ATTEMPTS <=? cl_attempts c)%Z
      then [MarkFailed (cl_id c) error; RecordAttempt (cl_id c) (cl_attempts c) started OUTCOME_FAILED None (Some error)]
      else [Reschedule (cl_id c) error (next_delay (cl_attempts c));
            RecordAttempt (cl_id c) (cl_attempts c) started OUTCOME_RETRY_SCHEDULED None (Some error)]
  else if str_eqb (cl_channel c) §"email" then
    match (if tr_smtp_enabled t then deliver_email t (cl_payload c) else Ok tt) with
    | Ok _ => delivered_writes c started None §"email" (cl_url c)
    | Err error => fail None error
    end
  else if negb (webhook_host_allowed (tr_allowlist t) (cl_url c)) then
    fail None (§"webhook destination host not allowed by egress allowlist: " ++ cl_url c)
  else
    match tr_post t (cl_url c) (cl_payload c) with
    | Ok status =>
      if in_range 200 299 status then delivered_writes c started (Some status) §"webhook" (cl_url c)
      else fail (Some status) (§"http status " ++ show_Z status)
    | Err error => fail None error
    end.

(** ** The statements *)

Definition set_delivery (attempts next : Z) (delivered failed : option Z) (error : option str) (m : outbox_message) : outbox_message := {|
  om_event := om_event m; om_project := om_project m; om_subscription := om_subscription m; om_channel := om_channel m;
  om_destination := om_destination m; om_payload := om_payload m; om_attempts := attempts; om_next_attempt_at := next;
  om_delivered_at := delivered; om_failed_at := failed; om_last_error := error; om_created_at := om_created_at m;
  om_generation := om_generation m; om_replay_of := om_replay_of m |}.

Definition mark_delivered (now : Z) (m : outbox_message) : outbox_message :=
  set_delivery (om_attempts m) (om_next_attempt_at m) (Some now) None None m.
Definition mark_failed (now : Z) (error : str) (m : outbox_message) : outbox_message :=
  set_delivery (om_attempts m) (om_next_attempt_at m) (om_delivered_at m) (Some now) (Some error) m.
Definition reschedule (at_ : Z) (error : str) (m : outbox_message) : outbox_message :=
  set_delivery (om_attempts m) at_ (om_delivered_at m) (om_failed_at m) (Some error) m.

Definition set_alert (state error : str) (a : destination_alert) : destination_alert := {|
  al_project := al_project a; al_channel := al_channel a; al_destination := al_destination a;
  al_last_error := error; al_state := state |}.

Definition alert_of (project : N) (channel destination : str) (a : destination_alert) : bool :=
  (al_project a =? project)%N && str_eqb (al_channel a) channel && str_eqb (al_destination a) destination.

(** [open_destination_alert].  Its [INSERT] names five parameters and binds
    none, which the server refuses; the error is dropped. *)
Definition open_destination_alert (id : N) (error : str) (o : outbox) : outbox :=
  match outbox_messages o !! id with
  | None => o
  | Some m =>
    match om_project m with
    | None => o
    | Some project =>
      set_alerts (update_where (fun _ a => alert_of project (om_channel m) (om_destination m) a && negb (str_eqb (al_state a) §"open"))
                               (set_alert §"open" error)) o
    end
  end.

Definition resolve_destination_alert (project : N) (channel destination : str) (o : outbox) : outbox :=
  set_alerts (update_where (fun _ a => alert_of project channel destination a && negb (str_eqb (al_state a) §"resolved"))
                           (fun a => set_alert §"resolved" (al_last_error a) a)) o.

(** [record_delivery_attempt]: a row of a deleted message is refused, and a
    number already recorded stays. *)
Definition record_delivery_attempt (now : Z) (id : N) (number started : Z) (result : outcome) (http : option Z) (error : option str)
    (o : outbox) : outbox :=
  match outbox_messages o !! id, delivery_attempts o !! (id, number) with
  | Some _, None => set_attempts (insert (id, number) {| da_started_at := started; da_finished_at := now; da_outcome := result;
                                                          da_http_status := http; da_error := error |}) o
  | _, _ => o
  end.

(** One statement, at the time it is issued. *)
Definition run_write (now : Z) (w : write) (o : outbox) : outbox :=
  match w with
  | MarkDelivered id => set_messages (alter (mark_delivered now) id) o
  | MarkFailed id error => set_messages (alter (mark_failed now error) id) o
  | Reschedule id error delay => set_messages (alter (reschedule (now + delay) error) id) o
  | OpenAlert id error => open_destination_alert id error o
  | RecordAttempt id number started result http error => record_delivery_attempt now id number started result http error o
  | ResolveAlert project channel destination => resolve_destination_alert project channel destination o
  end.

(** A worker that is alone: its claims, one after the other, without delay. *)
Definition deliver_due (now : Z) `{UuidText} (t : transports) (o : outbox) : outbox :=
  let r := claim_due now (fun _ => false) o in
  foldl (fun o c => foldl (fun o w => run_write now w o) o (deliver t now c)) r.2 r.1.

(** ** Requeueing and retention *)

Inductive RequeueDeliveryError : Type := NotFound | NotFailed.

(** [requeue_failed_delivery] *)
Definition requeue_failed_delivery (now : Z) (new_id id : N) (o : outbox) : result (result N RequeueDeliveryError * outbox) db_error :=
  match outbox_messages o !! id with
  | None => Ok (Err NotFound, o)
  | Some m =>
    if is_some (om_delivered_at m) || is_none (om_failed_at m) then Ok (Err NotFailed, o)
    else
      let generation :=
        match select_max om_generation (fun _ w => (om_event w =? om_event m)%N && str_eqb (om_subscription w) (om_subscription m))
                         (outbox_messages o) with
        | Some kw => (om_generation kw.2 + 1)%Z
        | None => 0%Z
        end in
      let? o' := insert_message new_id {|
        om_event := om_event m; om_project := om_project m; om_subscription := om_subscription m; om_channel := om_channel m;
        om_destination := om_destination m; om_payload := om_payload m; om_attempts := 0; om_next_attempt_at := now;
        om_delivered_at := None; om_failed_at := None; om_last_error := None; om_created_at := now;
        om_generation := generation; om_replay_of := Some id |} o in
      Ok (Ok new_id, o')
  end.

(** [retention_sweep]: the attempts of a message go with it, references to it
    become null. *)
Definition swept (cutoff : Z) (m : outbox_message) : bool :=
  match om_delivered_at m with Some t => (t <? cutoff)%Z | None => false end.

Definition forget_replay (gone : N -> bool) (m : outbox_message) : outbox_message := {|
  om_event := om_event m; om_project := om_project m; om_subscription := om_subscription m; om_channel := om_channel m;
  om_destination := om_destination m; om_payload := om_payload m; om_attempts := om_attempts m;
  om_next_attempt_at := om_next_attempt_at m; om_delivered_at := om_delivered_at m; om_failed_at := om_failed_at m;
  om_last_error := om_last_error m; om_created_at := om_created_at m; om_generation := om_generation m;
  om_replay_of := match om_replay_of m with Some i => if gone i then None else Some i | None => None end |}.

Definition retention_sweep (now window : Z) (o : outbox) : outbox :=
  let cutoff := (now - window)%Z in
  let gone id := match outbox_messages o !! id with Some m => swept cutoff m | None => false end in
  set_attempts (filter (fun kv => gone kv.1.1 = false))
    (set_messages (fun t => forget_replay gone <$> filter (fun kv => swept cutoff kv.2 = false) t) o).

(** [acknowledge_destination_alert] ([platform.rs]) *)
Definition acknowledge_destination_alert (id : N) (o : outbox) : option outbox :=
  match alerts o !! id with
  | Some a => if str_eqb (al_state a) §"open" then Some (set_alerts (insert id (set_alert §"acknowledged" (al_last_error a) a)) o) else None
  | None => None
  end.

(** [requeue_outbox_delivery], [verify_no_pending_work] ([quiescence.rs]) and
    the status [platform.rs] shows. *)
Definition outbox_idle (o : outbox) : bool := negb (exists_row (fun _ => pending) (outbox_messages o)).

Definition delivery_status (m : outbox_message) : str :=
  if is_some (om_delivered_at m) then §"delivered"
  else if is_some (om_failed_at m) then §"failed"
  else if (0 <? om_attempts m)%Z then §"retry_scheduled"
  else §"pending".

(** ** The settings of a project ([platform.rs])

    A replacement deletes what the project has and inserts the inputs, under
    the fresh identifiers [ids], in one transaction. *)

Record NotificationInput : Type := {
  ni_channel : str;
  ni_target : str;
  ni_enabled : option bool;
  ni_window_secs : option Z;
  ni_quiet_start : option Z;
  ni_quiet_end : option Z;
  ni_quiet_action : option str;
  ni_quiet_bypass : option (list str) }.

Definition prepare_notification (project : N) (input : NotificationInput) : result notification_config str :=
  let channel := to_ascii_lowercase (trim (ni_channel input)) in
  let target := trim (ni_target input) in
  if is_empty channel || is_empty target then Err §"notification channel and target are required"
  else if negb (bool_decide (channel ∈ [§"in_app"; §"sse"; §"slack_webhook"; §"generic_webhook"; §"email"]))
  then Err §"unsupported notification channel: must be one of in_app, sse, slack_webhook, generic_webhook, email"
  else if (str_eqb channel §"slack_webhook" || str_eqb channel §"generic_webhook") && negb (starts_with §"https://" target)
  then Err §"external notification targets must be https URLs"
  else if str_eqb channel §"email" && negb (contains_char 64%N target)
  then Err §"email notification target must be an email address"
  else
    let quiet_action := default §"hold" (ni_quiet_action input) in
    if negb (str_eqb quiet_action §"hold") && negb (str_eqb quiet_action §"drop")
    then Err §"quiet_action must be 'hold' or 'drop'"
    else
      let quiet_start := default (-1)%Z (ni_quiet_start input) in
      let quiet_end := default (-1)%Z (ni_quiet_end input) in
      if negb (Bool.eqb (quiet_start =? -1)%Z (quiet_end =? -1)%Z)
      then Err §"quiet_start_min and quiet_end_min must be configured together"
      else if negb (in_range (-1) 1439 quiet_start) || negb (in_range (-1) 1439 quiet_end)
      then Err §"quiet_start_min and quiet_end_min must be -1 or between 0 and 1439"
      else
        let window := default 0%Z (ni_window_secs input) in
        if negb (in_range 0 3600 window) then Err §"aggregation_window_secs must be between 0 and 3600"
        else Ok {| nc_project := project; nc_channel := channel; nc_target := target;
                   nc_enabled := default true (ni_enabled input); nc_window_secs := window; nc_quiet_start := quiet_start;
                   nc_quiet_end := quiet_end; nc_quiet_action := quiet_action;
                   nc_quiet_bypass := default [§"failed"] (ni_quiet_bypass input) |}.

Definition set_configs (t : gmap N notification_config) (o : outbox) : outbox := {|
  domain_events := domain_events o; outbox_messages := outbox_messages o; delivery_attempts := delivery_attempts o;
  notification_configs := t; notification_rules := notification_rules o;
  notification_templates := notification_templates o; webhooks := webhooks o; alerts := alerts o |}.

Definition replace_notifications (project : N) (ids : list N) (inputs : list NotificationInput) (o : outbox) :
    result outbox (str + db_error) :=
  let prepared := rfold (fun acc input => let? c := prepare_notification project input in Ok (acc ++ [c])) [] inputs in
  match prepared with
  | Err e => Err (inl e)
  | Ok rows =>
    match rfold (fun t (kc : N * notification_config) => insert_row kc.1 kc.2 t)
                (filter (fun kc => nc_project kc.2 <> project) (notification_configs o)) (zip ids rows) with
    | Err e => Err (inr e)
    | Ok t => Ok (set_configs t o)
    end
  end.

Record NotificationRuleInput : Type := {
  ri_event_types : list str; ri_statuses : list str; ri_channels : list str; ri_enabled : option bool }.

Definition known_channels : list str :=
  [NOTIFICATION_CHANNEL_IN_APP; NOTIFICATION_CHANNEL_SSE; NOTIFICATION_CHANNEL_SLACK_WEBHOOK;
   NOTIFICATION_CHANNEL_GENERIC_WEBHOOK; NOTIFICATION_CHANNEL_EMAIL].

Definition validate_channel_kind (channel : str) : result unit str :=
  if existsb (fun k => eq_ignore_ascii_case k channel) known_channels then Ok tt
  else Err (§"unknown notification channel kind: " ++ channel).

Definition prepare_rule (project : N) (input : NotificationRuleInput) : result NotificationRuleRow str :=
  let? _ := rfold (fun _ c => validate_channel_kind c) tt (ri_channels input) in
  if existsb (fun s => is_empty (trim s)) (ri_statuses input ++ ri_event_types input)
  then Err §"rule event types and statuses must be non-empty strings"
  else Ok {| nr_project := project; nr_event_types := ri_event_types input; nr_statuses := ri_statuses input;
             nr_channels := ri_channels input; nr_enabled := default true (ri_enabled input) |}.

Definition replace_notification_rules (project : N) (ids : list N) (inputs : list NotificationRuleInput) (o : outbox) : result outbox str :=
  if (100 <? zlen inputs)%Z then Err §"too many rules (max 100)"
  else
    let? t := rfold (fun t (ki : N * NotificationRuleInput) => let? r := prepare_rule project ki.2 in Ok (<[ki.1 := r]> t))
                    (filter (fun kr => nr_project kr.2 <> project) (notification_rules o)) (zip ids inputs) in
    Ok {| domain_events := domain_events o; outbox_messages := outbox_messages o; delivery_attempts := delivery_attempts o;
          notification_configs := notification_configs o; notification_rules := t;
          notification_templates := notification_templates o; webhooks := webhooks o; alerts := alerts o |}.

Record NotificationTemplateInput : Type := {
  ti_channel : str; ti_subject : option str; ti_body : str; ti_enabled : option bool }.

Definition prepare_template (now : Z) (project : N) (input : NotificationTemplateInput) : result notification_template str :=
  let channel := to_ascii_lowercase (trim (ti_channel input)) in
  let? _ := validate_channel_kind channel in
  if is_empty (trim (ti_body input)) then Err §"template body_template is required"
  else Ok {| nt_project := project; nt_channel := channel; nt_subject := default [] (ti_subject input);
             nt_body := trim (ti_body input); nt_enabled := default true (ti_enabled input); nt_updated_at := now |}.

Definition replace_notification_templates (now : Z) (project : N) (ids : list N) (inputs : list NotificationTemplateInput) (o : outbox) :
    result outbox str :=
  if (20 <? zlen inputs)%Z then Err §"too many templates (max 20, one per channel is used)"
  else
    let? t := rfold (fun t (ki : N * NotificationTemplateInput) => let? r := prepare_template now project ki.2 in Ok (<[ki.1 := r]> t))
                    (filter (fun kt => nt_project kt.2 <> project) (notification_templates o)) (zip ids inputs) in
    Ok {| domain_events := domain_events o; outbox_messages := outbox_messages o; delivery_attempts := delivery_attempts o;
          notification_configs := notification_configs o; notification_rules := notification_rules o;
          notification_templates := t; webhooks := webhooks o; alerts := alerts o |}.

Definition set_webhooks (t : gmap N webhook) (o : outbox) : outbox := {|
  domain_events := domain_events o; outbox_messages := outbox_messages o; delivery_attempts := delivery_attempts o;
  notification_configs := notification_configs o; notification_rules := notification_rules o;
  notification_templates := notification_templates o; webhooks := t; alerts := alerts o |}.

(** [create_webhook]: the prefix is tested before the URL is trimmed. *)
Definition create_webhook (project id : N) (url : str) (events : list str) (enabled : option bool) (secret : option str) (o : outbox) : result outbox str :=
  if negb (starts_with §"http://" url) && negb (starts_with §"https://" url) then Err §"webhook url must be http(s)"
  else Ok (set_webhooks (<[id := {| wh_project := project; wh_url := trim url; wh_events := events;
                                    wh_secret := (s ← secret; if is_empty (trim s) then None else Some (trim s));
                                    wh_enabled := default true enabled |}]> (webhooks o)) o).

Definition delete_webhook (id : N) (o : outbox) : option outbox :=
  match webhooks o !! id with Some _ => Some (set_webhooks (delete id (webhooks o)) o) | None => None end.
