(* ===== verification/OutboxSafety.v ===== *)
(** * The outbox: workers in parallel, and what they keep

    A system is the tables, the deliveries the workers have in flight, and the
    claims made so far.  A step is one statement of a worker, a crash, or a
    transaction of the rest of the program; time passes between steps. *)
From S2P Require Import Prelude Table Outbox.

Section system.
Context `{UuidText}.

(** A claimed message that is being sent, or whose statements [ws] are left. *)
Inductive flight : Type :=
| Sending (c : claimed) (since : Z)
| Writing (c : claimed) (since : Z) (ws : list write).

Definition fl_claim (f : flight) : claimed := match f with Sending c _ | Writing c _ _ => c end.
Definition fl_since (f : flight) : Z := match f with Sending _ t | Writing _ t _ => t end.
Definition fl_key (f : flight) : N * Z := (cl_id (fl_claim f), cl_attempts (fl_claim f)).

(** The fate of the message is still in the hands of the flight. *)
Definition deciding_write (w : write) : bool :=
  match w with MarkDelivered _ | MarkFailed _ _ | Reschedule _ _ _ => true | _ => false end.
Definition deciding (f : flight) : bool := match f with Sending _ _ => true | Writing _ _ ws => existsb deciding_write ws end.

(** The claim of attempt [n] of message [id] at [t]. *)
Record claim_event : Type := { ce_id : N; ce_number : Z; ce_time : Z }.

Record system : Type := {
  sy_clock : Z;
  sy_db : outbox;
  sy_flights : list flight;
  sy_claims : list claim_event }.

(** The transactions of the rest of the program; [fresh] are the unused
    identifiers of messages. *)
Inductive other (fresh : N -> Prop) (now : Z) : outbox -> outbox -> Prop :=
| other_emit new_id event project pipeline event_type status o o' :
    (forall s, fresh (new_id s)) ->
    emit_pipeline_event now new_id event project pipeline event_type status o = Ok o' -> other fresh now o o'
| other_merge digest event id repository storage pull reference commit attempt owner policy repository_of ops o o' ops' :
    fresh id ->
    enqueue_merge_ci digest now event id repository storage pull reference commit attempt owner policy repository_of ops o = Ok (o', ops') ->
    other fresh now o o'
| other_requeue id id' r o o' : fresh id' -> requeue_failed_delivery now id' id o = Ok (r, o') -> other fresh now o o'
| other_sweep window o : other fresh now o (retention_sweep now window o)
| other_acknowledge id o o' : acknowledge_destination_alert id o = Some o' -> other fresh now o o'
| other_notifications project ids inputs o o' : replace_notifications project ids inputs o = Ok o' -> other fresh now o o'
| other_rules project ids inputs o o' : replace_notification_rules project ids inputs o = Ok o' -> other fresh now o o'
| other_templates project ids inputs o o' : replace_notification_templates now project ids inputs o = Ok o' -> other fresh now o o'
| other_create_webhook project id url events enabled secret o o' :
    create_webhook project id url events enabled secret o = Ok o' -> other fresh now o o'
| other_delete_webhook id o o' : delete_webhook id o = Some o' -> other fresh now o o'.

(** [timely] restricts the histories to workers that settle a message before
    its lease runs out. *)
Context (timely : Prop).

Definition unclaimed (s : system) (id : N) : Prop :=
  outbox_messages (sy_db s) !! id = None /\ forall e, e ∈ sy_claims s -> ce_id e <> id.

Inductive step : system -> system -> Prop :=
| step_claim now locked cs db' s :
    (sy_clock s <= now)%Z -> claim_due now locked (sy_db s) = (cs, db') ->
    (timely -> forall f, f ∈ sy_flights s -> (now < fl_since f + seconds DELIVERY_LEASE_SECS)%Z) ->
    step s {| sy_clock := now; sy_db := db'; sy_flights := map (fun c => Sending c now) cs ++ sy_flights s;
              sy_claims := map (fun c => {| ce_id := cl_id c; ce_number := cl_attempts c; ce_time := now |}) cs ++ sy_claims s |}
| step_decide now t started c since pre post s :
    (sy_clock s <= now)%Z -> sy_flights s = pre ++ Sending c since :: post ->
    step s {| sy_clock := now; sy_db := sy_db s; sy_flights := pre ++ Writing c since (deliver t started c) :: post;
              sy_claims := sy_claims s |}
| step_write now c since w ws pre post s :
    (sy_clock s <= now)%Z -> sy_flights s = pre ++ Writing c since (w :: ws) :: post ->
    step s {| sy_clock := now; sy_db := run_write now w (sy_db s); sy_flights := pre ++ Writing c since ws :: post;
              sy_claims := sy_claims s |}
| step_end f pre post s :
    sy_flights s = pre ++ f :: post ->
    step s {| sy_clock := sy_clock s; sy_db := sy_db s; sy_flights := pre ++ post; sy_claims := sy_claims s |}
| step_other now db' s :
    (sy_clock s <= now)%Z -> other (unclaimed s) now (sy_db s) db' ->
    step s {| sy_clock := now; sy_db := db'; sy_flights := sy_flights s; sy_claims := sy_claims s |}.

Abbreviation steps := (rtc step).
End system.

(** Tables without messages: what a new installation starts from. *)
Definition no_messages (o : outbox) : Prop :=
  outbox_messages o = ∅ /\ delivery_attempts o = ∅ /\ alerts o = ∅.

Definition start (clock : Z) (o : outbox) : system := {| sy_clock := clock; sy_db := o; sy_flights := []; sy_claims := [] |}.

(** ** What the other transactions do to messages *)

Record same_delivery (m m' : outbox_message) : Prop := {
  sd_event : om_event m' = om_event m;
  sd_project : om_project m' = om_project m;
  sd_subscription : om_subscription m' = om_subscription m;
  sd_channel : om_channel m' = om_channel m;
  sd_destination : om_destination m' = om_destination m;
  sd_attempts : om_attempts m' = om_attempts m;
  sd_next : om_next_attempt_at m' = om_next_attempt_at m;
  sd_delivered : om_delivered_at m' = om_delivered_at m;
  sd_failed : om_failed_at m' = om_failed_at m;
  sd_error : om_last_error m' = om_last_error m;
  sd_generation : om_generation m' = om_generation m }.

#[export] Instance same_delivery_equiv : PreOrder same_delivery.
Proof. split; [by constructor|]. intros a b c [] []. constructor; congruence. Qed.

Definition new_born (m : outbox_message) : Prop := om_attempts m = 0%Z /\ om_delivered_at m = None /\ om_failed_at m = None.

(** Messages keep their delivery state; new ones start from nothing, and only
    delivered ones go. *)
Definition tame_row (fresh : Prop) (x y : option outbox_message) : Prop :=
  match x, y with
  | Some m, Some m' => same_delivery m m'
  | None, Some m' => fresh /\ new_born m'
  | Some m, None => om_delivered_at m <> None
  | None, None => True
  end.

Record tame (fresh : N -> Prop) (o o' : outbox) : Prop := {
  tm_messages : forall id, tame_row (fresh id) (outbox_messages o !! id) (outbox_messages o' !! id);
  tm_attempts : forall k a, delivery_attempts o' !! k = Some a <->
    delivery_attempts o !! k = Some a /\ (is_Some (outbox_messages o !! k.1) -> is_Some (outbox_messages o' !! k.1));
  tm_alerts : alerts o = ∅ -> alerts o' = ∅ }.

Section tame.
Context (fresh : N -> Prop).
Implicit Types o : outbox.

Lemma tame_same o o' :
  outbox_messages o' = outbox_messages o -> delivery_attempts o' = delivery_attempts o -> (alerts o = ∅ -> alerts o' = ∅) ->
  tame fresh o o'.
Proof.
  intros Em Ea Eal. split; [|by intros; rewrite Ea, Em; naive_solver|done].
  intros id. rewrite Em. unfold tame_row. destruct (outbox_messages o !! id); done.
Qed.

Lemma tame_refl o : tame fresh o o.
Proof. by apply tame_same. Qed.

Lemma tame_trans o1 o2 o3 : (forall id, fresh id -> outbox_messages o1 !! id = None) ->
  tame fresh o1 o2 -> tame fresh o2 o3 -> (forall id, is_Some (outbox_messages o1 !! id) -> is_Some (outbox_messages o2 !! id)) ->
  tame fresh o1 o3.
Proof.
  intros Hf T1 T2 Hk. split; [|..|intros; apply T2, T1; done].
  - intros id. pose proof (tm_messages _ _ _ T1 id) as M1. pose proof (tm_messages _ _ _ T2 id) as M2.
    specialize (Hf id). specialize (Hk id). revert M1 M2 Hk. unfold tame_row.
    destruct (outbox_messages o1 !! id) as [m1|], (outbox_messages o2 !! id) as [m2|], (outbox_messages o3 !! id) as [m3|]; try done.
    + by intros ? ? _; etrans.
    + intros [] ? _; congruence.
    + intros _ _ Hk0. destruct Hk0 as [? [=]]. by eexists.
    + intros [? (? & ? & ?)] [] _. split; [done|]. unfold new_born. split_and!; congruence.
  - intros k a. rewrite (tm_attempts _ _ _ T2), (tm_attempts _ _ _ T1). specialize (Hk k.1).
    pose proof (tm_messages _ _ _ T1 k.1) as M1. pose proof (tm_messages _ _ _ T2 k.1) as M2. split.
    + intros [[? ?] ?]. split; [done|]. auto.
    + intros [? Hs]. split; [split; [done|auto]|]. intros [m2 Hm2]. destruct (outbox_messages o1 !! k.1) eqn:E1; [by eauto|].
      rewrite Hm2 in M1, M2. cbn in M1, M2. destruct (outbox_messages o3 !! k.1); [by eexists|].
      destruct M1 as [_ (_ & ? & _)]. done.
Qed.

Lemma tame_insert o o' id m : fresh id -> new_born m -> insert_message id m o = Ok o' ->
  tame fresh o o' /\ outbox_messages o !! id = None /\ outbox_messages o' = <[id := m]> (outbox_messages o).
Proof.
  unfold insert_message. intros Hf Hn (t & (Hid & -> & _ & _)%insert_row_Ok & [= <-])%rbind_Ok_inv. cbn.
  split_and!; [|done|done]. split; cbn; [| |done].
  - intros i. destruct (decide (i = id)) as [->|Hne].
    + rewrite Hid, lookup_insert_eq. done.
    + rewrite lookup_insert_ne by done. unfold tame_row. by destruct (outbox_messages o !! i).
  - intros k a. split; [|tauto]. intros Ha. split; [done|]. intros [m' Hm']. destruct (decide (k.1 = id)) as [E|E].
    + rewrite E, lookup_insert_eq. by eexists.
    + rewrite lookup_insert_ne by done. by eexists.
Qed.

Lemma tame_aggregate now project subscription status window o b o' :
  try_aggregate now project subscription status window o = Ok (b, o') ->
  tame fresh o o' /\ forall id, is_Some (outbox_messages o !! id) -> is_Some (outbox_messages o' !! id).
Proof.
  unfold try_aggregate. destruct (window <=? 0)%Z; [by intros [= <- <-]; split; [apply tame_refl|]|].
  destruct (select_max _ _ _) as [[id m]|] eqn:E; [|by intros [= <- <-]; split; [apply tame_refl|]].
  apply select_max_Some in E as [Hm _]. intros (n & _ & [= <- <-])%rbind_Ok_inv. cbn. split.
  - split; cbn; [| |done].
    + intros i. destruct (decide (i = id)) as [->|Hne].
      * rewrite Hm, lookup_insert_eq. by constructor.
      * rewrite lookup_insert_ne by done. unfold tame_row. by destruct (outbox_messages o !! i).
    + intros k a. split; [|tauto]. intros Ha. split; [done|]. intros [m' Hm'].
      destruct (decide (k.1 = id)) as [E|E]; [rewrite E, lookup_insert_eq; by eexists|rewrite lookup_insert_ne by done; by eexists].
  - intros i [m' Hm']. destruct (decide (i = id)) as [->|Hne]; [rewrite lookup_insert_eq; by eexists|].
    rewrite lookup_insert_ne by done. by eexists.
Qed.
End tame.

Section grows.
Context `{UuidText} (fresh : N -> Prop).
Implicit Types o : outbox.

(** Tame, and no message goes. *)
Definition grows o o' : Prop :=
  tame fresh o o' /\ forall id, is_Some (outbox_messages o !! id) -> is_Some (outbox_messages o' !! id).

Lemma grows_same o o' : outbox_messages o' = outbox_messages o -> delivery_attempts o' = delivery_attempts o ->
  (alerts o = ∅ -> alerts o' = ∅) -> grows o o'.
Proof. intros E ? ?. split; [by apply tame_same|]. by rewrite E. Qed.

Lemma grows_trans o1 o2 o3 : (forall id, fresh id -> outbox_messages o1 !! id = None) -> grows o1 o2 -> grows o2 o3 -> grows o1 o3.
Proof. intros Hf [T1 K1] [T2 K2]. split; [by apply (tame_trans fresh o1 o2)|auto]. Qed.

Lemma grows_insert o o' id m : fresh id -> new_born m -> insert_message id m o = Ok o' -> grows o o'.
Proof.
  intros Hf Hn E. destruct (tame_insert fresh o o' id m Hf Hn E) as (? & Hid & Em). split; [done|].
  intros i [m' Hm']. rewrite Em. destruct (decide (i = id)) as [->|]; [rewrite lookup_insert_eq|rewrite lookup_insert_ne by done]; by eexists.
Qed.

Lemma grows_event o o' id e : insert_event id e o = Ok o' -> grows o o'.
Proof. unfold insert_event. destruct (domain_events o !! id); [done|]. intros [= <-]. by apply grows_same. Qed.

(** What a piece of a transaction does to a state that grew from [o]. *)
Definition growing {E} (f : outbox -> result outbox E) : Prop :=
  forall o s s', (forall id, fresh id -> outbox_messages o !! id = None) -> grows o s -> f s = Ok s' -> grows o s'.

Lemma growing_of {E} (f : outbox -> result outbox E) : (forall s s', f s = Ok s' -> grows s s') -> growing f.
Proof. intros Hf o s s' Ho Hs Hr. apply (grows_trans o s s' Ho Hs). by apply Hf. Qed.

Lemma growing_rfold {A E} (body : outbox -> A -> result outbox E) xs :
  (forall x, growing (fun s => body s x)) -> growing (fun s => rfold body s xs).
Proof.
  intros Hb o s s' Ho Hs Hr. apply (rfold_invariant body (fun _ s => grows o s) s xs s'); [done| |done].
  intros _ x _ t t' _ Ht Hx. by eapply Hb.
Qed.

Lemma new_message_born now event project subscription channel destination p :
  new_born (new_message now event project subscription channel destination p).
Proof. done. Qed.

Lemma growing_notify now new_id project event_type status config c channel build :
  (forall s, fresh (new_id s)) -> (forall o, new_born (build o)) ->
  growing (notify now new_id project event_type status config c channel build).
Proof.
  intros Hid Hb o s s' Ho Hs. unfold notify. destruct (negb _); [by intros [= <-]|].
  intros ([b t] & Ht & Hi)%rbind_Ok_inv. apply (tame_aggregate fresh) in Ht. cbn [fst snd] in Hi.
  pose proof (grows_trans o s t Ho Hs Ht) as Hg. destruct b; [by injection Hi as <-|].
  apply (grows_trans o t s' Ho Hg). by eapply grows_insert.
Qed.

Lemma grows_emit now new_id event project pipeline event_type status o o' :
  (forall id, fresh id -> outbox_messages o !! id = None) -> (forall s, fresh (new_id s)) ->
  emit_pipeline_event now new_id event project pipeline event_type status o = Ok o' -> grows o o'.
Proof.
  intros Ho Hid. unfold emit_pipeline_event.
  intros (o1 & G1%grows_event & (o2 & E2 & (o3 & E3 & (o4 & E4 & E5)%rbind_Ok_inv)%rbind_Ok_inv)%rbind_Ok_inv)%rbind_Ok_inv.
  assert (G2 : grows o o2).
  { refine (growing_rfold _ _ _ o o1 o2 Ho G1 E2). intros kw. apply growing_of. intros s s' Ei. by eapply grows_insert in Ei. }
  assert (G3 : grows o o3) by (refine (growing_rfold _ _ _ o o2 o3 Ho G2 E3); intros kc; by apply growing_notify).
  assert (G4 : grows o o4) by (refine (growing_rfold _ _ _ o o3 o4 Ho G3 E4); intros kc; by apply growing_notify).
  refine (growing_rfold _ _ _ o o4 o' Ho G4 E5); intros kc; by apply growing_notify.
Qed.

Lemma grows_merge digest now event id repository storage pull reference commit attempt owner policy repository_of ops o o' ops' :
  fresh id -> (forall id, fresh id -> outbox_messages o !! id = None) ->
  enqueue_merge_ci digest now event id repository storage pull reference commit attempt owner policy repository_of ops o = Ok (o', ops') ->
  grows o o'.
Proof.
  intros Hid Ho. unfold enqueue_merge_ci. destruct (push_decision_for_ref _ _ _ _) as [[c|] ops1]; cbn [fst snd]; [|intros [= <- <-]; by apply grows_same].
  destruct (negb _); [done|]. destruct (insert_event _ _ _) as [o1|] eqn:E1; [|done].
  destruct (insert_message _ _ _) as [o2|] eqn:E2; [|done]. intros [= <- <-].
  apply (grows_trans o o1 o2 Ho); [by eapply grows_event|].
  exact (grows_insert o1 o2 id _ Hid (new_message_born _ _ _ _ _ _ _) E2).
Qed.
End grows.

Section others.
Context `{UuidText} (fresh : N -> Prop) (now : Z).

Lemma tame_requeue id id' r o o' : fresh id' -> requeue_failed_delivery now id' id o = Ok (r, o') -> tame fresh o o'.
Proof.
  intros Hid. unfold requeue_failed_delivery. destruct (outbox_messages o !! id) as [m|]; [|intros [= <- <-]; apply tame_refl].
  destruct (_ || _); [intros [= <- <-]; apply tame_refl|]. intros (o1 & E & [= <- <-])%rbind_Ok_inv.
  by apply (tame_insert fresh) in E as [? _].
Qed.

Lemma tame_sweep window o : tame fresh o (retention_sweep now window o).
Proof.
  assert (Hm : forall id, outbox_messages (retention_sweep now window o) !! id =
    m ← outbox_messages o !! id;
    if swept (now - window) m then None
    else Some (forget_replay (fun i => match outbox_messages o !! i with Some m => swept (now - window) m | None => false end) m)).
  { intros id. cbn. rewrite lookup_fmap, map_lookup_filter. destruct (outbox_messages o !! id) as [m|]; [cbn|done].
    destruct (swept (now - window) m) eqn:E; case_guard as D; cbn in D; congruence || done. }
  split.
  - intros id. rewrite Hm. destruct (outbox_messages o !! id) as [m|]; [cbn|done].
    destruct (swept (now - window) m) eqn:E; cbn; [|by constructor]. unfold swept in E. by destruct (om_delivered_at m).
  - intros k a. rewrite Hm. cbn. rewrite map_lookup_filter_Some. cbn. destruct (outbox_messages o !! k.1) as [m|]; cbn.
    + destruct (swept (now - window) m); [|naive_solver]. split; [naive_solver|]. intros [? Hs]. by destruct (Hs (mk_is_Some _ _ eq_refl)).
    + naive_solver.
  - done.
Qed.

Lemma tame_other o o' : (forall id, fresh id -> outbox_messages o !! id = None) -> other fresh now o o' -> tame fresh o o'.
Proof.
  intros Hf Ho. revert Hf. destruct Ho; intros Hf.
  - eapply proj1, grows_emit; eauto.
  - eapply proj1, grows_merge; eauto.
  - by eapply tame_requeue.
  - apply tame_sweep.
  - unfold acknowledge_destination_alert in *. apply tame_same; destruct (alerts o !! id) as [a|] eqn:E; try done;
      destruct (str_eqb _ _); simplify_eq; [done|done|]. intros E'. rewrite E', lookup_empty in E. done.
  - unfold replace_notifications in *. repeat case_match; simplify_eq. by apply tame_same.
  - unfold replace_notification_rules in *. case_match; [done|]. destruct (rfold _ _ _); [|done]. simplify_eq/=. by apply tame_same.
  - unfold replace_notification_templates in *. case_match; [done|]. destruct (rfold _ _ _); [|done]. simplify_eq/=. by apply tame_same.
  - unfold create_webhook in *. case_match; [done|]. simplify_eq. by apply tame_same.
  - unfold delete_webhook in *. case_match; [|done]. simplify_eq. by apply tame_same.
Qed.
End others.

(** ** The claim *)

Section claim_facts.
Context `{UuidText}.
Implicit Types o : outbox.

Lemma due_batch_elem now locked o id m :
  (id, m) ∈ due_batch now locked o -> outbox_messages o !! id = Some m /\ due now o m = true.
Proof.
  unfold due_batch. intros Hin. pose proof (elem_of_sublist _ _ _ Hin (sublist_take _ _)) as Hs. clear Hin.
  rewrite merge_sort_Permutation in Hs. apply elem_of_select in Hs as [? Hd]. by apply andb_true_iff in Hd as [? _].
Qed.

Lemma due_batch_NoDup now locked o : NoDup (map fst (due_batch now locked o)).
Proof.
  unfold due_batch. eapply sublist_NoDup; cycle 1; [apply (fmap_sublist fst), sublist_take|].
  change (NoDup (fst <$> merge_sort due_order (select (fun id m => due now o m && negb (locked id)) (outbox_messages o)))).
  rewrite merge_sort_Permutation. unfold select.
  eapply sublist_NoDup; cycle 1; [apply (fmap_sublist fst), sublist_filter_bool|apply NoDup_fst_map_to_list].
Qed.

(** The ways a message can look after a claim. *)
Record claim_result (now : Z) (o : outbox) (cs : list claimed) (o' : outbox) : Prop := {
  cr_same : delivery_attempts o' = delivery_attempts o /\ alerts o' = alerts o;
  cr_NoDup : NoDup (map cl_id cs);
  cr_rows : forall id, outbox_messages o' !! id = outbox_messages o !! id \/
    exists m, outbox_messages o !! id = Some m /\ due now o m = true /\ outbox_messages o' !! id = Some (bump now m);
  cr_claimed : forall c, c ∈ cs -> exists m, outbox_messages o !! cl_id c = Some m /\ due now o m = true /\
    cl_attempts c = (om_attempts m + 1)%Z /\ outbox_messages o' !! cl_id c = Some (bump now m) }.

Lemma claim_due_result now locked o cs o' : claim_due now locked o = (cs, o') -> claim_result now o cs o'.
Proof.
  unfold claim_due. set (batch := due_batch now locked o). intros [= Ecs <-].
  assert (Hcs : forall c, c ∈ cs -> exists m, (cl_id c, m) ∈ batch /\ cl_attempts c = (om_attempts m + 1)%Z).
  { destruct (mapM (claimed_row now) batch) as [cs'|] eqn:E; cbn in Ecs; subst cs; [|by intros c ?%elem_of_nil].
    apply mapM_Some in E. intros c [i Hi]%list_elem_of_lookup. destruct (Forall2_lookup_r _ _ _ _ _ E Hi) as ([id m] & Hl & Hr).
    unfold claimed_row in Hr. cbn in Hr. destruct (om_project m); [|done]. injection Hr as <-. exists m. split; [|done].
    by eapply list_elem_of_lookup_2. }
  split; [done| |intros id|intros c (m & Hin & En)%Hcs].
  - destruct (mapM (claimed_row now) batch) as [cs'|] eqn:E; cbn in Ecs; subst cs; [|constructor].
    enough (map cl_id cs' = map fst batch) as -> by apply due_batch_NoDup. apply mapM_Some in E. clear Hcs.
    induction E as [|[id m] c l l' Hr E IH]; [done|]. cbn. f_equal; [|done]. unfold claimed_row in Hr. cbn in Hr.
    destruct (om_project m); [|done]. by injection Hr as <-.
  - cbn. rewrite lookup_update_where. destruct (outbox_messages o !! id) as [m|] eqn:Em; [cbn|by left].
    case_bool_decide as Hb; [|by left]. right. exists m. split_and!; [done| |done].
    apply list_elem_of_fmap in Hb as ([id' m'] & Eid & Hin). cbn in Eid. subst id'. apply due_batch_elem in Hin as [? ?]. by simplify_eq.
  - destruct (due_batch_elem _ _ _ _ _ Hin) as [Hm Hd]. exists m. split_and!; [done|done|done|]. cbn.
    rewrite lookup_update_where, Hm. cbn. rewrite bool_decide_eq_true_2; [done|]. apply list_elem_of_fmap. by exists (cl_id c, m).
Qed.

Lemma due_iff now o m : due now o m = true <->
  om_delivered_at m = None /\ om_failed_at m = None /\ (om_next_attempt_at m <= now)%Z /\ (om_attempts m < MAX_ATTEMPTS)%Z /\
  exists_row (quiets now m) (notification_configs o) = false.
Proof.
  unfold due, pending. rewrite !andb_true_iff, !is_none_true, Z.leb_le, Z.ltb_lt, negb_true_iff. tauto.
Qed.
End claim_facts.

(** ** The statements of a delivery *)

Definition recording (w : write) : bool := match w with RecordAttempt _ _ _ _ _ _ => true | _ => false end.

(** A statement of the delivery of [c]. *)
Definition write_ok (c : claimed) (w : write) : Prop :=
  match w with
  | MarkDelivered id => id = cl_id c
  | MarkFailed id _ => id = cl_id c /\ (MAX_ATTEMPTS <= cl_attempts c)%Z
  | Reschedule id _ delay => id = cl_id c /\ (seconds 15 <= delay)%Z
  | RecordAttempt id n _ _ _ _ => id = cl_id c /\ n = cl_attempts c
  | OpenAlert _ _ | ResolveAlert _ _ _ => True
  end.

(** What is left of a delivery: it decides and records at most once. *)
Record script (c : claimed) (ws : list write) : Prop := {
  sc_ok : forall w, w ∈ ws -> write_ok c w;
  sc_decide : length (List.filter deciding_write ws) <= 1;
  sc_record : length (List.filter recording ws) <= 1 }.

Lemma next_delay_bounds n : (0 <= n)%Z -> (seconds 15 <= next_delay n <= seconds 3600)%Z.
Proof.
  intros Hn. unfold next_delay, seconds. rewrite Z.shiftl_1_l.
  assert (H : (1 <= 2 ^ Z.min n 8)%Z) by (pose proof (Z.pow_pos_nonneg 2 (Z.min n 8)); lia). lia.
Qed.

Lemma deliver_script t started c : (1 <= cl_attempts c)%Z -> script c (deliver t started c).
Proof.
  intros Hn. pose proof (next_delay_bounds (cl_attempts c - 1) ltac:(lia)) as D1.
  pose proof (next_delay_bounds (cl_attempts c) ltac:(lia)) as D2.
  assert (Hs : forall http channel destination, script c (delivered_writes c started http channel destination)).
  { unfold delivered_writes. split; cbn; [|lia|lia]. intros w. rewrite !elem_of_cons. intros [->|[->|[->|?%elem_of_nil]]]; done. }
  assert (Hf : forall http error, script c (record_failed_delivery_attempt (cl_id c) (cl_attempts c) started http error)).
  { intros http error. unfold record_failed_delivery_attempt. destruct (Z.leb_spec MAX_ATTEMPTS (cl_attempts c)); split; cbn; try lia;
      intros w; rewrite !elem_of_cons; [intros [->|[->|[->|?%elem_of_nil]]]|intros [->|[->|?%elem_of_nil]]]; cbn; try done; split; done || lia. }
  unfold deliver. case_match; [case_match; auto|]. case_match.
  - case_match; [auto|]. destruct (Z.leb_spec MAX_ATTEMPTS (cl_attempts c)); split; cbn; try lia;
      intros w; rewrite !elem_of_cons; (intros [->|[->|?%elem_of_nil]]); cbn; try done; split; done || lia.
  - case_match; [case_match; auto|]. case_match; [auto|]. case_match; [case_match; auto|auto].
Qed.

Lemma script_tail c w ws : script c (w :: ws) ->
  write_ok c w /\ script c ws /\ (deciding_write w = true -> existsb deciding_write ws = false) /\
  (recording w = true -> existsb recording ws = false).
Proof.
  intros [Ho Hd Hr]. cbn in Hd, Hr.
  assert (Hz : forall f, length (List.filter f ws) = 0 -> existsb f ws = false).
  { intros f Hl. apply existsb_false_iff. intros x Hx. apply not_true_iff_false. intros Hf.
    apply length_zero_iff_nil in Hl. assert (Hin : x ∈ List.filter f ws).
    { apply list_elem_of_In, filter_In. by rewrite <- list_elem_of_In. }
    rewrite Hl in Hin. by apply elem_of_nil in Hin. }
  split_and!.
  - apply Ho. left.
  - split; [intros w' Hw'; apply Ho; by right|..]; destruct (deciding_write w), (recording w); cbn in *; lia.
  - intros E. rewrite E in Hd. apply Hz. cbn in Hd. lia.
  - intros E. rewrite E in Hr. apply Hz. cbn in Hr. lia.
Qed.

(** Effect of a statement on the messages. *)
Definition write_row (now : Z) (w : write) : outbox_message -> outbox_message :=
  match w with
  | MarkDelivered _ => mark_delivered now
  | MarkFailed _ error => mark_failed now error
  | Reschedule _ error delay => reschedule (now + delay) error
  | _ => id
  end.

Lemma run_write_messages now c w o id : write_ok c w ->
  outbox_messages (run_write now w o) !! id =
  if deciding_write w && bool_decide (id = cl_id c) then write_row now w <$> (outbox_messages o !! id) else outbox_messages o !! id.
Proof.
  assert (Ha : forall f, alter f (cl_id c) (outbox_messages o) !! id =
                         if bool_decide (id = cl_id c) then f <$> (outbox_messages o !! id) else outbox_messages o !! id).
  { intros f. case_bool_decide as E; [rewrite E; apply lookup_alter_eq|by apply lookup_alter_ne]. }
  destruct w; cbn; intros Hw; [subst id0; apply Ha|destruct Hw as [-> _]; apply Ha|destruct Hw as [-> _]; apply Ha| | |done].
  - unfold open_destination_alert. destruct (outbox_messages o !! id0) as [m|]; [|done]. by destruct (om_project m).
  - unfold record_delivery_attempt. by destruct (outbox_messages o !! id0), (delivery_attempts o !! (id0, number)).
Qed.

Lemma run_write_alerts now w o : alerts o = ∅ -> alerts (run_write now w o) = ∅.
Proof.
  intros E. assert (Hu : forall p f, update_where p f (alerts o) = ∅) by (intros; rewrite E; apply map_imap_empty).
  destruct w; cbn; [done|done|done| | |apply Hu].
  - unfold open_destination_alert. destruct (outbox_messages o !! id) as [m|]; [|done]. destruct (om_project m); [apply Hu|done].
  - unfold record_delivery_attempt. by destruct (outbox_messages o !! id), (delivery_attempts o !! (id, number)).
Qed.

Lemma run_write_attempts now c w o k a : write_ok c w ->
  delivery_attempts (run_write now w o) !! k = Some a ->
  delivery_attempts o !! k = Some a \/
  recording w = true /\ k = (cl_id c, cl_attempts c) /\ is_Some (outbox_messages o !! cl_id c).
Proof.
  intros Hw. destruct w; cbn; try (by left).
  - unfold open_destination_alert. destruct (outbox_messages o !! id) as [m|]; [|by left]. by destruct (om_project m); left.
  - destruct Hw as [-> ->]. unfold record_delivery_attempt.
    destruct (outbox_messages o !! cl_id c) eqn:Em, (delivery_attempts o !! (cl_id c, cl_attempts c)); try by left.
    cbn. rewrite lookup_insert_Some. intros [[<- _]|[_ ?]]; [right|by left]. split_and!; [done|done|by eexists].
Qed.

(** ** The invariant *)

Section invariant.
Context `{UuidText} (timely : Prop).

(** Claims of one message, the later first. *)
Definition later_claim (e e' : claim_event) : Prop :=
  ce_id e = ce_id e' -> (ce_number e' < ce_number e)%Z /\ (ce_time e' + seconds 15 <= ce_time e)%Z.

Definition recorded (f : flight) : Prop := match f with Sending _ _ => False | Writing _ _ ws => existsb recording ws = false end.

Definition claim_of (f : flight) : claim_event :=
  {| ce_id := cl_id (fl_claim f); ce_number := cl_attempts (fl_claim f); ce_time := fl_since f |}.

(** A message in the hands of a flight, by a worker that is in time. *)
Definition in_hand (m : outbox_message) (f : flight) : Prop :=
  om_delivered_at m = None /\ om_failed_at m = None /\ om_attempts m = cl_attempts (fl_claim f) /\
  om_next_attempt_at m = (fl_since f + seconds DELIVERY_LEASE_SECS)%Z.

Record ok (s : system) : Prop := {
  ok_rows : forall id m, outbox_messages (sy_db s) !! id = Some m ->
    (0 <= om_attempts m <= MAX_ATTEMPTS)%Z /\ (om_failed_at m <> None -> om_attempts m = MAX_ATTEMPTS);
  ok_spaced : StronglySorted later_claim (sy_claims s);
  ok_claims : forall e, e ∈ sy_claims s -> (1 <= ce_number e <= MAX_ATTEMPTS)%Z /\ (ce_time e <= sy_clock s)%Z /\
    forall m, outbox_messages (sy_db s) !! ce_id e = Some m ->
      (ce_number e <= om_attempts m)%Z /\ (ce_time e + seconds 15 <= om_next_attempt_at m)%Z;
  ok_flights : forall f, f ∈ sy_flights s -> claim_of f ∈ sy_claims s /\ match f with Writing c _ ws => script c ws | _ => True end;
  ok_keys : NoDup (map fl_key (sy_flights s));
  ok_records : forall k a, delivery_attempts (sy_db s) !! k = Some a ->
    (exists e, e ∈ sy_claims s /\ (ce_id e, ce_number e) = k) /\ is_Some (outbox_messages (sy_db s) !! k.1) /\
    forall f, f ∈ sy_flights s -> fl_key f = k -> recorded f;
  ok_alerts : alerts (sy_db s) = ∅;
  ok_timely : timely -> forall id m, outbox_messages (sy_db s) !! id = Some m ->
    (om_delivered_at m = None \/ om_failed_at m = None) /\
    forall f, f ∈ sy_flights s -> deciding f = true -> cl_id (fl_claim f) = id -> in_hand m f }.

Lemma ok_start clock o : no_messages o -> ok (start clock o).
Proof.
  intros (Em & Ea & El). split; cbn; rewrite ?Em, ?Ea; try done.
  - constructor.
  - by intros ? ?%elem_of_nil.
  - by intros ? ?%elem_of_nil.
  - constructor.
Qed.

Lemma NoDup_map {A B} (f : A -> B) l : NoDup (map f l) -> forall x y, x ∈ l -> y ∈ l -> f x = f y -> x = y.
Proof.
  induction l as [|a l IH]; cbn; [by intros _ x y ?%elem_of_nil|]. rewrite NoDup_cons. intros [Ha Hn] x y.
  rewrite !elem_of_cons. intros [->|Hx] [->|Hy] E; try done; [| |by apply IH].
  - exfalso. apply Ha. rewrite E. by apply list_elem_of_fmap_2.
  - exfalso. apply Ha. rewrite <- E. by apply list_elem_of_fmap_2.
Qed.

(** The deciding flights of a message are one, by workers in time. *)
Lemma deciding_unique s f f' : ok s -> timely -> f ∈ sy_flights s -> f' ∈ sy_flights s ->
  deciding f = true -> deciding f' = true -> cl_id (fl_claim f) = cl_id (fl_claim f') ->
  is_Some (outbox_messages (sy_db s) !! cl_id (fl_claim f)) -> f = f'.
Proof.
  intros Hs Ht Hf Hf' Hd Hd' E [m Hm]. destruct (ok_timely _ Hs Ht _ _ Hm) as [_ Hi].
  destruct (Hi f Hf Hd eq_refl) as (_ & _ & Ea & _), (Hi f' Hf' Hd' (eq_sym E)) as (_ & _ & Ea' & _).
  apply (NoDup_map fl_key _ (ok_keys _ Hs)); [done|done|]. unfold fl_key. congruence.
Qed.

Lemma spaced_new now cs : NoDup (map cl_id cs) ->
  StronglySorted later_claim (map (fun c => {| ce_id := cl_id c; ce_number := cl_attempts c; ce_time := now |}) cs).
Proof.
  induction cs as [|c cs IH]; cbn; [constructor|]. rewrite NoDup_cons. intros [Hc Hn]. constructor; [auto|].
  apply Forall_fmap, Forall_forall. intros c' Hc'. intros E. cbn in E. exfalso. apply Hc. rewrite E. by apply list_elem_of_fmap_2.
Qed.

Definition sending (now : Z) (c : claimed) : flight := Sending c now.
Definition event_of (now : Z) (c : claimed) : claim_event := {| ce_id := cl_id c; ce_number := cl_attempts c; ce_time := now |}.

(** The claim of a batch on the tables. *)
Section claim_step.
Context (now : Z) (s : system) (cs : list claimed) (db' : outbox).
Hypothesis (Hs : ok s) (Hnow : (sy_clock s <= now)%Z) (R : claim_result now (sy_db s) cs db').

Lemma claim_row id m' : outbox_messages db' !! id = Some m' ->
  exists m, outbox_messages (sy_db s) !! id = Some m /\ (m' = m \/ due now (sy_db s) m = true /\ m' = bump now m).
Proof.
  intros Hm'. destruct (cr_rows _ _ _ _ R id) as [E|(m & Hm & Hd & E)].
  - exists m'. split; [congruence|by left].
  - exists m. split; [done|]. right. split; [done|congruence].
Qed.

(** A new claim is later than all of its message. *)
Lemma claim_later c e : c ∈ cs -> e ∈ sy_claims s -> later_claim (event_of now c) e.
Proof.
  intros (m & Hm & (_ & _ & Hn & _)%due_iff & Ea & _)%(cr_claimed _ _ _ _ R) He E. cbn in *.
  destruct (ok_claims _ Hs e He) as (_ & _ & Hr). rewrite <- E in Hr. specialize (Hr m Hm). lia.
Qed.

Lemma claim_key_new c k : c ∈ cs -> (exists e, e ∈ sy_claims s /\ (ce_id e, ce_number e) = k) -> (cl_id c, cl_attempts c) <> k.
Proof.
  intros Hc (e & He & <-) E. injection E as Ei En. destruct (claim_later c e Hc He Ei) as [Hl _]. cbn in Hl. lia.
Qed.

Lemma claim_step_timely :
  (timely -> forall f, f ∈ sy_flights s -> (now < fl_since f + seconds DELIVERY_LEASE_SECS)%Z) ->
  timely -> forall id m, outbox_messages db' !! id = Some m ->
    (om_delivered_at m = None \/ om_failed_at m = None) /\
    forall f, f ∈ map (sending now) cs ++ sy_flights s -> deciding f = true -> cl_id (fl_claim f) = id -> in_hand m f.
Proof.
  intros Hlate Ht id m' Hm'. destruct (claim_row id m' Hm') as (m & Hm & Hor).
  destruct (ok_timely _ Hs Ht id m Hm) as [Hx Hf]. split.
  - destruct Hor as [->|[(? & _)%due_iff ->]]; [done|by left].
  - intros f [(c & -> & Hc)%list_elem_of_fmap|Hin]%elem_of_app Hd E; cbn in E.
    + destruct (cr_claimed _ _ _ _ R c Hc) as (m0 & Hm0 & (Hdl & Hfl & _)%due_iff & Ea & Eb).
      rewrite E, Hm' in Eb. injection Eb as ->. by split_and!; cbn.
    + destruct Hor as [->|[(_ & _ & Hn & _)%due_iff _]]; [by apply Hf|]. exfalso.
      destruct (Hf f Hin Hd E) as (_ & _ & _ & En). specialize (Hlate Ht f Hin). lia.
Qed.

Lemma ok_claim_step :
  (timely -> forall f, f ∈ sy_flights s -> (now < fl_since f + seconds DELIVERY_LEASE_SECS)%Z) ->
  ok {| sy_clock := now; sy_db := db'; sy_flights := map (sending now) cs ++ sy_flights s;
        sy_claims := map (event_of now) cs ++ sy_claims s |}.
Proof.
  intros Hlate. split; cbn [sy_clock sy_db sy_flights sy_claims].
  - intros id m' (m & Hm & [->|[(_ & Hf & _ & Ha & _)%due_iff ->]])%claim_row; [by apply (ok_rows _ Hs id)|].
    destruct (ok_rows _ Hs id m Hm) as [? _]. cbn. split; [lia|done].
  - apply StronglySorted_app. split_and!; [|by apply spaced_new, (cr_NoDup _ _ _ _ R)|apply (ok_spaced _ Hs)].
    intros e e' (c & -> & Hc)%list_elem_of_fmap He'. by apply claim_later.
  - intros e [(c & -> & Hc)%list_elem_of_fmap|He]%elem_of_app; cbn.
    + destruct (cr_claimed _ _ _ _ R c Hc) as (m & Hm & (_ & _ & _ & Ha & _)%due_iff & Ea & Eb).
      destruct (ok_rows _ Hs _ m Hm) as [? _]. split_and!; [lia|lia|lia|]. intros m' Hm'.
      rewrite Hm' in Eb. injection Eb as ->. cbn. unfold seconds, DELIVERY_LEASE_SECS. lia.
    + destruct (ok_claims _ Hs e He) as (Hn & Ht & Hr). split_and!; [lia|lia|lia|].
      intros m' (m & Hm & [->|[_ ->]])%claim_row; [by apply Hr|]. specialize (Hr m Hm). cbn. unfold seconds, DELIVERY_LEASE_SECS in *. lia.
  - intros f [(c & -> & Hc)%list_elem_of_fmap|Hf]%elem_of_app.
    + split; [|done]. apply elem_of_app. left. by apply (list_elem_of_fmap_2 (event_of now)).
    + destruct (ok_flights _ Hs f Hf) as [? ?]. split; [|done]. apply elem_of_app. by right.
  - rewrite map_app. apply NoDup_app. split_and!; [| |apply (ok_keys _ Hs)].
    + rewrite map_map. cbn. pose proof (cr_NoDup _ _ _ _ R) as Hn. eapply NoDup_fmap_1 with (f := fst).
      change (NoDup (map fst (map (fun c => (cl_id c, cl_attempts c)) cs))). by rewrite map_map.
    + intros k (f & -> & (c & -> & Hc)%list_elem_of_fmap)%list_elem_of_fmap (f' & Ek & Hf')%list_elem_of_fmap.
      apply (claim_key_new c (fl_key f') Hc); [|done]. exists (claim_of f'). split; [by apply (ok_flights _ Hs)|done].
  - intros k a Ha. rewrite (proj1 (cr_same _ _ _ _ R)) in Ha. destruct (ok_records _ Hs k a Ha) as ((e & He & Ek) & [m Hm] & Hf).
    split_and!.
    + exists e. split; [|done]. apply elem_of_app. by right.
    + destruct (cr_rows _ _ _ _ R k.1) as [->|(? & _ & _ & ->)]; by eexists.
    + intros f [(c & -> & Hc)%list_elem_of_fmap|Hin]%elem_of_app E; [|by apply Hf].
      exfalso. by apply (claim_key_new c k Hc); [exists e|].
  - rewrite (proj2 (cr_same _ _ _ _ R)). apply (ok_alerts _ Hs).
  - by apply claim_step_timely.
Qed.
End claim_step.

(** ** The other steps *)

(** A flight replaced by one of the same claim that decides and records no
    more than it did. *)
Lemma ok_replace now s pre post f f' :
  ok s -> (sy_clock s <= now)%Z -> sy_flights s = pre ++ f :: post ->
  fl_claim f' = fl_claim f -> fl_since f' = fl_since f -> (recorded f -> recorded f') ->
  (deciding f' = true -> deciding f = true) -> match f' with Writing c _ ws => script c ws | _ => True end ->
  ok {| sy_clock := now; sy_db := sy_db s; sy_flights := pre ++ f' :: post; sy_claims := sy_claims s |}.
Proof.
  intros Hs Hnow Ef Ec Et Hr Hd Hsc.
  assert (Hin : forall g, g ∈ pre ++ f' :: post -> g = f' \/ g ∈ sy_flights s).
  { intros g. rewrite Ef, !elem_of_app, !elem_of_cons. tauto. }
  assert (Hf : f ∈ sy_flights s) by (rewrite Ef; apply elem_of_app; right; left).
  split; cbn [sy_clock sy_db sy_flights sy_claims].
  - apply (ok_rows _ Hs).
  - apply (ok_spaced _ Hs).
  - intros e He. destruct (ok_claims _ Hs e He) as (? & ? & ?). split_and!; [lia|lia|lia|done].
  - intros g [->|Hg]%Hin; [|by apply (ok_flights _ Hs)]. split; [|done].
    destruct (ok_flights _ Hs f Hf) as [Hc _]. unfold claim_of in *. by rewrite Ec, Et.
  - pose proof (ok_keys _ Hs) as Hk. rewrite Ef, map_app in Hk. rewrite map_app. cbn in *. unfold fl_key at 2. by rewrite Ec.
  - intros k a Ha. destruct (ok_records _ Hs k a Ha) as (? & ? & Hk). split_and!; [done|done|].
    intros g [->|Hg]%Hin E; [|by apply Hk]. apply Hr, Hk; [done|]. rewrite <- E. unfold fl_key. by rewrite Ec.
  - apply (ok_alerts _ Hs).
  - intros Ht id m Hm. destruct (ok_timely _ Hs Ht id m Hm) as [? Hi]. split; [done|].
    intros g [->|Hg]%Hin Hdg E; [|by apply Hi]. rewrite Ec in E. specialize (Hi f Hf (Hd Hdg) E). unfold in_hand in *. by rewrite Ec, Et.
Qed.

Lemma ok_end s pre post f :
  ok s -> sy_flights s = pre ++ f :: post ->
  ok {| sy_clock := sy_clock s; sy_db := sy_db s; sy_flights := pre ++ post; sy_claims := sy_claims s |}.
Proof.
  intros Hs Ef. assert (Hin : forall g, g ∈ pre ++ post -> g ∈ sy_flights s).
  { intros g. rewrite Ef, !elem_of_app, !elem_of_cons. tauto. }
  destruct Hs as [? ? ? Hfl Hk Hre ? Hti]. split; cbn [sy_clock sy_db sy_flights sy_claims]; auto.
  - rewrite Ef, !map_app in Hk. cbn in Hk. rewrite map_app. apply NoDup_app in Hk as (? & Hd & [_ ?]%NoDup_cons).
    apply NoDup_app. split_and!; [done| |done]. intros k Hk1 Hk2. apply (Hd k Hk1). by right.
  - intros k a Ha. destruct (Hre k a Ha) as (? & ? & ?). split_and!; auto.
  - intros Ht id m Hm. destruct (Hti Ht id m Hm) as [? ?]. split; auto.
Qed.

Lemma ok_other_step now s db' :
  ok s -> (sy_clock s <= now)%Z -> other (unclaimed s) now (sy_db s) db' ->
  ok {| sy_clock := now; sy_db := db'; sy_flights := sy_flights s; sy_claims := sy_claims s |}.
Proof.
  intros Hs Hnow T. apply tame_other in T; [|by intros id []].
  assert (Hrow : forall id m', outbox_messages db' !! id = Some m' ->
    (exists m, outbox_messages (sy_db s) !! id = Some m /\ same_delivery m m') \/
    outbox_messages (sy_db s) !! id = None /\ unclaimed s id /\ new_born m').
  { intros id m' Hm'. pose proof (tm_messages _ _ _ T id) as M. rewrite Hm' in M. unfold tame_row in M.
    destruct (outbox_messages (sy_db s) !! id) as [m|]; [left; eauto|right]. tauto. }
  split; cbn [sy_clock sy_db sy_flights sy_claims].
  - intros id m' [(m & Hm & Hsd)|(_ & _ & Ha & _ & Hf)]%Hrow; [|by rewrite Ha, Hf].
    rewrite (sd_attempts _ _ Hsd), (sd_failed _ _ Hsd). by apply (ok_rows _ Hs id).
  - apply (ok_spaced _ Hs).
  - intros e He. destruct (ok_claims _ Hs e He) as (? & ? & Hr). split_and!; [lia|lia|lia|].
    intros m' [(m & Hm & [])|(_ & [_ Hu] & _)]%Hrow; [|by destruct (Hu e He)]. specialize (Hr m Hm). lia.
  - apply (ok_flights _ Hs).
  - apply (ok_keys _ Hs).
  - intros k a [Ha Hk]%(tm_attempts _ _ _ T). destruct (ok_records _ Hs k a Ha) as (? & ? & ?). split_and!; auto.
  - apply (tm_alerts _ _ _ T), (ok_alerts _ Hs).
  - intros Ht id m' [(m & Hm & Hsd)|(_ & [_ Hu] & _ & Hd & Hf)]%Hrow.
    + destruct (ok_timely _ Hs Ht id m Hm) as [Hx Hi]. split; [by rewrite (sd_delivered _ _ Hsd), (sd_failed _ _ Hsd)|].
      intros f Hf Hdf E. destruct (Hi f Hf Hdf E) as (? & ? & ? & ?). destruct Hsd. split_and!; congruence.
    + split; [by left|]. intros f Hin _ E. destruct (ok_flights _ Hs f Hin) as [Hc _]. by destruct (Hu _ Hc).
Qed.

Section write_step.
Context (now : Z) (s : system) (c : claimed) (since : Z) (w : write) (ws : list write) (pre post : list flight).
Hypothesis (Hs : ok s) (Hnow : (sy_clock s <= now)%Z) (Ef : sy_flights s = pre ++ Writing c since (w :: ws) :: post).

Lemma writing_in : Writing c since (w :: ws) ∈ sy_flights s.
Proof. rewrite Ef. apply elem_of_app. right. left. Qed.

Lemma writing_script : write_ok c w /\ script c ws /\ (deciding_write w = true -> existsb deciding_write ws = false) /\
  (recording w = true -> existsb recording ws = false).
Proof. apply script_tail. apply (proj2 (ok_flights _ Hs _ writing_in)). Qed.

(** Other flights are flights of other claims. *)
Lemma writing_other g : g ∈ pre ++ Writing c since ws :: post ->
  g = Writing c since ws \/ g ∈ sy_flights s /\ fl_key g <> (cl_id c, cl_attempts c).
Proof.
  rewrite elem_of_app, elem_of_cons. pose proof (ok_keys _ Hs) as Hk. rewrite Ef, map_app in Hk. cbn in Hk.
  apply NoDup_app in Hk as (_ & Hd & [Hp _]%NoDup_cons). rewrite Ef, elem_of_app, elem_of_cons. intros [Hg|[->|Hg]]; [right|by left|right].
  - split; [by left|]. intros E. apply (Hd (fl_key g)); [by apply list_elem_of_fmap_2|]. rewrite E. left.
  - split; [by right; right|]. intros E. apply Hp. change (fl_key (Writing c since (w :: ws))) with (cl_id c, cl_attempts c). rewrite <- E. by apply list_elem_of_fmap_2.
Qed.

Lemma write_lookup id m' : outbox_messages (run_write now w (sy_db s)) !! id = Some m' ->
  exists m, outbox_messages (sy_db s) !! id = Some m /\
    (m' = m /\ (deciding_write w = true -> id <> cl_id c) \/ deciding_write w = true /\ id = cl_id c /\ m' = write_row now w m).
Proof.
  rewrite (run_write_messages now c w (sy_db s) id (proj1 writing_script)).
  destruct (deciding_write w && bool_decide (id = cl_id c)) eqn:E.
  - apply andb_true_iff in E as [? ?%bool_decide_eq_true]. intros (m & -> & ?)%fmap_Some. eauto 10.
  - intros Hm. exists m'. split; [done|]. left. split; [done|]. intros Hd. rewrite Hd in E. by apply bool_decide_eq_false in E.
Qed.

Lemma write_present id : is_Some (outbox_messages (sy_db s) !! id) -> is_Some (outbox_messages (run_write now w (sy_db s)) !! id).
Proof.
  rewrite (run_write_messages now c w (sy_db s) id (proj1 writing_script)). destruct (_ && _); [|done]. by rewrite fmap_is_Some.
Qed.

(** What a statement keeps of a row. *)
Lemma write_row_bounds m : outbox_messages (sy_db s) !! cl_id c = Some m -> deciding_write w = true ->
  om_attempts (write_row now w m) = om_attempts m /\
  (om_failed_at (write_row now w m) <> None -> om_failed_at m <> None \/ om_attempts m = MAX_ATTEMPTS) /\
  forall t, (t <= now)%Z -> (t + seconds 15 <= om_next_attempt_at m)%Z -> (t + seconds 15 <= om_next_attempt_at (write_row now w m))%Z.
Proof.
  intros Hm Hd. pose proof (proj1 writing_script) as Hw. destruct (ok_rows _ Hs _ m Hm) as [Hb _].
  destruct (ok_claims _ Hs _ (proj1 (ok_flights _ Hs _ writing_in))) as (_ & _ & Hr). specialize (Hr m Hm). cbn in Hr.
  destruct w; cbn in *; try done; split_and!; try done; try (by left); try lia; intros _; right; lia.
Qed.

Lemma write_timely : timely -> forall id m, outbox_messages (run_write now w (sy_db s)) !! id = Some m ->
  (om_delivered_at m = None \/ om_failed_at m = None) /\
  forall f, f ∈ pre ++ Writing c since ws :: post -> deciding f = true -> cl_id (fl_claim f) = id -> in_hand m f.
Proof.
  intros Ht id m' (m & Hm & Hor)%write_lookup. destruct (ok_timely _ Hs Ht id m Hm) as [Hx Hi].
  pose proof (Hi _ writing_in) as H0. cbn [deciding fl_claim existsb] in H0.
  destruct writing_script as (_ & _ & Hd & _). destruct Hor as [[-> Hne]|(Hdw & -> & ->)].
  - split; [done|]. intros g [->|[Hg _]]%writing_other Hdg E; [|by apply Hi]. cbn in Hdg, E.
    destruct (deciding_write w) eqn:Edw; [rewrite (Hd eq_refl) in Hdg; done|]. by apply H0.
  - rewrite Hdw in H0. destruct (H0 eq_refl eq_refl) as (Hdl & Hfl & _). split.
    + destruct w; cbn in *; try done; auto.
    + intros g [->|[Hg Hk]]%writing_other Hdg E; [cbn in Hdg; by rewrite (Hd Hdw) in Hdg|]. exfalso. apply Hk.
      enough (g = Writing c since (w :: ws)) as -> by done.
      apply (deciding_unique s); try done; [apply writing_in|cbn; by rewrite Hdw|rewrite E; by eexists].
Qed.

Lemma ok_write_step :
  ok {| sy_clock := now; sy_db := run_write now w (sy_db s); sy_flights := pre ++ Writing c since ws :: post; sy_claims := sy_claims s |}.
Proof.
  destruct writing_script as (Hw & Hsc & _ & Hrec). pose proof (ok_flights _ Hs _ writing_in) as [Hc _].
  split; cbn [sy_clock sy_db sy_flights sy_claims].
  - intros id m' (m & Hm & [[-> _]|(Hd & -> & ->)])%write_lookup; [by apply (ok_rows _ Hs id)|].
    destruct (write_row_bounds m Hm Hd) as (-> & Hf & _). destruct (ok_rows _ Hs _ m Hm) as [? Hf']. split; [done|].
    intros [?|?]%Hf; auto.
  - apply (ok_spaced _ Hs).
  - intros e He. destruct (ok_claims _ Hs e He) as (? & ? & Hr). split_and!; [lia|lia|lia|].
    intros m' (m & Hm & [[-> _]|(Hd & E & ->)])%write_lookup; [by apply Hr|]. destruct (Hr m Hm). rewrite E in Hm.
    destruct (write_row_bounds m Hm Hd) as (-> & _ & Hn). split; [done|]. apply Hn; lia.
  - intros g [->|[Hg _]]%writing_other; [by split|by apply (ok_flights _ Hs)].
  - pose proof (ok_keys _ Hs) as Hk. rewrite Ef, map_app in Hk. by rewrite map_app.
  - intros k a Ha. destruct (run_write_attempts now c w (sy_db s) k a Hw Ha) as [Ha'|(Hr & -> & Hm)].
    + destruct (ok_records _ Hs k a Ha') as (? & ? & Hk). split_and!; [done|by apply write_present|].
      intros g [->|[Hg _]]%writing_other E; [|by apply Hk]. specialize (Hk _ writing_in E). cbn in *. by apply orb_false_iff in Hk as [_ ?].
    + split_and!; [by exists (claim_of (Writing c since (w :: ws)))|by apply write_present|].
      intros g [->|[_ Hg]]%writing_other E; [by apply Hrec|done].
  - apply run_write_alerts, (ok_alerts _ Hs).
  - apply write_timely.
Qed.
End write_step.

Lemma ok_step s s' : step timely s s' -> ok s -> ok s'.
Proof.
  destruct 1 as [now locked cs db' s Hn Hc Hl|now t started c since pre post s Hn Ef|now c since w ws pre post s Hn Ef|f pre post s Ef|now db' s Hn Ho]; intros Hs.
  - apply (ok_claim_step now s cs db' Hs Hn); [by eapply claim_due_result|done].
  - apply (ok_replace now s pre post (Sending c since)); try done. apply deliver_script.
    assert (Hf : Sending c since ∈ sy_flights s) by (rewrite Ef; apply elem_of_app; right; left).
    destruct (ok_flights _ Hs _ Hf) as [Hc _]. by destruct (ok_claims _ Hs _ Hc) as [[? _] _].
  - by apply ok_write_step.
  - by eapply ok_end.
  - by apply ok_other_step.
Qed.

Lemma ok_steps s s' : rtc (step timely) s s' -> ok s -> ok s'.
Proof. induction 1; eauto using ok_step. Qed.
End invariant.
