(* ===== verification/OutboxTheorems.v ===== *)
(** * The outbox: what is delivered, and how often *)
From S2P Require Import Prelude Table Outbox OutboxSafety.

(** ** Running a history *)

Section run.
Context `{UuidText}.

(** What a worker or an operator does next; a flight is named by its place. *)
Inductive action : Type :=
| Claim (now : Z)
| Decide (i : nat) (now : Z) (t : transports)
| Issue (i : nat) (now : Z)
| End (i : nat)
| Emit (now : Z) (new_id : str -> N) (event project pipeline : N) (event_type status : str).

Definition timely_claim (now : Z) (s : system) : bool :=
  forallb (fun f => (now <? fl_since f + seconds DELIVERY_LEASE_SECS)%Z) (sy_flights s).

Definition perform (s : system) (a : action) : option system :=
  match a with
  | Claim now =>
    if (sy_clock s <=? now)%Z && timely_claim now s then
      let r := claim_due now (fun _ => false) (sy_db s) in
      Some {| sy_clock := now; sy_db := r.2; sy_flights := map (fun c => Sending c now) r.1 ++ sy_flights s;
              sy_claims := map (fun c => {| ce_id := cl_id c; ce_number := cl_attempts c; ce_time := now |}) r.1 ++ sy_claims s |}
    else None
  | Decide i now t =>
    match sy_flights s !! i with
    | Some (Sending c since) =>
      if (sy_clock s <=? now)%Z
      then Some {| sy_clock := now; sy_db := sy_db s; sy_claims := sy_claims s;
                   sy_flights := take i (sy_flights s) ++ Writing c since (deliver t now c) :: drop (S i) (sy_flights s) |}
      else None
    | _ => None
    end
  | Issue i now =>
    match sy_flights s !! i with
    | Some (Writing c since (w :: ws)) =>
      if (sy_clock s <=? now)%Z
      then Some {| sy_clock := now; sy_db := run_write now w (sy_db s); sy_claims := sy_claims s;
                   sy_flights := take i (sy_flights s) ++ Writing c since ws :: drop (S i) (sy_flights s) |}
      else None
    | _ => None
    end
  | End i =>
    match sy_flights s !! i with
    | Some f => Some {| sy_clock := sy_clock s; sy_db := sy_db s; sy_claims := sy_claims s;
                        sy_flights := take i (sy_flights s) ++ drop (S i) (sy_flights s) |}
    | None => None
    end
  | Emit now new_id event project pipeline event_type status =>
    if (sy_clock s <=? now)%Z then
      match emit_pipeline_event now new_id event project pipeline event_type status (sy_db s) with
      | Ok db' => Some {| sy_clock := now; sy_db := db'; sy_flights := sy_flights s; sy_claims := sy_claims s |}
      | Err _ => None
      end
    else None
  end.

Definition run (actions : list action) (s : system) : option system :=
  foldl (fun acc a => acc ≫= fun s => perform s a) (Some s) actions.

Definition fresh_emit (s : system) (a : action) : Prop :=
  match a with Emit _ new_id _ _ _ _ _ => forall x, unclaimed s (new_id x) | _ => True end.

Lemma perform_step (timely : Prop) s a s' : fresh_emit s a -> perform s a = Some s' -> step timely s s'.
Proof.
  intros Hf. destruct a as [now|i now t|i now|i|now new_id event project pipeline event_type status]; cbn.
  - destruct (Z.leb_spec (sy_clock s) now); [|done]. destruct (timely_claim now s) eqn:Et; [|done]. cbn.
    destruct (claim_due now (fun _ => false) (sy_db s)) as [cs db'] eqn:Ec. intros [= <-]. eapply step_claim; [done|done|].
    intros _ f Hin. unfold timely_claim in Et. rewrite forallb_iff in Et. by apply Z.ltb_lt, Et.
  - destruct (sy_flights s !! i) as [[c since|]|] eqn:Ei; try done. destruct (Z.leb_spec (sy_clock s) now); [|done].
    intros [= <-]. eapply step_decide; [done|]. symmetry. by apply take_drop_middle.
  - destruct (sy_flights s !! i) as [[|c since [|w ws]]|] eqn:Ei; try done. destruct (Z.leb_spec (sy_clock s) now); [|done].
    intros [= <-]. eapply step_write; [done|]. symmetry. by apply take_drop_middle.
  - destruct (sy_flights s !! i) as [f|] eqn:Ei; [|done]. intros [= <-]. eapply step_end. symmetry. by apply take_drop_middle.
  - destruct (Z.leb_spec (sy_clock s) now); [|done]. destruct (emit_pipeline_event _ _ _ _ _ _ _ _) as [db'|] eqn:Ee; [|done].
    intros [= <-]. apply step_other; [done|]. by eapply other_emit.
Qed.

Lemma run_app l l' s : run (l ++ l') s = run l s ≫= run l'.
Proof.
  unfold run. rewrite foldl_app. destruct (foldl _ (Some s) l); [done|]. induction l' as [|a l' IH]; done.
Qed.

Lemma run_cons a l s : run (a :: l) s = perform s a ≫= run l.
Proof. exact (run_app [a] l s). Qed.

(** Histories without an emission need no fresh identifiers. *)
Lemma run_steps (timely : Prop) actions s s' :
  forallb (fun a => match a with Emit _ _ _ _ _ _ _ => false | _ => true end) actions = true ->
  run actions s = Some s' -> rtc (step timely) s s'.
Proof.
  revert s. induction actions as [|a actions IH]; intros s; [intros _ [= <-]; constructor|].
  rewrite run_cons. cbn [forallb]. rewrite andb_true_iff. intros [Ha Hr] (s1 & E & Es)%bind_Some.
  apply rtc_l with s1; [|by apply IH]. apply perform_step with a; [by destruct a|done].
Qed.
End run.

(** ** Deliveries are numbered, spaced and exclusive *)

Section deliveries.
Context `{UuidText}.

Lemma claims_bounded claims id : (forall e, e ∈ claims -> (1 <= ce_number e <= MAX_ATTEMPTS)%Z) -> StronglySorted later_claim claims ->
  length (List.filter (fun e => (ce_id e =? id)%N) claims) <= 8.
Proof.
  intros Hb Hs. enough (Hg : forall n, (forall e, e ∈ claims -> ce_id e = id -> (ce_number e <= Z.of_nat n)%Z) ->
    length (List.filter (fun e => (ce_id e =? id)%N) claims) <= n).
  { apply Hg. intros e He _. apply (Hb e He). }
  assert (H1 : forall e, e ∈ claims -> (1 <= ce_number e)%Z) by (intros e He; apply (Hb e He)). clear Hb.
  induction Hs as [|e claims Hs IH Hf]; intros n Hn; cbn; [lia|]. rewrite Forall_forall in Hf.
  destruct (N.eqb_spec (ce_id e) id) as [Ei|Hne].
  - cbn. pose proof (Hn e ltac:(left) Ei). pose proof (H1 e ltac:(left)). destruct n as [|n]; [lia|]. apply le_n_S.
    apply IH; [intros; apply H1; by right|]. intros e' He' Ei'. specialize (Hf e' He' ltac:(congruence)). lia.
  - apply IH; [intros; apply H1; by right|]. intros e' He'. apply Hn. by right.
Qed.


(** No alert for a failing destination is ever opened: the only
    statement that would insert one has no values for its parameters. *)
Theorem no_alert_opens (timely : Prop) clock o s :
  no_messages o -> rtc (step timely) (start clock o) s -> alerts (sy_db s) = ∅.
Proof. intros Ho Hr. apply (ok_alerts timely), (ok_steps timely _ _ Hr), ok_start, Ho. Qed.
End deliveries.

(** ** A history: a webhook that never answers *)

#[local] Instance plain_uuid : UuidText := {
  uuid_text u := [u]; uuid_simple u := [u];
  uuid_parse s := match s with [u] => Some u | _ => None end;
  uuid_parse_text a := eq_refl }.

Definition demo_db : outbox := {|
  domain_events := ∅; outbox_messages := ∅; delivery_attempts := ∅; notification_configs := ∅; notification_rules := ∅;
  notification_templates := ∅;
  webhooks := {[ 1%N := {| wh_project := 1; wh_url := §"https://example.org/hook"; wh_events := []; wh_secret := None; wh_enabled := true |} ]};
  alerts := ∅ |}.

Definition demo_down : transports := {|
  tr_merge_ci _ _ := Ok tt; tr_smtp_enabled := false; tr_json_error _ := []; tr_smtp _ _ _ := Ok tt; tr_allowlist := []; tr_post _ _ := Err §"timeout" |}.

Definition demo_emit : action := Emit 0 (fun _ => 7%N) 2 1 3 §"pipeline.failed" §"failed".

(** The [k]-th delivery, which fails. *)
Definition demo_failure (k : Z) : list action :=
  let now := seconds (4000 * k) in [Claim now; Decide 0 now demo_down; Issue 0 now; Issue 0 now; End 0].

Definition demo_seven : list action := flat_map demo_failure [0; 1; 2; 3; 4; 5; 6]%Z.
Definition demo_eighth : list action := [Claim (seconds 28000)].
Definition demo_dead : list action :=
  demo_seven ++ demo_eighth ++ [Decide 0 (seconds 28000) demo_down; Issue 0 (seconds 28000); Issue 0 (seconds 28000); Issue 0 (seconds 28000); End 0].

Definition demo_state (actions : list action) : system :=
  default (start 0 demo_db) (perform (start 0 demo_db) demo_emit ≫= run actions).

Lemma demo_reached (timely : Prop) actions :
  forallb (fun a => match a with Emit _ _ _ _ _ _ _ => false | _ => true end) actions = true ->
  rtc (step timely) (start 0 demo_db) (demo_state actions).
Proof.
  intros Ha. unfold demo_state. destruct (perform (start 0 demo_db) demo_emit ≫= run actions) as [s|] eqn:E; [|constructor].
  apply bind_Some in E as (s1 & E1 & E2). cbn [default]. apply rtc_l with s1; [|by apply (run_steps timely actions)].
  apply perform_step with demo_emit; [|done]. intros x. split; [done|]. by intros e ?%elem_of_nil.
Qed.


Lemma no_alert_opens_witness :
  exists s, (exists m, outbox_messages (sy_db s) !! 7%N = Some m /\ om_failed_at m <> None) /\ alerts (sy_db s) = ∅.
Proof.
  exists (demo_state demo_dead). split.
  - eexists. split; [vm_compute; reflexivity|vm_compute; discriminate].
  - apply (no_alert_opens True 0 demo_db); [split_and!; reflexivity|apply demo_reached; vm_compute; reflexivity].
Defined.

(** ** A crash in the last delivery *)

Section lost.
Context `{UuidText} (timely : Prop) (id : N) (claims : list claim_event).

(** Message [id] used all its attempts, is neither delivered nor given up, and
    no worker is going to decide on it. *)
Record forgotten (s : system) : Prop := {
  fg_row : exists m, outbox_messages (sy_db s) !! id = Some m /\
    om_delivered_at m = None /\ om_failed_at m = None /\ om_attempts m = MAX_ATTEMPTS;
  fg_flights : forall f, f ∈ sy_flights s -> cl_id (fl_claim f) = id -> deciding f = false;
  fg_claims : forall e, e ∈ sy_claims s -> ce_id e = id -> e ∈ claims }.

Lemma forgotten_step s s' : ok timely s -> step timely s s' -> forgotten s -> forgotten s'.
Proof.
  intros Hs Hst [(m & Hm & Hd & Hf & Ha) Hfl Hcl].
  destruct Hst as [now locked cs db' s Hn Hc Hl|now t started c since pre post s Hn Ef|now c since w ws pre post s Hn Ef|f pre post s Ef|now db' s Hn Ho].
  - pose proof (claim_due_result _ _ _ _ _ Hc) as R.
    assert (Hnot : forall c, c ∈ cs -> cl_id c <> id).
    { intros c (m' & Hm' & (_ & _ & _ & Hlt & _)%due_iff & _)%(cr_claimed _ _ _ _ R) <-. rewrite Hm in Hm'. injection Hm' as <-. lia. }
    split; cbn.
    + exists m. split_and!; try done. destruct (cr_rows _ _ _ _ R id) as [->|(m' & Hm' & (_ & _ & _ & Hlt & _)%due_iff & _)]; [done|].
      rewrite Hm in Hm'. injection Hm' as <-. lia.
    + intros f [(c & -> & Hin)%list_elem_of_fmap|Hin]%elem_of_app E; [destruct (Hnot c Hin E)|by apply Hfl].
    + intros e [(c & -> & Hin)%list_elem_of_fmap|Hin]%elem_of_app E; [destruct (Hnot c Hin E)|by apply Hcl].
  - assert (Hne : cl_id c <> id).
    { intros E. assert (Hin : Sending c since ∈ sy_flights s) by (rewrite Ef; apply elem_of_app; right; left). by specialize (Hfl _ Hin E). }
    split; cbn; [eauto| |done]. intros f Hin E. apply elem_of_app in Hin. rewrite elem_of_cons in Hin.
    destruct Hin as [Hin|[->|Hin]]; [|done|]; (apply Hfl; [rewrite Ef; apply elem_of_app|done]); [by left|right; by right].
  - assert (Hin0 : Writing c since (w :: ws) ∈ sy_flights s) by (rewrite Ef; apply elem_of_app; right; left).
    pose proof (Hfl _ Hin0) as H0. cbn [deciding fl_claim existsb] in H0.
    pose proof (proj1 (script_tail _ _ _ (proj2 (ok_flights _ _ Hs _ Hin0)))) as Hw. split; cbn; [|..|done].
    + exists m. split_and!; try done. rewrite (run_write_messages now c w (sy_db s) id Hw).
      destruct (deciding_write w) eqn:Ew; [cbn|done]. case_bool_decide as E; [|done]. by specialize (H0 (eq_sym E)).
    + intros f Hin E. apply elem_of_app in Hin. rewrite elem_of_cons in Hin.
      destruct Hin as [Hin|[->|Hin]]; [| |]; [apply Hfl; [rewrite Ef; apply elem_of_app; by left|done]| |apply Hfl; [rewrite Ef; apply elem_of_app; right; by right|done]].
      specialize (H0 E). by apply orb_false_iff in H0 as [_ ?].
  - split; cbn; [eauto| |done]. intros g Hin. apply Hfl. rewrite Ef. rewrite elem_of_app in *. rewrite elem_of_cons. tauto.
  - split; cbn; [|done|done]. apply tame_other in Ho; [|by intros i []].
    pose proof (tm_messages _ _ _ Ho id) as M. rewrite Hm in M. unfold tame_row in M.
    destruct (outbox_messages db' !! id) as [m'|]; [|done]. destruct M. exists m'. split_and!; congruence.
Qed.

Lemma forgotten_steps s s' : rtc (step timely) s s' -> ok timely s -> forgotten s -> forgotten s'.
Proof. induction 1; eauto using ok_step, forgotten_step. Qed.
End lost.

Section lost_theorem.
Context `{UuidText}.

(** A worker that crashes in the eighth delivery of a message
    loses it without a trace: whatever happens later the message stays
    undelivered and is not given up, nobody claims it again, requeueing it is
    refused, and the installation never counts as free of pending work. *)
Theorem last_attempt_lost clock o s pre c since post s' now id' :
  no_messages o -> rtc (step True) (start clock o) s ->
  sy_flights s = pre ++ Sending c since :: post -> cl_attempts c = MAX_ATTEMPTS -> is_Some (outbox_messages (sy_db s) !! cl_id c) ->
  rtc (step True) {| sy_clock := sy_clock s; sy_db := sy_db s; sy_flights := pre ++ post; sy_claims := sy_claims s |} s' ->
  exists m, outbox_messages (sy_db s') !! cl_id c = Some m /\ om_delivered_at m = None /\ om_failed_at m = None /\
    (forall e, e ∈ sy_claims s' -> ce_id e = cl_id c -> e ∈ sy_claims s) /\
    requeue_failed_delivery now id' (cl_id c) (sy_db s') = Ok (Err NotFailed, sy_db s') /\ outbox_idle (sy_db s') = false.
Proof.
  intros Ho Hr Ef Ec [m Hm] Hr'. pose proof (ok_steps _ _ _ Hr (ok_start True clock o Ho)) as Hs.
  assert (Hin : Sending c since ∈ sy_flights s) by (rewrite Ef; apply elem_of_app; right; left).
  destruct (ok_timely _ _ Hs I _ _ Hm) as [_ Hi]. destruct (Hi _ Hin eq_refl eq_refl) as (Hd & Hf & Ha & _). cbn in Ha.
  assert (Hfg : forgotten (cl_id c) (sy_claims s) s').
  { apply (forgotten_steps True _ _ _ _ Hr'); [by eapply ok_end|]. split; cbn; [exists m; split_and!; congruence| |done].
    intros f Hf' E. apply not_true_iff_false. intros Hdf.
    pose proof (ok_keys _ _ Hs) as Hk. rewrite Ef, map_app in Hk. cbn in Hk.
    assert (Hfs : f ∈ sy_flights s) by (rewrite Ef; rewrite elem_of_app in *; rewrite elem_of_cons; tauto).
    assert (f = Sending c since) as -> by (apply (deciding_unique True s); try done; rewrite E; by eexists).
    apply NoDup_app in Hk as (_ & Hk1 & [Hk2 _]%NoDup_cons). apply elem_of_app in Hf' as [Hf'|Hf'].
    - apply (Hk1 (fl_key (Sending c since))); [by apply list_elem_of_fmap_2|left].
    - apply Hk2. by apply (list_elem_of_fmap_2 fl_key). }
  destruct Hfg as [(m' & Hm' & Hd' & Hf'' & Ha') _ Hcl]. exists m'. split_and!; try done.
  - unfold requeue_failed_delivery. rewrite Hm', Hd', Hf''. done.
  - unfold outbox_idle. apply negb_false_iff, exists_row_true. exists (cl_id c), m'. split; [done|]. unfold pending. by rewrite Hd', Hf''.
Qed.
End lost_theorem.

Lemma demo_crash : exists s c since, rtc (step True) (start 0 demo_db) s /\ sy_flights s = [Sending c since] /\
  cl_attempts c = MAX_ATTEMPTS /\ is_Some (outbox_messages (sy_db s) !! cl_id c).
Proof.
  exists (demo_state (demo_seven ++ demo_eighth)). do 2 eexists. split_and!.
  - apply demo_reached. vm_compute. reflexivity.
  - vm_compute. reflexivity.
  - vm_compute. reflexivity.
  - vm_compute. by eexists.
Qed.

Lemma last_attempt_lost_witness :
  exists s c since m, sy_flights s = [Sending c since] /\ outbox_messages (sy_db s) !! cl_id c = Some m /\
    om_delivered_at m = None /\ om_failed_at m = None /\
    requeue_failed_delivery 0 9 (cl_id c) (sy_db s) = Ok (Err NotFailed, sy_db s) /\ outbox_idle (sy_db s) = false.
Proof.
  destruct demo_crash as (s & c & since & Hr & Ef & Ec & Hm). exists s, c, since.
  destruct (last_attempt_lost 0 demo_db s [] c since [] _ 0 9 (conj eq_refl (conj eq_refl eq_refl)) Hr Ef Ec Hm (rtc_refl _ _))
    as (m & ? & ? & ? & _ & ? & ?).
  exists m. split_and!; assumption.
Defined.
