(* ===== verification/OutboxRules.v ===== *)
(** * The outbox: the life of a message, quiet hours, templates and merges *)
From S2P Require Import Prelude Table Outbox OutboxSafety OutboxTheorems.

(** ** Giving up *)

Section giving_up.
Context `{UuidText} (t : transports).
Implicit Types o : outbox.

Definition run_writes (now : Z) (ws : list write) (o : outbox) : outbox := foldl (fun o w => run_write now w o) o ws.

Lemma run_write_configs now w o : notification_configs (run_write now w o) = notification_configs o.
Proof.
  destruct w as [i|i e|i e d|i e|i n st r h e|p c d]; cbn; try done.
  - unfold open_destination_alert. destruct (outbox_messages o !! i) as [m|]; [|done]. by destruct (om_project m).
  - unfold record_delivery_attempt. by destruct (outbox_messages o !! i), (delivery_attempts o !! (i, n)).
Qed.

Lemma run_writes_configs now ws o : notification_configs (run_writes now ws o) = notification_configs o.
Proof. revert o. induction ws as [|w ws IH]; intros o; [done|].
  change (run_writes now (w :: ws) o) with (run_writes now ws (run_write now w o)). rewrite IH. apply run_write_configs. Qed.

(** The statements of a delivery touch the row of its message only. *)
Lemma run_writes_messages now c ws o id : (forall w, w ∈ ws -> write_ok c w) ->
  outbox_messages (run_writes now ws o) !! id =
  (fun m => if bool_decide (id = cl_id c) then foldl (fun m w => write_row now w m) m ws else m) <$> (outbox_messages o !! id).
Proof.
  revert o. induction ws as [|w ws IH]; intros o Hw.
  - cbn. case_bool_decide; by destruct (outbox_messages o !! id).
  - change (run_writes now (w :: ws) o) with (run_writes now ws (run_write now w o)). cbn [foldl]. rewrite IH by (intros; apply Hw; by right). rewrite (run_write_messages now c w o id) by (apply Hw; left).
    destruct (outbox_messages o !! id) as [m|]; [|by destruct (_ && _)].
    case_bool_decide; [|by rewrite andb_false_r]. rewrite andb_true_r. destruct w; done.
Qed.

Definition run_claims (now : Z) (cs : list claimed) (o : outbox) : outbox :=
  foldl (fun o c => run_writes now (deliver t now c) o) o cs.

Lemma run_claims_other now cs o id : (forall c, c ∈ cs -> (1 <= cl_attempts c)%Z /\ cl_id c <> id) ->
  outbox_messages (run_claims now cs o) !! id = outbox_messages o !! id.
Proof.
  revert o. induction cs as [|c cs IH]; intros o Hc; [done|].
  change (run_claims now (c :: cs) o) with (run_claims now cs (run_writes now (deliver t now c) o)). rewrite IH by (intros; apply Hc; by right).
  destruct (Hc c ltac:(left)) as [Hn Hne]. rewrite (run_writes_messages now c) by (apply deliver_script; done).
  rewrite bool_decide_eq_false_2 by congruence. by destruct (outbox_messages o !! id).
Qed.

Lemma run_claims_one now cs o c : NoDup (map cl_id cs) -> (forall c, c ∈ cs -> (1 <= cl_attempts c)%Z) -> c ∈ cs ->
  outbox_messages (run_claims now cs o) !! cl_id c =
  (fun m => foldl (fun m w => write_row now w m) m (deliver t now c)) <$> (outbox_messages o !! cl_id c).
Proof.
  revert o. induction cs as [|c' cs IH]; intros o Hn Hc Hin; [by apply elem_of_nil in Hin|].
  change (run_claims now (c' :: cs) o) with (run_claims now cs (run_writes now (deliver t now c') o)). cbn [map] in Hn.
  apply NoDup_cons in Hn as [Hc' Hn]. apply elem_of_cons in Hin as [->|Hin].
  - rewrite run_claims_other.
    + rewrite (run_writes_messages now c') by (apply deliver_script, Hc; left). by rewrite bool_decide_eq_true_2.
    + intros d Hd. split; [apply Hc; by right|]. intros E. apply Hc'. rewrite <- E. by apply list_elem_of_fmap_2.
  - rewrite IH; [|done|intros; apply Hc; by right|done].
    rewrite (run_writes_messages now c') by (apply deliver_script, Hc; left).
    rewrite bool_decide_eq_false_2; [by destruct (outbox_messages o !! cl_id c)|].
    intros E. apply Hc'. rewrite <- E. by apply list_elem_of_fmap_2.
Qed.

Lemma run_claims_rest now cs o : notification_configs (run_claims now cs o) = notification_configs o.
Proof. revert o. induction cs as [|c cs IH]; intros o; [done|].
  change (run_claims now (c :: cs) o) with (run_claims now cs (run_writes now (deliver t now c) o)). rewrite IH. apply run_writes_configs. Qed.

Lemma deliver_due_eq now o : deliver_due now t o = run_claims now (claim_due now (fun _ => false) o).1 (claim_due now (fun _ => false) o).2.
Proof. done. Qed.

(** A pass over few messages claims all that are due. *)
Lemma due_batch_all now o : size (outbox_messages o) <= 20 ->
  due_batch now (fun _ => false) o ≡ₚ select (fun _ m => due now o m) (outbox_messages o).
Proof.
  intros Hz. unfold due_batch. rewrite take_ge.
  - rewrite merge_sort_Permutation. unfold select. erewrite filter_ext; [reflexivity|]. intros [i m]. cbn. by rewrite andb_true_r.
  - rewrite merge_sort_Permutation. unfold select. rewrite <- length_map_to_list in Hz.
    etrans; [apply sublist_length, sublist_filter_bool|done].
Qed.

Lemma size_same_keys {V} (m1 m2 : gmap N V) : (forall i, is_Some (m1 !! i) <-> is_Some (m2 !! i)) -> size m1 = size m2.
Proof. intros Hk. rewrite <- !size_dom. f_equal. apply set_eq. intros i. by rewrite !elem_of_dom. Qed.

Lemma run_claims_size now cs o : (forall c, c ∈ cs -> (1 <= cl_attempts c)%Z) ->
  size (outbox_messages (run_claims now cs o)) = size (outbox_messages o).
Proof.
  revert o. induction cs as [|c cs IH]; intros o Hc; [done|].
  change (run_claims now (c :: cs) o) with (run_claims now cs (run_writes now (deliver t now c) o)).
  rewrite IH by (intros; apply Hc; by right). apply size_same_keys. intros i.
  rewrite (run_writes_messages now c) by (apply deliver_script, Hc; left). by rewrite fmap_is_Some.
Qed.

Definition attempts_pos o : Prop := forall i m, outbox_messages o !! i = Some m -> (0 <= om_attempts m)%Z /\ om_project m <> None.

Lemma deliver_due_shape now o : attempts_pos o ->
  size (outbox_messages (deliver_due now t o)) = size (outbox_messages o) /\
  notification_configs (deliver_due now t o) = notification_configs o.
Proof.
  intros Hp. rewrite deliver_due_eq. destruct (claim_due now (fun _ => false) o) as [cs o1] eqn:E. cbn [fst snd].
  assert (Eo : o1 = set_messages (update_where (fun id _ => bool_decide (id ∈ map fst (due_batch now (fun _ => false) o))) (bump now)) o)
    by (by injection E).
  pose proof (claim_due_result _ _ _ _ _ E) as R. rewrite run_claims_size, run_claims_rest.
  - rewrite Eo. cbn. split; [|done]. apply size_same_keys. intros i. by rewrite lookup_update_where, fmap_is_Some.
  - intros c Hc. destruct (cr_claimed _ _ _ _ R c Hc) as (m & Hm & _ & -> & _). specialize (Hp _ _ Hm). lia.
Qed.

Lemma write_row_attempts now w m : om_attempts (write_row now w m) = om_attempts m /\ om_project (write_row now w m) = om_project m.
Proof. by destruct w. Qed.

Lemma write_rows_attempts now ws m : om_attempts (foldl (fun m w => write_row now w m) m ws) = om_attempts m /\
  om_project (foldl (fun m w => write_row now w m) m ws) = om_project m.
Proof.
  revert m. induction ws as [|w ws IH]; intros m; [done|]. cbn. destruct (IH (write_row now w m)) as [-> ->].
  apply write_row_attempts.
Qed.

Lemma run_claims_attempts now cs o : (forall c, c ∈ cs -> (1 <= cl_attempts c)%Z) -> attempts_pos o -> attempts_pos (run_claims now cs o).
Proof.
  revert o. induction cs as [|c cs IH]; intros o Hc Hp; [done|].
  change (run_claims now (c :: cs) o) with (run_claims now cs (run_writes now (deliver t now c) o)).
  apply IH; [intros; apply Hc; by right|]. intros i m. rewrite (run_writes_messages now c) by (apply deliver_script, Hc; left).
  intros (m0 & Hm & ->)%fmap_Some. specialize (Hp i m0 Hm). case_bool_decide; [|done].
  by destruct (write_rows_attempts now (deliver t now c) m0) as [-> ->].
Qed.

Lemma deliver_due_attempts now o : attempts_pos o -> attempts_pos (deliver_due now t o).
Proof.
  intros Hp. rewrite deliver_due_eq. destruct (claim_due now (fun _ => false) o) as [cs o1] eqn:E. cbn [fst snd].
  pose proof (claim_due_result _ _ _ _ _ E) as R. apply run_claims_attempts.
  - intros c Hc. destruct (cr_claimed _ _ _ _ R c Hc) as (m & Hm & _ & -> & _). specialize (Hp _ _ Hm). lia.
  - intros i m Hm. destruct (cr_rows _ _ _ _ R i) as [Ei|(m0 & Hm0 & _ & Ei)]; rewrite Ei in Hm; [by apply (Hp i)|].
    injection Hm as <-. specialize (Hp i m0 Hm0). cbn. split; [lia|by apply Hp].
Qed.

(** Every delivery of the message fails, whatever its number. *)
Definition always_fails (id : N) (m : outbox_message) : Prop :=
  forall n now project, exists http error,
    deliver t now {| cl_id := id; cl_project := project; cl_channel := om_channel m; cl_url := om_destination m;
                     cl_payload := om_payload m; cl_attempts := n |} = record_failed_delivery_attempt id n now http error.

(** One pass over a due message that cannot be delivered. *)
Lemma failing_pass now o id m :
  attempts_pos o -> size (outbox_messages o) <= 20 -> notification_configs o = ∅ ->
  outbox_messages o !! id = Some m -> pending m = true -> (om_attempts m < MAX_ATTEMPTS)%Z -> (om_next_attempt_at m <= now)%Z ->
  always_fails id m ->
  exists error, outbox_messages (deliver_due now t o) !! id = Some
    (if (om_attempts m + 1 <? MAX_ATTEMPTS)%Z then reschedule (now + next_delay (om_attempts m)) error (bump now m)
     else mark_failed now error (bump now m)).
Proof.
  intros Hp Hz Hcf Hm Hpe Ha Hn Hfail. rewrite deliver_due_eq.
  destruct (claim_due now (fun _ => false) o) as [cs o1] eqn:E. cbn [fst snd].
  pose proof (claim_due_result _ _ _ _ _ E) as R.
  assert (Hpos : forall c, c ∈ cs -> (1 <= cl_attempts c)%Z).
  { intros c Hc. destruct (cr_claimed _ _ _ _ R c Hc) as (m0 & Hm0 & _ & -> & _). specialize (Hp _ _ Hm0). lia. }
  assert (Hall : exists project, {| cl_id := id; cl_project := project; cl_channel := om_channel m; cl_url := om_destination m;
                     cl_payload := om_payload m; cl_attempts := om_attempts m + 1 |} ∈ cs).
  { unfold claim_due in E. injection E as Ecs _.
    assert (Hin : (id, m) ∈ due_batch now (fun _ => false) o).
    { rewrite due_batch_all by done. apply elem_of_select. split; [done|]. apply due_iff. unfold pending in Hpe.
      apply andb_true_iff in Hpe as [?%is_none_true ?%is_none_true]. split_and!; try done. rewrite Hcf. apply exists_row_false.
      intros k v. by rewrite lookup_empty. }
    destruct (mapM (claimed_row now) (due_batch now (fun _ => false) o)) as [cs'|] eqn:Em; cbn in Ecs; subst cs.
    - apply mapM_Some in Em. apply list_elem_of_lookup in Hin as [i Hi]. destruct (Forall2_lookup_l _ _ _ _ _ Em Hi) as (c & Hc & Er).
      unfold claimed_row in Er. cbn in Er. destruct (om_project m) as [p|] eqn:Epj; [|done]. injection Er as <-. exists p. by eapply list_elem_of_lookup_2.
    - exfalso. apply mapM_None, Exists_exists in Em as ([i m0] & Hi & Er). apply due_batch_elem in Hi as [Hi _].
      unfold claimed_row in Er. cbn in Er. destruct (om_project m0) eqn:Ep; [done|]. by destruct (Hp _ _ Hi). }
  destruct Hall as [project Hc]. destruct (cr_claimed _ _ _ _ R _ Hc) as (m0 & Hm0 & _ & _ & Hb). cbn in Hm0, Hb.
  rewrite Hm in Hm0. injection Hm0 as <-. destruct (Hfail (om_attempts m + 1)%Z now project) as (http & error & Hd). exists error.
  pose proof (run_claims_one now cs o1 _ (cr_NoDup _ _ _ _ R) Hpos Hc) as Hone. cbn [cl_id] in Hone. rewrite Hone, Hb, Hd. cbn [fmap option_fmap option_map].
  unfold record_failed_delivery_attempt. rewrite Z.ltb_antisym. destruct (MAX_ATTEMPTS <=? om_attempts m + 1)%Z; cbn; [done|].
  by replace (om_attempts m + 1 - 1)%Z with (om_attempts m) by lia.
Qed.
End giving_up.

Section given_up.
Context `{UuidText} (t : transports) (tm : nat -> Z).

(** [n] passes, at the times [tm 0], [tm 1], .. *)
Fixpoint run_passes (n : nat) (o : outbox) : outbox :=
  match n with O => o | S k => deliver_due (tm k) t (run_passes k o) end.

Lemma always_fails_same id m m' : om_channel m' = om_channel m -> om_destination m' = om_destination m -> om_payload m' = om_payload m ->
  always_fails t id m -> always_fails t id m'.
Proof. unfold always_fails. intros -> -> ->. done. Qed.

Lemma passes_shape n o : attempts_pos o ->
  attempts_pos (run_passes n o) /\ size (outbox_messages (run_passes n o)) = size (outbox_messages o) /\
  notification_configs (run_passes n o) = notification_configs o.
Proof.
  intros Hp. induction n as [|n (IH1 & IH2 & IH3)]; [done|]. cbn [run_passes]. destruct (deliver_due_shape t (tm n) _ IH1) as [-> ->].
  split_and!; [by apply deliver_due_attempts|done|done].
Qed.

Lemma failing_passes o id m n :
  attempts_pos o -> size (outbox_messages o) <= 20 -> notification_configs o = ∅ ->
  outbox_messages o !! id = Some m -> pending m = true -> om_attempts m = 0%Z -> (om_next_attempt_at m <= tm 0)%Z ->
  (forall k, (tm k + next_delay (Z.of_nat k) <= tm (S k))%Z) -> always_fails t id m -> n < 8 ->
  exists m', outbox_messages (run_passes n o) !! id = Some m' /\ pending m' = true /\ om_attempts m' = Z.of_nat n /\
    (om_next_attempt_at m' <= tm n)%Z /\ always_fails t id m'.
Proof.
  intros Hp Hz Hc Hm Hpe Ha Hn Ht Hf. induction n as [|n IH]; intros Hlt; [exists m; by split_and!|].
  destruct IH as (m' & Hm' & Hpe' & Ha' & Hn' & Hf'); [lia|]. destruct (passes_shape n o Hp) as (Sp & Sz & Sc). cbn [run_passes].
  destruct (failing_pass t (tm n) (run_passes n o) id m') as [error E]; try done; [by rewrite Sz|by rewrite Sc|rewrite Ha'; unfold MAX_ATTEMPTS; lia|].
  rewrite Ha' in E. destruct (Z.ltb_spec (Z.of_nat n + 1) MAX_ATTEMPTS) as [_|Hge]; [|unfold MAX_ATTEMPTS in Hge; lia].
  eexists. split; [exact E|]. split_and!; [done|cbn; lia|apply Ht|by apply (always_fails_same id m')].
Qed.

(** A message whose every delivery fails is tried in eight
    passes, with waits of 15 seconds to 16 minutes in between that double each
    time, and is given up by the eighth and not before, at least 1905 seconds
    after the first. *)
Theorem undeliverable_given_up o id m :
  attempts_pos o -> size (outbox_messages o) <= 20 -> notification_configs o = ∅ ->
  outbox_messages o !! id = Some m -> pending m = true -> om_attempts m = 0%Z -> (om_next_attempt_at m <= tm 0)%Z ->
  (forall k, (tm k + next_delay (Z.of_nat k) <= tm (S k))%Z) -> always_fails t id m ->
  (forall n, n < 8 -> exists m', outbox_messages (run_passes n o) !! id = Some m' /\ pending m' = true /\ om_attempts m' = Z.of_nat n) /\
  (exists m', outbox_messages (run_passes 8 o) !! id = Some m' /\ om_delivered_at m' = None /\ om_failed_at m' = Some (tm 7) /\
     om_attempts m' = MAX_ATTEMPTS) /\
  (tm 0 + seconds 1905 <= tm 7)%Z.
Proof.
  intros Hp Hz Hc Hm Hpe Ha Hn Ht Hf. split_and!.
  - intros n Hlt. destruct (failing_passes o id m n) as (m' & ? & ? & ? & _); eauto.
  - destruct (failing_passes o id m 7) as (m' & Hm' & Hpe' & Ha' & Hn' & Hf'); try done; [lia|].
    destruct (passes_shape 7 o Hp) as (Sp & Sz & Sc). change (run_passes 8 o) with (deliver_due (tm 7) t (run_passes 7 o)).
    destruct (failing_pass t (tm 7) (run_passes 7 o) id m') as [error E]; try done; [by rewrite Sz|by rewrite Sc|by rewrite Ha'|].
    rewrite Ha' in E. eexists. split; [exact E|]. cbn. unfold pending in Hpe'. apply andb_true_iff in Hpe' as [?%is_none_true _].
    by rewrite Ha'.
  - pose proof (Ht 0 : (tm 0 + seconds 15 <= tm 1)%Z) as H0.
    pose proof (Ht 1 : (tm 1 + seconds 30 <= tm 2)%Z) as H1.
    pose proof (Ht 2 : (tm 2 + seconds 60 <= tm 3)%Z) as H2.
    pose proof (Ht 3 : (tm 3 + seconds 120 <= tm 4)%Z) as H3.
    pose proof (Ht 4 : (tm 4 + seconds 240 <= tm 5)%Z) as H4.
    pose proof (Ht 5 : (tm 5 + seconds 480 <= tm 6)%Z) as H5.
    pose proof (Ht 6 : (tm 6 + seconds 960 <= tm 7)%Z) as H6.
    unfold seconds in *. lia.
Qed.
End given_up.

#[local] Existing Instance plain_uuid.

Definition demo_message : outbox_message := new_message 0 2 1 §"webhook:1" §"webhook" §"https://example.org/hook" ∅.
Definition demo_one : outbox := set_messages (fun _ => {[ 7%N := demo_message ]}) demo_db.
Definition demo_times (k : nat) : Z := seconds (4000 * Z.of_nat k).

Lemma undeliverable_given_up_witness :
  exists m', outbox_messages (run_passes demo_down demo_times 8 demo_one) !! 7%N = Some m' /\ om_delivered_at m' = None /\
    om_failed_at m' = Some (seconds 28000) /\ om_attempts m' = MAX_ATTEMPTS.
Proof.
  refine (proj1 (proj2 (undeliverable_given_up demo_down demo_times demo_one 7 demo_message _ _ _ _ _ _ _ _ _))); try reflexivity.
  - intros i m Hm. apply (lookup_singleton_Some 7%N i demo_message m) in Hm as [<- <-]. split; [reflexivity|discriminate].
  - vm_compute. lia.
  - intros k. pose proof (next_delay_bounds (Z.of_nat k) ltac:(lia)). unfold demo_times, seconds in *. lia.
  - intros n now project. exists None, §"timeout". reflexivity.
Defined.

(** ** Quiet hours *)

(** The claim's window is the reference [in_quiet_window] except when it
    wraps around midnight, where the reference holds in the evening and in the
    morning and the claim never: exactly then the two differ.  And a message
    waits for quiet hours only under a configuration with the action [drop]
    and a list of exceptions, when its payload has a status outside it. *)
Theorem quiet_hours `{UuidText} now m id c minute start stop :
  (0 <= minute < 1440)%Z -> (-1 <= start < 1440)%Z -> (-1 <= stop < 1440)%Z ->
  (sql_quiet_window minute start stop = in_quiet_window minute start stop <->
   ~ ((0 <= stop < start)%Z /\ ((start <= minute)%Z \/ (minute < stop)%Z))) /\
  (quiets now m id c = true <->
   om_project m = Some (nc_project c) /\ nc_enabled c = true /\ om_subscription m = subscription_of id /\
   nc_quiet_action c = §"drop" /\ (0 <= nc_quiet_start c <= minute_of_day now)%Z /\ (minute_of_day now < nc_quiet_end c)%Z /\
   exists status, arrow (om_payload m) §"status" = Some status /\ status ∉ nc_quiet_bypass c /\ nc_quiet_bypass c <> []).
Proof.
  intros Hm Hs He. split.
  - unfold sql_quiet_window, in_quiet_window, in_range.
    destruct (Z.ltb_spec start 0), (Z.ltb_spec stop 0), (Z.eqb_spec start stop), (Z.ltb_spec start stop), (Z.leb_spec 0 start),
      (Z.leb_spec start minute), (Z.leb_spec minute (stop - 1)), (Z.ltb_spec minute stop); cbn; try lia; split; intros; try done; try lia.
  - unfold quiets, sql_quiet_window, in_range. rewrite !andb_true_iff, !Z.leb_le, !str_eqb_true, bool_decide_eq_true.
    set (ms := minute_of_day now). set (drop := §"drop").
    assert (Hq : passes (sql_not (sql_or (sql_any (arrow (om_payload m) §"status") (nc_quiet_bypass c)) (Some (is_empty (nc_quiet_bypass c))))) = true <->
      exists status, arrow (om_payload m) §"status" = Some status /\ status ∉ nc_quiet_bypass c /\ nc_quiet_bypass c <> []).
    { unfold passes. rewrite bool_decide_eq_true. destruct (nc_quiet_bypass c) as [|b bs] eqn:Eb; cbn [is_empty sql_any].
      - split; [done|]. intros (? & _ & _ & []). done.
      - unfold sql_any. cbn [is_empty]. destruct (arrow (om_payload m) §"status") as [s|]; cbn [fmap option_fmap option_map].
        + destruct (existsb (str_eqb s) (b :: bs)) eqn:Ex; cbn [sql_or sql_not negb fmap option_fmap option_map].
          * split; [done|]. intros (s' & [= <-] & Hn & _). apply existsb_iff in Ex as (x & Hx & ->%str_eqb_true). by destruct Hn.
          * split; [intros _; exists s|done]. split_and!; [done| |done]. intros Hin.
            rewrite existsb_false_iff in Ex. specialize (Ex s Hin). by rewrite str_eqb_refl in Ex.
        + cbn [sql_or sql_not]. split; [done|]. by intros (? & ? & _). }
    rewrite Hq. split.
    + intros [[[[[Hp Hen] Hsub] Hact] [Hst [Hlo Hhi]]] Hex]. split_and!; try done; lia.
    + intros (Hp & Hen & Hsub & Hact & [Hst Hlo] & Hhi & Hex). split_and!; try done; lia.
Qed.

Lemma quiet_hours_witness :
  sql_quiet_window 1380 1320 360 = false /\ in_quiet_window 1380 1320 360 = true /\
  (sql_quiet_window 1380 1320 360 = in_quiet_window 1380 1320 360 <->
   ~ ((0 <= 360 < 1320)%Z /\ ((1320 <= 1380)%Z \/ (1380 < 360)%Z))).
Proof.
  split_and!; [reflexivity|reflexivity|].
  apply (quiet_hours 0 demo_message 1 {| nc_project := 1; nc_channel := []; nc_target := []; nc_enabled := true; nc_window_secs := 0;
    nc_quiet_start := 0; nc_quiet_end := 0; nc_quiet_action := []; nc_quiet_bypass := [] |}); lia.
Defined.

(** ** Requeueing *)

(** Requeueing is refused unless the message was given up, and
    otherwise adds a copy under the next generation of its subscription, free
    to be claimed at once; nothing else changes, so that the history of the
    failed delivery stays. *)
Theorem requeue_replays now new_id id o m :
  outbox_messages o !! id = Some m -> check m = true -> outbox_messages o !! new_id = None ->
  (om_delivered_at m <> None \/ om_failed_at m = None -> requeue_failed_delivery now new_id id o = Ok (Err NotFailed, o)) /\
  (om_delivered_at m = None -> om_failed_at m <> None ->
   exists m', requeue_failed_delivery now new_id id o = Ok (Ok new_id, set_messages (insert new_id m') o) /\
     om_event m' = om_event m /\ om_subscription m' = om_subscription m /\ om_channel m' = om_channel m /\
     om_destination m' = om_destination m /\ om_payload m' = om_payload m /\ om_replay_of m' = Some id /\
     pending m' = true /\ om_attempts m' = 0%Z /\ om_next_attempt_at m' = now /\
     forall i w, outbox_messages o !! i = Some w -> om_event w = om_event m -> om_subscription w = om_subscription m ->
       (om_generation w < om_generation m')%Z).
Proof.
  intros Hm Hck Hnew. unfold requeue_failed_delivery. rewrite Hm. split.
  - intros Hor. destruct (om_delivered_at m), (om_failed_at m); cbn; try done. by destruct Hor.
  - intros -> Hf. destruct (om_failed_at m) as [f|] eqn:Ef; [cbn [is_some is_none negb orb]|done].
    set (p := fun (_ : N) w => (om_event w =? om_event m)%N && str_eqb (om_subscription w) (om_subscription m)).
    set (g := match select_max om_generation p (outbox_messages o) with Some kw => (om_generation kw.2 + 1)%Z | None => 0%Z end).
    assert (Hg : forall i w, outbox_messages o !! i = Some w -> om_event w = om_event m -> om_subscription w = om_subscription m ->
                 (om_generation w < g)%Z).
    { intros i w Hw E1 E2. assert (Hp : p i w = true) by (unfold p; by rewrite E1, E2, N.eqb_refl, str_eqb_refl).
      pose proof (foldl_best om_generation (select p (outbox_messages o)) None) as Hb. fold (select_max om_generation p (outbox_messages o)) in Hb.
      assert (Hin : (i, w) ∈ select p (outbox_messages o)) by (by apply elem_of_select). unfold g.
      destruct (select_max om_generation p (outbox_messages o)) as [[k v]|]; [|destruct Hb as [_ Hb]; rewrite Hb in Hin; by apply elem_of_nil in Hin].
      destruct Hb as (_ & Hb & _). specialize (Hb _ Hin). cbn in *. lia. }
    unfold insert_message. set (m' := Build_outbox_message _ _ _ _ _ _ _ _ _ _ _ _ _ _). exists m'.
    assert (E : insert_row new_id m' (outbox_messages o) = Ok (<[new_id := m']> (outbox_messages o))).
    { apply insert_row_Ok. by split_and!. }
    rewrite E. cbn [rbind]. by split_and!.
Qed.

Lemma requeue_replays_witness :
  exists m m', outbox_messages (sy_db (demo_state demo_dead)) !! 7%N = Some m /\
    requeue_failed_delivery 0 9 7 (sy_db (demo_state demo_dead)) = Ok (Ok 9%N, set_messages (insert 9%N m') (sy_db (demo_state demo_dead))) /\
    om_payload m' = om_payload m /\ pending m' = true.
Proof.
  destruct (outbox_messages (sy_db (demo_state demo_dead)) !! 7%N) as [m|] eqn:Em; [|vm_compute in Em; discriminate Em].
  assert (Hm : check m = true /\ om_delivered_at m = None /\ om_failed_at m <> None).
  { vm_compute in Em. injection Em as <-. split_and!; [vm_compute; reflexivity|reflexivity|discriminate]. }
  destruct Hm as (Hc & Hd & Hf).
  destruct (proj2 (requeue_replays 0 9 7 _ m Em Hc ltac:(vm_compute; reflexivity)) Hd Hf) as (m' & E & _ & _ & _ & _ & Ep & _ & Epe & _).
  exists m, m'. split_and!; assumption || reflexivity.
Defined.

(** ** Merges *)

Section merges.
Context `{UuidText} (digest : str -> str).

Lemma opt_uuid_back u : match opt_uuid u with
  | JNull => Some None | JText s => Some <$> uuid_parse s | _ => None end = Some u.
Proof. destruct u as [i|]; [|done]. cbn. by rewrite uuid_parse_text. Qed.

(** What is stored is read back. *)
Lemma trigger_from_to t : in_range 0 u32_max (mt_schema_version t) = true -> trigger_from_value (trigger_value t) = Some t.
Proof.
  intros Hv. unfold trigger_from_value.
  assert (Hall : forallb (fun kv => bool_decide (kv.1 ∈ trigger_fields)) (map_to_list (trigger_value t)) = true).
  { apply forallb_iff. intros [k v] Hin%elem_of_map_to_list. apply bool_decide_eq_true. cbn.
    apply elem_of_list_to_map_2 in Hin. by apply (list_elem_of_fmap_2 fst) in Hin. }
  rewrite Hall. cbn [negb].
  assert (Hl : trigger_value t !! §"schemaVersion" = Some (JInt (mt_schema_version t)) /\
    trigger_value t !! §"repositoryId" = Some (JText (uuid_text (mt_repository t))) /\
    trigger_value t !! §"configurationId" = Some (JText (uuid_text (mt_configuration t))) /\
    trigger_value t !! §"reference" = Some (JText (mt_reference t)) /\
    trigger_value t !! §"commitSha" = Some (JText (mt_commit t)) /\
    trigger_value t !! §"idempotencyKey" = Some (JText (mt_key t)) /\
    trigger_value t !! §"mergeAttempt" = Some (opt_uuid (mt_merge_attempt t)) /\
    trigger_value t !! §"ownerSubject" = Some (opt_uuid (mt_owner t))) by (split_and!; reflexivity).
  destruct Hl as (E1 & E2 & E3 & E4 & E5 & E6 & E7 & E8).
  unfold u32_field, uuid_field, text_field, opt_uuid_field. rewrite E1, E2, E3, E4, E5, E6, E7, E8, Hv.
  cbn [mbind option_bind]. rewrite !uuid_parse_text. cbn [mbind option_bind].
  rewrite (opt_uuid_back (mt_merge_attempt t)) || idtac. 
  destruct t as [v r c n s k [a|] [w|]]; cbn; rewrite ?uuid_parse_text; done.
Qed.

(** What the merge of a pull request enqueues is, when the
    worker delivers it, a request for exactly that configuration, branch, commit
    and owner under the same idempotency key, once the merge attempt is
    confirmed; before that the delivery fails and is tried again.  Without a
    configuration for the reference nothing is enqueued, and a decision made
    once is kept. *)
Theorem merge_trigger_roundtrip now event id repository storage pull branch commit attempt owner policy repository_of
    storage_by_id confirmed ops o o' ops' :
  enqueue_merge_ci digest now event id repository storage pull (§"refs/heads/" ++ branch) commit attempt owner policy repository_of ops o
    = Ok (o', ops') ->
  branch <> [] -> (len commit = 40%Z \/ len commit = 64%Z) -> forallb is_ascii_hexdigit (bytes commit) = true ->
  storage_by_id repository = Ok storage ->
  let key := git_push_idempotency_key digest storage (§"refs/heads/" ++ branch) commit in
  match ops' !! (repository, key) with
  | Some (Some configuration) =>
    exists m, outbox_messages o' !! id = Some m /\ om_channel m = CHANNEL_PIPELINE_TRIGGER /\ om_project m = Some configuration /\
      deliver_merge_ci digest repository_of storage_by_id ops' confirmed configuration (om_payload m) =
      match attempt with
      | Some a =>
        if confirmed a repository commit
        then Ok {| pr_configuration := configuration; pr_branch := branch; pr_key := key; pr_commit := commit; pr_owner := owner |}
        else Err §"merge publication is not confirmed; exact ref reconciliation required"
      | None => Ok {| pr_configuration := configuration; pr_branch := branch; pr_key := key; pr_commit := commit; pr_owner := owner |}
      end
  | Some None => o' = o
  | None => False
  end /\
  (forall d, ops !! (repository, key) = Some d -> ops' = ops).
Proof.
  intros E Hb Hlen Hhex Hst key. unfold enqueue_merge_ci in E. fold key in E.
  set (d := push_decision_for_ref policy repository key ops) in E.
  assert (Hd : d.2 !! (repository, key) = Some d.1 /\ forall x, ops !! (repository, key) = Some x -> d.2 = ops).
  { unfold d, push_decision_for_ref. destruct (ops !! (repository, key)) eqn:Eo; cbn; [by rewrite Eo|]. by rewrite lookup_insert_eq. }
  destruct Hd as [Hd Hkeep].
  destruct d.1 as [configuration|]; [|injection E as <- <-; rewrite Hd; done].
  destruct (repository_of configuration) as [r|] eqn:Er; case_bool_decide as Hr; cbn [negb] in E; try done. injection Hr as ->.
  destruct (insert_event _ _ _) as [o1|]; [|done]. set (t := Build_MergePipelineTrigger _ _ _ _ _ _ _ _) in E.
  destruct (insert_message _ _ _) as [o2|] eqn:Ei; [|done]. injection E as <- <-. rewrite Hd. split; [|done].
  unfold insert_message in Ei. apply rbind_Ok_inv in Ei as (tb & (_ & -> & _)%insert_row_Ok & [= <-]). cbn [outbox_messages set_messages].
  eexists. rewrite lookup_insert_eq. split_and!; [reflexivity|done|done|]. cbn [om_payload new_message].
  unfold deliver_merge_ci. rewrite trigger_from_to by done. unfold t. cbn [ok_or rbind mt_reference mt_schema_version mt_configuration mt_commit mt_repository mt_merge_attempt mt_key mt_owner].
  assert (Hp : strip_prefix §"refs/heads/" (§"refs/heads/" ++ branch) = Some branch) by (by apply strip_prefix_Some).
  rewrite Hp. cbn [mbind option_bind]. destruct branch as [|b0 bs]; [done|]. cbn [is_empty ok_or rbind].
  rewrite N.eqb_refl, Hhex. assert (Hl : (len commit =? 40)%Z || (len commit =? 64)%Z = true).
  { apply orb_true_iff. rewrite !Z.eqb_eq. done. }
  rewrite Hl. cbn [negb orb Z.eqb]. rewrite Er, bool_decide_eq_true_2 by done. cbn [negb]. rewrite Hst. cbn [rbind]. fold key.
  rewrite str_eqb_refl, Hd, bool_decide_eq_true_2 by done. cbn [negb orb].
  destruct attempt as [a|]; [|done]. by destruct (confirmed a repository commit).
Qed.
End merges.

Definition demo_commit : str := repeat 97%N 40.

Definition demo_branch : str := [109; 97; 105; 110]%N.
Definition demo_storage : str := [97]%N.
Definition demo_digest (s : str) : str := s.
Definition demo_enqueue : result (outbox * push_operations) (option db_error) :=
  enqueue_merge_ci demo_digest 0 2 7 3 demo_storage 4 (§"refs/heads/" ++ demo_branch) demo_commit (Some 5%N) None (Some 1%N)
    (fun _ => Some 3%N) ∅ demo_db.
Definition demo_key : str := git_push_idempotency_key demo_digest demo_storage (§"refs/heads/" ++ demo_branch) demo_commit.

Lemma demo_enqueued : exists o' ops', demo_enqueue = Ok (o', ops') /\ ops' !! (3%N, demo_key) = Some (Some 1%N).
Proof.
  assert (Hok : match demo_enqueue with Ok r => bool_decide (r.2 !! (3%N, demo_key) = Some (Some 1%N)) | Err _ => false end = true)
    by (vm_compute; reflexivity).
  destruct demo_enqueue as [[o' ops']|e]; [|discriminate Hok]. exists o', ops'. split; [reflexivity|]. by apply bool_decide_eq_true in Hok.
Qed.

Lemma merge_trigger_roundtrip_witness :
  exists o' ops' m, demo_enqueue = Ok (o', ops') /\ outbox_messages o' !! 7%N = Some m /\
    deliver_merge_ci demo_digest (fun _ => Some 3%N) (fun _ => Ok demo_storage) ops' (fun _ _ _ => true) 1 (om_payload m) =
    Ok {| pr_configuration := 1; pr_branch := demo_branch; pr_key := demo_key; pr_commit := demo_commit; pr_owner := None |}.
Proof.
  destruct demo_enqueued as (o' & ops' & E & Hk).
  assert (Hl : len demo_commit = 40%Z) by (vm_compute; reflexivity).
  assert (Hh : forallb is_ascii_hexdigit (bytes demo_commit) = true) by (vm_compute; reflexivity).
  assert (Hb : demo_branch <> []) by discriminate.
  pose proof (merge_trigger_roundtrip demo_digest 0 2 7 3 demo_storage 4 demo_branch demo_commit (Some 5%N) None (Some 1%N) (fun _ => Some 3%N)
    (fun _ => Ok demo_storage) (fun _ _ _ => true) ∅ demo_db o' ops' E Hb (or_introl Hl) Hh eq_refl) as [T _].
  fold demo_key in T. rewrite Hk in T. destruct T as (m & Hm & _ & _ & Hd). exists o', ops', m. exact (conj E (conj Hm Hd)).
Defined.

(** ** Templates of notifications

    [render_template] replaces the four known placeholders and removes the
    rest.  A template is read as a list of segments. *)

(** ** Searching *)

(** A text without the first character of the pattern is skipped. *)
Lemma split_once_skip c pat s rest : c ∉ s ->
  split_once (c :: pat) (s ++ rest) = (fun p => (s ++ p.1, p.2)) <$> split_once (c :: pat) rest.
Proof.
  induction s as [|x s IH]; [cbn [app]; by destruct (split_once (c :: pat) rest) as [[a b]|]|].
  rewrite not_elem_of_cons. intros [Hx Hs]. cbn [app split_once strip_prefix]. destruct (N.eqb_spec c x); [congruence|].
  rewrite (IH Hs). by destruct (split_once (c :: pat) rest) as [[a b]|].
Qed.

Lemma split_once_here pat rest : split_once pat (pat ++ rest) = Some ([], rest).
Proof.
  pose proof (proj2 (strip_prefix_Some pat (pat ++ rest) rest) eq_refl) as E. by destruct (pat ++ rest); cbn; rewrite E.
Qed.

(** The occurrence found is the first. *)
Lemma split_once_first pat a b a' b' : split_once pat (a ++ pat ++ b) = Some (a', b') -> length a' <= length a.
Proof.
  revert a'. induction a as [|x a IH]; intros a'.
  - cbn [app]. rewrite split_once_here. intros [= <- <-]. done.
  - cbn [app split_once]. destruct (strip_prefix pat _); [intros [= <- <-]; cbn; lia|].
    destruct (split_once pat (a ++ pat ++ b)) as [[u v]|]; [|done]. intros [= <- <-]. cbn. specialize (IH u eq_refl). lia.
Qed.

Definition open_brace : N := 123.
Definition close_brace : N := 125.
Lemma open_text : §"{{" = [open_brace; open_brace]. Proof. reflexivity. Qed.
Lemma close_text : §"}}" = [close_brace; close_brace]. Proof. reflexivity. Qed.
Lemma placeholder_text k : placeholder k = open_brace :: open_brace :: k ++ [close_brace; close_brace].
Proof. reflexivity. Qed.

(** ** No placeholder is left *)

Definition clean (out : str) : Prop := forall a b c, out <> a ++ §"{{" ++ b ++ §"}}" ++ c.

Lemma clean_none out : split_once §"{{" out = None -> clean out.
Proof. intros Hn a b c ->. by apply (split_once_None _ _ Hn a (b ++ §"}}" ++ c)). Qed.

Lemma clean_unclosed out before rest :
  split_once §"{{" out = Some (before, rest) -> split_once §"}}" (§"{{" ++ rest) = None -> clean out.
Proof.
  intros E Hn a b c Eo. pose proof (split_once_Some _ _ _ _ E) as Es.
  rewrite Eo in E. apply split_once_first in E.
  apply (split_once_None _ _ Hn (drop (length before) a ++ §"{{" ++ b) c).
  assert (Ed : drop (length before) out = §"{{" ++ rest) by (rewrite Es; apply drop_app_length).
  rewrite <- Ed, Eo, drop_app_le by done. by rewrite <- !app_assoc.
Qed.

Lemma strip_clean f out : length out <= f -> clean (strip_placeholders f out).
Proof.
  revert out. induction f as [|f IH]; intros out Hl.
  - destruct out; [|cbn in Hl; lia]. cbn. intros a b c E. apply (f_equal length) in E. rewrite !length_app, open_text in E. cbn in E. lia.
  - cbn [strip_placeholders]. destruct (split_once §"{{" out) as [[before rest]|] eqn:E1; [|by apply clean_none].
    destruct (split_once §"}}" (§"{{" ++ rest)) as [[mid after]|] eqn:E2; [|by eapply clean_unclosed].
    apply IH. apply split_once_Some in E1, E2. apply (f_equal length) in E1, E2.
    rewrite !length_app, open_text in E1. rewrite !length_app, open_text, close_text in E2. rewrite length_app. cbn in *. lia.
Qed.

(** ** Templates as segments *)

Inductive segment : Type := Lit (s : str) | Var (key : str).

Definition brace_free (s : str) : Prop := open_brace ∉ s /\ close_brace ∉ s.
Definition segment_ok (g : segment) : Prop := match g with Lit s => brace_free s | Var k => brace_free k end.
Definition segment_text (g : segment) : str := match g with Lit s => s | Var k => placeholder k end.
Definition template_text (gs : list segment) : str := flat_map segment_text gs.

Definition subst (key value : str) (g : segment) : segment :=
  match g with Var k => if decide (k = key) then Lit value else g | Lit _ => g end.

Definition is_var (g : segment) : bool := match g with Var _ => true | Lit _ => false end.
Definition vars (gs : list segment) : nat := length (List.filter is_var gs).

Lemma vars_le gs : vars gs <= length (template_text gs).
Proof.
  unfold vars, template_text. induction gs as [|[s|k] gs IH]; cbn [List.filter is_var length flat_map segment_text];
    rewrite ?length_app; [done|lia|]. rewrite placeholder_text. cbn [length app]. lia.
Qed.

Lemma brace_free_inj k k' r r' : brace_free k -> brace_free k' ->
  k ++ close_brace :: r = k' ++ close_brace :: r' -> k = k'.
Proof.
  intros [_ Hk] [_ Hk'] E. pose proof (split_once_char close_brace k r Hk) as E1. rewrite E, (split_once_char close_brace k' r' Hk') in E1.
  congruence.
Qed.

(** Searching for one placeholder passes over another. *)
Lemma split_once_other k k' rest : brace_free k -> brace_free k' -> k' <> k ->
  split_once (placeholder k) (placeholder k' ++ rest) = (fun p => (placeholder k' ++ p.1, p.2)) <$> split_once (placeholder k) rest.
Proof.
  intros Hk Hk' Hne. set (pat := placeholder k).
  assert (E0 : strip_prefix pat (placeholder k' ++ rest) = None).
  { destruct (strip_prefix pat _) as [r|] eqn:E; [|done]. apply strip_prefix_Some in E. unfold pat in E. rewrite !placeholder_text in E.
    cbn in E. injection E as E. rewrite <- !app_assoc in E. cbn in E. by apply brace_free_inj in E. }
  assert (E1 : strip_prefix pat (open_brace :: (k' ++ [close_brace; close_brace]) ++ rest) = None).
  { unfold pat. rewrite placeholder_text. destruct Hk' as [Hk' _]. destruct k' as [|x k']; [done|].
    apply not_elem_of_cons in Hk' as [Hx _]. cbn -[open_brace]. rewrite N.eqb_refl. by destruct (N.eqb_spec open_brace x). }
  rewrite (placeholder_text k') in E0 |- *. cbn [app] in E0 |- *. cbn [split_once]. rewrite E0, E1.
  unfold pat. rewrite placeholder_text, split_once_skip.
  - by destruct (split_once _ rest) as [[a b]|].
  - destruct Hk' as [Hk' _]. rewrite elem_of_app, !elem_of_cons, elem_of_nil. unfold open_brace, close_brace in *. naive_solver.
Qed.

Lemma replace_segments f key value gs : (forall g, g ∈ gs -> segment_ok g) -> brace_free key -> vars gs <= f ->
  replace_from f (placeholder key) value (template_text gs) = template_text (map (subst key value) gs).
Proof.
  intros Hok Hkey. revert f. induction gs as [|g gs IH]; intros f Hf.
  - destruct f; [done|]. cbn -[placeholder]. by rewrite placeholder_text.
  - assert (Hg : segment_ok g) by (apply Hok; left).
    assert (IH' : forall f, vars gs <= f -> replace_from f (placeholder key) value (template_text gs) = template_text (map (subst key value) gs))
      by (apply IH; intros; apply Hok; by right). clear IH Hok.
    assert (Hskip : forall f p, (forall rest, split_once (placeholder key) (p ++ rest) = (fun q => (p ++ q.1, q.2)) <$> split_once (placeholder key) rest) ->
      replace_from f (placeholder key) value (p ++ template_text gs) = p ++ replace_from f (placeholder key) value (template_text gs)).
    { intros f' p Hp. destruct f'; [done|]. cbn [replace_from]. rewrite Hp. destruct (split_once _ _) as [[a b]|]; cbn; [|done].
      by rewrite <- app_assoc. }
    destruct g as [s|k]; cbn [template_text flat_map map subst segment_text].
    + fold (template_text gs). rewrite Hskip; [by rewrite IH'|]. intros rest. rewrite placeholder_text. apply split_once_skip, Hg.
    + fold (template_text gs). destruct (decide (k = key)) as [->|Hne].
      * destruct f as [|f]; [cbn in Hf; lia|]. cbn [replace_from]. rewrite split_once_here. cbn. rewrite IH'; [done|]. cbn in Hf. unfold vars. lia.
      * rewrite Hskip; [rewrite IH'; [done|unfold vars in *; cbn in Hf; lia]|]. intros rest. by apply split_once_other.
Qed.

Lemma replace_template key value gs : (forall g, g ∈ gs -> segment_ok g) -> brace_free key ->
  replace (placeholder key) value (template_text gs) = template_text (map (subst key value) gs).
Proof. intros Hok Hk. apply replace_segments; [done|done|apply vars_le]. Qed.

(** What remains after the known placeholders are gone. *)
Lemma strip_segments gs f p : (forall g, g ∈ gs -> segment_ok g) -> open_brace ∉ p -> vars gs <= f ->
  strip_placeholders f (p ++ template_text gs) = p ++ flat_map (fun g => match g with Lit s => s | Var _ => [] end) gs.
Proof.
  intros Hok. revert f p. induction gs as [|g gs IH]; intros f p Hp Hf.
  - cbn. rewrite app_nil_r. destruct f; [done|]. cbn [strip_placeholders].
    pose proof (split_once_skip open_brace [open_brace] p [] Hp) as E. rewrite app_nil_r in E. rewrite open_text, E. done.
  - assert (Hg : segment_ok g) by (apply Hok; left). specialize (IH ltac:(intros; apply Hok; by right)).
    destruct g as [s|k]; cbn [template_text flat_map segment_text]; fold (template_text gs).
    + rewrite app_assoc, IH, app_assoc; [done| |done]. destruct Hg as [Hs _]. rewrite elem_of_app. tauto.
    + destruct f as [|f]; [cbn in Hf; lia|]. cbn [strip_placeholders]. rewrite open_text, (split_once_skip open_brace [open_brace]) by done.
      assert (E : split_once [open_brace; open_brace] (placeholder k ++ template_text gs) =
                  Some ([], k ++ [close_brace; close_brace] ++ template_text gs)).
      { rewrite placeholder_text. cbn [app]. rewrite <- app_assoc. apply (split_once_here [open_brace; open_brace]). }
      rewrite E. cbn [fmap option_fmap option_map fst snd]. rewrite app_nil_r.
      assert (E2 : split_once §"}}" ([open_brace; open_brace] ++ k ++ [close_brace; close_brace] ++ template_text gs) =
                   Some ([open_brace; open_brace] ++ k, template_text gs)).
      { rewrite app_assoc, close_text, split_once_skip.
        - rewrite (split_once_here [close_brace; close_brace]). cbn [fmap option_fmap option_map fst snd]. by rewrite app_nil_r.
        - destruct Hg as [_ Hk]. rewrite elem_of_app, !elem_of_cons, elem_of_nil. unfold open_brace, close_brace in *. naive_solver. }
      rewrite E2. apply IH; [done|]. cbn in Hf. unfold vars. lia.
Qed.

(** ** The result *)

Section render.
Context `{UuidText}.

(** The value of a segment: unknown placeholders vanish. *)
Definition segment_value (values : list (str * str)) (g : segment) : str :=
  match g with
  | Lit s => s
  | Var k => match List.find (fun kv => str_eqb kv.1 k) values with Some kv => kv.2 | None => [] end
  end.

Lemma substitute_segments values gs : (forall g, g ∈ gs -> segment_ok g) ->
  (forall kv, kv ∈ values -> brace_free kv.1 /\ brace_free kv.2) ->
  exists gs', substitute values (template_text gs) = template_text gs' /\ (forall g, g ∈ gs' -> segment_ok g) /\
    flat_map (fun g => match g with Lit s => s | Var _ => [] end) gs' = flat_map (segment_value values) gs.
Proof.
  revert gs. induction values as [|[k v] values IH]; intros gs Hok Hv.
  - exists gs. split_and!; [done|done|]. clear Hok. induction gs as [|[s|k] gs IHg]; cbn; congruence.
  - destruct (Hv (k, v) ltac:(left)) as [Hk Hkv]. cbn in Hk, Hkv.
    destruct (IH (map (subst k v) gs)) as (gs' & E & Hok' & Ev).
    + intros g (g0 & -> & Hg)%list_elem_of_fmap. specialize (Hok g0 Hg). destruct g0 as [s|k0]; cbn; [done|]. by case_decide.
    + intros kv Hkv'. apply Hv. by right.
    + exists gs'. split_and!; [|done|].
      * unfold substitute in *. cbn [foldl fst snd]. by rewrite replace_template.
      * rewrite Ev. clear. induction gs as [|[s|k0] gs IHg]; cbn; [done|by rewrite IHg|]. rewrite <- IHg. f_equal.
        unfold str_eqb. case_decide as D; [subst; by rewrite bool_decide_eq_true_2|].
        rewrite bool_decide_eq_false_2 by congruence. done.
Qed.

Lemma brace_free_names : Forall brace_free [§"event"; §"project_id"; §"pipeline_id"; §"status"].
Proof.
  assert (Hd : forall s, forallb (fun c => negb (c =? open_brace)%N && negb (c =? close_brace)%N) s = true -> brace_free s).
  { intros s Hs. rewrite forallb_iff in Hs. split; intros Hin; specialize (Hs _ Hin); by vm_compute in Hs. }
  repeat constructor; try (apply Hd; vm_compute; reflexivity); apply Hd; vm_compute; reflexivity.
Qed.

(** Rendering always ends without a complete placeholder in the
    result, whatever the template.  Where template and values have no stray
    braces, every known placeholder becomes its value, every unknown one
    vanishes, and the rest of the text stays as it is. *)
Theorem render_template_spec template event_type project pipeline status :
  clean (render_template template event_type project pipeline status) /\
  forall gs, template = template_text gs -> (forall g, g ∈ gs -> segment_ok g) ->
    brace_free event_type -> brace_free status -> brace_free (uuid_text project) -> brace_free (uuid_text pipeline) ->
    render_template template event_type project pipeline status =
    flat_map (segment_value (template_vars event_type project pipeline status)) gs.
Proof.
  split; [by apply strip_clean|]. intros gs -> Hok He Hs Hp Hq. unfold render_template.
  pose proof brace_free_names as Hn. rewrite Forall_forall in Hn.
  destruct (substitute_segments (template_vars event_type project pipeline status) gs Hok) as (gs' & -> & Hok' & <-).
  - intros kv. unfold template_vars. rewrite !elem_of_cons. 
    intros [->|[->|[->|[->|?%elem_of_nil]]]]; [| | | |done]; (split; [apply Hn|done]).
    + left.
    + right. left.
    + right. right. left.
    + right. right. right. left.
  - apply (strip_segments gs' (length (template_text gs')) []); [done|apply not_elem_of_nil|apply vars_le].
Qed.
End render.

#[local] Instance dashed_uuid : UuidText := {
  uuid_text u := [(u + 200)%N]; uuid_simple u := [u];
  uuid_parse s := match s with [u] => Some (u - 200)%N | _ => None end;
  uuid_parse_text a := f_equal Some (N.add_sub a 200) }.

Local Open Scope N_scope.

Lemma render_template_spec_witness :
  render_template (template_text [Lit [80; 32]; Var §"pipeline_id"; Lit [58]; Var [88]; Lit [33]]) [101] 1 2 [102] = [80; 32; 202; 58; 33].
Proof.
  assert (Hb : forall s, forallb (fun c => negb (c =? open_brace)%N && negb (c =? close_brace)%N) s = true -> brace_free s).
  { intros s Hs. rewrite forallb_iff in Hs. split; intros Hin; specialize (Hs _ Hin); vm_compute in Hs; discriminate Hs. }
  rewrite (proj2 (render_template_spec (template_text [Lit [80; 32]; Var §"pipeline_id"; Lit [58]; Var [88]; Lit [33]]%N) [101]%N 1 2 [102]%N)
             [Lit [80; 32]; Var §"pipeline_id"; Lit [58]; Var [88]; Lit [33]]%N eq_refl).
  - vm_compute. reflexivity.
  - apply Forall_forall. repeat (apply Forall_cons; split); try apply Forall_nil; cbn [segment_ok]; try exact I; apply Hb; vm_compute; reflexivity.
  - apply Hb. reflexivity.
  - apply Hb. reflexivity.
  - apply Hb. reflexivity.
  - apply Hb. reflexivity.
Defined.
