(* ===== verification/Pulls.v ===== *)
(** * Pull requests: rows, statements and listings

    [backend/src/pulls.rs] and [backend/infra/src/pull_merge.rs] with the
    migrations 0001, 0090, 0098 and 0112.  A statement changes the [store] or
    fails; a transaction is a list of them ([PullMerge]).  [catalog] is the
    identity of a storage name in [repository_catalog], which never changes. *)
From S2P Require Import Prelude Table Outbox Api.

(** ** Rows *)

Inductive pr_status : Type := PrOpen | PrMerged | PrClosed.
Inductive attempt_state : Type := Prepared | Confirmed | Rejected.
#[export] Instance pr_status_eq_dec : EqDecision pr_status. Proof. solve_decision. Defined.
#[export] Instance attempt_state_eq_dec : EqDecision attempt_state. Proof. solve_decision. Defined.

Record PullRequest : Type := {
  pl_storage : str;
  pl_repository : option N;
  pl_number : Z;
  pl_title : str;
  pl_description : str;
  pl_source : str;
  pl_target : str;
  pl_status : pr_status;
  pl_created_by : str;
  pl_created_at : Z;
  pl_updated_at : Z;
  pl_merged_at : option Z;
  pl_merge_commit : option str }.

Record Attempt : Type := {
  ma_pull : N;
  ma_repository : N;
  ma_source_ref : str;
  ma_source_oid : str;
  ma_target_ref : str;
  ma_target_oid : str;
  ma_merge_oid : str;
  ma_state : attempt_state;
  ma_owner : option N;
  ma_completed_at : option Z }.

(** [UNIQUE(repository_name, number)] and the index on [(repository_id, number)] *)
#[export] Instance pull_schema : Schema PullRequest.
Proof.
  refine {| check _ := true;
            conflict x y := (str_eqb (pl_storage x) (pl_storage y) || is_some (pl_repository x) && bool_decide (pl_repository x = pl_repository y))
                            && (pl_number x =? pl_number y)%Z |}.
  intros x y. rewrite (Z.eqb_sym (pl_number x)). f_equal. unfold str_eqb. f_equal; [apply bool_decide_ext; done|].
  destruct (pl_repository x) as [a|], (pl_repository y) as [b|]; try done. cbn. by apply bool_decide_ext.
Defined.

Definition is_oid (s : str) : bool := lower_hex s 40 || lower_hex s 64.

(** [CHECK]s of 0098 and [pull_request_merge_one_active] *)
#[export] Instance attempt_schema : Schema Attempt.
Proof.
  refine {| check a := starts_with §"refs/heads/" (ma_source_ref a) && starts_with §"refs/heads/" (ma_target_ref a)
                       && negb (str_eqb (ma_target_ref a) (ma_source_ref a))
                       && is_oid (ma_source_oid a) && is_oid (ma_target_oid a) && is_oid (ma_merge_oid a)
                       && Bool.eqb (bool_decide (ma_state a = Prepared)) (is_none (ma_completed_at a))
                       && negb (bool_decide (ma_owner a = Some 0%N));
            conflict x y := (ma_pull x =? ma_pull y)%N && negb (bool_decide (ma_state x = Rejected)) && negb (bool_decide (ma_state y = Rejected)) |}.
  intros x y. rewrite (N.eqb_sym (ma_pull x)), <- !andb_assoc. f_equal. apply andb_comm.
Defined.

(** [repository_push_configs]: the configuration of a repository, and the
    references it is for. *)
Record store : Type := {
  pulls : gmap N PullRequest;
  attempts : gmap N Attempt;
  counters : gmap N Z;
  push_configs : gmap N (option N * list str);
  operations : push_operations;
  outbound : outbox }.

Definition set_pulls (t : gmap N PullRequest) (s : store) : store := {|
  pulls := t; attempts := attempts s; counters := counters s; push_configs := push_configs s; operations := operations s; outbound := outbound s |}.
Definition set_attempts (t : gmap N Attempt) (s : store) : store := {|
  pulls := pulls s; attempts := t; counters := counters s; push_configs := push_configs s; operations := operations s; outbound := outbound s |}.
Definition set_counters (t : gmap N Z) (s : store) : store := {|
  pulls := pulls s; attempts := attempts s; counters := t; push_configs := push_configs s; operations := operations s; outbound := outbound s |}.
Definition set_delivery (ops : push_operations) (o : outbox) (s : store) : store := {|
  pulls := pulls s; attempts := attempts s; counters := counters s; push_configs := push_configs s; operations := ops; outbound := o |}.

Definition set_status (now : Z) (st : pr_status) (merged_at : option Z) (commit : option str) (p : PullRequest) : PullRequest := {|
  pl_storage := pl_storage p; pl_repository := pl_repository p; pl_number := pl_number p; pl_title := pl_title p;
  pl_description := pl_description p; pl_source := pl_source p; pl_target := pl_target p; pl_status := st;
  pl_created_by := pl_created_by p; pl_created_at := pl_created_at p; pl_updated_at := now; pl_merged_at := merged_at;
  pl_merge_commit := commit |}.

Definition set_attempt (st : attempt_state) (owner : option N) (completed : option Z) (a : Attempt) : Attempt := {|
  ma_pull := ma_pull a; ma_repository := ma_repository a; ma_source_ref := ma_source_ref a; ma_source_oid := ma_source_oid a;
  ma_target_ref := ma_target_ref a; ma_target_oid := ma_target_oid a; ma_merge_oid := ma_merge_oid a; ma_state := st;
  ma_owner := owner; ma_completed_at := completed |}.

(** ** Statements *)

(** [FROM pull_requests WHERE repository_name = $1 AND number = $2] *)
Definition find_pull (storage : str) (number : Z) (s : store) : option (N * PullRequest) :=
  head (select (fun _ p => str_eqb (pl_storage p) storage && (pl_number p =? number)%Z) (pulls s)).

(** [pull_merge::active] *)
Definition active_attempt (pull : N) (s : store) : option (N * Attempt) :=
  head (select (fun _ a => (ma_pull a =? pull)%N && negb (bool_decide (ma_state a = Rejected))) (attempts s)).

(** [pull_merge::prepare], and the owner *)
Definition prepare (id : N) (a : Attempt) (s : store) : result store db_error :=
  match pulls s !! ma_pull a with
  | None => Err ForeignKeyViolation
  | Some _ => let? t := insert_row id a (attempts s) in Ok (set_attempts t s)
  end.

Definition set_owner (id : N) (owner : option N) (s : store) : result store db_error :=
  match attempts s !! id with
  | Some a => let? t := put id (set_attempt (ma_state a) owner (ma_completed_at a) a) (attempts s) in Ok (set_attempts t s)
  | None => Ok s
  end.

(** [pull_merge::finish] *)
Definition finish (now : Z) (id : N) (published : bool) (s : store) : result store db_error :=
  match attempts s !! id with
  | Some a =>
    if bool_decide (ma_state a = Prepared)
    then let? t := put id (set_attempt (if published then Confirmed else Rejected) (ma_owner a) (Some now) a) (attempts s) in Ok (set_attempts t s)
    else Err RowNotFound
  | None => Err RowNotFound
  end.

(** [UPDATE pull_requests SET status='closed' ..], and ['open'] *)
Definition change_status (now : Z) (pull : N) (st : pr_status) (s : store) : result store db_error :=
  match pulls s !! pull with
  | Some p => Ok (set_pulls (<[pull := set_status now st (pl_merged_at p) (pl_merge_commit p) p]> (pulls s)) s)
  | None => Err RowNotFound
  end.

(** [UPDATE pull_requests SET status='merged' .. WHERE id=$1 AND status='open'] *)
Definition mark_merged (now : Z) (pull : N) (oid : str) (s : store) : result store db_error :=
  match pulls s !! pull with
  | Some p =>
    if bool_decide (pl_status p = PrOpen)
    then Ok (set_pulls (<[pull := set_status now PrMerged (Some now) (Some oid) p]> (pulls s)) s)
    else Err RowNotFound
  | None => Err RowNotFound
  end.

(** The configuration the current settings name for a reference. *)
Definition push_policy (repository : N) (reference : str) (s : store) : option N :=
  match push_configs s !! repository with
  | Some (configuration, refs) => if is_empty refs || bool_decide (reference ∈ refs) then configuration else None
  | None => None
  end.

Section statements.
Context `{UuidText} (digest : str -> str) (repository_of : N -> option N).

(** [push_decision_for_ref] with the key of a merge. *)
Definition capture_policy (repository : N) (key reference : str) (s : store) : store :=
  set_delivery (push_decision_for_ref (push_policy repository reference s) repository key (operations s)).2 (outbound s) s.

(** [enqueue_merge_ci]; no error of the database is the mismatch of the
    repository. *)
Definition enqueue_ci (now : Z) (event message : N) (repository : N) (storage : str) (pull : N) (reference commit : str)
    (attempt owner : option N) (s : store) : result store (option db_error) :=
  let? r := enqueue_merge_ci digest now event message repository storage pull reference commit attempt owner
              (push_policy repository reference s) repository_of (operations s) (outbound s) in
  Ok (set_delivery r.2 r.1 s).
End statements.

(** ** Branch names *)

Definition head_ref (name : str) : str := §"refs/heads/" ++ name.

(** [branch_reference] up to the check by Git: name and reference. *)
Definition branch_name (branch : str) : result (str * str) ApiError :=
  let branch := trim branch in
  let name := default branch (strip_prefix §"refs/heads/" branch) in
  if is_empty name || str_eqb name §"HEAD" || starts_with §"refs/" name || existsb is_control name
  then Err (bad_request §"Требуется имя ветки Git")
  else Ok (name, head_ref name).

(** ** Creation *)

Record CreatePullRequest : Type := {
  cr_title : str; cr_description : option str; cr_source : str; cr_target : str; cr_author : option str }.

(** [allocate_repository_pr_number], an [integer] *)
Definition allocate_number (repository : N) (s : store) : result (Z * store) db_error :=
  let n := match counters s !! repository with Some n => (n + 1)%Z | None => 1%Z end in
  if (n <=? i32_max)%Z then Ok (n, set_counters (<[repository := n]> (counters s)) s) else Err DataException.

Section create.
Context (catalog : str -> option N) (check_ref_format : str -> result bool ApiError).

(** [branch_reference] *)
Definition branch_reference (branch : str) : result (str * str) ApiError :=
  let? r := branch_name branch in
  let? valid := check_ref_format r.2 in
  if valid then Ok r else Err (bad_request §"Недопустимое имя ветки Git").

(** Who created it: the confirmed author, the user of the token, or the label
    of the request. *)
Definition author (confirmed : option str) (user : option N) (username : N -> option str) (label : option str) : str :=
  match confirmed, user with
  | Some name, _ => name
  | None, Some id => default [] (username id)
  | None, None => default [] label
  end.

(** [create_pull_request] after the permissions, in a transaction. *)
Definition create_pull_request (now : Z) (id : N) (storage : str) (confirmed : option str) (user : option N) (username : N -> option str)
    (input : CreatePullRequest) (s : store) : result (PullRequest * store) ApiError :=
  if is_empty (trim (cr_title input)) || is_empty (trim (cr_source input)) || is_empty (trim (cr_target input))
  then Err (bad_request §"title, source_branch and target_branch are required")
  else
    let? source := branch_reference (cr_source input) in
    let? target := branch_reference (cr_target input) in
    if str_eqb source.2 target.2 then Err (bad_request §"source and target branches must differ")
    else
      let? repository := ok_or (catalog storage) internal in
      let? r := or_internal (allocate_number repository s) in
      let '(number, s) := r in
      let p := {| pl_storage := storage; pl_repository := Some repository; pl_number := number; pl_title := trim (cr_title input);
                  pl_description := default [] (cr_description input); pl_source := trim source.1; pl_target := trim target.1;
                  pl_status := PrOpen; pl_created_by := author confirmed user username (cr_author input);
                  pl_created_at := now; pl_updated_at := now; pl_merged_at := None; pl_merge_commit := None |} in
      let? t := or_internal (insert_row id p (pulls s)) in
      Ok (p, set_pulls t s).
End create.

(** ** Listings *)

Inductive PullRequestStatusFilter : Type := FilterOpen | FilterClosed | FilterMerged.

Record PullRequestListParams : Type := {
  lp_limit : option Z; lp_offset : option Z; lp_status : option PullRequestStatusFilter; lp_search : option str }.

Definition filter_status (f : PullRequestStatusFilter) : pr_status :=
  match f with FilterOpen => PrOpen | FilterClosed => PrClosed | FilterMerged => PrMerged end.

(** [PullRequestListParams::normalize]: limit, offset, status and search. *)
Definition normalize (p : PullRequestListParams) : result (Z * Z * option pr_status * option str) ApiError :=
  let limit := default 20%Z (lp_limit p) in
  if negb (in_range 1 100 limit) then Err (bad_request §"limit must be between 1 and 100")
  else
    let search := text ← lp_search p; let text := trim text in if is_empty text then None else Some text in
    if match search with Some text => (200 <? zlen text)%Z | None => false end
    then Err (bad_request §"search must not exceed 200 characters")
    else Ok (limit, default 0%Z (lp_offset p), filter_status <$> lp_status p, search).

Section listing.
(** [LOWER] of the database. *)
Context (lower : str -> str).

(** [CONCAT_WS(' ', number::text, title, source_branch, target_branch, created_by)] *)
Definition searched (p : PullRequest) : str :=
  join [32%N] [show_Z (pl_number p); pl_title p; pl_source p; pl_target p; pl_created_by p].

Definition listed (storage : str) (status : option pr_status) (search : option str) (p : PullRequest) : bool :=
  str_eqb (pl_storage p) storage
  && match status with Some st => bool_decide (pl_status p = st) | None => true end
  && match search with Some text => contains (lower text) (lower (searched p)) | None => true end.

(** [ORDER BY number DESC] *)
Definition by_number (a b : N * PullRequest) : Prop := (pl_number b.2 <= pl_number a.2)%Z.
#[export] Instance by_number_dec : RelDecision by_number.
Proof. intros a b. unfold by_number. apply _. Defined.

Definition matching (storage : str) (status : option pr_status) (search : option str) (s : store) : list (N * PullRequest) :=
  merge_sort by_number (select (fun _ => listed storage status search) (pulls s)).

(** [list_pull_requests] *)
Definition list_pull_requests (storage : str) (s : store) : list (N * PullRequest) := matching storage None None s.

Record PullRequestPage : Type := { pp_items : list (N * PullRequest); pp_total : Z; pp_limit : Z; pp_offset : Z }.

(** [list_pull_request_page] *)
Definition list_pull_request_page (storage : str) (params : PullRequestListParams) (s : store) : result PullRequestPage ApiError :=
  let? p := normalize params in
  let '(limit, offset, status, search) := p in
  let rows := matching storage status search s in
  Ok {| pp_items := take (Z.to_nat limit) (drop (Z.to_nat offset) rows); pp_total := zlen rows; pp_limit := limit; pp_offset := offset |}.

(** [get_pull_request] *)
Definition get_pull_request (storage : str) (number : Z) (s : store) : result (N * PullRequest) ApiError :=
  ok_or (find_pull storage number s) not_found.
End listing.
