(* ===== verification/PullMerge.v ===== *)
(** * Pull requests: the handler of merge, close and reopen

    [pr_action] of [backend/src/pulls.rs] and the statements of
    [backend/infra/src/pull_merge.rs] as programs of calls.  A transaction
    collects its writes, which [Commit] applies; what the calls do next to
    other handlers is in [PullSystem].  A merge keeps the repository's
    mutation guard from before its first transaction to its end.  A failing
    statement answers an [internal] error, whatever its code: the codes that
    [Api.internal_error] singles out change the status a caller sees, and
    nothing else. *)
From S2P Require Import Prelude Programs Table Outbox Api Pulls.

(** ** Writes of a transaction *)

Inductive write : Type :=
| InsertAttempt (id : N) (a : Attempt)
| SetOwner (id : N) (owner : option N)
| FinishAttempt (id : N) (published : bool)
| MarkMerged (pull : N) (oid : str)
| ChangeStatus (pull : N) (st : pr_status)
| EnqueueCi (event message repository : N) (storage : str) (pull : N) (reference commit : str) (attempt owner : option N).

(** [RETURNING] of an update of [pull_requests]. *)
Definition returned (w : write) : Type :=
  match w with MarkMerged _ _ | ChangeStatus _ _ => PullRequest | _ => unit end.

(** ** Calls *)

(** What a finished Git process left; its output as text. *)
Record Output : Type := { out_success : bool; out_stdout : str; out_stderr : str }.

(** How [pr_output] fails: the process, the lifetime of the proof, or what it
    needs before it starts. *)
Inductive git_failure : Type := GitIo | GitExpired | GitUnauthorized | GitForbidden | GitUnavailable (message : str).

Definition git_error (f : git_failure) : ApiError :=
  match f with
  | GitIo => internal
  | GitExpired => service_unavailable §"Git proof expired or execution timed out; exact ref readback required"
  | GitUnauthorized => unauthorized
  | GitForbidden => forbidden
  | GitUnavailable m => service_unavailable m
  end.

(** [merge-tree --write-tree -z], [commit-tree] with two parents, and
    [update-ref --stdin] of a plan that verifies one reference and updates
    another. *)
Inductive git_command : Type :=
| MergeTree (target source : str)
| CommitTree (tree target source message : str)
| UpdateRefs (verify verify_oid update new old : str).

Inductive op : Type :=
| RequestClock
| PolicyRequired
| EnterEffect (new_work : bool)
| CurrentOrigin
| ResolveStorage (repo : str)
| WriteLease (storage : str)
| RepositoryPath (storage : str)
| Permit (storage : str)
| RequireWrite
| ReadRepositoryId (storage : str)
| AcquireGuard (repository : N)
| Begin
| BindClock
| LockActor
| LockPull (storage : str) (number : Z)
| LockStatus (pull : N)
| ReadActive (pull : N)
| CheckRefFormat (reference : str)
| ShowRef (reference : str)
| ReadProtected (repository : option N) (branch : str)
| ReadGreen (repository : option N) (branch oid : str)
| Git (c : git_command)
| NewId
| RequireCreation
| CapturePolicy (repository : N) (key reference : str)
| ReadOwner (attempt : N)
| Exec (w : write)
| Commit
| Signal (repository : N).

(** [Permit] answers whether there is one; [Begin] the time of the
    transaction; [Git] also whether the input was written. *)
Definition answer (o : op) : Type :=
  match o with
  | RequestClock => result bool ApiError
  | PolicyRequired => result bool ApiError
  | EnterEffect _ => bool
  | CurrentOrigin => result unit ApiError
  | ResolveStorage _ => result str ApiError
  | WriteLease _ | RepositoryPath _ => result unit ApiError
  | Permit _ => result bool ApiError
  | RequireWrite => result unit ApiError
  | ReadRepositoryId _ => result N db_error
  | AcquireGuard _ => result unit ApiError
  | Begin => result Z db_error
  | BindClock | LockActor => result unit ApiError
  | LockPull _ _ => result (option (N * PullRequest)) db_error
  | LockStatus _ => result pr_status db_error
  | ReadActive _ => result (option (N * Attempt)) db_error
  | CheckRefFormat _ => result bool unit
  | ShowRef _ => result Output unit
  | ReadProtected _ _ => result bool db_error
  | ReadGreen _ _ _ => result bool db_error
  | Git _ => result (bool * Output) git_failure
  | NewId => N
  | RequireCreation => result (option N) ApiError
  | CapturePolicy _ _ _ => result unit ApiError
  | ReadOwner _ => result (option N) db_error
  | Exec w => result (returned w) (option db_error)
  | Commit => result unit db_error
  | Signal _ => unit
  end.

Abbreviation io := (Programs.io answer).
Abbreviation call := (Programs.call (answer := answer)).

(** [map_err(|_| e)?] *)
Definition mapped {E A} (e : ApiError) (p : io (result A E)) : io (result A ApiError) :=
  run! r := p in Done (or_error e r).

Definition fail {A} (e : ApiError) : io (result A ApiError) := Done (Err e).

Definition merge_unconfirmed : ApiError :=
  service_unavailable §"Публикация merge не подтверждена; перечитайте состояние веток перед повтором".

(** [require_write(write)?] *)
Definition require_write (permit : bool) : io (result unit ApiError) := if permit then call RequireWrite else Done (Ok tt).

(** ** Branches *)

Record BranchSnapshot : Type := { bs_name : str; bs_reference : str; bs_oid : str }.

Definition branch_reference (branch : str) : io (result (str * str) ApiError) :=
  match branch_name branch with
  | Err e => fail e
  | Ok r =>
    run? valid := mapped internal (call (CheckRefFormat r.2)) in
    if valid then Done (Ok r) else fail (bad_request §"Недопустимое имя ветки Git")
  end.

Definition branch_snapshot (branch : str) : io (result BranchSnapshot ApiError) :=
  run? r := branch_reference branch in
  run? observed := mapped internal (call (ShowRef r.2)) in
  if negb (out_success observed) then fail (conflict_error §"Ветка недоступна")
  else
    let oid := trim (out_stdout observed) in
    if is_oid oid then Done (Ok {| bs_name := r.1; bs_reference := r.2; bs_oid := oid |})
    else fail (service_unavailable §"Не удалось определить SHA ветки Git").

(** ** Publication *)

(** [git_host::pr_output] *)
Definition pr_output (c : git_command) : io (result Output ApiError) :=
  run! r := call (Git c) in
  Done (match r with Ok o => Ok o.2 | Err f => Err (git_error f) end).

Definition publish_merge (source target : BranchSnapshot) (merged : str) : io (result unit ApiError) :=
  run! r := call (Git (UpdateRefs (bs_reference source) (bs_oid source) (bs_reference target) merged (bs_oid target))) in
  match r with
  | Err f => fail (git_error f)
  | Ok (written, observed) =>
    if written && out_success observed && ends_with (§"commit: ok" ++ [10%N]) (out_stdout observed) then Done (Ok tt)
    else if written && negb (out_success observed) && str_eqb (out_stdout observed) (§"start: ok" ++ [10%N])
    then fail (conflict_error §"Ветки изменились или Git-транзакция не подготовлена; перечитайте состояние перед повтором")
    else fail merge_unconfirmed
  end.

(** ** Completion *)

Section complete.
Context (digest : str -> str).

(** The decision is read on a connection of its own; the insertions belong to
    the transaction. *)
Definition enqueue_merge_ci (repository : N) (storage : str) (pull : N) (reference commit : str) (attempt owner : option N) :
    io (result unit ApiError) :=
  run? _ := call (CapturePolicy repository (git_push_idempotency_key digest storage reference commit) reference) in
  run! event := call NewId in
  run! message := call NewId in
  run! r := call (Exec (EnqueueCi event message repository storage pull reference commit attempt owner)) in
  Done (match r with Ok _ => Ok tt | Err None => Err (conflict_error §"merge_ci_repository_mismatch") | Err (Some _) => Err internal end).

Definition complete_merge (storage : str) (pull : N) (id : N) (a : Attempt) (permit : bool) : io (result PullRequest ApiError) :=
  run? updated := mapped merge_unconfirmed (call (Exec (MarkMerged pull (ma_merge_oid a)))) in
  run? owner := mapped merge_unconfirmed (call (ReadOwner id)) in
  run? _ := enqueue_merge_ci (ma_repository a) storage pull (ma_target_ref a) (ma_merge_oid a) (Some id) owner in
  run? _ := mapped merge_unconfirmed (call (Exec (FinishAttempt id true))) in
  run? _ := mapped merge_unconfirmed (require_write permit) in
  run? _ := mapped merge_unconfirmed (call Commit) in
  Done (Ok updated).

Definition recover_merge (storage : str) (k : N) (p : PullRequest) (id : N) (a : Attempt) (permit : bool) : io (result PullRequest ApiError) :=
  if negb (bool_decide (pl_repository p = Some (ma_repository a))) then fail merge_unconfirmed
  else
    run? source := branch_reference (pl_source p) in
    if negb (str_eqb source.2 (ma_source_ref a)) then fail merge_unconfirmed
    else
      run? target := branch_reference (pl_target p) in
      if negb (str_eqb target.2 (ma_target_ref a)) then fail merge_unconfirmed
      else
        run? _ := require_write permit in
        if bool_decide (ma_state a = Confirmed) then
          if negb (bool_decide (pl_status p = PrMerged)) || negb (bool_decide (pl_merge_commit p = Some (ma_merge_oid a))) then fail merge_unconfirmed
          else
            run? _ := mapped merge_unconfirmed (call Commit) in
            Done (Ok p)
        else if negb (bool_decide (pl_status p = PrOpen)) then fail merge_unconfirmed
        else
          run? source := mapped merge_unconfirmed (branch_snapshot (pl_source p)) in
          run? target := mapped merge_unconfirmed (branch_snapshot (pl_target p)) in
          run? _ := require_write permit in
          if negb (str_eqb (bs_oid source) (ma_source_oid a)) then fail merge_unconfirmed
          else if str_eqb (bs_oid target) (ma_merge_oid a) then
            run? updated := complete_merge storage k id a permit in
            run! _ := call (Signal (ma_repository a)) in
            Done (Ok updated)
          else fail merge_unconfirmed.

(** ** The actions *)

(** The gate of a protected target: a successful pipeline of the exact head. *)
Definition merge_gate (repository : option N) (source target : BranchSnapshot) : io (result unit ApiError) :=
  run? protected := mapped internal (call (ReadProtected repository (bs_name target))) in
  if protected then
    run? green := mapped internal (call (ReadGreen repository (bs_name source) (bs_oid source))) in
    if green then Done (Ok tt)
    else fail (conflict_error §"target branch is protected: a successful pipeline for the PR head commit is required before merge")
  else Done (Ok tt).

(** [merge-tree] and [commit-tree]: the merge commit. *)
Definition merge_message (p : PullRequest) : str := §"Merge PR #" ++ show_Z (pl_number p) ++ §": " ++ pl_title p.

Definition merge_commit (p : PullRequest) (source target : BranchSnapshot) : io (result str ApiError) :=
  run? merged := pr_output (MergeTree (bs_oid target) (bs_oid source)) in
  if negb (out_success merged) then fail (conflict_error (out_stderr merged))
  else
    let tree := hd [] (split 0%N (out_stdout merged)) in
    run? committed := pr_output (CommitTree tree (bs_oid target) (bs_oid source) (merge_message p)) in
    if negb (out_success committed) then fail (bad_request (out_stderr committed))
    else Done (Ok (trim (out_stdout committed))).

Definition new_attempt (k repository : N) (source target : BranchSnapshot) (merged : str) : Attempt := {|
  ma_pull := k; ma_repository := repository; ma_source_ref := bs_reference source; ma_source_oid := bs_oid source;
  ma_target_ref := bs_reference target; ma_target_oid := bs_oid target; ma_merge_oid := merged; ma_state := Prepared;
  ma_owner := None; ma_completed_at := None |}.

(** [bind_commit_clock], and [permit.lock] *)
Definition open_transaction (clock permit : bool) : io (result unit ApiError) :=
  run? _ := if clock then call BindClock else Done (Ok tt) in
  if permit then call LockActor else Done (Ok tt).

(** The intent: inserted, its policy captured, and committed before any
    reference changes. *)
Definition prepare_merge (storage : str) (k : N) (p : PullRequest) (repository : N) (permit : bool) :
    io (result (BranchSnapshot * BranchSnapshot * N * Attempt) ApiError) :=
  run? target := branch_snapshot (pl_target p) in
  run? source := branch_snapshot (pl_source p) in
  if str_eqb (bs_reference target) (bs_reference source) then fail (bad_request §"Исходная и целевая ветки должны различаться")
  else
    run? _ := merge_gate (pl_repository p) source target in
    run? merged := merge_commit p source target in
    run? _ := require_write permit in
    run! id := call NewId in
    let a := new_attempt k repository source target merged in
    run? _ := mapped internal (call (Exec (InsertAttempt id a))) in
    run? owner := call RequireCreation in
    run? _ := mapped internal (call (Exec (SetOwner id owner))) in
    run? _ := call (CapturePolicy repository (git_push_idempotency_key digest storage (ma_target_ref a) (ma_merge_oid a)) (ma_target_ref a)) in
    run? _ := require_write permit in
    run? _ := mapped merge_unconfirmed (call Commit) in
    Done (Ok (source, target, id, a)).

(** The publication of the intent in a second transaction. *)
Definition publish_attempt (storage : str) (k : N) (source target : BranchSnapshot) (id : N) (a : Attempt) (clock permit : bool) :
    io (result PullRequest ApiError) :=
  run? _ := mapped merge_unconfirmed (call Begin) in
  run? _ := open_transaction clock permit in
  run? current := mapped merge_unconfirmed (call (LockStatus k)) in
  if negb (bool_decide (current = PrOpen)) then fail merge_unconfirmed
  else
    run? _ := require_write permit in
    run! published := publish_merge source target (ma_merge_oid a) in
    match published with
    | Ok _ =>
      run? updated := complete_merge storage k id a permit in
      run! _ := call (Signal (ma_repository a)) in
      Done (Ok updated)
    | Err error =>
      if (status error =? 409)%Z then
        run? _ := mapped merge_unconfirmed (call (Exec (FinishAttempt id false))) in
        run? _ := mapped merge_unconfirmed (call Commit) in
        fail error
      else fail error
    end.

Definition merge_action (storage : str) (k : N) (p : PullRequest) (clock permit : bool) : io (result PullRequest ApiError) :=
  match pl_repository p with
  | None => fail merge_unconfirmed
  | Some repository =>
    if negb (bool_decide (pl_status p = PrOpen)) then fail (conflict_error §"pull request is not open")
    else
      run? r := prepare_merge storage k p repository permit in
      let '(source, target, id, a) := r in
      publish_attempt storage k source target id a clock permit
  end.

(** Closing and reopening. *)
Definition status_action (k : N) (p : PullRequest) (from to : pr_status) (refusal : str) (permit : bool) : io (result PullRequest ApiError) :=
  if negb (bool_decide (pl_status p = from)) then fail (conflict_error refusal)
  else
    run? updated := mapped internal (call (Exec (ChangeStatus k to))) in
    run? _ := require_write permit in
    run? _ := mapped internal (call Commit) in
    Done (Ok updated).

Definition is_merge (action : str) : bool := str_eqb action §"merge".

Definition other_action (action : str) (k : N) (p : PullRequest) (permit : bool) : io (result PullRequest ApiError) :=
  if str_eqb action §"close" then status_action k p PrOpen PrClosed §"pull request is not open" permit
  else if str_eqb action §"reopen" then status_action k p PrClosed PrOpen §"only closed pull requests can be reopened" permit
  else fail (bad_request §"action must be merge, close or reopen").

Definition act (storage action : str) (k : N) (p : PullRequest) (clock permit : bool) : io (result PullRequest ApiError) :=
  run? _ := require_write permit in
  run? active := mapped internal (call (ReadActive k)) in
  match active with
  | Some (id, a) =>
    if is_merge action then recover_merge storage k p id a permit
    else if bool_decide (ma_state a = Prepared) then fail (conflict_error §"Сначала подтвердите результат незавершённого merge")
    else other_action action k p permit
  | None => if is_merge action then merge_action storage k p clock permit else other_action action k p permit
  end.

(** The guard of a merge, held to the end of the handler. *)
Definition guard_merge (action storage : str) : io (result unit ApiError) :=
  if is_merge action then
    run? repository := mapped internal (call (ReadRepositoryId storage)) in
    call (AcquireGuard repository)
  else Done (Ok tt).

Definition pr_action_owned (repo : str) (number : Z) (action : str) (clock : bool) : io (result PullRequest ApiError) :=
  run? storage := call (ResolveStorage repo) in
  run? _ := call (WriteLease storage) in
  run? _ := call (RepositoryPath storage) in
  run? permit := call (Permit storage) in
  run? _ := guard_merge action storage in
  run? _ := mapped internal (call Begin) in
  run? _ := open_transaction clock permit in
  run? row := mapped internal (call (LockPull storage number)) in
  match row with
  | None => fail not_found
  | Some (k, p) => act storage action k p clock permit
  end.

(** [pr_action]: the authority of the request, its claims' role, and whether
    the server drains.  The handler goes on when its caller is gone. *)
Definition pr_action (authority : bool) (role : option str) (repo : str) (number : Z) (action : str) : io (result PullRequest ApiError) :=
  run? clock := if authority && is_some role then call RequestClock else Done (Ok false) in
  run? required := call PolicyRequired in
  if required && negb (bool_decide (role = Some §"service_account")) && negb clock then fail forbidden
  else
    run! entered := call (EnterEffect (is_merge action)) in
    if entered then
      run? _ := call CurrentOrigin in
      pr_action_owned repo number action clock
    else fail (service_unavailable §"Forge draining").
End complete.
