(* ===== verification/PullSafety.v ===== *)
(** * Justified handlers of pull requests

    What a handler knows from the answers so far: all of them ([gh_trace]),
    the guard it holds, its open transaction and the merge it has prepared.
    [wp] says that every commit and every publication of [pr_action] is
    justified by that. *)
From S2P Require Import Prelude Programs Table Outbox Api Pulls PullMerge.

(** ** Knowledge *)

Inductive event : Type := Ev (o : op) (a : answer o).

(** An open transaction: its time and writes, the locked pull request with
    the row that was read, and the attempt that was read. *)
Record session : Type := {
  se_now : Z;
  se_writes : list write;
  se_row : option (N * option PullRequest);
  se_active : option (option (N * Attempt));
  se_updated : option PullRequest }.

Inductive phase : Type := Unpublished | Published | Refused | Unknown.

Record ghost : Type := {
  gh_trace : list event;
  gh_storage : option str;
  gh_guard : option N;
  gh_session : option session;
  gh_attempt : option (N * Attempt * phase);
  gh_committed : option PullRequest }.

Definition new_ghost : ghost := {| gh_trace := []; gh_storage := None; gh_guard := None; gh_session := None; gh_attempt := None; gh_committed := None |}.

Definition open_session (now : Z) : session := {| se_now := now; se_writes := []; se_row := None; se_active := None; se_updated := None |}.
Definition lock_row (k : N) (p : option PullRequest) (s : session) : session := {|
  se_now := se_now s; se_writes := se_writes s; se_row := Some (k, p); se_active := None; se_updated := se_updated s |}.
Definition know_active (x : option (N * Attempt)) (s : session) : session := {|
  se_now := se_now s; se_writes := se_writes s; se_row := se_row s; se_active := Some x; se_updated := se_updated s |}.
Definition add_write (w : write) (row : option PullRequest) (s : session) : session := {|
  se_now := se_now s; se_writes := se_writes s ++ [w]; se_row := se_row s; se_active := se_active s;
  se_updated := match row with Some p => Some p | None => se_updated s end |}.

(** The row an update returned. *)
Definition returned_row (w : write) : returned w -> option PullRequest :=
  match w return returned w -> option PullRequest with
  | MarkMerged _ _ | ChangeStatus _ _ => fun p => Some p
  | _ => fun _ => None
  end.

Definition final_row (s : session) : option PullRequest :=
  match se_updated s with Some p => Some p | None => r ← se_row s; r.2 end.

(** What an answer of [update-ref] says of the publication. *)
Definition phase_of (a : result (bool * Output) git_failure) : phase :=
  match a with
  | Ok (written, observed) =>
    if written && out_success observed && ends_with (§"commit: ok" ++ [10%N]) (out_stdout observed) then Published
    else if written && negb (out_success observed) && str_eqb (out_stdout observed) (§"start: ok" ++ [10%N]) then Refused
    else Unknown
  | Err _ => Unknown
  end.

Definition with_storage (x : str) (g : ghost) : ghost := {|
  gh_trace := gh_trace g; gh_storage := Some x; gh_guard := gh_guard g; gh_session := gh_session g; gh_attempt := gh_attempt g;
  gh_committed := gh_committed g |}.
Definition with_guard (r : N) (g : ghost) : ghost := {|
  gh_trace := gh_trace g; gh_storage := gh_storage g; gh_guard := Some r; gh_session := gh_session g; gh_attempt := gh_attempt g; gh_committed := gh_committed g |}.
Definition with_session (f : option session -> option session) (g : ghost) : ghost := {|
  gh_trace := gh_trace g; gh_storage := gh_storage g; gh_guard := gh_guard g; gh_session := f (gh_session g); gh_attempt := gh_attempt g; gh_committed := gh_committed g |}.
Definition with_attempt (x : option (N * Attempt * phase)) (g : ghost) : ghost := {|
  gh_trace := gh_trace g; gh_storage := gh_storage g; gh_guard := gh_guard g; gh_session := gh_session g; gh_attempt := x; gh_committed := gh_committed g |}.
Definition with_committed (x : option PullRequest) (g : ghost) : ghost := {|
  gh_trace := gh_trace g; gh_storage := gh_storage g; gh_guard := gh_guard g; gh_session := gh_session g; gh_attempt := gh_attempt g; gh_committed := x |}.
Definition with_event (e : event) (g : ghost) : ghost := {|
  gh_trace := e :: gh_trace g; gh_storage := gh_storage g; gh_guard := gh_guard g; gh_session := gh_session g; gh_attempt := gh_attempt g; gh_committed := gh_committed g |}.

(** The attempt a transaction has prepared. *)
Definition prepared_by (l : list write) : option (N * Attempt * phase) :=
  match l with
  | [InsertAttempt id a; SetOwner _ owner] => Some (id, set_attempt Prepared owner None a, Unpublished)
  | _ => None
  end.

Definition committed (r : result unit db_error) (g : ghost) : ghost :=
  match r with
  | Ok _ => with_session (fun _ => None) (with_attempt (s ← gh_session g; prepared_by (se_writes s))
              (with_committed (s ← gh_session g; final_row s) g))
  | Err _ => with_session (fun _ => None) (with_attempt None g)
  end.

(** What an answer tells, next to itself. *)
Definition learn (o : op) : answer o -> ghost -> ghost :=
  match o return answer o -> ghost -> ghost with
  | ResolveStorage _ => fun a g => match a with Ok s => with_storage s g | Err _ => g end
  | AcquireGuard r => fun a g => match a with Ok _ => with_guard r g | Err _ => g end
  | Begin => fun a => with_session (fun _ => match a with Ok now => Some (open_session now) | Err _ => None end)
  | LockPull _ _ => fun a g => match a with Ok (Some (k, p)) => with_session (fmap (lock_row k (Some p))) g | _ => g end
  | LockStatus k => fun a g => match a with Ok _ => with_session (fmap (lock_row k None)) g | Err _ => g end
  | ReadActive _ => fun a g => match a with Ok x => with_session (fmap (know_active x)) g | Err _ => g end
  | Exec w => fun a => with_session (match a with Ok r => fmap (add_write w (returned_row w r)) | Err _ => fun _ => None end)
  | Git (UpdateRefs _ _ _ _ _) => fun a g => with_attempt ((fun x => (x.1, phase_of a)) <$> gh_attempt g) g
  | Commit => committed
  | _ => fun _ g => g
  end.

Definition after (o : op) (a : answer o) (g : ghost) : ghost := learn o a (with_event (Ev o a) g).

(** ** Justifications *)

(** A branch was seen at an object. *)
Definition saw_head (t : list event) (reference oid : str) : Prop :=
  exists out, Ev (ShowRef reference) (Ok out) ∈ t /\ out_success out = true /\ trim (out_stdout out) = oid.

(** The merge of the branches of a pull request as they were seen: the target
    unprotected, or the head of the source green; the commit made of both. *)
Record justified (t : list event) (p : PullRequest) (a : Attempt) : Prop := {
  ju_branches : exists s d, branch_name (pl_source p) = Ok (s, ma_source_ref a) /\ branch_name (pl_target p) = Ok (d, ma_target_ref a) /\
    (Ev (ReadProtected (pl_repository p) d) (Ok false) ∈ t \/ Ev (ReadGreen (pl_repository p) s (ma_source_oid a)) (Ok true) ∈ t);
  ju_heads : saw_head t (ma_source_ref a) (ma_source_oid a) /\ saw_head t (ma_target_ref a) (ma_target_oid a);
  ju_commit : exists tree out, Ev (Git (CommitTree tree (ma_target_oid a) (ma_source_oid a) (merge_message p))) (Ok (out.1, out.2)) ∈ t /\
    out_success out.2 = true /\ trim (out_stdout out.2) = ma_merge_oid a }.

Section safety.
Context (digest : str -> str) (catalog : str -> option N).

(** A pull request of the repository was locked. *)
Definition locked_in (t : list event) (k : N) (storage : str) : Prop :=
  exists st number q, Ev (LockPull st number) (Ok (Some (k, q))) ∈ t /\ pl_storage q = storage.

(** The transactions a handler commits. *)
Inductive tx_ok (g : ghost) (s : session) : Prop :=
| tx_prepare id a owner k p :
    se_writes s = [InsertAttempt id a; SetOwner id owner] -> se_row s = Some (k, Some p) -> se_active s = Some None ->
    pl_status p = PrOpen -> ma_pull a = k -> ma_state a = Prepared -> ma_completed_at a = None ->
    pl_repository p = Some (ma_repository a) -> gh_guard g = Some (ma_repository a) -> justified (gh_trace g) p a -> tx_ok g s
| tx_complete event message storage id a owner p :
    se_writes s = [MarkMerged (ma_pull a) (ma_merge_oid a);
                   EnqueueCi event message (ma_repository a) storage (ma_pull a) (ma_target_ref a) (ma_merge_oid a) (Some id) owner;
                   FinishAttempt id true] -> gh_storage g = Some storage -> Ev (ReadOwner id) (Ok owner) ∈ gh_trace g ->
    locked_in (gh_trace g) (ma_pull a) storage ->
    se_row s = Some (ma_pull a, p) -> gh_guard g = Some (ma_repository a) ->
    gh_attempt g = Some (id, a, Published) \/
      se_active s = Some (Some (id, a)) /\ ma_state a = Prepared /\ saw_head (gh_trace g) (ma_target_ref a) (ma_merge_oid a) -> tx_ok g s
| tx_reject id a p :
    se_writes s = [FinishAttempt id false] -> se_row s = Some (ma_pull a, p) -> gh_guard g = Some (ma_repository a) ->
    gh_attempt g = Some (id, a, Refused) -> tx_ok g s
| tx_status k p st x :
    se_writes s = [ChangeStatus k st] -> se_row s = Some (k, Some p) -> se_active s = Some x ->
    (forall id a, x = Some (id, a) -> ma_state a <> Prepared) ->
    pl_status p = PrOpen /\ st = PrClosed \/ pl_status p = PrClosed /\ st = PrOpen -> tx_ok g s
| tx_read k p : se_writes s = [] -> se_row s = Some (k, Some p) -> tx_ok g s.

(** An update is of the locked row. *)
Definition locks (w : write) (s : session) : Prop :=
  match w with MarkMerged k _ | ChangeStatus k _ => exists p, se_row s = Some (k, p) | _ => True end.

Definition may_call (o : op) (g : ghost) : Prop :=
  match o with
  | ResolveStorage _ => gh_storage g = None
  | AcquireGuard _ => gh_guard g = None
  | Begin => gh_session g = None
  | LockPull storage _ => gh_storage g = Some storage /\ exists s, gh_session g = Some s /\ se_row s = None /\ se_writes s = []
  | LockStatus _ => exists s, gh_session g = Some s /\ se_row s = None /\ se_writes s = []
  | ReadActive k => exists s p, gh_session g = Some s /\ se_row s = Some (k, p) /\ se_writes s = []
  | Exec w => exists s, gh_session g = Some s /\ locks w s
  | Commit => exists s, gh_session g = Some s /\ tx_ok g s
  | Git (UpdateRefs verify verify_oid update new old) =>
    exists id a p, gh_attempt g = Some (id, a, Unpublished) /\ gh_guard g = Some (ma_repository a) /\
      verify = ma_source_ref a /\ verify_oid = ma_source_oid a /\ update = ma_target_ref a /\ new = ma_merge_oid a /\ old = ma_target_oid a /\
      gh_storage g = Some (pl_storage p) /\
      (exists storage number, Ev (LockPull storage number) (Ok (Some (ma_pull a, p))) ∈ gh_trace g) /\ justified (gh_trace g) p a
  | _ => True
  end.

(** What the answers always satisfy. *)
Definition may_answer (o : op) : answer o -> Prop :=
  match o return answer o -> Prop with
  | ReadRepositoryId storage => fun a => forall r, a = Ok r -> catalog storage = Some r
  | LockPull storage number => fun a => forall k p, a = Ok (Some (k, p)) -> pl_storage p = storage /\ pl_number p = number /\ pl_repository p = catalog storage
  | ReadActive k => fun a => forall id x, a = Ok (Some (id, x)) -> ma_pull x = k /\ ma_state x <> Rejected
  | Exec (MarkMerged _ oid) => fun a => forall p, a = Ok p -> pl_status p = PrMerged /\ pl_merge_commit p = Some oid
  | Exec (ChangeStatus _ st) => fun a => forall p, a = Ok p -> pl_status p = st
  | _ => fun _ => True
  end.
End safety.

(** ** Every handler is justified *)

Section handlers.
Context (digest : str -> str) (catalog : str -> option N).
Abbreviation wp := (Programs.wp may_call (may_answer catalog) after).

Record extends (g g' : ghost) : Prop := {
  ex_trace : gh_trace g ⊆ gh_trace g';
  ex_storage : gh_storage g' = gh_storage g;
  ex_guard : gh_guard g' = gh_guard g;
  ex_session : gh_session g' = gh_session g;
  ex_attempt : gh_attempt g' = gh_attempt g;
  ex_committed : gh_committed g' = gh_committed g }.

#[export] Instance extends_po : PreOrder extends.
Proof. split; [by split|]. intros g1 g2 g3 [] []. split; [set_solver|congruence..]. Qed.

Lemma extends_event e g : extends g (with_event e g).
Proof. split; [|done..]. intros x Hx. by right. Qed.

Lemma saw_head_mono t t' r o : t ⊆ t' -> saw_head t r o -> saw_head t' r o.
Proof. intros Ht (out & H & ?). exists out. split; [by apply Ht|done]. Qed.

Lemma justified_mono t t' p a : t ⊆ t' -> justified t p a -> justified t' p a.
Proof.
  intros Ht [(s & d & Hs & Hd & Hg) [H1 H2] (tree & out & Hc & ?)]. split.
  - exists s, d. split_and!; [done|done|]. destruct Hg as [Hg|Hg]; [left|right]; by apply Ht.
  - split; by eapply saw_head_mono.
  - exists tree, out. split; [by apply Ht|done].
Qed.

Lemma locked_in_mono t t' k st : t ⊆ t' -> locked_in t k st -> locked_in t' k st.
Proof. intros Ht (s & n & q & H & ?). exists s, n, q. split; [by apply Ht|done]. Qed.

Lemma wp_mapped {E A} (e : ApiError) (p : io (result A E)) (Q : result A ApiError -> ghost -> Prop) g :
  wp p (fun r => Q (or_error e r)) g -> wp (mapped e p) Q g.
Proof. intros H. by apply wp_bind. Qed.

Lemma wp_calls o (Q : answer o -> ghost -> Prop) g :
  may_call o g -> (forall a, may_answer catalog o a -> Q a (after o a g)) -> wp (call o) Q g.
Proof. by split. Qed.

(** A call that changes nothing of the ghost but the trace. *)
Definition quiet_op (o : op) : Prop := may_call o = (fun _ => True) /\ learn o = (fun _ g => g).

Lemma wp_quiet o (Q : answer o -> ghost -> Prop) g :
  quiet_op o -> (forall a g', extends g g' -> Ev o a ∈ gh_trace g' -> may_answer catalog o a -> Q a g') -> wp (call o) Q g.
Proof.
  intros [Hm Hl] HQ. apply wp_calls; [by rewrite Hm|]. intros a Ha. unfold after. rewrite Hl. apply HQ; [apply extends_event|left|done].
Qed.

Lemma wp_require_write permit Q g : (forall r g', extends g g' -> Q r g') -> wp (require_write permit) Q g.
Proof. intros HQ. destruct permit; [|by apply HQ]. apply wp_quiet; [done|]. auto. Qed.

Lemma wp_open_transaction clock permit Q g : (forall r g', extends g g' -> Q r g') -> wp (open_transaction clock permit) Q g.
Proof.
  intros HQ. apply wp_try.
  assert (Hn : forall g', extends g g' -> wp (if permit then call LockActor else Done (Ok tt)) Q g').
  { intros g' Hg. destruct permit; [|by apply HQ]. apply wp_quiet; [done|]. intros r g2 H2 _ _. apply HQ. by etransitivity. }
  destruct clock; [|by apply Hn]. apply wp_quiet; [done|]. intros [a|e] g' Hg _ _; [by apply Hn|by apply HQ].
Qed.

Lemma wp_branch_reference b Q g :
  (forall r g', extends g g' -> (forall x, r = Ok x -> branch_name b = Ok x) -> Q r g') -> wp (branch_reference b) Q g.
Proof.
  intros HQ. unfold branch_reference. destruct (branch_name b) as [x|e] eqn:E; [|by apply HQ].
  apply wp_try, wp_mapped, wp_quiet; [done|]. intros [[]|e] g' Hg _ _; by apply HQ; [..|intros ? [= <-]].
Qed.

Lemma wp_branch_snapshot b Q g :
  (forall r g', extends g g' -> (forall s, r = Ok s -> branch_name b = Ok (bs_name s, bs_reference s) /\
     saw_head (gh_trace g') (bs_reference s) (bs_oid s)) -> Q r g') -> wp (branch_snapshot b) Q g.
Proof.
  intros HQ. apply wp_try, wp_branch_reference. intros [[n r]|e] g1 H1 Hx; [|by apply HQ].
  apply wp_try, wp_mapped, wp_quiet; [done|]. intros [out|e] g2 H2 Hev _; cbn [or_error]; [|apply HQ; [by etransitivity|done]].
  destruct (out_success out) eqn:Eo; cbn [or_error]; [|apply HQ; [by etransitivity|done]].
  destruct (is_oid _); apply HQ; try (by etransitivity); [|done]. intros s [= <-]. cbn. split; [by apply Hx|]. by exists out.
Qed.

Lemma wp_merge_gate repository source target Q g :
  (forall r g', extends g g' -> (r = Ok tt -> Ev (ReadProtected repository (bs_name target)) (Ok false) ∈ gh_trace g' \/
     Ev (ReadGreen repository (bs_name source) (bs_oid source)) (Ok true) ∈ gh_trace g') -> Q r g') -> wp (merge_gate repository source target) Q g.
Proof.
  intros HQ. apply wp_try, wp_mapped, wp_quiet; [done|]. intros [[]|e] g1 H1 Hev _; cbn [or_error]; [|apply HQ; auto|by apply HQ].
  apply wp_try, wp_mapped, wp_quiet; [done|]. intros [[]|e] g2 H2 Hev2 _; cbn [or_error]; apply HQ; try (by etransitivity); auto; done.
Qed.

Lemma wp_pr_output c Q g : quiet_op (Git c) ->
  (forall r g', extends g g' -> (forall out, r = Ok out -> exists w, Ev (Git c) (Ok (w, out)) ∈ gh_trace g') -> Q r g') -> wp (pr_output c) Q g.
Proof.
  intros Hc HQ. apply wp_bind, wp_quiet; [done|]. intros [[w out]|e] g1 H1 Hev _; apply HQ; try done. intros ? [= <-]. by exists w.
Qed.

Lemma wp_merge_commit p source target Q g :
  (forall r g', extends g g' -> (forall oid, r = Ok oid -> exists tree out,
     Ev (Git (CommitTree tree (bs_oid target) (bs_oid source) (merge_message p))) (Ok (out.1, out.2)) ∈ gh_trace g' /\
     out_success out.2 = true /\ trim (out_stdout out.2) = oid) -> Q r g') -> wp (merge_commit p source target) Q g.
Proof.
  intros HQ. apply wp_try, wp_pr_output; [done|]. intros [out|e] g1 H1 _; [|by apply HQ].
  destruct (out_success out); cbn [negb]; [|by apply HQ].
  apply wp_try, wp_pr_output; [done|]. intros [out2|e] g2 H2 Hev; [|apply HQ; [by etransitivity|done]].
  destruct (out_success out2) eqn:E; cbn [negb]; apply HQ; try (by etransitivity); [|done].
  intros oid [= <-]. destruct (Hev out2 eq_refl) as [w Hw]. by eexists _, (w, out2).
Qed.

(** A write, which keeps all but the session. *)
Record keeps (g g' : ghost) : Prop := {
  ke_trace : gh_trace g ⊆ gh_trace g';
  ke_storage : gh_storage g' = gh_storage g;
  ke_guard : gh_guard g' = gh_guard g;
  ke_attempt : gh_attempt g' = gh_attempt g }.

#[export] Instance keeps_po : PreOrder keeps.
Proof. split; [by split|]. intros g1 g2 g3 [] []. split; [set_solver|congruence..]. Qed.

Lemma extends_keeps g g' : extends g g' -> keeps g g'.
Proof. by intros []. Qed.

Lemma wp_exec w (Q : answer (Exec w) -> ghost -> Prop) g s :
  gh_session g = Some s -> locks w s ->
  (forall e g', keeps g g' -> Q (Err e) g') ->
  (forall r g', keeps g g' -> gh_session g' = Some (add_write w (returned_row w r) s) -> may_answer catalog (Exec w) (Ok r) -> Q (Ok r) g') ->
  wp (call (Exec w)) Q g.
Proof.
  intros Hs Hl He Ho. apply wp_calls; [by exists s|]. intros [r|e] Ha.
  - apply Ho; [|cbn; by rewrite Hs|done]. split; [|done..]. cbn. set_solver.
  - apply He. split; [|done..]. cbn. set_solver.
Qed.

Lemma wp_commit (Q : answer Commit -> ghost -> Prop) g s :
  gh_session g = Some s -> tx_ok g s -> (forall e g', Q (Err e) g') ->
  (forall g', gh_trace g ⊆ gh_trace g' -> gh_storage g' = gh_storage g -> gh_guard g' = gh_guard g -> gh_session g' = None -> gh_attempt g' = prepared_by (se_writes s) ->
     gh_committed g' = final_row s -> Q (Ok tt) g') ->
  wp (call Commit) Q g.
Proof.
  intros Hs Hok He Ho. apply wp_calls; [by exists s|]. intros [[]|e] _; [|apply He].
  apply Ho; cbn; rewrite ?Hs; try done. set_solver.
Qed.

(** What an action answers is what it has committed. *)
Definition told (st : pr_status) (r : result PullRequest ApiError) (g : ghost) : Prop :=
  forall p, r = Ok p -> gh_committed g = Some p /\ pl_status p = st.

Lemma told_err st e g : told st (Err e) g.
Proof. done. Qed.

Lemma final_updated s p : se_updated s = Some p -> final_row s = Some p.
Proof. intros H. unfold final_row. by rewrite H. Qed.

Lemma wp_complete_merge storage id a p permit g s :
  gh_session g = Some s -> se_writes s = [] -> se_row s = Some (ma_pull a, p) -> gh_storage g = Some storage -> gh_guard g = Some (ma_repository a) -> locked_in (gh_trace g) (ma_pull a) storage ->
  gh_attempt g = Some (id, a, Published) \/
    se_active s = Some (Some (id, a)) /\ ma_state a = Prepared /\ saw_head (gh_trace g) (ma_target_ref a) (ma_merge_oid a) ->
  wp (complete_merge digest storage (ma_pull a) id a permit) (told PrMerged) g.
Proof.
  intros Hs Hw Hr Hst0 Hg Hlk Ha. apply wp_try, wp_mapped. eapply wp_exec; [exact Hs|by exists p|by intros|]. intros x g1 K1 S1 A1.
  destruct (A1 x eq_refl) as [Hst _]. apply wp_try, wp_mapped, wp_quiet; [done|]. intros [owner|] g2 K2 Hown _; [|by intros].
  apply wp_try, wp_try, wp_quiet; [done|]. intros [[]|] g3 K3 _ _; [|by intros].
  apply wp_bind, wp_quiet; [done|]. intros event g4 K4 _ _. apply wp_bind, wp_quiet; [done|]. intros message g5 K5 _ _.
  assert (K : extends g1 g5) by (etransitivity; [exact K2|etransitivity; [exact K3|by etransitivity]]).
  apply wp_bind. eapply wp_exec; [rewrite (ex_session _ _ K); exact S1|done|by intros [e|] g'|]. intros [] g6 K6 S6 _.
  apply wp_try, wp_mapped. eapply wp_exec; [exact S6|done|by intros|]. intros [] g7 K7 S7 _.
  apply wp_try, wp_mapped, wp_require_write. intros [[]|] g8 K8; [|by intros].
  assert (K28 : keeps g2 g8).
  { etransitivity; [|etransitivity; [exact K6|etransitivity; [exact K7|by apply extends_keeps]]]. apply extends_keeps.
    etransitivity; [exact K3|by etransitivity]. }
  assert (K18 : keeps g g8).
  { etransitivity; [exact K1|]. etransitivity; [exact (extends_keeps _ _ K)|]. etransitivity; [exact K6|]. etransitivity; [exact K7|].
    by apply extends_keeps. }
  apply wp_try, wp_mapped. eapply wp_commit; [rewrite (ex_session _ _ K8); exact S7| |by intros|].
  - eapply (tx_complete _ _ event message storage id a owner p); [cbn; by rewrite Hw|by rewrite (ke_storage _ _ K18)|by apply (ke_trace _ _ K28)|by eapply locked_in_mono; [apply (ke_trace _ _ K18)|]|exact Hr|by rewrite (ke_guard _ _ K18)|].
    destruct Ha as [Ha|(H1 & H2 & H4)]; [left; by rewrite (ke_attempt _ _ K18)|right].
    split; [exact H1|]. split; [exact H2|]. eapply saw_head_mono; [apply (ke_trace _ _ K18)|exact H4].
  - intros g9 _ _ _ _ _ Hc y [= <-]. split; [|exact Hst]. rewrite Hc. by apply final_updated.
Qed.

(** [complete_merge], then a signal. *)
Lemma wp_signaled (p : io (result PullRequest ApiError)) r st g :
  wp p (told st) g -> wp (run? x := p in run! _ := call (Signal r) in Done (Ok x)) (told st) g.
Proof.
  intros Hp. apply wp_try. eapply wp_mono; [|exact Hp]. intros [x|e] g' Hx; [|done].
  apply wp_bind, wp_quiet; [done|]. intros _ g2 K _ _ y [= <-]. destruct (Hx x eq_refl) as [Hc ?]. split; [|done].
  by rewrite (ex_committed _ _ K).
Qed.

Lemma wp_recover_merge storage k p id a permit g s :
  gh_session g = Some s -> se_writes s = [] -> se_updated s = None -> se_row s = Some (k, Some p) -> se_active s = Some (Some (id, a)) ->
  ma_pull a = k -> ma_state a <> Rejected -> gh_storage g = Some storage -> locked_in (gh_trace g) k storage -> (forall r, pl_repository p = Some r -> gh_guard g = Some r) ->
  wp (recover_merge digest storage k p id a permit) (told PrMerged) g.
Proof.
  intros Hs Hw Hu Hr Ha <- Hrej Hst0 Hpst Hg. unfold recover_merge. case_bool_decide as Hrep; [|by intros]. cbn [negb].
  apply wp_try, wp_branch_reference. intros [[sn sr]|] g1 K1 Esrc; [|by intros]. destruct (str_eqb _ (ma_source_ref a)) eqn:E1; [|by intros]. cbn [negb].
  apply wp_try, wp_branch_reference. intros [[tn tr]|] g2 K2 Etgt; [|by intros]. destruct (str_eqb _ (ma_target_ref a)) eqn:E2; [|by intros]. cbn [negb].
  apply wp_try, wp_require_write. intros [[]|] g3 K3; [|by intros].
  assert (K : extends g g3) by (etransitivity; [exact K1|by etransitivity]).
  case_bool_decide as Hconf.
  - case_bool_decide as Hst; [|by intros]. case_bool_decide as Hc; [|by intros]. cbn [negb orb].
    apply wp_try, wp_mapped. eapply wp_commit; [rewrite (ex_session _ _ K); exact Hs|by eapply tx_read|by intros|].
    intros g4 _ _ _ _ _ E y [= <-]. split; [|done]. rewrite E. unfold final_row. by rewrite Hu, Hr.
  - case_bool_decide as Hst; [|by intros]. cbn [negb].
    apply wp_try, wp_mapped, wp_branch_snapshot. intros [src|] g4 K4 _; [|by intros]. cbn [or_error].
    apply wp_try, wp_mapped, wp_branch_snapshot. intros [tgt|] g5 K5 Htgt; [|by intros]. cbn [or_error].
    apply wp_try, wp_require_write. intros [[]|] g6 K6; [|by intros].
    destruct (str_eqb _ (ma_source_oid a)); [|by intros]. cbn [negb]. destruct (str_eqb (bs_oid tgt) _) eqn:E4; [|by intros].
    assert (K36 : extends g g6) by (etransitivity; [exact K|etransitivity; [exact K4|by etransitivity]]).
    apply wp_signaled. eapply wp_complete_merge; [by rewrite (ex_session _ _ K36)|done|done|by rewrite (ex_storage _ _ K36)|by rewrite (ex_guard _ _ K36), (Hg _ Hrep)|by eapply locked_in_mono; [apply (ex_trace _ _ K36)|]|].
    right. split; [done|]. split; [by destruct (ma_state a)|]. destruct (Htgt tgt eq_refl) as [Hb Hh]. apply str_eqb_true in E2, E4. cbn in E2. subst.
    rewrite (Etgt _ eq_refl) in Hb. injection Hb as _ Er. rewrite Er, <- E4. eapply saw_head_mono; [apply (ex_trace _ _ K6)|done].
Qed.

Lemma wp_status_action k p from to refusal permit g s x :
  gh_session g = Some s -> se_writes s = [] -> se_row s = Some (k, Some p) -> se_active s = Some x ->
  (forall id a, x = Some (id, a) -> ma_state a <> Prepared) -> from = PrOpen /\ to = PrClosed \/ from = PrClosed /\ to = PrOpen ->
  wp (status_action k p from to refusal permit) (told to) g.
Proof.
  intros Hs Hw Hr Hx Hn Hft. unfold status_action. case_bool_decide as Hst; [|by intros]. cbn [negb].
  apply wp_try, wp_mapped. eapply wp_exec; [exact Hs|by exists (Some p)|by intros|]. intros row g1 K1 S1 A1.
  apply wp_try, wp_require_write. intros [[]|] g2 K2; [|by intros].
  apply wp_try, wp_mapped. eapply wp_commit; [rewrite (ex_session _ _ K2); exact S1| |by intros|].
  - eapply (tx_status _ _ k p to x); [cbn; by rewrite Hw|done|done|done|]. by subst from.
  - intros g3 _ _ _ _ _ E y [= <-]. split; [|by apply A1]. rewrite E. by apply final_updated.
Qed.

(** The first transaction of a merge ends with its attempt committed. *)
Lemma wp_prepare_merge storage k p repository permit g s (Q : result (BranchSnapshot * BranchSnapshot * N * Attempt) ApiError -> ghost -> Prop) :
  gh_session g = Some s -> se_writes s = [] -> se_row s = Some (k, Some p) -> se_active s = Some None ->
  pl_status p = PrOpen -> pl_repository p = Some repository -> gh_guard g = Some repository ->
  (forall e g', Q (Err e) g') ->
  (forall source target id merged owner g', let a := new_attempt k repository source target merged in
     gh_trace g ⊆ gh_trace g' -> gh_storage g' = gh_storage g -> gh_guard g' = gh_guard g -> gh_session g' = None ->
     gh_attempt g' = Some (id, set_attempt Prepared owner None a, Unpublished) -> justified (gh_trace g') p a ->
     Q (Ok (source, target, id, a)) g') ->
  wp (prepare_merge digest storage k p repository permit) Q g.
Proof.
  intros Hs Hw Hr Ha Hst Hrep Hg HQe HQ. apply wp_try, wp_branch_snapshot. intros [target|] g1 K1 Ht; [|by apply HQe].
  apply wp_try, wp_branch_snapshot. intros [source|] g2 K2 Hsrc; [|by apply HQe].
  destruct (str_eqb _ _); [by apply HQe|]. apply wp_try, wp_merge_gate. intros [[]|] g3 K3 Hgate; [|by apply HQe].
  apply wp_try, wp_merge_commit. intros [merged|] g4 K4 Hm; [|by apply HQe].
  apply wp_try, wp_require_write. intros [[]|] g5 K5; [|by apply HQe].
  apply wp_bind, wp_quiet; [done|]. intros id g6 K6 _ _. set (a := new_attempt k repository source target merged).
  assert (K46 : extends g4 g6) by (by etransitivity).
  assert (K26 : extends g2 g6) by (etransitivity; [exact K3|by etransitivity]).
  assert (K16 : extends g1 g6) by (by etransitivity). assert (K06 : extends g g6) by (by etransitivity).
  assert (HJ : justified (gh_trace g6) p a).
  { destruct (Ht target eq_refl) as [Hbt Hht], (Hsrc source eq_refl) as [Hbs Hhs], (Hm merged eq_refl) as (tree & out & Hev & Hout).
    split.
    - exists (bs_name source), (bs_name target). split_and!; [done|done|]. cbn.
      assert (K36 : extends g3 g6) by (by etransitivity).
      destruct (Hgate eq_refl) as [Hga|Hga]; [left|right]; by apply (ex_trace _ _ K36).
    - split; eapply saw_head_mono; [apply (ex_trace _ _ K26)|done|apply (ex_trace _ _ K16)|done].
    - exists tree, out. split; [by apply (ex_trace _ _ K46)|done]. }
  apply wp_try, wp_mapped. eapply wp_exec; [rewrite (ex_session _ _ K06); exact Hs|done|intros; apply HQe|]. intros [] g7 K7 S7 _.
  apply wp_try, wp_quiet; [done|]. intros [owner|] g8 K8 _ _; [|apply HQe].
  apply wp_try, wp_mapped. eapply wp_exec; [rewrite (ex_session _ _ K8); exact S7|done|intros; apply HQe|]. intros [] g9 K9 S9 _.
  apply wp_try, wp_quiet; [done|]. intros [[]|] g10 K10 _ _; [|apply HQe].
  apply wp_try, wp_require_write. intros [[]|] g11 K11; [|by apply HQe].
  assert (K : extends g9 g11) by (by etransitivity).
  assert (KK : keeps g6 g11).
  { etransitivity; [exact K7|]. etransitivity; [exact (extends_keeps _ _ K8)|]. etransitivity; [exact K9|]. by apply extends_keeps. }
  assert (HJ2 : justified (gh_trace g11) p a) by (eapply justified_mono; [apply (ke_trace _ _ KK)|done]).
  assert (Ew : se_writes s ++ [InsertAttempt id a] ++ [SetOwner id owner] = [InsertAttempt id a; SetOwner id owner]) by (by rewrite Hw).
  apply wp_try, wp_mapped. eapply wp_commit; [rewrite (ex_session _ _ K); exact S9| |intros; apply HQe|].
  - eapply (tx_prepare _ _ id a owner k p); [cbn; by rewrite <- app_assoc, Ew|done|done|done|done|done|done|done| |done].
    by rewrite (ke_guard _ _ KK), (ex_guard _ _ K06).
  - intros g12 T12 R12 G12 S12 A12 _. apply HQ with (owner := owner); [|by rewrite R12, (ke_storage _ _ KK), (ex_storage _ _ K06)|by rewrite G12, (ke_guard _ _ KK), (ex_guard _ _ K06)|done| |].
    + etransitivity; [apply (ex_trace _ _ K06)|]. etransitivity; [apply (ke_trace _ _ KK)|done].
    + rewrite A12. cbn [add_write se_writes]. by rewrite <- app_assoc, Ew.
    + by eapply justified_mono.
Qed.

(** [update-ref] of a prepared attempt. *)
Lemma wp_publish_merge source target a id merged p (Q : result unit ApiError -> ghost -> Prop) g :
  gh_attempt g = Some (id, a, Unpublished) -> gh_guard g = Some (ma_repository a) ->
  bs_reference source = ma_source_ref a -> bs_oid source = ma_source_oid a -> bs_reference target = ma_target_ref a ->
  bs_oid target = ma_target_oid a -> merged = ma_merge_oid a ->
  gh_storage g = Some (pl_storage p) ->
  (exists storage number, Ev (LockPull storage number) (Ok (Some (ma_pull a, p))) ∈ gh_trace g) -> justified (gh_trace g) p a ->
  (forall r g', gh_trace g ⊆ gh_trace g' -> gh_storage g' = gh_storage g -> gh_guard g' = gh_guard g -> gh_session g' = gh_session g ->
     (r = Ok tt -> gh_attempt g' = Some (id, a, Published)) ->
     (forall e, r = Err e -> (status e =? 409)%Z = true -> gh_attempt g' = Some (id, a, Refused)) -> Q r g') ->
  wp (publish_merge source target merged) Q g.
Proof.
  unfold publish_merge. intros Ha Hg -> -> -> -> -> Hst0 Hev HJ HQ. apply wp_bind, wp_calls.
  { cbn. exists id, a, p. by split_and!. }
  intros r _. set (g1 := after _ _ _).
  assert (Ha1 : gh_attempt g1 = Some (id, a, phase_of r)) by (unfold g1; cbn; by rewrite Ha).
  assert (HQ1 : forall x, (x = Ok tt -> phase_of r = Published) -> (forall e, x = Err e -> (status e =? 409)%Z = true -> phase_of r = Refused) -> Q x g1).
  { intros x H1 H2. apply HQ; [unfold g1; cbn; set_solver|done|done|done|intros E; by rewrite Ha1, H1|intros e E Es; by rewrite Ha1, (H2 e)]. }
  clearbody g1. destruct r as [[w out]|f].
  - cbn [phase_of] in HQ1. destruct (w && out_success out && _); [by apply HQ1|].
    destruct (w && negb (out_success out) && _); [by apply HQ1|]. apply HQ1; [done|]. by intros e [= <-].
  - apply HQ1; [done|]. intros e [= <-]. by destruct f.
Qed.

Lemma wp_publish_attempt storage p source target id merged repository k owner clock permit g :
  let a := new_attempt k repository source target merged in
  gh_session g = None -> gh_attempt g = Some (id, set_attempt Prepared owner None a, Unpublished) -> gh_guard g = Some repository -> gh_storage g = Some storage -> pl_storage p = storage ->
  (exists storage number, Ev (LockPull storage number) (Ok (Some (k, p))) ∈ gh_trace g) -> justified (gh_trace g) p a ->
  wp (publish_attempt digest storage k source target id a clock permit) (told PrMerged) g.
Proof.
  intros a Hs Ha Hg Hst0 Hpst Hev HJ. apply wp_try, wp_mapped, wp_calls; [done|]. intros [now|] _; [|by intros]. cbn [or_error].
  set (g1 := after _ _ g). assert (S1 : gh_session g1 = Some (open_session now)) by done.
  assert (K1 : keeps g g1) by (split; [cbn; set_solver|done..]). clearbody g1.
  apply wp_try, wp_open_transaction. intros [[]|] g2 K2; [|by intros].
  apply wp_try, wp_mapped, wp_calls; [exists (open_session now); by rewrite (ex_session _ _ K2)|]. intros [current|] _; [|by intros]. cbn [or_error].
  case_bool_decide as Hc; [|by intros]. cbn [negb].
  set (g3 := after _ _ g2). set (s3 := lock_row k None (open_session now)).
  assert (S3 : gh_session g3 = Some s3) by (unfold g3; cbn; by rewrite (ex_session _ _ K2), S1).
  assert (K3 : keeps g2 g3) by (split; [cbn; set_solver|done..]). clearbody g3.
  apply wp_try, wp_require_write. intros [[]|] g4 K4; [|by intros].
  assert (K : keeps g g4).
  { etransitivity; [exact K1|]. etransitivity; [exact (extends_keeps _ _ K2)|]. etransitivity; [exact K3|]. by apply extends_keeps. }
  apply wp_bind. eapply wp_publish_merge with (id := id) (a := set_attempt Prepared owner None a) (p := p); try done.
  - by rewrite (ke_attempt _ _ K).
  - by rewrite (ke_guard _ _ K).
  - by rewrite (ke_storage _ _ K), Hst0, Hpst.
  - destruct Hev as (st & n & Hev). exists st, n. by apply (ke_trace _ _ K).
  - eapply justified_mono; [apply (ke_trace _ _ K)|]. destruct HJ as [B H C]. by split.
  - intros r g5 T5 R5 G5 S5 Hok Herr. rewrite (ex_session _ _ K4), S3 in S5. rewrite (ke_guard _ _ K) in G5. destruct r as [[]|e].
    + apply wp_signaled. apply (wp_complete_merge storage id (set_attempt Prepared owner None a) None permit g5 s3 S5); try done;
        [by rewrite R5, (ke_storage _ _ K)|by rewrite G5| |left; by apply Hok].
      destruct Hev as (st & n & Hev). exists st, n, p. split; [by apply T5, (ke_trace _ _ K)|done].
    + destruct (status e =? 409)%Z eqn:E; [|by intros]. specialize (Herr e eq_refl E).
      apply wp_try, wp_mapped. eapply wp_exec; [exact S5|done|by intros|]. intros [] g6 K6 S6 _.
      apply wp_try, wp_mapped. eapply wp_commit; [exact S6| |by intros|by intros].
      eapply (tx_reject _ _ id (set_attempt Prepared owner None a) None); try done; [by rewrite (ke_guard _ _ K6), G5|by rewrite (ke_attempt _ _ K6)].
Qed.

(** What each action makes of a pull request. *)
Definition outcome (action : str) : pr_status := if is_merge action then PrMerged else if str_eqb action §"close" then PrClosed else PrOpen.

Lemma wp_other_action action k p permit g s x : is_merge action = false ->
  gh_session g = Some s -> se_writes s = [] -> se_row s = Some (k, Some p) -> se_active s = Some x ->
  (forall id a, x = Some (id, a) -> ma_state a <> Prepared) ->
  wp (other_action action k p permit) (told (outcome action)) g.
Proof.
  intros Hm Hs Hw Hr Hx Hn. unfold other_action, outcome. rewrite Hm. destruct (str_eqb action _); [eapply wp_status_action; eauto|].
  destruct (str_eqb action _); [eapply wp_status_action; eauto|by intros].
Qed.

Lemma wp_act storage number action k p clock permit g s :
  gh_session g = Some s -> se_writes s = [] -> se_updated s = None -> se_row s = Some (k, Some p) ->
  Ev (LockPull storage number) (Ok (Some (k, p))) ∈ gh_trace g -> gh_storage g = Some storage -> pl_storage p = storage ->
  (forall r, is_merge action = true -> pl_repository p = Some r -> gh_guard g = Some r) ->
  wp (act digest storage action k p clock permit) (told (outcome action)) g.
Proof.
  intros Hs Hw Hu Hr Hev Hst0 Hpst Hg. apply wp_try, wp_require_write. intros [[]|] g1 K1; [|by intros].
  apply wp_try, wp_mapped, wp_calls; [exists s, (Some p); by rewrite (ex_session _ _ K1)|]. intros [active|] Ha; [|by intros]. cbn [or_error].
  set (g2 := after _ _ g1). set (s2 := know_active active s).
  assert (S2 : gh_session g2 = Some s2) by (unfold g2; cbn; by rewrite (ex_session _ _ K1), Hs).
  assert (K : keeps g g2) by (etransitivity; [exact (extends_keeps _ _ K1)|split; [cbn; set_solver|done..]]). clearbody g2.
  assert (G2 : forall r, is_merge action = true -> pl_repository p = Some r -> gh_guard g2 = Some r) by (intros r; rewrite (ke_guard _ _ K); apply Hg).
  unfold outcome. destruct active as [[id a]|], (is_merge action) eqn:Em.
  - destruct (Ha id a eq_refl) as [Hp Hrej]. eapply wp_recover_merge; eauto; [by rewrite (ke_storage _ _ K)|]. exists storage, number, p. split; [by apply (ke_trace _ _ K)|done].
  - case_bool_decide as Hst; [by intros|]. pose proof (wp_other_action action k p permit g2 s2 (Some (id, a)) Em S2 Hw Hr eq_refl) as Ho.
    unfold outcome in Ho. rewrite Em in Ho. apply Ho. by intros id' a' [= <- <-].
  - unfold merge_action. destruct (pl_repository p) as [repository|] eqn:Erep; [|by intros]. case_bool_decide as Hst; [|by intros]. cbn [negb].
    apply wp_try. eapply (wp_prepare_merge storage k p repository permit g2 s2); eauto; [by intros|].
    intros source target id merged owner g3 a T3 R3 G3 S3 A3 HJ. eapply wp_publish_attempt; [done|exact A3| | |done| |exact HJ].
    + rewrite G3. by apply G2.
    + by rewrite R3, (ke_storage _ _ K).
    + exists storage, number. by apply T3, (ke_trace _ _ K).
  - pose proof (wp_other_action action k p permit g2 s2 None Em S2 Hw Hr eq_refl) as Ho. unfold outcome in Ho. rewrite Em in Ho. by apply Ho.
Qed.

Lemma wp_pr_action authority role repo number action :
  wp (pr_action digest authority role repo number action) (told (outcome action)) new_ghost.
Proof.
  apply wp_try. assert (H : forall clock g, extends new_ghost g -> wp (run? required := call PolicyRequired in
    if required && negb (bool_decide (role = Some §"service_account")) && negb clock then fail forbidden
    else run! entered := call (EnterEffect (is_merge action)) in
      if entered then run? _ := call CurrentOrigin in pr_action_owned digest repo number action clock
      else fail (service_unavailable §"Forge draining")) (told (outcome action)) g).
  2: { destruct (authority && is_some role); [|by apply H]. apply wp_quiet; [done|]. intros [clock|] g K _ _; [by apply H|by intros]. }
  intros clock g K. apply wp_try, wp_quiet; [done|]. intros [required|] g1 K1 _ _; [|by intros]. destruct (_ && _ && _); [by intros|].
  apply wp_bind, wp_quiet; [done|]. intros [] g2 K2 _ _; [|by intros]. apply wp_try, wp_quiet; [done|]. intros [[]|] g3 K3 _ _; [|by intros].
  assert (K03 : extends new_ghost g3) by (etransitivity; [exact K|]; etransitivity; [exact K1|by etransitivity]).
  pose proof (ex_storage _ _ K03 : gh_storage g3 = None) as KN.
  apply wp_try, wp_calls; [exact KN|]. intros [storage|] _; [|by intros]. set (g4 := after _ _ g3).
  assert (R4 : gh_storage g4 = Some storage) by done. assert (K4 : gh_guard g4 = gh_guard g3 /\ gh_session g4 = gh_session g3) by done. clearbody g4.
  apply wp_try, wp_quiet; [done|]. intros [[]|] g5 K5 _ _; [|by intros].
  apply wp_try, wp_quiet; [done|]. intros [[]|] g6 K6 _ _; [|by intros]. apply wp_try, wp_quiet; [done|]. intros [permit|] g7 K7 _ _; [|by intros].
  assert (K47 : extends g4 g7) by (etransitivity; [exact K5|by etransitivity]).
  assert (KG : gh_guard g7 = None) by (rewrite (ex_guard _ _ K47), (proj1 K4); exact (ex_guard _ _ K03)).
  assert (KS : gh_session g7 = None) by (rewrite (ex_session _ _ K47), (proj2 K4); exact (ex_session _ _ K03)).
  assert (KR : gh_storage g7 = Some storage) by (by rewrite (ex_storage _ _ K47)).
  clear -KG KS KR. apply wp_try.
  assert (Hrest : forall g8, gh_session g8 = None -> gh_storage g8 = Some storage -> (is_merge action = true -> exists r, catalog storage = Some r /\ gh_guard g8 = Some r) ->
    wp (run? _ := mapped internal (call Begin) in run? _ := open_transaction clock permit in
        run? row := mapped internal (call (LockPull storage number)) in
        match row with None => fail not_found | Some (k, p) => act digest storage action k p clock permit end) (told (outcome action)) g8).
  - intros g8 S8 R8 Hg. apply wp_try, wp_mapped, wp_calls; [done|]. intros [now|] _; [|by intros]. cbn [or_error].
    set (g9 := after _ _ g8). assert (S9 : gh_session g9 = Some (open_session now)) by done.
    assert (K9 : keeps g8 g9) by (split; [cbn; set_solver|done..]). clearbody g9.
    apply wp_try, wp_open_transaction. intros [[]|] g10 K10; [|by intros].
    apply wp_try, wp_mapped, wp_calls; [split; [by rewrite (ex_storage _ _ K10), (ke_storage _ _ K9)|exists (open_session now); by rewrite (ex_session _ _ K10)]|]. intros [[[k p]|]|] Hrow; [|by intros..]. cbn [or_error].
    destruct (Hrow k p eq_refl) as (Hpst & _ & Hcat).
    apply (wp_act storage number action k p clock permit _ (lock_row k (Some p) (open_session now))); try done.
    + cbn. by rewrite (ex_session _ _ K10), S9.
    + cbn. set_solver.
    + cbn. by rewrite (ex_storage _ _ K10), (ke_storage _ _ K9).
    + intros r Em Er. destruct (Hg Em) as (r' & Hr' & G8). cbn. rewrite (ex_guard _ _ K10), (ke_guard _ _ K9), G8. congruence.
  - unfold guard_merge. destruct (is_merge action); [|by apply Hrest].
    apply wp_try, wp_mapped, wp_quiet; [done|]. intros [r|] g8 K8 _ Hr; [|by intros]. cbn [or_error].
    apply wp_calls; [cbn; by rewrite (ex_guard _ _ K8)|]. intros [[]|] _; [|by intros].
    apply Hrest; [cbn; by rewrite (ex_session _ _ K8)|cbn; by rewrite (ex_storage _ _ K8)|]. intros _. exists r. split; [by apply Hr|done].
Qed.
End handlers.
