(* ===== verification/PullSystem.v ===== *)
(** * Systems of pull request handlers

    Handlers are programs of [PullMerge]; they interleave call by call with
    each other, with the creation of pull requests and with everybody else
    who changes repositories, pipelines and policies.  A handler can stop at
    any point, lose its database connection, or die while a Git process it
    has started goes on, which then keeps the guard of the repository. *)
From S2P Require Import Prelude Programs Table Outbox Api Pulls PullMerge PullSafety.

(** ** The environment *)

Record project_row : Type := { pj_repository : option N; pj_protected : list str }.
Record pipeline_row : Type := { pw_project : N; pw_ref : str; pw_sha : str; pw_success : bool }.

(** The branches of the repositories by their storage name, the commits with
    their parents; the attempts whose merge was published. *)
Record env : Type := {
  en_clock : Z;
  en_store : store;
  en_refs : gmap str (gmap str str);
  en_commits : gmap str (list str);
  en_projects : gmap N project_row;
  en_pipelines : list pipeline_row;
  en_published : list N }.

Definition written (s : store) (e : env) : env := {|
  en_clock := en_clock e; en_store := s; en_refs := en_refs e; en_commits := en_commits e; en_projects := en_projects e;
  en_pipelines := en_pipelines e; en_published := en_published e |}.

Definition add_commit (oid : str) (parents : list str) (e : env) : env := {|
  en_clock := en_clock e; en_store := en_store e; en_refs := en_refs e; en_commits := <[oid := parents]> (en_commits e);
  en_projects := en_projects e; en_pipelines := en_pipelines e; en_published := en_published e |}.

Definition repo_refs (storage : option str) (e : env) : gmap str str :=
  match storage with Some s => default ∅ (en_refs e !! s) | None => ∅ end.

(** A branch moves, with the merge of an attempt. *)
Definition publish (storage reference new : str) (id : N) (e : env) : env := {|
  en_clock := en_clock e; en_store := en_store e; en_refs := <[storage := <[reference := new]> (repo_refs (Some storage) e)]> (en_refs e);
  en_commits := en_commits e; en_projects := en_projects e; en_pipelines := en_pipelines e; en_published := id :: en_published e |}.

Definition repository_of (e : env) (project : N) : option N := p ← en_projects e !! project; pj_repository p.

(** [COALESCE(BOOL_OR($2 = ANY(p.protected_branches)), FALSE) .. WHERE p.repository_id=$1] *)
Definition of_repository (repository : option N) (r : option N) : bool :=
  match repository, r with Some a, Some b => (a =? b)%N | _, _ => false end.

Definition protected_branch (e : env) (repository : option N) (branch : str) : bool :=
  existsb (fun p => of_repository repository (pj_repository p.2) && bool_decide (branch ∈ pj_protected p.2)) (map_to_list (en_projects e)).

(** A successful pipeline of the reference at the commit. *)
Definition green (e : env) (repository : option N) (reference sha : str) : bool :=
  existsb (fun w => of_repository repository (repository_of e (pw_project w)) && str_eqb (pw_ref w) reference && str_eqb (pw_sha w) sha && pw_success w)
    (en_pipelines e).

Section system.
Context `{UuidText} (digest : str -> str) (catalog : str -> option N).

(** ** Transactions *)

Definition db {A} (r : result A db_error) : result A (option db_error) :=
  match r with Ok a => Ok a | Err e => Err (Some e) end.

Definition apply_write (repository_of : N -> option N) (now : Z) (s : store) (w : write) : result store (option db_error) :=
  match w with
  | InsertAttempt id a => db (prepare id a s)
  | SetOwner id owner => db (set_owner id owner s)
  | FinishAttempt id published => db (finish now id published s)
  | MarkMerged k oid => db (mark_merged now k oid s)
  | ChangeStatus k st => db (change_status now k st s)
  | EnqueueCi event message repository storage k reference commit attempt owner =>
    enqueue_ci digest repository_of now event message repository storage k reference commit attempt owner s
  end.

Definition apply_writes (e : env) (now : Z) (ws : list write) : result store (option db_error) :=
  rfold (apply_write (repository_of e) now) (en_store e) ws.

Definition row_of (w : write) (s : store) : returned w -> Prop :=
  match w return returned w -> Prop with
  | MarkMerged k _ | ChangeStatus k _ => fun p => pulls s !! k = Some p
  | _ => fun _ => True
  end.

(** ** Answers *)

(** What Git answers, to a handler that merges for the attempt [id]. *)
Definition git_serves (storage : option str) (attempt : option N) (e : env) (c : git_command) (a : result (bool * Output) git_failure) (e' : env) : Prop :=
  match c with
  | MergeTree _ _ => e' = e
  | CommitTree _ target source _ =>
    (e' = e \/ exists oid, (en_commits e !! oid = None \/ en_commits e !! oid = Some [target; source]) /\ e' = add_commit oid [target; source] e) /\
    forall w out, a = Ok (w, out) -> out_success out = true -> en_commits e' !! trim (out_stdout out) = Some [target; source]
  | UpdateRefs verify verify_oid update new old =>
    e' = e /\ phase_of a <> Published \/
    exists s id, storage = Some s /\ attempt = Some id /\ repo_refs storage e !! verify = Some verify_oid /\ repo_refs storage e !! update = Some old /\
      e' = publish s update new id e /\ phase_of a <> Refused
  end.

(** The answers of the calls of a handler with the knowledge [g], whose
    connection is [alive].  A guard and a locked row are free when no other
    handler has them.  The answer of a commit can be lost. *)
Definition serves (guard_free row_free : N -> Prop) (alive : bool) (g : ghost) (e : env) (o : op) : answer o -> env -> Prop :=
  match o return answer o -> env -> Prop with
  | ReadRepositoryId storage => fun a e' => e' = e /\ forall r, a = Ok r -> catalog storage = Some r
  | AcquireGuard r => fun a e' => e' = e /\ (a = Ok tt -> guard_free r)
  | Begin => fun a e' => e' = e /\ forall now, a = Ok now -> now = en_clock e
  | LockPull storage number => fun a e' => e' = e /\ forall row, a = Ok row -> alive = true /\ row = find_pull storage number (en_store e) /\
      forall k p, row = Some (k, p) -> row_free k
  | LockStatus k => fun a e' => e' = e /\ forall st, a = Ok st -> alive = true /\ row_free k /\
      exists p, pulls (en_store e) !! k = Some p /\ pl_status p = st
  | ReadActive k => fun a e' => e' = e /\ forall x, a = Ok x -> alive = true /\ x = active_attempt k (en_store e)
  | ShowRef reference => fun a e' => e' = e /\ forall out, a = Ok out -> out_success out = true ->
      repo_refs (gh_storage g) e !! reference = Some (trim (out_stdout out))
  | ReadProtected repository branch => fun a e' => e' = e /\ forall b, a = Ok b -> b = protected_branch e repository branch
  | ReadGreen repository branch oid => fun a e' => e' = e /\ forall b, a = Ok b -> b = green e repository branch oid
  | Git c => git_serves (gh_storage g) ((fun x => x.1.1) <$> gh_attempt g) e c
  | CapturePolicy repository key reference => fun a e' =>
      e' = e /\ is_ok a = false \/ e' = written (capture_policy repository key reference (en_store e)) e
  | ReadOwner id => fun a e' => e' = e /\ forall owner, a = Ok owner -> alive = true /\
      exists x, attempts (en_store e) !! id = Some x /\ owner = ma_owner x
  | Exec w => fun a e' => e' = e /\ forall r, a = Ok r -> alive = true /\
      exists s t, gh_session g = Some s /\ apply_writes e (se_now s) (se_writes s ++ [w]) = Ok t /\ row_of w t r
  | Commit => fun a e' =>
      e' = e /\ is_ok a = false \/
      alive = true /\ exists s t, gh_session g = Some s /\ apply_writes e (se_now s) (se_writes s) = Ok t /\ e' = written t e
  | _ => fun _ e' => e' = e
  end.

(** ** Systems *)

Record worker : Type := {
  wk_action : str; wk_alive : bool; wk_ghost : ghost; wk_program : io (result PullRequest ApiError) }.

Record system : Type := { sy_env : env; sy_workers : gmap N worker; sy_past : list env }.

(** Everything that was or is. *)
Definition seen (s : system) : list env := sy_env s :: sy_past s.

Definition guard_free (i : N) (s : system) (r : N) : Prop :=
  forall j w, j <> i -> sy_workers s !! j = Some w -> gh_guard (wk_ghost w) <> Some r.
Definition locked (w : worker) (k : N) : Prop :=
  wk_alive w = true /\ exists x p, gh_session (wk_ghost w) = Some x /\ se_row x = Some (k, p).
Definition row_free (i : N) (s : system) (k : N) : Prop :=
  forall j w, j <> i -> sy_workers s !! j = Some w -> ~ locked w k.

Definition alive_after (o : op) : answer o -> bool -> bool :=
  match o return answer o -> bool -> bool with Begin => fun a b => is_ok a || b | _ => fun _ b => b end.

(** What changes outside the handlers. *)
Record elsewhere (e e' : env) : Prop := {
  el_clock : (en_clock e <= en_clock e')%Z;
  el_published : en_published e' = en_published e;
  el_commits : en_commits e ⊆ en_commits e';
  el_pulls : pulls (en_store e') = pulls (en_store e);
  el_attempts : attempts (en_store e') = attempts (en_store e);
  el_counters : counters (en_store e') = counters (en_store e);
  el_operations : operations (en_store e) ⊆ operations (en_store e') }.

Definition next (s : system) (e : env) (ws : gmap N worker) : system := {| sy_env := e; sy_workers := ws; sy_past := seen s |}.

Inductive step : system -> system -> Prop :=
| step_start i authority role repo number action s :
    sy_workers s !! i = None ->
    step s (next s (sy_env s) (<[i := {| wk_action := action; wk_alive := false; wk_ghost := new_ghost;
                                         wk_program := pr_action digest authority role repo number action |}]> (sy_workers s)))
| step_call i w o k a e s :
    sy_workers s !! i = Some w -> wk_program w = Call o k ->
    serves (guard_free i s) (row_free i s) (wk_alive w) (wk_ghost w) (sy_env s) o a e ->
    step s (next s e (<[i := {| wk_action := wk_action w; wk_alive := alive_after o a (wk_alive w); wk_ghost := after o a (wk_ghost w);
                                wk_program := k a |}]> (sy_workers s)))
| step_stop i s : step s (next s (sy_env s) (delete i (sy_workers s)))
| step_crash i w c k s :
    sy_workers s !! i = Some w -> wk_program w = Call (Git c) k ->
    step s (next s (sy_env s) (<[i := {| wk_action := wk_action w; wk_alive := false; wk_ghost := wk_ghost w;
                                         wk_program := Call (Git c) (fun _ => Done (Err merge_unconfirmed)) |}]> (sy_workers s)))
| step_disconnect i w s :
    sy_workers s !! i = Some w ->
    step s (next s (sy_env s) (<[i := {| wk_action := wk_action w; wk_alive := false; wk_ghost := wk_ghost w;
                                         wk_program := wk_program w |}]> (sy_workers s)))
| step_create id check storage confirmed user username input p t s :
    create_pull_request catalog check (en_clock (sy_env s)) id storage confirmed user username input (en_store (sy_env s)) = Ok (p, t) ->
    step s (next s (written t (sy_env s)) (sy_workers s))
| step_elsewhere e s : elsewhere (sy_env s) e -> step s (next s e (sy_workers s)).

(** No pull requests yet, and nobody at work. *)
Definition installed (s : system) : Prop :=
  pulls (en_store (sy_env s)) = ∅ /\ attempts (en_store (sy_env s)) = ∅ /\ counters (en_store (sy_env s)) = ∅ /\
  en_published (sy_env s) = [] /\ sy_workers s = ∅ /\ sy_past s = [].
End system.
