(* ===== verification/PullJournal.v ===== *)
(** * Invariants of the rows of pull requests

    What every transaction keeps of pull requests and merge attempts
    ([ledger]), and what no transaction undoes ([evolves]). *)
From S2P Require Import Prelude Programs Table Outbox Api Pulls PullMerge PullSafety PullSystem.

(** ** Well-formed rows *)

Definition branches_of (p : PullRequest) (a : Attempt) : Prop :=
  exists s d, branch_name (pl_source p) = Ok (s, ma_source_ref a) /\ branch_name (pl_target p) = Ok (d, ma_target_ref a).

(** The columns of each status. *)
Definition status_wf (s : store) (k : N) (p : PullRequest) : Prop :=
  match pl_status p with
  | PrMerged => is_Some (pl_merged_at p) /\ exists id a, attempts s !! id = Some a /\ ma_pull a = k /\ ma_state a = Confirmed /\
      pl_merge_commit p = Some (ma_merge_oid a)
  | _ => pl_merged_at p = None /\ pl_merge_commit p = None
  end.

Definition attempt_wf (p : PullRequest) (a : Attempt) : Prop :=
  pl_repository p = Some (ma_repository a) /\ branches_of p a /\
  match ma_state a with
  | Prepared => pl_status p = PrOpen /\ ma_completed_at a = None
  | Confirmed => pl_status p = PrMerged /\ pl_merge_commit p = Some (ma_merge_oid a) /\ is_Some (ma_completed_at a)
  | Rejected => is_Some (ma_completed_at a)
  end.

Section ledger.
Context (catalog : str -> option N).

Record ledger (s : store) : Prop := {
  l_pulls : valid_table (pulls s);
  l_attempts : valid_table (attempts s);
  l_status : forall k p, pulls s !! k = Some p -> status_wf s k p /\ pl_repository p = catalog (pl_storage p);
  l_wf : forall id a, attempts s !! id = Some a -> exists p, pulls s !! ma_pull a = Some p /\ attempt_wf p a;
  l_numbers : forall k p, pulls s !! k = Some p -> exists r n, pl_repository p = Some r /\ counters s !! r = Some n /\ (1 <= pl_number p <= n)%Z;
  l_counters : forall r n, counters s !! r = Some n -> (1 <= n <= i32_max)%Z;
  l_dense : forall r n m, counters s !! r = Some n -> (1 <= m <= n)%Z ->
    exists k p, pulls s !! k = Some p /\ pl_repository p = Some r /\ pl_number p = m }.

(** ** What stays *)

Record pull_evolves (p p' : PullRequest) : Prop := {
  pe_storage : pl_storage p' = pl_storage p;
  pe_repository : pl_repository p' = pl_repository p;
  pe_number : pl_number p' = pl_number p;
  pe_source : pl_source p' = pl_source p;
  pe_target : pl_target p' = pl_target p;
  pe_author : pl_created_by p' = pl_created_by p /\ pl_created_at p' = pl_created_at p;
  pe_merged : pl_status p = PrMerged -> p' = p }.

Definition same_attempt (a a' : Attempt) : Prop :=
  ma_pull a' = ma_pull a /\ ma_repository a' = ma_repository a /\ ma_source_ref a' = ma_source_ref a /\ ma_source_oid a' = ma_source_oid a /\
  ma_target_ref a' = ma_target_ref a /\ ma_target_oid a' = ma_target_oid a /\ ma_merge_oid a' = ma_merge_oid a /\ ma_owner a' = ma_owner a.

Definition attempt_evolves (a a' : Attempt) : Prop := same_attempt a a' /\ (ma_state a <> Prepared -> a' = a).

Record evolves (s s' : store) : Prop := {
  ev_pulls : forall k p, pulls s !! k = Some p -> exists p', pulls s' !! k = Some p' /\ pull_evolves p p';
  ev_attempts : forall id a, attempts s !! id = Some a -> exists a', attempts s' !! id = Some a' /\ attempt_evolves a a' }.

#[export] Instance pull_evolves_po : PreOrder pull_evolves.
Proof.
  split; [by split|]. intros p1 p2 p3 [] []. split; try congruence.
  - destruct pe_author0, pe_author1. split; congruence.
  - intros E. rewrite pe_merged1 by (by rewrite pe_merged0). auto.
Qed.

#[export] Instance attempt_evolves_po : PreOrder attempt_evolves.
Proof.
  split; [by split|]. intros a1 a2 a3 [S1 E1] [S2 E2]. split; [unfold same_attempt in *; intuition congruence|].
  intros H. pose proof (E1 H) as ->. by apply E2.
Qed.

#[export] Instance pulls_evolves_po : PreOrder evolves.
Proof.
  split; [intros s; split; [intros k p ?; exists p|intros k a ?; exists a]; by split|]. intros s1 s2 s3 [A1 A2] [B1 B2]. split.
  - intros k p Hp. destruct (A1 k p Hp) as (p2 & H2 & E2), (B1 k p2 H2) as (p3 & H3 & E3). exists p3. split; [done|by etransitivity].
  - intros k a Ha. destruct (A2 k a Ha) as (a2 & H2 & E2), (B2 k a2 H2) as (a3 & H3 & E3). exists a3. split; [done|by etransitivity].
Qed.

(** ** Reading *)

Lemma find_pull_Some storage number s k p : find_pull storage number s = Some (k, p) ->
  pulls s !! k = Some p /\ pl_storage p = storage /\ pl_number p = number.
Proof.
  unfold find_pull. destruct (select _ _) as [|x l] eqn:E; [done|]. intros [= ->].
  assert (Hin : (k, p) ∈ select (fun _ p => str_eqb (pl_storage p) storage && (pl_number p =? number)%Z) (pulls s)) by (rewrite E; left).
  apply elem_of_select in Hin as [Hk [Hs%str_eqb_true Hn%Z.eqb_eq]%andb_true_iff]. done.
Qed.

Definition live_for (k : N) (a : Attempt) : Prop := ma_pull a = k /\ ma_state a <> Rejected.

Lemma live_test k a : (ma_pull a =? k)%N && negb (bool_decide (ma_state a = Rejected)) = true <-> live_for k a.
Proof. unfold live_for. rewrite andb_true_iff, negb_true_iff, N.eqb_eq, bool_decide_eq_false. done. Qed.

(** A pull request has at most one live attempt. *)
Lemma live_unique s i j a b k : valid_table (attempts s) -> attempts s !! i = Some a -> attempts s !! j = Some b ->
  live_for k a -> live_for k b -> i = j.
Proof.
  intros Hv Hi Hj [Ha1 Ha2] [Hb1 Hb2]. destruct (decide (i = j)) as [|Hne]; [done|]. pose proof (vt_unique _ Hv i j a b Hne Hi Hj) as Hc. cbn in Hc.
  rewrite Ha1, Hb1, N.eqb_refl, (bool_decide_eq_false_2 _ Ha2), (bool_decide_eq_false_2 _ Hb2) in Hc. done.
Qed.

Lemma active_attempt_Some s k id a : valid_table (attempts s) ->
  active_attempt k s = Some (id, a) <-> attempts s !! id = Some a /\ live_for k a.
Proof.
  intros Hv. unfold active_attempt. set (p := fun (_ : N) a => _ && _). rewrite <- live_test. change (_ && _) with (p id a).
  rewrite <- elem_of_select. destruct (select p (attempts s)) as [|[j b] l] eqn:E; cbn.
  - split; [done|]. by intros ?%elem_of_nil.
  - split; [intros [= -> ->]; left|]. intros Hin. assert (Hb : (j, b) ∈ select p (attempts s)) by (rewrite E; left).
    rewrite <- E in Hin. apply elem_of_select in Hin as [Hi Hl%live_test], Hb as [Hj Hm%live_test].
    assert (j = id) as -> by (by eapply live_unique). congruence.
Qed.

Lemma active_attempt_None s k : active_attempt k s = None <-> forall id a, attempts s !! id = Some a -> ~ live_for k a.
Proof.
  unfold active_attempt. set (p := fun (_ : N) a => _ && _). destruct (select p (attempts s)) as [|[j b] l] eqn:E; cbn.
  - split; [|done]. intros _ id a Ha Hl%live_test. assert (Hin : (id, a) ∈ select p (attempts s)) by (by apply elem_of_select).
    rewrite E in Hin. by apply elem_of_nil in Hin.
  - split; [done|]. intros H. assert (Hb : (j, b) ∈ select p (attempts s)) by (rewrite E; left).
    apply elem_of_select in Hb as [Hj Hl%live_test]. by destruct (H j b Hj).
Qed.

(** Attempts of other pull requests do not matter. *)
Lemma active_attempt_same s t k : valid_table (attempts s) -> valid_table (attempts t) ->
  (forall id a, live_for k a -> attempts s !! id = Some a <-> attempts t !! id = Some a) -> active_attempt k t = active_attempt k s.
Proof.
  intros Hs Ht Heq. destruct (active_attempt k s) as [[id a]|] eqn:E.
  - apply active_attempt_Some in E as [Ha Hl]; [|done]. apply active_attempt_Some; [done|]. split; [|done]. by apply Heq.
  - rewrite active_attempt_None in *. intros id a Ha Hl. by apply (E id a); [apply Heq|].
Qed.

(** ** Changes of rows *)

Lemma put_replace {V} `{Schema V} (t : gmap N V) k v v' : valid_table t -> t !! k = Some v -> check v' = true ->
  (forall w, conflict v' w = true -> conflict v w = true) -> put k v' t = Ok (<[k := v']> t).
Proof.
  intros Ht Hk Hc Hcf. apply put_Ok. split_and!; [done|done|]. intros i w Hi Hw.
  apply not_true_iff_false. intros Hx%Hcf. assert (Hne : k <> i) by congruence. by rewrite (vt_unique _ Ht k i v w Hne Hk Hw) in Hx.
Qed.

Lemma valid_replace {V} `{Schema V} (t : gmap N V) k v v' : valid_table t -> t !! k = Some v -> check v' = true ->
  (forall w, conflict v' w = true -> conflict v w = true) -> valid_table (<[k := v']> t).
Proof. intros Ht Hk Hc Hcf. apply (put_valid k v' t); [done|]. by eapply put_replace.
Qed.

Lemma ledger_frame s t : pulls t = pulls s -> attempts t = attempts s -> counters t = counters s -> ledger s -> ledger t.
Proof. intros Ep Ea Ec []. split; unfold status_wf in *; by rewrite ?Ep, ?Ea, ?Ec. Qed.

Lemma evolves_frame s t : pulls t = pulls s -> attempts t = attempts s -> evolves s t.
Proof. intros Ep Ea. split; rewrite ?Ep, ?Ea; intros i x Hx; exists x; by split. Qed.

(** One attempt changes that was not confirmed and is not. *)
Lemma ledger_attempt s id a p : ledger s -> valid_table (<[id := a]> (attempts s)) -> pulls s !! ma_pull a = Some p -> attempt_wf p a ->
  (forall b, attempts s !! id = Some b -> ma_state b = Prepared /\ attempt_evolves b a) ->
  let t := set_attempts (<[id := a]> (attempts s)) s in ledger t /\ evolves s t.
Proof.
  intros [L1 L2 L3 L4 L5 L7 L6] Hv Hp Hwf Hold t. split; [split; cbn; try done|split; cbn].
  - intros k q Hq. destruct (L3 k q Hq) as [Hs Hr]. split; [|done]. unfold status_wf in *. destruct (pl_status q); [done| |done].
    destruct Hs as (Hm & i & b & Hb & Hpl & Hst & Hc). split; [done|]. exists i, b. cbn. rewrite lookup_insert_ne; [done|].
    intros ->. destruct (Hold b Hb) as [E _]. congruence.
  - intros i b. rewrite lookup_insert_Some. intros [[<- <-]|[_ Hb]]; [by exists p|by apply (L4 i)].
  - intros k q Hq. by exists q.
  - intros i b Hb. destruct (decide (i = id)) as [->|Hne].
    + exists a. rewrite lookup_insert_eq. split; [done|]. by apply Hold.
    + exists b. rewrite lookup_insert_ne by done. by split.
Qed.

Lemma conflict_status now st m c p w : conflict (set_status now st m c p) w = conflict p w.
Proof. done. Qed.

(** A pull request changes its status. *)
Lemma ledger_pull s k p now st : ledger s -> pulls s !! k = Some p -> pl_status p <> PrMerged -> st <> PrMerged ->
  (forall id a, attempts s !! id = Some a -> ma_pull a = k -> ma_state a <> Prepared) ->
  let t := set_pulls (<[k := set_status now st (pl_merged_at p) (pl_merge_commit p) p]> (pulls s)) s in ledger t /\ evolves s t.
Proof.
  intros [L1 L2 L3 L4 L5 L7 L6] Hp Hm Hst Hna t. destruct (L3 k p Hp) as [Hwf Hrep].
  assert (Hcol : pl_merged_at p = None /\ pl_merge_commit p = None) by (unfold status_wf in Hwf; clear Hna; by destruct (pl_status p)).
  split; [split; cbn; try done|split; cbn].
  - by eapply valid_replace.
  - intros j q. rewrite lookup_insert_Some. intros [[<- <-]|[_ Hq]]; [|by apply L3]. split; [|done]. unfold status_wf. cbn. by destruct st.
  - intros i a Ha. destruct (L4 i a Ha) as (q & Hq & Hr & Hb & Hs). destruct (decide (ma_pull a = k)) as [<-|Hne].
    + eexists. rewrite lookup_insert_eq. split; [done|]. assert (q = p) as -> by congruence. split_and!; [done|done|].
      revert Hs; generalize (Hna i a Ha eq_refl). destruct (ma_state a); [by intros []|by intros _ [Hx _]|done].
    + exists q. by rewrite lookup_insert_ne.
  - intros j q. rewrite lookup_insert_Some. intros [[<- <-]|[_ Hq]]; [|by apply (L5 j)]. exact (L5 k p Hp).
  - intros r n m Hn Hm'. destruct (L6 r n m Hn Hm') as (j & q & Hq & Hr & Hnum). destruct (decide (j = k)) as [->|Hne].
    + eexists k, _. rewrite lookup_insert_eq. split; [done|]. assert (q = p) as -> by congruence. done.
    + exists j, q. by rewrite lookup_insert_ne.
  - intros j q Hq. destruct (decide (j = k)) as [->|Hne].
    + eexists. rewrite lookup_insert_eq. split; [done|]. assert (q = p) as -> by congruence. by split.
    + exists q. rewrite lookup_insert_ne by done. by split.
  - intros i a Ha. by exists a.
Qed.

(** A finished attempt keeps the constraints of its table. *)
Lemma finished_check st o now a : st <> Prepared -> o = ma_owner a -> check a = true -> check (set_attempt st o (Some now) a) = true.
Proof. intros Hst -> Hck. cbn in Hck |- *. rewrite !andb_true_iff in Hck |- *. destruct st; naive_solver. Qed.

Lemma finished_conflict st o now a w : ma_state a = Prepared -> conflict (set_attempt st o now a) w = true -> conflict a w = true.
Proof. intros Hst. cbn. rewrite !andb_true_iff. intros [[-> _] ->]. split_and!; try done. by rewrite Hst. Qed.

(** A prepared attempt and its pull request are merged together. *)
Lemma ledger_merge s id a p now : ledger s -> attempts s !! id = Some a -> ma_state a = Prepared -> pulls s !! ma_pull a = Some p ->
  let b := set_attempt Confirmed (ma_owner a) (Some now) a in
  let q := set_status now PrMerged (Some now) (Some (ma_merge_oid a)) p in
  let t := set_attempts (<[id := b]> (attempts s)) (set_pulls (<[ma_pull a := q]> (pulls s)) s) in ledger t /\ evolves s t.
Proof.
  intros [L1 L2 L3 L4 L5 L7 L6] Ha Hst Hp b q t. destruct (L4 id a Ha) as (p' & Hp' & Hrep & Hbr & Hwf). assert (p' = p) as -> by congruence.
  rewrite Hst in Hwf. destruct Hwf as [Hopen Hc].
  assert (Hothers : forall i c, attempts s !! i = Some c -> i <> id -> ma_pull c = ma_pull a -> ma_state c = Rejected).
  { intros i c Hi Hne Hk. destruct (decide (ma_state c = Rejected)) as [|Hn]; [done|]. destruct Hne.
    eapply (live_unique s i id c a (ma_pull a)); try done. split; [done|congruence]. }
  split; [split; cbn; try done|split; cbn].
  - by eapply valid_replace.
  - eapply valid_replace; [done|exact Ha| |].
    + by apply finished_check; [..|apply (vt_check _ L2 id a Ha)].
    + intros w. by apply finished_conflict.
  - intros j r. rewrite lookup_insert_Some. intros [[<- <-]|[Hne Hr]]; cbn.
    + split; [|exact (proj2 (L3 _ p Hp))]. unfold status_wf. cbn. split; [done|]. exists id, b. by rewrite lookup_insert_eq.
    + destruct (L3 j r Hr) as [Hs Hcat]. split; [|done]. unfold status_wf in *. destruct (pl_status r); [done| |done].
      destruct Hs as (Hm & i & c & Hi & Hk & Hsc & Hcm). split; [done|]. exists i, c. cbn. rewrite lookup_insert_ne; [done|]. congruence.
  - intros i c. rewrite lookup_insert_Some. intros [[<- <-]|[Hne Hi]].
    + exists q. cbn. rewrite lookup_insert_eq. split; [done|]. by split_and!.
    + destruct (L4 i c Hi) as (r & Hr & Hrr & Hbb & Hss). destruct (decide (ma_pull c = ma_pull a)) as [E|E].
      * exists q. rewrite E, lookup_insert_eq. assert (r = p) as -> by congruence. split; [done|]. unfold attempt_wf.
        rewrite (Hothers i c Hi ltac:(done) E) in Hss |- *. done.
      * exists r. rewrite lookup_insert_ne by done. by split_and!.
  - intros j r. rewrite lookup_insert_Some. intros [[<- <-]|[_ Hr]]; [|by apply (L5 j)]. exact (L5 (ma_pull a) p Hp).
  - intros r n m Hn Hm. destruct (L6 r n m Hn Hm) as (j & x & Hx & Hr & Hnum). destruct (decide (j = ma_pull a)) as [->|Hne].
    + eexists _, q. rewrite lookup_insert_eq. split; [done|]. assert (x = p) as -> by congruence. done.
    + exists j, x. by rewrite lookup_insert_ne.
  - intros j x Hx. destruct (decide (j = ma_pull a)) as [->|Hne].
    + exists q. rewrite lookup_insert_eq. split; [done|]. assert (x = p) as -> by congruence. split; try done. congruence.
    + exists x. rewrite lookup_insert_ne by done. by split.
  - intros i c Hi. destruct (decide (i = id)) as [->|Hne].
    + exists b. rewrite lookup_insert_eq. split; [done|]. assert (c = a) as -> by congruence. split; [done|]. congruence.
    + exists c. rewrite lookup_insert_ne by done. by split.
Qed.

(** ** Creation *)

Lemma create_spec check now id storage confirmed user username input s p t :
  create_pull_request catalog check now id storage confirmed user username input s = Ok (p, t) ->
  exists r, catalog storage = Some r /\ pl_storage p = storage /\ pl_repository p = Some r /\ pl_status p = PrOpen /\
    pl_merged_at p = None /\ pl_merge_commit p = None /\
    pl_number p = match counters s !! r with Some n => (n + 1)%Z | None => 1%Z end /\ (pl_number p <= i32_max)%Z /\
    insert_row id p (pulls s) = Ok (pulls t) /\ attempts t = attempts s /\ counters t = <[r := pl_number p]> (counters s).
Proof.
  unfold create_pull_request. destruct (_ || _ || _); [done|].
  intros (src & Hsrc & H)%rbind_Ok_inv. apply rbind_Ok_inv in H as (tgt & Htgt & H). destruct (str_eqb _ _); [done|].
  apply rbind_Ok_inv in H as (r & Hr%ok_or_Ok & H). apply rbind_Ok_inv in H as ([n s1] & Hn%or_internal_Ok & H).
  revert Hn. unfold allocate_number. set (m := match counters s !! r with Some _ => _ | None => _ end).
  destruct (Z.leb_spec m i32_max); [|done]. intros [= <- <-]. apply rbind_Ok_inv in H as (rows & Hrows%or_internal_Ok & [= <- <-]).
  exists r. cbn. by split_and!.
Qed.

Lemma ledger_create check now id storage confirmed user username input s p t :
  create_pull_request catalog check now id storage confirmed user username input s = Ok (p, t) -> ledger s ->
  ledger t /\ evolves s t /\ attempts t = attempts s /\ pulls s !! id = None /\ pulls t = <[id := p]> (pulls s).
Proof.
  intros (r & Hcat & Hst & Hr & Hopen & Hm & Hc & Hn & Hmax & Hins & Ha & Hcn)%create_spec [L1 L2 L3 L4 L5 L7 L6].
  pose proof (insert_row_valid _ _ _ _ L1 Hins) as Hv. apply insert_row_Ok in Hins as (Hid & Et & _ & _).
  assert (Hpos : forall n, counters s !! r = Some n -> (1 <= n /\ pl_number p = n + 1)%Z).
  { intros n E. destruct (L7 r n E). by rewrite Hn, E. }
  assert (Hone : (1 <= pl_number p)%Z) by (destruct (counters s !! r) as [n|]; [destruct (Hpos n eq_refl)|]; lia).
  split_and!; [split; rewrite ?Et, ?Ha, ?Hcn|split; rewrite ?Et, ?Ha|done|done|done]; [by rewrite <- Et|done| | | | | | |].
  - intros k q. rewrite lookup_insert_Some. unfold status_wf. rewrite Ha. intros [[<- <-]|[_ Hq]]; [|by apply L3]. by rewrite Hopen, Hst, Hr, Hcat.
  - intros i a Hi. destruct (L4 i a Hi) as (q & Hq & Hwf). exists q. rewrite lookup_insert_ne by congruence. done.
  - intros k q. rewrite lookup_insert_Some. intros [[<- <-]|[_ Hq]].
    + exists r, (pl_number p). rewrite lookup_insert_eq. split_and!; [done|done|lia..].
    + destruct (L5 k q Hq) as (r' & n & Hr' & Hn' & Hb). exists r'. destruct (decide (r' = r)) as [->|Hne].
      * exists (pl_number p). rewrite lookup_insert_eq. destruct (Hpos n Hn'). split_and!; [done|done|lia..].
      * exists n. by rewrite lookup_insert_ne.
  - intros r' n. rewrite lookup_insert_Some. intros [[<- <-]|[_ Hn']]; [lia|by apply L7 in Hn'].
  - intros r' n m. rewrite lookup_insert_Some. intros [[<- <-]|[Hne Hn']] Hb.
    + destruct (decide (m = pl_number p)) as [->|Hmn]; [exists id, p; by rewrite lookup_insert_eq|].
      destruct (counters s !! r) as [n|] eqn:E; [|lia]. destruct (Hpos n eq_refl). destruct (L6 r n m E) as (k & q & Hq & ?); [lia|].
      exists k, q. by rewrite lookup_insert_ne by congruence.
    + destruct (L6 r' n m Hn' Hb) as (k & q & Hq & ?). exists k, q. by rewrite lookup_insert_ne by congruence.
  - intros k q Hq. exists q. rewrite lookup_insert_ne by congruence. by split.
  - intros i a Hi. exists a. by split.
Qed.
End ledger.
