(* ===== verification/PullReach.v ===== *)
(** * Reachable systems of pull request handlers

    The invariant [pull_good] of every interleaving: the rows are well formed,
    guards and row locks exclusive, no attempt is published twice, and what a
    handler knows of the row it has locked and of the attempt it guards is
    still so. *)
From S2P Require Import Prelude Programs Table Outbox Api Pulls PullMerge PullSafety PullSystem PullJournal.

(** ** Transactions *)

(** What a write makes of a row. *)
Definition effect (now : Z) (k : N) (o : option PullRequest) (w : write) : option PullRequest :=
  match w with
  | MarkMerged j oid => if decide (j = k) then set_status now PrMerged (Some now) (Some oid) <$> o else o
  | ChangeStatus j st => if decide (j = k) then (fun p => set_status now st (pl_merged_at p) (pl_merge_commit p) p) <$> o else o
  | _ => o
  end.

Section writes.
Context `{UuidText} (digest : str -> str) (catalog : str -> option N).

Lemma db_Ok {A} (r : result A db_error) a : db r = Ok a -> r = Ok a.
Proof. by destruct r; [intros [= ->]|]. Qed.

Lemma enqueue_ci_rows ro now ev m r st k ref c at_ ow s t : enqueue_ci digest ro now ev m r st k ref c at_ ow s = Ok t ->
  pulls t = pulls s /\ attempts t = attempts s /\ counters t = counters s.
Proof. by intros ([o ops] & _ & [= <-])%rbind_Ok_inv. Qed.

Lemma prepare_Ok id a s t : prepare id a s = Ok t -> exists p, pulls s !! ma_pull a = Some p /\ attempts s !! id = None /\
  check a = true /\ (forall i b, attempts s !! i = Some b -> conflict a b = false) /\ t = set_attempts (<[id := a]> (attempts s)) s.
Proof.
  unfold prepare. destruct (pulls s !! ma_pull a) as [p|]; [|done]. intros (m & (Hid & -> & Hc & Hu)%insert_row_Ok & [= <-])%rbind_Ok_inv.
  exists p. by split_and!.
Qed.

Lemma set_owner_Ok id o s t a : attempts s !! id = Some a -> set_owner id o s = Ok t ->
  put id (set_attempt (ma_state a) o (ma_completed_at a) a) (attempts s) = Ok (attempts t) /\ t = set_attempts (attempts t) s.
Proof. unfold set_owner. intros ->. by intros (m & Hm & [= <-])%rbind_Ok_inv. Qed.

Lemma set_owner_rows id o s t : set_owner id o s = Ok t -> pulls t = pulls s /\ counters t = counters s.
Proof. unfold set_owner. destruct (attempts s !! id); [by intros (m & _ & [= <-])%rbind_Ok_inv|by intros [= <-]]. Qed.

Lemma finish_Ok now id published s t : finish now id published s = Ok t -> exists a, attempts s !! id = Some a /\ ma_state a = Prepared /\
  put id (set_attempt (if published then Confirmed else Rejected) (ma_owner a) (Some now) a) (attempts s) = Ok (attempts t) /\
  t = set_attempts (attempts t) s.
Proof.
  unfold finish. destruct (attempts s !! id) as [a|]; [|done]. case_bool_decide; [|done]. intros (m & Hm & [= <-])%rbind_Ok_inv.
  exists a. by split_and!.
Qed.

Lemma mark_merged_Ok now k oid s t : mark_merged now k oid s = Ok t -> exists p, pulls s !! k = Some p /\ pl_status p = PrOpen /\
  t = set_pulls (<[k := set_status now PrMerged (Some now) (Some oid) p]> (pulls s)) s.
Proof.
  unfold mark_merged. destruct (pulls s !! k) as [p|]; [|done]. case_bool_decide; [|done]. intros [= <-]. by exists p.
Qed.

Lemma change_status_Ok now k st s t : change_status now k st s = Ok t -> exists p, pulls s !! k = Some p /\
  t = set_pulls (<[k := set_status now st (pl_merged_at p) (pl_merge_commit p) p]> (pulls s)) s.
Proof. unfold change_status. destruct (pulls s !! k) as [p|]; [|done]. intros [= <-]. by exists p. Qed.

Lemma apply_effect ro now s w t k : apply_write digest ro now s w = Ok t -> pulls t !! k = effect now k (pulls s !! k) w.
Proof.
  destruct w; cbn [apply_write effect].
  - by intros (p & _ & _ & _ & _ & ->)%db_Ok%prepare_Ok.
  - by intros [-> _]%db_Ok%set_owner_rows.
  - by intros (a & _ & _ & _ & ->)%db_Ok%finish_Ok.
  - intros (p & Hp & _ & ->)%db_Ok%mark_merged_Ok. cbn. case_decide; [subst; by rewrite lookup_insert_eq, Hp|by rewrite lookup_insert_ne].
  - intros (p & Hp & ->)%db_Ok%change_status_Ok. cbn. case_decide; [subst; by rewrite lookup_insert_eq, Hp|by rewrite lookup_insert_ne].
  - by intros [-> _]%enqueue_ci_rows.
Qed.

Lemma apply_effects ro now ws s t k : rfold (apply_write digest ro now) s ws = Ok t -> pulls t !! k = foldl (effect now k) (pulls s !! k) ws.
Proof.
  revert s. induction ws as [|w ws IH]; intros s; cbn [rfold foldl]; [by intros [= ->]|].
  intros (s1 & H1 & H2)%rbind_Ok_inv. rewrite (IH _ H2). by rewrite (apply_effect _ _ _ _ _ k H1).
Qed.

(** ** What a handler knows *)

Record session_ok (s : store) (x : session) : Prop := {
  so_locked : forall k p, se_row x = Some (k, p) -> is_Some (pulls s !! k);
  so_row : forall k p, se_row x = Some (k, Some p) -> pulls s !! k = Some p;
  so_active : forall k p y, se_row x = Some (k, p) -> se_active x = Some y -> active_attempt k s = y;
  so_updated : forall p, se_updated x = Some p -> exists k q, se_row x = Some (k, q) /\ foldl (effect (se_now x) k) (pulls s !! k) (se_writes x) = Some p;
  so_plain : se_updated x = None -> forall k o, foldl (effect (se_now x) k) o (se_writes x) = o }.

Definition phase_ok (published : list N) (id : N) (ph : phase) : Prop :=
  match ph with Unpublished | Refused => id ∉ published | Published => id ∈ published | Unknown => True end.

Record attempt_ok (e : env) (g : ghost) (id : N) (a : Attempt) (ph : phase) : Prop := {
  ao_guard : gh_guard g = Some (ma_repository a);
  ao_row : attempts (en_store e) !! id = Some a;
  ao_state : ma_state a = Prepared;
  ao_phase : phase_ok (en_published e) id ph }.

(** ** Commits *)

(** What the commit of a handler with the knowledge [g] and the lock of [k]
    does to the rows. *)
Record commits (e : env) (g : ghost) (k : N) (t : store) : Prop := {
  cm_ledger : ledger catalog t;
  cm_evolves : evolves (en_store e) t;
  cm_pulls : forall j, j <> k -> pulls t !! j = pulls (en_store e) !! j;
  cm_attempts : forall id a, ma_pull a <> k -> attempts (en_store e) !! id = Some a <-> attempts t !! id = Some a;
  cm_guard : forall id a, attempts (en_store e) !! id = Some a -> attempts t !! id <> Some a -> gh_guard g = Some (ma_repository a);
  cm_kept : forall id a, id ∈ en_published e -> attempts (en_store e) !! id = Some a -> ma_state a <> Rejected ->
    exists a', attempts t !! id = Some a' /\ ma_state a' <> Rejected }.

Lemma commits_same e g k t : pulls t = pulls (en_store e) -> attempts t = attempts (en_store e) -> counters t = counters (en_store e) ->
  ledger catalog (en_store e) -> commits e g k t.
Proof.
  intros Ep Ea Ec HL. split; rewrite ?Ep, ?Ea; try done; [by eapply ledger_frame|by apply evolves_frame|]. intros id a _ Ha Hs. by exists a.
Qed.

Lemma commits_prepare e g id a owner k p now t :
  ledger catalog (en_store e) -> pulls (en_store e) !! k = Some p -> pl_status p = PrOpen -> ma_pull a = k -> ma_state a = Prepared ->
  ma_completed_at a = None -> pl_repository p = Some (ma_repository a) -> branches_of p a ->
  apply_writes digest e now [InsertAttempt id a; SetOwner id owner] = Ok t ->
  commits e g k t /\ attempts (en_store e) !! id = None /\ attempts t = <[id := set_attempt Prepared owner None a]> (attempts (en_store e)).
Proof.
  intros HL Hp Ho <- Hst Hc Hr Hb. unfold apply_writes. cbn [rfold apply_write].
  intros (s1 & (q & Hq & Hid & Hck & Hcf & ->)%db_Ok%prepare_Ok & H2)%rbind_Ok_inv.
  apply rbind_Ok_inv in H2 as (s2 & H2%db_Ok & [= <-]).
  assert (Hi : attempts (set_attempts (<[id:=a]> (attempts (en_store e))) (en_store e)) !! id = Some a) by (cbn; by rewrite lookup_insert_eq).
  apply (set_owner_Ok _ _ _ _ _ Hi) in H2 as [Hput Et]. rewrite Hst, Hc in Hput.
  set (b := set_attempt Prepared owner None a) in *.
  assert (Hv1 : valid_table (<[id:=a]> (attempts (en_store e)))).
  { apply (put_valid id a (attempts (en_store e))); [apply HL|]. apply put_Ok. split; [done|]. split; [done|]. intros i w _ Hi'. by apply (Hcf i). }
  pose proof (put_valid _ _ _ _ Hv1 Hput) as Hv. apply put_Ok in Hput as (Eat & _). cbn in Eat. rewrite insert_insert_eq in Eat.
  rewrite Eat in Hv. destruct (ledger_attempt catalog (en_store e) id b p HL Hv Hp) as [HLt Hev].
  { split; [done|]. split; [exact Hb|]. by split. }
  { intros c Hc'. congruence. }
  assert (E2 : s2 = set_attempts (<[id := b]> (attempts (en_store e))) (en_store e)) by (rewrite Et, Eat; done).
  rewrite E2. split_and!; [|done|done]. split; try done; cbn.
  - intros i c Hne. destruct (decide (i = id)) as [->|Hi']; [|by rewrite lookup_insert_ne]. rewrite Hid, lookup_insert_eq.
    split; [done|]. intros [= <-]. by destruct Hne.
  - intros i c Hci Hn. destruct (decide (i = id)) as [->|Hi']; [congruence|]. by rewrite lookup_insert_ne in Hn.
  - intros i c _ Hci Hs. exists c. rewrite lookup_insert_ne by congruence. done.
Qed.

Lemma commits_reject e g id a now t :
  ledger catalog (en_store e) -> attempt_ok e g id a Refused ->
  apply_writes digest e now [FinishAttempt id false] = Ok t -> commits e g (ma_pull a) t.
Proof.
  intros HL [Hg Ha Hst Hph]. unfold apply_writes. cbn [rfold apply_write].
  intros (s1 & (b & Hb & _ & Hput & Et)%db_Ok%finish_Ok & [= <-])%rbind_Ok_inv. assert (b = a) as -> by congruence.
  set (b := set_attempt Rejected (ma_owner a) (Some now) a) in *.
  pose proof (put_valid _ _ _ _ (l_attempts _ _ HL) Hput) as Hv. apply put_Ok in Hput as (Eat & _). rewrite Eat in Hv, Et.
  destruct (l_wf _ _ HL id a Ha) as (p & Hp & Hr & Hbr & _).
  destruct (ledger_attempt catalog (en_store e) id b p HL Hv Hp) as [HLt Hev].
  { split; [done|]. split; [exact Hbr|]. by eexists. }
  { intros c Hc. assert (c = a) as -> by congruence. split; [done|]. split; [done|congruence]. }
  rewrite Et. split; try done; cbn.
  - intros i c Hne. destruct (decide (i = id)) as [->|Hi]; [|by rewrite lookup_insert_ne]. rewrite Ha, lookup_insert_eq.
    split; intros [= <-]; by destruct Hne.
  - intros i c Hci Hn. destruct (decide (i = id)) as [->|Hi]; [congruence|]. by rewrite lookup_insert_ne in Hn.
  - intros i c Hpub Hci Hs. destruct (decide (i = id)) as [->|Hi]; [done|]. exists c. by rewrite lookup_insert_ne.
Qed.

Lemma commits_status e g k p now st t :
  ledger catalog (en_store e) -> pulls (en_store e) !! k = Some p -> pl_status p <> PrMerged -> st <> PrMerged ->
  (forall id a, attempts (en_store e) !! id = Some a -> ma_pull a = k -> ma_state a <> Prepared) ->
  apply_writes digest e now [ChangeStatus k st] = Ok t -> commits e g k t.
Proof.
  intros HL Hp Hm Hst Hn. unfold apply_writes. cbn [rfold apply_write].
  intros (s1 & (q & Hq & ->)%db_Ok%change_status_Ok & [= <-])%rbind_Ok_inv. assert (q = p) as -> by congruence.
  destruct (ledger_pull catalog (en_store e) k p now st HL Hp Hm Hst Hn) as [HLt Hev].
  split; try done; cbn; [by intros j Hj; rewrite lookup_insert_ne|]. intros id a _ Ha Hs. by exists a.
Qed.

Lemma commits_complete e g id a event message storage owner now t :
  ledger catalog (en_store e) -> attempts (en_store e) !! id = Some a -> ma_state a = Prepared -> gh_guard g = Some (ma_repository a) ->
  apply_writes digest e now [MarkMerged (ma_pull a) (ma_merge_oid a);
    EnqueueCi event message (ma_repository a) storage (ma_pull a) (ma_target_ref a) (ma_merge_oid a) (Some id) owner; FinishAttempt id true] = Ok t ->
  commits e g (ma_pull a) t.
Proof.
  intros HL Ha Hst Hg. unfold apply_writes. cbn [rfold apply_write].
  intros (s1 & (p & Hp & Ho & ->)%db_Ok%mark_merged_Ok & Hr)%rbind_Ok_inv.
  apply rbind_Ok_inv in Hr as (s2 & (Ep & Ea & Ec)%enqueue_ci_rows & Hr). cbn in Ep, Ea, Ec.
  apply rbind_Ok_inv in Hr as (s3 & (b & Hb & _ & Hput & Et)%db_Ok%finish_Ok & [= <-]).
  rewrite Ea in Hb, Hput. assert (b = a) as -> by congruence. apply put_Ok in Hput as (Eat & _).
  destruct (ledger_merge catalog (en_store e) id a p now HL Ha Hst Hp) as [HLt Hev].
  set (b := set_attempt Confirmed (ma_owner a) (Some now) a) in *.
  set (u := set_attempts _ _) in HLt, Hev.
  assert (Eu : pulls s3 = pulls u /\ attempts s3 = attempts u /\ counters s3 = counters u) by (rewrite Et; cbn; by rewrite Ep, Ec, Eat).
  destruct Eu as (E1 & E2 & E3).
  assert (HLs : ledger catalog s3) by (by eapply ledger_frame).
  assert (Hevs : evolves (en_store e) s3) by (etransitivity; [exact Hev|by apply evolves_frame]).
  split; try done; rewrite ?E1, ?E2; cbn.
  - intros j Hj. by rewrite lookup_insert_ne.
  - intros i c Hne. destruct (decide (i = id)) as [->|Hi]; [|by rewrite lookup_insert_ne]. rewrite Ha, lookup_insert_eq.
    split; intros [= <-]; by destruct Hne.
  - intros i c Hci Hn. destruct (decide (i = id)) as [->|Hi]; [congruence|]. by rewrite lookup_insert_ne in Hn.
  - intros i c _ Hci Hs. destruct (decide (i = id)) as [->|Hi]; [exists b; by rewrite lookup_insert_eq|]. exists c. by rewrite lookup_insert_ne.
Qed.

(** Every transaction a handler commits. *)
Lemma commits_tx e g x t :
  ledger catalog (en_store e) -> tx_ok g x -> session_ok (en_store e) x ->
  (forall id a ph, gh_attempt g = Some (id, a, ph) -> attempt_ok e g id a ph) ->
  apply_writes digest e (se_now x) (se_writes x) = Ok t ->
  exists k p, se_row x = Some (k, p) /\ commits e g k t /\
    (forall id a ph, prepared_by (se_writes x) = Some (id, a, ph) -> gh_guard g = Some (ma_repository a) /\ attempts t !! id = Some a /\
       ma_state a = Prepared /\ ph = Unpublished /\ attempts (en_store e) !! id = None).
Proof.
  intros HL Hok [_ Hrow Hact _ _] Hatt Ht. destruct Hok as [id a owner k p Hw Hr Ha Ho Hk Hst Hc Hrep Hg HJ|event message storage id a owner p Hw _ _ _ Hr Hg Hp|id a p Hw Hr Hg Hp
    |k p st y Hw Hr Ha Hn Hft|k p Hw Hr]; rewrite Hw in Ht |- *.
  - exists k, (Some p). split; [done|]. destruct HJ as [(s & d & Hs & Hd & _) _ _].
    destruct (commits_prepare e g id a owner k p (se_now x) t HL (Hrow _ _ Hr) Ho Hk Hst Hc Hrep (ex_intro _ s (ex_intro _ d (conj Hs Hd))) Ht) as (Hcm & Hid & Et).
    split; [done|]. cbn. intros i b ph [= <- <- <-]. rewrite Et, lookup_insert_eq. by split_and!.
  - exists (ma_pull a), p. split; [done|]. split; [|done]. destruct Hp as [Hp|(Hx & Hst & _)].
    + destruct (Hatt _ _ _ Hp) as [_ Hi Hst _]. by eapply commits_complete.
    + pose proof (Hact _ _ _ Hr Hx) as Hi. apply active_attempt_Some in Hi as [Hi _]; [|apply HL]. by eapply commits_complete.
  - exists (ma_pull a), p. split; [done|]. split; [|done]. eapply commits_reject; [done|by apply Hatt|done].
  - exists k, (Some p). split; [done|]. split; [|done]. apply (commits_status e g k p (se_now x) st t HL (Hrow _ _ Hr)); [by destruct Hft as [[-> _]|[-> _]]|by destruct Hft as [[_ ->]|[_ ->]]| |done].
    intros id a Hi Hk Hst. pose proof (Hact _ _ _ Hr Ha) as Hy.
    assert (Hl : active_attempt k (en_store e) = Some (id, a)).
    { apply active_attempt_Some; [apply HL|]. split; [done|]. split; [done|congruence]. }
    apply (Hn id a); [congruence|done].
  - exists k, (Some p). split; [done|]. split; [|done]. unfold apply_writes in Ht. cbn in Ht. injection Ht as <-. by apply commits_same.
Qed.

(** ** Systems *)

(** What an answer said was so. *)
Definition happened (storage : option str) (e : env) (o : op) : answer o -> Prop :=
  match o return answer o -> Prop with
  | ShowRef reference => fun a => forall out, a = Ok out -> out_success out = true -> repo_refs storage e !! reference = Some (trim (out_stdout out))
  | ReadProtected repository branch => fun a => forall b, a = Ok b -> b = protected_branch e repository branch
  | ReadGreen repository branch oid => fun a => forall b, a = Ok b -> b = green e repository branch oid
  | LockPull _ _ => fun a => forall k p, a = Ok (Some (k, p)) -> pulls (en_store e) !! k = Some p
  | ReadOwner id => fun a => forall owner, a = Ok owner -> exists x, attempts (en_store e) !! id = Some x /\ owner = ma_owner x
  | Git (CommitTree _ target source _) => fun a => forall w out, a = Ok (w, out) -> out_success out = true ->
      en_commits e !! trim (out_stdout out) = Some [target; source]
  | _ => fun _ => True
  end.

Record worker_ok (s : system) (w : worker) : Prop := {
  wo_program : Programs.wp may_call (may_answer catalog) after (wk_program w) (told (outcome (wk_action w))) (wk_ghost w);
  wo_trace : forall o a, Ev o a ∈ gh_trace (wk_ghost w) -> exists e, e ∈ seen s /\ happened (gh_storage (wk_ghost w)) e o a;
  wo_session : wk_alive w = true -> forall x, gh_session (wk_ghost w) = Some x -> session_ok (en_store (sy_env s)) x;
  wo_attempt : forall id a ph, gh_attempt (wk_ghost w) = Some (id, a, ph) -> attempt_ok (sy_env s) (wk_ghost w) id a ph;
  wo_committed : forall p, gh_committed (wk_ghost w) = Some p -> exists e k, e ∈ seen s /\ pulls (en_store e) !! k = Some p }.

Record pull_good (s : system) : Prop := {
  pg_ledger : ledger catalog (en_store (sy_env s));
  pg_workers : forall i w, sy_workers s !! i = Some w -> worker_ok s w;
  pg_guards : forall i j v w r, i <> j -> sy_workers s !! i = Some v -> sy_workers s !! j = Some w ->
    gh_guard (wk_ghost v) = Some r -> gh_guard (wk_ghost w) <> Some r;
  pg_locks : forall i j v w k, i <> j -> sy_workers s !! i = Some v -> sy_workers s !! j = Some w -> locked v k -> ~ locked w k;
  pg_published : NoDup (en_published (sy_env s)) /\ forall id, id ∈ en_published (sy_env s) ->
    exists a, attempts (en_store (sy_env s)) !! id = Some a /\ ma_state a <> Rejected;
  pg_past : forall e, e ∈ seen s -> evolves (en_store e) (en_store (sy_env s)) /\ en_commits e ⊆ en_commits (sy_env s) }.

(** *** Frames *)

Lemma seen_next s e ws : seen (next s e ws) = e :: seen s.
Proof. done. Qed.

(** A session of which the locked row and its attempts stay. *)
Lemma session_frame s t x : session_ok s x ->
  (forall k p, se_row x = Some (k, p) -> pulls t !! k = pulls s !! k /\ active_attempt k t = active_attempt k s) -> session_ok t x.
Proof.
  intros [S0 S1 S2 S3 S4] Hf. split; [| | | |done].
  - intros k p Hr. rewrite (proj1 (Hf _ _ Hr)). by eapply S0.
  - intros k p Hr. rewrite (proj1 (Hf _ _ Hr)). by apply S1.
  - intros k p y Hr. rewrite (proj2 (Hf _ _ Hr)). by eapply S2.
  - intros p Hp. destruct (S3 p Hp) as (k & q & Hr & Hq). exists k, q. by rewrite (proj1 (Hf _ _ Hr)).
Qed.

Lemma worker_frame s s' w : worker_ok s w -> seen s ⊆ seen s' ->
  (forall k, locked w k -> pulls (en_store (sy_env s')) !! k = pulls (en_store (sy_env s)) !! k /\
     active_attempt k (en_store (sy_env s')) = active_attempt k (en_store (sy_env s))) ->
  (forall id a ph, gh_attempt (wk_ghost w) = Some (id, a, ph) -> attempts (en_store (sy_env s')) !! id = attempts (en_store (sy_env s)) !! id /\
     (id ∈ en_published (sy_env s') <-> id ∈ en_published (sy_env s))) -> worker_ok s' w.
Proof.
  intros [W1 W2 W3 W4 W5] Hseen Hl Ha. split; [done| | | |].
  - intros o a Hev. destruct (W2 o a Hev) as (e & He & ?). exists e. split; [by apply Hseen|done].
  - intros Hal x Hx. eapply session_frame; [by apply W3|]. intros k p Hr. apply Hl. split; [done|]. by exists x, p.
  - intros id a ph Hat. destruct (W4 id a ph Hat) as [A1 A2 A3 A4], (Ha id a ph Hat) as [E1 E2]. split; [done|by rewrite E1|done|].
    unfold phase_ok in *. destruct ph; rewrite ?E2; done.
  - intros p Hp. destruct (W5 p Hp) as (e & k & He & ?). exists e, k. split; [by apply Hseen|done].
Qed.

(** Nothing of the rows changes. *)
Record same_rows (e e' : env) : Prop := {
  sr_pulls : pulls (en_store e') = pulls (en_store e);
  sr_attempts : attempts (en_store e') = attempts (en_store e);
  sr_counters : counters (en_store e') = counters (en_store e);
  sr_commits : en_commits e ⊆ en_commits e' }.

Lemma same_rows_refl e : same_rows e e.
Proof. by split. Qed.

Lemma active_rows s t k : attempts t = attempts s -> active_attempt k t = active_attempt k s.
Proof. unfold active_attempt. by intros ->. Qed.

Lemma worker_same s e ws w : worker_ok s w -> same_rows (sy_env s) e -> en_published e = en_published (sy_env s) -> worker_ok (next s e ws) w.
Proof.
  intros Hw Hr Hp. eapply worker_frame; [exact Hw|rewrite seen_next; set_solver|intros k _; cbn|intros id a ph _; cbn].
  - rewrite (sr_pulls _ _ Hr). split; [done|]. by apply active_rows, Hr.
  - by rewrite (sr_attempts _ _ Hr), Hp.
Qed.

(** The rest of the invariant, when rows change as a commit does. *)
Lemma past_next s e ws : pull_good s -> evolves (en_store (sy_env s)) (en_store e) -> en_commits (sy_env s) ⊆ en_commits e ->
  forall x, x ∈ seen (next s e ws) -> evolves (en_store x) (en_store e) /\ en_commits x ⊆ en_commits e.
Proof.
  intros Hg Hev Hc x [->|Hx]%elem_of_cons; [by split|]. destruct (pg_past _ Hg x Hx). split; by etransitivity.
Qed.

Lemma evolves_rows e e' : same_rows e e' -> evolves (en_store e) (en_store e').
Proof. intros []. by apply evolves_frame. Qed.

Lemma ledger_rows e e' : same_rows e e' -> ledger catalog (en_store e) -> ledger catalog (en_store e').
Proof. intros []. by apply ledger_frame. Qed.

(** ** Calls *)

Record called (i : N) (s : system) (w : worker) (o : op) (k : answer o -> io (result PullRequest ApiError)) (a : answer o) (e : env) : Prop := {
  cl_good : pull_good s;
  cl_worker : sy_workers s !! i = Some w;
  cl_program : wk_program w = Call o k;
  cl_serves : serves digest catalog (guard_free i s) (row_free i s) (wk_alive w) (wk_ghost w) (sy_env s) o a e }.

Lemma call_worker_ok i s w o k a e : called i s w o k a e -> worker_ok s w.
Proof. intros Hc. eapply pg_workers; [apply Hc|exact (cl_worker _ _ _ _ _ _ _ Hc)]. Qed.

Lemma call_justified i s w o k a e : called i s w o k a e -> may_call o (wk_ghost w).
Proof. intros Hc. pose proof (wo_program _ _ (call_worker_ok _ _ _ _ _ _ _ Hc)) as Hwp. rewrite (cl_program _ _ _ _ _ _ _ Hc) in Hwp. apply Hwp. Qed.

(** The three ways a call changes the environment. *)
Definition quietly (e e' : env) : Prop := same_rows e e' /\ en_published e' = en_published e.
Definition publishing (w : worker) (o : op) (e e' : env) : Prop := exists id x vr vo u n old, o = Git (UpdateRefs vr vo u n old) /\
  gh_attempt (wk_ghost w) = Some (id, x, Unpublished) /\ same_rows e e' /\ en_published e' = id :: en_published e.
Definition committing (w : worker) (o : op) (e e' : env) : Prop := o = Commit /\ wk_alive w = true /\ exists x t,
  gh_session (wk_ghost w) = Some x /\ apply_writes digest e (se_now x) (se_writes x) = Ok t /\ e' = written t e.

Lemma quietly_refl e e' : e' = e -> quietly e e'.
Proof. intros ->. split; [apply same_rows_refl|done]. Qed.

Lemma call_changes i s w o k a e : called i s w o k a e ->
  quietly (sy_env s) e \/ publishing w o (sy_env s) e \/ committing w o (sy_env s) e.
Proof.
  intros Hc. pose proof (call_justified _ _ _ _ _ _ _ Hc) as Hmay. destruct Hc as [_ _ _ Hserve].
  destruct o; cbn [serves] in Hserve; try (left; exact (quietly_refl _ _ Hserve)); try (left; exact (quietly_refl _ _ (proj1 Hserve))).
  - destruct c; cbn [git_serves] in Hserve.
    + left. by apply quietly_refl.
    + left. destruct Hserve as [[E|(oid & Hoid & ->)] _]; [by apply quietly_refl|]. split; [split; try done|done]. cbn.
      destruct Hoid as [Hoid|Hoid]; [by apply insert_subseteq|by rewrite insert_id].
    + destruct Hserve as [[E _]|(st & id & Est & Eid & _ & _ & -> & _)]; [left; by apply quietly_refl|]. right. left.
      destruct Hmay as (id' & x & p & Hx & _). rewrite Hx in Eid. injection Eid as ->. by eexists id, x, _, _, _, _, _.
  - left. destruct Hserve as [[E _]| ->]; [by apply quietly_refl|by split].
  - destruct Hserve as [[E _]|(Hal & x & t & Hx & Ht & ->)]; [left; by apply quietly_refl|]. right. right. split; [done|]. split; [done|].
    by exists x, t.
Qed.

(** A commit is one of a justified transaction. *)
Lemma committing_commits i s w k a e x t : called i s w Commit k a e -> gh_session (wk_ghost w) = Some x -> wk_alive w = true ->
  apply_writes digest (sy_env s) (se_now x) (se_writes x) = Ok t ->
  exists j p, se_row x = Some (j, p) /\ commits (sy_env s) (wk_ghost w) j t /\
    (forall id b ph, prepared_by (se_writes x) = Some (id, b, ph) -> gh_guard (wk_ghost w) = Some (ma_repository b) /\ attempts t !! id = Some b /\
       ma_state b = Prepared /\ ph = Unpublished /\ attempts (en_store (sy_env s)) !! id = None).
Proof.
  intros Hc Hx Hal Ht. destruct (call_justified _ _ _ _ _ _ _ Hc) as (x' & Hx' & Hok). assert (x' = x) as -> by congruence.
  destruct (call_worker_ok _ _ _ _ _ _ _ Hc) as [_ _ W3 W4 _]. eapply commits_tx; [apply Hc|done|by apply W3|done|done].
Qed.

Lemma call_answered i s w o k a e : called i s w o k a e -> may_answer catalog o a.
Proof.
  intros [Hgood _ _ Hserve]. destruct o; cbn [may_answer]; try done; cbn [serves] in Hserve; destruct Hserve as [_ Hs].
  - intros r E. by apply Hs.
  - intros j p E. destruct (Hs _ E) as (_ & Ef & _). symmetry in Ef. apply find_pull_Some in Ef as (Hp & Hst & Hn). split_and!; [done|done|].
    rewrite <- Hst. by apply (l_status _ _ (pg_ledger _ Hgood) j p).
  - intros id b E. destruct (Hs _ E) as (_ & Ef). symmetry in Ef. apply active_attempt_Some in Ef as [_ []]; [done|apply Hgood].
  - destruct w0; try done; intros p E; destruct (Hs p E) as (_ & x & t & _ & Ht & Hrow); cbn in Hrow;
      unfold apply_writes in Ht; rewrite rfold_app in Ht; apply rbind_Ok_inv in Ht as (t1 & _ & Ht); cbn in Ht;
      apply rbind_Ok_inv in Ht as (t2 & Ht%db_Ok & [= ->]).
    + apply mark_merged_Ok in Ht as (q & _ & _ & ->). cbn in Hrow. rewrite lookup_insert_eq in Hrow. by injection Hrow as <-.
    + apply change_status_Ok in Ht as (q & _ & ->). cbn in Hrow. rewrite lookup_insert_eq in Hrow. by injection Hrow as <-.
Qed.
End writes.
