(* ===== verification/PullSteps.v ===== *)
(** * Steps of pull request handlers

    Every step of a system keeps [pull_good]: the calls of a handler, its end,
    its crash or disconnection, the creation of a pull request, and what
    happens elsewhere. *)
From S2P Require Import Prelude Programs Table Outbox Api Pulls PullMerge PullSafety PullSystem PullJournal PullReach.

#[export] Instance Attempt_eq_dec : EqDecision Attempt.
Proof. solve_decision. Defined.

Section steps.
Context `{UuidText} (digest : str -> str) (catalog : str -> option N).
Abbreviation called := (PullReach.called digest catalog).

(** ** What the caller knows *)

Lemma after_trace o a g : gh_trace (after o a g) = Ev o a :: gh_trace g.
Proof.
  unfold after. destruct o; cbn [learn]; try done.
  - by destruct a.
  - by destruct a.
  - by destruct a as [[[]|]|].
  - by destruct a.
  - by destruct a.
  - by destruct c.
  - unfold committed. by destruct a.
Qed.

Lemma after_storage i s w o k a e : called i s w o k a e ->
  gh_storage (after o a (wk_ghost w)) = gh_storage (wk_ghost w) \/ gh_storage (wk_ghost w) = None.
Proof.
  intros Hc. pose proof (call_justified _ _ _ _ _ _ _ _ _ Hc) as Hmay. unfold after.
  destruct o; cbn [learn]; try (by left); [by right|..].
  - left. by destruct a.
  - left. by destruct a as [[[]|]|].
  - left. by destruct a.
  - left. by destruct a.
  - left. by destruct c.
  - left. unfold committed. by destruct a.
Qed.

Lemma after_guard i s w o k a e r : called i s w o k a e ->
  gh_guard (after o a (wk_ghost w)) = Some r -> gh_guard (wk_ghost w) = Some r \/ guard_free i s r.
Proof.
  intros Hc. pose proof (cl_serves _ _ _ _ _ _ _ _ _ Hc) as Hs. unfold after.
  destruct o; cbn [learn]; try (by left).
  - destruct a; by left.
  - destruct a as [[]|]; [|by left]. intros [= <-]. right. by apply Hs.
  - destruct a as [[[]|]|]; by left.
  - destruct a; by left.
  - destruct a; by left.
  - destruct c; by left.
  - unfold committed. destruct a; by left.
Qed.

Lemma happened_storage storage storage' e o (a : answer o) : storage' = storage \/ storage = None -> happened storage e o a -> happened storage' e o a.
Proof.
  intros [->|Hn]; [done|]. destruct o; try done. cbn. rewrite Hn. intros Hh out Ha Ho. specialize (Hh out Ha Ho). cbn [repo_refs] in Hh. by rewrite lookup_empty in Hh.
Qed.

Lemma happened_now i s w o k a e ws : called i s w o k a e ->
  exists x, x ∈ seen (next s e ws) /\ happened (gh_storage (wk_ghost w)) x o a.
Proof.
  intros Hc. pose proof (cl_serves _ _ _ _ _ _ _ _ _ Hc) as Hs.
  destruct o; try (exists e; split; [left|done]); try (exists (sy_env s); split; [right; left|]; cbn [serves happened] in *; destruct Hs as [_ Hs]).
  - intros j p E. destruct (Hs _ E) as (_ & Ef & _). symmetry in Ef. by apply find_pull_Some in Ef as (Hp & _).
  - done.
  - done.
  - done.
  - destruct c; try (exists e; split; [left|done]). exists e. split; [left|]. cbn [serves git_serves happened] in *. intros w0 out E Ho.
    by apply (proj2 Hs w0).
  - intros owner E. by apply (Hs _ E).
Qed.

(** A write that succeeded. *)
Lemma session_write e x w r t : session_ok (en_store e) x -> locks w x ->
  apply_writes digest e (se_now x) (se_writes x ++ [w]) = Ok t -> row_of w t r -> session_ok (en_store e) (add_write w (returned_row w r) x).
Proof.
  intros [S0 S1 S2 S3 S4] Hl Ht Hrow. split; cbn [add_write se_row se_active se_now se_writes]; [done..| |].
  - intros p Hp. pose proof (fun k => apply_effects digest _ _ _ _ _ k Ht) as He.
    assert (Hupd : forall k, (exists q, se_row x = Some (k, q)) -> pulls t !! k = Some p ->
      exists k q, se_row x = Some (k, q) /\ foldl (effect (se_now x) k) (pulls (en_store e) !! k) (se_writes x ++ [w]) = Some p).
    { intros k [q Hq] Hk. exists k, q. split; [done|]. by rewrite <- He. }
    assert (Hold : (forall k o, effect (se_now x) k o w = o) -> se_updated x = Some p ->
      exists k q, se_row x = Some (k, q) /\ foldl (effect (se_now x) k) (pulls (en_store e) !! k) (se_writes x ++ [w]) = Some p).
    { intros Hid Hu. destruct (S3 p Hu) as (k & q & Hq & Hf). exists k, q. split; [done|]. rewrite foldl_app. cbn. by rewrite Hid. }
    destruct w; cbn in Hp, Hrow, Hl; try (by apply Hold); injection Hp as <-; by apply (Hupd _ Hl).
  - intros Hu k o. rewrite foldl_app. cbn [foldl]. cbn in Hu.
    destruct w; cbn in Hu; try done; cbn [effect]; by apply S4.
Qed.

(** The session after a call that leaves the rows. *)
Lemma quiet_session i s w o k a e x : called i s w o k a e -> same_rows (sy_env s) e ->
  alive_after o a (wk_alive w) = true -> gh_session (after o a (wk_ghost w)) = Some x -> session_ok (en_store e) x.
Proof.
  intros Hc Hr Hal Hx. pose proof (call_justified _ _ _ _ _ _ _ _ _ Hc) as Hmay. pose proof (cl_serves _ _ _ _ _ _ _ _ _ Hc) as Hs.
  pose proof (wo_session _ _ _ (call_worker_ok _ _ _ _ _ _ _ _ _ Hc)) as W3.
  assert (Hframe : forall y, session_ok (en_store (sy_env s)) y -> session_ok (en_store e) y).
  { intros y Hy. eapply session_frame; [exact Hy|]. intros j p _. rewrite (sr_pulls _ _ Hr). split; [done|]. by apply active_rows, Hr. }
  assert (Hsame : forall b, wk_alive w = b -> b = true -> gh_session (wk_ghost w) = Some x -> session_ok (en_store e) x).
  { intros b E1 E2 E3. apply Hframe, W3; congruence. }
  unfold after in Hx. destruct o; cbn [learn alive_after] in Hx, Hal; try (by eapply Hsame); cbn [serves] in Hs.
  - destruct a; by eapply Hsame.
  - destruct a; by eapply Hsame.
  - destruct a as [now|]; [|done]. injection Hx as <-. by split.
  - destruct a as [[[j p]|]|]; [|by eapply Hsame..]. destruct Hmay as (_ & y & Hy & Hrow & Hw). cbn in Hx. rewrite Hy in Hx. injection Hx as <-.
    destruct Hs as [_ Hs]. destruct (Hs _ eq_refl) as (_ & Ef & _). symmetry in Ef. apply find_pull_Some in Ef as (Hp & _).
    rewrite <- (sr_pulls _ _ Hr) in Hp. destruct (Hframe y) as [_ _ _ S3 S4]; [by apply W3|]. split; cbn; try done.
    + by intros j' p' [= <- <-].
    + by intros j' p' [= <- <-].
    + intros q Hq. destruct (S3 q Hq) as (? & ? & Hrow' & _). congruence.
  - destruct a as [st|]; [|by eapply Hsame]. destruct Hmay as (y & Hy & Hrow & Hw). cbn in Hx. rewrite Hy in Hx. injection Hx as <-.
    destruct Hs as [_ Hs]. destruct (Hs _ eq_refl) as (_ & _ & p & Hp & _).
    rewrite <- (sr_pulls _ _ Hr) in Hp. destruct (Hframe y) as [_ _ _ S3 S4]; [by apply W3|]. split; cbn; try done.
    + by intros j' p' [= <- <-].
    + intros q Hq. destruct (S3 q Hq) as (? & ? & Hrow' & _). congruence.
  - destruct a as [act|]; [|by eapply Hsame]. destruct Hmay as (y & q & Hy & Hrow & Hw). cbn in Hx. rewrite Hy in Hx. injection Hx as <-.
    destruct Hs as [_ Hs]. destruct (Hs _ eq_refl) as (_ & Ea). destruct (Hframe y) as [S0 S1 S2 S3 S4]; [by apply W3|]. split; cbn; try done.
    intros j p z Hj [= <-]. assert (j = pull) as -> by congruence. rewrite Ea. by apply active_rows, Hr.
  - destruct c; by eapply Hsame.
  - destruct a as [r|]; [|done]. destruct Hmay as (y & Hy & Hl). cbn in Hx. rewrite Hy in Hx. injection Hx as <-.
    destruct Hs as [_ Hs]. destruct (Hs _ eq_refl) as (_ & y' & t & Hy' & Ht & Hrow). assert (y' = y) as -> by congruence.
    pose proof (W3 Hal y Hy) as Hok. apply Hframe. eapply session_write; eauto.
  - unfold committed in Hx. by destruct a.
Qed.

Lemma call_session i s w o k a e x : called i s w o k a e ->
  alive_after o a (wk_alive w) = true -> gh_session (after o a (wk_ghost w)) = Some x -> session_ok (en_store e) x.
Proof.
  intros Hc Hal Hx. destruct (call_changes _ _ _ _ _ _ _ _ _ Hc) as [[Hr _]|[Hp|(Ho & _)]]; [by eapply quiet_session| |].
  - destruct Hp as (id & y & vr & vo & u & n & old & _ & _ & Hr & _). by eapply quiet_session.
  - subst o. exfalso. unfold after in Hx. cbn in Hx. unfold committed in Hx. by destruct a.
Qed.

Lemma attempt_frame e e' g g' id x ph : attempt_ok e g id x ph -> attempts (en_store e') = attempts (en_store e) ->
  en_published e' = en_published e -> gh_guard g' = gh_guard g -> attempt_ok e' g' id x ph.
Proof. intros [A1 A2 A3 A4] E1 E2 E3. split; [by rewrite E3|by rewrite E1|done|by rewrite E2]. Qed.

Lemma no_effect i s w o k a e : called i s w o k a e -> (forall c, o <> Git c) -> o <> Commit -> quietly (sy_env s) e.
Proof.
  intros Hc Hg Ho. destruct (call_changes _ _ _ _ _ _ _ _ _ Hc) as [Hq|[Hp|(E & _)]]; [done| |done].
  destruct Hp as (id & y & vr & vo & u & n & old & E & _). by destruct (Hg (UpdateRefs vr vo u n old)).
Qed.

Lemma phase_of_ran a : phase_of a <> Unpublished.
Proof. destruct a as [[w out]|]; cbn; [|done]. destruct (_ && _ && _); [done|]. by destruct (_ && _ && _). Qed.

(** [update-ref] ran, or did not. *)
Lemma call_update_refs i s w vr vo u n old k a e id x ph : called i s w (Git (UpdateRefs vr vo u n old)) k a e ->
  gh_attempt (after (Git (UpdateRefs vr vo u n old)) a (wk_ghost w)) = Some (id, x, ph) ->
  attempt_ok e (after (Git (UpdateRefs vr vo u n old)) a (wk_ghost w)) id x ph.
Proof.
  intros Hc. destruct (call_justified _ _ _ _ _ _ _ _ _ Hc) as (id' & y & p & Hy & Hg & _).
  cbn. rewrite Hy. cbn. intros [= -> -> <-].
  destruct (wo_attempt _ _ _ (call_worker_ok _ _ _ _ _ _ _ _ _ Hc) _ _ _ Hy) as [A1 A2 A3 A4].
  destruct (cl_serves _ _ _ _ _ _ _ _ _ Hc) as [[-> Hph]|(st & id' & _ & Eid & _ & _ & -> & Hph)].
  - split; try done. revert Hph. by destruct (phase_of a).
  - rewrite Hy in Eid. injection Eid as <-. split; try done. revert Hph. generalize (phase_of_ran a). cbn. destruct (phase_of a); try done. intros _ _. left.
Qed.

Lemma call_attempt i s w o k a e id x ph : called i s w o k a e ->
  gh_attempt (after o a (wk_ghost w)) = Some (id, x, ph) -> attempt_ok e (after o a (wk_ghost w)) id x ph.
Proof.
  intros Hc Hx. pose proof (call_justified _ _ _ _ _ _ _ _ _ Hc) as Hmay.
  pose proof (wo_attempt _ _ _ (call_worker_ok _ _ _ _ _ _ _ _ _ Hc)) as W4.
  assert (Hsame : (forall c, o <> Git c) -> o <> Commit -> gh_attempt (wk_ghost w) = Some (id, x, ph) ->
    gh_guard (after o a (wk_ghost w)) = gh_guard (wk_ghost w) -> attempt_ok e (after o a (wk_ghost w)) id x ph).
  { intros Hn1 Hn2 Ex Eg. destruct (no_effect _ _ _ _ _ _ _ Hc Hn1 Hn2) as [Hr Hp]. eapply attempt_frame; [by apply W4|apply Hr|done|done]. }
  destruct o; try (by apply Hsame).
  - apply Hsame; try done; by destruct a.
  - assert (Hold : gh_attempt (wk_ghost w) = Some (id, x, ph)) by (by destruct a). cbn in Hmay. destruct (W4 _ _ _ Hold) as [A1 _ _ _]. congruence.
  - apply Hsame; try done; by destruct a as [[[]|]|].
  - apply Hsame; try done; by destruct a.
  - apply Hsame; try done; by destruct a.
  - destruct c; [| |by eapply call_update_refs].
    + destruct (call_changes _ _ _ _ _ _ _ _ _ Hc) as [[Hr Hp]|[Hp|(E & _)]]; [|by destruct Hp as (? & ? & ? & ? & ? & ? & ? & E & _)|done].
      eapply attempt_frame; [by apply W4|apply Hr|done|done].
    + destruct (call_changes _ _ _ _ _ _ _ _ _ Hc) as [[Hr Hp]|[Hp|(E & _)]]; [|by destruct Hp as (? & ? & ? & ? & ? & ? & ? & E & _)|done].
      eapply attempt_frame; [by apply W4|apply Hr|done|done].
  - unfold after in *. cbn [learn] in *. unfold committed in *. destruct a as [[]|]; [|done]. cbn in Hx.
    destruct (cl_serves _ _ _ _ _ _ _ _ _ Hc) as [[_ Hno]|(Hal & y & t & Hy & Ht & ->)]; [done|]. rewrite Hy in Hx. cbn in Hx.
    destruct (committing_commits _ _ _ _ _ _ _ _ _ _ Hc Hy Hal Ht) as (j & p & _ & _ & Hprep).
    destruct (Hprep _ _ _ Hx) as (G & A & S & -> & Hnew). split; [done|done|done|]. cbn.
    intros Hin. destruct (proj2 (pg_published _ _ (cl_good _ _ _ _ _ _ _ _ _ Hc)) id Hin) as (b & Hb & _). congruence.
Qed.

Lemma call_committed i s w o k a e p ws : called i s w o k a e -> gh_committed (after o a (wk_ghost w)) = Some p ->
  exists x j, x ∈ seen (next s e ws) /\ pulls (en_store x) !! j = Some p.
Proof.
  intros Hc Hp. pose proof (wo_committed _ _ _ (call_worker_ok _ _ _ _ _ _ _ _ _ Hc)) as W5.
  assert (Hsame : gh_committed (wk_ghost w) = Some p -> exists x j, x ∈ seen (next s e ws) /\ pulls (en_store x) !! j = Some p).
  { intros E. destruct (W5 p E) as (x & j & Hx & ?). exists x, j. split; [by right|done]. }
  unfold after in Hp. destruct o; cbn [learn] in Hp; try (by apply Hsame).
  - apply Hsame. by destruct a.
  - apply Hsame. by destruct a.
  - apply Hsame. by destruct a as [[[]|]|].
  - apply Hsame. by destruct a.
  - apply Hsame. by destruct a.
  - apply Hsame. by destruct c.
  - unfold committed in Hp. destruct a as [[]|]; [|by apply Hsame]. cbn in Hp.
    destruct (cl_serves _ _ _ _ _ _ _ _ _ Hc) as [[_ Hno]|(Hal & y & t & Hy & Ht & ->)]; [done|]. rewrite Hy in Hp. cbn in Hp.
    destruct (wo_session _ _ _ (call_worker_ok _ _ _ _ _ _ _ _ _ Hc) Hal y Hy) as [S0 S1 S2 S3 S4].
    pose proof (fun j => apply_effects digest _ _ _ _ _ j Ht) as He.
    exists (written t (sy_env s)). cbn. unfold final_row in Hp. destruct (se_updated y) as [q|] eqn:Eu.
    + injection Hp as ->. destruct (S3 p eq_refl) as (j & z & _ & Hf). exists j. split; [left|]. by rewrite He.
    + destruct (se_row y) as [[j [q|]]|] eqn:Er; [|done..]. cbn in Hp. injection Hp as ->. exists j. split; [left|].
      rewrite He, S4 by done. by apply (S1 j).
Qed.

Lemma call_locked i s w o k a e j : called i s w o k a e ->
  locked {| wk_action := wk_action w; wk_alive := alive_after o a (wk_alive w); wk_ghost := after o a (wk_ghost w); wk_program := k a |} j ->
  locked w j \/ row_free i s j.
Proof.
  intros Hc (Hal & x & p & Hx & Hr). pose proof (call_justified _ _ _ _ _ _ _ _ _ Hc) as Hmay. pose proof (cl_serves _ _ _ _ _ _ _ _ _ Hc) as Hs.
  cbn [wk_alive wk_ghost] in *. unfold after in Hx. unfold locked.
  destruct o; cbn [learn alive_after] in *; try (by left; split; [|exists x, p]); cbn [serves] in Hs.
  - left. split; [done|]. destruct a; by exists x, p.
  - left. split; [done|]. destruct a; by exists x, p.
  - destruct a as [now|]; [|done]. injection Hx as <-. done.
  - destruct a as [[[i' q]|]|]; [|left; split; [done|by exists x, p]..]. right. destruct Hmay as (_ & y & Hy & _). cbn in Hx. rewrite Hy in Hx.
    injection Hx as <-. injection Hr as <- <-. destruct Hs as [_ Hs]. by apply (proj2 (proj2 (Hs _ eq_refl)) i' q).
  - destruct a as [st|]; [|left; split; [done|by exists x, p]]. right. destruct Hmay as (y & Hy & _). cbn in Hx. rewrite Hy in Hx.
    injection Hx as <-. injection Hr as <- <-. destruct Hs as [_ Hs]. by apply (Hs _ eq_refl).
  - left. split; [done|]. destruct a as [act|]; [|by exists x, p]. destruct Hmay as (y & q & Hy & Hrow & _). cbn in Hx. rewrite Hy in Hx.
    injection Hx as <-. by exists y, p.
  - left. split; [done|]. destruct c; by exists x, p.
  - left. split; [done|]. destruct a as [r|]; [|done]. destruct Hmay as (y & Hy & _). cbn in Hx. rewrite Hy in Hx. injection Hx as <-. by exists y, p.
  - unfold committed in Hx. by destruct a.
Qed.

(** ** The step of a call *)

Definition called_worker (w : worker) (o : op) (k : answer o -> io (result PullRequest ApiError)) (a : answer o) : worker := {|
  wk_action := wk_action w; wk_alive := alive_after o a (wk_alive w); wk_ghost := after o a (wk_ghost w); wk_program := k a |}.

Lemma call_self i s w o k a e ws : called i s w o k a e -> worker_ok catalog (next s e ws) (called_worker w o k a).
Proof.
  intros Hc. pose proof (call_worker_ok _ _ _ _ _ _ _ _ _ Hc) as Hw. split; cbn [called_worker wk_program wk_action wk_ghost wk_alive].
  - pose proof (wo_program _ _ _ Hw) as Hwp. rewrite (cl_program _ _ _ _ _ _ _ _ _ Hc) in Hwp. apply Hwp. by eapply call_answered.
  - intros o' a'. rewrite after_trace. pose proof (after_storage _ _ _ _ _ _ _ Hc) as Hst. intros Hin.
    assert (Hx : exists x, x ∈ seen (next s e ws) /\ happened (gh_storage (wk_ghost w)) x o' a').
    { apply elem_of_cons in Hin as [E|Hin].
      - pose proof (happened_now _ _ _ _ _ _ _ ws Hc) as (x & Hx & Hh). exists x. split; [done|].
        assert (Hev : forall q1 q2 : event, q1 = q2 -> match q1, q2 with Ev o1 a1, Ev o2 a2 =>
          happened (gh_storage (wk_ghost w)) x o2 a2 -> happened (gh_storage (wk_ghost w)) x o1 a1 end) by (intros [? ?] ? <-; auto).
        by apply (Hev _ _ E).
      - destruct (wo_trace _ _ _ Hw _ _ Hin) as (x & Hx & ?). exists x. split; [by right|done]. }
    destruct Hx as (x & Hx & Hh). exists x. split; [done|]. by eapply happened_storage.
  - intros Hal x Hx. by eapply call_session.
  - intros id x ph Hx. by eapply call_attempt.
  - intros p Hp. by eapply call_committed.
Qed.

Lemma attempt_exclusive s i j v w id1 x1 p1 id2 x2 p2 : pull_good catalog s -> i <> j -> sy_workers s !! i = Some v -> sy_workers s !! j = Some w ->
  gh_attempt (wk_ghost v) = Some (id1, x1, p1) -> gh_attempt (wk_ghost w) = Some (id2, x2, p2) -> id1 <> id2.
Proof.
  intros Hg Hij Hi Hj H1 H2 ->. destruct (wo_attempt _ _ _ (pg_workers _ _ Hg i v Hi) _ _ _ H1) as [G1 R1 _ _].
  destruct (wo_attempt _ _ _ (pg_workers _ _ Hg j w Hj) _ _ _ H2) as [G2 R2 _ _]. assert (x1 = x2) as -> by congruence.
  by apply (pg_guards _ _ Hg i j v w (ma_repository x2)).
Qed.

Lemma call_others i s w o k a e ws j v : called i s w o k a e -> i <> j -> sy_workers s !! j = Some v -> worker_ok catalog (next s e ws) v.
Proof.
  intros Hc Hij Hj. pose proof (cl_good _ _ _ _ _ _ _ _ _ Hc) as Hg. pose proof (cl_worker _ _ _ _ _ _ _ _ _ Hc) as Hi.
  pose proof (pg_workers _ _ Hg j v Hj) as Hv.
  destruct (call_changes _ _ _ _ _ _ _ _ _ Hc) as [[Hr Hp]|[Hp|(-> & Hal & x & t & Hx & Ht & ->)]]; [by apply worker_same| |].
  - destruct Hp as (id & y & vr & vo & u & n & old & -> & Hy & Hr & Hp). eapply worker_frame; [exact Hv|rewrite seen_next; set_solver|intros m _; cbn|].
    + rewrite (sr_pulls _ _ Hr). split; [done|]. by apply active_rows, Hr.
    + intros id' x' ph' Hx'. cbn. rewrite (sr_attempts _ _ Hr), Hp. split; [done|].
      pose proof (attempt_exclusive _ _ _ _ _ _ _ _ _ _ _ Hg Hij Hi Hj Hy Hx') as Hne. rewrite elem_of_cons. naive_solver.
  - destruct (committing_commits _ _ _ _ _ _ _ _ _ _ Hc Hx Hal Ht) as (m & p & Hrow & Hcm & _).
    assert (Hlock : locked w m) by (split; [done|by exists x, p]).
    eapply worker_frame; [exact Hv|rewrite seen_next; set_solver|intros m' Hm'; cbn|].
    + assert (Hne : m' <> m) by (intros ->; by apply (pg_locks _ _ Hg i j w v m)). split; [by apply (cm_pulls _ _ _ _ _ Hcm)|].
      apply active_attempt_same; [apply Hg|apply Hcm|]. intros id b [Hb _]. apply (cm_attempts _ _ _ _ _ Hcm). congruence.
    + intros id b ph Hb. cbn. split; [|done]. destruct (wo_attempt _ _ _ Hv _ _ _ Hb) as [G R _ _]. rewrite R.
      destruct (decide (attempts t !! id = Some b)) as [|Hn]; [done|]. pose proof (cm_guard _ _ _ _ _ Hcm id b R Hn) as Gw.
      by destruct (pg_guards _ _ Hg i j w v (ma_repository b) Hij Hi Hj Gw).
Qed.

Lemma call_rows i s w o k a e ws : called i s w o k a e -> let s' := next s e ws in
  ledger catalog (en_store e) /\ (forall x, x ∈ seen s' -> evolves (en_store x) (en_store e) /\ en_commits x ⊆ en_commits e) /\
  NoDup (en_published e) /\ forall id, id ∈ en_published e -> exists x, attempts (en_store e) !! id = Some x /\ ma_state x <> Rejected.
Proof.
  intros Hc. pose proof (cl_good _ _ _ _ _ _ _ _ _ Hc) as Hg. destruct (pg_published _ _ Hg) as [Hnd Hpub].
  destruct (call_changes _ _ _ _ _ _ _ _ _ Hc) as [[Hr Hp]|[Hp|(-> & Hal & x & t & Hx & Ht & ->)]].
  - split; [by eapply ledger_rows; [|apply Hg]|]. split; [apply past_next with (catalog := catalog); [done|by apply evolves_rows|apply Hr]|].
    rewrite Hp. split; [done|]. by rewrite (sr_attempts _ _ Hr).
  - destruct Hp as (id & y & vr & vo & u & n & old & -> & Hy & Hr & Hp). destruct (wo_attempt _ _ _ (call_worker_ok _ _ _ _ _ _ _ _ _ Hc) _ _ _ Hy) as [_ R S Hph].
    split; [by eapply ledger_rows; [|apply Hg]|]. split; [apply past_next with (catalog := catalog); [done|by apply evolves_rows|apply Hr]|].
    rewrite Hp, (sr_attempts _ _ Hr). split; [by apply NoDup_cons|]. intros i' [->|Hin]%elem_of_cons; [|by apply Hpub]. exists y. by rewrite S.
  - destruct (committing_commits _ _ _ _ _ _ _ _ _ _ Hc Hx Hal Ht) as (m & p & Hrow & Hcm & _). cbn.
    split; [apply Hcm|]. split; [apply (past_next catalog s (written t (sy_env s)) ws); [done|apply Hcm|done]|].
    split; [done|]. intros id Hin. destruct (Hpub id Hin) as (b & Hb & Hs). by eapply (cm_kept _ _ _ _ _ Hcm).
Qed.

Lemma call_good i s w o k a e : called i s w o k a e -> pull_good catalog (next s e (<[i := called_worker w o k a]> (sy_workers s))).
Proof.
  intros Hc. pose proof (cl_good _ _ _ _ _ _ _ _ _ Hc) as Hg. pose proof (cl_worker _ _ _ _ _ _ _ _ _ Hc) as Hi.
  destruct (call_rows _ _ _ _ _ _ _ (<[i := called_worker w o k a]> (sy_workers s)) Hc) as (R1 & R2 & R3 & R4). split; cbn [next sy_env sy_workers]; try done.
  - intros j v. rewrite lookup_insert_Some. intros [[<- <-]|[Hne Hj]]; [by eapply call_self|by eapply call_others].
  - intros j1 j2 v1 v2 r Hne. rewrite !lookup_insert_Some. intros [[<- <-]|[H1 Hj1]] [[<- <-]|[H2 Hj2]]; cbn [called_worker wk_ghost]; try done.
    + intros [Ho|Hf]%(after_guard _ _ _ _ _ _ _ _ Hc); [by apply (pg_guards _ _ Hg i j2 w v2)|by apply (Hf j2 v2)].
    + intros Hr [Ho|Hf]%(after_guard _ _ _ _ _ _ _ _ Hc); [by apply (pg_guards _ _ Hg j1 i v1 w r Hne Hj1 Hi Hr)|by apply (Hf j1 v1)].
    + by apply (pg_guards _ _ Hg j1 j2).
  - intros j1 j2 v1 v2 m Hne. rewrite !lookup_insert_Some. intros [[<- <-]|[H1 Hj1]] [[<- <-]|[H2 Hj2]]; try done.
    + intros [Ho|Hf]%(call_locked _ _ _ _ _ _ _ _ Hc); [by apply (pg_locks _ _ Hg i j2 w v2)|by apply (Hf j2 v2)].
    + intros Hr [Ho|Hf]%(call_locked _ _ _ _ _ _ _ _ Hc); [by apply (pg_locks _ _ Hg j1 i v1 w m Hne Hj1 Hi Hr)|by apply (Hf j1 v1)].
    + by apply (pg_locks _ _ Hg j1 j2).
Qed.

(** ** The other steps *)

(** Workers that are gone, or know no more than before. *)
Lemma good_workers s ws : pull_good catalog s ->
  (forall i w, ws !! i = Some w -> worker_ok catalog (next s (sy_env s) ws) w /\
     ((exists v, sy_workers s !! i = Some v /\ gh_guard (wk_ghost w) = gh_guard (wk_ghost v) /\ (forall k, locked w k -> locked v k)) \/
      gh_guard (wk_ghost w) = None /\ forall k, ~ locked w k)) -> pull_good catalog (next s (sy_env s) ws).
Proof.
  intros Hg Hws. split; cbn [next sy_env sy_workers]; [apply Hg|intros i w Hw; exact (proj1 (Hws i w Hw))| | |apply Hg|by apply (past_next catalog)].
  - intros i j v w r Hne Hv Hw Hr Hr'. destruct (proj2 (Hws i v Hv)) as [(v' & Hv' & E & _)|[E _]]; [|congruence].
    destruct (proj2 (Hws j w Hw)) as [(w' & Hw' & E' & _)|[E' _]]; [|congruence].
    apply (pg_guards _ _ Hg i j v' w' r Hne Hv' Hw'); congruence.
  - intros i j v w k Hne Hv Hw Hl Hl'. destruct (proj2 (Hws i v Hv)) as [(v' & Hv' & _ & E)|[_ E]]; [|by apply (E k)].
    destruct (proj2 (Hws j w Hw)) as [(w' & Hw' & _ & E')|[_ E']]; [|by apply (E' k)]. apply (pg_locks _ _ Hg i j v' w' k Hne Hv' Hw'); auto.
Qed.

Lemma worker_past s w ws : worker_ok catalog s w -> worker_ok catalog (next s (sy_env s) ws) w.
Proof. intros Hw. by apply worker_same. Qed.

(** Without a connection, and with a program that does no more. *)
Lemma worker_dead s w p : worker_ok catalog s w ->
  Programs.wp may_call (may_answer catalog) after p (told (outcome (wk_action w))) (wk_ghost w) ->
  worker_ok catalog s {| wk_action := wk_action w; wk_alive := false; wk_ghost := wk_ghost w; wk_program := p |}.
Proof. intros [W1 W2 W3 W4 W5] Hp. by split. Qed.

(** A change elsewhere, or a creation. *)
Lemma env_good s e : pull_good catalog s -> ledger catalog (en_store e) -> evolves (en_store (sy_env s)) (en_store e) ->
  en_commits (sy_env s) ⊆ en_commits e -> attempts (en_store e) = attempts (en_store (sy_env s)) -> en_published e = en_published (sy_env s) ->
  (forall k, is_Some (pulls (en_store (sy_env s)) !! k) -> pulls (en_store e) !! k = pulls (en_store (sy_env s)) !! k) ->
  pull_good catalog (next s e (sy_workers s)).
Proof.
  intros Hg HL Hev Hc Ha Hp Hk. split; cbn [next sy_env sy_workers]; [done| |apply Hg|apply Hg| |by apply (past_next catalog)].
  - intros i w Hi. pose proof (pg_workers _ _ Hg i w Hi) as Hw. eapply worker_frame; [exact Hw|rewrite seen_next; set_solver| |].
    + intros k (Hal & x & p & Hx & Hr). cbn. split; [|by apply active_rows]. apply Hk. by apply (so_locked _ _ (wo_session _ _ _ Hw Hal x Hx) k p).
    + intros id a ph _. cbn. by rewrite Ha, Hp.
  - rewrite Hp, Ha. apply Hg.
Qed.

Lemma pull_good_step s s' : pull_good catalog s -> step digest catalog s s' -> pull_good catalog s'.
Proof.
  intros Hg Hs. destruct Hs as [i au role repo n action s Hi|i w o k a e s Hi Hp Hserve|i s|i w c k s Hi Hp|i w s Hi|id ck st cf u un input p t s Hcr|e s He].
  - apply good_workers; [done|]. intros j v. rewrite lookup_insert_Some. intros [[<- <-]|[_ Hj]].
    + split; [|right; split; [done|by intros k [? _]]]. split; cbn; try done; [apply wp_pr_action|by intros o a ?%elem_of_nil].
    + split; [apply worker_past; by apply (pg_workers _ _ Hg j)|left; by exists v].
  - apply call_good. by split.
  - apply good_workers; [done|]. intros j v [_ Hj]%lookup_delete_Some. split; [apply worker_past; by apply (pg_workers _ _ Hg j)|left; by exists v].
  - apply good_workers; [done|]. intros j v. rewrite lookup_insert_Some. pose proof (pg_workers _ _ Hg i w Hi) as Hw. intros [[<- <-]|[_ Hj]].
    + split; [|left; exists w; split_and!; [done|done|by intros k' [? _]]]. apply worker_dead; [by apply worker_past|].
      pose proof (wo_program _ _ _ Hw) as Hwp. rewrite Hp in Hwp. split; [apply Hwp|]. by intros.
    + split; [apply worker_past; by apply (pg_workers _ _ Hg j)|left; by exists v].
  - apply good_workers; [done|]. intros j v. rewrite lookup_insert_Some. pose proof (pg_workers _ _ Hg i w Hi) as Hw. intros [[<- <-]|[_ Hj]].
    + split; [|left; exists w; split_and!; [done|done|by intros k' [? _]]]. apply worker_dead; [by apply worker_past|]. apply Hw.
    + split; [apply worker_past; by apply (pg_workers _ _ Hg j)|left; by exists v].
  - destruct (ledger_create _ _ _ _ _ _ _ _ _ _ _ _ Hcr (pg_ledger _ _ Hg)) as (HL & Hev & Ha & Hid & Hpu).
    apply env_good; try done. intros k [q Hq]. cbn. rewrite Hpu, lookup_insert_ne by congruence. done.
  - destruct He as [E1 E2 E3 E4 E5 E6 E7]. apply env_good; try done; [by eapply ledger_frame; [..|apply Hg]|by apply evolves_frame|]. intros k _. by rewrite E4.
Qed.

Lemma pull_good_installed s : installed s -> pull_good catalog s.
Proof.
  intros (E1 & E2 & E3 & E4 & E5 & E6). split.
  - split; rewrite ?E1, ?E2, ?E3; try apply valid_table_empty; intros *; by rewrite lookup_empty.
  - intros i w. by rewrite E5.
  - intros i j v w r _. by rewrite E5.
  - intros i j v w r _. by rewrite E5.
  - rewrite E4. split; [constructor|]. by intros id ?%elem_of_nil.
  - unfold seen. rewrite E6. intros e ->%list_elem_of_singleton. by split.
Qed.

Lemma pull_good_steps s s' : rtc (step digest catalog) s s' -> pull_good catalog s -> pull_good catalog s'.
Proof. induction 1 as [|s1 s2 s3 H12 _ IH]; [done|]. intros Hg. apply IH. by eapply pull_good_step. Qed.

Lemma pull_good_reachable s0 s : installed s0 -> rtc (step digest catalog) s0 s -> pull_good catalog s.
Proof. intros H0 Hs. eapply pull_good_steps; [exact Hs|]. by apply pull_good_installed. Qed.
End steps.
