(* ===== verification/PullTheorems.v ===== *)
(** * What merging pull requests guarantees

    For every interleaving of handlers, crashes, lost connections and foreign
    changes that starts without pull requests. *)
From S2P Require Import Prelude Programs Table Outbox Api Pulls PullMerge PullSafety PullSystem PullJournal PullReach PullSteps.

Section theorems.
Context `{UuidText} (digest : str -> str) (catalog : str -> option N).
Abbreviation steps := (rtc (step digest catalog)).
Abbreviation called := (PullReach.called digest catalog).

(** ** Lemmas *)

(** A step is a call, or touches no attempt and publishes nothing. *)
Lemma step_shape s s' : pull_good catalog s -> step digest catalog s s' ->
  attempts (en_store (sy_env s')) = attempts (en_store (sy_env s)) /\ en_published (sy_env s') = en_published (sy_env s) \/
  exists i w o k a e, called i s w o k a e /\ s' = next s e (<[i := called_worker w o k a]> (sy_workers s)).
Proof.
  intros Hg Hs. destruct Hs as [i au role repo n action s Hi|i w o k a e s Hi Hp Hserve|i s|i w c k s Hi Hp|i w s Hi|id ck st cf u un input p t s Hcr|e s He];
    try (by left).
  - right. exists i, w, o, k, a, e. split; [by split|done].
  - left. destruct (ledger_create _ _ _ _ _ _ _ _ _ _ _ _ Hcr (pg_ledger _ _ Hg)) as (_ & _ & Ha & _). done.
  - left. by destruct He.
Qed.

(** An attempt is only confirmed by the completion of a merge. *)
Lemma confirming i s w k a e x t id b : called i s w Commit k a e -> gh_session (wk_ghost w) = Some x -> wk_alive w = true ->
  apply_writes digest (sy_env s) (se_now x) (se_writes x) = Ok t -> attempts t !! id = Some b -> ma_state b = Confirmed ->
  attempts (en_store (sy_env s)) !! id = Some b \/
  exists c, attempts (en_store (sy_env s)) !! id = Some c /\
    (id ∈ en_published (sy_env s) \/ exists storage, gh_storage (wk_ghost w) = Some storage /\
       locked_in (gh_trace (wk_ghost w)) (ma_pull c) storage /\ saw_head (gh_trace (wk_ghost w)) (ma_target_ref c) (ma_merge_oid c)).
Proof.
  intros Hc Hx Hal Ht Hb Hst. destruct (call_justified _ _ _ _ _ _ _ _ _ Hc) as (x' & Hx' & Hok). assert (x' = x) as -> by congruence. clear Hx'.
  pose proof (call_worker_ok _ _ _ _ _ _ _ _ _ Hc) as Hw. pose proof (wo_session _ _ _ Hw Hal x Hx) as Hso.
  pose proof (pg_ledger _ _ (cl_good _ _ _ _ _ _ _ _ _ Hc)) as HL.
  destruct Hok as [id' a' owner j p Hws Hr Ha Ho Hk Hsa Hcm Hrep Hg [(sn & d & Hsn & Hd & _) _ _]|ev msg storage id' a' owner p Hws Hsto _ Hlk Hr Hg Hp
    |id' a' p Hws Hr Hg Hp|j p st y Hws Hr Ha Hn Hft|j p Hws Hr]; rewrite Hws in Ht.
  - destruct (commits_prepare digest catalog (sy_env s) (wk_ghost w) id' a' owner j p (se_now x) t HL (so_row _ _ Hso _ _ Hr) Ho Hk Hsa Hcm Hrep
      (ex_intro _ sn (ex_intro _ d (conj Hsn Hd))) Ht) as (_ & _ & Et).
    rewrite Et, lookup_insert_Some in Hb. destruct Hb as [[<- <-]|[_ Hb]]; [done|by left].
  - unfold apply_writes in Ht. cbn [rfold apply_write] in Ht. apply rbind_Ok_inv in Ht as (s1 & (q & _ & _ & ->)%db_Ok%mark_merged_Ok & Ht).
    apply rbind_Ok_inv in Ht as (s2 & (_ & Ea & _)%enqueue_ci_rows & Ht). apply rbind_Ok_inv in Ht as (s3 & (c & Hci & Hcs & Hput & _)%db_Ok%finish_Ok & [= <-]).
    cbn in Ea. rewrite Ea in Hci, Hput. apply put_Ok in Hput as (Et & _). rewrite Et, lookup_insert_Some in Hb.
    destruct Hb as [[<- <-]|[_ Hb]]; [|by left]. right. exists c. split; [done|]. destruct Hp as [Hp|(Hact & _ & Hsaw)].
    + left. by apply (wo_attempt _ _ _ Hw _ _ _ Hp).
    + right. pose proof (so_active _ _ Hso _ _ _ Hr Hact) as Hact'. apply active_attempt_Some in Hact' as [Hact' _]; [|apply HL].
      assert (c = a') as -> by congruence. by exists storage.
  - unfold apply_writes in Ht. cbn [rfold apply_write] in Ht. apply rbind_Ok_inv in Ht as (s1 & (c & _ & _ & Hput & _)%db_Ok%finish_Ok & [= <-]).
    apply put_Ok in Hput as (Et & _). rewrite Et, lookup_insert_Some in Hb. destruct Hb as [[<- <-]|[_ Hb]]; [done|by left].
  - unfold apply_writes in Ht. cbn [rfold apply_write] in Ht. apply rbind_Ok_inv in Ht as (s1 & (q & _ & ->)%db_Ok%change_status_Ok & [= <-]). by left.
  - unfold apply_writes in Ht. cbn in Ht. injection Ht as <-. by left.
Qed.

(** The target branch was at the merge. *)
Definition merge_seen (s : system) (p : PullRequest) (a : Attempt) : Prop :=
  exists e, e ∈ seen s /\ repo_refs (Some (pl_storage p)) e !! ma_target_ref a = Some (ma_merge_oid a).

Definition merges_seen (s : system) : Prop := forall id a p, attempts (en_store (sy_env s)) !! id = Some a ->
  pulls (en_store (sy_env s)) !! ma_pull a = Some p -> id ∈ en_published (sy_env s) \/ ma_state a = Confirmed -> merge_seen s p a.

(** What is seen stays so for the later row of the pull request. *)
Lemma merge_seen_later s s' p p' a a' : seen s ⊆ seen s' -> pl_storage p' = pl_storage p -> same_attempt a a' -> merge_seen s p a -> merge_seen s' p' a'.
Proof.
  intros Hseen Hp (_ & _ & _ & _ & Ht & _ & Hm & _) (e & He & Hr). exists e. split; [by apply Hseen|]. by rewrite Hp, Ht, Hm.
Qed.

(** The row a handler has locked, later. *)
Lemma locked_row s k p storage number q t w : pull_good catalog s -> worker_ok catalog s w -> gh_trace (wk_ghost w) = t ->
  Ev (LockPull storage number) (Ok (Some (k, p))) ∈ t -> pulls (en_store (sy_env s)) !! k = Some q -> pull_evolves p q.
Proof.
  intros Hg Hw <- Hev Hq. destruct (wo_trace _ _ _ Hw _ _ Hev) as (e & He & Hh). cbn in Hh. specialize (Hh k p eq_refl).
  destruct (ev_pulls _ _ (proj1 (pg_past _ _ Hg e He)) k p Hh) as (q' & Hq' & E). congruence.
Qed.

Lemma locked_storage s k p storage w : pull_good catalog s -> worker_ok catalog s w -> locked_in (gh_trace (wk_ghost w)) k storage ->
  pulls (en_store (sy_env s)) !! k = Some p -> storage = pl_storage p.
Proof. intros Hg Hw (st & n & q & Hev & <-) Hp. symmetry. eapply pe_storage. by eapply locked_row. Qed.

Lemma merges_seen_step s s' : pull_good catalog s -> step digest catalog s s' -> merges_seen s -> merges_seen s'.
Proof.
  intros Hg Hs HM id a' p' Ha' Hp' Hpub. pose proof (pull_good_step _ _ _ _ Hg Hs) as Hg'.
  assert (Hseen : seen s ⊆ seen s') by (destruct Hs; rewrite seen_next; set_solver).
  assert (Hev : evolves (en_store (sy_env s)) (en_store (sy_env s'))) by (apply (pg_past _ _ Hg'); apply Hseen; left).
  assert (Hold : forall a, attempts (en_store (sy_env s)) !! id = Some a -> id ∈ en_published (sy_env s) \/ ma_state a = Confirmed -> merge_seen s' p' a').
  { intros a Ha Hor. destruct (l_wf _ _ (pg_ledger _ _ Hg) id a Ha) as (p & Hp & _).
    destruct (ev_attempts _ _ Hev id a Ha) as (a2 & Ha2 & [Hsame _]). assert (a2 = a') as -> by congruence.
    destruct (ev_pulls _ _ Hev _ p Hp) as (p2 & Hp2 & He). assert (p2 = p') as -> by (destruct Hsame as [Ek _]; congruence).
    eapply merge_seen_later; [done|apply (pe_storage _ _ He)|done|]. by eapply HM. }
  destruct (step_shape _ _ Hg Hs) as [[Ea Ep]|(i & w & o & k & a & e & Hc & ->)].
  { rewrite Ea in Ha'. rewrite Ep in Hpub. by eapply Hold. }
  cbn in Ha', Hp', Hpub, Hev. destruct (call_changes _ _ _ _ _ _ _ _ _ Hc) as [[Hr Ep]|[Hpb|(-> & Hal & x & t & Hx & Ht & ->)]].
  - rewrite (sr_attempts _ _ Hr) in Ha'. rewrite Ep in Hpub. by eapply Hold.
  - destruct Hpb as (id0 & y & vr & vo & u & n & old & -> & Hy & Hr & Ep). rewrite (sr_attempts _ _ Hr) in Ha'. rewrite (sr_pulls _ _ Hr) in Hp'.
    rewrite Ep, elem_of_cons in Hpub. destruct Hpub as [[->|Hin]|Hst]; [|eapply Hold; eauto..].
    pose proof (call_worker_ok _ _ _ _ _ _ _ _ _ Hc) as Hw. destruct (wo_attempt _ _ _ Hw _ _ _ Hy) as [_ Hrow _ Hph]. assert (a' = y) as -> by congruence.
    destruct (call_justified _ _ _ _ _ _ _ _ _ Hc) as (id1 & y1 & p1 & Hy1 & _ & _ & _ & -> & -> & _ & Hsto & (st & num & Hevt) & _).
    rewrite Hy in Hy1. injection Hy1 as <- <-. pose proof (locked_row _ _ _ _ _ _ _ _ Hg Hw eq_refl Hevt Hp') as He.
    destruct (cl_serves _ _ _ _ _ _ _ _ _ Hc) as [[-> _]|(st' & id' & Est & _ & _ & _ & -> & _)].
    { exfalso. revert Ep. clear. intros E. apply (f_equal length) in E. cbn in E. lia. }
    eexists. split; [left|]. cbn. rewrite (pe_storage _ _ He). assert (st' = pl_storage p1) as -> by congruence.
    rewrite lookup_insert_eq. cbn. by rewrite lookup_insert_eq.
  - cbn in Ha', Hp', Hpub, Hev. destruct Hpub as [Hin|Hst].
    { destruct (proj2 (pg_published _ _ Hg) id Hin) as (b & Hb & _). eapply Hold; eauto. }
    destruct (confirming _ _ _ _ _ _ _ _ _ _ Hc Hx Hal Ht Ha' Hst) as [Hsame|(c & Hcrow & [Hin|Hsaw])]; [by eapply Hold; eauto|by eapply Hold; eauto|].
    destruct Hsaw as (storage & Hsto & Hlk & out & Hevt & Hout & Htrim).
    pose proof (call_worker_ok _ _ _ _ _ _ _ _ _ Hc) as Hw.
    destruct (wo_trace _ _ _ Hw _ _ Hevt) as (e & He & Hh). cbn in Hh. specialize (Hh out eq_refl Hout). rewrite Hsto, Htrim in Hh.
    destruct (ev_attempts _ _ Hev id c Hcrow) as (c' & Hc' & [Hsame _]). assert (c' = a') as -> by congruence.
    destruct (l_wf _ _ (pg_ledger _ _ Hg) id c Hcrow) as (p & Hp & _). pose proof (locked_storage _ _ _ _ _ Hg Hw Hlk Hp) as Hq.
    destruct (ev_pulls _ _ Hev _ p Hp) as (q' & Hq' & Heq). assert (q' = p') as -> by (destruct Hsame as [Ek _]; congruence).
    exists e. split; [by right|]. destruct Hsame as (_ & _ & _ & _ & -> & _ & -> & _). rewrite (pe_storage _ _ Heq), <- Hq. done.
Qed.

Lemma merges_seen_reachable s0 s : installed s0 -> steps s0 s -> merges_seen s.
Proof.
  intros H0 Hs. assert (HM : merges_seen s0).
  { intros id a p Ha. destruct H0 as (_ & E & _). by rewrite E in Ha. }
  pose proof (pull_good_installed catalog s0 H0) as Hg. clear H0. induction Hs as [|s1 s2 s3 H12 _ IH]; [done|].
  apply IH; [by eapply merges_seen_step|by eapply pull_good_step].
Qed.

(** A commit that merges a pull request completes its attempt. *)
Lemma merging i s w k a e x t j p q : called i s w Commit k a e -> gh_session (wk_ghost w) = Some x -> wk_alive w = true ->
  apply_writes digest (sy_env s) (se_now x) (se_writes x) = Ok t ->
  pulls (en_store (sy_env s)) !! j = Some p -> pl_status p <> PrMerged -> pulls t !! j = Some q -> pl_status q = PrMerged ->
  exists id c event message storage owner, ma_pull c = j /\
    se_writes x = [MarkMerged (ma_pull c) (ma_merge_oid c);
                   EnqueueCi event message (ma_repository c) storage (ma_pull c) (ma_target_ref c) (ma_merge_oid c) (Some id) owner;
                   FinishAttempt id true] /\
    locked_in (gh_trace (wk_ghost w)) j storage /\ Ev (ReadOwner id) (Ok owner) ∈ gh_trace (wk_ghost w) /\
    attempts (en_store (sy_env s)) !! id = Some c.
Proof.
  intros Hc Hx Hal Ht Hp Hnm Hq Hm. destruct (call_justified _ _ _ _ _ _ _ _ _ Hc) as (x' & Hx' & Hok). assert (x' = x) as -> by congruence. clear Hx'.
  pose proof (call_worker_ok _ _ _ _ _ _ _ _ _ Hc) as Hw. pose proof (wo_session _ _ _ Hw Hal x Hx) as Hso.
  pose proof (pg_ledger _ _ (cl_good _ _ _ _ _ _ _ _ _ Hc)) as HL.
  pose proof (apply_effects digest _ _ _ _ _ j Ht) as He. rewrite Hp, Hq in He.
  destruct Hok as [id' a' owner j' p' Hws Hr Ha Ho Hk Hsa Hcm Hrep Hg HJ|ev msg storage id' a' owner p' Hws Hsto Hown Hlk Hr Hg Hcase
    |id' a' p' Hws Hr Hg Hp'|j' p' st y Hws Hr Ha Hn Hft|j' p' Hws Hr]; rewrite Hws in He; cbn [foldl effect] in He.
  - congruence.
  - assert (Hrow : attempts (en_store (sy_env s)) !! id' = Some a').
    { destruct Hcase as [Hp'|(Hact & _)]; [by apply (wo_attempt _ _ _ Hw _ _ _ Hp')|].
      pose proof (so_active _ _ Hso _ _ _ Hr Hact) as Hact'. apply active_attempt_Some in Hact' as [Hact' _]; [done|apply HL]. }
    destruct (decide (ma_pull a' = j)) as [E|E]; [|congruence]. rewrite E in Hlk. by exists id', a', ev, msg, storage, owner.
  - congruence.
  - destruct (decide (j' = j)) as [E|E]; [|congruence]. cbn in He. injection He as ->. cbn in Hm. destruct Hft as [[_ ->]|[_ ->]]; done.
  - congruence.
Qed.

(** ** The guarantees *)

(** C36. In every reachable state a pull request is merged
    exactly when it has a confirmed merge attempt, whose commit it names; an
    attempt belongs to the repository and the branches of its pull request; a
    prepared attempt keeps its pull request open, so that closing cannot hide
    an unconfirmed publication; and a pull request has at most one attempt
    that was not rejected. *)
Theorem pull_rows s0 s : installed s0 -> steps s0 s ->
  let st := en_store (sy_env s) in
  (forall k p, pulls st !! k = Some p -> status_wf st k p) /\
  (forall id a, attempts st !! id = Some a -> exists p, pulls st !! ma_pull a = Some p /\ attempt_wf p a) /\
  (forall i j a b, attempts st !! i = Some a -> attempts st !! j = Some b -> ma_pull a = ma_pull b ->
     ma_state a <> Rejected -> ma_state b <> Rejected -> i = j).
Proof.
  intros H0 Hs. destruct (pg_ledger _ _ (pull_good_reachable _ _ _ _ H0 Hs)) as [L1 L2 L3 L4 _ _ _]. split_and!; [by apply L3|done|].
  intros i j a b Ha Hb E Hna Hnb. by eapply (live_unique _ i j a b (ma_pull a)).
Qed.

(** The pull requests of a repository are numbered
    1 to the value of its counter, without gaps and without repetition, and the
    numbers stay in the range of the column. *)
Theorem pull_numbers s0 s r : installed s0 -> steps s0 s ->
  let st := en_store (sy_env s) in let n := default 0%Z (counters st !! r) in
  (0 <= n <= i32_max)%Z /\
  (forall m, (1 <= m <= n)%Z <-> exists k p, pulls st !! k = Some p /\ pl_repository p = Some r /\ pl_number p = m) /\
  (forall k k' p p', pulls st !! k = Some p -> pulls st !! k' = Some p' -> pl_repository p = Some r -> pl_repository p' = Some r ->
     pl_number p = pl_number p' -> k = k').
Proof.
  intros H0 Hs st n. destruct (pg_ledger _ _ (pull_good_reachable _ _ _ _ H0 Hs)) as [L1 L2 L3 L4 L5 L7 L6]. fold st in L1, L5, L6, L7.
  assert (Hn : forall m, counters st !! r = Some m -> n = m) by (intros m E; unfold n; by rewrite E). split_and!.
  1,2: unfold n; destruct (counters st !! r) as [m|] eqn:E; cbn; [pose proof (L7 r m E); lia|unfold i32_max; lia].
  - intros m. split.
    + intros Hm. unfold n in Hm. destruct (counters st !! r) as [c|] eqn:E; cbn in Hm; [by apply (L6 r c m E)|lia].
    + intros (k & p & Hp & Hr & <-). destruct (L5 k p Hp) as (r' & c & Hr' & Hc & Hb). rewrite Hr in Hr'. injection Hr' as <-. by rewrite (Hn c Hc).
  - intros k k' p p' Hp Hp' Hr Hr' E. destruct (decide (k = k')) as [|Hne]; [done|]. pose proof (vt_unique _ L1 k k' p p' Hne Hp Hp') as Hc. cbn in Hc.
    rewrite Hr, Hr', E, Z.eqb_refl, bool_decide_eq_true_2, orb_true_r in Hc by done. done.
Qed.

(** Nothing rewrites what was recorded: a pull request
    keeps its repository, number, branches and author, and once merged its
    whole row; an attempt keeps its branches and commits, and once confirmed or
    rejected its whole row. *)
Theorem pull_history s0 s s' : installed s0 -> steps s0 s -> steps s s' ->
  let st := en_store (sy_env s) in let st' := en_store (sy_env s') in
  (forall k p, pulls st !! k = Some p -> exists p', pulls st' !! k = Some p' /\ pull_evolves p p') /\
  (forall id a, attempts st !! id = Some a -> exists a', attempts st' !! id = Some a' /\ attempt_evolves a a').
Proof.
  intros H0 Hs Hs'. pose proof (pull_good_reachable _ _ _ _ H0 Hs) as Hg.
  assert (Hev : evolves (en_store (sy_env s)) (en_store (sy_env s'))).
  { clear H0 Hs. induction Hs' as [|s1 s2 s3 H12 _ IH]; [reflexivity|]. pose proof (pull_good_step _ _ _ _ Hg H12) as Hg2.
    etransitivity; [|by apply IH]. apply (pg_past _ _ Hg2). destruct H12; right; left. }
  split; apply Hev.
Qed.


(** A pull request is published at most once, whatever
    fails and however often it is tried: no attempt is published twice, nor two
    attempts of the same pull request; a published attempt is never rejected;
    and a pull request is only recorded as merged when its target branch was
    at the merge commit. *)
Theorem published_once s0 s : installed s0 -> steps s0 s ->
  let st := en_store (sy_env s) in
  NoDup (en_published (sy_env s)) /\
  (forall id, id ∈ en_published (sy_env s) -> exists a, attempts st !! id = Some a /\ ma_state a <> Rejected) /\
  (forall i j a b, i ∈ en_published (sy_env s) -> j ∈ en_published (sy_env s) -> attempts st !! i = Some a -> attempts st !! j = Some b ->
     ma_pull a = ma_pull b -> i = j) /\
  (forall k p, pulls st !! k = Some p -> pl_status p = PrMerged -> exists id a, attempts st !! id = Some a /\ ma_pull a = k /\
     pl_merge_commit p = Some (ma_merge_oid a) /\ merge_seen s p a).
Proof.
  intros H0 Hs. cbn zeta. pose proof (pull_good_reachable _ _ _ _ H0 Hs) as Hg. destruct (pg_published _ _ Hg) as [Hnd Hpub].
  split_and!; [done|done| |].
  - intros i j a b Hi Hj Ha Hb E. destruct (Hpub i Hi) as (a' & Ha' & Hsa), (Hpub j Hj) as (b' & Hb' & Hsb).
    eapply (live_unique _ i j a b (ma_pull a)); [apply Hg|done|done|split; [done|congruence]|split; [done|congruence]].
  - intros k p Hp Hst. destruct (l_status _ _ (pg_ledger _ _ Hg) k p Hp) as [Hwf _]. unfold status_wf in Hwf. rewrite Hst in Hwf.
    destruct Hwf as (_ & id & a & Ha & <- & Hsa & Hc). exists id, a. split_and!; try done.
    eapply (merges_seen_reachable _ _ H0 Hs); eauto.
Qed.

(** The transaction that records a merge also
    confirms its attempt and enqueues the CI of the merge commit, for the
    target branch, in the name of the owner the attempt recorded: never one
    without the others. *)
Theorem merge_enqueues_ci s0 s i w o k a e j p q : installed s0 -> steps s0 s ->
  sy_workers s !! i = Some w -> wk_program w = Call o k ->
  serves digest catalog (guard_free i s) (row_free i s) (wk_alive w) (wk_ghost w) (sy_env s) o a e ->
  pulls (en_store (sy_env s)) !! j = Some p -> pl_status p <> PrMerged -> pulls (en_store e) !! j = Some q -> pl_status q = PrMerged ->
  exists id x now event message, attempts (en_store (sy_env s)) !! id = Some x /\ ma_pull x = j /\ pl_merge_commit q = Some (ma_merge_oid x) /\
    attempts (en_store e) !! id = Some (set_attempt Confirmed (ma_owner x) (Some now) x) /\
    Outbox.enqueue_merge_ci digest now event message (ma_repository x) (pl_storage p) j (ma_target_ref x) (ma_merge_oid x) (Some id) (ma_owner x)
      (push_policy (ma_repository x) (ma_target_ref x) (en_store (sy_env s))) (repository_of (sy_env s))
      (operations (en_store (sy_env s))) (outbound (en_store (sy_env s))) = Ok (outbound (en_store e), operations (en_store e)).
Proof.
  intros H0 Hs Hi Hprog Hserve Hp Hnm Hq Hm. pose proof (pull_good_reachable _ _ _ _ H0 Hs) as Hg.
  assert (Hc : called i s w o k a e) by (by split).
  assert (Hrows : forall t, pulls t = pulls (en_store (sy_env s)) -> pulls t !! j = Some q -> False) by (intros t ->; congruence).
  destruct (call_changes _ _ _ _ _ _ _ _ _ Hc) as [[Hr _]|[(? & ? & ? & ? & ? & ? & ? & _ & _ & Hr & _)|(-> & Hal & x & t & Hx & Ht & ->)]];
    [by destruct (Hrows _ (sr_pulls _ _ Hr))..|]. cbn in Hq.
  destruct (merging _ _ _ _ _ _ _ _ _ _ _ Hc Hx Hal Ht Hp Hnm Hq Hm) as (id & c & ev & msg & storage & owner & <- & Hws & Hlk & Hown & Hrow).
  pose proof (call_worker_ok _ _ _ _ _ _ _ _ _ Hc) as Hw.
  assert (Eo : owner = ma_owner c).
  { destruct (wo_trace _ _ _ Hw _ _ Hown) as (past & Hpast & Hh). cbn in Hh. destruct (Hh owner eq_refl) as (c0 & Hc0 & ->).
    destruct (ev_attempts _ _ (proj1 (pg_past _ _ Hg past Hpast)) id c0 Hc0) as (c1 & Hc1 & [(_ & _ & _ & _ & _ & _ & _ & E) _]). congruence. }
  assert (Est : storage = pl_storage p) by (by eapply locked_storage).
  subst owner storage. rewrite Hws in Ht. unfold apply_writes in Ht. cbn [rfold apply_write] in Ht.
  apply rbind_Ok_inv in Ht as (s1 & (p1 & Hp1 & _ & ->)%db_Ok%mark_merged_Ok & Ht). apply rbind_Ok_inv in Ht as (s2 & Hci & Ht).
  apply rbind_Ok_inv in Hci as ([ob ops] & Henq & [= <-]).
  apply rbind_Ok_inv in Ht as (s3 & (c' & Hc' & _ & Hput & Et)%db_Ok%finish_Ok & [= <-]). cbn in Hc', Hput.
  assert (c' = c) as -> by congruence. apply put_Ok in Hput as (Eat & _).
  exists id, c, (se_now x), ev, msg. split_and!; try done.
  - rewrite Et in Hq. cbn in Hq. rewrite lookup_insert_eq in Hq. by injection Hq as <-.
  - cbn. by rewrite Eat, lookup_insert_eq.
  - rewrite Et. cbn. exact Henq.
Qed.

(** An answer without an error is true: the pull request
    it shows has been a row of the database, in the status the action asked
    for. *)
Theorem answers_true s0 s i w p : installed s0 -> steps s0 s -> sy_workers s !! i = Some w -> wk_program w = Done (Ok p) ->
  pl_status p = outcome (wk_action w) /\ exists e k, e ∈ seen s /\ pulls (en_store e) !! k = Some p.
Proof.
  intros H0 Hs Hi Hp. pose proof (pg_workers _ _ (pull_good_reachable _ _ _ _ H0 Hs) i w Hi) as Hw.
  pose proof (wo_program _ _ _ Hw) as Hwp. rewrite Hp in Hwp. destruct (Hwp p eq_refl) as [Hc Hst]. split; [done|]. by apply (wo_committed _ _ _ Hw).
Qed.
End theorems.
