(* ===== verification/PullRun.v ===== *)
(** * Undisturbed handlers

    An executable environment: every call succeeds, the clock stands still
    and nobody else writes.  It is one of the environments of [PullSystem]
    ([respond_serves]), and a handler runs in it to its end. *)
From S2P Require Import Prelude Programs Table Outbox Api Pulls PullMerge PullSafety PullSystem PullJournal PullReach PullSteps.

Section respond.
Context `{UuidText} (digest : str -> str) (catalog : str -> option N).
(** Whether the request has a permit, the owner of what it creates, and the
    identifier of a commit. *)
Context (permit : bool) (owner : option N) (commit_id : str -> str -> str -> str -> str).

Definition succeeded (stdout : str) : Output := {| out_success := true; out_stdout := stdout; out_stderr := [] |}.
Definition failed (stdout : str) : Output := {| out_success := false; out_stdout := stdout; out_stderr := §"fatal" |}.
Definition line (s : str) : str := s ++ [10%N].

(** An identifier nobody uses. *)
Definition fresh_id (e : env) : N :=
  fresh (dom (attempts (en_store e)) ∪ dom (domain_events (outbound (en_store e))) ∪ dom (outbox_messages (outbound (en_store e)))).

Definition run_git (g : ghost) (e : env) (c : git_command) : Output * env :=
  match c with
  | MergeTree target source => (succeeded (target ++ 0%N :: source), e)
  | CommitTree tree target source message =>
    let oid := commit_id tree target source message in
    if is_oid oid && is_none (en_commits e !! oid) then (succeeded (line oid), add_commit oid [target; source] e) else (failed [], e)
  | UpdateRefs verify verify_oid update new old =>
    let refs := repo_refs (gh_storage g) e in
    match gh_storage g, gh_attempt g with
    | Some storage, Some (id, _, _) =>
      if bool_decide (refs !! verify = Some verify_oid) && bool_decide (refs !! update = Some old)
      then (succeeded (line §"start: ok" ++ line §"prepare: ok" ++ line §"commit: ok"), publish storage update new id e)
      else (failed (line §"start: ok"), e)
    | _, _ => (failed (line §"start: ok"), e)
    end
  end.

(** The row an update returns. *)
Definition returning (w : write) (s : store) : option (returned w) :=
  match w return option (returned w) with
  | MarkMerged k _ => pulls s !! k
  | ChangeStatus k _ => pulls s !! k
  | InsertAttempt _ _ | SetOwner _ _ | FinishAttempt _ _ | EnqueueCi _ _ _ _ _ _ _ _ _ => Some tt
  end.

Definition respond (g : ghost) (e : env) (o : op) : answer o * env :=
  match o return answer o * env with
  | RequestClock => (Ok true, e)
  | PolicyRequired => (Ok false, e)
  | EnterEffect _ => (true, e)
  | CurrentOrigin => (Ok tt, e)
  | ResolveStorage repo => (Ok repo, e)
  | WriteLease _ | RepositoryPath _ => (Ok tt, e)
  | Permit _ => (Ok permit, e)
  | RequireWrite => (Ok tt, e)
  | ReadRepositoryId storage => (ok_or (catalog storage) RowNotFound, e)
  | AcquireGuard _ => (Ok tt, e)
  | Begin => (Ok (en_clock e), e)
  | BindClock | LockActor => (Ok tt, e)
  | LockPull storage number => (Ok (find_pull storage number (en_store e)), e)
  | LockStatus k => (ok_or (pl_status <$> pulls (en_store e) !! k) RowNotFound, e)
  | ReadActive k => (Ok (active_attempt k (en_store e)), e)
  | CheckRefFormat _ => (Ok true, e)
  | ShowRef reference =>
    (Ok match repo_refs (gh_storage g) e !! reference with
        | Some oid => if is_oid oid then succeeded (line oid) else failed []
        | None => failed []
        end, e)
  | ReadProtected repository branch => (Ok (protected_branch e repository branch), e)
  | ReadGreen repository branch oid => (Ok (green e repository branch oid), e)
  | Git c => let r := run_git g e c in (Ok (true, r.1), r.2)
  | NewId => (fresh_id e, e)
  | RequireCreation => (Ok owner, e)
  | CapturePolicy repository key reference => (Ok tt, written (capture_policy repository key reference (en_store e)) e)
  | ReadOwner id => (ok_or (ma_owner <$> attempts (en_store e) !! id) RowNotFound, e)
  | Exec w =>
    (match gh_session g with
     | Some x => let? t := apply_writes digest e (se_now x) (se_writes x ++ [w]) in ok_or (returning w t) (Some RowNotFound)
     | None => Err (Some RowNotFound)
     end, e)
  | Commit =>
    match gh_session g with
    | Some x => match apply_writes digest e (se_now x) (se_writes x) with Ok t => (Ok tt, written t e) | Err _ => (Err RowNotFound, e) end
    | None => (Err RowNotFound, e)
    end
  | Signal _ => (tt, e)
  end.

Lemma oid_hex oid c : is_oid oid = true -> c ∈ oid -> is_lower_hex c = true.
Proof. intros [Ho|Ho]%orb_true_iff Hc; apply lower_hex_iff in Ho as [_ Hl]; by apply Hl. Qed.

Lemma lower_hex_space c : is_lower_hex c = true -> is_whitespace c = false.
Proof.
  unfold is_lower_hex, is_ascii_digit. rewrite orb_true_iff, !between_iff. intros Hc. apply not_true_iff_false.
  unfold is_whitespace, between. rewrite !orb_true_iff, !andb_true_iff, !N.leb_le, !N.eqb_eq. lia.
Qed.

Lemma trim_oid oid : is_oid oid = true -> trim (line oid) = oid.
Proof.
  intros Hoid. assert (Hs : forall c, c ∈ oid -> is_whitespace c = false) by (intros c Hc; by eapply lower_hex_space, oid_hex).
  assert (Hne : oid <> []) by (by intros ->).
  assert (Hd : drop_while is_whitespace (oid ++ [10%N]) = oid ++ [10%N]).
  { apply drop_while_id. intros x r E. destruct oid as [|y l]; [done|]. injection E as -> _. apply Hs. left. }
  assert (Hr : drop_while is_whitespace (rev oid) = rev oid).
  { apply drop_while_id. intros x r E. apply Hs, list_elem_of_In, in_rev. rewrite E. by left. }
  unfold trim, trim_matches, trim_start_matches, trim_end_matches, line. rewrite Hd, rev_app_distr. cbn [rev app drop_while].
  change (is_whitespace 10) with true. cbn match. by rewrite Hr, rev_involutive.
Qed.

(** These are answers of the system. *)
Lemma respond_serves g e o : serves digest catalog (fun _ => True) (fun _ => True) true g e o (respond g e o).1 (respond g e o).2.
Proof.
  destruct o; cbn [serves respond fst snd]; try done; try (by split; [|intros ? [= <-]]).
  - split; [done|]. by intros r ?%ok_or_Ok.
  - split; [done|]. intros st Hst%ok_or_Ok. split; [done|]. split; [done|]. apply fmap_Some in Hst as (p & Hp & ->). by exists p.
  - split; [done|]. intros out [= <-]. destruct (repo_refs _ e !! reference) as [oid|]; [|done]. destruct (is_oid oid) eqn:Eo; [|done].
    intros _. cbn [out_stdout succeeded]. by rewrite trim_oid.
  - destruct c; cbn [git_serves run_git fst snd]; [done| |].
    + destruct (is_oid _) eqn:Eo; cbn [andb]; [|split; [by left|by intros w out [= _ <-]]].
      destruct (en_commits e !! _) as [|] eqn:Ec; cbn [is_none fst snd]; [split; [by left|by intros w out [= _ <-]]|].
      split; [right; by eexists; split; [left|]|]. intros w out [= _ <-] _. cbn [out_stdout succeeded]. rewrite trim_oid by done. cbn. by rewrite lookup_insert_eq.
    + destruct (gh_storage g) as [st|]; [|by left]. destruct (gh_attempt g) as [[[id x] ph]|]; [|by left].
      case_bool_decide as H1; cbn [andb]; [|by left]. case_bool_decide as H2; [|by left]. right. by exists st, id.
  - by right.
  - split; [done|]. intros o Ho%ok_or_Ok. split; [done|]. apply fmap_Some in Ho as (x & Hx & ->). by exists x.
  - split; [done|]. intros r Hr. split; [done|]. destruct (gh_session g) as [x|]; [|done]. apply rbind_Ok_inv in Hr as (t & Ht & Hr%ok_or_Ok).
    exists x, t. split_and!; [done|done|]. destruct w; cbn in *; done.
  - destruct (gh_session g) as [x|] eqn:Ex; [|by left]. destruct (apply_writes digest e (se_now x) (se_writes x)) as [t|] eqn:Et; [|by left].
    right. split; [done|]. by exists x, t.
Qed.

(** Runs of programs. *)
Definition perform (st : ghost * env) (o : op) : answer o * (ghost * env) :=
  let r := respond st.1 st.2 o in (r.1, (after o r.1 st.1, r.2)).

Abbreviation run := (Programs.run_io perform).

Lemma run_call o g e : run (call o) (g, e) = ((respond g e o).1, (after o (respond g e o).1 g, (respond g e o).2)).
Proof. done. Qed.

Lemma run_mapped {A E} (x : ApiError) (p : io (result A E)) st a st' : run p st = (a, st') -> run (mapped x p) st = (or_error x a, st').
Proof. intros Hr. unfold mapped. by rewrite (run_bind _ _ _ _ _ _ Hr). Qed.

(** [p] answers [a], moves the environment to [e'] and tells nothing but its
    answers. *)
Definition tells {A} (p : io A) (g : ghost) (e : env) (a : A) (e' : env) : Prop := exists g', run p (g, e) = (a, (g', e')) /\ extends g g'.

Lemma tells_call o g e a e' : learn o = (fun _ g => g) -> respond g e o = (a, e') -> tells (call o) g e a e'.
Proof.
  intros Hl Hr. exists (with_event (Ev o a) g). split; [|apply extends_event]. rewrite run_call, Hr. unfold after. by rewrite Hl.
Qed.

Ltac tells_op := lazymatch goal with |- tells (Programs.call ?o) ?g ?e _ _ => apply (tells_call o g e) end.

Lemma tells_mapped {A E} (x : ApiError) (p : io (result A E)) g e a e' : tells p g e (Ok a) e' -> tells (mapped x p) g e (Ok a) e'.
Proof. intros (g' & Hr & Hg). exists g'. split; [|done]. by rewrite (run_mapped _ _ _ _ _ Hr). Qed.

Lemma tells_done {A} (a : A) g e : tells (Done a) g e a e.
Proof. by exists g. Qed.

Lemma tells_try {A B} (p : io (result A ApiError)) (k : A -> io (result B ApiError)) g e a e1 b e2 :
  tells p g e (Ok a) e1 -> (forall g1, extends g g1 -> tells (k a) g1 e1 b e2) -> tells (run? x := p in k x) g e b e2.
Proof.
  intros (g1 & Hr & Hg) Hk. destruct (Hk g1 Hg) as (g2 & Hr2 & Hg2). exists g2. split; [|by etransitivity].
  by rewrite (run_try _ _ _ _ _ _ Hr).
Qed.

Lemma tells_bind {A B} (p : io A) (k : A -> io B) g e a e1 b e2 :
  tells p g e a e1 -> (forall g1, extends g g1 -> tells (k a) g1 e1 b e2) -> tells (run! x := p in k x) g e b e2.
Proof.
  intros (g1 & Hr & Hg) Hk. destruct (Hk g1 Hg) as (g2 & Hr2 & Hg2). exists g2. split; [|by etransitivity].
  by rewrite (run_bind _ _ _ _ _ _ Hr).
Qed.

(** [p] ends with [a] in [e']. *)
Definition leads {A} (p : io A) (g : ghost) (e : env) (a : A) (e' : env) : Prop := exists g', run p (g, e) = (a, (g', e')).

Lemma leads_tells {A B} (p : io (result A ApiError)) (k : A -> io (result B ApiError)) g e a e1 b e' :
  tells p g e (Ok a) e1 -> (forall g1, extends g g1 -> leads (k a) g1 e1 b e') -> leads (run? x := p in k x) g e b e'.
Proof. intros (g1 & Hr & Hg) Hk. destruct (Hk g1 Hg) as [g2 H2]. exists g2. by rewrite (run_try _ _ _ _ _ _ Hr). Qed.

Lemma leads_tells_bind {A B} (p : io A) (k : A -> io B) g e a e1 b e' :
  tells p g e a e1 -> (forall g1, extends g g1 -> leads (k a) g1 e1 b e') -> leads (run! x := p in k x) g e b e'.
Proof. intros (g1 & Hr & Hg) Hk. destruct (Hk g1 Hg) as [g2 H2]. exists g2. by rewrite (run_bind _ _ _ _ _ _ Hr). Qed.

(** One call, whatever it tells. *)
Lemma leads_call {B} o (k : answer o -> io B) g e b e' :
  leads (k (respond g e o).1) (after o (respond g e o).1 g) (respond g e o).2 b e' -> leads (run! x := call o in k x) g e b e'.
Proof. intros [g' Hr]. exists g'. exact Hr. Qed.

Lemma leads_query {A E B} (x : ApiError) (p : io (result A E)) (k : A -> io (result B ApiError)) g e a g1 e1 b e' :
  run p (g, e) = (Ok a, (g1, e1)) -> leads (k a) g1 e1 b e' -> leads (run? z := mapped x p in k z) g e b e'.
Proof. intros Hr [g' Hk]. exists g'. by rewrite (run_try _ _ _ _ _ _ (run_mapped _ _ _ _ _ Hr)). Qed.

(** A program that fails at its beginning. *)
Lemma leads_fails {A B} (p : io (result A ApiError)) (k : A -> io (result B ApiError)) g e x e' :
  tells p g e (Err x) e' -> leads (run? z := p in k z) g e (Err x) e'.
Proof. intros (g1 & Hr & _). exists g1. unfold try_bind. by rewrite (run_bind _ _ _ _ _ _ Hr). Qed.

Lemma tells_mapped_err {A E} (x : ApiError) (p : io (result A E)) g e y e' : tells p g e (Err y) e' -> tells (mapped x p) g e (Err x) e'.
Proof. intros (g' & Hr & Hg). exists g'. split; [|done]. by rewrite (run_mapped _ _ _ _ _ Hr). Qed.

(** Sequences associate. *)
Lemma leads_assoc {A B C} (p : io (result A ApiError)) (k : A -> io (result B ApiError)) (q : B -> io (result C ApiError)) g e b e' :
  leads (run? x := p in run? y := k x in q y) g e b e' -> leads (run? y := run? x := p in k x in q y) g e b e'.
Proof. intros [g' Hr]. exists g'. by rewrite run_try_assoc. Qed.

Lemma leads_assoc_bind {A B C} (p : io A) (k : A -> io (result B ApiError)) (q : B -> io (result C ApiError)) g e b e' :
  leads (run! x := p in run? y := k x in q y) g e b e' -> leads (run? y := run! x := p in k x in q y) g e b e'.
Proof. intros [g' Hr]. exists g'. by rewrite run_bind_try. Qed.

Lemma leads_assoc_io {A B C} (p : io A) (k : A -> io B) (q : B -> io C) g e b e' :
  leads (run! x := p in run! y := k x in q y) g e b e' -> leads (run! y := run! x := p in k x in q y) g e b e'.
Proof. intros [g' Hr]. exists g'. by rewrite run_assoc. Qed.

Lemma leads_value {A B} (a : A) (q : A -> io (result B ApiError)) g e b e' : leads (q a) g e b e' -> leads (run? y := Done (Ok a) in q y) g e b e'.
Proof. done. Qed.

Lemma leads_done {A} (a : A) g e : leads (Done a) g e a e.
Proof. by exists g. Qed.

Lemma tells_require_write b g e : tells (require_write b) g e (Ok tt) e.
Proof. destruct b; [exact (tells_call RequireWrite g e _ _ eq_refl eq_refl)|apply tells_done]. Qed.

Lemma tells_open clock b g e : tells (open_transaction clock b) g e (Ok tt) e.
Proof.
  eapply tells_try with (a := tt); [destruct clock; [exact (tells_call BindClock g e _ _ eq_refl eq_refl)|apply tells_done]|]. intros g1 _.
  destruct b; [exact (tells_call LockActor g1 e _ _ eq_refl eq_refl)|apply tells_done].
Qed.

Lemma tells_branch_reference b x g e : branch_name b = Ok x -> tells (branch_reference b) g e (Ok x) e.
Proof.
  intros E. unfold branch_reference. rewrite E. eapply tells_try with (a := true); [apply tells_mapped; by tells_op|]. intros g1 _. by apply tells_done.
Qed.

(** The heads of a repository are object identifiers. *)
Definition proper_heads (storage : str) (e : env) : Prop :=
  forall reference oid, repo_refs (Some storage) e !! reference = Some oid -> is_oid oid = true.

Lemma tells_snapshot storage b n r g e : proper_heads storage e -> gh_storage g = Some storage -> branch_name b = Ok (n, r) ->
  tells (branch_snapshot b) g e match repo_refs (Some storage) e !! r with
    | Some oid => Ok {| bs_name := n; bs_reference := r; bs_oid := oid |}
    | None => Err (conflict_error §"Ветка недоступна")
    end e.
Proof.
  intros Hh Hs Hb. eapply tells_try; [by apply tells_branch_reference|]. intros g1 H1.
  eapply tells_try with (a := match repo_refs (Some storage) e !! r with Some oid => succeeded (line oid) | None => failed [] end).
  { apply tells_mapped; tells_op; [done|]. cbn [respond snd]. rewrite (ex_storage _ _ H1), Hs.
    destruct (repo_refs (Some storage) e !! r) as [oid|] eqn:E; [|done]. by rewrite (Hh _ _ E). }
  intros g2 _. destruct (repo_refs (Some storage) e !! r) as [oid|] eqn:E; cbn [out_success succeeded failed negb]; [|apply tells_done].
  cbn [out_stdout succeeded]. rewrite trim_oid, (Hh _ _ E) by (by eapply Hh). apply tells_done.
Qed.

(** The gate is open. *)
Definition gate_open (e : env) (r : option N) (source_name target_name source_oid : str) : Prop :=
  protected_branch e r target_name = true -> green e r source_name source_oid = true.

Lemma tells_gate e g r source target : gate_open e r (bs_name source) (bs_name target) (bs_oid source) -> tells (merge_gate r source target) g e (Ok tt) e.
Proof.
  intros Hg. eapply tells_try with (a := protected_branch e r (bs_name target)); [apply tells_mapped; by tells_op|]. intros g1 _.
  destruct (protected_branch e r (bs_name target)) eqn:E; [|apply tells_done]. specialize (Hg E).
  eapply tells_try with (a := true); [apply tells_mapped; tells_op; [done|cbn; by rewrite Hg]|]. intros g2 _. apply tells_done.
Qed.

Definition merged_oid (p : PullRequest) (source target : BranchSnapshot) : str :=
  commit_id (hd [] (split 0%N (bs_oid target ++ 0%N :: bs_oid source))) (bs_oid target) (bs_oid source) (merge_message p).

Lemma tells_git c g e o e' : learn (Git c) = (fun _ g => g) -> run_git g e c = (o, e') -> tells (pr_output c) g e (Ok o) e'.
Proof.
  intros Hl Hr. eapply tells_bind with (a := Ok (true, o)); [tells_op; [done|cbn [respond]; by rewrite Hr]|]. intros g1 _. apply tells_done.
Qed.

Lemma tells_merge_commit p source target g e : let oid := merged_oid p source target in is_oid oid = true -> en_commits e !! oid = None ->
  tells (merge_commit p source target) g e (Ok oid) (add_commit oid [bs_oid target; bs_oid source] e).
Proof.
  intros oid Ho Hf. eapply tells_try; [by apply tells_git|]. intros g1 _. cbn [out_success succeeded negb].
  eapply tells_try; [apply tells_git; [done|]|].
  { cbn [run_git out_stdout succeeded]. change (commit_id _ _ _ _) with oid. by rewrite Ho, Hf. }
  intros g2 _. cbn [out_success succeeded negb]. cbn [out_stdout succeeded]. change (commit_id _ _ _ _) with oid. rewrite trim_oid by done. apply tells_done.
Qed.

(** ** Transactions *)

Lemma run_exec w g e x t r : gh_session g = Some x -> apply_writes digest e (se_now x) (se_writes x ++ [w]) = Ok t -> returning w t = Some r ->
  run (call (Exec w)) (g, e) = (Ok r, (after (Exec w) (Ok r) g, e)).
Proof.
  intros Hs Ht Hr. rewrite run_call. assert (E : (respond g e (Exec w)).1 = Ok r) by (cbn; rewrite Hs, Ht; cbn; by rewrite Hr).
  by rewrite E.
Qed.

Lemma run_commit g e x t : gh_session g = Some x -> apply_writes digest e (se_now x) (se_writes x) = Ok t ->
  run (call Commit) (g, e) = (Ok tt, (after Commit (Ok tt) g, written t e)).
Proof. intros Hs Ht. rewrite run_call. assert (E : respond g e Commit = (Ok tt, written t e)) by (cbn; by rewrite Hs, Ht). by rewrite E. Qed.

Lemma after_exec w r g x : gh_session g = Some x -> gh_session (after (Exec w) (Ok r) g) = Some (add_write w (returned_row w r) x).
Proof. intros Hs. cbn. by rewrite Hs. Qed.

Lemma apply_prefix e now ws vs t : apply_writes digest e now (ws ++ vs) = Ok t -> exists u, apply_writes digest e now ws = Ok u.
Proof. unfold apply_writes. rewrite rfold_app. intros (u & Hu & _)%rbind_Ok_inv. by exists u. Qed.

Lemma apply_mark e now k oid p : pulls (en_store e) !! k = Some p -> pl_status p = PrOpen ->
  apply_writes digest e now [MarkMerged k oid] = Ok (set_pulls (<[k := set_status now PrMerged (Some now) (Some oid) p]> (pulls (en_store e))) (en_store e)).
Proof. intros Hp Ho. unfold apply_writes. cbn. unfold mark_merged. by rewrite Hp, bool_decide_eq_true_2. Qed.

(** A program in an open transaction. *)
Lemma leads_write {B} w (x : ApiError) (k : returned w -> io (result B ApiError)) g e y t r b e' :
  gh_session g = Some y -> apply_writes digest e (se_now y) (se_writes y ++ [w]) = Ok t -> returning w t = Some r ->
  (forall g1, keeps g g1 -> gh_session g1 = Some (add_write w (returned_row w r) y) -> leads (k r) g1 e b e') ->
  leads (run? z := mapped x (call (Exec w)) in k z) g e b e'.
Proof.
  intros Hs Ht Hr Hk. eapply leads_query; [exact (run_exec _ _ _ _ _ _ Hs Ht Hr)|]. apply Hk; [|exact (after_exec w r g y Hs)].
  split; [cbn; set_solver|done..].
Qed.

Lemma leads_commit {B} (x : ApiError) (k : unit -> io (result B ApiError)) g e y t b e' :
  gh_session g = Some y -> apply_writes digest e (se_now y) (se_writes y) = Ok t ->
  (forall g1, gh_storage g1 = gh_storage g -> gh_guard g1 = gh_guard g -> gh_session g1 = None -> gh_attempt g1 = prepared_by (se_writes y) ->
     leads (k tt) g1 (written t e) b e') -> leads (run? z := mapped x (call Commit) in k z) g e b e'.
Proof.
  intros Hs Ht Hk. eapply leads_query; [exact (run_commit _ _ _ _ Hs Ht)|]. apply Hk; try done. cbn. by rewrite Hs.
Qed.

Definition captured (storage : str) (a : Attempt) (e : env) : env :=
  written (capture_policy (ma_repository a) (git_push_idempotency_key digest storage (ma_target_ref a) (ma_merge_oid a)) (ma_target_ref a) (en_store e)) e.

(** The writes of a completion. *)
Definition completion (e : env) (storage : str) (id : N) (a : Attempt) (o : option N) : list write :=
  [MarkMerged (ma_pull a) (ma_merge_oid a);
   EnqueueCi (fresh_id e) (fresh_id e) (ma_repository a) storage (ma_pull a) (ma_target_ref a) (ma_merge_oid a) (Some id) o;
   FinishAttempt id true].

Definition merged_row (now : Z) (a : Attempt) (p : PullRequest) : PullRequest := set_status now PrMerged (Some now) (Some (ma_merge_oid a)) p.

Lemma leads_enqueue storage a id o g e y t (k : unit -> io (result PullRequest ApiError)) b e' :
  let w := EnqueueCi (fresh_id e) (fresh_id e) (ma_repository a) storage (ma_pull a) (ma_target_ref a) (ma_merge_oid a) (Some id) o in
  gh_session g = Some y -> apply_writes digest (captured storage a e) (se_now y) (se_writes y ++ [w]) = Ok t ->
  (forall g', gh_session g' = Some (add_write w None y) -> leads (k tt) g' (captured storage a e) b e') ->
  leads (run? z := enqueue_merge_ci digest (ma_repository a) storage (ma_pull a) (ma_target_ref a) (ma_merge_oid a) (Some id) o in k z) g e b e'.
Proof.
  intros w Hs Ht Hk.
  assert (Hrun : exists g', run (enqueue_merge_ci digest (ma_repository a) storage (ma_pull a) (ma_target_ref a) (ma_merge_oid a) (Some id) o) (g, e)
    = (Ok tt, (g', captured storage a e)) /\ gh_session g' = Some (add_write w None y)).
  { unfold enqueue_merge_ci. set (key := git_push_idempotency_key digest storage (ma_target_ref a) (ma_merge_oid a)).
    assert (T1 : tells (call (CapturePolicy (ma_repository a) key (ma_target_ref a))) g e (Ok tt) (captured storage a e)) by (by tells_op).
    destruct T1 as (g1 & R1 & H1). rewrite (run_try _ _ _ _ _ _ R1).
    assert (T2 : tells (call NewId) g1 (captured storage a e) (fresh_id e) (captured storage a e)) by (by tells_op).
    destruct T2 as (g2 & R2 & H2). rewrite (run_bind _ _ _ _ _ _ R2).
    assert (T3 : tells (call NewId) g2 (captured storage a e) (fresh_id e) (captured storage a e)) by (by tells_op).
    destruct T3 as (g3 & R3 & H3). rewrite (run_bind _ _ _ _ _ _ R3).
    assert (HX : extends g g3) by (etransitivity; [exact H1|by etransitivity]).
    assert (S3 : gh_session g3 = Some y) by (by rewrite (ex_session _ _ HX)).
    fold w. rewrite (run_bind _ _ _ _ _ _ (run_exec w g3 _ y t tt S3 Ht eq_refl)). cbn [Programs.run_io].
    exists (after (Exec w) (Ok tt) g3). split; [done|]. exact (after_exec w tt g3 y S3). }
  destruct Hrun as (g' & Hr & Hses). destruct (Hk g' Hses) as [g2 H2]. exists g2. by rewrite (run_try _ _ _ _ _ _ Hr).
Qed.

Lemma leads_complete storage id a c p g e y t : gh_session g = Some y -> se_writes y = [] ->
  pulls (en_store e) !! ma_pull a = Some p -> pl_status p = PrOpen -> attempts (en_store e) !! id = Some c ->
  apply_writes digest (captured storage a e) (se_now y) (completion e storage id a (ma_owner c)) = Ok t ->
  leads (complete_merge digest storage (ma_pull a) id a permit) g e (Ok (merged_row (se_now y) a p)) (written t (captured storage a e)).
Proof.
  intros Hs Hw Hp Ho Hc Ht. unfold complete_merge. set (w1 := MarkMerged _ _). set (q := merged_row (se_now y) a p).
  assert (Hr1 : returning w1 (set_pulls (<[ma_pull a := q]> (pulls (en_store e))) (en_store e)) = Some q) by (cbn; by rewrite lookup_insert_eq).
  eapply leads_write; [exact Hs|rewrite Hw; exact (apply_mark e (se_now y) _ _ p Hp Ho)|exact Hr1|]. intros g1 _ S1.
  set (y1 := add_write w1 (Some q) y). change (gh_session g1 = Some y1) in S1.
  eapply leads_tells with (a := ma_owner c); [apply tells_mapped; tells_op; [done|cbn; by rewrite Hc]|]. intros g2 H2.
  rewrite <- (ex_session _ _ H2) in S1. destruct (apply_prefix _ _ [w1; _] [FinishAttempt id true] _ Ht) as [u Hu].
  eapply leads_enqueue; [exact S1|cbn [y1 add_write se_writes]; rewrite Hw; exact Hu|]. intros g3 S3.
  eapply leads_write with (r := tt); [exact S3|cbn [y1 add_write se_writes]; rewrite Hw; exact Ht|done|]. intros g4 _ S4.
  eapply leads_tells; [apply tells_mapped, tells_require_write|]. intros g5 H5. rewrite <- (ex_session _ _ H5) in S4.
  eapply leads_commit; [exact S4|cbn [y1 add_write se_writes]; rewrite Hw; exact Ht|]. intros g6 _ _ _ _. apply leads_done.
Qed.

(** ** Continuous integration *)

Definition merge_key (storage : str) (a : Attempt) : str := git_push_idempotency_key digest storage (ma_target_ref a) (ma_merge_oid a).

(** The configuration a merge triggers: the first decision, or the policy. *)
Definition merge_decision (storage : str) (a : Attempt) (e : env) : option N :=
  (push_decision_for_ref (push_policy (ma_repository a) (ma_target_ref a) (en_store e)) (ma_repository a) (merge_key storage a) (operations (en_store e))).1.

Definition ci_ready (storage : str) (a : Attempt) (e : env) : Prop :=
  match merge_decision storage a e with Some c => repository_of e c = Some (ma_repository a) | None => True end.

(** What completing the merge of [a] enqueues: nothing, or its trigger. *)
Definition ci_enqueued (storage : str) (id : N) (a : Attempt) (o : option N) (e : env) (t : store) : Prop :=
  match merge_decision storage a e with
  | None => outbound t = outbound (en_store e)
  | Some c => exists m, outbox_messages (outbound t) !! fresh_id e = Some m /\ om_channel m = CHANNEL_PIPELINE_TRIGGER /\ om_project m = Some c /\
      om_payload m = trigger_value {| mt_schema_version := 1; mt_repository := ma_repository a; mt_configuration := c; mt_reference := ma_target_ref a;
        mt_commit := ma_merge_oid a; mt_key := merge_key storage a; mt_merge_attempt := Some id; mt_owner := o |}
  end.

(** A recorded decision is the decision. *)
Lemma decided_push policy r key ops d : ops !! (r, key) = Some d -> (push_decision_for_ref policy r key ops).1 = d.
Proof. intros E. unfold push_decision_for_ref. by rewrite E. Qed.

Lemma enqueue_decided now ev m r st k ref commit at_ ow policy ro ops ob d :
  ops !! (r, git_push_idempotency_key digest st ref commit) = Some d ->
  match d with Some c => ro c = Some r | None => True end ->
  domain_events ob !! ev = None -> outbox_messages ob !! m = None ->
  exists ob', Outbox.enqueue_merge_ci digest now ev m r st k ref commit at_ ow policy ro ops ob = Ok (ob', ops) /\
    match d with
    | None => ob' = ob
    | Some c => exists x, outbox_messages ob' !! m = Some x /\ om_channel x = CHANNEL_PIPELINE_TRIGGER /\ om_project x = Some c /\
        om_payload x = trigger_value {| mt_schema_version := 1; mt_repository := r; mt_configuration := c; mt_reference := ref; mt_commit := commit;
          mt_key := git_push_idempotency_key digest st ref commit; mt_merge_attempt := at_; mt_owner := ow |}
    end.
Proof.
  intros Hd Hc Hev Hm. unfold Outbox.enqueue_merge_ci, push_decision_for_ref. rewrite Hd. cbn [fst snd].
  destruct d as [c|]; [|by exists ob]. rewrite Hc, bool_decide_eq_true_2 by done. cbn [negb]. unfold insert_event. rewrite Hev.
  set (x := new_message _ _ _ _ _ _ _). set (ob1 := add_event _ _ _).
  assert (Hi : insert_row m x (outbox_messages ob1) = Ok (<[m := x]> (outbox_messages ob1))) by (apply insert_row_Ok; split_and!; done).
  unfold insert_message. rewrite Hi. cbn [rbind]. eexists. split; [done|]. exists x. split; [|done]. cbn [set_messages outbox_messages]. by rewrite lookup_insert_eq.
Qed.

Lemma fresh_id_free e : attempts (en_store e) !! fresh_id e = None /\ domain_events (outbound (en_store e)) !! fresh_id e = None /\
  outbox_messages (outbound (en_store e)) !! fresh_id e = None.
Proof.
  unfold fresh_id. set (X := _ ∪ _). pose proof (is_fresh X) as Hf. unfold X in Hf at 2. rewrite !not_elem_of_union, !not_elem_of_dom in Hf. tauto.
Qed.

(** The decision, once captured, stays. *)
Lemma captured_decision storage a e : operations (en_store (captured storage a e)) !! (ma_repository a, merge_key storage a) = Some (merge_decision storage a e).
Proof.
  unfold captured, capture_policy, merge_decision, push_decision_for_ref. cbn. fold (merge_key storage a).
  destruct (operations (en_store e) !! (ma_repository a, merge_key storage a)) eqn:E; cbn; [done|]. by rewrite lookup_insert_eq.
Qed.

Lemma apply_completion e now storage id a p o :
  valid_table (attempts (en_store e)) -> attempts (en_store e) !! id = Some a -> ma_state a = Prepared ->
  pulls (en_store e) !! ma_pull a = Some p -> pl_status p = PrOpen -> ci_ready storage a e ->
  exists t, apply_writes digest (captured storage a e) now (completion e storage id a o) = Ok t /\
    pulls t = <[ma_pull a := merged_row now a p]> (pulls (en_store e)) /\
    attempts t = <[id := set_attempt Confirmed (ma_owner a) (Some now) a]> (attempts (en_store e)) /\ ci_enqueued storage id a o e t.
Proof.
  intros Hv Ha Hst Hp Ho Hci. unfold apply_writes, completion. cbn [rfold apply_write]. unfold mark_merged.
  change (pulls (en_store (captured storage a e))) with (pulls (en_store e)). rewrite Hp, bool_decide_eq_true_2 by done. cbn [db rbind].
  destruct (fresh_id_free e) as (_ & Hf1 & Hf2). unfold enqueue_ci. cbn [set_pulls operations outbound].
  destruct (enqueue_decided now (fresh_id e) (fresh_id e) (ma_repository a) storage (ma_pull a) (ma_target_ref a) (ma_merge_oid a) (Some id) o
    (push_policy (ma_repository a) (ma_target_ref a) (set_pulls (<[ma_pull a := merged_row now a p]> (pulls (en_store e))) (en_store (captured storage a e))))
    (repository_of (captured storage a e)) _ (outbound (en_store e)) _ (captured_decision storage a e) Hci Hf1 Hf2) as (ob & Henq & Hob).
  unfold merged_row in Henq. cbn [captured written en_store outbound capture_policy set_delivery] in Henq |- *. rewrite Henq. cbn [rbind].
  unfold finish. cbn [set_delivery set_pulls attempts capture_policy]. rewrite Ha, bool_decide_eq_true_2 by done.
  rewrite (put_replace _ _ a) by (done || (by apply finished_check; [..|apply (vt_check _ Hv id a Ha)]) || (intros w; by apply finished_conflict)).
  cbn [rbind db]. eexists. split; [done|]. split_and!; [done|done|]. unfold ci_enqueued. cbn [outbound set_delivery set_attempts]. exact Hob.
Qed.
End respond.
