(* ===== verification/PullExecute.v ===== *)
(** * Undisturbed merges

    What a handler does when nothing disturbs it: a merge of an open pull
    request succeeds ([merge_succeeds]), and a merge whose outcome was never
    confirmed is settled by the references alone ([merge_recovers]). *)
From S2P Require Import Prelude Programs Table Outbox Api Pulls PullMerge PullSafety PullSystem PullJournal PullReach PullSteps PullTheorems PullRun.

Section execute.
Context `{UuidText} (digest : str -> str) (catalog : str -> option N).
Context (permit : bool) (owner : option N) (commit_id : str -> str -> str -> str -> str).
Abbreviation leads := (PullRun.leads digest catalog permit owner commit_id).
Abbreviation tells := (PullRun.tells digest catalog permit owner commit_id).

Ltac tells_op := lazymatch goal with |- PullRun.tells _ _ _ _ _ (Programs.call ?o) ?g ?e _ _ => apply (tells_call digest catalog permit owner commit_id o g e) end.

Lemma leads_owned authority role repo number action e r e' :
  (forall g clock, gh_storage g = None -> gh_session g = None -> leads (pr_action_owned digest repo number action clock) g e r e') ->
  leads (pr_action digest authority role repo number action) new_ghost e r e'.
Proof.
  intros Hk. unfold pr_action. apply leads_tells with (a := authority && is_some role) (e1 := e).
  { destruct (authority && is_some role); [by tells_op|apply tells_done]. }
  intros g1 H1. apply leads_tells with (a := false) (e1 := e); [by tells_op|]. intros g2 H2. cbn [andb].
  apply leads_tells_bind with (a := true) (e1 := e); [by tells_op|]. intros g3 H3.
  apply leads_tells with (a := tt) (e1 := e); [by tells_op|]. intros g4 H4.
  assert (Hx : extends new_ghost g4) by (etransitivity; [exact H1|]; etransitivity; [exact H2|by etransitivity]).
  apply Hk; [exact (ex_storage _ _ Hx)|exact (ex_session _ _ Hx)].
Qed.

(** To the action, with the pull request locked. *)
Lemma leads_act storage number action k p clock g e r e' :
  gh_storage g = None -> gh_session g = None -> (is_merge action = true -> is_Some (catalog storage)) ->
  find_pull storage number (en_store e) = Some (k, p) ->
  (forall g1 x, gh_storage g1 = Some storage -> gh_session g1 = Some x -> se_writes x = [] -> se_now x = en_clock e ->
     leads (act digest storage action k p clock permit) g1 e r e') ->
  leads (pr_action_owned digest storage number action clock) g e r e'.
Proof.
  intros Hst Hs Hcat Hp Hk. unfold pr_action_owned.
  apply leads_call. set (g1 := after _ _ g). assert (R1 : gh_storage g1 = Some storage) by done. cbn [respond fst snd]. clearbody g1.
  apply leads_tells with (a := tt) (e1 := e); [by tells_op|]. intros g2 H2. apply leads_tells with (a := tt) (e1 := e); [by tells_op|]. intros g3 H3.
  apply leads_tells with (a := permit) (e1 := e); [by tells_op|]. intros g4 H4.
  assert (R4 : gh_storage g4 = Some storage) by (by rewrite (ex_storage _ _ H4), (ex_storage _ _ H3), (ex_storage _ _ H2)). clear H2 H3 H4.
  assert (Hrest : forall g5, gh_storage g5 = Some storage -> leads (run? _ := mapped internal (call Begin) in run? _ := open_transaction clock permit in
      run? row := mapped internal (call (LockPull storage number)) in
      match row with None => fail not_found | Some (k, p) => act digest storage action k p clock permit end) g5 e r e').
  { intros g5 R5. apply leads_query with (a := en_clock e) (g1 := after Begin (Ok (en_clock e)) g5) (e1 := e); [done|].
    set (g6 := after _ _ g5). assert (S6 : gh_session g6 = Some (open_session (en_clock e))) by done.
    assert (R6 : gh_storage g6 = Some storage) by done. clearbody g6.
    apply leads_tells with (a := tt) (e1 := e); [apply tells_open|]. intros g7 H7.
    apply leads_query with (a := Some (k, p)) (g1 := after (LockPull storage number) (Ok (Some (k, p))) g7) (e1 := e).
    { unfold PullRun.perform. cbn [Programs.run_io Programs.call respond fst snd]. by rewrite Hp. }
    apply (Hk _ (lock_row k (Some p) (open_session (en_clock e)))); try done.
    - cbn. by rewrite (ex_storage _ _ H7).
    - cbn. by rewrite (ex_session _ _ H7), S6. }
  unfold guard_merge. destruct (is_merge action).
  - destruct (Hcat eq_refl) as [rid Hrid].
    assert (T : exists g5, Programs.run_io (PullRun.perform digest catalog permit owner commit_id)
        (run? repository := mapped internal (call (ReadRepositoryId storage)) in call (AcquireGuard repository)) (g4, e) = (Ok tt, (g5, e)) /\
        gh_storage g5 = Some storage).
    { assert (Tr : tells (mapped internal (call (ReadRepositoryId storage))) g4 e (Ok rid) e).
      { apply tells_mapped; tells_op; [done|]. cbn. by rewrite Hrid. }
      destruct Tr as (g5 & Hr & Hx). rewrite (run_try _ _ _ _ _ _ Hr). eexists. split; [reflexivity|]. cbn. by rewrite (ex_storage _ _ Hx). }
    destruct T as (g5 & Hr & R5). destruct (Hrest g5 R5) as [g6 H6]. exists g6. by rewrite (run_try _ _ _ _ _ _ Hr).
  - destruct (Hrest g4 R4) as [g6 H6]. by exists g6.
Qed.

(** The live attempt of the locked pull request. *)
Lemma leads_active k active (q : option (N * Attempt) -> io (result PullRequest ApiError)) storage x g e r e' :
  gh_storage g = Some storage -> gh_session g = Some x -> active_attempt k (en_store e) = active ->
  (forall g1, gh_storage g1 = Some storage -> gh_session g1 = Some (know_active active x) -> leads (q active) g1 e r e') ->
  leads (run? _ := require_write permit in run? active := mapped internal (call (ReadActive k)) in q active) g e r e'.
Proof.
  intros Hst Hs Ha Hk. apply leads_tells with (a := tt) (e1 := e); [apply tells_require_write|]. intros g1 H1.
  apply leads_query with (a := active) (g1 := after (ReadActive k) (Ok active) g1) (e1 := e).
  { unfold PullRun.perform. cbn [Programs.run_io Programs.call respond fst snd]. by rewrite Ha. }
  apply Hk; cbn; [by rewrite (ex_storage _ _ H1)|by rewrite (ex_session _ _ H1), Hs].
Qed.

(** *** Recovery *)

(** The references say that the merge was published. *)
Definition publication_visible (storage : str) (a : Attempt) (e : env) : bool :=
  bool_decide (repo_refs (Some storage) e !! ma_source_ref a = Some (ma_source_oid a)) &&
  bool_decide (repo_refs (Some storage) e !! ma_target_ref a = Some (ma_merge_oid a)).

(** A merge was recorded: the rows changed, and nothing of the repository. *)
Record merge_recorded (storage : str) (id : N) (a : Attempt) (p : PullRequest) (e e' : env) : Prop := {
  mr_refs : en_refs e' = en_refs e;
  mr_commits : en_commits e' = en_commits e;
  mr_published : en_published e' = en_published e;
  mr_pulls : pulls (en_store e') = <[ma_pull a := merged_row (en_clock e) a p]> (pulls (en_store e));
  mr_attempts : attempts (en_store e') = <[id := set_attempt Confirmed (ma_owner a) (Some (en_clock e)) a]> (attempts (en_store e));
  mr_ci : ci_enqueued digest storage id a (ma_owner a) e (en_store e') }.

Lemma leads_completion storage id a p e :
  valid_table (attempts (en_store e)) -> attempts (en_store e) !! id = Some a -> ma_state a = Prepared ->
  pulls (en_store e) !! ma_pull a = Some p -> pl_status p = PrOpen -> ci_ready digest storage a e ->
  exists e', merge_recorded storage id a p e e' /\ forall g x r, gh_session g = Some x -> se_writes x = [] -> se_now x = en_clock e ->
    leads (run? updated := complete_merge digest storage (ma_pull a) id a permit in run! _ := call (Signal r) in Done (Ok updated)) g e
      (Ok (merged_row (en_clock e) a p)) e'.
Proof.
  intros HL Ha Hst Hp Ho Hci.
  destruct (apply_completion digest e (en_clock e) storage id a p (ma_owner a) HL Ha Hst Hp Ho Hci) as (t & Ht & Ep & Ea & Hc).
  exists (written t (captured digest storage a e)). split; [by split|]. intros g x r Hs Hw Hnow. rewrite <- Hnow in *.
  destruct (leads_complete digest catalog permit owner commit_id storage id a a p g e x t Hs Hw Hp Ho Ha Ht) as [g1 Hr].
  exists (after (Signal r) tt g1). by rewrite (run_try _ _ _ _ _ _ Hr).
Qed.

(** What [recover_merge] does with the references. *)
Definition settle (storage : str) (p : PullRequest) (id : N) (a : Attempt) : io (result PullRequest ApiError) :=
  run? source := mapped merge_unconfirmed (branch_snapshot (pl_source p)) in
  run? target := mapped merge_unconfirmed (branch_snapshot (pl_target p)) in
  run? _ := require_write permit in
  if negb (str_eqb (bs_oid source) (ma_source_oid a)) then fail merge_unconfirmed
  else if str_eqb (bs_oid target) (ma_merge_oid a) then
    run? updated := complete_merge digest storage (ma_pull a) id a permit in
    run! _ := call (Signal (ma_repository a)) in
    Done (Ok updated)
  else fail merge_unconfirmed.

Section prepared.
Context (authority : bool) (role : option str) (storage : str) (number : Z) (p : PullRequest) (id : N) (a : Attempt) (e : env).
Hypothesis HL : ledger catalog (en_store e).
Hypothesis Hfind : find_pull storage number (en_store e) = Some (ma_pull a, p).
Hypothesis Hact : active_attempt (ma_pull a) (en_store e) = Some (id, a).
Hypothesis Hst : ma_state a = Prepared.
Hypothesis Hcat : is_Some (catalog storage).
Hypothesis Hheads : proper_heads storage e.

Lemma prepared_row : pulls (en_store e) !! ma_pull a = Some p /\ attempts (en_store e) !! id = Some a /\ attempt_wf p a /\ pl_status p = PrOpen.
Proof.
  destruct (find_pull_Some _ _ _ _ _ Hfind) as (Hp & _ & _). pose proof Hact as Ha. apply active_attempt_Some in Ha as [Ha _]; [|apply HL].
  destruct (l_wf _ _ HL id a Ha) as (q & Hq & Hwf). assert (q = p) as -> by congruence. split_and!; try done.
  destruct Hwf as (_ & _ & Hwf). rewrite Hst in Hwf. by destruct Hwf.
Qed.

Lemma leads_settle r e' :
  (forall g x, gh_storage g = Some storage -> gh_session g = Some x -> se_writes x = [] -> se_now x = en_clock e ->
     leads (settle storage p id a) g e r e') ->
  leads (pr_action digest authority role storage number §"merge") new_ghost e r e'.
Proof.
  destruct prepared_row as (_ & _ & (Hrep & (sn & tn & Hsn & Htn) & _) & Ho). intros Hk. apply leads_owned. intros g0 clock R0 S0.
  eapply leads_act; [done|done|done|exact Hfind|]. intros g1 x R1 S1 W1 N1. eapply leads_active; [exact R1|exact S1|exact Hact|]. intros g R S.
  unfold recover_merge. rewrite bool_decide_eq_true_2 by done. cbn [negb].
  eapply leads_tells; [by apply tells_branch_reference|]. intros g2 H2. cbn [snd]. rewrite str_eqb_refl. cbn [negb].
  eapply leads_tells; [by apply tells_branch_reference|]. intros g3 H3. cbn [snd]. rewrite str_eqb_refl. cbn [negb].
  eapply leads_tells; [apply tells_require_write|]. intros g4 H4. rewrite Hst, (bool_decide_eq_false_2 (Prepared = Confirmed)) by done.
  rewrite bool_decide_eq_true_2 by done. cbn [negb]. assert (HX : extends g g4) by (etransitivity; [exact H2|by etransitivity]).
  apply (Hk g4 (know_active (Some (id, a)) x)); [by rewrite (ex_storage _ _ HX)|by rewrite (ex_session _ _ HX)|done|done].
Qed.

Lemma leads_settle_visible : publication_visible storage a e = true -> ci_ready digest storage a e ->
  exists e', merge_recorded storage id a p e e' /\ forall g x,
    gh_storage g = Some storage -> gh_session g = Some x -> se_writes x = [] -> se_now x = en_clock e ->
    leads (settle storage p id a) g e (Ok (merged_row (en_clock e) a p)) e'.
Proof.
  destruct prepared_row as (Hp & Ha & (_ & (sn & tn & Hsn & Htn) & _) & Ho).
  intros [Hs%bool_decide_eq_true_1 Ht%bool_decide_eq_true_1]%andb_true_iff Hci.
  destruct (leads_completion storage id a p e (l_attempts _ _ HL) Ha Hst Hp Ho Hci) as (e' & Hm & Hk). exists e'. split; [done|]. intros g x R S W Nw.
  eapply leads_tells; [apply tells_mapped; pose proof (tells_snapshot digest catalog permit owner commit_id storage _ _ _ g e Hheads R Hsn) as T;
    rewrite Hs in T; exact T|]. intros g1 H1.
  rewrite <- (ex_storage _ _ H1) in R. rewrite <- (ex_session _ _ H1) in S.
  eapply leads_tells; [apply tells_mapped; pose proof (tells_snapshot digest catalog permit owner commit_id storage _ _ _ g1 e Hheads R Htn) as T;
    rewrite Ht in T; exact T|]. intros g2 H2. rewrite <- (ex_session _ _ H2) in S.
  eapply leads_tells; [apply tells_require_write|]. intros g3 H3. rewrite <- (ex_session _ _ H3) in S.
  cbn [bs_oid]. rewrite !str_eqb_refl. cbn [negb]. by apply (Hk g3 x).
Qed.

Lemma leads_settle_hidden g x : publication_visible storage a e = false ->
  gh_storage g = Some storage -> gh_session g = Some x -> se_writes x = [] -> se_now x = en_clock e ->
  leads (settle storage p id a) g e (Err merge_unconfirmed) e.
Proof.
  destruct prepared_row as (Hp & Ha & (_ & (sn & tn & Hsn & Htn) & _) & Ho). intros Hv R S W Nw. unfold publication_visible in Hv. unfold settle.
  pose proof (tells_snapshot digest catalog permit owner commit_id storage _ _ _ g e Hheads R Hsn) as T1.
  destruct (repo_refs (Some storage) e !! ma_source_ref a) as [s|]; [|apply leads_fails; eapply tells_mapped_err; exact T1].
  apply tells_mapped with (x := merge_unconfirmed) in T1. eapply leads_tells; [exact T1|]. intros g1 H1. rewrite <- (ex_storage _ _ H1) in R.
  pose proof (tells_snapshot digest catalog permit owner commit_id storage _ _ _ g1 e Hheads R Htn) as T2.
  destruct (repo_refs (Some storage) e !! ma_target_ref a) as [t|]; [|apply leads_fails; eapply tells_mapped_err; exact T2].
  apply tells_mapped with (x := merge_unconfirmed) in T2. eapply leads_tells; [exact T2|]. intros g2 _.
  eapply leads_tells; [apply tells_require_write|]. intros g3 _. cbn [bs_oid].
  destruct (str_eqb s (ma_source_oid a)) eqn:E1; cbn [negb]; [|apply leads_done]. destruct (str_eqb t (ma_merge_oid a)) eqn:E2; [|apply leads_done].
  apply str_eqb_true in E1, E2. subst. by rewrite !bool_decide_eq_true_2 in Hv by done.
Qed.
End prepared.


(** *** A merge *)

Lemma apply_prepare e now id a o p : valid_table (attempts (en_store e)) -> attempts (en_store e) !! id = None ->
  active_attempt (ma_pull a) (en_store e) = None -> pulls (en_store e) !! ma_pull a = Some p -> ma_state a = Prepared -> ma_completed_at a = None ->
  check a = true -> o <> Some 0%N ->
  let u := set_attempts (<[id := a]> (attempts (en_store e))) (en_store e) in
  apply_writes digest e now [InsertAttempt id a] = Ok u /\
  apply_writes digest e now [InsertAttempt id a; SetOwner id o] = Ok (set_attempts (<[id := set_attempt Prepared o None a]> (attempts (en_store e))) (en_store e)).
Proof.
  intros Hv Hid Hn Hp Hst Hc Hck Ho u. rewrite active_attempt_None in Hn.
  assert (Hcf : forall i w, attempts (en_store e) !! i = Some w -> conflict a w = false).
  { intros i w Hw. apply not_true_iff_false. cbn. rewrite !andb_true_iff. intros [[Hk%N.eqb_eq _] Hl]. apply (Hn i w Hw). split; [done|].
    by apply negb_true_iff, bool_decide_eq_false in Hl. }
  assert (H1 : prepare id a (en_store e) = Ok u).
  { unfold prepare. rewrite Hp. assert (Hi : insert_row id a (attempts (en_store e)) = Ok (<[id := a]> (attempts (en_store e)))) by (by apply insert_row_Ok).
    by rewrite Hi. }
  assert (Hb : check (set_attempt Prepared o None a) = true).
  { cbn in Hck |- *. rewrite !andb_true_iff in Hck |- *. destruct Hck as [[[[[[[]]]]]]]. split_and!; try done. by rewrite bool_decide_eq_false_2. }
  assert (H2 : set_owner id o u = Ok (set_attempts (<[id := set_attempt Prepared o None a]> (attempts (en_store e))) (en_store e))).
  { unfold set_owner. cbn [u set_attempts attempts]. rewrite lookup_insert_eq, Hst, Hc.
    assert (Hi : put id (set_attempt Prepared o None a) (<[id := a]> (attempts (en_store e))) = Ok (<[id := set_attempt Prepared o None a]> (attempts (en_store e)))).
    { apply put_Ok. rewrite insert_insert_eq. split_and!; [done|done|]. intros i w Hne. rewrite lookup_insert_ne by done. intros Hw.
      specialize (Hcf i w Hw). cbn in Hcf |- *. by rewrite Hst in Hcf. }
    by rewrite Hi. }
  unfold apply_writes. cbn [rfold apply_write]. rewrite H1. cbn [db rbind]. by rewrite H2.
Qed.

Section merge.
Context (storage : str) (number : Z) (k r : N) (p : PullRequest) (e : env) (source target : BranchSnapshot).

Definition oid : str := merged_oid commit_id p source target.
Definition intent : Attempt := new_attempt k r source target oid.

(** What a merge needs: an open pull request of different branches without a
    live attempt, an open gate, and a commit that can be made. *)
Record mergeable : Prop := {
  mg_ledger : ledger catalog (en_store e);
  mg_pull : find_pull storage number (en_store e) = Some (k, p);
  mg_open : pl_status p = PrOpen;
  mg_repository : pl_repository p = Some r;
  mg_free : active_attempt k (en_store e) = None;
  mg_heads : proper_heads storage e;
  mg_source : branch_name (pl_source p) = Ok (bs_name source, bs_reference source) /\
    repo_refs (Some storage) e !! bs_reference source = Some (bs_oid source);
  mg_target : branch_name (pl_target p) = Ok (bs_name target, bs_reference target) /\
    repo_refs (Some storage) e !! bs_reference target = Some (bs_oid target);
  mg_different : bs_reference target <> bs_reference source;
  mg_gate : gate_open e (Some r) (bs_name source) (bs_name target) (bs_oid source);
  mg_commit : is_oid oid = true /\ en_commits e !! oid = None;
  mg_owner : owner <> Some 0%N;
  mg_ci : ci_ready digest storage intent e }.

Hypothesis HM : mergeable.

Lemma branch_name_head b n ref : branch_name b = Ok (n, ref) -> starts_with §"refs/heads/" ref = true.
Proof. unfold branch_name. destruct (_ || _ || _ || _); [done|]. intros [= _ <-]. apply starts_with_iff. by eexists. Qed.

Lemma intent_check : check intent = true.
Proof.
  destruct HM as [_ _ _ _ _ Hh [Hs Hso] [Ht Hto] Hd _ [Ho _] _ _]. cbn. rewrite (branch_name_head _ _ _ Hs), (branch_name_head _ _ _ Ht), Ho.
  rewrite (Hh _ _ Hso), (Hh _ _ Hto). unfold str_eqb. by rewrite bool_decide_eq_false_2.
Qed.

(** The environments on the way: the commit, the captured policy and the
    intent, the publication. *)
Definition with_commit : env := add_commit oid [bs_oid target; bs_oid source] e.
Definition new_id : N := fresh_id with_commit.
Definition owned : Attempt := set_attempt Prepared owner None intent.
Definition prepared_env : env :=
  let e2 := captured digest storage intent with_commit in
  written (set_attempts (<[new_id := owned]> (attempts (en_store e))) (en_store e2)) e2.
Definition published_env : env := publish storage (bs_reference target) oid new_id prepared_env.

Lemma merge_pull : pulls (en_store e) !! k = Some p /\ is_Some (catalog storage) /\ catalog storage = Some r.
Proof.
  destruct (find_pull_Some _ _ _ _ _ (mg_pull HM)) as (Hp & Hs & _). destruct (l_status _ _ (mg_ledger HM) k p Hp) as [_ Hr].
  rewrite Hs, (mg_repository HM) in Hr. split_and!; [done|by exists r|done].
Qed.

(** [prepare_merge] from the merge commit on. *)
Definition record_intent (merged : str) : io (result (BranchSnapshot * BranchSnapshot * N * Attempt) ApiError) :=
  run? _ := require_write permit in
  run! id := call NewId in
  let a := new_attempt k r source target merged in
  run? _ := mapped internal (call (Exec (InsertAttempt id a))) in
  run? owner := call RequireCreation in
  run? _ := mapped internal (call (Exec (SetOwner id owner))) in
  run? _ := call (CapturePolicy r (git_push_idempotency_key digest storage (ma_target_ref a) (ma_merge_oid a)) (ma_target_ref a)) in
  run? _ := require_write permit in
  run? _ := mapped merge_unconfirmed (call Commit) in
  Done (Ok (source, target, id, a)).

Lemma leads_intent g x (q : BranchSnapshot * BranchSnapshot * N * Attempt -> io (result PullRequest ApiError)) b e' :
  gh_storage g = Some storage -> gh_session g = Some x -> se_writes x = [] ->
  (forall g1, gh_storage g1 = Some storage -> gh_session g1 = None -> gh_attempt g1 = Some (new_id, owned, Unpublished) ->
     leads (q (source, target, new_id, intent)) g1 prepared_env b e') ->
  leads (run? z := record_intent oid in q z) g with_commit b e'.
Proof.
  intros R S W Hk. destruct merge_pull as (Hp & _ & _). pose proof (l_attempts _ _ (mg_ledger HM)) as Hv.
  destruct (apply_prepare with_commit (se_now x) new_id intent owner p Hv (proj1 (fresh_id_free with_commit)) (mg_free HM) Hp eq_refl eq_refl
    intent_check (mg_owner HM)) as [A1 A2].
  destruct (apply_prepare (captured digest storage intent with_commit) (se_now x) new_id intent owner p Hv (proj1 (fresh_id_free with_commit)) (mg_free HM)
    Hp eq_refl eq_refl intent_check (mg_owner HM)) as [_ A3]. unfold record_intent.
  apply leads_assoc. eapply leads_tells; [apply tells_require_write|]. intros g5 H5.
  apply leads_assoc_bind. eapply leads_tells_bind with (a := new_id); [by tells_op|]. intros g6 H6. fold intent.
  assert (HX : extends g g6) by (by etransitivity).
  rewrite <- (ex_storage _ _ HX) in R. rewrite <- (ex_session _ _ HX) in S. clear H5 H6 HX.
  apply leads_assoc. eapply leads_write with (r := tt); [exact S|rewrite W; exact A1|done|]. intros g7 K7 S7. rewrite <- (ke_storage _ _ K7) in R.
  apply leads_assoc. eapply leads_tells with (a := owner); [by tells_op|]. intros g8 H8. rewrite <- (ex_storage _ _ H8) in R. rewrite <- (ex_session _ _ H8) in S7.
  apply leads_assoc. eapply leads_write with (r := tt); [exact S7|cbn [add_write se_writes se_now]; rewrite W; exact A2|done|]. intros g9 K9 S9.
  rewrite <- (ke_storage _ _ K9) in R.
  apply leads_assoc. eapply leads_tells with (a := tt) (e1 := captured digest storage intent with_commit); [by tells_op|]. intros g10 H10.
  apply leads_assoc. eapply leads_tells; [apply tells_require_write|]. intros g11 H11. rewrite <- (ex_storage _ _ H10), <- (ex_storage _ _ H11) in R.
  rewrite <- (ex_session _ _ H10), <- (ex_session _ _ H11) in S9.
  apply leads_assoc. eapply leads_commit; [exact S9|cbn [add_write se_writes se_now]; rewrite W; exact A3|]. intros g12 R12 _ S12 A12.
  apply leads_value, Hk; [by rewrite R12|done|]. rewrite A12. cbn [add_write se_writes]. by rewrite W.
Qed.

Lemma leads_prepare g x (q : BranchSnapshot * BranchSnapshot * N * Attempt -> io (result PullRequest ApiError)) b e' :
  gh_storage g = Some storage -> gh_session g = Some x -> se_writes x = [] ->
  (forall g1, gh_storage g1 = Some storage -> gh_session g1 = None -> gh_attempt g1 = Some (new_id, owned, Unpublished) ->
     leads (q (source, target, new_id, intent)) g1 prepared_env b e') ->
  leads (run? z := prepare_merge digest storage k p r permit in q z) g e b e'.
Proof.
  intros R S W Hk. destruct HM as [_ _ _ Hr _ Hh [Hs Hso] [Ht Hto] Hd Hg [Hoid Hfc] _ _].
  apply leads_assoc. pose proof (tells_snapshot digest catalog permit owner commit_id storage _ _ _ g e Hh R Ht) as T. rewrite Hto in T.
  eapply leads_tells; [exact T|]. intros g1 H1. rewrite <- (ex_storage _ _ H1) in R. rewrite <- (ex_session _ _ H1) in S.
  apply leads_assoc. pose proof (tells_snapshot digest catalog permit owner commit_id storage _ _ _ g1 e Hh R Hs) as T2. rewrite Hso in T2.
  eapply leads_tells; [exact T2|]. intros g2 H2.
  assert (Hss : Build_BranchSnapshot (bs_name source) (bs_reference source) (bs_oid source) = source) by (by destruct source).
  assert (Htt : Build_BranchSnapshot (bs_name target) (bs_reference target) (bs_oid target) = target) by (by destruct target). rewrite Hss, Htt.
  unfold str_eqb. rewrite bool_decide_eq_false_2 by done.
  apply leads_assoc. eapply leads_tells; [apply tells_gate; by rewrite Hr|]. intros g3 H3.
  apply leads_assoc. eapply leads_tells; [by apply tells_merge_commit|]. intros g4 H4.
  assert (HX : extends g1 g4) by (etransitivity; [exact H2|by etransitivity]).
  apply (leads_intent g4 x q b e'); [by rewrite (ex_storage _ _ HX)|by rewrite (ex_session _ _ HX)|done|done].
Qed.

(** The completion in the environment after the publication. *)
Definition merged : PullRequest := merged_row (en_clock e) owned p.

Lemma prepared_ci : merge_decision digest storage owned published_env = merge_decision digest storage intent e /\ ci_ready digest storage owned published_env.
Proof.
  assert (E : merge_decision digest storage owned published_env = merge_decision digest storage intent e).
  { pose proof (captured_decision digest storage intent with_commit) as D.
    change (operations (en_store published_env) !! (ma_repository owned, merge_key digest storage owned) = Some (merge_decision digest storage intent e)) in D.
    exact (decided_push _ _ _ _ _ D). }
  split; [done|]. unfold ci_ready. rewrite E. exact (mg_ci HM).
Qed.

(** A merge was made: one commit, one branch, one attempt, one row. *)
Record merge_done (e' : env) : Prop := {
  md_refs : en_refs e' = <[storage := <[bs_reference target := oid]> (repo_refs (Some storage) e)]> (en_refs e);
  md_commits : en_commits e' = <[oid := [bs_oid target; bs_oid source]]> (en_commits e);
  md_published : en_published e' = new_id :: en_published e;
  md_pulls : pulls (en_store e') = <[k := merged]> (pulls (en_store e));
  md_attempts : attempts (en_store e') = <[new_id := set_attempt Confirmed owner (Some (en_clock e)) intent]> (attempts (en_store e));
  md_ci : match merge_decision digest storage intent e with
    | None => outbound (en_store e') = outbound (en_store e)
    | Some c => exists i m, outbox_messages (outbound (en_store e')) !! i = Some m /\ om_channel m = CHANNEL_PIPELINE_TRIGGER /\ om_project m = Some c /\
        om_payload m = trigger_value {| mt_schema_version := 1; mt_repository := r; mt_configuration := c; mt_reference := bs_reference target;
          mt_commit := oid; mt_key := merge_key digest storage intent; mt_merge_attempt := Some new_id; mt_owner := owner |}
    end }.

Lemma prepared_table : valid_table (attempts (en_store published_env)).
Proof.
  destruct merge_pull as (Hp & _ & _). pose proof (l_attempts _ _ (mg_ledger HM)) as Hv. destruct (fresh_id_free with_commit) as (Hf & _ & _).
  change (valid_table (<[new_id := owned]> (attempts (en_store e)))). apply (insert_row_valid new_id owned (attempts (en_store e))); [done|].
  apply insert_row_Ok. split_and!; [done|done| |].
  - pose proof intent_check as Hc. cbn in Hc |- *. rewrite !andb_true_iff in Hc |- *. destruct Hc as [[[[[[[]]]]]]]. split_and!; try done.
    rewrite bool_decide_eq_false_2; [done|exact (mg_owner HM)].
  - intros i w Hw. apply not_true_iff_false. cbn. rewrite !andb_true_iff. intros [[Hk%N.eqb_eq _] Hl].
    pose proof (mg_free HM) as Hn. rewrite active_attempt_None in Hn. apply (Hn i w Hw). split; [done|]. by apply negb_true_iff, bool_decide_eq_false in Hl.
Qed.

Lemma leads_published : exists e', merge_done e' /\ forall g x, gh_session g = Some x -> se_writes x = [] -> se_now x = en_clock e ->
  leads (run? updated := complete_merge digest storage k new_id intent permit in run! _ := call (Signal r) in Done (Ok updated)) g published_env (Ok merged) e'.
Proof.
  destruct merge_pull as (Hp & _ & _), prepared_ci as [Hdec Hci].
  destruct (leads_completion storage new_id owned p published_env prepared_table (lookup_insert_eq _ _ _) eq_refl Hp (mg_open HM) Hci)
    as (e' & [M1 M2 M3 M4 M5 M6] & Hk). exists e'. split.
  - split; [exact M1|exact M2|exact M3|exact M4| |].
    + rewrite M5. exact (insert_insert_eq _ _ _ _).
    + unfold ci_enqueued in M6. rewrite Hdec in M6. destruct (merge_decision digest storage intent e) as [c|]; [|exact M6].
      destruct M6 as (m & Hm). by exists (fresh_id published_env), m.
  - intros g x S W N. exact (Hk g x r S W N).
Qed.
(** The references move from the observed heads. *)
Lemma published_git g : gh_storage g = Some storage -> gh_attempt g = Some (new_id, owned, Unpublished) ->
  respond digest catalog permit owner commit_id g prepared_env
      (Git (UpdateRefs (bs_reference source) (bs_oid source) (bs_reference target) oid (bs_oid target))) =
    (Ok (true, succeeded (line §"start: ok" ++ line §"prepare: ok" ++ line §"commit: ok")), published_env).
Proof.
  intros R A. destruct (mg_source HM) as [_ Hs], (mg_target HM) as [_ Ht].
  assert (E : run_git commit_id g prepared_env (UpdateRefs (bs_reference source) (bs_oid source) (bs_reference target) oid (bs_oid target)) =
    (succeeded (line §"start: ok" ++ line §"prepare: ok" ++ line §"commit: ok"), published_env)).
  { unfold run_git. rewrite R, A. change (repo_refs (Some storage) prepared_env) with (repo_refs (Some storage) e). by rewrite Hs, Ht, !bool_decide_eq_true_2. }
  unfold respond. by rewrite E.
Qed.

Lemma leads_publish g x e' : gh_storage g = Some storage -> gh_attempt g = Some (new_id, owned, Unpublished) -> gh_session g = Some x -> se_writes x = [] ->
  se_now x = en_clock e ->
  (forall g x, gh_session g = Some x -> se_writes x = [] -> se_now x = en_clock e ->
    leads (run? updated := complete_merge digest storage k new_id intent permit in run! _ := call (Signal r) in Done (Ok updated)) g published_env (Ok merged) e') ->
  leads (run! published := publish_merge source target oid in
    match published with
    | Ok _ => run? updated := complete_merge digest storage k new_id intent permit in run! _ := call (Signal r) in Done (Ok updated)
    | Err error =>
      if (status error =? 409)%Z then
        run? _ := mapped merge_unconfirmed (call (Exec (FinishAttempt new_id false))) in
        run? _ := mapped merge_unconfirmed (call Commit) in
        fail error
      else fail error
    end) g prepared_env (Ok merged) e'.
Proof.
  intros R A S W N Hk. apply leads_assoc_io, leads_call. rewrite (published_git g R A). cbn [fst snd].
  set (g1 := after _ _ g). assert (S1 : gh_session g1 = Some x) by exact S. clearbody g1.
  assert (E : forall (T : Type) (u v : T), (if true && true && ends_with (§"commit: ok" ++ [10%N]) (line §"start: ok" ++ line §"prepare: ok" ++ line §"commit: ok")
    then u else v) = u) by (intros; by vm_compute).
  cbn [out_success out_stdout succeeded]. rewrite E. exact (Hk g1 x S1 W N).
Qed.

Lemma leads_publication g clock e' : gh_storage g = Some storage -> gh_attempt g = Some (new_id, owned, Unpublished) ->
  (forall g x, gh_session g = Some x -> se_writes x = [] -> se_now x = en_clock e ->
    leads (run? updated := complete_merge digest storage k new_id intent permit in run! _ := call (Signal r) in Done (Ok updated)) g published_env (Ok merged) e') ->
  leads (publish_attempt digest storage k source target new_id intent clock permit) g prepared_env (Ok merged) e'.
Proof.
  intros R A Hk. destruct merge_pull as (Hp & _ & _). unfold publish_attempt.
  apply leads_query with (a := en_clock e) (g1 := after Begin (Ok (en_clock e)) g) (e1 := prepared_env); [done|].
  set (g1 := after _ _ g). assert (S1 : gh_session g1 = Some (open_session (en_clock e))) by done.
  assert (R1 : gh_storage g1 = Some storage) by done. assert (A1 : gh_attempt g1 = Some (new_id, owned, Unpublished)) by done. clearbody g1.
  eapply leads_tells; [apply tells_open|]. intros g2 H2. rewrite <- (ex_session _ _ H2) in S1. rewrite <- (ex_storage _ _ H2) in R1.
  rewrite <- (ex_attempt _ _ H2) in A1.
  apply leads_query with (a := PrOpen) (g1 := after (LockStatus k) (Ok PrOpen) g2) (e1 := prepared_env).
  { unfold PullRun.perform. cbn [Programs.run_io Programs.call respond fst snd].
    change (pulls (en_store prepared_env)) with (pulls (en_store e)). rewrite Hp. cbn. by rewrite (mg_open HM). }
  set (g3 := after _ _ g2). assert (S3 : gh_session g3 = Some (lock_row k None (open_session (en_clock e)))) by (unfold g3; cbn; by rewrite S1).
  assert (R3 : gh_storage g3 = Some storage) by exact R1. assert (A3 : gh_attempt g3 = Some (new_id, owned, Unpublished)) by exact A1. clearbody g3.
  rewrite bool_decide_eq_true_2 by done. cbn [negb].
  eapply leads_tells; [apply tells_require_write|]. intros g4 H4. rewrite <- (ex_session _ _ H4) in S3. rewrite <- (ex_storage _ _ H4) in R3.
  rewrite <- (ex_attempt _ _ H4) in A3. exact (leads_publish g4 _ e' R3 A3 S3 eq_refl eq_refl Hk).
Qed.

Lemma leads_merge authority role e' :
  (forall g x, gh_session g = Some x -> se_writes x = [] -> se_now x = en_clock e ->
    leads (run? updated := complete_merge digest storage k new_id intent permit in run! _ := call (Signal r) in Done (Ok updated)) g published_env (Ok merged) e') ->
  leads (pr_action digest authority role storage number §"merge") new_ghost e (Ok merged) e'.
Proof.
  intros Hk. destruct merge_pull as (_ & Hcat & _). apply leads_owned. intros g0 clock R0 S0.
  eapply leads_act; [done|done|done|exact (mg_pull HM)|]. intros g1 x R1 S1 W1 N1. eapply leads_active; [exact R1|exact S1|exact (mg_free HM)|].
  intros g R S. unfold merge_action. rewrite (mg_repository HM), (mg_open HM), bool_decide_eq_true_2 by done. cbn [negb].
  apply (leads_prepare g (know_active None x)); [done|done|exact W1|]. intros g2 R2 _ A2. exact (leads_publication g2 clock e' R2 A2 Hk).
Qed.
End merge.

(** An undisturbed merge of an open pull request whose
    gate is open succeeds: it makes one commit of both heads, moves the target
    branch to it and nothing else, records the confirmed attempt and the
    merged row it answers, and enqueues the pipeline of the policy. *)
Theorem merge_succeeds authority role storage number k r p e source target :
  mergeable storage number k r p e source target ->
  exists e', merge_done storage k r p e source target e' /\
    leads (pr_action digest authority role storage number §"merge") new_ghost e (Ok (merged k r p e source target)) e'.
Proof.
  intros HM. destruct (leads_published storage number k r p e source target HM) as (e' & Hd & Hk). exists e'. split; [exact Hd|].
  exact (leads_merge storage number k r p e source target HM authority role e' Hk).
Qed.
End execute.
