(* ===== verification/PullSample.v ===== *)
(** * A merged pull request

    A repository with a protected branch, a pull request against it and the
    handler that merges it; [drive] runs the handler call by call in the
    environment of [PullRun].  The theorems of [PullTheorems] and
    [PullExecute] are applied to these systems. *)
From S2P Require Import Prelude Programs Table Outbox Api Pulls PullMerge PullSafety PullSystem PullJournal PullReach PullSteps PullTheorems PullRun PullExecute.

(** ** Driving a handler *)

Section drive.
Context `{UuidText} (digest : str -> str) (catalog : str -> option N).
Context (permit : bool) (owner : option N) (commit_id : str -> str -> str -> str -> str).

(** The calls that need the connection of the transaction. *)
Definition needs_alive (o : op) : bool :=
  match o with LockPull _ _ | LockStatus _ | ReadActive _ | ReadOwner _ | Exec _ | Commit => true | _ => false end.

(** One call of the only worker, [i]. *)
Definition drive_worker (i : N) (w : worker) (s : system) : worker * system :=
  match wk_program w with
  | Done _ => (w, s)
  | Call o k =>
    if needs_alive o && negb (wk_alive w) then (w, s)
    else
      let r := respond digest catalog permit owner commit_id (wk_ghost w) (sy_env s) o in
      let w' := {| wk_action := wk_action w; wk_alive := alive_after o r.1 (wk_alive w); wk_ghost := after o r.1 (wk_ghost w); wk_program := k r.1 |} in
      (w', next s r.2 {[i := w']})
  end.

Fixpoint drive (n : nat) (i : N) (w : worker) (s : system) : worker * system :=
  match n with
  | O => (w, s)
  | S n => let r := drive_worker i w s in drive n i r.1 r.2
  end.

Lemma serves_alive gf rf alive g e o a e' : needs_alive o && negb alive = false ->
  serves digest catalog (fun _ => True) (fun _ => True) true g e o a e' -> (forall r, gf r) -> (forall k, rf k) ->
  serves digest catalog gf rf alive g e o a e'.
Proof.
  intros Hn Hs Hgf Hrf. assert (Ha : needs_alive o = true -> alive = true) by (intros E; rewrite E in Hn; by destruct alive).
  destruct o; cbn [serves needs_alive] in *; try exact Hs; try specialize (Ha eq_refl); subst; try exact Hs.
  - destruct Hs as [-> _]. split; [done|]. intros _. apply Hgf.
  - destruct Hs as [-> Hs]. split; [done|]. intros row Hrow. destruct (Hs row Hrow) as (_ & E & _). split_and!; [done|exact E|]. intros k p _. apply Hrf.
  - destruct Hs as [-> Hs]. split; [done|]. intros st Hst. destruct (Hs st Hst) as (_ & _ & E). split_and!; [done|apply Hrf|exact E].
Qed.

Lemma drive_worker_steps i w s : sy_workers s = {[i := w]} ->
  rtc (step digest catalog) s (drive_worker i w s).2 /\ sy_workers (drive_worker i w s).2 = {[i := (drive_worker i w s).1]}.
Proof.
  intros Hw. unfold drive_worker. destruct (wk_program w) as [a|o k] eqn:Ep; [done|].
  destruct (needs_alive o && negb (wk_alive w)) eqn:Hn; [done|]. cbn [fst snd next sy_workers]. split; [|done].
  set (r := respond _ _ _ _ _ _ _ _). set (w' := {| wk_action := _ |}). apply rtc_once.
  assert (E : {[i := w']} = <[i := w']> (sy_workers s)) by (rewrite Hw; symmetry; apply insert_singleton_eq). rewrite E.
  assert (Hi : sy_workers s !! i = Some w) by (rewrite Hw; apply lookup_singleton_eq).
  assert (Hone : forall j v, j <> i -> sy_workers s !! j = Some v -> False) by (intros j v Hj; rewrite Hw, lookup_singleton_ne; congruence).
  apply step_call with (o := o) (k := k); [done|done|].
  apply (serves_alive _ _ _ _ _ _ _ _ Hn (respond_serves _ _ _ _ _ _ _ _)); intros x j v Hj Hv; destruct (Hone j v Hj Hv).
Qed.

Lemma handler_drive_steps n i w s : sy_workers s = {[i := w]} ->
  rtc (step digest catalog) s (drive n i w s).2 /\ sy_workers (drive n i w s).2 = {[i := (drive n i w s).1]}.
Proof.
  revert w s. induction n as [|n IH]; intros w s Hw; [done|]. destruct (drive_worker_steps i w s Hw) as [H1 H2].
  destruct (IH _ _ H2) as [H3 H4]. split; [|exact H4]. etransitivity; [exact H1|exact H3].
Qed.
End drive.

(** ** The system *)

#[local] Instance simple_uuid : UuidText := {
  uuid_text u := [u]; uuid_simple u := [u];
  uuid_parse s := match s with [u] => Some u | _ => None end;
  uuid_parse_text a := eq_refl }.

Definition main_head : str := repeat 97%N 40.
Definition feature_head : str := repeat 98%N 40.
Definition sample_digest (s : str) : str := s.
Definition sample_catalog (storage : str) : option N := if str_eqb storage §"repo" then Some 1%N else None.
Definition sample_commit (tree target source message : str) : str := repeat 99%N 40.

Definition sample_outbox : outbox := {|
  domain_events := ∅; outbox_messages := ∅; delivery_attempts := ∅; notification_configs := ∅; notification_rules := ∅;
  notification_templates := ∅; webhooks := ∅; alerts := ∅ |}.

(** Configuration 5 of repository 1 is triggered by pushes, and protects the
    branch; the pipeline of the other head has succeeded. *)
Definition sample_store : store := {|
  pulls := ∅; attempts := ∅; counters := ∅; push_configs := {[1%N := (Some 5%N, [])]}; operations := ∅; outbound := sample_outbox |}.

Definition sample_env : env := {|
  en_clock := 10; en_store := sample_store;
  en_refs := {[§"repo" := {[§"refs/heads/main" := main_head; §"refs/heads/feature" := feature_head]}]};
  en_commits := ∅; en_projects := {[5%N := {| pj_repository := Some 1%N; pj_protected := [§"main"] |}]};
  en_pipelines := [{| pw_project := 5; pw_ref := §"feature"; pw_sha := feature_head; pw_success := true |}]; en_published := [] |}.

Definition sample_system : system := {| sy_env := sample_env; sy_workers := ∅; sy_past := [] |}.

Definition sample_input : CreatePullRequest := {|
  cr_title := §"Title"; cr_description := None; cr_source := §"feature"; cr_target := §"main"; cr_author := None |}.
Definition created : result (PullRequest * store) ApiError :=
  create_pull_request sample_catalog (fun _ => Ok true) 10 4 §"repo" (Some §"ann") None (fun _ => None) sample_input sample_store.
Definition created_store : store := match created with Ok (_, s) => s | Err _ => sample_store end.
Definition created_env : env := written created_store sample_env.
Definition created_system : system := next sample_system created_env ∅.

Definition sample_worker : worker := {|
  wk_action := §"merge"; wk_alive := false; wk_ghost := new_ghost;
  wk_program := pr_action sample_digest true (Some §"user") §"repo" 1 §"merge" |}.
Definition started : system := next created_system created_env {[7%N := sample_worker]}.
Definition driven (n : nat) : worker * system := drive sample_digest sample_catalog true (Some 9%N) sample_commit n 7 sample_worker started.

Abbreviation steps := (rtc (step sample_digest sample_catalog)).
Abbreviation sample := (sample_system) (only parsing).

Lemma pulls_installed : installed sample.
Proof. done. Qed.

Lemma created_steps : steps sample created_system.
Proof.
  assert (Hc : exists p, created = Ok (p, created_store)) by (eexists; vm_compute; reflexivity). destruct Hc as [p Hc].
  apply rtc_once. by apply (step_create sample_digest sample_catalog 4 (fun _ => Ok true) §"repo" (Some §"ann") None (fun _ => None) sample_input p created_store sample).
Qed.

Lemma started_steps : steps sample started.
Proof.
  eapply rtc_r; [exact created_steps|]. by apply (step_start sample_digest sample_catalog 7 true (Some §"user") §"repo" 1 §"merge" created_system).
Qed.

Lemma handler_driven_steps n : steps sample (driven n).2.
Proof. etransitivity; [apply started_steps|]. by apply handler_drive_steps. Qed.

Lemma driven_alone n : sy_workers (driven n).2 = {[7%N := (driven n).1]}.
Proof. exact (proj2 (handler_drive_steps sample_digest sample_catalog true (Some 9%N) sample_commit n 7 sample_worker started eq_refl)). Qed.

Lemma driven_worker n : sy_workers (driven n).2 !! 7%N = Some (driven n).1.
Proof.
  rewrite driven_alone. apply lookup_singleton_eq.
Qed.

Lemma drive_add n m i w s : let r := drive sample_digest sample_catalog true (Some 9%N) sample_commit n i w s in
  drive sample_digest sample_catalog true (Some 9%N) sample_commit (n + m) i w s =
  drive sample_digest sample_catalog true (Some 9%N) sample_commit m i r.1 r.2.
Proof. revert w s. induction n as [|n IH]; intros w s; [done|]. cbn. apply IH. Qed.

Lemma handler_driven_more n m : steps (driven n).2 (driven (n + m)).2.
Proof.
  unfold driven at 2. rewrite drive_add. apply handler_drive_steps. by apply handler_drive_steps.
Qed.

(** Row 4 is in a status. *)
Definition row_status (e : env) : option pr_status := pl_status <$> pulls (en_store e) !! 4%N.

Lemma row_status_Some e st : row_status e = Some st -> exists p, pulls (en_store e) !! 4%N = Some p /\ pl_status p = st.
Proof. unfold row_status. destruct (pulls (en_store e) !! 4%N) as [p|]; [|done]. intros [= <-]. by exists p. Qed.

(** ** The theorems of [PullTheorems] *)

Lemma pull_rows_witness : exists p, pulls (en_store (sy_env (driven 48).2)) !! 4%N = Some p /\ pl_status p = PrMerged /\
  status_wf (en_store (sy_env (driven 48).2)) 4 p.
Proof.
  assert (Hp : exists p, pulls (en_store (sy_env (driven 48).2)) !! 4%N = Some p /\ pl_status p = PrMerged) by (apply row_status_Some; vm_compute; reflexivity).
  destruct Hp as (p & Hp & Hst). exists p. split_and!; [exact Hp|exact Hst|].
  exact (proj1 (pull_rows sample_digest sample_catalog _ _ pulls_installed (handler_driven_steps 48)) 4%N p Hp).
Defined.

Lemma pull_numbers_witness : counters (en_store (sy_env (driven 48).2)) !! 1%N = Some 1%Z /\
  exists k p, pulls (en_store (sy_env (driven 48).2)) !! k = Some p /\ pl_repository p = Some 1%N /\ pl_number p = 1%Z.
Proof.
  assert (Hc : counters (en_store (sy_env (driven 48).2)) !! 1%N = Some 1%Z) by (vm_compute; reflexivity). split; [exact Hc|].
  apply (proj1 (proj2 (pull_numbers sample_digest sample_catalog _ _ 1%N pulls_installed (handler_driven_steps 48))) 1%Z). rewrite Hc. cbn. lia.
Defined.

Lemma pull_history_witness : exists p p', pulls (en_store (sy_env (driven 37).2)) !! 4%N = Some p /\ pl_status p = PrOpen /\
  pulls (en_store (sy_env (driven (37 + 11)).2)) !! 4%N = Some p' /\ pull_evolves p p'.
Proof.
  assert (Hp : exists p, pulls (en_store (sy_env (driven 37).2)) !! 4%N = Some p /\ pl_status p = PrOpen) by (apply row_status_Some; vm_compute; reflexivity).
  destruct Hp as (p & Hp & Hst). exists p.
  destruct (proj1 (pull_history sample_digest sample_catalog _ _ _ pulls_installed (handler_driven_steps 37) (handler_driven_more 37 11)) 4%N p Hp) as (p' & Hp' & He).
  exists p'. split_and!; [exact Hp|exact Hst|exact Hp'|exact He].
Defined.

Lemma published_once_witness : exists p, en_published (sy_env (driven 48).2) <> [] /\ pulls (en_store (sy_env (driven 48).2)) !! 4%N = Some p /\
  exists id a, attempts (en_store (sy_env (driven 48).2)) !! id = Some a /\ ma_pull a = 4%N /\ pl_merge_commit p = Some (ma_merge_oid a) /\
    merge_seen (driven 48).2 p a.
Proof.
  assert (Hp : exists p, pulls (en_store (sy_env (driven 48).2)) !! 4%N = Some p /\ pl_status p = PrMerged) by (apply row_status_Some; vm_compute; reflexivity).
  destruct Hp as (p & Hp & Hst). exists p. split; [vm_compute; discriminate|]. split; [exact Hp|].
  exact (proj2 (proj2 (proj2 (published_once sample_digest sample_catalog _ _ pulls_installed (handler_driven_steps 48)))) 4%N p Hp Hst).
Defined.

Lemma answers_true_witness : exists p, wk_program (driven 48).1 = Done (Ok p) /\ pl_status p = PrMerged.
Proof.
  assert (Hp : exists p, wk_program (driven 48).1 = Done (Ok p)) by (eexists; vm_compute; reflexivity). destruct Hp as [p Hp]. exists p. split; [exact Hp|].
  rewrite (proj1 (answers_true sample_digest sample_catalog _ _ 7%N _ p pulls_installed (handler_driven_steps 48) (driven_worker 48) Hp)).
  assert (Ha : wk_action (driven 48).1 = §"merge") by (vm_compute; reflexivity). rewrite Ha. vm_compute. reflexivity.
Defined.

(** The environment after the next call. *)
Definition next_env (n : nat) : option env :=
  match wk_program (driven n).1 with
  | Done _ => None
  | Call o _ =>
    if needs_alive o && negb (wk_alive (driven n).1) then None
    else Some (respond sample_digest sample_catalog true (Some 9%N) sample_commit (wk_ghost (driven n).1) (sy_env (driven n).2) o).2
  end.

Lemma next_call n e : next_env n = Some e -> exists o k a, wk_program (driven n).1 = Call o k /\
  serves sample_digest sample_catalog (guard_free 7 (driven n).2) (row_free 7 (driven n).2) (wk_alive (driven n).1) (wk_ghost (driven n).1) (sy_env (driven n).2) o a e.
Proof.
  unfold next_env. destruct (wk_program (driven n).1) as [x|o k]; [done|].
  destruct (needs_alive o && negb (wk_alive (driven n).1)) eqn:Ha; [done|]. intros [= <-]. eexists o, k, _. split; [done|].
  pose proof (driven_alone n) as Hw.
  assert (Hone : forall j v, j <> 7%N -> sy_workers (driven n).2 !! j = Some v -> False) by (intros j v Hj; rewrite Hw, lookup_singleton_ne; congruence).
  apply (serves_alive _ _ _ _ _ _ _ _ _ _ Ha (respond_serves _ _ _ _ _ _ _ _)); intros x j v Hj Hv; destruct (Hone j v Hj Hv).
Qed.

Lemma next_env_status n st : (next_env n ≫= row_status) = Some st -> exists e q, next_env n = Some e /\ pulls (en_store e) !! 4%N = Some q /\ pl_status q = st.
Proof. intros E. apply bind_Some in E as (e & He & (q & Hq & Hst)%row_status_Some). by exists e, q. Qed.


Lemma merge_enqueues_ci_witness : exists e q x id, pulls (en_store e) !! 4%N = Some q /\ pl_status q = PrMerged /\ ma_pull x = 4%N /\
  pl_merge_commit q = Some (ma_merge_oid x) /\ attempts (en_store (sy_env (driven 46).2)) !! id = Some x.
Proof.
  assert (He : exists e q, next_env 46 = Some e /\ pulls (en_store e) !! 4%N = Some q /\ pl_status q = PrMerged) by (apply next_env_status; vm_compute; reflexivity).
  destruct He as (e & q & He & Hq & Hm). destruct (next_call 46 e He) as (o & k & a & Hc & Hs).
  assert (Hp : exists p, pulls (en_store (sy_env (driven 46).2)) !! 4%N = Some p /\ pl_status p = PrOpen) by (apply row_status_Some; vm_compute; reflexivity).
  destruct Hp as (p & Hp & Ho). assert (Hnm : pl_status p <> PrMerged) by (rewrite Ho; discriminate).
  destruct (merge_enqueues_ci sample_digest sample_catalog _ _ 7%N _ o k a e 4%N p q pulls_installed (handler_driven_steps 46) (driven_worker 46) Hc Hs Hp Hnm Hq Hm)
    as (id & x & _ & _ & _ & Hx & Hk & Hoid & _). exists e, q, x, id. split_and!; [exact Hq|exact Hm|exact Hk|exact Hoid|exact Hx].
Defined.

(** ** The theorems of [PullExecute] *)

Lemma proper_heads_list storage e : forallb (fun x => is_oid x.2) (map_to_list (repo_refs (Some storage) e)) = true -> proper_heads storage e.
Proof.
  intros Hl r oid Hr. apply elem_of_map_to_list in Hr. rewrite forallb_forall in Hl. apply (Hl (r, oid)). by apply list_elem_of_In.
Qed.

Definition head_of (name : str) (oid : str) : BranchSnapshot := {| bs_name := name; bs_reference := head_ref name; bs_oid := oid |}.

Lemma merge_succeeds_witness : exists p e', find_pull §"repo" 1 created_store = Some (4%N, p) /\
  en_refs e' = {[§"repo" := <[§"refs/heads/main" := repeat 99%N 40]> (repo_refs (Some §"repo") sample_env)]} /\
  outbox_messages (outbound (en_store e')) <> ∅ /\
  leads sample_digest sample_catalog true (Some 9%N) sample_commit (pr_action sample_digest true (Some §"user") §"repo" 1 §"merge") new_ghost created_env
    (Ok (merged (Some 9%N) sample_commit 4 1 p created_env (head_of §"feature" feature_head) (head_of §"main" main_head))) e'.
Proof.
  assert (Hf : exists p, find_pull §"repo" 1 created_store = Some (4%N, p)).
  { destruct (find_pull §"repo" 1 created_store) as [[k p]|] eqn:E; [|by vm_compute in E].
    assert (Ek : fst <$> find_pull §"repo" 1 created_store = Some 4%N) by (vm_compute; reflexivity). rewrite E in Ek. injection Ek as ->. by exists p. }
  destruct Hf as [p Hp].
  assert (Hrow : (fun x => (pl_status x.2, pl_repository x.2, pl_source x.2, pl_target x.2)) <$> find_pull §"repo" 1 created_store =
    Some (PrOpen, Some 1%N, §"feature", §"main")) by (vm_compute; reflexivity).
  rewrite Hp in Hrow. injection Hrow as Hst Hr Hs Ht.
  pose proof (pg_ledger _ _ (pull_good_reachable _ _ _ _ pulls_installed created_steps)) as HL.
  assert (HM : mergeable sample_digest sample_catalog (Some 9%N) sample_commit §"repo" 1 4 1 p created_env (head_of §"feature" feature_head) (head_of §"main" main_head)).
  { split; [exact HL|exact Hp|exact Hst|exact Hr|vm_compute; reflexivity|apply proper_heads_list; vm_compute; reflexivity|..].
    - rewrite Hs. split; vm_compute; reflexivity.
    - rewrite Ht. split; vm_compute; reflexivity.
    - vm_compute; discriminate.
    - intros _. vm_compute. reflexivity.
    - split; vm_compute; reflexivity.
    - discriminate.
    - vm_compute. reflexivity. }
  destruct (merge_succeeds sample_digest sample_catalog true (Some 9%N) sample_commit true (Some §"user") §"repo" 1 4 1 p created_env _ _ HM)
    as (e' & [M1 _ _ _ _ M6] & Hl). exists p, e'. split; [exact Hp|]. split; [rewrite M1; vm_compute; reflexivity|]. split; [|exact Hl].
  assert (Hd : merge_decision sample_digest §"repo" (intent sample_commit 4 1 p (head_of §"feature" feature_head) (head_of §"main" main_head)) created_env = Some 5%N)
    by (vm_compute; reflexivity).
  rewrite Hd in M6. destruct M6 as (i & m & Hm & _). intros E. by rewrite E in Hm.
Defined.

(** What a recovery at [e] needs, computed. *)
Definition recovery (e : env) : option (N * PullRequest * N * Attempt) :=
  match find_pull §"repo" 1 (en_store e) with
  | Some (k, p) => match active_attempt k (en_store e) with Some (id, a) => Some (k, p, id, a) | None => None end
  | None => None
  end.

Lemma recovery_Some e : is_some (recovery e) = true -> exists k p id a, recovery e = Some (k, p, id, a) /\
  find_pull §"repo" 1 (en_store e) = Some (k, p) /\ active_attempt k (en_store e) = Some (id, a).
Proof.
  unfold recovery. destruct (find_pull §"repo" 1 (en_store e)) as [[k p]|]; [|done].
  destruct (active_attempt k (en_store e)) as [[id a]|] eqn:E; [|done]. intros _. by exists k, p, id, a.
Qed.

Lemma checks_true (st : attempt_state) (a b c : bool) : Some (st, a, b, c) = Some (Prepared, true, true, true) ->
  st = Prepared /\ a = true /\ b = true /\ c = true.
Proof. by intros [= -> -> -> ->]. Qed.

