(* ===== verification/Runners.v ===== *)
(** * External runners: registration, heartbeats and what they may claim

    The parts of [backend/src/runner_protocol.rs] around the leases: the
    validation of requests, the table of runners with their credentials, the
    capabilities of a runner, and the check of a typed job against its frozen
    plan.  Tokens, their hash and the clock are arguments. *)
From S2P Require Import Prelude Url Table Images Helm Outbox Api.

Definition MAX_TAGS : Z := 64.
Definition MAX_NAME_LEN : Z := 128.
Definition MAX_SECRET_NAMES : Z := 64.
Definition POLL_WAIT_MAX_SECONDS : Z := 30.
Definition CREDENTIAL_TTL_DAYS : Z := 30.
Definition RUNNER_PROTOCOL_VERSION : Z := 1.
Definition day : Z := 86400 * 1000000000.

(** ** Headers *)

(** The value of a header that is visible ASCII. *)
Abbreviation headers := (str -> option str).

Definition bearer_token (h : headers) : result str ApiError :=
  match h §"authorization" with
  | Some value =>
    match strip_prefix §"Bearer " value with
    | Some token => let token := trim token in if is_empty token then Err unauthorized else Ok token
    | None => Err unauthorized
    end
  | None => Err unauthorized
  end.

Definition required_text_header (h : headers) (name message : str) : result str ApiError :=
  match h name with
  | Some value => let value := trim value in if is_empty value then Err (bad_request message) else Ok value
  | None => Err (bad_request message)
  end.

Definition required_i32_header (h : headers) (name message : str) : result Z ApiError :=
  let? text := required_text_header h name message in ok_or (parse_signed i32_max text) (bad_request message).
Definition required_i64_header (h : headers) (name message : str) : result Z ApiError :=
  let? text := required_text_header h name message in ok_or (parse_signed i64_max text) (bad_request message).
Definition required_uuid_header `{UuidText} (h : headers) (name message : str) : result N ApiError :=
  let? text := required_text_header h name message in ok_or (uuid_parse text) (bad_request message).

(** ** Validation *)

Definition check_protocol_version (version : Z) : result unit ApiError :=
  if (version =? RUNNER_PROTOCOL_VERSION)%Z then Ok tt else Err (bad_request §"unsupported_protocol_version").

Definition validate_registration_token (value : str) (configured : option str) : result unit ApiError :=
  let configured := c ← configured; let c := trim c in if is_empty c then None else Some c in
  match configured with
  | Some c => if str_eqb c (trim value) then Ok tt else Err unauthorized
  | None => Err (service_unavailable §"runner registration token is not configured")
  end.

Definition validate_name (name : str) : result unit ApiError :=
  if is_empty name || (MAX_NAME_LEN <? len name)%Z then Err (bad_request §"runner name must be 1..128 characters") else Ok tt.

Definition tag_byte (b : N) : bool := is_ascii_lowercase b || is_ascii_digit b || char_in §"._-" b.

Definition valid_tag (value : str) : bool :=
  match bytes value with
  | [] => false
  | first :: _ =>
    (len value <=? 63)%Z && (is_ascii_lowercase first || is_ascii_digit first) && forallb tag_byte (bytes value)
  end.

Definition bad_tags : ApiError := bad_request §"runner tags must match ^[a-z0-9][a-z0-9._-]{0,62}$ and max 64 items".

Definition normalize_tags (tags : list str) : result (list str) ApiError :=
  if (MAX_TAGS <? zlen tags)%Z then Err bad_tags
  else
    let tags := map trim tags in
    if forallb valid_tag tags then Ok (sort_dedup tags) else Err bad_tags.

Definition secret_byte (b : N) : bool := is_ascii_uppercase b || is_ascii_digit b || (b =? 95)%N.

Definition valid_secret_name (value : str) : bool :=
  match bytes value with
  | [] => false
  | first :: _ => (len value <=? 128)%Z && is_ascii_uppercase first && forallb secret_byte (bytes value)
  end.

Definition bad_secret_names : ApiError := bad_request §"secret names must match ^[A-Z][A-Z0-9_]{0,127}$ and require 1..64 items".

Definition normalize_secret_names (names : list str) : result (list str) ApiError :=
  if is_empty names || (MAX_SECRET_NAMES <? zlen names)%Z then Err bad_secret_names
  else
    let names := map trim names in
    if forallb valid_secret_name names then Ok (sort_dedup names) else Err bad_secret_names.

Definition validate_capacity (total_slots busy_slots : Z) : result unit ApiError :=
  if negb (in_range 1 1024 total_slots) || (busy_slots <? 0)%Z || (total_slots <? busy_slots)%Z
  then Err (bad_request §"capacity total_slots must be 1..1024 and busy_slots must be within total_slots")
  else Ok tt.

(** [RunnerPollRequest] *)
Record RunnerPollRequest : Type := {
  rp_protocol_version : Z; rp_free_slots : Z; rp_wait_seconds : Z; rp_tags : list str; rp_capability_digest : option str }.

Definition validate_poll_request (input : RunnerPollRequest) : result unit ApiError :=
  let? _ := normalize_tags (rp_tags input) in
  if negb (in_range 0 1024 (rp_free_slots input)) then Err (bad_request §"free_slots must be between 0 and 1024")
  else if negb (in_range 0 POLL_WAIT_MAX_SECONDS (rp_wait_seconds input)) then Err (bad_request §"wait_seconds must be between 0 and 30")
  else if match rp_capability_digest input with Some value => (128 <? len value)%Z | None => false end
  then Err (bad_request §"capability_digest must be at most 128 characters")
  else Ok tt.

(** ** Capabilities *)

Definition CURRENT_EXECUTOR_KIND : str := §"shell".

Section capabilities.
Context `{UuidText}.

(** The canonical identities of environments. *)
Definition helm_target (v : json) : option str :=
  value ← as_text v; id ← uuid_parse value; if (0 <? id)%N && str_eqb (uuid_text id) value then Some value else None.

Definition runner_helm_targets (capabilities : json) : list str :=
  match json_get capabilities §"helmTargets" ≫= as_array with Some values => omap helm_target values | None => [] end.

Definition bad_executor_kind (v : json) : option ApiError :=
  match as_text v with
  | None => Some (bad_request §"capabilities.executorKinds must contain executor names")
  | Some kind =>
    if valid_tag (trim kind) then None
    else Some (bad_request §"capabilities.executorKinds must match ^[a-z0-9][a-z0-9._-]{0,62}$")
  end.

Definition check_kinds (capabilities : json) (_ : unit) (capability : str) : result unit ApiError :=
  match json_get capabilities capability with
  | None => Ok tt
  | Some kinds =>
    match as_array kinds with
    | None => Err (bad_request §"capabilities.executorKinds must be an array")
    | Some kinds =>
      if (16 <? zlen kinds)%Z then Err (bad_request §"capabilities.executorKinds must contain at most 16 items")
      else match omap bad_executor_kind kinds with e :: _ => Err e | [] => Ok tt end
    end
  end.

Definition validate_capabilities (value : json) : result unit ApiError :=
  match as_object value with
  | None => Err (bad_request §"capabilities must be an object")
  | Some _ =>
    if match json_get value §"pipelineVariables" with Some v => negb (is_boolean v) | None => false end
    then Err (bad_request §"capabilities.pipelineVariables must be a boolean")
    else
      let? _ := match json_get value §"helmTargets" with
                | None => Ok tt
                | Some targets =>
                  match as_array targets with
                  | None => Err (bad_request §"capabilities.helmTargets must be an array")
                  | Some items =>
                    if (32 <? zlen items)%Z || negb (zlen (runner_helm_targets value) =? zlen items)%Z
                    then Err (bad_request §"capabilities.helmTargets requires at most 32 canonical environment UUIDs")
                    else Ok tt
                  end
                end in
      rfold (check_kinds value) tt [§"executorKinds"; §"jobKinds"]
  end.
End capabilities.

Definition default_capabilities : json := JsonObject [].

Definition runner_supports_executor (capabilities : json) (executor : str) : bool :=
  match json_get capabilities §"executorKinds" with
  | None => true
  | Some (JsonArray kinds) => existsb (fun kind => str_eqb (trim kind) executor) (omap as_text kinds)
  | Some _ => false
  end.

Definition selected_executor (capabilities : json) : option str :=
  if is_some (json_get capabilities §"executorKinds") && runner_supports_executor capabilities §"kubernetes" then Some §"kubernetes"
  else if runner_supports_executor capabilities CURRENT_EXECUTOR_KIND then Some CURRENT_EXECUTOR_KIND
  else None.

Definition runner_supports_job (capabilities : json) (kind : str) : bool :=
  match json_get capabilities §"jobKinds" ≫= as_array with
  | Some kinds => existsb (fun value => is_text value kind) kinds
  | None => false
  end.

(** ** The table *)

Inductive RunnerStatus : Type := RunnerOnline | RunnerOffline | RunnerPaused.
#[export] Instance RunnerStatus_eq_dec : EqDecision RunnerStatus.
Proof. solve_decision. Defined.

Record runner_row : Type := {
  ru_name : str;
  ru_tags : list str;
  ru_status : RunnerStatus;
  ru_draining : bool;
  ru_last_seen_at : option Z;
  ru_credential_hash : option str;
  ru_token_hint : option str;
  ru_credential_expires_at : option Z;
  ru_disabled_at : option Z;
  ru_capabilities : json;
  ru_total_slots : option Z;
  ru_busy_slots : option Z;
  ru_heartbeat_payload : json }.

(** [idx_runners_active_credential_hash]; the name is unique as well. *)
Definition same_credential (x y : runner_row) : bool :=
  match ru_credential_hash x, ru_credential_hash y with Some a, Some b => str_eqb a b | _, _ => false end
  && is_none (ru_disabled_at x) && is_none (ru_disabled_at y).

#[export] Instance runner_schema : Schema runner_row.
Proof.
  refine {| check _ := true; conflict x y := str_eqb (ru_name x) (ru_name y) || same_credential x y |}.
  intros x y. unfold same_credential, str_eqb. f_equal; [apply bool_decide_ext; done|].
  destruct (ru_credential_hash x), (ru_credential_hash y); cbn; try done. rewrite <- !andb_assoc. f_equal; [apply bool_decide_ext; done|apply andb_comm].
Defined.

Abbreviation runners := (gmap N runner_row).

(** [new_opaque_token] and [token_hint] *)
Definition new_opaque_token `{UuidText} (prefix : str) (a b : N) : str := prefix ++ §"_" ++ uuid_simple a ++ uuid_simple b.
Definition token_hint (value : str) : str := take 18 value ++ §"..." ++ rev (take 6 (rev value)).

Section registry.
Context `{UuidText} (hash_token : str -> str).

Record RunnerRegisterRequest : Type := {
  rr_protocol_version : Z; rr_registration_token : str; rr_name : str; rr_tags : list str; rr_capabilities : json }.

Definition new_runner (now : Z) (name : str) (tags : list str) (credential : str) (capabilities : json) : runner_row := {|
  ru_name := name; ru_tags := tags; ru_status := RunnerOffline; ru_draining := false; ru_last_seen_at := None;
  ru_credential_hash := Some (hash_token credential); ru_token_hint := Some (token_hint credential);
  ru_credential_expires_at := Some (now + CREDENTIAL_TTL_DAYS * day)%Z; ru_disabled_at := None; ru_capabilities := capabilities;
  ru_total_slots := None; ru_busy_slots := None; ru_heartbeat_payload := JsonObject [] |}.

(** [map_runner_insert_error]: the name is the constraint that is told. *)
Definition insert_runner (id : N) (r : runner_row) (t : runners) : result runners ApiError :=
  if exists_row (fun _ w => str_eqb (ru_name w) (ru_name r)) t then Err (conflict_error §"runner name already exists")
  else or_internal (insert_row id r t).

(** [register_runner_protocol]: the identity, the credential and its expiry.
    When the audit log refuses the entry, the runner stays. *)
Definition register_runner_protocol (now : Z) (configured : option str) (id a b : N) (audit : result unit ApiError)
    (input : RunnerRegisterRequest) (t : runners) : result (N * str * Z) ApiError * runners :=
  let checked :=
    let? _ := check_protocol_version (rr_protocol_version input) in
    let? _ := validate_registration_token (rr_registration_token input) configured in
    let name := trim (rr_name input) in
    let? _ := validate_name name in
    let? tags := normalize_tags (rr_tags input) in
    let? _ := validate_capabilities (rr_capabilities input) in
    let credential := new_opaque_token §"cicd_runner" a b in
    let? t' := insert_runner id (new_runner now name tags credential (rr_capabilities input)) t in
    Ok (credential, t') in
  match checked with
  | Ok (credential, t') =>
    match audit with
    | Ok _ => (Ok (id, credential, (now + CREDENTIAL_TTL_DAYS * day)%Z), t')
    | Err e => (Err e, t')
    end
  | Err e => (Err e, t)
  end.

(** [authenticate_runner] *)
Definition credential_valid (now : Z) (token_hash : str) (r : runner_row) : bool :=
  bool_decide (ru_credential_hash r = Some token_hash) && is_none (ru_disabled_at r)
  && match ru_credential_expires_at r with Some e => (now <? e)%Z | None => true end.

Definition authenticate_runner (now : Z) (h : headers) (t : runners) : result (N * runner_row) ApiError :=
  let? token := bearer_token h in
  ok_or (head (select (fun _ => credential_valid now (hash_token token)) t)) unauthorized.

Record RunnerHeartbeatRequest : Type := {
  hb_protocol_version : Z; hb_status : str; hb_draining : bool; hb_total_slots : Z; hb_busy_slots : Z; hb_tags : option (list str);
  hb_capabilities : json; hb_active_lease_ids : list N }.

Definition heartbeat_row (now : Z) (input : RunnerHeartbeatRequest) (tags : list str) (r : runner_row) : runner_row :=
  let draining := hb_draining input || str_eqb (hb_status input) §"draining" in {|
  ru_name := ru_name r; ru_tags := tags; ru_status := RunnerOnline; ru_draining := draining; ru_last_seen_at := Some now;
  ru_credential_hash := ru_credential_hash r; ru_token_hint := ru_token_hint r; ru_credential_expires_at := ru_credential_expires_at r;
  ru_disabled_at := ru_disabled_at r; ru_capabilities := hb_capabilities input; ru_total_slots := Some (hb_total_slots input);
  ru_busy_slots := Some (hb_busy_slots input);
  ru_heartbeat_payload := JsonObject [
    (§"protocolVersion", JsonNumber RUNNER_PROTOCOL_VERSION); (§"status", JsonText (hb_status input)); (§"draining", JsonBool draining);
    (§"capacity", JsonObject [(§"totalSlots", JsonNumber (hb_total_slots input)); (§"busySlots", JsonNumber (hb_busy_slots input))]);
    (§"tags", JsonArray (map JsonText tags)); (§"capabilities", hb_capabilities input);
    (§"activeLeaseIds", JsonArray (map (fun id => JsonText (uuid_text id)) (hb_active_lease_ids input)))] |}.

(** [runner_protocol_heartbeat] *)
Definition runner_protocol_heartbeat (now : Z) (h : headers) (input : RunnerHeartbeatRequest) (t : runners) : result runners ApiError :=
  let? _ := check_protocol_version (hb_protocol_version input) in
  let? _ := validate_capacity (hb_total_slots input) (hb_busy_slots input) in
  let? _ := validate_capabilities (hb_capabilities input) in
  let? runner := authenticate_runner now h t in
  let? tags := match hb_tags input with Some tags => normalize_tags tags | None => Ok (ru_tags runner.2) end in
  if negb (str_eqb (hb_status input) §"online" || str_eqb (hb_status input) §"draining")
  then Err (bad_request §"runner status must be online or draining")
  else Ok (update_where (fun k r => (k =? runner.1)%N && is_none (ru_disabled_at r)) (heartbeat_row now input tags) t).

(** [register_runner] of [platform.rs]: a runner without a credential. *)
Definition legacy_runner (name : str) (tags : list str) : runner_row := {|
  ru_name := trim name; ru_tags := tags; ru_status := RunnerOffline; ru_draining := false; ru_last_seen_at := None; ru_credential_hash := None;
  ru_token_hint := None; ru_credential_expires_at := None; ru_disabled_at := None; ru_capabilities := default_capabilities; ru_total_slots := None;
  ru_busy_slots := None; ru_heartbeat_payload := JsonObject [] |}.

Definition register_runner (id : N) (name : str) (tags : list str) (audit : result unit ApiError) (t : runners) :
    result (N * runner_row) ApiError * runners :=
  if is_empty (trim name) then (Err (bad_request §"runner name is required"), t)
  else
    match insert_row id (legacy_runner name tags) t with
    | Ok t' => (let? _ := audit in Ok (id, legacy_runner name tags), t')
    | Err _ => (Err internal, t)
    end.

(** [delete_runner] of [platform.rs] *)
Definition delete_runner (id : N) (audit : result unit ApiError) (t : runners) : result N ApiError * runners :=
  match t !! id with Some _ => (let? _ := audit in Ok id, delete id t) | None => (Err not_found, t) end.

(** [poll_runner_tags] *)
Definition poll_runner_tags (runner : runner_row) (requested_tags : list str) : result (list str) ApiError :=
  let? requested := normalize_tags requested_tags in
  if is_empty requested then Ok (ru_tags runner)
  else if existsb (fun tag => negb (bool_decide (tag ∈ ru_tags runner))) requested
  then Err (bad_request §"poll tags must be a subset of current runner tags")
  else Ok requested.

(** [poll_runner_work] up to the first claim: the runner and its tags, or
    nothing when it takes no work; the runner was seen. *)
Definition seen_row (now : Z) (r : runner_row) : runner_row := {|
  ru_name := ru_name r; ru_tags := ru_tags r; ru_status := ru_status r; ru_draining := ru_draining r; ru_last_seen_at := Some now;
  ru_credential_hash := ru_credential_hash r; ru_token_hint := ru_token_hint r; ru_credential_expires_at := ru_credential_expires_at r;
  ru_disabled_at := ru_disabled_at r; ru_capabilities := ru_capabilities r; ru_total_slots := ru_total_slots r; ru_busy_slots := ru_busy_slots r;
  ru_heartbeat_payload := ru_heartbeat_payload r |}.

Definition begin_poll (now : Z) (h : headers) (input : RunnerPollRequest) (t : runners) : result (option (N * runner_row * list str)) ApiError * runners :=
  let checked :=
    let? _ := check_protocol_version (rp_protocol_version input) in
    let? _ := validate_poll_request input in
    let? runner := authenticate_runner now h t in
    let? tags := poll_runner_tags runner.2 (rp_tags input) in
    Ok (runner, tags) in
  match checked with
  | Err e => (Err e, t)
  | Ok ((id, r), tags) =>
    if negb (bool_decide (ru_status r = RunnerOnline)) || ru_draining r || (rp_free_slots input =? 0)%Z then (Ok None, t)
    else (Ok (Some (id, r, tags)), update_where (fun k r => (k =? id)%N && is_none (ru_disabled_at r)) (seen_row now) t)
  end.
End registry.

(** ** Typed jobs and their frozen plan *)

(** The columns of [ClaimedWork] these checks read. *)
Record ClaimedWork : Type := {
  cw_job_name : str; cw_image : str; cw_command : str; cw_commit_sha : option str; cw_required_secrets : list str;
  cw_artifact_paths : list str; cw_plan_sha256 : option str }.

Section typed.
(** [Sha256] of bytes in hexadecimal, [serde_json::to_vec], and the derived
    readers of the two specifications. *)
Context `{UrlCrate} (sha256_hex : list N -> str) (to_vec : json -> option (list N)).
Context (read_publish : json -> option ImagePublishSpec) (read_deploy : json -> option HelmDeploySpec).

Definition valid_typed_plan_source (plan : json) (config_source : str) : bool :=
  (str_eqb config_source §"repository" || str_eqb config_source §"development_workspace")
  && is_text (json_index plan §"config_source") config_source.

Definition plan_entry (plan : json) (job : str) : option json :=
  items ← as_array (json_index plan §"jobs"); head (List.filter (fun entry => is_text (json_index entry §"key") job) items).

(** The conditions both checks share. *)
Definition plan_agrees (row : ClaimedWork) (plan entry : json) (plan_bytes : list N) (plan_hash config_hash raw_config : str)
    (resolved_commit : option str) (config_source command image : str) (artifacts : list str) : bool :=
  is_text (json_index plan §"format") §"v1-dag" && is_number (json_index plan §"version") 1
  && valid_typed_plan_source plan config_source
  && match cw_commit_sha row with Some s => valid_commit s | None => false end
  && bool_decide (resolved_commit = cw_commit_sha row)
  && bool_decide (as_text (json_index plan §"resolved_commit_sha") = resolved_commit)
  && str_eqb (sha256_hex plan_bytes) plan_hash && bool_decide (cw_plan_sha256 row = Some plan_hash)
  && str_eqb (sha256_hex (bytes raw_config)) config_hash
  && str_eqb (cw_command row) command && is_text (json_index entry §"command") (cw_command row)
  && str_eqb (cw_image row) image && is_text (json_index entry §"image") (cw_image row)
  && is_texts (json_index entry §"commands") [] && is_texts (json_index entry §"required_secrets") []
  && is_empty (cw_required_secrets row) && is_bool (json_index entry §"allow_failure") false
  && bool_decide (cw_artifact_paths row = artifacts) && is_texts (json_index entry §"artifact_paths") artifacts.

Definition publish_invalid : ApiError := conflict_error §"Image publication differs from its immutable execution plan".
Definition deploy_invalid : ApiError := conflict_error §"Helm deployment differs from its immutable execution plan".

Definition validated_image_publish (row : ClaimedWork) (plan : json) (plan_hash config_hash raw_config : str) (resolved_commit : option str)
    (config_source : str) : result ImagePublishSpec ApiError :=
  let? entry := ok_or (plan_entry plan (cw_job_name row)) publish_invalid in
  let? spec := ok_or (read_publish (json_index entry §"image_publish")) publish_invalid in
  let? _ := match ImagePublishSpec_validate spec with Ok u => Ok u | Err m => Err (conflict_error m) end in
  let? plan_bytes := ok_or (to_vec plan) publish_invalid in
  if plan_agrees row plan entry plan_bytes plan_hash config_hash raw_config resolved_commit config_source §"forge:image-publish"
       §"forge:runner-image-publish" [ip_descriptor_artifact spec; ip_published_artifact spec]
  then Ok spec else Err publish_invalid.

Definition validated_helm_deploy (row : ClaimedWork) (plan : json) (plan_hash config_hash raw_config : str) (resolved_commit : option str)
    (config_source : str) : result HelmDeploySpec ApiError :=
  let? entry := ok_or (plan_entry plan (cw_job_name row)) deploy_invalid in
  let? spec := ok_or (read_deploy (json_index entry §"helm_deploy")) deploy_invalid in
  let? _ := match HelmDeploySpec_validate spec with Ok u => Ok u | Err m => Err (conflict_error m) end in
  let? plan_bytes := ok_or (to_vec plan) deploy_invalid in
  if plan_agrees row plan entry plan_bytes plan_hash config_hash raw_config resolved_commit config_source §"forge:helm-deploy"
       §"forge:runner-helm-deploy" [hd_receipt_artifact spec]
  then Ok spec else Err deploy_invalid.
End typed.

(** ** Normalised lists *)

Lemma normalize_tags_spec tags tags' : normalize_tags tags = Ok tags' <->
  (zlen tags <= MAX_TAGS)%Z /\ (forall x, x ∈ tags -> valid_tag (trim x) = true) /\ tags' = sort_dedup (map trim tags).
Proof.
  unfold normalize_tags. destruct (Z.ltb_spec MAX_TAGS (zlen tags)) as [Hl|Hl].
  { split; [done|]. intros [Hz _]. lia. }
  destruct (forallb valid_tag (map trim tags)) eqn:E.
  - split; [|by intros (_ & _ & ->)]. intros [= <-]. split_and!; [done| |done].
    intros x Hx. apply (proj1 (forallb_iff _ _) E). apply list_elem_of_fmap. by exists x.
  - split; [done|]. intros (_ & Hall & _). assert (Ht : forallb valid_tag (map trim tags) = true); [|by rewrite Ht in E].
    apply forallb_iff. intros x (y & -> & Hy)%list_elem_of_fmap. by apply Hall.
Qed.

(** Normalising again changes nothing. *)
Lemma normalize_tags_idemp tags tags' : normalize_tags tags = Ok tags' -> normalize_tags tags' = Ok tags'.
Proof.
  rewrite !normalize_tags_spec. intros (Hl & Hv & ->).
  assert (Ht : forall x, x ∈ sort_dedup (map trim tags) -> trim x = x /\ valid_tag x = true).
  { intros x. rewrite elem_of_sort_dedup. intros (y & -> & Hy)%list_elem_of_fmap. split; [apply trim_matches_idemp|by apply Hv]. }
  split_and!.
  - unfold zlen in *. assert (length (sort_dedup (map trim tags)) <= length tags); [|lia].
    rewrite <- (length_map trim tags). apply submseteq_length, NoDup_submseteq; [apply NoDup_sort_dedup|]. intros x Hx. exact (proj1 (elem_of_sort_dedup _ _) Hx).
  - intros x Hx. destruct (Ht x Hx) as [-> ?]. done.
  - apply sort_dedup_ext. intros x. split.
    + intros Hx. apply list_elem_of_fmap. exists x. rewrite elem_of_sort_dedup. split; [|done]. symmetry. apply Ht. by rewrite elem_of_sort_dedup.
    + intros (y & -> & Hy)%list_elem_of_fmap. destruct (Ht y Hy) as [-> _]. by rewrite elem_of_sort_dedup in Hy.
Qed.

(** ** Credentials *)

Section credentials.
Context `{UuidText} (hash_token : str -> str).
(** The simple text of an identifier has no spaces. *)
Hypothesis simple_text : forall u c, c ∈ uuid_simple u -> is_whitespace c = false.

Lemma opaque_trim a b : trim (new_opaque_token §"cicd_runner" a b) = new_opaque_token §"cicd_runner" a b.
Proof.
  apply trim_no_space. intros c. unfold new_opaque_token. rewrite !elem_of_app. intros [Hc|[Hc|[Hc|Hc]]]; [| |by eapply simple_text..].
  1,2: assert (Hs : forallb (fun x => negb (is_whitespace x)) (§"cicd_runner" ++ §"_") = true) by (vm_compute; reflexivity);
    apply negb_true_iff; apply (proj1 (forallb_iff _ _) Hs); apply elem_of_app; auto.
Qed.

Definition presents (h : headers) (credential : str) : Prop := h §"authorization" = Some (§"Bearer " ++ credential).

Lemma presents_bearer h a b : presents h (new_opaque_token §"cicd_runner" a b) ->
  bearer_token h = Ok (new_opaque_token §"cicd_runner" a b).
Proof.
  intros Hp. unfold bearer_token. rewrite Hp. assert (E : strip_prefix §"Bearer " (§"Bearer " ++ new_opaque_token §"cicd_runner" a b)
    = Some (new_opaque_token §"cicd_runner" a b)) by (by apply strip_prefix_Some). rewrite E, opaque_trim. done.
Qed.

(** A credential stands for at most one runner. *)
Lemma authenticate_spec now h t id r : valid_table t ->
  authenticate_runner hash_token now h t = Ok (id, r) <->
  exists token, bearer_token h = Ok token /\ t !! id = Some r /\ credential_valid now (hash_token token) r = true.
Proof.
  intros Hv. unfold authenticate_runner. split.
  - intros (token & Ht & Hr%ok_or_Ok)%rbind_Ok_inv. exists token. split; [done|].
    apply head_Some_elem_of, elem_of_select in Hr. done.
  - intros (token & -> & Hr & Hc). cbn [rbind]. apply ok_or_Ok.
    assert (Hin : (id, r) ∈ select (fun _ => credential_valid now (hash_token token)) t) by (by apply elem_of_select).
    destruct (select _ t) as [|[i w] l] eqn:E; [by apply elem_of_nil in Hin|]. cbn [head]. f_equal.
    assert (Hi : (i, w) ∈ select (fun _ => credential_valid now (hash_token token)) t) by (rewrite E; left).
    apply elem_of_select in Hi as [Hi Hw]. assert (i = id) as ->; [|congruence]. destruct (decide (i = id)) as [|Hne]; [done|].
    pose proof (vt_unique _ Hv i id w r Hne Hi Hr) as Hu. cbn in Hu. apply orb_false_iff in Hu as [_ Hu]. unfold same_credential in Hu.
    unfold credential_valid in Hw, Hc. rewrite !andb_true_iff in Hw, Hc. destruct Hw as [[Hw%bool_decide_eq_true_1 Hw2] _], Hc as [[Hc%bool_decide_eq_true_1 Hc2] _].
    rewrite Hw, Hc, Hw2, Hc2, str_eqb_refl in Hu. done.
Qed.

(** *** The registry *)

(** The identifiers in use come from a generator that never repeats one. *)
Record registry : Type := { rg_table : runners; rg_used : gset N }.

Inductive registry_step : registry -> registry -> Prop :=
| rg_register now configured id a b audit input g : id ∉ rg_used g ->
    registry_step g {| rg_table := (register_runner_protocol hash_token now configured id a b audit input (rg_table g)).2; rg_used := {[id]} ∪ rg_used g |}
| rg_legacy id name tags audit g : id ∉ rg_used g ->
    registry_step g {| rg_table := (register_runner id name tags audit (rg_table g)).2; rg_used := {[id]} ∪ rg_used g |}
| rg_heartbeat now h input t g : runner_protocol_heartbeat hash_token now h input (rg_table g) = Ok t ->
    registry_step g {| rg_table := t; rg_used := rg_used g |}
| rg_poll now h input g : registry_step g {| rg_table := (begin_poll hash_token now h input (rg_table g)).2; rg_used := rg_used g |}
| rg_delete id audit g : registry_step g {| rg_table := (delete_runner id audit (rg_table g)).2; rg_used := rg_used g |}.

Definition registry_wf (g : registry) : Prop := valid_table (rg_table g) /\ forall id r, rg_table g !! id = Some r -> id ∈ rg_used g.

(** What never changes of a runner. *)
Definition same_identity (r r' : runner_row) : Prop :=
  ru_name r' = ru_name r /\ ru_credential_hash r' = ru_credential_hash r /\ ru_credential_expires_at r' = ru_credential_expires_at r /\
  ru_disabled_at r' = ru_disabled_at r.

Lemma register_spec now configured id a b audit input t res t' :
  register_runner_protocol hash_token now configured id a b audit input t = (res, t') ->
  (t' = t /\ exists e, res = Err e) \/
  exists name tags, normalize_tags (rr_tags input) = Ok tags /\ name = trim (rr_name input) /\
    insert_row id (new_runner hash_token now name tags (new_opaque_token §"cicd_runner" a b) (rr_capabilities input)) t = Ok t' /\
    res = match audit with Ok _ => Ok (id, new_opaque_token §"cicd_runner" a b, (now + CREDENTIAL_TTL_DAYS * day)%Z) | Err e => Err e end.
Proof.
  unfold register_runner_protocol. intros E.
  match type of E with context [match ?m with Ok _ => _ | Err _ => _ end] => destruct m as [[credential u]|e] eqn:Ec end; [|injection E as <- <-; left; eauto].
  right. apply rbind_Ok_inv in Ec as (_ & _ & Ec). apply rbind_Ok_inv in Ec as (_ & _ & Ec). apply rbind_Ok_inv in Ec as (_ & _ & Ec).
  apply rbind_Ok_inv in Ec as (tags & Htags & Ec). apply rbind_Ok_inv in Ec as (_ & _ & Ec). apply rbind_Ok_inv in Ec as (v & Hv & [= <- <-]).
  exists (trim (rr_name input)), tags. split_and!; [done|done| |].
  - unfold insert_runner in Hv. destruct (exists_row _ t); [done|]. unfold or_internal in Hv. destruct (insert_row _ _ t) as [w|]; [|done]. injection Hv as ->.
    destruct audit; by injection E as <- <-.
  - destruct audit; by injection E as <- <-.
Qed.

(** A change of rows that keeps their identity. *)
Lemma identity_update p f t : (forall r, same_identity r (f r)) -> valid_table t -> valid_table (update_where p f t).
Proof.
  intros Hf. apply update_where_valid; [done|]. intros x y. destruct (Hf x) as (En & Ec & _ & Ed). cbn. unfold same_credential. by rewrite En, Ec, Ed.
Qed.

Definition evolves (t t' : runners) : Prop := forall id r', t' !! id = Some r' -> exists r, t !! id = Some r /\ same_identity r r'.

Lemma runners_evolve_refl t : evolves t t.
Proof. intros id r Hr. by exists r. Qed.

Lemma evolves_update p f t : (forall r, same_identity r (f r)) -> evolves t (update_where p f t).
Proof.
  intros Hf id r' (r & Hr & ->)%update_where_Some. exists r. split; [done|]. destruct (p id r); [apply Hf|done].
Qed.

(** A step creates the runner of a fresh identifier, or creates none. *)
Lemma registry_step_spec g g' : registry_wf g -> registry_step g g' ->
  registry_wf g' /\ rg_used g ⊆ rg_used g' /\
  forall id r', rg_table g' !! id = Some r' -> id ∉ rg_used g \/ exists r, rg_table g !! id = Some r /\ same_identity r r'.
Proof.
  intros [Hv Hu] Hs.
  assert (Hold : forall t, valid_table t -> evolves (rg_table g) t -> registry_wf {| rg_table := t; rg_used := rg_used g |} /\ rg_used g ⊆ rg_used g /\
    forall id r', t !! id = Some r' -> id ∉ rg_used g \/ exists r, rg_table g !! id = Some r /\ same_identity r r').
  { intros t Ht He. split_and!; [split; [done|]|done|]; cbn; intros id r' Hr; [|right; by apply He].
    destruct (He id r' Hr) as (r & Hr0 & _). by eapply Hu. }
  assert (Hnew : forall id row t, insert_row id row (rg_table g) = Ok t -> registry_wf {| rg_table := t; rg_used := {[id]} ∪ rg_used g |} /\
    rg_used g ⊆ {[id]} ∪ rg_used g /\ forall j r', t !! j = Some r' -> id ∉ rg_used g -> j ∉ rg_used g \/ exists r, rg_table g !! j = Some r /\ same_identity r r').
  { intros id row t Hi. pose proof (insert_row_valid _ _ _ _ Hv Hi) as Ht. apply insert_row_Ok in Hi as (Hn & -> & _). split_and!; [split; [done|]|set_solver|].
    - intros j r'. cbn. rewrite lookup_insert_Some. intros [[<- _]|[_ Hj]]; [set_solver|]. apply elem_of_union_r. by eapply Hu.
    - intros j r'. rewrite lookup_insert_Some. intros [[<- _]|[_ Hj]] Hf; [by left|right; by exists r']. }
  destruct Hs as [now cf id a b au input g Hf|id name tags au g Hf|now h input t g Hr|now h input g|id au g]; cbn [rg_table rg_used].
  - destruct (register_runner_protocol hash_token now cf id a b au input (rg_table g)) as [res t'] eqn:E. cbn [snd].
    destruct (register_spec _ _ _ _ _ _ _ _ _ _ E) as [[-> _]|(name & tags & _ & _ & Hi & _)].
    + split_and!; [split; [done|]|set_solver|intros j r' Hj; right; by exists r']. intros j r' Hj. cbn. apply elem_of_union_r. by eapply Hu.
    + destruct (Hnew _ _ _ Hi) as (H1 & H2 & H3). split_and!; [done|done|]. intros j r' Hj. by apply H3.
  - unfold register_runner. assert (Hkeep : registry_wf {| rg_table := rg_table g; rg_used := {[id]} ∪ rg_used g |} /\ rg_used g ⊆ {[id]} ∪ rg_used g /\
      forall j r', rg_table g !! j = Some r' -> j ∉ rg_used g \/ exists r, rg_table g !! j = Some r /\ same_identity r r').
    { split_and!; [split; [done|]|set_solver|intros j r' Hj; right; by exists r']. intros j r' Hj. cbn. apply elem_of_union_r. by eapply Hu. }
    destruct (is_empty (trim name)); [exact Hkeep|]. destruct (insert_row _ _ (rg_table g)) as [w|] eqn:Hi; [|exact Hkeep]. cbn [snd].
    destruct (Hnew _ _ _ Hi) as (H1 & H2 & H3). split_and!; [done|done|]. intros j r' Hj. by apply H3.
  - unfold runner_protocol_heartbeat in Hr. do 5 (apply rbind_Ok_inv in Hr as (? & _ & Hr)). destruct (negb _); [done|]. injection Hr as <-.
    apply Hold; [by apply identity_update|by apply evolves_update].
  - assert (Ht : (begin_poll hash_token now h input (rg_table g)).2 = rg_table g \/ exists p, (begin_poll hash_token now h input (rg_table g)).2 = update_where p (seen_row now) (rg_table g)).
    { unfold begin_poll. match goal with |- context [match ?m with Ok _ => _ | Err _ => _ end] => destruct m as [[[id r] tags]|e] end; [|by left].
      destruct (negb _ || _ || _); [by left|right]. by eexists. }
    destruct Ht as [->|[p ->]]; [by apply Hold, runners_evolve_refl|]. apply Hold; [by apply identity_update|by apply evolves_update].
  - unfold delete_runner. destruct (rg_table g !! id); cbn [snd]; [|by apply Hold, runners_evolve_refl]. apply Hold.
    + split; [intros j x [_ Hj]%lookup_delete_Some; by eapply vt_check|].
      intros i j x y Hij [_ Hi]%lookup_delete_Some [_ Hj]%lookup_delete_Some. by eapply (vt_unique _ Hv i j).
    + intros j r' [_ Hj]%lookup_delete_Some. by exists r'.
Qed.

Lemma registry_steps_spec g g' : registry_wf g -> rtc registry_step g g' ->
  registry_wf g' /\ rg_used g ⊆ rg_used g' /\ forall id r', rg_table g' !! id = Some r' -> id ∈ rg_used g -> exists r, rg_table g !! id = Some r /\ same_identity r r'.
Proof.
  intros Hw Hs. induction Hs as [g|g1 g2 g3 H12 H23 IH]; [split_and!; [done|done|intros id r Hr _; by exists r]|].
  destruct (registry_step_spec _ _ Hw H12) as (Hw2 & Hu & Hn). destruct (IH Hw2) as (Hw3 & Hu3 & Hn3). split_and!; [done|set_solver|].
  intros id r' Hr Hin. destruct (Hn3 id r' Hr) as (r2 & Hr2 & (E1 & E2 & E3 & E4)); [set_solver|]. destruct (Hn id r2 Hr2) as [Hf|(r & Hr0 & (F1 & F2 & F3 & F4))]; [done|].
  exists r. split; [done|]. unfold same_identity. by rewrite E1, E2, E3, E4.
Qed.

(** The credential a registration answers is the
    key of exactly its runner, for thirty days and for as long as the runner is
    not deleted, whatever other runners and requests do: presenting it
    authenticates the runner until it expires and is refused afterwards, and
    nothing whose hash differs authenticates the runner. *)
Theorem runner_credentials now configured id a b audit input g t credential expires g' now' h :
  registry_wf g -> id ∉ rg_used g ->
  register_runner_protocol hash_token now configured id a b audit input (rg_table g) = (Ok (id, credential, expires), t) ->
  rtc registry_step {| rg_table := t; rg_used := {[id]} ∪ rg_used g |} g' ->
  expires = (now + CREDENTIAL_TTL_DAYS * day)%Z /\
  (forall r, rg_table g' !! id = Some r -> presents h credential ->
     authenticate_runner hash_token now' h (rg_table g') = if (now' <? expires)%Z then Ok (id, r) else Err unauthorized) /\
  (forall r, authenticate_runner hash_token now' h (rg_table g') = Ok (id, r) ->
     (now' < expires)%Z /\ exists token, bearer_token h = Ok token /\ hash_token token = hash_token credential).
Proof.
  intros Hw Hf E Hs. destruct (register_spec _ _ _ _ _ _ _ _ _ _ E) as [[_ [e ?]]|(name & tags & _ & _ & Hi & Hres)]; [done|].
  destruct audit; [|done]. injection Hres as -> ->. split; [done|]. set (credential := new_opaque_token §"cicd_runner" a b) in *.
  set (expires := (now + CREDENTIAL_TTL_DAYS * day)%Z). set (row := new_runner _ _ _ _ _ _) in Hi.
  pose proof (insert_row_valid _ _ _ _ (proj1 Hw) Hi) as Ht. apply insert_row_Ok in Hi as (_ & -> & _ & Hcf).
  assert (Hw1 : registry_wf {| rg_table := <[id := row]> (rg_table g); rg_used := {[id]} ∪ rg_used g |}).
  { split; [done|]. cbn. intros j r'. rewrite lookup_insert_Some. intros [[<- _]|[_ Hj]]; [set_solver|]. apply elem_of_union_r. by eapply (proj2 Hw). }
  destruct (registry_steps_spec _ _ Hw1 Hs) as ([Hv' _] & _ & Hid). cbn [rg_table rg_used] in Hid.
  assert (Hrow : forall r, rg_table g' !! id = Some r -> same_identity row r).
  { intros r Hr. destruct (Hid id r Hr) as (r0 & Hr0 & Hsame); [set_solver|]. rewrite lookup_insert_eq in Hr0. by injection Hr0 as <-. }
  assert (Hvalid : forall r token, rg_table g' !! id = Some r -> credential_valid now' (hash_token token) r = true <-> hash_token token = hash_token credential /\ (now' < expires)%Z).
  { intros r token Hr. destruct (Hrow r Hr) as (_ & Ec & Ee & Ed). unfold credential_valid. rewrite Ec, Ee, Ed. cbn.
    rewrite !andb_true_iff, bool_decide_eq_true, Z.ltb_lt. split; [by intros [[[= ->] _] ?]|by intros [-> ?]]. }
  split.
  - intros r Hr Hp. destruct (Z.ltb_spec now' expires) as [Hlt|Hge].
    + apply (authenticate_spec now' h _ id r Hv'). exists credential. split_and!; [by apply presents_bearer|done|by apply Hvalid].
    + unfold authenticate_runner. rewrite (presents_bearer h a b Hp). cbn [rbind]. fold credential.
      destruct (select (fun _ => credential_valid now' (hash_token credential)) (rg_table g')) as [|[j w] l] eqn:Es; [done|]. exfalso.
      assert (Hj : (j, w) ∈ select (fun _ => credential_valid now' (hash_token credential)) (rg_table g')) by (rewrite Es; left).
      apply elem_of_select in Hj as [Hj Hc]. destruct (decide (j = id)) as [->|Hne].
      { apply (Hvalid w credential Hj) in Hc as [_ ?]. lia. }
      pose proof (vt_unique _ Hv' j id w r Hne Hj Hr) as Hu. cbn in Hu. apply orb_false_iff in Hu as [_ Hu]. unfold same_credential in Hu.
      unfold credential_valid in Hc. rewrite !andb_true_iff in Hc. destruct Hc as [[Hc%bool_decide_eq_true_1 Hd] _].
      destruct (Hrow r Hr) as (_ & Ec & _ & Ed). rewrite Hc, Hd, Ec, Ed in Hu. cbn in Hu. by rewrite str_eqb_refl in Hu.
  - intros r (token & Htok & Hr & Hc)%authenticate_spec; [|done]. apply (Hvalid r token Hr) in Hc as [? ?]. split; [done|by exists token].
Qed.
End credentials.

#[local] Instance plain_uuid : UuidText := {
  uuid_text u := [(u + 200)%N]; uuid_simple u := [(u + 20000)%N];
  uuid_parse s := match s with [u] => Some (u - 200)%N | _ => None end;
  uuid_parse_text a := f_equal Some (N.add_sub a 200) }.

Lemma plain_simple_text u c : c ∈ uuid_simple u -> is_whitespace c = false.
Proof.
  cbn. rewrite list_elem_of_singleton. intros ->. apply not_true_iff_false. unfold is_whitespace, between.
  rewrite !orb_true_iff, !andb_true_iff, !N.leb_le, !N.eqb_eq. lia.
Qed.

Definition sample_request : RunnerRegisterRequest := {|
  rr_protocol_version := 1; rr_registration_token := §"secret"; rr_name := §" builder "; rr_tags := [§"linux"; §"docker"; §"linux"];
  rr_capabilities := default_capabilities |}.

Definition sample_registration := register_runner_protocol id 0 (Some §"secret") 7 1 2 (Ok tt) sample_request ∅.

Lemma runner_credentials_witness : exists credential t r,
  sample_registration = (Ok (7%N, credential, (30 * day)%Z), t) /\ t !! 7%N = Some r /\ ru_tags r = [§"docker"; §"linux"] /\
  authenticate_runner id (5 * day)%Z (fun name => if str_eqb name §"authorization" then Some (§"Bearer " ++ credential) else None) t = Ok (7%N, r).
Proof.
  assert (E : sample_registration = (Ok (7%N, new_opaque_token §"cicd_runner" 1 2, (30 * day)%Z), sample_registration.2)) by (vm_compute; reflexivity).
  assert (Hr : exists r, sample_registration.2 !! 7%N = Some r /\ ru_tags r = [§"docker"; §"linux"]) by (eexists; split; vm_compute; reflexivity).
  destruct Hr as (r & Hr & Ht). exists (new_opaque_token §"cicd_runner" 1 2), sample_registration.2, r. split; [exact E|]. split; [exact Hr|]. split; [exact Ht|].
  assert (Hw : registry_wf {| rg_table := ∅; rg_used := ∅ |}) by (split; [apply valid_table_empty|intros id0 r0 H0; discriminate H0]).
  destruct (runner_credentials id plain_simple_text 0 (Some §"secret") 7 1 2 (Ok tt) sample_request _ sample_registration.2 _ _
    {| rg_table := sample_registration.2; rg_used := {[7%N]} ∪ ∅ |} (5 * day)%Z
    (fun name => if str_eqb name §"authorization" then Some (§"Bearer " ++ new_opaque_token §"cicd_runner" 1 2) else None)
    Hw (not_elem_of_empty 7%N) E (rtc_refl _ _)) as (_ & H2 & _).
  exact (H2 r Hr eq_refl).
Defined.
