(* ===== verification/Uploads.v ===== *)
(** * Artifacts and their upload sessions

    Artifacts are rows with a file; a runner uploads one in chunks under a
    session of its lease.  The handlers of [backend/src/runner_protocol.rs]
    and [platform.rs] with the tables of migration 0027.  What the disk, the
    commit and the confirmation of the owner answer are arguments; [clock] is
    the time an admission of the owner ends, and [tm i] the time of the [i]th
    look at it. *)
From S2P Require Import Prelude Status Table Ledger Outbox Api Runners.

Definition ARTIFACT_UPLOAD_BYTES : Z := 52428800.
Definition ARTIFACT_CHUNK_BYTES : Z := 8388608.

(** ** Rows *)

Inductive session_status : Type := SessionOpen | SessionCompleted | SessionAborted.
#[export] Instance session_status_eq_dec : EqDecision session_status.
Proof. solve_decision. Defined.

Record session_row : Type := {
  us_lease : N; us_attempt : N; us_job : N; us_runner : N; us_path : str; us_name : str; us_content_type : str;
  us_declared : Z; us_received : Z; us_highest : Z; us_status : session_status; us_artifact : option N }.

(** [UNIQUE (attempt_id, artifact_path)] *)
#[export] Instance session_schema : Schema session_row.
Proof.
  refine {| check _ := true; conflict x y := (us_attempt x =? us_attempt y)%N && str_eqb (us_path x) (us_path y) |}.
  intros x y. rewrite N.eqb_sym. f_equal. unfold str_eqb. by apply bool_decide_ext.
Defined.

Record chunk_row : Type := { ck_offset : Z; ck_length : Z; ck_sha256 : str }.

Record artifact_row : Type := {
  ar_job : N; ar_attempt : N; ar_name : str; ar_storage_path : str; ar_content_type : str; ar_sha256 : option str; ar_size : Z;
  ar_expires_at : Z; ar_purged_at : option Z }.

(** [artifacts_sha256_format] *)
#[export] Instance artifact_schema : Schema artifact_row.
Proof. refine {| check a := match ar_sha256 a with Some s => lower_hex s 64 | None => true end; conflict _ _ := false |}. done. Defined.

(** The tables, and the files below the root of the artifacts. *)
Record store : Type := {
  sessions : gmap N session_row;
  chunks : gmap (N * Z) chunk_row;
  blobs : gmap (N * Z) (list N);
  artifacts : gmap N artifact_row;
  files : gmap str (list N) }.

Definition set_sessions (t : gmap N session_row) (s : store) : store :=
  {| sessions := t; chunks := chunks s; blobs := blobs s; artifacts := artifacts s; files := files s |}.
Definition set_chunk (k : N * Z) (c : chunk_row) (b : list N) (s : store) : store := {|
  sessions := sessions s;
  chunks := match chunks s !! k with Some _ => chunks s | None => <[k := c]> (chunks s) end;
  blobs := match blobs s !! k with Some _ => blobs s | None => <[k := b]> (blobs s) end;
  artifacts := artifacts s; files := files s |}.
Definition set_artifacts (t : gmap N artifact_row) (s : store) : store :=
  {| sessions := sessions s; chunks := chunks s; blobs := blobs s; artifacts := t; files := files s |}.
Definition set_files (f : gmap str (list N)) (s : store) : store :=
  {| sessions := sessions s; chunks := chunks s; blobs := blobs s; artifacts := artifacts s; files := f |}.

Definition set_progress (received highest : Z) (r : session_row) : session_row := {|
  us_lease := us_lease r; us_attempt := us_attempt r; us_job := us_job r; us_runner := us_runner r; us_path := us_path r; us_name := us_name r;
  us_content_type := us_content_type r; us_declared := us_declared r; us_received := received; us_highest := highest; us_status := us_status r;
  us_artifact := us_artifact r |}.
Definition set_session (st : session_status) (artifact : option N) (r : session_row) : session_row := {|
  us_lease := us_lease r; us_attempt := us_attempt r; us_job := us_job r; us_runner := us_runner r; us_path := us_path r; us_name := us_name r;
  us_content_type := us_content_type r; us_declared := us_declared r; us_received := us_received r; us_highest := us_highest r; us_status := st;
  us_artifact := artifact |}.

(** ** Commits *)

(** A failed commit may have been applied. *)
Inductive commit : Type := Committed | CommitFailed (e : ApiError) (applied : bool).

Definition commit_to {A S} (c : commit) (a : A) (s s' : S) : result A ApiError * S :=
  match c with
  | Committed => (Ok a, s')
  | CommitFailed e applied => (Err e, if applied then s' else s)
  end.

(** [GitDeadline::require] *)
Definition require_clock (clock : option Z) (now : Z) : result unit ApiError :=
  match clock with Some until => if (now <? until)%Z then Ok tt else Err unauthorized | None => Ok tt end.

(** ** The lease of a session *)

(** [lease_artifact_row], the statement: the job of a live lease. *)
Definition lease_artifact_row (now : Z) (lease runner : N) (token_hash : str) (fencing : Z) (attempt : N) (l : ledger) : option N :=
  r ← leases l !! lease;
  j ← jobs (core l) !! le_job r;
  a ← attempts l !! le_attempt r;
  if held now runner token_hash fencing r && (le_attempt r =? attempt)%N && is_some (le_acknowledged_at r)
     && bool_decide (job_status j = Running) && bool_decide (at_status a = Running)
  then Some (le_job r) else None.

Section lease.
Context (policy_required : bool) (confirm : N -> N -> result (option Z) ApiError).

(** [lease_owner_clock] *)
Definition owner_clock (now : Z) (lease runner : N) (token_hash : str) (fencing : Z) (l : ledger) : result (option Z) ApiError :=
  let selected := r ← leases l !! lease;
                  p ← pipeline_of_job l (le_job r);
                  if held now runner token_hash fencing r then Some (p, le_attempt r) else None in
  match selected with
  | Some (pipeline, attempt) => confirm pipeline attempt
  | None => if policy_required then Err (gone §"lease is no longer active") else Ok None
  end.

Definition lease_artifact (now : Z) (lease runner : N) (token_hash : str) (fencing : Z) (attempt : N) (l : ledger) :
    result (N * option Z) ApiError :=
  let? job := ok_or (lease_artifact_row now lease runner token_hash fencing attempt l) (gone §"lease is no longer active") in
  let? clock := owner_clock now lease runner token_hash fencing l in
  let? _ := require_clock clock now in
  Ok (job, clock).
End lease.

(** ** Sessions *)

Record BeginResponse : Type := { br_session : N; br_chunk_size : Z; br_received : Z; br_highest : Z }.

Definition open_session_of (attempt : N) (path : str) (s : store) : option (N * session_row) :=
  head (select (fun _ r => (us_attempt r =? attempt)%N && str_eqb (us_path r) path && bool_decide (us_status r = SessionOpen)) (sessions s)).

(** The transaction of [begin_artifact_upload_session]; [id] is a fresh
    identifier. *)
Definition begin_tx (clock : option Z) (now : Z) (c : commit) (id lease attempt job runner : N) (path name : str) (content_type : option str)
    (declared : Z) (s : store) : result BeginResponse ApiError * store :=
  match open_session_of attempt path s with
  | Some (k, r) =>
    (let? _ := require_clock clock now in
     Ok {| br_session := k; br_chunk_size := ARTIFACT_CHUNK_BYTES; br_received := us_received r; br_highest := us_highest r |}, s)
  | None =>
    let row := {| us_lease := lease; us_attempt := attempt; us_job := job; us_runner := runner; us_path := path; us_name := name;
                  us_content_type := default §"application/octet-stream" content_type; us_declared := declared; us_received := 0; us_highest := -1;
                  us_status := SessionOpen; us_artifact := None |} in
    match insert_row id row (sessions s) with
    | Err _ => (Err internal, s)
    | Ok t => commit_to c {| br_session := id; br_chunk_size := ARTIFACT_CHUNK_BYTES; br_received := 0; br_highest := -1 |} s (set_sessions t s)
    end
  end.

(** The row of a session for the caller. *)
Definition session_of (id attempt runner lease : N) (s : store) : option session_row :=
  r ← sessions s !! id;
  if (us_attempt r =? attempt)%N && (us_runner r =? runner)%N && (us_lease r =? lease)%N then Some r else None.

Record SessionStatus : Type := { st_received : Z; st_highest : Z; st_persisted : list Z }.

(** The transaction of [append_artifact_upload_chunk]. *)
Definition append_tx (c : commit) (id attempt runner lease : N) (index : Z) (sha : str) (body : list N) (s : store) :
    result SessionStatus ApiError * store :=
  match session_of id attempt runner lease s with
  | None => (Err not_found, s)
  | Some r =>
    if negb (bool_decide (us_status r = SessionOpen)) then (Err (conflict_error §"artifact session is not open"), s)
    else if negb (index =? us_highest r + 1)%Z then (Err (conflict_error §"chunk index must extend the sequential high-water mark"), s)
    else if (us_declared r <? us_received r + zlen body)%Z then (Err (bad_request §"chunk overruns declared artifact size"), s)
    else if (i32_max <? index)%Z then (Err internal, s)
    else
      let received := (us_received r + zlen body)%Z in
      commit_to c {| st_received := received; st_highest := index; st_persisted := [index] |} s
        (set_sessions (<[id := set_progress received index r]> (sessions s))
           (set_chunk (id, index) {| ck_offset := us_received r; ck_length := zlen body; ck_sha256 := sha |} body s))
  end.

(** The transaction of [abort_artifact_upload_session]. *)
Definition abort_tx (c : commit) (id runner lease : N) (s : store) : result SessionStatus ApiError * store :=
  match sessions s !! id with
  | Some r =>
    if (us_runner r =? runner)%N && (us_lease r =? lease)%N && bool_decide (us_status r = SessionOpen)
    then commit_to c {| st_received := 0; st_highest := -1; st_persisted := [] |} s
           (set_sessions (<[id := set_session SessionAborted (us_artifact r) r]> (sessions s)) s)
    else (Err not_found, s)
  | None => (Err not_found, s)
  end.

(** The chunks of a session with their data, in the order of their offsets. *)
Definition offset_order (x y : Z * list N) : Prop := (x.1 <= y.1)%Z.
#[export] Instance offset_order_dec : RelDecision offset_order.
Proof. intros x y. unfold offset_order. apply _. Defined.
#[export] Instance offset_order_total : Total offset_order.
Proof. intros x y. unfold offset_order. lia. Qed.
#[export] Instance offset_order_trans : Transitive offset_order.
Proof. intros x y z. unfold offset_order. lia. Qed.

Definition chunk_data (id : N) (s : store) : list (Z * list N) :=
  omap (fun kc => if (kc.1.1 =? id)%N then data ← blobs s !! kc.1; Some (ck_offset kc.2, data) else None) (map_to_list (chunks s)).
Definition assembled (id : N) (s : store) : list N := flat_map snd (merge_sort offset_order (chunk_data id s)).

(** What a completion reads before it stores: the artifact of a session that
    is complete already, or what to store. *)
Record pending_artifact : Type := { pa_session : N; pa_attempt : N; pa_job : N; pa_name : str; pa_content_type : str; pa_body : list N }.

Section artifacts.
Context `{UuidText} (sha256_hex : list N -> str).

Definition complete_read (id attempt runner lease : N) (expected : option str) (s : store) :
    result (N * artifact_row + pending_artifact) ApiError :=
  let? r := ok_or (session_of id attempt runner lease s) not_found in
  if bool_decide (us_status r = SessionCompleted) then
    let? artifact := ok_or (k ← us_artifact r; a ← artifacts s !! k; Some (k, a)) (conflict_error §"session completed but artifact is gone") in
    Ok (inl artifact)
  else if negb (bool_decide (us_status r = SessionOpen)) then Err (conflict_error §"artifact session is not open")
  else if negb (us_received r =? us_declared r)%Z then Err (conflict_error §"received bytes do not match the declared artifact size")
  else
    let body := assembled id s in
    if negb (zlen body =? us_declared r)%Z then Err (internal_with_message §"assembled artifact size mismatch")
    else if match expected with Some e => negb (eq_ignore_ascii_case e (sha256_hex body)) | None => false end
    then Err (bad_request §"assembled artifact sha256 mismatch")
    else Ok (inr {| pa_session := id; pa_attempt := attempt; pa_job := us_job r; pa_name := us_name r; pa_content_type := us_content_type r; pa_body := body |}).

(** ** Artifacts *)

Definition valid_artifact_name (name : str) : bool :=
  negb (is_empty name) && (len name <=? 255)%Z && negb (contains_char 47 name) && negb (contains_char 92 name) && negb (contains_char 34 name)
  && negb (existsb is_control name).

(** [new_artifact_path] *)
Definition artifact_file (root : str) (id : N) : str := root ++ §"/" ++ uuid_text id ++ §".bin".

(** What the disk answers to the creation and to the writing of a file. *)
Record disk : Type := { dk_root : result str ApiError; dk_write : result unit ApiError }.

(** The session a publication completes: taken already, open, or refused. *)
Definition lock_session (session : option N) (attempt : N) (s : store) : result (option N) ApiError :=
  match session with
  | None => Ok None
  | Some id =>
    match sessions s !! id with
    | Some r =>
      if negb (us_attempt r =? attempt)%N then Err (conflict_error §"Artifact upload session is not open")
      else match us_status r, us_artifact r with
           | SessionCompleted, Some k => Ok (Some k)
           | SessionOpen, _ => Ok None
           | _, _ => Err (conflict_error §"Artifact upload session is not open")
           end
    | None => Err (conflict_error §"Artifact upload session is not open")
    end
  end.

Definition complete_session (session : option N) (attempt id : N) (s : store) : store :=
  match session with
  | Some k =>
    set_sessions (update_where (fun i r => (i =? k)%N && (bool_decide (us_status r = SessionOpen) && (us_attempt r =? attempt)%N))
                    (set_session SessionCompleted (Some id)) (sessions s)) s
  | None => s
  end.

(** [store_job_artifact_with_config] for a known attempt; [id] is fresh, the
    artifact expires at [expires], [audit] is the entry of the audit log, and
    [readback] tells whether the row was looked up after a failed commit. *)
Definition store_job_artifact (d : disk) (policy_required : bool) (clock : option Z) (tm : nat -> Z) (audit : result unit ApiError) (c : commit)
    (readback : bool) (id job attempt : N) (name content_type : str) (body : list N) (expires : Z) (session : option N) (s : store) :
    result (N * artifact_row) ApiError * store :=
  let checked :=
    if is_empty body || (ARTIFACT_UPLOAD_BYTES <? zlen body)%Z then Err (bad_request §"artifact must be between 1 byte and 50 MiB")
    else if negb (valid_artifact_name (trim name)) then Err (bad_request §"invalid artifact name")
    else if is_empty (trim content_type) then Err (bad_request §"artifact content-type is required")
    else if policy_required && is_none clock then Err (service_unavailable §"Artifact admission confirmation missing")
    else
      let? _ := require_clock clock (tm 0) in
      let? taken := lock_session session attempt s in
      match taken with
      | Some k => let? _ := require_clock clock (tm 1) in let? a := ok_or (artifacts s !! k) internal in Ok (inl (k, a))
      | None => let? root := dk_root d in let? _ := require_clock clock (tm 2) in Ok (inr (artifact_file root id))
      end in
  match checked with
  | Err e => (Err e, s)
  | Ok (inl a) => (Ok a, s)
  | Ok (inr path) =>
    let a := {| ar_job := job; ar_attempt := attempt; ar_name := trim name; ar_storage_path := path; ar_content_type := trim content_type;
                ar_sha256 := Some (sha256_hex body); ar_size := zlen body; ar_expires_at := expires; ar_purged_at := None |} in
    let written :=
      let? _ := match files s !! path with Some _ => Err internal | None => dk_write d end in
      let? _ := require_clock clock (tm 3) in
      let? t := or_internal (insert_row id a (artifacts s)) in
      let? _ := audit in
      let? _ := require_clock clock (tm 4) in
      Ok (complete_session session attempt id (set_artifacts t s)) in
    match written with
    | Err e => (Err e, s)
    | Ok s' =>
      let kept := set_files (<[path := body]> (files s)) in
      match c with
      | Committed => (Ok (id, a), kept s')
      | CommitFailed e applied => (Err e, if applied then kept s' else if readback then s else kept s)
      end
    end
  end.

(** [download_artifact]: content type, name and data. *)
Definition download_artifact (now : Z) (contained : str -> bool) (id : N) (s : store) : result (str * str * list N) ApiError :=
  let? a := ok_or (artifacts s !! id) not_found in
  if is_some (ar_purged_at a) || (ar_expires_at a <=? now)%Z then Err not_found
  else if negb (contained (ar_storage_path a)) then Err not_found
  else
    let? data := ok_or (files s !! ar_storage_path a) not_found in
    if match ar_sha256 a with Some expected => negb (str_eqb (sha256_hex data) expected) | None => false end
    then Err (conflict_error §"artifact checksum mismatch")
    else Ok (ar_content_type a, ar_name a, data).

(** ** Retention *)

Definition expired_artifact (now : Z) (_ : N) (a : artifact_row) : bool := is_none (ar_purged_at a) && (ar_expires_at a <=? now)%Z.
Definition expiry_order (x y : N * artifact_row) : Prop := (ar_expires_at x.2 < ar_expires_at y.2)%Z \/ ar_expires_at x.2 = ar_expires_at y.2 /\ (x.1 <= y.1)%N.
#[export] Instance expiry_order_dec : RelDecision expiry_order.
Proof. intros x y. unfold expiry_order. apply _. Defined.

Definition purge_candidates (now limit : Z) (locked : N -> bool) (s : store) : list (N * artifact_row) :=
  take (Z.to_nat (Z.min (Z.max limit 1) 1000))
    (merge_sort expiry_order (List.filter (fun kv => negb (locked kv.1)) (select (expired_artifact now) (artifacts s)))).

Definition purge (now : Z) (a : artifact_row) : artifact_row := {|
  ar_job := ar_job a; ar_attempt := ar_attempt a; ar_name := ar_name a; ar_storage_path := ar_storage_path a; ar_content_type := ar_content_type a;
  ar_sha256 := ar_sha256 a; ar_size := ar_size a; ar_expires_at := ar_expires_at a; ar_purged_at := Some now |}.

(** One candidate: an unsafe path or a failing deletion is skipped. *)
Definition purge_one (now : Z) (safe removable : str -> bool) (acc : store * Z) (kv : N * artifact_row) : store * Z :=
  let path := ar_storage_path kv.2 in
  if safe path && removable path
  then (set_artifacts (update_where (fun k a => (k =? kv.1)%N && expired_artifact now k a) (purge now) (artifacts acc.1))
          (set_files (delete path (files acc.1)) acc.1), (acc.2 + 1)%Z)
  else acc.

(** [purge_expired_artifacts_with_config]: the files go at once, the rows with
    the commit. *)
Definition purge_expired_artifacts (now limit : Z) (locked : N -> bool) (safe removable : str -> bool) (c : commit) (s : store) :
    result Z ApiError * store :=
  let r := foldl (purge_one now safe removable) (s, 0%Z) (purge_candidates now limit locked s) in
  match c with
  | Committed => (Ok r.2, r.1)
  | CommitFailed e applied => (Err e, if applied then r.1 else set_files (files r.1) s)
  end.

(** ** Requests *)

Section requests.
Context (hash_token : str -> str) (policy_required : bool) (confirm : N -> N -> result (option Z) ApiError).
(** The declared artifacts of a job. *)
Context (artifact_paths : N -> list str).

Record session_request : Type := { sr_protocol_version : Z; sr_lease_token : str; sr_fencing_token : Z; sr_attempt : N }.

Definition validate_session_request (input : session_request) : result unit ApiError :=
  let? _ := check_protocol_version (sr_protocol_version input) in
  if (sr_fencing_token input <? 1)%Z || is_empty (trim (sr_lease_token input)) then Err (bad_request §"lease token and fencing token are required")
  else Ok tt.

Definition session_lease (now : Z) (lease : N) (authenticated : result N ApiError) (input : session_request) (l : ledger) :
    result (N * N * option Z) ApiError :=
  let? runner := authenticated in
  let? r := lease_artifact policy_required confirm now lease runner (hash_token (trim (sr_lease_token input))) (sr_fencing_token input) (sr_attempt input) l in
  Ok (runner, r.1, r.2).

(** [begin_artifact_upload_session]; [later] is the time of its answer. *)
Definition begin_artifact_upload_session (now later : Z) (c : commit) (id lease : N) (authenticated : result N ApiError) (input : session_request)
    (path name : str) (content_type : option str) (declared : Z) (l : ledger) (s : store) : result BeginResponse ApiError * store :=
  let admitted :=
    let? _ := validate_session_request input in
    if (declared <? 0)%Z || (ARTIFACT_UPLOAD_BYTES <? declared)%Z then Err (bad_request §"declared artifact size out of range")
    else
      let? r := session_lease now lease authenticated input l in
      if bool_decide (path ∈ artifact_paths r.1.2) then Ok r else Err forbidden in
  match admitted with
  | Err e => (Err e, s)
  | Ok (runner, job, clock) => begin_tx clock later c id lease (sr_attempt input) job runner path name content_type declared s
  end.

(** The headers of a chunk. *)
Record chunk_request : Type := { cq_lease_token : str; cq_fencing : Z; cq_attempt : N; cq_index : Z; cq_sha256 : str }.

Definition chunk_headers (h : headers) : result chunk_request ApiError :=
  let? version := required_i32_header h §"x-runner-protocol-version" §"runner protocol version header is required" in
  let? _ := check_protocol_version version in
  let? token := required_text_header h §"x-lease-token" §"lease token header is required" in
  let? fencing := required_i64_header h §"x-fencing-token" §"fencing token header is required" in
  let? attempt := required_uuid_header h §"x-attempt-id" §"attempt id header is required" in
  let? index := required_i64_header h §"x-chunk-index" §"chunk index header is required" in
  let? sha := required_text_header h §"x-chunk-sha256" §"chunk sha256 header is required" in
  if (fencing <? 1)%Z then Err (bad_request §"fencing token is required")
  else if (index <? 0)%Z then Err (bad_request §"chunk index must be non-negative")
  else Ok {| cq_lease_token := token; cq_fencing := fencing; cq_attempt := attempt; cq_index := index; cq_sha256 := sha |}.

(** [append_artifact_upload_chunk] *)
Definition append_artifact_upload_chunk (now : Z) (c : commit) (lease session : N) (authenticated : result N ApiError) (h : headers) (body : list N)
    (l : ledger) (s : store) : result SessionStatus ApiError * store :=
  let admitted :=
    let? q := chunk_headers h in
    if (ARTIFACT_CHUNK_BYTES <? zlen body)%Z then Err (bad_request §"chunk body exceeds the 8 MiB chunk cap")
    else if negb (eq_ignore_ascii_case (cq_sha256 q) (sha256_hex body)) then Err (bad_request §"chunk sha256 mismatch")
    else
      let? runner := authenticated in
      let? _ := lease_artifact policy_required confirm now lease runner (hash_token (cq_lease_token q)) (cq_fencing q) (cq_attempt q) l in
      Ok (q, runner) in
  match admitted with
  | Err e => (Err e, s)
  | Ok (q, runner) => append_tx c session (cq_attempt q) runner lease (cq_index q) (cq_sha256 q) body s
  end.

(** [complete_artifact_upload_session]: what it reads, and the whole. *)
Definition complete_found (now : Z) (lease session : N) (authenticated : result N ApiError) (input : session_request) (expected : option str) (l : ledger)
    (s : store) : result ((N * artifact_row + pending_artifact) * option Z) ApiError :=
  let? _ := validate_session_request input in
  let? r := session_lease now lease authenticated input l in
  let? found := complete_read session (sr_attempt input) r.1.1 lease expected s in
  Ok (found, r.2).

Definition complete_artifact_upload_session (now : Z) (d : disk) (tm : nat -> Z) (audit : result unit ApiError) (c : commit) (readback : bool)
    (id : N) (expires : Z) (lease session : N) (authenticated : result N ApiError) (input : session_request) (expected : option str) (l : ledger) (s : store) :
    result (N * artifact_row) ApiError * store :=
  match complete_found now lease session authenticated input expected l s with
  | Err e => (Err e, s)
  | Ok (inl artifact, _) => (Ok artifact, s)
  | Ok (inr p, clock) =>
    store_job_artifact d policy_required clock tm audit c readback id (pa_job p) (pa_attempt p) (pa_name p) (pa_content_type p) (pa_body p)
      expires (Some (pa_session p)) s
  end.

(** [abort_artifact_upload_session] *)
Definition abort_artifact_upload_session (now : Z) (c : commit) (lease session : N) (authenticated : result N ApiError) (input : session_request)
    (l : ledger) (s : store) : result SessionStatus ApiError * store :=
  let admitted :=
    let? _ := validate_session_request input in
    session_lease now lease authenticated input l in
  match admitted with
  | Err e => (Err e, s)
  | Ok (runner, _, _) => abort_tx c session runner lease s
  end.
End requests.
End artifacts.
