(* ===== verification/UploadSafety.v ===== *)
(** * Upload sessions: no byte is lost, moved or invented

    The handlers of [Uploads] in any interleaving, with any answer of the
    commits and the disk.  The data of a session are the concatenation of the
    chunks it accepted, in the order of their indices; a completion stores
    exactly these. *)
From Stdlib Require Import Sorting.Sorted.
From S2P Require Import Prelude Status Table Ledger Outbox Api Runners Uploads.
Local Open Scope Z_scope.

(** ** Lists *)

Lemma zlen_nonneg {A} (l : list A) : 0 <= zlen l.
Proof. unfold zlen. lia. Qed.
Lemma zlen_nil {A} : zlen ([] : list A) = 0.
Proof. done. Qed.
Lemma zlen_app {A} (l k : list A) : zlen (l ++ k) = zlen l + zlen k.
Proof. unfold zlen. rewrite length_app. lia. Qed.

Lemma NoDup_omap_inj {A B} (f : A -> option B) l :
  NoDup l -> (forall x y z, x ∈ l -> y ∈ l -> f x = Some z -> f y = Some z -> x = y) -> NoDup (omap f l).
Proof.
  induction 1 as [|x l Hx Hl IH]; intros Hinj; cbn; [constructor|].
  assert (Hl' : NoDup (omap f l)) by (apply IH; intros a b z Ha Hb; apply Hinj; by right).
  destruct (f x) as [z|] eqn:E; [|done]. constructor; [|done]. intros (y & Hy & Ey)%list_elem_of_omap.
  apply Hx. rewrite (Hinj x y z); [done|left|by right|done|done].
Qed.

Lemma omap_map_snd {A B K} (f : A -> option B) (k : A -> K) l :
  omap f l = map snd (omap (fun x => (k x,.) <$> f x) l).
Proof. induction l as [|x l IH]; [done|]. cbn. destruct (f x); cbn; by rewrite IH. Qed.

(** The chunks with their offsets. *)
Fixpoint offsets (o : Z) (parts : list (list N)) : list (Z * list N) :=
  match parts with [] => [] | p :: ps => (o, p) :: offsets (o + zlen p) ps end.

Lemma offsets_lookup parts o i :
  offsets o parts !! i = (fun p => (o + zlen (concat (take i parts)), p)) <$> parts !! i.
Proof.
  revert o i. induction parts as [|p ps IH]; intros o [|i]; cbn; [done|done|by rewrite Z.add_0_r|].
  rewrite IH, zlen_app. destruct (ps !! i); cbn; [|done]. by rewrite Z.add_assoc.
Qed.

Lemma offsets_ge parts o x : x ∈ offsets o parts -> o <= x.1.
Proof.
  revert o. induction parts as [|p ps IH]; intros o; cbn; [by intros ?%elem_of_nil|].
  intros [->|Hx]%elem_of_cons; cbn; [lia|]. apply IH in Hx. pose proof (zlen_nonneg p). lia.
Qed.

Lemma offsets_unique parts o x y :
  x ∈ offsets o parts -> y ∈ offsets o parts -> x.2 <> [] -> y.2 <> [] -> x.1 = y.1 -> x = y.
Proof.
  revert o. induction parts as [|p ps IH]; intros o; cbn; [by intros ?%elem_of_nil|].
  assert (Hpos : p <> [] -> 0 < zlen p) by (intros ?; destruct p; [done|]; unfold zlen; cbn; lia).
  intros [->|Hx]%elem_of_cons [->|Hy]%elem_of_cons; cbn; intros Nx Ny E; try done.
  - apply offsets_ge in Hy. specialize (Hpos Nx). lia.
  - apply offsets_ge in Hx. specialize (Hpos Ny). lia.
  - by apply (IH (o + zlen p)).
Qed.

Lemma offsets_sorted parts o : StronglySorted offset_order (offsets o parts).
Proof.
  revert o. induction parts as [|p ps IH]; intros o; cbn; constructor; [done|].
  apply Forall_forall. intros x Hx. apply offsets_ge in Hx. pose proof (zlen_nonneg p). unfold offset_order. cbn. lia.
Qed.

Lemma offsets_data parts o : flat_map snd (offsets o parts) = concat parts.
Proof. revert o. induction parts as [|p ps IH]; intros o; cbn; [done|]. by rewrite IH. Qed.

Abbreviation with_data := (filter (fun x : Z * list N => x.2 <> [])).

Lemma with_data_concat (l : list (Z * list N)) : flat_map snd (with_data l) = flat_map snd l.
Proof.
  induction l as [|[o [|b d]] l IH]; [done|..].
  - by rewrite filter_cons_False; [|intros []].
  - rewrite filter_cons_True by done. cbn. by rewrite IH.
Qed.

Lemma StronglySorted_filter (P : Z * list N -> Prop) `{!forall x, Decision (P x)} l :
  StronglySorted offset_order l -> StronglySorted offset_order (filter P l).
Proof.
  induction 1 as [|x l Hl IH Hx]; [constructor|]. destruct (decide (P x)).
  - rewrite filter_cons_True by done. constructor; [done|]. apply Forall_forall. intros y [_ Hy]%list_elem_of_filter.
    by apply (proj1 (Forall_forall _ _) Hx).
  - by rewrite filter_cons_False.
Qed.

(** Chunks of the same offset are empty but for one: the order the database
    leaves them in does not matter. *)
Lemma ordered_data parts (l : list (Z * list N)) :
  l ≡ₚ offsets 0 parts -> StronglySorted offset_order l -> flat_map snd l = concat parts.
Proof.
  intros Hp Hs. rewrite <- (offsets_data parts 0), <- (with_data_concat l), <- (with_data_concat (offsets _ _)). f_equal.
  apply (StronglySorted_unique_strong offset_order).
  - intros x y [Nx Hx]%list_elem_of_filter [Ny Hy]%list_elem_of_filter. unfold offset_order. intros H1 H2. rewrite Hp in Hx.
    apply (offsets_unique parts 0); [done..|lia].
  - by apply StronglySorted_filter.
  - apply StronglySorted_filter, offsets_sorted.
  - by rewrite Hp.
Qed.

(** ** The chunks of a session *)

Section safety.
Context `{UuidText} (sha256_hex : list N -> str).

(** The bodies a session accepted, in the order of their indices. *)
Definition accepted (id : N) (s : store) : list (list N) :=
  match sessions s !! id with
  | Some r => omap (fun i => blobs s !! (id, i)) (seqZ 0 (us_highest r + 1))
  | None => []
  end.

Definition body_at (parts : list (list N)) (i : Z) : option (list N) := if i <? 0 then None else parts !! Z.to_nat i.

Record session_parts (id : N) (r : session_row) (parts : list (list N)) (s : store) : Prop := {
  sp_highest : us_highest r = zlen parts - 1;
  sp_received : us_received r = zlen (concat parts);
  sp_declared : us_received r <= us_declared r <= ARTIFACT_UPLOAD_BYTES;
  sp_blobs : forall i, blobs s !! (id, i) = body_at parts i;
  sp_chunks : forall i, match body_at parts i with
              | Some b => exists c, chunks s !! (id, i) = Some c /\ ck_offset c = zlen (concat (take (Z.to_nat i) parts)) /\ ck_length c = zlen b /\
                          eq_ignore_ascii_case (ck_sha256 c) (sha256_hex b) = true
              | None => chunks s !! (id, i) = None
              end }.

Lemma omap_ext_in {A B} (f g : A -> option B) (l : list A) : (forall x, x ∈ l -> f x = g x) -> omap f l = omap g l.
Proof. induction l as [|x l IH]; intros E; cbn; [done|]. rewrite (E x) by left. rewrite IH; [done|]. intros y Hy. apply E. by right. Qed.

Lemma omap_body_at (parts : list (list N)) : omap (body_at parts) (seqZ 0 (zlen parts)) = parts.
Proof.
  induction parts as [|p parts IH] using rev_ind; [done|]. rewrite zlen_app, seqZ_app by (apply zlen_nonneg || done). rewrite omap_app. f_equal.
  - trans (omap (body_at parts) (seqZ 0 (zlen parts))); [|done]. apply omap_ext_in. intros i Hi%elem_of_seqZ. unfold body_at. destruct (Z.ltb_spec i 0); [done|].
    apply lookup_app_l. unfold zlen in Hi. lia.
  - change (seqZ (0 + zlen parts) (zlen [p])) with [0 + zlen parts]. rewrite Z.add_0_l. unfold body_at, zlen. cbn [omap list_omap].
    destruct (Z.ltb_spec (Z.of_nat (length parts)) 0); [lia|]. by rewrite Nat2Z.id, lookup_app_r, Nat.sub_diag by lia.
Qed.

Lemma accepted_parts id r parts s : sessions s !! id = Some r -> session_parts id r parts s -> accepted id s = parts.
Proof.
  intros Hr [Hh _ _ Hb _]. unfold accepted. rewrite Hr, Hh, Z.sub_add. trans (omap (body_at parts) (seqZ 0 (zlen parts))); [|apply omap_body_at].
  apply omap_ext_in. intros i _. apply Hb.
Qed.

Lemma body_at_Some parts i b : body_at parts i = Some b <-> exists n, i = Z.of_nat n /\ parts !! n = Some b.
Proof.
  unfold body_at. destruct (Z.ltb_spec i 0) as [Hi|Hi].
  - split; [done|]. intros (n & -> & _). lia.
  - split; [|intros (n & -> & E); by rewrite Nat2Z.id]. intros E. exists (Z.to_nat i). split; [lia|done].
Qed.

Lemma chunk_data_offsets id r parts s : session_parts id r parts s -> chunk_data id s ≡ₚ offsets 0 parts.
Proof.
  intros [_ _ _ Hb Hc]. unfold chunk_data. rewrite (omap_map_snd _ (fun kc => kc.1.2)).
  assert (Ho : offsets 0 parts = map snd (imap (fun i x => (Z.of_nat i, x)) (offsets 0 parts))).
  { generalize (offsets 0 parts). intros l. apply list_eq. intros i. rewrite list_lookup_fmap, list_lookup_imap. by destruct (l !! i). }
  rewrite Ho. clear Ho. apply Permutation_map, NoDup_Permutation.
  - apply NoDup_omap_inj; [apply NoDup_map_to_list|]. intros [[i1 j1] c1] [[i2 j2] c2] z H1%elem_of_map_to_list H2%elem_of_map_to_list. cbn.
    destruct (N.eqb_spec i1 id) as [->|]; [|done]. destruct (N.eqb_spec i2 id) as [->|]; [|done].
    destruct (blobs s !! (id, j1)), (blobs s !! (id, j2)); cbn; try done. intros [= <-] [= -> _ _]. congruence.
  - apply NoDup_alt. intros i j x. rewrite !list_lookup_imap. destruct (_ !! i), (_ !! j); cbn; try done. intros [= <-] [= E _]. lia.
  - intros [i [o d]]. rewrite list_elem_of_omap, elem_of_lookup_imap. split.
    + intros ([[k j] c] & Hin%elem_of_map_to_list & E). cbn in E. destruct (N.eqb_spec k id) as [->|]; [|done].
      destruct (blobs s !! (id, j)) as [b|] eqn:Eb; [|done]. injection E as <- <- <-. rewrite Hb in Eb. specialize (Hc j). rewrite Eb, Hin in Hc.
      destruct Hc as (c' & [= <-] & Eo & _). apply body_at_Some in Eb as (n & -> & Ep). exists n, (ck_offset c, b). split; [done|].
      rewrite offsets_lookup, Ep. cbn. by rewrite Eo, Nat2Z.id.
    + intros (n & x & [= -> <-] & Hx). rewrite offsets_lookup, fmap_Some in Hx. destruct Hx as (b & Ep & [= -> ->]).
      assert (Eb : body_at parts (Z.of_nat n) = Some b) by (apply body_at_Some; by exists n). pose proof (Hc (Z.of_nat n)) as Hn. rewrite Eb in Hn.
      destruct Hn as (c & Hc' & Eo & _). exists ((id, Z.of_nat n), c). split; [by apply elem_of_map_to_list|]. cbn.
      rewrite N.eqb_refl, Hb, Eb. cbn. by rewrite Eo, Nat2Z.id.
Qed.

Lemma assembled_parts id r parts s : session_parts id r parts s -> assembled id s = concat parts.
Proof.
  intros Hp. apply ordered_data; [|apply StronglySorted_merge_sort; apply _].
  rewrite merge_sort_Permutation. by eapply chunk_data_offsets.
Qed.

Lemma session_parts_frame id r r' parts s s' :
  (forall i, blobs s' !! (id, i) = blobs s !! (id, i)) -> (forall i, chunks s' !! (id, i) = chunks s !! (id, i)) ->
  us_highest r' = us_highest r -> us_received r' = us_received r -> us_declared r' = us_declared r ->
  session_parts id r parts s -> session_parts id r' parts s'.
Proof.
  intros Eb Ec Eh Er Ed [Hh Hr Hd Hb Hc]. split; rewrite ?Eh, ?Er, ?Ed; try done.
  - intros i. by rewrite Eb.
  - intros i. rewrite Ec. apply Hc.
Qed.

(** ** Artifacts *)

(** The file of an artifact that is not expired holds its body. *)
Record published (now : Z) (s : store) (a : artifact_row) (body : list N) : Prop := {
  pb_sha : ar_sha256 a = Some (sha256_hex body);
  pb_size : ar_size a = zlen body;
  pb_bounds : 1 <= zlen body <= ARTIFACT_UPLOAD_BYTES;
  pb_file : ar_purged_at a = None -> now < ar_expires_at a -> files s !! ar_storage_path a = Some body }.

(** The artifacts stay; only their purging is noted. *)
Definition artifacts_le (now : Z) (s : store) (now' : Z) (s' : store) : Prop :=
  forall k a, artifacts s !! k = Some a -> exists a', artifacts s' !! k = Some a' /\ (a' = a \/ ar_expires_at a <= now' /\ exists t, a' = purge t a) /\
    forall body, published now s a body -> published now' s' a' body.

Lemma artifacts_le_same now s s' :
  artifacts s' = artifacts s -> (forall path body, files s !! path = Some body -> files s' !! path = Some body) -> artifacts_le now s now s'.
Proof.
  intros Ea Ef k a Hk. exists a. rewrite Ea. split; [done|]. split; [by left|]. intros body [H1 H2 H3 H4]. split; try done. eauto.
Qed.

Definition closed_as (now : Z) (r : session_row) (parts : list (list N)) (s : store) : Prop :=
  match us_status r with
  | SessionCompleted => us_received r = us_declared r /\ exists k a, us_artifact r = Some k /\ artifacts s !! k = Some a /\
      ar_job a = us_job r /\ ar_attempt a = us_attempt r /\ ar_name a = trim (us_name r) /\ ar_content_type a = trim (us_content_type r) /\
      published now s a (concat parts)
  | _ => us_artifact r = None
  end.

Lemma closed_as_le now s now' s' r parts : artifacts_le now s now' s' -> closed_as now r parts s -> closed_as now' r parts s'.
Proof.
  intros Hle. unfold closed_as. destruct (us_status r); try done. intros (Er & k & a & Hk & Ha & E1 & E2 & E3 & E4 & Hp).
  destruct (Hle k a Ha) as (a' & Ha' & Hor & Hpub). split; [done|]. exists k, a'. rewrite Ha'.
  destruct Hor as [->|(_ & t & ->)]; cbn; eauto 10.
Qed.

(** What a completion has read. *)
Definition read_as (p : pending_artifact) (s : store) : Prop :=
  exists r parts, sessions s !! pa_session p = Some r /\ session_parts (pa_session p) r parts s /\ pa_body p = concat parts /\
    us_received r = us_declared r /\ pa_attempt p = us_attempt r /\ pa_job p = us_job r /\ pa_name p = us_name r /\ pa_content_type p = us_content_type r.

(** ** The invariant *)

Section invariant.
Context (root : str).

Record upload_system : Type := { up_store : store; up_now : Z; up_read : list pending_artifact }.

Definition artifact_ok (now : Z) (s : store) (k : N) (a : artifact_row) : Prop :=
  ar_storage_path a = artifact_file root k /\ (exists body, published now s a body) /\ (is_Some (ar_purged_at a) -> ar_expires_at a <= now).

Record store_inv (now : Z) (s : store) : Prop := {
  si_table : valid_table (sessions s);
  si_fresh : forall id i, sessions s !! id = None -> blobs s !! (id, i) = None /\ chunks s !! (id, i) = None;
  si_session : forall id r, sessions s !! id = Some r -> exists parts, session_parts id r parts s /\ closed_as now r parts s;
  si_artifacts : forall k a, artifacts s !! k = Some a -> artifact_ok now s k a }.

Definition system_inv (y : upload_system) : Prop :=
  store_inv (up_now y) (up_store y) /\ forall p, p ∈ up_read y -> read_as p (up_store y).

Lemma artifact_file_inj i j : artifact_file root i = artifact_file root j -> i = j.
Proof.
  unfold artifact_file. intros E. apply app_inv_head, app_inv_head in E. apply app_inv_tail in E. by apply uuid_text_inj in E.
Qed.

Lemma artifact_ok_le now s now' s' k a' :
  artifacts_le now s now' s' -> now <= now' -> (forall k a, artifacts s !! k = Some a -> artifact_ok now s k a) ->
  is_Some (artifacts s !! k) -> artifacts s' !! k = Some a' -> artifact_ok now' s' k a'.
Proof.
  intros Hle Hnow Hok [a Hk] Ha'. destruct (Hok k a Hk) as (Ep & (body & Hb) & Hx). destruct (Hle k a Hk) as (a2 & E & Hor & Hpub).
  rewrite Ha' in E. injection E as <-. destruct Hor as [->|(Hexp & t & ->)]; cbn; split; cbn; eauto; split; eauto with lia.
  intros Hs. specialize (Hx Hs). lia.
Qed.

(** Rows of sessions that keep their constraints. *)
Lemma sessions_update id r r' (t : gmap N session_row) :
  valid_table t -> t !! id = Some r -> us_attempt r' = us_attempt r -> us_path r' = us_path r -> valid_table (<[id := r']> t).
Proof.
  intros [Hc Hu] Hr Ea Ep. split; [done|]. intros i j x y Hij. rewrite !lookup_insert_Some.
  assert (Hx : forall z, conflict r' z = conflict r z) by (intros z; cbn; by rewrite Ea, Ep).
  intros [[Ei <-]|[Hi Hx1]] [[Ej <-]|[Hj Hy1]].
  - congruence.
  - rewrite Hx. eauto.
  - rewrite conflict_sym, Hx, conflict_sym. eauto.
  - eauto.
Qed.

(** ** What never changes *)

Definition fixed (r : session_row) := (us_lease r, us_attempt r, us_job r, us_runner r, us_path r, us_name r, us_content_type r, us_declared r).

(** A session keeps what it accepted; a closed one does not change. *)
Definition sessions_le (s s' : store) : Prop :=
  forall id r parts, sessions s !! id = Some r -> session_parts id r parts s -> exists r' parts', sessions s' !! id = Some r' /\
    session_parts id r' parts' s' /\ fixed r' = fixed r /\ parts `prefix_of` parts' /\ (us_status r <> SessionOpen -> r' = r /\ parts' = parts).

Record store_le (now : Z) (s : store) (now' : Z) (s' : store) : Prop := {
  le_sessions : sessions_le s s'; le_artifacts : artifacts_le now s now' s' }.

Definition advances (now : Z) (s : store) (now' : Z) (s' : store) : Prop :=
  store_inv now s -> store_inv now' s' /\ store_le now s now' s'.

Lemma sessions_le_frame s s' :
  sessions s' = sessions s -> blobs s' = blobs s -> chunks s' = chunks s -> sessions_le s s'.
Proof.
  intros Es Eb Ec id r parts Hr Hp. exists r, parts. rewrite Es. split; [done|]. split; [|done].
  apply (session_parts_frame id r r parts s); try done; intros i; by rewrite ?Eb, ?Ec.
Qed.

Lemma advances_same now s : advances now s now s.
Proof. intros Hi. split; [done|]. split; [by apply sessions_le_frame|by apply artifacts_le_same]. Qed.

Lemma artifacts_le_trans n1 s1 n2 s2 n3 s3 : n2 <= n3 -> artifacts_le n1 s1 n2 s2 -> artifacts_le n2 s2 n3 s3 -> artifacts_le n1 s1 n3 s3.
Proof.
  intros Hn H1 H2 k a Ha. destruct (H1 k a Ha) as (a2 & H2' & Hor2 & Hp2). destruct (H2 k a2 H2') as (a3 & H3' & Hor3 & Hp3).
  exists a3. split; [done|]. split; [|by intros body Hb; apply Hp3, Hp2].
  destruct Hor2 as [->|(? & t & ->)]; [done|]. right. split; [lia|]. destruct Hor3 as [->|(_ & u & ->)]; [by exists t|by exists u].
Qed.

Lemma sessions_le_trans s1 s2 s3 : sessions_le s1 s2 -> sessions_le s2 s3 -> sessions_le s1 s3.
Proof.
  intros H1 H2 id r parts Hr Hp. destruct (H1 id r parts Hr Hp) as (r2 & p2 & Hr2 & Hp2 & Ef2 & Hpre2 & Hc2).
  destruct (H2 id r2 p2 Hr2 Hp2) as (r3 & p3 & Hr3 & Hp3 & Ef3 & Hpre3 & Hc3). exists r3, p3. split; [done|]. split; [done|].
  split; [congruence|]. split; [by etrans|]. intros Hs. destruct (Hc2 Hs) as [-> ->]. by apply Hc3.
Qed.

Lemma advances_trans n1 s1 n2 s2 n3 s3 : n2 <= n3 -> advances n1 s1 n2 s2 -> advances n2 s2 n3 s3 -> advances n1 s1 n3 s3.
Proof.
  intros Hn H1 H2 Hi. destruct (H1 Hi) as [Hi2 [Ha Hb]]. destruct (H2 Hi2) as [Hi3 [Hc Hd]]. split; [done|].
  split; [by eapply sessions_le_trans|by eapply artifacts_le_trans].
Qed.

Lemma read_as_le s s' p : sessions_le s s' -> read_as p s -> read_as p s'.
Proof.
  intros Hle (r & parts & Hr & Hp & Eb & Ed & E1 & E2 & E3 & E4).
  destruct (Hle _ r parts Hr Hp) as (r' & parts' & Hr' & Hp' & Ef & [tail ->] & _). exists r', (parts ++ tail).
  injection Ef as _ Fa Fj _ _ Fn Fc Fd. pose proof (sp_received _ _ _ _ Hp) as H1. pose proof (sp_received _ _ _ _ Hp') as H2.
  pose proof (sp_declared _ _ _ _ Hp') as H3. rewrite concat_app, zlen_app in H2. pose proof (zlen_nonneg (concat tail)).
  assert (Et : concat tail = []) by (destruct (concat tail); [done|]; unfold zlen in *; cbn [length] in *; lia).
  split; [done|]. split; [done|]. split; [by rewrite concat_app, Et, app_nil_r|]. split; [|split_and!; congruence].
  rewrite Et, zlen_nil in H2. lia.
Qed.

(** ** Beginning, appending, aborting *)

Lemma begin_advances now s id row :
  sessions s !! id = None -> (forall i w, sessions s !! i = Some w -> conflict row w = false) ->
  us_received row = 0 -> us_highest row = -1 -> us_status row = SessionOpen -> us_artifact row = None ->
  0 <= us_declared row <= ARTIFACT_UPLOAD_BYTES -> advances now s now (set_sessions (<[id := row]> (sessions s)) s).
Proof.
  intros Hid Hc E1 E2 E3 E4 Hd [Ht Hf Hs Ha].
  assert (Hle : artifacts_le now s now (set_sessions (<[id := row]> (sessions s)) s)) by (by apply artifacts_le_same).
  split; [split; cbn|split; [|done]].
  - apply (insert_row_valid id row (sessions s)); [done|]. by apply insert_row_Ok.
  - intros i n. rewrite lookup_insert_None. intros [Hi _]. by apply Hf.
  - intros i r. rewrite lookup_insert_Some. intros [[<- <-]|[Hne Hi]].
    + exists []. split.
      * split; [by rewrite E2|by rewrite E1|by rewrite E1|..]; intros n; destruct (Hf id n Hid) as [Hb Hk]; unfold body_at; cbn.
        -- destruct (n <? 0); [done|]. by rewrite lookup_nil.
        -- destruct (n <? 0); [done|]. by rewrite lookup_nil.
      * unfold closed_as. by rewrite E3.
    + destruct (Hs i r Hi) as (parts & Hp & Hcl). exists parts. split; [by apply (session_parts_frame i r r parts s)|].
      by apply (closed_as_le now s now).
  - intros k a Hk. apply (artifact_ok_le now s now); [done|lia|exact Ha|by exists a|exact Hk].
  - intros i r parts Hr Hp. exists r, parts. cbn. rewrite lookup_insert_ne by congruence. split; [done|]. split; [|done].
    by apply (session_parts_frame i r r parts s).
Qed.

(** A write of one session and its chunks. *)
Lemma update_advances now s s' id r r' parts parts' :
  sessions s !! id = Some r -> session_parts id r parts s -> us_status r = SessionOpen ->
  sessions s' = <[id := r']> (sessions s) -> (forall i n, i <> id -> blobs s' !! (i, n) = blobs s !! (i, n) /\ chunks s' !! (i, n) = chunks s !! (i, n)) ->
  fixed r' = fixed r -> session_parts id r' parts' s' -> parts `prefix_of` parts' -> closed_as now r' parts' s' ->
  artifacts_le now s now s' -> (forall k a, artifacts s' !! k = Some a -> artifact_ok now s' k a) -> advances now s now s'.
Proof.
  intros Hr Hp Ho Es Ef Efix Hp' Hpre Hcl Hle Ha' [Ht Hf Hs Ha]. split; [split|split; [|done]].
  - rewrite Es. injection Efix as _ ? _ _ ? _ _ _. by apply (sessions_update id r).
  - intros i n. rewrite Es, lookup_insert_None. intros [Hi Hne]. destruct (Ef i n) as [-> ->]; [done|]. by apply Hf.
  - intros i w. rewrite Es, lookup_insert_Some. intros [[<- <-]|[Hne Hi]]; [by exists parts'|].
    destruct (Hs i w Hi) as (ps & Hps & Hc). exists ps. split; [|by apply (closed_as_le now s now)].
    apply (session_parts_frame i w w ps s); try done; intros n; by destruct (Ef i n).
  - done.
  - intros i w ps Hw Hps. rewrite Es. destruct (decide (i = id)) as [->|Hne].
    + exists r', parts'. rewrite lookup_insert_eq. assert (w = r) as -> by congruence.
      assert (ps = parts) as -> by (rewrite <- (accepted_parts id r ps s), <- (accepted_parts id r parts s); done).
      split_and!; try done.
    + exists w, ps. rewrite lookup_insert_ne by done. split; [done|]. split; [|done].
      apply (session_parts_frame i w w ps s); try done; intros n; by destruct (Ef i n).
Qed.

Lemma body_at_snoc parts b i : body_at (parts ++ [b]) i = if i =? zlen parts then Some b else body_at parts i.
Proof.
  unfold body_at, zlen. destruct (Z.ltb_spec i 0), (Z.eqb_spec i (Z.of_nat (length parts))) as [->|Hne]; try done; try lia.
  - by rewrite Nat2Z.id, lookup_app_r, Nat.sub_diag by lia.
  - destruct (decide (i < Z.of_nat (length parts))); [rewrite lookup_app_l by lia; done|]. rewrite lookup_app_r by lia.
    destruct (Z.to_nat i - length parts)%nat as [|k] eqn:E; [lia|]. cbn. symmetry. apply lookup_ge_None. lia.
Qed.

Lemma body_at_end parts : body_at parts (zlen parts) = None.
Proof. unfold body_at. destruct (Z.ltb_spec (zlen parts) 0); [done|]. apply lookup_ge_None. unfold zlen. lia. Qed.

Lemma append_parts id r parts s c body :
  session_parts id r parts s -> us_received r + zlen body <= us_declared r ->
  ck_offset c = us_received r -> ck_length c = zlen body -> eq_ignore_ascii_case (ck_sha256 c) (sha256_hex body) = true ->
  let index := us_highest r + 1 in
  session_parts id (set_progress (us_received r + zlen body) index r) (parts ++ [body])
    (set_sessions (<[id := set_progress (us_received r + zlen body) index r]> (sessions s)) (set_chunk (id, index) c body s)).
Proof.
  intros [Hh Hr Hd Hb Hc] Hle Eo El Es index. assert (Ei : index = zlen parts) by (unfold index; lia).
  assert (Hnb : blobs s !! (id, index) = None) by (rewrite Hb, Ei; apply body_at_end).
  assert (Hnc : chunks s !! (id, index) = None) by (specialize (Hc index); rewrite Ei, body_at_end in Hc; by rewrite Ei).
  split; cbn.
  - rewrite zlen_app. change (zlen [body]) with 1. lia.
  - by rewrite concat_app, zlen_app, Hr; cbn; rewrite app_nil_r.
  - pose proof (zlen_nonneg body). lia.
  - intros i. rewrite Hnb, body_at_snoc, <- Ei. destruct (Z.eqb_spec i index) as [->|Hne]; [by rewrite lookup_insert_eq|].
    rewrite lookup_insert_ne by congruence. apply Hb.
  - intros i. rewrite Hnc, body_at_snoc, <- Ei. destruct (Z.eqb_spec i index) as [->|Hne].
    + exists c. rewrite lookup_insert_eq. split; [done|]. split; [|done]. rewrite Eo, Hr, Ei. unfold zlen. rewrite Nat2Z.id.
      by rewrite take_app_length.
    + rewrite lookup_insert_ne by congruence. specialize (Hc i). destruct (body_at parts i) as [b|] eqn:Eb; [|done].
      apply body_at_Some in Eb as (n & -> & En). rewrite Nat2Z.id in *. destruct Hc as (c' & ? & ? & ?). exists c'. split; [done|].
      rewrite take_app_le; [done|]. apply lookup_lt_Some in En. lia.
Qed.

Lemma append_advances now s id r index sha body :
  sessions s !! id = Some r -> us_status r = SessionOpen -> index = us_highest r + 1 -> us_received r + zlen body <= us_declared r ->
  eq_ignore_ascii_case sha (sha256_hex body) = true ->
  advances now s now (set_sessions (<[id := set_progress (us_received r + zlen body) index r]> (sessions s))
    (set_chunk (id, index) {| ck_offset := us_received r; ck_length := zlen body; ck_sha256 := sha |} body s)).
Proof.
  intros Hr Ho -> Hle Hsha Hi. destruct (si_session _ _ Hi id r Hr) as (parts & Hp & Hcl).
  assert (Hart : artifacts_le now s now (set_sessions (<[id := set_progress (us_received r + zlen body) (us_highest r + 1) r]> (sessions s))
    (set_chunk (id, us_highest r + 1) {| ck_offset := us_received r; ck_length := zlen body; ck_sha256 := sha |} body s))) by (by apply artifacts_le_same).
  eapply (update_advances now s _ id r _ parts (parts ++ [body]) Hr Hp Ho); cbn; [reflexivity| |reflexivity|by apply append_parts| | |exact Hart| |exact Hi].
  - intros i n Hne. split; [destruct (blobs s !! (id, _))|destruct (chunks s !! (id, _))]; rewrite ?lookup_insert_ne by congruence; done.
  - by apply prefix_app_r.
  - unfold closed_as in *. cbn. rewrite Ho in *. done.
  - intros k a Hk. apply (artifact_ok_le now s now); [exact Hart|lia|apply Hi|by exists a|exact Hk].
Qed.

Lemma abort_advances now s id r :
  sessions s !! id = Some r -> us_status r = SessionOpen ->
  advances now s now (set_sessions (<[id := set_session SessionAborted (us_artifact r) r]> (sessions s)) s).
Proof.
  intros Hr Ho Hi. destruct (si_session _ _ Hi id r Hr) as (parts & Hp & Hcl).
  assert (Hart : artifacts_le now s now (set_sessions (<[id := set_session SessionAborted (us_artifact r) r]> (sessions s)) s)) by (by apply artifacts_le_same).
  eapply (update_advances now s _ id r _ parts parts Hr Hp Ho); cbn; [reflexivity|done|reflexivity| |done| |exact Hart| |exact Hi].
  - by apply (session_parts_frame id r _ parts s).
  - unfold closed_as in *. cbn. rewrite Ho in Hcl. done.
  - intros k a Hk. apply (artifact_ok_le now s now); [exact Hart|lia|apply Hi|by exists a|exact Hk].
Qed.

(** ** Storing *)

(** The row of a new artifact. *)
Definition stored_row (id job attempt : N) (name content_type : str) (body : list N) (expires : Z) : artifact_row :=
  {| ar_job := job; ar_attempt := attempt; ar_name := trim name; ar_storage_path := artifact_file root id; ar_content_type := trim content_type;
     ar_sha256 := Some (sha256_hex body); ar_size := zlen body; ar_expires_at := expires; ar_purged_at := None |}.

Definition publish_file (id : N) (body : list N) (s : store) : store := set_files (<[artifact_file root id := body]> (files s)) s.

(** Nothing happens, a file without a row remains, or the artifact is there
    with its file and its session completed. *)
Inductive stored (id job attempt : N) (name content_type : str) (body : list N) (expires : Z) (session : option N) (s : store) : store -> Prop :=
| stored_nothing : stored id job attempt name content_type body expires session s s
| stored_orphan : files s !! artifact_file root id = None -> stored id job attempt name content_type body expires session s (publish_file id body s)
| stored_all :
    files s !! artifact_file root id = None -> artifacts s !! id = None -> 1 <= zlen body <= ARTIFACT_UPLOAD_BYTES ->
    lock_session session attempt s = Ok None ->
    stored id job attempt name content_type body expires session s (publish_file id body
      (complete_session session attempt id (set_artifacts (<[id := stored_row id job attempt name content_type body expires]> (artifacts s)) s))).

Lemma complete_session_files session attempt id s : files (complete_session session attempt id s) = files s.
Proof. by destruct session. Qed.

Lemma store_job_artifact_spec d policy_required clock tm audit c readback id job attempt name content_type body expires session s res s' :
  (forall r, dk_root d = Ok r -> r = root) ->
  store_job_artifact sha256_hex d policy_required clock tm audit c readback id job attempt name content_type body expires session s = (res, s') ->
  stored id job attempt name content_type body expires session s s'.
Proof.
  intros Hroot. unfold store_job_artifact.
  destruct (is_empty body || (ARTIFACT_UPLOAD_BYTES <? zlen body)) eqn:Eb; [intros [= _ <-]; constructor|].
  destruct (negb (valid_artifact_name (trim name))); [intros [= _ <-]; constructor|].
  destruct (is_empty (trim content_type)); [intros [= _ <-]; constructor|].
  destruct (policy_required && is_none clock); [intros [= _ <-]; constructor|].
  destruct (require_clock clock (tm 0%nat)); cbn [rbind]; [|intros [= _ <-]; constructor].
  destruct (lock_session session attempt s) as [[k|]|] eqn:El; cbn [rbind]; [destruct (require_clock clock (tm 1%nat)); [destruct (artifacts s !! k)|]; cbn;
    intros [= _ <-]; constructor| |intros [= _ <-]; constructor].
  destruct (dk_root d) as [r|] eqn:Er; cbn [rbind]; [|intros [= _ <-]; constructor]. rewrite (Hroot r eq_refl).
  destruct (require_clock clock (tm 2%nat)); cbn [rbind]; [|intros [= _ <-]; constructor].
  destruct (files s !! artifact_file root id) eqn:Ef; cbn [rbind]; [intros [= _ <-]; constructor|].
  destruct (dk_write d); cbn [rbind]; [|intros [= _ <-]; constructor].
  destruct (require_clock clock (tm 3%nat)); cbn [rbind]; [|intros [= _ <-]; constructor].
  fold (stored_row id job attempt name content_type body expires).
  destruct (insert_row id (stored_row id job attempt name content_type body expires) (artifacts s)) as [t|] eqn:Ei; cbn [or_internal rbind];
    [|intros [= _ <-]; constructor].
  apply insert_row_Ok in Ei as (Ek & -> & _). destruct audit; cbn [rbind]; [|intros [= _ <-]; constructor].
  destruct (require_clock clock (tm 4%nat)); cbn [rbind]; [|intros [= _ <-]; constructor].
  apply orb_false_iff in Eb as [Ee Eb]. apply Z.ltb_ge in Eb. assert (Hb : 1 <= zlen body <= ARTIFACT_UPLOAD_BYTES).
  { destruct body; [done|]. unfold zlen in *. cbn [length] in *. lia. }
  assert (Hall := stored_all id job attempt name content_type body expires session s Ef Ek Hb El).
  unfold publish_file in Hall. rewrite complete_session_files in Hall. cbn [files set_artifacts] in Hall.
  destruct c as [|e applied]; [intros [= _ <-]; exact Hall|]. destruct applied, readback; intros [= _ <-]; try exact Hall; by constructor.
Qed.

Lemma stored_files now s id body s' :
  store_inv now s -> files s !! artifact_file root id = None -> (forall k, k <> id -> artifacts s' !! k = artifacts s !! k) -> artifacts s !! id = None \/ artifacts s' = artifacts s ->
  files s' = <[artifact_file root id := body]> (files s) -> artifacts_le now s now s'.
Proof.
  intros Hi Hf Ha Hid Ef k a Hk. exists a. split; [|split; [by left|]].
  - destruct (decide (k = id)) as [->|Hne]; [|by rewrite Ha]. destruct Hid as [E|E]; [congruence|by rewrite E].
  - intros body0 [H1 H2 H3 H4]. split; try done. intros Hp Hn. rewrite Ef. specialize (H4 Hp Hn). rewrite lookup_insert_ne; [done|congruence].
Qed.

Lemma stored_published now s id job attempt name content_type body expires s' :
  1 <= zlen body <= ARTIFACT_UPLOAD_BYTES -> files s' = <[artifact_file root id := body]> (files s) ->
  published now s' (stored_row id job attempt name content_type body expires) body.
Proof. intros Hb Ef. split; cbn; [done|done|done|]. intros _ _. by rewrite Ef, lookup_insert_eq. Qed.

Lemma lock_session_open session attempt s :
  lock_session session attempt s = Ok None ->
  match session with Some k => exists r, sessions s !! k = Some r /\ us_status r = SessionOpen /\ us_attempt r = attempt | None => True end.
Proof.
  destruct session as [k|]; [|done]. cbn. destruct (sessions s !! k) as [r|]; [|done].
  destruct (N.eqb_spec (us_attempt r) attempt); [|done]. cbn. destruct (us_status r) eqn:Es; [by exists r|by destruct (us_artifact r)|done].
Qed.

(** What a store is for: anything, or what a completion has read. *)
Definition stores_for (session : option N) (job attempt : N) (name content_type : str) (body : list N) (s : store) : Prop :=
  match session with Some k => read_as (Build_pending_artifact k attempt job name content_type body) s | None => True end.

Lemma stored_advances now s id job attempt name content_type body expires session s' :
  stores_for session job attempt name content_type body s ->
  stored id job attempt name content_type body expires session s s' -> advances now s now s'.
Proof.
  intros Hfor Hst Hi. destruct Hst as [|Hf|Hf Hk Hb Hl]; [by apply advances_same| |].
  - assert (Hle : artifacts_le now s now (publish_file id body s)) by (apply (stored_files now s id body); [done|done|done|by right|done]).
    split; [split|split; [by apply sessions_le_frame|done]].
    + apply Hi.
    + intros i n. apply Hi.
    + intros i r Hr. destruct (si_session _ _ Hi i r Hr) as (parts & Hp & Hc). exists parts.
      split; [by apply (session_parts_frame i r r parts s)|by apply (closed_as_le now s now)].
    + intros k a Hka. apply (artifact_ok_le now s now); [done|lia|apply Hi|by exists a|done].
  - set (row := stored_row id job attempt name content_type body expires) in *.
    set (s1 := publish_file id body (complete_session session attempt id (set_artifacts (<[id := row]> (artifacts s)) s))).
    assert (Ea : artifacts s1 = <[id := row]> (artifacts s)) by (by destruct session).
    assert (Ef : files s1 = <[artifact_file root id := body]> (files s)) by (by destruct session).
    assert (Hle : artifacts_le now s now s1).
    { apply (stored_files now s id body); [done|done| |by left|done]. intros k Hne. rewrite Ea. by apply lookup_insert_ne. }
    assert (Hpub : published now s1 row body) by (by apply (stored_published now s)).
    assert (Hok : forall k a, artifacts s1 !! k = Some a -> artifact_ok now s1 k a).
    { intros k a. rewrite Ea, lookup_insert_Some. intros [[<- <-]|[Hne Hka]].
      - split; [done|]. split; [by exists body|]. by intros [? [=]].
      - apply (artifact_ok_le now s now); [done|lia|apply Hi|by exists a|]. by rewrite Ea, lookup_insert_ne. }
    destruct session as [k|].
    + apply lock_session_open in Hl as (r & Hr & Ho & Eat). destruct Hfor as (r0 & parts & Hr0 & Hp & Ebody & Ed & E1 & E2 & E3 & E4). cbn in *.
      assert (r0 = r) as -> by congruence.
      assert (Es : sessions s1 = <[k := set_session SessionCompleted (Some id) r]> (sessions s)).
      { unfold s1. cbn. rewrite (update_where_row _ _ _ _ r) by done. rewrite bool_decide_eq_true_2, Eat, N.eqb_refl by done. done. }
      apply (update_advances now s s1 k r (set_session SessionCompleted (Some id) r) parts parts); try done.
      * by apply (session_parts_frame k r _ parts s).
      * unfold closed_as. cbn. split; [done|]. exists id, row. split; [done|].
        split; [apply lookup_insert_eq|]. split; [exact E2|]. split; [by rewrite Eat|]. split; [by rewrite <- E3|]. split; [by rewrite <- E4|].
        by rewrite <- Ebody.
    + split; [split|split; [by apply sessions_le_frame|done]].
      * apply Hi.
      * intros i n. apply Hi.
      * intros i r Hr. destruct (si_session _ _ Hi i r Hr) as (parts & Hp & Hc). exists parts.
        split; [by apply (session_parts_frame i r r parts s)|by apply (closed_as_le now s now)].
      * done.
Qed.

(** ** Retention and time *)

(** A purge notes and deletes expired artifacts only. *)
Record purges (now : Z) (s s' : store) : Prop := {
  pg_sessions : sessions s' = sessions s /\ chunks s' = chunks s /\ blobs s' = blobs s;
  pg_artifacts : forall k, artifacts s' !! k = artifacts s !! k \/
    exists a, artifacts s !! k = Some a /\ ar_expires_at a <= now /\ artifacts s' !! k = Some (purge now a);
  pg_files : forall k a, artifacts s !! k = Some a -> now < ar_expires_at a -> files s' !! artifact_file root k = files s !! artifact_file root k }.

Lemma purges_advances now s s' : purges now s s' -> advances now s now s'.
Proof.
  intros [(Es & Ec & Eb) Ha Hf] Hi.
  assert (Hle : artifacts_le now s now s').
  { intros k a Hk. destruct (si_artifacts _ _ Hi k a Hk) as (Ep & _).
    destruct (Ha k) as [E|(a0 & E0 & Hx & E)]; [exists a|exists (purge now a)]; rewrite E.
    - split; [done|]. split; [by left|]. intros body [H1 H2 H3 H4]. split; try done. intros Hp Hn. rewrite Ep, (Hf k a), <- Ep by done. by apply H4.
    - assert (a0 = a) as -> by congruence. split; [done|]. split; [right; split; [done|by exists now]|]. intros body [H1 H2 H3 H4]. by split. }
  split; [split|split; [by apply sessions_le_frame|done]].
  - rewrite Es. apply Hi.
  - intros id i. rewrite Es, Eb, Ec. apply Hi.
  - intros id r. rewrite Es. intros Hr. destruct (si_session _ _ Hi id r Hr) as (parts & Hp & Hc). exists parts.
    split; [apply (session_parts_frame id r r parts s); try done; intros i; by rewrite ?Eb, ?Ec|by apply (closed_as_le now s now)].
  - intros k a' Hk. destruct (Ha k) as [E|(a0 & E0 & Hx & E)].
    + apply (artifact_ok_le now s now); [done|lia|apply Hi|by rewrite E in Hk; exists a'|done].
    + destruct (si_artifacts _ _ Hi k a0 E0) as (Ep & (body & [H1 H2 H3 H4]) & _). assert (a' = purge now a0) as -> by congruence.
      split; [done|]. split; [by exists body|done].
Qed.

Lemma purges_refl now s : purges now s s.
Proof. split; [done|by left|done]. Qed.

Lemma purge_one_spec now safe removable s acc k a :
  artifacts s !! k = Some a -> ar_storage_path a = artifact_file root k -> ar_expires_at a <= now -> purges now s acc.1 ->
  purges now s (purge_one now safe removable acc (k, a)).1.
Proof.
  intros Hk Ep Hx Hpg. unfold purge_one. cbn [snd fst]. destruct (_ && _); [|done]. destruct Hpg as [Hs Ha Hf]. split; cbn; [done| |].
  - intros i. rewrite lookup_update_where. destruct (Ha i) as [E|(b & Eb & Hb & E)].
    + rewrite E. destruct (artifacts s !! i) as [b|] eqn:Ei; cbn; [|by left]. destruct (N.eqb_spec i k) as [->|]; [|by left].
      destruct (expired_artifact now k b) eqn:Ee; [|by left]. right. exists b. split; [done|]. assert (b = a) as -> by congruence. done.
    + right. exists b. rewrite E. cbn. split; [done|]. split; [done|]. unfold expired_artifact. cbn. by rewrite andb_false_r.
  - intros i b Hi Hn. rewrite lookup_delete_ne; [by apply (Hf i b)|]. rewrite Ep. intros E%artifact_file_inj. subst i.
    assert (b = a) as -> by congruence. lia.
Qed.

Lemma purge_candidates_spec now limit locked s k a :
  (k, a) ∈ purge_candidates now limit locked s -> artifacts s !! k = Some a /\ ar_purged_at a = None /\ ar_expires_at a <= now.
Proof.
  unfold purge_candidates. intros Hin. apply subseteq_take in Hin. rewrite merge_sort_Permutation in Hin.
  apply list_elem_of_In, filter_In in Hin as [Hin _]. apply list_elem_of_In, elem_of_select in Hin as [Hk He].
  unfold expired_artifact in He. apply andb_true_iff in He as [Hp He%Z.leb_le]. split; [done|]. split; [by destruct (ar_purged_at a)|done].
Qed.

Lemma purge_fold now safe removable s l acc :
  purges now s acc.1 -> (forall k a, (k, a) ∈ l -> artifacts s !! k = Some a /\ ar_storage_path a = artifact_file root k /\ ar_expires_at a <= now) ->
  purges now s (foldl (purge_one now safe removable) acc l).1.
Proof.
  revert acc. induction l as [|[k a] l IH]; intros acc Hacc Hc; cbn [foldl]; [done|].
  apply IH; [|intros k' a' ?; apply Hc; by right]. destruct (Hc k a) as (? & ? & ?); [left|]. by apply purge_one_spec.
Qed.

Lemma purge_spec now limit locked safe removable c s res s' :
  store_inv now s -> purge_expired_artifacts now limit locked safe removable c s = (res, s') -> purges now s s'.
Proof.
  intros Hi. unfold purge_expired_artifacts.
  assert (Hpg : purges now s (foldl (purge_one now safe removable) (s, 0) (purge_candidates now limit locked s)).1).
  { apply purge_fold; [apply purges_refl|]. intros k a (Hk & _ & Hx)%purge_candidates_spec. split; [done|]. split; [by apply Hi|done]. }
  destruct (foldl _ _ _) as [s1 n]. cbn in Hpg. destruct c as [|e [|]]; intros [= _ <-]; [done..|].
  destruct Hpg as [_ _ Hf]. split; [done|by left|done].
Qed.

Lemma tick_advances now now' s : now <= now' -> advances now s now' s.
Proof.
  intros Hn Hi. assert (Hle : artifacts_le now s now' s).
  { intros k a Hk. exists a. split; [done|]. split; [by left|]. intros body [H1 H2 H3 H4]. split; try done. intros. apply H4; [done|lia]. }
  split; [split; try apply Hi|split; [by apply sessions_le_frame|done]].
  - intros id r Hr. destruct (si_session _ _ Hi id r Hr) as (parts & Hp & Hc). exists parts. split; [done|]. by apply (closed_as_le now s now').
  - intros k a Hk. apply (artifact_ok_le now s now'); [done|done|apply Hi|by exists a|done].
Qed.
End invariant.
End safety.
