(* ===== verification/UploadTheorems.v ===== *)
(** * Upload sessions: the theorems

    The requests of runners, in any order and interrupted anywhere, with the
    retention and the clock.  A completion reads first and stores later, so
    other requests may come between. *)
From S2P Require Import Prelude Status Table Ledger LedgerTheorems Outbox Api Runners Uploads UploadSafety.
Local Open Scope Z_scope.

Section system.
Context `{UuidText} (sha256_hex : list N -> str) (hash_token : str -> str) (policy_required : bool).
Context (confirm : N -> N -> result (option Z) ApiError) (artifact_paths : N -> list str) (root : str).

Definition put_store (s : store) (y : upload_system) : upload_system := {| up_store := s; up_now := up_now y; up_read := up_read y |}.

Inductive upload_step (y : upload_system) : upload_system -> Prop :=
| up_begin later c id lease authenticated input path name content_type declared l res s' :
    begin_artifact_upload_session hash_token policy_required confirm artifact_paths (up_now y) later c id lease authenticated input path name content_type declared l
      (up_store y) = (res, s') -> upload_step y (put_store s' y)
| up_append c lease session authenticated h body l res s' :
    append_artifact_upload_chunk sha256_hex hash_token policy_required confirm (up_now y) c lease session authenticated h body l (up_store y) = (res, s') ->
    upload_step y (put_store s' y)
| up_reading lease session authenticated input expected l p clock :
    complete_found sha256_hex hash_token policy_required confirm (up_now y) lease session authenticated input expected l (up_store y) = Ok (inr p, clock) ->
    upload_step y {| up_store := up_store y; up_now := up_now y; up_read := p :: up_read y |}
| up_storing p d clock tm audit c readback id expires res s' :
    p ∈ up_read y -> (forall r, dk_root d = Ok r -> r = root) ->
    store_job_artifact sha256_hex d policy_required clock tm audit c readback id (pa_job p) (pa_attempt p) (pa_name p) (pa_content_type p) (pa_body p)
      expires (Some (pa_session p)) (up_store y) = (res, s') -> upload_step y (put_store s' y)
| up_direct d clock tm audit c readback id job attempt name content_type body expires res s' :
    (forall r, dk_root d = Ok r -> r = root) ->
    store_job_artifact sha256_hex d policy_required clock tm audit c readback id job attempt name content_type body expires None (up_store y) = (res, s') ->
    upload_step y (put_store s' y)
| up_abort c lease session authenticated input l res s' :
    abort_artifact_upload_session hash_token policy_required confirm (up_now y) c lease session authenticated input l (up_store y) = (res, s') ->
    upload_step y (put_store s' y)
| up_purge limit locked safe removable c res s' :
    purge_expired_artifacts (up_now y) limit locked safe removable c (up_store y) = (res, s') -> upload_step y (put_store s' y)
| up_tick now : up_now y <= now -> upload_step y {| up_store := up_store y; up_now := now; up_read := up_read y |}.

Definition no_uploads (now : Z) : upload_system :=
  {| up_store := {| sessions := ∅; chunks := ∅; blobs := ∅; artifacts := ∅; files := ∅ |}; up_now := now; up_read := [] |}.
Definition uploads_reachable (y : upload_system) : Prop := exists now, rtc upload_step (no_uploads now) y.

(** ** Every step *)

Lemma commit_to_cases {A S} c (a : A) (s s' t : S) res : commit_to c a s s' = (res, t) -> t = s \/ t = s'.
Proof. destruct c as [|e [|]]; intros [= _ <-]; auto. Qed.

Lemma begin_step now later c id lease authenticated input path name content_type declared l s res s' :
  begin_artifact_upload_session hash_token policy_required confirm artifact_paths now later c id lease authenticated input path name content_type declared l s = (res, s') ->
  advances sha256_hex root now s now s'.
Proof.
  unfold begin_artifact_upload_session. destruct (validate_session_request input); cbn [rbind]; [|intros [= _ <-]; apply advances_same].
  destruct ((declared <? 0) || (ARTIFACT_UPLOAD_BYTES <? declared)) eqn:Ed; [intros [= _ <-]; apply advances_same|].
  apply orb_false_iff in Ed as [E1%Z.ltb_ge E2%Z.ltb_ge].
  destruct (session_lease _ _ _ _ _ _ _ _) as [[[runner job] clock]|]; cbn [rbind]; [|intros [= _ <-]; apply advances_same].
  destruct (bool_decide _); [|intros [= _ <-]; apply advances_same]. unfold begin_tx.
  destruct (open_session_of _ _ _) as [[k r]|]; [intros [= _ <-]; apply advances_same|].
  destruct (insert_row _ _ _) as [t|] eqn:Ei; [|intros [= _ <-]; apply advances_same]. apply insert_row_Ok in Ei as (Ek & -> & _ & Hc).
  intros [->| ->]%commit_to_cases; [apply advances_same|]. by apply begin_advances.
Qed.

Lemma session_of_Some id attempt runner lease s r :
  session_of id attempt runner lease s = Some r <-> sessions s !! id = Some r /\ us_attempt r = attempt /\ us_runner r = runner /\ us_lease r = lease.
Proof.
  unfold session_of. destruct (sessions s !! id) as [w|]; cbn; [|by split; [|intros (? & _)]].
  destruct (_ && _) eqn:E.
  - rewrite !andb_true_iff, !N.eqb_eq in E. split; [intros [= <-]; tauto|]. by intros ([= <-] & _).
  - split; [done|]. intros ([= <-] & Ea & Er & El). exfalso. rewrite Ea, Er, El, !N.eqb_refl in E. done.
Qed.

Lemma append_step now c lease session authenticated h body l s res s' :
  append_artifact_upload_chunk sha256_hex hash_token policy_required confirm now c lease session authenticated h body l s = (res, s') ->
  advances sha256_hex root now s now s'.
Proof.
  unfold append_artifact_upload_chunk. destruct (chunk_headers h) as [q|]; cbn [rbind]; [|intros [= _ <-]; apply advances_same].
  destruct (ARTIFACT_CHUNK_BYTES <? zlen body); [intros [= _ <-]; apply advances_same|].
  destruct (eq_ignore_ascii_case (cq_sha256 q) (sha256_hex body)) eqn:Esha; cbn [negb]; [|intros [= _ <-]; apply advances_same].
  destruct authenticated as [runner|]; cbn [rbind]; [|intros [= _ <-]; apply advances_same].
  destruct (lease_artifact _ _ _ _ _ _ _ _ _); cbn [rbind]; [|intros [= _ <-]; apply advances_same]. unfold append_tx.
  destruct (session_of _ _ _ _ _) as [r|] eqn:Er; [|intros [= _ <-]; apply advances_same]. apply session_of_Some in Er as (Er & _).
  destruct (bool_decide (us_status r = SessionOpen)) eqn:Eo; cbn [negb]; [|intros [= _ <-]; apply advances_same]. apply bool_decide_eq_true_1 in Eo.
  destruct (Z.eqb_spec (cq_index q) (us_highest r + 1)) as [Ei|]; cbn [negb]; [|intros [= _ <-]; apply advances_same].
  destruct (Z.ltb_spec (us_declared r) (us_received r + zlen body)); [intros [= _ <-]; apply advances_same|].
  destruct (i32_max <? cq_index q); [intros [= _ <-]; apply advances_same|].
  intros [->| ->]%commit_to_cases; [apply advances_same|]. by apply append_advances.
Qed.

Lemma abort_step now c lease session authenticated input l s res s' :
  abort_artifact_upload_session hash_token policy_required confirm now c lease session authenticated input l s = (res, s') ->
  advances sha256_hex root now s now s'.
Proof.
  unfold abort_artifact_upload_session. destruct (validate_session_request input); cbn [rbind]; [|intros [= _ <-]; apply advances_same].
  destruct (session_lease _ _ _ _ _ _ _ _) as [[[runner job] clock]|]; [|intros [= _ <-]; apply advances_same]. unfold abort_tx.
  destruct (sessions s !! session) as [r|] eqn:Er; [|intros [= _ <-]; apply advances_same].
  destruct (_ && _) eqn:E; [|intros [= _ <-]; apply advances_same]. apply andb_true_iff in E as [_ Eo%bool_decide_eq_true_1].
  intros [->| ->]%commit_to_cases; [apply advances_same|]. by apply abort_advances.
Qed.

Lemma complete_found_read now lease session authenticated input expected l s p clock :
  store_inv sha256_hex root now s ->
  complete_found sha256_hex hash_token policy_required confirm now lease session authenticated input expected l s = Ok (inr p, clock) ->
  read_as sha256_hex p s.
Proof.
  intros Hi. unfold complete_found. destruct (validate_session_request input); cbn [rbind]; [|done].
  destruct (session_lease _ _ _ _ _ _ _ _) as [[[runner job] clk]|]; cbn [rbind]; [|done]. unfold complete_read.
  destruct (session_of _ _ _ _ _) as [r|] eqn:Er; cbn [ok_or rbind]; [|done]. apply session_of_Some in Er as (Er & Ea & _).
  destruct (bool_decide _); [by destruct (ok_or _ _)|]. destruct (negb (bool_decide _)); [done|].
  destruct (Z.eqb_spec (us_received r) (us_declared r)) as [Ed|]; cbn [negb rbind]; [|done].
  destruct (negb (_ =? _)); [done|]. destruct (match expected with Some _ => _ | None => _ end); [done|]. cbn. intros [= <- _].
  destruct (si_session _ _ _ _ Hi session r Er) as (parts & Hp & _). exists r, parts. cbn. rewrite (assembled_parts _ _ _ _ _ Hp). done.
Qed.

Lemma upload_step_inv y y' :
  upload_step y y' -> system_inv sha256_hex root y -> system_inv sha256_hex root y' /\ store_le sha256_hex (up_now y) (up_store y) (up_now y') (up_store y').
Proof.
  intros Hst [Hi Hr].
  assert (Hgo : forall now s', advances sha256_hex root (up_now y) (up_store y) now s' ->
    system_inv sha256_hex root {| up_store := s'; up_now := now; up_read := up_read y |} /\ store_le sha256_hex (up_now y) (up_store y) now s').
  { intros now s' Ha. destruct (Ha Hi) as [Hi' Hle]. split; [|done]. split; [done|]. intros p Hp. cbn in *. apply (read_as_le _ (up_store y)); [apply Hle|auto]. }
  destruct Hst; try (apply Hgo; eauto using begin_step, append_step, abort_step, tick_advances).
  - split; [split; [done|]|exact (proj2 (advances_same _ root _ _ Hi))]. intros q [->|Hq]%elem_of_cons; [|auto]. by eapply complete_found_read.
  - eapply stored_advances; [|by eapply store_job_artifact_spec]. cbn. specialize (Hr p ltac:(done)). by destruct p.
  - eapply stored_advances; [|by eapply store_job_artifact_spec]. done.
  - apply purges_advances. by eapply purge_spec.
Qed.

Lemma upload_steps_inv y y' :
  rtc upload_step y y' -> system_inv sha256_hex root y -> system_inv sha256_hex root y' /\ up_now y <= up_now y' /\ store_le sha256_hex (up_now y) (up_store y) (up_now y') (up_store y').
Proof.
  induction 1 as [y|y1 y2 y3 Hst Hsts IH]; intros Hi.
  - split; [done|]. split; [lia|]. exact (proj2 (advances_same _ root _ _ (proj1 Hi))).
  - destruct (upload_step_inv y1 y2 Hst Hi) as [Hi2 [Ha Hb]]. destruct (IH Hi2) as (Hi3 & Hn & [Hc Hd]).
    assert (up_now y1 <= up_now y2) by (destruct Hst; cbn; lia). split; [done|]. split; [lia|].
    split; [by eapply sessions_le_trans|by eapply artifacts_le_trans].
Qed.

Lemma no_uploads_inv now : system_inv sha256_hex root (no_uploads now).
Proof.
  split; [|by intros p ?%elem_of_nil]. split; cbn; [apply valid_table_empty|by intros; rewrite !lookup_empty|..]; intros *; by rewrite lookup_empty.
Qed.

Lemma uploads_inv y : uploads_reachable y -> system_inv sha256_hex root y.
Proof. intros [now Hsts]. by apply (upload_steps_inv _ _ Hsts), no_uploads_inv. Qed.

Lemma download_published now contained k a body s :
  artifacts s !! k = Some a -> published sha256_hex now s a body -> (is_Some (ar_purged_at a) -> ar_expires_at a <= now) -> now < ar_expires_at a ->
  contained (ar_storage_path a) = true -> download_artifact sha256_hex now contained k s = Ok (ar_content_type a, ar_name a, body).
Proof.
  intros Hk [H1 H2 H3 H4] Hp Hx Hc. unfold download_artifact. rewrite Hk. cbn [ok_or rbind].
  assert (E : ar_purged_at a = None) by (destruct (ar_purged_at a) as [z|]; [|done]; specialize (Hp (ex_intro _ z eq_refl)); lia).
  rewrite E. cbn [is_some orb]. rewrite (proj2 (Z.leb_gt _ _)) by lia. rewrite Hc. cbn [negb]. rewrite H4 by done. cbn [ok_or rbind]. rewrite H1.
  by rewrite str_eqb_refl.
Qed.


(** Whatever happens later, a session keeps its
    identity and every chunk it accepted, at its place; once completed or
    aborted it never changes, so that it makes at most one artifact; and an
    artifact never changes, but for the note of its purge when it has
    expired. *)
Theorem uploads_history y y' :
  uploads_reachable y -> rtc upload_step y y' ->
  (forall id r, sessions (up_store y) !! id = Some r -> exists r', sessions (up_store y') !! id = Some r' /\
     (us_lease r', us_attempt r', us_job r', us_runner r', us_path r', us_declared r') = (us_lease r, us_attempt r, us_job r, us_runner r, us_path r, us_declared r) /\
     (exists later, accepted id (up_store y') = accepted id (up_store y) ++ later) /\
     (us_status r <> SessionOpen -> r' = r /\ accepted id (up_store y') = accepted id (up_store y))) /\
  (forall k a, artifacts (up_store y) !! k = Some a -> exists a', artifacts (up_store y') !! k = Some a' /\
     (a' = a \/ ar_expires_at a <= up_now y' /\ exists t, a' = purge t a)).
Proof.
  intros Hy%uploads_inv Hsts. destruct (upload_steps_inv y y' Hsts Hy) as (_ & _ & [Hs Ha]). split.
  - intros id r Hr. destruct (si_session _ _ _ _ (proj1 Hy) id r Hr) as (parts & Hp & _).
    destruct (Hs id r parts Hr Hp) as (r' & parts' & Hr' & Hp' & Ef & Hpre & Hc). exists r'.
    rewrite (accepted_parts _ id r parts _ Hr Hp), (accepted_parts _ id r' parts' _ Hr' Hp').
    split; [done|]. split; [unfold fixed in Ef; congruence|]. done.
  - intros k a Hk. destruct (Ha k a Hk) as (a' & Hk' & Hor & _). by exists a'.
Qed.

(** ** Beginning again *)

Lemma open_session_unique s id r :
  valid_table (sessions s) -> sessions s !! id = Some r ->
  open_session_of (us_attempt r) (us_path r) s = if bool_decide (us_status r = SessionOpen) then Some (id, r) else None.
Proof.
  intros Ht Hr. unfold open_session_of.
  assert (Hin : forall k w, (k, w) ∈ select (fun _ r0 => (us_attempt r0 =? us_attempt r)%N && str_eqb (us_path r0) (us_path r) &&
      bool_decide (us_status r0 = SessionOpen)) (sessions s) -> k = id /\ w = r /\ us_status w = SessionOpen).
  { intros k w [Hw E]%elem_of_select. rewrite !andb_true_iff in E. destruct E as [[Ea Ep] Eo%bool_decide_eq_true_1].
    destruct (decide (k = id)) as [->|Hne]; [split; [done|split; [congruence|done]]|].
    pose proof (vt_unique _ Ht k id w r Hne Hw Hr) as Hu. cbn in Hu. by rewrite Ea, Ep in Hu. }
  destruct (bool_decide_reflect (us_status r = SessionOpen)) as [Eo|Eo].
  - destruct (select _ _) as [|[k w] ws] eqn:E.
    + exfalso. assert (Hn : (id, r) ∈ ([] : list (N * session_row))); [|by apply elem_of_nil in Hn]. rewrite <- E. apply elem_of_select.
      split; [done|]. by rewrite N.eqb_refl, str_eqb_refl, bool_decide_eq_true_2.
    + destruct (Hin k w) as (-> & -> & _); [left|done].
  - destruct (select _ _) as [|[k w] ws] eqn:E; [done|]. destruct (Hin k w) as (-> & -> & ?); [left|done].
Qed.

Definition admits (now : Z) (lease : N) (authenticated : result N ApiError) (input : session_request) (path : str) (declared : Z) (l : ledger)
    (runner job : N) (clock : option Z) : Prop :=
  validate_session_request input = Ok tt /\ 0 <= declared <= ARTIFACT_UPLOAD_BYTES /\
  session_lease hash_token policy_required confirm now lease authenticated input l = Ok (runner, job, clock) /\ path ∈ artifact_paths job.

Lemma begin_admitted now later c id lease authenticated input path name content_type declared l s runner job clock :
  admits now lease authenticated input path declared l runner job clock ->
  begin_artifact_upload_session hash_token policy_required confirm artifact_paths now later c id lease authenticated input path name content_type declared l s
  = begin_tx clock later c id lease (sr_attempt input) job runner path name content_type declared s.
Proof.
  intros (Hv & [E1 E2] & Hl & Hp). unfold begin_artifact_upload_session. rewrite Hv. cbn [rbind].
  rewrite (proj2 (Z.ltb_ge _ _) E1), (proj2 (Z.ltb_ge _ _) E2). cbn [orb]. rewrite Hl. cbn [rbind snd fst]. by rewrite bool_decide_eq_true_2.
Qed.

Lemma begin_refused now later c id lease authenticated input path name content_type declared l s :
  (exists runner job clock, admits now lease authenticated input path declared l runner job clock) \/
  exists e, begin_artifact_upload_session hash_token policy_required confirm artifact_paths now later c id lease authenticated input path name content_type declared l s = (Err e, s).
Proof.
  unfold begin_artifact_upload_session, admits. destruct (validate_session_request input) as [[]|e]; cbn [rbind]; [|right; by exists e].
  destruct ((declared <? 0) || (ARTIFACT_UPLOAD_BYTES <? declared)) eqn:Ed; [right; eauto|]. apply orb_false_iff in Ed as [E1%Z.ltb_ge E2%Z.ltb_ge].
  destruct (session_lease _ _ _ _ _ _ _ _) as [[[runner job] clock]|e]; cbn [rbind snd fst]; [|right; by exists e].
  destruct (bool_decide_reflect (path ∈ artifact_paths job)); [left|right; eauto]. exists runner, job, clock. done.
Qed.

Lemma begin_tx_again clock later c fresh lease job runner id r name content_type declared parts s :
  valid_table (sessions s) -> sessions s !! id = Some r -> session_parts sha256_hex id r parts s ->
  begin_tx clock later c fresh lease (us_attempt r) job runner (us_path r) name content_type declared s =
  (if bool_decide (us_status r = SessionOpen)
   then let? _ := require_clock clock later in
        Ok {| br_session := id; br_chunk_size := ARTIFACT_CHUNK_BYTES; br_received := zlen (concat parts); br_highest := zlen parts - 1 |}
   else Err internal, s).
Proof.
  intros Hv Hr [Hh Hrec _ _ _].
  unfold begin_tx. rewrite (open_session_unique s id r Hv Hr). destruct (bool_decide _); [by rewrite Hrec, Hh|].
  destruct (insert_row _ _ _) as [t|e] eqn:Ei; [|done]. exfalso. apply insert_row_Ok in Ei as (_ & _ & _ & Hc). specialize (Hc id r Hr).
  cbn in Hc. by rewrite N.eqb_refl, str_eqb_refl in Hc.
Qed.

(** A session can be resumed while it is open: a runner
    that begins it again, as often as it likes, is told how many bytes and
    which chunks arrived, and nothing changes.  Once it is completed or
    aborted, no request can begin an upload of this file for this attempt
    again: an admitted one is answered with an internal error. *)
Theorem begin_again y y' id r now later c fresh lease authenticated input name content_type declared l :
  uploads_reachable y -> sessions (up_store y) !! id = Some r -> rtc upload_step y y' -> sr_attempt input = us_attempt r ->
  let answer := begin_artifact_upload_session hash_token policy_required confirm artifact_paths now later c fresh lease authenticated input (us_path r)
                  name content_type declared l (up_store y') in
  answer.2 = up_store y' /\
  forall runner job clock, admits now lease authenticated input (us_path r) declared l runner job clock ->
  exists r', sessions (up_store y') !! id = Some r' /\ us_path r' = us_path r /\ us_attempt r' = us_attempt r /\
    if bool_decide (us_status r' = SessionOpen)
    then answer.1 = (let? _ := require_clock clock later in
                     Ok {| br_session := id; br_chunk_size := 8388608; br_received := zlen (concat (accepted id (up_store y')));
                           br_highest := zlen (accepted id (up_store y')) - 1 |})
    else answer.1 = Err internal.
Proof.
  intros Hy%uploads_inv Hr Hsts Ea. destruct (upload_steps_inv y y' Hsts Hy) as ([Hi' _] & _ & [Hs _]).
  destruct (si_session _ _ _ _ (proj1 Hy) id r Hr) as (parts & Hp & _). destruct (Hs id r parts Hr Hp) as (r' & parts' & Hr' & Hp' & Ef & _ & _).
  injection Ef as _ Fa _ _ Fp _ _ _. intros answer.
  assert (Htx : forall runner job clock, admits now lease authenticated input (us_path r) declared l runner job clock ->
    answer = (if bool_decide (us_status r' = SessionOpen)
              then let? _ := require_clock clock later in
                   Ok {| br_session := id; br_chunk_size := ARTIFACT_CHUNK_BYTES; br_received := zlen (concat parts'); br_highest := zlen parts' - 1 |}
              else Err internal, up_store y')).
  { intros runner job clock Had. unfold answer. rewrite (begin_admitted _ _ _ _ _ _ _ _ _ _ _ _ _ _ _ _ Had), Ea, <- Fa, <- Fp.
    apply begin_tx_again; [apply Hi'|done..]. }
  split.
  - destruct (begin_refused now later c fresh lease authenticated input (us_path r) name content_type declared l (up_store y'))
      as [(runner & job & clock & Had)|[e E]]; [by rewrite (Htx _ _ _ Had)|]. unfold answer. by rewrite E.
  - intros runner job clock Had. exists r'. do 3 (split; [done|]). rewrite (Htx _ _ _ Had), (accepted_parts _ id r' parts' _ Hr' Hp').
    by destruct (bool_decide _).
Qed.

(** ** A whole upload *)

(** What a runner does: it sends the chunks from [index] on, one by one. *)
Fixpoint send_chunks (now : Z) (lease session : N) (authenticated : result N ApiError) (h : Z -> list N -> headers) (l : ledger) (index : Z)
    (bodies : list (list N)) (s : store) : result unit ApiError * store :=
  match bodies with
  | [] => (Ok tt, s)
  | body :: bodies =>
    match append_artifact_upload_chunk sha256_hex hash_token policy_required confirm now Committed lease session authenticated (h index body) body l s with
    | (Ok _, s) => send_chunks now lease session authenticated h l (index + 1) bodies s
    | (Err e, s) => (Err e, s)
    end
  end.

(** A caller with a live lease. *)
Record caller (now : Z) (lease runner : N) (input : session_request) (job : N) (clock : option Z) (l : ledger) : Prop := {
  cl_valid : validate_session_request input = Ok tt;
  cl_lease : lease_artifact policy_required confirm now lease runner (hash_token (trim (sr_lease_token input))) (sr_fencing_token input)
               (sr_attempt input) l = Ok (job, clock) }.

(** The headers of the chunks it sends. *)
Definition headers_for (input : session_request) (h : Z -> list N -> headers) (index : Z) (body : list N) : Prop :=
  chunk_headers (h index body) = Ok {| cq_lease_token := trim (sr_lease_token input); cq_fencing := sr_fencing_token input;
                                       cq_attempt := sr_attempt input; cq_index := index; cq_sha256 := sha256_hex body |}.

Lemma eq_ignore_ascii_case_refl v : eq_ignore_ascii_case v v = true.
Proof. unfold eq_ignore_ascii_case. apply str_eqb_refl. Qed.

Definition progressed (parts bodies : list (list N)) (id : N) (r : session_row) (s s' : store) : Prop :=
  artifacts s' = artifacts s /\ files s' = files s /\ exists r', sessions s' !! id = Some r' /\ fixed r' = fixed r /\ us_status r' = SessionOpen /\
    session_parts sha256_hex id r' (parts ++ bodies) s'.

Lemma send_chunks_ok now lease runner input job clock l h id bodies s r parts :
  store_inv sha256_hex root now s -> sessions s !! id = Some r -> session_parts sha256_hex id r parts s -> us_status r = SessionOpen ->
  caller now lease runner input job clock l -> us_attempt r = sr_attempt input -> us_runner r = runner -> us_lease r = lease ->
  (forall i b, bodies !! i = Some b -> zlen b <= ARTIFACT_CHUNK_BYTES /\ headers_for input h (us_highest r + 1 + Z.of_nat i) b) ->
  us_highest r + zlen bodies <= i32_max -> zlen (concat (parts ++ bodies)) <= us_declared r ->
  exists s', send_chunks now lease id (Ok runner) h l (us_highest r + 1) bodies s = (Ok tt, s') /\ progressed parts bodies id r s s'.
Proof.
  intros Hi Hr Hp Ho Hc Ea Eru Ele. revert s r parts Hi Hr Hp Ho Ea Eru Ele.
  induction bodies as [|b bodies IH]; intros s r parts Hi Hr Hp Ho Ea Eru Ele Hh Hmax Hd; cbn [send_chunks].
  { exists s. split; [done|]. split; [done|]. split; [done|]. exists r. by rewrite app_nil_r. }
  destruct (Hh 0%nat b eq_refl) as [Hb Hhd]. rewrite Z.add_0_r in Hhd.
  rewrite concat_app, zlen_app in Hd. cbn [concat] in Hd. rewrite zlen_app in Hd. pose proof (sp_received _ _ _ _ _ Hp) as Erec.
  pose proof (zlen_nonneg (concat bodies)). change (zlen (b :: bodies)) with (Z.of_nat (S (length bodies))) in Hmax.
  unfold append_artifact_upload_chunk. rewrite Hhd. cbn [rbind cq_sha256 cq_lease_token cq_fencing cq_attempt cq_index].
  rewrite (proj2 (Z.ltb_ge _ _) Hb), eq_ignore_ascii_case_refl. cbn [negb]. rewrite (cl_lease _ _ _ _ _ _ _ Hc). cbn [rbind]. unfold append_tx.
  cbn [cq_sha256 cq_lease_token cq_fencing cq_attempt cq_index]. rewrite (proj2 (session_of_Some id (sr_attempt input) runner lease s r)) by done. rewrite (bool_decide_eq_true_2 _ Ho), Z.eqb_refl. cbn [negb].
  rewrite (proj2 (Z.ltb_ge _ _)) by lia. rewrite (proj2 (Z.ltb_ge _ _)) by lia. cbn [commit_to].
  set (r' := set_progress (us_received r + zlen b) (us_highest r + 1) r). set (s1 := set_sessions _ _).
  assert (Hp1 : session_parts sha256_hex id r' (parts ++ [b]) s1) by (apply append_parts; [done|lia|done|done|apply eq_ignore_ascii_case_refl]).
  destruct (IH s1 r' (parts ++ [b])) as (s' & Hs & (E1 & E2 & r2 & Hr2 & Ef & Ho2 & Hp2)); try done.
  - apply (append_advances sha256_hex root now s id r); [done|done|done|lia|apply eq_ignore_ascii_case_refl|done].
  - apply lookup_insert_eq.
  - intros i b' Hb'. specialize (Hh (S i) b' Hb'). cbn [us_highest r' set_progress].
    replace (us_highest r + 1 + 1 + Z.of_nat i) with (us_highest r + 1 + Z.of_nat (S i)) by lia. done.
  - cbn [us_highest r' set_progress]. unfold zlen. lia.
  - rewrite <- app_assoc. cbn [app us_declared r' set_progress]. rewrite concat_app, zlen_app. cbn [concat]. rewrite zlen_app. lia.
  - exists s'. split; [done|]. split; [done|]. split; [done|]. exists r2. rewrite <- app_assoc in Hp2. done.
Qed.

(** The disk, the clock and the names let an artifact be stored; a digest has
    64 hexadecimal digits. *)
Record storable (d : disk) (clock : option Z) (tm : nat -> Z) (id : N) (name content_type : str) (s : store) : Prop := {
  sb_root : dk_root d = Ok root;
  sb_write : dk_write d = Ok tt;
  sb_clock : forall n, require_clock clock (tm n) = Ok tt;
  sb_admission : policy_required && is_none clock = false;
  sb_name : valid_artifact_name (trim name) = true;
  sb_content_type : is_empty (trim content_type) = false;
  sb_digest : forall body, lower_hex (sha256_hex body) 64 = true;
  sb_free : artifacts s !! id = None;
  sb_file : files s !! artifact_file root id = None }.

Lemma store_job_artifact_ok d clock tm readback id job attempt name content_type body expires session s :
  storable d clock tm id name content_type s -> 1 <= zlen body <= ARTIFACT_UPLOAD_BYTES -> lock_session session attempt s = Ok None ->
  store_job_artifact sha256_hex d policy_required clock tm (Ok tt) Committed readback id job attempt name content_type body expires session s =
  (Ok (id, stored_row sha256_hex root id job attempt name content_type body expires), publish_file root id body
     (complete_session session attempt id (set_artifacts (<[id := stored_row sha256_hex root id job attempt name content_type body expires]> (artifacts s)) s))).
Proof.
  intros [H1 H2 H3 H4 H5 H6 H9 H7 H8] Hb Hl. unfold store_job_artifact.
  assert (E : is_empty body = false) by (destruct body; [unfold zlen in Hb; cbn in Hb; lia|done]). rewrite E, (proj2 (Z.ltb_ge _ _)) by lia. cbn [orb].
  rewrite H5, H6, H4. cbn [negb]. rewrite !H3. cbn [rbind]. rewrite Hl. cbn [rbind]. rewrite H1. cbn [rbind]. rewrite ?H3. cbn [rbind]. rewrite H8, H2. cbn [rbind].
  fold (stored_row sha256_hex root id job attempt name content_type body expires).
  rewrite (proj2 (insert_row_Ok id (stored_row sha256_hex root id job attempt name content_type body expires) (artifacts s) _))
    by (split; [exact H7|]; split; [reflexivity|]; split; [exact (H9 body)|]; intros; reflexivity).
  cbn [or_internal rbind]. unfold publish_file. by rewrite complete_session_files.
Qed.

Lemma complete_found_ok now lease input job clock l id expected s r parts :
  sessions s !! id = Some r -> session_parts sha256_hex id r parts s -> us_status r = SessionOpen -> zlen (concat parts) = us_declared r ->
  caller now lease (us_runner r) input job clock l -> us_attempt r = sr_attempt input -> us_lease r = lease ->
  match expected with Some e => eq_ignore_ascii_case e (sha256_hex (concat parts)) = true | None => True end ->
  complete_found sha256_hex hash_token policy_required confirm now lease id (Ok (us_runner r)) input expected l s =
  Ok (inr {| pa_session := id; pa_attempt := sr_attempt input; pa_job := us_job r; pa_name := us_name r; pa_content_type := us_content_type r;
             pa_body := concat parts |}, clock).
Proof.
  intros Hr Hp Ho Hd [Hv Hl] Ea Ele He. unfold complete_found, session_lease. rewrite Hv. cbn [rbind]. rewrite Hl. cbn [rbind fst snd]. unfold complete_read.
  rewrite (proj2 (session_of_Some id (sr_attempt input) (us_runner r) lease s r)) by done. cbn [ok_or rbind].
  rewrite Ho, bool_decide_eq_false_2, bool_decide_eq_true_2 by done. cbn [negb].
  rewrite (sp_received _ _ _ _ _ Hp), Hd, Z.eqb_refl, (assembled_parts _ _ _ _ _ Hp), Hd, Z.eqb_refl. cbn [negb].
  destruct expected; [by rewrite He|done].
Qed.

(** C20. An upload ends: from any state of an open
    session, however it was reached, a runner with a live lease that sends
    the rest of the chunks under the next indices and completes the session
    obtains an artifact of its job, and until the artifact expires a download
    answers all the bytes of the session in their order, what arrived before
    an interruption included. *)
Theorem upload_delivers y id r input job clock l h bodies expected d tm readback aid expires :
  uploads_reachable y -> sessions (up_store y) !! id = Some r -> us_status r = SessionOpen ->
  caller (up_now y) (us_lease r) (us_runner r) input job clock l -> us_attempt r = sr_attempt input ->
  let sent := accepted id (up_store y) ++ bodies in
  (forall i b, bodies !! i = Some b -> zlen b <= 8 * 1024 * 1024 /\ headers_for input h (us_highest r + 1 + Z.of_nat i) b) ->
  us_highest r + zlen bodies < 2 ^ 31 -> zlen (concat sent) = us_declared r -> 0 < us_declared r ->
  match expected with Some e => eq_ignore_ascii_case e (sha256_hex (concat sent)) = true | None => True end ->
  storable d clock tm aid (us_name r) (us_content_type r) (up_store y) ->
  exists s1 s2 a,
    send_chunks (up_now y) (us_lease r) id (Ok (us_runner r)) h l (us_highest r + 1) bodies (up_store y) = (Ok tt, s1) /\
    complete_artifact_upload_session sha256_hex hash_token policy_required confirm (up_now y) d tm (Ok tt) Committed readback aid expires (us_lease r) id
      (Ok (us_runner r)) input expected l s1 = (Ok (aid, a), s2) /\ ar_job a = us_job r /\ ar_attempt a = us_attempt r /\ ar_size a = us_declared r /\
    forall now contained, now < expires -> contained (artifact_file root aid) = true ->
    download_artifact sha256_hex now contained aid s2 = Ok (trim (us_content_type r), trim (us_name r), concat sent).
Proof.
  intros [Hi _]%uploads_inv Hr Ho Hc Ea. destruct (si_session _ _ _ _ Hi id r Hr) as (parts & Hp & _).
  rewrite (accepted_parts _ id r parts _ Hr Hp). intros sent Hh Hmax Hd Hpos He Hs.
  destruct (send_chunks_ok _ _ _ input job clock l h id bodies _ r parts Hi Hr Hp Ho Hc Ea eq_refl eq_refl Hh) as
    (s1 & Hsend & (Eart & Efile & r1 & Hr1 & Ef & Ho1 & Hp1)); [unfold i32_max; lia|fold sent; lia|]. fold sent in Hp1.
  injection Ef as F1 F2 F3 F4 _ F6 F7 F8. rewrite <- F1, <- F2, <- F3, <- F4, <- F6, <- F7, <- F8 in *.
  assert (Hs1 : storable d clock tm aid (us_name r1) (us_content_type r1) s1) by (destruct Hs; split; try congruence; done).
  exists s1. rewrite Hsend. unfold complete_artifact_upload_session.
  rewrite (complete_found_ok _ _ input job clock l id expected s1 r1 sent Hr1 Hp1 Ho1 Hd Hc Ea eq_refl He). cbn [pa_job pa_attempt pa_name pa_content_type pa_body pa_session].
  assert (Hlock : lock_session (Some id) (sr_attempt input) s1 = Ok None) by (cbn; rewrite Hr1, Ea, N.eqb_refl; cbn; by rewrite Ho1).
  pose proof (sp_declared _ _ _ _ _ Hp1) as Hb. rewrite (sp_received _ _ _ _ _ Hp1) in Hb.
  rewrite (store_job_artifact_ok d clock tm readback aid _ _ _ _ _ expires (Some id) s1 Hs1) by (done || lia).
  do 2 eexists. split; [done|]. split; [done|]. split; [done|]. split; [done|]. split; [exact Hd|]. intros now contained Hx Hcon.
  apply (download_published now contained aid (stored_row sha256_hex root aid (us_job r1) (sr_attempt input) (us_name r1) (us_content_type r1) (concat sent) expires)).
  - cbn. apply lookup_insert_eq.
  - apply (stored_published sha256_hex root now s1); [lia|]. done.
  - by intros [? [=]].
  - done.
  - done.
Qed.
End system.

(** ** An upload of two chunks, interrupted and resumed *)

#[local] Existing Instance plain_uuid.

Definition plain_digit (b : N) : N := let d := (b mod 16)%N in if (d <? 10)%N then (d + 48)%N else (d + 87)%N.
Definition plain_digest (body : list N) : str := map (fun i => plain_digit (nth i body 0%N)) (seq 0 64).

Lemma plain_digest_hex body : lower_hex (plain_digest body) 64 = true.
Proof.
  apply lower_hex_iff. split; [unfold zlen, plain_digest; by rewrite length_map|]. intros c (i & -> & _)%list_elem_of_fmap.
  assert (H : forall d, (d < 16)%N -> is_lower_hex (if (d <? 10)%N then d + 48 else d + 87)%N = true).
  { intros d Hd. unfold is_lower_hex, is_ascii_digit. destruct (N.ltb_spec d 10); apply orb_true_iff; [left|right]; apply between_iff; lia. }
  apply H. apply N.mod_lt. done.
Qed.
Definition plain_confirm (_ _ : N) : result (option Z) ApiError := Ok None.
Definition plain_paths (_ : N) : list str := [§"out.bin"].
Abbreviation plain_step := (upload_step plain_digest id false plain_confirm plain_paths §"/var").
Abbreviation plain_reachable := (uploads_reachable plain_digest id false plain_confirm plain_paths §"/var").

Definition upload_request : session_request := {| sr_protocol_version := 1; sr_lease_token := §" secret "; sr_fencing_token := 1; sr_attempt := 11 |}.
Definition plain_headers (index : Z) (body : list N) : headers := fun name =>
  if str_eqb name §"x-runner-protocol-version" then Some §"1" else if str_eqb name §"x-lease-token" then Some §"secret"
  else if str_eqb name §"x-fencing-token" then Some §"1" else if str_eqb name §"x-attempt-id" then Some [211%N]
  else if str_eqb name §"x-chunk-index" then Some [Z.to_N (48 + index)] else if str_eqb name §"x-chunk-sha256" then Some (plain_digest body) else None.
Definition plain_disk : disk := {| dk_root := Ok §"/var"; dk_write := Ok tt |}.

(** The session is begun and a first chunk arrives. *)
Definition up0 : upload_system := no_uploads 3.
Definition up1 : upload_system := put_store (begin_artifact_upload_session id false plain_confirm plain_paths 3 3 Committed 7 31 (Ok 3%N) upload_request §"out.bin"
  §"out.bin" None 5 Sample.acknowledged (up_store up0)).2 up0.
Definition up2 : upload_system := put_store (append_artifact_upload_chunk plain_digest id false plain_confirm 3 Committed 31 7 (Ok 3%N) (plain_headers 0 [1%N; 2%N])
  [1%N; 2%N] Sample.acknowledged (up_store up1)).2 up1.
(** The second chunk, and the completion. *)
Definition up3 : upload_system := put_store (append_artifact_upload_chunk plain_digest id false plain_confirm 3 Committed 31 7 (Ok 3%N) (plain_headers 1 [3%N; 4%N; 5%N])
  [3%N; 4%N; 5%N] Sample.acknowledged (up_store up2)).2 up2.
Definition up_pending : pending_artifact := {| pa_session := 7; pa_attempt := 11; pa_job := 1; pa_name := §"out.bin"; pa_content_type := §"application/octet-stream";
  pa_body := [1%N; 2%N; 3%N; 4%N; 5%N] |}.
Definition up4 : upload_system := {| up_store := up_store up3; up_now := up_now up3; up_read := up_pending :: up_read up3 |}.
Definition up5 : upload_system := put_store (store_job_artifact plain_digest plain_disk false None (fun _ => 3) (Ok tt) Committed true 9 (pa_job up_pending)
  (pa_attempt up_pending) (pa_name up_pending) (pa_content_type up_pending) (pa_body up_pending) 100 (Some (pa_session up_pending)) (up_store up4)).2 up4.

Lemma up2_steps : rtc plain_step up0 up2.
Proof.
  eapply rtc_l; [|eapply rtc_l; [|apply rtc_refl]].
  - eapply (up_begin _ _ _ _ _ _ up0). apply surjective_pairing.
  - eapply (up_append _ _ _ _ _ _ up1). apply surjective_pairing.
Qed.

Lemma up5_steps : rtc plain_step up2 up5.
Proof.
  eapply rtc_l; [|eapply rtc_l; [|eapply rtc_l; [|apply rtc_refl]]].
  - eapply (up_append _ _ _ _ _ _ up2). apply surjective_pairing.
  - eapply (up_reading plain_digest id false plain_confirm plain_paths §"/var" up3 31 7 (Ok 3%N) upload_request None Sample.acknowledged up_pending). vm_compute. reflexivity.
  - eapply (up_storing _ _ _ _ _ _ up4 up_pending plain_disk); [left|by intros r [= <-]|apply surjective_pairing].
Qed.

Definition session_7 (y : upload_system) : session_row := default (Build_session_row 0 0 0 0 [] [] [] 0 0 0 SessionAborted None) (sessions (up_store y) !! 7%N).
Definition artifact_9 : artifact_row := default (Build_artifact_row 0 0 [] [] [] None 0 0 None) (artifacts (up_store up5) !! 9%N).


Lemma uploads_history_witness : exists r r', sessions (up_store up2) !! 7%N = Some r /\ sessions (up_store up5) !! 7%N = Some r' /\ us_job r' = us_job r /\
  exists later, accepted 7 (up_store up5) = accepted 7 (up_store up2) ++ later.
Proof.
  destruct (uploads_history plain_digest id false plain_confirm plain_paths §"/var" up2 up5 (ex_intro _ 3 up2_steps) up5_steps) as [H1 _].
  destruct (H1 7%N (session_7 up2)) as (r' & Hr' & Ef & Hl & _); [vm_compute; reflexivity|]. exists (session_7 up2), r'.
  split; [vm_compute; reflexivity|]. split; [exact Hr'|]. split; [congruence|exact Hl].
Defined.

Lemma plain_admits : admits id false plain_confirm plain_paths 3 31 (Ok 3%N) upload_request §"out.bin" 5 Sample.acknowledged 3 1 None.
Proof. split; [reflexivity|]. split; [unfold ARTIFACT_UPLOAD_BYTES; lia|]. split; [vm_compute; reflexivity|left]. Qed.

(** The session is complete: beginning again fails. *)
Lemma begin_again_witness :
  (begin_artifact_upload_session id false plain_confirm plain_paths 3 3 Committed 8 31 (Ok 3%N) upload_request §"out.bin" §"out.bin" None 5
     Sample.acknowledged (up_store up5)).1 = Err internal.
Proof.
  destruct (begin_again plain_digest id false plain_confirm plain_paths §"/var" up2 up5 7 (session_7 up2) 3 3 Committed 8 31 (Ok 3%N) upload_request §"out.bin"
    None 5 Sample.acknowledged (ex_intro _ 3 up2_steps) ltac:(vm_compute; reflexivity) up5_steps ltac:(vm_compute; reflexivity)) as [_ H2].
  destruct (H2 3%N 1%N None plain_admits) as (r' & Hr' & _ & _ & Hb).
  assert (Es : us_status r' = SessionCompleted).
  { assert (E : r' = session_7 up5) by (unfold session_7; by rewrite Hr'). rewrite E. vm_compute. reflexivity. }
  rewrite Es in Hb. exact Hb.
Defined.

Lemma upload_delivers_witness : exists s1 s2 a,
  send_chunks plain_digest id false plain_confirm 3 31 7 (Ok 3%N) plain_headers Sample.acknowledged 1 [[3%N; 4%N]; []; [5%N]] (up_store up2) = (Ok tt, s1) /\
  complete_artifact_upload_session plain_digest id false plain_confirm 3 plain_disk (fun _ => 3) (Ok tt) Committed true 9 100 31 7 (Ok 3%N) upload_request
    (Some (plain_digest [1%N; 2%N; 3%N; 4%N; 5%N])) Sample.acknowledged s1 = (Ok (9%N, a), s2) /\
  download_artifact plain_digest 50 (fun _ => true) 9 s2 = Ok (§"application/octet-stream", §"out.bin", [1%N; 2%N; 3%N; 4%N; 5%N]).
Proof.
  destruct (upload_delivers plain_digest id false plain_confirm plain_paths §"/var" up2 7 (session_7 up2) upload_request 1 None Sample.acknowledged plain_headers
    [[3%N; 4%N]; []; [5%N]] (Some (plain_digest [1%N; 2%N; 3%N; 4%N; 5%N])) plain_disk (fun _ => 3) true 9 100) as (s1 & s2 & a & H1 & H2 & _ & _ & _ & H3).
  - exact (ex_intro _ 3 up2_steps).
  - vm_compute. reflexivity.
  - vm_compute. reflexivity.
  - split; vm_compute; reflexivity.
  - vm_compute. reflexivity.
  - intros [|[|[|i]]] b; cbn; intros [= <-]; (split; [vm_compute; discriminate|vm_compute; reflexivity]).
  - vm_compute. reflexivity.
  - vm_compute. reflexivity.
  - vm_compute. reflexivity.
  - vm_compute. reflexivity.
  - split; [reflexivity|reflexivity|intros n; reflexivity|reflexivity|vm_compute; reflexivity|vm_compute; reflexivity|exact plain_digest_hex|
      vm_compute; reflexivity|vm_compute; reflexivity].
  - exists s1, s2, a. split; [exact H1|]. split; [exact H2|]. refine (eq_trans (H3 50 (fun _ => true) _ eq_refl) _); vm_compute; reflexivity.
Defined.
