(* ===== verification/JobLogs.v ===== *)
(** * The logs of jobs

    Lines appended under a lease ([backend/src/runner_protocol.rs]), by people
    and by the embedded runner ([api/jobs_routes.rs], [infra/src/lib.rs]), and
    the ways to read them: lists, pages with a search, and the live stream.
    [c] is the outcome of a commit. *)
From S2P Require Import Prelude Status Table Ledger LedgerHandlers Outbox Api Runners Uploads.
Local Open Scope Z_scope.

Definition MAX_LOG_LINES : Z := 100.
Definition MAX_LOG_MESSAGE_LEN : Z := 8192.

(** ** The table *)

Record log_row : Type := { lg_job : N; lg_attempt : N; lg_sequence : Z; lg_message : str }.

(** [idx_job_logs_attempt_sequence]; a text of the database holds no zero
    character. *)
#[export] Instance log_schema : Schema log_row.
Proof.
  refine {| check r := negb (contains_char 0 (lg_message r));
            conflict x y := (lg_attempt x =? lg_attempt y)%N && (lg_sequence x =? lg_sequence y) |}.
  intros x y. by rewrite N.eqb_sym, Z.eqb_sym.
Defined.

Abbreviation logs := (gmap N log_row).

Definition of_attempt (attempt : N) (_ : N) (r : log_row) : bool := (lg_attempt r =? attempt)%N.

(** [SELECT COALESCE(MAX(sequence), 0) + 1], a 32-bit integer. *)
Definition next_attempt_log_sequence (attempt : N) (t : logs) : result Z db_error :=
  let n := max_of lg_sequence (of_attempt attempt) t + 1 in if i32_max <? n then Err DataException else Ok n.

(** [append_job_log]; [id] is the next value of the serial column. *)
Definition append_job_log (c : commit) (id job attempt : N) (message : str) (l : ledger) (t : logs) : result (N * log_row) ApiError * logs :=
  let written :=
    let? a := ok_or (attempts l !! attempt) RowNotFound in
    if (at_job a =? job)%N then
      let? n := next_attempt_log_sequence attempt t in
      let row := {| lg_job := job; lg_attempt := attempt; lg_sequence := n; lg_message := message |} in
      let? t' := insert_row id row t in
      Ok (row, t')
    else Err RowNotFound in
  match written with
  | Ok (row, t') =>
    match c with
    | Committed => (Ok (id, row), t')
    | CommitFailed _ applied => (Err internal, if applied then t' else t)
    end
  | Err _ => (Err internal, t)
  end.

(** ** Lines of a runner *)

Record RunnerLogLine : Type := { ll_stream : str; ll_message : str }.

Definition line_break (c : char) : bool := (c =? 13)%N || (c =? 10)%N.

Definition normalize_log_stream (value : str) : str := let stream := trim value in if is_empty stream then §"stdout" else stream.

Definition validate_log_line (line : RunnerLogLine) : result unit ApiError :=
  let stream := normalize_log_stream (ll_stream line) in
  if negb (str_eqb stream §"stdout" || str_eqb stream §"stderr" || str_eqb stream §"system")
  then Err (bad_request §"log stream must be stdout, stderr or system")
  else if MAX_LOG_MESSAGE_LEN <? zlen (ll_message line) then Err (bad_request §"log message must be at most 8192 characters")
  else if existsb line_break (trim_end_matches line_break (ll_message line)) then Err (bad_request §"log message must contain a single line")
  else Ok tt.

Definition validate_log_lines (lines : list RunnerLogLine) : result unit ApiError :=
  if is_empty lines || (MAX_LOG_LINES <? zlen lines) then Err (bad_request §"log append requires 1..100 lines per request")
  else rfold (fun _ => validate_log_line) tt lines.

Definition format_runner_log_line (line : RunnerLogLine) : str :=
  §"[" ++ normalize_log_stream (ll_stream line) ++ §"] " ++ trim_end_matches line_break (ll_message line).

(** [lease_mutation_error] as an answer *)
Definition lease_answer (e : lease_error) : ApiError :=
  match e with
  | LeaseGone => gone §"runner lease expired"
  | LeaseNotActive => conflict_error §"lease is not active"
  | LeaseFenced => conflict_error §"lease_fenced"
  | LeaseNotFound => not_found
  end.

(** The job of a lease that may still log: it runs, or it was canceled and
    its end was not reported. *)
Definition log_lease_row (now : Z) (lease runner : N) (token_hash : str) (fencing : Z) (attempt : N) (l : ledger) : option (N * N) :=
  r ← leases l !! lease;
  j ← jobs (core l) !! le_job r;
  a ← attempts l !! le_attempt r;
  if held now runner token_hash fencing r && (le_attempt r =? attempt)%N && is_some (le_acknowledged_at r)
     && (bool_decide (job_status j = Running) && bool_decide (at_status a = Running)
         || is_some (le_cancel_requested_at r) && is_none (le_completion_received_at r)
            && bool_decide (job_status j = Canceled) && bool_decide (at_status a = Canceled))
  then Some (le_job r, le_attempt r) else None.

Record RunnerLogAppendResponse : Type := { la_protocol_version : Z; la_accepted : Z; la_next_after : option Z }.

Record log_request : Type := { lq_protocol_version : Z; lq_lease_token : str; lq_fencing_token : Z; lq_attempt : N; lq_lines : list RunnerLogLine }.

(** What happens around the statements of a request: the identifier and the
    outcome of the [i]th, and what others do before it. *)
Record interference : Type := { if_id : nat -> N; if_commit : nat -> commit; if_others : nat -> logs -> logs }.

Fixpoint append_lines (w : interference) (i : nat) (job attempt : N) (messages : list str) (accepted : Z) (next : option Z) (l : ledger) (t : logs) :
    result RunnerLogAppendResponse ApiError * logs :=
  match messages with
  | [] => (Ok {| la_protocol_version := RUNNER_PROTOCOL_VERSION; la_accepted := accepted; la_next_after := next |}, t)
  | m :: messages =>
    match append_job_log (if_commit w i) (if_id w i) job attempt m l (if_others w i t) with
    | (Ok (_, row), t) => append_lines w (S i) job attempt messages (accepted + 1) (Some (lg_sequence row)) l t
    | (Err e, t) => (Err e, t)
    end
  end.

(** [append_runner_lease_logs] *)
Definition append_runner_lease_logs (hash_token : str -> str) (now : Z) (w : interference) (lease : N) (authenticated : result N ApiError) (input : log_request)
    (l : ledger) (t : logs) : result RunnerLogAppendResponse ApiError * logs :=
  let admitted :=
    let? _ := check_protocol_version (lq_protocol_version input) in
    if (lq_fencing_token input <? 1) || is_empty (trim (lq_lease_token input)) then Err (bad_request §"lease token and fencing token are required")
    else
      let? _ := validate_log_lines (lq_lines input) in
      let? runner := authenticated in
      ok_or (log_lease_row now lease runner (hash_token (trim (lq_lease_token input))) (lq_fencing_token input) (lq_attempt input) l)
        (lease_answer (lease_mutation_error now lease runner l)) in
  match admitted with
  | Err e => (Err e, t)
  | Ok (job, attempt) => append_lines w 0 job attempt (map format_runner_log_line (lq_lines input)) 0 None l t
  end.

(** [append_log] of the API *)
Definition append_log (c : commit) (now : Z) (new_attempt id job : N) (message : str) (l : ledger) (t : logs) :
    result (N * log_row) ApiError * ledger * logs :=
  if is_empty (trim message) then (Err (bad_request §"message is required"), l, t)
  else match active_or_latest_attempt_id now new_attempt job l with
       | Err RowNotFound => (Err not_found, l, t)
       | Err _ => (Err internal, l, t)
       | Ok (attempt, l') => let (r, t') := append_job_log c id job attempt (trim message) l' t in (r, l', t')
       end.

(** ** Reading *)

(** [ORDER BY sequence] *)
Definition by_sequence (x y : N * log_row) : Prop := lg_sequence x.2 <= lg_sequence y.2.
#[export] Instance by_sequence_dec : RelDecision by_sequence.
Proof. intros x y. unfold by_sequence. apply _. Defined.

Definition sorted_rows (p : log_row -> bool) (t : logs) : list log_row := map snd (merge_sort by_sequence (select (fun _ => p) t)).

Definition read_logs (job attempt : N) (t : logs) : list log_row := sorted_rows (fun r => (lg_job r =? job)%N && (lg_attempt r =? attempt)%N) t.

(** [ensure_attempt_belongs_to_job] *)
Definition ensure_attempt_belongs_to_job (job attempt : N) (l : ledger) : result unit ApiError :=
  match attempts l !! attempt with Some a => if (at_job a =? job)%N then Ok tt else Err not_found | None => Err not_found end.

Definition list_attempt_logs (job attempt : N) (l : ledger) (t : logs) : result (list log_row) ApiError :=
  let? _ := ensure_attempt_belongs_to_job job attempt l in Ok (read_logs job attempt t).

(** *** Patterns *)

Definition like_contains_pattern (value : str) : str :=
  §"%" ++ flat_map (fun c => if (c =? 37)%N || (c =? 95)%N || (c =? 92)%N then [92%N; c] else [c]) value ++ §"%".

(** [text LIKE pattern ESCAPE '\'] *)
Fixpoint like (pattern : str) : str -> bool :=
  match pattern with
  | [] => is_empty
  | 37%N :: pattern =>
    fix any (text : str) : bool := like pattern text || match text with [] => false | _ :: text => any text end
  | 95%N :: pattern => fun text => match text with [] => false | _ :: text => like pattern text end
  | 92%N :: c :: pattern => fun text => match text with d :: text => (d =? c)%N && like pattern text | [] => false end
  | c :: pattern => fun text => match text with d :: text => (d =? c)%N && like pattern text | [] => false end
  end.

(** *** Pages *)

Record LogPageParams : Type := { lp_after : option Z; lp_before : option Z; lp_limit : option Z; lp_q : option str }.

Definition before_sequence (p : LogPageParams) : result (option Z) ApiError :=
  match lp_before p with
  | None => Ok None
  | Some before => if before <=? 0 then Err (bad_request §"before must be greater than 0") else Ok (Some before)
  end.

Definition after_sequence (p : LogPageParams) : result Z ApiError :=
  let after := default 0 (lp_after p) in if after <? 0 then Err (bad_request §"after must be greater than or equal to 0") else Ok after.

Definition bounded_limit (p : LogPageParams) : result Z ApiError :=
  let limit := default 200 (lp_limit p) in if in_range 1 200 limit then Ok limit else Err (bad_request §"limit must be between 1 and 200").

Definition search_pattern (p : LogPageParams) : result (option str) ApiError :=
  match (q ← lp_q p; let q := trim q in if is_empty q then None else Some q) with
  | None => Ok None
  | Some raw => if 128 <? zlen raw then Err (bad_request §"q must be at most 128 characters") else Ok (Some (like_contains_pattern raw))
  end.

Record JobLogPage : Type := { jp_items : list log_row; jp_next_after : option Z; jp_total : Z; jp_has_more_before : bool }.

Section pages.
(** The letters [ILIKE] does not tell apart. *)
Context (lower : str -> str).

Definition found (pattern : option str) (r : log_row) : bool :=
  match pattern with Some p => like (lower p) (lower (lg_message r)) | None => true end.

Definition page_rows (job attempt : N) (cursor : Z -> bool) (pattern : option str) (r : log_row) : bool :=
  (lg_job r =? job)%N && (lg_attempt r =? attempt)%N && cursor (lg_sequence r) && found pattern r.

(** [log_page]; the rows are read first ([t]), then they are counted ([t']). *)
Definition log_page (job attempt : N) (params : LogPageParams) (t t' : logs) : result JobLogPage ApiError :=
  let? limit := bounded_limit params in
  let? pattern := search_pattern params in
  let? before := before_sequence params in
  match before with
  | Some before =>
    let p := page_rows job attempt (fun n => n <? before) pattern in
    let rows := take (Z.to_nat (limit + 1)) (rev (sorted_rows p t)) in
    let has_more := limit <? zlen rows in
    let items := rev (take (Z.to_nat limit) rows) in
    let total := zlen (select (fun _ => p) t') in
    Ok {| jp_items := items;
          jp_next_after := if has_more then lg_sequence <$> head items
                           else n ← lg_sequence <$> last items; if zlen items <? total then Some n else None;
          jp_total := total; jp_has_more_before := has_more |}
  | None =>
    let? after := after_sequence params in
    let p := page_rows job attempt (fun n => after <? n) pattern in
    let items := take (Z.to_nat limit) (take (Z.to_nat (limit + 1)) (sorted_rows p t)) in
    let total := zlen (select (fun _ => p) t') in
    Ok {| jp_items := items;
          jp_next_after := n ← lg_sequence <$> last items; if zlen items <? total then Some n else None;
          jp_total := total; jp_has_more_before := false |}
  end.

Definition list_attempt_logs_page (job attempt : N) (params : LogPageParams) (l : ledger) (t t' : logs) : result JobLogPage ApiError :=
  let? _ := ensure_attempt_belongs_to_job job attempt l in log_page job attempt params t t'.
End pages.

(** *** The live stream *)

Inductive stream_event : Type := LogEvent (sequence : Z) (message : str) | DoneEvent (status : JobStatus).

(** What one turn of [job_log_stream] reads: the rows, and then the status of
    the job; either read may fail. *)
Record stream_turn : Type := { tn_rows : option logs; tn_status : option JobStatus }.

Definition poll_stream (job attempt : N) (after : Z) (rows : option logs) : list log_row :=
  match rows with
  | Some t => sorted_rows (fun r => (lg_job r =? job)%N && (lg_attempt r =? attempt)%N && (after <? lg_sequence r)) t
  | None => []
  end.

Definition finished_status (status : option JobStatus) : option JobStatus := s ← status; if is_terminal s then Some s else None.

Fixpoint job_log_stream (job attempt : N) (after : Z) (turns : list stream_turn) : list stream_event :=
  match turns with
  | [] => []
  | turn :: turns =>
    let rows := poll_stream job attempt after (tn_rows turn) in
    map (fun r => LogEvent (lg_sequence r) (lg_message r)) rows ++
    match finished_status (tn_status turn) with
    | Some status => [DoneEvent status]
    | None => job_log_stream job attempt (default after (lg_sequence <$> last rows)) turns
    end
  end.
