(* ===== verification/JobLogTheorems.v ===== *)
(** * The logs of jobs: what is written stays, in order, and can be read

    The rows of an attempt are numbered from one without gaps, whoever writes
    them and however statements interleave. *)
From Stdlib Require Import Sorting.Sorted.
From S2P Require Import Prelude Status Table Ledger LedgerHandlers Outbox Api Runners Uploads JobLogs.
Local Open Scope Z_scope.

(** ** Interleavings *)

(** [zs] has the elements of [xs] and of [ys], each in their order. *)
Inductive merges {A} : list A -> list A -> list A -> Prop :=
| merges_nil : merges [] [] []
| merges_left x xs ys zs : merges xs ys zs -> merges (x :: xs) ys (x :: zs)
| merges_right y xs ys zs : merges xs ys zs -> merges xs (y :: ys) (y :: zs).

Lemma merges_app {A} (a b c a' b' c' : list A) : merges a b c -> merges a' b' c' -> merges (a ++ a') (b ++ b') (c ++ c').
Proof. induction 1; intros Hm; cbn; [done|constructor; auto..]. Qed.

Lemma merges_others {A} (l : list A) : merges [] l l.
Proof. induction l; by constructor. Qed.

Lemma merges_own {A} (l : list A) : merges l [] l.
Proof. induction l; by constructor. Qed.

(** ** The messages of an attempt *)

Section logs.
(** The job of each attempt. *)
Context (owner : N -> N).

Definition row_of (attempt : N) (i : nat) (m : str) : log_row :=
  {| lg_job := owner attempt; lg_attempt := attempt; lg_sequence := Z.of_nat i + 1; lg_message := m |}.

Record attempt_logs (attempt : N) (messages : list str) (t : logs) : Prop := {
  al_row : forall k r, t !! k = Some r -> lg_attempt r = attempt -> exists i m, messages !! i = Some m /\ r = row_of attempt i m;
  al_message : forall i m, messages !! i = Some m -> exists k, t !! k = Some (row_of attempt i m) }.

Definition logs_wf (t : logs) : Prop := valid_table t /\ forall attempt, exists messages, attempt_logs attempt messages t.

Definition rows_from (attempt : N) (messages : list str) : list log_row := imap (row_of attempt) messages.

Lemma rows_from_lookup attempt messages i : rows_from attempt messages !! i = row_of attempt i <$> messages !! i.
Proof. apply list_lookup_imap. Qed.

Lemma elem_of_rows_from attempt messages r : r ∈ rows_from attempt messages <-> exists i m, messages !! i = Some m /\ r = row_of attempt i m.
Proof.
  unfold rows_from. rewrite elem_of_lookup_imap. split; intros (i & m & H1 & H2); exists i, m; done.
Qed.

Definition sequence_le (x y : log_row) : Prop := lg_sequence x <= lg_sequence y.

Lemma rows_from_sorted attempt messages : StronglySorted sequence_le (rows_from attempt messages).
Proof.
  induction messages as [|m messages IH] using rev_ind; [constructor|]. unfold rows_from in *. rewrite imap_app. apply StronglySorted_app. split.
  - intros x y Hx Hy. apply elem_of_rows_from in Hx as (i & m' & Hi & ->). apply lookup_lt_Some in Hi. cbn in Hy.
    apply list_elem_of_singleton in Hy as ->. unfold sequence_le. cbn. lia.
  - split; [done|]. repeat constructor.
Qed.

Lemma rows_from_NoDup attempt messages : NoDup (rows_from attempt messages).
Proof.
  apply NoDup_alt. intros i j x. rewrite !rows_from_lookup. destruct (messages !! i), (messages !! j); cbn; try done. intros [= <-] [= E _]. lia.
Qed.

Lemma sorted_filter (p : log_row -> bool) l : StronglySorted sequence_le l -> StronglySorted sequence_le (List.filter p l).
Proof.
  induction 1 as [|x l Hl IH Hx]; cbn; [constructor|]. destruct (p x); [|done]. constructor; [done|]. apply Forall_forall. intros y Hy.
  apply list_elem_of_In, filter_In in Hy as [Hy _]. apply list_elem_of_In in Hy. by apply (proj1 (Forall_forall _ _) Hx).
Qed.

Lemma sorted_map_snd (l : list (N * log_row)) : StronglySorted by_sequence l -> StronglySorted sequence_le (map snd l).
Proof.
  induction 1 as [|x l Hl IH Hx]; cbn; constructor; [done|]. apply Forall_forall. intros y (z & -> & Hz)%list_elem_of_fmap.
  by apply (proj1 (Forall_forall _ _) Hx z).
Qed.

#[local] Instance by_sequence_total : Total by_sequence.
Proof. intros x y. unfold by_sequence. lia. Qed.
#[local] Instance by_sequence_trans : Transitive by_sequence.
Proof. intros x y z. unfold by_sequence. lia. Qed.

(** A query of the rows of one attempt. *)
Lemma sorted_rows_spec p attempt messages t :
  valid_table t -> attempt_logs attempt messages t -> (forall r, p r = true -> lg_attempt r = attempt) ->
  sorted_rows p t = List.filter p (rows_from attempt messages).
Proof.
  intros Ht [Hr Hm] Hp. unfold sorted_rows.
  assert (Hin : forall r, r ∈ map snd (select (fun _ => p) t) <-> r ∈ List.filter p (rows_from attempt messages)).
  { intros r. rewrite (list_elem_of_In (List.filter _ _)), filter_In, <- list_elem_of_In, elem_of_rows_from, list_elem_of_fmap. split.
    - intros ([k w] & -> & [Hk Hpk]%elem_of_select). split; [|done]. eapply Hr; [done|]. by apply Hp.
    - intros ((i & m & Hi & ->) & Hpr). destruct (Hm i m Hi) as [k Hk]. exists (k, row_of attempt i m). split; [done|]. by apply elem_of_select. }
  assert (Hnd : NoDup (map snd (select (fun _ => p) t))).
  { apply NoDup_fmap_2_strong; [|apply NoDup_ListNoDup, List.NoDup_filter, NoDup_ListNoDup, NoDup_map_to_list].
    intros [k r] [k' r'] [Hk Hpk]%elem_of_select [Hk' _]%elem_of_select. cbn. intros <-. destruct (decide (k = k')) as [->|Hne]; [done|].
    pose proof (vt_unique _ Ht k k' r r Hne Hk Hk') as Hu. cbn in Hu. by rewrite N.eqb_refl, Z.eqb_refl in Hu. }
  apply (StronglySorted_unique_strong sequence_le).
  - intros x y Hx Hy. rewrite merge_sort_Permutation in Hx. apply Hin in Hx. apply list_elem_of_In, filter_In in Hx as [Hx _].
    apply list_elem_of_In, filter_In in Hy as [Hy _]. apply list_elem_of_In, elem_of_rows_from in Hx as (i & m & Hi & ->).
    apply list_elem_of_In, elem_of_rows_from in Hy as (j & m' & Hj & ->). unfold sequence_le. cbn. intros H1 H2. assert (i = j) as -> by lia. congruence.
  - apply sorted_map_snd, StronglySorted_merge_sort; apply _.
  - apply sorted_filter, rows_from_sorted.
  - rewrite merge_sort_Permutation. apply NoDup_Permutation; [done| |done]. apply NoDup_ListNoDup, List.NoDup_filter, NoDup_ListNoDup, rows_from_NoDup.
Qed.

Definition messages_of (attempt : N) (t : logs) : list str := map lg_message (sorted_rows (fun r => (lg_attempt r =? attempt)%N) t).

Lemma filter_all {A} (p : A -> bool) l : (forall x, x ∈ l -> p x = true) -> List.filter p l = l.
Proof. induction l as [|x l IH]; intros Hp; cbn; [done|]. rewrite (Hp x) by left. f_equal. apply IH. intros y Hy. apply Hp. by right. Qed.

Lemma rows_from_messages attempt messages : map lg_message (rows_from attempt messages) = messages.
Proof. apply list_eq. intros i. rewrite list_lookup_fmap, rows_from_lookup. by destruct (messages !! i). Qed.

Lemma messages_of_spec attempt messages t : valid_table t -> attempt_logs attempt messages t -> messages_of attempt t = messages.
Proof.
  intros Ht Ha. unfold messages_of. rewrite (sorted_rows_spec _ attempt messages t Ht Ha), filter_all; [apply rows_from_messages| |].
  - intros r (i & m & _ & ->)%elem_of_rows_from. cbn. apply N.eqb_refl.
  - intros r ?%N.eqb_eq. done.
Qed.

Lemma wf_messages attempt t : logs_wf t -> attempt_logs attempt (messages_of attempt t) t.
Proof. intros [Ht Ha]. destruct (Ha attempt) as [ms Hm]. by rewrite (messages_of_spec attempt ms t Ht Hm). Qed.

Lemma wf_query p attempt t : logs_wf t -> (forall r, p r = true -> lg_attempt r = attempt) ->
  sorted_rows p t = List.filter p (rows_from attempt (messages_of attempt t)).
Proof. intros Hw Hp. apply sorted_rows_spec; [apply Hw|by apply wf_messages|done]. Qed.

(** Reading gives every row of the attempt in its place. *)
Lemma read_logs_spec attempt t : logs_wf t -> read_logs (owner attempt) attempt t = rows_from attempt (messages_of attempt t).
Proof.
  intros Hw. unfold read_logs. rewrite (wf_query _ attempt t Hw).
  - apply filter_all. intros r (i & m & _ & ->)%elem_of_rows_from. cbn. by rewrite !N.eqb_refl.
  - intros r [_ ?%N.eqb_eq]%andb_true_iff. done.
Qed.

(** ** Appending *)

Lemma max_sequence attempt messages t : attempt_logs attempt messages t -> max_of lg_sequence (of_attempt attempt) t = zlen messages.
Proof.
  intros [Hr Hm]. apply Z.le_antisymm.
  - unfold max_of. destruct (select_max _ _ _) as [[k r]|] eqn:E; [|unfold zlen; lia]. apply select_max_Some in E as [Hk Ho%N.eqb_eq].
    destruct (Hr k r Hk Ho) as (i & m & Hi & ->). apply lookup_lt_Some in Hi. cbn. unfold zlen. lia.
  - destruct (length messages) as [|n] eqn:E; [unfold zlen; rewrite E; apply max_of_nonneg|].
    destruct (lookup_lt_is_Some_2 messages n) as [m Hi]; [lia|]. destruct (Hm n m Hi) as [k Hk].
    pose proof (max_of_ge lg_sequence (of_attempt attempt) t k _ Hk) as Hge. unfold of_attempt in Hge at 1. cbn in Hge. rewrite N.eqb_refl in Hge.
    specialize (Hge eq_refl). unfold zlen. lia.
Qed.

(** The ledger agrees on the jobs of the attempts. *)
Definition owns_attempts (l : ledger) : Prop := forall k a, attempts l !! k = Some a -> at_job a = owner k.

(** The logs only grow, at their ends. *)
Definition logs_le (t t' : logs) : Prop := logs_wf t' /\ forall attempt, messages_of attempt t `prefix_of` messages_of attempt t'.

Lemma insert_log_spec id attempt message t t' :
  logs_wf t -> insert_row id (row_of attempt (length (messages_of attempt t)) message) t = Ok t' ->
  logs_wf t' /\ messages_of attempt t' = messages_of attempt t ++ [message] /\ forall a, a <> attempt -> messages_of a t' = messages_of a t.
Proof.
  intros Hw Hi. pose proof (insert_row_valid _ _ _ _ (proj1 Hw) Hi) as Ht'. apply insert_row_Ok in Hi as (Hid & -> & _ & _).
  assert (Hown : attempt_logs attempt (messages_of attempt t ++ [message]) (<[id := row_of attempt (length (messages_of attempt t)) message]> t)).
  { destruct (wf_messages attempt t Hw) as [Hr Hm]. split.
    - intros k r. rewrite lookup_insert_Some. intros [[<- <-]|[Hne Hk]] Hat.
      + exists (length (messages_of attempt t)), message. split; [|done]. by rewrite lookup_app_r, Nat.sub_diag by lia.
      + destruct (Hr k r Hk Hat) as (i & m & E & ->). exists i, m. split; [|done]. rewrite lookup_app_l; [done|]. by eapply lookup_lt_Some.
    - intros i m [E|[Hge E]]%lookup_app_Some.
      + destruct (Hm i m E) as [k Hk]. exists k. rewrite lookup_insert_ne; [done|]. intros ->. congruence.
      + apply list_lookup_singleton_Some in E as [E <-]. exists id. rewrite lookup_insert_eq. do 2 f_equal. lia. }
  assert (Hoth : forall a, a <> attempt -> attempt_logs a (messages_of a t) (<[id := row_of attempt (length (messages_of attempt t)) message]> t)).
  { intros a Hne. destruct (wf_messages a t Hw) as [Hr Hm]. split.
    - intros k r. rewrite lookup_insert_Some. intros [[<- <-]|[_ Hk]] Hat; [cbn in Hat; congruence|by eapply Hr].
    - intros i m E. destruct (Hm i m E) as [k Hk]. exists k. rewrite lookup_insert_ne; [done|]. intros ->. congruence. }
  split; [split; [done|]|split].
  - intros a. destruct (decide (a = attempt)) as [->|Hne]; [by eexists|]. eexists. by apply Hoth.
  - by apply messages_of_spec.
  - intros a Hne. apply messages_of_spec; [done|by apply Hoth].
Qed.

(** Nothing was written, or one line at the end of its attempt. *)
Lemma append_job_log_spec c id job attempt message l t res t' :
  owns_attempts l -> append_job_log c id job attempt message l t = (res, t') ->
  (t' = t /\ res = Err internal) \/
  (exists row, (res = Ok (id, row) \/ res = Err internal) /\
   (logs_wf t -> logs_wf t' /\ messages_of attempt t' = messages_of attempt t ++ [message] /\ (forall a, a <> attempt -> messages_of a t' = messages_of a t) /\
     row = row_of attempt (length (messages_of attempt t)) message)).
Proof.
  intros Ho. unfold append_job_log. destruct (attempts l !! attempt) as [a|] eqn:Ea; cbn [ok_or rbind]; [|intros [= <- <-]; by left].
  destruct (N.eqb_spec (at_job a) job) as [<-|]; [|intros [= <- <-]; by left]. rewrite (Ho attempt a Ea).
  unfold next_attempt_log_sequence. cbv zeta. destruct (i32_max <? _); cbn [rbind]; [intros [= <- <-]; by left|].
  destruct (insert_row _ _ _) as [u|] eqn:Ei; cbn [rbind]; [|intros [= <- <-]; by left].
  assert (Hu : logs_wf t -> logs_wf u /\ messages_of attempt u = messages_of attempt t ++ [message] /\ (forall a, a <> attempt -> messages_of a u = messages_of a t) /\
    {| lg_job := owner attempt; lg_attempt := attempt; lg_sequence := max_of lg_sequence (of_attempt attempt) t + 1; lg_message := message |}
    = row_of attempt (length (messages_of attempt t)) message).
  { intros Hw. rewrite (max_sequence _ _ _ (wf_messages attempt t Hw)) in *.
    destruct (insert_log_spec id attempt message t u Hw Ei) as (H1 & H2 & H3). done. }
  destruct c as [|e [|]]; intros [= <- <-]; [right|right|by left]; eexists; (split; [|exact Hu]); [by left|by right].
Qed.

Lemma logs_le_refl t : logs_wf t -> logs_le t t.
Proof. by split. Qed.

Lemma logs_le_trans t1 t2 t3 : logs_le t1 t2 -> logs_le t2 t3 -> logs_le t1 t3.
Proof. intros [_ H1] [H2 H3]. split; [done|]. intros a. trans (messages_of a t2); auto. Qed.

Lemma append_le c id job attempt message l t res t' :
  logs_wf t -> owns_attempts l -> append_job_log c id job attempt message l t = (res, t') -> logs_le t t'.
Proof.
  intros Hw Ho [[-> _]|(row & _ & Hs)]%append_job_log_spec; [by apply logs_le_refl| |done]. destruct (Hs Hw) as (H1 & H2 & H3 & _). split; [done|].
  intros a. destruct (decide (a = attempt)) as [->|Hne]; [rewrite H2; by apply prefix_app_r|by rewrite H3].
Qed.

(** ** A request *)

(** Others only append. *)
Definition benign (w : interference) : Prop := forall i t, logs_wf t -> logs_le t (if_others w i t).

(** Between [t] and [t'] an attempt got [sent] and what others wrote. *)
Definition appended (attempt : N) (sent : list str) (t t' : logs) : Prop :=
  logs_le t t' /\ exists others tail, messages_of attempt t' = messages_of attempt t ++ tail /\ merges sent others tail.

Lemma appended_trans attempt sent1 sent2 t1 t2 t3 :
  appended attempt sent1 t1 t2 -> appended attempt sent2 t2 t3 -> appended attempt (sent1 ++ sent2) t1 t3.
Proof.
  intros [Hl1 (o1 & u1 & E1 & M1)] [Hl2 (o2 & u2 & E2 & M2)]. split; [by eapply logs_le_trans|].
  exists (o1 ++ o2), (u1 ++ u2). rewrite E2, E1, app_assoc. split; [done|by apply merges_app].
Qed.

Lemma appended_others attempt t t' : logs_le t t' -> appended attempt [] t t'.
Proof. intros [Hw Hl]. split; [done|]. destruct (Hl attempt) as [tail E]. exists tail, tail. split; [done|apply merges_others]. Qed.

Lemma append_lines_spec w l i job attempt ms acc next t res t' :
  owns_attempts l -> benign w -> append_lines w i job attempt ms acc next l t = (res, t') ->
  exists sent, sent `prefix_of` ms /\ (logs_wf t -> appended attempt sent t t') /\ (forall e, res = Err e -> e = internal) /\
  forall r, res = Ok r -> sent = ms /\ la_accepted r = acc + zlen ms /\ la_protocol_version r = RUNNER_PROTOCOL_VERSION /\
    (logs_wf t -> la_next_after r = if is_empty ms then next else Some (zlen (messages_of attempt t'))).
Proof.
  intros Ho Hb. revert i acc next t. induction ms as [|m ms IH]; intros i acc next t; cbn [append_lines].
  { intros [= <- <-]. exists []. split; [done|]. split; [intros Hw; by apply appended_others, logs_le_refl|]. split; [done|].
    intros r [= <-]. cbn. by rewrite Z.add_0_r. }
  destruct (append_job_log _ _ _ _ _ _ _) as [r1 t1] eqn:E1.
  assert (Hi : logs_wf t -> appended attempt [] t (if_others w i t)) by (intros Hw; by apply appended_others, Hb).
  destruct (append_job_log_spec _ _ _ _ _ _ _ _ _ Ho E1) as [[-> ->]|(row & Hr1 & Hs)].
  { intros [= <- <-]. exists []. split; [apply prefix_nil|]. split; [done|]. split; [congruence|done]. }
  assert (H1 : logs_wf t -> appended attempt [m] t t1).
  { intros Hw. specialize (Hi Hw). apply (appended_trans attempt [] [m] t (if_others w i t)); [done|]. destruct (Hs (proj1 (proj1 Hi))) as (_ & Em & _ & _).
    split; [by eapply append_le; [apply Hi|done|]|]. exists [], [m]. split; [done|apply merges_own]. }
  destruct Hr1 as [->| ->]; [|intros [= <- <-]; exists [m]; split; [apply prefix_cons, prefix_nil|]; split; [done|]; split; [congruence|done]].
  intros E. destruct (IH _ _ _ _ E) as (sent & Hpre & Happ & Herr & Hok). exists (m :: sent). split; [by apply prefix_cons|].
  split; [intros Hw; apply (appended_trans attempt [m] sent t t1); [by apply H1|apply Happ, H1, Hw]|]. split; [done|]. intros r ->.
  destruct (Hok r eq_refl) as (-> & Hacc & Hv & Hn). split; [done|]. split; [rewrite Hacc; unfold zlen; cbn [length]; lia|]. split; [done|].
  intros Hw. rewrite Hn by apply H1, Hw. destruct ms as [|m' ms]; [|done]. cbn [append_lines] in E. injection E as _ <-.
  destruct (Hs (proj1 (proj1 (Hi Hw)))) as (_ & Em & _ & ->). cbn [is_empty lg_sequence row_of]. f_equal. rewrite Em. unfold zlen. rewrite length_app. cbn [length]. lia.
Qed.

(** What a request does to the log of its attempt. *)
Definition request_effect (input : log_request) (res : result RunnerLogAppendResponse ApiError) (t t' : logs) : Prop :=
  exists sent, sent `prefix_of` map format_runner_log_line (lq_lines input) /\ (logs_wf t -> appended (lq_attempt input) sent t t') /\
  (forall e, res = Err e -> sent = [] \/ e = internal) /\
  forall r, res = Ok r -> sent = map format_runner_log_line (lq_lines input) /\ la_accepted r = zlen (lq_lines input) /\
    la_protocol_version r = RUNNER_PROTOCOL_VERSION /\ (logs_wf t -> la_next_after r = Some (zlen (messages_of (lq_attempt input) t'))).

Lemma append_request_spec hash_token now w lease authenticated input l t res t' :
  owns_attempts l -> benign w -> append_runner_lease_logs hash_token now w lease authenticated input l t = (res, t') -> request_effect input res t t'.
Proof.
  intros Ho Hb. unfold append_runner_lease_logs.
  assert (Hno : forall e, (Err e, t) = (res, t') -> request_effect input res t t').
  { intros e [= <- <-]. exists []. split; [apply prefix_nil|]. split; [intros Hw; by apply appended_others, logs_le_refl|]. split; [by left|done]. }
  destruct (check_protocol_version _); cbn [rbind]; [|apply Hno]. destruct (_ || _); [apply Hno|].
  destruct (validate_log_lines (lq_lines input)) eqn:Ev; cbn [rbind]; [|apply Hno]. destruct authenticated as [runner|]; cbn [rbind]; [|apply Hno].
  destruct (log_lease_row _ _ _ _ _ _ _) as [[job attempt]|] eqn:El; cbn [ok_or]; [|apply Hno].
  assert (attempt = lq_attempt input) as ->.
  { unfold log_lease_row in El. destruct (leases l !! lease) as [r|]; [|done]. cbn in El. destruct (jobs (core l) !! le_job r); [|done]. cbn in El.
    destruct (attempts l !! le_attempt r); [|done]. cbn in El. destruct (le_attempt r =? lq_attempt input)%N eqn:Ea; [|by rewrite andb_false_r in El].
    destruct (_ && _); [|done]. injection El as _ <-. by apply N.eqb_eq. }
  intros E. destruct (append_lines_spec _ _ _ _ _ _ _ _ _ _ _ Ho Hb E) as (sent & Hpre & Happ & Herr & Hok). exists sent. split; [done|]. split; [done|].
  split; [intros e He; right; by apply Herr|].
  intros r ->. destruct (Hok r eq_refl) as (-> & Hacc & Hv & Hn). split; [done|]. rewrite Hacc, Hv. unfold zlen. rewrite length_map. split; [lia|].
  split; [done|]. intros Hw. rewrite (Hn Hw). by destruct (lq_lines input).
Qed.
End logs.

(** ** Patterns *)

Lemma like_literal c p text : c <> 37%N -> c <> 95%N -> c <> 92%N ->
  like (c :: p) text = match text with d :: text => (d =? c)%N && like p text | [] => false end.
Proof.
  intros H1 H2 H3. destruct c as [|c]; [done|]. do 7 (destruct c as [c|c|]; try reflexivity; try done).
Qed.

Lemma like_any p text : like (37%N :: p) text = true <-> exists a b, text = a ++ b /\ like p b = true.
Proof.
  change (like (37%N :: p) text) with ((fix any (text : str) : bool := like p text || match text with [] => false | _ :: text => any text end) text).
  induction text as [|c text IH].
  - rewrite orb_false_r. split; [intros Hl; by exists [], []|]. intros ([|] & [|] & E & Hl); done.
  - rewrite orb_true_iff, IH. split.
    + intros [Hl|(a & b & -> & Hl)]; [by exists [], (c :: text)|by exists (c :: a), b].
    + intros ([|d a] & b & E & Hl); cbn in E; [left; by rewrite E|right]. injection E as <- ->. by exists a, b.
Qed.

Definition escaped (c : N) : str := if (c =? 37)%N || (c =? 95)%N || (c =? 92)%N then [92%N; c] else [c].

Lemma like_escaped v p text : like (flat_map escaped v ++ p) text = true <-> exists b, text = v ++ b /\ like p b = true.
Proof.
  revert text. induction v as [|c v IH]; intros text; cbn [flat_map app]; [split; [by exists text|by intros (b & -> & Hl)]|].
  rewrite <- app_assoc. set (q := flat_map escaped v ++ p) in *.
  assert (E : like (escaped c ++ q) text = match text with d :: text => (d =? c)%N && like q text | [] => false end).
  { unfold escaped. destruct (N.eqb_spec c 37) as [->|H1]; [reflexivity|]. destruct (N.eqb_spec c 95) as [->|H2]; [reflexivity|].
    destruct (N.eqb_spec c 92) as [->|H3]; [reflexivity|]. by apply like_literal. }
  rewrite E. destruct text as [|d text]; [split; [done|]; by intros (b & [=] & _)|]. rewrite andb_true_iff, N.eqb_eq, IH. split.
  - intros (-> & b & -> & Hl). by exists b.
  - intros (b & [= -> ->] & Hl). eauto.
Qed.


(** ** Pages *)

Definition sequence_lt (x y : log_row) : Prop := lg_sequence x < lg_sequence y.

Lemma rows_from_increasing owner attempt messages : StronglySorted sequence_lt (rows_from owner attempt messages).
Proof.
  induction messages as [|m messages IH] using rev_ind; [constructor|]. unfold rows_from in *. rewrite imap_app. apply StronglySorted_app. split.
  - intros x y Hx Hy. apply (elem_of_rows_from owner) in Hx as (i & m' & Hi & ->). apply lookup_lt_Some in Hi. cbn in Hy.
    apply list_elem_of_singleton in Hy as ->. unfold sequence_lt. cbn. lia.
  - split; [done|]. repeat constructor.
Qed.

Lemma filter_rejected {A} (p : A -> bool) l : (forall x, x ∈ l -> p x = false) -> List.filter p l = [].
Proof. induction l as [|x l IH]; intros Hp; cbn; [done|]. rewrite (Hp x) by left. apply IH. intros y Hy. apply Hp. by right. Qed.

Lemma filter_twice {A} (p q : A -> bool) l : List.filter p (List.filter q l) = List.filter (fun x => q x && p x) l.
Proof. induction l as [|x l IH]; cbn; [done|]. destruct (q x); cbn; [destruct (p x)|]; by rewrite IH. Qed.

Lemma increasing_filter p l : StronglySorted sequence_lt l -> StronglySorted sequence_lt (List.filter p l).
Proof.
  induction 1 as [|x l Hl IH Hx]; cbn; [constructor|]. destruct (p x); [|done]. constructor; [done|]. apply Forall_forall. intros y Hy.
  apply list_elem_of_In, filter_In in Hy as [Hy _]. apply list_elem_of_In in Hy. by apply (proj1 (Forall_forall _ _) Hx).
Qed.

(** A cut of an increasing list is all of it up to its last row. *)
Lemma take_last l k x : StronglySorted sequence_lt l -> last (take k l) = Some x -> take k l = List.filter (fun r => lg_sequence r <=? lg_sequence x) l.
Proof.
  intros Hl. revert k. induction Hl as [|y l Hl IH Hy]; intros [|k]; cbn [take last]; try done. intros Hlast. cbn [List.filter].
  destruct (take k l) as [|z u] eqn:E.
  - injection Hlast as ->. rewrite Z.leb_refl. f_equal. symmetry. apply filter_rejected. intros r Hr. apply (proj1 (Forall_forall _ _) Hy) in Hr.
    unfold sequence_lt in Hr. apply Z.leb_gt. lia.
  - rewrite <- E in *. assert (Hx : last (take k l) = Some x) by (by rewrite E in *).
    assert (Hin : x ∈ l) by (apply (subseteq_take k), last_Some_elem_of; done).
    apply (proj1 (Forall_forall _ _) Hy) in Hin. unfold sequence_lt in Hin. rewrite (proj2 (Z.leb_le _ _)) by lia. f_equal. by apply IH.
Qed.

Lemma filter_split (f : log_row -> bool) a n l : StronglySorted sequence_lt l -> a <= n ->
  List.filter (fun r => (a <? lg_sequence r) && (lg_sequence r <=? n) && f r) l ++ List.filter (fun r => (n <? lg_sequence r) && f r) l
  = List.filter (fun r => (a <? lg_sequence r) && f r) l.
Proof.
  intros Hl Han. induction Hl as [|y l Hl IH Hy]; cbn [List.filter app]; [done|].
  destruct (Z.leb_spec (lg_sequence y) n) as [Hn|Hn].
  - rewrite andb_true_r, (proj2 (Z.ltb_ge _ _) Hn). cbn [andb]. destruct ((a <? lg_sequence y) && f y); cbn [app]; by rewrite IH.
  - rewrite andb_false_r. cbn [andb]. rewrite (proj2 (Z.ltb_lt n _) Hn), (proj2 (Z.ltb_lt a _)) by lia. cbn [andb].
    assert (Hrest : forall r, r ∈ l -> n < lg_sequence r) by (intros r Hr; apply (proj1 (Forall_forall _ _) Hy) in Hr; unfold sequence_lt in Hr; lia).
    rewrite (filter_rejected (fun r => (a <? lg_sequence r) && (lg_sequence r <=? n) && f r)).
    + assert (E : List.filter (fun r => (n <? lg_sequence r) && f r) l = List.filter (fun r => (a <? lg_sequence r) && f r) l).
      { apply filter_ext_in. intros r Hr%list_elem_of_In%Hrest. rewrite (proj2 (Z.ltb_lt n _) Hr), (proj2 (Z.ltb_lt a _)) by lia. done. }
      cbn [app]. by rewrite E.
    + intros r Hr%Hrest. rewrite (proj2 (Z.leb_gt _ _) Hr). by rewrite andb_false_r.
Qed.

Section walk.
Context (owner : N -> N) (lower : str -> str) (limit : option Z) (q : option str) (attempt : N).

(** What a reader does: it asks for pages until there is no next one; page [i]
    reads the tables [seen i]. *)
Fixpoint walk_pages (fuel : nat) (after : Z) (seen : nat -> logs * logs) (i : nat) : option (list log_row) :=
  match fuel with
  | O => None
  | S fuel =>
    match log_page lower (owner attempt) attempt {| lp_after := Some after; lp_before := None; lp_limit := limit; lp_q := q |} (seen i).1 (seen i).2 with
    | Ok page =>
      match jp_next_after page with
      | None => Some (jp_items page)
      | Some next => rest ← walk_pages fuel next seen (S i); Some (jp_items page ++ rest)
      end
    | Err _ => None
    end
  end.

Definition wanted (pattern : option str) (after : Z) (r : log_row) : bool := (after <? lg_sequence r) && found lower pattern r.

Lemma page_query pattern after t : logs_wf owner t ->
  sorted_rows (page_rows lower (owner attempt) attempt (fun n => after <? n) pattern) t =
  List.filter (wanted pattern after) (rows_from owner attempt (messages_of attempt t)).
Proof.
  intros Hw. rewrite (wf_query owner _ attempt t Hw).
  - apply filter_ext_in. intros r Hr%list_elem_of_In. apply elem_of_rows_from in Hr as (i & m & _ & ->). unfold page_rows, wanted. cbn.
    by rewrite !N.eqb_refl.
  - intros r Hr. unfold page_rows in Hr. rewrite !andb_true_iff, !N.eqb_eq in Hr. tauto.
Qed.

Lemma select_length (p : log_row -> bool) (t : logs) : zlen (select (fun _ => p) t) = zlen (sorted_rows p t).
Proof. unfold zlen, sorted_rows. rewrite length_map. by rewrite merge_sort_Permutation. Qed.

Lemma rows_from_app messages more : exists tail, rows_from owner attempt (messages ++ more) = rows_from owner attempt messages ++ tail /\
  forall r, r ∈ tail -> zlen messages < lg_sequence r.
Proof.
  unfold rows_from. rewrite imap_app. eexists. split; [done|]. intros r (i & m & -> & _)%elem_of_lookup_imap. cbn. unfold zlen. lia.
Qed.

(** One page, against what is there and what will be there. *)
Lemma page_spec pattern n after t t' :
  bounded_limit {| lp_after := Some after; lp_before := None; lp_limit := limit; lp_q := q |} = Ok n ->
  search_pattern {| lp_after := Some after; lp_before := None; lp_limit := limit; lp_q := q |} = Ok pattern ->
  0 <= after -> logs_wf owner t -> logs_le owner t t' ->
  exists items total next, log_page lower (owner attempt) attempt {| lp_after := Some after; lp_before := None; lp_limit := limit; lp_q := q |} t t' =
    Ok {| jp_items := items; jp_next_after := next; jp_total := total; jp_has_more_before := false |} /\
  match next with
  | None => items = List.filter (wanted pattern after) (rows_from owner attempt (messages_of attempt t))
  | Some a => after < a <= zlen (messages_of attempt t) /\
              items = List.filter (fun r => (after <? lg_sequence r) && (lg_sequence r <=? a) && found lower pattern r) (rows_from owner attempt (messages_of attempt t))
  end.
Proof.
  intros Hlim Hq Ha Hw Hle. unfold log_page. rewrite Hlim, Hq. cbn [rbind before_sequence lp_before]. unfold after_sequence. cbn [lp_after].
  change (default 0 (Some after)) with after.
  rewrite (proj2 (Z.ltb_ge _ _) Ha). cbn [rbind]. rewrite select_length, !page_query by (done || apply Hle). do 3 eexists. split; [reflexivity|].
  set (F := List.filter (wanted pattern after) (rows_from owner attempt (messages_of attempt t))).
  assert (Hn : 1 <= n).
  { unfold bounded_limit in Hlim. destruct (in_range _ _ _) eqn:E; [|done]. injection Hlim as <-. unfold in_range in E. by apply andb_true_iff in E as [E%Z.leb_le _]. }
  assert (Ht : take (Z.to_nat n) (take (Z.to_nat (n + 1)) F) = take (Z.to_nat n) F) by (rewrite take_take; f_equal; lia). rewrite Ht.
  assert (HF : StronglySorted sequence_lt F) by apply increasing_filter, rows_from_increasing.
  destruct (last (take (Z.to_nat n) F)) as [x|] eqn:El; cbn.
  - destruct (Z.ltb_spec (zlen (take (Z.to_nat n) F)) (zlen (List.filter (wanted pattern after) (rows_from owner attempt (messages_of attempt t'))))) as [Hlt|Hge].
    + assert (Hx : x ∈ F) by (apply (subseteq_take (Z.to_nat n)), last_Some_elem_of; done).
      apply list_elem_of_In, filter_In in Hx as [Hx Hwx]. apply list_elem_of_In, elem_of_rows_from in Hx as (i & m & Hi & Ex). apply lookup_lt_Some in Hi.
      unfold wanted in Hwx. apply andb_true_iff in Hwx as [Hwx%Z.ltb_lt _]. split; [rewrite Ex in Hwx |- *; cbn [lg_sequence row_of] in *; unfold zlen; split; lia|].
      rewrite (take_last F _ x HF El). unfold F. rewrite filter_twice. apply filter_ext_in. intros r _. unfold wanted.
      rewrite <- !andb_assoc. f_equal. apply andb_comm.
    + apply take_ge. assert (Hmono : zlen F <= zlen (List.filter (wanted pattern after) (rows_from owner attempt (messages_of attempt t')))).
      { destruct Hle as [_ Hpre]. destruct (Hpre attempt) as [more ->]. destruct (rows_from_app (messages_of attempt t) more) as (tail & -> & _).
        rewrite List.filter_app. unfold zlen, F. rewrite length_app. lia. }
      unfold zlen in *. rewrite length_take in Hge. lia.
  - apply last_None in El. destruct F as [|y F']; [by rewrite take_nil|]. exfalso. destruct (Z.to_nat n) eqn:En; [lia|done].
Qed.

(** What the pages see only grows, and is a part of [final]. *)
Record growing (seen : nat -> logs * logs) (final : list str) : Prop := {
  gr_wf : forall i, logs_wf owner (seen i).1;
  gr_count : forall i, logs_le owner (seen i).1 (seen i).2;
  gr_next : forall i, logs_le owner (seen i).1 (seen (S i)).1;
  gr_final : forall i, messages_of attempt (seen i).1 `prefix_of` final }.

Lemma growing_prefix seen final i k : growing seen final -> (i <= k)%nat -> messages_of attempt (seen i).1 `prefix_of` messages_of attempt (seen k).1.
Proof.
  intros Hg. induction 1 as [|k Hk IH]; [done|]. trans (messages_of attempt (seen k).1); [done|]. apply (gr_next _ _ Hg k).
Qed.

Lemma walk_spec pattern n seen final fuel after i :
  (forall a, bounded_limit {| lp_after := Some a; lp_before := None; lp_limit := limit; lp_q := q |} = Ok n) ->
  (forall a, search_pattern {| lp_after := Some a; lp_before := None; lp_limit := limit; lp_q := q |} = Ok pattern) ->
  growing seen final -> 0 <= after -> (Z.to_nat (zlen final - after) < fuel)%nat ->
  exists k, (i <= k)%nat /\ walk_pages fuel after seen i = Some (List.filter (wanted pattern after) (rows_from owner attempt (messages_of attempt (seen k).1))).
Proof.
  intros Hl Hq Hg. revert after i. induction fuel as [|fuel IH]; intros after i Ha Hf; [lia|]. cbn [walk_pages].
  destruct (page_spec pattern n after (seen i).1 (seen i).2 (Hl after) (Hq after) Ha (gr_wf _ _ Hg i) (gr_count _ _ Hg i)) as (items & total & next & -> & Hn).
  cbn [jp_next_after jp_items]. destruct next as [a|]; [|exists i; by rewrite Hn]. destruct Hn as [Hn ->].
  destruct (gr_final _ _ Hg i) as [more Ef]. assert (Hlen : zlen final = zlen (messages_of attempt (seen i).1) + zlen more).
  { rewrite Ef. unfold zlen. rewrite length_app. lia. }
  destruct (IH a (S i)) as (k & Hk & ->); [lia|unfold zlen in *; lia|]. exists k. split; [lia|]. cbn [mbind option_bind]. f_equal.
  destruct (growing_prefix seen final i k Hg) as [later ->]; [lia|]. destruct (rows_from_app (messages_of attempt (seen i).1) later) as (tail & E & Htail).
  assert (Hcut : List.filter (fun r => (after <? lg_sequence r) && (lg_sequence r <=? a) && found lower pattern r) (rows_from owner attempt (messages_of attempt (seen i).1))
    = List.filter (fun r => (after <? lg_sequence r) && (lg_sequence r <=? a) && found lower pattern r) (rows_from owner attempt (messages_of attempt (seen i).1 ++ later))).
  { rewrite E, List.filter_app, (filter_rejected _ tail), app_nil_r; [done|]. intros r Hr%Htail. rewrite (proj2 (Z.leb_gt _ _)) by lia. by rewrite andb_false_r. }
  rewrite Hcut. apply (filter_split (found lower pattern) after a); [apply rows_from_increasing|lia].
Qed.

(** C27. Whoever follows the pages of a log to the end,
    while others write, sees every line that matches the search exactly once
    and in order, with nothing missing of what was there when the walk began;
    and the walk ends when the writers do. *)
Theorem pages_complete seen final fuel text :
  growing seen final -> (length final < fuel)%nat -> in_range 1 200 (default 200 limit) = true ->
  trim (default [] q) = text -> zlen text <= 128 ->
  exists k, walk_pages fuel 0 seen 0 = Some (List.filter (fun r => is_empty text || like (lower (like_contains_pattern text)) (lower (lg_message r)))
    (read_logs (owner attempt) attempt (seen k).1)) /\ (messages_of attempt (seen 0%nat).1) `prefix_of` messages_of attempt (seen k).1.
Proof.
  intros Hg Hf Hl Ht Hlen.
  set (pattern := if is_empty text then None else Some (like_contains_pattern text)).
  destruct (walk_spec pattern (default 200 limit) seen final fuel 0 0) as (k & _ & Hw).
  - intros a. unfold bounded_limit. cbn [lp_limit]. by rewrite Hl.
  - intros a. unfold search_pattern. cbn [lp_q]. subst pattern. rewrite <- Ht in Hlen |- *. destruct q as [v|]; [|reflexivity]. cbn [mbind option_bind].
    change (default [] (Some v)) with v in *. destruct (is_empty (trim v)); [done|]. by rewrite (proj2 (Z.ltb_ge _ _) Hlen).
  - done.
  - done.
  - rewrite Z.sub_0_r. unfold zlen. by rewrite Nat2Z.id.
  - exists k. rewrite Hw. split; [|apply (growing_prefix seen final); [done|lia]]. f_equal. rewrite read_logs_spec by apply Hg.
    apply filter_ext_in. intros r Hr%list_elem_of_In. apply elem_of_rows_from in Hr as (i & m & _ & ->). unfold wanted, found, pattern. cbn.
    rewrite (proj2 (Z.ltb_lt _ _)) by lia. by destruct (is_empty text).
Qed.
End walk.

(** ** The live stream *)

Section stream.
Context (owner : N -> N) (attempt : N).

(** The log as the stream last read it. *)
Fixpoint last_read (turns : list stream_turn) : option logs :=
  match turns with
  | [] => None
  | turn :: turns =>
    match finished_status (tn_status turn) with
    | Some _ => tn_rows turn
    | None => match last_read turns with Some t => Some t | None => tn_rows turn end
    end
  end.

Fixpoint done_status (turns : list stream_turn) : option JobStatus :=
  match turns with
  | [] => None
  | turn :: turns => match finished_status (tn_status turn) with Some s => Some s | None => done_status turns end
  end.

(** The turns read a log that only grows, from [low] on. *)
Fixpoint growing_turns (low : list str) (turns : list stream_turn) : Prop :=
  match turns with
  | [] => True
  | turn :: turns =>
    match tn_rows turn with
    | Some t => logs_wf owner t /\ low `prefix_of` messages_of attempt t /\ growing_turns (messages_of attempt t) turns
    | None => growing_turns low turns
    end
  end.

Definition log_event (r : log_row) : stream_event := LogEvent (lg_sequence r) (lg_message r).
Definition after_rows (after : Z) (messages : list str) : list log_row :=
  List.filter (fun r => after <? lg_sequence r) (rows_from owner attempt messages).

Lemma poll_spec after t : logs_wf owner t -> poll_stream (owner attempt) attempt after (Some t) = after_rows after (messages_of attempt t).
Proof.
  intros Hw. unfold poll_stream. rewrite (wf_query owner _ attempt t Hw).
  - apply filter_ext_in. intros r Hr%list_elem_of_In. apply elem_of_rows_from in Hr as (i & m & _ & ->). cbn. by rewrite !N.eqb_refl.
  - intros r Hr. rewrite !andb_true_iff, !N.eqb_eq in Hr. tauto.
Qed.

Lemma after_rows_extend after messages more :
  after_rows after messages ++ after_rows (default after (lg_sequence <$> last (after_rows after messages))) (messages ++ more) = after_rows after (messages ++ more).
Proof.
  unfold after_rows. destruct (rows_from_app owner attempt messages more) as (tail & -> & Htail). set (R := rows_from owner attempt messages).
  assert (HR : forall r, r ∈ R -> lg_sequence r <= zlen messages).
  { intros r (i & m & Hi & ->)%elem_of_rows_from. apply lookup_lt_Some in Hi. cbn. unfold zlen. lia. }
  rewrite !List.filter_app. destruct (last (List.filter (fun r => after <? lg_sequence r) R)) as [x|] eqn:El; cbn.
  - assert (Hx : x ∈ List.filter (fun r => after <? lg_sequence r) R) by (by apply last_Some_elem_of).
    apply list_elem_of_In, filter_In in Hx as [Hx Hax]. apply list_elem_of_In in Hx. apply Z.ltb_lt in Hax.
    assert (Hle : forall r, r ∈ R -> lg_sequence r <= lg_sequence x).
    { pose proof (take_last (List.filter (fun r => after <? lg_sequence r) R) (length (List.filter (fun r => after <? lg_sequence r) R)) x) as Ht.
      rewrite firstn_all in Ht. specialize (Ht (increasing_filter _ _ (rows_from_increasing owner attempt messages)) El). intros r Hr.
      destruct (Z.ltb_spec after (lg_sequence r)) as [Ha|]; [|lia].
      assert (Hin : r ∈ List.filter (fun r => after <? lg_sequence r) R) by (apply list_elem_of_In, filter_In; split; [by apply list_elem_of_In|by apply Z.ltb_lt]).
      rewrite Ht in Hin. apply list_elem_of_In, filter_In in Hin as [_ ?%Z.leb_le]. done. }
    rewrite (filter_rejected (fun r => lg_sequence x <? lg_sequence r) R) by (intros r Hr%Hle; by apply Z.ltb_ge). cbn [app]. f_equal. apply filter_ext_in.
    intros r Hr%list_elem_of_In%Htail. pose proof (HR x Hx). rewrite !(proj2 (Z.ltb_lt _ _)) by lia. done.
  - apply last_None in El. by rewrite El.
Qed.

Lemma job_log_stream_spec turns after low :
  growing_turns low turns -> after_rows after low = [] ->
  job_log_stream (owner attempt) attempt after turns =
  map log_event (after_rows after (default low (messages_of attempt <$> last_read turns))) ++ match done_status turns with Some s => [DoneEvent s] | None => [] end.
Proof.
  revert after low. induction turns as [|turn turns IH]; intros after low Hg Hlow; cbn [job_log_stream last_read done_status].
  { change (default low (messages_of attempt <$> None)) with low. by rewrite Hlow. }
  cbn [growing_turns] in Hg. destruct (tn_rows turn) as [t|].
  - destruct Hg as (Hw & Hpre & Hg). rewrite (poll_spec after t Hw). change (fun r : log_row => LogEvent (lg_sequence r) (lg_message r)) with log_event.
    destruct (finished_status (tn_status turn)) as [st|]; [done|]. set (after' := default after (lg_sequence <$> last (after_rows after (messages_of attempt t)))).
    assert (Hl : after_rows after' (messages_of attempt t) = []).
    { pose proof (after_rows_extend after (messages_of attempt t) []) as E. rewrite app_nil_r in E. fold after' in E. rewrite <- (app_nil_r (after_rows after (messages_of attempt t))) in E at 2.
      by apply app_inv_head in E. }
    rewrite (IH after' (messages_of attempt t) Hg Hl), app_assoc, <- map_app. do 2 f_equal.
    destruct (last_read turns) as [u|] eqn:Eu.
    + change (default (messages_of attempt t) (messages_of attempt <$> Some u)) with (messages_of attempt u).
      change (default low (messages_of attempt <$> Some u)) with (messages_of attempt u). assert (Hu : messages_of attempt t `prefix_of` messages_of attempt u).
      { clear -Hg Eu. revert Hg Eu. generalize (messages_of attempt t). induction turns as [|turn turns IH]; intros low Hg Eu; [done|].
        cbn [growing_turns last_read] in *. destruct (finished_status _); [rewrite Eu in Hg; by destruct Hg as (_ & ? & _)|].
        destruct (tn_rows turn) as [v|]; [destruct Hg as (_ & Hp & Hg)|].
        - destruct (last_read turns) as [w|]; [injection Eu as ->; trans (messages_of attempt v); [done|by apply IH]|by injection Eu as ->].
        - destruct (last_read turns); [by apply IH|done]. }
      destruct Hu as [more ->]. apply after_rows_extend.
    + change (default (messages_of attempt t) (messages_of attempt <$> None)) with (messages_of attempt t). by rewrite Hl, app_nil_r.
  - cbn [poll_stream map app last fmap option_fmap option_map default]. change (default after (lg_sequence <$> last [])) with after.
    destruct (finished_status (tn_status turn)) as [st|]; [change (default low (messages_of attempt <$> None)) with low; by rewrite Hlow|].
    rewrite (IH after low Hg Hlow). do 2 f_equal. by destruct (last_read turns).
Qed.

(** C28. The live stream of a log that others write shows
    every line once and in order, numbered from one, up to what it read last,
    whatever of its reads fail, and then tells the status of the job.  It reads
    the status after the lines: a line that is written in between is never
    shown. *)
Theorem stream_shows turns :
  growing_turns [] turns ->
  job_log_stream (owner attempt) attempt (-1) turns =
  imap (fun i m => LogEvent (Z.of_nat i + 1) m) (default [] (messages_of attempt <$> last_read turns)) ++
  match done_status turns with Some s => [DoneEvent s] | None => [] end.
Proof.
  intros Hg. rewrite (job_log_stream_spec turns (-1) [] Hg eq_refl). f_equal. unfold after_rows. rewrite filter_all.
  - apply list_eq. intros i. rewrite list_lookup_fmap, rows_from_lookup, list_lookup_imap. by destruct (_ !! i).
  - intros r (i & m & _ & ->)%elem_of_rows_from. apply Z.ltb_lt. cbn. lia.
Qed.
End stream.
