(* ===== verification/LogClient.v ===== *)
(** * Logs of an external runner: [bin/forge-runner.rs]

    The runner splits the output of a command into lines, masks the secrets,
    and posts the lines one by one or in batches.  The server is what a class
    promises; the clock and the sizes of encoded requests come with it. *)
From S2P Require Import Prelude Outbox Api Runners JobLogs.
Local Open Scope Z_scope.

Definition LOG_BATCH_MAX_LINES : Z := 100.
Definition LOG_BATCH_MAX_BYTES : Z := 256 * 1024.
Definition LOG_APPEND_MAX_BYTES : Z := 1024 * 1024.
Definition LOG_APPEND_MAX_ATTEMPTS : nat := 3.
Definition LOG_APPEND_RETRY_BUDGET : Z := 75 * 1000000000.

(** ** Messages *)

Definition mask_secrets (value : str) (masks : list str) : str :=
  foldl (fun masked secret => if is_empty secret then masked else replace secret §"***" masked) value masks.

Definition truncate_log_message (value : str) : str := take (Z.to_nat 8192) value.
Definition protocol_log_message (value : str) : str := truncate_log_message (replace [10%N] §"\n" (replace [13%N] §"\r" value)).

(** [read_line] until the end of the output: the line breaks stay. *)
Fixpoint output_lines (output : str) : list str :=
  match output with
  | [] => []
  | c :: output =>
    if (c =? 10)%N then [c] :: output_lines output
    else match output_lines output with [] => [[c]] | l :: ls => (c :: l) :: ls end
  end.

(** ** Requests *)

Record LogAppendAck : Type := { ack_protocol_version : Z; ack_accepted : Z; ack_next_after : option Z }.

(** No response, or a response with its [Retry-After], when that is readable,
    and the acknowledgement in its body, when there is a valid one. *)
Inductive log_answer : Type := Unreachable | Answered (status : Z) (retry_after : option str) (ack : option LogAppendAck).

(** What the runner does to the world. *)
Class LogServer (W : Type) : Type := {
  post : W -> list RunnerLogLine -> log_answer * W;
  clock : W -> Z;
  sleep : Z -> W -> W;
  (** [serde_json] *)
  line_bytes : RunnerLogLine -> Z;
  body_bytes : list RunnerLogLine -> Z;
  parse_rfc2822 : str -> option Z }.

Section client.
Context `{LogServer W} (masks : list str).

Definition log_retry_delay (value : option str) (now : Z) : Z :=
  match value with
  | Some v =>
    match parse_unsigned 18446744073709551615 v with
    | Some n => n * 1000000000
    | None => match parse_rfc2822 v with Some date => Z.max 0 (date - now) | None => 60 * 1000000000 end
    end
  | None => 60 * 1000000000
  end.

Definition acknowledges (lines : list RunnerLogLine) (ack : LogAppendAck) : bool :=
  (ack_protocol_version ack =? RUNNER_PROTOCOL_VERSION) && (ack_accepted ack =? zlen lines)
  && match ack_next_after ack with Some n => 0 <=? n | None => false end.

(** The attempts of [append_log_batch]; [tries] of them remain. *)
Fixpoint append_attempts (tries : nat) (deadline : Z) (lines : list RunnerLogLine) (retry : bool) (w : W) : result unit str * W :=
  match tries with
  | O => (Err §"unreachable", w)
  | S tries =>
    if Z.max 0 (deadline - clock w) =? 0 then (Err §"runner log rate-limit retry budget exhausted", w)
    else
      match post w lines with
      | (Unreachable, w) => (Err §"append runner logs request failed; append outcome is unknown", w)
      | (Answered status after ack, w) =>
        if retry && (status =? 429) then
          let delay := log_retry_delay after (clock w) in
          if match tries with O => true | S _ => false end || (Z.max 0 (deadline - clock w) <=? delay)
          then (Err §"runner log rate-limit retry budget exhausted", w)
          else append_attempts tries deadline lines retry (sleep delay w)
        else
          match ack with
          | Some ack =>
            if negb (in_range 200 299 status) then (Err §"append runner logs failed; append outcome is unknown", w)
            else if acknowledges lines ack then (Ok tt, w)
            else (Err §"runner log acknowledgement does not match the full batch", w)
          | None => (Err §"append runner logs failed; append outcome is unknown", w)
          end
      end
  end.

Definition append_log_batch (lines : list RunnerLogLine) (retry_rate_limit : bool) (w : W) : result unit str * W :=
  if is_empty lines || (LOG_BATCH_MAX_LINES <? zlen lines) then (Err §"invalid runner log batch size", w)
  else if LOG_APPEND_MAX_BYTES <? body_bytes lines then (Err §"runner log request exceeds body limit", w)
  else append_attempts LOG_APPEND_MAX_ATTEMPTS (clock w + LOG_APPEND_RETRY_BUDGET) lines retry_rate_limit w.

Definition append_log_lines (lines : list RunnerLogLine) (w : W) : result unit str * W := append_log_batch lines false w.

(** ** Live output *)

Definition runner_line (stream raw : str) : RunnerLogLine := {| ll_stream := stream; ll_message := protocol_log_message (mask_secrets raw masks) |}.

(** [stream_output_to_logs]: after a failure the output is read on, and the
    first failure is answered. *)
Fixpoint stream_lines (stream : str) (lines : list str) (upload_error : option str) (w : W) : result unit str * W :=
  match lines with
  | [] => (match upload_error with Some e => Err e | None => Ok tt end, w)
  | line :: lines =>
    match upload_error with
    | Some _ => stream_lines stream lines upload_error w
    | None =>
      match append_log_lines [runner_line stream (trim_end_matches line_break line)] w with
      | (Ok _, w) => stream_lines stream lines None w
      | (Err e, w) => stream_lines stream lines (Some e) w
      end
    end
  end.

(** A line that cannot be read, because it is not text or the pipe breaks, ends
    it at once. *)
Definition stream_output_to_logs (stream output : str) (broken : option str) (w : W) : result unit str * W :=
  match stream_lines stream (output_lines output) None w with
  | (r, w) => (match broken with Some e => Err e | None => r end, w)
  end.

(** ** Batches *)

Record RunnerLogBatch : Type := { lb_lines : list RunnerLogLine; lb_encoded_bytes : Z }.
Definition empty_batch : RunnerLogBatch := {| lb_lines := []; lb_encoded_bytes := 0 |}.

Definition flush_batch (b : RunnerLogBatch) (w : W) : result RunnerLogBatch str * W :=
  if is_empty (lb_lines b) then (Ok b, w)
  else match append_log_batch (lb_lines b) true w with
       | (Ok _, w) => (Ok empty_batch, w)
       | (Err e, w) => (Err e, w)
       end.

Definition push_line (raw : str) (b : RunnerLogBatch) (w : W) : result RunnerLogBatch str * W :=
  let line := runner_line §"stdout" raw in
  let bytes := line_bytes line + 1 in
  let room :=
    if negb (is_empty (lb_lines b)) && ((zlen (lb_lines b) =? LOG_BATCH_MAX_LINES) || (LOG_BATCH_MAX_BYTES <? lb_encoded_bytes b + bytes))
    then flush_batch b w else (Ok b, w) in
  match room with
  | (Err e, w) => (Err e, w)
  | (Ok b, w) =>
    if LOG_BATCH_MAX_BYTES <? bytes then (Err §"runner log line exceeds batch bound", w)
    else
      let b := {| lb_lines := lb_lines b ++ [line]; lb_encoded_bytes := lb_encoded_bytes b + bytes |} in
      if zlen (lb_lines b) =? LOG_BATCH_MAX_LINES then flush_batch b w else (Ok b, w)
  end.

Fixpoint push_lines (lines : list str) (b : RunnerLogBatch) (w : W) : result RunnerLogBatch str * W :=
  match lines with
  | [] => (Ok b, w)
  | line :: lines => match push_line line b w with (Ok b, w) => push_lines lines b w | (Err e, w) => (Err e, w) end
  end.

(** [forward_kubernetes_logs]; a stream that breaks off is an error after the
    lines that were pushed. *)
Definition forward_kubernetes_logs (lines : list str) (broken : option str) (w : W) : result unit str * W :=
  match push_lines lines empty_batch w with
  | (Err e, w) => (Err e, w)
  | (Ok b, w) =>
    match broken with
    | Some e => (Err e, w)
    | None => match flush_batch b w with (Ok _, w) => (Ok tt, w) | (Err e, w) => (Err e, w) end
    end
  end.
End client.
