(* ===== verification/LogDelivery.v ===== *)
(** * From a runner's output to the rows of the server

    The client against what a server promises, the server's proof of the
    promise, and both together; and what the masking of secrets guarantees. *)
From S2P Require Import Prelude Status Table Ledger LedgerHandlers Outbox Api Runners Uploads JobLogs JobLogTheorems LogClient.
Local Open Scope Z_scope.

(** ** Replacing *)

Lemma contains_false pat s : contains pat s = false <-> forall a b, s <> a ++ pat ++ b.
Proof.
  rewrite <- not_true_iff_false, contains_iff. split; [intros Hn a b E; apply Hn; eauto|]. intros Hn (a & b & E). by apply (Hn a b).
Qed.

(** [split_once] finds the first occurrence. *)
Lemma split_once_earliest pat s a b : pat <> [] -> split_once pat s = Some (a, b) -> contains pat a = false.
Proof.
  intros Hne. revert a. induction s as [|c s IH]; intros a; cbn [split_once].
  - destruct (strip_prefix pat []) as [r|] eqn:E; [|done]. intros [= <- _]. apply contains_false. intros u v Ev. symmetry in Ev.
    apply app_nil in Ev as [_ [Ev _]%app_nil]. done.
  - destruct (strip_prefix pat (c :: s)) as [r|] eqn:E.
    { intros [= <- _]. apply contains_false. intros u v Ev. symmetry in Ev. apply app_nil in Ev as [_ [Ev _]%app_nil]. done. }
    destruct (split_once pat s) as [[a' b']|] eqn:Es; [|done]. intros [= <- <-]. pose proof (IH a' eq_refl) as Ha. apply contains_false. intros [|d u] v Ev; cbn in Ev.
    + apply split_once_Some in Es. rewrite Es in E. assert (Hp : strip_prefix pat (c :: a' ++ pat ++ b') = Some (v ++ pat ++ b')); [|congruence].
      apply strip_prefix_Some. rewrite app_comm_cons, Ev. by rewrite <- app_assoc.
    + injection Ev as _ Ev. by apply (proj1 (contains_false _ _) Ha u v).
Qed.

(** An occurrence without the character [c] lies on one side of it. *)
Lemma contains_around c s a b : s <> [] -> c ∉ s -> contains s (a ++ c :: b) = contains s a || contains s b.
Proof.
  intros Hne Hc. apply eq_true_iff_eq. rewrite orb_true_iff, !contains_iff. split.
  - intros (u & v & E). apply app_eq_app in E as [k [[-> Ek]|[-> Ek]]].
    + apply app_eq_app in Ek as [m [[-> Em]|[-> Em]]].
      * destruct m as [|d m]; cbn in Em; [left; exists u, []; by rewrite !app_nil_r|]. injection Em as <- _. exfalso. apply Hc.
        apply elem_of_app. right. left.
      * left. by exists u, m.
    + destruct k as [|d k]; cbn in Ek.
      * destruct s as [|d s]; [done|]. injection Ek as -> Ek. exfalso. apply Hc. left.
      * injection Ek as -> ->. right. by exists k, v.
  - intros [(u & v & ->)|(u & v & ->)]; [exists u, (v ++ c :: b)|exists (a ++ c :: u), v]; by rewrite <- !app_assoc.
Qed.

Lemma replace_step f pat value s : replace_from (S f) pat value s =
  match split_once pat s with Some (before, after) => before ++ value ++ replace_from f pat value after | None => s end.
Proof. done. Qed.

(** A text without stars that is absent stays absent, and the one that is
    replaced is gone. *)
Lemma mask_keeps f pat s x : s <> [] -> 42%N ∉ s -> contains s x = false -> contains s (replace_from f pat §"***" x) = false.
Proof.
  intros Hs Hc. revert x. induction f as [|f IH]; intros x Hx; [done|]. rewrite replace_step.
  destruct (split_once pat x) as [[a b]|] eqn:E; [|done]. apply split_once_Some in E as ->.
  assert (Ha : contains s a = false).
  { apply contains_false. intros u v ->. apply (proj1 (contains_false _ _) Hx u (v ++ pat ++ b)). by rewrite <- !app_assoc. }
  assert (Hb : contains s b = false).
  { apply contains_false. intros u v ->. apply (proj1 (contains_false _ _) Hx (a ++ pat ++ u) v). by rewrite <- !app_assoc. }
  change (§"***") with [42%N; 42%N; 42%N]. cbn [app]. rewrite contains_around, Ha by done. change (42%N :: 42%N :: replace_from f pat [42%N; 42%N; 42%N] b) with ([] ++ 42%N :: [] ++ 42%N :: replace_from f pat [42%N; 42%N; 42%N] b).
  rewrite !contains_around by done. change [42%N; 42%N; 42%N] with (§"***"). rewrite (IH b Hb). unfold contains. destruct s; [done|]. by cbn.
Qed.

Lemma mask_removes f s x : s <> [] -> 42%N ∉ s -> (length x <= f)%nat -> contains s (replace_from f s §"***" x) = false.
Proof.
  intros Hs Hc. revert x. induction f as [|f IH]; intros x Hf.
  { destruct x; [|cbn in Hf; lia]. apply contains_false. intros u v E. cbn in E. symmetry in E. apply app_nil in E as [_ [E _]%app_nil]. done. }
  rewrite replace_step. destruct (split_once s x) as [[a b]|] eqn:E.
  - pose proof (split_once_earliest _ _ _ _ Hs E) as Ha. apply split_once_Some in E as ->.
    change (§"***") with [42%N; 42%N; 42%N]. cbn [app]. rewrite contains_around, Ha by done. change (42%N :: 42%N :: replace_from f s [42%N; 42%N; 42%N] b) with ([] ++ 42%N :: [] ++ 42%N :: replace_from f s [42%N; 42%N; 42%N] b).
    rewrite !contains_around by done. change [42%N; 42%N; 42%N] with (§"***"). rewrite IH.
    + unfold contains. destruct s; [done|]. by cbn.
    + rewrite !length_app in Hf. destruct s; [done|]. cbn in Hf. lia.
  - unfold contains. by rewrite E.
Qed.

(** What a runner logs never contains a secret it was told
    to hide, in whatever order and overlap secrets occur, when the secret has
    no star of its own and is not spread over several lines. *)
Theorem masks_hide value masks secret : secret ∈ masks -> secret <> [] -> 42%N ∉ secret -> contains secret (mask_secrets value masks) = false.
Proof.
  intros Hin Hne Hc. unfold mask_secrets. revert value. induction masks as [|m masks IH]; intros value; [by apply elem_of_nil in Hin|]. cbn [foldl].
  assert (Hkeep : forall masks v, contains secret v = false ->
    contains secret (foldl (fun masked s => if is_empty s then masked else replace s §"***" masked) v masks) = false).
  { intros l. induction l as [|p l IHl]; intros v Hv; cbn [foldl]; [done|]. apply IHl. destruct (is_empty p); [done|]. by apply mask_keeps. }
  apply elem_of_cons in Hin as [->|Hin]; [|by apply IH]. apply Hkeep. destruct m; [done|]. cbn [is_empty]. by apply mask_removes.
Qed.

(** ** The text of a line *)

Lemma replace_without f pat value d x : d ∉ x -> d ∉ value -> d ∉ replace_from f pat value x.
Proof.
  intros Hx Hv. revert x Hx. induction f as [|f IH]; intros x Hx; [done|]. rewrite replace_step.
  destruct (split_once pat x) as [[a b]|] eqn:E; [|done]. apply split_once_Some in E as ->. rewrite !not_elem_of_app in Hx |- *.
  split; [tauto|]. split; [done|]. apply IH. tauto.
Qed.

Lemma replace_char_gone f c value x : c ∉ value -> (length x <= f)%nat -> c ∉ replace_from f [c] value x.
Proof.
  intros Hv. revert x. induction f as [|f IH]; intros x Hf; [destruct x; [by intros ?%elem_of_nil|cbn in Hf; lia]|]. rewrite replace_step.
  destruct (split_once [c] x) as [[a b]|] eqn:E.
  - assert (Ha : contains [c] a = false) by (by eapply split_once_earliest). apply split_once_Some in E as ->. rewrite !not_elem_of_app.
    split; [|split; [done|apply IH; rewrite !length_app in Hf; cbn in Hf; lia]]. intros (u & v & ->)%list_elem_of_split. by apply (proj1 (contains_false _ _) Ha u v).
  - intros (u & v & ->)%list_elem_of_split. assert (Hc : contains [c] (u ++ c :: v) = true) by (apply contains_iff; by exists u, v).
    unfold contains in Hc. by rewrite E in Hc.
Qed.

Lemma escapes_single_line : (10%N ∉ §"\n") /\ (10%N ∉ §"\r") /\ 13%N ∉ §"\r" /\ 13%N ∉ §"\n".
Proof. by split_and!; apply (bool_decide_eq_true_1 _); vm_compute. Qed.

Lemma protocol_single_line v c : c ∈ protocol_log_message v -> line_break c = false.
Proof.
  intros Hin%subseteq_take. unfold line_break. apply orb_false_iff. rewrite !N.eqb_neq. destruct escapes_single_line as (H1 & H2 & H3 & H4).
  split; intros ->; revert Hin; unfold replace; [|by apply replace_char_gone]. apply replace_without; [|done]. by apply replace_char_gone.
Qed.

Lemma trim_end_keeps f s : (forall c, c ∈ s -> f c = false) -> trim_end_matches f s = s.
Proof.
  intros Hf. unfold trim_end_matches. destruct (rev s) as [|c u] eqn:E; [apply (f_equal (@rev _)) in E; by rewrite rev_involutive in E|].
  cbn [drop_while]. rewrite Hf; [by rewrite <- E, rev_involutive|]. apply list_elem_of_In, in_rev. rewrite E. by left.
Qed.

Definition tagged (stream text : str) : str := §"[" ++ stream ++ §"] " ++ text.

Lemma runner_line_text masks stream raw : stream ∈ [§"stdout"; §"stderr"; §"system"] ->
  format_runner_log_line (runner_line masks stream raw) = tagged stream (protocol_log_message (mask_secrets raw masks)).
Proof.
  intros Hs. unfold format_runner_log_line, runner_line, tagged. cbn [ll_stream ll_message]. rewrite (trim_end_keeps line_break) by apply protocol_single_line.
  assert (En : normalize_log_stream stream = stream).
  { rewrite !elem_of_cons, elem_of_nil in Hs. destruct Hs as [->|[->|[->|[]]]]; vm_compute; reflexivity. }
  by rewrite En.
Qed.

(** ** What a server promises *)

(** [arrived w sent w']: between [w] and [w'] exactly the lines [sent] were
    written for this runner, in their order. *)
Class LogServerLaws (W : Type) `{LogServer W} : Type := {
  arrived : W -> list RunnerLogLine -> W -> Prop;
  arrived_refl : forall w, arrived w [] w;
  arrived_trans : forall w1 a w2 b w3, arrived w1 a w2 -> arrived w2 b w3 -> arrived w1 (a ++ b) w3;
  arrived_sleep : forall w d, arrived w [] (sleep d w);
  arrived_post : forall w lines answer w', post w lines = (answer, w') ->
    exists sent, sent `prefix_of` lines /\ arrived w sent w' /\
    match answer with
    | Answered status _ ack =>
      (status = 429 -> sent = []) /\
      forall a, ack = Some a -> in_range 200 299 status = true -> ack_accepted a = zlen lines -> sent = lines
    | Unreachable => True
    end }.

(** ** The client *)

Section client.
Context `{LogServerLaws W} (masks : list str).

(** A request delivers all its lines or, when it fails, some first ones. *)
Definition delivers (lines : list RunnerLogLine) (ok : bool) (w w' : W) : Prop :=
  exists sent, sent `prefix_of` lines /\ arrived w sent w' /\ (ok = true -> sent = lines).

Lemma delivers_nothing lines w : delivers lines false w w.
Proof. exists []. split; [apply prefix_nil|]. split; [apply arrived_refl|done]. Qed.

Lemma append_attempts_delivers tries deadline lines retry w res w' :
  append_attempts tries deadline lines retry w = (res, w') -> delivers lines (is_ok res) w w'.
Proof.
  revert w. induction tries as [|tries IH]; intros w; cbn [append_attempts]; [intros [= <- <-]; apply delivers_nothing|].
  destruct (_ =? 0); [intros [= <- <-]; apply delivers_nothing|]. destruct (post w lines) as [answer w1] eqn:Ep.
  destruct (arrived_post w lines answer w1 Ep) as (sent & Hpre & Harr & Hans).
  assert (Hfail : forall e, (Err e, w1) = (res, w') -> delivers lines (is_ok res) w w') by (intros e [= <- <-]; by exists sent).
  destruct answer as [|status after ack]; [apply Hfail|]. destruct Hans as [H429 Hack]. destruct (retry && (status =? 429)) eqn:Er.
  - apply andb_true_iff in Er as [_ Es%Z.eqb_eq]. rewrite (H429 Es) in Harr.
    destruct (_ || _); [apply Hfail|]. intros (sent2 & Hpre2 & Harr2 & Hok2)%IH. exists sent2. split; [done|]. split; [|done].
    apply (arrived_trans w [] w1); [done|]. apply (arrived_trans w1 [] (sleep (log_retry_delay after (clock w1)) w1)); [apply arrived_sleep|done].
  - destruct ack as [ack|]; [|apply Hfail]. destruct (in_range 200 299 status) eqn:Ein; cbn [negb]; [|apply Hfail].
    destruct (acknowledges lines ack) eqn:Ea; [|apply Hfail]. intros [= <- <-]. exists sent. split; [done|]. split; [done|]. intros _.
    unfold acknowledges in Ea. rewrite !andb_true_iff in Ea. destruct Ea as [[_ Ea%Z.eqb_eq] _]. by apply (Hack ack).
Qed.

Lemma append_log_batch_delivers lines retry w res w' : append_log_batch lines retry w = (res, w') -> delivers lines (is_ok res) w w'.
Proof.
  unfold append_log_batch. destruct (_ || _); [intros [= <- <-]; apply delivers_nothing|].
  destruct (_ <? _); [intros [= <- <-]; apply delivers_nothing|]. apply append_attempts_delivers.
Qed.

Lemma delivers_more first rest ok w1 w2 w3 :
  arrived w1 first w2 -> delivers rest ok w2 w3 -> delivers (first ++ rest) ok w1 w3.
Proof.
  intros H1 (sent & [k ->] & Harr & Hok). exists (first ++ sent). split; [exists k; by rewrite app_assoc|]. split; [by eapply arrived_trans|].
  intros E. f_equal. by apply Hok.
Qed.

Lemma delivers_less lines more w w' : delivers lines false w w' -> delivers (lines ++ more) false w w'.
Proof. intros (sent & [k ->] & Harr & _). exists sent. split; [exists (k ++ more); by rewrite app_assoc|]. by split. Qed.

Lemma stream_failed stream lines e w : stream_lines masks stream lines (Some e) w = (Err e, w).
Proof. induction lines as [|line lines IH]; cbn [stream_lines]; done. Qed.

Lemma stream_lines_delivers stream lines w res w' :
  stream_lines masks stream lines None w = (res, w') ->
  delivers (map (fun line => runner_line masks stream (trim_end_matches line_break line)) lines) (is_ok res) w w'.
Proof.
  revert w. induction lines as [|line lines IH]; intros w; cbn [stream_lines map].
  { intros [= <- <-]. exists []. split; [done|]. split; [apply arrived_refl|done]. }
  unfold append_log_lines. destruct (append_log_batch _ _ w) as [r w1] eqn:E. apply append_log_batch_delivers in E. destruct r as [[]|e].
  - intros Hrest%IH. destruct E as (sent & _ & Harr & Hok). rewrite (Hok eq_refl) in Harr. by apply (delivers_more [_] _ _ w w1 w').
  - rewrite stream_failed. intros [= <- <-]. by apply (delivers_less [_]).
Qed.

Lemma stream_output_delivers stream output broken w res w' :
  stream_output_to_logs masks stream output broken w = (res, w') ->
  delivers (map (fun line => runner_line masks stream (trim_end_matches line_break line)) (output_lines output)) (is_ok res) w w'.
Proof.
  unfold stream_output_to_logs. destruct (stream_lines masks stream (output_lines output) None w) as [r w1] eqn:E. apply stream_lines_delivers in E.
  destruct broken as [e|]; intros [= <- <-]; [|done]. destruct E as (sent & Hpre & Harr & _). by exists sent.
Qed.

(** What is left in the batch was not sent yet. *)
Definition batched (before after lines : list RunnerLogLine) (w w' : W) : Prop :=
  exists sent, arrived w sent w' /\ sent ++ after = before ++ lines.

Lemma flush_batch_spec b w res w' : flush_batch b w = (res, w') ->
  match res with
  | Ok b' => lb_lines b' = [] /\ batched (lb_lines b) [] [] w w'
  | Err _ => delivers (lb_lines b) false w w'
  end.
Proof.
  unfold flush_batch. destruct (is_empty (lb_lines b)) eqn:Ee.
  { intros [= <- <-]. destruct (lb_lines b); [|done]. split; [done|]. exists []. split; [apply arrived_refl|done]. }
  destruct (append_log_batch (lb_lines b) true w) as [[[]|e] w1] eqn:E; apply append_log_batch_delivers in E; intros [= <- <-]; [|done].
  destruct E as (sent & _ & Harr & Hok). split; [done|]. exists sent. split; [done|]. rewrite !app_nil_r. by apply Hok.
Qed.

Lemma push_line_spec raw b w res w' : push_line masks raw b w = (res, w') ->
  match res with
  | Ok b' => batched (lb_lines b) (lb_lines b') [runner_line masks §"stdout" raw] w w'
  | Err _ => delivers (lb_lines b ++ [runner_line masks §"stdout" raw]) false w w'
  end.
Proof.
  unfold push_line. set (line := runner_line masks §"stdout" raw).
  destruct (if _ && _ then flush_batch b w else (Ok b, w)) as [r w1] eqn:Er.
  assert (Hroom : match r with Ok b' => batched (lb_lines b) (lb_lines b') [] w w1 | Err _ => delivers (lb_lines b) false w w1 end).
  { destruct (_ && _).
    - apply flush_batch_spec in Er. destruct r as [b'|]; [|done]. destruct Er as [-> ?]. done.
    - injection Er as <- <-. exists []. split; [apply arrived_refl|by rewrite app_nil_r]. }
  clear Er.
  destruct r as [b1|e]; [|intros [= <- <-]; by apply delivers_less]. destruct Hroom as (sent & Harr & Es). rewrite app_nil_r in Es.
  assert (Hpart : delivers (lb_lines b ++ [line]) false w w1).
  { exists sent. split; [|by split]. rewrite <- Es, <- app_assoc. by apply prefix_app_r. }
  destruct (_ <? _); [intros [= <- <-]; done|]. cbn [lb_lines].
  destruct (zlen (lb_lines b1 ++ [line]) =? LOG_BATCH_MAX_LINES).
  - intros E%flush_batch_spec. cbn [lb_lines] in E. destruct res as [b2|e].
    + destruct E as (-> & sent2 & Harr2 & E2). rewrite !app_nil_r in E2. exists (sent ++ sent2). split; [by eapply arrived_trans|].
      by rewrite app_nil_r, E2, app_assoc, Es.
    + rewrite <- Es, <- app_assoc. by apply (delivers_more sent _ _ w w1).
  - intros [= <- <-]. exists sent. split; [done|]. cbn [lb_lines]. by rewrite app_assoc, Es.
Qed.

Lemma push_lines_spec lines b w res w' : push_lines masks lines b w = (res, w') ->
  match res with
  | Ok b' => batched (lb_lines b) (lb_lines b') (map (runner_line masks §"stdout") lines) w w'
  | Err _ => delivers (lb_lines b ++ map (runner_line masks §"stdout") lines) false w w'
  end.
Proof.
  revert b w. induction lines as [|line lines IH]; intros b w; cbn [push_lines map].
  { intros [= <- <-]. exists []. split; [apply arrived_refl|by rewrite app_nil_r]. }
  destruct (push_line masks line b w) as [r w1] eqn:E. apply push_line_spec in E.
  change (runner_line masks §"stdout" line :: map (runner_line masks §"stdout") lines) with ([runner_line masks §"stdout" line] ++ map (runner_line masks §"stdout") lines).
  rewrite app_assoc. destruct r as [b1|e]; [|intros [= <- <-]; by apply delivers_less]. destruct E as (sent & Harr & Es). intros E%IH. rewrite <- Es.
  destruct res as [b2|e].
  - destruct E as (sent2 & Harr2 & E2). exists (sent ++ sent2). split; [by eapply arrived_trans|]. by rewrite <- app_assoc, E2, app_assoc, Es, app_assoc.
  - rewrite <- app_assoc. by apply (delivers_more sent _ _ w w1).
Qed.

Lemma forward_delivers lines broken w res w' : forward_kubernetes_logs masks lines broken w = (res, w') ->
  delivers (map (runner_line masks §"stdout") lines) (is_ok res) w w'.
Proof.
  unfold forward_kubernetes_logs. destruct (push_lines masks lines empty_batch w) as [r w1] eqn:E. apply push_lines_spec in E. cbn [lb_lines empty_batch app] in E.
  destruct r as [b|e]; [|by intros [= <- <-]]. destruct E as (sent & Harr & Es). cbn [app] in Es. destruct broken as [e|].
  { intros [= <- <-]. exists sent. split; [rewrite <- Es; by apply prefix_app_r|by split]. }
  destruct (flush_batch b w1) as [[b2|e] w2] eqn:Ef; apply flush_batch_spec in Ef; intros [= <- <-]; rewrite <- Es.
  - destruct Ef as (_ & sent2 & Harr2 & E2). rewrite !app_nil_r in E2. exists (sent ++ sent2). rewrite E2. split; [done|]. split; [rewrite <- E2; by eapply arrived_trans|done].
  - by apply (delivers_more sent _ _ w w1).
Qed.
End client.

(** ** The server keeps the promise *)

(** What becomes of a request: the rate limiter refuses it, it or its answer
    gets lost, or the runner sees the answer. *)
Inductive log_fate : Type := Limited (retry_after : option str) | LostRequest | LostResponse | Seen.

(** Around the [i]th request: its fate, what others write meanwhile and while
    the runner sleeps, the lease, and the time. *)
Record log_environment : Type := {
  ev_fate : nat -> log_fate;
  ev_others : nat -> interference;
  ev_idle : nat -> logs -> logs;
  ev_ledger : nat -> ledger;
  ev_authenticated : nat -> result N ApiError;
  ev_now : nat -> Z;
  ev_elapsed : nat -> Z;
  ev_line_bytes : RunnerLogLine -> Z;
  ev_body_bytes : list RunnerLogLine -> Z;
  ev_date : str -> option Z }.

Record server_world : Type := { sv_logs : logs; sv_turn : nat; sv_clock : Z }.

Section server.
Context (owner : N -> N) (env : log_environment) (hash_token : str -> str) (lease attempt : N) (token : str) (fencing : Z).

Definition log_body (lines : list RunnerLogLine) : log_request :=
  {| lq_protocol_version := 1; lq_lease_token := token; lq_fencing_token := fencing; lq_attempt := attempt; lq_lines := lines |}.

Definition served (lines : list RunnerLogLine) (i : nat) (t : logs) : result RunnerLogAppendResponse ApiError * logs :=
  append_runner_lease_logs hash_token (ev_now env i) (ev_others env i) lease (ev_authenticated env i) (log_body lines) (ev_ledger env i) t.

Definition turn (w : server_world) (t : logs) (d : Z) : server_world := {| sv_logs := t; sv_turn := S (sv_turn w); sv_clock := sv_clock w + d |}.

Definition answer_of (r : result RunnerLogAppendResponse ApiError) : log_answer :=
  match r with
  | Ok a => Answered 200 None (Some {| ack_protocol_version := la_protocol_version a; ack_accepted := la_accepted a; ack_next_after := la_next_after a |})
  | Err e => Answered (status e) None None
  end.

Definition post_logs (w : server_world) (lines : list RunnerLogLine) : log_answer * server_world :=
  let i := sv_turn w in
  let d := ev_elapsed env i in
  match ev_fate env i with
  | Limited after => (Answered 429 after None, turn w (sv_logs w) d)
  | LostRequest => (Unreachable, turn w (sv_logs w) d)
  | LostResponse => (Unreachable, turn w (served lines i (sv_logs w)).2 d)
  | Seen => (answer_of (served lines i (sv_logs w)).1, turn w (served lines i (sv_logs w)).2 d)
  end.

#[local] Instance backend : LogServer server_world := {|
  post := post_logs; clock := sv_clock; sleep d w := turn w (ev_idle env (sv_turn w) (sv_logs w)) d;
  line_bytes := ev_line_bytes env; body_bytes := ev_body_bytes env; parse_rfc2822 := ev_date env |}.

(** Others only append, and the ledger knows the jobs of attempts. *)
Record fair_environment : Prop := {
  fe_others : forall i, benign owner (ev_others env i);
  fe_idle : forall i t, logs_wf owner t -> logs_le owner t (ev_idle env i t);
  fe_ledger : forall i, owns_attempts owner (ev_ledger env i) }.

Context (fair : fair_environment).

Definition written (w : server_world) (sent : list RunnerLogLine) (w' : server_world) : Prop :=
  logs_wf owner (sv_logs w) -> appended owner attempt (map format_runner_log_line sent) (sv_logs w) (sv_logs w').

Lemma served_written lines w d : exists sent, sent `prefix_of` lines /\ written w sent (turn w (served lines (sv_turn w) (sv_logs w)).2 d) /\
  match (served lines (sv_turn w) (sv_logs w)).1 with
  | Ok a => sent = lines /\ la_accepted a = zlen lines
  | Err e => sent = [] \/ e = internal
  end.
Proof.
  unfold served, written. set (i := sv_turn w). destruct (append_runner_lease_logs _ _ _ _ _ _ _ (sv_logs w)) as [res t'] eqn:E.
  destruct (append_request_spec owner _ _ _ _ _ _ _ _ _ _ (fe_ledger fair i) (fe_others fair i) E) as (texts & [k Hk] & Happ & Herr & Hok).
  cbn [lq_lines log_body lq_attempt fst snd] in *. apply map_eq_app in Hk as (sent & rest & -> & <- & <-). exists sent.
  split; [by apply prefix_app_r|]. split; [done|]. destruct res as [a|e].
  - destruct (Hok a eq_refl) as (Es & Ha & _). split; [|done]. rewrite map_app in Es. apply (f_equal length) in Es. rewrite length_app in Es.
    destruct rest; [by rewrite app_nil_r|]. cbn in Es. lia.
  - destruct (Herr e eq_refl) as [En| ->]; [left; by destruct sent|by right].
Qed.

Lemma written_nothing w t d : (logs_wf owner (sv_logs w) -> logs_le owner (sv_logs w) t) -> written w [] (turn w t d).
Proof. intros Hl Hw. by apply appended_others, Hl. Qed.

#[local] Instance backend_laws : LogServerLaws server_world.
Proof.
  refine {| arrived := written |}.
  - intros w Hw. by apply appended_others, logs_le_refl.
  - intros w1 a w2 b w3 H1 H2 Hw. rewrite map_app. specialize (H1 Hw). apply (appended_trans owner attempt _ _ _ (sv_logs w2)); [done|]. apply H2. apply H1.
  - intros w d. apply written_nothing. apply (fe_idle fair).
  - intros w lines answer w' E. cbn [post backend] in E. unfold post_logs in E.
    destruct (ev_fate env (sv_turn w)) as [after| | |]; injection E as <- <-.
    + exists []. split; [apply prefix_nil|]. split; [apply written_nothing, logs_le_refl|done].
    + exists []. split; [apply prefix_nil|]. split; [apply written_nothing, logs_le_refl|done].
    + destruct (served_written lines w (ev_elapsed env (sv_turn w))) as (sent & Hpre & Hw & _). by exists sent.
    + destruct (served_written lines w (ev_elapsed env (sv_turn w))) as (sent & Hpre & Hw & Hans). exists sent. split; [done|]. split; [done|].
      destruct (served lines (sv_turn w) (sv_logs w)).1 as [a|e]; cbn.
      * destruct Hans as [-> _]. split; [lia|done].
      * split; [|done]. by destruct Hans as [?| ->].
Defined.

(** Between the two worlds the log of the attempt got these texts, or some
    first ones when the runner was told of a failure, each once and in their
    order, among what others wrote. *)
Definition delivered (texts : list str) (ok : bool) (w w' : server_world) : Prop :=
  exists sent others tail, sent `prefix_of` texts /\ (ok = true -> sent = texts) /\
    messages_of attempt (sv_logs w') = messages_of attempt (sv_logs w) ++ tail /\ merges sent others tail.

Lemma delivers_delivered lines ok w w' : logs_wf owner (sv_logs w) -> delivers lines ok w w' -> delivered (map format_runner_log_line lines) ok w w'.
Proof.
  intros Hw (sent & [k ->] & Harr & Hok). destruct (Harr Hw) as [_ (others & tail & E & M)]. exists (map format_runner_log_line sent), others, tail.
  split; [rewrite map_app; by apply prefix_app_r|]. split; [intros Eo; by rewrite <- (Hok Eo)|done].
Qed.

End server.
