(* ===== verification/LogSample.v ===== *)
(** * Logs: an output that is delivered, one that is not, and its readers *)
From S2P Require Import Prelude Status Table Ledger LedgerTheorems LedgerHandlers Outbox Api Runners Uploads JobLogs JobLogTheorems LogClient LogDelivery.
Local Open Scope Z_scope.

Definition sample_owner (attempt : N) : N := if (attempt =? 11)%N then 1 else 2.

Lemma owns_sample : owns_attempts sample_owner Sample.acknowledged.
Proof.
  intros k a Ha. assert (H : map_Forall (fun k a => at_job a = sample_owner k) (attempts Sample.acknowledged)).
  { apply (bool_decide_eq_true_1 _). vm_compute. reflexivity. }
  exact (H k a Ha).
Qed.

Lemma no_logs owner : logs_wf owner ∅.
Proof.
  split.
  - apply valid_table_empty.
  - intros attempt. exists []. split; [intros k r [=]|intros i m [=]].
Qed.

(** The first request is refused once by the limiter,
    and the answer to the sixth gets lost. *)
Definition sample_environment : log_environment :=
  {| ev_fate i := if (i =? 0)%nat then Limited (Some §"2") else if (i =? 5)%nat then LostResponse else Seen;
     ev_others i := {| if_id j := N.of_nat (100 * i + j); if_commit _ := Committed; if_others _ t := t |};
     ev_idle _ t := t; ev_ledger _ := Sample.acknowledged; ev_authenticated _ := Ok 3%N; ev_now _ := 3; ev_elapsed _ := 1;
     ev_line_bytes _ := 50; ev_body_bytes _ := 200; ev_date _ := None |}.

Lemma fair_sample : fair_environment sample_owner sample_environment.
Proof. split; [intros i j t; apply logs_le_refl|intros i t; apply logs_le_refl|intros i; apply owns_sample]. Qed.

Definition sample_world : server_world := {| sv_logs := ∅; sv_turn := 0; sv_clock := 0 |}.
Definition secrets : list str := [§"hunter2"].
Definition command_output : str := §"building" ++ [10%N] ++ §"key hunter2" ++ [13%N; 10%N].
Abbreviation sample_backend := (backend sample_environment id 31 11 §"secret" 1).
Definition forwarded : result unit str * server_world := forward_kubernetes_logs (H := sample_backend) secrets [§"building"; §"key hunter2"] None sample_world.
Definition streamed : result unit str * server_world := stream_output_to_logs (H := sample_backend) secrets §"stderr" command_output None forwarded.2.
Definition broken : result unit str * server_world := stream_output_to_logs (H := sample_backend) secrets §"stdout" command_output None streamed.2.


Lemma masks_hide_witness : contains §"hunter2" (mask_secrets §"key hunter2" secrets) = false.
Proof. apply masks_hide; [left|done|]. apply (bool_decide_eq_true_1 _). vm_compute. reflexivity. Defined.

(** ** Readers *)

(** A log that grows by one line while it is read. *)
Fixpoint grown (n : nat) : logs :=
  match n with
  | O => ∅
  | S n => (append_job_log Committed (N.of_nat n) 1 11 [N.of_nat (97 + n)] Sample.acknowledged (grown n)).2
  end.

Lemma grown_wf n : logs_wf sample_owner (grown n).
Proof.
  induction n as [|n IH]; cbn [grown]; [apply no_logs|].
  eapply (append_le sample_owner Committed (N.of_nat n) 1 11); [exact IH|exact owns_sample|apply surjective_pairing].
Qed.

Lemma grown_le n k : (n <= k)%nat -> logs_le sample_owner (grown n) (grown k).
Proof.
  induction 1 as [|k _ IH]; [apply logs_le_refl, grown_wf|]. apply (logs_le_trans _ _ (grown k)); [done|].
  eapply (append_le sample_owner Committed (N.of_nat k) 1 11); [exact (grown_wf k)|exact owns_sample|apply surjective_pairing].
Qed.

Definition reading (i : nat) : logs * logs := (grown (Nat.min (S i) 3), grown 3).

Lemma reading_grows : growing sample_owner 11 reading (messages_of 11 (grown 3)).
Proof.
  split; intros i; unfold reading; cbn [fst snd].
  - apply grown_wf.
  - apply grown_le. lia.
  - apply grown_le. lia.
  - apply (grown_le _ 3). lia.
Qed.

Lemma pages_complete_witness : exists k,
  walk_pages sample_owner id (Some 1) (Some §" b ") 11 4 0 reading 0 =
    Some (List.filter (fun r => like (like_contains_pattern §"b") (lg_message r)) (read_logs 1 11 (reading k).1)) /\
  map lg_message <$> walk_pages sample_owner id (Some 1) None 11 4 0 reading 0 = Some [§"a"; §"b"; §"c"].
Proof.
  destruct (pages_complete sample_owner id (Some 1) (Some §" b ") 11 reading _ 4 §"b" reading_grows) as (k & Hk & _).
  - vm_compute. lia.
  - reflexivity.
  - vm_compute. reflexivity.
  - vm_compute. discriminate.
  - exists k. split; [exact Hk|]. vm_compute. reflexivity.
Defined.

(** The second read fails, the last one misses the last line. *)
Definition turns : list stream_turn :=
  [{| tn_rows := Some (grown 1); tn_status := Some Running |}; {| tn_rows := None; tn_status := Some Running |};
   {| tn_rows := Some (grown 2); tn_status := Some Success |}].

Lemma stream_shows_witness : job_log_stream 1 11 (-1) turns = [LogEvent 1 §"a"; LogEvent 2 §"b"; DoneEvent Success] /\
  messages_of 11 (grown 3) = [§"a"; §"b"; §"c"].
Proof.
  split; [|vm_compute; reflexivity]. refine (eq_trans (stream_shows sample_owner 11 turns _) _); [|vm_compute; reflexivity].
  split; [exact (grown_wf 1)|]. split; [by apply prefix_nil|]. split; [exact (grown_wf 2)|]. split; [|exact I]. apply (grown_le 1 2). lia.
Defined.
