(* ===== verification/LeaseRequests.v ===== *)
(** * What a lease opens to its runner: [backend/src/runner_protocol.rs]

    The secrets of a project ([backend/src/platform.rs],
    [backend/infra/src/secrets.rs], migration 0001) and the requests of a
    runner that present a lease: its control, its secrets, its artifacts, its
    receipt. *)
From S2P Require Import Prelude Table Status Ledger LedgerHandlers Outbox Api Runners Uploads JobLogs LedgerTheorems.
Local Open Scope Z_scope.

(** ** Secrets at rest *)

(** AES-256-GCM and Base64 *)
Class Cipher : Type := {
  base64 : list N -> str;
  base64_decode : str -> option (list N);
  encrypt : list N -> list N -> list N -> option (list N);
  decrypt : list N -> list N -> list N -> option (list N);
  base64_round : forall b, base64_decode (base64 b) = Some b;
  base64_colon : forall b, 58%N ∉ base64 b;
  decrypt_encrypt : forall key nonce plain sealed, encrypt key nonce plain = Some sealed -> decrypt key nonce sealed = Some plain }.

(** [String::from_utf8] *)
Definition is_scalar (c : N) : bool := (c <? 0xD800)%N || ((0xE000 <=? c)%N && (c <? 0x110000)%N).
Definition from_utf8 (bs : list N) : option str :=
  let s := utf8_decode bs in if bool_decide (bytes s = bs) && forallb is_scalar s then Some s else None.

Section secrets_at_rest.
Context `{Cipher}.

(** [Secrets::seal] and [Secrets::open], without the texts of their errors *)
Definition seal (key : option (list N)) (nonce : list N) (value : str) : option str :=
  key ← key; sealed ← encrypt key nonce (bytes value); Some (§"v1:" ++ base64 nonce ++ §":" ++ base64 sealed).

Definition open (key : option (list N)) (value : str) : option str :=
  key ← key;
  parts ← split_once §":" value;
  rest ← split_once §":" parts.2;
  if negb (str_eqb parts.1 §"v1") then None
  else
    nonce ← base64_decode rest.1;
    if negb (zlen nonce =? 12) then None
    else sealed ← base64_decode rest.2; plain ← decrypt key nonce sealed; from_utf8 plain.

Definition secret_key (key : option (list N)) : result (list N) str :=
  ok_or key §"CICD_SECRETS_KEY must be configured before storing secrets".
Definition encrypt_secret (key : option (list N)) (nonce : list N) (value : str) : result str str :=
  let? key := secret_key key in ok_or (seal (Some key) nonce value) §"unable to encrypt secret".
Definition decrypt_secret (key : option (list N)) (stored : str) : result str str :=
  let? key := secret_key key in ok_or (open (Some key) stored) §"unable to decrypt secret".

(** ** The secrets of a project *)

Record secret_row : Type := { sc_project : N; sc_key : str; sc_value : str; sc_created_at : Z; sc_updated_at : Z }.

#[export] Instance secret_schema : Schema secret_row.
Proof.
  refine {| check r := negb (contains_char 0 (sc_key r)) && negb (contains_char 0 (sc_value r));
            conflict x y := (sc_project x =? sc_project y)%N && str_eqb (sc_key x) (sc_key y) |}.
  intros x y. rewrite N.eqb_sym. f_equal. unfold str_eqb. by apply bool_decide_ext.
Defined.

Abbreviation secrets := (gmap N secret_row).

Definition secret_of (project : N) (key : str) (_ : N) (r : secret_row) : bool := (sc_project r =? project)%N && str_eqb (sc_key r) key.

(** [INSERT .. ON CONFLICT (project_id, key) DO UPDATE ..] *)
Definition upsert_secret (id : N) (now : Z) (project : N) (key value : str) (l : ledger) (t : secrets) : result (N * secrets) db_error :=
  match head (select (secret_of project key) t) with
  | Some (k, r) =>
    let? t' := put k {| sc_project := project; sc_key := key; sc_value := value; sc_created_at := sc_created_at r; sc_updated_at := now |} t in Ok (k, t')
  | None =>
    let? _ := ok_or (max_running_jobs l !! project) ForeignKeyViolation in
    let? t' := insert_row id {| sc_project := project; sc_key := key; sc_value := value; sc_created_at := now; sc_updated_at := now |} t in Ok (id, t')
  end.

Definition create_secret (configured : option (list N)) (nonce : list N) (c : commit) (audit : result unit ApiError) (now : Z) (id project : N) (key value : str)
    (l : ledger) (t : secrets) : result N ApiError * secrets :=
  if is_empty (trim key) || is_empty value then (Err (bad_request §"secret key and value are required"), t)
  else
    match encrypt_secret configured nonce value with
    | Err m => (Err (bad_request m), t)
    | Ok sealed =>
      match upsert_secret id now project (trim key) sealed l t with
      | Err _ => (Err internal, t)
      | Ok (k, t') =>
        match commit_to c k t t' with
        | (Err e, t') => (Err e, t')
        | (Ok k, t') => (let? _ := audit in Ok k, t')
        end
      end
    end.

Definition delete_secret (c : commit) (audit : result unit ApiError) (id : N) (t : secrets) : result N ApiError * secrets :=
  match t !! id with
  | None => (Err not_found, t)
  | Some _ =>
    match commit_to c id t (delete id t) with
    | (Err e, t') => (Err e, t')
    | (Ok id, t') => (let? _ := audit in Ok id, t')
    end
  end.

(** [ORDER BY key] is in the collation of the database. *)
Context (collation : relation str) `{!RelDecision collation}.
Definition by_key (x y : N * secret_row) : Prop := collation (sc_key x.2) (sc_key y.2).
#[export] Instance by_key_dec : RelDecision by_key.
Proof. intros x y. unfold by_key. apply _. Defined.

Definition list_secrets (project : N) (t : secrets) : list (N * secret_row) := merge_sort by_key (select (fun _ r => (sc_project r =? project)%N) t).

Definition push_pair (configured : option (list N)) (pairs : list (str * str)) (row : N * secret_row) : result (list (str * str)) ApiError :=
  match decrypt_secret configured (sc_value row.2) with
  | Ok value => Ok (pairs ++ [(sc_key row.2, value)])
  | Err m => Err (internal_with_message m)
  end.

(** [project_secret_pairs_for_names_with_config] *)
Definition project_secret_pairs (configured : option (list N)) (project : N) (names : list str) (t : secrets) : result (list (str * str)) ApiError :=
  if is_empty names then Ok []
  else
    let requested := sort_dedup names in
    let rows := merge_sort by_key (select (fun _ r => (sc_project r =? project)%N && bool_decide (sc_key r ∈ requested)) t) in
    let found := sort_dedup (map (fun row => sc_key row.2) rows) in
    if negb (zlen found =? zlen requested) || existsb (fun name => negb (bool_decide (name ∈ found))) requested
    then Err (not_found_named §"declared project secret is missing")
    else rfold (push_pair configured) [] rows.
End secrets_at_rest.

Abbreviation secrets := (gmap N secret_row).

(** ** Requests under a lease *)

Definition RENEW_AFTER_SECONDS : Z := 40.
Definition SECRET_BUNDLE_TTL_SECONDS : Z := 300.

Record RunnerLeaseControlResponse : Type := { lc_lease_expires_at : Z; lc_renew_after : Z; lc_cancel_requested : bool }.

Record RunnerSecretResolveRequest : Type := { sq_protocol_version : Z; sq_lease_token : str; sq_fencing_token : Z; sq_secret_names : list str }.
Record RunnerSecretItem : Type := { si_name : str; si_injection : str; si_value : str }.
Record RunnerSecretResolveResponse : Type := { sp_expires_at : Z; sp_items : list RunnerSecretItem }.

Record RunnerLeaseReceipt : Type := {
  re_lease : N; re_attempt : N; re_fencing_token : Z; re_lease_status : LeaseStatus; re_terminal_status : option JobStatus;
  re_completed_at : option Z; re_terminal_acknowledged : bool }.

Section requests.
Context `{UuidText} (hash_token : str -> str) (policy_required : bool) (confirm : N -> N -> result (option Z) ApiError).

Definition missing_tokens : ApiError := bad_request §"lease token and fencing token are required".

(** [poll_runner_lease_control] *)
Definition poll_runner_lease_control (now : Z) (h : headers) (lease : N) (t : runners) (l : ledger) : result RunnerLeaseControlResponse ApiError :=
  let? version := required_i32_header h §"x-runner-protocol-version" §"runner protocol version header is required" in
  let? _ := check_protocol_version version in
  let? token := required_text_header h §"x-lease-token" §"lease token header is required" in
  let? fencing := required_i64_header h §"x-fencing-token" §"fencing token header is required" in
  if fencing <? 1 then Err missing_tokens
  else
    let? runner := authenticate_runner hash_token now h t in
    let? r := ok_or (r ← leases l !! lease; if held now runner.1 (hash_token token) fencing r && is_some (le_acknowledged_at r) then Some r else None)
                (lease_answer (lease_mutation_error now lease runner.1 l)) in
    Ok {| lc_lease_expires_at := le_expires_at r; lc_renew_after := now + seconds RENEW_AFTER_SECONDS; lc_cancel_requested := is_some (le_cancel_requested_at r) |}.

(** The project and the job of a lease that runs. *)
Definition secret_lease_row (now : Z) (lease runner : N) (token_hash : str) (fencing : Z) (l : ledger) : option (N * N) :=
  r ← leases l !! lease;
  j ← jobs (core l) !! le_job r;
  a ← attempts l !! le_attempt r;
  k ← pipeline_of_job l (le_job r);
  p ← pipelines (core l) !! k;
  if held now runner token_hash fencing r && is_some (le_acknowledged_at r) && bool_decide (job_status j = Running) && bool_decide (at_status a = Running)
  then Some (project_id p, le_job r) else None.

(** [required_secrets] of the jobs *)
Context (required_secrets : N -> list str).

Section resolve.
Context `{Cipher} (collation : relation str) `{!RelDecision collation} (configured : option (list N)).

(** [GitDeadline::valid_until] answers a bound that is not over, at [later]. *)
Definition bundle_expiry (clock : option Z) (later : Z) : result Z ApiError :=
  let? _ := require_clock clock later in
  let bound := later + seconds SECRET_BUNDLE_TTL_SECONDS in
  Ok (match clock with Some until => Z.min until bound | None => bound end).

(** The admission of [resolve_runner_lease_secrets]: the runner, the project,
    the job, the names it may get, and the bound of the owner. *)
Definition admit_secrets (now : Z) (h : headers) (lease : N) (input : RunnerSecretResolveRequest) (t : runners) (l : ledger) :
    result (N * N * list str * option Z) ApiError :=
  let? _ := check_protocol_version (sq_protocol_version input) in
  if (sq_fencing_token input <? 1) || is_empty (trim (sq_lease_token input)) then Err missing_tokens
  else
    let? requested := normalize_secret_names (sq_secret_names input) in
    let? runner := authenticate_runner hash_token now h t in
    let token_hash := hash_token (trim (sq_lease_token input)) in
    let? row := ok_or (secret_lease_row now lease runner.1 token_hash (sq_fencing_token input) l) (lease_answer (lease_mutation_error now lease runner.1 l)) in
    if existsb (fun name => negb (bool_decide (name ∈ required_secrets row.2))) requested then Err forbidden
    else
      let? clock := owner_clock policy_required confirm now lease runner.1 token_hash (sq_fencing_token input) l in
      Ok (row.1, row.2, requested, clock).

(** The secrets are read after the admission. *)
Definition resolve_runner_lease_secrets (now later : Z) (h : headers) (lease : N) (input : RunnerSecretResolveRequest) (t : runners) (l : ledger) (s : secrets) :
    result RunnerSecretResolveResponse ApiError :=
  let? admitted := admit_secrets now h lease input t l in
  let '(project, job, requested, clock) := admitted in
  let? pairs := project_secret_pairs collation configured project requested s in
  let? expires := bundle_expiry clock later in
  Ok {| sp_expires_at := expires; sp_items := map (fun pair => {| si_name := pair.1; si_injection := §"env"; si_value := pair.2 |}) pairs |}.
End resolve.

(** ** Artifacts *)

Section upload.
Context (sha256_hex : list N -> str) (artifact_paths : N -> list str).

(** [upload_runner_lease_artifact] *)
Definition upload_runner_lease_artifact (now : Z) (d : disk) (tm : nat -> Z) (audit : result unit ApiError) (c : commit) (readback : bool) (id : N) (expires : Z)
    (h : headers) (lease : N) (body : list N) (t : runners) (l : ledger) (s : store) : result (N * artifact_row) ApiError * store :=
  let admitted :=
    let? version := required_i32_header h §"x-runner-protocol-version" §"runner protocol version header is required" in
    let? _ := check_protocol_version version in
    let? token := required_text_header h §"x-lease-token" §"lease token header is required" in
    let? fencing := required_i64_header h §"x-fencing-token" §"fencing token header is required" in
    let? attempt := required_uuid_header h §"x-attempt-id" §"attempt id header is required" in
    let? path := required_text_header h §"x-artifact-path" §"artifact path header is required" in
    let? name := required_text_header h §"x-artifact-name" §"artifact name header is required" in
    if fencing <? 1 then Err missing_tokens
    else
      let? runner := authenticate_runner hash_token now h t in
      let? job := ok_or (lease_artifact_row now lease runner.1 (hash_token token) fencing attempt l) (lease_answer (lease_mutation_error now lease runner.1 l)) in
      if negb (bool_decide (path ∈ artifact_paths job)) then Err forbidden
      else
        let? clock := owner_clock policy_required confirm now lease runner.1 (hash_token token) fencing l in
        Ok (job, attempt, name, clock) in
  match admitted with
  | Err e => (Err e, s)
  | Ok (job, attempt, name, clock) =>
    match store_job_artifact sha256_hex d policy_required clock tm audit c readback id job attempt name
            (default §"application/octet-stream" (h §"content-type")) body expires None s with
    | (Err e, s') => (Err e, s')
    | (Ok artifact, s') => (let? _ := require_clock clock (tm 5%nat) in Ok artifact, s')
    end
  end.
End upload.

(** ** Receipts *)

(** [terminal_acknowledged] of [read_runner_lease_receipt] *)
Definition receipt_acknowledged (r : lease_row) (a : attempt_row) : bool :=
  (bool_decide (le_status r = Completed) || bool_decide (le_status r = LeaseCanceled))
  && is_some (le_completed_at r) && is_some (le_completion_received_at r)
  && match le_terminal_status r with
     | Some t => is_terminal t && bool_decide (at_status a = t)
     | None => false
     end
  && is_some (at_finished_at a).

Definition read_runner_lease_receipt (now : Z) (h : headers) (lease : N) (t : runners) (l : ledger) : result RunnerLeaseReceipt ApiError :=
  let? runner := authenticate_runner hash_token now h t in
  ok_or
    (r ← leases l !! lease;
     a ← attempts l !! le_attempt r;
     if bool_decide (le_runner r = Some runner.1)
     then Some {| re_lease := lease; re_attempt := le_attempt r; re_fencing_token := le_generation r; re_lease_status := le_status r;
                  re_terminal_status := le_terminal_status r; re_completed_at := le_completed_at r; re_terminal_acknowledged := receipt_acknowledged r a |}
     else None)
    not_found.
End requests.

(** ** UTF-8 *)

Ltac div_lia := zify; Z.to_euclidean_division_equations; lia.

Lemma utf8_decode_char c bs : is_scalar c = true -> utf8_decode (char_bytes c ++ bs) = c :: utf8_decode bs.
Proof.
  intros Hs. assert (Hc : (c < 0x110000)%N).
  { unfold is_scalar in Hs. apply orb_true_iff in Hs as [Hs%N.ltb_lt|[_ Hs%N.ltb_lt]%andb_true_iff]; lia. }
  clear Hs. unfold char_bytes. destruct (N.ltb_spec c 0x80); [|destruct (N.ltb_spec c 0x800); [|destruct (N.ltb_spec c 0x10000)]]; cbn [app utf8_decode].
  - by rewrite (proj2 (N.ltb_lt c 0x80)).
  - rewrite (proj2 (N.ltb_ge _ 0x80)) by div_lia. rewrite (proj2 (N.ltb_lt _ 0xE0)) by div_lia.
    f_equal. div_lia.
  - rewrite (proj2 (N.ltb_ge _ 0x80)) by div_lia. rewrite (proj2 (N.ltb_ge _ 0xE0)) by div_lia.
    rewrite (proj2 (N.ltb_lt _ 0xF0)) by div_lia. f_equal. div_lia.
  - rewrite (proj2 (N.ltb_ge _ 0x80)) by div_lia. rewrite (proj2 (N.ltb_ge _ 0xE0)) by div_lia. rewrite (proj2 (N.ltb_ge _ 0xF0)) by div_lia.
    f_equal. div_lia.
Qed.

Lemma utf8_decode_bytes s : forallb is_scalar s = true -> utf8_decode (bytes s) = s.
Proof.
  induction s as [|c s IH]; [done|]. cbn [forallb]. intros [Hc Hs]%andb_true_iff. change (bytes (c :: s)) with (char_bytes c ++ bytes s). by rewrite utf8_decode_char, IH.
Qed.

Lemma from_utf8_bytes s : forallb is_scalar s = true -> from_utf8 (bytes s) = Some s.
Proof. intros Hs. unfold from_utf8. by rewrite utf8_decode_bytes, bool_decide_true, Hs. Qed.

(** ** Secrets come back *)

Section secret_theorems.
Context `{Cipher} (collation : relation str) `{!RelDecision collation}.

Abbreviation pairs := (project_secret_pairs collation).

Lemma open_seal key nonce value sealed : zlen nonce = 12 -> forallb is_scalar value = true -> seal (Some key) nonce value = Some sealed ->
  open (Some key) sealed = Some value.
Proof.
  intros Hn Hv E. unfold seal in E. cbn [mbind option_bind] in E. destruct (encrypt key nonce (bytes value)) as [c|] eqn:Ec; [|done]. cbn [mbind option_bind] in E.
  assert (sealed = §"v1:" ++ base64 nonce ++ §":" ++ base64 c) as -> by congruence. clear E. unfold open. cbn [mbind option_bind].
  change (§"v1:" ++ base64 nonce ++ §":" ++ base64 c) with (§"v1" ++ 58%N :: base64 nonce ++ 58%N :: base64 c). change (§":") with [58%N].
  rewrite split_once_char by (vm_compute; set_solver). cbn [mbind option_bind fst snd]. rewrite split_once_char by apply base64_colon. cbn [mbind option_bind fst snd]. rewrite str_eqb_refl. cbn [negb].
  cbn [negb]. rewrite (base64_round nonce). cbn [mbind option_bind]. rewrite Hn. cbn [Z.eqb negb Pos.eqb]. rewrite (base64_round c). cbn [mbind option_bind].
  rewrite (decrypt_encrypt _ _ _ _ Ec). cbn [mbind option_bind]. by apply from_utf8_bytes.
Qed.

(** What the loop over the rows answers. *)
Lemma push_pairs_Ok configured acc rows l : rfold (push_pair configured) acc rows = Ok l ->
  exists new, l = acc ++ new /\ Forall2 (fun row pair => pair.1 = sc_key row.2 /\ decrypt_secret configured (sc_value row.2) = Ok pair.2) rows new.
Proof.
  revert acc. induction rows as [|row rows IH]; intros acc; cbn [rfold].
  - intros [= <-]. exists []. by rewrite app_nil_r.
  - intros (acc' & Hp & (new & -> & Hf)%IH)%rbind_Ok_inv. unfold push_pair in Hp. destruct (decrypt_secret configured (sc_value row.2)) as [v|m] eqn:E; [|done].
    injection Hp as <-. exists ((sc_key row.2, v) :: new). rewrite <- app_assoc. split; [done|]. by constructor.
Qed.

(** The rows that are selected. *)
Definition named_rows (project : N) (names : list str) (t : secrets) : list (N * secret_row) :=
  merge_sort (by_key collation) (select (fun _ r => (sc_project r =? project)%N && bool_decide (sc_key r ∈ sort_dedup names)) t).

Lemma elem_of_named project names t k r : (k, r) ∈ named_rows project names t <-> t !! k = Some r /\ sc_project r = project /\ sc_key r ∈ names.
Proof.
  unfold named_rows. rewrite merge_sort_Permutation, elem_of_select, andb_true_iff, N.eqb_eq, bool_decide_eq_true, elem_of_sort_dedup. done.
Qed.

Lemma named_keys project names t : valid_table t -> NoDup (map (fun row => sc_key row.2) (named_rows project names t)).
Proof.
  intros Hv. apply NoDup_fmap_2_strong.
  - intros [i a] [j b] (Ha & Hpa & _)%elem_of_named (Hb & Hpb & _)%elem_of_named E. cbn in E. destruct (decide (i = j)) as [->|Hne]; [congruence|].
    pose proof (vt_unique _ Hv i j a b Hne Ha Hb) as Hu. cbn in Hu. by rewrite Hpa, Hpb, E, N.eqb_refl, str_eqb_refl in Hu.
  - unfold named_rows. rewrite merge_sort_Permutation. apply NoDup_ListNoDup, List.NoDup_filter, NoDup_ListNoDup, NoDup_map_to_list.
Qed.

Lemma pairs_Ok configured project names t l : valid_table t -> pairs configured project names t = Ok l ->
  map fst l ≡ₚ sort_dedup names /\
  forall name value, (name, value) ∈ l -> exists k r, t !! k = Some r /\ sc_project r = project /\ sc_key r = name /\ decrypt_secret configured (sc_value r) = Ok value.
Proof.
  intros Hv. unfold project_secret_pairs. destruct names as [|n names]; cbn [is_empty].
  { intros [= <-]. split; [done|]. intros name value ?%elem_of_nil. done. }
  set (all := n :: names). destruct (_ || _) eqn:Ef; [done|]. fold (named_rows project all t) in *. intros (new & -> & Hf)%push_pairs_Ok. cbn [app].
  apply orb_false_iff in Ef as [_ Ef]. assert (Hfst : map fst new = map (fun row => sc_key row.2) (named_rows project all t)).
  { clear Ef. induction Hf as [|row pair rows ps [E _] _ IH]; [done|]. cbn. by rewrite E, IH. }
  split.
  - rewrite Hfst. apply NoDup_Permutation; [by apply named_keys|apply NoDup_sort_dedup|]. intros x. split.
    + intros ([k r] & -> & (_ & _ & Hin)%elem_of_named)%list_elem_of_fmap. by apply elem_of_sort_dedup.
    + intros Hx. apply not_true_iff_false in Ef. destruct (decide (x ∈ map (fun row : N * secret_row => sc_key row.2) (named_rows project all t))) as [|Hn]; [done|].
      exfalso. apply Ef, existsb_exists. exists x. split; [by apply list_elem_of_In|]. rewrite bool_decide_false; [done|]. by rewrite elem_of_sort_dedup.
  - intros name value Hin. apply list_elem_of_lookup in Hin as [i Hi]. destruct (Forall2_lookup_r _ _ _ _ _ Hf Hi) as ([k r] & Hk & E & Hd).
    apply list_elem_of_lookup_2 in Hk. apply elem_of_named in Hk as (Hk & Hp & _). cbn in E. exists k, r. by split_and!.
Qed.

Lemma push_all_Ok configured acc rows : (forall row, row ∈ rows -> exists v, decrypt_secret configured (sc_value row.2) = Ok v) ->
  exists l, rfold (push_pair configured) acc rows = Ok l.
Proof.
  revert acc. induction rows as [|row rows IH]; intros acc Hall; cbn [rfold]; [by eexists|]. destruct (Hall row) as [v Hv]; [left|].
  unfold push_pair at 1. rewrite Hv. cbn [rbind]. apply IH. intros r Hr. apply Hall. by right.
Qed.

(** One name, one row. *)
Lemma pairs_single configured project name value k r t : valid_table t -> t !! k = Some r -> sc_project r = project -> sc_key r = name ->
  decrypt_secret configured (sc_value r) = Ok value -> pairs configured project [name] t = Ok [(name, value)].
Proof.
  intros Hv Hk Hp Hn Hd. assert (Hrows : named_rows project [name] t ≡ₚ [(k, r)]).
  { apply NoDup_Permutation; [|apply NoDup_singleton|].
    - unfold named_rows. rewrite merge_sort_Permutation. apply NoDup_ListNoDup, List.NoDup_filter, NoDup_ListNoDup, NoDup_map_to_list.
    - intros [i a]. rewrite elem_of_named, list_elem_of_singleton, list_elem_of_singleton. split.
      + intros (Ha & Hpa & Hna). destruct (decide (i = k)) as [->|Hne]; [congruence|]. pose proof (vt_unique _ Hv i k a r Hne Ha Hk) as Hu. cbn in Hu.
        by rewrite Hpa, Hp, Hna, Hn, N.eqb_refl, str_eqb_refl in Hu.
      + intros [= -> ->]. by split_and!. }
  apply Permutation_singleton_r in Hrows. unfold project_secret_pairs. cbn [is_empty]. fold (named_rows project [name] t). rewrite Hrows. cbn [map snd]. rewrite Hn.
  assert (Hs : sort_dedup [name] = [name]).
  { apply Permutation_singleton_r, NoDup_Permutation; [apply NoDup_sort_dedup|apply NoDup_singleton|]. intros x. by rewrite elem_of_sort_dedup. }
  rewrite Hs, Z.eqb_refl. cbn [negb orb existsb]. rewrite bool_decide_true by left. cbn. unfold push_pair. cbn. by rewrite Hd, Hn.
Qed.

(** What a write leaves in the table. *)
Lemma upsert_Ok id now project key value l t k t' : upsert_secret id now project key value l t = Ok (k, t') -> valid_table t ->
  valid_table t' /\ (exists r, t' !! k = Some r /\ sc_project r = project /\ sc_key r = key /\ sc_value r = value) /\
  (forall i, i <> k -> t' !! i = t !! i) /\ forall r, t !! k = Some r -> sc_project r = project /\ sc_key r = key.
Proof.
  unfold upsert_secret. intros E Hv. destruct (head (select (secret_of project key) t)) as [[k0 r0]|] eqn:Eh.
  - apply rbind_Ok_inv in E as (t1 & Hp & [= <- <-]). pose proof (put_valid _ _ _ _ Hv Hp) as Hv'. apply put_Ok in Hp as (-> & _). split; [done|].
    apply head_Some_elem_of, elem_of_select in Eh as [Hk0 Hs]. unfold secret_of in Hs. rewrite andb_true_iff, N.eqb_eq, str_eqb_true in Hs. split_and!.
    + rewrite lookup_insert_eq. by eexists.
    + intros i Hi. by apply lookup_insert_ne.
    + intros r Hr. rewrite Hk0 in Hr. injection Hr as <-. exact Hs.
  - apply rbind_Ok_inv in E as (m & _ & E). apply rbind_Ok_inv in E as (t1 & Hp & [= <- <-]). pose proof (insert_row_valid _ _ _ _ Hv Hp) as Hv'.
    apply insert_row_Ok in Hp as (Hn & -> & _). split; [done|]. split_and!.
    + rewrite lookup_insert_eq. by eexists.
    + intros i Hi. by apply lookup_insert_ne.
    + intros r Hr. congruence.
Qed.

(** C21. A secret comes back as it was given: after it is
    stored it is what runners get under its name, whatever was stored under the
    name before; all other secrets are what they were, and the table holds only
    the sealed value. *)
Theorem secret_roundtrip key nonce c audit now id project name value l t k t' :
  valid_table t -> zlen nonce = 12 -> forallb is_scalar value = true ->
  create_secret (Some key) nonce c audit now id project name value l t = (Ok k, t') ->
  valid_table t' /\
  pairs (Some key) project [trim name] t' = Ok [(trim name, value)] /\
  (forall names rows, pairs (Some key) project names t' = Ok rows -> forall v, (trim name, v) ∈ rows -> v = value) /\
  (forall i r, i <> k -> t' !! i = Some r <-> t !! i = Some r) /\
  exists r, t' !! k = Some r /\ Some (sc_value r) = seal (Some key) nonce value.
Proof.
  intros Hv Hn Hs E. unfold create_secret in E. destruct (_ || _); [done|]. destruct (encrypt_secret (Some key) nonce value) as [sealed|m] eqn:Ee; [|done].
  unfold encrypt_secret, secret_key in Ee. cbn [ok_or rbind] in Ee. apply ok_or_Ok in Ee. destruct (upsert_secret id now project (trim name) sealed l t) as [[k1 t1]|e] eqn:Eu; [|done].
  apply upsert_Ok in Eu as (Hv1 & (r & Hr & Hp & Hk & Hval) & Hother & _); [|done]. destruct c as [|e0 applied]; cbn [commit_to] in E; [|done].
  injection E as E <-. apply rbind_Ok_inv in E as ([] & _ & [= <-]). split; [done|].
  assert (Hd : decrypt_secret (Some key) (sc_value r) = Ok value).
  { unfold decrypt_secret, secret_key. cbn [ok_or rbind]. by rewrite Hval, (open_seal _ _ _ _ Hn Hs Ee). }
  split; [by eapply pairs_single|]. split; [|split; [intros i r' Hi; by rewrite Hother|exists r; by rewrite Hval]].
  intros names rows Er v Hin. apply pairs_Ok in Er as (_ & Hrows); [|done]. destruct (Hrows _ _ Hin) as (i & r' & Hi & Hp' & Hk' & Hd').
  destruct (decide (i = k1)) as [->|Hne]; [congruence|]. pose proof (vt_unique _ Hv1 i k1 r' r Hne Hi Hr) as Hu. cbn in Hu.
  by rewrite Hp', Hp, Hk', Hk, N.eqb_refl, str_eqb_refl in Hu.
Qed.
End secret_theorems.

(** ** Who gets secrets *)

Section confined.
Context `{UuidText} (hash_token : str -> str) (policy_required : bool) (confirm : N -> N -> result (option Z) ApiError).
Context (required_secrets : N -> list str) `{Cipher} (collation : relation str) `{!RelDecision collation} (configured : option (list N)).

Abbreviation resolve := (resolve_runner_lease_secrets hash_token policy_required confirm required_secrets collation configured).

(** A lease that runs, in the hands of a runner. *)
Record running_lease (now : Z) (runner : N) (token_hash : str) (fencing : Z) (lease : N) (l : ledger) (project job : N) : Prop := {
  rl_row : exists r j a k p, leases l !! lease = Some r /\ le_job r = job /\ le_runner r = Some runner /\ lease_active r = true /\
    le_token_hash r = Some token_hash /\ le_generation r = fencing /\ now < le_expires_at r /\ is_Some (le_acknowledged_at r) /\
    jobs (core l) !! job = Some j /\ job_status j = Running /\ attempts l !! le_attempt r = Some a /\ at_status a = Running /\
    pipeline_of_job l job = Some k /\ pipelines (core l) !! k = Some p /\ project_id p = project }.

Lemma secret_lease_row_Some now lease runner token_hash fencing l project job : secret_lease_row now lease runner token_hash fencing l = Some (project, job) ->
  running_lease now runner token_hash fencing lease l project job.
Proof.
  unfold secret_lease_row. destruct (leases l !! lease) as [r|] eqn:Er; [cbn [mbind option_bind]|done].
  destruct (jobs (core l) !! le_job r) as [j|] eqn:Ej; [cbn [mbind option_bind]|done]. destruct (attempts l !! le_attempt r) as [a|] eqn:Ea; [cbn [mbind option_bind]|done].
  destruct (pipeline_of_job l (le_job r)) as [k|] eqn:Ek; [cbn [mbind option_bind]|done]. destruct (pipelines (core l) !! k) as [p|] eqn:Ep; [cbn [mbind option_bind]|done].
  destruct (_ && _) eqn:Eb; [|done]. intros [= <- <-]. unfold held in Eb. rewrite !andb_true_iff in Eb.
  destruct Eb as [[[[[[[Hr%bool_decide_eq_true_1 Hact] Ht%bool_decide_eq_true_1] Hg%Z.eqb_eq] He%Z.ltb_lt] Hack] Hj%bool_decide_eq_true_1] Ha%bool_decide_eq_true_1].
  split. exists r, j, a, k, p. assert (Hak : is_Some (le_acknowledged_at r)) by (by destruct (le_acknowledged_at r)). by split_and!.
Qed.

(** C22. Secrets go to nobody but the runner that holds a
    running lease, with its credential, the token and the generation of the
    lease, before the lease runs out; it gets the names it asked for, each once,
    all of them declared by its job, with the values of the job's project; and
    the bundle ends after five minutes at most, or with the session of the
    owner. *)
Theorem secrets_confined now later h lease input t l s resp :
  valid_table s -> resolve now later h lease input t l s = Ok resp ->
  exists runner row project job,
    authenticate_runner hash_token now h t = Ok (runner, row) /\
    running_lease now runner (hash_token (trim (sq_lease_token input))) (sq_fencing_token input) lease l project job /\
    map si_name (sp_items resp) ≡ₚ sort_dedup (map trim (sq_secret_names input)) /\
    (forall item, item ∈ sp_items resp -> si_name item ∈ required_secrets job /\ valid_secret_name (si_name item) = true /\
       exists k r, s !! k = Some r /\ sc_project r = project /\ sc_key r = si_name item /\ decrypt_secret configured (sc_value r) = Ok (si_value item)) /\
    later < sp_expires_at resp <= later + seconds SECRET_BUNDLE_TTL_SECONDS /\
    (forall k until, pipeline_of_job l job = Some k -> (exists r, leases l !! lease = Some r /\ confirm k (le_attempt r) = Ok (Some until)) ->
       sp_expires_at resp <= until).
Proof.
  intros Hv E. unfold resolve_runner_lease_secrets in E. apply rbind_Ok_inv in E as ([[[project job] requested] clock] & Ha & E).
  apply rbind_Ok_inv in E as (rows & Hrows & E). apply rbind_Ok_inv in E as (expires & Hx & [= <-]).
  unfold admit_secrets in Ha. apply rbind_Ok_inv in Ha as ([] & _ & Ha). destruct (_ || _) in Ha; [done|]. apply rbind_Ok_inv in Ha as (req & Hreq & Ha).
  apply rbind_Ok_inv in Ha as ([runner row] & Hauth & Ha). apply rbind_Ok_inv in Ha as ([pr jb] & Hrow%ok_or_Ok & Ha). destruct (existsb _ _) eqn:Eall in Ha; [done|].
  apply rbind_Ok_inv in Ha as (ck & Hck & [= -> -> -> ->]). cbn [fst snd] in *. apply secret_lease_row_Some in Hrow as Hl.
  unfold normalize_secret_names in Hreq. destruct (_ || _) in Hreq; [done|]. destruct (forallb valid_secret_name _) eqn:Evalid in Hreq; [|done]. injection Hreq as <-.
  rewrite forallb_forall in Evalid. apply pairs_Ok in Hrows as (Hperm & Hvals); [|done].
  assert (Hnames : sort_dedup (sort_dedup (map trim (sq_secret_names input))) = sort_dedup (map trim (sq_secret_names input))).
  { apply sort_dedup_ext. intros x. by rewrite elem_of_sort_dedup. }
  rewrite Hnames in Hperm. exists runner, row, project, job. split; [done|]. split; [done|]. cbn [sp_items sp_expires_at].
  split; [|split; [|]].
  - rewrite map_map. cbn [si_name]. exact Hperm.
  - intros item Hin. apply list_elem_of_fmap in Hin as ([n v] & -> & Hin). cbn [si_name si_value fst snd].
    assert (Hn : n ∈ sort_dedup (map trim (sq_secret_names input))).
    { rewrite <- Hperm. apply list_elem_of_fmap. by exists (n, v). }
    split; [|split].
    + apply not_true_iff_false in Eall. destruct (decide (n ∈ required_secrets job)) as [|Hno]; [done|]. exfalso. apply Eall, existsb_exists. exists n.
      split; [by apply list_elem_of_In|]. by rewrite bool_decide_false.
    + apply Evalid, list_elem_of_In. by apply elem_of_sort_dedup.
    + by apply Hvals.
  - unfold bundle_expiry in Hx. apply rbind_Ok_inv in Hx as ([] & Hreqc & [= <-]). assert (Hs : 0 < seconds SECRET_BUNDLE_TTL_SECONDS) by (vm_compute; done).
    unfold require_clock in Hreqc. split; [destruct clock as [u|]; [destruct (Z.ltb_spec later u); [lia|done]|lia]|].
    intros k until Hk (r & Hr & Hc). destruct Hl as [(r' & j & a & k' & p & Hr' & Hj & Hru & Hact & Htok & Hg & He & _ & _ & _ & _ & _ & Hk' & _)].
    rewrite Hr in Hr'. injection Hr' as <-. unfold owner_clock in Hck. rewrite Hr in Hck. cbn [mbind option_bind] in Hck. rewrite Hj, Hk in Hck. cbn [mbind option_bind] in Hck.
    assert (Hh : held now runner (hash_token (trim (sq_lease_token input))) (sq_fencing_token input) r = true).
    { unfold held. rewrite Hact, Hg, Z.eqb_refl, (proj2 (Z.ltb_lt _ _) He), !bool_decide_true by done. done. }
    rewrite Hh in Hck. assert (clock = Some until) as -> by congruence. lia.
Qed.
End confined.

(** ** A small vault *)

#[local] Existing Instance plain_uuid.

#[export] Instance sample_cipher : Cipher.
Proof.
  refine {| base64 := map (N.add 100); base64_decode s := Some (map (fun c => (c - 100)%N) s);
            encrypt _ _ plain := Some plain; decrypt _ _ sealed := Some sealed |}.
  - intros b. f_equal. rewrite map_map. erewrite map_ext; [apply map_id|]. intros c. cbn. lia.
  - intros b (c & E & _)%list_elem_of_fmap. lia.
  - done.
Defined.

Definition shorter (x y : str) : Prop := len x <= len y.
#[export] Instance shorter_dec : RelDecision shorter.
Proof. intros x y. unfold shorter. apply _. Defined.

Definition sample_nonce : list N := repeat 7%N 12.
Definition sample_key : list N := repeat 1%N 32.

(** A secret of project 9, and the same key in another project. *)
Definition sample_vault : secrets :=
  (create_secret (Some sample_key) sample_nonce Committed (Ok tt) 1 42 9 §" TOKEN " §"old" Sample.acknowledged
     (<[41%N := {| sc_project := 10; sc_key := §"TOKEN"; sc_value := §"v1:x:y"; sc_created_at := 0; sc_updated_at := 0 |}]> ∅)).2.

Lemma sample_vault_valid : valid_table sample_vault.
Proof.
  assert (E : exists x, sample_vault = <[42%N := x]> (<[41%N := {| sc_project := 10; sc_key := §"TOKEN"; sc_value := §"v1:x:y"; sc_created_at := 0; sc_updated_at := 0 |}]> ∅)
                   /\ sc_project x = 9%N /\ check x = true) by (eexists; split_and!; vm_compute; reflexivity).
  destruct E as (x & -> & Hp & Hc). split.
  - intros i r [[_ <-]|[_ [[_ <-]|[_ H]]%lookup_insert_Some]]%lookup_insert_Some; [done|done|by rewrite lookup_empty in H].
  - intros i j a b Hij Ha Hb. cbn.
    apply lookup_insert_Some in Ha as [[<- <-]|[_ [[<- <-]|[_ Ha]]%lookup_insert_Some]]; [| |by rewrite lookup_empty in Ha];
      apply lookup_insert_Some in Hb as [[E <-]|[_ [[E <-]|[_ Hb]]%lookup_insert_Some]]; try (by rewrite lookup_empty in Hb); try done; cbn; by rewrite Hp.
Qed.

Lemma secret_roundtrip_witness :
  let stored := create_secret (Some sample_key) sample_nonce Committed (Ok tt) 2 43 9 §"TOKEN" §"new" Sample.acknowledged sample_vault in
  stored.1 = Ok 42%N /\ project_secret_pairs shorter (Some sample_key) 9 [§"TOKEN"] stored.2 = Ok [(§"TOKEN", §"new")].
Proof.
  intros stored. assert (E : stored = (Ok 42%N, stored.2)) by (vm_compute; reflexivity). split; [vm_compute; reflexivity|].
  destruct (secret_roundtrip shorter sample_key sample_nonce Committed (Ok tt) 2 43 9 §"TOKEN" §"new" Sample.acknowledged sample_vault 42 stored.2
              sample_vault_valid eq_refl eq_refl E) as (_ & H & _).
  exact H.
Defined.

Definition sample_host : runners := (register_runner_protocol id 0 (Some §"secret") 3 1 2 (Ok tt) sample_request ∅).2.
Definition bearer : headers := fun name => if str_eqb name §"authorization" then Some (§"Bearer " ++ new_opaque_token §"cicd_runner" 1 2) else None.
Definition sample_resolve (names : list str) :=
  resolve_runner_lease_secrets id false (fun _ _ => Ok None) (fun job => if (job =? 1)%N then [§"TOKEN"] else []) shorter (Some sample_key) 3 4 bearer 31
    {| sq_protocol_version := 1; sq_lease_token := §"secret"; sq_fencing_token := 1; sq_secret_names := names |} sample_host Sample.acknowledged sample_vault.

Lemma secrets_confined_witness :
  sample_resolve [§"OTHER"] = Err forbidden /\
  exists resp, sample_resolve [§" TOKEN "] = Ok resp /\ sp_items resp = [{| si_name := §"TOKEN"; si_injection := §"env"; si_value := §"old" |}] /\
    4 < sp_expires_at resp <= 4 + seconds 300.
Proof.
  split; [vm_compute; reflexivity|].
  assert (E : exists resp, sample_resolve [§" TOKEN "] = Ok resp /\ sp_items resp = [{| si_name := §"TOKEN"; si_injection := §"env"; si_value := §"old" |}])
    by (eexists; split; vm_compute; reflexivity).
  destruct E as (resp & E & Hi). exists resp. split; [exact E|]. split; [exact Hi|].
  destruct (secrets_confined id false (fun _ _ => Ok None) (fun job => if (job =? 1)%N then [§"TOKEN"] else []) shorter (Some sample_key) 3 4 bearer 31
              _ sample_host Sample.acknowledged sample_vault resp sample_vault_valid E) as (_ & _ & _ & _ & _ & _ & _ & _ & Hb & _).
  exact Hb.
Defined.
