(* ===== verification/Custody.v ===== *)
(** * The workspaces of an external runner and its turns

    [OwnedWorkspace] of [backend/src/runner_workspace.rs]: the directory of an
    attempt with its marker and the records of its end, as files that a crash
    can tear; and the turns of [backend/src/bin/forge-runner.rs] on a host
    without Kubernetes, as programs of calls to the server, the disk and the
    processes.  Links and files of others are not modelled. *)
From S2P Require Import Prelude Variables Programs LedgerHandlers Outbox Runners LeaseRequests.
Local Open Scope Z_scope.

(** ** Files *)

Inductive file (A : Type) : Type := Whole (a : A) | Torn.
Arguments Whole {A} a.
Arguments Torn {A}.

Record Owner : Type := { ow_schema : str; ow_attempt : N; ow_lease : N; ow_generation : Z }.
#[export] Instance Owner_eq_dec : EqDecision Owner.
Proof. solve_decision. Defined.

Record Completion : Type := { cm_schema : str; cm_owner : Owner; cm_status : str }.
#[export] Instance Completion_eq_dec : EqDecision Completion.
Proof. solve_decision. Defined.

(** An attempt directory: [.forge-attempt.json], the two records of its end
    with their acknowledgements, and whether there is a checkout. *)
Record directory : Type := {
  di_marker : option (file Owner);
  di_completion : option (file Completion);
  di_ack : option (file Completion);
  di_recovery : option (file Completion);
  di_recovery_ack : option (file Completion);
  di_checkout : bool }.

Inductive record_file : Type := COMPLETION | ACK | RECOVERY_COMPLETION | RECOVERY_ACK.
#[export] Instance record_file_eq_dec : EqDecision record_file.
Proof. solve_decision. Defined.

Definition get_record (f : record_file) (d : directory) : option (file Completion) :=
  match f with COMPLETION => di_completion d | ACK => di_ack d | RECOVERY_COMPLETION => di_recovery d | RECOVERY_ACK => di_recovery_ack d end.

Definition set_record (f : record_file) (c : file Completion) (d : directory) : directory := {|
  di_marker := di_marker d;
  di_completion := if bool_decide (f = COMPLETION) then Some c else di_completion d;
  di_ack := if bool_decide (f = ACK) then Some c else di_ack d;
  di_recovery := if bool_decide (f = RECOVERY_COMPLETION) then Some c else di_recovery d;
  di_recovery_ack := if bool_decide (f = RECOVERY_ACK) then Some c else di_recovery_ack d;
  di_checkout := di_checkout d |}.

Definition set_checkout (d : directory) : directory := {|
  di_marker := di_marker d; di_completion := di_completion d; di_ack := di_ack d; di_recovery := di_recovery d; di_recovery_ack := di_recovery_ack d;
  di_checkout := true |}.

Definition empty_directory (marker : option (file Owner)) : directory := {|
  di_marker := marker; di_completion := None; di_ack := None; di_recovery := None; di_recovery_ack := None; di_checkout := false |}.

Definition MAX_INVENTORY_ENTRIES : Z := 4096.
Definition WORKSPACE_SCHEMA : str := §"forge/attempt-workspace/v1".
Definition COMPLETION_SCHEMA : str := §"forge/attempt-completion/v1".

Abbreviation disk_root := (gmap str directory).

Record OwnedWorkspace : Type := { ws_directory : str; ws_owner : Owner }.

Record RetainedWorkspace : Type := {
  rw_workspace_id : str; rw_attempt : N; rw_lease : N; rw_generation : Z; rw_terminal_status : option str; rw_acknowledged : bool }.

Definition terminal_text (s : str) : bool := str_eqb s §"success" || str_eqb s §"failed" || str_eqb s §"canceled".

Section workspaces.
Context `{UuidText}.

Definition workspace_prefix (attempt : N) (generation : Z) : str := §"attempt-" ++ uuid_text attempt ++ §"-" ++ show_Z generation ++ §"-".

(** [verify_owner] *)
Definition verify_owner (ws : OwnedWorkspace) (root : disk_root) : result directory str :=
  let? d := ok_or (root !! ws_directory ws) §"attempt workspace unavailable" in
  match di_marker d with
  | Some (Whole owner) => if bool_decide (owner = ws_owner ws) then Ok d else Err §"workspace ownership marker mismatch"
  | _ => Err §"invalid workspace ownership marker"
  end.

Definition verify_identity (ws : OwnedWorkspace) (attempt lease : N) (generation : Z) (root : disk_root) : result unit str :=
  let owner := ws_owner ws in
  if negb ((ow_attempt owner =? attempt)%N && (ow_lease owner =? lease)%N && (ow_generation owner =? generation)) then Err §"workspace readback identity changed"
  else let? _ := verify_owner ws root in Ok tt.

(** [OwnedWorkspace::create] *)
Definition create (nonce attempt lease : N) (generation : Z) (root : disk_root) : result OwnedWorkspace str * disk_root :=
  let name := workspace_prefix attempt generation ++ uuid_simple nonce in
  if generation <=? 0 then (Err §"invalid workspace lease generation", root)
  else if (attempt =? 0)%N || (lease =? 0)%N then (Err §"invalid workspace lease identity", root)
  else match root !! name with
       | Some _ => (Err §"create fresh attempt directory", root)
       | None =>
         let owner := {| ow_schema := WORKSPACE_SCHEMA; ow_attempt := attempt; ow_lease := lease; ow_generation := generation |} in
         (Ok {| ws_directory := name; ws_owner := owner |}, <[name := empty_directory (Some (Whole owner))]> root)
       end.

Definition read_record (ws : OwnedWorkspace) (f : record_file) (d : directory) : result Completion str :=
  match get_record f d with
  | Some (Whole c) =>
    if str_eqb (cm_schema c) COMPLETION_SCHEMA && bool_decide (cm_owner c = ws_owner ws) && terminal_text (cm_status c) then Ok c
    else Err §"invalid workspace completion record"
  | Some Torn => Err §"invalid workspace metadata"
  | None => Err §"workspace record unavailable"
  end.

(** [write_record]: what is there is never overwritten. *)
Definition write_record (ws : OwnedWorkspace) (f : record_file) (c : Completion) (d : directory) (root : disk_root) : result unit str * disk_root :=
  match get_record f d with
  | None => (Ok tt, <[ws_directory ws := set_record f (Whole c) d]> root)
  | Some _ =>
    (let? present := read_record ws f d in if bool_decide (present = c) then Ok tt else Err §"workspace completion conflict", root)
  end.

Definition completion_of (ws : OwnedWorkspace) (status : str) : Completion :=
  {| cm_schema := COMPLETION_SCHEMA; cm_owner := ws_owner ws; cm_status := status |}.

Definition record_completion (ws : OwnedWorkspace) (status : str) (root : disk_root) : result unit str * disk_root :=
  if negb (terminal_text status) then (Err §"invalid workspace completion outcome", root)
  else match verify_owner ws root with
       | Err e => (Err e, root)
       | Ok d => write_record ws COMPLETION (completion_of ws status) d root
       end.

Definition record_recovered_termination (ws : OwnedWorkspace) (status : str) (root : disk_root) : result unit str * disk_root :=
  match verify_owner ws root with
  | Err e => (Err e, root)
  | Ok d =>
    if negb (str_eqb status §"failed" || str_eqb status §"canceled") || is_some (di_ack d)
    then (Err §"acknowledged/successful history cannot be superseded", root)
    else write_record ws RECOVERY_COMPLETION (completion_of ws status) d root
  end.

Definition completion_paths (d : directory) : record_file * record_file :=
  if is_some (di_recovery d) then (RECOVERY_COMPLETION, RECOVERY_ACK) else (COMPLETION, ACK).

Definition acknowledge_completion (ws : OwnedWorkspace) (status : str) (root : disk_root) : result unit str * disk_root :=
  match (let? d := verify_owner ws root in
         let? c := read_record ws (completion_paths d).1 d in
         if str_eqb (cm_status c) status then Ok (d, c) else Err §"workspace terminal acknowledgement mismatch") with
  | Err e => (Err e, root)
  | Ok (d, c) => write_record ws (completion_paths d).2 c d root
  end.

(** [cleanup_after_ack] *)
Definition cleanup_admitted (ws : OwnedWorkspace) (root : disk_root) : result Completion str :=
  let? d := verify_owner ws root in
  let? c := read_record ws (completion_paths d).1 d in
  let? a := read_record ws (completion_paths d).2 d in
  if bool_decide (c = a) then Ok c else Err §"workspace terminal acknowledgement missing".

Definition cleanup_after_ack (ws : OwnedWorkspace) (root : disk_root) : result unit str * disk_root :=
  match cleanup_admitted ws root with
  | Err e => (Err e, root)
  | Ok _ => (Ok tt, delete (ws_directory ws) root)
  end.

Definition reopen (name : str) (root : disk_root) : result OwnedWorkspace str :=
  if negb (starts_with §"attempt-" name) || contains_char 47 name || contains_char 92 name || (128 <? len name) then Err §"invalid workspace identity"
  else
    let? d := ok_or (root !! name) §"attempt workspace unavailable" in
    let? owner := match di_marker d with Some (Whole owner) => Ok owner | _ => Err §"invalid workspace metadata" end in
    let? suffix := ok_or (strip_prefix (workspace_prefix (ow_attempt owner) (ow_generation owner)) name) §"workspace identity mismatch" in
    let? nonce := ok_or (uuid_parse suffix) §"invalid workspace nonce" in
    if str_eqb (ow_schema owner) WORKSPACE_SCHEMA && negb (ow_attempt owner =? 0)%N && negb (ow_lease owner =? 0)%N && (0 <? ow_generation owner)
       && str_eqb (uuid_simple nonce) suffix
    then Ok {| ws_directory := name; ws_owner := owner |} else Err §"invalid workspace ownership".

(** One entry of [inventory]. *)
Definition retained (name : str) (root : disk_root) : result RetainedWorkspace str :=
  let? ws := reopen name root in
  let? d := ok_or (root !! name) §"attempt workspace unavailable" in
  let paths := completion_paths d in
  let? status := match get_record paths.1 d with Some _ => let? c := read_record ws paths.1 d in Ok (Some (cm_status c)) | None => Ok None end in
  let? acknowledged :=
    match get_record paths.2 d with
    | Some _ => let? a := read_record ws paths.2 d in if bool_decide (Some (cm_status a) = status) then Ok true else Err §"orphan workspace acknowledgement"
    | None => Ok false
    end in
  Ok {| rw_workspace_id := name; rw_attempt := ow_attempt (ws_owner ws); rw_lease := ow_lease (ws_owner ws); rw_generation := ow_generation (ws_owner ws);
        rw_terminal_status := status; rw_acknowledged := acknowledged |}.

Definition add_retained (root : disk_root) (found : list RetainedWorkspace) (name : str) : result (list RetainedWorkspace) str :=
  if starts_with §"attempt-" name then let? r := retained name root in Ok (found ++ [r]) else Ok found.

Definition inventory (root : disk_root) : result (list RetainedWorkspace) str :=
  if MAX_INVENTORY_ENTRIES <? zlen (keys root) then Err §"workspace inventory exceeds safety limit"
  else rfold (add_retained root) [] (keys root).
End workspaces.

(** ** Calls *)

(** Why something fails; an execution whose end is not confirmed must not be
    reported. *)
Inductive failure : Type := UnconfirmedExecution | Failure (message : str).

Record WorkspaceSpec : Type := { sp_checkout : bool; sp_checkout_url : option str }.

Record AttemptSpec : Type := {
  as_id : N; as_executor : str; as_git_ref : str; as_commit_sha : option str; as_commands : list str; as_environment : gmap str str;
  as_secrets : list str; as_artifacts : list str; as_timeout_seconds : Z; as_workspace : WorkspaceSpec;
  (** [image_publish] or [helm_deploy] *)
  as_typed : bool }.

Record LeaseOffer : Type := { lo_lease : N; lo_token : str; lo_fencing : Z; lo_attempt : AttemptSpec }.

Record ExecutionResult : Type := { xr_outcome : str; xr_exit_code : option Z; xr_diagnostic : option str }.
Record CompletionAck : Type := { ca_protocol_version : Z; ca_accepted : bool; ca_terminal_status : str }.
Record LeaseReceipt : Type := {
  lr_protocol_version : Z; lr_lease : N; lr_attempt : N; lr_fencing_token : Z; lr_lease_status : str; lr_terminal_status : option str;
  lr_completed_at : option Z; lr_terminal_acknowledged : bool }.

(** A command has exited, was canceled, or could not be run to its end. *)
Inductive CommandOutcome : Type := Exited (success : bool) (code : option Z) | Interrupted.

Inductive rop : Type :=
(* the gate *)
| REnter (new_work : bool)
| RAccepting
(* the server *)
| RCredential
| RHeartbeat (busy : Z) (leases : list N)
| RPoll
| RAckLease (o : LeaseOffer)
| RResolveSecrets (o : LeaseOffer)
| RComplete (o : LeaseOffer) (r : ExecutionResult)
| RReceipt (lease : N)
| RUpload (o : LeaseOffer) (ws : OwnedWorkspace)
(* the disk *)
| RInventory
| RReopen (name : str)
| RVerify (ws : OwnedWorkspace) (attempt lease : N) (generation : Z)
| RCreate (attempt lease : N) (generation : Z)
| RCheckout (ws : OwnedWorkspace) (source : option (str * option str * str * bool))
| RRecord (ws : OwnedWorkspace) (status : str)
| RAcknowledge (ws : OwnedWorkspace) (status : str)
| RCleanup (ws : OwnedWorkspace)
(* processes *)
| RProcesses (o : LeaseOffer)
| RCommand (o : LeaseOffer) (ws : OwnedWorkspace) (command : str) (environment : list (str * str))
| RFinish.

Definition ranswer (o : rop) : Type :=
  match o with
  | REnter _ | RAccepting => bool
  | RPoll => result (option LeaseOffer) failure
  | RResolveSecrets _ => result (list RunnerSecretItem) failure
  | RComplete _ _ => result CompletionAck failure
  | RReceipt _ => result LeaseReceipt failure
  | RInventory => result (list RetainedWorkspace) failure
  | RReopen _ | RCreate _ _ _ => result OwnedWorkspace failure
  | RCommand _ _ _ _ => result CommandOutcome failure
  | _ => result unit failure
  end.

Abbreviation run := (io ranswer).
Abbreviation rcall := (call (op := rop) (answer := ranswer)).
Definition stop {A} (message : str) : run (result A failure) := Done (Err (Failure message)).
Definition from_result {A} (r : result A str) : run (result A failure) := Done (match r with Ok a => Ok a | Err m => Err (Failure m) end).

Record Cli : Type := { cli_once : bool; cli_no_checkout : bool; cli_keep_workspace : bool; cli_reconcile_workspaces : bool }.

(** ** Reports *)

Definition failed_result (diagnostic : option str) : ExecutionResult :=
  {| xr_outcome := §"failed"; xr_exit_code := None; xr_diagnostic := truncate_diagnostic <$> diagnostic |}.
Definition message_of (e : failure) : str := match e with UnconfirmedExecution => §"command termination is unconfirmed; workspace requires process reconciliation" | Failure m => m end.

Definition complete_lease (o : LeaseOffer) (r : ExecutionResult) : run (result unit failure) :=
  run? ack := rcall (RComplete o r) in
  if negb (ca_protocol_version ack =? RUNNER_PROTOCOL_VERSION) || negb (ca_accepted ack) || negb (str_eqb (ca_terminal_status ack) (xr_outcome r))
  then stop §"terminal completion acknowledgement does not match this result" else Done (Ok tt).

Definition receipt_confirms (r : LeaseReceipt) (lease attempt : N) (generation : Z) (outcome : str) : bool :=
  (lr_protocol_version r =? RUNNER_PROTOCOL_VERSION) && (lr_lease r =? lease)%N && (lr_attempt r =? attempt)%N && (lr_fencing_token r =? generation)
  && lr_terminal_acknowledged r && is_some (lr_completed_at r) && bool_decide (lr_terminal_status r = Some outcome)
  && str_eqb (lr_lease_status r) (if str_eqb outcome §"canceled" then §"canceled" else §"completed").

Definition read_terminal_receipt (lease attempt : N) (generation : Z) (outcome : str) : run (result unit failure) :=
  run? r := rcall (RReceipt lease) in
  if receipt_confirms r lease attempt generation outcome then Done (Ok tt)
  else stop §"terminal readback does not acknowledge this attempt result".

(** The outcome is written down before it is posted; a lost answer is settled
    by the receipt, and never by a second post. *)
Definition complete_executed_attempt (o : LeaseOffer) (r : ExecutionResult) (ws : OwnedWorkspace) (keep : bool) : run (result unit failure) :=
  run! recorded := rcall (RRecord ws (xr_outcome r)) in
  match recorded with
  | Err _ => stop §"workspace completion intention conflicts"
  | Ok _ =>
    run! posted := complete_lease o r in
    run! completion :=
      match posted with
      | Ok _ => Done (Ok tt)
      | Err _ => read_terminal_receipt (lo_lease o) (as_id (lo_attempt o)) (lo_fencing o) (xr_outcome r)
      end in
    match completion with
    | Err e => Done (Err e)
    | Ok _ =>
      run? _ := rcall (RAcknowledge ws (xr_outcome r)) in
      if keep then Done (Ok tt) else run! _ := rcall (RCleanup ws) in Done (Ok tt)
    end
  end.

(** ** Execution *)

Definition resolve_lease_secrets (o : LeaseOffer) : run (result (list (str * str)) failure) :=
  let requested := sort_dedup (as_secrets (lo_attempt o)) in
  if is_empty (as_secrets (lo_attempt o)) then Done (Ok [])
  else
    run? items := rcall (RResolveSecrets o) in
    if existsb (fun i => negb (str_eqb (si_injection i) §"env") || negb (bool_decide (si_name i ∈ requested))) items
    then stop §"API returned an invalid secret bundle"
    else if negb (zlen items =? zlen requested) then stop §"API returned an incomplete secret bundle"
    else Done (Ok (map (fun i => (si_name i, si_value i)) items)).

Definition prepare_workspace (cli : Cli) (o : LeaseOffer) : run (result OwnedWorkspace failure) :=
  let a := lo_attempt o in
  let spec := as_workspace a in
  run? ws := rcall (RCreate (as_id a) (lo_lease o) (lo_fencing o)) in
  if is_some (as_commit_sha a) && (negb (sp_checkout spec) || cli_no_checkout cli)
  then stop §"pinned attempt requires checkout; no-checkout cannot bypass verification"
  else
    run? _ :=
      if sp_checkout spec && negb (cli_no_checkout cli) then
        match (u ← sp_checkout_url spec; let u := trim u in if is_empty u then None else Some u) with
        | None => stop §"lease requires checkout but checkoutUrl is missing"
        | Some url =>
          if as_typed a && is_none (as_commit_sha a) then stop §"typed delivery requires source pin"
          else rcall (RCheckout ws (Some (url, as_commit_sha a, as_git_ref a, as_typed a)))
        end
      else rcall (RCheckout ws None) in
    Done (Ok ws).

(** The commands in their order, with the code of the last one; the first that
    does not succeed ends them. *)
Fixpoint run_commands (o : LeaseOffer) (ws : OwnedWorkspace) (environment : list (str * str)) (commands : list str) (last : option Z) :
    run (result (ExecutionResult * option Z) failure) :=
  match commands with
  | [] => Done (Ok ({| xr_outcome := §"success"; xr_exit_code := None; xr_diagnostic := None |}, last))
  | command :: commands =>
    run! outcome := rcall (RCommand o ws command environment) in
    match outcome with
    | Err UnconfirmedExecution => run! _ := rcall RFinish in Done (Err UnconfirmedExecution)
    | Err (Failure m) => Done (Ok (failed_result (Some m), last))
    | Ok Interrupted => Done (Ok ({| xr_outcome := §"canceled"; xr_exit_code := None; xr_diagnostic := Some §"runner cancellation requested" |}, last))
    | Ok (Exited true code) => run_commands o ws environment commands code
    | Ok (Exited false code) =>
      Done (Ok ({| xr_outcome := §"failed"; xr_exit_code := code;
                   xr_diagnostic := Some (§"command exited with status " ++ match code with Some c => show_Z c | None => §"signal" end) |}, code))
    end
  end.

(** The outputs are uploaded before the result is known. *)
Definition conclude_attempt (o : LeaseOffer) (ws : OwnedWorkspace) (last : option Z) (r : ExecutionResult) :
    run (result (ExecutionResult * OwnedWorkspace) failure) :=
  run! uploaded := if str_eqb (xr_outcome r) §"canceled" then Done (Ok tt) else rcall (RUpload o ws) in
  let r :=
    if str_eqb (xr_outcome r) §"success" then
      match uploaded with
      | Err e => failed_result (Some (§"artifact upload failed: " ++ message_of e))
      | Ok _ => {| xr_outcome := §"success"; xr_exit_code := Some (default 0 last); xr_diagnostic := xr_diagnostic r |}
      end
    else r in
  Done (Ok (r, ws)).

Definition execute_attempt (cli : Cli) (o : LeaseOffer) (secret_env : list (str * str)) : run (result (ExecutionResult * OwnedWorkspace) failure) :=
  let a := lo_attempt o in
  run? _ := from_result (Variables.validate (as_environment a) (map fst secret_env)) in
  run? ws := prepare_workspace cli o in
  if negb (str_eqb (as_executor a) §"shell") then stop §"unsupported offered executor"
  else
    run? _ := rcall (RProcesses o) in
    run? executed := run_commands o ws (bindings (as_environment a) ++ secret_env) (as_commands a) None in
    run! finished := rcall RFinish in
    match finished with
    | Err UnconfirmedExecution => Done (Err UnconfirmedExecution)
    | _ =>
      let r := match finished with Err (Failure m) => failed_result (Some m) | _ => executed.1 end in
      conclude_attempt o ws executed.2 r
    end.

Definition complete_attempt_result (cli : Cli) (o : LeaseOffer) (executed : result (ExecutionResult * OwnedWorkspace) failure) : run (result unit failure) :=
  match executed with
  | Ok (r, ws) => complete_executed_attempt o r ws (cli_keep_workspace cli)
  | Err UnconfirmedExecution => Done (Err UnconfirmedExecution)
  | Err (Failure m) => complete_lease o (failed_result (Some m))
  end.

Definition run_offer (cli : Cli) (o : LeaseOffer) : run (result unit failure) :=
  run! entered := rcall (REnter false) in
  if negb entered then stop §"Forge effects closed"
  else
    run? _ := rcall (RAckLease o) in
    run? _ := rcall (RHeartbeat 1 [lo_lease o]) in
    run! secrets := resolve_lease_secrets o in
    match secrets with
    | Err e =>
      run! completion := complete_lease o (failed_result (Some (§"secret resolve failed: " ++ message_of e))) in
      run? _ := rcall (RHeartbeat 0 []) in Done completion
    | Ok secret_env =>
      run! executed := execute_attempt cli o secret_env in
      run? _ := complete_attempt_result cli o executed in
      rcall (RHeartbeat 0 [])
    end.

(** ** Workspaces that were left behind *)

(** One of them: whether it is settled. *)
Definition reconcile_one (keep : bool) (w : RetainedWorkspace) : run (result bool failure) :=
  match rw_terminal_status w with
  | None => Done (Ok false)
  | Some outcome =>
    run! confirmed := read_terminal_receipt (rw_lease w) (rw_attempt w) (rw_generation w) outcome in
    match confirmed with
    | Err _ => Done (Ok false)
    | Ok _ =>
      run? ws := rcall (RReopen (rw_workspace_id w)) in
      run? _ := rcall (RVerify ws (rw_attempt w) (rw_lease w) (rw_generation w)) in
      run? _ := rcall (RAcknowledge ws outcome) in
      run? _ := if keep then Done (Ok tt) else rcall (RCleanup ws) in
      Done (Ok true)
    end
  end.

Fixpoint reconcile_all (keep : bool) (ws : list RetainedWorkspace) (unresolved : Z) : run (result unit failure) :=
  match ws with
  | [] => if 0 <? unresolved then stop (show_Z unresolved ++ §" workspaces remain unresolved; no commands were re-executed") else Done (Ok tt)
  | w :: ws => run? settled := reconcile_one keep w in reconcile_all keep ws (if settled : bool then unresolved else unresolved + 1)
  end.

Definition reconcile_workspaces (keep : bool) : run (result unit failure) :=
  run! entered := rcall (REnter false) in
  if negb entered then stop §"Forge effects closed"
  else run? records := rcall RInventory in reconcile_all keep records 0.

Definition ensure_no_unresolved_workspaces : run (result unit failure) :=
  run? records := rcall RInventory in
  if existsb (fun w => negb (rw_acknowledged w)) records
  then stop §"unresolved workspaces require owner readback; use --inspect-workspaces and --reconcile-workspaces before polling new work"
  else Done (Ok tt).

(** ** The runner *)

Inductive next : Type := Again | Stop.

(** [run] up to its loop *)
Definition run_start (cli : Cli) : run (result next failure) :=
  run? _ := if cli_reconcile_workspaces cli then Done (Ok tt) else ensure_no_unresolved_workspaces in
  run? _ := rcall RCredential in
  if cli_reconcile_workspaces cli then run? _ := reconcile_workspaces (cli_keep_workspace cli) in Done (Ok Stop)
  else run? _ := reconcile_workspaces true in Done (Ok Again).

(** One turn of the loop *)
Definition run_turn (cli : Cli) : run (result next failure) :=
  run! entered := rcall (REnter true) in
  if negb entered then Done (Ok Again)
  else
    run? _ := rcall (RHeartbeat 0 []) in
    run! polled := rcall RPoll in
    match polled with
    | Err e => run! accepting := rcall RAccepting in if accepting : bool then Done (Err e) else Done (Ok Again)
    | Ok None => Done (Ok (if cli_once cli then Stop else Again))
    | Ok (Some o) => run? _ := run_offer cli o in Done (Ok (if cli_once cli then Stop else Again))
    end.
