(* ===== verification/CustodySafety.v ===== *)
(** * Custody of results: the host

    The runners of a host with their workspaces, next to the ledger of the
    server: their calls interleave with each other and with everything that
    happens to the ledger, answers get lost, files tear, processes crash.
    [wp] shows that every call of a runner is justified by what it knows; the
    invariant says that what is known and what is on the disk is true. *)
From stdpp Require Import relations.
From S2P Require Import Prelude Status Table Ledger LedgerHandlers LedgerSafety LedgerSteps LedgerTheorems Programs Outbox Runners LeaseRequests Custody.
Local Open Scope Z_scope.

(** ** The world of a host *)

(** The ledger of the server; the root of the workspaces, and what was removed
    from it; the leases whose result was posted, and those whose commands were
    started. *)
Record world : Type := {
  wl_ledger : ledger; wl_root : disk_root; wl_removed : list (Owner * str); wl_posted : list N; wl_started : list N }.

Definition with_ledger (l : ledger) (w : world) : world :=
  {| wl_ledger := l; wl_root := wl_root w; wl_removed := wl_removed w; wl_posted := wl_posted w; wl_started := wl_started w |}.
Definition with_posted (lease : N) (w : world) : world :=
  {| wl_ledger := wl_ledger w; wl_root := wl_root w; wl_removed := wl_removed w; wl_posted := lease :: wl_posted w; wl_started := wl_started w |}.
Definition with_started (lease : N) (w : world) : world :=
  {| wl_ledger := wl_ledger w; wl_root := wl_root w; wl_removed := wl_removed w; wl_posted := wl_posted w; wl_started := lease :: wl_started w |}.
Definition with_disk (root : disk_root) (removed : list (Owner * str)) (w : world) : world :=
  {| wl_ledger := wl_ledger w; wl_root := root; wl_removed := removed ++ wl_removed w; wl_posted := wl_posted w; wl_started := wl_started w |}.

(** [?] on an error of the disk *)
Definition raised {A} (r : result A str) : result A failure := match r with Ok a => Ok a | Err m => Err (Failure m) end.

(** How a call fails. *)
Definition failed_answer (e : failure) (o : rop) : option (ranswer o) :=
  match o return option (ranswer o) with
  | REnter _ => None | RAccepting => None
  | RCredential => Some (Err e) | RHeartbeat _ _ => Some (Err e) | RPoll => Some (Err e) | RAckLease _ => Some (Err e)
  | RResolveSecrets _ => Some (Err e) | RComplete _ _ => Some (Err e) | RReceipt _ => Some (Err e) | RUpload _ _ => Some (Err e)
  | RInventory => Some (Err e) | RReopen _ => Some (Err e) | RVerify _ _ _ _ => Some (Err e) | RCreate _ _ _ => Some (Err e)
  | RCheckout _ _ => Some (Err e) | RRecord _ _ => Some (Err e) | RAcknowledge _ _ => Some (Err e) | RCleanup _ => Some (Err e)
  | RProcesses _ => Some (Err e) | RCommand _ _ _ _ => Some (Err e) | RFinish => Some (Err e)
  end.

Section disk_calls.
Context `{UuidText}.

(** What the disk does, with the nonce of a new workspace. *)
Definition on_disk (nonce : N) (root : disk_root) (o : rop) : option (ranswer o * disk_root) :=
  match o return option (ranswer o * disk_root) with
  | RInventory => Some (raised (inventory root), root)
  | RReopen name => Some (raised (reopen name root), root)
  | RVerify ws attempt lease generation => Some (raised (verify_identity ws attempt lease generation root), root)
  | RCreate attempt lease generation => let r := create nonce attempt lease generation root in Some (raised r.1, r.2)
  | RCheckout ws _ =>
    match verify_owner ws root with
    | Ok d => Some (Ok tt, <[ws_directory ws := set_checkout d]> root)
    | Err m => Some (Err (Failure m), root)
    end
  | RRecord ws status => let r := record_completion ws status root in Some (raised r.1, r.2)
  | RAcknowledge ws status => let r := acknowledge_completion ws status root in Some (raised r.1, r.2)
  | RCleanup ws => let r := cleanup_after_ack ws root in Some (raised r.1, r.2)
  | _ => None
  end.

(** What a call removes. *)
Definition removes (root : disk_root) (o : rop) : list (Owner * str) :=
  match o with
  | RCleanup ws => match cleanup_admitted ws root with Ok c => [(ws_owner ws, cm_status c)] | Err _ => [] end
  | _ => []
  end.

(** What is left of a directory while it is removed. *)
Definition left_over (d d' : directory) : Prop :=
  (di_marker d' = di_marker d \/ di_marker d' = None) /\ forall f, get_record f d' = get_record f d \/ get_record f d' = None.

(** A call that stops halfway: the file it writes is torn, the directory it
    makes has no marker yet, the directory it removes is still there in part. *)
Inductive half_done (root : disk_root) : rop -> disk_root -> Prop :=
| half_record ws status d : verify_owner ws root = Ok d -> get_record COMPLETION d = None ->
    half_done root (RRecord ws status) (<[ws_directory ws := set_record COMPLETION Torn d]> root)
| half_acknowledge ws status d c : verify_owner ws root = Ok d -> read_record ws (completion_paths d).1 d = Ok c -> cm_status c = status ->
    get_record (completion_paths d).2 d = None ->
    half_done root (RAcknowledge ws status) (<[ws_directory ws := set_record (completion_paths d).2 Torn d]> root)
| half_create attempt lease generation nonce marker : marker = None \/ marker = Some Torn ->
    root !! (workspace_prefix attempt generation ++ uuid_simple nonce) = None ->
    half_done root (RCreate attempt lease generation) (<[workspace_prefix attempt generation ++ uuid_simple nonce := empty_directory marker]> root)
| half_cleanup ws c d d' : cleanup_admitted ws root = Ok c -> root !! ws_directory ws = Some d -> left_over d d' ->
    half_done root (RCleanup ws) (<[ws_directory ws := d']> root).
End disk_calls.

(** ** The server *)

Definition report_of (finished_at : Z) (o : LeaseOffer) (r : ExecutionResult) : complete_request := {|
  rq_control := {| cr_protocol_version := RUNNER_PROTOCOL_VERSION; cr_lease_token := lo_token o; cr_fencing_token := lo_fencing o |};
  rq_attempt_id := as_id (lo_attempt o); rq_outcome := xr_outcome r; rq_exit_code := xr_exit_code r; rq_finished_at := finished_at;
  rq_diagnostic := xr_diagnostic r; rq_deployment_observation := false |}.

Definition lease_status_text (s : LeaseStatus) : str :=
  match s with Active => §"active" | Completed => §"completed" | LeaseCanceled => §"canceled" | Expired => §"expired" end.

Definition receipt_of (re : RunnerLeaseReceipt) : LeaseReceipt := {|
  lr_protocol_version := 1; lr_lease := re_lease re; lr_attempt := re_attempt re; lr_fencing_token := re_fencing_token re;
  lr_lease_status := lease_status_text (re_lease_status re); lr_terminal_status := as_str <$> re_terminal_status re;
  lr_completed_at := re_completed_at re; lr_terminal_acknowledged := re_terminal_acknowledged re |}.

(** Calls that reach neither the disk nor, with an answer that matters here,
    the ledger. *)
Definition elsewhere (o : rop) : bool :=
  match o with
  | REnter _ | RAccepting | RCredential | RHeartbeat _ _ | RAckLease _ | RResolveSecrets _ | RUpload _ _ | RCommand _ _ _ _ | RFinish => true
  | _ => false
  end.

Section serving.
Context `{UuidText} (hash_token : str -> str).

(** What a call does to the world, with its answer. *)
Inductive serves (w : world) : forall o, ranswer o -> world -> Prop :=
| serve_elsewhere o a l' : elsewhere o = true -> rtc ledger_event (wl_ledger w) l' -> serves w o a (with_ledger l' w)
| serve_offer now lease runner token_hash tags others qid checks attempt generation stage l' o :
    claim_next_work_tx now lease runner token_hash tags others qid checks (wl_ledger w) = Ok (Offered lease attempt generation stage, l') ->
    lo_lease o = lease -> as_id (lo_attempt o) = attempt -> lo_fencing o = generation -> hash_token (lo_token o) = token_hash ->
    serves w RPoll (Ok (Some o)) (with_ledger l' w)
| serve_no_work : serves w RPoll (Ok None) w
| serve_completion authenticated now deployment finished_at o r t l' :
    complete_runner_lease hash_token authenticated now (lo_lease o) deployment None (report_of finished_at o r) (wl_ledger w) = (Ok t, l') ->
    serves w (RComplete o r) (Ok {| ca_protocol_version := 1; ca_accepted := true; ca_terminal_status := as_str t |}) (with_posted (lo_lease o) (with_ledger l' w))
| serve_lost_completion o r e : serves w (RComplete o r) (Err e) (with_posted (lo_lease o) w)
| serve_receipt now h lease t re : read_runner_lease_receipt hash_token now h lease t (wl_ledger w) = Ok re ->
    serves w (RReceipt lease) (Ok (receipt_of re)) w
| serve_processes o a : serves w (RProcesses o) a (with_started (lo_lease o) w)
| serve_disk nonce o a root' : on_disk nonce (wl_root w) o = Some (a, root') -> serves w o a (with_disk root' (removes (wl_root w) o) w)
| serve_failure o e a : elsewhere o = false -> match o with RComplete _ _ | RProcesses _ => False | _ => True end -> failed_answer e o = Some a -> serves w o a w
| serve_half o e a root' : half_done (wl_root w) o root' -> failed_answer e o = Some a -> serves w o a (with_disk root' (removes (wl_root w) o) w)
| serve_unanswered o e a nonce a' root' : on_disk nonce (wl_root w) o = Some (a', root') -> failed_answer e o = Some a ->
    serves w o a (with_disk root' (removes (wl_root w) o) w).

(** ** The host *)

Record host : Type := { h_world : world; h_runs : gmap N (run (result next failure)) }.

Inductive host_step (h : host) : host -> Prop :=
| step_ledger l' : ledger_event (wl_ledger (h_world h)) l' -> host_step h {| h_world := with_ledger l' (h_world h); h_runs := h_runs h |}
| step_call i o k a w' : h_runs h !! i = Some (Call o k) -> serves (h_world h) o a w' -> host_step h {| h_world := w'; h_runs := <[i := k a]> (h_runs h) |}
(** A process ends, between two calls or in the middle of one. *)
| step_end i : host_step h {| h_world := h_world h; h_runs := delete i (h_runs h) |}
| step_crash i o k a w' : h_runs h !! i = Some (Call o k) -> serves (h_world h) o a w' -> host_step h {| h_world := w'; h_runs := delete i (h_runs h) |}
| step_start i cli : h_runs h !! i = None -> host_step h {| h_world := h_world h; h_runs := <[i := run_start cli]> (h_runs h) |}
| step_turn i cli : h_runs h !! i = Some (Done (Ok Again)) -> host_step h {| h_world := h_world h; h_runs := <[i := run_turn cli]> (h_runs h) |}.
End serving.

(** ** What a process knows *)

(** The results the server confirmed, by lease, attempt, generation and status;
    the lease whose result was not posted, and the one whose commands were not
    started. *)
Record ghost : Type := { gh_known : list (N * N * Z * str); gh_post : option N; gh_start : option N }.

Definition no_ghost : ghost := {| gh_known := []; gh_post := None; gh_start := None |}.
Definition known_of (ws : OwnedWorkspace) (status : str) : N * N * Z * str :=
  (ow_lease (ws_owner ws), ow_attempt (ws_owner ws), ow_generation (ws_owner ws), status).

Definition may_call (o : rop) (g : ghost) : Prop :=
  match o with
  | RComplete o _ => gh_post g = Some (lo_lease o)
  | RProcesses o => gh_start g = Some (lo_lease o)
  | RAcknowledge ws status => known_of ws status ∈ gh_known g
  | _ => True
  end.

(** What a confirmed report says. *)
Definition acknowledged_as (o : LeaseOffer) (r : ExecutionResult) (ack : CompletionAck) : list (N * N * Z * str) :=
  if str_eqb (ca_terminal_status ack) (xr_outcome r) then [(lo_lease o, as_id (lo_attempt o), lo_fencing o, xr_outcome r)] else [].
Definition received (r : LeaseReceipt) : list (N * N * Z * str) :=
  match lr_terminal_status r with
  | Some s => if lr_terminal_acknowledged r then [(lr_lease r, lr_attempt r, lr_fencing_token r, s)] else []
  | None => []
  end.

Definition learned (o : rop) : ranswer o -> list (N * N * Z * str) :=
  match o return ranswer o -> list (N * N * Z * str) with
  | RComplete o r => fun a => match a with Ok ack => acknowledged_as o r ack | Err _ => [] end
  | RReceipt _ => fun a => match a with Ok r => received r | Err _ => [] end
  | _ => fun _ => []
  end.

Definition offered (o : rop) : ranswer o -> option N :=
  match o return ranswer o -> option N with RPoll => fun a => match a with Ok (Some o) => Some (lo_lease o) | _ => None end | _ => fun _ => None end.

Definition after (o : rop) (a : ranswer o) (g : ghost) : ghost := {|
  gh_known := learned o a ++ gh_known g;
  gh_post := match offered o a with Some x => Some x | None => match o with RComplete _ _ => None | _ => gh_post g end end;
  gh_start := match offered o a with Some x => Some x | None => match o with RProcesses _ => None | _ => gh_start g end end |}.

(** What an answer says by itself. *)
Definition owned_by (attempt lease : N) (generation : Z) (ws : OwnedWorkspace) : Prop :=
  ow_attempt (ws_owner ws) = attempt /\ ow_lease (ws_owner ws) = lease /\ ow_generation (ws_owner ws) = generation.

Definition may_answer (o : rop) : ranswer o -> Prop :=
  match o return ranswer o -> Prop with
  | RCreate attempt lease generation => fun a => match a with Ok ws => owned_by attempt lease generation ws | Err _ => True end
  | RVerify ws attempt lease generation => fun a => match a with Ok _ => owned_by attempt lease generation ws | Err _ => True end
  | _ => fun _ => True
  end.

Abbreviation justified := (wp may_call may_answer after).

(** ** Every call is justified *)

Definition more (g g' : ghost) : Prop := gh_known g ⊆ gh_known g' /\ gh_post g' = gh_post g /\ gh_start g' = gh_start g.

Lemma more_refl g : more g g.
Proof. by split_and!. Qed.
Lemma more_trans g g' g'' : more g g' -> more g' g'' -> more g g''.
Proof. intros (K & P & S) (K' & P' & S'). split_and!; [by etrans|congruence|congruence]. Qed.
Lemma more_after o a g : match o with RPoll | RComplete _ _ | RProcesses _ => False | _ => True end -> more g (after o a g).
Proof. intros Ho. destruct o; try done; split_and!; try done; cbn; set_solver. Qed.
#[local] Hint Resolve more_refl more_trans more_after : core.

(** A call about which nothing is asked. *)
Definition plain (o : rop) : bool := match o with RPoll | RComplete _ _ | RProcesses _ | RAcknowledge _ _ => false | _ => true end.

Lemma wp_plain {A} o (k : ranswer o -> run A) (Q : A -> ghost -> Prop) g : plain o = true ->
  (forall a g', may_answer o a -> more g g' -> justified (k a) Q g') -> justified (io_bind (rcall o) k) Q g.
Proof.
  intros Ho Hk. cbn. split; [by destruct o|]. intros a Ha. apply Hk; [done|]. apply more_after. by destruct o.
Qed.

Ltac plain_call := unfold try_bind at 1; apply wp_plain; [reflexivity|].

Lemma wp_receipt lease attempt generation outcome g :
  justified (read_terminal_receipt lease attempt generation outcome)
    (fun r g' => more g g' /\ (is_Some (match r with Ok _ => Some tt | Err _ => None end) -> (lease, attempt, generation, outcome) ∈ gh_known g')) g.
Proof.
  unfold read_terminal_receipt. unfold try_bind. cbn. split; [done|]. intros a _. destruct a as [r|e]; [|split; [by apply (more_after (RReceipt lease) (Err e))|by intros []]].
  destruct (receipt_confirms _ _ _ _ _) eqn:Ec; cbn; (split; [by apply (more_after (RReceipt lease) (Ok r))|]); [|by intros []]. intros _.
  unfold receipt_confirms in Ec. rewrite !andb_true_iff in Ec.
  destruct Ec as (((((((_ & Hl%N.eqb_eq) & Hat%N.eqb_eq) & Hg%Z.eqb_eq) & Ha) & _) & Ht%bool_decide_eq_true_1) & _).
  unfold received. rewrite Ht, Ha, Hl, Hat, Hg. left.
Qed.

Lemma wp_complete_lease o r g : gh_post g = Some (lo_lease o) ->
  justified (complete_lease o r)
    (fun res g' => gh_known g ⊆ gh_known g' /\ (is_Some (match res with Ok _ => Some tt | Err _ => None end) ->
       (lo_lease o, as_id (lo_attempt o), lo_fencing o, xr_outcome r) ∈ gh_known g')) g.
Proof.
  intros Hp. unfold complete_lease, try_bind. cbn. split; [done|]. intros a _. destruct a as [ack|e]; [|split; [cbn; set_solver|by intros []]].
  destruct (_ || _) eqn:Ec; cbn; (split; [set_solver|]); [by intros []|]. intros _. rewrite !orb_false_iff, negb_false_iff in Ec.
  destruct Ec as (_ & Ht%negb_false_iff). unfold acknowledged_as. rewrite Ht. left.
Qed.

Lemma wp_complete_executed o r ws keep g : gh_post g = Some (lo_lease o) -> owned_by (as_id (lo_attempt o)) (lo_lease o) (lo_fencing o) ws ->
  justified (complete_executed_attempt o r ws keep) (fun _ _ => True) g.
Proof.
  intros Hp (Hat & Hl & Hg). unfold complete_executed_attempt. apply wp_plain; [done|]. intros a g1 _ (_ & Hp1 & _). destruct a as [[]|e]; [|done].
  apply wp_bind. eapply wp_mono; [|apply wp_complete_lease; congruence]. intros posted g2 [_ Hk].
  apply wp_bind. assert (Hc : justified (match posted with Ok _ => Done (Ok tt) | Err _ => read_terminal_receipt (lo_lease o) (as_id (lo_attempt o)) (lo_fencing o) (xr_outcome r) end)
    (fun res g' => is_Some (match res with Ok _ => Some tt | Err _ => None end) -> (lo_lease o, as_id (lo_attempt o), lo_fencing o, xr_outcome r) ∈ gh_known g') g2).
  { destruct posted as [[]|e]; [intros _; by apply Hk|]. eapply wp_mono; [|apply wp_receipt]. by intros res g' [_ H]. }
  eapply wp_mono; [|exact Hc]. intros [[]|e] g3 Hk3; [|done]. unfold try_bind. cbn. split.
  - unfold known_of. rewrite Hat, Hl, Hg. by apply Hk3.
  - intros a _. destruct a as [[]|e]; [|done]. destruct keep; [done|]. by cbn.
Qed.

Lemma wp_prepare cli o g : justified (prepare_workspace cli o)
  (fun res g' => more g g' /\ match res with Ok ws => owned_by (as_id (lo_attempt o)) (lo_lease o) (lo_fencing o) ws | Err _ => True end) g.
Proof.
  unfold prepare_workspace. plain_call. intros [ws|e] g1 Ha H1; [|by split]. cbn in Ha. destruct (is_some _ && _); [by split|].
  assert (Hco : forall src, justified (run? _ := rcall (RCheckout ws src) in Done (Ok ws))
    (fun res g' => more g g' /\ match res with Ok ws => owned_by (as_id (lo_attempt o)) (lo_lease o) (lo_fencing o) ws | Err _ => True end) g1).
  { intros src. plain_call. intros [[]|m] g2 _ H2; cbn; eauto. }
  destruct (sp_checkout _ && _); [|apply Hco]. 
  case_match; [|by split]. destruct (as_typed _ && _); [by split|]. apply Hco.
Qed.

Lemma wp_commands o ws environment commands last g : justified (run_commands o ws environment commands last) (fun _ g' => more g g') g.
Proof.
  revert last g. induction commands as [|command commands IH]; intros last g; cbn [run_commands]; [apply more_refl|].
  apply wp_plain; [done|]. intros a g1 _ H1. destruct a as [[[] code|]|[|m]]; try done.
  eapply wp_mono; [|apply IH]. intros res g2 H2. by eapply more_trans.
Qed.

Lemma wp_attempt cli o secret_env g : gh_start g = Some (lo_lease o) ->
  justified (execute_attempt cli o secret_env)
    (fun res g' => gh_post g' = gh_post g /\ match res with Ok (_, ws) => owned_by (as_id (lo_attempt o)) (lo_lease o) (lo_fencing o) ws | Err _ => True end) g.
Proof.
  intros Hs. unfold execute_attempt. apply wp_try. unfold from_result. destruct (Variables.validate _ _) as [[]|m]; [|by split]. cbn [wp].
  apply wp_try. eapply wp_mono; [|apply wp_prepare]. intros [ws|e] g1 [H1 Hw]; [|by split; [apply H1|]]. destruct (negb _); [by split; [apply H1|]|].
  unfold try_bind at 1. cbn [io_bind rcall call wp]. destruct H1 as (_ & Hp1 & Hs1). split; [exact (eq_trans Hs1 Hs)|].
  intros [[]|e] _; [|done]. apply wp_try. eapply wp_mono; [|apply wp_commands]. intros [[r last]|e] g2 (_ & Hp2 & _); [|by split; [rewrite Hp2|]].
  apply wp_plain; [done|]. intros finished g3 _ (_ & Hp3 & _). assert (Hp : gh_post g3 = gh_post g) by (rewrite Hp3, Hp2; exact Hp1).
  assert (Hfin : forall r, justified (conclude_attempt o ws last r)
     (fun res g' => gh_post g' = gh_post g /\ match res with Ok (_, ws) => owned_by (as_id (lo_attempt o)) (lo_lease o) (lo_fencing o) ws | Err _ => True end) g3).
  { intros r0. unfold conclude_attempt. destruct (str_eqb _ §"canceled"); [by cbn|]. apply wp_plain; [done|]. intros a g4 _ (_ & Hp4 & _). cbn. by rewrite Hp4. }
  destruct finished as [[]|[|m]]; [apply Hfin|by split|apply Hfin].
Qed.

Lemma wp_secrets o g : justified (resolve_lease_secrets o) (fun _ g' => more g g') g.
Proof.
  unfold resolve_lease_secrets. destruct (is_empty _); [apply more_refl|]. plain_call. intros [items|e] g1 _ H1; [|done].
  destruct (existsb _ _); [done|]. by destruct (negb _).
Qed.

Lemma wp_offer cli o g : gh_post g = Some (lo_lease o) -> gh_start g = Some (lo_lease o) -> justified (run_offer cli o) (fun _ _ => True) g.
Proof.
  intros Hp Hs. unfold run_offer. apply wp_plain; [done|]. intros entered g1 _ H1. destruct (negb entered); [done|].
  plain_call. intros [[]|e] g2 _ H2; [|done]. plain_call. intros [[]|e] g3 _ H3; [|done]. apply wp_bind. eapply wp_mono; [|apply wp_secrets].
  intros secrets g4 H4. assert (Hm : more g g4) by eauto. destruct Hm as (_ & Hp4 & Hs4). destruct secrets as [secret_env|e].
  - apply wp_bind. eapply wp_mono; [|apply wp_attempt; congruence]. intros executed g5 [Hp5 Hw]. apply wp_try. unfold complete_attempt_result.
    assert (Hpost : gh_post g5 = Some (lo_lease o)) by congruence. destruct executed as [[r ws]|[|m]]; [| done|].
    + eapply wp_mono; [|by apply wp_complete_executed]. intros [[]|e] g6 _; [|done]. by cbn.
    + eapply wp_mono; [|by apply wp_complete_lease]. intros [[]|e] g6 _; [|done]. by cbn.
  - apply wp_bind. eapply wp_mono; [|apply wp_complete_lease; congruence]. intros completion g5 _. plain_call. by intros [[]|e'] g6 _ _.
Qed.

Lemma wp_reconcile_one keep w g : justified (reconcile_one keep w) (fun _ _ => True) g.
Proof.
  unfold reconcile_one. destruct (rw_terminal_status w) as [outcome|]; [|done]. apply wp_bind. eapply wp_mono; [|apply wp_receipt].
  intros [[]|e] g1 [_ Hk]; [|done]. plain_call. intros [ws|e] g2 _ (K2 & _); [|done]. plain_call. intros [[]|e] g3 Ho (K3 & _); [|done]. cbn in Ho.
  destruct Ho as (Ha & Hl & Hg). unfold try_bind at 1. cbn [io_bind rcall call wp]. split.
  - cbn [may_call]. unfold known_of. rewrite Ha, Hl, Hg. apply K3, K2, Hk. by eexists.
  - intros [[]|e] _; [|done]. by destruct keep; cbn; [|split; [|intros [[]|e]]].
Qed.

Lemma wp_reconcile_all keep ws unresolved g : justified (reconcile_all keep ws unresolved) (fun _ _ => True) g.
Proof.
  revert unresolved g. induction ws as [|w ws IH]; intros unresolved g; cbn [reconcile_all]; [by destruct (_ <? _)|].
  apply wp_try. eapply wp_mono; [|apply wp_reconcile_one]. by intros [settled|e] g1 _.
Qed.

Lemma wp_reconcile keep g : justified (reconcile_workspaces keep) (fun _ _ => True) g.
Proof.
  unfold reconcile_workspaces. apply wp_plain; [done|]. intros entered g1 _ _. destruct (negb entered); [done|].
  plain_call. intros [records|e] g2 _ _; [|done]. apply wp_reconcile_all.
Qed.

Lemma wp_ensure g : justified ensure_no_unresolved_workspaces (fun _ _ => True) g.
Proof. unfold ensure_no_unresolved_workspaces. plain_call. intros [records|e] g1 _ _; [|done]. by destruct (existsb _ _). Qed.

Lemma wp_start cli g : justified (run_start cli) (fun _ _ => True) g.
Proof.
  unfold run_start. apply wp_try. assert (Hrest : forall g, justified (run? _ := rcall RCredential in
    if cli_reconcile_workspaces cli then run? _ := reconcile_workspaces (cli_keep_workspace cli) in Done (Ok Stop)
    else run? _ := reconcile_workspaces true in Done (Ok Again)) (fun _ _ => True) g).
  { intros g0. plain_call. intros [[]|e] g1 _ _; [|done]. destruct (cli_reconcile_workspaces cli); apply wp_try; (eapply wp_mono; [|apply wp_reconcile]);
      by intros [[]|e] g2 ?. }
  destruct (cli_reconcile_workspaces cli) eqn:E; [apply Hrest|]. eapply wp_mono; [|apply wp_ensure]. intros [[]|e] g1 _; [|done]. apply Hrest.
Qed.

Lemma wp_turn cli g : justified (run_turn cli) (fun _ _ => True) g.
Proof.
  unfold run_turn. apply wp_plain; [done|]. intros entered g1 _ _. destruct (negb entered); [done|]. plain_call. intros [[]|e] g2 _ _; [|done].
  cbn [io_bind rcall call wp]. split; [done|]. intros [[o|]|e] _; [|done|].
  - apply wp_try. eapply wp_mono; [|by apply wp_offer]. by intros [[]|e] g3 _.
  - apply wp_plain; [done|]. intros accepting g3 _ _. by destruct accepting.
Qed.

(** ** The invariant *)

(** The server keeps the result of an attempt. *)
Definition recorded (l : ledger) (lease attempt : N) (generation : Z) (status : str) : Prop :=
  exists x t, leases l !! lease = Some x /\ le_attempt x = attempt /\ le_generation x = generation /\ lease_active x = false /\
    is_Some (le_runner x) /\ is_Some (le_completed_at x) /\ le_terminal_status x = Some t /\ status = as_str t.

Definition owner_recorded (l : ledger) (owner : Owner) (status : str) : Prop :=
  recorded l (ow_lease owner) (ow_attempt owner) (ow_generation owner) status.

Lemma recorded_good l l' lease attempt generation status : good l l' -> recorded l lease attempt generation status -> recorded l' lease attempt generation status.
Proof.
  intros [He _] (x & t & Hx & Ha & Hg & Hi & Hr & Hc & Ht & Hs). destruct (ev_leases _ _ He _ x Hx) as (x' & Hx' & S).
  destruct (ls_closed _ _ S Hi) as (Hi' & Hc' & Ht'). exists x', t.
  rewrite (ls_attempt _ _ S), (ls_generation _ _ S), (ls_runner _ _ S), Hc', Ht' by done. by split_and!.
Qed.

Lemma lease_kept l l' lease : good l l' -> is_Some (leases l !! lease) -> is_Some (leases l' !! lease).
Proof. intros [He _] [x Hx]. destruct (ev_leases _ _ He _ x Hx) as (x' & Hx' & _). by eexists. Qed.

(** Every acknowledgement on the disk is one of the server. *)
Definition accounted (l : ledger) (root : disk_root) : Prop :=
  forall name d f c, root !! name = Some d -> f = ACK \/ f = RECOVERY_ACK -> get_record f d = Some (Whole c) -> owner_recorded l (cm_owner c) (cm_status c).

Record world_ok (w : world) : Prop := {
  wk_accounted : accounted (wl_ledger w) (wl_root w);
  wk_removed : forall owner status, (owner, status) ∈ wl_removed w -> owner_recorded (wl_ledger w) owner status;
  wk_posted : NoDup (wl_posted w) /\ forall x, x ∈ wl_posted w -> is_Some (leases (wl_ledger w) !! x);
  wk_started : NoDup (wl_started w) /\ forall x, x ∈ wl_started w -> is_Some (leases (wl_ledger w) !! x) }.

(** What a ghost claims about the world. *)
Record ghost_ok (w : world) (g : ghost) : Prop := {
  go_known : forall lease attempt generation status, (lease, attempt, generation, status) ∈ gh_known g -> recorded (wl_ledger w) lease attempt generation status;
  go_post : forall x, gh_post g = Some x -> x ∉ wl_posted w /\ is_Some (leases (wl_ledger w) !! x);
  go_start : forall x, gh_start g = Some x -> x ∉ wl_started w /\ is_Some (leases (wl_ledger w) !! x) }.

(** No two processes have the same lease before them. *)
Definition apart (g g' : ghost) : Prop :=
  (forall x, gh_post g = Some x -> gh_post g' <> Some x) /\ (forall x, gh_start g = Some x -> gh_start g' <> Some x).

Lemma world_ok_ledger l' w : good (wl_ledger w) l' -> world_ok w -> world_ok (with_ledger l' w).
Proof.
  intros Hg [Ha Hr [Hp1 Hp2] [Hs1 Hs2]]. split; cbn.
  - intros name d f c Hd Hf Hc. eapply recorded_good; [exact Hg|]. by eapply Ha.
  - intros owner status Hin. eapply recorded_good; [exact Hg|]. by apply Hr.
  - split; [done|]. intros x Hx. by eapply lease_kept; [|apply Hp2].
  - split; [done|]. intros x Hx. by eapply lease_kept; [|apply Hs2].
Qed.

Lemma ghost_ok_frame w w' g : good (wl_ledger w) (wl_ledger w') ->
  (forall x, gh_post g = Some x -> x ∈ wl_posted w' -> x ∈ wl_posted w) -> (forall x, gh_start g = Some x -> x ∈ wl_started w' -> x ∈ wl_started w) ->
  ghost_ok w g -> ghost_ok w' g.
Proof.
  intros Hg Hp Hs [Hk Hp0 Hs0]. split.
  - intros lease attempt generation status Hin. eapply recorded_good; [exact Hg|]. by apply Hk.
  - intros x Hx. destruct (Hp0 x Hx) as [Hn Hl]. split; [by intros Hin; apply Hn, Hp|]. by eapply lease_kept.
  - intros x Hx. destruct (Hs0 x Hx) as [Hn Hl]. split; [by intros Hin; apply Hn, Hs|]. by eapply lease_kept.
Qed.

(** ** What the disk keeps *)

Lemma get_set_record f f' c d : get_record f (set_record f' c d) = if bool_decide (f = f') then Some c else get_record f d.
Proof. by destruct f, f'. Qed.

Lemma verify_owner_Ok ws root d : verify_owner ws root = Ok d -> root !! ws_directory ws = Some d.
Proof.
  unfold verify_owner. intros (d0 & Hd%ok_or_Ok & E)%rbind_Ok_inv. destruct (di_marker d0) as [[owner|]|]; [|done|done].
  destruct (bool_decide _); [|done]. by injection E as <-.
Qed.

Lemma read_record_Ok ws f d c : read_record ws f d = Ok c -> get_record f d = Some (Whole c) /\ cm_schema c = COMPLETION_SCHEMA /\ cm_owner c = ws_owner ws.
Proof.
  unfold read_record. destruct (get_record f d) as [[c0|]|]; [|done|done]. destruct (_ && _) eqn:E; [|done]. intros [= ->].
  rewrite !andb_true_iff in E. destruct E as [[E%str_eqb_true Ho%bool_decide_eq_true_1] _]. done.
Qed.

Section disk.
Context `{UuidText}.

Lemma accounted_insert l root name d : accounted l root ->
  (forall f c, f = ACK \/ f = RECOVERY_ACK -> get_record f d = Some (Whole c) -> owner_recorded l (cm_owner c) (cm_status c)) -> accounted l (<[name := d]> root).
Proof.
  intros Ha Hd n d' f c Hn Hf Hc. apply lookup_insert_Some in Hn as [[_ <-]|[_ Hn]]; [by eapply Hd|by eapply Ha].
Qed.

(** A directory that was there gets a record that says nothing new. *)
Lemma accounted_record l root name d f r : accounted l root -> root !! name = Some d ->
  match r with Whole c => f = ACK \/ f = RECOVERY_ACK -> owner_recorded l (cm_owner c) (cm_status c) | Torn => True end ->
  accounted l (<[name := set_record f r d]> root).
Proof.
  intros Ha Hd Hr. apply accounted_insert; [done|]. intros f' c Hf. rewrite get_set_record. case_bool_decide as E; [|by eapply Ha].
  intros [= ->]. subst f'. by apply Hr.
Qed.

Definition told (l : ledger) (o : rop) : Prop :=
  match o with RAcknowledge ws status => owner_recorded l (ws_owner ws) status | _ => True end.

Lemma write_record_accounted l ws f c d root : accounted l root -> root !! ws_directory ws = Some d ->
  (f = ACK \/ f = RECOVERY_ACK -> owner_recorded l (cm_owner c) (cm_status c)) -> accounted l (write_record ws f c d root).2.
Proof. intros Ha Hd Hc. unfold write_record. destruct (get_record f d); [done|]. by apply accounted_record. Qed.

Lemma disk_accounted nonce l root o a root' : accounted l root -> told l o -> on_disk nonce root o = Some (a, root') -> accounted l root'.
Proof.
  intros Ha Ht. destruct o; cbn [on_disk]; try done; try (by intros [= _ <-]).
  - intros [= _ <-]. unfold create. destruct (_ <=? _); [done|]. destruct (_ || _); [done|]. destruct (root !! _); [done|]. apply accounted_insert; [done|].
    by intros [] c _.
  - destruct (verify_owner ws root) as [d|m] eqn:Ev; [|by intros [= _ <-]]. intros [= _ <-]. apply accounted_insert; [done|].
    intros f c Hf Hc. eapply (Ha _ d f); [by apply verify_owner_Ok|done|]. by destruct f.
  - intros [= _ <-]. unfold record_completion. destruct (negb _); [done|]. destruct (verify_owner ws root) as [d|m] eqn:Ev; [|done].
    apply write_record_accounted; [done|by apply verify_owner_Ok|]. by intros [?|?].
  - intros [= _ <-]. unfold acknowledge_completion. destruct (rbind _ _) as [[d c]|m] eqn:E; [|done]. apply rbind_Ok_inv in E as (d0 & Ev & E).
    apply rbind_Ok_inv in E as (c0 & Er & E). destruct (str_eqb _ _) eqn:Es; [|done]. injection E as <- <-. apply read_record_Ok in Er as (_ & _ & Ho).
    apply str_eqb_true in Es. apply write_record_accounted; [done|by apply verify_owner_Ok|]. intros _. rewrite Ho, Es. exact Ht.
  - intros [= _ <-]. unfold cleanup_after_ack. destruct (cleanup_admitted ws root); [|done]. intros n d' f c. cbn [snd]. intros [_ Hn]%lookup_delete_Some. by eapply Ha.
Qed.

Lemma half_accounted l root o root' : accounted l root -> half_done root o root' -> accounted l root'.
Proof.
  intros Ha. destruct 1 as [ws status d Hv|ws status d c Hv|attempt lease generation nonce marker|ws c d d' _ Hd [_ Hl]].
  - apply accounted_record; [done|by apply verify_owner_Ok|done].
  - apply accounted_record; [done|by apply verify_owner_Ok|done].
  - apply accounted_insert; [done|]. by intros [] c _.
  - apply accounted_insert; [done|]. intros f c0 Hf Hc. destruct (Hl f) as [E|E]; rewrite E in Hc; [|done]. by eapply Ha.
Qed.

(** What is removed was acknowledged. *)
Lemma removes_recorded l root o owner status : accounted l root -> (owner, status) ∈ removes root o -> owner_recorded l owner status.
Proof.
  intros Ha. destruct o; cbn [removes]; try (by intros ?%not_elem_of_nil). destruct (cleanup_admitted ws root) as [c|] eqn:E; [|by intros ?%not_elem_of_nil].
  intros [= -> ->]%list_elem_of_singleton. unfold cleanup_admitted in E. apply rbind_Ok_inv in E as (d & Hd%verify_owner_Ok & E).
  apply rbind_Ok_inv in E as (c0 & _ & E). apply rbind_Ok_inv in E as (a & (Hr & _ & Ho)%read_record_Ok & E). case_bool_decide as Ec; [|done].
  injection E as <-. subst a. rewrite <- Ho. eapply (Ha _ d); [exact Hd| |exact Hr]. unfold completion_paths. destruct (is_some _); cbn; auto.
Qed.
End disk.

(** ** What the server keeps *)

Lemma claim_fresh now lease runner token tags others qid checks l x attempt generation stage l' :
  claim_next_work_tx now lease runner token tags others qid checks l = Ok (Offered x attempt generation stage, l') ->
  x = lease /\ leases l !! x = None /\ is_Some (leases l' !! x).
Proof.
  unfold claim_next_work_tx. intros ([c l1] & Hc & E)%rbind_Ok_inv. cbn [fst snd] in E. destruct c as [[[lease0 attempt0] generation0]|]; [|done].
  destruct (_ ≫= _) as [[job stage0]|]; [|done]. destruct (checks job attempt0); [|by apply rbind_Ok_inv in E as (? & _ & ?)|done|done].
  injection E as -> _ _ _ <-. apply external_claimed in Hc as (q & _ & _ & Hg & Hl). injection Hg as -> _ _. split; [done|]. unfold grant in Hl.
  apply rbind_Ok_inv in Hl as (t & (Hn & -> & _)%insert_row_Ok & Hl). apply rbind_Ok_inv in Hl as (t' & _ & [= <-]). split; [done|]. cbn. rewrite lookup_insert_eq. by eexists.
Qed.

Section server.
Context `{UuidText} (hash_token : str -> str).

Lemma hbind_Ok {A B} (m : handler A) (k : A -> handler B) l b l' : hbind m k l = (Ok b, l') -> exists a l1, m l = (Ok a, l1) /\ k a l1 = (Ok b, l').
Proof. unfold hbind. destruct (m l) as [[a|e] l1]; [|done]. intros E. by exists a, l1. Qed.

Lemma refresh_leases now stage l u l' : refresh now stage l = (Ok u, l') -> leases l' = leases l.
Proof. unfold refresh, statement. destruct (refresh_statuses now (core l) stage); [|done]. by intros [= _ <-]. Qed.

(** A report that is accepted is kept with exactly its identity. *)
Lemma completion_recorded authenticated now deployment finished_at o r t l l' :
  complete_runner_lease hash_token authenticated now (lo_lease o) deployment None (report_of finished_at o r) l = (Ok t, l') ->
  good l l' /\ recorded l' (lo_lease o) (as_id (lo_attempt o)) (lo_fencing o) (as_str t).
Proof.
  intros E. split.
  { pose proof (run_complete l hash_token authenticated now (lo_lease o) deployment None (report_of finished_at o r)) as Hh. rewrite E in Hh.
    by apply steps_good, handled_steps. }
  unfold complete_runner_lease in E. apply hbind_Ok in E as (parsed & l1 & Hp & E). apply hbind_Ok in E as (runner & l2 & Ha & E).
  assert (l1 = l /\ forall rn, cp_attempt (parsed rn) = as_id (lo_attempt o) /\ cp_generation (parsed rn) = lo_fencing o /\ cp_runner (parsed rn) = rn) as [-> Hparsed].
  { unfold lift in Hp. destruct (parse_completion _ _) as [f|e] eqn:Ep; [|done]. injection Hp as <- <-. split; [done|]. intros rn. unfold parse_completion in Ep.
    apply rbind_Ok_inv in Ep as ([] & _ & Ep). destruct (match rq_exit_code _ with Some _ => _ | None => _ end); [done|].
    apply rbind_Ok_inv in Ep as (terminal & _ & [= <-]). done. }
  assert (l2 = l) as -> by (unfold lift in Ha; destruct authenticated; [by injection Ha as _ <-|done]).
  apply hbind_Ok in E as (command & l3 & [= _ <-] & E). apply hbind_Ok in E as (stage & l4 & Ht & E).
  destruct (Hparsed runner) as (Hat & Hg & Hr). destruct stage as [stage|]; [|].
  - apply hbind_Ok in E as ([] & l5 & Hf%refresh_leases & [= <- <-]). unfold transaction in Ht. destruct (hbind _ _ _) as [[s|e] l6] eqn:Eh; [|done].
    injection Ht as -> ->. apply hbind_Ok in Eh as (s & l7 & Hc & Eh). apply hbind_Ok in Eh as ([] & l8 & Hv & [= -> ->]).
    unfold returning in Hc. injection Hc as Hc <-. assert (l4 = (complete_runner_lease_tx now (lo_lease o) (parsed runner) l).2) as ->.
    { unfold deployment_verdict, lift, guard in Hv. destruct (bool_decide _); [destruct (deployment _); [by injection Hv|done]|]. by injection Hv. }
    destruct (complete_runner_lease_tx now (lo_lease o) (parsed runner) l) as [s' l6] eqn:Et. cbn in Hc, Hf. subst s'.
    apply complete_row in Et as (x & x' & _ & _ & Hrun & Hax & Hgx & Hx' & Hi & Hr' & Ha' & Hg' & Ht' & Hc').
    exists x', (cp_terminal (parsed runner)). rewrite Hf, Ha', Hg', Hax, Hgx, Hr', Hrun. by split_and!.
  - unfold refused_lease in E. apply hbind_Ok in E as (e & l5 & _ & E). done.
Qed.

Lemma receipt_recorded now h lease t l re k : read_runner_lease_receipt hash_token now h lease t l = Ok re -> k ∈ received (receipt_of re) ->
  let '(lease, attempt, generation, status) := k in recorded l lease attempt generation status.
Proof.
  unfold read_runner_lease_receipt. intros (runner & _ & E%ok_or_Ok)%rbind_Ok_inv. destruct (leases l !! lease) as [x|] eqn:Ex; [cbn [mbind option_bind] in E|done].
  destruct (attempts l !! le_attempt x) as [a|]; [cbn [mbind option_bind] in E|done]. case_bool_decide as Hr; [|done]. injection E as <-. unfold received, receipt_of.
  cbn. destruct (le_terminal_status x) as [status|] eqn:Es; [|by intros ?%not_elem_of_nil]. cbn. destruct (receipt_acknowledged x a) eqn:Ea; [|by intros ?%not_elem_of_nil].
  intros ->%list_elem_of_singleton. unfold receipt_acknowledged in Ea. rewrite !andb_true_iff, orb_true_iff in Ea. destruct Ea as ((((Hst & Hc) & _) & _) & _).
  exists x, status. split_and!; try done; [|by destruct (le_completed_at x)].
  unfold lease_active. by destruct Hst as [->%bool_decide_eq_true_1| ->%bool_decide_eq_true_1].
Qed.

(** ** Every step keeps it *)

(** What a call does for the process that makes it, and for the others. *)
Record served_ok (w : world) (g : ghost) (o : rop) (a : ranswer o) (w' : world) : Prop := {
  sd_good : good (wl_ledger w) (wl_ledger w');
  sd_world : world_ok w';
  sd_answer : may_answer o a;
  sd_ghost : ghost_ok w' (after o a g);
  sd_posted : forall x, x ∈ wl_posted w' -> x ∈ wl_posted w \/ gh_post g = Some x;
  sd_started : forall x, x ∈ wl_started w' -> x ∈ wl_started w \/ gh_start g = Some x;
  sd_offered : forall x, offered o a = Some x -> leases (wl_ledger w) !! x = None }.

Lemma told_known w g o : ghost_ok w g -> may_call o g -> told (wl_ledger w) o.
Proof. intros Hg Hc. destruct o; cbn in *; try done. unfold known_of in Hc. by apply (go_known _ _ Hg) in Hc. Qed.

Lemma ghost_after w g o a : ghost_ok w g -> plain o = true -> match o with RReceipt _ => False | _ => True end -> ghost_ok w (after o a g).
Proof. intros [Hk Hp Hs] Ho Hr. destruct o; try done; by split. Qed.

(** A call to the disk leaves the ledger, and may have removed something. *)
Lemma disk_ok w g o a root' : world_ok w -> ghost_ok w g -> may_answer o a -> accounted (wl_ledger w) root' ->
  match o with RReceipt _ | RPoll | RComplete _ _ | RProcesses _ => False | _ => True end ->
  served_ok w g o a (with_disk root' (removes (wl_root w) o) w).
Proof.
  intros Hw Hg Ha Hr Ho. split; cbn; try done; [apply good_refl| | | | | ]; auto.
  - destruct Hw as [H1 H2 H3 H4]. split; cbn; try done. intros owner status [Hin|Hin]%elem_of_app; [exact (removes_recorded _ _ _ _ _ H1 Hin)|by apply H2].
  - destruct Hg as [Hk Hp Hs]. destruct o; try done; by split.
  - intros x. by destruct o.
Qed.

Lemma create_owned nonce attempt lease generation root ws root' : create nonce attempt lease generation root = (Ok ws, root') -> owned_by attempt lease generation ws.
Proof. unfold create. destruct (_ <=? _); [done|]. destruct (_ || _); [done|]. destruct (root !! _); [done|]. by intros [= <- _]. Qed.

Lemma verify_identity_owned ws attempt lease generation root : verify_identity ws attempt lease generation root = Ok tt -> owned_by attempt lease generation ws.
Proof.
  unfold verify_identity. destruct (negb _) eqn:E; [done|]. intros _. rewrite negb_false_iff, !andb_true_iff in E.
  destruct E as ((?%N.eqb_eq & ?%N.eqb_eq) & ?%Z.eqb_eq). done.
Qed.

Lemma disk_answer nonce root o a root' : on_disk nonce root o = Some (a, root') -> may_answer o a.
Proof.
  destruct o; cbn [on_disk]; try done.
  - intros E. injection E as E _. subst a. cbn. destruct (verify_identity _ _ _ _ _) as [[]|m] eqn:E; cbn; [|done]. by eapply verify_identity_owned.
  - intros E. injection E as E _. subst a. cbn. destruct (create _ _ _ _ _) as [[ws|m] root0] eqn:E; cbn; [|done]. by eapply create_owned.
Qed.

Lemma failed_may_answer e o a : failed_answer e o = Some a -> may_answer o a.
Proof. destruct o; cbn; try done; by intros [= <-]. Qed.

Lemma failed_ghost w g e o a : ghost_ok w g -> failed_answer e o = Some a -> match o with RComplete _ _ | RProcesses _ => False | _ => True end -> ghost_ok w (after o a g).
Proof. intros [Hk Hp Hs] Ha Ho. destruct o; cbn in Ha; try done; injection Ha as <-; by split. Qed.

Lemma completed_ok w g o r a l' : world_ok w -> ghost_ok w g -> gh_post g = Some (lo_lease o) -> good (wl_ledger w) l' ->
  (forall lease attempt generation status, (lease, attempt, generation, status) ∈ learned (RComplete o r) a -> recorded l' lease attempt generation status) ->
  served_ok w g (RComplete o r) a (with_posted (lo_lease o) (with_ledger l' w)).
Proof.
  intros Hw Hg Hp Hgood Hl. pose proof (world_ok_ledger _ _ Hgood Hw) as [A1 A2 [A3 A3'] A4]. destruct (go_post _ _ Hg _ Hp) as [Hn Hx]. split; cbn; try done.
  - split; cbn; try done. split; [by constructor|]. intros x [->|Hin]%elem_of_cons; [by eapply lease_kept|by apply A3'].
  - split; cbn; [|done|].
    + intros lease attempt generation status [Hin|Hin]%elem_of_app; [by apply Hl|]. eapply recorded_good; [exact Hgood|]. by apply (go_known _ _ Hg).
    + intros x Hs. destruct (go_start _ _ Hg x Hs) as [Hs1 Hs2]. split; [done|]. by eapply lease_kept.
  - intros x [->|Hin]%elem_of_cons; auto.
  - auto.
Qed.

Lemma serves_ok w g o a w' : world_ok w -> ghost_ok w g -> may_call o g -> serves hash_token w o a w' -> served_ok w g o a w'.
Proof.
  intros Hw Hg Hc Hs. pose proof (told_known _ _ _ Hg Hc) as Ht.
  destruct Hs as [o a l' He Hl|now lease runner th tags others qid checks attempt generation stage l' o Hl Ho _ _ _| |authenticated now deployment f o r t l' Hl|o r e
    |now h lease t re Hr|o a|nonce o a root' Hd|o e a He Ho Hf|o e a root' Hd Hf|o e a nonce a' root' Hd Hf].
  - apply events_good in Hl. split; cbn; try done; auto.
    + by apply world_ok_ledger.
    + by destruct o.
    + apply ghost_after; [|by destruct o|by destruct o]. by apply (ghost_ok_frame w).
    + intros x. by destruct o.
  - pose proof (good_claim_next _ _ _ _ _ _ _ _ _ _ _ Hl) as Hgood. apply claim_fresh in Hl as (_ & Hn & Hx). subst lease.
    assert (Hnew : forall x, is_Some (leases (wl_ledger w) !! x) -> x <> lo_lease o) by (intros x [y Hy] ->; congruence).
    split; cbn; try done; auto; [by apply world_ok_ledger| |by intros x [= <-]]. destruct Hw as [_ _ [_ Hp] [_ Hs]]. split; cbn.
    + intros. eapply recorded_good; [exact Hgood|]. by apply (go_known _ _ Hg).
    + intros x [= <-]. split; [|done]. intros Hin. by apply (Hnew (lo_lease o)); [apply Hp|].
    + intros x [= <-]. split; [|done]. intros Hin. by apply (Hnew (lo_lease o)); [apply Hs|].
  - split; cbn; try done; auto; [apply good_refl|]. destruct Hg. by split.
  - apply completion_recorded in Hl as [Hgood Hrec]. apply completed_ok; try done. intros lease attempt generation status. cbn. unfold acknowledged_as. cbn.
    destruct (str_eqb _ _) eqn:E; [|by intros ?%not_elem_of_nil]. apply str_eqb_true in E. intros [= -> -> -> ->]%list_elem_of_singleton. by rewrite <- E.
  - change (with_posted (lo_lease o) w) with (with_posted (lo_lease o) (with_ledger (wl_ledger w) w)). apply completed_ok; try done; [apply good_refl|].
    by intros ? ? ? ? ?%not_elem_of_nil.
  - split; cbn; try done; auto; [apply good_refl|]. destruct Hg as [Hk Hp Hs]. split; try done. cbn. intros l0 a0 g0 s0 [Hin|Hin]%elem_of_app; [|by apply Hk].
    exact (receipt_recorded _ _ _ _ _ _ _ Hr Hin).
  - cbn in Hc. destruct (go_start _ _ Hg _ Hc) as [Hn Hx]. destruct Hw as [H1 H2 H3 [H4 H4']]. split; cbn; try done; auto; [apply good_refl| | |].
    + split; cbn; try done. split; [by constructor|]. intros x [->|Hin]%elem_of_cons; [done|by apply H4'].
    + destruct Hg as [Hk Hp Hs]. by split.
    + intros x [->|Hin]%elem_of_cons; auto.
  - apply disk_ok; [done|done|by eapply disk_answer|exact (disk_accounted _ _ _ _ _ _ (wk_accounted _ Hw) Ht Hd)|by destruct o].
  - split; cbn; try done; auto; [apply good_refl|by eapply failed_may_answer|by eapply failed_ghost|]. intros x Hx. destruct o; cbn in Hf; try done. by injection Hf as <-.
  - apply disk_ok; [done|done|by eapply failed_may_answer|exact (half_accounted _ _ _ _ (wk_accounted _ Hw) Hd)|by destruct Hd].
  - apply disk_ok; [done|done|by eapply failed_may_answer|exact (disk_accounted _ _ _ _ _ _ (wk_accounted _ Hw) Ht Hd)|by destruct o].
Qed.

Record host_ok (h : host) : Prop := {
  hk_world : world_ok (h_world h);
  hk_ghosts : exists G : N -> ghost,
    (forall i p, h_runs h !! i = Some p -> justified p (fun _ _ => True) (G i) /\ ghost_ok (h_world h) (G i)) /\
    forall i j, i <> j -> is_Some (h_runs h !! i) -> is_Some (h_runs h !! j) -> apart (G i) (G j) }.

Lemma apart_none g : apart no_ghost g /\ apart g no_ghost.
Proof. split; split; by intros. Qed.

(** A process that has called nothing yet. *)
Lemma host_begin h i p : host_ok h -> justified p (fun _ _ => True) no_ghost -> host_ok {| h_world := h_world h; h_runs := <[i := p]> (h_runs h) |}.
Proof.
  intros [Hw (G & HG & Ha)] Hp. split; [done|]. exists (fun j => if decide (j = i) then no_ghost else G j). cbn. split.
  - intros j q. destruct (decide (j = i)) as [->|Hj]; [|rewrite lookup_insert_ne by done; apply HG]. rewrite lookup_insert_eq. intros [= <-]. split; [done|].
    split; cbn; try done. by intros ? ? ? ? ?%not_elem_of_nil.
  - intros j j' Hne. destruct (decide (j = i)) as [->|Hj]; [intros; apply apart_none|]. destruct (decide (j' = i)) as [->|Hj']; [intros; apply apart_none|].
    rewrite !lookup_insert_ne by done. by apply Ha.
Qed.

Lemma host_end h i : host_ok h -> host_ok {| h_world := h_world h; h_runs := delete i (h_runs h) |}.
Proof.
  intros [Hw (G & HG & Ha)]. split; [done|]. exists G. cbn. split.
  - intros j q [_ Hq]%lookup_delete_Some. by apply HG.
  - intros j j' Hne [q [_ Hq]%lookup_delete_Some] [q' [_ Hq']%lookup_delete_Some]. apply Ha; [done| |]; by eexists.
Qed.

Lemma host_call h i o k a w' : host_ok h -> h_runs h !! i = Some (Call o k) -> serves hash_token (h_world h) o a w' ->
  host_ok {| h_world := w'; h_runs := <[i := k a]> (h_runs h) |}.
Proof.
  intros [Hw (G & HG & Ha)] Hi Hs. destruct (HG i _ Hi) as [[Hc Hk] Hg]. destruct (serves_ok _ _ _ _ _ Hw Hg Hc Hs) as [Hgood Hw' Hans Hg' Hp Hst Hof].
  assert (Hin : is_Some (h_runs h !! i)) by by eexists. split; [done|]. exists (fun j => if decide (j = i) then after o a (G i) else G j). cbn. split.
  - intros j q. destruct (decide (j = i)) as [->|Hj]; [rewrite lookup_insert_eq; intros [= <-]; split; [by apply Hk|done]|].
    rewrite lookup_insert_ne by done. intros Hq. destruct (HG j q Hq) as [Hj1 Hj2]. split; [done|]. assert (Hij : apart (G j) (G i)) by (apply Ha; [done|by eexists|done]).
    apply (ghost_ok_frame (h_world h)); [done| | |done].
    + intros x Hx [?|Hx']%Hp; [done|]. by destruct (proj1 Hij x Hx).
    + intros x Hx [?|Hx']%Hst; [done|]. by destruct (proj2 Hij x Hx).
  - assert (Hfresh : forall j x, j <> i -> is_Some (h_runs h !! j) -> offered o a = Some x -> gh_post (G j) <> Some x /\ gh_start (G j) <> Some x).
    { intros j x Hj [q Hq] Hx. destruct (HG j q Hq) as [_ [_ H1 H2]]. apply Hof in Hx.
      split; intros Hx'; [destruct (H1 x Hx') as [_ [y Hy]]|destruct (H2 x Hx') as [_ [y Hy]]]; congruence. }
    assert (Hafter : forall x, (gh_post (after o a (G i)) = Some x -> offered o a = Some x \/ gh_post (G i) = Some x) /\
                          (gh_start (after o a (G i)) = Some x -> offered o a = Some x \/ gh_start (G i) = Some x)).
    { intros x. unfold after. cbn. split; (destruct (offered o a); [by left|]); destruct o; cbn; auto; done. }
    assert (Hsym : forall j, j <> i -> is_Some (h_runs h !! j) -> apart (after o a (G i)) (G j)).
    { intros j Hj Hq. destruct (Ha i j ltac:(done) Hin Hq) as [A1 A2]. split; intros x.
      - intros [Hx|Hx]%Hafter; [by apply (Hfresh j)|by apply A1].
      - intros [Hx|Hx]%Hafter; [by apply (Hfresh j)|by apply A2]. }
    intros j j' Hne. destruct (decide (j = i)) as [->|Hj].
    + rewrite decide_False by done. rewrite (lookup_insert_ne _ _ j') by done. intros _. by apply Hsym.
    + rewrite (lookup_insert_ne _ _ j) by done. destruct (decide (j' = i)) as [->|Hj'].
      * intros Hq _. destruct (Hsym j Hj Hq) as [A1 A2]. split; intros x Hx Hx'; [by apply (A1 x)|by apply (A2 x)].
      * rewrite lookup_insert_ne by done. by apply Ha.
Qed.

Lemma host_ok_step h h' : host_ok h -> host_step hash_token h h' -> host_ok h'.
Proof.
  intros Hh Hs. destruct Hs as [l' He|i o k a w' Hi Hs|i|i o k a w' Hi Hs|i cli Hi|i cli Hi].
  - assert (Hg : good (wl_ledger (h_world h)) l') by (apply events_good; by apply rtc_once). destruct Hh as [Hw (G & HG & Ha)]. split; [by apply world_ok_ledger|].
    exists G. split; [|done]. intros i p Hp. destruct (HG i p Hp) as [H1 H2]. split; [done|]. by apply (ghost_ok_frame (h_world h)).
  - by eapply host_call.
  - by apply host_end.
  - pose proof (host_end _ i (host_call _ _ _ _ _ _ Hh Hi Hs)) as He. cbn in He. by rewrite delete_insert_eq in He.
  - apply host_begin; [done|apply wp_start].
  - apply host_begin; [done|apply wp_turn].
Qed.

Lemma host_ok_steps h h' : host_ok h -> rtc (host_step hash_token) h h' -> host_ok h'.
Proof. intros Hh Hs. induction Hs as [h|h h1 h2 Hs _ IH]; [done|]. by apply IH, (host_ok_step h). Qed.

(** A host before its first process. *)
Definition at_rest (l : ledger) (root : disk_root) : host :=
  {| h_world := {| wl_ledger := l; wl_root := root; wl_removed := []; wl_posted := []; wl_started := [] |}; h_runs := ∅ |}.

Lemma rest_ok l root : accounted l root -> host_ok (at_rest l root).
Proof.
  intros Ha. split.
  - split; cbn; [done| | |]; [by intros ? ? ?%not_elem_of_nil| |]; (split; [constructor|]); by intros x ?%not_elem_of_nil.
  - exists (fun _ => no_ghost). split; [intros i p; cbn; by rewrite lookup_empty|]. intros i j _ [p Hp]. cbn in Hp; by rewrite lookup_empty in Hp.
Qed.
End server.
