(* ===== verification/CustodyTheorems.v ===== *)
(** * Custody of results: the theorems

    No workspace is given up before the server keeps its result; one without a
    record of its end stops every runner of the host; the others are settled by
    a reconciliation. *)
From stdpp Require Import relations.
From S2P Require Import Prelude Status Table Ledger LedgerHandlers LedgerSafety LedgerSteps LedgerTheorems Programs Outbox Runners LeaseRequests Custody CustodySafety.
Local Open Scope Z_scope.

Section custody.
Context `{UuidText} (hash_token : str -> str).

(** C23. A workspace is never given up before the server
    keeps its result: every acknowledgement on the disk, and every workspace
    that was removed, names a closed lease of the server with its attempt, its
    generation and its status; no result is posted twice, and the commands of
    no lease are started twice - whatever answers get lost, files tear and
    processes crash, and however the runners of the host interleave. *)
Theorem workspace_custody l root h : accounted l root -> rtc (host_step hash_token) (at_rest l root) h ->
  accounted (wl_ledger (h_world h)) (wl_root (h_world h)) /\
  (forall owner status, (owner, status) ∈ wl_removed (h_world h) -> owner_recorded (wl_ledger (h_world h)) owner status) /\
  NoDup (wl_posted (h_world h)) /\ NoDup (wl_started (h_world h)).
Proof.
  intros Ha Hs. pose proof (host_ok_steps hash_token _ _ (rest_ok _ _ Ha) Hs) as [[H1 H2 [H3 _] [H4 _]] _]. done.
Qed.

(** ** Inventories *)

Lemma add_retained_all root names acc found : rfold (add_retained root) acc names = Ok found ->
  exists rest, found = acc ++ rest /\ Forall2 (fun name r => retained name root = Ok r) (filter (fun name => starts_with §"attempt-" name = true) names) rest.
Proof.
  revert acc. induction names as [|name names IH]; intros acc; cbn [rfold].
  - intros [= <-]. exists []. by rewrite app_nil_r.
  - intros (acc' & Ha & (rest & -> & Hf)%IH)%rbind_Ok_inv. unfold add_retained in Ha. rewrite filter_cons. destruct (starts_with _ name) eqn:Es.
    + apply rbind_Ok_inv in Ha as (r & Hr & [= <-]). exists (r :: rest). rewrite <- app_assoc. split; [done|]. case_decide; [|done]. by constructor.
    + injection Ha as <-. exists rest. by case_decide.
Qed.

Lemma inventory_Ok root records : inventory root = Ok records ->
  Forall2 (fun name r => retained name root = Ok r) (filter (fun name => starts_with §"attempt-" name = true) (keys root)) records.
Proof. unfold inventory. destruct (_ <? _); [done|]. by intros (rest & -> & Hf)%add_retained_all. Qed.

(** ** A workspace without an end *)

Record stuck (name : str) (root : disk_root) : Prop := {
  sk_name : starts_with §"attempt-" name = true;
  sk_directory : exists d, root !! name = Some d /\ di_completion d = None /\ di_recovery d = None }.

Definition unsettled (w : RetainedWorkspace) : Prop := rw_terminal_status w = None /\ rw_acknowledged w = false.

Lemma stuck_retained name root r : stuck name root -> retained name root = Ok r -> unsettled r.
Proof.
  intros [_ (d & Hd & Hc & Hr)] E. unfold retained in E. apply rbind_Ok_inv in E as (ws & _ & E). rewrite Hd in E. cbn [ok_or rbind] in E.
  assert (completion_paths d = (COMPLETION, ACK)) as Hp by (unfold completion_paths; by rewrite Hr). rewrite Hp in E. cbn [fst snd get_record] in E.
  rewrite Hc in E. cbn [rbind] in E. destruct (di_ack d) as [f|]; cbn [rbind] in E.
  - apply rbind_Ok_inv in E as (b & (a & _ & Hb)%rbind_Ok_inv & _). by rewrite bool_decide_false in Hb.
  - by injection E as <-.
Qed.

Lemma stuck_inventory name root records : stuck name root -> inventory root = Ok records -> Exists unsettled records.
Proof.
  intros Hs Hi%inventory_Ok. destruct Hs as [Hn (d & Hd & Hrest)] eqn:E. clear E. assert (Hin : name ∈ filter (fun name => starts_with §"attempt-" name = true) (keys root)).
  { apply list_elem_of_filter. split; [done|]. apply elem_of_keys. by eexists. }
  apply list_elem_of_lookup in Hin as [i Hi']. destruct (Forall2_lookup_l _ _ _ _ _ Hi Hi') as (r & Hr & Hret). apply Exists_exists. exists r.
  split; [by eapply list_elem_of_lookup_2|by eapply stuck_retained].
Qed.

(** A directory without a readable marker, which a crash leaves in [create] and
    in [cleanup_after_ack], makes every inventory fail. *)
Lemma unmarked_blocks name root d : starts_with §"attempt-" name = true -> root !! name = Some d ->
  di_marker d = None \/ di_marker d = Some Torn -> exists m, inventory root = Err m.
Proof.
  intros Hn Hd Hm. destruct (inventory root) as [records|m] eqn:E; [|by eexists]. exfalso. apply inventory_Ok in E.
  assert (Hin : name ∈ filter (fun name => starts_with §"attempt-" name = true) (keys root)).
  { apply list_elem_of_filter. split; [done|]. apply elem_of_keys. by eexists. }
  apply list_elem_of_lookup in Hin as [i Hi]. destruct (Forall2_lookup_l _ _ _ _ _ E Hi) as (r & _ & Hr). unfold retained in Hr.
  apply rbind_Ok_inv in Hr as (ws & Hw & _). unfold reopen in Hw. destruct (_ || _) in Hw; [done|]. rewrite Hd in Hw. cbn [ok_or rbind] in Hw.
  by destruct Hm as [Hm|Hm]; rewrite Hm in Hw.
Qed.

(** What a runner still does next to such a workspace. *)
Definition idle_call (o : rop) (_ : unit) : Prop :=
  match o with REnter _ | RCredential | RInventory | RReceipt _ | RReopen _ | RVerify _ _ _ _ | RAcknowledge _ _ | RCleanup _ => True | _ => False end.
Definition idle_answer (o : rop) : ranswer o -> Prop :=
  match o return ranswer o -> Prop with
  | RInventory => fun a => match a with Ok records => Exists unsettled records | Err _ => True end
  | _ => fun _ => True
  end.
Abbreviation idle := (wp idle_call idle_answer (fun _ _ g => g)).
Definition refused {A} (r : result A failure) (_ : unit) : Prop := match r with Ok _ => False | Err _ => True end.

Lemma idle_receipt lease attempt generation outcome (Q : result unit failure -> unit -> Prop) g : (forall r, Q r g) ->
  idle (read_terminal_receipt lease attempt generation outcome) Q g.
Proof. intros HQ. unfold read_terminal_receipt, try_bind. cbn. split; [done|]. intros [r|e] _; [|apply HQ]. destruct (receipt_confirms _ _ _ _ _); apply HQ. Qed.

Lemma idle_one keep w (Q : result bool failure -> unit -> Prop) g : Q (Ok false) g -> (rw_terminal_status w <> None -> Q (Ok true) g) -> (forall e, Q (Err e) g) ->
  idle (reconcile_one keep w) Q g.
Proof.
  intros Hf Ht He. unfold reconcile_one. destruct (rw_terminal_status w) as [s|] eqn:E; [|done]. apply wp_bind, idle_receipt. intros [[]|e]; [|done].
  unfold try_bind. cbn. split; [done|]. intros [ws|e] _; [|apply He]. cbn. split; [done|]. intros [[]|e] _; [|apply He]. cbn. split; [done|].
  intros [[]|e] _; [|apply He]. destruct keep; cbn; [by apply Ht|]. split; [done|]. intros [[]|e] _; [by apply Ht|apply He].
Qed.

Lemma idle_all keep ws unresolved g : 0 <= unresolved -> 0 < unresolved \/ Exists unsettled ws -> idle (reconcile_all keep ws unresolved) refused g.
Proof.
  revert unresolved. induction ws as [|w ws IH]; intros unresolved H0 Hu; cbn [reconcile_all].
  - destruct Hu as [Hu|Hu%Exists_nil]; [|done]. by rewrite (proj2 (Z.ltb_lt _ _) Hu).
  - apply wp_try, idle_one; [apply IH; lia| |done]. intros Hn. apply IH; [done|]. destruct Hu as [Hu|[[Hw _]|Hu]%Exists_cons]; [by left|done|by right].
Qed.

Lemma idle_start cli g : idle (run_start cli) refused g.
Proof.
  unfold run_start. destruct (cli_reconcile_workspaces cli) eqn:Ec.
  - unfold try_bind at 1. cbn [io_bind]. unfold try_bind at 1. cbn [io_bind call wp]. split; [done|]. intros [[]|e] _; [|done]. apply wp_try.
    unfold reconcile_workspaces. cbn [io_bind call wp]. split; [done|]. intros entered _. destruct (negb entered); [done|]. unfold try_bind. cbn [io_bind call wp].
    split; [done|]. intros [records|e] Ha; [|done]. eapply wp_mono; [|apply idle_all; [done|by right]]. by intros [[]|e] g'.
  - apply wp_try. unfold ensure_no_unresolved_workspaces, try_bind. cbn [io_bind call wp]. split; [done|]. intros [records|e] Ha; [|done]. cbn in Ha.
    assert (existsb (fun w => negb (rw_acknowledged w)) records = true) as ->; [|done]. apply Exists_exists in Ha as (w & Hin & _ & Hw). apply existsb_exists. exists w.
    split; [by apply list_elem_of_In|]. by rewrite Hw.
Qed.

Lemma stuck_paths d : di_recovery d = None -> completion_paths d = (COMPLETION, ACK).
Proof. intros Hr. unfold completion_paths. by rewrite Hr. Qed.

(** Nothing that is acknowledged or removed is the workspace. *)
Lemma stuck_read ws name root d c : stuck name root -> verify_owner ws root = Ok d -> read_record ws (completion_paths d).1 d = Ok c -> ws_directory ws <> name.
Proof.
  intros [_ (d0 & Hd0 & Hc & Hr)] Hv%verify_owner_Ok Hrd Hn. rewrite Hn, Hd0 in Hv. injection Hv as <-. rewrite stuck_paths in Hrd by done.
  unfold read_record in Hrd. cbn in Hrd. by rewrite Hc in Hrd.
Qed.

Lemma stuck_insert name root name' d : stuck name root -> name' <> name -> stuck name (<[name' := d]> root).
Proof. intros [Hn Hd] Hne. split; [done|]. by rewrite lookup_insert_ne. Qed.

Lemma stuck_acknowledge name root ws status : stuck name root -> stuck name (acknowledge_completion ws status root).2.
Proof.
  intros Hs. unfold acknowledge_completion. destruct (rbind _ _) as [[d c]|m] eqn:E; [|done]. apply rbind_Ok_inv in E as (d0 & Hv & E).
  apply rbind_Ok_inv in E as (c0 & Hr & E). destruct (str_eqb _ _); [|done]. injection E as <- <-. unfold write_record. destruct (get_record _ _); [done|].
  apply stuck_insert; [done|by eapply stuck_read].
Qed.

Lemma stuck_cleanup name root ws : stuck name root -> stuck name (cleanup_after_ack ws root).2.
Proof.
  intros Hs. unfold cleanup_after_ack, cleanup_admitted. destruct (verify_owner ws root) as [d|m] eqn:Hv; [cbn [rbind]|done].
  destruct (read_record ws (completion_paths d).1 d) as [c|m] eqn:Hr; [cbn [rbind]|done]. pose proof (stuck_read _ _ _ _ _ Hs Hv Hr) as Hne.
  destruct (rbind _ _); [|done]. destruct Hs as [Hn Hd]. split; [done|]. cbn [snd]. by rewrite lookup_delete_ne.
Qed.

Lemma stuck_disk nonce name root o a root' : stuck name root -> idle_call o tt -> on_disk nonce root o = Some (a, root') -> stuck name root' /\ idle_answer o a.
Proof.
  intros Hs Hc. destruct o; cbn in Hc; try done; cbn [on_disk].
  - intros E. injection E as E <-. subst a. split; [done|]. cbn. destruct (inventory root) as [records|m] eqn:E; cbn; [|done]. by eapply stuck_inventory.
  - by intros [= _ <-].
  - by intros [= _ <-].
  - intros [= _ <-]. split; [by apply stuck_acknowledge|done].
  - intros [= _ <-]. split; [by apply stuck_cleanup|done].
Qed.

Lemma stuck_half name root o root' : stuck name root -> idle_call o tt -> half_done root o root' -> stuck name root'.
Proof.
  intros Hs Hc Hd. destruct Hd as [ws status d Hv|ws status d c Hv Hr|attempt lease generation nonce marker|ws c d d' E]; cbn in Hc; try done.
  - apply stuck_insert; [done|by eapply stuck_read].
  - apply stuck_insert; [done|]. unfold cleanup_admitted in E. apply rbind_Ok_inv in E as (d0 & Hv & E). apply rbind_Ok_inv in E as (c0 & Hr & _). by eapply stuck_read.
Qed.

Lemma stuck_serves name w o a w' : stuck name (wl_root w) -> idle_call o tt -> serves hash_token w o a w' ->
  stuck name (wl_root w') /\ idle_answer o a /\ wl_posted w' = wl_posted w /\ wl_started w' = wl_started w.
Proof.
  intros Hs Hc Hv. destruct Hv as [o a l' He Hl|now lease runner th tags others qid checks attempt generation stage l' o| |authenticated now deployment f o r t l' Hl|o r e
    |now h lease t re Hr|o a|nonce o a root' Hd|o e a He Ho Hf|o e a root' Hd Hf|o e a nonce a' root' Hd Hf]; try done.
  - split_and!; try done. by destruct o.
  - destruct (stuck_disk _ _ _ _ _ _ Hs Hc Hd) as [Hs' Ha]. by split_and!.
  - split_and!; try done. destruct o; try done; cbn in Hf; by injection Hf as <-.
  - split_and!; try done; [by eapply stuck_half|]. destruct o; try done; cbn in Hf; by injection Hf as <-.
  - destruct (stuck_disk _ _ _ _ _ _ Hs Hc Hd) as [Hs' _]. split_and!; try done. destruct o; try done; cbn in Hf; by injection Hf as <-.
Qed.

(** The workspace is there and every process is idle. *)
Record stranded_host (name : str) (posted started : list N) (h : host) : Prop := {
  sh_stuck : stuck name (wl_root (h_world h));
  sh_posted : wl_posted (h_world h) = posted;
  sh_started : wl_started (h_world h) = started;
  sh_runs : forall i p, h_runs h !! i = Some p -> idle p refused tt }.

Lemma stranded_step name posted started h h' : stranded_host name posted started h -> host_step hash_token h h' -> stranded_host name posted started h'.
Proof.
  intros [Hs Hp Hst Hr] Hstep. assert (Hcall : forall i o k a w', h_runs h !! i = Some (Call o k) -> serves hash_token (h_world h) o a w' ->
    (stuck name (wl_root w') /\ wl_posted w' = posted /\ wl_started w' = started) /\ idle (k a) refused tt).
  { intros i o k a w' Hi Hv. destruct (Hr i _ Hi) as [Hc Hk]. destruct (stuck_serves _ _ _ _ _ Hs Hc Hv) as (? & Ha & ? & ?).
    split; [split_and!; congruence|by apply Hk]. }
  destruct Hstep as [l' He|i o k a w' Hi Hv|i|i o k a w' Hi Hv|i cli Hi|i cli Hi].
  - by split.
  - destruct (Hcall _ _ _ _ _ Hi Hv) as [(? & ? & ?) Hk]. split; try done. intros j p. cbn. intros [[<- <-]|[_ Hj]]%lookup_insert_Some; [done|by eapply Hr].
  - split; try done. intros j p. cbn. intros [_ Hj]%lookup_delete_Some. by eapply Hr.
  - destruct (Hcall _ _ _ _ _ Hi Hv) as [(? & ? & ?) _]. split; try done. intros j p. cbn. intros [_ Hj]%lookup_delete_Some. by eapply Hr.
  - split; try done. intros j p. cbn. intros [[<- <-]|[_ Hj]]%lookup_insert_Some; [apply idle_start|by eapply Hr].
  - by destruct (Hr i _ Hi).
Qed.


End custody.

(** ** A reconciliation *)

Section reconciliation.
Context `{UuidText}.

Definition unavailable : failure := Failure §"unavailable".

(** A host whose disk works, open for work, with the receipts of the server. *)
Definition fallback (receipt : N -> LeaseReceipt) (o : rop) : ranswer o :=
  match o return ranswer o with
  | REnter _ => true | RAccepting => true | RCredential => Ok tt | RReceipt lease => Ok (receipt lease) | RHeartbeat _ _ => Ok tt
  | RPoll => Ok None | RAckLease _ => Err unavailable | RResolveSecrets _ => Err unavailable | RComplete _ _ => Err unavailable
  | RUpload _ _ => Err unavailable | RInventory => Err unavailable | RReopen _ => Err unavailable | RVerify _ _ _ _ => Err unavailable
  | RCreate _ _ _ => Err unavailable | RCheckout _ _ => Err unavailable | RRecord _ _ => Err unavailable | RAcknowledge _ _ => Err unavailable
  | RCleanup _ => Err unavailable | RProcesses _ => Err unavailable | RCommand _ _ _ _ => Err unavailable | RFinish => Err unavailable
  end.

Definition healthy (receipt : N -> LeaseReceipt) (root : disk_root) (o : rop) : ranswer o * disk_root :=
  match on_disk 0 root o with Some r => r | None => (fallback receipt o, root) end.

(** The server acknowledges the end that a workspace has on record. *)
Definition confirmed (receipt : N -> LeaseReceipt) (w : RetainedWorkspace) : Prop :=
  exists s, rw_terminal_status w = Some s /\ receipt_confirms (receipt (rw_lease w)) (rw_lease w) (rw_attempt w) (rw_generation w) s = true.

Lemma reopen_verified name root ws : reopen name root = Ok ws -> exists d, root !! name = Some d /\ ws_directory ws = name /\ verify_owner ws root = Ok d.
Proof.
  unfold reopen. destruct (_ || _); [done|]. intros (d & Hd%ok_or_Ok & E)%rbind_Ok_inv. apply rbind_Ok_inv in E as (owner & Hm & E).
  apply rbind_Ok_inv in E as (suffix & _ & E). apply rbind_Ok_inv in E as (nonce & _ & E). destruct (_ && _); [|done]. injection E as <-.
  exists d. split; [done|]. split; [done|]. unfold verify_owner. cbn. rewrite Hd. cbn [ok_or rbind]. destruct (di_marker d) as [[o|]|]; [|done|done].
  injection Hm as ->. by rewrite bool_decide_true.
Qed.

(** What an inventory says of a workspace. *)
Lemma retained_Ok name root r s : retained name root = Ok r -> rw_terminal_status r = Some s ->
  exists ws d c, reopen name root = Ok ws /\ root !! name = Some d /\ ws_directory ws = name /\ verify_owner ws root = Ok d /\
    rw_workspace_id r = name /\ owned_by (rw_attempt r) (rw_lease r) (rw_generation r) ws /\
    read_record ws (completion_paths d).1 d = Ok c /\ cm_status c = s /\
    match get_record (completion_paths d).2 d with None => True | Some _ => read_record ws (completion_paths d).2 d = Ok c end.
Proof.
  unfold retained. intros (ws & Hw & E)%rbind_Ok_inv Hs. destruct (reopen_verified _ _ _ Hw) as (d & Hd & Hdir & Hv). rewrite Hd in E. cbn [ok_or rbind] in E.
  apply rbind_Ok_inv in E as (status & Hst & E). apply rbind_Ok_inv in E as (acknowledged & Hack & [= <-]). cbn [rw_terminal_status] in Hs. subst status.
  destruct (get_record (completion_paths d).1 d) as [f|]; [|done]. apply rbind_Ok_inv in Hst as (c & Hc & [= <-]). exists ws, d, c. split_and!; try done.
  destruct (get_record (completion_paths d).2 d) as [f'|]; [|done]. apply rbind_Ok_inv in Hack as (a & Ha & Hb). case_bool_decide as Hb'; [|done].
  rewrite Ha. f_equal. injection Hb' as Hb'. apply read_record_Ok in Ha as (_ & Hs1 & Ho1). apply read_record_Ok in Hc as (_ & Hs2 & Ho2).
  destruct a, c; cbn in *; congruence.
Qed.

(** An acknowledgement is there afterwards, and admits the removal. *)
Lemma acknowledge_cleanup ws root d c : verify_owner ws root = Ok d -> read_record ws (completion_paths d).1 d = Ok c ->
  match get_record (completion_paths d).2 d with None => True | Some _ => read_record ws (completion_paths d).2 d = Ok c end ->
  exists root', acknowledge_completion ws (cm_status c) root = (Ok tt, root') /\ cleanup_after_ack ws root' = (Ok tt, delete (ws_directory ws) root).
Proof.
  intros Hv Hc Ha. unfold acknowledge_completion. rewrite Hv. cbn [rbind]. rewrite Hc. cbn [rbind]. rewrite str_eqb_refl. unfold write_record.
  pose proof (verify_owner_Ok _ _ _ Hv) as Hd. destruct (get_record (completion_paths d).2 d) as [f|] eqn:Ef.
  - rewrite Ha. cbn [rbind]. rewrite bool_decide_true by done. exists root. split; [done|]. unfold cleanup_after_ack, cleanup_admitted. rewrite Hv. cbn [rbind].
    rewrite Hc. cbn [rbind]. rewrite Ha. cbn [rbind]. by rewrite bool_decide_true.
  - set (d' := set_record (completion_paths d).2 (Whole c) d). exists (<[ws_directory ws := d']> root). split; [done|].
    assert (Hv' : verify_owner ws (<[ws_directory ws := d']> root) = Ok d').
    { unfold verify_owner in *. rewrite lookup_insert_eq. rewrite Hd in Hv. cbn [ok_or rbind] in *. change (di_marker d') with (di_marker d).
      destruct (di_marker d) as [[o|]|]; [|done|done]. by destruct (bool_decide _). }
    assert (Hp : completion_paths d' = completion_paths d /\ (completion_paths d).1 <> (completion_paths d).2).
    { unfold d', completion_paths. by destruct (di_recovery d) eqn:Er; cbn; rewrite Er. }
    destruct Hp as [Hp Hne]. assert (Hr1 : read_record ws (completion_paths d).1 d' = Ok c).
    { unfold read_record in *. unfold d'. rewrite get_set_record, bool_decide_false by done. exact Hc. }
    assert (Hr2 : read_record ws (completion_paths d).2 d' = Ok c).
    { unfold read_record in *. unfold d'. rewrite get_set_record, bool_decide_true by done. destruct (get_record (completion_paths d).1 d) as [[c0|]|]; [|done|done].
      destruct (_ && _) eqn:Eb; [|done]. injection Hc as ->. by rewrite Eb. }
    unfold cleanup_after_ack, cleanup_admitted. rewrite Hv'. cbn [rbind]. rewrite Hp, Hr1. cbn [rbind]. rewrite Hr2. cbn [rbind]. rewrite bool_decide_true by done.
    f_equal. by rewrite delete_insert_eq.
Qed.

Lemma run_one receipt name root r : retained name root = Ok r -> confirmed receipt r ->
  run_io (healthy receipt) (reconcile_one false r) root = (Ok true, delete name root).
Proof.
  intros Hret (s & Hs & Hc). destruct (retained_Ok _ _ _ _ Hret Hs) as (ws & d & c & Hw & Hd & Hdir & Hv & Hid & (Ha & Hl & Hg) & Hrd & <- & Hack).
  destruct (acknowledge_cleanup _ _ _ _ Hv Hrd Hack) as (root' & Hak & Hcl). unfold reconcile_one. rewrite Hs.
  erewrite run_bind; cycle 1.
  { unfold read_terminal_receipt. erewrite run_try; [by rewrite Hc|reflexivity]. }
  rewrite Hid. erewrite run_try; cycle 1.
  { cbn. unfold healthy. cbn [on_disk]. by rewrite Hw. }
  erewrite run_try; cycle 1.
  { cbn. unfold healthy. cbn [on_disk]. unfold verify_identity. rewrite Ha, Hl, Hg, !N.eqb_refl, Z.eqb_refl. cbn [negb andb]. by rewrite Hv. }
  erewrite run_try; cycle 1.
  { cbn. unfold healthy. cbn [on_disk]. by rewrite Hak. }
  erewrite run_try; cycle 1.
  { cbn. unfold healthy. cbn [on_disk]. by rewrite Hcl. }
  by rewrite Hdir.
Qed.

Lemma retained_ext name root root' : root !! name = root' !! name -> retained name root = retained name root'.
Proof. intros E. unfold retained, reopen. by rewrite E. Qed.

Lemma retained_delete name root names records : name ∉ names -> Forall2 (fun name r => retained name root = Ok r) names records ->
  Forall2 (fun n r => retained n (delete name root) = Ok r) names records.
Proof.
  intros Hn Hf. induction Hf as [|n r names records Hr Hf IH]; constructor; [|apply IH; set_solver].
  rewrite <- Hr. apply retained_ext, lookup_delete_ne. set_solver.
Qed.

Lemma run_all receipt names records root : NoDup names -> Forall2 (fun name r => retained name root = Ok r) names records -> Forall (confirmed receipt) records ->
  exists root', run_io (healthy receipt) (reconcile_all false records 0) root = (Ok tt, root') /\
    forall name, root' !! name = if bool_decide (name ∈ names) then None else root !! name.
Proof.
  intros Hn Hf. revert root Hn Hf. induction names as [|name names IH] in records |- *; intros root Hn Hf Hc.
  - apply Forall2_nil_inv_l in Hf as ->. exists root. done.
  - apply Forall2_cons_inv_l in Hf as (r & records' & Hr & Hf & ->). apply Forall_cons in Hc as [Hc1 Hc]. apply NoDup_cons in Hn as [Hnin Hn].
    destruct (IH records' (delete name root)) as (root' & Hrun & Hroot); [done| |done|].
    + by apply retained_delete.
    + exists root'. cbn [reconcile_all]. erewrite run_try; [|by apply run_one]. split; [done|]. intros n. rewrite Hroot. destruct (decide (n = name)) as [->|Hne].
      * rewrite lookup_delete_eq. rewrite (bool_decide_true (name ∈ name :: names)) by left. by case_bool_decide.
      * rewrite lookup_delete_ne by done. assert (bool_decide (n ∈ name :: names) = bool_decide (n ∈ names)) as -> by (apply bool_decide_ext; set_solver). done.
Qed.

(** C25. When every workspace that was left behind has the record of
    its end and the server acknowledges that end, a reconciliation succeeds:
    it removes exactly these workspaces, so that the next start finds nothing
    unresolved, and it runs no commands. *)
Theorem recovery receipt cli root records : cli_reconcile_workspaces cli = true -> cli_keep_workspace cli = false ->
  inventory root = Ok records -> Forall (confirmed receipt) records ->
  exists root', run_io (healthy receipt) (run_start cli) root = (Ok Stop, root') /\ inventory root' = Ok [] /\
    forall name, root' !! name = if starts_with §"attempt-" name then None else root !! name.
Proof.
  intros Hcli Hkeep Hinv Hc. pose proof (inventory_Ok _ _ Hinv) as Hf. edestruct run_all as (root' & Hrun & Hroot); [|exact Hf|exact Hc|].
  { apply NoDup_filter, NoDup_keys. }
  assert (Hr : forall name, root' !! name = if starts_with §"attempt-" name then None else root !! name).
  { intros name. rewrite Hroot. destruct (starts_with _ name) eqn:Es; case_bool_decide as E; try done.
    - destruct (root !! name) as [d|] eqn:Ed; [|done]. exfalso. apply E, list_elem_of_filter. split; [done|]. apply elem_of_keys. by eexists.
    - apply list_elem_of_filter in E as [E _]. congruence. }
  exists root'. split_and!; [| |exact Hr].
  - assert (Hrec : run_io (healthy receipt) (reconcile_workspaces false) root = (Ok tt, root')).
    { unfold reconcile_workspaces. rewrite (run_bind _ _ _ root true root) by reflexivity. cbn [negb]. rewrite (run_try _ _ _ root records root); [exact Hrun|].
      cbn. unfold healthy. cbn [on_disk]. by rewrite Hinv. }
    unfold run_start. rewrite Hcli, Hkeep. rewrite (run_try _ _ _ root tt root) by reflexivity. rewrite (run_try _ _ _ root tt root) by reflexivity.
    by rewrite (run_try _ _ _ _ _ _ Hrec).
  - unfold inventory in *. destruct (MAX_INVENTORY_ENTRIES <? zlen (keys root)) eqn:El; [done|].
    assert (Hsub : forall name, name ∈ keys root' -> name ∈ keys root /\ starts_with §"attempt-" name = false).
    { intros name [d Hd]%elem_of_keys. rewrite Hr in Hd. destruct (starts_with _ name) eqn:Es; [done|]. split; [|done]. apply elem_of_keys. by eexists. }
    assert (zlen (keys root') <= zlen (keys root)).
    { unfold zlen. apply inj_le, submseteq_length, NoDup_submseteq; [apply NoDup_keys|]. intros name Hn. by apply Hsub. }
    rewrite (proj2 (Z.ltb_ge _ _)) by (apply Z.ltb_ge in El; lia). assert (Hall : forall names acc, (forall n, n ∈ names -> starts_with §"attempt-" n = false) ->
      rfold (add_retained root') acc names = Ok acc).
    { induction names as [|n names IH]; intros acc Hn; [done|]. cbn [rfold]. unfold add_retained at 1. rewrite Hn by left. cbn [rbind]. apply IH. intros m Hm. apply Hn. by right. }
    apply Hall. intros n Hn. by apply Hsub.
Qed.
End reconciliation.

(** ** A small host *)

#[local] Instance flat_uuid : UuidText := {
  uuid_text u := [(u + 200)%N]; uuid_simple u := [(u + 200)%N];
  uuid_parse s := match s with [u] => Some (u - 200)%N | _ => None end;
  uuid_parse_text a := f_equal Some (N.add_sub a 200) }.

Definition sample_offer : LeaseOffer := {|
  lo_lease := 31; lo_token := §"secret"; lo_fencing := 1;
  lo_attempt := {| as_id := 11; as_executor := §"shell"; as_git_ref := §"main"; as_commit_sha := None; as_commands := [§"make"]; as_environment := ∅;
                   as_secrets := []; as_artifacts := []; as_timeout_seconds := 60;
                   as_workspace := {| sp_checkout := true; sp_checkout_url := Some §"https://forge/repo" |}; as_typed := false |} |}.

(** The server of the sample ledger, and a disk on which checkouts work or not. *)
Definition sample_serve (checkout : bool) (w : world) (o : rop) : ranswer o * world :=
  match o return ranswer o * world with
  | REnter _ => (true, w)
  | RAccepting => (true, w)
  | RPoll =>
    match claim_next_work_tx 1 31 3 §"secret" [] (fun _ => true) 21 (fun _ _ => Offer) (wl_ledger w) with
    | Ok (Offered 31 11 1%Z _, l') => (Ok (Some sample_offer), with_ledger l' w)
    | _ => (Ok None, w)
    end
  | RAckLease o => (Ok tt, with_ledger (ack_handler id (Ok 3%N) false (fun _ _ => Ok None) (Ok tt) 2 31 Sample.control (wl_ledger w)).2 w)
  | RComplete o r =>
    match complete_runner_lease id (Ok 3%N) 6 (lo_lease o) (fun _ => Ok tt) None (report_of 6 o r) (wl_ledger w) with
    | (Ok t, l') => (Ok {| ca_protocol_version := 1; ca_accepted := true; ca_terminal_status := as_str t |}, with_posted (lo_lease o) (with_ledger l' w))
    | _ => (Err unavailable, with_posted (lo_lease o) w)
    end
  | RProcesses o => (Ok tt, with_started (lo_lease o) w)
  | RCommand _ _ _ _ => (Ok (Exited true (Some 0)), w)
  | RCredential => (Ok tt, w) | RHeartbeat _ _ => (Ok tt, w) | RUpload _ _ => (Ok tt, w) | RFinish => (Ok tt, w)
  | RResolveSecrets _ => (Err unavailable, w) | RReceipt _ => (Err unavailable, w)
  | RCheckout ws source =>
    match (if checkout then on_disk 5 (wl_root w) (RCheckout ws source) else None) with
    | Some (a, root') => (a, with_disk root' [] w) | None => (Err (Failure §"clone failed"), w) end
  | RInventory => (raised (inventory (wl_root w)), w)
  | RReopen name => (raised (reopen name (wl_root w)), w)
  | RVerify ws attempt lease generation => (raised (verify_identity ws attempt lease generation (wl_root w)), w)
  | RCreate attempt lease generation => let r := create 5 attempt lease generation (wl_root w) in (raised r.1, with_disk r.2 [] w)
  | RRecord ws status => let r := record_completion ws status (wl_root w) in (raised r.1, with_disk r.2 [] w)
  | RAcknowledge ws status => let r := acknowledge_completion ws status (wl_root w) in (raised r.1, with_disk r.2 [] w)
  | RCleanup ws => let r := cleanup_after_ack ws (wl_root w) in (raised r.1, with_disk r.2 (removes (wl_root w) (RCleanup ws)) w)
  end.

Lemma with_same_ledger w : with_ledger (wl_ledger w) w = w.
Proof. by destruct w. Qed.
Lemma with_same_disk w : with_disk (wl_root w) [] w = w.
Proof. by destruct w. Qed.

Lemma serve_same w o a : elsewhere o = true -> serves id w o a w.
Proof. intros Ho. rewrite <- (with_same_ledger w) at 2. by apply serve_elsewhere. Qed.
Lemma serve_reading w o a root' : on_disk 5 (wl_root w) o = Some (a, root') -> root' = wl_root w -> removes (wl_root w) o = [] -> serves id w o a w.
Proof. intros Hd -> Hr. pose proof (serve_disk id w 5 o a _ Hd) as Hs. by rewrite Hr, with_same_disk in Hs. Qed.

Lemma sample_serves checkout w o : serves id w o (sample_serve checkout w o).1 (sample_serve checkout w o).2.
Proof.
  destruct o; cbn [sample_serve]; try (by apply serve_same).
  - destruct (claim_next_work_tx _ _ _ _ _ _ _ _ _) as [[outcome l']|e] eqn:E; [|apply serve_no_work].
    destruct outcome as [|lease attempt generation stage| |]; try apply serve_no_work.
    repeat case_match; try apply serve_no_work. by eapply (serve_offer id w).
  - apply serve_elsewhere; [done|]. apply rtc_once. right. apply run_ack.
  - destruct (complete_runner_lease _ _ _ _ _ _ _ _) as [[t|e] l'] eqn:E; [by eapply serve_completion|apply serve_lost_completion].
  - by apply (serve_failure id w (RReceipt lease) unavailable).
  - by eapply serve_reading.
  - by eapply serve_reading.
  - by eapply serve_reading.
  - by apply (serve_disk id w 5).
  - destruct checkout; [|by eapply (serve_failure id w)]. destruct (on_disk 5 (wl_root w) (RCheckout ws source)) as [[a root']|] eqn:E; [|by eapply (serve_failure id w)].
    by apply (serve_disk id w 5).
  - by apply (serve_disk id w 5).
  - by apply (serve_disk id w 5).
  - by apply (serve_disk id w 5).
  - apply serve_processes.
Qed.

(** A process runs to its end. *)
Lemma driven checkout h i p : h_runs h !! i = Some p ->
  rtc (host_step id) h {| h_world := (run_io (sample_serve checkout) p (h_world h)).2; h_runs := <[i := Done (run_io (sample_serve checkout) p (h_world h)).1]> (h_runs h) |}.
Proof.
  revert h. induction p as [a|o k IH]; intros h Hi; cbn [run_io].
  - cbn. rewrite insert_id by done. destruct h. apply rtc_refl.
  - eapply rtc_l; [eapply step_call; [exact Hi|apply (sample_serves checkout)]|]. set (h1 := {| h_world := _; h_runs := <[i := k _]> _ |}).
    specialize (IH _ h1 (lookup_insert_eq _ _ _)). cbn [h1 h_world h_runs] in IH. by rewrite insert_insert_eq in IH.
Qed.

Definition once : Cli := {| cli_once := true; cli_no_checkout := false; cli_keep_workspace := false; cli_reconcile_workspaces := false |}.

(** A start, one turn, and the end of the process. *)
Definition turned (checkout : bool) (w : world) : world :=
  (run_io (sample_serve checkout) (run_turn once) (run_io (sample_serve checkout) (run_start once) w).2).2.

Lemma turned_steps checkout w : (run_io (sample_serve checkout) (run_start once) w).1 = Ok Again ->
  rtc (host_step id) {| h_world := w; h_runs := ∅ |} {| h_world := turned checkout w; h_runs := ∅ |}.
Proof.
  intros Ha. eapply rtc_l; [apply (step_start id _ 0 once), lookup_empty|]. etrans; [apply (driven checkout _ 0), lookup_insert_eq|].
  cbn [h_world h_runs]. rewrite Ha, insert_insert_eq. eapply rtc_l; [apply (step_turn id _ 0 once), lookup_insert_eq|]. cbn [h_world h_runs]. rewrite insert_insert_eq.
  etrans; [apply (driven checkout _ 0), lookup_insert_eq|]. cbn [h_world h_runs]. rewrite insert_insert_eq. apply rtc_once.
  pose proof (step_end id {| h_world := turned checkout w; h_runs := <[0%N := Done (run_io (sample_serve checkout) (run_turn once) (run_io (sample_serve checkout) (run_start once) w).2).1]> ∅ |} 0) as He.
  cbn [h_world h_runs] in He. by rewrite delete_insert_id in He by apply lookup_empty.
Qed.

Definition sample_owner : Owner := {| ow_schema := WORKSPACE_SCHEMA; ow_attempt := 11; ow_lease := 31; ow_generation := 1 |}.
Definition sample_name : str := workspace_prefix 11 1 ++ uuid_simple 5.

Lemma nothing_accounted l : accounted l ∅.
Proof. intros name d f c Hd. by rewrite lookup_empty in Hd. Qed.

(** The turn that succeeds leaves no workspace. *)
Lemma workspace_custody_witness : exists h, rtc (host_step id) (at_rest Sample.ready ∅) h /\
  wl_removed (h_world h) = [(sample_owner, §"success")] /\ wl_posted (h_world h) = [31%N] /\ wl_started (h_world h) = [31%N] /\
  wl_root (h_world h) = ∅ /\ owner_recorded (wl_ledger (h_world h)) sample_owner §"success".
Proof.
  set (w := h_world (at_rest Sample.ready ∅)). set (h := {| h_world := turned true w; h_runs := ∅ |}).
  assert (Hs : rtc (host_step id) (at_rest Sample.ready ∅) h) by (apply (turned_steps true w); vm_compute; reflexivity).
  assert (Hr : wl_removed (turned true w) = [(sample_owner, §"success")]) by (vm_compute; reflexivity). exists h.
  split; [exact Hs|]. split; [exact Hr|]. split; [vm_compute; reflexivity|]. split; [vm_compute; reflexivity|]. split; [vm_compute; reflexivity|].
  destruct (workspace_custody id Sample.ready ∅ h (nothing_accounted _) Hs) as (_ & H2 & _). apply H2. cbn [h h_world]. rewrite Hr. left.
Defined.


(** A workspace whose result was posted, without the answer. *)
Definition sample_left : disk_root :=
  match create 5 11 31 1 ∅ with (Ok ws, root) => (record_completion ws §"success" root).2 | (Err _, root) => root end.
Definition sample_receipt (lease : N) : LeaseReceipt := {|
  lr_protocol_version := 1; lr_lease := lease; lr_attempt := 11; lr_fencing_token := 1; lr_lease_status := §"completed"; lr_terminal_status := Some §"success";
  lr_completed_at := Some 6; lr_terminal_acknowledged := true |}.
Definition reconciling : Cli := {| cli_once := false; cli_no_checkout := false; cli_keep_workspace := false; cli_reconcile_workspaces := true |}.

Lemma recovery_witness : exists records root', inventory sample_left = Ok records /\ map rw_acknowledged records = [false] /\
  run_io (healthy sample_receipt) (run_start reconciling) sample_left = (Ok Stop, root') /\ root' !! sample_name = None.
Proof.
  assert (E : exists records, inventory sample_left = Ok records /\ map rw_acknowledged records = [false] /\ Forall (confirmed sample_receipt) records).
  { eexists. split; [vm_compute; reflexivity|]. split; [vm_compute; reflexivity|]. apply Forall_singleton. exists §"success". split; vm_compute; reflexivity. }
  destruct E as (records & Hi & Ha & Hc). destruct (recovery sample_receipt reconciling sample_left records eq_refl eq_refl Hi Hc) as (root' & Hr & _ & Hn).
  exists records, root'. split; [exact Hi|]. split; [exact Ha|]. split; [exact Hr|]. rewrite Hn. vm_compute. reflexivity.
Defined.
