(* ===== verification/Deployments.v ===== *)
(** * Environments, deployments and their approvals: [backend/src/platform.rs]

    The tables of the migrations 0001, 0024, 0108 and 0109 that belong to
    deployments, and the handlers of the API that work on them.  A column with
    JSON holds a value that can be read back, or one that cannot. *)
From S2P Require Import Prelude Url Table Status Ledger Helm Outbox Api Runners Uploads.
Local Open Scope Z_scope.

(** ** The tables *)

Inductive stored (A : Type) : Type := Readable (a : A) | Unreadable.
Arguments Readable {A} a.
Arguments Unreadable {A}.

(** [serde_json::from_value(value).ok()] *)
Definition from_value {A} (v : stored A) : option A := match v with Readable a => Some a | Unreadable => None end.

Inductive EnvironmentStatus : Type := Available | Stopped | Degraded.
Inductive DeploymentStatus : Type := DeploymentPending | DeploymentRunning | DeploymentSuccess | DeploymentFailed.
Inductive RuntimePhase : Type := Prepared | PhaseRunning | Held | Finished.
Inductive Decision : Type := Approve | Reject.
#[export] Instance EnvironmentStatus_eq_dec : EqDecision EnvironmentStatus.
Proof. solve_decision. Defined.
#[export] Instance DeploymentStatus_eq_dec : EqDecision DeploymentStatus.
Proof. solve_decision. Defined.
#[export] Instance RuntimePhase_eq_dec : EqDecision RuntimePhase.
Proof. solve_decision. Defined.
#[export] Instance Decision_eq_dec : EqDecision Decision.
Proof. solve_decision. Defined.

Record environment_row : Type := {
  en_project : N;
  en_name : str;
  en_url : option str;
  en_status : EnvironmentStatus;
  en_protected : bool;
  en_required : Z;
  en_target : option (stored KubernetesTarget);
  en_created_at : Z }.

Record deployment_row : Type := {
  dp_environment : N;
  dp_pipeline : option N;
  dp_rollback_of : option N;
  dp_git_ref : str;
  dp_status : DeploymentStatus;
  dp_attempt : option N;
  dp_phase : option RuntimePhase;
  dp_input : option (stored DeploymentOffer);
  dp_receipt : option (stored DeploymentObservation);
  dp_created_at : Z }.

Record approval_row : Type := {
  ap_deployment : N;
  ap_decision : Decision;
  ap_actor : str;
  ap_comment : option str;
  ap_created_at : Z }.

(** A text of the database holds no zero character. *)
Definition storable (s : str) : bool := negb (contains_char 0 s).
Definition storable_option (s : option str) : bool := match s with Some s => storable s | None => true end.

(** [environments_required_approvals_check] and [UNIQUE(project_id, name)] *)
#[export] Instance environment_schema : Schema environment_row.
Proof.
  refine {| check r := in_range 0 10 (en_required r) && (if en_protected r then 1 <=? en_required r else en_required r =? 0)
                       && storable (en_name r) && storable_option (en_url r);
            conflict x y := (en_project x =? en_project y)%N && str_eqb (en_name x) (en_name y) |}.
  intros x y. rewrite N.eqb_sym. f_equal. unfold str_eqb. by apply bool_decide_ext.
Defined.

(** [runtime_phase IN ('prepared','running','held')] *)
Definition unresolved (r : deployment_row) : bool :=
  match dp_phase r with Some (Prepared | PhaseRunning | Held) => true | _ => false end.

(** [deployments_runtime_attempt_unique] and
    [deployments_runtime_environment_active] *)
#[export] Instance deployment_schema : Schema deployment_row.
Proof.
  refine {| check r := storable (dp_git_ref r);
            conflict x y := same_key (dp_attempt x) (dp_attempt y)
                            || (dp_environment x =? dp_environment y)%N && unresolved x && unresolved y |}.
  intros x y. rewrite same_key_sym, (N.eqb_sym (dp_environment x)). f_equal. rewrite <- !andb_assoc. f_equal. apply andb_comm.
Defined.

(** [UNIQUE (deployment_id, actor)] *)
#[export] Instance approval_schema : Schema approval_row.
Proof.
  refine {| check r := storable (ap_actor r) && storable_option (ap_comment r);
            conflict x y := (ap_deployment x =? ap_deployment y)%N && str_eqb (ap_actor x) (ap_actor y) |}.
  intros x y. rewrite N.eqb_sym. f_equal. unfold str_eqb. by apply bool_decide_ext.
Defined.

Record delivery : Type := {
  environments : gmap N environment_row;
  deployments : gmap N deployment_row;
  approvals : gmap N approval_row }.

Definition set_environments (t : gmap N environment_row) (d : delivery) : delivery :=
  {| environments := t; deployments := deployments d; approvals := approvals d |}.
Definition set_deployments (t : gmap N deployment_row) (d : delivery) : delivery :=
  {| environments := environments d; deployments := t; approvals := approvals d |}.
Definition set_approvals (t : gmap N approval_row) (d : delivery) : delivery :=
  {| environments := environments d; deployments := deployments d; approvals := t |}.

(** The columns of an update. *)
Definition set_runtime (pipeline : option N) (status : DeploymentStatus) (attempt : option N) (phase : option RuntimePhase)
    (input : option (stored DeploymentOffer)) (receipt : option (stored DeploymentObservation)) (r : deployment_row) : deployment_row :=
  {| dp_environment := dp_environment r; dp_pipeline := pipeline; dp_rollback_of := dp_rollback_of r; dp_git_ref := dp_git_ref r;
     dp_status := status; dp_attempt := attempt; dp_phase := phase; dp_input := input; dp_receipt := receipt; dp_created_at := dp_created_at r |}.
Definition set_deployment_status (status : DeploymentStatus) (r : deployment_row) : deployment_row :=
  set_runtime (dp_pipeline r) status (dp_attempt r) (dp_phase r) (dp_input r) (dp_receipt r) r.

(** ** Texts *)

Definition trim_optional (value : option str) : option str := v ← value; let v := trim v in if is_empty v then None else Some v.

Definition normalize_approval_decision (raw : str) : result Decision ApiError :=
  let text := to_ascii_lowercase (trim raw) in
  if str_eqb text §"approved" || str_eqb text §"approve" then Ok Approve
  else if str_eqb text §"rejected" || str_eqb text §"reject" then Ok Reject
  else Err (bad_request §"approval decision must be approved or rejected").

Definition validate_deployment_status (text : str) : result DeploymentStatus ApiError :=
  if str_eqb text §"pending" then Ok DeploymentPending
  else if str_eqb text §"running" then Ok DeploymentRunning
  else if str_eqb text §"success" then Ok DeploymentSuccess
  else if str_eqb text §"failed" then Ok DeploymentFailed
  else Err (bad_request §"invalid deployment status").

Definition environment_status (text : str) : option EnvironmentStatus :=
  if str_eqb text §"available" then Some Available else if str_eqb text §"stopped" then Some Stopped
  else if str_eqb text §"degraded" then Some Degraded else None.

Definition deployment_status_from_pipeline (status : JobStatus) : DeploymentStatus :=
  match status with
  | Running => DeploymentRunning
  | Success => DeploymentSuccess
  | Failed | Canceled => DeploymentFailed
  | _ => DeploymentPending
  end.

(** ** Environments *)

Record EnvironmentPolicy : Type := { po_project : N; po_protected : bool; po_required : Z }.

Definition policy_of (r : environment_row) : EnvironmentPolicy :=
  {| po_project := en_project r; po_protected := en_protected r; po_required := en_required r |}.

Definition requires_approval (p : EnvironmentPolicy) : bool := po_protected p && (0 <? po_required p).

Definition fetch_environment_policy (environment : N) (d : delivery) : result EnvironmentPolicy ApiError :=
  ok_or (policy_of <$> environments d !! environment) not_found.

Definition normalize_required_approvals (protected : bool) (requested : option Z) (current : option EnvironmentPolicy) : result Z ApiError :=
  if negb protected then
    match requested with
    | Some value => if value =? 0 then Ok 0 else Err (bad_request §"required_approvals must be 0 for unprotected environments")
    | None => Ok 0
    end
  else
    let value :=
      match requested with
      | Some value => value
      | None => match current with Some policy => if po_protected policy then po_required policy else 1 | None => 1 end
      end in
    if in_range 1 10 value then Ok value else Err (bad_request §"required_approvals must be between 1 and 10").

Record CreateEnvironment : Type := {
  ce_target : option KubernetesTarget; ce_name : str; ce_url : option str; ce_protected : option bool; ce_required : option Z }.

(** A field of an update is absent, or it is there. *)
Record UpdateEnvironment : Type := {
  ue_target : option (option KubernetesTarget); ue_name : option str; ue_url : option str; ue_status : option str;
  ue_protected : option bool; ue_required : option Z }.

Section environments.
Context `{UrlCrate}.

Definition validate_target (target : option KubernetesTarget) : result unit ApiError :=
  match target with
  | Some t => match KubernetesTarget_validate t with Ok _ => Ok tt | Err m => Err (bad_request m) end
  | None => Ok tt
  end.

Definition create_environment (c : commit) (id : N) (now : Z) (project : N) (input : CreateEnvironment) (l : ledger) (d : delivery) :
    result environment_row ApiError * delivery :=
  let checked :=
    if is_empty (trim (ce_name input)) then Err (bad_request §"environment name is required")
    else
      let? _ := validate_target (ce_target input) in
      let protected := default false (ce_protected input) in
      let? required := normalize_required_approvals protected (ce_required input) None in
      Ok {| en_project := project; en_name := trim (ce_name input); en_url := trim_optional (ce_url input); en_status := Available;
            en_protected := protected; en_required := required; en_target := Readable <$> ce_target input; en_created_at := now |} in
  match checked with
  | Err e => (Err e, d)
  | Ok row =>
    match (let? _ := ok_or (max_running_jobs l !! project) ForeignKeyViolation in insert_row id row (environments d)) with
    | Ok t => commit_to c row d (set_environments t d)
    | Err _ => (Err internal, d)
    end
  end.

(** The [UPDATE] of [update_environment]. *)
Definition update_environment_row (name : option str) (url : option str) (status : option EnvironmentStatus) (protected : bool) (required : Z)
    (target : option (option KubernetesTarget)) (r : environment_row) : environment_row :=
  {| en_project := en_project r; en_name := default (en_name r) name; en_url := coalesce url (en_url r);
     en_status := default (en_status r) status; en_protected := protected; en_required := required;
     en_target := match target with Some t => Readable <$> t | None => en_target r end; en_created_at := en_created_at r |}.

(** The policy is read in [d0]. *)
Definition update_environment (c : commit) (id : N) (input : UpdateEnvironment) (d0 d : delivery) : result environment_row ApiError * delivery :=
  let checked :=
    let name := trim <$> ue_name input in
    if match name with Some n => is_empty n | None => false end then Err (bad_request §"environment name is required")
    else
      let? status :=
        match ue_status input with
        | Some text => match environment_status text with Some s => Ok (Some s) | None => Err (bad_request §"invalid environment status") end
        | None => Ok None
        end in
      let? _ := validate_target (match ue_target input with Some t => t | None => None end) in
      let? current := fetch_environment_policy id d0 in
      let protected := default (po_protected current) (ue_protected input) in
      let? required := normalize_required_approvals protected (ue_required input) (Some current) in
      Ok (update_environment_row name (trim_optional (ue_url input)) status protected required (ue_target input)) in
  match checked with
  | Err e => (Err e, d)
  | Ok update =>
    match environments d !! id with
    | None => (Err not_found, d)
    | Some r =>
      match put id (update r) (environments d) with
      | Ok t => commit_to c (update r) d (set_environments t d)
      | Err _ => (Err internal, d)
      end
    end
  end.

(** [ON DELETE CASCADE] and [ON DELETE SET NULL]; a development workspace
    retains its environment. *)
Definition deployments_of (environment : N) (d : delivery) : gmap N deployment_row :=
  filter (fun kv => dp_environment kv.2 = environment) (deployments d).

Definition forget_rollback (gone : gmap N deployment_row) (r : deployment_row) : deployment_row :=
  {| dp_environment := dp_environment r; dp_pipeline := dp_pipeline r;
     dp_rollback_of := k ← dp_rollback_of r; if is_some (gone !! k) then None else Some k; dp_git_ref := dp_git_ref r;
     dp_status := dp_status r; dp_attempt := dp_attempt r; dp_phase := dp_phase r; dp_input := dp_input r; dp_receipt := dp_receipt r;
     dp_created_at := dp_created_at r |}.

Definition remove_environment (id : N) (d : delivery) : delivery :=
  let gone := deployments_of id d in
  {| environments := delete id (environments d);
     deployments := forget_rollback gone <$> filter (fun kv => dp_environment kv.2 <> id) (deployments d);
     approvals := filter (fun kv => gone !! ap_deployment kv.2 = None) (approvals d) |}.

Definition delete_environment (c : commit) (id : N) (retained : bool) (d : delivery) : result N ApiError * delivery :=
  match environments d !! id with
  | None => (Err not_found, d)
  | Some _ => if retained then (Err internal, d) else commit_to c id d (remove_environment id d)
  end.
End environments.

(** ** Views of deployments *)

Inductive approval_state : Type := NotRequired | StateRejected | StateApproved | StatePending.

Record Deployment : Type := {
  vw_id : N; vw_row : deployment_row; vw_approval_required : bool; vw_state : approval_state; vw_count : Z; vw_required : Z }.

Definition decided (deployment : N) (decision : Decision) (_ : N) (a : approval_row) : bool :=
  (ap_deployment a =? deployment)%N && bool_decide (ap_decision a = decision).

(** [COUNT( * ) FILTER (WHERE decision = ..)] *)
Definition decision_count (deployment : N) (decision : Decision) (d : delivery) : Z := zlen (select (decided deployment decision) (approvals d)).

(** [deployment_select] on one row *)
Definition deployment_view (id : N) (r : deployment_row) (d : delivery) : option Deployment :=
  e ← environments d !! dp_environment r;
  let required := requires_approval (policy_of e) in
  let approved := decision_count id Approve d in
  Some {| vw_id := id; vw_row := r; vw_approval_required := required;
          vw_state := if negb required then NotRequired
                      else if 0 <? decision_count id Reject d then StateRejected
                      else if en_required e <=? approved then StateApproved else StatePending;
          vw_count := approved; vw_required := en_required e |}.

Definition fetch_deployment (id : N) (d : delivery) : result Deployment ApiError :=
  ok_or (r ← deployments d !! id; deployment_view id r d) not_found.

(** [ORDER BY created_at DESC, id DESC] *)
Definition newest_first (x y : N * deployment_row) : Prop :=
  dp_created_at y.2 < dp_created_at x.2 \/ dp_created_at x.2 = dp_created_at y.2 /\ (y.1 <= x.1)%N.
#[export] Instance newest_first_dec : RelDecision newest_first.
Proof. intros x y. unfold newest_first. apply _. Defined.

Definition list_deployments (environment : N) (d : delivery) : list Deployment :=
  omap (fun kv => deployment_view kv.1 kv.2 d)
    (take 50 (merge_sort newest_first (select (fun _ r => (dp_environment r =? environment)%N) (deployments d)))).

Definition approval_order (x y : N * approval_row) : Prop :=
  ap_created_at x.2 < ap_created_at y.2 \/ ap_created_at x.2 = ap_created_at y.2 /\ (x.1 <= y.1)%N.
#[export] Instance approval_order_dec : RelDecision approval_order.
Proof. intros x y. unfold approval_order. apply _. Defined.

Definition ensure_deployment_exists (id : N) (d : delivery) : result unit ApiError :=
  if is_some (deployments d !! id) then Ok tt else Err not_found.

(** The rows are read in [d']. *)
Definition list_deployment_approvals (id : N) (d d' : delivery) : result (list (N * approval_row)) ApiError :=
  let? _ := ensure_deployment_exists id d in
  Ok (merge_sort approval_order (select (fun _ a => (ap_deployment a =? id)%N) (approvals d'))).

(** ** Requests *)

(** The statements of a request, in their order: the outcome of each write, and
    what others do before it; the pipeline that the trigger made, and whether
    the audit could be recorded. *)
Record request_world : Type := {
  rw_id : N;
  rw_now : Z;
  rw_commit : nat -> commit;
  rw_others : nat -> delivery -> delivery;
  rw_created : result (N * JobStatus) ApiError;
  rw_audit : result unit ApiError }.

(** The update of [start_deployment_pipeline]; the pipeline exists already. *)
Definition attach_pipeline (deployment pipeline : N) (status : JobStatus) (d : delivery) : delivery :=
  set_deployments
    (update_where
       (fun k r => (k =? deployment)%N && is_none (dp_pipeline r) && bool_decide (dp_status r = DeploymentPending)
                   && negb (exists_row (decided deployment Reject) (approvals d)))
       (fun r => set_runtime (Some pipeline) (deployment_status_from_pipeline status) (dp_attempt r) (dp_phase r) (dp_input r) (dp_receipt r) r)
       (deployments d)) d.

Definition start_deployment_pipeline (c : commit) (created : result (N * JobStatus) ApiError) (deployment : N) (d : delivery) : result N ApiError * delivery :=
  match created with
  | Err e => (Err e, d)
  | Ok (pipeline, status) => commit_to c pipeline d (attach_pipeline deployment pipeline status d)
  end.

Definition new_deployment (environment : N) (pipeline rollback_of : option N) (git_ref : str) (status : DeploymentStatus) (now : Z) : deployment_row :=
  {| dp_environment := environment; dp_pipeline := pipeline; dp_rollback_of := rollback_of; dp_git_ref := git_ref; dp_status := status;
     dp_attempt := None; dp_phase := None; dp_input := None; dp_receipt := None; dp_created_at := now |}.

(** [INSERT INTO deployments] with its foreign keys. *)
Definition insert_deployment (id : N) (r : deployment_row) (d : delivery) : result delivery db_error :=
  let? _ := ok_or (environments d !! dp_environment r) ForeignKeyViolation in
  let? _ := match dp_rollback_of r with Some k => let? _ := ok_or (deployments d !! k) ForeignKeyViolation in Ok tt | None => Ok tt end in
  let? t := insert_row id r (deployments d) in Ok (set_deployments t d).

Record CreateDeployment : Type := { cd_git_ref : str; cd_pipeline : option N; cd_status : option str }.

(** [validate_pipeline_project] *)
Definition validate_pipeline_project (pipeline : option N) (project : N) (l : ledger) : result unit ApiError :=
  match pipeline with
  | None => Ok tt
  | Some p =>
    let? row := ok_or (pipelines (core l) !! p) not_found in
    if (project_id row =? project)%N then Ok tt else Err (bad_request §"pipeline belongs to a different project than environment")
  end.

(** The checks of [create_deployment]: whether an approval is required, whether
    the environment has a Kubernetes target, and the first status. *)
Definition admit_deployment (environment : N) (input : CreateDeployment) (l : ledger) (d0 d1 : delivery) : result (bool * bool * DeploymentStatus) ApiError :=
  if is_empty (trim (cd_git_ref input)) then Err (bad_request §"git_ref is required")
  else
    let? policy := fetch_environment_policy environment d0 in
    let? _ := validate_pipeline_project (cd_pipeline input) (po_project policy) l in
    let? e := ok_or (environments d1 !! environment) internal in
    let typed := is_some (en_target e) in
    if typed && (is_some (cd_pipeline input) || match cd_status input with Some s => negb (str_eqb s §"pending") | None => false end)
    then Err (bad_request §"Kubernetes deployment status is owned by verified runtime execution")
    else
      let approval := requires_approval policy in
      if approval && is_some (cd_pipeline input)
      then Err (bad_request §"protected environment deployment must be approved before pipeline execution")
      else
        let text := default (if approval || typed then §"pending" else §"success") (cd_status input) in
        let? status := validate_deployment_status text in
        if approval && negb (str_eqb text §"pending")
        then Err (bad_request §"protected environment deployment must start as pending approval")
        else Ok (approval, typed, status).

Definition create_deployment (w : request_world) (environment : N) (input : CreateDeployment) (l : ledger) (d : delivery) : result Deployment ApiError * delivery :=
  let d0 := rw_others w 0 d in
  let d1 := rw_others w 1 d0 in
  let d2 := rw_others w 2 d1 in
  match admit_deployment environment input l d0 d1 with
  | Err e => (Err e, d2)
  | Ok (approval, typed, status) =>
    match insert_deployment (rw_id w) (new_deployment environment (cd_pipeline input) None (trim (cd_git_ref input)) status (rw_now w)) d2 with
    | Err _ => (Err internal, d2)
    | Ok d2' =>
      match commit_to (rw_commit w 0%nat) tt d2 d2' with
      | (Err e, d3) => (Err e, d3)
      | (Ok _, d3) =>
        let started :=
          if typed && negb approval then start_deployment_pipeline (rw_commit w 1%nat) (rw_created w) (rw_id w) (rw_others w 3 d3)
          else (Ok 0%N, d3) in
        match started with
        | (Err e, d4) => (Err e, d4)
        | (Ok _, d4) =>
          let d5 := rw_others w 4 d4 in
          (let? _ := rw_audit w in fetch_deployment (rw_id w) d5, d5)
        end
      end
    end
  end.

(** ** Approvals *)

(** [claims] is the text of the user's identifier. *)
Definition approval_actor (raw claims : option str) : result str ApiError :=
  let actor :=
    match claims with
    | Some id => id
    | None => match (r ← raw; let v := trim r in if is_empty v then None else Some v) with Some v => v | None => §"trusted-network" end
    end in
  if 128 <? len actor then Err (bad_request §"approval actor is too long") else Ok actor.

Definition by_actor (deployment : N) (actor : str) (_ : N) (a : approval_row) : bool := (ap_deployment a =? deployment)%N && str_eqb (ap_actor a) actor.

(** The transaction of [record_approval_decision], up to its commit: whether
    the pipeline has to be started. *)
Definition decide_tx (id : N) (now : Z) (deployment : N) (decision : Decision) (actor : str) (comment : option str) (d : delivery) :
    result (bool * delivery) ApiError :=
  let? r := ok_or (deployments d !! deployment) not_found in
  let? e := ok_or (environments d !! dp_environment r) not_found in
  if negb (requires_approval (policy_of e)) then Err (bad_request §"deployment does not require environment approval")
  else if negb (bool_decide (dp_status r = DeploymentPending)) || is_some (dp_pipeline r) then Err (conflict_error §"deployment is not pending approval")
  else if exists_row (by_actor deployment actor) (approvals d) then Err (conflict_error §"actor already recorded a deployment approval decision")
  else
    let approved := decision_count deployment Approve d in
    if (0 <? decision_count deployment Reject d) || (en_required e <=? approved) then Err (conflict_error §"deployment approval is already decided")
    else
      let row := {| ap_deployment := deployment; ap_decision := decision; ap_actor := actor; ap_comment := comment; ap_created_at := now |} in
      let? t := or_internal (insert_row id row (approvals d)) in
      let d' := set_approvals t d in
      let start := bool_decide (decision = Approve) && (en_required e <=? approved + 1) in
      let d'' :=
        if bool_decide (decision = Reject)
        then set_deployments (update_where (fun k r => (k =? deployment)%N && bool_decide (dp_status r = DeploymentPending)) (set_deployment_status DeploymentFailed)
                                (deployments d')) d'
        else d' in
      Ok (start, d'').

Record RecordDeploymentApproval : Type := { ra_decision : str; ra_actor : option str; ra_comment : option str }.

Definition record_deployment_approval (w : request_world) (claims : option str) (deployment : N) (input : RecordDeploymentApproval) (d : delivery) :
    result Deployment ApiError * delivery :=
  let checked :=
    let? decision := normalize_approval_decision (ra_decision input) in
    let? actor := approval_actor (ra_actor input) claims in
    let comment := trim_optional (ra_comment input) in
    if match comment with Some v => 1000 <? len v | None => false end then Err (bad_request §"approval comment is too long")
    else Ok (decision, actor, comment) in
  match checked with
  | Err e => (Err e, d)
  | Ok (decision, actor, comment) =>
    let d0 := rw_others w 0 d in
    match decide_tx (rw_id w) (rw_now w) deployment decision actor comment d0 with
    | Err e => (Err e, d0)
    | Ok (start, d0') =>
      match commit_to (rw_commit w 0%nat) tt d0 d0' with
      | (Err e, d1) => (Err e, d1)
      | (Ok _, d1) =>
        match rw_audit w with
        | Err e => (Err e, d1)
        | Ok _ =>
          let started := if start then start_deployment_pipeline (rw_commit w 1%nat) (rw_created w) deployment (rw_others w 1 d1) else (Ok 0%N, d1) in
          match started with
          | (Err e, d2) => (Err e, d2)
          | (Ok _, d2) => let d3 := rw_others w 2 d2 in (fetch_deployment deployment d3, d3)
          end
        end
      end
    end
  end.

(** ** Rollbacks *)

(** The reference a rollback deploys. *)
Definition rollback_ref (r : deployment_row) (requested : option str) : result str ApiError :=
  let chosen := match (v ← requested; let v := trim v in if is_empty v then None else Some v) with Some v => v | None => dp_git_ref r end in
  match dp_input r with
  | None => Ok chosen
  | Some value =>
    let? snapshot := ok_or (from_value value) (conflict_error §"Rollback deployment snapshot is invalid") in
    let? receipt := ok_or (dp_receipt r) (conflict_error §"Rollback live receipt missing") in
    let? observed := ok_or (from_value receipt) (conflict_error §"Rollback live receipt is invalid") in
    if negb (DeploymentObservation_validates observed snapshot) || negb (str_eqb (ob_phase observed) §"deployed")
       || match requested with Some v => negb (str_eqb (trim v) (of_source_commit snapshot)) | None => false end
    then Err (conflict_error §"Kubernetes rollback requires the exact qualified source and image snapshot")
    else Ok (of_source_commit snapshot)
  end.

(** The row of the rollback, and whether it waits for approval. *)
Definition admit_rollback (deployment : N) (requested : option str) (now : Z) (d : delivery) : result (deployment_row * bool) ApiError :=
  let? r := ok_or (deployments d !! deployment) not_found in
  let? e := ok_or (environments d !! dp_environment r) not_found in
  if negb (bool_decide (dp_status r = DeploymentSuccess)) then Err (conflict_error §"only successful deployments can be rollback targets")
  else
    let? git_ref := rollback_ref r requested in
    Ok (new_deployment (dp_environment r) None (Some deployment) git_ref DeploymentPending now, requires_approval (policy_of e)).

Definition rollback_deployment (w : request_world) (deployment : N) (requested : option str) (d : delivery) : result Deployment ApiError * delivery :=
  let d0 := rw_others w 0 d in
  match admit_rollback deployment requested (rw_now w) d0 with
  | Err e => (Err e, d0)
  | Ok (row, approval) =>
    let d1 := rw_others w 1 d0 in
    match insert_deployment (rw_id w) row d1 with
    | Err _ => (Err internal, d1)
    | Ok d1' =>
      match commit_to (rw_commit w 0%nat) tt d1 d1' with
      | (Err e, d2) => (Err e, d2)
      | (Ok _, d2) =>
        let started := if approval then (Ok 0%N, d2) else start_deployment_pipeline (rw_commit w 1%nat) (rw_created w) (rw_id w) (rw_others w 2 d2) in
        match started with
        | (Err e, d3) => (Err e, d3)
        | (Ok _, d3) => let d4 := rw_others w 3 d3 in (let? _ := rw_audit w in fetch_deployment (rw_id w) d4, d4)
        end
      end
    end
  end.

(** ** Reconciliation *)

(** The columns of pipelines that the ledger leaves out, with the sources of
    the triggers of a pipeline. *)
Record pipeline_facts : Type := {
  pf_git_ref : str;
  (** [variables->>'deployment_id'] *)
  pf_deployment : option str;
  (** [delivery_order] *)
  pf_order : Z;
  pf_sources : list str }.

(** [t.source IN ('deployment-approval','deployment-rollback')] *)
Definition deployment_source (f : pipeline_facts) : bool :=
  existsb (fun s => str_eqb s §"deployment-approval" || str_eqb s §"deployment-rollback") (pf_sources f).

Section reconcile.
Context `{UuidText}.

(** The pipeline was triggered for this deployment. *)
Definition triggered_for (deployment : N) (f : pipeline_facts) : bool :=
  bool_decide (pf_deployment f = Some (uuid_text deployment)) && deployment_source f.

(** An active lease on a live attempt. *)
Definition executing (now : Z) (l : ledger) (r : deployment_row) : bool :=
  exists_row (fun _ x => bool_decide (Some (le_attempt x) = dp_attempt r) && lease_active x && (now <? le_expires_at x)
                         && match attempts l !! le_attempt x with Some a => live (at_status a) | None => false end) (leases l).

Definition hold_lost (now : Z) (l : ledger) (d : delivery) : delivery :=
  set_deployments
    (update_where (fun _ r => match dp_phase r with Some (Prepared | PhaseRunning) => negb (executing now l r) | _ => false end)
       (fun r => set_runtime (dp_pipeline r) (dp_status r) (dp_attempt r) (Some Held) (dp_input r) (dp_receipt r) r) (deployments d)) d.

(** The status a pipeline gives to a deployment that follows it. *)
Definition followed_status (l : ledger) (facts : gmap N pipeline_facts) (d : delivery) (k : N) (r : deployment_row) : option DeploymentStatus :=
  e ← environments d !! dp_environment r;
  p ← dp_pipeline r;
  row ← pipelines (core l) !! p;
  f ← facts !! p;
  let status := deployment_status_from_pipeline (pipeline_status row) in
  if (project_id row =? en_project e)%N && (bool_decide (dp_status r = DeploymentPending) || bool_decide (dp_status r = DeploymentRunning))
     && is_none (dp_phase r) && negb (bool_decide (dp_status r = status)) && triggered_for k f
  then Some status else None.

Definition oldest_first (x y : N * deployment_row) : Prop :=
  dp_created_at x.2 < dp_created_at y.2 \/ dp_created_at x.2 = dp_created_at y.2 /\ (x.1 <= y.1)%N.
#[export] Instance oldest_first_dec : RelDecision oldest_first.
Proof. intros x y. unfold oldest_first. apply _. Defined.

(** [FOR UPDATE SKIP LOCKED] passes over [locked] rows. *)
Definition follow_pipelines (locked : N -> bool) (l : ledger) (facts : gmap N pipeline_facts) (d : delivery) : nat * delivery :=
  let candidates := take 100 (merge_sort oldest_first
    (select (fun k r => is_some (followed_status l facts d k r) && negb (locked k)) (deployments d))) in
  (length candidates,
   set_deployments
     (update_from (fun k r => if existsb (fun kv => (kv.1 =? k)%N) candidates then followed_status l facts d k r else None) set_deployment_status
        (deployments d)) d).

(** [reconcile_deployment_results]; others work between its statements, which
    read the ledger at [l] and [l']. *)
Definition reconcile_deployment_results (now : Z) (locked : N -> bool) (others : delivery -> delivery) (l l' : ledger) (facts : gmap N pipeline_facts)
    (d : delivery) : nat * delivery :=
  follow_pipelines locked l' facts (others (hold_lost now l d)).
End reconcile.
