(* ===== verification/DeploymentRuntime.v ===== *)
(** * Typed deployments: [backend/src/deployment_runtime.rs]

    What a claim offers to a runner that deploys to Kubernetes, and what its
    completion records.  Both run inside a transaction on the lease. *)
From S2P Require Import Prelude Url Artifacts Images Table Status Ledger Helm Outbox Api Runners Uploads Deployments.
Local Open Scope Z_scope.

(** ** Development workspaces *)

(** What the queries on a development workspace answer: its row, whether an
    operation blocks it, who owns its session, and whether the commit is
    prepared. *)
Record workspace_view : Type := {
  wv_desired : str; wv_runtime : str; wv_environment_hash : str; wv_blocked : bool; wv_session_owner : bool; wv_human_owner : bool;
  wv_prepared : bool }.

Definition workspace_admission (config_source : option str) (w : workspace_view) : result unit ApiError :=
  if negb (str_eqb (wv_desired w) §"running") || negb (str_eqb (wv_runtime w) §"running")
  then Err (conflict_error §"workspace_must_be_running_for_delivery")
  else if wv_blocked w then Err (conflict_error §"workspace_operation_blocks_delivery")
  else
    let of_development := match config_source with Some s => str_eqb s §"development_workspace" | None => false end in
    let owner :=
      if of_development then wv_session_owner w
      else match config_source with Some s => str_eqb s §"repository" && wv_human_owner w | None => false end in
    if negb owner then Err (conflict_error §"workspace_delivery_requires_session_owner")
    else if of_development && negb (wv_prepared w) then Err (conflict_error §"workspace_selected_source_not_prepared")
    else Ok tt.

(** ** Preparation *)

(** The other tables: pipelines with their triggers, names of jobs, artifacts
    with their age, and the directory of the artifacts. *)
Record ci_view : Type := {
  cv_ledger : ledger;
  cv_facts : gmap N pipeline_facts;
  cv_job_names : gmap N str;
  cv_artifacts : store;
  cv_artifact_created : N -> Z;
  cv_contained : str -> bool }.

(** The execution a lease stands for. *)
Record execution : Type := {
  ex_pipeline : N; ex_job : N; ex_job_key : str; ex_attempt : N; ex_lease : N; ex_generation : Z; ex_commit : str; ex_plan : json }.

Section runtime.
Context `{UrlCrate} `{UuidText} (sha256_hex : list N -> str).
(** The readers derived for publications, the hash of a target, and
    [from_slice] for the artifact of a publication. *)
Context (read_publish : json -> option ImagePublishSpec) (read_published : list N -> option PublishedImage)
        (request_hash : stored KubernetesTarget -> result str ApiError).

Definition conflicting {A} (r : result A str) : result A ApiError := match r with Ok a => Ok a | Err m => Err (conflict_error m) end.

(** [SELECT .. FROM artifacts .. ORDER BY created_at DESC, id DESC LIMIT 1] *)
Definition latest_artifact (created : N -> Z) (now : Z) (job attempt : N) (name : str) (s : store) : option artifact_row :=
  snd <$> head (merge_sort (fun x y : N * artifact_row => created y.1 < created x.1 \/ created x.1 = created y.1 /\ (y.1 <= x.1)%N)
    (select (fun _ a => (ar_job a =? job)%N && (ar_attempt a =? attempt)%N && str_eqb (ar_name a) name && is_none (ar_purged_at a) && (now <? ar_expires_at a))
       (artifacts s))).

Definition artifact (now : Z) (v : ci_view) (job attempt : N) (name : str) : result (list N) ApiError :=
  let? a := ok_or (latest_artifact (cv_artifact_created v) now job attempt (artifact_name_from_declared_path name) (cv_artifacts v))
              (conflict_error §"Required deployment artifact missing") in
  if negb (in_range 1 1048576 (ar_size a)) then Err (conflict_error §"Deployment artifact exceeds bound")
  else if negb (cv_contained v (ar_storage_path a)) then Err not_found
  else
    let? data := ok_or (files (cv_artifacts v) !! ar_storage_path a) (conflict_error §"Deployment artifact unavailable") in
    if negb (zlen data =? ar_size a) then Err (conflict_error §"Deployment artifact size differs")
    else if negb (bool_decide (ar_sha256 a = Some (sha256_hex data))) then Err (conflict_error §"Deployment artifact checksum differs")
    else Ok data.

(** The last successful attempt of the job that published an image. *)
Definition producer (v : ci_view) (pipeline : N) (name : str) : option (N * N) :=
  kv ← select_max at_no
    (fun _ a => bool_decide (at_status a = Success)
                && match jobs (core (cv_ledger v)) !! at_job a with
                   | Some j => bool_decide (job_status j = Success) && bool_decide (cv_job_names v !! at_job a = Some name)
                               && match stages (core (cv_ledger v)) !! job_stage j with Some s => (stage_pipeline s =? pipeline)%N | None => false end
                   | None => false
                   end) (attempts (cv_ledger v));
  Some (at_job kv.2, kv.1).

(** [needs.iter().any(|v| v.as_str() == Some(job))] *)
Definition needs_job (entry : json) (job : str) : bool :=
  match as_array (json_index entry §"needs") with Some items => existsb (fun v => is_text v job) items | None => false end.

(** One image of a deployment: the publication of its producer. *)
Definition bound_image (now : Z) (v : ci_view) (x : execution) (binding : ImageBinding) : result PublishedImage ApiError :=
  let? entry := ok_or (plan_entry (ex_plan x) (bd_job binding)) (conflict_error §"Publication producer absent from immutable plan") in
  let? build := ok_or (read_publish (json_index entry §"image_publish")) (conflict_error §"Deployment image is not a typed publication") in
  let? _ := conflicting (ImagePublishSpec_validate build) in
  let? current := ok_or (plan_entry (ex_plan x) (ex_job_key x)) (conflict_error §"Deployment job absent from immutable plan") in
  if negb (str_eqb (bd_artifact binding) (ip_published_artifact build)) || negb (needs_job current (bd_job binding))
  then Err (conflict_error §"Deployment image binding differs from its required producer")
  else
    let? made := ok_or (producer v (ex_pipeline x) (bd_job binding)) (conflict_error §"Publication producer is not successful") in
    let? published_bytes := artifact now v made.1 made.2 (bd_artifact binding) in
    let? descriptor := artifact now v made.1 made.2 (ip_descriptor_artifact build) in
    let? published := ok_or (read_published published_bytes) (conflict_error §"Invalid publication artifact") in
    if negb (PublishedImage_binds published (ex_commit x) (sha256_hex descriptor))
       || negb (bool_decide (fst <$> split_once §"@" (pi_image_ref published) = Some (ip_repository build)))
    then Err (conflict_error §"Published image does not bind this pipeline commit and descriptor")
    else Ok published.

Definition add_image (now : Z) (v : ci_view) (x : execution) (images : gmap str PublishedImage) (b : str * ImageBinding) : result (gmap str PublishedImage) ApiError :=
  let? published := bound_image now v x b.2 in Ok (<[b.1 := published]> images).

(** The operation a pipeline was triggered for, with its row. *)
Definition requested_operation (v : ci_view) (pipeline environment : N) (d : delivery) : option (N * deployment_row) :=
  f ← cv_facts v !! pipeline;
  head (select (fun k r => triggered_for k f && (dp_environment r =? environment)%N
                           && match dp_pipeline r with Some p => (p =? pipeline)%N | None => true end) (deployments d)).

(** The numbers in a finished row that touched the cluster. *)
Definition applied (environment : N) (_ : N) (r : deployment_row) : bool :=
  (dp_environment r =? environment)%N && bool_decide (dp_phase r = Some Finished)
  && match dp_receipt r with Some (Readable o) => str_eqb (ob_phase o) §"deployed" || str_eqb (ob_phase o) §"failed" | _ => false end.
Definition order_of (r : deployment_row) : Z := match dp_input r with Some (Readable o) => of_pipeline_order o | _ => 0 end.
Definition revision_of (r : deployment_row) : Z := match dp_receipt r with Some (Readable o) => default 0 (ob_release_revision o) | _ => 0 end.

(** The images of a rollback, and the release it goes back to. *)
Definition rollback_images (source : N) (current_revision : Z) (target : KubernetesTarget) (spec : HelmDeploySpec) (x : execution) (d : delivery) :
    result (gmap str PublishedImage * option RollbackRelease) ApiError :=
  let? r := ok_or (r ← deployments d !! source;
                   if (dp_environment r =? hd_environment_id spec)%N && bool_decide (dp_status r = DeploymentSuccess) && bool_decide (dp_phase r = Some Finished)
                   then Some r else None)
              (conflict_error §"Qualified rollback snapshot missing") in
  let? input := ok_or (dp_input r) internal in
  let? receipt := ok_or (dp_receipt r) internal in
  let? previous := ok_or (from_value input) (conflict_error §"Invalid rollback input snapshot") in
  let? observed := ok_or (from_value receipt) (conflict_error §"Invalid rollback live observation") in
  let? _ := conflicting (DeploymentOffer_validate previous) in
  if negb (DeploymentObservation_validates observed previous) || negb (str_eqb (ob_phase observed) §"deployed")
     || negb (str_eqb (of_source_commit previous) (ex_commit x))
     || negb (str_eqb (kt_cluster (of_target previous)) (kt_cluster target))
     || negb (str_eqb (kt_namespace (of_target previous)) (kt_namespace target))
     || negb (str_eqb (kt_release (of_target previous)) (kt_release target))
     || negb (bool_decide (keys (of_images previous) = keys (hd_images spec)))
  then Err (conflict_error §"Rollback must retain the qualified source, target and image set")
  else
    let? revision := ok_or (ob_release_revision observed) (conflict_error §"Rollback revision missing") in
    Ok (of_images previous,
        Some {| rb_revision := revision; rb_expected_current_revision := current_revision; rb_metadata := ReleaseMetadata_installed previous |}).

Definition chosen_images (now : Z) (v : ci_view) (requested : option (N * deployment_row)) (current_revision : Z) (target : KubernetesTarget) (spec : HelmDeploySpec)
    (x : execution) (d : delivery) : result (gmap str PublishedImage * option RollbackRelease) ApiError :=
  match kv ← requested; dp_rollback_of kv.2 with
  | Some source => rollback_images source current_revision target spec x d
  | None => let? images := rfold (add_image now v x) ∅ (bindings (hd_images spec)) in Ok (images, None)
  end.

(** Enough approvals and no rejection, of an operation that exists. *)
Definition approved (environment : EnvironmentPolicy) (requested : option (N * deployment_row)) (d : delivery) : result unit ApiError :=
  if requires_approval environment then
    let? id := ok_or (fst <$> requested) (conflict_error §"Protected deployment has no approved operation") in
    if (po_required environment <=? decision_count id Approve d) && (decision_count id Reject d =? 0) then Ok tt
    else Err (conflict_error §"Deployment approval is incomplete")
  else Ok tt.

(** The row of an offer: the operation's when it was not executed yet, or a
    new one. *)
Definition record_offer (id : N) (now : Z) (requested : option (N * deployment_row)) (git_ref : str) (x : execution) (offer : DeploymentOffer) (d : delivery) :
    result delivery db_error :=
  match requested with
  | Some (k, r) =>
    if is_none (dp_attempt r) then
      let? t := put k (set_runtime (Some (ex_pipeline x)) DeploymentRunning (Some (ex_attempt x)) (Some Prepared) (Some (Readable offer)) (dp_receipt r) r)
                  (deployments d) in
      Ok (set_deployments t d)
    else insert_deployment id (set_runtime (Some (ex_pipeline x)) DeploymentRunning (Some (ex_attempt x)) (Some Prepared) (Some (Readable offer)) None
                                 (new_deployment (of_environment_id offer) (Some (ex_pipeline x)) (dp_rollback_of r) git_ref DeploymentRunning now)) d
  | None => insert_deployment id (set_runtime (Some (ex_pipeline x)) DeploymentRunning (Some (ex_attempt x)) (Some Prepared) (Some (Readable offer)) None
                                    (new_deployment (of_environment_id offer) (Some (ex_pipeline x)) None git_ref DeploymentRunning now)) d
  end.

(** [prepare]: nothing when a newer pipeline was applied already. *)
Definition prepare (now : Z) (v : ci_view) (workspace : option workspace_view) (fresh : N) (x : execution) (spec : HelmDeploySpec) (d : delivery) :
    result (option DeploymentOffer * delivery) ApiError :=
  let? _ := conflicting (HelmDeploySpec_validate spec) in
  let? _ := match workspace with Some w => workspace_admission (as_text (json_index (ex_plan x) §"config_source")) w | None => Ok tt end in
  let environment := hd_environment_id spec in
  let? found := ok_or (e ← environments d !! environment; p ← pipelines (core (cv_ledger v)) !! ex_pipeline x;
                       if (project_id p =? en_project e)%N then Some e else None) (conflict_error §"Environment belongs to another CI project") in
  let? _ :=
    match workspace with
    | Some w =>
      let? value := ok_or (en_target found) (conflict_error §"workspace_environment_target_required") in
      let? observed := request_hash value in
      if str_eqb (wv_environment_hash w) observed then Ok tt else Err (conflict_error §"workspace_environment_target_drift")
    | None => Ok tt
    end in
  let? value := ok_or (en_target found) (conflict_error §"Environment has no Kubernetes target") in
  let? target := ok_or (from_value value) (conflict_error §"Invalid Kubernetes environment") in
  let? _ := conflicting (KubernetesTarget_validate target) in
  let requested := requested_operation v (ex_pipeline x) environment d in
  let? _ := approved (policy_of found) requested d in
  if exists_row (fun _ r => (dp_environment r =? environment)%N && unresolved r) (deployments d)
  then Err (conflict_error §"Environment already has an unresolved deployment")
  else
    let? f := ok_or (cv_facts v !! ex_pipeline x) internal in
    if pf_order f <? max_of order_of (applied environment) (deployments d) then Ok (None, d)
    else
      let? images := chosen_images now v requested (max_of revision_of (applied environment) (deployments d)) target spec x d in
      let id := match requested with Some (k, r) => if is_none (dp_attempt r) then k else fresh | None => fresh end in
      let offer := {| of_environment_id := environment; of_deployment_id := id; of_pipeline_id := ex_pipeline x; of_job_id := ex_job x;
                      of_attempt_id := ex_attempt x; of_lease_id := ex_lease x; of_generation := ex_generation x; of_source_commit := ex_commit x;
                      of_pipeline_order := pf_order f; of_target := target; of_images := images.1; of_receipt_artifact := hd_receipt_artifact spec;
                      of_rollback := images.2 |} in
      let? _ := conflicting (DeploymentOffer_validate offer) in
      let? d' := or_internal (record_offer id now requested (pf_git_ref f) x offer d) in
      Ok (Some offer, d').

(** ** Completion *)

Definition finished_status (outcome : JobStatus) : DeploymentStatus := match outcome with Success => DeploymentSuccess | _ => DeploymentFailed end.

(** The environment's status after an observation. *)
Definition observed_status (phase : str) : option EnvironmentStatus :=
  if str_eqb phase §"deployed" then Some Available else if str_eqb phase §"failed" then Some Degraded else None.

Definition set_environment_status (status : EnvironmentStatus) (r : environment_row) : environment_row :=
  {| en_project := en_project r; en_name := en_name r; en_url := en_url r; en_status := status; en_protected := en_protected r;
     en_required := en_required r; en_target := en_target r; en_created_at := en_created_at r |}.

(** [finish]; [outcome] is the status the completion gives to the job. *)
Definition finish (attempt lease : N) (generation : Z) (outcome : JobStatus) (observation : option DeploymentObservation) (d : delivery) :
    result delivery ApiError :=
  match head (select (fun _ r => bool_decide (dp_attempt r = Some attempt)) (deployments d)) with
  | None => if is_some observation then Err (conflict_error §"Observation has no deployment owner") else Ok d
  | Some (id, r) =>
    let? input := ok_or (dp_input r) internal in
    let? offer := ok_or (from_value input) (conflict_error §"Retained deployment input invalid") in
    let? _ := conflicting (DeploymentOffer_validate offer) in
    match observation with
    | None => Err (conflict_error §"Deployment completion differs from its execution custody or live receipt")
    | Some o =>
      if negb (of_attempt_id offer =? attempt)%N || negb (of_lease_id offer =? lease)%N || negb (of_generation offer =? generation)
         || negb (DeploymentObservation_validates o offer) || (bool_decide (outcome = Success) && negb (str_eqb (ob_phase o) §"deployed"))
      then Err (conflict_error §"Deployment completion differs from its execution custody or live receipt")
      else
        let d1 := set_deployments (<[id := set_runtime (dp_pipeline r) (finished_status outcome) (dp_attempt r) (Some Finished) (dp_input r)
                                             (Some (Readable o)) r]> (deployments d)) d in
        Ok (match observed_status (ob_phase o) with
            | Some s => set_environments (update_where (fun k _ => (k =? dp_environment r)%N) (set_environment_status s) (environments d1)) d1
            | None => d1
            end)
    end
  end.
End runtime.
