(* ===== verification/DeploymentSafety.v ===== *)
(** * Deployments: steps and their invariant *)
From S2P Require Import Prelude Url Images Table Status Ledger LedgerHandlers LedgerSafety LedgerTheorems Helm Outbox Api Runners Uploads Deployments DeploymentRuntime.
Local Open Scope Z_scope.

(** ** Rows *)

Section rows.
Context `{UrlCrate}.

(** What a phase says of a row: which offer it executes, and what was observed. *)
Record typed_row (id : N) (r : deployment_row) (phase : RuntimePhase) (o : DeploymentOffer) : Prop := {
  tr_input : dp_input r = Some (Readable o);
  tr_valid : DeploymentOffer_validate o = Ok tt;
  tr_id : of_deployment_id o = id;
  tr_environment : of_environment_id o = dp_environment r;
  tr_attempt : dp_attempt r = Some (of_attempt_id o);
  tr_pipeline : dp_pipeline r = Some (of_pipeline_id o);
  tr_end :
    match phase with
    | Finished =>
      exists ob, dp_receipt r = Some (Readable ob) /\ DeploymentObservation_validates ob o = true /\
        (dp_status r = DeploymentSuccess /\ ob_phase ob = §"deployed" \/ dp_status r = DeploymentFailed)
    | _ => dp_receipt r = None /\ dp_status r = DeploymentRunning
    end }.

Definition row_ok (id : N) (r : deployment_row) : Prop :=
  match dp_phase r with
  | None => dp_attempt r = None /\ dp_input r = None /\ dp_receipt r = None
  | Some phase => exists o, typed_row id r phase o
  end.

Record delivery_ok (d : delivery) : Prop := {
  do_environments : valid_table (environments d);
  do_deployments : valid_table (deployments d);
  do_approvals : valid_table (approvals d);
  do_row : forall id r, deployments d !! id = Some r -> row_ok id r;
  do_environment_of : forall id r, deployments d !! id = Some r -> is_Some (environments d !! dp_environment r);
  do_deployment_of : forall k a, approvals d !! k = Some a -> is_Some (deployments d !! ap_deployment a) }.

(** What later statements may do to a row: an execution keeps all it has, and
    only an unfinished one may be held. *)
Record row_follows (r r' : deployment_row) : Prop := {
  rf_environment : dp_environment r' = dp_environment r;
  rf_git_ref : dp_git_ref r' = dp_git_ref r;
  rf_runtime : forall phase, dp_phase r = Some phase ->
    dp_pipeline r' = dp_pipeline r /\ dp_status r' = dp_status r /\ dp_attempt r' = dp_attempt r /\ dp_input r' = dp_input r /\
    dp_receipt r' = dp_receipt r /\ (dp_phase r' = Some phase \/ phase <> Finished /\ dp_phase r' = Some Held) }.

Lemma row_follows_refl r : row_follows r r.
Proof. split; [done|done|]. intros phase Hp. rewrite Hp. tauto. Qed.

(** The rows of [d] in [d']: they follow, or went with their environment. *)
Definition rows_follow (d d' : delivery) : Prop := forall id r, deployments d !! id = Some r ->
  (exists r', deployments d' !! id = Some r' /\ row_follows r r') \/
  deployments d' !! id = None /\ environments d' !! dp_environment r = None.

Lemma rows_follow_same d d' : deployments d' = deployments d -> rows_follow d d'.
Proof. intros E id r Hr. left. exists r. rewrite E. split; [done|apply row_follows_refl]. Qed.

Lemma pending_no_phase id r : row_ok id r -> dp_status r = DeploymentPending -> dp_phase r = None.
Proof.
  unfold row_ok. destruct (dp_phase r) as [phase|]; [|done]. intros (o & Ho) Es. exfalso. pose proof (tr_end _ _ _ _ Ho) as He.
  destruct phase; try (destruct He as [_ He]; congruence). destruct He as (ob & _ & _ & [[He _]|He]); congruence.
Qed.
End rows.

(** ** Steps *)

Section steps.
Context `{UrlCrate} `{UuidText} (sha256_hex : list N -> str).
Context (read_publish : json -> option ImagePublishSpec) (read_published : list N -> option PublishedImage)
        (request_hash : stored KubernetesTarget -> result str ApiError).

(** The statements on deployments that a completion does not make. *)
Inductive delivery_step (d : delivery) : delivery -> Prop :=
| ds_create_environment c id now project input l : delivery_step d (create_environment c id now project input l d).2
| ds_update_environment c id input d0 : delivery_step d (update_environment c id input d0 d).2
| ds_delete_environment c id retained : delivery_step d (delete_environment c id retained d).2
| ds_insert id environment pipeline rollback_of git_ref status now d' :
    insert_deployment id (new_deployment environment pipeline rollback_of git_ref status now) d = Ok d' -> delivery_step d d'
| ds_attach deployment pipeline status : delivery_step d (attach_pipeline deployment pipeline status d)
| ds_decide id now deployment decision actor comment start d' :
    decide_tx id now deployment decision actor comment d = Ok (start, d') -> delivery_step d d'
| ds_hold now l : delivery_step d (hold_lost now l d)
| ds_follow locked l facts : delivery_step d (follow_pipelines locked l facts d).2
| ds_prepare now v workspace fresh x spec offer d' :
    prepare sha256_hex read_publish read_published request_hash now v workspace fresh x spec d = Ok (offer, d') -> delivery_step d d'.

(** No execution ends by itself. *)
Definition ended_before (d d' : delivery) : Prop := forall id r', deployments d' !! id = Some r' -> dp_phase r' = Some Finished ->
  exists r, deployments d !! id = Some r /\ dp_phase r = Some Finished.

Definition kept (d d' : delivery) : Prop := delivery_ok d' /\ rows_follow d d' /\ ended_before d d'.

Lemma kept_same d d' : delivery_ok d' -> deployments d' = deployments d -> kept d d'.
Proof.
  intros Hd E. split; [done|]. split; [by apply rows_follow_same|]. intros id r' Hr' Hp. exists r'. by rewrite <- E.
Qed.

Lemma unchanged_kept d : delivery_ok d -> kept d d.
Proof. intros Hd. by apply kept_same. Qed.

(** *** Environments *)

Lemma put_environment_ok id e t d :
  delivery_ok d -> put id e (environments d) = Ok t -> kept d (set_environments t d).
Proof.
  intros Hd Hp. apply kept_same; [|done]. pose proof (put_valid _ _ _ _ (do_environments _ Hd) Hp) as Hv.
  apply put_Ok in Hp as (-> & _). split; try apply Hd; [exact Hv|]. cbn. intros k r Hk. destruct (do_environment_of _ Hd k r Hk) as [e' He].
  destruct (decide (id = dp_environment r)) as [->|Hne]; [rewrite lookup_insert_eq|rewrite lookup_insert_ne by done]; by eexists.
Qed.

Lemma insert_put `{Schema V} k (v : V) t t' : insert_row k v t = Ok t' -> put k v t = Ok t'.
Proof. unfold insert_row. by destruct (t !! k). Qed.

Lemma committed_state {A S} (P : S -> Prop) c (a : A) s s' : P s -> P s' -> P (commit_to c a s s').2.
Proof. destruct c as [|e [|]]; done. Qed.

Lemma create_environment_kept c id now project input l d : delivery_ok d -> kept d (create_environment c id now project input l d).2.
Proof.
  intros Hd. unfold create_environment. destruct (if is_empty _ then _ else _) as [row|e]; [|by apply unchanged_kept].
  destruct (ok_or (max_running_jobs l !! project) ForeignKeyViolation); cbn [rbind]; [|by apply unchanged_kept].
  destruct (insert_row id row (environments d)) as [t|] eqn:E; [|by apply unchanged_kept]. apply committed_state; [by apply unchanged_kept|].
  apply insert_put in E. by eapply put_environment_ok.
Qed.

Lemma update_environment_kept c id input d0 d : delivery_ok d -> kept d (update_environment c id input d0 d).2.
Proof.
  intros Hd. unfold update_environment. cbv zeta. match goal with |- context [match ?x with Ok _ => _ | Err _ => _ end] => destruct x as [update|e] end; [|by apply unchanged_kept].
  destruct (environments d !! id) as [r|]; [|by apply unchanged_kept]. destruct (put id (update r) (environments d)) as [t|] eqn:E; [|by apply unchanged_kept].
  apply committed_state; [by apply unchanged_kept|by eapply put_environment_ok].
Qed.

Lemma forget_rollback_follows gone r : row_follows r (forget_rollback gone r).
Proof. split; [done|done|]. intros phase Hp. cbn. tauto. Qed.

Lemma forget_rollback_ok gone id r : row_ok id r -> row_ok id (forget_rollback gone r).
Proof. unfold row_ok. cbn. destruct (dp_phase r); [|done]. intros (o & []). by exists o. Qed.

Lemma removed_deployment id d k r' : deployments (remove_environment id d) !! k = Some r' <->
  exists r, deployments d !! k = Some r /\ dp_environment r <> id /\ r' = forget_rollback (deployments_of id d) r.
Proof.
  cbn. rewrite lookup_fmap, fmap_Some. split.
  - intros (r & [Hr Hne]%map_lookup_filter_Some & ->). by exists r.
  - intros (r & Hr & Hne & ->). exists r. split; [|done]. by apply map_lookup_filter_Some.
Qed.

Lemma remove_environment_kept id d : delivery_ok d -> kept d (remove_environment id d).
Proof.
  intros Hd. assert (Hrows : rows_follow d (remove_environment id d)).
  { intros k r Hr. destruct (decide (dp_environment r = id)) as [E|Hne].
    - right. split; [|rewrite E; apply lookup_delete_eq]. apply eq_None_not_Some. intros (r' & Hr'). apply removed_deployment in Hr' as (r0 & Hr0 & Hn & _). rewrite Hr in Hr0. injection Hr0 as <-. by apply Hn.
    - left. exists (forget_rollback (deployments_of id d) r). split; [apply removed_deployment; by exists r|apply forget_rollback_follows]. }
  split; [|split; [done|]].
  2:{ intros k r' (r & Hr & _ & ->)%removed_deployment Hp. by exists r. }
  split.
  - destruct (do_environments _ Hd) as [Hc Hu]. split; cbn.
    + intros k v [_ Hk]%lookup_delete_Some. by apply (Hc k).
    + intros i j x y Hij [_ Hx]%lookup_delete_Some [_ Hy]%lookup_delete_Some. by apply (Hu i j).
  - destruct (do_deployments _ Hd) as [Hc Hu]. split.
    + intros k r' (r & Hr & _ & ->)%removed_deployment. apply (Hc k r Hr).
    + intros i j x y Hij (r & Hr & _ & ->)%removed_deployment (r2 & Hr2 & _ & ->)%removed_deployment. apply (Hu i j r r2 Hij Hr Hr2).
  - destruct (do_approvals _ Hd) as [Hc Hu]. split; cbn.
    + intros k v [Hk _]%map_lookup_filter_Some. by apply (Hc k).
    + intros i j x y Hij [Hx _]%map_lookup_filter_Some [Hy _]%map_lookup_filter_Some. by apply (Hu i j).
  - intros k r' (r & Hr & _ & ->)%removed_deployment. apply forget_rollback_ok. by apply (do_row _ Hd).
  - intros k r' (r & Hr & Hne & ->)%removed_deployment. cbn. rewrite lookup_delete_ne by done. by apply (do_environment_of _ Hd k).
  - intros k a [Hk Hgone]%map_lookup_filter_Some. destruct (do_deployment_of _ Hd k a Hk) as [r Hr]. cbn in Hgone.
    exists (forget_rollback (deployments_of id d) r). apply removed_deployment. exists r. split; [done|]. split; [|done]. intros E.
    assert (Hin : deployments_of id d !! ap_deployment a = Some r) by (apply map_lookup_filter_Some; by split). congruence.
Qed.

(** *** Rows of deployments *)

Lemma rows_changed t d : delivery_ok d -> valid_table t ->
  (forall id r, deployments d !! id = Some r -> exists r', t !! id = Some r' /\ row_follows r r') ->
  (forall id r', t !! id = Some r' -> row_ok id r' /\ is_Some (environments d !! dp_environment r')) ->
  ended_before d (set_deployments t d) -> kept d (set_deployments t d).
Proof.
  intros Hd Ht Hf Hr Hend. split; [split; cbn; try apply Hd; [done|..]|split; [|done]].
  - intros id r Hk. by apply Hr.
  - intros id r Hk. by apply (Hr id).
  - intros k a Ha. destruct (do_deployment_of _ Hd k a Ha) as [r Hk]. destruct (Hf _ r Hk) as (r' & Hr' & _). by exists r'.
  - intros id r Hk. left. by apply Hf.
Qed.

(** An update that makes no row join an index. *)
Record same_keys (r r' : deployment_row) : Prop := {
  sk_environment : dp_environment r' = dp_environment r;
  sk_git_ref : dp_git_ref r' = dp_git_ref r;
  sk_attempt : dp_attempt r' = dp_attempt r;
  sk_unresolved : unresolved r' = true -> unresolved r = true }.

Lemma same_keys_refl r : same_keys r r.
Proof. by split. Qed.

(** An update of a row that is none of an execution's end. *)
Record harmless (id : N) (r r' : deployment_row) : Prop := {
  hl_keys : same_keys r r';
  hl_follows : row_follows r r';
  hl_ok : row_ok id r';
  hl_ended : dp_phase r' = Some Finished -> dp_phase r = Some Finished }.

Lemma same_keys_valid (t t' : gmap N deployment_row) : valid_table t ->
  (forall id r', t' !! id = Some r' -> exists r, t !! id = Some r /\ same_keys r r') -> valid_table t'.
Proof.
  intros [Hc Hu] Hs. split.
  - intros id r' Hr'. destruct (Hs id r' Hr') as (r & Hr & Hk). specialize (Hc id r Hr). cbn in *. by rewrite (sk_git_ref _ _ Hk).
  - intros i j x y Hij Hx Hy. destruct (Hs i x Hx) as (r & Hr & Hk), (Hs j y Hy) as (r2 & Hr2 & Hk2). specialize (Hu i j r r2 Hij Hr Hr2).
    cbn in *. rewrite (sk_environment _ _ Hk), (sk_environment _ _ Hk2), (sk_attempt _ _ Hk), (sk_attempt _ _ Hk2).
    apply orb_false_iff in Hu as [-> Hu]. cbn. apply not_true_iff_false. intros Ht. rewrite !andb_true_iff in Ht. destruct Ht as [[He H1] H2].
    apply (sk_unresolved _ _ Hk) in H1. apply (sk_unresolved _ _ Hk2) in H2. rewrite He, H1, H2 in Hu. done.
Qed.

Lemma pointwise_kept (f : N -> deployment_row -> deployment_row) t d : delivery_ok d ->
  (forall id, t !! id = f id <$> deployments d !! id) ->
  (forall id r, deployments d !! id = Some r -> harmless id r (f id r)) -> kept d (set_deployments t d).
Proof.
  intros Hd Ht Hf. assert (Hinv : forall id r', t !! id = Some r' -> exists r, deployments d !! id = Some r /\ r' = f id r).
  { intros id r'. rewrite Ht, fmap_Some. done. }
  apply rows_changed; [done| |..].
  - apply (same_keys_valid (deployments d)); [apply Hd|]. intros id r' (r & Hr & ->)%Hinv. exists r. split; [done|by apply Hf].
  - intros id r Hr. exists (f id r). rewrite Ht, Hr. split; [done|by apply Hf].
  - intros id r' (r & Hr & ->)%Hinv. destruct (Hf id r Hr) as [Hk _ Hok _]. split; [done|]. rewrite (sk_environment _ _ Hk). by apply (do_environment_of _ Hd id).
  - intros id r' (r & Hr & ->)%Hinv Hp. exists r. split; [done|]. by apply (Hf id r Hr).
Qed.

(** A row without an execution may get another pipeline and status. *)
Lemma plain_update id pipeline status r : dp_phase r = None -> row_ok id r ->
  harmless id r (set_runtime pipeline status (dp_attempt r) (dp_phase r) (dp_input r) (dp_receipt r) r).
Proof.
  intros Hp Hr. split; [..|done].
  - by split.
  - split; [done|done|]. intros phase E. congruence.
  - unfold row_ok in *. cbn. by rewrite Hp in *.
Qed.

Lemma unchanged id r : row_ok id r -> harmless id r r.
Proof. intros Hr. split; [apply same_keys_refl|apply row_follows_refl|done..]. Qed.

Lemma attach_kept deployment pipeline status d : delivery_ok d -> kept d (attach_pipeline deployment pipeline status d).
Proof.
  intros Hd. unfold attach_pipeline. refine (pointwise_kept _ _ d Hd (fun id => lookup_update_where _ _ _ id) _).
  intros id r Hr. pose proof (do_row _ Hd id r Hr) as Hok. cbn beta. destruct (_ && _) eqn:E; [|by apply unchanged].
  rewrite !andb_true_iff in E. destruct E as [[[_ _] Es%bool_decide_eq_true_1] _]. apply plain_update; [by apply (pending_no_phase id)|done].
Qed.

Lemma hold_kept now l d : delivery_ok d -> kept d (hold_lost now l d).
Proof.
  intros Hd. unfold hold_lost. refine (pointwise_kept _ _ d Hd (fun id => lookup_update_where _ _ _ id) _).
  intros id r Hr. pose proof (do_row _ Hd id r Hr) as Hok. cbn beta. destruct (dp_phase r) as [phase|] eqn:Ep; [|by apply unchanged].
  assert (Hhold : phase = Prepared \/ phase = PhaseRunning ->
    harmless id r (set_runtime (dp_pipeline r) (dp_status r) (dp_attempt r) (Some Held) (dp_input r) (dp_receipt r) r)).
  { intros Hph. split; [..|done].
    - split; [done..|]. intros _. unfold unresolved. rewrite Ep. by destruct Hph as [->| ->].
    - split; [done|done|]. intros ph E. rewrite E in Ep. injection Ep as ->. cbn. split_and!; try done. right. split; [|done]. by destruct Hph as [->| ->].
    - unfold row_ok in *. cbn. rewrite Ep in Hok. destruct Hok as (o & [H1 H2 H3 H4 H5 H6 H7]). exists o. split; try done. by destruct Hph as [->| ->]. }
  destruct phase; try (by apply unchanged); (destruct (negb (executing now l r)); [apply Hhold; auto|by apply unchanged]).
Qed.

Lemma follow_kept locked l facts d : delivery_ok d -> kept d (follow_pipelines locked l facts d).2.
Proof.
  intros Hd. unfold follow_pipelines. cbn [snd]. refine (pointwise_kept _ _ d Hd (fun id => lookup_update_from _ _ _ id) _).
  intros id r Hr. pose proof (do_row _ Hd id r Hr) as Hok. cbn beta. destruct (existsb _ _); [|by apply unchanged].
  destruct (followed_status l facts d id r) as [status|] eqn:E; [|by apply unchanged]. apply plain_update; [|done].
  unfold followed_status in E. destruct (environments d !! dp_environment r); [cbn in E|done]. destruct (dp_pipeline r); [cbn in E|done].
  destruct (pipelines (core l) !! n); [cbn in E|done]. destruct (facts !! n); [cbn in E|done]. destruct (_ && _) eqn:Ec in E; [|done].
  rewrite !andb_true_iff in Ec. destruct Ec as [[[_ Ec] _] _]. by apply is_none_true in Ec.
Qed.

Lemma put_deployment_kept id r t d : delivery_ok d -> row_ok id r -> is_Some (environments d !! dp_environment r) ->
  (forall r0, deployments d !! id = Some r0 -> row_follows r0 r) -> dp_phase r <> Some Finished -> put id r (deployments d) = Ok t -> kept d (set_deployments t d).
Proof.
  intros Hd Hr He Hold Hend Hp. pose proof (put_valid _ _ _ _ (do_deployments _ Hd) Hp) as Hv. apply put_Ok in Hp as (-> & _). apply rows_changed; [done|exact Hv|..].
  - intros k r0 Hk. destruct (decide (k = id)) as [->|Hne]; [exists r; by rewrite lookup_insert_eq; auto|].
    exists r0. rewrite lookup_insert_ne by done. split; [done|apply row_follows_refl].
  - intros k r'. rewrite lookup_insert_Some. intros [[<- <-]|[_ Hk]]; [done|]. split; [by apply (do_row _ Hd)|by apply (do_environment_of _ Hd k)].
  - intros k r'. cbn. rewrite lookup_insert_Some. intros [[<- <-]|[_ Hk]] Hp; [by destruct Hend|by exists r'].
Qed.

Lemma insert_deployment_Ok id r d d' : insert_deployment id r d = Ok d' ->
  exists t, is_Some (environments d !! dp_environment r) /\ insert_row id r (deployments d) = Ok t /\ d' = set_deployments t d.
Proof.
  unfold insert_deployment. intros E. apply rbind_Ok_inv in E as (e & He%ok_or_Ok & E). apply rbind_Ok_inv in E as (u & _ & E).
  apply rbind_Ok_inv in E as (t & Ht & [= <-]). exists t. split; [by eexists|done].
Qed.

Lemma insert_kept id r d d' : delivery_ok d -> row_ok id r -> dp_phase r <> Some Finished -> insert_deployment id r d = Ok d' -> kept d d'.
Proof.
  intros Hd Hr Hend (t & He & Ht & ->)%insert_deployment_Ok. apply (put_deployment_kept id r); [done..| |done|by apply insert_put].
  apply insert_row_Ok in Ht as (Hnone & _). intros r0 Hr0. congruence.
Qed.

Lemma new_deployment_ok id environment pipeline rollback_of git_ref status now : row_ok id (new_deployment environment pipeline rollback_of git_ref status now).
Proof. done. Qed.

(** *** Decisions *)

Lemma delivery_eq (a b : delivery) : environments a = environments b -> deployments a = deployments b -> approvals a = approvals b -> a = b.
Proof. destruct a, b. cbn. congruence. Qed.

(** What a recorded decision implies, and what it changes. *)
Lemma decide_Ok id now deployment decision actor comment d start d' :
  decide_tx id now deployment decision actor comment d = Ok (start, d') ->
  exists r e t,
    deployments d !! deployment = Some r /\ environments d !! dp_environment r = Some e /\ requires_approval (policy_of e) = true /\
    dp_status r = DeploymentPending /\ dp_pipeline r = None /\ decision_count deployment Reject d = 0 /\ decision_count deployment Approve d < en_required e /\
    insert_row id {| ap_deployment := deployment; ap_decision := decision; ap_actor := actor; ap_comment := comment; ap_created_at := now |} (approvals d) = Ok t /\
    approvals d' = t /\ environments d' = environments d /\
    deployments d' = (if bool_decide (decision = Reject) then <[deployment := set_deployment_status DeploymentFailed r]> (deployments d) else deployments d) /\
    start = bool_decide (decision = Approve) && (en_required e <=? decision_count deployment Approve d + 1).
Proof.
  unfold decide_tx. intros E. apply rbind_Ok_inv in E as (r & Hr%ok_or_Ok & E). apply rbind_Ok_inv in E as (e & He%ok_or_Ok & E).
  destruct (requires_approval (policy_of e)) eqn:Erq; cbn [negb] in E; [|done]. destruct (bool_decide_reflect (dp_status r = DeploymentPending)) as [Es|]; [|done].
  cbn [negb orb] in E. destruct (dp_pipeline r) as [p|] eqn:Ep; [done|]. cbn [is_some is_none negb] in E. destruct (exists_row _ _); [done|].
  destruct (_ || _) eqn:Ed in E; [done|]. apply orb_false_iff in Ed as [Ed1%Z.ltb_ge Ed2%Z.leb_gt]. apply rbind_Ok_inv in E as (t & Ht & E).
  unfold or_internal in Ht. destruct (insert_row id _ (approvals d)) as [t0|] eqn:Ei; [|done]. injection Ht as ->. injection E as <- <-.
  exists r, e, t. assert (Hz : 0 <= decision_count deployment Reject d) by (unfold decision_count, zlen; lia).
  split_and!; try done; try lia; try (by destruct decision). destruct decision; cbn; [done|].
  pose proof (update_where_row (fun r => bool_decide (dp_status r = DeploymentPending)) (set_deployment_status DeploymentFailed) (deployments d) deployment r Hr) as Eu.
  cbn beta in Eu. by rewrite Es, bool_decide_true in Eu.
Qed.

Lemma decide_kept id now deployment decision actor comment d start d' :
  delivery_ok d -> decide_tx id now deployment decision actor comment d = Ok (start, d') -> kept d d'.
Proof.
  intros Hd (r & e & t & Hr & He & _ & Es & _ & _ & _ & Ht & Ea & Ee & Ed & _)%decide_Ok.
  pose proof (do_row _ Hd deployment r Hr) as Hok. pose proof (pending_no_phase deployment r Hok Es) as Hp.
  pose proof (plain_update deployment (dp_pipeline r) DeploymentFailed r Hp Hok) as Hup.
  assert (Hd1 : kept d (set_approvals t d)).
  { apply kept_same; [|done]. split; cbn; try apply Hd; [by eapply insert_row_valid; [apply Hd|]|].
    apply insert_row_Ok in Ht as (_ & -> & _). intros k a. rewrite lookup_insert_Some. intros [[<- <-]|[_ Ha]]; [by eexists|by apply (do_deployment_of _ Hd k)]. }
  destruct decision; [rewrite bool_decide_false in Ed by done|rewrite bool_decide_true in Ed by done].
  - assert (Ed' : d' = set_approvals t d) by (by apply delivery_eq). by rewrite Ed'.
  - assert (Ed' : d' = set_deployments (<[deployment := set_deployment_status DeploymentFailed r]> (deployments d)) (set_approvals t d)) by (by apply delivery_eq).
    rewrite Ed'. change (kept (set_approvals t d) (set_deployments (<[deployment := set_deployment_status DeploymentFailed r]> (deployments d)) (set_approvals t d))).
    apply (pointwise_kept (fun k w => if decide (k = deployment) then set_deployment_status DeploymentFailed r else w)); [apply Hd1|..].
    + intros k. cbn. destruct (decide (k = deployment)) as [->|Hne]; [rewrite lookup_insert_eq, Hr; done|]. rewrite lookup_insert_ne by done. by destruct (deployments d !! k).
    + intros k w Hw. cbn in Hw. destruct (decide (k = deployment)) as [->|Hne]; [|apply unchanged; by apply (do_row _ Hd)].
      rewrite Hr in Hw. injection Hw as <-. done.
Qed.

(** *** Offers *)

Lemma conflicting_Ok {A} (r : result A str) a : conflicting r = Ok a -> r = Ok a.
Proof. destruct r; [|done]. by intros [= <-]. Qed.

Abbreviation prepare := (DeploymentRuntime.prepare sha256_hex read_publish read_published request_hash).

Definition operation (v : ci_view) (x : execution) (spec : HelmDeploySpec) (d : delivery) : option (N * deployment_row) :=
  requested_operation v (ex_pipeline x) (hd_environment_id spec) d.

(** The identifier an offer gets. *)
Definition offer_id (requested : option (N * deployment_row)) (fresh : N) : N :=
  match requested with Some (k, r) => if is_none (dp_attempt r) then k else fresh | None => fresh end.

(** All that holds when an offer is made. *)
Record offered (now : Z) (v : ci_view) (fresh : N) (x : execution) (spec : HelmDeploySpec) (d : delivery) (offer : DeploymentOffer) (d' : delivery)
    (oe_environment : environment_row) (oe_target : KubernetesTarget) (oe_facts : pipeline_facts)
    (oe_images : gmap str PublishedImage * option RollbackRelease) : Prop := {
  oe_found : environments d !! hd_environment_id spec = Some oe_environment;
  oe_project : exists p, pipelines (core (cv_ledger v)) !! ex_pipeline x = Some p /\ project_id p = en_project oe_environment;
  oe_typed : en_target oe_environment = Some (Readable oe_target);
  oe_approved : approved (policy_of oe_environment) (operation v x spec d) d = Ok tt;
  oe_free : forall k r, deployments d !! k = Some r -> dp_environment r = hd_environment_id spec -> unresolved r = false;
  oe_pipeline : cv_facts v !! ex_pipeline x = Some oe_facts;
  oe_newest : max_of order_of (applied (hd_environment_id spec)) (deployments d) <= pf_order oe_facts;
  oe_chosen : chosen_images sha256_hex read_publish read_published now v (operation v x spec d)
                (max_of revision_of (applied (hd_environment_id spec)) (deployments d)) oe_target spec x d = Ok oe_images;
  oe_offer : offer = {| of_environment_id := hd_environment_id spec; of_deployment_id := offer_id (operation v x spec d) fresh; of_pipeline_id := ex_pipeline x;
                        of_job_id := ex_job x; of_attempt_id := ex_attempt x; of_lease_id := ex_lease x; of_generation := ex_generation x;
                        of_source_commit := ex_commit x; of_pipeline_order := pf_order oe_facts; of_target := oe_target; of_images := oe_images.1;
                        of_receipt_artifact := hd_receipt_artifact spec; of_rollback := oe_images.2 |};
  oe_valid : DeploymentOffer_validate offer = Ok tt;
  oe_recorded : record_offer (offer_id (operation v x spec d) fresh) now (operation v x spec d) (pf_git_ref oe_facts) x offer d = Ok d' }.

Lemma prepared_Ok now v workspace fresh x spec d offer d' : prepare now v workspace fresh x spec d = Ok (offer, d') ->
  match offer with Some offer => exists e target f images, offered now v fresh x spec d offer d' e target f images | None => d' = d end.
Proof.
  unfold DeploymentRuntime.prepare. cbv zeta. intros E. apply rbind_Ok_inv in E as ([] & _ & E). apply rbind_Ok_inv in E as ([] & _ & E).
  apply rbind_Ok_inv in E as (e & He%ok_or_Ok & E). apply rbind_Ok_inv in E as ([] & _ & E). apply rbind_Ok_inv in E as (value & Hv%ok_or_Ok & E).
  apply rbind_Ok_inv in E as (target & Ht%ok_or_Ok & E). apply rbind_Ok_inv in E as ([] & _ & E). apply rbind_Ok_inv in E as ([] & Ha & E).
  destruct (exists_row _ _) eqn:Ex in E; [done|]. apply rbind_Ok_inv in E as (f & Hf%ok_or_Ok & E).
  destruct (Z.ltb_spec (pf_order f) (max_of order_of (applied (hd_environment_id spec)) (deployments d))) as [|Hn]; [by injection E as <- <-|].
  apply rbind_Ok_inv in E as (images & Hi & E). apply rbind_Ok_inv in E as ([] & Hok%conflicting_Ok & E). apply rbind_Ok_inv in E as (d1 & Hd1%or_internal_Ok & E).
  injection E as <- <-. destruct (environments d !! hd_environment_id spec) as [e'|] eqn:Ee; [cbn in He|done].
  destruct (pipelines (core (cv_ledger v)) !! ex_pipeline x) as [p|] eqn:Ep; [cbn in He|done]. destruct (N.eqb_spec (project_id p) (en_project e')) as [Epr|]; [|done].
  injection He as ->. destruct value as [target'|]; [|done]. injection Ht as ->. exists e, target, f, images. split; try done.
  - by exists p.
  - intros k r Hk Hr. rewrite exists_row_false in Ex. specialize (Ex k r Hk). rewrite Hr, N.eqb_refl in Ex. done.
Qed.

Lemma operation_Some v x spec d k r : operation v x spec d = Some (k, r) ->
  deployments d !! k = Some r /\ dp_environment r = hd_environment_id spec /\
  exists f, cv_facts v !! ex_pipeline x = Some f /\ triggered_for k f = true /\ (dp_pipeline r = None \/ dp_pipeline r = Some (ex_pipeline x)).
Proof.
  unfold operation, requested_operation. destruct (cv_facts v !! ex_pipeline x) as [f|]; [cbn|done]. intros E.
  assert (Hin : (k, r) ∈ select (fun k r => triggered_for k f && (dp_environment r =? hd_environment_id spec)%N
    && match dp_pipeline r with Some p => (p =? ex_pipeline x)%N | None => true end) (deployments d)).
  { destruct (select _ _) as [|y l]; [done|]. injection E as ->. left. }
  apply elem_of_select in Hin as [Hk Hp]. rewrite !andb_true_iff, N.eqb_eq in Hp. destruct Hp as [[Ht He] Hp]. split; [done|]. split; [done|].
  exists f. split; [done|]. split; [done|]. destruct (dp_pipeline r) as [p|]; [right|by left]. apply N.eqb_eq in Hp. by subst.
Qed.

Lemma prepared_ok id r x offer pipeline :
  DeploymentOffer_validate offer = Ok tt -> of_deployment_id offer = id -> of_environment_id offer = dp_environment r ->
  of_attempt_id offer = ex_attempt x -> of_pipeline_id offer = pipeline ->
  row_ok id (set_runtime (Some pipeline) DeploymentRunning (Some (ex_attempt x)) (Some Prepared) (Some (Readable offer)) None r).
Proof. intros Hv Hi He Ha Hp. unfold row_ok. cbn. exists offer. split; cbn; congruence || done. Qed.

Lemma prepare_kept now v workspace fresh x spec d offer d' : delivery_ok d -> prepare now v workspace fresh x spec d = Ok (offer, d') -> kept d d'.
Proof.
  intros Hd E%prepared_Ok. destruct offer as [offer|]; [|subst; by apply unchanged_kept]. destruct E as (e & target & f & images & [He _ _ _ _ _ _ _ Eo Hv Hr]).
  assert (Hfresh : forall id rollback, offer_id (operation v x spec d) fresh = id ->
    row_ok id (set_runtime (Some (ex_pipeline x)) DeploymentRunning (Some (ex_attempt x)) (Some Prepared) (Some (Readable offer)) None
                 (new_deployment (of_environment_id offer) (Some (ex_pipeline x)) rollback (pf_git_ref f) DeploymentRunning now))).
  { intros id rollback Ei. apply prepared_ok; [exact Hv|rewrite Eo; done..]. }
  unfold record_offer in Hr. destruct (operation v x spec d) as [[k r]|] eqn:Eop; [|eapply insert_kept; [exact Hd|by apply Hfresh|done|exact Hr]].
  destruct (is_none (dp_attempt r)) eqn:En; [|eapply insert_kept; [exact Hd|by apply Hfresh|done|exact Hr]].
  apply operation_Some in Eop as (Hk & Hre & _). apply rbind_Ok_inv in Hr as (t & Ht & [= <-]). apply is_none_true in En.
  assert (Hp : dp_phase r = None /\ dp_receipt r = None).
  { pose proof (do_row _ Hd k r Hk) as Hok. unfold row_ok in Hok. destruct (dp_phase r); [|tauto]. destruct Hok as (o & Ho). pose proof (tr_attempt _ _ _ _ Ho). congruence. }
  destruct Hp as [Hp Hrec]. rewrite Hrec in Ht. apply (put_deployment_kept k _ t d Hd) in Ht; [done| | | |done].
  - apply prepared_ok; [exact Hv|rewrite Eo; cbn; rewrite ?En; cbn; congruence..].
  - cbn. by apply (do_environment_of _ Hd k).
  - intros r0 Hr0. rewrite Hk in Hr0. injection Hr0 as <-. split; [done|done|]. intros phase E. congruence.
Qed.

Lemma delivery_step_kept d d' : delivery_ok d -> delivery_step d d' -> kept d d'.
Proof.
  intros Hd. destruct 1 as [| |c id retained|id environment pipeline rollback_of git_ref status now d' E| |id now deployment decision actor comment start d' E| | |now v workspace fresh x spec offer d' E].
  - by apply create_environment_kept.
  - by apply update_environment_kept.
  - unfold delete_environment. destruct (environments d !! id); [|by apply unchanged_kept]. destruct retained; [by apply unchanged_kept|].
    apply committed_state; [by apply unchanged_kept|by apply remove_environment_kept].
  - by refine (insert_kept _ _ _ _ Hd _ _ E).
  - by apply attach_kept.
  - by eapply decide_kept.
  - by apply hold_kept.
  - by apply follow_kept.
  - by eapply prepare_kept.
Qed.

(** *** Completion *)

(** The row of an attempt, when its completion is recorded. *)
Lemma finished_Ok attempt lease generation outcome observation d d' : delivery_ok d ->
  finish attempt lease generation outcome observation d = Ok d' ->
  d' = d \/
  exists id r phase o ob, deployments d !! id = Some r /\ dp_phase r = Some phase /\ typed_row id r phase o /\ of_lease_id o = lease /\ observation = Some ob /\
    DeploymentObservation_validates ob o = true /\ (outcome = Success -> ob_phase ob = §"deployed") /\
    deployments d' = <[id := set_runtime (dp_pipeline r) (finished_status outcome) (dp_attempt r) (Some Finished) (dp_input r) (Some (Readable ob)) r]> (deployments d) /\
    approvals d' = approvals d /\
    environments d' = match observed_status (ob_phase ob) with
                      | Some s => update_where (fun k _ => (k =? dp_environment r)%N) (set_environment_status s) (environments d)
                      | None => environments d
                      end.
Proof.
  intros Hd. unfold finish. destruct (head (select _ _)) as [[id r]|] eqn:Eh; [|destruct (is_some observation); [done|intros [= <-]; by left]]. intros E. right.
  assert (Hin : (id, r) ∈ select (fun _ r => bool_decide (dp_attempt r = Some attempt)) (deployments d)).
  { destruct (select _ _) as [|y l]; [done|]. injection Eh as ->. left. }
  apply elem_of_select in Hin as [Hr Ha%bool_decide_eq_true_1]. pose proof (do_row _ Hd id r Hr) as Hok. unfold row_ok in Hok.
  destruct (dp_phase r) as [phase|] eqn:Ep; [|destruct Hok; congruence]. destruct Hok as (o & Ho). rewrite (tr_input _ _ _ _ Ho) in E. cbn [ok_or rbind from_value] in E.
  rewrite (tr_valid _ _ _ _ Ho) in E. cbn [conflicting rbind] in E. destruct observation as [ob|]; [|done]. destruct (_ || _) eqn:Eb in E; [done|].
  rewrite !orb_false_iff, !negb_false_iff, andb_false_iff, negb_false_iff in Eb. destruct Eb as ((((_ & El%N.eqb_eq) & _) & Hv) & Hs).
  exists id, r, phase, o, ob. rewrite (tr_input _ _ _ _ Ho). injection E as <-. split_and!; try done.
  - intros ->. destruct Hs as [Hs|Hs]; [by rewrite bool_decide_true in Hs|]. by apply str_eqb_true in Hs.
  - by destruct (observed_status _).
  - by destruct (observed_status _).
  - by destruct (observed_status _).
Qed.

Lemma finish_ok attempt lease generation outcome observation d d' : delivery_ok d ->
  finish attempt lease generation outcome observation d = Ok d' -> delivery_ok d'.
Proof.
  intros Hd E%finished_Ok; [|done]. destruct E as [->|(id & r & phase & o & ob & Hr & Ep & Ho & _ & _ & Hv & Hs & Ed & Ea & Ee)]; [done|].
  assert (Henv : valid_table (environments d') /\ forall k, is_Some (environments d !! k) -> is_Some (environments d' !! k)).
  { rewrite Ee. destruct (observed_status _) as [s|]; [|split; [apply Hd|done]]. split.
    - apply update_where_valid; [done|done|apply Hd].
    - intros k [e He]. rewrite lookup_update_where, He. by eexists. }
  destruct Henv as [He1 He2]. split.
  - done.
  - rewrite Ed. apply (same_keys_valid (deployments d)); [apply Hd|]. intros k r'. rewrite lookup_insert_Some. intros [[<- <-]|[_ Hk]]; [exists r; by split|].
    exists r'. split; [done|apply same_keys_refl].
  - rewrite Ea. apply Hd.
  - rewrite Ed. intros k r'. rewrite lookup_insert_Some. intros [[<- <-]|[_ Hk]]; [|by apply (do_row _ Hd)]. unfold row_ok. cbn. exists o.
    destruct Ho as [H1 H2 H3 H4 H5 H6 _]. split; cbn; try done. exists ob. split; [done|]. split; [done|]. destruct outcome; cbn; auto.
  - rewrite Ed. intros k r'. rewrite lookup_insert_Some. intros [[<- <-]|[_ Hk]]; apply He2; [exact (do_environment_of _ Hd id r Hr)|by apply (do_environment_of _ Hd k)].
  - rewrite Ea, Ed. intros k a Hk. destruct (do_deployment_of _ Hd k a Hk) as [w Hw]. destruct (decide (ap_deployment a = id)) as [->|Hne];
      [rewrite lookup_insert_eq|rewrite lookup_insert_ne by done]; by eexists.
Qed.
End steps.

(** ** The system *)

(** The ledger, the deployments, and the identifiers drawn so far. *)
Record rollout : Type := { ro_ledger : ledger; ro_delivery : delivery; ro_deployments : gset N; ro_environments : gset N }.

Definition advance (l : ledger) (d : delivery) (y : rollout) : rollout :=
  {| ro_ledger := l; ro_delivery := d; ro_deployments := ro_deployments y ∪ dom (deployments d); ro_environments := ro_environments y ∪ dom (environments d) |}.

(** No identifier is drawn twice. *)
Definition fresh_ids (d : delivery) (y : rollout) : Prop :=
  (forall k, k ∈ ro_deployments y -> deployments (ro_delivery y) !! k = None -> deployments d !! k = None) /\
  (forall k, k ∈ ro_environments y -> environments (ro_delivery y) !! k = None -> environments d !! k = None).

Section system.
Context `{UrlCrate} `{UuidText} (sha256_hex : list N -> str).
Context (read_publish : json -> option ImagePublishSpec) (read_published : list N -> option PublishedImage)
        (request_hash : stored KubernetesTarget -> result str ApiError).

(** The ledger moves, a statement on deployments runs, or an execution ends:
    its lease and its deployment change in one transaction. *)
Inductive rollout_step (y : rollout) : rollout -> Prop :=
| rs_ledger l' : ledger_event (ro_ledger y) l' -> rollout_step y (advance l' (ro_delivery y) y)
| rs_delivery d' : delivery_step sha256_hex read_publish read_published request_hash (ro_delivery y) d' -> fresh_ids d' y ->
    rollout_step y (advance (ro_ledger y) d' y)
| rs_complete now lease c stage l' observation d' :
    complete_runner_lease_tx now lease c (ro_ledger y) = (Some stage, l') ->
    finish (cp_attempt c) lease (cp_generation c) (cp_terminal c) observation (ro_delivery y) = Ok d' -> rollout_step y (advance l' d' y)
| rs_stopped now c source lease job l' observation d' :
    acknowledge_stopped now c source lease job (ro_ledger y) = (true, l') ->
    finish (cp_attempt c) lease (cp_generation c) (cp_terminal c) observation (ro_delivery y) = Ok d' -> rollout_step y (advance l' d' y).

(** The lease of a finished execution is closed, with its outcome. *)
Definition lease_closed (l : ledger) (id : N) (status : DeploymentStatus) : Prop :=
  exists x t, leases l !! id = Some x /\ lease_active x = false /\ is_Some (le_runner x) /\ le_terminal_status x = Some t /\ status = finished_status t.

Record rollout_ok (y : rollout) : Prop := {
  yo_delivery : delivery_ok (ro_delivery y);
  yo_deployments : dom (deployments (ro_delivery y)) ⊆ ro_deployments y;
  yo_environments : dom (environments (ro_delivery y)) ⊆ ro_environments y;
  yo_lease : forall id r o, deployments (ro_delivery y) !! id = Some r -> dp_phase r = Some Finished -> typed_row id r Finished o ->
    lease_closed (ro_ledger y) (of_lease_id o) (dp_status r) }.

Lemma lease_closed_good l l' id status : good l l' -> lease_closed l id status -> lease_closed l' id status.
Proof.
  intros [He _] (x & t & Hx & Hi & Hr & Ht & Hs). destruct (ev_leases _ _ He id x Hx) as (x' & Hx' & Hsame).
  destruct (ls_closed _ _ Hsame Hi) as (Hi' & _ & Ht'). exists x', t. split_and!; [done|done|by rewrite (ls_runner _ _ Hsame)| |done]. by rewrite (Ht' Hr).
Qed.

(** A completion closes its lease, which was open; a stop confirms what it
    was closed with. *)
Lemma complete_closes now lease c stage l l' : complete_runner_lease_tx now lease c l = (Some stage, l') ->
  good l l' /\ lease_closed l' lease (finished_status (cp_terminal c)) /\ forall status, ~ lease_closed l lease status.
Proof.
  intros E. pose proof (good_complete now lease c l) as Hg. rewrite E in Hg. split; [exact Hg|].
  apply complete_row in E as (x & x' & Hx & Hact & Hr & _ & _ & Hx' & Hi' & Hr' & _ & _ & Ht' & _). split.
  - exists x', (cp_terminal c). split_and!; try done. by rewrite Hr', Hr.
  - intros status (x0 & t & Hx0 & Hi & _). congruence.
Qed.

Lemma stopped_closed now c source lease job l l' : acknowledge_stopped now c source lease job l = (true, l') ->
  good l l' /\ lease_closed l lease (finished_status (cp_terminal c)).
Proof.
  intros E. pose proof (good_stopped now c source lease job l) as Hg. rewrite E in Hg. split; [exact Hg|]. unfold acknowledge_stopped in E.
  assert (Hs : exists x, leases l !! lease = Some x /\ stopped now c source lease job l x = true).
  { destruct (cp_terminal c), (leases l !! lease) as [x|]; try done; exists x; (split; [done|]); by destruct (stopped now c source lease job l x). }
  destruct Hs as (x & Hx & Hs). exists x, (cp_terminal c). unfold stopped in Hs. rewrite !andb_true_iff in Hs.
  destruct Hs as (((((((((((((Hr%bool_decide_eq_true_1 & _) & _) & _) & _) & _) & _) & Hi) & Ht%bool_decide_eq_true_1) & _) & _) & _) & _) & _).
  apply negb_true_iff in Hi. split_and!; done.
Qed.
End system.
