(* ===== verification/DeploymentTheorems.v ===== *)
(** * Deployments: what holds of every history *)
From S2P Require Import Prelude Url Images Table Status Ledger LedgerHandlers LedgerSafety LedgerTheorems Helm Outbox Api Runners Uploads Deployments DeploymentRuntime DeploymentSafety.
Local Open Scope Z_scope.

Section system.
Context `{UrlCrate} `{UuidText} (sha256_hex : list N -> str).
Context (read_publish : json -> option ImagePublishSpec) (read_published : list N -> option PublishedImage)
        (request_hash : stored KubernetesTarget -> result str ApiError).

Abbreviation dstep := (delivery_step sha256_hex read_publish read_published request_hash).
Abbreviation rstep := (rollout_step sha256_hex read_publish read_published request_hash).
Abbreviation prepare := (DeploymentRuntime.prepare sha256_hex read_publish read_published request_hash).

(** ** Histories of a row *)

(** An execution keeps what it was offered; an ended one its result, and a
    successful one its receipt. *)
Record execution_same (r r' : deployment_row) : Prop := {
  es_environment : dp_environment r' = dp_environment r;
  es_git_ref : dp_git_ref r' = dp_git_ref r;
  es_started : forall phase, dp_phase r = Some phase ->
    dp_pipeline r' = dp_pipeline r /\ dp_attempt r' = dp_attempt r /\ dp_input r' = dp_input r /\ is_Some (dp_phase r');
  es_ended : dp_phase r = Some Finished ->
    dp_phase r' = Some Finished /\ dp_status r' = dp_status r /\ (dp_status r = DeploymentSuccess -> dp_receipt r' = dp_receipt r) }.

Lemma execution_same_refl r : execution_same r r.
Proof. split; [done|done|intros phase ->; by split_and!|intros ->; done]. Qed.

Lemma execution_same_trans r r1 r2 : execution_same r r1 -> execution_same r1 r2 -> execution_same r r2.
Proof.
  intros [A1 A2 A3 A4] [B1 B2 B3 B4]. split; [congruence|congruence|..].
  - intros phase Hp. destruct (A3 phase Hp) as (? & ? & ? & phase1 & Hp1). destruct (B3 phase1 Hp1) as (? & ? & ? & ?). split_and!; congruence || done.
  - intros Hp. destruct (A4 Hp) as (Hp1 & Hs & Hr). destruct (B4 Hp1) as (? & Hs' & Hr'). split_and!; [done|congruence|]. intros E. rewrite Hr' by congruence. by apply Hr.
Qed.

Lemma follows_same r r' : row_follows r r' -> execution_same r r'.
Proof.
  intros [He Hg Hr]. split; [done|done|..].
  - intros phase Hp. destruct (Hr phase Hp) as (? & ? & ? & ? & ? & [->|[_ ->]]); by split_and!.
  - intros Hp. destruct (Hr Finished Hp) as (? & ? & ? & ? & ? & [->|[Hne _]]); [by split_and!|done].
Qed.

(** The row in a later state: it went on, or its environment was deleted. *)
Definition went_on (id : N) (r : deployment_row) (d' : delivery) : Prop :=
  (exists r', deployments d' !! id = Some r' /\ execution_same r r') \/ deployments d' !! id = None /\ environments d' !! dp_environment r = None.

(** ** Steps keep the invariant *)

Lemma ids_kept l d y : rollout_ok y -> dom (deployments d) ⊆ ro_deployments (advance l d y) /\ dom (environments d) ⊆ ro_environments (advance l d y).
Proof. intros _. cbn. split; set_solver. Qed.

Lemma typed_unique id r phase o phase' o' : typed_row id r phase o -> typed_row id r phase' o' -> o' = o.
Proof. intros H1 H2. pose proof (tr_input _ _ _ _ H1). pose proof (tr_input _ _ _ _ H2). congruence. Qed.

Lemma ledger_step_ok y l' : rollout_ok y -> good (ro_ledger y) l' -> rollout_ok (advance l' (ro_delivery y) y).
Proof.
  intros Hy Hg. destruct (ids_kept l' (ro_delivery y) y Hy). split; [apply Hy|done|done|]. intros id r o Hr Hp Ho.
  apply (lease_closed_good _ _ _ _ Hg). by apply (yo_lease _ Hy id r o).
Qed.

Lemma delivery_step_ok y d' : rollout_ok y -> dstep (ro_delivery y) d' -> rollout_ok (advance (ro_ledger y) d' y).
Proof.
  intros Hy (Hd & Hrows & Hend)%delivery_step_kept; [|apply Hy]. destruct (ids_kept (ro_ledger y) d' y Hy). split; [done..|].
  intros id r' o Hr' Hp Ho. cbn in Hr'. destruct (Hend id r' Hr' Hp) as (r & Hr & Hpr). pose proof (do_row _ (yo_delivery _ Hy) id r Hr) as Hok.
  unfold row_ok in Hok. rewrite Hpr in Hok. destruct Hok as (o0 & Ho0). destruct (Hrows id r Hr) as [(r2 & Hr2 & Hf)|[Hnone _]]; [|congruence].
  rewrite Hr' in Hr2. injection Hr2 as <-. destruct (rf_runtime _ _ Hf Finished Hpr) as (_ & Es & _ & Ei & _).
  assert (o = o0) as -> by (pose proof (tr_input _ _ _ _ Ho); pose proof (tr_input _ _ _ _ Ho0); congruence).
  rewrite Es. by apply (yo_lease _ Hy id r o0).
Qed.

(** The end of an execution on a lease that has this outcome. *)
Lemma end_step_ok y lease l' outcome attempt generation observation d' :
  rollout_ok y -> good (ro_ledger y) l' -> lease_closed l' lease (finished_status outcome) ->
  finish attempt lease generation outcome observation (ro_delivery y) = Ok d' -> rollout_ok (advance l' d' y).
Proof.
  intros Hy Hg Hc E. destruct (ids_kept l' d' y Hy). split; [by eapply finish_ok; [apply Hy|exact E]|done|done|]. cbn.
  apply finished_Ok in E; [|apply Hy]. intros id r' o Hr' Hp Ho.
  assert (Hother : deployments (ro_delivery y) !! id = Some r' -> lease_closed l' (of_lease_id o) (dp_status r')).
  { intros Hr. apply (lease_closed_good _ _ _ _ Hg). by apply (yo_lease _ Hy id r' o). }
  destruct E as [->|(id0 & r & phase & o0 & ob & Hr & Hph & Ho0 & <- & _ & _ & _ & Ed & _)]; [by apply Hother|].
  rewrite Ed in Hr'. apply lookup_insert_Some in Hr' as [[<- <-]|[_ Hr']]; [|by apply Hother].
  assert (o = o0) as -> by (pose proof (tr_input _ _ _ _ Ho) as E1; pose proof (tr_input _ _ _ _ Ho0); cbn in E1; congruence). exact Hc.
Qed.

Lemma rollout_step_ok y y' : rollout_ok y -> rstep y y' -> rollout_ok y'.
Proof.
  intros Hy. destruct 1 as [l' He|d' Hs _|now lease c stage l' observation d' Hc Hf|now c source lease job l' observation d' Hc Hf].
  - apply ledger_step_ok; [done|]. apply events_good. by apply rtc_once.
  - by apply delivery_step_ok.
  - apply complete_closes in Hc as (Hg & Hcl & _). by eapply end_step_ok.
  - apply stopped_closed in Hc as (Hg & Hcl). eapply end_step_ok; [done|exact Hg|by eapply lease_closed_good|exact Hf].
Qed.

Lemma rollout_steps_ok y y' : rollout_ok y -> rtc rstep y y' -> rollout_ok y'.
Proof. intros Hy. induction 1 as [|y y1 y2 Hs _ IH]; [done|]. apply IH. by eapply rollout_step_ok. Qed.

(** ** Steps keep ended executions *)

Lemma end_went_on y lease outcome attempt generation observation d' :
  rollout_ok y ->
  (forall id r o, deployments (ro_delivery y) !! id = Some r -> dp_phase r = Some Finished -> typed_row id r Finished o -> of_lease_id o = lease ->
     dp_status r = finished_status outcome /\ outcome <> Success) ->
  finish attempt lease generation outcome observation (ro_delivery y) = Ok d' ->
  forall id r, deployments (ro_delivery y) !! id = Some r -> went_on id r d'.
Proof.
  intros Hy Hagain E%finished_Ok id r Hr; [|apply Hy]. left. destruct E as [->|(id0 & r0 & phase & o & ob & Hr0 & Hph & Ho & Hl & _ & _ & _ & Ed & _)].
  { exists r. split; [done|apply execution_same_refl]. }
  rewrite Ed. destruct (decide (id = id0)) as [->|Hne]; [|exists r; rewrite lookup_insert_ne by done; split; [done|apply execution_same_refl]].
  rewrite Hr0 in Hr. injection Hr as <-. rewrite lookup_insert_eq. eexists. split; [reflexivity|]. split; cbn; [done|done|by intros; split_and!|].
  intros Hp. rewrite Hp in Hph. injection Hph as <-. destruct (Hagain id0 r0 o Hr0 Hp Ho Hl) as [Hs Hne]. split; [done|]. split; [by rewrite Hs|].
  intros Es. rewrite Es in Hs. by destruct outcome.
Qed.

Lemma step_went_on y y' : rollout_ok y -> rstep y y' -> forall id r, deployments (ro_delivery y) !! id = Some r -> went_on id r (ro_delivery y').
Proof.
  intros Hy. destruct 1 as [l' He|d' Hs _|now lease c stage l' observation d' Hc Hf|now c source lease job l' observation d' Hc Hf]; cbn.
  - intros id r Hr. left. exists r. split; [done|apply execution_same_refl].
  - intros id r Hr. apply delivery_step_kept in Hs as (_ & Hrows & _); [|apply Hy]. destruct (Hrows id r Hr) as [(r' & Hr' & Hfo)|?]; [left|by right].
    exists r'. split; [done|by apply follows_same].
  - apply complete_closes in Hc as (_ & _ & Hopen). eapply end_went_on; [done| |exact Hf]. intros id r o Hr Hp Ho <-. exfalso.
    apply (Hopen (dp_status r)). by apply (yo_lease _ Hy id r o).
  - pose proof Hc as Hc2. apply stopped_closed in Hc as (_ & (x & t & Hx & _ & _ & Ht & Es)). eapply end_went_on; [done| |exact Hf]. intros id r o Hr Hp Ho <-.
    destruct (yo_lease _ Hy id r o Hr Hp Ho) as (x' & t' & Hx' & _ & _ & Ht' & Es'). rewrite Hx in Hx'. injection Hx' as <-. rewrite Ht in Ht'. injection Ht' as <-.
    split; [congruence|]. intros E. unfold acknowledge_stopped in Hc2. by rewrite E in Hc2.
Qed.

Lemma finish_ids attempt lease generation outcome observation d d' : delivery_ok d -> finish attempt lease generation outcome observation d = Ok d' ->
  forall k, (deployments d !! k = None -> deployments d' !! k = None) /\ (environments d !! k = None -> environments d' !! k = None).
Proof.
  intros Hd E%finished_Ok k; [|done]. destruct E as [->|(id & r & phase & o & ob & Hr & _ & _ & _ & _ & _ & _ & Ed & _ & Ee)]; [done|]. split.
  - intros Hk. rewrite Ed, lookup_insert_ne; [done|]. intros ->. congruence.
  - intros Hk. rewrite Ee. destruct (observed_status _); [by apply update_where_None|done].
Qed.

(** What is gone stays gone. *)
Definition gone (k : N) (used : gset N) {V} (t : gmap N V) : Prop := k ∈ used /\ t !! k = None.

Lemma step_gone y y' k : rollout_ok y -> rstep y y' ->
  (gone k (ro_deployments y) (deployments (ro_delivery y)) -> gone k (ro_deployments y') (deployments (ro_delivery y'))) /\
  (gone k (ro_environments y) (environments (ro_delivery y)) -> gone k (ro_environments y') (environments (ro_delivery y'))).
Proof.
  intros Hy Hs. assert (Hused : forall l d, k ∈ ro_deployments y -> k ∈ ro_deployments (advance l d y)) by (cbn; set_solver).
  assert (Hused' : forall l d, k ∈ ro_environments y -> k ∈ ro_environments (advance l d y)) by (cbn; set_solver). unfold gone.
  destruct Hs as [l' He|d' Hs [Hf1 Hf2]|now lease c stage l' observation d' Hc Hf|now c source lease job l' observation d' Hc Hf].
  - cbn [ro_delivery advance]. split; intros [Hk Hn]; auto.
  - split; intros [Hk Hn]; (split; [auto|]); cbn; auto.
  - destruct (finish_ids _ _ _ _ _ _ _ (yo_delivery _ Hy) Hf k). split; intros [Hk Hn]; (split; [auto|]); cbn; auto.
  - destruct (finish_ids _ _ _ _ _ _ _ (yo_delivery _ Hy) Hf k). split; intros [Hk Hn]; (split; [auto|]); cbn; auto.
Qed.

Lemma steps_gone y y' k : rollout_ok y -> rtc rstep y y' ->
  (gone k (ro_deployments y) (deployments (ro_delivery y)) -> gone k (ro_deployments y') (deployments (ro_delivery y'))) /\
  (gone k (ro_environments y) (environments (ro_delivery y)) -> gone k (ro_environments y') (environments (ro_delivery y'))).
Proof.
  intros Hy Hs. revert Hy. induction Hs as [|y y1 y2 Hs _ IH]; intros Hy; [done|]. destruct (step_gone y y1 k Hy Hs), (IH (rollout_step_ok _ _ Hy Hs)). auto.
Qed.

Lemma steps_went_on y y' : rollout_ok y -> rtc rstep y y' ->
  forall id r, deployments (ro_delivery y) !! id = Some r -> went_on id r (ro_delivery y').
Proof.
  intros Hy Hs. revert Hy. induction Hs as [y|y y1 y2 Hs Hs2 IH]; intros Hy id r Hr; [left; exists r; split; [done|apply execution_same_refl]|].
  pose proof (rollout_step_ok _ _ Hy Hs) as Hy1. destruct (step_went_on y y1 Hy Hs id r Hr) as [(r1 & Hr1 & Hsame)|[Hn He]].
  - destruct (IH Hy1 id r1 Hr1) as [(r2 & Hr2 & Hsame2)|[Hn He]]; [left; exists r2; split; [done|by eapply execution_same_trans]|].
    right. split; [done|]. by rewrite <- (es_environment _ _ Hsame).
  - right. assert (Hused : id ∈ ro_deployments y1 /\ dp_environment r ∈ ro_environments y1).
    { assert (H1 : id ∈ ro_deployments y) by (apply (yo_deployments _ Hy), elem_of_dom; by eexists).
      assert (H2 : dp_environment r ∈ ro_environments y) by (apply (yo_environments _ Hy), elem_of_dom; by apply (do_environment_of _ (yo_delivery _ Hy) id)).
      destruct Hs; cbn; split; set_solver. }
    destruct Hused as [Hu1 Hu2]. split; [apply (steps_gone y1 y2 id Hy1 Hs2); by split|apply (steps_gone y1 y2 (dp_environment r) Hy1 Hs2); by split].
Qed.

(** ** What is reached *)

Definition rollout_start (l : ledger) : rollout :=
  {| ro_ledger := l; ro_delivery := {| environments := ∅; deployments := ∅; approvals := ∅ |}; ro_deployments := ∅; ro_environments := ∅ |}.

Lemma start_ok l : rollout_ok (rollout_start l).
Proof.
  split; [split; try apply valid_table_empty; intros *; cbn; by rewrite lookup_empty|cbn; set_solver..|]. intros *. cbn. by rewrite lookup_empty.
Qed.

Definition rollout_reachable (y : rollout) : Prop := exists l, rtc rstep (rollout_start l) y.

Lemma reachable_ok y : rollout_reachable y -> rollout_ok y.
Proof. intros (l & Hs). by eapply rollout_steps_ok; [apply start_ok|]. Qed.
(** ** Rows and their executions *)

Lemma ended_row y id r : rollout_ok y -> deployments (ro_delivery y) !! id = Some r -> dp_phase r = Some Finished ->
  exists o ob, typed_row id r Finished o /\ dp_receipt r = Some (Readable ob) /\ DeploymentObservation_validates ob o = true /\
    (dp_status r = DeploymentSuccess -> ob_phase ob = §"deployed").
Proof.
  intros Hy Hr Hp. pose proof (do_row _ (yo_delivery _ Hy) id r Hr) as Hok. unfold row_ok in Hok. rewrite Hp in Hok. destruct Hok as (o & Ho).
  destruct (tr_end _ _ _ _ Ho) as (ob & Hrec & Hv & Hs). exists o, ob. split_and!; try done. intros E. destruct Hs as [[_ Hs]|Hs]; [done|congruence].
Qed.

(** C30. However requests, reconcilers, claims and
    completions interleave: an environment has at most one unresolved
    execution, and an attempt at most one deployment; a protected environment
    needs one to ten approvals, and nobody decides twice; what executes is a
    validated offer for this row, its environment and its attempt; and an
    execution that succeeded has a receipt of exactly the offered images from a
    healthy release, and its lease is closed with success. *)
Theorem deployments_sound y : rollout_reachable y ->
  let d := ro_delivery y in
  (forall i j x z, deployments d !! i = Some x -> deployments d !! j = Some z ->
     dp_environment x = dp_environment z /\ unresolved x = true /\ unresolved z = true \/ (is_Some (dp_attempt x) /\ dp_attempt x = dp_attempt z) -> i = j) /\
  (forall k e, environments d !! k = Some e -> 0 <= en_required e <= 10 /\ (en_protected e = true <-> 1 <= en_required e)) /\
  (forall i j a b, approvals d !! i = Some a -> approvals d !! j = Some b -> ap_deployment a = ap_deployment b -> ap_actor a = ap_actor b -> i = j) /\
  (forall id r phase, deployments d !! id = Some r -> dp_phase r = Some phase ->
     exists o, typed_row id r phase o /\
       (phase = Finished -> dp_status r = DeploymentSuccess -> exists receipt,
          rc_images receipt = image_refs (of_images o) /\ rc_source_commit receipt = of_source_commit o /\ 200 <= rc_health_status receipt < 300 /\
          exists x, leases (ro_ledger y) !! of_lease_id o = Some x /\ lease_active x = false /\ le_terminal_status x = Some Success)).
Proof.
  intros Hy%reachable_ok d. pose proof (yo_delivery _ Hy) as Hd. split_and!.
  - intros i j x z Hx Hz Hboth. destruct (decide (i = j)) as [|Hne]; [done|]. pose proof (vt_unique _ (do_deployments _ Hd) i j x z Hne Hx Hz) as Hu. cbn in Hu.
    apply orb_false_iff in Hu as [Ha Hu]. destruct Hboth as [(He & H1 & H2)|[Hs He]]; [rewrite He, H1, H2, N.eqb_refl in Hu; done|].
    unfold same_key in Ha. rewrite bool_decide_true in Ha by done. destruct Hs as [u Hs]. by rewrite Hs in Ha.
  - intros k e He. pose proof (vt_check _ (do_environments _ Hd) k e He) as Hc. cbn in Hc. unfold in_range in Hc. rewrite !andb_true_iff in Hc.
    destruct Hc as [[[[H1%Z.leb_le H2%Z.leb_le] H3] _] _]. destruct (en_protected e); [apply Z.leb_le in H3|apply Z.eqb_eq in H3]; split; try lia; split; done || lia.
  - intros i j a b Ha Hb Hdp Hac. destruct (decide (i = j)) as [|Hne]; [done|]. pose proof (vt_unique _ (do_approvals _ Hd) i j a b Hne Ha Hb) as Hu. cbn in Hu.
    by rewrite Hdp, Hac, N.eqb_refl, str_eqb_refl in Hu.
  - intros id r phase Hr Hp. pose proof (do_row _ Hd id r Hr) as Hok. unfold row_ok in Hok. rewrite Hp in Hok. destruct Hok as (o & Ho). exists o. split; [done|].
    intros -> Hs. destruct (ended_row y id r Hy Hr Hp) as (o' & ob & Ho' & _ & Hv & Hph). rewrite (typed_unique _ _ _ _ _ _ Ho Ho') in Hv.
    destruct (deployed_receipt ob o Hv (Hph Hs)) as (rc & _ & Hrc & _). exists rc. unfold DeploymentReceipt_validates in Hrc. bool_norm. split_and!; try done.
    destruct (yo_lease _ Hy id r o Hr Hp Ho) as (x & t & Hx & Hi & _ & Ht & E). exists x. split_and!; try done. rewrite Ht, Hs in *. by destruct t.
Qed.

(** ** Approvals *)

Lemma approvers deployment decision d : valid_table (approvals d) ->
  exists actors, NoDup actors /\ zlen actors = decision_count deployment decision d /\
    forall actor, actor ∈ actors -> exists i a, approvals d !! i = Some a /\ ap_deployment a = deployment /\ ap_decision a = decision /\ ap_actor a = actor.
Proof.
  intros Hv. exists (map (fun kv => ap_actor kv.2) (select (decided deployment decision) (approvals d))).
  assert (Hin : forall kv, kv ∈ select (decided deployment decision) (approvals d) ->
    approvals d !! kv.1 = Some kv.2 /\ ap_deployment kv.2 = deployment /\ ap_decision kv.2 = decision).
  { intros [k a] [Hk Hd]%elem_of_select. unfold decided in Hd. rewrite andb_true_iff, N.eqb_eq in Hd. destruct Hd as [Hd Hc%bool_decide_eq_true_1]. done. }
  split_and!.
  - apply NoDup_fmap_2_strong; [|apply NoDup_ListNoDup, List.NoDup_filter, NoDup_ListNoDup, NoDup_map_to_list].
    intros [i a] [j b] (Ha & Hda & _)%Hin (Hb & Hdb & _)%Hin E. cbn in *. destruct (decide (i = j)) as [->|Hne]; [congruence|].
    pose proof (vt_unique _ Hv i j a b Hne Ha Hb) as Hu. cbn in Hu. by rewrite Hda, Hdb, E, N.eqb_refl, str_eqb_refl in Hu.
  - unfold decision_count, zlen. by rewrite length_map.
  - intros actor ([k a] & -> & Hk)%list_elem_of_fmap. destruct (Hin _ Hk) as (? & ? & ?). by exists k, a.
Qed.

(** C31. Nothing is deployed to a protected environment
    without its approvals, whatever the requests and pipelines: the offer stems
    from a deployment that as many different people approved as the environment
    requires now, and that nobody rejected. *)
Theorem protected_rollout y now v workspace fresh x spec offer d' e :
  rollout_reachable y -> prepare now v workspace fresh x spec (ro_delivery y) = Ok (Some offer, d') ->
  environments (ro_delivery y) !! hd_environment_id spec = Some e -> en_protected e = true ->
  exists k r, deployments (ro_delivery y) !! k = Some r /\ dp_environment r = of_environment_id offer /\
    (of_deployment_id offer = k \/ is_Some (dp_attempt r)) /\
    (exists f, cv_facts v !! ex_pipeline x = Some f /\ pf_deployment f = Some (uuid_text k) /\ deployment_source f = true) /\
    (exists actors, NoDup actors /\ en_required e <= zlen actors /\
       forall actor, actor ∈ actors -> exists i a, approvals (ro_delivery y) !! i = Some a /\ ap_deployment a = k /\ ap_decision a = Approve /\ ap_actor a = actor) /\
    forall i a, approvals (ro_delivery y) !! i = Some a -> ap_deployment a = k -> ap_decision a = Approve.
Proof.
  intros Hy%reachable_ok E He Hp. apply prepared_Ok in E as (e' & target & f & images & [He' _ _ Ha _ _ _ _ Eo _ _]). rewrite He in He'. injection He' as <-.
  pose proof (vt_check _ (do_environments _ (yo_delivery _ Hy)) _ e He) as Hc. cbn in Hc. rewrite Hp, !andb_true_iff in Hc. destruct Hc as [[[_ Hreq%Z.leb_le] _] _].
  unfold approved in Ha. assert (Hra : requires_approval (policy_of e) = true).
  { unfold requires_approval, policy_of. cbn. rewrite Hp. apply Z.ltb_lt. lia. }
  rewrite Hra in Ha. apply rbind_Ok_inv in Ha as (k & Hk%ok_or_Ok & Ha). destruct (operation v x spec (ro_delivery y)) as [[k' r]|] eqn:Eop; [|done]. injection Hk as ->.
  destruct (_ && _) eqn:Ec in Ha; [|done]. apply andb_true_iff in Ec as [H1%Z.leb_le H2%Z.eqb_eq]. apply operation_Some in Eop as (Hr & Hre & fa & Hf & Ht & _).
  unfold triggered_for in Ht. apply andb_true_iff in Ht as [Ht1%bool_decide_eq_true_1 Ht2].
  destruct (approvers k Approve (ro_delivery y) (do_approvals _ (yo_delivery _ Hy))) as (actors & Hnd & Hl & Hact).
  exists k, r. split; [done|]. split; [by rewrite Eo|]. split.
  { rewrite Eo. cbn. destruct (dp_attempt r) as [a|]; [right; by eexists|by left]. }
  split; [by exists fa|]. split; [exists actors; split_and!; [done| |done]; rewrite Hl; exact H1|].
  intros i a Hi Hdp. destruct (ap_decision a) eqn:Ed; [done|exfalso]. unfold decision_count, zlen in H2.
  assert (Hin : (i, a) ∈ select (decided k Reject) (approvals (ro_delivery y))).
  { apply elem_of_select. split; [done|]. unfold decided. by rewrite Hdp, N.eqb_refl, Ed. }
  destruct (select _ _); [by apply elem_of_nil in Hin|done].
Qed.
(** ** Order *)

Lemma applied_order y id r o : rollout_ok y -> deployments (ro_delivery y) !! id = Some r -> dp_phase r = Some Finished -> dp_status r = DeploymentSuccess ->
  dp_input r = Some (Readable o) -> of_pipeline_order o <= max_of order_of (applied (dp_environment r)) (deployments (ro_delivery y)).
Proof.
  intros Hy Hr Hp Hs Hi. destruct (ended_row y id r Hy Hr Hp) as (o' & ob & Ho & Hrec & _ & Hph). assert (o' = o) as -> by (pose proof (tr_input _ _ _ _ Ho); congruence).
  pose proof (max_of_ge order_of (applied (dp_environment r)) (deployments (ro_delivery y)) id r Hr) as Hm. unfold order_of at 1 in Hm. rewrite Hi in Hm. apply Hm.
  unfold applied. rewrite N.eqb_refl, Hrec, (Hph Hs), bool_decide_true by done. reflexivity.
Qed.

(** C32. What has ended stays: in every later state the row
    has its offer and its outcome, and its receipt when it succeeded, until its
    environment is deleted; and no later offer for an environment comes from an
    older pipeline than one that succeeded there. *)
Theorem rollout_history y y' id r : rollout_reachable y -> rtc rstep y y' ->
  deployments (ro_delivery y) !! id = Some r -> dp_phase r = Some Finished ->
  ((exists r', deployments (ro_delivery y') !! id = Some r' /\ dp_phase r' = Some Finished /\ dp_environment r' = dp_environment r /\ dp_input r' = dp_input r /\
      dp_status r' = dp_status r /\ (dp_status r = DeploymentSuccess -> dp_receipt r' = dp_receipt r)) \/
   deployments (ro_delivery y') !! id = None /\ environments (ro_delivery y') !! dp_environment r = None) /\
  forall o now v workspace fresh x spec offer d', dp_status r = DeploymentSuccess -> dp_input r = Some (Readable o) ->
    prepare now v workspace fresh x spec (ro_delivery y') = Ok (Some offer, d') -> of_environment_id offer = dp_environment r ->
    of_pipeline_order o <= of_pipeline_order offer.
Proof.
  intros Hy%reachable_ok Hs Hr Hp. pose proof (rollout_steps_ok _ _ Hy Hs) as Hy'. pose proof (steps_went_on y y' Hy Hs id r Hr) as Hw. split.
  - destruct Hw as [(r' & Hr' & [He _ Hst Hend])|Hgone]; [left|by right]. destruct (Hst Finished Hp) as (_ & _ & Hi & _). destruct (Hend Hp) as (? & ? & ?).
    exists r'. by split_and!.
  - intros o now v workspace fresh x spec offer d' Hsucc Hi E Eenv. apply prepared_Ok in E as (e & target & f & images & [He _ _ _ _ _ Hn _ Eo _ _]).
    assert (Es : hd_environment_id spec = dp_environment r) by (by rewrite <- Eenv, Eo). destruct Hw as [(r' & Hr' & [Her _ Hst Hend])|[_ Hgone]]; [|congruence].
    destruct (Hst Finished Hp) as (_ & _ & Hi' & _). destruct (Hend Hp) as (Hp' & Hs' & _).
    assert (Ho : of_pipeline_order o <= max_of order_of (applied (dp_environment r')) (deployments (ro_delivery y'))) by (apply (applied_order y' id r'); congruence).
    rewrite Eo. cbn. rewrite Es in Hn. rewrite Her in Ho. lia.
Qed.

(** ** Where the images come from *)

(** The publication behind one image of an offer. *)
Definition published_by (now : Z) (v : ci_view) (x : execution) (binding : ImageBinding) (image : PublishedImage) : Prop :=
  exists entry build job attempt a published descriptor,
    plan_entry (ex_plan x) (bd_job binding) = Some entry /\ read_publish (json_index entry §"image_publish") = Some build /\
    bd_artifact binding = ip_published_artifact build /\
    attempts (cv_ledger v) !! attempt = Some a /\ at_job a = job /\ at_status a = Success /\
    artifact sha256_hex now v job attempt (ip_published_artifact build) = Ok published /\
    artifact sha256_hex now v job attempt (ip_descriptor_artifact build) = Ok descriptor /\
    read_published published = Some image /\ PublishedImage_binds image (ex_commit x) (sha256_hex descriptor) = true /\
    fst <$> split_once §"@" (pi_image_ref image) = Some (ip_repository build).

Lemma producer_Some v pipeline name job attempt : producer v pipeline name = Some (job, attempt) ->
  exists a, attempts (cv_ledger v) !! attempt = Some a /\ at_job a = job /\ at_status a = Success.
Proof.
  unfold producer. destruct (select_max _ _ _) as [[k a]|] eqn:E; [|done]. cbn. intros [= <- <-]. apply select_max_Some in E as [Hk Hp].
  apply andb_true_iff in Hp as [Hp%bool_decide_eq_true_1 _]. by exists a.
Qed.

Lemma bound_image_Ok now v x binding image : bound_image sha256_hex read_publish read_published now v x binding = Ok image -> published_by now v x binding image.
Proof.
  unfold bound_image. intros E. apply rbind_Ok_inv in E as (entry & H1%ok_or_Ok & E). apply rbind_Ok_inv in E as (build & H2%ok_or_Ok & E).
  apply rbind_Ok_inv in E as ([] & _ & E). apply rbind_Ok_inv in E as (current & _ & E). destruct (_ || _) eqn:Eb in E; [done|].
  apply orb_false_iff in Eb as [Eb%negb_false_iff _]. apply str_eqb_true in Eb. apply rbind_Ok_inv in E as ([job attempt] & H3%ok_or_Ok & E).
  apply rbind_Ok_inv in E as (published & H4 & E). apply rbind_Ok_inv in E as (descriptor & H5 & E). apply rbind_Ok_inv in E as (image' & H6%ok_or_Ok & E).
  destruct (_ || _) eqn:Ec in E; [done|]. injection E as ->. apply orb_false_iff in Ec as [Ec1%negb_false_iff Ec2%negb_false_iff].
  apply bool_decide_eq_true_1 in Ec2. apply producer_Some in H3 as (a & Ha & Hj & Hst). rewrite Eb in H4. cbn [fst snd] in *.
  exists entry, build, job, attempt, a, published, descriptor. by split_and!.
Qed.

Lemma add_images_Ok now v x l m images : rfold (add_image sha256_hex read_publish read_published now v x) m l = Ok images ->
  forall key image, images !! key = Some image -> m !! key = Some image \/ exists binding, (key, binding) ∈ l /\ published_by now v x binding image.
Proof.
  revert m. induction l as [|[key binding] l IH]; intros m; cbn [rfold]; [intros [= <-]; by left|]. intros E. apply rbind_Ok_inv in E as (m' & Hm & E). unfold add_image in Hm.
  apply rbind_Ok_inv in Hm as (image & Hi%bound_image_Ok & [= <-]). intros k im Hk. destruct (IH _ E k im Hk) as [Hin|(b & Hb & Hp)].
  - apply lookup_insert_Some in Hin as [[<- <-]|[_ Hin]]; [right|by left]. exists binding. split; [left|done].
  - right. exists b. split; [by right|done].
Qed.

Lemma add_images_keys now v x l m images : rfold (add_image sha256_hex read_publish read_published now v x) m l = Ok images ->
  forall key, is_Some (images !! key) <-> is_Some (m !! key) \/ exists binding, (key, binding) ∈ l.
Proof.
  revert m. induction l as [|[key binding] l IH]; intros m; cbn [rfold].
  { intros [= <-] k. split; [by left|]. intros [?|(b & Hb%elem_of_nil)]; done. }
  intros E. apply rbind_Ok_inv in E as (m' & Hm & E). unfold add_image in Hm. apply rbind_Ok_inv in Hm as (image & _ & [= <-]). intros k. rewrite (IH _ E k), lookup_insert_is_Some.
  split.
  - intros [[<-|[_ Hk]]|(b & Hb)]; [right; exists binding; left|by left|right; exists b; by right].
  - intros [Hk|(b & Hb)]; [destruct (decide (key = k)); left; auto|]. apply elem_of_cons in Hb as [[= -> ->]|Hb]; [left; by left|right; by exists b].
Qed.

(** ** Handlers are sequences of statements *)

Definition fair_world (w : request_world) : Prop := forall i d, rtc dstep d (rw_others w i d).

Lemma fair_others w i d0 d : fair_world w -> rtc dstep d0 d -> rtc dstep d0 (rw_others w i d).
Proof. intros Hw Hs. etrans; [exact Hs|apply Hw]. Qed.

Lemma start_steps c created deployment d0 d : rtc dstep d0 d -> rtc dstep d0 (start_deployment_pipeline c created deployment d).2.
Proof.
  intros Hs. unfold start_deployment_pipeline. destruct created as [[p status]|e]; [|done]. apply committed_state; [done|]. eapply rtc_r; [exact Hs|apply ds_attach].
Qed.

Lemma create_deployment_steps w environment input l d : fair_world w -> rtc dstep d (create_deployment w environment input l d).2.
Proof.
  intros Hw. unfold create_deployment. cbv zeta. assert (H2 : rtc dstep d (rw_others w 2 (rw_others w 1 (rw_others w 0 d)))) by (do 3 (apply fair_others; [done|]); done).
  set (d2 := rw_others w 2 _) in *. destruct (admit_deployment _ _ _ _ _) as [[[approval typed] st]|e]; [|done].
  destruct (insert_deployment _ _ d2) as [d2'|e] eqn:Ei; [|done]. assert (H2' : rtc dstep d d2') by (eapply rtc_r; [exact H2|by eapply ds_insert]).
  assert (H3 : rtc dstep d (commit_to (rw_commit w 0%nat) tt d2 d2').2) by (by apply committed_state).
  destruct (commit_to _ tt d2 d2') as [[[]|e] d3]; [|done]. cbn [snd] in H3.
  assert (H4 : rtc dstep d (if typed && negb approval then start_deployment_pipeline (rw_commit w 1%nat) (rw_created w) (rw_id w) (rw_others w 3 d3) else (Ok 0%N, d3)).2).
  { destruct (_ && _); [|done]. by apply start_steps, fair_others. }
  destruct (if typed && negb approval then _ else _) as [[n|e] d4]; [|done]. cbn [snd] in *. by apply fair_others.
Qed.

Lemma record_approval_steps w claims deployment input d : fair_world w -> rtc dstep d (record_deployment_approval w claims deployment input d).2.
Proof.
  intros Hw. unfold record_deployment_approval. cbv zeta. match goal with |- context [match ?x with Ok _ => _ | Err _ => _ end] => destruct x as [[[decision actor] comment]|e] end; [|done].
  assert (Hd0 : rtc dstep d (rw_others w 0 d)) by (by apply fair_others). set (d0 := rw_others w 0 d) in *.
  destruct (decide_tx _ _ _ _ _ _ d0) as [[start d0']|e] eqn:Ed; [|done]. assert (Hd0' : rtc dstep d d0') by (eapply rtc_r; [exact Hd0|by eapply ds_decide]).
  assert (H1 : rtc dstep d (commit_to (rw_commit w 0%nat) tt d0 d0').2) by (by apply committed_state).
  destruct (commit_to _ tt d0 d0') as [[[]|e] d1]; [|done]. cbn [snd] in H1. destruct (rw_audit w); [|done].
  assert (H2 : rtc dstep d (if start then start_deployment_pipeline (rw_commit w 1%nat) (rw_created w) deployment (rw_others w 1 d1) else (Ok 0%N, d1)).2).
  { destruct start; [|done]. by apply start_steps, fair_others. }
  destruct (if start then _ else _) as [[n|e] d2]; [|done]. cbn [snd] in *. by apply fair_others.
Qed.

Lemma rollback_steps w deployment requested d : fair_world w -> rtc dstep d (rollback_deployment w deployment requested d).2.
Proof.
  intros Hw. unfold rollback_deployment. cbv zeta. assert (Hd0 : rtc dstep d (rw_others w 0 d)) by (by apply fair_others). set (d0 := rw_others w 0 d) in *.
  destruct (admit_rollback deployment requested (rw_now w) d0) as [[row approval]|e] eqn:Ea; [|done]. assert (H1 : rtc dstep d (rw_others w 1 d0)) by (by apply fair_others).
  set (d1 := rw_others w 1 d0) in *. destruct (insert_deployment (rw_id w) row d1) as [d1'|e] eqn:Ei; [|done].
  assert (H1' : rtc dstep d d1').
  { unfold admit_rollback in Ea. apply rbind_Ok_inv in Ea as (r & _ & Ea). apply rbind_Ok_inv in Ea as (e & _ & Ea). destruct (negb _); [done|].
    apply rbind_Ok_inv in Ea as (git_ref & _ & [= <- <-]). eapply rtc_r; [exact H1|by eapply ds_insert]. }
  assert (H2 : rtc dstep d (commit_to (rw_commit w 0%nat) tt d1 d1').2) by (by apply committed_state).
  destruct (commit_to _ tt d1 d1') as [[[]|e] d2]; [|done]. cbn [snd] in H2.
  assert (H3 : rtc dstep d (if approval then (Ok 0%N, d2) else start_deployment_pipeline (rw_commit w 1%nat) (rw_created w) (rw_id w) (rw_others w 2 d2)).2).
  { destruct approval; [done|]. by apply start_steps, fair_others. }
  destruct (if approval then _ else _) as [[n|e] d3]; [|done]. cbn [snd] in *. by apply fair_others.
Qed.

Lemma reconcile_steps now locked others l l' facts d : (forall d, rtc dstep d (others d)) ->
  rtc dstep d (reconcile_deployment_results now locked others l l' facts d).2.
Proof.
  intros Ho. unfold reconcile_deployment_results. eapply rtc_r; [|apply ds_follow]. etrans; [|apply Ho]. apply rtc_once, ds_hold.
Qed.
End system.

(** ** A decision whose pipeline was not started *)

(** It has its approvals, and neither a rejection nor a pipeline. *)
Definition decided_unstarted (deployment : N) (d : delivery) : Prop := exists r e,
  deployments d !! deployment = Some r /\ dp_status r = DeploymentPending /\ dp_pipeline r = None /\
  environments d !! dp_environment r = Some e /\ requires_approval (policy_of e) = true /\ en_required e <= decision_count deployment Approve d.

Lemma decided_count id row (t t' : gmap N approval_row) : insert_row id row t = Ok t' ->
  zlen (select (decided (ap_deployment row) (ap_decision row)) t') = zlen (select (decided (ap_deployment row) (ap_decision row)) t) + 1.
Proof.
  intros (Hn & -> & _)%insert_row_Ok. unfold zlen. rewrite length_select_insert by done. unfold decided at 2. rewrite N.eqb_refl, bool_decide_true by done. cbn. lia.
Qed.

