(* ===== verification/DeploymentSample.v ===== *)
(** * Deployments: an approved rollout, a rollback, a replay *)
From S2P Require Import Prelude Url Images Table Status Ledger LedgerHandlers LedgerSafety LedgerTheorems Helm Outbox Api Runners Uploads Deployments DeploymentRuntime DeploymentSafety DeploymentTheorems.
Local Open Scope Z_scope.

#[local] Instance the_crate : UrlCrate := sample_crate.
#[local] Existing Instance plain_uuid.

Definition plain_hash (_ : list N) : str := repeat 98%N 64.
Definition plain_publish (_ : json) : option ImagePublishSpec := Some sample_publish.
Definition plain_published (_ : list N) : option PublishedImage := Some sample_image.
Definition plain_request (_ : stored KubernetesTarget) : result str ApiError := Ok [].

Abbreviation sample_prepare := (prepare plain_hash plain_publish plain_published plain_request).
Abbreviation sample_step := (rollout_step plain_hash plain_publish plain_published plain_request).
Abbreviation sample_reachable := (rollout_reachable plain_hash plain_publish plain_published plain_request).

(** ** The tables a claim reads *)

Definition built : ledger :=
  {| core := {| jobs := {[ 5%N := {| job_stage := 6; job_status := Success; allow_failure := false; job_manual := false; job_command := §"forge:image-publish";
                                     job_required_tags := []; job_timeout_seconds := None; job_started_at := None; job_finished_at := None |} ]};
                stages := {[ 6%N := {| stage_pipeline := 7; stage_position := 0; stage_status := Success |} ]};
                pipelines := {[ 7%N := {| project_id := 9; pipeline_status := Running; started_at := None; finished_at := None;
                                          pipeline_created_at := 0; has_plan := true |} ]};
                events := []; wakeups := 0 |};
     attempts := {[ 15%N := set_attempt Success §"initial" None (Some 1) (Some 0) None (new_attempt 0 5 1 Queued §"initial") ]};
     leases := ∅; queue := ∅; max_running_jobs := ∅ |}.

Definition built_file (name path : str) : artifact_row :=
  {| ar_job := 5; ar_attempt := 15; ar_name := name; ar_storage_path := path; ar_content_type := §"application/json"; ar_sha256 := Some (plain_hash []);
     ar_size := 1; ar_expires_at := 100; ar_purged_at := None |}.

Definition built_store : store :=
  {| sessions := ∅; chunks := ∅; blobs := ∅;
     artifacts := {[ 70%N := built_file §"out__image.json" §"/var/70"; 71%N := built_file §"out__build.json" §"/var/71" ]};
     files := {[ §"/var/70" := [1%N]; §"/var/71" := [2%N] ]} |}.

Definition view_for (deployment : N) : ci_view :=
  {| cv_ledger := built;
     cv_facts := {[ 7%N := {| pf_git_ref := §"main"; pf_deployment := Some (uuid_text deployment); pf_order := 3; pf_sources := [§"deployment-approval"] |} ]};
     cv_job_names := {[ 5%N := §"image" ]}; cv_artifacts := built_store; cv_artifact_created _ := 0; cv_contained _ := true |}.

Definition deploy_plan : json :=
  JsonObject [(§"jobs", JsonArray [JsonObject [(§"key", JsonText §"image"); (§"image_publish", JsonObject [])];
                                   JsonObject [(§"key", JsonText §"deploy"); (§"needs", JsonArray [JsonText §"image"])]])].

Definition sample_execution : execution :=
  {| ex_pipeline := 7; ex_job := 1; ex_job_key := §"deploy"; ex_attempt := 11; ex_lease := 31; ex_generation := 1; ex_commit := sample_commit; ex_plan := deploy_plan |}.
Definition sample_spec : HelmDeploySpec :=
  {| hd_environment_id := 40; hd_images := {[ §"web.image" := {| bd_job := §"image"; bd_artifact := §"out/image.json" |} ]}; hd_receipt_artifact := §"out/receipt.json" |}.

(** ** A protected environment, a deployment, its approval *)

Definition d0 : delivery := {| environments := ∅; deployments := ∅; approvals := ∅ |}.
Definition d1 : delivery := (create_environment Committed 40 0 9 {| ce_target := Some sample_target; ce_name := §"prod"; ce_url := None; ce_protected := Some true;
  ce_required := None |} Sample.acknowledged d0).2.
Definition quiet (id : N) (created : result (N * JobStatus) ApiError) : request_world :=
  {| rw_id := id; rw_now := 1; rw_commit _ := Committed; rw_others _ d := d; rw_created := created; rw_audit := Ok tt |}.
Definition d2 : delivery := (create_deployment (quiet 50 (Err internal)) 40 {| cd_git_ref := §"main"; cd_pipeline := None; cd_status := None |} Sample.acknowledged d1).2.
Definition approval : RecordDeploymentApproval := {| ra_decision := §" Approve "; ra_actor := Some §"alice"; ra_comment := None |}.
Definition d3 : delivery := (record_deployment_approval (quiet 60 (Ok (7%N, Queued))) None 50 approval d2).2.
(** The claim offers the deployment to lease 31. *)
Definition d4 : delivery := match sample_prepare 2 (view_for 50) None 51 sample_execution sample_spec d3 with Ok (_, d) => d | Err _ => d0 end.

Definition offered_50 : DeploymentOffer := match (r ← deployments d4 !! 50%N; dp_input r) with Some (Readable o) => o | _ => sample_offer None end.

Definition observation_of (phase : str) (receipt : option DeploymentReceipt) : DeploymentObservation :=
  {| ob_schema := §"forge/kubernetes-deployment-observation/v1"; ob_phase := phase; ob_deployment_id := 50; ob_pipeline_id := 7; ob_attempt_id := 11; ob_lease_id := 31;
     ob_generation := 1; ob_source_commit := sample_commit; ob_namespace_uid := 9; ob_release_revision := Some 4; ob_receipt := receipt |}.
Definition live_receipt : DeploymentReceipt :=
  {| rc_schema := §"forge/kubernetes-deployment/v1"; rc_deployment_id := 50; rc_pipeline_id := 7; rc_attempt_id := 11; rc_lease_id := 31; rc_generation := 1;
     rc_source_commit := sample_commit; rc_cluster := §"pdlc"; rc_namespace := §"r1-dev"; rc_namespace_uid := 9; rc_release := §"r1"; rc_release_revision := 4;
     rc_images := {[ §"web.image" := pi_image_ref sample_image ]}; rc_health_status := 204; rc_health_transport := §"public-https" |}.

Definition report_of (outcome : JobStatus) : completion :=
  {| cp_runner := 3; cp_token_hash := §"secret"; cp_generation := 1; cp_attempt := 11; cp_terminal := outcome; cp_exit_code := Some 0; cp_finished_at := 6;
     cp_diagnostic := None |}.
Definition after_finish (outcome : JobStatus) (o : DeploymentObservation) (d : delivery) : delivery :=
  match finish 11 31 1 outcome (Some o) d with Ok d => d | Err _ => d0 end.

(** It succeeds. *)
Definition d5 : delivery := after_finish Success (observation_of §"deployed" (Some live_receipt)) d4.
Definition closed (outcome : JobStatus) : ledger := (complete_runner_lease_tx 4 31 (report_of outcome) Sample.acknowledged).2.

Definition d3a : delivery := match decide_tx 60 1 50 Approve §"alice" None d2 with Ok (_, d) => d | Err _ => d0 end.

Definition at_ledger (d : delivery) (y : rollout) : rollout := advance (ro_ledger y) d y.
Definition y0 : rollout := rollout_start Sample.acknowledged.
Definition y2 : rollout := at_ledger d2 (at_ledger d1 y0).
Definition y3 : rollout := at_ledger d3 (at_ledger d3a y2).
Definition y4 : rollout := at_ledger d4 y3.
Definition y5 : rollout := advance (closed Success) d5 y4.

Definition nothing_gone (y : rollout) : bool :=
  bool_decide (ro_deployments y ⊆ dom (deployments (ro_delivery y))) && bool_decide (ro_environments y ⊆ dom (environments (ro_delivery y))).

Lemma nothing_gone_fresh y d : nothing_gone y = true -> fresh_ids d y.
Proof.
  intros [H1%bool_decide_eq_true_1 H2%bool_decide_eq_true_1]%andb_true_iff. split; intros k Hk Hn; exfalso.
  - apply H1, elem_of_dom in Hk as [? ?]. congruence.
  - apply H2, elem_of_dom in Hk as [? ?]. congruence.
Qed.

Lemma sample_delivery y d : delivery_step plain_hash plain_publish plain_published plain_request (ro_delivery y) d -> nothing_gone y = true -> sample_step y (at_ledger d y).
Proof. intros Hs Hn. apply rs_delivery; [exact Hs|by apply nothing_gone_fresh]. Qed.

Lemma y0_y3 : rtc sample_step y0 y3.
Proof.
  eapply rtc_l; [apply (sample_delivery y0 d1); [apply ds_create_environment|vm_compute; reflexivity]|].
  eapply rtc_l; [apply (sample_delivery (at_ledger d1 y0) d2); [|vm_compute; reflexivity]|].
  { apply (ds_insert _ _ _ _ _ 50 40 None None §"main" DeploymentPending 1). vm_compute. reflexivity. }
  eapply rtc_l; [apply (sample_delivery y2 d3a); [|vm_compute; reflexivity]|].
  { apply (ds_decide _ _ _ _ _ 60 1 50 Approve §"alice" None true). vm_compute. reflexivity. }
  eapply rtc_l; [apply (sample_delivery (at_ledger d3a y2) d3); [|vm_compute; reflexivity]|apply rtc_refl].
  assert (E : d3 = attach_pipeline 50 7 Queued d3a) by (vm_compute; reflexivity). rewrite E. apply ds_attach.
Qed.

Lemma prepared_50 : sample_prepare 2 (view_for 50) None 51 sample_execution sample_spec d3 = Ok (Some offered_50, d4).
Proof. vm_compute. reflexivity. Qed.

Lemma y3_y5 : rtc sample_step y3 y5.
Proof.
  eapply rtc_l; [apply (sample_delivery y3 d4); [|vm_compute; reflexivity]|].
  { eapply ds_prepare. exact prepared_50. }
  eapply rtc_l; [|apply rtc_refl]. apply (rs_complete _ _ _ _ y4 4 31 (report_of Success) 5 (closed Success) (Some (observation_of §"deployed" (Some live_receipt))) d5);
    vm_compute; reflexivity.
Qed.

Lemma reached_y3 : sample_reachable y3.
Proof. exists Sample.acknowledged. exact y0_y3. Qed.
Lemma reached_y5 : sample_reachable y5.
Proof. exists Sample.acknowledged. etrans; [exact y0_y3|exact y3_y5]. Qed.

Definition row_50 : deployment_row := default (new_deployment 0 None None [] DeploymentPending 0) (deployments d5 !! 50%N).
Definition environment_40 : environment_row := default (Build_environment_row 0 [] None Available false 0 None 0) (environments d3 !! 40%N).

Lemma deployments_sound_witness : dp_status row_50 = DeploymentSuccess /\
  exists o receipt x, dp_input row_50 = Some (Readable o) /\ rc_images receipt = image_refs (of_images o) /\
    leases (ro_ledger y5) !! of_lease_id o = Some x /\ le_terminal_status x = Some Success.
Proof.
  split; [vm_compute; reflexivity|]. destruct (deployments_sound plain_hash plain_publish plain_published plain_request y5 reached_y5) as (_ & _ & _ & Hrow).
  destruct (Hrow 50%N row_50 Finished) as (o & Ho & Hend); [vm_compute; reflexivity|vm_compute; reflexivity|].
  destruct (Hend eq_refl) as (rc & Hi & _ & _ & x & Hx & _ & Ht); [vm_compute; reflexivity|]. exists o, rc, x. split; [exact (tr_input _ _ _ _ Ho)|]. by split_and!.
Defined.

Lemma protected_rollout_witness : en_protected environment_40 = true /\
  exists k actors, of_deployment_id offered_50 = 50%N /\ 1 <= zlen actors /\
    forall actor, actor ∈ actors -> exists i a, approvals d3 !! i = Some a /\ ap_deployment a = k /\ ap_decision a = Approve /\ ap_actor a = actor.
Proof.
  split; [vm_compute; reflexivity|].
  destruct (protected_rollout plain_hash plain_publish plain_published plain_request y3 2 (view_for 50) None 51 sample_execution sample_spec offered_50 d4 environment_40)
    as (k & r & _ & _ & _ & _ & (actors & _ & Hl & Ha) & _).
  - exact reached_y3.
  - exact prepared_50.
  - vm_compute. reflexivity.
  - vm_compute. reflexivity.
  - exists k, actors. split; [vm_compute; reflexivity|]. split; [exact Hl|exact Ha].
Defined.

Lemma rollout_history_witness : dp_status row_50 = DeploymentSuccess /\
  exists r, deployments d5 !! 50%N = Some r /\ dp_phase r = Some Finished /\ dp_receipt r = dp_receipt row_50.
Proof.
  split; [vm_compute; reflexivity|].
  destruct (rollout_history plain_hash plain_publish plain_published plain_request y5 y5 50 row_50) as [[(r & Hr & Hp & _ & _ & _ & Hrec)|[Hn _]] _].
  - exact reached_y5.
  - apply rtc_refl.
  - vm_compute. reflexivity.
  - vm_compute. reflexivity.
  - exists r. split; [exact Hr|]. split; [exact Hp|]. apply Hrec. vm_compute. reflexivity.
  - exfalso. vm_compute in Hn. discriminate Hn.
Defined.



(** ** A replayed report *)

(** The deployment fails, and people mark the environment as available. *)
Definition d_failed : delivery := after_finish Failed (observation_of §"failed" None) d4.
Definition d_repaired : delivery :=
  (update_environment Committed 40 {| ue_target := None; ue_name := None; ue_url := None; ue_status := Some §"available"; ue_protected := None; ue_required := None |}
     d_failed d_failed).2.
Definition environment_status_of (d : delivery) : option EnvironmentStatus := en_status <$> environments d !! 40%N.

(** The report of the end comes again after the lease ran out: it is accepted,
    and the old observation decides the status once more. *)
Lemma replay_degrades :
  environment_status_of d_failed = Some Degraded /\ environment_status_of d_repaired = Some Available /\
  (acknowledge_stopped (seconds 200) (report_of Failed) true 31 1 (closed Failed)).1 = true /\
  environment_status_of (after_finish Failed (observation_of §"failed" None) d_repaired) = Some Degraded.
Proof. vm_compute. by split_and!. Qed.
