(* ===== verification/Scheduler.v ===== *)
(** * The scheduler: slots of cron schedules and the pipelines they start

    [fire_due_schedules] of [backend/src/outbox.rs] and the handlers of
    [platform.rs] that write [schedules].  A supervisor reads what is due,
    materialises one slot per schedule and starts a pipeline for every pending
    slot; supervisors of several processes run side by side. *)
From S2P Require Import Prelude Table Schedule Outbox.

Record schedule_row : Type := {
  sr_project : N;
  sr_cron : str;
  sr_git_ref : str;
  sr_enabled : bool;
  sr_next_fire_at : option Z;
  sr_last_fired_at : option Z;
  sr_last_fire_error : option str;
  sr_owner : option N;
  sr_created_at : Z }.

Inductive fire_status : Type := FirePending | FireTriggered | FireFailed.

Record fire_row : Type := {
  fr_schedule : N;
  fr_project : N;
  fr_scheduled_for : Z;
  fr_status : fire_status;
  fr_pipeline : option N;
  fr_error : option str;
  fr_owner : option N;
  fr_created_at : Z }.

#[export] Instance fire_status_eq_dec : EqDecision fire_status.
Proof. solve_decision. Defined.

(** [UNIQUE(schedule_id, scheduled_for)] *)
#[export] Instance fire_schema : Schema fire_row.
Proof.
  refine {| check _ := true;
            conflict x y := (fr_schedule x =? fr_schedule y)%N && (fr_scheduled_for x =? fr_scheduled_for y)%Z |}.
  intros x y. by rewrite N.eqb_sym, Z.eqb_sym.
Defined.

(** The tables of the scheduler. *)
Record scheduler : Type := { schedules : gmap N schedule_row; schedule_fires : gmap N fire_row }.

Definition set_schedules (f : gmap N schedule_row -> gmap N schedule_row) (d : scheduler) : scheduler :=
  {| schedules := f (schedules d); schedule_fires := schedule_fires d |}.
Definition set_fires (f : gmap N fire_row -> gmap N fire_row) (d : scheduler) : scheduler :=
  {| schedules := schedules d; schedule_fires := f (schedule_fires d) |}.

Definition set_next (next : option Z) (error : option str) (s : schedule_row) : schedule_row := {|
  sr_project := sr_project s; sr_cron := sr_cron s; sr_git_ref := sr_git_ref s; sr_enabled := sr_enabled s;
  sr_next_fire_at := next; sr_last_fired_at := sr_last_fired_at s; sr_last_fire_error := error;
  sr_owner := sr_owner s; sr_created_at := sr_created_at s |}.

Definition set_fire (status : fire_status) (pipeline : option N) (error : option str) (f : fire_row) : fire_row := {|
  fr_schedule := fr_schedule f; fr_project := fr_project f; fr_scheduled_for := fr_scheduled_for f; fr_status := status;
  fr_pipeline := pipeline; fr_error := error; fr_owner := fr_owner f; fr_created_at := fr_created_at f |}.

(** ** What is due *)

Record due_schedule : Type := { du_id : N; du_cron : str; du_next : option Z }.

Definition is_due (now : Z) (s : schedule_row) : bool :=
  sr_enabled s && is_none (sr_last_fire_error s)
  && match sr_next_fire_at s with None => true | Some t => (t <=? now)%Z end.

(** [ORDER BY next_fire_at ASC NULLS FIRST, created_at ASC] *)
Definition schedule_order (a b : N * schedule_row) : Prop :=
  match sr_next_fire_at a.2, sr_next_fire_at b.2 with
  | None, Some _ => True
  | Some _, None => False
  | None, None => (sr_created_at a.2 <= sr_created_at b.2)%Z
  | Some x, Some y => (x < y)%Z \/ x = y /\ (sr_created_at a.2 <= sr_created_at b.2)%Z
  end.
#[export] Instance schedule_order_dec : RelDecision schedule_order.
Proof. intros a b. unfold schedule_order. repeat case_match; apply _. Defined.

Definition due_schedules (now : Z) (d : scheduler) : list due_schedule :=
  map (fun ks => {| du_id := ks.1; du_cron := sr_cron ks.2; du_next := sr_next_fire_at ks.2 |})
      (take 10 (merge_sort schedule_order (select (fun _ => is_due now) (schedules d)))).

(** ** Slots *)

(** [mark_schedule_error] *)
Definition mark_schedule_error (id : N) (error : str) (d : scheduler) : scheduler :=
  set_schedules (alter (set_next None (Some error)) id) d.

Definition no_fire_time : str := §"cron expression has no matching fire time in the next five years".
Definition no_later_fire_time : str := §"cron expression has no matching fire time after the due slot".

Section materialize.
Context `{Chrono}.

(** [materialize_schedule_fire] for a row read before; the last statement
    moves the schedule and inserts the slot together. *)
Definition materialize_schedule_fire (now : Z) (fire_id : N) (due : due_schedule) (d : scheduler) : scheduler :=
  match parse_cron (du_cron due) with
  | Err error => mark_schedule_error (du_id due) error d
  | Ok parsed =>
    match du_next due with
    | None =>
      match next_fire_after parsed now with
      | None => mark_schedule_error (du_id due) no_fire_time d
      | Some next =>
        set_schedules (update_where (fun id s => (id =? du_id due)%N && (sr_enabled s && is_none (sr_next_fire_at s)))
                                    (set_next (Some next) None)) d
      end
    | Some scheduled_for =>
      match next_fire_after parsed scheduled_for with
      | None => mark_schedule_error (du_id due) no_later_fire_time d
      | Some following =>
        match schedules d !! du_id due with
        | Some s =>
          if sr_enabled s && bool_decide (sr_next_fire_at s = Some scheduled_for) then
            let d' := set_schedules (insert (du_id due) (set_next (Some following) None s)) d in
            match insert_row fire_id {| fr_schedule := du_id due; fr_project := sr_project s; fr_scheduled_for := scheduled_for;
                                        fr_status := FirePending; fr_pipeline := None; fr_error := None; fr_owner := sr_owner s;
                                        fr_created_at := now |} (schedule_fires d) with
            | Ok t => set_fires (fun _ => t) d'
            | Err _ => d'
            end
          else d
        | None => d
        end
      end
    end
  end.

(** [schedule_next_fire_at] ([platform.rs]) *)
Definition schedule_next_fire_at (now : Z) (cron : str) (enabled : bool) : result (option Z) str :=
  if enabled then let? t := next_fire_after_expr cron now in Ok (Some t) else Ok None.

Definition create_schedule (now : Z) (id project : N) (cron git_ref : str) (enabled : option bool) (owner : option N) (d : scheduler) :
    result scheduler str :=
  if is_empty (trim git_ref) then Err §"git_ref is required"
  else
    let? next := schedule_next_fire_at now (trim cron) (default true enabled) in
    Ok (set_schedules (insert id {| sr_project := project; sr_cron := trim cron; sr_git_ref := trim git_ref;
                                    sr_enabled := default true enabled; sr_next_fire_at := next; sr_last_fired_at := None;
                                    sr_last_fire_error := None; sr_owner := owner; sr_created_at := now |}) d).

Definition update_schedule (now : Z) (id : N) (cron git_ref : str) (enabled : option bool) (owner : option N) (d : scheduler) :
    result (option scheduler) str :=
  match schedules d !! id with
  | None => Ok None
  | Some s =>
    if is_empty (trim git_ref) then Err §"git_ref is required"
    else
      let? next := schedule_next_fire_at now (trim cron) (default true enabled) in
      Ok (Some (set_schedules (insert id {| sr_project := sr_project s; sr_cron := trim cron; sr_git_ref := trim git_ref;
                                            sr_enabled := default true enabled; sr_next_fire_at := next;
                                            sr_last_fired_at := sr_last_fired_at s; sr_last_fire_error := None;
                                            sr_owner := owner; sr_created_at := sr_created_at s |}) d))
  end.

Definition delete_schedule (id : N) (d : scheduler) : option scheduler :=
  match schedules d !! id with
  | Some _ => Some {| schedules := delete id (schedules d); schedule_fires := filter (fun kf => fr_schedule kf.2 <> id) (schedule_fires d) |}
  | None => None
  end.
End materialize.

(** ** Pending slots *)

Record pending_fire : Type := {
  pf_id : N; pf_schedule : N; pf_project : N; pf_scheduled_for : Z; pf_git_ref : str; pf_owner : option N }.

Definition fire_order (a b : N * fire_row) : Prop :=
  (fr_scheduled_for a.2 < fr_scheduled_for b.2)%Z \/
  fr_scheduled_for a.2 = fr_scheduled_for b.2 /\ (fr_created_at a.2 <= fr_created_at b.2)%Z.
#[export] Instance fire_order_dec : RelDecision fire_order.
Proof. intros a b. unfold fire_order. apply _. Defined.

(** The join of [schedule_fires] with [schedules]. *)
Definition pending_fires (d : scheduler) : list pending_fire :=
  omap (fun kf => s ← schedules d !! fr_schedule kf.2;
                  Some {| pf_id := kf.1; pf_schedule := fr_schedule kf.2; pf_project := fr_project kf.2;
                          pf_scheduled_for := fr_scheduled_for kf.2; pf_git_ref := sr_git_ref s; pf_owner := fr_owner kf.2 |})
       (take 10 (merge_sort fire_order
          (select (fun _ f => bool_decide (fr_status f = FirePending) && is_some (schedules d !! fr_schedule f)) (schedule_fires d)))).

(** [schedule_idempotency_key]; [rfc3339] is [to_rfc3339] of an instant. *)
Definition schedule_idempotency_key `{UuidText} (rfc3339 : Z -> str) (f : pending_fire) : str :=
  §"schedule:" ++ uuid_text (pf_schedule f) ++ §":" ++ rfc3339 (pf_scheduled_for f).

(** What the creation of the pipeline answers. *)
Inductive trigger_answer : Type := Triggered (pipeline : N) | ServerError (message : str) | ClientError (message : str).

(** The statements that follow an answer. *)
Inductive fire_write : Type :=
| MarkTriggered (fire pipeline : N)
| MarkFired (schedule : N) (scheduled_for : Z)
| KeepPending (fire : N) (error : str)
| MarkFireFailed (fire : N) (error : str)
| MarkError (schedule : N) (error : str).

Definition fire_writes (f : pending_fire) (a : trigger_answer) : list fire_write :=
  match a with
  | Triggered pipeline => [MarkTriggered (pf_id f) pipeline; MarkFired (pf_schedule f) (pf_scheduled_for f)]
  | ServerError error => [KeepPending (pf_id f) error]
  | ClientError error => [MarkFireFailed (pf_id f) error; MarkError (pf_schedule f) error]
  end.

Definition is_pending (f : fire_row) : bool := bool_decide (fr_status f = FirePending).

Definition mark_fired (scheduled_for : Z) (s : schedule_row) : schedule_row := {|
  sr_project := sr_project s; sr_cron := sr_cron s; sr_git_ref := sr_git_ref s; sr_enabled := sr_enabled s;
  sr_next_fire_at := sr_next_fire_at s;
  sr_last_fired_at := Some (match sr_last_fired_at s with Some t => Z.max t scheduled_for | None => scheduled_for end);
  sr_last_fire_error := None; sr_owner := sr_owner s; sr_created_at := sr_created_at s |}.

Definition run_fire_write (w : fire_write) (d : scheduler) : scheduler :=
  match w with
  | MarkTriggered fire pipeline =>
    set_fires (update_where (fun id f => (id =? fire)%N && is_pending f) (set_fire FireTriggered (Some pipeline) None)) d
  | MarkFired schedule scheduled_for => set_schedules (alter (mark_fired scheduled_for) schedule) d
  | KeepPending fire error =>
    set_fires (update_where (fun id f => (id =? fire)%N && is_pending f) (fun f => set_fire (fr_status f) (fr_pipeline f) (Some error) f)) d
  | MarkFireFailed fire error =>
    set_fires (update_where (fun id _ => (id =? fire)%N) (fun f => set_fire FireFailed (fr_pipeline f) (Some error) f)) d
  | MarkError schedule error => mark_schedule_error schedule error d
  end.
