(* ===== verification/SchedulerTheorems.v ===== *)
(** * The scheduler: every slot once, in order

    Supervisors in parallel: what they read, what they are about to write, and
    the pipelines created so far by idempotency key. *)
From S2P Require Import Prelude Table Schedule Outbox OutboxTheorems Scheduler.

Section system.
Context `{UuidText} `{Chrono} (rfc3339 : Z -> str).

(** A slot being triggered, or whose statements are left. *)
Inductive work : Type :=
| Waiting (f : pending_fire)
| Settling (f : pending_fire) (ws : list fire_write).

Definition wk_fire (w : work) : pending_fire := match w with Waiting f | Settling f _ => f end.

Record system : Type := {
  ss_clock : Z;
  ss_db : scheduler;
  ss_due : list due_schedule;
  ss_work : list work;
  ss_keys : gmap str N }.

(** The creation of a pipeline under a key: a known key gives its pipeline, a
    new one a new pipeline, and a failure may come after the commit. *)
Inductive answers (key : str) (keys : gmap str N) : trigger_answer -> gmap str N -> Prop :=
| answer_new p : keys !! key = None -> (forall k, keys !! k <> Some p) -> answers key keys (Triggered p) (<[key := p]> keys)
| answer_known p : keys !! key = Some p -> answers key keys (Triggered p) keys
| answer_lost e p : keys !! key = None -> (forall k, keys !! k <> Some p) -> answers key keys (ServerError e) (<[key := p]> keys)
| answer_server e : answers key keys (ServerError e) keys
| answer_client e : answers key keys (ClientError e) keys.

(** [accepted] are the schedules whose triggers are never refused, and that
    nobody edits. *)
Context (accepted : N -> Prop).

Definition refused (a : trigger_answer) : Prop := match a with ClientError _ => True | _ => False end.

Inductive step : system -> system -> Prop :=
| step_read_due now s : (ss_clock s <= now)%Z ->
    step s {| ss_clock := now; ss_db := ss_db s; ss_due := due_schedules now (ss_db s) ++ ss_due s; ss_work := ss_work s; ss_keys := ss_keys s |}
| step_materialize now fire_id du pre post s :
    (ss_clock s <= now)%Z -> ss_due s = pre ++ du :: post ->
    schedule_fires (ss_db s) !! fire_id = None -> (forall w, w ∈ ss_work s -> pf_id (wk_fire w) <> fire_id) ->
    step s {| ss_clock := now; ss_db := materialize_schedule_fire now fire_id du (ss_db s); ss_due := pre ++ post;
              ss_work := ss_work s; ss_keys := ss_keys s |}
| step_forget du pre post s : ss_due s = pre ++ du :: post ->
    step s {| ss_clock := ss_clock s; ss_db := ss_db s; ss_due := pre ++ post; ss_work := ss_work s; ss_keys := ss_keys s |}
| step_read_fires now s : (ss_clock s <= now)%Z ->
    step s {| ss_clock := now; ss_db := ss_db s; ss_due := ss_due s; ss_work := map Waiting (pending_fires (ss_db s)) ++ ss_work s;
              ss_keys := ss_keys s |}
| step_answer now f a keys' pre post s :
    (ss_clock s <= now)%Z -> ss_work s = pre ++ Waiting f :: post ->
    answers (schedule_idempotency_key rfc3339 f) (ss_keys s) a keys' -> (accepted (pf_schedule f) -> ~ refused a) ->
    step s {| ss_clock := now; ss_db := ss_db s; ss_due := ss_due s; ss_work := pre ++ Settling f (fire_writes f a) :: post;
              ss_keys := keys' |}
| step_write now f w ws pre post s :
    (ss_clock s <= now)%Z -> ss_work s = pre ++ Settling f (w :: ws) :: post ->
    step s {| ss_clock := now; ss_db := run_fire_write w (ss_db s); ss_due := ss_due s; ss_work := pre ++ Settling f ws :: post;
              ss_keys := ss_keys s |}
| step_drop w pre post s : ss_work s = pre ++ w :: post ->
    step s {| ss_clock := ss_clock s; ss_db := ss_db s; ss_due := ss_due s; ss_work := pre ++ post; ss_keys := ss_keys s |}
| step_create now id project cron git_ref enabled owner d s :
    (ss_clock s <= now)%Z -> ~ accepted id -> schedules (ss_db s) !! id = None ->
    create_schedule now id project cron git_ref enabled owner (ss_db s) = Ok d ->
    step s {| ss_clock := now; ss_db := d; ss_due := ss_due s; ss_work := ss_work s; ss_keys := ss_keys s |}
| step_update now id cron git_ref enabled owner d s :
    (ss_clock s <= now)%Z -> ~ accepted id ->
    update_schedule now id cron git_ref enabled owner (ss_db s) = Ok (Some d) ->
    step s {| ss_clock := now; ss_db := d; ss_due := ss_due s; ss_work := ss_work s; ss_keys := ss_keys s |}
| step_delete now id d s :
    (ss_clock s <= now)%Z -> ~ accepted id -> delete_schedule id (ss_db s) = Some d ->
    step s {| ss_clock := now; ss_db := d; ss_due := ss_due s; ss_work := ss_work s; ss_keys := ss_keys s |}.
End system.

(** ** The slots of one schedule *)

Section slots.
Context `{UuidText} {C : Chrono} {L : ChronoLaws C} (rfc3339 : Z -> str) (accepted : N -> Prop).
Context (id : N) (cron : str) (parsed : CronSchedule) (first : Z).
Hypothesis (Hacc : accepted id) (Hparse : parse_cron cron = Ok parsed).
Hypothesis (Hlive : forall t, next_fire_after parsed t <> None).

(** The slots of the expression from the first one on. *)
Fixpoint slot (n : nat) : Z :=
  match n with O => first | S k => default (slot k) (next_fire_after parsed (slot k)) end.

Lemma slot_next n : next_fire_after parsed (slot n) = Some (slot (S n)).
Proof. cbn. destruct (next_fire_after parsed (slot n)) eqn:E; [done|by destruct (Hlive (slot n))]. Qed.

Lemma slot_lt n m : n < m -> (slot n < slot m)%Z.
Proof.
  assert (Hs : forall k, (slot k < slot (S k))%Z).
  { intros k. pose proof (next_fire_after_first parsed (slot k)) as Hf. rewrite slot_next in Hf. lia. }
  induction 1 as [|m Hm IH]; [apply Hs|]. specialize (Hs m). lia.
Qed.

Record good (n : nat) (s : system) : Prop := {
  g_row : exists r, schedules (ss_db s) !! id = Some r /\ sr_cron r = cron /\ sr_enabled r = true /\ sr_next_fire_at r = Some (slot n);
  g_due : forall du, du ∈ ss_due s -> du_id du = id -> du_cron du = cron /\ exists t, du_next du = Some t /\ (t <= ss_clock s)%Z;
  g_work : forall f ws e, Settling f ws ∈ ss_work s -> MarkError id e ∉ ws;
  g_fires : forall k f, schedule_fires (ss_db s) !! k = Some f -> fr_schedule f = id ->
    exists i, i < n /\ fr_scheduled_for f = slot i /\ (slot i <= ss_clock s)%Z;
  g_all : forall i, i < n -> exists k f, schedule_fires (ss_db s) !! k = Some f /\ fr_schedule f = id /\ fr_scheduled_for f = slot i;
  g_once : forall k k' f f', schedule_fires (ss_db s) !! k = Some f -> schedule_fires (ss_db s) !! k' = Some f' ->
    fr_schedule f = id -> fr_schedule f' = id -> fr_scheduled_for f = fr_scheduled_for f' -> k = k' }.

(** What a change of the tables keeps when it does not concern the schedule. *)
Record kept (d d' : scheduler) : Prop := {
  k_row : forall r, schedules d !! id = Some r -> exists r', schedules d' !! id = Some r' /\
    sr_cron r' = sr_cron r /\ sr_enabled r' = sr_enabled r /\ sr_next_fire_at r' = sr_next_fire_at r;
  k_fires : forall k f', schedule_fires d' !! k = Some f' -> fr_schedule f' = id ->
    exists f, schedule_fires d !! k = Some f /\ fr_schedule f = id /\ fr_scheduled_for f' = fr_scheduled_for f;
  k_kept : forall k f, schedule_fires d !! k = Some f -> fr_schedule f = id ->
    exists f', schedule_fires d' !! k = Some f' /\ fr_schedule f' = id /\ fr_scheduled_for f' = fr_scheduled_for f }.

Lemma kept_refl d : kept d d.
Proof. split; eauto 10. Qed.

Lemma good_kept n s now db' due work keys : good n s -> (ss_clock s <= now)%Z -> kept (ss_db s) db' ->
  (forall du, du ∈ due -> du_id du = id -> du_cron du = cron /\ exists t, du_next du = Some t /\ (t <= now)%Z) ->
  (forall f ws e, Settling f ws ∈ work -> MarkError id e ∉ ws) ->
  good n {| ss_clock := now; ss_db := db'; ss_due := due; ss_work := work; ss_keys := keys |}.
Proof.
  intros Hg Hn Hk Hd Hw. split; cbn; [|done|done|..].
  - destruct (g_row _ _ Hg) as (r & Hr & Ec & Ee & En). destruct (k_row _ _ Hk r Hr) as (r' & ? & ? & ? & ?). exists r'. split_and!; congruence.
  - intros k f' Hf' Ef'. destruct (k_fires _ _ Hk k f' Hf' Ef') as (f & Hf & Ef & ->).
    destruct (g_fires _ _ Hg k f Hf Ef) as (i & ? & ? & ?). exists i. split_and!; [done|done|lia].
  - intros i Hi. destruct (g_all _ _ Hg i Hi) as (k & f & Hf & Ef & Es). destruct (k_kept _ _ Hk k f Hf Ef) as (f' & ? & ? & ?).
    exists k, f'. split_and!; congruence.
  - intros k k' f1 f2 H1 H2 E1 E2 E. destruct (k_fires _ _ Hk k f1 H1 E1) as (g1 & ? & ? & ?), (k_fires _ _ Hk k' f2 H2 E2) as (g2 & ? & ? & ?).
    apply (g_once _ _ Hg k k' g1 g2); congruence.
Qed.

Lemma due_schedules_elem now d du : du ∈ due_schedules now d ->
  exists r, schedules d !! du_id du = Some r /\ is_due now r = true /\ du_cron du = sr_cron r /\ du_next du = sr_next_fire_at r.
Proof.
  intros ([i r] & -> & Hin)%list_elem_of_fmap. exists r. pose proof (elem_of_sublist _ _ _ Hin (sublist_take _ _)) as Hs.
  rewrite merge_sort_Permutation in Hs. by apply elem_of_select in Hs as [? ?].
Qed.

Lemma kept_schedules f d : (forall r, schedules d !! id = Some r -> exists r', f (schedules d) !! id = Some r' /\
    sr_cron r' = sr_cron r /\ sr_enabled r' = sr_enabled r /\ sr_next_fire_at r' = sr_next_fire_at r) -> kept d (set_schedules f d).
Proof. intros Hf. split; cbn; eauto 10. Qed.

Lemma kept_mark_error sch e d : sch <> id -> kept d (mark_schedule_error sch e d).
Proof. intros Hne. apply kept_schedules. intros r Hr. exists r. rewrite lookup_alter_ne by done. eauto. Qed.

Lemma kept_update_fires p g d : (forall f, fr_schedule (g f) = fr_schedule f /\ fr_scheduled_for (g f) = fr_scheduled_for f) ->
  kept d (set_fires (update_where p g) d).
Proof.
  intros Hg. split; cbn; [intros r Hr; by exists r|..].
  - intros k f' (f & Hf & ->)%update_where_Some. destruct (p k f); [|by exists f]. destruct (Hg f) as [-> ->]. by exists f.
  - intros k f Hf Ef. exists (if p k f then g f else f). rewrite lookup_update_where, Hf. cbn [fmap option_fmap option_map]. destruct (p k f); [|by split_and!].
    destruct (Hg f) as [-> ->]. by split_and!.
Qed.

Lemma kept_write w d : (forall e, w <> MarkError id e) -> kept d (run_fire_write w d).
Proof.
  intros Hw. destruct w as [k p|sch t|k e|k e|sch e]; cbn; try by apply kept_update_fires.
  - apply kept_schedules. intros r Hr. destruct (decide (sch = id)) as [->|Hne].
    + rewrite lookup_alter_eq, Hr. cbn. eauto.
    + rewrite lookup_alter_ne by done. eauto.
  - apply kept_mark_error. intros ->. by apply (Hw e).
Qed.

(** Materialising another schedule. *)
Lemma kept_materialize now fire_id du d : du_id du <> id -> schedule_fires d !! fire_id = None -> kept d (materialize_schedule_fire now fire_id du d).
Proof.
  intros Hne Hf. unfold materialize_schedule_fire. destruct (parse_cron (du_cron du)) as [p|e]; [|by apply kept_mark_error].
  destruct (du_next du) as [t|].
  - destruct (next_fire_after p t); [|by apply kept_mark_error].
    destruct (schedules d !! du_id du) as [r|] eqn:Er; [|apply kept_refl]. destruct (_ && _); [|apply kept_refl].
    assert (Hs : forall u, kept d (set_schedules (insert (du_id du) u) d)).
    { intros u. apply kept_schedules. intros r' Hr'. exists r'. rewrite lookup_insert_ne by done. eauto. }
    destruct (insert_row _ _ _) as [tb|] eqn:Ei; [|apply Hs]. apply insert_row_Ok in Ei as (_ & -> & _ & _).
    destruct (Hs (set_next (Some z) None r)) as [Hr Hfi Hk]. split; cbn in *; [done|..].
    + intros k f' [[<- <-]|[_ Hf']]%lookup_insert_Some Ef; [by cbn in Ef|eauto].
    + intros k f' Hf' Ef. exists f'. rewrite lookup_insert_ne by congruence. eauto.
  - destruct (next_fire_after p now); [|by apply kept_mark_error]. apply kept_schedules. intros r Hr. exists r.
    rewrite lookup_update_where, Hr. cbn. rewrite (proj2 (N.eqb_neq id (du_id du))) by congruence. eauto.
Qed.

(** Materialising the schedule: the slot it was read for, or nothing. *)
Lemma good_materialize n s now fire_id du pre post :
  good n s -> (ss_clock s <= now)%Z -> ss_due s = pre ++ du :: post -> du_id du = id -> schedule_fires (ss_db s) !! fire_id = None ->
  exists n', good n' {| ss_clock := now; ss_db := materialize_schedule_fire now fire_id du (ss_db s); ss_due := pre ++ post;
                        ss_work := ss_work s; ss_keys := ss_keys s |}.
Proof.
  intros Hg Hn Ed Ei Hf.
  assert (Hin : forall x, x ∈ pre ++ post -> x ∈ ss_due s) by (intros x; rewrite Ed, !elem_of_app, !elem_of_cons; tauto).
  assert (Hdu : du ∈ ss_due s) by (rewrite Ed; apply elem_of_app; right; left).
  assert (Hold : forall x, x ∈ pre ++ post -> du_id x = id -> du_cron x = cron /\ exists t, du_next x = Some t /\ (t <= now)%Z).
  { intros x Hx Ex. destruct (g_due _ _ Hg x (Hin x Hx) Ex) as (? & t & ? & ?). split; [done|]. exists t. split; [done|lia]. }
  destruct (g_due _ _ Hg du Hdu Ei) as (Ec & t & En & Ht). destruct (g_row _ _ Hg) as (r & Hr & Erc & Ere & Ern).
  unfold materialize_schedule_fire. rewrite Ec, Hparse, En, Ei, Hr, Ere, Ern.
  destruct (next_fire_after parsed t) as [following|] eqn:Ef; [|by destruct (Hlive t)]. cbn [andb].
  case_bool_decide as Et; [|exists n; by apply (good_kept n s); [| |apply kept_refl| |apply (g_work _ _ Hg)]].
  injection Et as <-. rewrite slot_next in Ef. injection Ef as <-.
  destruct (insert_row _ _ _) as [tb|] eqn:Eins.
  2:{ exfalso. unfold insert_row, put in Eins. rewrite Hf in Eins. cbn [check negb fire_schema] in Eins.
      destruct (exists_row _ _) eqn:Ex; [|done]. apply exists_row_true in Ex as (k & w & Hk & Hc). cbn in Hc.
      apply andb_true_iff in Hc as [_ [Es%N.eqb_eq Esl%Z.eqb_eq]%andb_true_iff].
      destruct (g_fires _ _ Hg k w Hk (eq_sym Es)) as (i & Hi & E & _). pose proof (slot_lt i n Hi). lia. }
  apply insert_row_Ok in Eins as (_ & -> & _ & _). exists (S n). split; cbn; [|done|apply (g_work _ _ Hg)|..].
  - exists (set_next (Some (slot (S n))) None r). rewrite lookup_insert_eq. done.
  - intros k f [[<- <-]|[_ Hk]]%lookup_insert_Some Efi.
    + exists n. split_and!; [lia|done|]. cbn in *. lia.
    + destruct (g_fires _ _ Hg k f Hk Efi) as (i & ? & ? & ?). exists i. split_and!; [lia|done|lia].
  - intros i Hi. destruct (decide (i = n)) as [->|Hne].
    + eexists fire_id, _. rewrite lookup_insert_eq. done.
    + destruct (g_all _ _ Hg i ltac:(lia)) as (k & f & Hk & ? & ?). exists k, f. rewrite lookup_insert_ne by congruence. done.
  - intros k k' f1 f2 [[<- <-]|[Hk H1]]%lookup_insert_Some [[<- <-]|[Hk' H2]]%lookup_insert_Some E1 E2 E; [done| | |].
    + cbn in E. destruct (g_fires _ _ Hg k' f2 H2 E2) as (i & Hi & Es & _). pose proof (slot_lt i n Hi). lia.
    + cbn in E. destruct (g_fires _ _ Hg k f1 H1 E1) as (i & Hi & Es & _). pose proof (slot_lt i n Hi). lia.
    + by apply (g_once _ _ Hg k k' f1 f2).
Qed.

Lemma good_step n s s' : step rfc3339 accepted s s' -> good n s -> exists n', good n' s'.
Proof.
  intros Hst Hg.
  assert (Hlater : forall now x, (ss_clock s <= now)%Z -> x ∈ ss_due s -> du_id x = id ->
    du_cron x = cron /\ exists t, du_next x = Some t /\ (t <= now)%Z).
  { intros now x Hn Hx Ex. destruct (g_due _ _ Hg x Hx Ex) as (? & t & ? & ?). split; [done|]. exists t. split; [done|lia]. }
  pose proof (g_work _ _ Hg) as Hwk.
  destruct Hst as [now s Hn|now fire_id du pre post s Hn Ed Hf Hw|du pre post s Ed|now s Hn|now f a keys' pre post s Hn Ew Ha Hr
    |now f w ws pre post s Hn Ew|w pre post s Ew|now sid project cr gr en ow d s Hn Hna Hnone Hc|now sid cr gr en ow d s Hn Hna Hu|now sid d s Hn Hna Hd].
  - exists n. apply (good_kept n s); [done|done|apply kept_refl| |done]. intros x [Hx|Hx]%elem_of_app Ex; [|by apply Hlater].
    destruct (due_schedules_elem _ _ _ Hx) as (r & Hr & Hdue & Ec & En). destruct (g_row _ _ Hg) as (r0 & Hr0 & Erc & _ & Ern).
    rewrite Ex, Hr0 in Hr. injection Hr as <-. split; [congruence|]. exists (slot n). split; [congruence|].
    unfold is_due in Hdue. rewrite Ern in Hdue. apply andb_true_iff in Hdue as [_ ?%Z.leb_le]. done.
  - destruct (decide (du_id du = id)) as [Ei|Hne].
    + by apply (good_materialize n s now fire_id du pre post).
    + exists n. apply (good_kept n s); [done|done|by apply kept_materialize| |done].
      intros x Hx. apply Hlater; [done|]. rewrite Ed. rewrite elem_of_app in *. rewrite elem_of_cons. tauto.
  - exists n. apply (good_kept n s); [done|done|apply kept_refl| |done]. intros x Hx. apply Hlater; [done|].
    rewrite Ed. rewrite elem_of_app in *. rewrite elem_of_cons. tauto.
  - exists n. apply (good_kept n s); [done|done|apply kept_refl|by intros; apply Hlater|].
    intros f ws e [Hx|Hx]%elem_of_app; [by apply list_elem_of_fmap in Hx as (? & ? & _)|by apply (Hwk f)].
  - exists n. apply (good_kept n s); [done|done|apply kept_refl|by intros; apply Hlater|].
    intros g ws e Hx. rewrite elem_of_app, elem_of_cons in Hx.
    destruct Hx as [Hx|[[= -> ->]|Hx]]; [apply (Hwk g); rewrite Ew; apply elem_of_app; by left| |apply (Hwk g); rewrite Ew; apply elem_of_app; right; by right].
    destruct a as [p|m|m]; cbn; rewrite !elem_of_cons, elem_of_nil; try naive_solver.
    intros [?|[[= E _]|[]]]; [done|]. by apply Hr; [rewrite <- E|].
  - exists n. apply (good_kept n s); [done|done| |by intros; apply Hlater|].
    + apply kept_write. intros e ->. apply (Hwk f (MarkError id e :: ws) e); [|left]. rewrite Ew. apply elem_of_app. right. left.
    + intros g ws' e Hx. rewrite elem_of_app, elem_of_cons in Hx.
      destruct Hx as [Hx|[[= -> ->]|Hx]]; [apply (Hwk g); rewrite Ew; apply elem_of_app; by left| |apply (Hwk g); rewrite Ew; apply elem_of_app; right; by right].
      intros Hin. apply (Hwk f (w :: ws) e); [|by right]. rewrite Ew. apply elem_of_app. right. left.
  - exists n. apply (good_kept n s); [done|done|apply kept_refl|by intros; apply Hlater|].
    intros g ws e Hx. apply (Hwk g). rewrite Ew. rewrite elem_of_app in *. rewrite elem_of_cons. tauto.
  - assert (sid <> id) by (intros ->; done). exists n. apply (good_kept n s); [done|done| |by intros; apply Hlater|done].
    unfold create_schedule in Hc. destruct (is_empty _); [done|]. apply rbind_Ok_inv in Hc as (nx & _ & [= <-]).
    apply kept_schedules. intros r Hr. exists r. rewrite lookup_insert_ne by done. done.
  - assert (sid <> id) by (intros ->; done). exists n. apply (good_kept n s); [done|done| |by intros; apply Hlater|done].
    unfold update_schedule in Hu. destruct (schedules (ss_db s) !! sid); [|done]. destruct (is_empty _); [done|].
    apply rbind_Ok_inv in Hu as (nx & _ & [= <-]). apply kept_schedules. intros r Hr. exists r. rewrite lookup_insert_ne by done. done.
  - assert (sid <> id) by (intros ->; done). exists n. apply (good_kept n s); [done|done| |by intros; apply Hlater|done].
    unfold delete_schedule in Hd. destruct (schedules (ss_db s) !! sid); [|done]. injection Hd as <-. split; cbn.
    + intros r Hr. exists r. rewrite lookup_delete_ne by done. done.
    + intros k f' [Hf _]%map_lookup_filter_Some Ef. by exists f'.
    + intros k f Hf Ef. exists f. split; [|done]. apply map_lookup_filter_Some. split; [done|]. cbn. congruence.
Qed.

Lemma good_steps n s s' : rtc (step rfc3339 accepted) s s' -> good n s -> exists n', good n' s'.
Proof. intros Hr. revert n. induction Hr as [s|s s1 s' Hst _ IH]; intros n Hg; [eauto|]. destruct (good_step n s s1 Hst Hg) as [n1 Hg1]. eauto. Qed.

(** However many supervisors work on it, and however they
    crash, an enabled schedule that nobody edits and whose pipelines are not
    refused gets exactly the slots of its expression: from the first fire time
    on, each slot is the next fire time after the one before, none is skipped,
    none exists twice, and none before it is due. *)
Theorem slots_consecutive s s' r :
  schedules (ss_db s) !! id = Some r -> sr_cron r = cron -> sr_enabled r = true -> sr_next_fire_at r = Some first ->
  (forall k f, schedule_fires (ss_db s) !! k = Some f -> fr_schedule f <> id) ->
  (forall du, du ∈ ss_due s -> du_id du <> id) ->
  (forall f ws e, Settling f ws ∈ ss_work s -> MarkError id e ∉ ws) ->
  rtc (step rfc3339 accepted) s s' ->
  exists n r', schedules (ss_db s') !! id = Some r' /\ sr_next_fire_at r' = Some (slot n) /\
    (forall i, next_fire_after parsed (slot i) = Some (slot (S i))) /\
    (forall t, (exists k f, schedule_fires (ss_db s') !! k = Some f /\ fr_schedule f = id /\ fr_scheduled_for f = t) <->
               exists i, i < n /\ t = slot i) /\
    (forall k k' f f', schedule_fires (ss_db s') !! k = Some f -> schedule_fires (ss_db s') !! k' = Some f' ->
       fr_schedule f = id -> fr_schedule f' = id -> fr_scheduled_for f = fr_scheduled_for f' -> k = k') /\
    (forall i, i < n -> (slot i <= ss_clock s')%Z).
Proof.
  intros Hr Ec Ee En Hf Hd Hw Hst.
  assert (Hg : good 0 s).
  { split; [by exists r|intros du Hdu E; by destruct (Hd du Hdu)|done|intros k f Hk E; by destruct (Hf k f Hk)|lia|intros k k' f f' Hk; intros ? E; by destruct (Hf k f Hk)]. }
  destruct (good_steps 0 s s' Hst Hg) as [n Hg']. destruct (g_row _ _ Hg') as (r' & ? & _ & _ & ?).
  exists n, r'. split_and!; [done|done|apply slot_next| |apply (g_once _ _ Hg')|].
  - intros t. split.
    + intros (k & f & Hk & E & <-). destruct (g_fires _ _ Hg' k f Hk E) as (i & ? & ? & _). by exists i.
    + intros (i & Hi & ->). apply (g_all _ _ Hg' i Hi).
  - intros i Hi. destruct (g_all _ _ Hg' i Hi) as (k & f & Hk & E & Es). destruct (g_fires _ _ Hg' k f Hk E) as (j & _ & Ej & ?). congruence.
Qed.
End slots.

(** ** One pipeline for a slot *)

Section pipelines.
Context `{UuidText} {C : Chrono} (rfc3339 : Z -> str) (accepted : N -> Prop).
Hypothesis (Huuid : forall u, 58%N ∉ uuid_text u) (Hrfc : forall a b, rfc3339 a = rfc3339 b -> a = b).

Definition slot_key (schedule : N) (scheduled_for : Z) : str :=
  §"schedule:" ++ uuid_text schedule ++ §":" ++ rfc3339 scheduled_for.

Lemma colon_text : §":" = [58%N]. Proof. reflexivity. Qed.

Lemma slot_key_inj a t b u : slot_key a t = slot_key b u -> a = b /\ t = u.
Proof.
  unfold slot_key. rewrite colon_text. intros E%app_inv_head. cbn in E.
  pose proof (split_once_char 58%N (uuid_text a) (rfc3339 t) (Huuid a)) as E1.
  rewrite E, (split_once_char 58%N (uuid_text b) (rfc3339 u) (Huuid b)) in E1. injection E1 as Eu Er.
  split; [by apply uuid_text_inj|by apply Hrfc].
Qed.

Definition matches_row (f : pending_fire) (row : fire_row) : Prop :=
  fr_schedule row = pf_schedule f /\ fr_scheduled_for row = pf_scheduled_for f.

(** What ties slots to pipelines. *)
Record linked (s : system) : Prop := {
  l_keys : forall k k' p, ss_keys s !! k = Some p -> ss_keys s !! k' = Some p -> k = k';
  l_valid : valid_table (schedule_fires (ss_db s));
  l_fires : forall k f, schedule_fires (ss_db s) !! k = Some f ->
    (fr_status f = FireTriggered -> fr_pipeline f <> None) /\
    forall p, fr_pipeline f = Some p -> ss_keys s !! slot_key (fr_schedule f) (fr_scheduled_for f) = Some p;
  l_rows : forall w row, w ∈ ss_work s -> schedule_fires (ss_db s) !! pf_id (wk_fire w) = Some row -> matches_row (wk_fire w) row;
  l_work : forall f ws k p, Settling f ws ∈ ss_work s -> MarkTriggered k p ∈ ws ->
    k = pf_id f /\ ss_keys s !! slot_key (pf_schedule f) (pf_scheduled_for f) = Some p }.

(** Fewer items of work, or fewer statements. *)
Definition less_work (ws ws' : list work) : Prop :=
  forall w', w' ∈ ws' -> exists w, w ∈ ws /\ wk_fire w' = wk_fire w /\
    forall f l', w' = Settling f l' -> exists l, w = Settling f l /\ forall x, x ∈ l' -> x ∈ l.

Lemma less_work_incl ws ws' : (forall w, w ∈ ws' -> w ∈ ws) -> less_work ws ws'.
Proof. intros Hi w Hw. exists w. split_and!; [auto|done|]. intros f l ->. by exists l. Qed.

Lemma linked_less s now db due ws : linked s -> schedule_fires db = schedule_fires (ss_db s) -> less_work (ss_work s) ws ->
  linked {| ss_clock := now; ss_db := db; ss_due := due; ss_work := ws; ss_keys := ss_keys s |}.
Proof.
  intros Hl E Hw. split; cbn; rewrite ?E; try apply Hl.
  - intros w' row Hin Hr. destruct (Hw w' Hin) as (w & Hw' & Ef & _). rewrite Ef in Hr |- *. by apply (l_rows _ Hl w).
  - intros f l' k p Hin Hk. destruct (Hw _ Hin) as (w & Hw' & _ & Hl'). destruct (Hl' f l' eq_refl) as (l & -> & Hsub).
    apply (l_work _ Hl f l); auto.
Qed.

Lemma answers_keys key keys a keys' : answers key keys a keys' ->
  (forall k k' p, keys !! k = Some p -> keys !! k' = Some p -> k = k') ->
  (forall k k' p, keys' !! k = Some p -> keys' !! k' = Some p -> k = k') /\
  (forall k p, keys !! k = Some p -> keys' !! k = Some p) /\ (forall p, a = Triggered p -> keys' !! key = Some p).
Proof.
  intros Ha Hinj.
  assert (Hnew : forall p, keys !! key = None -> (forall k, keys !! k <> Some p) ->
    (forall k k' q, <[key := p]> keys !! k = Some q -> <[key := p]> keys !! k' = Some q -> k = k') /\
    (forall k q, keys !! k = Some q -> <[key := p]> keys !! k = Some q)).
  { intros p Hn Hf. split.
    - intros k k' q. rewrite !lookup_insert_Some. intros [[<- <-]|[? E1]] [[<- E2]|[? E2]]; subst; try done; [by destruct (Hf k')|by destruct (Hf k)|eauto].
    - intros k q Hk. rewrite lookup_insert_ne; [done|congruence]. }
  destruct Ha as [p Hn Hf|p Hk|e p Hn Hf|e|e]; try (destruct (Hnew p Hn Hf) as [? ?]); split_and!; try done.
  - intros q [= <-]. by rewrite lookup_insert_eq.
  - intros q [= <-]. done.
Qed.

Lemma linked_answer s now f a keys' pre post :
  linked s -> ss_work s = pre ++ Waiting f :: post -> answers (schedule_idempotency_key rfc3339 f) (ss_keys s) a keys' ->
  linked {| ss_clock := now; ss_db := ss_db s; ss_due := ss_due s; ss_work := pre ++ Settling f (fire_writes f a) :: post; ss_keys := keys' |}.
Proof.
  intros Hl Ew Ha. destruct (answers_keys _ _ _ _ Ha (l_keys _ Hl)) as (Hi & Hk & Ht).
  assert (Hin : forall w, w ∈ pre ++ Settling f (fire_writes f a) :: post -> w = Settling f (fire_writes f a) \/ w ∈ ss_work s).
  { intros w. rewrite Ew, !elem_of_app, !elem_of_cons. tauto. }
  split; cbn; [done|apply Hl|..].
  - intros k row Hr. destruct (l_fires _ Hl k row Hr) as [? Hp]. split; [done|]. intros p E. apply Hk, Hp, E.
  - intros w row [->|Hw]%Hin Hr; [|by apply (l_rows _ Hl w)]. apply (l_rows _ Hl (Waiting f)); [|done]. rewrite Ew. apply elem_of_app. right. left.
  - intros g ws k p [[= -> ->]|Hw]%Hin Hm; [|destruct (l_work _ Hl g ws k p Hw Hm); auto].
    destruct a as [q|m|m]; cbn in Hm; rewrite !elem_of_cons, elem_of_nil in Hm; [|naive_solver..].
    destruct Hm as [[= -> ->]|[|[]]]; [|done]. split; [done|]. by apply (Ht q).
Qed.

Lemma run_fire_write_fires w d k f' : schedule_fires (run_fire_write w d) !! k = Some f' ->
  exists f, schedule_fires d !! k = Some f /\ fr_schedule f' = fr_schedule f /\ fr_scheduled_for f' = fr_scheduled_for f /\
    (fr_pipeline f' = fr_pipeline f /\ (fr_status f' = FireTriggered -> fr_status f = FireTriggered) \/
     exists p, w = MarkTriggered k p /\ fr_pipeline f' = Some p).
Proof.
  destruct w as [i p|sch t|i e|i e|sch e]; cbn; [..|by intros Hf; exists f'; eauto 10|intros Hf|intros Hf|by intros Hf; exists f'; eauto 10].
  - intros (f & Hf & ->)%update_where_Some. exists f. split; [done|]. destruct (_ && _) eqn:E; cbn; [|by eauto 10].
    apply andb_true_iff in E as [->%N.eqb_eq _]. eauto 10.
  - apply update_where_Some in Hf as (f & Hf & ->). exists f. split; [done|]. destruct (_ && _); cbn; eauto 10.
  - apply update_where_Some in Hf as (f & Hf & ->). exists f. split; [done|]. destruct (_ =? _)%N; cbn; [|by eauto 10].
    split_and!; try done. by left.
Qed.

Lemma valid_run_write w d : valid_table (schedule_fires d) -> valid_table (schedule_fires (run_fire_write w d)).
Proof. intros Hv. destruct w; cbn; try done; by apply update_where_valid. Qed.

Lemma linked_write s now f w ws pre post :
  linked s -> ss_work s = pre ++ Settling f (w :: ws) :: post ->
  linked {| ss_clock := now; ss_db := run_fire_write w (ss_db s); ss_due := ss_due s; ss_work := pre ++ Settling f ws :: post; ss_keys := ss_keys s |}.
Proof.
  intros Hl Ew.
  assert (Hin0 : Settling f (w :: ws) ∈ ss_work s) by (rewrite Ew; apply elem_of_app; right; left).
  assert (Hless : less_work (ss_work s) (pre ++ Settling f ws :: post)).
  { intros w'. rewrite elem_of_app, elem_of_cons. intros [Hw|[->|Hw]].
    - exists w'. split_and!; [rewrite Ew; apply elem_of_app; by left|done|]. intros g l' ->. by exists l'.
    - exists (Settling f (w :: ws)). split_and!; [done|done|]. intros g l' [= -> ->]. exists (w :: l'). split; [done|]. intros; by right.
    - exists w'. split_and!; [rewrite Ew; apply elem_of_app; right; by right|done|]. intros g l' ->. by exists l'. }
  split; cbn; [apply Hl|by apply valid_run_write, Hl|..].
  - intros k f' Hf'. destruct (run_fire_write_fires w (ss_db s) k f' Hf') as (f0 & Hf0 & Es & Et & Hor).
    destruct (l_fires _ Hl k f0 Hf0) as [Hst Hp]. rewrite Es, Et. destruct Hor as [[Ep Hs]|(p & -> & Ep)].
    + rewrite Ep. split; [auto|done].
    + rewrite Ep. split; [done|]. intros q [= <-].
      destruct (l_work _ Hl f (MarkTriggered k p :: ws) k p Hin0 ltac:(left)) as [-> Hk].
      destruct (l_rows _ Hl _ f0 Hin0 Hf0) as [-> ->]. done.
  - intros w' row Hw Hr. destruct (Hless w' Hw) as (w0 & Hw0 & E & _). rewrite E in *.
    destruct (run_fire_write_fires w (ss_db s) _ row Hr) as (f0 & Hf0 & Es & Et & _).
    destruct (l_rows _ Hl w0 f0 Hw0 Hf0). split; congruence.
  - intros g l' k p Hg Hm. destruct (Hless _ Hg) as (w0 & Hw0 & _ & Hl'). destruct (Hl' g l' eq_refl) as (l & -> & Hsub).
    apply (l_work _ Hl g l); auto.
Qed.

Lemma linked_fires s now db due t : linked s -> schedule_fires db = t -> valid_table t ->
  (forall k f, t !! k = Some f -> schedule_fires (ss_db s) !! k = Some f \/
     fr_status f = FirePending /\ fr_pipeline f = None /\ forall w, w ∈ ss_work s -> pf_id (wk_fire w) <> k) ->
  linked {| ss_clock := now; ss_db := db; ss_due := due; ss_work := ss_work s; ss_keys := ss_keys s |}.
Proof.
  intros Hl E Hv Ht. split; cbn; rewrite ?E; [apply Hl|done|..|apply Hl].
  - intros k f [Hf|(Hs & Hp & _)]%Ht; [by apply (l_fires _ Hl k)|]. rewrite Hs, Hp. done.
  - intros w row Hw [Hf|(_ & _ & Hn)]%Ht; [by apply (l_rows _ Hl w)|by destruct (Hn w Hw)].
Qed.

Lemma materialize_fires now fire_id du d k f : schedule_fires (materialize_schedule_fire now fire_id du d) !! k = Some f ->
  schedule_fires d !! k = Some f \/ k = fire_id /\ fr_status f = FirePending /\ fr_pipeline f = None.
Proof.
  unfold materialize_schedule_fire. destruct (parse_cron _); [|by left].
  destruct (du_next du); [|destruct (next_fire_after _ _); by left]. destruct (next_fire_after _ _); [|by left].
  destruct (schedules d !! du_id du); [|by left]. destruct (_ && _); [|by left].
  destruct (insert_row _ _ _) as [t|] eqn:E; [|by left]. apply insert_row_Ok in E as (_ & -> & _). cbn.
  rewrite lookup_insert_Some. intros [[<- <-]|[_ ?]]; [by right|by left].
Qed.

Lemma materialize_valid now fire_id du d : valid_table (schedule_fires d) -> valid_table (schedule_fires (materialize_schedule_fire now fire_id du d)).
Proof.
  intros Hv. unfold materialize_schedule_fire. destruct (parse_cron _); [|done].
  destruct (du_next du); [|by destruct (next_fire_after _ _)]. destruct (next_fire_after _ _); [|done].
  destruct (schedules d !! du_id du); [|done]. destruct (_ && _); [|done].
  destruct (insert_row _ _ _) as [t|] eqn:E; [|done]. by apply insert_row_valid in E.
Qed.

Lemma pending_fires_elem d f : f ∈ pending_fires d ->
  exists row, schedule_fires d !! pf_id f = Some row /\ matches_row f row.
Proof.
  intros ([k row] & Hin & E)%list_elem_of_omap. pose proof (elem_of_sublist _ _ _ Hin (sublist_take _ _)) as Hs.
  rewrite merge_sort_Permutation in Hs. apply elem_of_select in Hs as [Hk _]. cbn in E.
  apply bind_Some in E as (r & _ & [= <-]). by exists row.
Qed.

Lemma linked_read s now : linked s ->
  linked {| ss_clock := now; ss_db := ss_db s; ss_due := ss_due s; ss_work := map Waiting (pending_fires (ss_db s)) ++ ss_work s; ss_keys := ss_keys s |}.
Proof.
  intros Hl. split; cbn; try apply Hl.
  - intros w row [(f & -> & Hf)%list_elem_of_fmap|Hw]%elem_of_app Hr; [|by apply (l_rows _ Hl w)].
    destruct (pending_fires_elem _ _ Hf) as (row' & Hr' & Hm). cbn in *. congruence.
  - intros f ws k p [(g & ? & _)%list_elem_of_fmap|Hw]%elem_of_app Hm; [done|by apply (l_work _ Hl f ws)].
Qed.

Lemma linked_step s s' : step rfc3339 accepted s s' -> linked s -> linked s'.
Proof.
  intros Hst Hl.
  destruct Hst as [now s Hn|now fire_id du pre post s Hn Ed Hf Hw|du pre post s Ed|now s Hn|now f a keys' pre post s Hn Ew Ha Hr
    |now f w ws pre post s Hn Ew|w pre post s Ew|now sid project cr gr en ow d s Hn Hna Hnone Hc|now sid cr gr en ow d s Hn Hna Hu|now sid d s Hn Hna Hd].
  - by (apply (linked_fires _ _ _ _ _ Hl eq_refl); [apply Hl|left]).
  - apply (linked_fires _ _ _ _ _ Hl eq_refl); [by apply materialize_valid, Hl|].
    intros k g [?|(-> & ? & ?)]%materialize_fires; [by left|right; auto].
  - by (apply (linked_fires _ _ _ _ _ Hl eq_refl); [apply Hl|left]).
  - by apply linked_read.
  - by apply linked_answer.
  - by eapply linked_write.
  - apply linked_less; [done|done|]. apply less_work_incl. intros x. rewrite Ew, !elem_of_app, elem_of_cons. tauto.
  - unfold create_schedule in Hc. destruct (is_empty _); [done|]. apply rbind_Ok_inv in Hc as (nx & _ & [= <-]).
    by (apply (linked_fires _ _ _ _ _ Hl eq_refl); [apply Hl|left]).
  - unfold update_schedule in Hu. destruct (schedules (ss_db s) !! sid); [|done]. destruct (is_empty _); [done|].
    apply rbind_Ok_inv in Hu as (nx & _ & [= <-]). by (apply (linked_fires _ _ _ _ _ Hl eq_refl); [apply Hl|left]).
  - unfold delete_schedule in Hd. destruct (schedules (ss_db s) !! sid); [|done]. injection Hd as <-.
    apply (linked_fires _ _ _ _ _ Hl eq_refl).
    + destruct (l_valid _ Hl) as [Hc Hu]. split; cbn.
      * intros k v [Hk _]%map_lookup_filter_Some. done.
      * intros i j x y Hij [Hi _]%map_lookup_filter_Some [Hj _]%map_lookup_filter_Some. by apply (Hu i j).
    + intros k f [Hk _]%map_lookup_filter_Some. by left.
Qed.

End pipelines.

(** ** A refusal that comes late *)

Section late.
Context `{UuidText} {C : Chrono} (rfc3339 : Z -> str) (accepted : N -> Prop).

(** Two supervisors that both read a pending slot can leave a
    pipeline behind under a slot that counts as failed: the one whose trigger is
    refused overwrites the success of the other and stops the schedule. *)
Theorem late_refusal_fails_triggered s f p e row r pre mid post :
  ss_work s = pre ++ Waiting f :: mid ++ Waiting f :: post -> ~ accepted (pf_schedule f) ->
  schedule_fires (ss_db s) !! pf_id f = Some row -> fr_status row = FirePending -> schedules (ss_db s) !! pf_schedule f = Some r ->
  ss_keys s !! schedule_idempotency_key rfc3339 f = None -> (forall k, ss_keys s !! k <> Some p) ->
  exists s' row' r', rtc (step rfc3339 accepted) s s' /\
    ss_keys s' !! schedule_idempotency_key rfc3339 f = Some p /\
    schedule_fires (ss_db s') !! pf_id f = Some row' /\ fr_status row' = FireFailed /\ fr_pipeline row' = Some p /\
    schedules (ss_db s') !! pf_schedule f = Some r' /\ sr_next_fire_at r' = None /\ sr_last_fire_error r' = Some e.
Proof.
  intros Ew Hna Hrow Hpend Hsch Hk Hf. set (key := schedule_idempotency_key rfc3339 f) in *.
  set (d2 := run_fire_write (MarkFired (pf_schedule f) (pf_scheduled_for f)) (run_fire_write (MarkTriggered (pf_id f) p) (ss_db s))).
  set (d4 := run_fire_write (MarkError (pf_schedule f) e) (run_fire_write (MarkFireFailed (pf_id f) e) d2)).
  exists {| ss_clock := ss_clock s; ss_db := d4; ss_due := ss_due s; ss_work := pre ++ Settling f [] :: mid ++ Settling f [] :: post; ss_keys := <[key := p]> (ss_keys s) |}.
  do 2 eexists. split; [|split_and!].
  - eapply rtc_l; [apply (step_answer _ _ (ss_clock s) f (Triggered p) (<[key := p]> (ss_keys s)) pre (mid ++ Waiting f :: post) s); [lia|done|by apply answer_new|by intros ?]|].
    eapply rtc_l; [apply (step_write _ _ (ss_clock s) f (MarkTriggered (pf_id f) p) [MarkFired (pf_schedule f) (pf_scheduled_for f)] pre (mid ++ Waiting f :: post)); [cbn; lia|done]|].
    eapply rtc_l; [apply (step_write _ _ (ss_clock s) f (MarkFired (pf_schedule f) (pf_scheduled_for f)) [] pre (mid ++ Waiting f :: post)); [cbn; lia|done]|].
    cbn [ss_clock ss_db ss_due ss_work ss_keys]. fold d2.
    eapply rtc_l; [apply (step_answer _ _ (ss_clock s) f (ClientError e) (<[key := p]> (ss_keys s)) (pre ++ Settling f [] :: mid) post); [cbn; lia|cbn; by rewrite <- app_assoc|apply answer_client|done]|].
    eapply rtc_l; [apply (step_write _ _ (ss_clock s) f (MarkFireFailed (pf_id f) e) [MarkError (pf_schedule f) e] (pre ++ Settling f [] :: mid) post); [cbn; lia|done]|].
    eapply rtc_l; [apply (step_write _ _ (ss_clock s) f (MarkError (pf_schedule f) e) [] (pre ++ Settling f [] :: mid) post); [cbn; lia|done]|].
    cbn [ss_clock ss_db ss_due ss_work ss_keys]. fold d4. rewrite <- app_assoc. constructor.
  - cbn. apply lookup_insert_eq.
  - cbn. rewrite !lookup_update_where, Hrow. cbn. rewrite N.eqb_refl. unfold is_pending. rewrite Hpend. reflexivity.
  - reflexivity.
  - reflexivity.
  - cbn. rewrite lookup_alter_eq, lookup_alter_eq, Hsch. reflexivity.
  - reflexivity.
  - reflexivity.
Qed.
End late.

(** ** Every minute *)

Definition every_minute : str := §"* * * * *".
Definition every_minute_parsed : CronSchedule := match parse_cron every_minute with Ok s => s | Err _ =>
  {| minutes := {| cf_values := []; cf_any := false |}; hours := {| cf_values := []; cf_any := false |};
     days_of_month := {| cf_values := []; cf_any := false |}; months := {| cf_values := []; cf_any := false |};
     days_of_week := {| cf_values := []; cf_any := false |} |} end.

Lemma every_minute_parses : parse_cron every_minute = Ok every_minute_parsed.
Proof. vm_compute. reflexivity. Qed.

Lemma all_values kind f v : forallb (nth_value (cf_values f)) (z_range (normalized_bounds kind).1 (normalized_bounds kind).2) = true ->
  in_bounds kind v -> field_matches f v = true.
Proof. intros Hf Hv. rewrite forallb_iff in Hf. apply Hf, z_range_iff, Hv. Qed.

(** A calendar of one day, enough for an expression without restrictions. *)
#[local] Instance one_day : Chrono := {
  dt_minute t := ((t / minute_ns) mod 60)%Z; dt_hour _ := 0%Z; dt_day _ := 1%Z; dt_month _ := 1%Z; dt_weekday _ := 0%Z;
  dt_zero_second t := (t - t mod minute_ns)%Z }.

#[local] Instance one_day_laws : ChronoLaws one_day.
Proof. split; [done|]. intros t. cbn. pose proof (Z.mod_pos_bound (t / minute_ns) 60 ltac:(lia)). lia. Qed.

Lemma every_minute_live t : next_fire_after every_minute_parsed t <> None.
Proof.
  pose proof (next_fire_after_first every_minute_parsed t) as Hn. destruct (next_fire_after every_minute_parsed t); [done|]. intros _.
  destruct (first_candidate t) as (Ha & Hlt & Hleast). set (c := dt_zero_second (t + minute_ns)%Z) in *.
  assert (Hle : (c <= deadline t)%Z).
  { subst c. cbn [dt_zero_second one_day]. pose proof (Z.mod_pos_bound (t + minute_ns) minute_ns ltac:(done)).
    unfold deadline, SEARCH_WINDOW_DAYS, day_ns. unfold minute_ns in *. lia. }
  specialize (Hn c Ha (conj Hlt Hle)).
  enough (Hm : schedule_matches every_minute_parsed c = true) by congruence.
  unfold schedule_matches. change (negb (cf_any (days_of_month every_minute_parsed))) with false. cbn [andb dt_minute dt_hour dt_day dt_month dt_weekday one_day].
  rewrite (all_values Minute _ ((c / minute_ns) mod 60)); [vm_compute; reflexivity|vm_compute; reflexivity|].
  pose proof (Z.mod_pos_bound (c / minute_ns) 60 ltac:(lia)). unfold in_bounds. cbn [normalized_bounds raw_bounds fst snd]. lia.
Qed.

#[local] Existing Instance plain_uuid.

Definition minutely : schedule_row := {|
  sr_project := 1; sr_cron := every_minute; sr_git_ref := [109]%N; sr_enabled := true; sr_next_fire_at := Some minute_ns;
  sr_last_fired_at := None; sr_last_fire_error := None; sr_owner := None; sr_created_at := 0 |}.
Definition minutely_start : system :=
  {| ss_clock := 0; ss_db := {| schedules := {[ 1%N := minutely ]}; schedule_fires := ∅ |}; ss_due := []; ss_work := []; ss_keys := ∅ |}.
Definition minutely_due : due_schedule := {| du_id := 1; du_cron := every_minute; du_next := Some minute_ns |}.
Definition minutely_fired : system :=
  {| ss_clock := minute_ns; ss_db := materialize_schedule_fire minute_ns 9 minutely_due (ss_db minutely_start);
     ss_due := []; ss_work := []; ss_keys := ∅ |}.

Definition minutely_read : system :=
  {| ss_clock := minute_ns; ss_db := ss_db minutely_start; ss_due := [minutely_due]; ss_work := []; ss_keys := ∅ |}.

Lemma minutely_steps (U : UuidText) rfc3339 accepted : rtc (step rfc3339 accepted) minutely_start minutely_fired.
Proof.
  apply rtc_l with minutely_read.
  - apply (step_read_due rfc3339 accepted minute_ns minutely_start). cbn. unfold minute_ns. lia.
  - apply rtc_once. apply (step_materialize rfc3339 accepted minute_ns 9 minutely_due [] [] minutely_read); try reflexivity.
    by intros w ?%elem_of_nil.
Qed.

Lemma slots_consecutive_witness :
  exists f, schedule_fires (ss_db minutely_fired) !! 9%N = Some f /\ fr_scheduled_for f = minute_ns /\
    exists n r', schedules (ss_db minutely_fired) !! 1%N = Some r' /\ sr_next_fire_at r' = Some (slot every_minute_parsed minute_ns n) /\
      (exists i, i < n /\ minute_ns = slot every_minute_parsed minute_ns i).
Proof.
  destruct (slots_consecutive (fun t => [Z.to_N t]) (fun _ => True) 1 every_minute every_minute_parsed minute_ns I every_minute_parses every_minute_live
    minutely_start minutely_fired minutely) as (n & r' & Hr & Hn & _ & Hall & _).
  - reflexivity.
  - reflexivity.
  - reflexivity.
  - reflexivity.
  - intros k f Hk. cbn in Hk. by rewrite lookup_empty in Hk.
  - by intros du ?%elem_of_nil.
  - by intros f ws e ?%elem_of_nil.
  - apply minutely_steps.
  - assert (Hf : exists f, schedule_fires (ss_db minutely_fired) !! 9%N = Some f /\ fr_schedule f = 1%N /\ fr_scheduled_for f = minute_ns).
    { unfold minutely_fired, materialize_schedule_fire. cbn [ss_db du_cron du_next minutely_due]. rewrite every_minute_parses.
      destruct (next_fire_after every_minute_parsed minute_ns) eqn:E; [|by destruct (every_minute_live minute_ns)].
      eexists. split; [reflexivity|done]. }
    destruct Hf as (f & Hf & Es & Et). exists f. split; [exact Hf|]. split; [exact Et|]. exists n, r'. split; [exact Hr|]. split; [exact Hn|].
    apply Hall. exists 9%N, f. split; [exact Hf|]. split; [exact Es|exact Et].
Defined.

Definition minutely_fire : fire_row := {|
  fr_schedule := 1; fr_project := 1; fr_scheduled_for := minute_ns; fr_status := FirePending; fr_pipeline := None; fr_error := None;
  fr_owner := None; fr_created_at := minute_ns |}.
Definition minutely_pending : pending_fire := {|
  pf_id := 9; pf_schedule := 1; pf_project := 1; pf_scheduled_for := minute_ns; pf_git_ref := [109]%N; pf_owner := None |}.

(** The tables after the first slot, with the next one at [following]. *)
Definition minutely_db (following : Z) : scheduler :=
  {| schedules := {[ 1%N := set_next (Some following) None minutely ]}; schedule_fires := {[ 9%N := minutely_fire ]} |}.

Lemma minutely_fired_db : exists following, ss_db minutely_fired = minutely_db following.
Proof.
  unfold minutely_fired, materialize_schedule_fire. cbn [ss_db du_cron du_next minutely_due]. rewrite every_minute_parses.
  destruct (next_fire_after every_minute_parsed minute_ns) as [t|] eqn:E; [|by destruct (every_minute_live minute_ns)].
  exists t. reflexivity.
Qed.

Lemma minutely_pending_fires following : pending_fires (minutely_db following) = [minutely_pending].
Proof. reflexivity. Qed.

(** Identifiers whose text has no colon. *)
#[local] Instance shifted_uuid : UuidText := {
  uuid_text u := [(u + 59)%N]; uuid_simple u := [u];
  uuid_parse s := match s with [u] => Some (u - 59)%N | _ => None end;
  uuid_parse_text a := f_equal Some (N.add_sub a 59) }.

Lemma shifted_no_colon u : 58%N ∉ uuid_text u.
Proof. cbn. rewrite list_elem_of_singleton. lia. Qed.

(** [to_rfc3339], as far as it matters: different instants differ. *)
Definition demo_rfc3339 (t : Z) : str := if (t <? 0)%Z then [0%N; Z.to_N (- t)] else [1%N; Z.to_N t].

Lemma demo_rfc3339_inj a b : demo_rfc3339 a = demo_rfc3339 b -> a = b.
Proof. unfold demo_rfc3339. destruct (Z.ltb_spec a 0), (Z.ltb_spec b 0); intros [= E]; lia. Qed.

Lemma minutely_triggered : exists s p, rtc (step demo_rfc3339 (fun _ => True)) minutely_start s /\
  exists f, schedule_fires (ss_db s) !! 9%N = Some f /\ fr_status f = FireTriggered /\ fr_pipeline f = Some p.
Proof.
  destruct minutely_fired_db as [following E].
  set (key := schedule_idempotency_key demo_rfc3339 minutely_pending).
  exists {| ss_clock := minute_ns; ss_db := run_fire_write (MarkTriggered 9 5) (minutely_db following); ss_due := [];
            ss_work := [Settling minutely_pending [MarkFired 1 minute_ns]]; ss_keys := <[key := 5%N]> ∅ |}, 5%N.
  split; [|eexists; split_and!; reflexivity].
  transitivity minutely_fired; [apply minutely_steps|]. unfold minutely_fired in *. cbn [ss_db] in E. rewrite E.
  apply rtc_l with {| ss_clock := minute_ns; ss_db := minutely_db following; ss_due := []; ss_work := [Waiting minutely_pending]; ss_keys := ∅ |}.
  { apply (step_read_fires demo_rfc3339 (fun _ => True) minute_ns
      {| ss_clock := minute_ns; ss_db := minutely_db following; ss_due := []; ss_work := []; ss_keys := ∅ |}). reflexivity. }
  apply rtc_l with {| ss_clock := minute_ns; ss_db := minutely_db following; ss_due := [];
                      ss_work := [Settling minutely_pending (fire_writes minutely_pending (Triggered 5))]; ss_keys := <[key := 5%N]> ∅ |}.
  { apply (step_answer demo_rfc3339 (fun _ => True) minute_ns minutely_pending (Triggered 5) (<[key := 5%N]> ∅) [] []
      {| ss_clock := minute_ns; ss_db := minutely_db following; ss_due := []; ss_work := [Waiting minutely_pending]; ss_keys := ∅ |});
      [reflexivity|reflexivity| |by intros _ ?].
    apply answer_new; [done|]. intros k. cbn. by rewrite lookup_empty. }
  apply rtc_once.
  pose proof (step_write demo_rfc3339 (fun _ => True) minute_ns minutely_pending (MarkTriggered 9 5) [MarkFired 1 minute_ns] [] []
    {| ss_clock := minute_ns; ss_db := minutely_db following; ss_due := [];
       ss_work := [Settling minutely_pending (fire_writes minutely_pending (Triggered 5))]; ss_keys := <[key := 5%N]> ∅ |}) as St.
  cbn [ss_clock ss_db ss_due ss_work ss_keys app] in St. apply St; reflexivity.
Qed.


Definition two_readers : system :=
  {| ss_clock := 0; ss_db := minutely_db 0; ss_due := []; ss_work := [Waiting minutely_pending; Waiting minutely_pending]; ss_keys := ∅ |}.

Lemma late_refusal_fails_triggered_witness :
  exists s' row' r', rtc (step demo_rfc3339 (fun _ => False)) two_readers s' /\
    schedule_fires (ss_db s') !! 9%N = Some row' /\ fr_status row' = FireFailed /\ fr_pipeline row' = Some 5%N /\
    schedules (ss_db s') !! 1%N = Some r' /\ sr_next_fire_at r' = None.
Proof.
  destruct (late_refusal_fails_triggered demo_rfc3339 (fun _ => False) two_readers minutely_pending 5 [70]%N minutely_fire
    (set_next (Some 0%Z) None minutely) [] [] [] eq_refl) as (s' & row' & r' & Hr & _ & Hrow & Hs & Hp & Hsc & Hn & _).
  - intros [].
  - reflexivity.
  - reflexivity.
  - reflexivity.
  - reflexivity.
  - intros k Hk. discriminate Hk.
  - exists s', row', r'. split_and!; assumption.
Defined.
