(* ===== verification/Quiescence.v ===== *)
(** * Quiescence: the admission gate of a coherent backup

    [backend/src/quiescence/kernel.rs]: processes of the installation take a
    shared lock for every effect, a coordinator closes admission with a request
    and takes the lock exclusively.  The gate is a private directory with its
    records and the kernel's locks on its files.  Requests to the server pass
    through [backend/src/quiescence.rs].  Installations that adopted a
    generation ([quiescence/generation.rs]) are left out, and so are the links
    and permissions of paths. *)
From S2P Require Import Prelude Table.

(** ** Records *)

Record CustodyRoot : Type := { cr_kind : str; cr_path : str }.

#[export] Instance custody_root_eq_dec : EqDecision CustodyRoot.
Proof. solve_decision. Defined.

Record Identity : Type := {
  id_schema_version : Z;
  id_participant : str;
  id_boot : N;
  id_kind : str;
  id_process : Z;
  id_start : str;
  id_roots : list CustodyRoot }.

#[export] Instance identity_eq_dec : EqDecision Identity.
Proof. solve_decision. Defined.

Record Request : Type := { rq_schema_version : Z; rq_operation : N }.

Record ControlOwner : Type := { co_schema_version : Z; co_operation : N; co_coordinator : N }.

Record Held : Type := {
  hd_schema_version : Z;
  hd_operation : N;
  hd_coordinator : N;
  hd_acknowledgement : N;
  hd_participants : list Identity }.

#[export] Instance held_eq_dec : EqDecision Held.
Proof. solve_decision. Defined.

(** ** Kernel locks

    An open file keeps its lock until the last process that has it closes it
    or ends. *)

Inductive lock_file : Type :=
| EffectsLock
| CoordinatorLock
| ParticipantLock (participant : str)
| HookLock (storage : str).

#[export] Instance lock_file_eq_dec : EqDecision lock_file.
Proof. solve_decision. Defined.

Record open_file : Type := { of_file : lock_file; of_exclusive : bool; of_owners : gset N }.

(** The gate: [request.json], [coordinator-current.json], [held.json],
    [exit.json], the identities and lock files of [participants], the records
    of [effects] with their processes, and the open files with a lock. *)
Record Gate : Type := {
  gt_request : option Request;
  gt_current : option ControlOwner;
  gt_held : option Held;
  gt_exit : option Held;
  gt_identities : gmap str Identity;
  gt_lock_files : gset str;
  gt_effects : gmap N N;
  gt_open : gmap N open_file }.

Definition set_request (r : option Request) (g : Gate) : Gate := {|
  gt_request := r; gt_current := gt_current g; gt_held := gt_held g; gt_exit := gt_exit g; gt_identities := gt_identities g;
  gt_lock_files := gt_lock_files g; gt_effects := gt_effects g; gt_open := gt_open g |}.
Definition set_current (c : option ControlOwner) (g : Gate) : Gate := {|
  gt_request := gt_request g; gt_current := c; gt_held := gt_held g; gt_exit := gt_exit g; gt_identities := gt_identities g;
  gt_lock_files := gt_lock_files g; gt_effects := gt_effects g; gt_open := gt_open g |}.
Definition set_held (h : option Held) (g : Gate) : Gate := {|
  gt_request := gt_request g; gt_current := gt_current g; gt_held := h; gt_exit := gt_exit g; gt_identities := gt_identities g;
  gt_lock_files := gt_lock_files g; gt_effects := gt_effects g; gt_open := gt_open g |}.
Definition set_exit (h : option Held) (g : Gate) : Gate := {|
  gt_request := gt_request g; gt_current := gt_current g; gt_held := gt_held g; gt_exit := h; gt_identities := gt_identities g;
  gt_lock_files := gt_lock_files g; gt_effects := gt_effects g; gt_open := gt_open g |}.
Definition set_identities (f : gmap str Identity -> gmap str Identity) (g : Gate) : Gate := {|
  gt_request := gt_request g; gt_current := gt_current g; gt_held := gt_held g; gt_exit := gt_exit g;
  gt_identities := f (gt_identities g); gt_lock_files := gt_lock_files g; gt_effects := gt_effects g; gt_open := gt_open g |}.
Definition set_effects (f : gmap N N -> gmap N N) (g : Gate) : Gate := {|
  gt_request := gt_request g; gt_current := gt_current g; gt_held := gt_held g; gt_exit := gt_exit g;
  gt_identities := gt_identities g; gt_lock_files := gt_lock_files g; gt_effects := f (gt_effects g); gt_open := gt_open g |}.
Definition set_open (f : gmap N open_file -> gmap N open_file) (g : Gate) : Gate := {|
  gt_request := gt_request g; gt_current := gt_current g; gt_held := gt_held g; gt_exit := gt_exit g;
  gt_identities := gt_identities g; gt_lock_files := gt_lock_files g; gt_effects := gt_effects g; gt_open := f (gt_open g) |}.
(** The lock files of participants are created when they are opened. *)
Definition create_lock_file (f : lock_file) (g : Gate) : Gate :=
  match f with
  | ParticipantLock p => {|
      gt_request := gt_request g; gt_current := gt_current g; gt_held := gt_held g; gt_exit := gt_exit g;
      gt_identities := gt_identities g; gt_lock_files := {[p]} ∪ gt_lock_files g; gt_effects := gt_effects g; gt_open := gt_open g |}
  | _ => g
  end.

(** A lock is refused when another open file of the same name has a lock and
    one of the two is exclusive. *)
Definition blocks (f : lock_file) (exclusive : bool) (o : open_file) : bool :=
  bool_decide (of_file o = f) && (exclusive || of_exclusive o).
Definition is_free (f : lock_file) (exclusive : bool) (g : Gate) : bool := negb (exists_row (fun _ => blocks f exclusive) (gt_open g)).

(** [file] and [lock]: process [p] opens [f] as the fresh [d] and tries to lock
    it without waiting. *)
Definition lock (p d : N) (f : lock_file) (exclusive : bool) (g : Gate) : option Gate :=
  if is_free f exclusive g
  then Some (create_lock_file f (set_open (insert d {| of_file := f; of_exclusive := exclusive; of_owners := {[p]} |}) g))
  else None.

Definition release (p : N) (o : open_file) : option open_file :=
  let owners := of_owners o ∖ {[p]} in
  if bool_decide (owners = ∅) then None
  else Some {| of_file := of_file o; of_exclusive := of_exclusive o; of_owners := owners |}.
Definition close (p d : N) (g : Gate) : Gate := set_open (partial_alter (fun o => o ≫= release p) d) g.
(** The end of a process closes everything it has open. *)
Definition end_process (p : N) (g : Gate) : Gate := set_open (omap (release p)) g.
(** A child that inherits an open file. *)
Definition inherit (child d : N) (g : Gate) : Gate :=
  set_open (alter (fun o => {| of_file := of_file o; of_exclusive := of_exclusive o; of_owners := {[child]} ∪ of_owners o |}) d) g.

(** ** Requests *)

Definition is_nil (u : N) : bool := (u =? 0)%N.

(** [requested_operation] and [requested] *)
Definition requested_operation (g : Gate) : result (option N) str :=
  match gt_request g with
  | None => Ok None
  | Some r =>
    if negb (rq_schema_version r =? 1)%Z || is_nil (rq_operation r) then Err §"invalid drain request"
    else Ok (Some (rq_operation r))
  end.
Definition requested (g : Gate) : result bool str := let? o := requested_operation g in Ok (is_some o).

(** [if new_work { ensure!(!self.requested()?) }] *)
Definition refuse_new_work (new_work : bool) (g : Gate) : result unit str :=
  if new_work then let? r := requested g in if r then Err §"Forge draining: new work closed" else Ok tt else Ok tt.

(** ** Effects

    Operations answer with the gate they leave behind. *)

(** [Gate::enter] by process [p], with the fresh open file [d] and record [e].
    The guard of the generation passes without one. *)
Definition enter (p d e : N) (new_work : bool) (g : Gate) : result unit str * Gate :=
  match refuse_new_work new_work g with
  | Err m => (Err m, g)
  | Ok _ =>
    match lock p d EffectsLock false g with
    | None => (Err §"Forge backup fence held", g)
    | Some g1 =>
      match refuse_new_work new_work g1 with
      | Err m => (Err m, close p d g1)
      | Ok _ => (Ok tt, set_effects (insert e p) g1)
      end
    end
  end.

(** [drop] of a [Lease]: the record goes first, unless the thread panics, and
    the file is closed last. *)
Definition drop_record (panicking : bool) (e : N) (g : Gate) : Gate := if panicking then g else set_effects (delete e) g.
Definition drop_lease (panicking : bool) (p d e : N) (g : Gate) : Gate := close p d (drop_record panicking e g).

Definition startup_continues (operation : N) (g : Gate) : result unit str :=
  let? o := requested_operation g in
  match o with
  | None => Ok tt
  | Some r => if (r =? operation)%N then Ok tt else Err §"Forge startup drain operation changed"
  end.

(** [Gate::enter_startup]: a process may start under the operation it was
    configured with. *)
Definition enter_startup (p d e operation : N) (g : Gate) : result unit str * Gate :=
  if is_nil operation then (Err §"startup operation identity required", g)
  else
    match requested_operation g with
    | Err m => (Err m, g)
    | Ok None => enter p d e true g
    | Ok (Some r) =>
      if negb (r =? operation)%N then (Err §"Forge startup belongs to another drain operation", g)
      else
        match enter p d e false g with
        | (Err m, g1) => (Err m, g1)
        | (Ok _, g1) =>
          match startup_continues operation g1 with
          | Err m => (Err m, drop_lease false p d e g1)
          | Ok _ => (Ok tt, g1)
          end
        end
    end.

(** [retire_workspace_effect] *)
Definition retire_workspace_effect (id : N) (g : Gate) : result unit str * Gate :=
  if is_nil id then (Err §"effect identity required", g) else (Ok tt, set_effects (delete id) g).

(** ** Participants *)

Definition safe_name (s : str) : bool :=
  negb (is_empty s) && (len s <=? 80)%Z && forallb (fun b => is_ascii_alphanumeric b || char_in §"_-" b) (bytes s).

(** [Gate::register]: [d] and [live] are the fresh open files of the
    registration and of the participant, [boot] and [start] the evidence of the
    process. *)
Definition identity_of (id : str) (boot : N) (kind : str) (process : Z) (start : str) (roots : list CustodyRoot) : Identity := {|
  id_schema_version := 1; id_participant := id; id_boot := boot; id_kind := kind; id_process := process; id_start := start;
  id_roots := roots |}.

Definition register (p d live boot : N) (id kind : str) (process : Z) (start : option str) (roots : list CustodyRoot) (g : Gate)
  : result Identity str * Gate :=
  match lock p d EffectsLock false g with
  | None => (Err §"Forge backup fence held during registration", g)
  | Some g1 =>
    if negb (safe_name id) || negb (safe_name kind) then (Err §"invalid participant identity", close p d g1)
    else
      match lock p live (ParticipantLock id) true g1 with
      | None => (Err §"duplicate live Forge participant", close p d g1)
      | Some g2 =>
        match start with
        | None => (Err §"process start unavailable", close p d (close p live g2))
        | Some start =>
          let i := identity_of id boot kind process start roots in
          (Ok i, close p d (set_identities (insert id i) (set_identities (delete id) g2)))
        end
      end
  end.

Definition is_live (id : str) (g : Gate) : bool := negb (is_free (ParticipantLock id) true g).

(** The loop over the expected identities: [names] are those already seen. *)
Definition verify_participant (g : Gate) (names : gset str) (i : Identity) : result (gset str) str :=
  if negb (id_schema_version i =? 1)%Z || negb (safe_name (id_participant i)) || bool_decide (id_participant i ∈ names)
  then Err §"invalid/duplicate expected participant"
  else if negb (bool_decide (gt_identities g !! id_participant i = Some i)) then Err §"participant boot identity changed"
  else if negb (is_live (id_participant i) g) then Err §"participant registration is stale; no live kernel owner"
  else Ok ({[id_participant i]} ∪ names).

(** The loop over the directory. *)
Definition unexpected (names : gset str) (g : Gate) : bool :=
  existsb (fun id => is_live id g && negb (bool_decide (id ∈ names))) (elements (gt_lock_files g)).
Definition inventory (g : Gate) : Z := Z.of_nat (size (gt_identities g)) + Z.of_nat (size (gt_lock_files g)).

(** [Gate::verify_participants] *)
Definition verify_participants (expected : list Identity) (g : Gate) : result unit str :=
  if is_empty expected || (64 <? zlen expected)%Z then Err §"complete bounded participant manifest required"
  else
    let? names := rfold (verify_participant g) ∅ expected in
    if (128 <? inventory g)%Z then Err §"participant inventory overflow"
    else if unexpected names g then Err §"unexpected live Forge writer participant"
    else Ok tt.

(** [Gate::verify_no_effect_records] *)
Definition verify_no_effect_records (g : Gate) : result unit str :=
  if bool_decide (gt_effects g = ∅) then Ok tt
  else Err §"orphaned/panicked effect custody remains; original-owner reconciliation required".

(** [Gate::all_exited] *)
Definition exited_participant (g : Gate) (acc : gset str * bool) (i : Identity) : result (gset str * bool) str :=
  if negb (safe_name (id_participant i)) || bool_decide (id_participant i ∈ acc.1) then Err §"invalid/duplicate exit identity"
  else if negb (bool_decide (gt_identities g !! id_participant i = Some i))
  then Err §"exit participant boot replaced or receipt changed"
  else Ok ({[id_participant i]} ∪ acc.1, acc.2 || is_live (id_participant i) g).

Definition all_exited (expected : list Identity) (g : Gate) : result bool str :=
  if is_empty expected || (64 <? zlen expected)%Z then Err §"bounded exact exit participants required"
  else
    let? acc := rfold (exited_participant g) (∅, false) expected in
    if (128 <? inventory g)%Z then Err §"exit inventory overflow"
    else if unexpected acc.1 g then Err §"new writer appeared during controlled exit"
    else Ok (negb acc.2).

(** [enter_effect], under the mutex of the process: [exiting] and [registered]
    are its flags, [startup] its configured operation. *)
Definition enter_effect (exiting registered : bool) (startup : option N) (p d e : N) (new_work : bool) (g : Gate)
  : result unit str * Gate :=
  if exiting then (Err §"Forge controlled idle exit in progress", g)
  else if negb registered then (Err §"Forge writer has no live participant registration", g)
  else
    match startup with
    | Some operation => enter_startup p d e operation g
    | None => enter p d e new_work g
    end.

(** [accepting] *)
Definition accepting (g : Gate) : bool := match requested g with Ok r => negb r | Err _ => false end.

(** ** The coordinator

    [q] is its process, [d] its open [coordinator.lock], [nonce] its identity. *)

(** The request it finds or writes. *)
Definition claim_request (operation : N) (g : Gate) : result Gate str :=
  match gt_request g with
  | Some r =>
    if (rq_schema_version r =? 1)%Z && (rq_operation r =? operation)%N then Ok g
    else Err §"drain operation differs; refusing takeover/release"
  | None => Ok (set_request (Some {| rq_schema_version := 1; rq_operation := operation |}) g)
  end.

Definition announce (operation nonce : N) : Gate -> Gate :=
  set_current (Some {| co_schema_version := 1; co_operation := operation; co_coordinator := nonce |}).

(** [Coordinator::request] *)
Definition request (q d operation nonce : N) (g : Gate) : result unit str * Gate :=
  if is_nil operation then (Err §"operation identity required", g)
  else
    match lock q d CoordinatorLock true g with
    | None => (Err §"another coordinator owns release authority", g)
    | Some g1 =>
      match claim_request operation g1 with
      | Err m => (Err m, close q d g1)
      | Ok g2 => (Ok tt, announce operation nonce g2)
      end
    end.

Definition own_request (operation : N) (g : Gate) : bool :=
  match gt_request g with Some r => (rq_operation r =? operation)%N | None => false end.

(** [Coordinator::try_fence] *)
Definition try_fence (q f operation : N) (g : Gate) : result (option Gate) str :=
  if negb (own_request operation g) then Err §"drain operation changed" else Ok (lock q f EffectsLock true g).

(** [Coordinator::publish_held]: its checks, and the record. *)
Definition may_publish (expected : list Identity) (g : Gate) : result unit str :=
  let? _ := verify_participants expected g in
  verify_no_effect_records g.

Definition held_record (operation nonce acknowledgement : N) (expected : list Identity) : Held := {|
  hd_schema_version := 1; hd_operation := operation; hd_coordinator := nonce; hd_acknowledgement := acknowledgement;
  hd_participants := expected |}.

Definition publish_held (operation nonce acknowledgement : N) (expected : list Identity) (g : Gate) : result Gate str :=
  let? _ := may_publish expected g in
  Ok (set_held (Some (held_record operation nonce acknowledgement expected)) g).

Definition exit_kinds : list str := [§"server"; §"external-runner"; §"local-delivery"; §"migration"].

(** [Coordinator::write_exit]: the acknowledgement it copies. *)
Definition may_write_exit (operation nonce : N) (expected : list Identity) (g : Gate) : result Held str :=
  let? _ := verify_no_effect_records g in
  if negb (forallb (fun i => bool_decide (id_kind i ∈ exit_kinds)) expected)
  then Err §"participant lacks controlled idle exit support; HOLD"
  else
    match gt_held g with
    | Some h =>
      if (hd_schema_version h =? 1)%Z && (hd_operation h =? operation)%N && (hd_coordinator h =? nonce)%N
         && bool_decide (hd_participants h = expected)
      then Ok h else Err §"full held acknowledgement is stale or foreign"
    | None => Err §"held.json"
    end.

(** [Coordinator::request_exit] and [request_controller_exit] *)
Definition may_request_exit (controller : bool) (operation nonce : N) (expected : list Identity) (g : Gate) : result Held str :=
  let? _ := (if controller then let? _ := all_exited expected g in Ok tt else verify_participants expected g) in
  may_write_exit operation nonce expected g.

Definition request_exit (controller : bool) (operation nonce : N) (expected : list Identity) (g : Gate) : result Gate str :=
  let? h := may_request_exit controller operation nonce expected g in
  Ok (set_exit (Some h) g).

(** [Coordinator::remove_request] *)
Definition remove_request (operation : N) (g : Gate) : result Gate str :=
  if own_request operation g then Ok (set_request None g) else Err §"foreign drain release rejected".

(** [drop] of a [Coordinator]: its acknowledgement goes unless it is a closed
    seal; the lock is closed last. *)
Definition closed_seal (h : Held) (g : Gate) : bool :=
  bool_decide (gt_exit g = Some h) && match all_exited (hd_participants h) g with Ok b => b | Err _ => false end.

Definition drop_held (nonce : N) (g : Gate) : Gate :=
  match gt_held g with
  | Some h => if (hd_coordinator h =? nonce)%N && negb (closed_seal h g) then set_held None g else g
  | None => g
  end.

Definition drop_coordinator (q d nonce : N) (g : Gate) : Gate := close q d (drop_held nonce g).

(** [Coordinator::resume] *)
Definition resume (q d operation nonce : N) (g : Gate) : result unit str * Gate :=
  match remove_request operation g with
  | Err m => (Err m, drop_coordinator q d nonce g)
  | Ok g1 => (Ok tt, drop_coordinator q d nonce g1)
  end.

(** The seal [resume_closed] asks for. *)
Definition sealed (operation : N) (g : Gate) : bool :=
  match gt_held g, gt_exit g with
  | Some h, Some x =>
    bool_decide (h = x) && (hd_operation h =? operation)%N && negb (is_nil (hd_coordinator h)) && negb (is_nil (hd_acknowledgement h))
    && match all_exited (hd_participants h) g with Ok b => b | Err _ => false end
  | _, _ => false
  end.

(** [Coordinator::resume_closed] *)
Definition resume_closed (q d f operation nonce : N) (g : Gate) : result unit str * Gate :=
  if negb (sealed operation g) then (Err §"cold resume lacks the exact closed original cohort", drop_coordinator q d nonce g)
  else
    match try_fence q f operation g with
    | Err m => (Err m, drop_coordinator q d nonce g)
    | Ok None => (Err §"cold source still has an effect owner", drop_coordinator q d nonce g)
    | Ok (Some g1) =>
      match verify_no_effect_records g1 with
      | Err m => (Err m, drop_coordinator q d nonce (close q f g1))
      | Ok _ => resume q d operation nonce (close q f (set_held None (set_exit None g1)))
      end
    end.

(** ** Controlled exit *)

Definition consistent_exit (r : Request) (o : ControlOwner) (h x : Held) : bool :=
  (rq_schema_version r =? 1)%Z && (co_schema_version o =? 1)%Z && (hd_schema_version h =? 1)%Z && (hd_schema_version x =? 1)%Z
  && negb (is_nil (rq_operation r)) && negb (is_nil (hd_coordinator h)) && negb (is_nil (hd_acknowledgement h))
  && (rq_operation r =? hd_operation h)%N && (hd_operation x =? hd_operation h)%N && (co_operation o =? hd_operation h)%N
  && (hd_coordinator x =? hd_coordinator h)%N && (co_coordinator o =? hd_coordinator h)%N
  && (hd_acknowledgement x =? hd_acknowledgement h)%N && bool_decide (hd_participants x = hd_participants h).

(** The end of [exit_for]: the records name this boot, and the locks of a
    coordinator and of a fence are held. *)
Definition exit_named (identity : Identity) (r : Request) (o : ControlOwner) (h x : Held) : result unit str :=
  if negb (consistent_exit r o h x) then Err §"stale/foreign controlled exit intent"
  else if negb (existsb (fun i => bool_decide (i = identity)) (hd_participants h))
  then Err §"controlled exit targets a different process boot"
  else Ok tt.

(** [Gate::exit_for] *)
Definition exit_for (identity : Identity) (g : Gate) : result bool str :=
  match gt_exit g with
  | None => Ok false
  | Some _ =>
    match gt_request g, gt_current g, gt_held g, gt_exit g with
    | Some r, Some o, Some h, Some x =>
      let? _ := exit_named identity r o h x in
      if is_free CoordinatorLock true g then Err §"controlled exit coordinator disappeared"
      else if is_free EffectsLock false g then Err §"controlled exit lacks live exclusive backup fence"
      else Ok true
    | _, _, _, _ => Err §"quiescence record unavailable"
    end
  end.

(** One turn of [wait_for_exit], under the mutex: [active] counts the effects of
    the process. *)
Definition should_exit (exiting : bool) (identity : option Identity) (active : Z) (g : Gate) : result bool str :=
  if exiting then Ok true
  else
    match identity with
    | None => Ok false
    | Some i => if negb (active =? 0)%Z then Ok false else exit_for i g
    end.

(** ** Requests to the server ([quiescence.rs]) *)

Section routes.
(** [Uuid::parse_str] *)
Context (parse_uuid : str -> option N).

Definition is_uuid (s : str) : bool := is_some (parse_uuid s).

Definition lease_verbs : list str :=
  [§"ack"; §"renew"; §"control"; §"receipt"; §"logs"; §"secrets:resolve"; §"complete"; §"artifact-sessions"].
Definition session_verbs : list str := [§"chunks"; §"complete"; §"abort"].

Definition path_parts (path : str) : list str := split 47%N (trim_start_matches (N.eqb 47) path).

(** [continuation] *)
Definition lease_continuation (rest : list str) : bool :=
  match rest with
  | [verb] => bool_decide (verb ∈ lease_verbs)
  | [sessions; session; verb] => str_eqb sessions §"artifact-sessions" && is_uuid session && bool_decide (verb ∈ session_verbs)
  | _ => false
  end.

Definition renewal_continuation (rest : list str) : bool :=
  match rest with
  | [project; pipelines; pipeline; renewals] =>
    str_eqb pipelines §"pipelines" && str_eqb renewals §"credential-renewals" && is_uuid project && is_uuid pipeline
  | [project; pipelines; pipeline; renewals; key] =>
    str_eqb pipelines §"pipelines" && str_eqb renewals §"credential-renewals" && is_uuid project && is_uuid pipeline
    && negb (is_empty key) && (len key <=? 128)%Z
  | _ => false
  end.

Definition continuation (path : str) : bool :=
  if str_eqb path §"/api/v1/runner/heartbeat" || str_eqb path §"/api/v1/internal/git-push" then true
  else
    match path_parts path with
    | api :: v1 :: area :: rest =>
      if negb (str_eqb api §"api" && str_eqb v1 §"v1") then false
      else if str_eqb area §"runner" then
        match rest with
        | leases :: lease :: first :: rest => str_eqb leases §"leases" && is_uuid lease && lease_continuation (first :: rest)
        | _ => false
        end
      else if str_eqb area §"projects" then renewal_continuation rest
      else false
    | _ => false
    end.

Record http_request : Type := {
  hr_method : str;
  hr_path : str;
  hr_query : option str;
  hr_authorization : option str;
  hr_content_type : option str }.

Definition git_repository (parts : list str) : option (list str) :=
  match parts with
  | git :: rest => if str_eqb git §"git" then Some rest else None
  | [] => None
  end.

(** [git_fetch_continuation] *)
Definition git_fetch_continuation (q : http_request) : bool :=
  match hr_authorization q with
  | None => false
  | Some v =>
    if negb (starts_with §"Bearer " v) && negb (starts_with §"Basic " v) then false
    else
      let parts := git_repository (path_parts (hr_path q)) in
      let info := match parts with
                  | Some [repo; i; r] => negb (is_empty repo) && str_eqb i §"info" && str_eqb r §"refs"
                  | Some [group; repo; i; r] => negb (is_empty group) && negb (is_empty repo) && str_eqb i §"info" && str_eqb r §"refs"
                  | _ => false
                  end in
      let rpc := match parts with
                 | Some [repo; c] => negb (is_empty repo) && str_eqb c §"git-upload-pack"
                 | Some [group; repo; c] => negb (is_empty group) && negb (is_empty repo) && str_eqb c §"git-upload-pack"
                 | _ => false
                 end in
      if str_eqb (hr_method q) §"GET" && info then bool_decide (hr_query q = Some §"service=git-upload-pack")
      else str_eqb (hr_method q) §"POST" && rpc && is_none (hr_query q)
           && bool_decide (hr_content_type q = Some §"application/x-git-upload-pack-request")
  end.

(** [guarded_request]: what a request needs before its handler runs. *)
Inductive admission_of : Type :=
| Unguarded
| Effect (new_work : bool).

Definition unguarded_paths : list str := [§"/health"; §"/api/v1/health"; §"/api/v1/readiness"; §"/metrics"].

Definition guarded_request (q : http_request) : admission_of :=
  if bool_decide (hr_path q ∈ unguarded_paths) then Unguarded
  else Effect (negb (continuation (hr_path q) || git_fetch_continuation q)).
End routes.
