(* ===== verification/QuiescenceSafety.v ===== *)
(** * Quiescence: processes and coordinators in parallel, and what they keep

    A system is the gate and what its processes are doing.  A step is one
    reading, locking or writing of one of them; every operation of [Quiescence]
    is a sequence of steps, any process can end between two of them, and an
    operation can give up at any point. *)
From S2P Require Import Prelude Table Quiescence.

(** ** Processes *)

(** What an effect is entered for: new work, the continuation of work, or the
    start of the process under a drain. *)
Inductive purpose : Type := NewWork | Continuation | Startup (operation : N).

Definition is_new (k : purpose) : bool := match k with NewWork => true | _ => false end.

Record lease : Type := { ls_open : N; ls_purpose : purpose }.

(** Where the thread that holds the mutex of a process stands: between the
    readings, locks and writes of [enter_startup] and [enter], of [register],
    and of [exit_for]. *)
Inductive entry : Type :=
| Idle
| AtLock (k : purpose)
| AtCheck (k : purpose) (d : N)
| AtRecord (k : purpose) (d : N)
| AtStartup (operation : N) (d e : N)
| RegisterAtName (d : N)
| RegisterAtRemove (d live : N) (id : str)
| RegisterAtWrite (d live : N) (id : str)
| ExitAtRequest
| ExitAtOwner (r : Request)
| ExitAtHeld (r : Request) (o : ControlOwner)
| ExitAtExit (r : Request) (o : ControlOwner) (h : Held)
| ExitAtCoordinator
| ExitAtFence.

(** [pr_closing] are the files still to be closed. *)
Record process : Type := {
  pr_identity : option (Identity * N);
  pr_exiting : bool;
  pr_entry : entry;
  pr_leases : gmap N lease;
  pr_closing : gmap N (lock_file * bool) }.

Definition new_process : process := {|
  pr_identity := None; pr_exiting := false; pr_entry := Idle; pr_leases := ∅; pr_closing := ∅ |}.

Definition set_entry (x : entry) (s : process) : process := {|
  pr_identity := pr_identity s; pr_exiting := pr_exiting s; pr_entry := x; pr_leases := pr_leases s; pr_closing := pr_closing s |}.
Definition set_leases (f : gmap N lease -> gmap N lease) (s : process) : process := {|
  pr_identity := pr_identity s; pr_exiting := pr_exiting s; pr_entry := pr_entry s; pr_leases := f (pr_leases s);
  pr_closing := pr_closing s |}.
Definition set_closing (f : gmap N (lock_file * bool) -> gmap N (lock_file * bool)) (s : process) : process := {|
  pr_identity := pr_identity s; pr_exiting := pr_exiting s; pr_entry := pr_entry s; pr_leases := pr_leases s;
  pr_closing := f (pr_closing s) |}.
Definition set_registered (i : Identity) (live : N) (s : process) : process := {|
  pr_identity := Some (i, live); pr_exiting := pr_exiting s; pr_entry := pr_entry s; pr_leases := pr_leases s;
  pr_closing := pr_closing s |}.
Definition set_exiting (s : process) : process := {|
  pr_identity := pr_identity s; pr_exiting := true; pr_entry := Idle; pr_leases := pr_leases s; pr_closing := pr_closing s |}.

(** The files the current operation has open: of an effect or a registration,
    and of a participant. *)
Definition entry_open (x : entry) : option N :=
  match x with
  | AtCheck _ d | AtRecord _ d | AtStartup _ d _ | RegisterAtName d | RegisterAtRemove d _ _ | RegisterAtWrite d _ _ => Some d
  | _ => None
  end.
Definition entry_live (x : entry) : option (N * str) :=
  match x with RegisterAtRemove _ live id | RegisterAtWrite _ live id => Some (live, id) | _ => None end.

Definition close_entry (s : process) : process :=
  set_entry Idle (set_closing (fun c =>
    let c := match entry_open (pr_entry s) with Some d => <[d := (EffectsLock, false)]> c | None => c end in
    match entry_live (pr_entry s) with Some (live, id) => <[live := (ParticipantLock id, true)]> c | None => c end) s).

(** What a process does next, with the gate before and after.  An operation
    that gives up closes its files; a startup that is refused also takes its
    record back. *)
Inductive process_step (p : N) : process -> Gate -> process -> Gate -> Prop :=
| enter_new s g :
    pr_entry s = Idle -> pr_exiting s = false -> pr_identity s <> None -> refuse_new_work true g = Ok tt ->
    process_step p s g (set_entry (AtLock NewWork) s) g
| enter_continuation s g :
    pr_entry s = Idle -> pr_exiting s = false -> pr_identity s <> None ->
    process_step p s g (set_entry (AtLock Continuation) s) g
| enter_under operation s g :
    pr_entry s = Idle -> pr_exiting s = false -> pr_identity s <> None -> requested_operation g = Ok (Some operation) ->
    process_step p s g (set_entry (AtLock (Startup operation)) s) g
| enter_lock k d s g g' :
    pr_entry s = AtLock k -> gt_open g !! d = None -> lock p d EffectsLock false g = Some g' ->
    process_step p s g (set_entry (AtCheck k d) s) g'
| enter_check k d s g :
    pr_entry s = AtCheck k d -> refuse_new_work (is_new k) g = Ok tt ->
    process_step p s g (set_entry (AtRecord k d) s) g
| enter_record k d e s g :
    pr_entry s = AtRecord k d -> gt_effects g !! e = None -> pr_leases s !! e = None ->
    process_step p s g
      (match k with
       | Startup operation => set_entry (AtStartup operation d e) s
       | _ => set_entry Idle (set_leases (insert e {| ls_open := d; ls_purpose := k |}) s)
       end) (set_effects (insert e p) g)
| enter_startup_check operation d e s g :
    pr_entry s = AtStartup operation d e -> startup_continues operation g = Ok tt ->
    process_step p s g (set_entry Idle (set_leases (insert e {| ls_open := d; ls_purpose := Startup operation |}) s)) g
| drop_out s g :
    process_step p s g (close_entry s) (match pr_entry s with AtStartup _ _ e => drop_record false e g | _ => g end)
| drop_effect panicking e l s g :
    pr_leases s !! e = Some l ->
    process_step p s g (set_closing (insert (ls_open l) (EffectsLock, false)) (set_leases (delete e) s)) (drop_record panicking e g)
| close_file d s g :
    is_Some (pr_closing s !! d) -> process_step p s g (set_closing (delete d) s) (close p d g)
| register_lock d s g g' :
    pr_entry s = Idle -> pr_identity s = None -> gt_open g !! d = None -> lock p d EffectsLock false g = Some g' ->
    process_step p s g (set_entry (RegisterAtName d) s) g'
| register_name d live id s g g' :
    pr_entry s = RegisterAtName d -> safe_name id = true -> gt_open g !! live = None ->
    lock p live (ParticipantLock id) true g = Some g' ->
    process_step p s g (set_entry (RegisterAtRemove d live id) s) g'
| register_remove d live id s g :
    pr_entry s = RegisterAtRemove d live id ->
    process_step p s g (set_entry (RegisterAtWrite d live id) s) (set_identities (delete id) g)
| register_write d live id boot kind process_id start roots s g :
    pr_entry s = RegisterAtWrite d live id -> safe_name kind = true ->
    process_step p s g
      (set_entry Idle (set_closing (insert d (EffectsLock, false)) (set_registered (identity_of id boot kind process_id start roots) live s)))
      (set_identities (insert id (identity_of id boot kind process_id start roots)) g)
| exit_begin s g :
    pr_entry s = Idle -> pr_exiting s = false -> pr_identity s <> None -> pr_leases s = ∅ -> gt_exit g <> None ->
    process_step p s g (set_entry ExitAtRequest s) g
| exit_request r s g :
    pr_entry s = ExitAtRequest -> gt_request g = Some r -> process_step p s g (set_entry (ExitAtOwner r) s) g
| exit_owner r o s g :
    pr_entry s = ExitAtOwner r -> gt_current g = Some o -> process_step p s g (set_entry (ExitAtHeld r o) s) g
| exit_held r o h s g :
    pr_entry s = ExitAtHeld r o -> gt_held g = Some h -> process_step p s g (set_entry (ExitAtExit r o h) s) g
| exit_exit r o h x i live s g :
    pr_entry s = ExitAtExit r o h -> gt_exit g = Some x -> pr_identity s = Some (i, live) -> exit_named i r o h x = Ok tt ->
    process_step p s g (set_entry ExitAtCoordinator s) g
| exit_coordinator s g :
    pr_entry s = ExitAtCoordinator -> is_free CoordinatorLock true g = false ->
    process_step p s g (set_entry ExitAtFence s) g
| exit_fence s g :
    pr_entry s = ExitAtFence -> is_free EffectsLock false g = false -> process_step p s g (set_exiting s) g.

(** ** Coordinators *)

Inductive phase : Type :=
| Requesting
| Announcing
| Ready
| Publishing (expected : list Identity)
| RequestingExit (h : Held)
| Reopening
| ReopenAtHeld
| ReopenAtFence
| Dropping
| Gone.

(** [cd_verified] is what the coordinator has checked under its current fence. *)
Record coordinator : Type := {
  cd_operation : N;
  cd_nonce : N;
  cd_phase : phase;
  cd_lock : option N;
  cd_fence : option N;
  cd_verified : option (list Identity) }.

Definition set_phase (x : phase) (c : coordinator) : coordinator := {|
  cd_operation := cd_operation c; cd_nonce := cd_nonce c; cd_phase := x; cd_lock := cd_lock c; cd_fence := cd_fence c;
  cd_verified := cd_verified c |}.
Definition set_nonce (nonce : N) (c : coordinator) : coordinator := {|
  cd_operation := cd_operation c; cd_nonce := nonce; cd_phase := cd_phase c; cd_lock := cd_lock c; cd_fence := cd_fence c;
  cd_verified := cd_verified c |}.
Definition set_fence (f : option N) (v : option (list Identity)) (c : coordinator) : coordinator := {|
  cd_operation := cd_operation c; cd_nonce := cd_nonce c; cd_phase := cd_phase c; cd_lock := cd_lock c; cd_fence := f;
  cd_verified := v |}.
Definition without_lock (c : coordinator) : coordinator := {|
  cd_operation := cd_operation c; cd_nonce := cd_nonce c; cd_phase := Gone; cd_lock := None; cd_fence := cd_fence c;
  cd_verified := cd_verified c |}.

Inductive coordinator_step (q : N) : coordinator -> Gate -> coordinator -> Gate -> Prop :=
| claim c g g' :
    cd_phase c = Requesting -> is_nil (cd_operation c) = false -> claim_request (cd_operation c) g = Ok g' ->
    coordinator_step q c g (set_phase Announcing c) g'
| announce_ready nonce c g :
    cd_phase c = Announcing -> coordinator_step q c g (set_phase Ready (set_nonce nonce c)) (announce (cd_operation c) nonce g)
| take_fence f c g g' :
    cd_phase c = Ready -> cd_fence c = None -> gt_open g !! f = None -> try_fence q f (cd_operation c) g = Ok (Some g') ->
    coordinator_step q c g (set_fence (Some f) None c) g'
| drop_fence f c g :
    cd_phase c = Ready \/ cd_phase c = Dropping \/ cd_phase c = Gone -> cd_fence c = Some f -> coordinator_step q c g (set_fence None None c) (close q f g)
| verify expected c g :
    cd_phase c = Ready -> cd_fence c <> None -> may_publish expected g = Ok tt ->
    coordinator_step q c g (set_phase (Publishing expected) (set_fence (cd_fence c) (Some expected) c)) g
| publish expected acknowledgement c g :
    cd_phase c = Publishing expected ->
    coordinator_step q c g (set_phase Ready c) (set_held (Some (held_record (cd_operation c) (cd_nonce c) acknowledgement expected)) g)
| verify_exit controller expected h c g :
    cd_phase c = Ready -> cd_fence c <> None -> may_request_exit controller (cd_operation c) (cd_nonce c) expected g = Ok h ->
    coordinator_step q c g (set_phase (RequestingExit h) c) g
| write_exit h c g :
    cd_phase c = RequestingExit h -> coordinator_step q c g (set_phase Ready c) (set_exit (Some h) g)
| reopen f c g g' :
    cd_phase c = Ready -> cd_fence c = None -> sealed (cd_operation c) g = true -> gt_open g !! f = None ->
    try_fence q f (cd_operation c) g = Ok (Some g') ->
    coordinator_step q c g (set_phase Reopening (set_fence (Some f) None c)) g'
| reopen_exit c g :
    cd_phase c = Reopening -> verify_no_effect_records g = Ok tt ->
    coordinator_step q c g (set_phase ReopenAtHeld c) (set_exit None g)
| reopen_held c g :
    cd_phase c = ReopenAtHeld -> coordinator_step q c g (set_phase ReopenAtFence c) (set_held None g)
| reopen_fence f c g :
    cd_phase c = ReopenAtFence -> cd_fence c = Some f ->
    coordinator_step q c g (set_phase Ready (set_fence None None c)) (close q f g)
| release_request c g g' :
    cd_phase c = Ready -> remove_request (cd_operation c) g = Ok g' -> coordinator_step q c g (set_phase Dropping c) g'
| abandon c g :
    cd_phase c <> Gone -> coordinator_step q c g (set_phase Dropping c) g
| drop_seal d c g :
    cd_phase c = Dropping -> cd_lock c = Some d -> coordinator_step q c g (without_lock c) (close q d (drop_held (cd_nonce c) g)).

(** ** Systems *)

Inductive actor : Type :=
| Process (s : process)
| Coordinator (c : coordinator).

Record system : Type := { sy_gate : Gate; sy_actors : gmap N actor }.

Definition act (p : N) (a : actor) (g : Gate) (s : system) : system := {| sy_gate := g; sy_actors := <[p := a]> (sy_actors s) |}.

(** A process identifier that nobody has. *)
Definition unused (p : N) (s : system) : Prop :=
  sy_actors s !! p = None /\ forall d o, gt_open (sy_gate s) !! d = Some o -> p ∉ of_owners o.

Inductive step : system -> system -> Prop :=
| step_spawn p s :
    unused p s -> step s (act p (Process new_process) (sy_gate s) s)
| step_process p a a' g' s :
    sy_actors s !! p = Some (Process a) -> process_step p a (sy_gate s) a' g' -> step s (act p (Process a') g' s)
| step_coordinate q d operation g' s :
    unused q s -> gt_open (sy_gate s) !! d = None -> lock q d CoordinatorLock true (sy_gate s) = Some g' ->
    step s (act q (Coordinator {| cd_operation := operation; cd_nonce := 0; cd_phase := Requesting; cd_lock := Some d;
                                  cd_fence := None; cd_verified := None |}) g' s)
| step_coordinator q c c' g' s :
    sy_actors s !! q = Some (Coordinator c) -> coordinator_step q c (sy_gate s) c' g' -> step s (act q (Coordinator c') g' s)
| step_inherit p a e l child s :
    sy_actors s !! p = Some (Process a) -> pr_leases a !! e = Some l -> sy_actors s !! child = None ->
    step s {| sy_gate := inherit child (ls_open l) (sy_gate s); sy_actors := sy_actors s |}
| step_child_end child s :
    sy_actors s !! child = None -> step s {| sy_gate := end_process child (sy_gate s); sy_actors := sy_actors s |}
| step_end p s :
    step s {| sy_gate := end_process p (sy_gate s); sy_actors := delete p (sy_actors s) |}
| step_retire id r g' s :
    retire_workspace_effect id (sy_gate s) = (r, g') -> step s {| sy_gate := g'; sy_actors := sy_actors s |}.

(** A gate that was just opened, with no process. *)
Definition start : system := {|
  sy_gate := {| gt_request := None; gt_current := None; gt_held := None; gt_exit := None; gt_identities := ∅; gt_lock_files := ∅;
                gt_effects := ∅; gt_open := ∅ |};
  sy_actors := ∅ |}.

(** ** Custody: who has which file open *)

Inductive slot : Type := InEntry | InLive | InIdentity | InLease (e : N) | InClosing | InLock | InFence.

#[export] Instance slot_eq_dec : EqDecision slot.
Proof. solve_decision. Defined.

Definition has (a : actor) (l : slot) (d : N) (f : lock_file) (x : bool) : Prop :=
  match a, l with
  | Process s, InEntry => entry_open (pr_entry s) = Some d /\ f = EffectsLock /\ x = false
  | Process s, InLive => exists id, entry_live (pr_entry s) = Some (d, id) /\ f = ParticipantLock id /\ x = true
  | Process s, InIdentity => exists i, pr_identity s = Some (i, d) /\ f = ParticipantLock (id_participant i) /\ x = true
  | Process s, InLease e => exists k, pr_leases s !! e = Some {| ls_open := d; ls_purpose := k |} /\ f = EffectsLock /\ x = false
  | Process s, InClosing => pr_closing s !! d = Some (f, x)
  | Coordinator c, InLock => cd_lock c = Some d /\ f = CoordinatorLock /\ x = true
  | Coordinator c, InFence => cd_fence c = Some d /\ f = EffectsLock /\ x = true
  | _, _ => False
  end.

Definition unique (a : actor) : Prop := forall l l' d f f' x x', has a l d f x -> has a l' d f' x' -> l = l'.

Record custody (open : gmap N open_file) (actors : gmap N actor) : Prop := {
  cu_locks : forall d d' o o', open !! d = Some o -> open !! d' = Some o' -> of_file o = of_file o' -> of_exclusive o = true -> d = d';
  cu_has : forall p a l d f x, actors !! p = Some a -> has a l d f x ->
    exists o, open !! d = Some o /\ of_file o = f /\ of_exclusive o = x /\ p ∈ of_owners o;
  cu_unique : forall p a, actors !! p = Some a -> unique a;
  cu_owned : forall p a d o, actors !! p = Some a -> open !! d = Some o -> p ∈ of_owners o -> exists l f x, has a l d f x;
  cu_orphan : forall p d o, actors !! p = None -> open !! d = Some o -> p ∈ of_owners o ->
    of_file o = EffectsLock /\ of_exclusive o = false;
  cu_owners : forall d o, open !! d = Some o -> of_owners o <> ∅;
  cu_single : forall d o p q, open !! d = Some o -> of_exclusive o = true -> p ∈ of_owners o -> q ∈ of_owners o -> p = q }.

Lemma is_free_iff f x g :
  is_free f x g = true <-> forall d o, gt_open g !! d = Some o -> of_file o = f -> x = false /\ of_exclusive o = false.
Proof.
  unfold is_free, blocks. rewrite negb_true_iff, exists_row_false. split.
  - intros Hn d o Ho Hf. specialize (Hn d o Ho). rewrite bool_decide_eq_true_2 in Hn by done. cbn in Hn. by apply orb_false_iff in Hn.
  - intros Ha d o Ho. case_bool_decide as Hf; [|done]. destruct (Ha d o Ho Hf) as [-> ->]. done.
Qed.

Lemma lock_Some p d f x g g' :
  lock p d f x g = Some g' ->
  is_free f x g = true /\ gt_open g' = <[d := {| of_file := f; of_exclusive := x; of_owners := {[p]} |}]> (gt_open g).
Proof. unfold lock. destruct (is_free f x g) eqn:E; [|done]. intros [= <-]. split; [done|]. by destruct f. Qed.

Section custody.
Implicit Types (open : gmap N open_file) (actors : gmap N actor).

(** A process that holds the same files as before. *)
Lemma custody_same open actors p a a' :
  custody open actors -> actors !! p = Some a -> unique a' ->
  (forall d f x, (exists l, has a' l d f x) <-> (exists l, has a l d f x)) ->
  custody open (<[p := a']> actors).
Proof.
  intros [Hl Hh Hu Ho Hor Hn Hsi] Ha Hu' Heq. split; try done.
  - intros q b l d f x [[<- <-]|[Hne Hb]]%lookup_insert_Some Hhas; [|by eapply Hh].
    destruct (proj1 (Heq d f x)) as [l' Hl']; [by exists l|]. by eapply Hh.
  - intros q b [[<- <-]|[_ Hb]]%lookup_insert_Some; [done|by eapply Hu].
  - intros q b d o [[<- <-]|[_ Hb]]%lookup_insert_Some Hopen Hown; [|by eapply Ho].
    destruct (Ho p a d o Ha Hopen Hown) as (l & f & x & Hx). destruct (proj2 (Heq d f x)) as [l' Hl']; [by exists l|]. by exists l', f, x.
  - intros q d o Hq. apply Hor. apply lookup_insert_None in Hq as [Hq _]. done.
Qed.

(** A process that opens a file. *)
Lemma custody_lock open actors p d f x a' :
  custody open actors -> open !! d = None ->
  (forall d' o, open !! d' = Some o -> of_file o = f -> x = false /\ of_exclusive o = false) ->
  unique a' -> (exists l, has a' l d f x) ->
  (forall d' f' x', (exists l, has a' l d' f' x') -> (d', f', x') = (d, f, x) \/ exists a l, actors !! p = Some a /\ has a l d' f' x') ->
  (forall a d' f' x', actors !! p = Some a -> (exists l, has a l d' f' x') -> exists l, has a' l d' f' x') ->
  (forall d' o, actors !! p = None -> open !! d' = Some o -> p ∉ of_owners o) ->
  custody (<[d := {| of_file := f; of_exclusive := x; of_owners := {[p]} |}]> open) (<[p := a']> actors).
Proof.
  intros [Hl Hh Hu Ho Hor Hn Hsi] Hd Hfree Hu' Hnew Hfrom Hkeep Hfresh. split.
  - intros d1 d2 o1 o2 [[<- <-]|[Hne1 H1]]%lookup_insert_Some [[<- <-]|[Hne2 H2]]%lookup_insert_Some Hf Hx; cbn in *; [done| | |by eapply Hl].
    + destruct (Hfree d2 o2 H2 ltac:(congruence)). congruence.
    + destruct (Hfree d1 o1 H1 ltac:(congruence)). congruence.
  - intros q b l d' f' x' [[<- <-]|[Hne Hb]]%lookup_insert_Some Hhas.
    + destruct (Hfrom d' f' x') as [[= -> -> ->]|(a & l' & Ha & Hl')]; [by exists l| |].
      * rewrite lookup_insert_eq. eexists. split; [done|]. cbn. split_and!; try done. set_solver.
      * destruct (Hh _ _ _ _ _ _ Ha Hl') as (o & Ho1 & Ho2). rewrite lookup_insert_ne by congruence. by exists o.
    + destruct (Hh _ _ _ _ _ _ Hb Hhas) as (o & Ho1 & Ho2). rewrite lookup_insert_ne by congruence. by exists o.
  - intros q b [[<- <-]|[_ Hb]]%lookup_insert_Some; [done|by eapply Hu].
  - intros q b d' o [[<- <-]|[Hne Hb]]%lookup_insert_Some [[<- <-]|[Hd' Ho']]%lookup_insert_Some Hown; cbn in *.
    + destruct Hnew as [l Hl']. by exists l, f, x.
    + destruct (actors !! p) as [a|] eqn:Ea; [|by destruct (Hfresh d' o)].
      destruct (Ho p a d' o Ea Ho' Hown) as (l & f' & x' & Hx). destruct (Hkeep a d' f' x') as [l' Hl']; [done|by exists l|]. by exists l', f', x'.
    + set_solver.
    + by eapply Ho.
  - intros q d' o [Hq Hne]%lookup_insert_None [[<- <-]|[Hd' Ho']]%lookup_insert_Some Hown; cbn in *; [set_solver|by eapply Hor].
  - intros d' o [[<- <-]|[_ Ho']]%lookup_insert_Some; [set_solver|by eapply Hn].
  - intros d' o q q' [[<- <-]|[_ Ho']]%lookup_insert_Some Hx; cbn; [set_solver|by eapply Hsi].
Qed.

Lemma release_Some p o o' :
  release p o = Some o' <->
  o' = {| of_file := of_file o; of_exclusive := of_exclusive o; of_owners := of_owners o ∖ {[p]} |} /\ of_owners o' <> ∅.
Proof. unfold release. case_bool_decide; naive_solver. Qed.

Lemma lookup_close p d g d' o' :
  gt_open (close p d g) !! d' = Some o' <->
  exists o, gt_open g !! d' = Some o /\ (if decide (d' = d) then release p o = Some o' else o' = o).
Proof.
  unfold close, set_open. cbn. destruct (decide (d' = d)) as [->|Hne].
  - rewrite lookup_partial_alter_eq. rewrite bind_Some. done.
  - rewrite lookup_partial_alter_ne by done. naive_solver.
Qed.

(** A process that closes a file. *)
Lemma custody_close g actors p d a a' :
  custody (gt_open g) actors -> actors !! p = Some a -> unique a' ->
  (forall d' f x, (exists l, has a' l d' f x) <-> d' <> d /\ exists l, has a l d' f x) ->
  custody (gt_open (close p d g)) (<[p := a']> actors).
Proof.
  intros [Hl Hh Hu Ho Hor Hn Hsi] Ha Hu' Heq.
  assert (Hc : forall d' o', gt_open (close p d g) !! d' = Some o' -> exists o, gt_open g !! d' = Some o /\ of_file o' = of_file o /\
            of_exclusive o' = of_exclusive o /\ of_owners o' ⊆ of_owners o /\ of_owners o' <> ∅ /\ (d' = d -> p ∉ of_owners o')).
  { intros d' o' (o & Ho' & Hr)%lookup_close. exists o. split; [done|]. destruct (decide (d' = d)).
    - apply release_Some in Hr as [-> ?]. cbn in *. split_and!; try done; set_solver.
    - subst. split_and!; try done. by eapply Hn. }
  split.
  - intros d1 d2 o1 o2 (x1 & ? & ? & ? & _)%Hc (x2 & ? & ? & ? & _)%Hc ? ?. eapply (Hl d1 d2 x1 x2); congruence.
  - intros q b l d' f x [[<- <-]|[Hne Hb]]%lookup_insert_Some Hhas.
    + destruct (proj1 (Heq d' f x)) as [Hd [l' Hl']]; [by exists l|]. destruct (Hh _ _ _ _ _ _ Ha Hl') as (o & Ho1 & Ho2).
      exists o. split; [|done]. apply lookup_close. exists o. split; [done|]. by rewrite decide_False.
    + destruct (Hh _ _ _ _ _ _ Hb Hhas) as (o & Ho1 & <- & <- & Hq). destruct (decide (d' = d)) as [->|Hd].
      * exists {| of_file := of_file o; of_exclusive := of_exclusive o; of_owners := of_owners o ∖ {[p]} |}. cbn.
        split_and!; try done; [|set_solver]. apply lookup_close. exists o. split; [done|]. rewrite decide_True by done.
        apply release_Some. cbn. split; [done|set_solver].
      * exists o. split_and!; try done. apply lookup_close. exists o. split; [done|]. by rewrite decide_False.
  - intros q b [[<- <-]|[_ Hb]]%lookup_insert_Some; [done|by eapply Hu].
  - intros q b d' o' [[<- <-]|[_ Hb]]%lookup_insert_Some (o & ? & ? & ? & Hs & _ & Hd)%Hc Hown.
    + destruct (Ho p a d' o Ha) as (l & f & x & Hx); [done|set_solver|]. destruct (proj2 (Heq d' f x)) as [l' Hl']; [|by exists l', f, x].
      split; [by intros ->; apply Hd|by exists l].
    + eapply Ho; [done|done|set_solver].
  - intros q d' o' [Hq _]%lookup_insert_None (o & ? & -> & -> & Hs & _)%Hc Hown. eapply Hor; [done|done|set_solver].
  - intros d' o' (o & ? & ? & ? & Hs & Hne & _)%Hc. done.
  - intros d' o' q q' (o & ? & _ & Ex & Hs & _)%Hc Hx Hq Hq'. eapply (Hsi d' o); [done|congruence|set_solver|set_solver].
Qed.

Lemma lookup_end_process p g d o' :
  gt_open (end_process p g) !! d = Some o' <-> exists o, gt_open g !! d = Some o /\ release p o = Some o'.
Proof. unfold end_process, set_open. cbn. rewrite lookup_omap. rewrite bind_Some. done. Qed.

(** The end of a process. *)
Lemma custody_end g actors p :
  custody (gt_open g) actors -> custody (gt_open (end_process p g)) (delete p actors).
Proof.
  intros [Hl Hh Hu Ho Hor Hn Hsi].
  assert (Hc : forall d o', gt_open (end_process p g) !! d = Some o' -> exists o, gt_open g !! d = Some o /\ of_file o' = of_file o /\
            of_exclusive o' = of_exclusive o /\ of_owners o' = of_owners o ∖ {[p]} /\ of_owners o' <> ∅).
  { intros d o' (o & Ho' & [-> ?]%release_Some)%lookup_end_process. by exists o. }
  split.
  - intros d1 d2 o1 o2 (x1 & ? & ? & ? & _)%Hc (x2 & ? & ? & ? & _)%Hc ? ?. eapply (Hl d1 d2 x1 x2); congruence.
  - intros q b l d f x [Hne Hb]%lookup_delete_Some Hhas. destruct (Hh _ _ _ _ _ _ Hb Hhas) as (o & Ho1 & <- & <- & Hq).
    exists {| of_file := of_file o; of_exclusive := of_exclusive o; of_owners := of_owners o ∖ {[p]} |}. cbn.
    split_and!; try done; [|set_solver]. apply lookup_end_process. exists o. split; [done|]. apply release_Some. cbn. split; [done|set_solver].
  - intros q b [_ Hb]%lookup_delete_Some. by eapply Hu.
  - intros q b d o' [Hne Hb]%lookup_delete_Some (o & ? & ? & ? & Eo & _)%Hc Hown. eapply Ho; [done|done|set_solver].
  - intros q d o' Hq (o & ? & -> & -> & Eo & _)%Hc Hown. rewrite Eo in Hown. apply lookup_delete_None in Hq as [->|Hq]; [set_solver|].
    eapply Hor; [done|done|set_solver].
  - by intros d o' (o & ? & ? & ? & ? & ?)%Hc.
  - intros d o' q q' (o & ? & _ & Ex & Eo & _)%Hc Hx. rewrite Eo. intros Hq Hq'. eapply (Hsi d o); [done|congruence|set_solver|set_solver].
Qed.

(** A child that inherits the file of an effect. *)
Lemma custody_inherit g actors child d p a e k :
  custody (gt_open g) actors -> actors !! child = None -> actors !! p = Some a -> has a (InLease e) d EffectsLock k ->
  custody (gt_open (inherit child d g)) actors.
Proof.
  intros [Hl Hh Hu Ho Hor Hn Hsi] Hch Ha Hhas. destruct (Hh _ _ _ _ _ _ Ha Hhas) as (od & Hod & Hof & Hox & Hown).
  assert (Hk : k = false) by (destruct a; naive_solver). subst k.
  assert (Hc : forall d' o', gt_open (inherit child d g) !! d' = Some o' -> exists o, gt_open g !! d' = Some o /\ of_file o' = of_file o /\
            of_exclusive o' = of_exclusive o /\ (forall q, q ∈ of_owners o' <-> q ∈ of_owners o \/ q = child /\ d' = d)).
  { intros d' o'. unfold inherit, set_open. cbn. rewrite lookup_alter_Some. intros [(<- & o & Ho' & ->)|(Hne & Ho')].
    - exists o. cbn. split_and!; try done. set_solver.
    - exists o'. split_and!; try done. naive_solver. }
  split.
  - intros d1 d2 o1 o2 (x1 & ? & ? & ? & _)%Hc (x2 & ? & ? & ? & _)%Hc ? ?. eapply (Hl d1 d2 x1 x2); congruence.
  - intros q b l d' f x Hb Hx. destruct (Hh _ _ _ _ _ _ Hb Hx) as (o & Ho1 & <- & <- & Hq). unfold inherit, set_open. cbn.
    destruct (decide (d' = d)) as [->|Hd].
    + rewrite lookup_alter_eq, Ho1. cbn. eexists. split; [done|]. cbn. split_and!; try done. set_solver.
    + rewrite lookup_alter_ne by done. by exists o.
  - done.
  - intros q b d' o' Hb (o & ? & ? & ? & Eo)%Hc [Hq|[-> _]]%Eo; [by eapply Ho|congruence].
  - intros q d' o' Hq (o & ? & -> & -> & Eo)%Hc [Hq'|[-> ->]]%Eo; [by eapply Hor|]. by simplify_eq.
  - intros d' o' (o & Ho' & ? & ? & Eo)%Hc E. apply (Hn d' o Ho'). apply set_eq. intros q. split; [|set_solver].
    intros Hq. specialize (proj2 (Eo q) (or_introl Hq)). rewrite E. set_solver.
  - intros d' o' q q' (o & Ho' & _ & Ex & Eo)%Hc Hx [Hq|[_ ->]]%Eo [Hq'|[_ Hd']]%Eo; try (by eapply (Hsi d' o); [done|congruence|..]); simplify_eq; congruence.
Qed.
End custody.

(** ** The invariant *)

Definition leaving (x : entry) : bool :=
  match x with ExitAtRequest | ExitAtOwner _ | ExitAtHeld _ _ | ExitAtExit _ _ _ | ExitAtCoordinator | ExitAtFence => true | _ => false end.

(** A process that looks for an exit has no effect, and one that exits starts
    nothing. *)
Definition process_ok (s : process) : Prop :=
  (leaving (pr_entry s) = true \/ pr_exiting s = true -> pr_leases s = ∅ /\ pr_identity s <> None) /\
  (pr_exiting s = true -> pr_entry s = Idle) /\
  (pr_identity s <> None -> forall d live id, pr_entry s <> RegisterAtName d /\ pr_entry s <> RegisterAtRemove d live id /\
                                              pr_entry s <> RegisterAtWrite d live id) /\
  (forall operation d e, pr_entry s = AtStartup operation d e -> pr_leases s !! e = None) /\
  (forall d x, pr_closing s !! d = Some (EffectsLock, x) -> x = false).

(** The coordinator's request is in force in these phases. *)
Definition in_control (x : phase) : bool := match x with Requesting | Dropping | Gone => false | _ => true end.

Definition coordinator_ok (c : coordinator) (s : system) : Prop :=
  (cd_phase c = Gone <-> cd_lock c = None) /\
  (in_control (cd_phase c) = true -> is_nil (cd_operation c) = false /\
     gt_request (sy_gate s) = Some {| rq_schema_version := 1; rq_operation := cd_operation c |}) /\
  (forall expected, cd_phase c = Publishing expected -> cd_verified c = Some expected) /\
  (forall expected, cd_verified c = Some expected ->
     cd_fence c <> None /\ gt_effects (sy_gate s) = ∅ /\
     forall p a i live, sy_actors s !! p = Some (Process a) -> pr_identity a = Some (i, live) -> i ∈ expected).

Record good (s : system) : Prop := {
  gd_custody : custody (gt_open (sy_gate s)) (sy_actors s);
  gd_files : forall d o id, gt_open (sy_gate s) !! d = Some o -> of_file o = ParticipantLock id -> id ∈ gt_lock_files (sy_gate s);
  gd_identity : forall p a i live, sy_actors s !! p = Some (Process a) -> pr_identity a = Some (i, live) ->
    gt_identities (sy_gate s) !! id_participant i = Some i;
  gd_process : forall p a, sy_actors s !! p = Some (Process a) -> process_ok a;
  gd_coordinator : forall q c, sy_actors s !! q = Some (Coordinator c) -> coordinator_ok c s }.

(** A fence excludes every other open file of the effects lock. *)
Lemma fence_alone s q c f d o :
  custody (gt_open (sy_gate s)) (sy_actors s) -> sy_actors s !! q = Some (Coordinator c) -> cd_fence c = Some f ->
  gt_open (sy_gate s) !! d = Some o -> of_file o = EffectsLock -> d = f.
Proof.
  intros Hc Hq Hf Hd Ho. destruct (cu_has _ _ Hc q _ InFence f EffectsLock true Hq) as (o' & Ho' & Hof & Hx & _); [done|].
  symmetry. eapply (cu_locks _ _ Hc f d); [done|done|congruence|done].
Qed.

Lemma fence_no_effect s q c f p a l d :
  custody (gt_open (sy_gate s)) (sy_actors s) -> sy_actors s !! q = Some (Coordinator c) -> cd_fence c = Some f ->
  sy_actors s !! p = Some a -> has a l d EffectsLock false -> False.
Proof.
  intros Hc Hq Hf Hp Hl. destruct (cu_has _ _ Hc p a l d EffectsLock false Hp Hl) as (o & Ho & Hof & Hx & _).
  pose proof (fence_alone s q c f d o Hc Hq Hf Ho Hof) as ->.
  destruct (cu_has _ _ Hc q _ InFence f EffectsLock true Hq) as (o' & Ho' & _ & Hx' & _); [done|]. congruence.
Qed.

(** At most one coordinator has its lock, and at most one its fence. *)
Lemma locks_equal s q q' c c' d d' :
  custody (gt_open (sy_gate s)) (sy_actors s) -> sy_actors s !! q = Some (Coordinator c) -> sy_actors s !! q' = Some (Coordinator c') ->
  cd_lock c = Some d -> cd_lock c' = Some d' -> q = q'.
Proof.
  intros Hc Hq Hq' Hd Hd'. destruct (cu_has _ _ Hc q _ InLock d CoordinatorLock true Hq) as (o & Ho & Hof & Hx & Hown); [done|].
  destruct (cu_has _ _ Hc q' _ InLock d' CoordinatorLock true Hq') as (o' & Ho' & Hof' & Hx' & Hown'); [done|].
  assert (d = d') as <- by (eapply (cu_locks _ _ Hc); [done|done|congruence|done]). simplify_eq. by eapply (cu_single _ _ Hc).
Qed.

Lemma fences_equal s q q' c c' f f' :
  custody (gt_open (sy_gate s)) (sy_actors s) -> sy_actors s !! q = Some (Coordinator c) -> sy_actors s !! q' = Some (Coordinator c') ->
  cd_fence c = Some f -> cd_fence c' = Some f' -> q = q'.
Proof.
  intros Hc Hq Hq' Hd Hd'. destruct (cu_has _ _ Hc q _ InFence f EffectsLock true Hq) as (o & Ho & Hof & Hx & Hown); [done|].
  destruct (cu_has _ _ Hc q' _ InFence f' EffectsLock true Hq') as (o' & Ho' & Hof' & Hx' & Hown'); [done|].
  assert (f = f') as <- by (eapply (cu_locks _ _ Hc); [done|done|congruence|done]). simplify_eq. by eapply (cu_single _ _ Hc).
Qed.

(** *** Custody of the steps *)

Lemma fresh_not_held open actors p a l d f x :
  custody open actors -> actors !! p = Some a -> open !! d = None -> has a l d f x -> False.
Proof. intros Hc Ha Hd Hl. destruct (cu_has _ _ Hc _ _ _ _ _ _ Ha Hl) as (o & Ho & _). congruence. Qed.

(** Files that change places: a process holds the same ones, under slots that
    are still its own. *)
Ltac holds := unfold unique, has in *; intros; cbn in *; repeat match goal with
  | l : slot |- _ => destruct l; cbn in *
  end; try naive_solver.

Lemma entry_moves a x :
  unique (Process a) -> entry_open x = entry_open (pr_entry a) -> entry_live x = entry_live (pr_entry a) ->
  unique (Process (set_entry x a)) /\
  (forall d f b, (exists l, has (Process (set_entry x a)) l d f b) <-> (exists l, has (Process a) l d f b)).
Proof.
  intros Hu E1 E2.
  assert (E : forall l d f b, has (Process (set_entry x a)) l d f b <-> has (Process a) l d f b)
    by (intros [] d f b; cbn; rewrite ?E1, ?E2; done).
  split; [|intros d f b; split; intros [l Hl]; exists l; by apply E].
  intros l l' d f f' b b' Hl%E Hl'%E. by eapply Hu.
Qed.

Lemma has_lock_entry a x d l d' f' b' :
  entry_open (pr_entry a) = None -> entry_live (pr_entry a) = None -> entry_open x = Some d -> entry_live x = None ->
  (has (Process (set_entry x a)) l d' f' b' <->
   l = InEntry /\ d' = d /\ f' = EffectsLock /\ b' = false \/ has (Process a) l d' f' b').
Proof. intros E1 E2 E3 E4. destruct l; cbn; rewrite ?E1, ?E2, ?E3, ?E4; naive_solver. Qed.

Lemma custody_lock_entry g actors p a x d :
  custody (gt_open g) actors -> actors !! p = Some (Process a) -> gt_open g !! d = None -> is_free EffectsLock false g = true ->
  entry_open (pr_entry a) = None -> entry_live (pr_entry a) = None -> entry_open x = Some d -> entry_live x = None ->
  custody (<[d := {| of_file := EffectsLock; of_exclusive := false; of_owners := {[p]} |}]> (gt_open g))
          (<[p := Process (set_entry x a)]> actors).
Proof.
  intros Hc Ha Hd Hfree E1 E2 E3 E4. pose proof (cu_unique _ _ Hc _ _ Ha) as Hu.
  assert (E : forall l d' f' b', has (Process (set_entry x a)) l d' f' b' <->
     l = InEntry /\ d' = d /\ f' = EffectsLock /\ b' = false \/ has (Process a) l d' f' b') by (intros; by apply has_lock_entry).
  eapply custody_lock; try done.
  - intros d' o Ho Hf. by apply (proj1 (is_free_iff _ _ _) Hfree d' o).
  - intros l l' e f f' b b' [(-> & -> & _)|Hl]%E [(-> & He & _)|Hl']%E; try done.
    + by destruct (fresh_not_held _ _ _ _ _ _ _ _ Hc Ha Hd Hl').
    + subst. by destruct (fresh_not_held _ _ _ _ _ _ _ _ Hc Ha Hd Hl).
    + by eapply Hu.
  - exists InEntry. apply E. by left.
  - intros d' f' b' [l [(_ & -> & -> & ->)|Hl]%E]; [by left|]. right. by exists (Process a), l.
  - intros a0 d' f' b' Ha0 [l Hl]. simplify_eq. exists l. apply E. by right.
  - intros d' o Hn. congruence.
Qed.

Lemma custody_lock_live g actors p a d live id :
  custody (gt_open g) actors -> actors !! p = Some (Process a) -> gt_open g !! live = None ->
  is_free (ParticipantLock id) true g = true -> pr_entry a = RegisterAtName d ->
  custody (<[live := {| of_file := ParticipantLock id; of_exclusive := true; of_owners := {[p]} |}]> (gt_open g))
          (<[p := Process (set_entry (RegisterAtRemove d live id) a)]> actors).
Proof.
  intros Hc Ha Hd Hfree E1. pose proof (cu_unique _ _ Hc _ _ Ha) as Hu.
  assert (E : forall l d' f' b', has (Process (set_entry (RegisterAtRemove d live id) a)) l d' f' b' <->
     l = InLive /\ d' = live /\ f' = ParticipantLock id /\ b' = true \/ has (Process a) l d' f' b').
  { intros [] d' f' b'; cbn; rewrite ?E1; naive_solver. }
  eapply custody_lock; try done.
  - intros d' o Ho Hf. by apply (proj1 (is_free_iff _ _ _) Hfree d' o).
  - intros l l' e f f' b b' [(-> & -> & _)|Hl]%E [(-> & He & _)|Hl']%E; try done.
    + by destruct (fresh_not_held _ _ _ _ _ _ _ _ Hc Ha Hd Hl').
    + subst. by destruct (fresh_not_held _ _ _ _ _ _ _ _ Hc Ha Hd Hl).
    + by eapply Hu.
  - exists InLive. apply E. by left.
  - intros d' f' b' [l [(_ & -> & -> & ->)|Hl]%E]; [by left|]. right. by exists (Process a), l.
  - intros a0 d' f' b' Ha0 [l Hl]. simplify_eq. exists l. apply E. by right.
  - intros d' o Hn. congruence.
Qed.

(** A process whose slots are those of another one, renamed by [r] where they
    are in use. *)
Lemma unique_renamed a a' (r : slot -> N -> slot) :
  unique a ->
  (forall l d f b, has a' l d f b -> has a (r l d) d f b) ->
  (forall l l' d f f' b b', has a' l d f b -> has a' l' d f' b' -> r l d = r l' d -> l = l') ->
  unique a'.
Proof. intros Hu Hr Hi l l' d f f' b b' Hl Hl'. eapply Hi; [done|done|]. eapply Hu; by apply Hr. Qed.

Lemma lease_recorded a e d k :
  unique (Process a) -> entry_open (pr_entry a) = Some d -> entry_live (pr_entry a) = None -> pr_leases a !! e = None ->
  let a' := set_entry Idle (set_leases (insert e {| ls_open := d; ls_purpose := k |}) a) in
  unique (Process a') /\ (forall d' f b, (exists l, has (Process a') l d' f b) <-> (exists l, has (Process a) l d' f b)).
Proof.
  intros Hu E1 E2 He a'.
  assert (Hto : forall l d' f b, has (Process a') l d' f b -> has (Process a) (if decide (l = InLease e) then InEntry else l) d' f b).
  { intros l d' f b. destruct (decide (l = InLease e)) as [->|Hne].
    - cbn. rewrite lookup_insert_eq. intros (k' & [= <- <-] & -> & ->). done.
    - destruct l; cbn; try naive_solver. rewrite lookup_insert_ne by congruence. done. }
  assert (Hfrom : forall l d' f b, has (Process a) l d' f b -> has (Process a') (if decide (l = InEntry) then InLease e else l) d' f b).
  { intros l d' f b. destruct (decide (l = InEntry)) as [->|Hne].
    - cbn. rewrite lookup_insert_eq, E1. intros ([= ->] & -> & ->). eauto.
    - destruct l; cbn; try naive_solver. intros (k' & Hk & Hx). rewrite lookup_insert_ne by congruence. eauto. }
  split; [|intros d' f b; split; intros [l Hl]; eauto].
  apply (unique_renamed (Process a) _ (fun l _ => if decide (l = InLease e) then InEntry else l)); [done|done|].
  intros l l' d' f f' b b' Hl Hl'. repeat case_decide; subst; try done; intros <- || intros ->; cbn in *; naive_solver.
Qed.

Lemma lease_dropped a e l0 :
  unique (Process a) -> pr_leases a !! e = Some l0 ->
  let a' := set_closing (insert (ls_open l0) (EffectsLock, false)) (set_leases (delete e) a) in
  unique (Process a') /\ (forall d' f b, (exists l, has (Process a') l d' f b) <-> (exists l, has (Process a) l d' f b)).
Proof.
  intros Hu He a'. destruct l0 as [d k]. cbn [ls_open] in a'.
  assert (Hd : has (Process a) (InLease e) d EffectsLock false) by (cbn; eauto).
  assert (Hto : forall l d' f b, has (Process a') l d' f b ->
            has (Process a) (if decide (l = InClosing /\ d' = d) then InLease e else l) d' f b).
  { intros l d' f b. case_decide as Hdec.
    - destruct Hdec as [-> ->]. cbn. rewrite lookup_insert_eq. intros [= <- <-]. eauto.
    - destruct l; cbn; try naive_solver.
      + intros (k' & [_ Hk]%lookup_delete_Some & Hx). eauto.
      + rewrite lookup_insert_ne; [done|]. intros <-. by apply Hdec. }
  assert (Hfrom : forall l d' f b, has (Process a) l d' f b ->
            has (Process a') (if decide (l = InLease e) then InClosing else l) d' f b).
  { intros l d' f b Hl. case_decide as Hdec; [subst l|].
    - cbn in *. rewrite He in Hl. destruct Hl as (k' & [= <- <-] & -> & ->). by rewrite lookup_insert_eq.
    - destruct l; cbn in *; try naive_solver.
      + destruct Hl as (k' & Hk & Hx). rewrite lookup_delete_ne by congruence. eauto.
      + rewrite lookup_insert_ne; [done|]. intros <-. pose proof (Hu (InLease e) InClosing d EffectsLock f false b Hd Hl). done. }
  split; [|intros d' f b; split; intros [l Hl]; eauto].
  apply (unique_renamed (Process a) _ (fun l d' => if decide (l = InClosing /\ d' = d) then InLease e else l)); [done|done|].
  intros l l' d' f f' b b' Hl Hl'. repeat case_decide; try naive_solver; intros Hx; subst; cbn in *; rewrite lookup_delete_eq in *; naive_solver.
Qed.

Lemma entry_closed a :
  unique (Process a) ->
  unique (Process (close_entry a)) /\ (forall d f b, (exists l, has (Process (close_entry a)) l d f b) <-> (exists l, has (Process a) l d f b)).
Proof.
  intros Hu.
  set (r := fun (l : slot) (d : N) => if decide (l = InClosing) then
              (if decide (entry_open (pr_entry a) = Some d) then InEntry
               else if decide (fst <$> entry_live (pr_entry a) = Some d) then InLive else InClosing) else l).
  assert (Hlk : forall d, pr_closing (close_entry a) !! d =
     match entry_live (pr_entry a) with
     | Some (live, id) => if decide (d = live) then Some (ParticipantLock id, true)
                          else if decide (entry_open (pr_entry a) = Some d) then Some (EffectsLock, false) else pr_closing a !! d
     | None => if decide (entry_open (pr_entry a) = Some d) then Some (EffectsLock, false) else pr_closing a !! d
     end).
  { intros d. unfold close_entry, set_entry, set_closing. cbn. destruct (entry_live (pr_entry a)) as [[live id]|], (entry_open (pr_entry a)) as [d0|];
      repeat case_decide; subst; rewrite ?lookup_insert_eq, ?lookup_insert_ne by congruence; simplify_eq; try done;
      rewrite ?lookup_insert_eq, ?lookup_insert_ne by congruence; done. }
  assert (Hdis : forall d live id, entry_open (pr_entry a) = Some d -> entry_live (pr_entry a) = Some (live, id) -> live <> d).
  { intros d live id E1 E2 ->. pose proof (Hu InEntry InLive d EffectsLock (ParticipantLock id) false true) as Hx. discriminate Hx; cbn; eauto. }
  assert (Hto : forall l d f b, has (Process (close_entry a)) l d f b -> has (Process a) (r l d) d f b).
  { intros l d f b Hl. unfold r. case_decide as E; [subst l|].
    - cbn [has] in Hl. rewrite Hlk in Hl. destruct (entry_live (pr_entry a)) as [[live id]|] eqn:E2; cbn [fmap option_fmap option_map fst].
      + destruct (decide (d = live)) as [->|Hne].
        * injection Hl as <- <-. rewrite decide_False by (intros E1; by destruct (Hdis live live id E1)). rewrite decide_True by done. cbn. eauto.
        * case_decide; [injection Hl as <- <-; done|]. rewrite decide_False by congruence. done.
      + case_decide; [injection Hl as <- <-; done|]. by rewrite decide_False.
    - destruct l; try done; cbn in *; naive_solver. }
  assert (Hfrom : forall l d f b, has (Process a) l d f b ->
            has (Process (close_entry a)) (if decide (l = InEntry \/ l = InLive) then InClosing else l) d f b).
  { intros l d f b Hl. case_decide as E.
    - cbn [has]. rewrite Hlk. destruct E as [-> | ->]; cbn in Hl.
      + destruct Hl as (E1 & -> & ->). destruct (entry_live (pr_entry a)) as [[live id]|]; repeat case_decide; try done. subst.
        by destruct (Hdis live live id E1).
      + destruct Hl as (id & -> & -> & ->). by rewrite decide_True.
    - destruct l; try done; try naive_solver. cbn [has]. rewrite Hlk. cbn in Hl.
      destruct (entry_live (pr_entry a)) as [[live id]|] eqn:E2; repeat case_decide; subst; try done.
      + pose proof (Hu InLive InClosing live (ParticipantLock id) f true b) as Hx. discriminate Hx; cbn; eauto.
      + pose proof (Hu InEntry InClosing d EffectsLock f false b) as Hx. discriminate Hx; cbn; eauto.
      + pose proof (Hu InEntry InClosing d EffectsLock f false b) as Hx. discriminate Hx; cbn; eauto. }
  split; [|intros d f b; split; intros [l Hl]; eauto].
  apply (unique_renamed (Process a) _ r); [done|done|]. intros l l' d f f' b b' Hl Hl'.
  unfold r. destruct l, l'; cbn in Hl, Hl' |- *; repeat case_decide; try done; naive_solver.
Qed.

Lemma file_closed a d f b :
  unique (Process a) -> pr_closing a !! d = Some (f, b) ->
  unique (Process (set_closing (delete d) a)) /\
  (forall d' f' b', (exists l, has (Process (set_closing (delete d) a)) l d' f' b') <-> d' <> d /\ exists l, has (Process a) l d' f' b').
Proof.
  intros Hu Hd.
  assert (E : forall l d' f' b', has (Process (set_closing (delete d) a)) l d' f' b' <-> has (Process a) l d' f' b' /\ (l = InClosing -> d' <> d)).
  { intros l d' f' b'. destruct l; cbn; try naive_solver. rewrite lookup_delete_Some. naive_solver. }
  split.
  - intros l l' d' f1 f2 b1 b2 [Hl _]%E [Hl' _]%E. by eapply Hu.
  - intros d' f' b'. split.
    + intros [l [Hl Hne]%E]. split; [|by exists l]. intros ->. apply Hne; [|done].
      by eapply (Hu l InClosing d f' f b' b).
    + intros [Hne [l Hl]]. exists l. by apply E.
Qed.

Lemma registered a d live id i :
  unique (Process a) -> pr_entry a = RegisterAtWrite d live id -> id_participant i = id -> pr_identity a = None ->
  let a' := set_entry Idle (set_closing (insert d (EffectsLock, false)) (set_registered i live a)) in
  unique (Process a') /\ (forall d' f b, (exists l, has (Process a') l d' f b) <-> (exists l, has (Process a) l d' f b)).
Proof.
  intros Hu E1 Ei E2 a'.
  assert (Hd : has (Process a) InEntry d EffectsLock false) by (cbn; by rewrite E1).
  assert (Hto : forall l d' f b, has (Process a') l d' f b ->
     has (Process a) (if decide (l = InIdentity) then InLive else if decide (l = InClosing /\ d' = d) then InEntry else l) d' f b).
  { intros l d' f b Hl. repeat case_decide; subst.
    - cbn in *. rewrite E1. cbn. destruct Hl as (i' & [= <- <-] & -> & ->). eauto.
    - destruct H0 as [-> ->]. cbn in *. rewrite E1. rewrite lookup_insert_eq in Hl. injection Hl as <- <-. done.
    - destruct l; cbn in *; try naive_solver. rewrite lookup_insert_ne in Hl; [done|]. intros <-. by apply H0. }
  assert (Hfrom : forall l d' f b, has (Process a) l d' f b ->
     has (Process a') (if decide (l = InLive) then InIdentity else if decide (l = InEntry) then InClosing else l) d' f b).
  { intros l d' f b Hl. repeat case_decide; subst l || idtac.
    - cbn in *. rewrite E1 in Hl. cbn in Hl. destruct Hl as (id' & [= <- <-] & -> & ->). exists i. by rewrite Ei.
    - cbn in *. rewrite E1 in Hl. destruct Hl as ([= <-] & -> & ->). by rewrite lookup_insert_eq.
    - destruct l; cbn in *; try naive_solver. rewrite lookup_insert_ne; [done|]. intros <-.
      pose proof (Hu InEntry InClosing d EffectsLock f false b Hd Hl). done. }
  split; [|intros d' f b; split; intros [l Hl]; eauto].
  apply (unique_renamed (Process a) _
    (fun l d' => if decide (l = InIdentity) then InLive else if decide (l = InClosing /\ d' = d) then InEntry else l)); [done|done|].
  intros l l' d' f f' b b' Hl Hl'. destruct l, l'; cbn in Hl, Hl' |- *; repeat case_decide; try done; try naive_solver.
Qed.

(** *** The steps keep the invariant *)

Lemma lock_frame p d f x g g' :
  lock p d f x g = Some g' ->
  gt_request g' = gt_request g /\ gt_current g' = gt_current g /\ gt_held g' = gt_held g /\ gt_exit g' = gt_exit g /\
  gt_identities g' = gt_identities g /\ gt_effects g' = gt_effects g /\ gt_lock_files g ⊆ gt_lock_files g'.
Proof. unfold lock. destruct (is_free f x g); [|done]. intros [= <-]. destruct f; cbn; split_and!; try done; set_solver. Qed.

Lemma process_custody p a a' g g' actors :
  custody (gt_open g) actors -> actors !! p = Some (Process a) -> process_ok a -> process_step p a g a' g' ->
  custody (gt_open g') (<[p := Process a']> actors).
Proof.
  intros Hc Ha Hok Hs. pose proof (cu_unique _ _ Hc _ _ Ha) as Hu.
  assert (Hsame : forall a2, unique (Process a2) /\
            (forall d f x, (exists l, has (Process a2) l d f x) <-> (exists l, has (Process a) l d f x)) ->
            custody (gt_open g) (<[p := Process a2]> actors)) by (intros a2 []; by eapply custody_same).
  inversion Hs as [? ? E|? ? E|? ? ? E|? ? ? ? ? E E1 E2|? ? ? ? E|? ? ? ? ? E ? He|? ? ? ? ? E|? ?|? ? ? ? ? E|? ? ? [[f x] E]
                  |? ? ? ? E ? E1 E2|? ? ? ? ? ? E E0 E1 E2|? ? ? ? ? E|? ? ? ? ? ? ? ? ? ? E|? ? E|? ? ? E|? ? ? ? E|? ? ? ? ? E
                  |? ? ? ? ? ? ? ? E|? ? E|? ? E]; subst; cbn [gt_open set_effects set_identities];
    try (by apply Hsame, entry_moves; rewrite ?E).
  - apply lock_Some in E2 as [Hf ->]. apply custody_lock_entry; rewrite ?E; done.
  - destruct k; [apply Hsame, lease_recorded..|apply Hsame, entry_moves]; rewrite ?E; done.
  - apply Hsame, lease_recorded; rewrite ?E; try done. destruct Hok as (_ & _ & _ & Hst & _). by eapply Hst.
  - destruct (pr_entry a); cbn [gt_open drop_record set_effects]; by apply Hsame, entry_closed.
  - destruct panicking; cbn [gt_open drop_record set_effects]; by apply Hsame, lease_dropped.
  - destruct (file_closed a d f x Hu E) as [Hu' Heq]. by eapply custody_close.
  - apply lock_Some in E2 as [Hf ->]. apply custody_lock_entry; rewrite ?E; done.
  - apply lock_Some in E2 as [Hf ->]. by apply custody_lock_live.
  - apply Hsame, (registered a d live id); try done. destruct Hok as (_ & _ & Hid & _).
    destruct (pr_identity a) as [x|] eqn:Ex; [|done]. by destruct (Hid ltac:(done) d live id) as (_ & _ & ?).
Qed.

Lemma process_frame p a a' g g' :
  process_step p a g a' g' ->
  gt_request g' = gt_request g /\ gt_current g' = gt_current g /\ gt_held g' = gt_held g /\ gt_exit g' = gt_exit g /\
  gt_lock_files g ⊆ gt_lock_files g'.
Proof.
  destruct 1; split_and!; try done; try (by edestruct lock_frame as (? & ? & ? & ? & ? & ? & ?));
    try (destruct (pr_entry s); done); try (destruct panicking; done).
Qed.

Lemma process_keeps_closing p a a' g g' :
  process_step p a g a' g' -> (forall d x, pr_closing a !! d = Some (EffectsLock, x) -> x = false) ->
  forall d x, pr_closing a' !! d = Some (EffectsLock, x) -> x = false.
Proof.
  intros Hs H5.
  assert (Hi : forall d' d x, <[d' := (EffectsLock, false)]> (pr_closing a) !! d = Some (EffectsLock, x) -> x = false).
  { intros d' d x [[_ [= <-]]|[_ Hd]]%lookup_insert_Some; [done|by eapply H5]. }
  destruct Hs; try (destruct k); cbn; try done.
  - intros d x. destruct (entry_open (pr_entry s)) as [d0|], (entry_live (pr_entry s)) as [[live id]|]; try done; try apply Hi; try apply H5;
      intros [[_ [=]]|[_ Hd]]%lookup_insert_Some; (by apply Hi in Hd) || (by apply H5 in Hd).
  - apply Hi.
  - intros d' x [_ Hd]%lookup_delete_Some. by eapply H5.
  - apply Hi.
Qed.

Lemma process_keeps_ok p a a' g g' : process_ok a -> process_step p a g a' g' -> process_ok a'.
Proof.
  intros (H1 & H2 & H3 & H4 & H5) Hs. pose proof (process_keeps_closing _ _ _ _ _ Hs H5) as H5'. clear H5.
  assert (Hx : pr_exiting a = true -> pr_entry a = Idle /\ pr_leases a = ∅ /\ pr_identity a <> None)
    by (intros Hx; split; [by apply H2|by apply H1; right]).
  assert (Hl : leaving (pr_entry a) = true -> pr_leases a = ∅ /\ pr_identity a <> None) by (intros Hl; by apply H1; left).
  clear H1 H2. destruct Hs; try (destruct k); cbn;
    match goal with E : pr_entry _ = _ |- _ => rewrite E in Hx, Hl, H3, H4; cbn in Hl | _ => idtac end;
    (split; [intros [Hp|Hp]; cbn in Hp; try discriminate Hp; try (specialize (Hx Hp) as (? & ? & ?)); try (specialize (Hl eq_refl) as [? ?])
            |split; [intros Hp; cbn in Hp; try (specialize (Hx Hp) as (? & ? & ?))|split; [|split; [|exact H5']]]]); cbn; try congruence; try done; try (split; congruence).
  all: try (intros Hi; by destruct (H3 Hi 0%N 0%N [])).
  all: try (intros Hi d' live' id'; destruct (H3 Hi d' live' id') as (? & ? & ?); split_and!; congruence).
  - destruct (Hl Hp) as [E _]. by rewrite E in H.
  - match goal with E : pr_leases s = ∅ |- _ => by rewrite E in H end.
  - intros op d e' E. rewrite lookup_delete_None. right. by eapply H4.
  - apply Hl. done.
Qed.

Definition files_ok (g : Gate) : Prop :=
  forall d o id, gt_open g !! d = Some o -> of_file o = ParticipantLock id -> id ∈ gt_lock_files g.

Lemma files_ok_lock p d f x g g' : files_ok g -> lock p d f x g = Some g' -> files_ok g'.
Proof.
  intros Hg Hl. pose proof (lock_frame _ _ _ _ _ _ Hl) as (_ & _ & _ & _ & _ & _ & Hsub).
  pose proof (lock_Some _ _ _ _ _ _ Hl) as [_ Ho]. intros d' o id Hd Hf. rewrite Ho in Hd.
  apply lookup_insert_Some in Hd as [[<- <-]|[_ Hd]]; [|apply Hsub; by eapply Hg].
  cbn in Hf. subst f. unfold lock in Hl. destruct (is_free _ _ _); [|done]. injection Hl as <-. cbn. set_solver.
Qed.

Lemma files_ok_close p d g : files_ok g -> files_ok (close p d g).
Proof.
  intros Hg d' o' id (o & Ho & Hr)%lookup_close Hf. eapply (Hg d' o); [done|]. case_decide; [|congruence].
  apply release_Some in Hr as [-> _]. done.
Qed.

Lemma files_ok_end p g : files_ok g -> files_ok (end_process p g).
Proof. intros Hg d' o' id (o & Ho & [-> _]%release_Some)%lookup_end_process Hf. by eapply (Hg d' o). Qed.

Lemma process_files p a a' g g' : files_ok g -> process_step p a g a' g' -> files_ok g'.
Proof.
  intros Hg Hs. destruct Hs; try done; try (by eapply files_ok_lock); try (by apply files_ok_close);
    try (destruct (pr_entry s); done); try (destruct panicking; done).
Qed.

(** The identity of a participant is its own. *)
Lemma process_identities p a a' g' s q b i live :
  good s -> sy_actors s !! p = Some (Process a) -> process_step p a (sy_gate s) a' g' ->
  (q <> p /\ sy_actors s !! q = Some (Process b) \/ q = p /\ b = a') -> pr_identity b = Some (i, live) ->
  gt_identities g' !! id_participant i = Some i.
Proof.
  intros [Hc _ Hid Hok _] Ha Hs Hb Hi.
  assert (Hother : forall d id, has (Process a) InLive d (ParticipantLock id) true -> q <> p -> sy_actors s !! q = Some (Process b) ->
            id_participant i <> id).
  { intros d id Hl Hne Hq E. destruct (cu_has _ _ Hc _ _ _ _ _ _ Ha Hl) as (o & Ho & Hf & Hx & Hown).
    destruct (cu_has _ _ Hc q (Process b) InIdentity live (ParticipantLock (id_participant i)) true Hq) as (o' & Ho' & Hf' & Hx' & Hown');
      [cbn; eauto|]. assert (d = live) as <- by (eapply (cu_locks _ _ Hc); [done|done|congruence|done]). simplify_eq.
    apply Hne. by eapply (cu_single _ _ Hc). }
  assert (Hself : forall d live' id, q = p -> pr_entry a <> RegisterAtRemove d live' id \/ pr_identity b <> pr_identity a).
  { intros d live' id ->. destruct (decide (pr_identity b = pr_identity a)) as [E|]; [left|by right].
    destruct (Hok p a Ha) as (_ & _ & H3 & _). apply H3; congruence || exact 0%N. }
  inversion Hs as [| | |? ? ? ? ? E E1 E2| | | |? ?|? ? ? ? ?| |? ? ? ? E ? E1 E2|? ? ? ? ? ? E E0 E1 E2|? ? ? ? ? E|? ? ? ? ? ? ? ? ? ? E| | | | | | |];
    subst; cbn [gt_identities set_effects set_identities];
    try (match goal with H : lock _ _ _ _ _ = Some _ |- _ => apply lock_frame in H as (_ & _ & _ & _ & -> & _) end);
    try (destruct Hb as [[Hne Hq]|[-> ->]]; [by eapply Hid|by eapply Hid]);
    try (destruct (pr_entry a); destruct Hb as [[Hne Hq]|[-> ->]]; by eapply Hid);
    try (destruct panicking; destruct Hb as [[Hne Hq]|[-> ->]]; by eapply Hid);
    try (destruct k; destruct Hb as [[Hne Hq]|[-> ->]]; by eapply Hid).
  - destruct Hb as [[Hne Hq]|[-> ->]].
    + rewrite lookup_delete_ne; [by eapply Hid|]. apply not_eq_sym. eapply (Hother live0); [cbn; rewrite E; cbn; eauto|done|done].
    + destruct (Hself d live0 id eq_refl) as [Hx|Hx]; [done|by destruct Hx].
  - destruct Hb as [[Hne Hq]|[-> ->]].
    + rewrite lookup_insert_ne; [by eapply Hid|]. apply not_eq_sym. eapply (Hother live0); [cbn; rewrite E; cbn; eauto|done|done].
    + cbn in Hi. injection Hi as <- _. by rewrite lookup_insert_eq.
Qed.

(** What a coordinator has verified stays true under its fence. *)
Lemma process_verified p a a' g' s q c :
  good s -> sy_actors s !! p = Some (Process a) -> process_step p a (sy_gate s) a' g' ->
  sy_actors s !! q = Some (Coordinator c) -> cd_fence c <> None -> gt_effects (sy_gate s) = ∅ ->
  gt_effects g' = ∅ /\ pr_identity a' = pr_identity a.
Proof.
  intros [Hc _ _ _ _] Ha Hs Hq Hf He. destruct (cd_fence c) as [f|] eqn:Ef; [|done].
  assert (Hno : forall d, entry_open (pr_entry a) <> Some d).
  { intros d Hd. eapply (fence_no_effect s q c f p (Process a) InEntry d); try done. }
  assert (Hdrop : forall e b, gt_effects (drop_record b e (sy_gate s)) = ∅).
  { intros e []; cbn; rewrite He; [done|]. apply delete_empty. }
  inversion Hs; subst; cbn [gt_effects set_effects set_identities];
    try (match goal with H : lock _ _ _ _ _ = Some _ |- _ => apply lock_frame in H as (_ & _ & _ & _ & _ & -> & _) end; done);
    try done; try (match goal with E : pr_entry a = _ |- _ => rewrite E in Hno; by destruct (Hno d) end).
  split; [destruct (pr_entry a); done|done].
Qed.

Lemma good_process_step p a a' g' s :
  good s -> sy_actors s !! p = Some (Process a) -> process_step p a (sy_gate s) a' g' -> good (act p (Process a') g' s).
Proof.
  intros Hg Ha Hs. pose proof Hg as [Hc Hfi Hid Hok Hco]. pose proof (process_frame _ _ _ _ _ Hs) as (Er & _ & _ & _ & _).
  split; cbn [sy_gate sy_actors act].
  - eapply process_custody; eauto.
  - eapply process_files; eauto.
  - intros q b i live Hq Hi. eapply (process_identities p a a' g' s q b); try done.
    apply lookup_insert_Some in Hq as [[<- [= <-]]|[Hne Hq]]; [by right|by left].
  - intros q b [[<- [= <-]]|[_ Hq]]%lookup_insert_Some; [|by eapply Hok]. eapply process_keeps_ok; eauto.
  - intros q c [[<- [=]]|[Hne Hq]]%lookup_insert_Some. destruct (Hco q c Hq) as (H1 & H2 & H3 & H4).
    split_and!; cbn [sy_gate act]; [done|by rewrite Er|done|]. intros expected Hv. destruct (H4 expected Hv) as (Hf & He & Hin).
    destruct (process_verified p a a' g' s q c Hg Ha Hs Hq Hf He) as [He' Ei]. split_and!; [done|done|].
    cbn [sy_actors act]. intros r b i live [[<- [= <-]]|[_ Hr]]%lookup_insert_Some Hi; [|by eapply Hin]. rewrite Ei in Hi. by eapply Hin.
Qed.

(** *** Coordinators *)

Lemma coordinator_same c c' :
  unique (Coordinator c) -> cd_lock c' = cd_lock c -> cd_fence c' = cd_fence c ->
  unique (Coordinator c') /\ (forall d f x, (exists l, has (Coordinator c') l d f x) <-> (exists l, has (Coordinator c) l d f x)).
Proof.
  intros Hu E1 E2.
  assert (E : forall l d f x, has (Coordinator c') l d f x <-> has (Coordinator c) l d f x) by (intros [] d f x; cbn; rewrite ?E1, ?E2; done).
  split; [|intros d f x; split; intros [l Hl]; exists l; by apply E]. intros l l' d f f' x x' Hl%E Hl'%E. by eapply Hu.
Qed.

Lemma custody_fence g actors q c c' f :
  custody (gt_open g) actors -> actors !! q = Some (Coordinator c) -> gt_open g !! f = None -> is_free EffectsLock true g = true ->
  cd_fence c = None -> cd_lock c' = cd_lock c -> cd_fence c' = Some f ->
  custody (<[f := {| of_file := EffectsLock; of_exclusive := true; of_owners := {[q]} |}]> (gt_open g)) (<[q := Coordinator c']> actors).
Proof.
  intros Hc Ha Hd Hfree E1 E2 E3. pose proof (cu_unique _ _ Hc _ _ Ha) as Hu.
  assert (E : forall l d' f' b', has (Coordinator c') l d' f' b' <->
     l = InFence /\ d' = f /\ f' = EffectsLock /\ b' = true \/ has (Coordinator c) l d' f' b').
  { intros [] d' f' b'; cbn; rewrite ?E1, ?E2, ?E3; naive_solver. }
  eapply custody_lock; try done.
  - intros d' o Ho Hf. by apply (proj1 (is_free_iff _ _ _) Hfree d' o).
  - intros l l' e f1 f' b b' [(-> & -> & _)|Hl]%E [(-> & He & _)|Hl']%E; try done.
    + by destruct (fresh_not_held _ _ _ _ _ _ _ _ Hc Ha Hd Hl').
    + subst. by destruct (fresh_not_held _ _ _ _ _ _ _ _ Hc Ha Hd Hl).
    + by eapply Hu.
  - exists InFence. apply E. by left.
  - intros d' f' b' [l [(_ & -> & -> & ->)|Hl]%E]; [by left|]. right. by exists (Coordinator c), l.
  - intros a0 d' f' b' Ha0 [l Hl]. simplify_eq. exists l. apply E. by right.
  - intros d' o Hn. congruence.
Qed.

Lemma fence_released c f :
  unique (Coordinator c) -> cd_fence c = Some f ->
  forall c', cd_lock c' = cd_lock c -> cd_fence c' = None ->
  unique (Coordinator c') /\
  (forall d' f' b', (exists l, has (Coordinator c') l d' f' b') <-> d' <> f /\ exists l, has (Coordinator c) l d' f' b').
Proof.
  intros Hu Hf c' E1 E2.
  assert (E : forall l d' f' b', has (Coordinator c') l d' f' b' <-> has (Coordinator c) l d' f' b' /\ l <> InFence).
  { intros [] d' f' b'; cbn; rewrite ?E1, ?E2; naive_solver. }
  split; [intros l l' d' f1 f2 b1 b2 [Hl _]%E [Hl' _]%E; by eapply Hu|].
  intros d' f' b'. split.
  - intros [l [Hl Hne]%E]. split; [|by exists l]. intros ->. apply Hne. eapply (Hu l InFence); [done|]. done.
  - intros [Hne [l Hl]]. exists l. apply E. split; [done|]. intros ->. cbn in Hl. naive_solver.
Qed.

Lemma lock_released c d :
  unique (Coordinator c) -> cd_lock c = Some d ->
  unique (Coordinator (without_lock c)) /\
  (forall d' f' b', (exists l, has (Coordinator (without_lock c)) l d' f' b') <-> d' <> d /\ exists l, has (Coordinator c) l d' f' b').
Proof.
  intros Hu Hf.
  assert (E : forall l d' f' b', has (Coordinator (without_lock c)) l d' f' b' <-> has (Coordinator c) l d' f' b' /\ l <> InLock).
  { intros [] d' f' b'; cbn; naive_solver. }
  split; [intros l l' d' f1 f2 b1 b2 [Hl _]%E [Hl' _]%E; by eapply Hu|].
  intros d' f' b'. split.
  - intros [l [Hl Hne]%E]. split; [|by exists l]. intros ->. apply Hne. eapply (Hu l InLock); [done|]. done.
  - intros [Hne [l Hl]]. exists l. apply E. split; [done|]. intros ->. cbn in Hl. naive_solver.
Qed.

Lemma coordinator_custody q c c' g g' actors :
  custody (gt_open g) actors -> actors !! q = Some (Coordinator c) -> coordinator_step q c g c' g' ->
  custody (gt_open g') (<[q := Coordinator c']> actors).
Proof.
  intros Hc Ha Hs. pose proof (cu_unique _ _ Hc _ _ Ha) as Hu.
  assert (Hsame : forall g2 c2, gt_open g2 = gt_open g -> cd_lock c2 = cd_lock c -> cd_fence c2 = cd_fence c ->
            custody (gt_open g2) (<[q := Coordinator c2]> actors)).
  { intros g2 c2 -> E1 E2. destruct (coordinator_same c c2 Hu E1 E2). by eapply custody_same. }
  inversion Hs as [? ? ? E1 E2 E3| |f ? ? ? E1 E2 E3 E4|f ? ? E1 E2|? ? ? E1 E2 E3|? ? ? ? E1|? ? ? ? ? E1 E2 E3|? ? ? E1|f ? ? ? E1 E2 E3 E4 E5|
                  |? ? E1|f ? ? E1 E2|? ? ? E1 E2|? ? E1|d ? ? E1 E2]; subst; try (by apply Hsame).
  - apply Hsame; try done. unfold claim_request in E3. destruct (gt_request g) as [r|]; [destruct (_ && _)|]; by simplify_eq.
  - unfold try_fence in E4. destruct (own_request _ _); [|done]. cbn in E4. injection E4 as E4. apply lock_Some in E4 as [Hf ->].
    by apply (custody_fence g actors q c).
  - destruct (fence_released c f Hu E2 (set_fence None None c) eq_refl eq_refl). by eapply custody_close.
  - unfold try_fence in E5. destruct (own_request _ _); [|done]. cbn in E5. injection E5 as E5. apply lock_Some in E5 as [Hf ->].
    by apply (custody_fence g actors q c).
  - destruct (fence_released c f Hu E2 (set_phase Ready (set_fence None None c)) eq_refl eq_refl). by eapply custody_close.
  - apply Hsame; try done. unfold remove_request in E2. destruct (own_request _ _); by simplify_eq.
  - destruct (lock_released c d Hu E2). eapply custody_close; try done. unfold drop_held.
    destruct (gt_held g); [|done]. destruct (_ && _); done.
Qed.

Lemma coordinator_files q c c' g g' : files_ok g -> coordinator_step q c g c' g' -> files_ok g'.
Proof.
  intros Hg Hs.
  assert (Hsame : forall g2, gt_open g2 = gt_open g -> gt_lock_files g2 = gt_lock_files g -> files_ok g2)
    by (intros g2 E1 E2 d o id; rewrite E1, E2; apply Hg).
  assert (Hfence : forall f op g2, try_fence q f op g = Ok (Some g2) -> files_ok g2).
  { intros f op g2. unfold try_fence. destruct (own_request _ _); [|done]. cbn. intros [= E]. by eapply files_ok_lock. }
  destruct Hs; try (by apply Hsame); try (by eapply Hfence); try (by apply files_ok_close).
  - unfold claim_request in H1. destruct (gt_request g) as [r|]; [destruct (_ && _)|]; simplify_eq; by apply Hsame.
  - unfold remove_request in H0. destruct (own_request _ _); simplify_eq. by apply Hsame.
  - apply files_ok_close. unfold drop_held. destruct (gt_held g); [|done]. destruct (_ && _); by apply Hsame.
Qed.

Lemma coordinator_frame q c c' g g' :
  coordinator_step q c g c' g' -> gt_identities g' = gt_identities g /\ gt_effects g' = gt_effects g.
Proof.
  intros Hs.
  assert (Hfence : forall f op g2, try_fence q f op g = Ok (Some g2) -> gt_identities g2 = gt_identities g /\ gt_effects g2 = gt_effects g).
  { intros f op g2. unfold try_fence. destruct (own_request _ _); [|done]. cbn. intros [= E]. by apply lock_frame in E as (_ & _ & _ & _ & ? & ? & _). }
  destruct Hs; try done; try (by eapply Hfence).
  - unfold claim_request in H1. destruct (gt_request g) as [r|]; [destruct (_ && _)|]; by simplify_eq.
  - unfold remove_request in H0. destruct (own_request _ _); by simplify_eq.
  - unfold drop_held. destruct (gt_held g); [|done]. destruct (_ && _); done.
Qed.

(** A coordinator in control has its request in force, and keeps it until it
    releases it. *)
Definition the_request (operation : N) : Request := {| rq_schema_version := 1; rq_operation := operation |}.

Definition commands (c : coordinator) (g : Gate) : Prop :=
  in_control (cd_phase c) = true -> is_nil (cd_operation c) = false /\ gt_request g = Some (the_request (cd_operation c)).

Lemma try_fence_frame q f operation g g' :
  try_fence q f operation g = Ok (Some g') ->
  own_request operation g = true /\ lock q f EffectsLock true g = Some g' /\ gt_request g' = gt_request g.
Proof.
  unfold try_fence. destruct (own_request _ _); [|done]. cbn. intros [= E]. split_and!; [done|done|]. by apply lock_frame in E as (? & _).
Qed.

Lemma coordinator_request q c c' g g' :
  coordinator_step q c g c' g' -> commands c g ->
  commands c' g' /\
  (gt_request g' = gt_request g \/
   cd_phase c = Requesting /\ gt_request g = None \/ cd_phase c = Ready /\ cd_phase c' = Dropping /\ gt_request g' = None).
Proof.
  unfold commands. intros Hs Hin.
  assert (Hkeep : forall g2 c2, in_control (cd_phase c) = true -> cd_operation c2 = cd_operation c -> gt_request g2 = gt_request g ->
            (in_control (cd_phase c2) = true -> is_nil (cd_operation c2) = false /\ gt_request g2 = Some (the_request (cd_operation c2))) /\
            (gt_request g2 = gt_request g \/ cd_phase c = Requesting /\ gt_request g = None \/
             cd_phase c = Ready /\ cd_phase c2 = Dropping /\ gt_request g2 = None)).
  { intros g2 c2 Hc E1 E2. rewrite E1, E2. split; [intros _; by apply Hin|by left]. }
  destruct Hs as [? ? ? E1 E2 E3|? ? ? E1|f ? ? ? E1 E2 E3 E4|f ? ? E1 E2|? ? ? E1 E2 E3|? ? ? ? E1|? ? ? ? ? E1 E2 E3|? ? ? E1|f ? ? ? E1 E2 E3 E4 E5|
                  ? ? E1 E2|? ? E1|f ? ? E1 E2|? ? ? E1 E2|? ? E1|d ? ? E1 E2];
    try (by apply Hkeep; [by rewrite E1|..]);
    try (match goal with H : try_fence _ _ _ _ = Ok (Some _) |- _ => apply try_fence_frame in H as (_ & _ & Er) end; apply Hkeep; [by rewrite E1|done|done]).
  - unfold claim_request in E3. destruct (gt_request g) as [[v op]|] eqn:Er.
    + destruct ((_ =? _)%Z && _) eqn:Eb; [|done]. injection E3 as <-. cbn in Eb.
      apply andb_true_iff in Eb as [->%Z.eqb_eq ->%N.eqb_eq]. rewrite Er. split; [done|by left].
    + injection E3 as <-. split; [done|by right; left].
  - split; [exact Hin|by left].
  - unfold remove_request in E2. destruct (own_request _ _); [|done]. injection E2 as <-. split; [done|by right; right].
  - split; [done|by left].
  - split; [done|left]. cbn. unfold drop_held. destruct (gt_held g); [|done]. by destruct (_ && _).
Qed.

(** *** What the checks of a coordinator establish *)

Lemma is_live_iff id g :
  is_live id g = true <-> exists d o, gt_open g !! d = Some o /\ of_file o = ParticipantLock id.
Proof.
  unfold is_live. rewrite negb_true_iff, <- not_true_iff_false, is_free_iff. split.
  - intros Hn. destruct (exists_row (fun _ o => bool_decide (of_file o = ParticipantLock id)) (gt_open g)) eqn:E.
    + apply exists_row_true in E as (d & o & Ho & Hf%bool_decide_eq_true). by exists d, o.
    + exfalso. apply Hn. intros d o Ho Hf. pose proof (proj1 (exists_row_false _ _) E d o Ho) as Hx. by apply bool_decide_eq_false in Hx.
  - intros (d & o & Ho & Hf) Ha. by destruct (Ha d o Ho Hf).
Qed.

Lemma verify_participants_spec expected g :
  verify_participants expected g = Ok tt ->
  (forall i, i ∈ expected -> gt_identities g !! id_participant i = Some i /\ is_live (id_participant i) g = true) /\
  (forall id, id ∈ gt_lock_files g -> is_live id g = true -> exists i, i ∈ expected /\ id_participant i = id) /\
  NoDup (map id_participant expected).
Proof.
  unfold verify_participants. destruct (_ || _); [done|]. intros Hv. apply rbind_Ok_inv in Hv as (names & Hn & Hv).
  destruct (128 <? inventory g)%Z; [done|]. destruct (unexpected names g) eqn:Hu; [done|].
  apply (rfold_invariant (verify_participant g) (fun seen names => (forall i, i ∈ seen -> gt_identities g !! id_participant i = Some i /\
     is_live (id_participant i) g = true) /\ (forall id, id ∈ names <-> exists i, i ∈ seen /\ id_participant i = id) /\
     NoDup (map id_participant seen))) in Hn as (H1 & H2 & H3).
  - split_and!; [done| |done]. intros id Hid Hl. apply H2. unfold unexpected in Hu. rewrite existsb_false_iff in Hu.
    specialize (Hu id ltac:(by apply elem_of_elements)). rewrite Hl in Hu. cbn in Hu. apply negb_false_iff, bool_decide_eq_true in Hu. done.
  - split_and!; [by intros i ?%elem_of_nil| |constructor]. intros id. split; [set_solver|]. by intros (i & ?%elem_of_nil & _).
  - intros seen i post names1 names2 _ (H1 & H2 & H3). unfold verify_participant.
    destruct (_ || _) eqn:E1; [done|]. destruct (negb (bool_decide _)) eqn:E2; [done|]. destruct (negb (is_live _ _)) eqn:E3; [done|].
    intros [= <-]. apply negb_false_iff in E2, E3. apply bool_decide_eq_true in E2. apply orb_false_iff in E1 as [_ E1].
    apply bool_decide_eq_false in E1. split_and!.
    + intros j [Hj| ->%list_elem_of_singleton]%elem_of_app; [by apply H1|done].
    + intros id. rewrite elem_of_union, elem_of_singleton, H2. setoid_rewrite elem_of_app. setoid_rewrite list_elem_of_singleton. naive_solver.
    + rewrite map_app. apply NoDup_app. split_and!; [done| |apply NoDup_singleton]. cbn. intros id Hid ->%list_elem_of_singleton.
      apply E1, H2. apply list_elem_of_In, in_map_iff in Hid as (j & <- & Hj%list_elem_of_In). by exists j.
Qed.

Lemma verify_no_effect_records_iff g : verify_no_effect_records g = Ok tt <-> gt_effects g = ∅.
Proof. unfold verify_no_effect_records. by case_bool_decide. Qed.

Lemma may_publish_spec expected s :
  good s -> may_publish expected (sy_gate s) = Ok tt ->
  gt_effects (sy_gate s) = ∅ /\
  forall p a i live, sy_actors s !! p = Some (Process a) -> pr_identity a = Some (i, live) -> i ∈ expected.
Proof.
  intros [Hc Hf Hid _ _] Hv. apply rbind_Ok_inv in Hv as ([] & Hv & He%verify_no_effect_records_iff). split; [done|].
  apply verify_participants_spec in Hv as (H1 & H2 & _). intros p a i live Ha Hi.
  destruct (cu_has _ _ Hc p (Process a) InIdentity live (ParticipantLock (id_participant i)) true Ha) as (o & Ho & Hof & _); [cbn; eauto|].
  destruct (H2 (id_participant i)) as (j & Hj & Ej); [by eapply Hf|apply is_live_iff; eauto|].
  destruct (H1 j Hj) as [Hid' _]. rewrite Ej, (Hid p a i live Ha Hi) in Hid'. by injection Hid' as <-.
Qed.

Lemma coordinator_phases q c c' g g' :
  coordinator_step q c g c' g' -> (cd_phase c = Gone <-> cd_lock c = None) ->
  (forall expected, cd_phase c = Publishing expected -> cd_verified c = Some expected) ->
  (cd_phase c' = Gone <-> cd_lock c' = None) /\
  (forall expected, cd_phase c' = Publishing expected -> cd_verified c' = Some expected).
Proof.
  intros Hs H1 H3.
  assert (Hl : forall x, x <> Gone -> cd_phase c <> Gone -> x = Gone <-> cd_lock c = None) by (intros x Hx Hc; rewrite <- H1; done).
  destruct Hs as [? ? ? E1 E2 E3|? ? ? E1|f ? ? ? E1 E2 E3 E4|f ? ? E1 E2|? ? ? E1 E2 E3|? ? ? ? E1|? ? ? ? ? E1 E2 E3|? ? ? E1|f ? ? ? E1 E2 E3 E4 E5|
                  ? ? E1 E2|? ? E1|f ? ? E1 E2|? ? ? E1 E2|? ? E1|d ? ? E1 E2]; cbn;
    try (split; [apply Hl; [done|by rewrite ?E1]|done]).
  - split; [done|]. intros expected E. rewrite E in E1. done.
  - split; [done|]. intros e E. destruct E1 as [E1|[E1|E1]]; rewrite E in E1; done.
  - split; [apply Hl; [done|by rewrite E1]|]. by intros e [= ->].
  - done.
Qed.

Lemma good_coordinator_step q c c' g' s :
  good s -> sy_actors s !! q = Some (Coordinator c) -> coordinator_step q c (sy_gate s) c' g' -> good (act q (Coordinator c') g' s).
Proof.
  intros Hg Ha Hs. pose proof Hg as [Hc Hfi Hid Hok Hco]. pose proof (coordinator_frame _ _ _ _ _ Hs) as [Ei Ee].
  destruct (Hco q c Ha) as (H1 & H2 & H3 & H4). destruct (coordinator_request _ _ _ _ _ Hs H2) as [Hcom Hreq].
  assert (Hrows : forall p a, (<[q := Coordinator c']> (sy_actors s)) !! p = Some (Process a) -> sy_actors s !! p = Some (Process a))
    by (intros p a [[_ [=]]|[_ ?]]%lookup_insert_Some; done).
  split; cbn [sy_gate sy_actors act].
  - eapply coordinator_custody; eauto.
  - eapply coordinator_files; eauto.
  - intros p a i live Hp%Hrows Hi. rewrite Ei. by eapply Hid.
  - intros p a Hp%Hrows. by eapply Hok.
  - intros r c2 [[<- [= <-]]|[Hne Hr]]%lookup_insert_Some.
    + split_and!; cbn [sy_gate sy_actors act].
      * apply (coordinator_phases _ _ _ _ _ Hs H1 H3).
      * done.
      * apply (coordinator_phases _ _ _ _ _ Hs H1 H3).
      * rewrite Ee. intros expected Hv.
        assert (Hold : cd_verified c = Some expected /\ cd_fence c' = cd_fence c \/ may_publish expected (sy_gate s) = Ok tt /\ cd_fence c' <> None).
        { destruct Hs; cbn in *; try done; try (by left). right. by simplify_eq. }
        destruct Hold as [[Hv' Ef]|[Hp Hf]].
        -- destruct (H4 expected Hv') as (Hf & He & Hin). rewrite Ef. split_and!; [done|done|]. intros p a i live Hp%Hrows. by eapply Hin.
        -- destruct (may_publish_spec expected s Hg Hp) as [He Hin]. split_and!; [done|done|]. intros p a i live Hp'%Hrows. by eapply Hin.
    + destruct (Hco r c2 Hr) as (G1 & G2 & G3 & G4). split_and!; cbn [sy_gate sy_actors act]; [done| |done|].
      * intros Hin. destruct (G2 Hin) as [Hnil Er]. split; [done|]. destruct Hreq as [->|[[_ Hn]|(Hrdy & _)]]; [done|congruence|].
        exfalso. apply Hne. destruct (cd_lock c) as [d|] eqn:Ed; [|by rewrite (proj2 H1 eq_refl) in Hrdy].
        destruct (cd_lock c2) as [d2|] eqn:Ed2; [|by rewrite (proj2 G1 eq_refl) in Hin]. by eapply (locks_equal s q r).
      * rewrite Ee. intros expected Hv. destruct (G4 expected Hv) as (Hf & He & Hin). split_and!; [done|done|].
        intros p a i live Hp%Hrows. by eapply Hin.
Qed.

Lemma good_spawn p s : good s -> unused p s -> good (act p (Process new_process) (sy_gate s) s).
Proof.
  intros [Hc Hfi Hid Hok Hco] [Hn Hfree].
  assert (Hrows : forall q a, (<[p := Process new_process]> (sy_actors s)) !! q = Some (Process a) ->
            a = new_process \/ sy_actors s !! q = Some (Process a)) by (intros q a [[_ [= <-]]|[_ ?]]%lookup_insert_Some; auto).
  assert (Hno : forall l d f x, ~ has (Process new_process) l d f x) by (intros [] d f x; cbn; rewrite ?lookup_empty; naive_solver).
  split; cbn [sy_gate sy_actors act]; try done.
  - destruct Hc as [Hl Hh Hu Ho Hor Hne Hsi]. split; try done.
    + intros q a l d f x [[<- <-]|[_ Ha]]%lookup_insert_Some Hx; [by apply Hno in Hx|by eapply Hh].
    + intros q a [[<- <-]|[_ Ha]]%lookup_insert_Some; [intros l l' d f f' x x' Hx; by apply Hno in Hx|by eapply Hu].
    + intros q a d o [[<- <-]|[_ Ha]]%lookup_insert_Some Hd Hown; [by apply (Hfree d o) in Hown|by eapply Ho].
    + intros q d o [Hq _]%lookup_insert_None. by apply Hor.
  - intros q a i live [->|Ha]%Hrows; [done|by eapply Hid].
  - intros q a [->|Ha]%Hrows; [|by eapply Hok]. unfold process_ok. cbn. naive_solver.
  - intros q c [[_ [=]]|[_ Hq]]%lookup_insert_Some. destruct (Hco q c Hq) as (H1 & H2 & H3 & H4). split_and!; try done.
    intros expected Hv. destruct (H4 expected Hv) as (? & ? & Hin). split_and!; [done|done|].
    intros r a i live [->|Ha]%Hrows; [done|by eapply Hin].
Qed.

Lemma good_coordinate q d operation g' s :
  good s -> unused q s -> gt_open (sy_gate s) !! d = None -> lock q d CoordinatorLock true (sy_gate s) = Some g' ->
  good (act q (Coordinator {| cd_operation := operation; cd_nonce := 0; cd_phase := Requesting; cd_lock := Some d;
                              cd_fence := None; cd_verified := None |}) g' s).
Proof.
  intros [Hc Hfi Hid Hok Hco] [Hn Hfree] Hd Hl.
  pose proof (lock_frame _ _ _ _ _ _ Hl) as (Er & _ & _ & _ & Ei & Ee & _). set (c0 := Build_coordinator _ _ _ _ _ _).
  assert (Hrows : forall p a, (<[q := Coordinator c0]> (sy_actors s)) !! p = Some (Process a) -> sy_actors s !! p = Some (Process a))
    by (intros p a [[_ [=]]|[_ ?]]%lookup_insert_Some; done).
  assert (Hhas : forall l d' f x, has (Coordinator c0) l d' f x <-> l = InLock /\ d' = d /\ f = CoordinatorLock /\ x = true)
    by (intros [] d' f x; cbn; naive_solver).
  split; cbn [sy_gate sy_actors act].
  - apply lock_Some in Hl as [Hf ->]. apply custody_lock; try done.
    + intros d' o Ho Hof. by apply (proj1 (is_free_iff _ _ _) Hf d' o).
    + intros l l' d1 f f' x x' (-> & _)%Hhas (-> & _)%Hhas. done.
    + exists InLock. by apply Hhas.
    + intros d' f' x' [l (_ & -> & -> & ->)%Hhas]. by left.
    + intros a d' f' x' Ha. congruence.
    + intros d' o _. apply Hfree.
  - by eapply files_ok_lock.
  - intros p a i live Hp%Hrows. rewrite Ei. by eapply Hid.
  - intros p a Hp%Hrows. by eapply Hok.
  - intros r c [[<- [= <-]]|[_ Hr]]%lookup_insert_Some; [done|]. destruct (Hco r c Hr) as (H1 & H2 & H3 & H4).
    split_and!; cbn [sy_gate act]; [done|by rewrite Er|done|]. rewrite Ee. intros expected Hv. destruct (H4 expected Hv) as (? & ? & Hin).
    split_and!; [done|done|]. intros p a i live Hp%Hrows. by eapply Hin.
Qed.

(** Steps that only change the files of others, or remove records or actors. *)
Lemma good_gate s g' actors' :
  good s -> custody (gt_open g') actors' -> files_ok g' -> (forall p a, actors' !! p = Some a -> sy_actors s !! p = Some a) ->
  gt_request g' = gt_request (sy_gate s) -> gt_identities g' = gt_identities (sy_gate s) ->
  (gt_effects (sy_gate s) = ∅ -> gt_effects g' = ∅) ->
  good {| sy_gate := g'; sy_actors := actors' |}.
Proof.
  intros [Hc Hfi Hid Hok Hco] Hc' Hf' Ha Er Ei Ee. split; cbn [sy_gate sy_actors]; try done.
  - intros p a i live Hp%Ha. rewrite Ei. by eapply Hid.
  - intros p a Hp%Ha. by eapply Hok.
  - intros q c Hq%Ha. destruct (Hco q c Hq) as (H1 & H2 & H3 & H4). split_and!; cbn [sy_gate sy_actors]; [done|by rewrite Er|done|].
    intros expected Hv. destruct (H4 expected Hv) as (? & ? & Hin). split_and!; [done|by apply Ee|]. intros p a i live Hp%Ha. by eapply Hin.
Qed.

Lemma gate_good_step s s' : good s -> step s s' -> good s'.
Proof.
  intros Hg Hs. pose proof Hg as [Hc Hfi _ _ _]. destruct Hs as [p s Hu|p a a' g' s Ha Hs|q d op g' s Hu Hd Hl|q c c' g' s Hq Hs|p a e l child s Ha He Hn|child s Hn|p s|id r g' s Hr].
  - by apply good_spawn.
  - by eapply good_process_step.
  - by apply (good_coordinate q d).
  - by eapply good_coordinator_step.
  - apply (good_gate s); try done.
    + eapply (custody_inherit _ _ child (ls_open l) p (Process a) e false); try done. destruct l as [d k]. cbn. eauto.
    + intros d' o' id. unfold inherit, set_open. cbn. rewrite lookup_alter_Some. intros [(<- & o & Ho & ->)|[_ Ho]] Hf; by eapply Hfi.
  - apply (good_gate s); try done; [|by apply files_ok_end]. rewrite <- (delete_id (sy_actors s) child) by done. by apply custody_end.
  - apply (good_gate s); try done; [by apply custody_end|by apply files_ok_end|]. by intros p' a [_ ?]%lookup_delete_Some.
  - assert (E : g' = sy_gate s \/ g' = set_effects (delete id) (sy_gate s)).
    { unfold retire_workspace_effect in Hr. destruct (is_nil id); injection Hr as <- <-; auto. }
    destruct E as [-> | ->]; apply (good_gate s); try done. cbn. intros ->. apply delete_empty.
Qed.

Lemma good_start : good start.
Proof. by split. Qed.

Lemma gate_good_steps s s' : rtc step s s' -> good s -> good s'.
Proof. induction 1 as [|x y z Hxy _ IH]; [done|]. intros Hx. apply IH. by eapply gate_good_step. Qed.
