(* ===== verification/QuiescenceTheorems.v ===== *)
(** * Quiescence: what a drain, a fence and an acknowledgement promise

    For every interleaving of processes and coordinators, with crashes, panics
    and inherited locks. *)
From S2P Require Import Prelude Table Authz Quiescence QuiescenceSafety.

(** ** Exclusion *)

(** C13. However processes and coordinators interleave, crash and hand
    locks to their children: at most one coordinator is in control and its own
    request is in force; under a fence no process, registration or child has
    the effects lock; and a participant's name belongs to one live process,
    whose recorded identity stays its own. *)
Theorem gate_exclusive s :
  rtc step start s ->
  (forall q q' c c', sy_actors s !! q = Some (Coordinator c) -> sy_actors s !! q' = Some (Coordinator c') ->
     cd_phase c <> Gone -> cd_phase c' <> Gone -> q = q') /\
  (forall q c, sy_actors s !! q = Some (Coordinator c) -> in_control (cd_phase c) = true ->
     gt_request (sy_gate s) = Some (the_request (cd_operation c))) /\
  (forall q c f, sy_actors s !! q = Some (Coordinator c) -> cd_fence c = Some f ->
     (forall d o, gt_open (sy_gate s) !! d = Some o -> of_file o = EffectsLock -> d = f) /\
     (forall p a, sy_actors s !! p = Some (Process a) -> pr_leases a = ∅ /\ entry_open (pr_entry a) = None)) /\
  (forall p p' a a' i i' live live', sy_actors s !! p = Some (Process a) -> sy_actors s !! p' = Some (Process a') ->
     pr_identity a = Some (i, live) -> pr_identity a' = Some (i', live') -> id_participant i = id_participant i' -> p = p') /\
  (forall p a i live, sy_actors s !! p = Some (Process a) -> pr_identity a = Some (i, live) ->
     gt_identities (sy_gate s) !! id_participant i = Some i).
Proof.
  intros Hr. pose proof (gate_good_steps _ _ Hr good_start) as Hg. pose proof Hg as [Hc _ Hid _ Hco]. split_and!.
  - intros q q' c c' Hq Hq' Hp Hp'. destruct (Hco q c Hq) as (H1 & _), (Hco q' c' Hq') as (H1' & _).
    destruct (cd_lock c) as [d|] eqn:Ed; [|by destruct Hp; apply H1]. destruct (cd_lock c') as [d'|] eqn:Ed'; [|by destruct Hp'; apply H1'].
    by eapply (locks_equal s q q').
  - intros q c Hq Hin. destruct (Hco q c Hq) as (_ & H2 & _). by apply H2.
  - intros q c f Hq Hf. split; [intros d o Ho Hof; by eapply fence_alone|]. intros p a Ha. split.
    + apply map_empty. intros e. destruct (pr_leases a !! e) as [[d k]|] eqn:El; [|done]. exfalso.
      eapply (fence_no_effect s q c f p (Process a) (InLease e) d); try done. cbn. eauto.
    + destruct (entry_open (pr_entry a)) as [d|] eqn:Ed; [|done]. exfalso.
      by eapply (fence_no_effect s q c f p (Process a) InEntry d).
  - intros p p' a a' i i' live live' Ha Ha' Hi Hi' Ei.
    destruct (cu_has _ _ Hc p (Process a) InIdentity live (ParticipantLock (id_participant i)) true Ha) as (o & Ho & Hf & Hx & Hown); [cbn; eauto|].
    destruct (cu_has _ _ Hc p' (Process a') InIdentity live' (ParticipantLock (id_participant i')) true Ha') as (o' & Ho' & Hf' & Hx' & Hown');
      [cbn; eauto|].
    assert (live = live') as <- by (eapply (cu_locks _ _ Hc); [done|done|congruence|done]). simplify_eq. by eapply (cu_single _ _ Hc).
  - intros p a i live Ha Hi. by eapply Hid.
Qed.

(** ** A drained gate stays closed *)

(** The steps up to the release of the request. *)
Definition closed_step (s s' : system) : Prop := step s s' /\ gt_request (sy_gate s') <> None.

Definition no_new_work (s : system) : Prop :=
  forall p a, sy_actors s !! p = Some (Process a) ->
    (forall d, pr_entry a <> AtRecord NewWork d) /\ (forall e l, pr_leases a !! e = Some l -> is_new (ls_purpose l) = false).

Lemma requested_refuses g : gt_request g <> None -> refuse_new_work true g <> Ok tt.
Proof.
  unfold refuse_new_work, requested, requested_operation. destruct (gt_request g) as [r|]; [|done]. intros _.
  destruct (_ || _); cbn; done.
Qed.

Lemma process_no_new_work p a a' g g' :
  process_step p a g a' g' -> gt_request g <> None ->
  (forall d, pr_entry a <> AtRecord NewWork d) /\ (forall e l, pr_leases a !! e = Some l -> is_new (ls_purpose l) = false) ->
  (forall d, pr_entry a' <> AtRecord NewWork d) /\ (forall e l, pr_leases a' !! e = Some l -> is_new (ls_purpose l) = false).
Proof.
  intros Hs Hreq [H1 H2].
  destruct Hs as [| | | |k d s g E Hr|k d e s g E He Hl|operation d e s g E Hst| |pn e l s g Hl| | | | | | | | | | | |]; cbn; try (by split).
  - split; [|done]. intros d' [= -> ->]. by apply requested_refuses in Hr.
  - destruct k as [| |op]; [by destruct (H1 d)| |by split]. cbn. split; [done|]. intros e' l [[<- <-]|[_ Hl']]%lookup_insert_Some; [done|by eapply H2].
  - split; [done|]. intros e' l [[<- <-]|[_ Hl']]%lookup_insert_Some; [done|by eapply H2].
  - split; [done|]. intros e' l' [_ Hl']%lookup_delete_Some. by eapply H2.
Qed.

Lemma closed_request s s' : good s -> closed_step s s' -> gt_request (sy_gate s) <> None -> gt_request (sy_gate s') = gt_request (sy_gate s).
Proof.
  intros Hg [Hs Hn] Hreq. destruct Hs as [p s Hu|p a a' g' s Ha Hs|q d op g' s Hu Hd Hl|q c c' g' s Hq Hs|p a e l child s Ha He Hc|child s Hc|p s|id r g' s Hr];
    cbn [sy_gate act] in *; try done.
  - by apply process_frame in Hs as [? _].
  - by apply lock_frame in Hl as [? _].
  - destruct (gd_coordinator _ Hg q c Hq) as (_ & H2 & _). destruct (coordinator_request _ _ _ _ _ Hs H2) as [_ [?|[[_ ?]|(_ & _ & ?)]]]; done.
  - unfold retire_workspace_effect in Hr. destruct (is_nil id); by injection Hr as <- <-.
Qed.

Lemma closed_no_new_work s s' : closed_step s s' -> gt_request (sy_gate s) <> None -> no_new_work s -> no_new_work s'.
Proof.
  intros [Hs _] Hreq Hno. destruct Hs as [p s Hu|p a a' g' s Ha Hs|q d op g' s Hu Hd Hl|q c c' g' s Hq Hs|p a e l child s Ha He Hc|child s Hc|p s|id r g' s Hr];
    intros r0 b; cbn [sy_actors act].
  - intros [[_ [= <-]]|[_ Hb]]%lookup_insert_Some; [split; [done|]; by intros e l; cbn; rewrite lookup_empty|by apply (Hno r0)].
  - intros [[_ [= <-]]|[_ Hb]]%lookup_insert_Some; [|by apply (Hno r0)]. eapply process_no_new_work; eauto.
  - intros [[_ [=]]|[_ Hb]]%lookup_insert_Some. by apply (Hno r0).
  - intros [[_ [=]]|[_ Hb]]%lookup_insert_Some. by apply (Hno r0).
  - by apply (Hno r0).
  - by apply (Hno r0).
  - intros [_ Hb]%lookup_delete_Some. by apply (Hno r0).
  - by apply (Hno r0).
Qed.

(** C14. Once a coordinator has had the fence, no new work runs or is
    admitted until its request is released: not when the fence is dropped, not
    when the coordinator crashes and another one takes over the operation, and
    not for a process that had looked for a request before there was one.
    Nobody else can replace the request. *)
Theorem drain_stays_closed s q c s' :
  rtc step start s -> sy_actors s !! q = Some (Coordinator c) -> cd_fence c <> None -> gt_request (sy_gate s) <> None ->
  rtc closed_step s s' ->
  gt_request (sy_gate s') = gt_request (sy_gate s) /\
  forall p a, sy_actors s' !! p = Some (Process a) ->
    (forall d, pr_entry a <> AtRecord NewWork d) /\ (forall e l, pr_leases a !! e = Some l -> is_new (ls_purpose l) = false).
Proof.
  intros Hr Hq Hf Hreq Hs. pose proof (gate_good_steps _ _ Hr good_start) as Hg.
  assert (Hno : no_new_work s).
  { destruct (cd_fence c) as [f|] eqn:Ef; [|done]. intros p a Ha. pose proof (gd_custody _ Hg) as Hc. split.
    - intros d Hd. eapply (fence_no_effect s q c f p (Process a) InEntry d); try done. cbn. by rewrite Hd.
    - intros e [d k] Hl. exfalso. eapply (fence_no_effect s q c f p (Process a) (InLease e) d); try done. cbn. eauto. }
  clear Hr Hq Hf. induction Hs as [s|s s1 s2 H1 _ IH]; [done|].
  pose proof (closed_request _ _ Hg H1 Hreq) as E.
  destruct IH as [E' Hrest]; [by rewrite E| | |by split; [congruence|]].
  - eapply gate_good_step; [done|apply H1].
  - by eapply closed_no_new_work.
Qed.

(** ** Acknowledgements *)

(** C15. While a coordinator keeps the fence under which it verified a
    cohort, the installation is quiet: there is no record of an effect, nobody
    else has the effects lock, and every live participant is exactly one of the
    cohort, boot included.  What it acknowledges in [held.json] is such a
    cohort. *)
Theorem held_quiescent s q c :
  rtc step start s -> sy_actors s !! q = Some (Coordinator c) ->
  (forall expected, cd_phase c = Publishing expected -> cd_verified c = Some expected) /\
  (forall expected, cd_verified c = Some expected ->
     gt_effects (sy_gate s) = ∅ /\
     (forall p a, sy_actors s !! p = Some (Process a) -> pr_leases a = ∅ /\ entry_open (pr_entry a) = None) /\
     (forall d o, gt_open (sy_gate s) !! d = Some o -> of_file o = EffectsLock -> cd_fence c = Some d) /\
     (forall p a i live, sy_actors s !! p = Some (Process a) -> pr_identity a = Some (i, live) -> i ∈ expected)).
Proof.
  intros Hr Hq. pose proof (gate_good_steps _ _ Hr good_start) as Hg. pose proof (gd_custody _ Hg) as Hc.
  destruct (gd_coordinator _ Hg q c Hq) as (_ & _ & H3 & H4). split; [done|]. intros expected Hv.
  destruct (H4 expected Hv) as (Hf & He & Hin). destruct (cd_fence c) as [f|] eqn:Ef; [|done]. split_and!; [done| | |done].
  - intros p a Ha. split.
    + apply map_empty. intros e. destruct (pr_leases a !! e) as [[d k]|] eqn:El; [|done]. exfalso.
      eapply (fence_no_effect s q c f p (Process a) (InLease e) d); try done. cbn. eauto.
    + destruct (entry_open (pr_entry a)) as [d|] eqn:Ed; [|done]. exfalso. by eapply (fence_no_effect s q c f p (Process a) InEntry d).
  - intros d o Ho Hof. f_equal. symmetry. by eapply fence_alone.
Qed.

(** ** Controlled exit *)

Lemma blocked_exclusive f g : is_free f false g = false -> exists d o, gt_open g !! d = Some o /\ of_file o = f /\ of_exclusive o = true.
Proof.
  unfold is_free. rewrite negb_false_iff, exists_row_true. intros (d & o & Ho & Hb). unfold blocks in Hb. cbn in Hb.
  apply andb_true_iff in Hb as [Hf%bool_decide_eq_true Hx]. by exists d, o.
Qed.

Definition exiting_idle (p : N) (s : system) : Prop :=
  match sy_actors s !! p with
  | Some (Process a) => pr_exiting a = true /\ pr_leases a = ∅ /\ pr_entry a = Idle
  | Some (Coordinator _) => False
  | None => True
  end.

Lemma exit_decided p a a' g g' :
  process_step p a g a' g' -> pr_exiting a = false -> pr_exiting a' = true ->
  is_free EffectsLock false g = false /\ a' = set_exiting a /\ pr_entry a = ExitAtFence.
Proof. intros Hs Hx. destruct Hs; try (destruct k); cbn; try (rewrite Hx; discriminate). done. Qed.

Lemma exiting_step p a a' g g' : process_step p a g a' g' -> pr_exiting a = true -> pr_entry a = Idle -> pr_exiting a' = true.
Proof. intros Hs Hx He. destruct Hs; try (destruct k); cbn; done || (rewrite H in He; discriminate). Qed.

(** A process decides to exit only while a coordinator that still runs
    holds the fence, and only without any effect of its own; from then on it
    never starts an effect again, whatever else happens, until it ends. *)
Theorem controlled_exit s p a a' g' :
  rtc step start s -> sy_actors s !! p = Some (Process a) -> process_step p a (sy_gate s) a' g' ->
  pr_exiting a = false -> pr_exiting a' = true ->
  (exists q c, sy_actors s !! q = Some (Coordinator c) /\ cd_fence c <> None) /\
  pr_leases a' = ∅ /\
  forall s', rtc (fun s s' => step s s' /\ is_Some (sy_actors s' !! p)) (act p (Process a') g' s) s' ->
    exists b, sy_actors s' !! p = Some (Process b) /\ pr_exiting b = true /\ pr_leases b = ∅ /\ pr_entry b = Idle.
Proof.
  intros Hr Ha Hs Hx Hx'. pose proof (gate_good_steps _ _ Hr good_start) as Hg.
  pose proof (exit_decided _ _ _ _ _ Hs Hx Hx') as Hf.
  destruct Hf as (Hf & -> & He). destruct (gd_process _ Hg p a Ha) as (H1 & _).
  assert (Hl : pr_leases a = ∅) by (apply H1; left; by rewrite He). split_and!; [|done|].
  - apply blocked_exclusive in Hf as (d & o & Ho & Hof & Hox). pose proof (gd_custody _ Hg) as Hc.
    destruct (set_choose_L (of_owners o) (cu_owners _ _ Hc d o Ho)) as [q Hq].
    destruct (sy_actors s !! q) as [b|] eqn:Eb; [|destruct (cu_orphan _ _ Hc q d o Eb Ho Hq); congruence].
    destruct (cu_owned _ _ Hc q b d o Eb Ho Hq) as (l & f & x & Hh). destruct (cu_has _ _ Hc q b l d f x Eb Hh) as (o' & Ho' & Hf' & Hx2 & _).
    assert (o' = o) as -> by congruence. rewrite Hof in Hf'. rewrite Hox in Hx2. subst f x. destruct b as [b|c].
    + destruct l; cbn in Hh; try done; [by destruct Hh as (_ & _ & [=])|by destruct Hh as (id & _ & [=] & _)|by destruct Hh as (i & _ & [=] & _)|
        by destruct Hh as (k & _ & _ & [=])|]. destruct (gd_process _ Hg q b Eb) as (_ & _ & _ & _ & H5). by apply H5 in Hh.
    + destruct l; cbn in Hh; try done; [by destruct Hh as (_ & [=] & _)|]. exists q, c. destruct Hh as (Hh & _). by rewrite Hh.
  - intros s' Hs'. pose proof (good_process_step p a _ g' s Hg Ha Hs) as Hg1.
    assert (Hb : exists b, sy_actors (act p (Process (set_exiting a)) g' s) !! p = Some (Process b) /\ pr_exiting b = true)
      by (eexists; split; [apply lookup_insert_eq|done]).
    clear Hr Hs Ha. induction Hs' as [s1|s1 s2 s3 [H12 Hsome] _ IH].
    + destruct Hb as (b & Hb & Hxb). exists b. destruct (gd_process _ Hg1 p b Hb) as (G1 & G2 & _). split_and!; [done|done|by apply G1; right|by apply G2].
    + apply IH; [by eapply gate_good_step|]. destruct Hb as (b & Hb & Hxb). destruct (gd_process _ Hg1 p b Hb) as (_ & G2 & _).
      destruct H12 as [r s0 Hu|r b0 b' g2 s0 Hb0 Hbs|r d op g2 s0 Hu Hd Hlk|r c c' g2 s0 Hq Hcs|r b0 e l child s0 Hb0 Hel Hcn|child s0 Hcn|r s0|id rr g2 s0 Hrr];
        cbn [sy_actors act] in *; try (by exists b).
      * exists b. rewrite lookup_insert_ne; [done|]. intros ->. destruct Hu as [Hu _]. congruence.
      * destruct (decide (r = p)) as [->|Hne]; [|exists b; by rewrite lookup_insert_ne]. simplify_eq. eexists. split; [apply lookup_insert_eq|].
        eapply exiting_step; [done|done|by apply G2].
      * exists b. rewrite lookup_insert_ne; [done|]. intros ->. destruct Hu as [Hu _]. congruence.
      * exists b. rewrite lookup_insert_ne; [done|]. intros ->. congruence.
      * destruct (decide (r = p)) as [->|Hne]; [by rewrite lookup_delete_eq in Hsome; destruct Hsome|]. exists b. by rewrite lookup_delete_ne.
Qed.

(** ** Histories *)

Definition unusedb (p : N) (s : system) : bool :=
  is_none (sy_actors s !! p) && negb (exists_row (fun _ o => bool_decide (p ∈ of_owners o)) (gt_open (sy_gate s))).

Lemma unusedb_true p s : unusedb p s = true -> unused p s.
Proof.
  unfold unusedb. intros [Hn%is_none_true Hr]%andb_true_iff. split; [done|]. intros d o Ho Hin.
  apply negb_true_iff in Hr. rewrite exists_row_false in Hr. specialize (Hr d o Ho). by apply bool_decide_eq_false in Hr.
Qed.

Lemma step_then s s1 s2 s3 : step s s1 -> s1 = s2 -> rtc step s2 s3 -> rtc step s s3.
Proof. intros H1 -> H2. by eapply rtc_l. Qed.

Ltac given := first [vm_compute; reflexivity | vm_compute; discriminate | left; vm_compute; reflexivity | eexists; vm_compute; reflexivity].
Ltac spawns p := eapply step_then; [apply (step_spawn p), unusedb_true; given|given|].
Ltac does p c := eapply step_then; [eapply (step_process p); [given|eapply c; given]|given|].
Ltac coordinates q d op := eapply step_then; [eapply (step_coordinate q d op); [apply unusedb_true; given|given|given]|given|].
Ltac commanded q c := eapply step_then; [eapply (step_coordinator q); [given|eapply c; given]|given|].
Ltac ends p := eapply step_then; [apply (step_end p)|given|].

Definition demo_name : str := [115]%N.
Definition demo_server : Identity := identity_of demo_name 7 §"server" 100 [] [].

(** A server that registers, and a coordinator that drains it. *)
Ltac server := spawns 1%N; does 1%N (register_lock 1 1); does 1%N (register_name 1 1 2 demo_name); does 1%N (register_remove 1);
  does 1%N (register_write 1 1 2 demo_name 7 §"server" 100%Z [] []); does 1%N (close_file 1 1).

Lemma demo_fenced : exists s c, rtc step start s /\ sy_actors s !! 10%N = Some (Coordinator c) /\ cd_fence c <> None /\
  cd_verified c = Some [demo_server] /\ gt_request (sy_gate s) <> None.
Proof.
  eexists _, _. split; [|].
  - server. does 1%N (enter_new 1). does 1%N (enter_lock 1 NewWork 3). does 1%N (enter_check 1 NewWork 3). does 1%N (enter_record 1 NewWork 3 50).
    coordinates 10%N 4%N 5%N. commanded 10%N (claim 10). commanded 10%N (announce_ready 10 20).
    does 1%N (drop_effect 1 false 50). does 1%N (close_file 1 3). commanded 10%N (take_fence 10 6). commanded 10%N (verify 10 [demo_server]).
    apply rtc_refl.
  - split_and!; given.
Qed.

Lemma gate_exclusive_witness :
  exists s q c f, rtc step start s /\ sy_actors s !! q = Some (Coordinator c) /\ cd_fence c = Some f /\
    forall d o, gt_open (sy_gate s) !! d = Some o -> of_file o = EffectsLock -> d = f.
Proof.
  destruct demo_fenced as (s & c & Hr & Hc & Hf & _). destruct (cd_fence c) as [f|] eqn:Ef; [|by destruct Hf].
  exists s, 10%N, c, f. split_and!; [done|done|done|]. apply (gate_exclusive s Hr) with 10%N c; done.
Defined.

Lemma drain_stays_closed_witness :
  exists s, gt_request (sy_gate s) <> None /\ forall s', rtc closed_step s s' -> gt_request (sy_gate s') = gt_request (sy_gate s).
Proof.
  destruct demo_fenced as (s & c & Hr & Hc & Hf & _ & Hq). exists s. split; [done|]. intros s' Hs.
  apply (drain_stays_closed s 10%N c s' Hr Hc Hf Hq Hs).
Defined.

Lemma held_quiescent_witness : exists s c, cd_verified c = Some [demo_server] /\ sy_actors s !! 10%N = Some (Coordinator c) /\ gt_effects (sy_gate s) = ∅.
Proof.
  destruct demo_fenced as (s & c & Hr & Hc & Hf & Hv & Hq). exists s, c. split_and!; [done|done|].
  apply (proj2 (held_quiescent s 10%N c Hr Hc) [demo_server] Hv).
Defined.

(** The coordinator acknowledges and asks for the exit; the server reads the
    records; the coordinator crashes and another one takes the fence. *)
Lemma demo_overtaken : exists s a c h,
  rtc step start s /\ sy_actors s !! 1%N = Some (Process a) /\ pr_entry a = ExitAtFence /\ pr_exiting a = false /\
  sy_actors s = <[1%N := Process a]> {[ 11%N := Coordinator c ]} /\ cd_fence c <> None /\ gt_exit (sy_gate s) = Some h /\
  hd_coordinator h <> cd_nonce c /\ is_free EffectsLock false (sy_gate s) = false.
Proof.
  eexists _, _, _, _. split.
  - server. coordinates 10%N 4%N 5%N. commanded 10%N (claim 10). commanded 10%N (announce_ready 10 20). commanded 10%N (take_fence 10 6).
    commanded 10%N (verify 10 [demo_server]). commanded 10%N (publish 10 [demo_server] 30).
    commanded 10%N (verify_exit 10 false [demo_server]). commanded 10%N (write_exit 10).
    does 1%N (exit_begin 1). does 1%N (exit_request 1). does 1%N (exit_owner 1). does 1%N (exit_held 1). does 1%N (exit_exit 1).
    ends 10%N. coordinates 11%N 7%N 5%N. commanded 11%N (claim 11). commanded 11%N (announce_ready 11 21).
    commanded 11%N (take_fence 11 8). does 1%N (exit_coordinator 1). apply rtc_refl.
  - split_and!; given.
Qed.

(** The records of an exit are read before the locks are
    tested, one after the other: a process that reads the intent of one
    coordinator can exit after that one has crashed, while another coordinator
    that never asked for it holds the fence. *)
Theorem exit_of_dead_coordinator :
  exists s s' p a, rtc step start s /\ step s s' /\ sy_actors s !! p = Some (Process a) /\ pr_exiting a = false /\
    (exists a', sy_actors s' !! p = Some (Process a') /\ pr_exiting a' = true) /\
    forall q c h, sy_actors s !! q = Some (Coordinator c) -> gt_exit (sy_gate s) = Some h -> hd_coordinator h <> cd_nonce c.
Proof.
  destruct demo_overtaken as (s & a & c & h & Hr & Ha & He & Hx & Hacts & _ & Hh & Hne & Hfree).
  exists s, (act 1 (Process (set_exiting a)) (sy_gate s) s), 1%N, a. split_and!; try done.
  - eapply step_process; [done|]. by apply exit_fence.
  - exists (set_exiting a). split; [apply lookup_insert_eq|done].
  - intros q c' h'. rewrite Hacts, Hh. intros [[_ [=]]|[_ [<- [= <-]]%lookup_singleton_Some]]%lookup_insert_Some [= <-]. done.
Qed.

Lemma controlled_exit_witness : exists s a g',
  rtc step start s /\ process_step 1 a (sy_gate s) (set_exiting a) g' /\ exists q c, sy_actors s !! q = Some (Coordinator c) /\ cd_fence c <> None.
Proof.
  destruct demo_overtaken as (s & a & c & h & Hr & Ha & He & Hx & _ & _ & _ & _ & Hfree).
  exists s, a, (sy_gate s). split_and!; [done|by apply exit_fence|].
  apply (controlled_exit s 1%N a (set_exiting a) (sy_gate s) Hr Ha (exit_fence 1 a (sy_gate s) He Hfree) Hx eq_refl).
Defined.

(** ** Which requests continue during a drain

    The routes that [continuation] lets through, compared with the table of
    routes of [Authz]. *)

(** ** Shapes of paths: a literal or any segment *)

Definition shape : Type := list (option str).

Definition lit_shape (s : str) : shape := map (fun w => if is_placeholder w then None else Some w) (segments s).

Fixpoint fits (f : shape) (ws : list str) : bool :=
  match f, ws with
  | [], [] => true
  | x :: f, w :: ws => match x with Some l => str_eqb l w | None => true end && fits f ws
  | _, _ => false
  end.

(** A template and a shape that some path satisfies both. *)
Fixpoint compatible (template : list str) (f : shape) : bool :=
  match template, f with
  | [], [] => true
  | t :: ts, x :: f => (is_placeholder t || match x with Some l => str_eqb l t | None => true end) && compatible ts f
  | _, _ => false
  end.

Lemma matched_fits_compatible template ws f :
  forallb (fun '(policy, actual) => is_placeholder policy || str_eqb policy actual) (zip template ws) = true ->
  length template = length ws -> fits f ws = true -> compatible template f = true.
Proof.
  revert ws f. induction template as [|t ts IH]; intros [|w ws] [|x f]; cbn; try done.
  intros [Hm Hr]%andb_true_iff [= Hl] [Hx Hf]%andb_true_iff. apply andb_true_iff. split; [|by eapply IH].
  apply orb_true_iff in Hm as [->|<-%str_eqb_true]; [done|]. apply orb_true_iff. right. done.
Qed.

(** The shapes of [continuation]. *)
Definition lease_shape (rest : shape) : shape := [Some §"api"; Some §"v1"; Some §"runner"; Some §"leases"; None] ++ rest.
Definition renewal_shape (rest : shape) : shape :=
  [Some §"api"; Some §"v1"; Some §"projects"; None; Some §"pipelines"; None; Some §"credential-renewals"] ++ rest.
Definition continuation_shapes : list shape :=
  lit_shape §"/api/v1/runner/heartbeat" :: lit_shape §"/api/v1/internal/git-push" ::
  map (fun verb => lease_shape [Some verb]) lease_verbs ++
  map (fun verb => lease_shape [Some §"artifact-sessions"; None; Some verb]) session_verbs ++
  [renewal_shape []; renewal_shape [None]].

(** ** The segments of a continuation *)

Lemma trim_end_slash s : (forall r, s <> r ++ [47%N]) -> trim_end_matches (N.eqb 47) s = s.
Proof.
  intros Hn. unfold trim_end_matches. rewrite drop_while_id; [apply rev_involutive|].
  intros x r E. destruct (N.eqb_spec 47 x) as [<-|]; [|done]. exfalso. apply (Hn (rev r)).
  rewrite <- (rev_involutive s), E. done.
Qed.

Lemma split_last_slash c r : exists w l, split c (r ++ [c]) = (w :: l) ++ [[]].
Proof.
  induction r as [|x r (w & l & IH)]; cbn.
  - rewrite N.eqb_refl. by exists [], [].
  - destruct (x =? c)%N; rewrite IH; cbn; [by exists [], (w :: l)|by exists (x :: w), l].
Qed.

Lemma path_parts_segments p l w : path_parts p = l ++ [w] -> w <> [] -> segments p = path_parts p.
Proof.
  unfold path_parts, segments, trim_matches. intros E Hw. rewrite trim_end_slash; [done|]. intros r Er. rewrite Er in E.
  destruct (split_last_slash 47 r) as (w' & l' & Hl'). rewrite Hl' in E. apply app_inj_tail in E as [_ <-]. done.
Qed.

Section continuations.
Context (parse_uuid : str -> option N).

Lemma lease_continuation_fits rest :
  lease_continuation parse_uuid rest = true ->
  (exists l w, rest = l ++ [w] /\ w <> []) /\
  exists f, f ∈ map (fun verb => [Some verb]) lease_verbs ++ map (fun verb => [Some §"artifact-sessions"; None; Some verb]) session_verbs /\
            fits f rest = true.
Proof.
  destruct rest as [|w [|x [|y [|? ?]]]]; try done.
  - cbn [lease_continuation]. intros Hv%bool_decide_eq_true. split.
    + exists [], w. split; [done|]. intros ->. revert Hv. apply (bool_decide_eq_false_1 ([] ∈ lease_verbs)). by vm_compute.
    + exists [Some w]. split; [|cbn; by rewrite str_eqb_refl]. apply elem_of_app. left. by apply (list_elem_of_fmap_2 (fun verb => [Some verb])).
  - cbn [lease_continuation]. rewrite !andb_true_iff. intros [[Hs%str_eqb_true _] Hv%bool_decide_eq_true]. subst w. split.
    + exists [§"artifact-sessions"; x], y. split; [done|]. intros ->. revert Hv. apply (bool_decide_eq_false_1 ([] ∈ session_verbs)). by vm_compute.
    + exists [Some §"artifact-sessions"; None; Some y]. split; [|cbn [fits]; by rewrite !str_eqb_refl].
      apply elem_of_app. right. by apply (list_elem_of_fmap_2 (fun verb => [Some §"artifact-sessions"; None; Some verb])).
Qed.

Lemma renewal_continuation_fits rest :
  renewal_continuation parse_uuid rest = true ->
  (exists l w, rest = l ++ [w] /\ w <> []) /\
  (fits [None; Some §"pipelines"; None; Some §"credential-renewals"] rest = true \/
   fits [None; Some §"pipelines"; None; Some §"credential-renewals"; None] rest = true).
Proof.
  destruct rest as [|a [|b [|c [|d [|e [|? ?]]]]]]; try done; cbn [renewal_continuation]; rewrite !andb_true_iff.
  - intros [[[-> %str_eqb_true ->%str_eqb_true] _] _]. split; [|left; cbn [fits]; by rewrite !str_eqb_refl].
    exists [a; §"pipelines"; c], §"credential-renewals". split; [done|]. by vm_compute.
  - intros [[[[[->%str_eqb_true ->%str_eqb_true] _] _] He%negb_true_iff%is_empty_false] _].
    split; [|right; cbn [fits]; by rewrite !str_eqb_refl]. by exists [a; §"pipelines"; c; §"credential-renewals"], e.
Qed.

Lemma continuation_fits p : continuation parse_uuid p = true -> exists f, f ∈ continuation_shapes /\ fits f (segments p) = true.
Proof.
  unfold continuation. destruct (str_eqb p §"/api/v1/runner/heartbeat") eqn:E1.
  { apply str_eqb_true in E1 as ->. intros _. exists (lit_shape §"/api/v1/runner/heartbeat"). split; [left|by vm_compute]. }
  destruct (str_eqb p §"/api/v1/internal/git-push") eqn:E2.
  { apply str_eqb_true in E2 as ->. intros _. exists (lit_shape §"/api/v1/internal/git-push"). split; [right; left|by vm_compute]. }
  cbn [orb]. clear E1 E2. destruct (path_parts p) as [|api [|v1 [|area rest]]] eqn:Ep; try done.
  destruct (str_eqb api §"api" && str_eqb v1 §"v1") eqn:E1; cbn [negb]; [|done].
  apply andb_true_iff in E1 as [->%str_eqb_true ->%str_eqb_true].
  destruct (str_eqb area §"runner") eqn:E2; [apply str_eqb_true in E2 as ->|].
  - destruct rest as [|leases [|lease [|first rest]]]; try done. rewrite !andb_true_iff. intros [[->%str_eqb_true _] Hl].
    apply lease_continuation_fits in Hl as [(l & w & Er & Hw) (f & Hf & Hfit)].
    rewrite (path_parts_segments p ([§"api"; §"v1"; §"runner"; §"leases"; lease] ++ l) w), Ep; [|by rewrite Ep, Er|done].
    exists (lease_shape f). split.
    + do 2 right. unfold continuation_shapes. apply elem_of_app in Hf as [Hf|Hf].
      * apply elem_of_app. left. apply list_elem_of_fmap in Hf as (v & -> & Hv). by apply (list_elem_of_fmap_2 (fun verb => lease_shape [Some verb])).
      * apply elem_of_app. right. apply elem_of_app. left. apply list_elem_of_fmap in Hf as (v & -> & Hv).
        by apply (list_elem_of_fmap_2 (fun verb => lease_shape [Some §"artifact-sessions"; None; Some verb])).
    + unfold lease_shape. cbn [app fits]. by rewrite !str_eqb_refl.
  - destruct (str_eqb area §"projects") eqn:E3; [apply str_eqb_true in E3 as ->|done].
    intros Hr. apply renewal_continuation_fits in Hr as [(l & w & Er & Hw) Hfit].
    rewrite (path_parts_segments p ([§"api"; §"v1"; §"projects"] ++ l) w), Ep; [|by rewrite Ep, Er|done].
    assert (Hin : forall f, f ∈ [renewal_shape []; renewal_shape [None]] -> f ∈ continuation_shapes).
    { intros f Hf. do 2 right. apply elem_of_app. right. apply elem_of_app. by right. }
    destruct Hfit as [Hfit|Hfit]; [exists (renewal_shape [])|exists (renewal_shape [None])]; (split; [apply Hin; set_solver|]);
      unfold renewal_shape; cbn [app fits]; by rewrite !str_eqb_refl.
Qed.

Lemma fits_app f ws f' ws' : length f = length ws -> fits (f ++ f') (ws ++ ws') = fits f ws && fits f' ws'.
Proof.
  revert ws. induction f as [|x f IH]; intros [|w ws]; cbn; try done. intros [= Hl]. by rewrite (IH ws Hl), andb_assoc.
Qed.

(** The routes of the table that continue during a drain. *)
Definition drain_routes : list str :=
  [§"/api/v1/internal/git-push";
   §"/api/v1/projects/{project_id}/pipelines/{pipeline_id}/credential-renewals";
   §"/api/v1/projects/{project_id}/pipelines/{pipeline_id}/credential-renewals/{renewal_key}";
   §"/api/v1/runner/heartbeat";
   §"/api/v1/runner/leases/{lease_id}/ack"; §"/api/v1/runner/leases/{lease_id}/renew"; §"/api/v1/runner/leases/{lease_id}/control";
   §"/api/v1/runner/leases/{lease_id}/receipt"; §"/api/v1/runner/leases/{lease_id}/secrets:resolve";
   §"/api/v1/runner/leases/{lease_id}/artifact-sessions/{session_id}/chunks";
   §"/api/v1/runner/leases/{lease_id}/artifact-sessions/{session_id}/complete";
   §"/api/v1/runner/leases/{lease_id}/artifact-sessions/{session_id}/abort";
   §"/api/v1/runner/leases/{lease_id}/logs"; §"/api/v1/runner/leases/{lease_id}/complete"].

Definition may_continue (policy : RoutePolicy) : bool :=
  existsb (compatible (segments (path policy))) continuation_shapes.

Lemma may_continue_routes : forallb (fun policy => implb (may_continue policy) (bool_decide (path policy ∈ drain_routes))) ROUTE_POLICIES = true.
Proof. by vm_compute. Qed.

Definition lease_prefix (lease : str) : str := §"/api/v1/runner/leases/" ++ lease ++ §"/".

Lemma lease_parts lease verb : 47%N ∉ lease -> 47%N ∉ verb -> verb <> [] ->
  path_parts (lease_prefix lease ++ verb) = [§"api"; §"v1"; §"runner"; §"leases"; lease; verb].
Proof.
  intros Hl Hv Hne. unfold path_parts, lease_prefix.
  assert (E : trim_start_matches (N.eqb 47) ((§"/api/v1/runner/leases/" ++ lease ++ §"/") ++ verb) =
              join [47%N] [§"api"; §"v1"; §"runner"; §"leases"; lease; verb]).
  { change (§"/api/v1/runner/leases/") with (§"/" ++ §"api" ++ §"/" ++ §"v1" ++ §"/" ++ §"runner" ++ §"/" ++ §"leases" ++ §"/").
    cbn [join]. rewrite <- !app_assoc. reflexivity. }
  rewrite E. apply split_join; [done|]. intros w Hw. rewrite !elem_of_cons in Hw. destruct Hw as [->|[->|[->|[->|[->|[->|Hw]]]]]]; try done;
    [by vm_compute; set_solver..|by apply elem_of_nil in Hw].
Qed.

(** During a drain, a request that a route of the table serves is
    let through only when it continues existing work: the fourteen routes above.
    Of the requests of a lease with one verb, exactly the listed verbs continue;
    the upload of an artifact, in one piece or by a session, is not among them:
    the list has [artifact-sessions], which is no route, for
    [artifact-sessions:begin]. *)
Theorem drain_continuations :
  (forall policy p, policy ∈ ROUTE_POLICIES -> path_matches (path policy) p = true -> continuation parse_uuid p = true ->
     path policy ∈ drain_routes) /\
  (forall lease verb, is_uuid parse_uuid lease = true -> 47%N ∉ lease -> 47%N ∉ verb -> verb <> [] ->
     continuation parse_uuid (lease_prefix lease ++ verb) = bool_decide (verb ∈ lease_verbs)) /\
  (forall verb, verb ∈ [§"artifacts"; §"artifact-sessions:begin"] ->
     (exists policy, policy ∈ ROUTE_POLICIES /\ path policy = lease_prefix §"{lease_id}" ++ verb) /\ verb ∉ lease_verbs) /\
  (forall policy, policy ∈ ROUTE_POLICIES -> path policy <> lease_prefix §"{lease_id}" ++ §"artifact-sessions").
Proof.
  split_and!.
  - intros policy p Hin [Hm Hl]%andb_true_iff Hc. apply continuation_fits in Hc as (f & Hf & Hfit).
    pose proof (proj1 (forallb_iff _ _) may_continue_routes policy Hin) as Hr. cbv beta in Hr. eapply bool_decide_eq_true_1.
    assert (Hmay : may_continue policy = true); [|by rewrite Hmay in Hr].
    unfold may_continue. apply existsb_iff. exists f. split; [done|]. eapply matched_fits_compatible; [done|by apply Nat.eqb_eq in Hl|done].
  - intros lease verb Hu Hl Hv Hne. unfold continuation. rewrite lease_parts by done.
    assert (Hneq : forall s, path_parts s <> [§"api"; §"v1"; §"runner"; §"leases"; lease; verb] -> str_eqb (lease_prefix lease ++ verb) s = false).
    { intros s Hs. apply not_true_iff_false. intros <-%str_eqb_true. by rewrite lease_parts in Hs. }
    rewrite !Hneq by (vm_compute; discriminate). rewrite Hu, !str_eqb_refl. done.
  - intros verb Hv. split.
    + rewrite !elem_of_cons in Hv. destruct Hv as [->|[->|Hv]]; [| |by apply elem_of_nil in Hv].
      * assert (H : existsb (fun policy => str_eqb (path policy) (lease_prefix §"{lease_id}" ++ §"artifacts")) ROUTE_POLICIES = true) by (by vm_compute).
        apply existsb_iff in H as (policy & Hin & E%str_eqb_true). by exists policy.
      * assert (H : existsb (fun policy => str_eqb (path policy) (lease_prefix §"{lease_id}" ++ §"artifact-sessions:begin")) ROUTE_POLICIES = true)
          by (by vm_compute).
        apply existsb_iff in H as (policy & Hin & E%str_eqb_true). by exists policy.
    + rewrite !elem_of_cons in Hv. apply (bool_decide_eq_false_1 (verb ∈ lease_verbs)). destruct Hv as [->|[->|Hv]]; [by vm_compute..|by apply elem_of_nil in Hv].
  - intros policy Hin E.
    assert (H : existsb (fun policy => str_eqb (path policy) (lease_prefix §"{lease_id}" ++ §"artifact-sessions")) ROUTE_POLICIES = false) by (by vm_compute).
    rewrite existsb_false_iff in H. specialize (H policy Hin). rewrite E, str_eqb_refl in H. done.
Qed.
End continuations.

Lemma drain_continuations_witness :
  continuation (fun _ => Some 1%N) (lease_prefix [120%N] ++ §"renew") = bool_decide (§"renew" ∈ lease_verbs) /\
  bool_decide (§"renew" ∈ lease_verbs) = true /\ bool_decide (§"artifact-sessions:begin" ∈ lease_verbs) = false.
Proof.
  split_and!; [|by vm_compute|by vm_compute].
  apply (proj1 (proj2 (drain_continuations (fun _ => Some 1%N)))); [reflexivity|by vm_compute; set_solver|by vm_compute; set_solver|done].
Defined.
