(* ===== verification/SyncStore.v ===== *)
(** * The journal of repository synchronisation

    [backend/infra/src/repository_sync.rs] and [repository_sync_schedule.rs]:
    connections, runs, references and operations with the constraints of the
    migrations 0093, 0106, 0107 and 0114, and one definition per transaction
    of [PgSyncStore].  The repositories of [repository_catalog] are rows with
    the columns that are read here; [eligible] stands for the namespace and
    identity conditions of [AUTOMATIC_CONNECTIONS], [denied] for a guard of
    those tables that refuses an insertion. *)
From S2P Require Import Prelude Table Url RepositorySync.

(** ** Errors and access ([app/src/repository_sync.rs]) *)

Inductive Error : Type :=
| Invalid (message : str)
| Conflict (message : str)
| NotFound
| Forbidden
| Unavailable (message : str).
#[export] Instance Error_eq_dec : EqDecision Error.
Proof. solve_decision. Defined.

Record Access : Type := {
  ac_actor : N; ac_project : option N; ac_admin : bool; ac_machine : bool; ac_writable : bool }.

Definition can_manage_protected_branch_updates (a : Access) : bool := ac_admin a && negb (ac_machine a).
Definition can_manage_schedule (a : Access) : bool :=
  ac_admin a && ac_writable a && negb (ac_machine a) && is_none (ac_project a).

(** [fn db] *)
Definition db : Error := Unavailable §"Хранилище синхронизаций недоступно".

(** ** Rows *)

Inductive run_state : Type := Queued | Running | Stopping | Reconciling | Success | Partial | Conflicting | Failed | Canceled.
Inductive run_source : Type := Manual | Scheduled | GitChange.
Inductive ref_direction : Type := RefPull | RefPush | RefNone.
Inductive ref_status : Type := RefPlanned | RefApplied | RefUnchanged | RefConflict | RefBlocked | RefUnknown | RefCanceled | RefFailed.
#[export] Instance run_state_eq_dec : EqDecision run_state. Proof. solve_decision. Defined.
#[export] Instance run_source_eq_dec : EqDecision run_source. Proof. solve_decision. Defined.
#[export] Instance ref_direction_eq_dec : EqDecision ref_direction. Proof. solve_decision. Defined.
#[export] Instance ref_status_eq_dec : EqDecision ref_status. Proof. solve_decision. Defined.
#[export] Instance Settings_eq_dec : EqDecision Settings. Proof. solve_decision. Defined.

(** [state IN ('running','stopping','reconciling')], and with ['queued'] *)
Definition writer (s : run_state) : bool := match s with Running | Stopping | Reconciling => true | _ => false end.
Definition active (s : run_state) : bool := match s with Queued => true | _ => writer s end.

Record SyncConnection : Type := {
  sn_repository : N;
  sn_version : Z;
  sn_settings : Settings;
  sn_credential : str;
  sn_next_check_at : option Z;
  sn_dirty : bool;
  sn_owner_subject : option N }.

Record SyncRun : Type := {
  rn_repository : N;
  rn_connection : N;
  rn_connection_version : Z;
  rn_settings : Settings;
  rn_source : run_source;
  rn_state : run_state;
  rn_owner : option N;
  rn_generation : Z;
  rn_lease_until : option Z;
  rn_cancel_requested : bool;
  rn_message : option str;
  rn_owner_subject : option N;
  rn_created_at : Z;
  rn_started_at : option Z;
  rn_finished_at : option Z }.

Record RefResult : Type := {
  rf_direction : ref_direction;
  rf_old : option str;
  rf_new : option str;
  rf_state : ref_status;
  rf_reason : option str;
  rf_event_delivered : bool;
  rf_event_next_attempt_at : Z }.

(** What the handlers see of [repository_catalog], [git_groups] and the
    [projects] of a repository. *)
Record repository : Type := { rp_ready : bool; rp_active : bool; rp_storage : str; rp_protected : list str }.

(** The answer of [save]. *)
Record Connection : Type := {
  cn_id : N;
  cn_repository : N;
  cn_version : Z;
  cn_settings : Settings;
  cn_writable : bool;
  cn_paused_reason : option str;
  cn_next_check_at : option Z;
  cn_active_run : option (N * SyncRun);
  cn_last_run : option (N * SyncRun) }.

Inductive readback : Type := ReadRun (id : N) (r : SyncRun) | ReadConnection (c : Connection).

Record sync_operation : Type := {
  so_connection : N; so_repository : N; so_actor : N; so_kind : str; so_fingerprint : str; so_readback : readback }.

(** A row of [repository_sync_schedule] with the actor the audit log has for it. *)
Record policy : Type := { po_version : Z; po_settings : SyncSchedule; po_actor : option N }.

(** [CHECK (version > 0)] and [CHECK (owner_subject <> nil)] *)
#[export] Instance connection_schema : Schema SyncConnection.
Proof.
  refine {| check c := (0 <? sn_version c)%Z && negb (bool_decide (sn_owner_subject c = Some 0%N)); conflict _ _ := false |}.
  done.
Defined.

(** [repository_sync_one_active] and [repository_sync_one_writer] *)
Definition both_active (x y : SyncRun) : bool := (rn_connection x =? rn_connection y)%N && active (rn_state x) && active (rn_state y).
Definition both_writers (x y : SyncRun) : bool := (rn_repository x =? rn_repository y)%N && writer (rn_state x) && writer (rn_state y).

#[export] Instance run_schema : Schema SyncRun.
Proof.
  refine {| check r := negb (bool_decide (rn_owner_subject r = Some 0%N)); conflict x y := both_active x y || both_writers x y |}.
  intros x y. unfold both_active, both_writers. rewrite (N.eqb_sym (rn_connection x)), (N.eqb_sym (rn_repository x)).
  destruct (active (rn_state x)), (active (rn_state y)), (writer (rn_state x)), (writer (rn_state y)); by rewrite ?andb_true_r, ?andb_false_r.
Defined.

Record store : Type := {
  connections : gmap N SyncConnection;
  runs : gmap N SyncRun;
  refs : gmap (N * str) RefResult;
  operations : gmap N sync_operation;
  policies : gmap N policy;
  catalog : gmap N repository }.

Definition set_connections (f : gmap N SyncConnection -> gmap N SyncConnection) (s : store) : store := {|
  connections := f (connections s); runs := runs s; refs := refs s; operations := operations s; policies := policies s; catalog := catalog s |}.
Definition set_runs (f : gmap N SyncRun -> gmap N SyncRun) (s : store) : store := {|
  connections := connections s; runs := f (runs s); refs := refs s; operations := operations s; policies := policies s; catalog := catalog s |}.
Definition set_refs (f : gmap (N * str) RefResult -> gmap (N * str) RefResult) (s : store) : store := {|
  connections := connections s; runs := runs s; refs := f (refs s); operations := operations s; policies := policies s; catalog := catalog s |}.
Definition set_operations (f : gmap N sync_operation -> gmap N sync_operation) (s : store) : store := {|
  connections := connections s; runs := runs s; refs := refs s; operations := f (operations s); policies := policies s; catalog := catalog s |}.
Definition set_policies (f : gmap N policy -> gmap N policy) (s : store) : store := {|
  connections := connections s; runs := runs s; refs := refs s; operations := operations s; policies := f (policies s); catalog := catalog s |}.

(** Columns of a run. *)
Definition set_claim (state : run_state) (owner : N) (generation lease : Z) (started : option Z) (r : SyncRun) : SyncRun := {|
  rn_repository := rn_repository r; rn_connection := rn_connection r; rn_connection_version := rn_connection_version r;
  rn_settings := rn_settings r; rn_source := rn_source r; rn_state := state; rn_owner := Some owner; rn_generation := generation;
  rn_lease_until := Some lease; rn_cancel_requested := rn_cancel_requested r; rn_message := rn_message r;
  rn_owner_subject := rn_owner_subject r; rn_created_at := rn_created_at r; rn_started_at := started; rn_finished_at := rn_finished_at r |}.
Definition set_lease (lease : Z) (r : SyncRun) : SyncRun := {|
  rn_repository := rn_repository r; rn_connection := rn_connection r; rn_connection_version := rn_connection_version r;
  rn_settings := rn_settings r; rn_source := rn_source r; rn_state := rn_state r; rn_owner := rn_owner r; rn_generation := rn_generation r;
  rn_lease_until := Some lease; rn_cancel_requested := rn_cancel_requested r; rn_message := rn_message r;
  rn_owner_subject := rn_owner_subject r; rn_created_at := rn_created_at r; rn_started_at := rn_started_at r; rn_finished_at := rn_finished_at r |}.
Definition set_outcome (state : run_state) (message : option str) (finished : option Z) (lease : Z) (r : SyncRun) : SyncRun := {|
  rn_repository := rn_repository r; rn_connection := rn_connection r; rn_connection_version := rn_connection_version r;
  rn_settings := rn_settings r; rn_source := rn_source r; rn_state := state; rn_owner := rn_owner r; rn_generation := rn_generation r;
  rn_lease_until := Some lease; rn_cancel_requested := rn_cancel_requested r; rn_message := message;
  rn_owner_subject := rn_owner_subject r; rn_created_at := rn_created_at r; rn_started_at := rn_started_at r; rn_finished_at := finished |}.
Definition set_stop (state : run_state) (finished : option Z) (r : SyncRun) : SyncRun := {|
  rn_repository := rn_repository r; rn_connection := rn_connection r; rn_connection_version := rn_connection_version r;
  rn_settings := rn_settings r; rn_source := rn_source r; rn_state := state; rn_owner := rn_owner r; rn_generation := rn_generation r;
  rn_lease_until := rn_lease_until r; rn_cancel_requested := true; rn_message := rn_message r;
  rn_owner_subject := rn_owner_subject r; rn_created_at := rn_created_at r; rn_started_at := rn_started_at r; rn_finished_at := finished |}.

(** A result of a transaction: on an error nothing is written. *)
Definition tx (A : Type) : Type := result (A * store) Error.

Definition or_db {A} (r : result A db_error) : result A Error := match r with Ok a => Ok a | Err _ => Err db end.

(** [INSERT INTO repository_sync_runs ..] of a queued run *)
Definition new_run (now : Z) (repository connection : N) (c : SyncConnection) (source : run_source) : SyncRun := {|
  rn_repository := repository; rn_connection := connection; rn_connection_version := sn_version c; rn_settings := sn_settings c;
  rn_source := source; rn_state := Queued; rn_owner := None; rn_generation := 0; rn_lease_until := None;
  rn_cancel_requested := false; rn_message := None; rn_owner_subject := sn_owner_subject c; rn_created_at := now;
  rn_started_at := None; rn_finished_at := None |}.

Definition active_run (connection : N) (s : store) : option (N * SyncRun) :=
  head (select (fun _ r => (rn_connection r =? connection)%N && active (rn_state r)) (runs s)).

(** ** Enqueueing *)

Definition connection_of (repository connection : N) (s : store) : option SyncConnection :=
  match connections s !! connection with
  | Some c => if (sn_repository c =? repository)%N then Some c else None
  | None => None
  end.

(** A known operation: the same request gets its answer again. *)
Definition same_operation (connection repository actor : N) (kind : str) (o : sync_operation) : bool :=
  (so_connection o =? connection)%N && (so_repository o =? repository)%N && (so_actor o =? actor)%N && str_eqb (so_kind o) kind.

Definition damaged {A} : result A Error := Err (Unavailable §"Повреждённый журнал синхронизации").

Definition read_run (repository connection : N) (access : Access) (o : sync_operation) : result (N * SyncRun) Error :=
  if negb (same_operation connection repository (ac_actor access) §"run" o) then Err (Conflict §"idempotency_conflict")
  else match so_readback o with ReadRun id r => Ok (id, r) | ReadConnection _ => damaged end.

Definition known_run (repository connection : N) (operation : option (N * Access)) (s : store) : option (result (N * SyncRun) Error) :=
  match operation with
  | Some (key, access) => read_run repository connection access <$> (operations s !! key)
  | None => None
  end.

(** The active run of a connection, or a new one. *)
Definition active_or_new (now : Z) (new_id : N) (denied : bool) (repository connection : N) (c : SyncConnection) (source : run_source) (s : store)
  : tx (N * SyncRun) :=
  match active_run connection s with
  | Some old => Ok (old, s)
  | None =>
    if denied then Err db
    else
      let r := new_run now repository connection c source in
      let? t := or_db (insert_row new_id r (runs s)) in
      Ok ((new_id, r), set_runs (fun _ => t) s)
  end.

Definition record_run (repository connection : N) (operation : option (N * Access)) (value : N * SyncRun) (s : store) : store :=
  match operation with
  | Some (key, access) =>
    set_operations (insert key {| so_connection := connection; so_repository := repository; so_actor := ac_actor access;
                                  so_kind := §"run"; so_fingerprint := §"manual"; so_readback := ReadRun value.1 value.2 |}) s
  | None => s
  end.

(** [enqueue_at] *)
Definition enqueue_at (now : Z) (new_id : N) (denied : bool) (repository connection : N) (source : run_source)
    (operation : option (N * Access)) (s : store) : tx (N * SyncRun) :=
  match known_run repository connection operation s with
  | Some answer => let? v := answer in Ok (v, s)
  | None =>
    let? c := ok_or (connection_of repository connection s) NotFound in
    if bool_decide (ss_direction (sn_settings c) = Disabled) then Err (Conflict §"sync_disabled")
    else
      let? r := active_or_new now new_id denied repository connection c source s in
      Ok (r.1, record_run repository connection operation r.1 r.2)
  end.

(** ** Scheduling *)

Definition is_automatic (c : SyncConnection) : bool :=
  ss_automatic (sn_settings c) && negb (bool_decide (ss_direction (sn_settings c) = Disabled)).

(** Only the columns of the schedule change. *)
Definition set_check (dirty : bool) (next : option Z) (c : SyncConnection) : SyncConnection := {|
  sn_repository := sn_repository c; sn_version := sn_version c; sn_settings := sn_settings c; sn_credential := sn_credential c;
  sn_next_check_at := next; sn_dirty := dirty; sn_owner_subject := sn_owner_subject c |}.

(** [signal] *)
Definition signal (repository : N) (s : store) : store :=
  set_connections (update_where (fun _ c => (sn_repository c =? repository)%N && is_automatic c) (fun c => set_check true (sn_next_check_at c) c)) s.

(** [schedule_state]: the row with the greatest version. *)
Record ScheduleState : Type := { sd_version : Z; sd_settings : SyncSchedule }.

Definition schedule_state (defaults : SyncSchedule) (s : store) : ScheduleState :=
  match select_max po_version (fun _ _ => true) (policies s) with
  | Some (_, p) => {| sd_version := po_version p; sd_settings := po_settings p |}
  | None => {| sd_version := 0; sd_settings := defaults |}
  end.

Section schedule.
Context (eligible denied locked : N -> bool).

(** [AUTOMATIC_CONNECTIONS] *)
Definition automatic_connection (s : store) (id : N) (c : SyncConnection) : bool :=
  is_automatic c
  && match catalog s !! sn_repository c with Some r => rp_ready r && rp_active r | None => false end
  && eligible id.

Definition check_due (now : Z) (c : SyncConnection) : bool :=
  match sn_next_check_at c with Some t => (t <=? now)%Z | None => false end.

(** The [WHERE] of [schedule]. *)
Definition to_schedule (now : Z) (on_change : bool) (s : store) (id : N) (c : SyncConnection) : bool :=
  automatic_connection s id c
  && (on_change && sn_dirty c || check_due now c
      || negb on_change && exists_row (fun _ other => (sn_repository other =? sn_repository c)%N && is_automatic other && check_due now other)
                                      (connections s))
  && negb (is_some (active_run id s)) && negb (locked id).

(** [ORDER BY c.next_check_at NULLS FIRST, c.id] *)
Definition check_order (a b : N * SyncConnection) : Prop :=
  match sn_next_check_at a.2, sn_next_check_at b.2 with
  | None, Some _ => True
  | Some _, None => False
  | None, None => (a.1 <= b.1)%N
  | Some x, Some y => (x < y)%Z \/ x = y /\ (a.1 <= b.1)%N
  end.
#[export] Instance check_order_dec : RelDecision check_order.
Proof. intros a b. unfold check_order. repeat case_match; apply _. Defined.

Definition scheduled (now : Z) (on_change : bool) (s : store) : list (N * SyncConnection) :=
  take 100 (merge_sort check_order (select (to_schedule now on_change s) (connections s))).

(** One turn of the loop of [schedule]; a refused insertion is rolled back. *)
Definition schedule_one (now : Z) (new_id : N -> N) (policy : SyncSchedule) (s : store) (kc : N * SyncConnection) : result store Error :=
  if denied kc.1 then Ok s
  else
    let source := if sc_on_change policy && sn_dirty kc.2 then GitChange else Scheduled in
    let? t := or_db (insert_row (new_id kc.1) (new_run now (sn_repository kc.2) kc.1 kc.2 source) (runs s)) in
    Ok (set_connections (alter (set_check false (Some (now + seconds (sc_interval_seconds policy))%Z)) kc.1) (set_runs (fun _ => t) s)).

(** [schedule] *)
Definition schedule (now : Z) (new_id : N -> N) (defaults : SyncSchedule) (s : store) : result store Error :=
  let policy := sd_settings (schedule_state defaults s) in
  rfold (schedule_one now new_id policy) s (scheduled now (sc_on_change policy) s).
End schedule.

(** ** Claiming *)

Definition expired (now : Z) (r : SyncRun) : bool :=
  writer (rn_state r) && match rn_lease_until r with Some t => (t <? now)%Z | None => false end.

Definition has_writer (p : N -> SyncRun -> bool) (s : store) : bool := exists_row (fun id r => writer (rn_state r) && p id r) (runs s).

(** The [WHERE] of [candidates]. *)
Definition is_candidate (now : Z) (s : store) (id : N) (r : SyncRun) : bool :=
  match catalog s !! rn_repository r with
  | None => false
  | Some repository =>
    bool_decide (rn_state r = Queued) && rp_ready repository && rp_active repository
    && negb (has_writer (fun _ w => rn_repository w =? rn_repository r)%N s)
    || expired now r
  end.

(** [created_at, direction_order, id] *)
Definition direction_order (r : SyncRun) : Z := if bool_decide (ss_direction (rn_settings r) = Pull) then 0 else 1.

Definition run_order (a b : N * SyncRun) : Prop :=
  (rn_created_at a.2 < rn_created_at b.2)%Z \/
  rn_created_at a.2 = rn_created_at b.2 /\
  ((direction_order a.2 < direction_order b.2)%Z \/ direction_order a.2 = direction_order b.2 /\ (a.1 <= b.1)%N).
#[export] Instance run_order_dec : RelDecision run_order.
Proof. intros a b. unfold run_order. apply _. Defined.

(** [DISTINCT ON (repository_id)] of the sorted rows: the first of each. *)
Fixpoint distinct_on_repository (seen : list N) (l : list (N * SyncRun)) : list (N * SyncRun) :=
  match l with
  | [] => []
  | kr :: l =>
    if bool_decide (rn_repository kr.2 ∈ seen) then distinct_on_repository seen l
    else kr :: distinct_on_repository (rn_repository kr.2 :: seen) l
  end.

(** [candidates]; sorting by [run_order] first picks the same row of each
    repository as sorting by repository and [run_order]. *)
Definition candidates (now : Z) (s : store) : list (N * SyncRun) :=
  take 100 (distinct_on_repository [] (merge_sort run_order (select (is_candidate now s) (runs s)))).

(** The [WHERE] of [claim]. *)
Definition claimable (now : Z) (id : N) (r : SyncRun) (s : store) : bool :=
  negb (has_writer (fun other w => (rn_repository w =? rn_repository r)%N && negb (other =? id)%N) s)
  && (bool_decide (rn_state r = Queued) || expired now r).

Definition claimed (now : Z) (owner : N) (r : SyncRun) : SyncRun :=
  set_claim (if bool_decide (rn_state r = Queued) then Running else Reconciling) owner (rn_generation r + 1) (now + seconds 60)
    (Some (default now (rn_started_at r))) r.

(** [claim] *)
Definition claim (now : Z) (id owner : N) (s : store) : tx (option (SyncRun * Z)) :=
  match runs s !! id with
  | None => Ok (None, s)
  | Some r =>
    if claimable now id r s then
      let r' := claimed now owner r in
      let? t := or_db (put id r' (runs s)) in
      Ok (Some (r', rn_generation r'), set_runs (fun _ => t) s)
    else Ok (None, s)
  end.

(** ** The owner of a claim *)

Definition owns (owner : N) (generation : Z) (r : SyncRun) : bool :=
  bool_decide (rn_owner r = Some owner) && (rn_generation r =? generation)%Z.

(** [heartbeat]: whether the run is to be canceled. *)
Definition heartbeat (now : Z) (id owner : N) (generation : Z) (s : store) : tx bool :=
  match runs s !! id with
  | Some r =>
    if owns owner generation r && writer (rn_state r) then Ok (rn_cancel_requested r, set_runs (alter (set_lease (now + seconds 60)) id) s)
    else Err (Conflict §"sync_fence_lost")
  | None => Err (Conflict §"sync_fence_lost")
  end.

Definition leased (now : Z) (r : SyncRun) : bool := match rn_lease_until r with Some t => (now <? t)%Z | None => false end.

(** [allowed_to_apply] for the run [run] as it was claimed. *)
Definition allowed_to_apply (now : Z) (id owner : N) (generation : Z) (s : store) : bool :=
  match runs s !! id with
  | None => false
  | Some r =>
    owns owner generation r && leased now r && negb (rn_cancel_requested r)
    && match connection_of (rn_repository r) (rn_connection r) s, catalog s !! rn_repository r with
       | Some c, Some repository =>
         (sn_version c =? rn_connection_version r)%Z && negb (bool_decide (ss_direction (sn_settings c) = Disabled)) && rp_active repository
       | _, _ => false
       end
  end.

(** [record_plan]: [ON CONFLICT DO NOTHING]. *)
Definition set_event (delivered : bool) (reason : option str) (next : Z) (f : RefResult) : RefResult := {|
  rf_direction := rf_direction f; rf_old := rf_old f; rf_new := rf_new f; rf_state := rf_state f; rf_reason := reason;
  rf_event_delivered := delivered; rf_event_next_attempt_at := next |}.

Definition record_ref (now : Z) (id : N) (t : gmap (N * str) RefResult) (nr : str * RefResult) : gmap (N * str) RefResult :=
  match t !! (id, nr.1) with
  | Some _ => t
  | None => <[(id, nr.1) := set_event (rf_event_delivered nr.2) (rf_reason nr.2) now nr.2]> t
  end.
Definition record_plan (now : Z) (id : N) (rows : list (str * RefResult)) (s : store) : store :=
  set_refs (fun t => foldl (record_ref now id) t rows) s.

Definition set_ref_state (state : ref_status) (reason : option str) (f : RefResult) : RefResult := {|
  rf_direction := rf_direction f; rf_old := rf_old f; rf_new := rf_new f; rf_state := state; rf_reason := reason;
  rf_event_delivered := rf_event_delivered f; rf_event_next_attempt_at := rf_event_next_attempt_at f |}.

(** [ref_state] *)
Definition ref_state (now : Z) (id : N) (reference : str) (state : ref_status) (reason : option str) (owner : N) (generation : Z) (s : store)
  : result store Error :=
  match refs s !! (id, reference), runs s !! id with
  | Some f, Some r =>
    if owns owner generation r && leased now r then Ok (set_refs (insert (id, reference) (set_ref_state state reason f)) s)
    else Err (Conflict §"sync_fence_lost")
  | _, _ => Err (Conflict §"sync_fence_lost")
  end.

(** [finish] *)
Definition finish (now : Z) (id owner : N) (generation : Z) (state : run_state) (message : option str) (s : store) : result store Error :=
  match runs s !! id with
  | Some r =>
    if owns owner generation r then
      let terminal := negb (bool_decide (state = Reconciling) || bool_decide (state = Stopping)) in
      let? t := or_db (put id (set_outcome state message (if terminal then Some now else None) (now + seconds 30) r) (runs s)) in
      Ok (set_runs (fun _ => t) s)
    else Ok s
  | None => Ok s
  end.

(** ** Reading references *)

(** All references of a run, [ORDER BY ref_name]. *)
Definition name_order (a b : str * RefResult) : Prop := str_le a.1 b.1.
#[export] Instance name_order_dec : RelDecision name_order.
Proof. intros a b. unfold name_order. apply _. Defined.

Definition run_refs (id : N) (s : store) : list (str * RefResult) :=
  merge_sort name_order (omap (fun kf => if (kf.1.1 =? id)%N then Some (kf.1.2, kf.2) else None) (map_to_list (refs s))).

(** [refs]: one page and the total. *)
Definition refs_page (rows : list (str * RefResult)) (limit offset : Z) : list (str * RefResult) * Z :=
  (take (Z.to_nat (Z.max 1 (Z.min 1000 limit))) (drop (Z.to_nat (Z.max 0 offset)) rows), zlen rows).

(** [all_refs] ([repository_sync_worker.rs]): the loop over the pages, with
    [fuel] for its turns. *)
Fixpoint all_refs_from (fuel : nat) (rows acc : list (str * RefResult)) (offset : Z) : option (list (str * RefResult)) :=
  match fuel with
  | O => None
  | S fuel =>
    let page := refs_page rows 1000 offset in
    let offset := (offset + zlen page.1)%Z in
    if (page.2 <=? offset)%Z then Some (acc ++ page.1) else all_refs_from fuel rows (acc ++ page.1) offset
  end.
Definition all_refs (fuel : nat) (rows : list (str * RefResult)) : option (list (str * RefResult)) := all_refs_from fuel rows [] 0.

(** ** Events of applied references *)

Definition event_pending (now : Z) (f : RefResult) : bool :=
  bool_decide (rf_direction f = RefPull) && bool_decide (rf_state f = RefApplied) && negb (rf_event_delivered f)
  && (rf_event_next_attempt_at f <=? now)%Z.

(** [ORDER BY event_next_attempt_at, created_at, run_id, ref_name] *)
Definition event_order (s : store) (a b : (N * str) * RefResult) : Prop :=
  let created k := match runs s !! k with Some r => rn_created_at r | None => 0%Z end in
  (rf_event_next_attempt_at a.2 < rf_event_next_attempt_at b.2)%Z \/
  rf_event_next_attempt_at a.2 = rf_event_next_attempt_at b.2 /\
  ((created a.1.1 < created b.1.1)%Z \/ created a.1.1 = created b.1.1 /\
   ((a.1.1 < b.1.1)%N \/ a.1.1 = b.1.1 /\ str_le a.1.2 b.1.2)).
#[export] Instance event_order_dec s : RelDecision (event_order s).
Proof. intros a b. unfold event_order. apply _. Defined.

(** [pending_events]: the join with the runs. *)
Definition pending_events (now : Z) (s : store) : list ((N * str) * RefResult) :=
  take 100 (merge_sort (event_order s)
    (List.filter (fun kf => event_pending now kf.2 && is_some (runs s !! kf.1.1)) (map_to_list (refs s)))).

Definition event_delivered (id : N) (reference : str) (s : store) : store :=
  set_refs (alter (fun f => set_event true (rf_reason f) (rf_event_next_attempt_at f) f) (id, reference)) s.
Definition event_retry (now : Z) (id : N) (reference : str) (s : store) : store :=
  set_refs (alter (fun f => if rf_event_delivered f then f else set_event false (rf_reason f) (now + seconds 60) f) (id, reference)) s.
Definition event_non_commit_tag (id : N) (reference : str) (s : store) : store :=
  set_refs (alter (fun f => if bool_decide (rf_state f = RefApplied)
                            then set_event true (Some §"ci_non_commit_tag") (rf_event_next_attempt_at f) f else f) (id, reference)) s.

(** ** Saving a connection *)

Record SaveConnection : Type := { si_expected_version : Z; si_settings : Settings; si_token : option str }.

Definition with_direction (d : Direction) (p : ProtectedBranchUpdates) (s : Settings) : Settings := {|
  ss_provider := ss_provider s; ss_instance_url := ss_instance_url s; ss_repository_path := ss_repository_path s; ss_direction := d;
  ss_automatic := ss_automatic s; ss_branch := ss_branch s; ss_protected_branch_updates := p |}.

(** The view [CONNECTION_SELECT]. *)
Definition last_order (a b : N * SyncRun) : Prop :=
  (rn_created_at b.2 < rn_created_at a.2)%Z \/ rn_created_at a.2 = rn_created_at b.2 /\ (b.1 <= a.1)%N.
#[export] Instance last_order_dec : RelDecision last_order.
Proof. intros a b. unfold last_order. apply _. Defined.

Definition same_remote (a b : Settings) : bool :=
  bool_decide (ss_provider a = ss_provider b) && str_eqb (ss_instance_url a) (ss_instance_url b)
  && str_eqb (ss_repository_path a) (ss_repository_path b).

Definition last_run (id : N) (c : SyncConnection) (s : store) : option (N * SyncRun) :=
  head (merge_sort last_order (select (fun _ r => (rn_connection r =? id)%N && is_some (rn_finished_at r)
                                                  && same_remote (rn_settings r) (sn_settings c)) (runs s))).

Definition connection_view (writable : bool) (id : N) (s : store) : option Connection :=
  c ← connections s !! id;
  r ← catalog s !! sn_repository c;
  Some {| cn_id := id; cn_repository := sn_repository c; cn_version := sn_version c; cn_settings := sn_settings c;
          cn_writable := writable && rp_ready r && rp_active r;
          cn_paused_reason := if negb (rp_ready r) then Some §"storage_pending"
                              else if negb (rp_active r) then Some §"namespace_read_only" else None;
          cn_next_check_at := sn_next_check_at c; cn_active_run := active_run id s; cn_last_run := last_run id c s |}.

(** The stored answer of a known operation. *)
Definition read_connection (repository connection : N) (access : Access) (fingerprint : str) (o : sync_operation) : result Connection Error :=
  if negb (same_operation connection repository (ac_actor access) §"save" o && str_eqb (so_fingerprint o) fingerprint)
  then Err (Conflict §"idempotency_conflict")
  else match so_readback o with ReadConnection c => Ok c | ReadRun _ _ => damaged end.

(** The token that is kept or replaced. *)
Definition kept_credential (old : option SyncConnection) (input : Settings) (encrypted : option str) : result str Error :=
  match encrypted, old with
  | Some value, _ => Ok value
  | None, Some c => if same_endpoint (sn_settings c) input then Ok (sn_credential c) else Err (Invalid §"Укажите новый токен доступа")
  | None, None => Err (Invalid §"Укажите новый токен доступа")
  end.

(** While a run is active a connection can only be switched off. *)
Definition may_change (active : bool) (old : option SyncConnection) (input : Settings) (encrypted : option str) : result unit Error :=
  if active then
    let? c := ok_or old NotFound in
    let previous := sn_settings c in
    let recovering := bool_decide (ss_direction previous = Disabled) in
    let disabling := with_direction Disabled Blocked previous in
    if negb (bool_decide (input = disabling)) || is_some encrypted && negb recovering then Err (Conflict §"sync_running") else Ok tt
  else Ok tt.

(** [INSERT .. ON CONFLICT(id) DO UPDATE] *)
Definition saved_connection (now : Z) (repository : N) (interval : Z) (owner_subject : option N) (active : bool) (input : Settings)
    (credential : str) (old : option SyncConnection) : SyncConnection :=
  let next := if ss_automatic input && negb (bool_decide (ss_direction input = Disabled)) then Some (now + seconds interval)%Z else None in
  match old with
  | None => {| sn_repository := repository; sn_version := 1; sn_settings := input; sn_credential := credential;
               sn_next_check_at := next; sn_dirty := false; sn_owner_subject := owner_subject |}
  | Some c => {| sn_repository := sn_repository c; sn_version := sn_version c + 1; sn_settings := input; sn_credential := credential;
                 sn_next_check_at := next; sn_dirty := false;
                 sn_owner_subject := if active then sn_owner_subject c else owner_subject |}
  end.

(** The runs of a connection that is switched off. *)
Definition stop_run (now : Z) (r : SyncRun) : SyncRun :=
  if bool_decide (rn_state r = Queued) then set_stop Canceled (Some now) r else set_stop Stopping (rn_finished_at r) r.

Definition stop_runs (now : Z) (repository connection : N) : store -> store :=
  set_runs (update_where (fun _ r => (rn_repository r =? repository)%N && (rn_connection r =? connection)%N && active (rn_state r)) (stop_run now)).

Definition record_save (operation repository connection : N) (access : Access) (fingerprint : str) (v : Connection) : store -> store :=
  set_operations (insert operation {| so_connection := connection; so_repository := repository; so_actor := ac_actor access;
                                      so_kind := §"save"; so_fingerprint := fingerprint; so_readback := ReadConnection v |}).

(** The writes of [ConnectionStore::save]. *)
Definition write_connection (now : Z) (repository connection : N) (interval : Z) (owner_subject : option N) (input : Settings)
    (credential : str) (s : store) : result store Error :=
  let old := connection_of repository connection s in
  let active := is_some (active_run connection s) in
  let? t := or_db (put connection (saved_connection now repository interval owner_subject active input credential old) (connections s)) in
  let s := set_connections (fun _ => t) s in
  Ok (if bool_decide (ss_direction input = Disabled) then stop_runs now repository connection s else s).

(** [ConnectionStore::save]: [denied] is a refusal of the guards of the table,
    [in_project] the project of the access. *)
Definition save (now : Z) (denied in_project : bool) (defaults : SyncSchedule) (repository connection operation : N) (owner_subject : option N)
    (access : Access) (input : SaveConnection) (encrypted : option str) (fingerprint : str) (s : store) : tx Connection :=
  if (connection =? 0)%N then Err (Invalid §"Некорректный UUID подключения")
  else
    match operations s !! operation with
    | Some o => let? v := read_connection repository connection access fingerprint o in Ok (v, s)
    | None =>
      let interval := sc_interval_seconds (sd_settings (schedule_state defaults s)) in
      let old := connection_of repository connection s in
      if is_some (connections s !! connection) && is_none old then Err NotFound
      else if negb (si_expected_version input =? match old with Some c => sn_version c | None => 0 end)%Z
      then Err (Conflict §"sync_version_conflict")
      else
        let? credential := kept_credential old (si_settings input) encrypted in
        let? _ := may_change (is_some (active_run connection s)) old (si_settings input) encrypted in
        if denied || negb in_project then Err db
        else
          let? s' := write_connection now repository connection interval owner_subject (si_settings input) credential s in
          let? v := ok_or (connection_view (ac_writable access) connection s') db in
          Ok (v, record_save operation repository connection access fingerprint v s')
    end.

(** ** The schedule policy *)

Record SaveSchedule : Type := { sv_expected_version : Z; sv_settings : SyncSchedule }.

(** The clock of a connection after a change of the period. *)
Definition last_automatic (connection : N) (s : store) : option Z :=
  match select_max rn_created_at (fun _ r => (rn_connection r =? connection)%N && negb (bool_decide (rn_source r = Manual))) (runs s) with
  | Some (_, r) => Some (rn_created_at r)
  | None => None
  end.

Definition rescheduled (eligible : N -> bool) (now interval : Z) (s : store) (id : N) (c : SyncConnection) : SyncConnection :=
  if automatic_connection eligible s id c
  then set_check (sn_dirty c) (Some (match last_automatic id s with Some t => t + seconds interval | None => now end))%Z c
  else c.

(** [save_schedule]: [administrator] is the role read under the lock. *)
Definition save_schedule (eligible : N -> bool) (administrator : bool) (now : Z) (defaults : SyncSchedule)
    (operation : N) (access : Access) (input : SaveSchedule) (s : store) : tx ScheduleState :=
  if negb (can_manage_schedule access) then Err Forbidden
  else
    match Schedule_validate (sv_settings input) with
    | Err m => Err (Invalid m)
    | Ok _ =>
      if negb administrator then Err Forbidden
      else
        match policies s !! operation with
        | Some p =>
          if negb (bool_decide (Some (po_version p) = checked_add i64_max (sv_expected_version input) 1))
             || negb (sc_interval_seconds (po_settings p) =? sc_interval_seconds (sv_settings input))%Z
             || negb (Bool.eqb (sc_on_change (po_settings p)) (sc_on_change (sv_settings input)))
             || negb (bool_decide (po_actor p = Some (ac_actor access)))
          then Err (Conflict §"idempotency_conflict")
          else Ok ({| sd_version := po_version p; sd_settings := sv_settings input |}, s)
        | None =>
          let current := schedule_state defaults s in
          if negb (sd_version current =? sv_expected_version input)%Z then Err (Conflict §"sync_schedule_version_conflict")
          else
            let? version := ok_or (checked_add i64_max (sd_version current) 1) (Conflict §"sync_schedule_version_exhausted") in
            let s1 := set_policies (insert operation {| po_version := version; po_settings := sv_settings input; po_actor := Some (ac_actor access) |}) s in
            Ok ({| sd_version := version; sd_settings := sv_settings input |},
                set_connections (map_imap (fun id c => Some (rescheduled eligible now (sc_interval_seconds (sv_settings input)) s1 id c))) s1)
        end
    end.
