(* ===== verification/SyncGit.v ===== *)
(** * Programs of the synchronisation worker, and its Git session

    [backend/infra/src/sync_git.rs] and [repository_sync_worker.rs].  The
    worker is a program in a small monad [io]: a tree of calls to the
    database, to Git and to the locks around them, each with a continuation
    for its answer.  What the calls do is in [SyncSystem].  A Git process may
    fail in any way, also because its worker was canceled. *)
From S2P Require Import Prelude Programs Table RepositorySync SyncStore.

(** ** Calls

    [InitScratch] to [PushRef] are the Git commands of a session: [git init],
    [ls-remote --heads --tags], [fetch], [merge-base --is-ancestor] and
    [push --force-with-lease]; [remote] chooses between the local repository
    and the provider.  Output that is no UTF-8 is [None]. *)
Inductive op : Type :=
| InitScratch (url : str)
| LsRemote (remote : bool) (branch : option str)
| FetchRefs (remote : bool) (branch : option str)
| MergeBase (old new : str)
| PushRef (remote : bool) (reference : str) (old : option str) (new : str)
| EnterEffect (new_work : bool)
| CatalogLease
| AcquireGuard
| ReserveCapacity
| TakeSlot
| CleanScratch
| LeaseHealthy
| WatchLost
| ReadRunState
| ReadCredential (connection : N)
| ReadRefs
| ReadProtected
| ClaimRun (owner : N)
| RecordPlan (rows : list (str * RefResult))
| AllowedToApply (owner : N) (generation : Z)
| SetRefState (reference : str) (state : ref_status) (reason : option str) (owner : N) (generation : Z)
| FinishRun (owner : N) (generation : Z) (state : run_state) (message : option str).

Definition answer (o : op) : Type :=
  match o with
  | InitScratch _ | FetchRefs _ _ | MergeBase _ _ | PushRef _ _ _ _ => result unit Error
  | LsRemote _ _ => result (option str) Error
  | EnterEffect _ => bool
  | CatalogLease => result bool Error
  | AcquireGuard | CleanScratch => result unit Error
  | ReserveCapacity | TakeSlot => result bool Error
  | LeaseHealthy | WatchLost => bool
  | ReadRunState => result (run_state * bool) Error
  | ReadCredential _ => result (option str) Error
  | ReadRefs => result (list (str * RefResult)) Error
  | ReadProtected => result (list str) Error
  | ClaimRun _ => result (option (SyncRun * Z)) Error
  | RecordPlan _ | SetRefState _ _ _ _ _ | FinishRun _ _ _ _ => result unit Error
  | AllowedToApply _ _ => result bool Error
  end.

(** Programs of these calls; [call] of one of them. *)
Abbreviation io := (Programs.io answer).
Abbreviation call := (Programs.call (answer := answer)).

(** ** Git sessions *)

(** [scope]: the branch and the direction of the settings. *)
Record GitSession : Type := { gs_scope : option (str * Direction) }.

Definition new_session (settings : Settings) : GitSession :=
  {| gs_scope := branch ← ss_branch settings; Some (branch, ss_direction settings) |}.

Definition bad_refs : Error := Unavailable §"Некорректные Git refs".

Definition is_object_id (sha : str) : bool :=
  ((len sha =? 40)%Z || (len sha =? 64)%Z) && forallb is_ascii_hexdigit (bytes sha).

Definition head_of (branch : str) : str := §"refs/heads/" ++ branch.

(** [self.scope.is_none_or(|(branch, _)| name == "refs/heads/{branch}")] *)
Definition in_scope (s : GitSession) (name : str) : bool :=
  match gs_scope s with Some (branch, _) => str_eqb name (head_of branch) | None => true end.

(** One line of [git ls-remote]. *)
Definition parse_ref (s : GitSession) (acc : gmap str str) (line : str) : result (gmap str str) Error :=
  match split_once [9%N] line with
  | None => Err bad_refs
  | Some (sha, name) =>
    if ends_with §"^{}" name then Ok acc
    else if negb (starts_with §"refs/heads/" name || starts_with §"refs/tags/" name) || negb (is_object_id sha) then Err bad_refs
    else Ok (if in_scope s name then <[name := sha]> acc else acc)
  end.

(** [text.lines()] *)
Definition strip_cr (l : str) : str := if ends_with [13%N] l then removelast l else l.
Definition lines (s : str) : list str :=
  match rev (split 10%N s) with
  | [] => []
  | last :: r => map strip_cr (rev r) ++ (if is_empty last then [] else [last])
  end.

(** [GitSession::refs] *)
Definition parse_refs (s : GitSession) (raw : option str) : result (gmap str str) Error :=
  match raw with
  | None => Err bad_refs
  | Some text => rfold (parse_ref s) ∅ (lines text)
  end.

Definition scope_branch (s : GitSession) : option str := fst <$> gs_scope s.

Definition git_refs (s : GitSession) (remote : bool) : io (result (gmap str str) Error) :=
  run? raw := call (LsRemote remote (scope_branch s)) in
  Done (parse_refs s raw).

(** [GitSession::fetch] of one side; an absent destination is a first
    publication, an absent source an error. *)
Definition source_side (d : Direction) (remote : bool) : bool :=
  match d, remote with Pull, true | Push, false => true | _, _ => false end.

Definition fetch_side (s : GitSession) (remote : bool) : io (result unit Error) :=
  match gs_scope s with
  | None => call (FetchRefs remote None)
  | Some (branch, direction) =>
    run? refs := git_refs s remote in
    if bool_decide (refs = ∅) then
      Done (if source_side direction remote then Err (Conflict §"source_branch_missing") else Ok tt)
    else call (FetchRefs remote (Some branch))
  end.

Definition git_fetch (s : GitSession) : io (result unit Error) :=
  run? _ := fetch_side s false in
  fetch_side s true.

(** [GitSession::ancestor] *)
Definition git_ancestor (old new : str) : io bool :=
  run! r := call (MergeBase old new) in
  Done (is_ok r).

Definition is_tag (name : str) : bool := starts_with §"refs/tags/" name.

(** [GitSession::apply]: ancestry, then the push with the expected object. *)
Definition check_ancestry (reference : str) (old : option str) (new : str) : io bool :=
  match old with
  | None => Done true
  | Some old => if is_tag reference then Done false else git_ancestor old new
  end.

Definition git_apply (s : GitSession) (remote : bool) (reference : str) (old : option str) (new : str) : io (result unit Error) :=
  if negb (in_scope s reference) then Done (Err (Conflict §"ref_outside_sync_scope"))
  else
    run? actual := git_refs s remote in
    if negb (bool_decide (actual !! reference = old)) then Done (Err (Conflict §"destination_changed"))
    else
      run! forward := check_ancestry reference old new in
      if forward then call (PushRef remote reference old new) else Done (Err (Conflict §"non_fast_forward")).
