(* ===== verification/SyncWorker.v ===== *)
(** * The worker of repository synchronisation

    [backend/src/repository_sync_worker.rs]: the plan of a run, the loop over
    its references and the execution of one candidate, as programs. *)
From S2P Require Import Prelude Programs Table Url RepositorySync SyncStore SyncGit.

(** ** The plan *)

Definition short_branch (name : str) : option str := strip_prefix §"refs/heads/" name.

(** [name.strip_prefix("refs/heads/").is_some_and(..)] *)
Definition is_protected (protected : list str) (name : str) : bool :=
  match short_branch name with Some branch => bool_decide (branch ∈ protected) | None => false end.

(** [b] for [None], else [a]: [a.or(b)]. *)
Definition opt_or {A} (a b : option A) : option A := match a with Some _ => a | None => b end.

(** The row of a plan; the time of the event is set when it is stored. *)
Definition planned_row (plan : RefPlan) (a b : option str) : RefResult :=
  let row direction old new state reason := {|
    rf_direction := direction; rf_old := old; rf_new := new; rf_state := state; rf_reason := reason;
    rf_event_delivered := negb (bool_decide (direction = RefPull)); rf_event_next_attempt_at := 0 |} in
  match plan with
  | PlanPull => row RefPull a b RefPlanned None
  | PlanPush => row RefPush b a RefPlanned None
  | PlanProtected => row RefPull a b RefBlocked (Some §"protected_branch")
  | PlanConflict => row RefNone a b RefConflict (Some §"history_or_tag_conflict")
  | PlanNoChange => row RefNone a (opt_or a b) RefUnchanged None
  end.

(** Both directions are asked when the two sides differ. *)
Definition ancestry (name : str) (a b : option str) : io (bool * bool) :=
  match a, b with
  | Some a, Some b =>
    if negb (is_tag name) && negb (str_eqb a b) then
      run! x := git_ancestor a b in
      run! y := git_ancestor b a in
      Done (x, y)
    else Done (false, false)
  | _, _ => Done (false, false)
  end.

Definition plan_one (settings : Settings) (protected : list str) (local remote : gmap str str) (name : str) : io (str * RefResult) :=
  let a := local !! name in
  let b := remote !! name in
  run! ancestors := ancestry name a b in
  let plan := plan_ref (ss_direction settings) (is_tag name) (is_protected protected name && negb (permits_protected_pull settings))
                a b ancestors.1 ancestors.2 in
  Done (name, planned_row plan a b).

Fixpoint plan_all (settings : Settings) (protected : list str) (local remote : gmap str str) (names : list str) : io (list (str * RefResult)) :=
  match names with
  | [] => Done []
  | name :: names =>
    run! row := plan_one settings protected local remote name in
    run! rows := plan_all settings protected local remote names in
    Done (row :: rows)
  end.

Definition all_names (local remote : gmap str str) : list str := sort_dedup (keys local ++ keys remote).

(** The references of a run: those stored, or a plan that is stored first. *)
Definition plan_refs (settings : Settings) (local remote : gmap str str) (refs : list (str * RefResult))
  : io (result (list (str * RefResult)) Error) :=
  if is_empty refs then
    run? protected := call ReadProtected in
    run! planned := plan_all settings protected local remote (all_names local remote) in
    run? _ := call (RecordPlan planned) in
    call ReadRefs
  else Done (Ok refs).

(** ** One reference *)

Definition settled (f : RefResult) : bool := negb (bool_decide (rf_state f = RefPlanned) || bool_decide (rf_state f = RefUnknown)).

(** What a refused push means when the destination still has the old value. *)
Definition rejection (e : Error) : ref_status * str :=
  match e with
  | Conflict m =>
    if str_eqb m §"destination_changed" || str_eqb m §"non_fast_forward" then (RefConflict, §"destination_changed")
    else (RefFailed, §"provider_rejected_or_source_missing")
  | Unavailable m =>
    if str_eqb m §"git_outcome_unknown" then (RefPlanned, §"safe_retry_after_observation")
    else if str_eqb m §"git_access_denied" then (RefFailed, §"access_denied")
    else if str_eqb m §"git_protected_branch" then (RefBlocked, §"provider_protected_branch")
    else (RefFailed, §"provider_rejected_or_source_missing")
  | _ => (RefFailed, §"provider_rejected_or_source_missing")
  end.

(** What the destination shows after a failed push: the provider can accept a
    push and lose the response. *)
Definition observed (name : str) (old : option str) (wanted : str) (error : Error) (current : result (gmap str str) Error)
  : ref_status * option str :=
  match current with
  | Ok current =>
    if bool_decide (current !! name = Some wanted) then (RefApplied, None)
    else if bool_decide (current !! name = old) then let r := rejection error in (r.1, Some r.2)
    else (RefConflict, Some §"destination_changed")
  | Err _ => (RefUnknown, Some §"outcome_unknown")
  end.

Section run.
Context (session : GitSession) (settings : Settings) (owner : N) (generation : Z) (namespace_writable enabled : bool).

(** [store.ref_state(..)] and the assignment to [reference.state]. *)
Definition record (name : str) (state : ref_status) (reason : option str) : io (result ref_status Error) :=
  run? _ := call (SetRefState name state reason owner generation) in
  Done (Ok state).

(** The last steps for a reference that may be written. *)
Definition write_ref (outgoing : bool) (name : str) (old : option str) (wanted : str) : io (result ref_status Error) :=
  run! applied := git_apply session outgoing name old wanted in
  match applied with
  | Ok _ => record name RefApplied None
  | Err error =>
    run! current := git_refs session outgoing in
    let o := observed name old wanted error current in
    record name o.1 o.2
  end.

Definition still_permitted (outgoing : bool) (name : str) : io (result bool Error) :=
  if outgoing then Done (Ok true)
  else
    run? protected := call ReadProtected in
    Done (Ok (negb (is_protected protected name && negb (permits_protected_pull settings)))).

Definition may_apply : io (result bool Error) :=
  if negb namespace_writable || negb enabled then Done (Ok false) else call (AllowedToApply owner generation).

(** The body of the loop of [execute_claimed]. *)
Definition process_ref (name : str) (f : RefResult) : io (result ref_status Error) :=
  if settled f then Done (Ok (rf_state f))
  else
    let outgoing := bool_decide (rf_direction f = RefPush) in
    run? current := git_refs session outgoing in
    match rf_new f with
    | None => Done (Err (Unavailable §"Некорректное Git intent"))
    | Some wanted =>
      if bool_decide (current !! name = Some wanted) then record name RefApplied None
      else if negb (bool_decide (current !! name = rf_old f)) then record name RefConflict (Some §"destination_changed")
      else
        run? allowed := may_apply in
        if negb allowed then record name RefCanceled (Some §"sync_stopped")
        else
          run? permitted := still_permitted outgoing name in
          if negb permitted then record name RefBlocked (Some §"protected_branch")
          else write_ref outgoing name (rf_old f) wanted
    end.

Fixpoint process_refs (rows : list (str * RefResult)) : io (result (list ref_status) Error) :=
  match rows with
  | [] => Done (Ok [])
  | row :: rows =>
    run? state := process_ref row.1 row.2 in
    run? states := process_refs rows in
    Done (Ok (state :: states))
  end.
End run.

(** ** The outcome *)

Definition any_state (states : list ref_status) (p : ref_status -> bool) : bool := existsb p states.

Definition final_state (cancel_requested : bool) (states : list ref_status) : run_state :=
  let applied := any_state states (fun s => bool_decide (s = RefApplied)) in
  let blocked := any_state states (fun s => bool_decide (s = RefConflict) || bool_decide (s = RefBlocked)) in
  let failed := any_state states (fun s => bool_decide (s = RefFailed)) in
  let canceled := any_state states (fun s => bool_decide (s = RefCanceled)) || cancel_requested in
  if any_state states (fun s => bool_decide (s = RefUnknown) || bool_decide (s = RefPlanned)) then Reconciling
  else if applied && (blocked || canceled || failed) then Partial
  else if blocked then Conflicting
  else if failed then Failed
  else if canceled then Canceled
  else Success.

Section execute.
Context `{UrlCrate} (open : str -> result str Error) (origins : list str) (enabled : bool).

(** [execute_claimed] *)
Definition execute_claimed (run : SyncRun) (owner : N) (generation : Z) (namespace_writable : bool)
  : io (result (run_state * option str) Error) :=
  run? credential := call (ReadCredential (rn_connection run)) in
  match credential with
  | None => Done (Err NotFound)
  | Some encrypted =>
    match open encrypted with
    | Err e => Done (Err e)
    | Ok _ =>
      match Settings_validate (rn_settings run) origins with
      | (_, Err m) => Done (Err (Invalid m))
      | (settings, Ok _) =>
        let session := new_session settings in
        run? _ := call (InitScratch (Settings_url settings)) in
        run? local := git_refs session false in
        run? remote := git_refs session true in
        run? refs := call ReadRefs in
        run? _ := git_fetch session in
        run? refs := plan_refs (rn_settings run) local remote refs in
        run? states := process_refs session (rn_settings run) owner generation namespace_writable enabled refs in
        Done (Ok (final_state (rn_cancel_requested run) states, None))
      end
    end
  end.

(** [error.to_string()] *)
Definition error_text (e : Error) : str :=
  match e with
  | Invalid m | Conflict m | Unavailable m => m
  | NotFound => §"Ресурс не найден"
  | Forbidden => §"Недостаточно прав"
  end.

(** The final write of [execute]. *)
Definition conclude (owner : N) (generation : Z) (outcome : result (run_state * option str) Error) : io (result unit Error) :=
  match outcome with
  | Ok (state, message) => call (FinishRun owner generation state message)
  | Err error =>
    run? refs := call ReadRefs in
    if existsb (fun row => negb (settled row.2)) refs
    then call (FinishRun owner generation Reconciling (Some (error_text error)))
    else
      run? row := call ReadRunState in
      call (FinishRun owner generation (if row.2 : bool then Canceled else Failed) (Some (error_text error)))
  end.

(** The execution under a namespace lease, which is watched. *)
Definition execute_leased (lease : bool) (run : SyncRun) (owner : N) (generation : Z) : io (result (run_state * option str) Error) :=
  run! healthy := (if lease then call LeaseHealthy else Done true) in
  run! outcome := (if healthy then execute_claimed run owner generation lease
                   else Done (Err (Unavailable §"namespace_admission_lost"))) in
  run! watched := (if healthy && lease then call WatchLost else Done (negb healthy)) in
  run! lost := (if watched then Done true else if lease then (run! h := call LeaseHealthy in Done (negb h)) else Done false) in
  Done (if lost then Ok (Reconciling, Some §"namespace_admission_lost") else outcome).

(** [validate_repo_name] ([git_host.rs]) *)
Definition validate_repo_name (input : str) : result str str :=
  let name := trim_end_str §".git" (trim input) in
  if is_empty name || (100 <? len name)%Z then Err §"repository name must be 1-100 characters"
  else if negb (forallb (fun c => is_ascii_alphanumeric c || char_in §"-_." c) name)
  then Err §"repository name allows only letters, digits, '-', '_', '.'"
  else if starts_with §"." name || contains §".." name then Err §"repository name must not start with '.' or contain '..'"
  else Ok name.

(** [execute] up to the claim: [None] when there is nothing to do now, else
    whether a namespace lease is held. *)
Definition acquire (storage : str) : io (result (option bool) Error) :=
  run? row := call ReadRunState in
  run! effect := call (EnterEffect (bool_decide (row.1 = Queued))) in
  if negb effect then Done (Ok None)
  else
    match validate_repo_name storage with
    | Err m => Done (Err (Invalid m))
    | Ok _ =>
      run? lease := call CatalogLease in
      run? paused := (if lease : bool then Done (Ok false)
                      else run? row := call ReadRunState in Done (Ok (bool_decide (row.1 = Queued)))) in
      if paused : bool then Done (Ok None)
      else
        run? _ := call AcquireGuard in
        run? capacity := call ReserveCapacity in
        if negb capacity then Done (Ok None)
        else
          run? slot := call TakeSlot in
          if negb slot then Done (Ok None)
          else
            run? _ := call CleanScratch in
            Done (Ok (Some lease))
    end.

(** [execute] *)
Definition execute (storage : str) (owner : N) : io (result unit Error) :=
  run? acquired := acquire storage in
  match acquired with
  | None => Done (Ok tt)
  | Some lease =>
    run? c := call (ClaimRun owner) in
    match c with
    | None => Done (Ok tt)
    | Some (run, generation) =>
      run! outcome := execute_leased lease run owner generation in
      conclude owner generation outcome
    end
  end.
End execute.
