(* ===== verification/SyncSafety.v ===== *)
(** * The synchronisation journal under interleaving workers

    Workers are programs of [SyncWorker]; they interleave call by call with
    each other, with the handlers of the journal, with their heartbeats and
    with everybody else who changes a repository, and stop at any point.  Next
    to its program a worker carries a [ghost]: what the answers so far have
    told it.  [wp] says that every call of a program is justified by it. *)
From S2P Require Import Prelude Programs Table Url RepositorySync SyncStore SyncGit SyncWorker.

(** ** Justified programs *)

Record ghost : Type := {
  gh_owner : N;
  gh_claim : option (SyncRun * Z);
  gh_url : str;
  gh_forward : list (str * str);
  gh_rows : list (str * RefResult);
  gh_done : list str;
  gh_allowed : bool;
  gh_finished : bool }.

Definition new_ghost (owner : N) : ghost := {|
  gh_owner := owner; gh_claim := None; gh_url := []; gh_forward := []; gh_rows := []; gh_done := []; gh_allowed := false;
  gh_finished := false |}.

Definition know_claim (c : SyncRun * Z) (g : ghost) : ghost := {|
  gh_owner := gh_owner g; gh_claim := Some c; gh_url := gh_url g; gh_forward := gh_forward g; gh_rows := []; gh_done := [];
  gh_allowed := false; gh_finished := false |}.
Definition know_url (u : str) (g : ghost) : ghost := {|
  gh_owner := gh_owner g; gh_claim := gh_claim g; gh_url := u; gh_forward := gh_forward g; gh_rows := gh_rows g; gh_done := gh_done g;
  gh_allowed := gh_allowed g; gh_finished := gh_finished g |}.
Definition know_forward (p : str * str) (g : ghost) : ghost := {|
  gh_owner := gh_owner g; gh_claim := gh_claim g; gh_url := gh_url g; gh_forward := p :: gh_forward g; gh_rows := gh_rows g;
  gh_done := gh_done g; gh_allowed := gh_allowed g; gh_finished := gh_finished g |}.
Definition know_rows (l : list (str * RefResult)) (g : ghost) : ghost := {|
  gh_owner := gh_owner g; gh_claim := gh_claim g; gh_url := gh_url g; gh_forward := gh_forward g; gh_rows := l; gh_done := [];
  gh_allowed := false; gh_finished := gh_finished g |}.
Definition know_allowed (b : bool) (g : ghost) : ghost := {|
  gh_owner := gh_owner g; gh_claim := gh_claim g; gh_url := gh_url g; gh_forward := gh_forward g; gh_rows := gh_rows g;
  gh_done := gh_done g; gh_allowed := b; gh_finished := gh_finished g |}.
Definition know_done (name : str) (g : ghost) : ghost := {|
  gh_owner := gh_owner g; gh_claim := gh_claim g; gh_url := gh_url g; gh_forward := gh_forward g; gh_rows := gh_rows g;
  gh_done := name :: gh_done g; gh_allowed := false; gh_finished := gh_finished g |}.
Definition know_finished (g : ghost) : ghost := {|
  gh_owner := gh_owner g; gh_claim := gh_claim g; gh_url := gh_url g; gh_forward := gh_forward g; gh_rows := gh_rows g;
  gh_done := gh_done g; gh_allowed := gh_allowed g; gh_finished := true |}.

(** What an answer tells. *)
Definition after (o : op) : answer o -> ghost -> ghost :=
  match o return answer o -> ghost -> ghost with
  | InitScratch url => fun _ => know_url url
  | MergeBase old new => fun a g => match a with Ok _ => know_forward (old, new) g | Err _ => g end
  | ReadRefs => fun a g => match a with Ok rows => know_rows rows g | Err _ => g end
  | ClaimRun _ => fun a g => match a with Ok (Some c) => know_claim c g | _ => g end
  | AllowedToApply _ _ => fun a g => know_allowed (match a with Ok b => b | Err _ => false end) g
  | SetRefState name _ _ _ _ => fun _ => know_done name
  | FinishRun _ _ _ _ => fun _ => know_finished
  | _ => fun _ g => g
  end.

(** A reference moves in a permitted direction; if it exists it is no tag and
    moves forward. *)
Definition pulls (d : Direction) : bool := match d with Pull | Both => true | _ => false end.
Definition pushes (d : Direction) : bool := match d with Push | Both => true | _ => false end.

Definition moves (forward : str -> str -> Prop) (name : str) (old new : option str) : Prop :=
  exists wanted, new = Some wanted /\ forall o, old = Some o -> is_tag name = false /\ forward o wanted.

Definition row_ok (settings : Settings) (forward : str -> str -> Prop) (name : str) (f : RefResult) : Prop :=
  match rf_direction f with
  | RefPull => pulls (ss_direction settings) = true /\ moves forward name (rf_old f) (rf_new f)
  | RefPush => pushes (ss_direction settings) = true /\ moves forward name (rf_old f) (rf_new f)
  | RefNone => settled f = true
  end.

Definition knows_forward (g : ghost) (o n : str) : Prop := (o, n) ∈ gh_forward g.

(** The states with which an execution ends. *)
Definition outcome_state (s : run_state) : bool := match s with Queued | Running | Stopping => false | _ => true end.

(** When a call is justified. *)
Definition may_call (o : op) (g : ghost) : Prop :=
  match o with
  | ClaimRun owner => owner = gh_owner g /\ gh_claim g = None
  | ReadRefs => gh_claim g <> None
  | RecordPlan rows =>
    exists run generation, gh_claim g = Some (run, generation) /\ gh_finished g = false /\
      forall name f, (name, f) ∈ rows -> row_ok (rn_settings run) (knows_forward g) name f
  | AllowedToApply owner generation => owner = gh_owner g /\ exists run, gh_claim g = Some (run, generation)
  | PushRef remote name old new =>
    exists run generation f, gh_claim g = Some (run, generation) /\ gh_finished g = false /\ gh_allowed g = true /\
      (name, f) ∈ gh_rows g /\ settled f = false /\ name ∉ gh_done g /\
      remote = bool_decide (rf_direction f = RefPush) /\ rf_old f = old /\ rf_new f = Some new /\
      forall o, old = Some o -> is_tag name = false /\ knows_forward g o new
  | SetRefState name _ _ owner generation =>
    owner = gh_owner g /\ exists run f, gh_claim g = Some (run, generation) /\ gh_finished g = false /\
      (name, f) ∈ gh_rows g /\ settled f = false /\ name ∉ gh_done g
  | FinishRun owner generation state _ =>
    owner = gh_owner g /\ gh_finished g = false /\ outcome_state state = true /\ exists run, gh_claim g = Some (run, generation)
  | _ => True
  end.

(** The references of a run have different names. *)
Definition may_answer (o : op) : answer o -> Prop :=
  match o return answer o -> Prop with
  | ReadRefs => fun a => match a with Ok rows => NoDup (map fst rows) | Err _ => True end
  | _ => fun _ => True
  end.

Abbreviation wp := (Programs.wp may_call may_answer after).

Ltac wp_call := match goal with |- Programs.wp _ _ _ (Programs.call ?o) ?Q ?g => apply (Programs.wp_call may_call may_answer after o Q g) end.

(** What the calls of a Git session leave of the ghost: it may only learn
    about more ancestors. *)
Record same (g g' : ghost) : Prop := {
  sa_owner : gh_owner g' = gh_owner g;
  sa_claim : gh_claim g' = gh_claim g;
  sa_rows : gh_rows g' = gh_rows g;
  sa_done : gh_done g' = gh_done g;
  sa_allowed : gh_allowed g' = gh_allowed g;
  sa_finished : gh_finished g' = gh_finished g;
  sa_forward : forall p, p ∈ gh_forward g -> p ∈ gh_forward g' }.

#[export] Instance same_po : PreOrder same.
Proof.
  split; [intros g; by split|]. intros g1 g2 g3 [] []. split; try congruence. eauto.
Qed.

Lemma same_forward x g : same g (know_forward x g).
Proof. split; try done. cbn. intros p Hp. by right. Qed.
Lemma same_url u g : same g (know_url u g).
Proof. by split. Qed.
Create HintDb sync.
#[export] Hint Resolve same_forward same_url : sync.
#[export] Hint Extern 1 (same ?g ?g) => reflexivity : sync.

Lemma wp_git_refs s remote Q g : (forall r, Q r g) -> wp (git_refs s remote) Q g.
Proof. intros HQ. apply wp_try; wp_call; [done|]. intros [a|e] _; apply HQ. Qed.

Lemma wp_git_fetch s Q g : (forall r, Q r g) -> wp (git_fetch s) Q g.
Proof.
  intros HQ. assert (Hs : forall remote R, (forall r, R r g) -> wp (fetch_side s remote) R g).
  { intros remote R HR. unfold fetch_side. destruct (gs_scope s) as [[b d]|]; [|by wp_call; auto].
    apply wp_try, wp_git_refs. intros [refs|e]; [|apply HR]. case_bool_decide; [apply HR|by wp_call; auto]. }
  apply wp_try, Hs. intros [u|e]; [by apply Hs|apply HQ].
Qed.

Lemma wp_git_ancestor old new Q g :
  Q true (know_forward (old, new) g) -> Q false g -> wp (git_ancestor old new) Q g.
Proof. intros Ht Hf. apply wp_bind; wp_call; [done|]. by intros [u|e] _. Qed.

(** [git_apply] pushes what was found to move forward. *)
Lemma wp_git_apply s remote name old new Q g :
  (forall g', same g g' -> (forall o, old = Some o -> is_tag name = false /\ knows_forward g' o new) ->
              may_call (PushRef remote name old new) g') ->
  (forall r g', same g g' -> Q r g') -> wp (git_apply s remote name old new) Q g.
Proof.
  intros Hp HQ. unfold git_apply. destruct (negb (in_scope s name)); [apply HQ; reflexivity|].
  apply wp_try, wp_git_refs. intros [actual|e]; [|apply HQ; reflexivity].
  destruct (negb (bool_decide (actual !! name = old))); [apply HQ; reflexivity|]. apply wp_bind.
  assert (Hpush : forall g', same g g' -> (forall o, old = Some o -> is_tag name = false /\ knows_forward g' o new) ->
                    wp (call (PushRef remote name old new)) Q g').
  { intros g' Hs Hf. wp_call; [by apply Hp|]. intros r _. by apply HQ. }
  unfold check_ancestry. destruct old as [o|].
  - destruct (is_tag name) eqn:Et; [apply HQ; reflexivity|].
    apply wp_git_ancestor; [|apply HQ; reflexivity]. apply Hpush; [auto with sync|].
    intros ? [= <-]. split; [done|]. left.
  - by apply Hpush; [reflexivity|].
Qed.

(** *** The plan *)

Lemma plan_ref_pull d tag protected a b x y :
  plan_ref d tag protected a b x y = PlanPull \/ plan_ref d tag protected a b x y = PlanProtected ->
  pulls d = true /\ exists w, b = Some w /\ (is_Some a -> tag = false /\ x = true).
Proof.
  unfold plan_ref. destruct (bool_decide (d = Disabled) || _); [by intros [?|?]|].
  intros H. destruct d, a, b, tag, x, y, protected; cbn in *; destruct H; try done; split; try done;
    eexists; (split; [done|]); try done; by intros [? ?].
Qed.

Lemma plan_ref_push d tag protected a b x y :
  plan_ref d tag protected a b x y = PlanPush ->
  pushes d = true /\ exists w, a = Some w /\ (is_Some b -> tag = false /\ y = true).
Proof.
  unfold plan_ref. destruct (bool_decide (d = Disabled) || _); [done|].
  intros H. destruct d, a, b, tag, x, y, protected; cbn in *; try done; split; try done;
    eexists; (split; [done|]); try done; by intros [? ?].
Qed.

Lemma row_ok_mono settings (F G : str -> str -> Prop) name f :
  (forall o n, F o n -> G o n) -> row_ok settings F name f -> row_ok settings G name f.
Proof.
  intros HFG. assert (Hm : forall old new, moves F name old new -> moves G name old new).
  { intros old new (w & -> & Hw). exists w. split; [done|]. intros o Ho. destruct (Hw o Ho). eauto. }
  unfold row_ok. destruct (rf_direction f); [intros [? ?]; eauto..|done].
Qed.

Lemma planned_row_ok settings protected name a b x y (F : str -> str -> Prop) :
  (forall o w, a = Some o -> b = Some w -> (x = true -> F o w) /\ (y = true -> F w o)) ->
  row_ok settings F name (planned_row (plan_ref (ss_direction settings) (is_tag name) protected a b x y) a b).
Proof.
  intros HF. destruct (plan_ref _ _ _ _ _ _ _) eqn:E; unfold row_ok; cbn; try done.
  - destruct (plan_ref_pull _ _ _ _ _ _ _ (or_introl E)) as (Hd & w & -> & Ha). split; [done|]. exists w. split; [done|].
    intros o ->. destruct (Ha ltac:(done)) as [? ->]. split; [done|]. by apply (HF o w).
  - destruct (plan_ref_push _ _ _ _ _ _ _ E) as (Hd & w & -> & Ha). split; [done|]. exists w. split; [done|].
    intros o ->. destruct (Ha ltac:(done)) as [? ->]. split; [done|]. by apply (HF w o).
  - destruct (plan_ref_pull _ _ _ _ _ _ _ (or_intror E)) as (Hd & w & -> & Ha). split; [done|]. exists w. split; [done|].
    intros o ->. destruct (Ha ltac:(done)) as [? ->]. split; [done|]. by apply (HF o w).
Qed.

Lemma wp_ancestry name a b (Q : bool * bool -> ghost -> Prop) g :
  (forall xy g', same g g' ->
     (forall o w, a = Some o -> b = Some w -> (xy.1 = true -> knows_forward g' o w) /\ (xy.2 = true -> knows_forward g' w o)) -> Q xy g') ->
  wp (ancestry name a b) Q g.
Proof.
  intros HQ. unfold ancestry. destruct a as [a|], b as [b|]; try (apply HQ; [reflexivity|by intros]).
  destruct (negb (is_tag name) && negb (str_eqb a b)); [|apply HQ; [reflexivity|by intros]].
  apply wp_bind, wp_git_ancestor; apply wp_bind, wp_git_ancestor; apply HQ; auto with sync;
    try (etransitivity; [apply same_forward|apply same_forward]);
    intros o w [= <-] [= <-]; split; intros; try done; unfold knows_forward; cbn; set_solver.
Qed.

Lemma wp_plan_all settings protected local remote names (Q : list (str * RefResult) -> ghost -> Prop) g :
  (forall rows g', same g g' -> (forall n f, (n, f) ∈ rows -> row_ok settings (knows_forward g') n f) -> Q rows g') ->
  wp (plan_all settings protected local remote names) Q g.
Proof.
  revert g Q. induction names as [|name names IH]; intros g Q HQ; cbn [plan_all].
  { apply HQ; [reflexivity|]. intros n f Hn. by apply elem_of_nil in Hn. }
  apply wp_bind, wp_bind, wp_ancestry. intros xy g1 Hs1 Hxy. cbn [wp]. apply wp_bind, IH. intros rows g2 Hs2 Hrows.
  cbn [wp]. apply HQ; [by etransitivity|]. intros n f [[= -> ->]|Hin]%elem_of_cons; [|by apply Hrows].
  eapply row_ok_mono; [|apply planned_row_ok, Hxy]. intros o w Ho. by apply (sa_forward _ _ Hs2).
Qed.

(** What the program knows after its claim. *)
Definition claimed_by (run : SyncRun) (generation : Z) (g : ghost) : Prop :=
  gh_claim g = Some (run, generation) /\ gh_finished g = false.

Lemma claimed_same run generation g g' : same g g' -> claimed_by run generation g -> claimed_by run generation g'.
Proof. intros Hs [H1 H2]. split; [by rewrite (sa_claim _ _ Hs)|by rewrite (sa_finished _ _ Hs)]. Qed.

Lemma wp_read_refs run generation g (Q : answer ReadRefs -> ghost -> Prop) : claimed_by run generation g ->
  (forall e, Q (Err e) g) -> (forall rows, NoDup (map fst rows) -> Q (Ok rows) (know_rows rows g)) -> wp (call ReadRefs) Q g.
Proof.
  intros [Hc Hf] He Hr. wp_call; [cbn; by rewrite Hc|]. intros [rows|e]; [apply Hr|intros _; apply He].
Qed.

Lemma wp_plan_refs run generation local remote refs g (Q : result (list (str * RefResult)) Error -> ghost -> Prop) :
  claimed_by run generation g -> gh_rows g = refs -> NoDup (map fst refs) -> gh_done g = [] ->
  (forall e g', claimed_by run generation g' -> gh_owner g' = gh_owner g -> Q (Err e) g') ->
  (forall rows g', claimed_by run generation g' -> gh_owner g' = gh_owner g -> gh_rows g' = rows -> NoDup (map fst rows) -> gh_done g' = [] -> Q (Ok rows) g') ->
  wp (plan_refs (rn_settings run) local remote refs) Q g.
Proof.
  intros Hc Hr Hnd Hd He HQ. unfold plan_refs. destruct (is_empty refs); [|by apply HQ].
  apply wp_try; wp_call; [done|]. intros [protected|e] _; [|by apply He]. cbn [after].
  apply wp_bind, wp_plan_all. intros rows g1 Hs Hok. apply wp_try. pose proof (claimed_same _ _ _ _ Hs Hc) as [Hc1 Hf1].
  wp_call; [by exists run, generation|]. cbn [after]. intros [u|e] _; [|apply He; [done|apply (sa_owner _ _ Hs)]].
  apply (wp_read_refs run generation); [done|intros e; apply He; [done|apply (sa_owner _ _ Hs)]|].
  intros rows' Hnd'. apply HQ; try done. apply (sa_owner _ _ Hs).
Qed.

(** *** The references of a run *)

(** What a worker knows while it works on its rows. *)
Record working (run : SyncRun) (generation : Z) (rows : list (str * RefResult)) (names : list str) (g : ghost) : Prop := {
  wk_claimed : claimed_by run generation g;
  wk_rows : gh_rows g = rows;
  wk_names : forall n, n ∈ gh_done g -> n ∈ names }.

Lemma working_same run generation rows names g g' : same g g' -> working run generation rows names g -> working run generation rows names g'.
Proof.
  intros Hs [H1 H2 H3]. split; [by eapply claimed_same|by rewrite (sa_rows _ _ Hs)|]. intros n. rewrite (sa_done _ _ Hs). apply H3.
Qed.

Lemma working_more run generation rows names name g :
  working run generation rows names g -> working run generation rows (names ++ [name]) g.
Proof. intros [H1 H2 H3]. split; [done|done|]. intros n Hn. apply elem_of_app. left. auto. Qed.

Section one_ref.
Context (session : GitSession) (settings : Settings) (namespace_writable enabled : bool).
Context (run : SyncRun) (generation : Z) (rows : list (str * RefResult)) (names : list str) (owner : N) (name : str) (f : RefResult).
Hypothesis (Hin : (name, f) ∈ rows) (Hunsettled : settled f = false) (Hname : name ∉ names).

Definition after_row (g : ghost) : Prop := gh_owner g = owner /\ working run generation rows (names ++ [name]) g.

Lemma wp_record state reason (Q : result ref_status Error -> ghost -> Prop) g :
  gh_owner g = owner -> working run generation rows names g -> (forall r g', after_row g' -> Q r g') ->
  wp (record owner generation name state reason) Q g.
Proof.
  intros Ho [[Hc Hf] Hr Hn] HQ. apply wp_try. wp_call.
  - split; [done|]. exists run, f. rewrite Hr. split_and!; try done. intros ?%Hn. done.
  - assert (Ha : after_row (know_done name g)).
    { split; [done|]. split; [done|done|]. cbn. intros n [->|?%Hn]%elem_of_cons; set_solver. }
    intros [u|e] _; by apply HQ.
Qed.

Lemma wp_write_ref wanted (Q : result ref_status Error -> ghost -> Prop) g :
  rf_new f = Some wanted -> gh_owner g = owner -> gh_allowed g = true -> working run generation rows names g ->
  (forall r g', after_row g' -> Q r g') ->
  wp (write_ref session owner generation (bool_decide (rf_direction f = RefPush)) name (rf_old f) wanted) Q g.
Proof.
  intros Hnew Ho Ha Hw HQ. apply wp_bind, wp_git_apply.
  - intros g' Hs Hf. pose proof (working_same _ _ _ _ _ _ Hs Hw) as [[Hc' Hf'] Hr' Hn'].
    exists run, generation, f. rewrite Hr', (sa_allowed _ _ Hs). split_and!; try done. intros ?%Hn'. done.
  - intros r g' Hs. pose proof (working_same _ _ _ _ _ _ Hs Hw) as Hw'.
    assert (Ho' : gh_owner g' = owner) by (by rewrite (sa_owner _ _ Hs)).
    destruct r as [u|e]; [by apply wp_record|]. apply wp_bind, wp_git_refs. intros current. by apply wp_record.
Qed.

Lemma wp_still_permitted outgoing (Q : result bool Error -> ghost -> Prop) g :
  (forall r, Q r g) -> wp (still_permitted settings outgoing name) Q g.
Proof.
  intros HQ. unfold still_permitted. destruct outgoing; [apply HQ|]. apply wp_try; wp_call; [done|]. intros [p|e] _; apply HQ.
Qed.

Lemma wp_may_apply (Q : result bool Error -> ghost -> Prop) g :
  gh_owner g = owner -> gh_claim g = Some (run, generation) ->
  (forall r g', same (know_allowed false g) (know_allowed false g') -> (r = Ok true -> gh_allowed g' = true) -> Q r g') ->
  wp (may_apply owner generation namespace_writable enabled) Q g.
Proof.
  intros Ho Hc HQ. unfold may_apply. destruct (negb namespace_writable || negb enabled); [by apply HQ|].
  wp_call; [by split; [|exists run]|]. intros [b|e] _; (apply HQ; [reflexivity|by intros [= ->]]).
Qed.

Lemma wp_process_ref (Q : result ref_status Error -> ghost -> Prop) g :
  gh_owner g = owner -> working run generation rows names g -> (forall r g', after_row g' -> Q r g') ->
  wp (process_ref session settings owner generation namespace_writable enabled name f) Q g.
Proof.
  intros Ho Hw HQ. unfold process_ref. rewrite Hunsettled. apply wp_try, wp_git_refs.
  assert (Hdone : forall r g', gh_owner g' = owner -> working run generation rows names g' -> Q r g').
  { intros r g' Ho' Hw'. apply HQ. split; [done|]. by apply working_more. }
  intros [current|e]; [|by apply Hdone].
  destruct (rf_new f) as [wanted|] eqn:Enew; [|by apply Hdone].
  case_bool_decide as Hwanted; [by apply wp_record|].
  destruct (negb (bool_decide (current !! name = rf_old f))); [by apply wp_record|].
  apply wp_try, wp_may_apply; [done|apply Hw|]. intros r g1 Hs1 Hallowed.
  assert (Hw1 : working run generation rows names g1 /\ gh_owner g1 = owner).
  { destruct Hs1 as [E1 E2 E3 E4 _ E6 _], Hw as [[? ?] ? Hn]. cbn in *.
    split; [split; [split; congruence|congruence|rewrite E4; done]|congruence]. }
  destruct Hw1 as [Hw1 Ho1]. destruct r as [allowed|e]; [|by apply Hdone].
  destruct allowed; cbn [negb]; [|by apply wp_record].
  apply wp_try, wp_still_permitted. intros [permitted|e]; [|by apply Hdone].
  destruct permitted; cbn [negb]; [|by apply wp_record]. by apply wp_write_ref; auto.
Qed.
End one_ref.

Lemma wp_process_refs session settings namespace_writable enabled run generation rows owner pre todo
    (Q : result (list ref_status) Error -> ghost -> Prop) g :
  rows = pre ++ todo -> NoDup (map fst rows) -> gh_owner g = owner -> working run generation rows (map fst pre) g ->
  (forall r g', gh_owner g' = owner -> claimed_by run generation g' -> Q r g') ->
  wp (process_refs session settings owner generation namespace_writable enabled todo) Q g.
Proof.
  intros -> Hnd. revert pre Q g Hnd. induction todo as [|[name f] todo IH]; intros pre Q g Hnd Ho Hw HQ; cbn [process_refs].
  { apply HQ; [done|apply Hw]. }
  apply wp_try. cbn [fst snd].
  assert (Hnext : forall r g', after_row run generation (pre ++ (name, f) :: todo) (map fst pre) owner name g' ->
    match r with Ok a => wp (run? states := process_refs session settings owner generation namespace_writable enabled todo in
                             Done (Ok (a :: states))) Q g' | Err e => Q (Err e) g' end).
  { intros [a|e] g' [Ho' Hw']; [|apply HQ; [done|apply Hw']]. apply wp_try.
    apply (IH (pre ++ [(name, f)])); rewrite <- ?app_assoc; cbn [app]; [done|done|by rewrite map_app|].
    intros [states|e] g2 Ho2 Hc2; by apply HQ. }
  destruct (settled f) eqn:Es.
  - unfold process_ref. rewrite Es. apply (Hnext (Ok (rf_state f)) g). split; [done|by apply working_more].
  - apply (wp_process_ref _ _ _ _ run generation (pre ++ (name, f) :: todo) (map fst pre) owner name f); try done.
    + apply elem_of_app. right. left.
    + rewrite map_app in Hnd. apply NoDup_app in Hnd as (_ & Hnd & _). intros Hin. specialize (Hnd _ Hin). cbn in Hnd. set_solver.
Qed.

(** *** The whole execution *)

Section execution.
Context `{UrlCrate} (open : str -> result str Error) (origins : list str) (enabled : bool).

Definition outcome_ok (r : result (run_state * option str) Error) : Prop :=
  forall state message, r = Ok (state, message) -> outcome_state state = true.

(** The end of a part of the program: the claim is kept. *)
Definition concluded (run : SyncRun) (generation : Z) (owner : N) (r : result (run_state * option str) Error) (g : ghost) : Prop :=
  claimed_by run generation g /\ gh_owner g = owner /\ outcome_ok r.

Lemma outcome_err e : outcome_ok (Err e).
Proof. by intros ? ?. Qed.

Lemma final_state_outcome canceled states : outcome_state (final_state canceled states) = true.
Proof. unfold final_state. by repeat case_match. Qed.

Lemma wp_execute_claimed run owner generation writable (Q : result (run_state * option str) Error -> ghost -> Prop) g :
  claimed_by run generation g -> gh_owner g = owner -> (forall r g', concluded run generation owner r g' -> Q r g') ->
  wp (execute_claimed open origins enabled run owner generation writable) Q g.
Proof.
  intros Hc Ho HQ.
  assert (He : forall e g', claimed_by run generation g' -> gh_owner g' = owner -> Q (Err e) g').
  { intros e g' ? ?. apply HQ. split_and!; [done|done|apply outcome_err]. }
  unfold execute_claimed. apply wp_try; wp_call; [done|]. intros [[encrypted|]|e] _; [|by apply He..].
  destruct (open encrypted); [|by apply He]. destruct (Settings_validate (rn_settings run) origins) as [settings [u|m]]; [|by apply He].
  apply wp_try; wp_call; [done|]. cbn [after]. set (g1 := know_url (Settings_url settings) g).
  assert (Hc1 : claimed_by run generation g1) by exact Hc. assert (Ho1 : gh_owner g1 = owner) by exact Ho. clearbody g1.
  intros [v|e] _; [|by apply He].
  apply wp_try, wp_git_refs. intros [local|e]; [|by apply He].
  apply wp_try, wp_git_refs. intros [remote|e]; [|by apply He].
  apply wp_try, (wp_read_refs run generation); [done|intros e; by apply He|]. intros refs Hnd.
  apply wp_try, wp_git_fetch. intros [w|e]; [|by apply He].
  apply wp_try, (wp_plan_refs run generation); try done; [intros e g' ? Ho'; cbn in Ho'; apply He; [done|congruence]|].
  intros rows g2 Hc2 Ho2 Hr2 Hnd2 Hd2. cbn in Ho2. apply wp_try.
  apply (wp_process_refs _ _ _ _ run generation rows owner [] rows); [done|done|congruence| |].
  - split; [done|done|]. rewrite Hd2. intros n Hn. by apply elem_of_nil in Hn.
  - intros [states|e] g3 Ho3 Hc3; [|by apply He]. apply HQ. split_and!; [done|done|].
    intros ? ? [= <- <-]. apply final_state_outcome.
Qed.

Lemma wp_conclude run owner generation outcome (Q : result unit Error -> ghost -> Prop) g :
  concluded run generation owner outcome g -> (forall r g', Q r g') -> wp (conclude owner generation outcome) Q g.
Proof.
  intros (Hc & Ho & Hq) HQ.
  assert (Hfinish : forall state message g', claimed_by run generation g' -> gh_owner g' = owner -> outcome_state state = true ->
    wp (call (FinishRun owner generation state message)) Q g').
  { intros state message g' [Hc' Hf'] Ho' Hne. wp_call; [by split_and!; [| | |exists run]|]. auto. }
  unfold conclude. destruct outcome as [[state message]|e]; [by eapply Hfinish; eauto|].
  apply wp_try, (wp_read_refs run generation); [done|auto|]. intros refs _.
  case_match; [by apply Hfinish|]. apply wp_try; wp_call; [done|]. intros [[st c]|e'] _; [|apply HQ].
  apply Hfinish; [done|done|]. by destruct c.
Qed.

(** The end of [execute_leased]. *)
Definition leased_end (lease healthy : bool) (outcome : result (run_state * option str) Error) : io (result (run_state * option str) Error) :=
  run! watched := (if healthy && lease then call WatchLost else Done (negb healthy)) in
  run! lost := (if watched then Done true else if lease then (run! h := call LeaseHealthy in Done (negb h)) else Done false) in
  Done (if lost then Ok (Reconciling, Some §"namespace_admission_lost") else outcome).

Lemma wp_leased_end lease healthy run owner generation outcome (Q : result (run_state * option str) Error -> ghost -> Prop) g :
  concluded run generation owner outcome g -> (forall r g', concluded run generation owner r g' -> Q r g') ->
  wp (leased_end lease healthy outcome) Q g.
Proof.
  intros (Hc & Ho & Hq) HQ.
  assert (Hend : forall lost : bool, Q (if lost then Ok (Reconciling, Some §"namespace_admission_lost") else outcome) g).
  { intros [|]; apply HQ; split_and!; try done. by intros ? ? [= <- <-]. }
  assert (Hlost : forall watched : bool, wp (run! lost := (if watched then Done true else if lease then
      (run! h := call LeaseHealthy in Done (negb h)) else Done false) in
      Done (if lost then Ok (Reconciling, Some §"namespace_admission_lost") else outcome)) Q g).
  { intros [|]; [apply (Hend true)|]. destruct lease; [|apply (Hend false)]. apply wp_bind, wp_bind. wp_call; [done|].
    intros h _. apply Hend. }
  unfold leased_end. destruct (healthy && lease); [|apply Hlost]. apply wp_bind; wp_call; [done|]. intros watched _. apply Hlost.
Qed.

Lemma wp_execute_leased lease run owner generation (Q : result (run_state * option str) Error -> ghost -> Prop) g :
  claimed_by run generation g -> gh_owner g = owner -> (forall r g', concluded run generation owner r g' -> Q r g') ->
  wp (execute_leased open origins enabled lease run owner generation) Q g.
Proof.
  intros Hc Ho HQ.
  assert (Hgo : forall healthy : bool, wp (run! outcome := (if healthy then execute_claimed open origins enabled run owner generation lease
      else Done (Err (Unavailable §"namespace_admission_lost"))) in leased_end lease healthy outcome) Q g).
  { intros [|]; [|eapply wp_leased_end; [|exact HQ]; split_and!; [done|done|apply outcome_err]].
    apply wp_bind, wp_execute_claimed; [done|done|]. intros r g' Hr. by eapply wp_leased_end. }
  unfold execute_leased. destruct lease; [|apply (Hgo true)]. apply wp_bind; wp_call; [done|]. intros healthy _. apply (Hgo healthy).
Qed.

Lemma wp_acquire storage (Q : result (option bool) Error -> ghost -> Prop) g : (forall r, Q r g) -> wp (acquire storage) Q g.
Proof.
  intros HQ. unfold acquire. apply wp_try; wp_call; [done|]. intros [row|e] _; [|apply HQ].
  apply wp_bind; wp_call; [done|]. intros effect _. destruct effect; cbn [negb]; [|apply HQ].
  destruct (validate_repo_name storage); [|apply HQ].
  apply wp_try; wp_call; [done|]. intros [lease|e] _; [|apply HQ].
  assert (Hrest : forall paused : bool, wp (if paused then Done (Ok None)
      else run? _ := call AcquireGuard in run? capacity := call ReserveCapacity in
        if negb capacity then Done (Ok None)
        else run? slot := call TakeSlot in
          if negb slot then Done (Ok None) else run? _ := call CleanScratch in Done (Ok (Some lease))) Q g).
  { intros [|]; [apply HQ|]. apply wp_try; wp_call; [done|]. intros [u|e] _; [|apply HQ].
    apply wp_try; wp_call; [done|]. intros [[|]|e] _; try apply HQ.
    apply wp_try; wp_call; [done|]. intros [[|]|e] _; try apply HQ.
    apply wp_try; wp_call; [done|]. intros [v|e] _; apply HQ. }
  apply wp_try. destruct lease; [apply (Hrest false)|]. apply wp_try; wp_call; [done|]. intros [row'|e] _; [apply Hrest|apply HQ].
Qed.

(** Every call of [execute] is justified. *)
Lemma wp_execute storage owner : wp (execute open origins enabled storage owner) (fun _ _ => True) (new_ghost owner).
Proof.
  unfold execute. apply wp_try, wp_acquire. intros [[lease|]|e]; [|done..].
  apply wp_try; wp_call; [done|]. intros [[[run generation]|]|e] _; [|done..].
  apply wp_bind, (wp_execute_leased _ run); [done|done|]. intros r g' Hr. by eapply wp_conclude.
Qed.
End execution.
