(* ===== verification/SyncSystem.v ===== *)
(** * Systems of synchronisation workers

    What the calls of a worker do, the other writers of the journal, and the
    invariants every interleaving keeps. *)
From S2P Require Import Prelude Programs Table Url RepositorySync SyncStore SyncGit SyncWorker SyncSafety.

(** ** The environment *)

(** The local repositories by their identifier, the provider's by their URL. *)
Record env : Type := {
  en_clock : Z;
  en_store : store;
  en_local : gmap N (gmap str str);
  en_remote : gmap str (gmap str str) }.

Definition written (now : Z) (s : store) (e : env) : env := {|
  en_clock := now; en_store := s; en_local := en_local e; en_remote := en_remote e |}.

Definition destination (remote : bool) (repository : N) (url : str) (e : env) : gmap str str :=
  if remote then default ∅ (en_remote e !! url) else default ∅ (en_local e !! repository).

Definition set_destination (remote : bool) (repository : N) (url : str) (m : gmap str str) (e : env) : env := {|
  en_clock := en_clock e; en_store := en_store e;
  en_local := if remote then en_local e else <[repository := m]> (en_local e);
  en_remote := if remote then <[url := m]> (en_remote e) else en_remote e |}.

(** What [git ls-remote --heads --tags] prints: a line for each reference, and
    peeled lines for tags. *)
Definition ls_line (entry : str * str) : str := entry.2 ++ [9%N] ++ entry.1 ++ [10%N].

Definition lists (branch : option str) (m : gmap str str) (text : str) : Prop :=
  exists entries, text = concat (map ls_line entries) /\
    (forall n sha, (n, sha) ∈ entries -> ends_with §"^{}" n = true \/
       m !! n = Some sha /\ (starts_with §"refs/heads/" n || starts_with §"refs/tags/" n) = true) /\
    (forall n sha, m !! n = Some sha ->
       match branch with Some b => n = head_of b | None => (starts_with §"refs/heads/" n || starts_with §"refs/tags/" n) = true end ->
       (n, sha) ∈ entries).

(** A transaction of the journal at some later time: it may fail, and its
    answer may be lost after the commit. *)
Inductive committed {A} (e : env) (t : Z -> store -> tx A) : result A Error -> env -> Prop :=
| committed_ok now v s : (en_clock e <= now)%Z -> t now (en_store e) = Ok (v, s) -> committed e t (Ok v) (written now s e)
| committed_lost now v s m : (en_clock e <= now)%Z -> t now (en_store e) = Ok (v, s) -> committed e t (Err m) (written now s e)
| committed_err m : committed e t (Err m) e.

Definition writes (f : Z -> store -> result store Error) (now : Z) (s : store) : tx unit := let? s' := f now s in Ok (tt, s').
Definition reads {A} (f : Z -> store -> result A Error) (now : Z) (s : store) : tx A := let? v := f now s in Ok (v, s).

Section serves.
Context (ancestor : str -> str -> bool).

(** The answers of the calls of a worker for the run [id], whose Git session
    has the provider's [url]. *)
Definition serves (id repository : N) (url : str) (e : env) (o : op) : answer o -> env -> Prop :=
  match o return answer o -> env -> Prop with
  | LsRemote remote branch => fun a e' => e' = e /\ forall text, a = Ok (Some text) -> lists branch (destination remote repository url e) text
  | MergeBase old new => fun a e' => e' = e /\ (a = Ok tt -> ancestor old new = true)
  | PushRef remote name old new => fun a e' =>
      e' = e /\ a <> Ok tt \/
      destination remote repository url e !! name = old /\
      e' = set_destination remote repository url (<[name := new]> (destination remote repository url e)) e
  | ReadRunState => committed e (reads (fun _ s => match runs s !! id with
      | Some r => Ok (rn_state r, rn_cancel_requested r) | None => Err NotFound end))
  | ReadCredential connection => committed e (reads (fun _ s => Ok (sn_credential <$> connection_of repository connection s)))
  | ReadRefs => committed e (reads (fun _ s => Ok (run_refs id s)))
  | ReadProtected => committed e (reads (fun _ s => Ok (match catalog s !! repository with Some r => rp_protected r | None => [] end)))
  | ClaimRun owner => committed e (fun now => claim now id owner)
  | RecordPlan rows => committed e (writes (fun now s => Ok (record_plan now id rows s)))
  | AllowedToApply owner generation => committed e (reads (fun now s => Ok (allowed_to_apply now id owner generation s)))
  | SetRefState name state reason owner generation => committed e (writes (fun now => ref_state now id name state reason owner generation))
  | FinishRun owner generation state message => committed e (writes (fun now => finish now id owner generation state message))
  | _ => fun _ e' => e' = e
  end.
End serves.

(** ** The other writers of the journal *)

Inductive handler (now : Z) (s : store) : store -> Prop :=
| h_enqueue new_id denied repository connection source operation v s' :
    enqueue_at now new_id denied repository connection source operation s = Ok (v, s') -> handler now s s'
| h_signal repository : handler now s (signal repository s)
| h_schedule eligible denied locked new_id defaults s' :
    schedule eligible denied locked now new_id defaults s = Ok s' -> handler now s s'
| h_heartbeat id owner generation v s' : heartbeat now id owner generation s = Ok (v, s') -> handler now s s'
| h_save denied in_project defaults repository connection operation owner_subject access input encrypted fingerprint v s' :
    save now denied in_project defaults repository connection operation owner_subject access input encrypted fingerprint s = Ok (v, s') ->
    handler now s s'
| h_save_schedule eligible administrator defaults operation access input v s' :
    save_schedule eligible administrator now defaults operation access input s = Ok (v, s') -> handler now s s'
| h_event_delivered id name : handler now s (event_delivered id name s)
| h_event_retry id name : handler now s (event_retry now id name s)
| h_event_non_commit_tag id name : handler now s (event_non_commit_tag id name s)
| h_catalog c : handler now s {| connections := connections s; runs := runs s; refs := refs s; operations := operations s;
                                 policies := policies s; catalog := c |}.

(** ** Systems *)

Record worker : Type := { wk_run : N; wk_repository : N; wk_ghost : ghost; wk_program : io (result unit Error) }.
Record system : Type := { sy_env : env; sy_workers : gmap N worker }.

Section system.
Context (ancestor : str -> str -> bool) `{UrlCrate} (open : str -> result str Error) (origins : list str) (enabled : bool).

Inductive step : system -> system -> Prop :=
| step_start i id r storage owner s :
    sy_workers s !! i = None -> runs (en_store (sy_env s)) !! id = Some r ->
    step s {| sy_env := sy_env s;
              sy_workers := <[i := {| wk_run := id; wk_repository := rn_repository r; wk_ghost := new_ghost owner;
                                      wk_program := execute open origins enabled storage owner |}]> (sy_workers s) |}
| step_call i w o k a e s :
    sy_workers s !! i = Some w -> wk_program w = Call o k ->
    serves ancestor (wk_run w) (wk_repository w) (gh_url (wk_ghost w)) (sy_env s) o a e ->
    step s {| sy_env := e;
              sy_workers := <[i := {| wk_run := wk_run w; wk_repository := wk_repository w; wk_ghost := after o a (wk_ghost w);
                                      wk_program := k a |}]> (sy_workers s) |}
| step_stop i s : step s {| sy_env := sy_env s; sy_workers := delete i (sy_workers s) |}
| step_handler now s' s :
    (en_clock (sy_env s) <= now)%Z -> handler now (en_store (sy_env s)) s' ->
    step s {| sy_env := written now s' (sy_env s); sy_workers := sy_workers s |}
| step_elsewhere local remote s :
    step s {| sy_env := {| en_clock := en_clock (sy_env s); en_store := en_store (sy_env s); en_local := local; en_remote := remote |};
              sy_workers := sy_workers s |}.
End system.
