(* ===== verification/SyncJournal.v ===== *)
(** * Invariants of the synchronisation journal

    What every writer of the journal keeps: the well-formedness of its rows
    ([journal]), and what nobody can undo ([evolves]). *)
From S2P Require Import Prelude Programs Table Url RepositorySync SyncStore SyncGit SyncWorker SyncSafety SyncSystem.

(** ** Well-formed rows *)

(** The columns that go with each state. *)
Definition run_wf (r : SyncRun) : Prop :=
  match rn_state r with
  | Queued => rn_owner r = None /\ rn_generation r = 0%Z /\ rn_lease_until r = None /\ rn_started_at r = None /\ rn_finished_at r = None
              /\ rn_cancel_requested r = false
  | Running | Stopping | Reconciling => is_Some (rn_owner r) /\ (1 <= rn_generation r)%Z /\ is_Some (rn_lease_until r) /\ is_Some (rn_started_at r)
              /\ rn_finished_at r = None /\ (rn_state r = Stopping -> rn_cancel_requested r = true)
  | state => is_Some (rn_finished_at r) /\ (is_Some (rn_owner r) /\ (1 <= rn_generation r)%Z
              \/ state = Canceled /\ rn_owner r = None /\ rn_generation r = 0%Z /\ rn_cancel_requested r = true)
  end.

(** A run belongs to a connection of its repository; while it is active and
    not canceled, the connection is still the one it was made for; and it is
    only canceled by switching the connection off. *)
Definition run_connected (s : store) (r : SyncRun) : Prop :=
  exists c, connections s !! rn_connection r = Some c /\ sn_repository c = rn_repository r /\ (rn_connection_version r <= sn_version c)%Z /\
    (active (rn_state r) = true ->
     if rn_cancel_requested r then ss_direction (sn_settings c) = Disabled
     else rn_connection_version r = sn_version c /\ rn_settings r = sn_settings c /\ ss_direction (sn_settings c) <> Disabled).

Section journal.
Context (ancestor : str -> str -> bool).
Definition forwards (o n : str) : Prop := ancestor o n = true.

Record journal (s : store) : Prop := {
  j_connections : valid_table (connections s);
  j_runs : valid_table (runs s);
  j_wf : forall id r, runs s !! id = Some r -> run_wf r /\ run_connected s r;
  j_refs : forall id n f, refs s !! (id, n) = Some f -> exists r, runs s !! id = Some r /\ row_ok (rn_settings r) forwards n f }.
End journal.

(** ** What stays *)

Definition same_run (r r' : SyncRun) : Prop :=
  rn_repository r' = rn_repository r /\ rn_connection r' = rn_connection r /\ rn_connection_version r' = rn_connection_version r /\
  rn_settings r' = rn_settings r.
Definition same_ref (f f' : RefResult) : Prop :=
  rf_direction f' = rf_direction f /\ rf_old f' = rf_old f /\ rf_new f' = rf_new f.

Lemma same_run_trans r1 r2 r3 : same_run r1 r2 -> same_run r2 r3 -> same_run r1 r3.
Proof. unfold same_run. intuition congruence. Qed.
Lemma same_ref_trans f1 f2 f3 : same_ref f1 f2 -> same_ref f2 f3 -> same_ref f1 f3.
Proof. unfold same_ref. intuition congruence. Qed.
Lemma same_run_refl r : same_run r r. Proof. done. Qed.
Lemma same_ref_refl f : same_ref f f. Proof. done. Qed.

(** A run keeps what it was made for, its owner changes only with its
    generation, and its end is final. *)
Record run_evolves (r r' : SyncRun) : Prop := {
  re_same : same_run r r';
  re_generation : (rn_generation r <= rn_generation r')%Z;
  re_owner : rn_generation r' = rn_generation r -> rn_owner r' = rn_owner r;
  re_canceled : rn_cancel_requested r = true -> rn_cancel_requested r' = true;
  re_ended : active (rn_state r) = false -> rn_state r' = rn_state r /\ rn_generation r' = rn_generation r }.

#[export] Instance run_evolves_po : PreOrder run_evolves.
Proof.
  split; [by intros r; split|]. intros r1 r2 r3 [A1 A2 A3 A4 A5] [B1 B2 B3 B4 B5].
  split; [by eapply same_run_trans|lia| |auto|].
  - intros E. rewrite B3, A3 by lia. done.
  - intros E. destruct (A5 E) as [E1 E2]. rewrite <- E1 in E. destruct (B5 E). split; congruence.
Qed.

Record evolves (s s' : store) : Prop := {
  ev_runs : forall id r, runs s !! id = Some r -> exists r', runs s' !! id = Some r' /\ run_evolves r r';
  ev_refs : forall k f, refs s !! k = Some f -> exists f', refs s' !! k = Some f' /\ same_ref f f' }.

#[export] Instance evolves_po : PreOrder evolves.
Proof.
  split.
  - intros s. split; [intros id r Hr; exists r; by split|intros k f Hf; exists f; by split].
  - intros s1 s2 s3 [A1 A2] [B1 B2]. split.
    + intros id r Hr. destruct (A1 id r Hr) as (r2 & H2 & E2), (B1 id r2 H2) as (r3 & H3 & E3). exists r3. split; [done|by etransitivity].
    + intros k f Hf. destruct (A2 k f Hf) as (f2 & H2 & E2), (B2 k f2 H2) as (f3 & H3 & E3). exists f3. split; [done|].
      by eapply same_ref_trans.
Qed.

(** The current owner of a run is not disturbed: as long as the generation
    stays, a run that has not ended stays so and its references keep their
    state. *)
Record undisturbed (id : N) (s s' : store) : Prop := {
  ud_run : forall r r', runs s !! id = Some r -> runs s' !! id = Some r' -> rn_generation r' = rn_generation r ->
    writer (rn_state r) = true -> writer (rn_state r') = true;
  ud_refs : forall n f f', refs s !! (id, n) = Some f -> refs s' !! (id, n) = Some f' -> rf_state f' = rf_state f }.

Definition quiet (s s' : store) : Prop := evolves s s' /\ forall id, undisturbed id s s'.

#[export] Instance quiet_po : PreOrder quiet.
Proof.
  split.
  - intros s. split; [reflexivity|]. intros id. split; [by intros r r' -> [= ->]|by intros n f f' -> [= ->]].
  - intros s1 s2 s3 [A1 A2] [B1 B2]. split; [by etransitivity|]. intros id. destruct (A2 id) as [C1 C2], (B2 id) as [D1 D2]. split.
    + intros r r3 Hr H3 Eg Hw. destruct (ev_runs _ _ A1 id r Hr) as (r2 & H2 & E2), (ev_runs _ _ B1 id r2 H2) as (r3' & H3' & E3).
      assert (r3' = r3) as -> by congruence. pose proof (re_generation _ _ E2). pose proof (re_generation _ _ E3).
      apply (D1 r2 r3 H2 H3); [lia|]. apply (C1 r r2 Hr H2); [lia|done].
    + intros n f f3 Hf H3. destruct (ev_refs _ _ A1 _ f Hf) as (f2 & H2 & _). rewrite (D2 n f2 f3 H2 H3). by apply (C2 n f f2).
Qed.

(** *** Frame rules *)

(** Nothing of runs and references changes. *)
Lemma quiet_frame s s' : runs s' = runs s -> refs s' = refs s -> quiet s s'.
Proof.
  intros Er Ef. split; [split|intros id; split]; rewrite ?Er, ?Ef.
  - intros i r Hr. exists r. by split.
  - intros k f Hf. exists f. by split.
  - by intros r r' -> [= ->].
  - by intros n f f' -> [= ->].
Qed.

Lemma journal_frame ancestor s s' : runs s' = runs s -> refs s' = refs s -> connections s' = connections s -> journal ancestor s -> journal ancestor s'.
Proof.
  intros Er Ef Ec [J1 J2 J3 J4]. split; rewrite ?Er, ?Ef, ?Ec; [done|done| |done].
  intros id r Hr. destruct (J3 id r Hr) as [Hw Hc]. split; [done|]. unfold run_connected in *. by rewrite Ec.
Qed.

(** Runs change one by one. *)
Lemma quiet_runs f s :
  (forall id r, runs s !! id = Some r -> exists r', f (runs s) !! id = Some r' /\ run_evolves r r' /\
     (rn_generation r' = rn_generation r -> writer (rn_state r) = true -> writer (rn_state r') = true)) ->
  quiet s (set_runs f s).
Proof.
  intros Hf. split; [split; cbn|intros id; split; cbn].
  - intros id r Hr. destruct (Hf id r Hr) as (r' & ? & ? & _). eauto.
  - intros k g Hg. exists g. by split.
  - intros r r' Hr Hr' Eg. destruct (Hf id r Hr) as (r2 & ? & ? & Hw). assert (r2 = r') as -> by congruence. auto.
  - by intros n g g' -> [= ->].
Qed.

Lemma quiet_insert_run id r s : runs s !! id = None -> quiet s (set_runs (fun _ => <[id := r]> (runs s)) s).
Proof.
  intros Hid. apply quiet_runs. intros i x Hx. exists x. rewrite lookup_insert_ne by congruence. split_and!; [done|reflexivity|done].
Qed.

Lemma quiet_alter_run f id s :
  (forall r, runs s !! id = Some r -> run_evolves r (f r) /\ (rn_generation (f r) = rn_generation r -> writer (rn_state r) = true -> writer (rn_state (f r)) = true)) ->
  quiet s (set_runs (alter f id) s).
Proof.
  intros Hf. apply quiet_runs. intros i x Hx. destruct (decide (id = i)) as [->|Hne].
  - exists (f x). rewrite lookup_alter_eq, Hx. destruct (Hf x Hx). by split_and!.
  - exists x. rewrite lookup_alter_ne by done. split_and!; [done|reflexivity|done].
Qed.

(** ** The handlers *)

Section handlers.
Context (ancestor : str -> str -> bool).

Lemma or_db_Ok {A} (r : result A db_error) a : or_db r = Ok a -> r = Ok a.
Proof. by destruct r; [intros [= ->]|]. Qed.

Lemma connection_of_Some repository connection s c :
  connection_of repository connection s = Some c <-> connections s !! connection = Some c /\ sn_repository c = repository.
Proof.
  unfold connection_of. destruct (connections s !! connection) as [c'|]; [|split; [done|by intros [? _]]].
  destruct (N.eqb_spec (sn_repository c') repository) as [E|E].
  - split; [by intros [= <-]|intros [[= ->] _]; done].
  - split; [done|]. intros [[= ->] ?]. done.
Qed.

Lemma journal_insert_run now id repository connection c source s t :
  journal ancestor s -> connection_of repository connection s = Some c -> ss_direction (sn_settings c) <> Disabled ->
  insert_row id (new_run now repository connection c source) (runs s) = Ok t ->
  journal ancestor (set_runs (fun _ => t) s) /\ quiet s (set_runs (fun _ => t) s).
Proof.
  intros HJ [Hc Er]%connection_of_Some Hd Ht. destruct HJ as [J1 J2 J3 J4].
  pose proof (insert_row_valid _ _ _ _ J2 Ht) as Hv. apply insert_row_Ok in Ht as (Hid & -> & _ & _).
  split; [|by apply quiet_insert_run]. split; cbn; [done|done| |].
  - intros i x [[<- <-]|[Hne Hx]]%lookup_insert_Some; [|destruct (J3 i x Hx); by split].
    split; [done|]. exists c. cbn. split_and!; [done|done|done|]. intros _. done.
  - intros i n f Hf. destruct (J4 i n f Hf) as (r & Hr & Hok). exists r. split; [|done]. rewrite lookup_insert_ne by congruence. done.
Qed.

Lemma journal_enqueue now new_id denied repository connection source operation v s s' :
  journal ancestor s -> enqueue_at now new_id denied repository connection source operation s = Ok (v, s') ->
  journal ancestor s' /\ quiet s s'.
Proof.
  intros HJ. unfold enqueue_at. destruct (known_run repository connection operation s) as [[u|e]|]; cbn.
  { intros [= <- <-]. by split. }
  { done. }
  destruct (connection_of repository connection s) as [c|] eqn:Ec; [|done]. cbn. case_bool_decide as Hd; [done|].
  intros ([u s1] & Hs1 & [= <- <-])%rbind_Ok_inv.
  assert (H1 : journal ancestor s1 /\ quiet s s1).
  { unfold active_or_new in Hs1. destruct (active_run connection s); [injection Hs1 as <- <-; by split|].
    destruct denied; [done|]. apply rbind_Ok_inv in Hs1 as (t & Ht%or_db_Ok & [= <- <-]). by eapply journal_insert_run. }
  unfold record_run. destruct operation as [[key access]|]; [|done]. cbn. destruct H1 as [HJ1 Hq1]. split.
  - by eapply journal_frame; [..|exact HJ1].
  - etransitivity; [exact Hq1|by apply quiet_frame].
Qed.

(** Changes of a connection's schedule. *)
Definition same_connection (c c' : SyncConnection) : Prop :=
  sn_repository c' = sn_repository c /\ sn_version c' = sn_version c /\ sn_settings c' = sn_settings c /\ sn_owner_subject c' = sn_owner_subject c.

Lemma journal_schedule_columns f s :
  (forall id c', f (connections s) !! id = Some c' -> exists c, connections s !! id = Some c /\ same_connection c c') ->
  (forall id c, connections s !! id = Some c -> exists c', f (connections s) !! id = Some c') ->
  journal ancestor s -> journal ancestor (set_connections f s).
Proof.
  intros Hf Hg [J1 J2 J3 J4]. split; cbn; [|done| |done].
  - destruct J1 as [Hcheck _]. split; [|done]. intros id c' Hc'. destruct (Hf id c' Hc') as (c & Hc & E1 & E2 & E3 & E4).
    specialize (Hcheck id c Hc). cbn in *. by rewrite E2, E4.
  - intros id r Hr. destruct (J3 id r Hr) as [Hw (c & Hc & E1 & E2 & E3)]. split; [done|].
    destruct (Hg _ c Hc) as [c' Hc']. destruct (Hf _ c' Hc') as (c2 & Hc2 & D1 & D2 & D3 & _). assert (c2 = c) as -> by congruence.
    exists c'. cbn. rewrite D1, D2, D3. by split_and!.
Qed.

Lemma journal_signal repository s : journal ancestor s -> journal ancestor (signal repository s).
Proof.
  apply journal_schedule_columns.
  - intros id c' (c & Hc & ->)%update_where_Some. exists c. split; [done|]. by destruct (_ && _).
  - intros id c Hc. eexists. apply update_where_Some. eauto.
Qed.

Lemma new_run_same now id c c' source : same_connection c c' ->
  new_run now (sn_repository c) id c source = new_run now (sn_repository c') id c' source.
Proof. intros (E1 & E2 & E3 & E4). unfold new_run. by rewrite E1, E2, E3, E4. Qed.

(** The connections read before the loop are still the same. *)
Definition still_there (l : list (N * SyncConnection)) (s : store) : Prop :=
  forall kc, kc ∈ l -> exists c, connections s !! kc.1 = Some c /\ same_connection kc.2 c.

Lemma journal_schedule_one denied now new_id policy s l kc s' :
  journal ancestor s -> still_there l s -> kc ∈ l -> ss_direction (sn_settings kc.2) <> Disabled ->
  schedule_one denied now new_id policy s kc = Ok s' -> journal ancestor s' /\ quiet s s' /\ still_there l s'.
Proof.
  intros HJ Hl Hin Hd. unfold schedule_one. destruct (denied kc.1); [intros [= <-]; by split_and!|].
  intros (t & Ht%or_db_Ok & [= <-])%rbind_Ok_inv. destruct (Hl kc Hin) as (c & Hc & Hsame).
  rewrite (new_run_same _ _ _ _ _ Hsame) in Ht.
  assert (Hd' : ss_direction (sn_settings c) <> Disabled) by (destruct Hsame as (_ & _ & -> & _); done).
  destruct (journal_insert_run _ _ _ _ _ _ _ _ HJ (proj2 (connection_of_Some _ _ _ _) (conj Hc eq_refl)) Hd' Ht) as [HJ1 Hq].
  split_and!.
  - apply journal_schedule_columns; [..|exact HJ1]; cbn.
    + intros id c' [(<- & c2 & Hid & ->)|[_ Hc']]%lookup_alter_Some; [exists c2|exists c']; by split.
    + intros id c2 Hid. destruct (decide (kc.1 = id)) as [<-|Hne]; [rewrite lookup_alter_eq, Hid|rewrite lookup_alter_ne by done]; eauto.
  - etransitivity; [exact Hq|by apply quiet_frame].
  - intros kd Hkd. destruct (Hl kd Hkd) as (c2 & Hc2 & Hs2). cbn. destruct (decide (kc.1 = kd.1)) as [E|Hne].
    + rewrite E, lookup_alter_eq, Hc2. eexists. split; [done|]. exact Hs2.
    + rewrite lookup_alter_ne by done. eauto.
Qed.

Lemma journal_schedule eligible denied locked now new_id defaults s s' :
  journal ancestor s -> schedule eligible denied locked now new_id defaults s = Ok s' -> journal ancestor s' /\ quiet s s'.
Proof.
  intros HJ Hs. set (policy := sd_settings (schedule_state defaults s)) in *. set (l := scheduled eligible locked now (sc_on_change policy) s).
  assert (Hl : forall kc, kc ∈ l -> connections s !! kc.1 = Some kc.2 /\ ss_direction (sn_settings kc.2) <> Disabled).
  { intros [id c] Hin. pose proof (elem_of_sublist _ _ _ Hin (sublist_take _ _)) as Hm.
    rewrite merge_sort_Permutation in Hm. apply elem_of_select in Hm as [Hc Hw]. split; [done|].
    unfold to_schedule, automatic_connection, is_automatic in Hw. rewrite !andb_true_iff in Hw. cbn.
    destruct Hw as [[[[[[_ Hd] _] _] _] _] _]. by apply negb_true_iff, bool_decide_eq_false_1 in Hd. }
  enough (journal ancestor s' /\ quiet s s' /\ still_there l s') as (? & ? & _) by done.
  refine (rfold_invariant _ (fun _ x => journal ancestor x /\ quiet s x /\ still_there l x) s l s' _ _ Hs).
  - split_and!; [done|done|]. intros kc Hin. exists kc.2. split; [apply Hl, Hin|done].
  - intros pre kc post x x' Heq (HJx & Hqx & Hlx) Hx.
    assert (Hin : kc ∈ l) by (rewrite Heq; apply elem_of_app; right; left).
    destruct (journal_schedule_one denied now new_id policy x l kc x' HJx Hlx Hin (proj2 (Hl kc Hin)) Hx) as (? & ? & ?).
    split_and!; [done|by etransitivity|done].
Qed.

Lemma journal_save_schedule eligible administrator now defaults operation access input s v s' :
  journal ancestor s -> save_schedule eligible administrator now defaults operation access input s = Ok (v, s') ->
  journal ancestor s' /\ quiet s s'.
Proof.
  intros HJ. unfold save_schedule. destruct (negb (can_manage_schedule access)); [done|].
  destruct (Schedule_validate (sv_settings input)); [|done]. destruct (negb administrator); [done|].
  destruct (policies s !! operation) as [p|].
  { destruct (_ || _); [done|]. intros [= <- <-]. by split. }
  destruct (negb _); [done|]. intros (version & _ & [= <- <-])%rbind_Ok_inv. split; [|by apply quiet_frame].
  apply journal_schedule_columns; cbn; [..|by eapply journal_frame; [..|exact HJ]].
  - intros id c'. rewrite map_lookup_imap. destruct (connections s !! id) as [c|]; [|done]. cbn. intros [= <-]. exists c. split; [done|].
    unfold rescheduled. by destruct (automatic_connection _ _ _ _).
  - intros id c Hc. rewrite map_lookup_imap, Hc. eauto.
Qed.

Lemma journal_heartbeat now id owner generation s v s' :
  journal ancestor s -> heartbeat now id owner generation s = Ok (v, s') -> journal ancestor s' /\ quiet s s'.
Proof.
  intros [J1 J2 J3 J4]. unfold heartbeat. destruct (runs s !! id) as [r|] eqn:Er; [|done].
  destruct (owns owner generation r && writer (rn_state r)) eqn:Ew; [|done]. intros [= <- <-].
  apply andb_true_iff in Ew as [_ Ew]. split.
  - split; cbn; [done| | |].
    + assert (Hp : put id (set_lease (now + seconds 60) r) (runs s) = Ok (alter (set_lease (now + seconds 60)) id (runs s))).
      { apply put_Ok. split_and!.
        - apply map_eq. intros i. destruct (decide (i = id)) as [->|Hne]; [by rewrite lookup_alter_eq, lookup_insert_eq, Er|].
          by rewrite lookup_alter_ne, lookup_insert_ne by done.
        - apply (vt_check _ J2 id r Er).
        - intros i w Hi Hw. by apply (vt_unique _ J2 id i r w). }
      exact (put_valid _ _ _ _ J2 Hp).
    + intros i x [(<- & y & Hy & ->)|[_ Hx]]%lookup_alter_Some; [|by apply (J3 i x)].
      destruct (J3 id y Hy) as [Hw Hc]. split; [|exact Hc]. assert (y = r) as -> by congruence. unfold run_wf in *. cbn.
      destruct (rn_state r); try done; destruct Hw as (? & ? & ? & ? & ? & ?); by split_and!.
    + intros i n f Hf. destruct (J4 i n f Hf) as (x & Hx & Hok). destruct (decide (id = i)) as [->|Hne].
      * eexists. rewrite lookup_alter_eq, Hx. by split.
      * exists x. by rewrite lookup_alter_ne by done.
  - apply quiet_alter_run. intros x _. split; [by split|done].
Qed.

(** Changes of the event columns. *)
Lemma journal_event_columns f k s :
  (forall x, rf_direction (f x) = rf_direction x /\ rf_old (f x) = rf_old x /\ rf_new (f x) = rf_new x /\ rf_state (f x) = rf_state x) ->
  journal ancestor s -> journal ancestor (set_refs (alter f k) s) /\ quiet s (set_refs (alter f k) s).
Proof.
  intros Hf [J1 J2 J3 J4]. split.
  - split; cbn; [done|done|done|]. intros i n g [(-> & x & Hx & ->)|[_ Hx]]%lookup_alter_Some; [|by apply (J4 i n)].
    destruct (J4 i n x Hx) as (r & Hr & Hok). exists r. split; [done|]. destruct (Hf x) as (E1 & E2 & E3 & E4).
    unfold row_ok, settled in *. by rewrite E1, E2, E3, E4.
  - split; [split; cbn|intros i; split; cbn].
    + intros i r Hr. exists r. by split.
    + intros j g Hg. destruct (decide (k = j)) as [->|Hne]; [rewrite lookup_alter_eq, Hg|rewrite lookup_alter_ne by done].
      * exists (f g). destruct (Hf g) as (E1 & E2 & E3 & E4). by split_and!.
      * by exists g.
    + by intros r r' -> [= ->].
    + intros n g g' Hg. destruct (decide (k = (i, n))) as [->|Hne]; [rewrite lookup_alter_eq, Hg|rewrite lookup_alter_ne by done].
      * intros [= <-]. apply Hf.
      * intros Hg'. congruence.
Qed.

(** *** Saving *)

Lemma active_run_None connection s : active_run connection s = None ->
  forall id r, runs s !! id = Some r -> rn_connection r = connection -> active (rn_state r) = false.
Proof.
  unfold active_run. intros Hn id r Hr <-. destruct (active (rn_state r)) eqn:E; [|done].
  assert (Hin : (id, r) ∈ select (fun _ x => (rn_connection x =? rn_connection r)%N && active (rn_state x)) (runs s)).
  { apply elem_of_select. by rewrite N.eqb_refl, E. }
  destruct (select _ _); [by apply elem_of_nil in Hin|done].
Qed.

Lemma active_run_Some connection s id r : active_run connection s = Some (id, r) ->
  runs s !! id = Some r /\ rn_connection r = connection /\ active (rn_state r) = true.
Proof.
  unfold active_run. intros Hs. assert (Hin : (id, r) ∈ select (fun _ x => (rn_connection x =? connection)%N && active (rn_state x)) (runs s)).
  { destruct (select _ _); [done|]. injection Hs as ->. left. }
  apply elem_of_select in Hin as [Hr [Hc%N.eqb_eq Ha]%andb_true_iff]. done.
Qed.

(** The runs a save stops. *)
Definition stopped (now : Z) (repository connection : N) (r : SyncRun) : SyncRun :=
  if (rn_repository r =? repository)%N && (rn_connection r =? connection)%N && active (rn_state r) then stop_run now r else r.

Lemma lookup_stop_runs now repository connection s id :
  runs (stop_runs now repository connection s) !! id = stopped now repository connection <$> (runs s !! id).
Proof. unfold stop_runs. cbn. by rewrite lookup_update_where. Qed.

Lemma stop_run_evolves now r : active (rn_state r) = true ->
  run_evolves r (stop_run now r) /\ (writer (rn_state r) = true -> writer (rn_state (stop_run now r)) = true).
Proof.
  intros Ha. unfold stop_run. case_bool_decide as Eq.
  - split; [|by rewrite Eq]. split; cbn; try done. by rewrite Ha.
  - split; [|done]. split; cbn; try done. by rewrite Ha.
Qed.

Lemma quiet_stop_runs now repository connection s : quiet s (stop_runs now repository connection s).
Proof.
  apply quiet_runs. intros id r Hr. exists (stopped now repository connection r).
  pose proof (lookup_stop_runs now repository connection s id) as Hl. rewrite Hr in Hl. split; [exact Hl|].
  unfold stopped. destruct (_ && _ && active (rn_state r)) eqn:E; [|by split].
  apply andb_true_iff in E as [_ Ea]. destruct (stop_run_evolves now r Ea). by split.
Qed.

Lemma stop_runs_valid now repository connection s : valid_table (runs s) -> valid_table (runs (stop_runs now repository connection s)).
Proof.
  intros Hv. assert (E : runs (stop_runs now repository connection s) =
    update_where (fun _ r => (rn_repository r =? repository)%N && (rn_connection r =? connection)%N)
      (fun r => if active (rn_state r) then stop_run now r else r) (runs s)).
  { apply map_eq. intros i. rewrite lookup_stop_runs, lookup_update_where. destruct (runs s !! i) as [r|]; [|done]. cbn. f_equal.
    unfold stopped. by destruct ((rn_repository r =? repository)%N && (rn_connection r =? connection)%N), (active (rn_state r)). }
  rewrite E. apply update_where_valid; [| |done].
  - intros _ r _ _. destruct (active (rn_state r)); [|done]. unfold stop_run. by destruct (bool_decide (rn_state r = Queued)).
  - intros x y. destruct (active (rn_state x)) eqn:Ea; [|done]. destruct (stop_run_evolves now x Ea) as [[(E1 & E2 & _) _ _ _ _] _].
    cbn. unfold both_active, both_writers. rewrite E1, E2. revert Ea. unfold stop_run. case_bool_decide as Eq; cbn.
    + by rewrite !andb_false_r.
    + by destruct (rn_state x).
Qed.

Lemma stopped_wf now repository connection r : run_wf r -> run_wf (stopped now repository connection r).
Proof.
  unfold stopped. destruct (_ && _ && active (rn_state r)) eqn:E; [|done]. apply andb_true_iff in E as [_ Ea].
  unfold stop_run. case_bool_decide as Eq.
  - unfold run_wf. rewrite Eq. cbn. intros (Ho & Hg & _). split; [done|]. by right.
  - unfold run_wf. cbn. destruct (rn_state r); try done; intros (? & ? & ? & ? & ? & ?); by split_and!.
Qed.

Lemma may_change_active s connection old input encrypted id r :
  may_change (is_some (active_run connection s)) old input encrypted = Ok tt ->
  runs s !! id = Some r -> rn_connection r = connection -> active (rn_state r) = true -> ss_direction input = Disabled.
Proof.
  intros Hm Hr Hc Ha. destruct (active_run connection s) as [a|] eqn:Eact; [|by rewrite (active_run_None _ _ Eact id r Hr Hc) in Ha].
  cbn in Hm. destruct old as [c|]; [|done]. cbn in Hm.
  destruct (negb (bool_decide (input = _)) || _) eqn:E; [done|]. apply orb_false_iff in E as [E%negb_false_iff%bool_decide_eq_true_1 _].
  by rewrite E.
Qed.

Section write.
Context (now : Z) (repository connection : N) (c : SyncConnection) (s : store).
Hypothesis (Hpresent : forall c0, connections s !! connection = Some c0 ->
  sn_repository c = sn_repository c0 /\ (sn_version c0 < sn_version c)%Z /\ sn_repository c0 = repository).
Hypothesis (Hactive : forall id r, runs s !! id = Some r -> rn_connection r = connection -> active (rn_state r) = true ->
  ss_direction (sn_settings c) = Disabled).

Definition with_connection : store := set_connections (fun _ => <[connection := c]> (connections s)) s.
Definition with_stopped : store :=
  if bool_decide (ss_direction (sn_settings c) = Disabled) then stop_runs now repository connection with_connection else with_connection.

Lemma connected_stopped id r : run_connected s r -> runs s !! id = Some r -> ss_direction (sn_settings c) = Disabled ->
  run_connected (stop_runs now repository connection with_connection) (stopped now repository connection r).
Proof.
  intros (c0 & Hc0 & Er & Ev & Ha) Hr Hd.
  assert (Hs : same_run r (stopped now repository connection r)).
  { unfold stopped, stop_run. by repeat case_match. }
  destruct Hs as (E1 & E2 & E3 & E4). unfold run_connected. rewrite E1, E2, E3, E4. cbn. destruct (decide (rn_connection r = connection)) as [Ec|Hne].
  - exists c. rewrite Ec, lookup_insert_eq in *. destruct (Hpresent c0 Hc0) as (F1 & F2 & F3). split_and!; [done|congruence|lia|].
    unfold stopped. rewrite <- F3, Er, N.eqb_refl, Ec, N.eqb_refl. cbn. destruct (active (rn_state r)) eqn:Eact; [|by rewrite Eact].
    unfold stop_run. case_bool_decide; cbn; by intros _.
  - exists c0. rewrite lookup_insert_ne by done. split_and!; [done|done|done|].
    unfold stopped. by rewrite (proj2 (N.eqb_neq _ _) Hne), andb_false_r.
Qed.

Lemma connected_written id r : run_connected s r -> runs s !! id = Some r -> ss_direction (sn_settings c) <> Disabled ->
  run_connected with_connection r.
Proof.
  intros (c0 & Hc0 & Er & Ev & Ha) Hr Hd. unfold run_connected. cbn. destruct (decide (rn_connection r = connection)) as [Ec|Hne].
  - exists c. rewrite Ec, lookup_insert_eq in *. destruct (Hpresent c0 Hc0) as (F1 & F2 & F3). split_and!; [done|congruence|lia|].
    intros Hact. by destruct Hd, (Hactive id r).
  - exists c0. rewrite lookup_insert_ne by done. done.
Qed.

Lemma journal_with_stopped : check c = true -> journal ancestor s -> journal ancestor with_stopped /\ quiet s with_stopped.
Proof.
  intros Hc [J1 J2 J3 J4].
  assert (Hconn : valid_table (<[connection := c]> (connections s))) by (eapply put_valid; [exact J1|]; apply put_Ok; by split_and!).
  assert (Hq : quiet s with_connection) by by apply quiet_frame.
  unfold with_stopped. case_bool_decide as Hd.
  - split; [|etransitivity; [exact Hq|apply quiet_stop_runs]]. split; [exact Hconn|by apply stop_runs_valid| |].
    + intros id r'. rewrite lookup_stop_runs. intros (r & Hr & ->)%fmap_Some. cbn in Hr. destruct (J3 id r Hr) as [Hw Hcn].
      split; [by apply stopped_wf|by apply (connected_stopped id)].
    + intros id n f Hf. destruct (J4 id n f Hf) as (r & Hr & Hok). exists (stopped now repository connection r).
      rewrite lookup_stop_runs. cbn. rewrite Hr. split; [done|].
      assert (Hs : same_run r (stopped now repository connection r)) by (unfold stopped, stop_run; by repeat case_match).
      destruct Hs as (_ & _ & _ & ->). done.
  - split; [|exact Hq]. split; [exact Hconn|done| |done].
    intros id r Hr. destruct (J3 id r Hr) as [Hw Hcn]. split; [done|by apply (connected_written id)].
Qed.
End write.

Lemma journal_save now denied in_project defaults repository connection operation owner_subject access input encrypted fingerprint s v s' :
  journal ancestor s ->
  save now denied in_project defaults repository connection operation owner_subject access input encrypted fingerprint s = Ok (v, s') ->
  journal ancestor s' /\ quiet s s'.
Proof.
  intros HJ. unfold save. destruct (connection =? 0)%N; [done|].
  destruct (operations s !! operation) as [o|]; [intros (u & _ & [= <- <-])%rbind_Ok_inv; by split|].
  destruct (is_some (connections s !! connection) && is_none (connection_of repository connection s)) eqn:Eforeign; [done|].
  destruct (negb _); [done|]. intros (credential & _ & H)%rbind_Ok_inv. revert H. intros ([] & Hm & H)%rbind_Ok_inv. revert H.
  destruct (denied || negb in_project); [done|]. intros (s1 & Hs1 & H)%rbind_Ok_inv. revert H. intros (view & _ & [= <- <-])%rbind_Ok_inv.
  enough (journal ancestor s1 /\ quiet s s1) as [HJ1 Hq1].
  { split; [by eapply journal_frame; [..|exact HJ1]|etransitivity; [exact Hq1|by apply quiet_frame]]. }
  unfold write_connection in Hs1. apply rbind_Ok_inv in Hs1 as (t & Ht%or_db_Ok & [= <-]).
  set (c := saved_connection _ _ _ _ _ _ _ _) in *. apply put_Ok in Ht as (-> & Hcheck & _).
  assert (Hset : ss_direction (sn_settings c) = ss_direction (si_settings input)) by (unfold c, saved_connection; by case_match).
  rewrite <- Hset. apply (journal_with_stopped now repository connection c s); [| |done|done].
  - intros c0 Hc0. rewrite Hc0 in Eforeign. cbn in Eforeign. unfold c. unfold connection_of in *. rewrite Hc0 in *.
    destruct (N.eqb_spec (sn_repository c0) repository) as [E|E]; [|done]. cbn. split_and!; [done|lia|done].
  - intros id r Hr Hcn Ha. rewrite Hset. by eapply may_change_active.
Qed.

(** Every handler keeps the journal well-formed, the current owners of the
    runs undisturbed and the past of the rows. *)
Lemma journal_handler now s s' : journal ancestor s -> handler now s s' -> journal ancestor s' /\ quiet s s'.
Proof.
  intros HJ [].
  - by eapply journal_enqueue.
  - split; [by apply journal_signal|by apply quiet_frame].
  - by eapply journal_schedule.
  - by eapply journal_heartbeat.
  - by eapply journal_save.
  - by eapply journal_save_schedule.
  - by apply journal_event_columns.
  - apply journal_event_columns; [|done]. intros x. by destruct (rf_event_delivered x).
  - apply journal_event_columns; [|done]. intros x. by case_bool_decide.
  - split; [by eapply journal_frame; [..|exact HJ]|by apply quiet_frame].
Qed.
End handlers.
