(* ===== verification/SyncReach.v ===== *)
(** * Reachable systems of synchronisation workers

    [good]: the journal is well-formed and every worker is right about what it
    knows.  Every step keeps it. *)
From S2P Require Import Prelude Programs Table Url RepositorySync SyncStore SyncGit SyncWorker SyncSafety SyncSystem SyncJournal.

(** ** The calls of a worker that write *)

Section calls.
Context (ancestor : str -> str -> bool).

Lemma quiet_put_claim now id owner s v s' :
  journal ancestor s -> claim now id owner s = Ok (v, s') -> journal ancestor s' /\ quiet s s'.
Proof.
  intros [J1 J2 J3 J4]. unfold claim. destruct (runs s !! id) as [r|] eqn:Er; [|intros [= <- <-]; by split].
  destruct (claimable now id r s) eqn:Ec; [|intros [= <- <-]; by split].
  intros (t & Ht%or_db_Ok & [= <- <-])%rbind_Ok_inv. pose proof (put_valid _ _ _ _ J2 Ht) as Hv.
  apply put_Ok in Ht as (-> & _ & _). destruct (J3 id r Er) as [Hw Hcn].
  assert (Hact : active (rn_state r) = true /\ active (rn_state (claimed now owner r)) = true).
  { unfold claimable in Ec. apply andb_true_iff in Ec as [_ Ec]. unfold claimed. cbn. case_bool_decide as Eq; [by rewrite Eq|].
    cbn in Ec. unfold expired in Ec. apply andb_true_iff in Ec as [Ew _]. by destruct (rn_state r). }
  destruct Hact as [Ha Ha']. split.
  - split; cbn; [done|exact Hv| |].
    + intros i x [[<- <-]|[_ Hx]]%lookup_insert_Some; [|by apply (J3 i x)]. split.
      * unfold run_wf in *. unfold claimed. cbn. revert Hw. case_bool_decide as Eq.
        -- rewrite Eq. intros (_ & -> & _ & _ & -> & _). by split_and!.
        -- destruct (rn_state r); try done; intros (_ & Hg & _ & _ & -> & _); split_and!; try done; lia.
      * destruct Hcn as (c & Hc & E1 & E2 & E3). exists c. split_and!; [done|done|done|]. intros _. exact (E3 Ha).
    + intros i n f Hf. destruct (J4 i n f Hf) as (x & Hx & Hok). destruct (decide (id = i)) as [<-|Hne].
      * exists (claimed now owner r). rewrite lookup_insert_eq. split; [done|]. assert (x = r) as -> by congruence. exact Hok.
      * exists x. by rewrite lookup_insert_ne by done.
  - apply quiet_runs. intros i x Hx. destruct (decide (id = i)) as [<-|Hne].
    + exists (claimed now owner r). rewrite lookup_insert_eq. assert (x = r) as -> by congruence. split; [done|].
      assert (Hg : rn_generation (claimed now owner r) = (rn_generation r + 1)%Z) by done.
      split; [split; [done|lia|lia|done|by rewrite Ha]|lia].
    + exists x. rewrite lookup_insert_ne by done. split_and!; [done|reflexivity|done].
Qed.

Lemma foldl_record_ref now id rows t k f :
  foldl (record_ref now id) t rows !! k = Some f ->
  t !! k = Some f \/ exists n g, k = (id, n) /\ (n, g) ∈ rows /\ f = set_event (rf_event_delivered g) (rf_reason g) now g.
Proof.
  revert t. induction rows as [|[n g] rows IH]; intros t; cbn [foldl]; [by left|]. intros [Ht|(m & h & -> & Hin & ->)]%IH.
  - unfold record_ref in Ht. cbn in Ht. destruct (t !! (id, n)) eqn:E; [by left|].
    apply lookup_insert_Some in Ht as [[<- <-]|[_ Ht]]; [|by left]. right. exists n, g. split_and!; [done|left|done].
  - right. exists m, h. split_and!; [done|by right|done].
Qed.

Lemma foldl_record_ref_kept now id rows t k f : t !! k = Some f -> foldl (record_ref now id) t rows !! k = Some f.
Proof.
  revert t. induction rows as [|[n g] rows IH]; intros t Hk; cbn [foldl]; [done|]. apply IH. unfold record_ref. cbn.
  destruct (t !! (id, n)) eqn:E; [done|]. rewrite lookup_insert_ne by congruence. done.
Qed.

Lemma quiet_record_plan now id rows s r :
  journal ancestor s -> runs s !! id = Some r -> (forall n f, (n, f) ∈ rows -> row_ok (rn_settings r) (forwards ancestor) n f) ->
  journal ancestor (record_plan now id rows s) /\ quiet s (record_plan now id rows s).
Proof.
  intros [J1 J2 J3 J4] Hr Hok. split.
  - split; cbn; [done|done|done|]. intros i n f [Hf|(m & g & [= -> ->] & Hin & ->)]%foldl_record_ref; [by apply J4|].
    exists r. split; [done|]. exact (Hok m g Hin).
  - split; [split; cbn|intros i; split; cbn].
    + intros i x Hx. exists x. by split.
    + intros k f Hf. exists f. split; [by apply foldl_record_ref_kept|done].
    + by intros x x' -> [= ->].
    + intros n f f' Hf. rewrite (foldl_record_ref_kept _ _ _ _ _ _ Hf). by intros [= ->].
Qed.

(** A change of one run's references by its current owner. *)
Lemma written_ref_state now id name state reason owner generation s s' :
  journal ancestor s -> (forall f, refs s !! (id, name) = Some f -> rf_direction f <> RefNone) ->
  ref_state now id name state reason owner generation s = Ok s' ->
  journal ancestor s' /\ evolves s s' /\ (forall i, i <> id -> undisturbed i s s') /\
  runs s' = runs s /\ (exists r, runs s !! id = Some r /\ rn_generation r = generation) /\
  (forall k, k <> (id, name) -> refs s' !! k = refs s !! k).
Proof.
  intros [J1 J2 J3 J4] Hdir. unfold ref_state. destruct (refs s !! (id, name)) as [f|] eqn:Ef; [|done].
  destruct (runs s !! id) as [r|] eqn:Er; [|done]. destruct (owns owner generation r && leased now r) eqn:Eo; [|done].
  intros [= <-]. apply andb_true_iff in Eo as [[_ Eg%Z.eqb_eq]%andb_true_iff _]. split_and!.
  - split; cbn; [done|done|done|]. intros i n g [[[= <- <-] <-]|[_ Hg]]%lookup_insert_Some; [|by apply J4].
    destruct (J4 id name f Ef) as (x & Hx & Hok). exists x. split; [done|]. specialize (Hdir f eq_refl).
    unfold row_ok in *. cbn. by destruct (rf_direction f).
  - split; cbn; [intros i x Hx; exists x; by split|]. intros k g Hg. destruct (decide ((id, name) = k)) as [<-|Hne].
    + exists (set_ref_state state reason f). rewrite lookup_insert_eq. assert (g = f) as -> by congruence. done.
    + exists g. by rewrite lookup_insert_ne by done.
  - intros i Hi. split; cbn; [by intros x x' -> [= ->]|]. intros n g g' Hg. rewrite lookup_insert_ne by congruence. by rewrite Hg; intros [= ->].
  - done.
  - exists r. done.
  - intros k Hk. cbn. by rewrite lookup_insert_ne.
Qed.

Lemma outcome_ended state : outcome_state state = true -> writer state = false -> active state = false.
Proof. by destruct state. Qed.

Lemma written_finish now id owner generation state message s s' :
  journal ancestor s -> outcome_state state = true ->
  (forall r, runs s !! id = Some r -> rn_generation r = generation -> writer (rn_state r) = true) ->
  finish now id owner generation state message s = Ok s' ->
  s' = s \/ journal ancestor s' /\ evolves s s' /\ (forall i, i <> id -> undisturbed i s s') /\ refs s' = refs s /\
  (exists r, runs s !! id = Some r /\ rn_generation r = generation).
Proof.
  intros [J1 J2 J3 J4] Hst Hwriter. unfold finish. destruct (runs s !! id) as [r|] eqn:Er; [|intros [= <-]; by left].
  destruct (owns owner generation r) eqn:Eo; [|intros [= <-]; by left]. intros H. right.
  apply andb_true_iff in Eo as [Eo%bool_decide_eq_true_1 Eg%Z.eqb_eq]. specialize (Hwriter r eq_refl Eg).
  apply rbind_Ok_inv in H as (t & Ht%or_db_Ok & [= <-]). pose proof (put_valid _ _ _ _ J2 Ht) as Hv. apply put_Ok in Ht as (-> & _ & _).
  set (r' := set_outcome _ _ _ _ _) in *. destruct (J3 id r Er) as [Hw Hcn]. split_and!.
  - split; cbn; [done|exact Hv| |].
    + intros i x [[<- <-]|[_ Hx]]%lookup_insert_Some; [|by apply (J3 i x)]. split.
      * unfold run_wf in *. cbn. destruct (rn_state r); try done; destruct Hw as (Ho & Hg & _ & Hs & _ & _); destruct state; cbn; try done;
          try (by split_and!); (split; [done|by left]).
      * destruct Hcn as (c & Hc & E1 & E2 & E3). exists c. split_and!; [done|done|done|]. intros _. apply E3. by destruct (rn_state r).
    + intros i n f Hf. destruct (J4 i n f Hf) as (x & Hx & Hok). destruct (decide (id = i)) as [<-|Hne].
      * exists r'. rewrite lookup_insert_eq. split; [done|]. assert (x = r) as -> by congruence. exact Hok.
      * exists x. by rewrite lookup_insert_ne by done.
  - split; cbn; [|intros k f Hf; exists f; by split]. intros i x Hx. destruct (decide (id = i)) as [<-|Hne].
    + exists r'. rewrite lookup_insert_eq. assert (x = r) as -> by congruence. split; [done|]. split; cbn; try done.
      by destruct (rn_state r).
    + exists x. rewrite lookup_insert_ne by done. by split.
  - intros i Hi. split; cbn; [|by intros n f f' -> [= ->]]. intros x x' Hx. rewrite lookup_insert_ne by done. rewrite Hx. by intros [= ->].
  - done.
  - exists r. done.
Qed.
End calls.

(** ** Reading the references of a run *)

Lemma elem_of_run_refs id s n f : (n, f) ∈ run_refs id s <-> refs s !! (id, n) = Some f.
Proof.
  unfold run_refs. rewrite merge_sort_Permutation, list_elem_of_omap. split.
  - intros ([[i m] g] & Hin & E). cbn in E. destruct (N.eqb_spec i id) as [->|]; [|done]. injection E as -> ->.
    by apply elem_of_map_to_list in Hin.
  - intros Hf. exists ((id, n), f). rewrite elem_of_map_to_list. cbn. by rewrite N.eqb_refl.
Qed.

Lemma NoDup_run_refs id s : NoDup (map fst (run_refs id s)).
Proof.
  unfold run_refs. rewrite merge_sort_Permutation.
  pose proof (NoDup_fst_map_to_list (refs s)) as Hn. induction (map_to_list (refs s)) as [|[[i n] f] l IH]; [constructor|].
  cbn in Hn. apply NoDup_cons in Hn as [Hni Hn]. cbn [omap list_omap fst snd]. destruct (N.eqb_spec i id) as [->|]; [|by apply IH].
  cbn [map fst]. constructor; [|by apply IH]. intros ([m g] & E & Hin)%list_elem_of_fmap. cbn in E. subst m.
  apply list_elem_of_omap in Hin as ([[j m] h] & Hin & E). cbn in E. destruct (N.eqb_spec j id) as [->|]; [|done].
  injection E as -> ->. apply Hni, list_elem_of_fmap. by exists ((id, n), g).
Qed.

(** ** What a worker knows is right *)

Section reach.
Context (ancestor : str -> str -> bool) `{UrlCrate} (open : str -> result str Error) (origins : list str) (enabled : bool).

Record knows_claim (w : worker) (run : SyncRun) (generation : Z) (s : store) : Prop := {
  kc_positive : (1 <= generation)%Z;
  kc_run : exists r, runs s !! wk_run w = Some r /\ same_run run r /\ (generation <= rn_generation r)%Z /\
    (rn_generation r = generation -> rn_owner r = Some (gh_owner (wk_ghost w)) /\
                                     (gh_finished (wk_ghost w) = false -> writer (rn_state r) = true));
  kc_rows : forall n f, (n, f) ∈ gh_rows (wk_ghost w) -> exists r f', runs s !! wk_run w = Some r /\ refs s !! (wk_run w, n) = Some f' /\
    same_ref f f' /\ row_ok (rn_settings run) (forwards ancestor) n f /\
    (rn_generation r = generation -> n ∉ gh_done (wk_ghost w) -> rf_state f' = rf_state f) }.

Record worker_ok (w : worker) (s : store) : Prop := {
  wo_program : wp (wk_program w) (fun _ _ => True) (wk_ghost w);
  wo_repository : exists r, runs s !! wk_run w = Some r /\ rn_repository r = wk_repository w;
  wo_forward : forall o n, knows_forward (wk_ghost w) o n -> ancestor o n = true;
  wo_claim : forall run generation, gh_claim (wk_ghost w) = Some (run, generation) -> knows_claim w run generation s }.

Record good (s : system) : Prop := {
  gd_journal : journal ancestor (en_store (sy_env s));
  gd_workers : forall i w, sy_workers s !! i = Some w -> worker_ok w (en_store (sy_env s));
  gd_fenced : forall i j v w rv gv rw gw, i <> j -> sy_workers s !! i = Some v -> sy_workers s !! j = Some w -> wk_run v = wk_run w ->
    gh_claim (wk_ghost v) = Some (rv, gv) -> gh_claim (wk_ghost w) = Some (rw, gw) -> gv <> gw }.

(** A change that does not disturb the worker's own claim. *)
Lemma worker_ok_frame w s s' :
  evolves s s' ->
  (forall run generation r', gh_claim (wk_ghost w) = Some (run, generation) -> runs s' !! wk_run w = Some r' -> rn_generation r' = generation ->
     undisturbed (wk_run w) s s') ->
  worker_ok w s -> worker_ok w s'.
Proof.
  intros Hev Hud [W1 (r0 & Hr0 & Er0) W3 W4]. destruct (ev_runs _ _ Hev _ _ Hr0) as (r1 & Hr1 & Ev1). split; [done| |done|].
  - exists r1. split; [done|]. destruct Ev1 as [(-> & _) _ _ _ _]. done.
  - intros run generation Hc. destruct (W4 run generation Hc) as [K1 (r & Hr & Hs & Hg & Hcur) K3].
    assert (r = r0) as -> by congruence. destruct Ev1 as [E1 E2 E3 E4 E5]. split; [done| |].
    + exists r1. split_and!; [done|by eapply same_run_trans|lia|]. intros Eg. destruct (Hcur ltac:(lia)) as [Ho Hw].
      split; [rewrite E3 by lia; done|]. intros Hf. apply (ud_run _ _ _ (Hud _ _ _ Hc Hr1 Eg) r0 r1 Hr0 Hr1); [lia|auto].
    + intros n f Hin. destruct (K3 n f Hin) as (r & f1 & Hr' & Hf1 & Hsame & Hok & Hst).
      assert (r = r0) as -> by congruence. destruct (ev_refs _ _ Hev _ _ Hf1) as (f2 & Hf2 & Hsame2).
      exists r1, f2. split_and!; [done|done|by eapply same_ref_trans|done|]. intros Eg Hn. rewrite <- (Hst ltac:(lia) Hn).
      by apply (ud_refs _ _ _ (Hud _ _ _ Hc Hr1 Eg) n f1 f2).
Qed.

Lemma worker_ok_quiet w s s' : quiet s s' -> worker_ok w s -> worker_ok w s'.
Proof. intros [Hev Hud]. apply worker_ok_frame; [done|]. auto. Qed.

(** What a call leaves of the journal: the other workers are right about it. *)
Definition call_frame (id : N) (g : ghost) (s s' : store) : Prop :=
  journal ancestor s' /\ evolves s s' /\ (forall i, i <> id -> undisturbed i s s') /\
  (undisturbed id s s' \/ exists run generation r, gh_claim g = Some (run, generation) /\ runs s !! id = Some r /\ rn_generation r = generation
                           /\ (forall r', runs s' !! id = Some r' -> rn_generation r' = rn_generation r)).

Lemma call_frame_quiet id g s s' : journal ancestor s' -> quiet s s' -> call_frame id g s s'.
Proof. intros HJ [He Hu]. split_and!; auto. Qed.

Lemma committed_store {A} e (t : Z -> store -> tx A) a e' :
  committed e t a e' -> (e' = e /\ exists m, a = Err m) \/ exists now v s, (en_clock e <= now)%Z /\ t now (en_store e) = Ok (v, s) /\ e' = written now s e
                                  /\ (a = Ok v \/ exists m, a = Err m).
Proof. intros []; [right; eauto 10..|left; eauto]. Qed.

Lemma committed_reads {A} e (f : Z -> store -> result A Error) a e' :
  committed e (reads f) a e' -> en_store e' = en_store e /\ (forall v, a = Ok v -> exists now, (en_clock e <= now)%Z /\ f now (en_store e) = Ok v).
Proof.
  intros [now v s Hle Ht|now v s m Hle Ht|m].
  - apply rbind_Ok_inv in Ht as (u & Hu & [= -> <-]). split; [done|]. intros ? [= <-]. eauto.
  - apply rbind_Ok_inv in Ht as (u & Hu & [= -> <-]). by split.
  - by split.
Qed.

Lemma committed_writes e (f : Z -> store -> result store Error) a e' :
  committed e (writes f) a e' -> en_store e' = en_store e \/
    exists now s, (en_clock e <= now)%Z /\ f now (en_store e) = Ok s /\ en_store e' = s.
Proof.
  intros [now v s Hle Ht|now v s m Hle Ht|m]; [..|by left]; right;
    apply rbind_Ok_inv in Ht as (u & Hu & [= <-]); eauto.
Qed.

(** *** One call *)

Definition next_worker (w : worker) (g : ghost) (p : io (result unit Error)) : worker := {|
  wk_run := wk_run w; wk_repository := wk_repository w; wk_ghost := g; wk_program := p |}.

(** The claim and what is known of the rows stay. *)
Record same_claim (g g' : ghost) : Prop := {
  sc_owner : gh_owner g' = gh_owner g;
  sc_claim : gh_claim g' = gh_claim g;
  sc_rows : gh_rows g' = gh_rows g;
  sc_done : forall n, n ∈ gh_done g -> n ∈ gh_done g';
  sc_finished : gh_finished g = true -> gh_finished g' = true }.

Lemma worker_ok_next w g p s :
  worker_ok w s -> wp p (fun _ _ => True) g -> same_claim (wk_ghost w) g ->
  (forall o n, knows_forward g o n -> ancestor o n = true) -> worker_ok (next_worker w g p) s.
Proof.
  intros [W1 W2 W3 W4] Hp [E1 E2 E3 E4 E5] Hf. split; [done|done|done|]. cbn. rewrite E2. intros run generation Hc.
  destruct (W4 run generation Hc) as [K1 (r & Hr & Hs & Hg & Hcur) K3]. split; cbn; [done| |].
  - exists r. split_and!; [done|done|done|]. intros Eg. rewrite E1. destruct (Hcur Eg) as [Ho Hw]. split; [done|].
    intros Hfin. apply Hw. destruct (gh_finished (wk_ghost w)) eqn:Efin; [|done]. rewrite E5 in Hfin by done. done.
  - rewrite E3. intros n f Hin. destruct (K3 n f Hin) as (x & f' & Hx & Hf' & Hsame & Hok & Hst). exists x, f'. split_and!; try done.
    intros Eg Hn. apply Hst; [done|]. intros ?%E4. done.
Qed.

Lemma same_claim_refl g : same_claim g g.
Proof. by split. Qed.

(** A call that leaves the journal as it is. *)
Lemma call_unchanged w o a p s s' :
  journal ancestor s -> worker_ok w s -> s' = s -> wp p (fun _ _ => True) (after o a (wk_ghost w)) ->
  same_claim (wk_ghost w) (after o a (wk_ghost w)) ->
  (forall x y, knows_forward (after o a (wk_ghost w)) x y -> ancestor x y = true) ->
  call_frame (wk_run w) (wk_ghost w) s s' /\ worker_ok (next_worker w (after o a (wk_ghost w)) p) s'.
Proof.
  intros HJ Hw -> Hp Hsame Hf. split; [by apply call_frame_quiet|by apply worker_ok_next].
Qed.

Lemma call_read_refs w a p s :
  journal ancestor s -> worker_ok w s -> (forall v, a = Ok v -> v = run_refs (wk_run w) s) ->
  wp p (fun _ _ => True) (after ReadRefs a (wk_ghost w)) -> worker_ok (next_worker w (after ReadRefs a (wk_ghost w)) p) s.
Proof.
  intros HJ Hw Ha Hp. destruct a as [rows|e]; [|apply worker_ok_next; [done|done|apply same_claim_refl|apply (wo_forward _ _ Hw)]].
  specialize (Ha rows eq_refl). subst rows. destruct Hw as [W1 (r0 & Hr0 & Er0) W3 W4]. split; [done|by exists r0|done|].
  intros run generation Hc. destruct (W4 run generation Hc) as [K1 (r & Hr & Hs & Hg & Hcur) K3]. split; [done|by exists r|].
  cbn. intros n f Hf%elem_of_run_refs. destruct (j_refs _ _ HJ _ _ _ Hf) as (x & Hx & Hok). exists x, f.
  split_and!; try done. assert (x = r) as -> by congruence. destruct Hs as (_ & _ & _ & <-). done.
Qed.

Lemma claim_answer now id owner s run generation s' :
  claim now id owner s = Ok (Some (run, generation), s') ->
  exists r, runs s !! id = Some r /\ run = claimed now owner r /\ generation = (rn_generation r + 1)%Z /\
    runs s' = <[id := run]> (runs s) /\ claimable now id r s = true.
Proof.
  unfold claim. destruct (runs s !! id) as [r|] eqn:Er; [|done]. destruct (claimable now id r s) eqn:Ec; [|done].
  intros (t & Ht%or_db_Ok & [= <- <- <-])%rbind_Ok_inv. apply put_Ok in Ht as (-> & _ & _). by exists r.
Qed.

Lemma claimed_state now id owner r s : claimable now id r s = true -> writer (rn_state (claimed now owner r)) = true.
Proof. intros _. unfold claimed. cbn. by case_bool_decide. Qed.

Lemma call_claim w owner a p e e' :
  journal ancestor (en_store e) -> worker_ok w (en_store e) -> may_call (ClaimRun owner) (wk_ghost w) ->
  committed e (fun now => claim now (wk_run w) owner) a e' -> wp p (fun _ _ => True) (after (ClaimRun owner) a (wk_ghost w)) ->
  call_frame (wk_run w) (wk_ghost w) (en_store e) (en_store e') /\
  worker_ok (next_worker w (after (ClaimRun owner) a (wk_ghost w)) p) (en_store e').
Proof.
  intros HJ Hw [Ho Hnone] Hc Hp. pose proof (wo_forward _ _ Hw) as Hf.
  destruct (committed_store _ _ _ _ Hc) as [[-> [m ->]]|(now & v & s' & _ & Hcl & -> & Ha)].
  { split; [by apply call_frame_quiet|]. by apply worker_ok_next; [done|done|apply same_claim_refl|]. }
  cbn. destruct (quiet_put_claim _ _ _ _ _ _ _ HJ Hcl) as [HJ' Hq]. split; [by apply call_frame_quiet|].
  pose proof (worker_ok_quiet _ _ _ Hq Hw) as Hw'. destruct Ha as [->|[m ->]].
  2: by apply worker_ok_next; [done|done|apply same_claim_refl|].
  destruct v as [[run generation]|]; [|by apply worker_ok_next; [done|done|apply same_claim_refl|]].
  destruct (claim_answer _ _ _ _ _ _ _ Hcl) as (r & Hr & Hrun & Hg & Hs & Hcb).
  destruct (j_wf _ _ HJ _ _ Hr) as [Hwf _].
  assert (Hpos : (0 <= rn_generation r)%Z).
  { unfold run_wf in Hwf. destruct (rn_state r); intuition lia. }
  split; [done|apply Hw'|done|]. cbn. intros run' generation' [= <- <-]. split; cbn; [lia| |by intros n f ?%elem_of_nil].
  exists run. rewrite Hs, lookup_insert_eq. split_and!; [done|done|rewrite Hrun, Hg; done|]. intros _. rewrite Hrun, <- Ho. split; [done|].
  intros _. by eapply claimed_state.
Qed.

Lemma call_record_plan w rows a p e e' :
  journal ancestor (en_store e) -> worker_ok w (en_store e) -> may_call (RecordPlan rows) (wk_ghost w) ->
  committed e (writes (fun now s => Ok (record_plan now (wk_run w) rows s))) a e' -> wp p (fun _ _ => True) (wk_ghost w) ->
  call_frame (wk_run w) (wk_ghost w) (en_store e) (en_store e') /\ worker_ok (next_worker w (wk_ghost w) p) (en_store e').
Proof.
  intros HJ Hw (run & generation & Hc & _ & Hok) Hcom Hp.
  assert (Hq : journal ancestor (en_store e') /\ quiet (en_store e) (en_store e')).
  { destruct (committed_writes _ _ _ _ Hcom) as [->|(now & s & _ & [= <-] & ->)]; [by split|].
    destruct (wo_claim _ _ Hw run generation Hc) as [_ (r & Hr & (_ & _ & _ & Es) & _) _]. eapply quiet_record_plan; [done|exact Hr|].
    intros n f Hin. rewrite Es. eapply row_ok_mono; [|by apply Hok]. intros x y. apply (wo_forward _ _ Hw). }
  destruct Hq as [HJ' Hq]. split; [by apply call_frame_quiet|].
  pose proof (worker_ok_quiet _ _ _ Hq Hw) as Hw'. apply worker_ok_next; [done|done|apply same_claim_refl|apply (wo_forward _ _ Hw')].
Qed.

(** The row a worker settles has a direction. *)
Lemma unsettled_direction w s run generation name f f' :
  worker_ok w s -> gh_claim (wk_ghost w) = Some (run, generation) -> (name, f) ∈ gh_rows (wk_ghost w) -> settled f = false ->
  refs s !! (wk_run w, name) = Some f' -> rf_direction f' <> RefNone.
Proof.
  intros Hw Hc Hin Hs Hf'. destruct (wo_claim _ _ Hw _ _ Hc) as [_ _ K3].
  destruct (K3 name f Hin) as (r & f2 & Hr & Hf2 & (Ed & _) & Hok & _). assert (f2 = f') as -> by congruence.
  rewrite Ed. unfold row_ok in Hok. destruct (rf_direction f); [done|done|congruence].
Qed.

Lemma call_set_ref_state w name state reason owner generation a p e e' :
  journal ancestor (en_store e) -> worker_ok w (en_store e) -> may_call (SetRefState name state reason owner generation) (wk_ghost w) ->
  committed e (writes (fun now => ref_state now (wk_run w) name state reason owner generation)) a e' ->
  wp p (fun _ _ => True) (know_done name (wk_ghost w)) ->
  call_frame (wk_run w) (wk_ghost w) (en_store e) (en_store e') /\ worker_ok (next_worker w (know_done name (wk_ghost w)) p) (en_store e').
Proof.
  intros HJ Hw (Ho & run & f & Hc & Hfin & Hin & Hset & Hn) Hcom Hp.
  assert (Hsame : same_claim (wk_ghost w) (know_done name (wk_ghost w))).
  { split; try done. cbn. intros n Hd. by right. }
  destruct (committed_writes _ _ _ _ Hcom) as [->|(now & s & _ & Hs & ->)].
  { split; [by apply call_frame_quiet|]. apply worker_ok_next; [done|done|done|apply (wo_forward _ _ Hw)]. }
  destruct (written_ref_state ancestor _ _ _ _ _ _ _ _ _ HJ (fun f' => unsettled_direction w _ run generation name f f' Hw Hc Hin Hset) Hs)
    as (HJ' & Hev & Hud & Hruns & (r & Hr & Hg) & Hrefs).
  split.
  { split_and!; [done|done|done|]. right. exists run, generation, r. split_and!; try done. intros r'. rewrite Hruns, Hr. by intros [= ->]. }
  destruct Hw as [W1 W2 W3 W4]. split; cbn; [done|by rewrite Hruns|done|]. intros run' generation' Hc'.
  assert (run' = run /\ generation' = generation) as [-> ->] by (split; congruence).
  destruct (W4 run generation Hc) as [K1 K2 K3]. split; cbn; [done|by rewrite Hruns|].
  intros n g Hng. destruct (K3 n g Hng) as (x & g1 & Hx & Hg1 & Hsame1 & Hok & Hst).
  destruct (ev_refs _ _ Hev _ _ Hg1) as (g2 & Hg2 & Hsame2). exists x, g2. rewrite Hruns.
  split_and!; [done|done|by eapply same_ref_trans|done|]. intros Eg Hnd. rewrite not_elem_of_cons in Hnd. destruct Hnd as [Hne Hnd].
  rewrite <- (Hst Eg Hnd). rewrite Hrefs in Hg2 by congruence. congruence.
Qed.

Lemma call_finish w owner generation state message a p e e' :
  journal ancestor (en_store e) -> worker_ok w (en_store e) -> may_call (FinishRun owner generation state message) (wk_ghost w) ->
  committed e (writes (fun now => finish now (wk_run w) owner generation state message)) a e' ->
  wp p (fun _ _ => True) (know_finished (wk_ghost w)) ->
  call_frame (wk_run w) (wk_ghost w) (en_store e) (en_store e') /\ worker_ok (next_worker w (know_finished (wk_ghost w)) p) (en_store e').
Proof.
  intros HJ Hw (Ho & Hfin & Hst & run & Hc) Hcom Hp.
  assert (Hsame : same_claim (wk_ghost w) (know_finished (wk_ghost w))) by by split.
  assert (Hstay : journal ancestor (en_store e) -> call_frame (wk_run w) (wk_ghost w) (en_store e) (en_store e) /\
                  worker_ok (next_worker w (know_finished (wk_ghost w)) p) (en_store e)).
  { split; [by apply call_frame_quiet|]. apply worker_ok_next; [done|done|done|apply (wo_forward _ _ Hw)]. }
  destruct (committed_writes _ _ _ _ Hcom) as [->|(now & s & _ & Hs & ->)]; [by apply Hstay|].
  pose proof (wo_claim _ _ Hw _ _ Hc) as [K1 (r & Hr & Hsr & Hg & Hcur) K3].
  assert (Hwriter : forall x, runs (en_store e) !! wk_run w = Some x -> rn_generation x = generation -> writer (rn_state x) = true).
  { intros x Hx Eg. assert (x = r) as -> by congruence. by apply (Hcur Eg). }
  destruct (written_finish ancestor _ _ _ _ _ _ _ _ HJ Hst Hwriter Hs) as [->|(HJ' & Hev & Hud & Hrefs & (r2 & Hr2 & Hg2))]; [by apply Hstay|].
  destruct (ev_runs _ _ Hev _ _ Hr) as (r' & Hr' & Hev'). assert (r2 = r) as -> by congruence.
  assert (Hsameg : rn_generation r' = rn_generation r).
  { revert Hs. unfold finish. rewrite Hr. destruct (owns owner generation r); [|intros [= <-]; congruence].
    intros (t & Ht%or_db_Ok & [= <-])%rbind_Ok_inv. apply put_Ok in Ht as (-> & _). cbn in Hr'. rewrite lookup_insert_eq in Hr'.
    by injection Hr' as <-. }
  split.
  { split_and!; [done|done|done|]. right. exists run, generation, r. split_and!; try done. intros r3 Hr3. congruence. }
  destruct Hw as [W1 W2 W3 W4]. split; cbn; [done| |done|].
  - destruct W2 as (r0 & Hr0 & E0). exists r'. split; [done|]. destruct Hev' as [(-> & _) _ _ _ _]. congruence.
  - intros run' generation' Hc'. assert (run' = run /\ generation' = generation) as [-> ->] by (split; congruence). split; cbn; [done| |].
    + exists r'. destruct Hev' as [E1 E2 E3 _ _]. split_and!; [done|by eapply same_run_trans|lia|]. intros _. split; [|done].
      rewrite E3 by done. by apply Hcur.
    + intros n g Hng. destruct (K3 n g Hng) as (x & g1 & Hx & Hg1 & Hsame1 & Hok & Hst1). exists r', g1. rewrite Hrefs.
      split_and!; try done. intros Eg. apply Hst1. congruence.
Qed.

Lemma call_ok w o k a e e' :
  journal ancestor (en_store e) -> worker_ok w (en_store e) -> wk_program w = Call o k ->
  serves ancestor (wk_run w) (wk_repository w) (gh_url (wk_ghost w)) e o a e' ->
  call_frame (wk_run w) (wk_ghost w) (en_store e) (en_store e') /\
  worker_ok (next_worker w (after o a (wk_ghost w)) (k a)) (en_store e').
Proof.
  intros HJ Hw Hprog Hserve. pose proof (wo_program _ _ Hw) as Hwp. rewrite Hprog in Hwp. destruct Hwp as [Hmay Hk].
  pose proof (wo_forward _ _ Hw) as Hf.
  assert (Hplain : forall (Ha : may_answer o a), en_store e' = en_store e -> same_claim (wk_ghost w) (after o a (wk_ghost w)) ->
    (forall x y, knows_forward (after o a (wk_ghost w)) x y -> ancestor x y = true) ->
    call_frame (wk_run w) (wk_ghost w) (en_store e) (en_store e') /\ worker_ok (next_worker w (after o a (wk_ghost w)) (k a)) (en_store e')).
  { intros Ha Heq Hs Hf'. apply call_unchanged; auto. }
  destruct o; cbn [serves] in Hserve.
  all: try (apply Hplain; [done|by subst e'|by split|done]).
  - destruct Hserve as [-> _]. by apply Hplain; [| |split|].
  - destruct Hserve as [-> Hanc]. apply Hplain; [done|done| |].
    + destruct a; [by split|apply same_claim_refl].
    + cbn. destruct a as [[]|]; [|done]. intros x y [[= -> ->]|Hxy]%elem_of_cons; [by apply Hanc|by apply Hf].
  - apply Hplain; [done| |by split|done]. destruct Hserve as [[-> _]|[_ ->]]; done.
  - destruct (committed_reads _ _ _ _ Hserve) as [Heq _]. by apply Hplain; [| |split|].
  - destruct (committed_reads _ _ _ _ Hserve) as [Heq _]. by apply Hplain; [| |split|].
  - destruct (committed_reads _ _ _ _ Hserve) as [Heq Hv]. rewrite Heq.
    assert (Hrows : forall v, a = Ok v -> v = run_refs (wk_run w) (en_store e)) by (intros v Ev; by destruct (Hv v Ev) as (? & _ & [= <-])).
    split; [by apply call_frame_quiet|]. apply call_read_refs; [done|done|done|]. apply Hk. cbn.
    destruct a as [rows|]; [|done]. rewrite (Hrows rows eq_refl). apply NoDup_run_refs.
  - destruct (committed_reads _ _ _ _ Hserve) as [Heq _]. by apply Hplain; [| |split|].
  - eapply call_claim; eauto. by apply Hk.
  - eapply call_record_plan; eauto. by apply (Hk a).
  - destruct (committed_reads _ _ _ _ Hserve) as [Heq _]. by apply Hplain; [| |split|].
  - eapply call_set_ref_state; eauto. by apply (Hk a).
  - eapply call_finish; eauto. by apply (Hk a).
Qed.

(** *** All steps *)

Lemma claim_after w o a e e' run generation :
  serves ancestor (wk_run w) (wk_repository w) (gh_url (wk_ghost w)) e o a e' ->
  gh_claim (after o a (wk_ghost w)) = Some (run, generation) ->
  gh_claim (wk_ghost w) = Some (run, generation) \/
  exists r, runs (en_store e) !! wk_run w = Some r /\ (rn_generation r < generation)%Z.
Proof.
  intros Hserve. destruct o; try (by left); cbn.
  - destruct a; by left.
  - destruct a; by left.
  - destruct a as [[c|]|m]; [|by left..]. intros [= ->]. right. cbn in Hserve.
    destruct (committed_store _ _ _ _ Hserve) as [[_ [m Hm]]|(now & v & s & _ & Hcl & _ & [E|[m E]])]; [done| |done].
    injection E as <-. destruct (claim_answer _ _ _ _ _ _ _ Hcl) as (r & Hr & _ & -> & _). exists r. split; [done|lia].
Qed.

Lemma good_fenced s i w o a e p :
  good s -> sy_workers s !! i = Some w -> serves ancestor (wk_run w) (wk_repository w) (gh_url (wk_ghost w)) (sy_env s) o a e ->
  forall j k v x rv gv rx gx, j <> k ->
    <[i := next_worker w (after o a (wk_ghost w)) p]> (sy_workers s) !! j = Some v ->
    <[i := next_worker w (after o a (wk_ghost w)) p]> (sy_workers s) !! k = Some x -> wk_run v = wk_run x ->
    gh_claim (wk_ghost v) = Some (rv, gv) -> gh_claim (wk_ghost x) = Some (rx, gx) -> gv <> gx.
Proof.
  intros Hg Hi Hserve.
  assert (Hone : forall k x rv gv rx gx, k <> i -> sy_workers s !! k = Some x -> wk_run w = wk_run x ->
    gh_claim (after o a (wk_ghost w)) = Some (rv, gv) -> gh_claim (wk_ghost x) = Some (rx, gx) -> gv <> gx).
  { intros k x rv gv rx gx Hk Hx Er Hv Hxc. destruct (claim_after _ _ _ _ _ _ _ Hserve Hv) as [Hold|(r & Hr & Hlt)].
    - by apply (gd_fenced _ Hg i k w x rv gv rx gx).
    - destruct (wo_claim _ _ (gd_workers _ Hg k x Hx) _ _ Hxc) as [_ (r' & Hr' & _ & Hle & _) _]. rewrite <- Er in Hr'.
      assert (r' = r) as -> by congruence. lia. }
  intros j k v x rv gv rx gx Hjk. rewrite !lookup_insert_Some. intros [[-> <-]|[Hj Hv]] [[-> <-]|[Hk Hx]] Er; [done|..]; cbn in Er.
  - intros H1 H2. by eapply Hone.
  - intros H1 H2 E. symmetry in E. revert E. by eapply Hone.
  - by apply (gd_fenced _ Hg j k).
Qed.

Lemma sync_good_step s s' : good s -> step ancestor open origins enabled s s' -> good s'.
Proof.
  intros Hg Hs. destruct Hs as [i id r storage owner s Hi Hr|i w o k a e s Hi Hp Hserve|i s|now s' s Hn Hh|local remote s]; cbn.
  - split; cbn; [apply Hg| |].
    + intros j w [[<- <-]|[_ Hw]]%lookup_insert_Some; [|by apply (gd_workers _ Hg j)]. split; cbn.
      * apply wp_execute.
      * by exists r.
      * intros x y Hxy. by apply elem_of_nil in Hxy.
      * done.
    + intros j k v x rv gv rx gx Hjk. rewrite !lookup_insert_Some. intros [[-> <-]|[Hj Hv]] [[-> <-]|[Hk Hx]]; try done.
      by apply (gd_fenced _ Hg j k).
  - pose proof (gd_workers _ Hg i w Hi) as Hw.
    destruct (call_ok w o k a (sy_env s) e (gd_journal _ Hg) Hw Hp Hserve) as [(HJ & Hev & Hud & Hself) Hw']. split; cbn; [done| |].
    + intros j v [[<- <-]|[Hne Hv]]%lookup_insert_Some; [done|]. pose proof (gd_workers _ Hg j v Hv) as Hvok.
      eapply worker_ok_frame; [done| |done]. intros run generation r' Hc Hr' Eg.
      destruct (decide (wk_run v = wk_run w)) as [Er|Er]; [|by apply Hud]. rewrite Er in *.
      destruct Hself as [Hq|(rn & gn & r & Hcw & Hr & Egn & Hkeep)]; [done|]. exfalso.
      apply (gd_fenced _ Hg i j w v rn gn run generation); try done. rewrite (Hkeep r' Hr') in Eg. congruence.
    + apply (good_fenced s i w o a e (k a) Hg Hi Hserve).
  - split; cbn; [apply Hg| |].
    + intros j w [_ Hw]%lookup_delete_Some. by apply (gd_workers _ Hg j).
    + intros j k v x rv gv rx gx Hjk [_ Hv]%lookup_delete_Some [_ Hx]%lookup_delete_Some. by apply (gd_fenced _ Hg j k).
  - destruct (journal_handler _ _ _ _ (gd_journal _ Hg) Hh) as [HJ Hq]. split; cbn; [done| |apply (gd_fenced _ Hg)].
    intros i w Hw. eapply worker_ok_quiet; [done|]. by apply (gd_workers _ Hg i).
  - split; cbn; [apply (gd_journal _ Hg)|apply (gd_workers _ Hg)|apply (gd_fenced _ Hg)].
Qed.

Lemma sync_good_steps s s' : rtc (step ancestor open origins enabled) s s' -> good s -> good s'.
Proof. induction 1 as [|s1 s2 s3 H1 H2 IH]; [done|]. intros Hg. apply IH. by eapply sync_good_step. Qed.

(** A new installation. *)
Definition empty_store : store := {| connections := ∅; runs := ∅; refs := ∅; operations := ∅; policies := ∅; catalog := ∅ |}.
Definition installed (s : system) : Prop := en_store (sy_env s) = empty_store /\ sy_workers s = ∅.

Lemma good_installed s : installed s -> good s.
Proof.
  intros [Hs Hw]. split; rewrite ?Hs, ?Hw.
  - split; cbn; [apply valid_table_empty|apply valid_table_empty|done|done].
  - done.
  - done.
Qed.

(** The store only evolves. *)
Lemma step_evolves s s' : good s -> step ancestor open origins enabled s s' -> evolves (en_store (sy_env s)) (en_store (sy_env s')).
Proof.
  intros Hg Hs. destruct Hs as [i id r storage owner s Hi Hr|i w o k a e s Hi Hp Hserve|i s|now s' s Hn Hh|local remote s]; cbn; try reflexivity.
  - apply (call_ok w o k a (sy_env s) e (gd_journal _ Hg) (gd_workers _ Hg i w Hi) Hp Hserve).
  - apply (journal_handler _ _ _ _ (gd_journal _ Hg) Hh).
Qed.
End reach.
