(* ===== verification/SyncRun.v ===== *)
(** * Undisturbed executions

    An executable environment: every call succeeds, the clock stands still
    and nobody else writes.  It is one of the environments of [SyncSystem]
    ([perform_serves]), and a program of the worker runs in it to its end. *)
From S2P Require Import Prelude Programs Table Url RepositorySync SyncStore SyncGit SyncWorker SyncSafety SyncSystem.

Definition synced_name (name : str) : bool := starts_with §"refs/heads/" name || starts_with §"refs/tags/" name.

(** The output of [git ls-remote]. *)
Definition ls_output (m : gmap str str) : str := concat (map ls_line (List.filter (fun e => synced_name e.1) (map_to_list m))).

Lemma lists_output branch m : lists branch m (ls_output m).
Proof.
  exists (List.filter (fun e => synced_name e.1) (map_to_list m)). split_and!; [done| |].
  - intros n sha Hin%list_elem_of_In. apply filter_In in Hin as [Hin%list_elem_of_In%elem_of_map_to_list Hs]. by right.
  - intros n sha Hm Hb. apply list_elem_of_In, filter_In. split; [by apply list_elem_of_In, elem_of_map_to_list|].
    unfold synced_name. cbn [fst]. destruct branch as [b|]; [|done]. subst n. unfold head_of.
    by rewrite (proj2 (starts_with_iff _ _) (ex_intro _ b eq_refl)).
Qed.

Section perform.
Context (ancestor : str -> str -> bool) (id repository : N).

Abbreviation state := (str * env)%type.

Definition failed : Error := Unavailable §"git_operation_failed".

Definition commit {A} (st : state) (t : Z -> store -> tx A) : result A Error * state :=
  match t (en_clock st.2) (en_store st.2) with
  | Ok (v, s) => (Ok v, (st.1, written (en_clock st.2) s st.2))
  | Err m => (Err m, st)
  end.

Definition perform (st : state) (o : op) : answer o * state :=
  match o return answer o * state with
  | InitScratch url => (Ok tt, (url, st.2))
  | LsRemote remote _ => (Ok (Some (ls_output (destination remote repository st.1 st.2))), st)
  | FetchRefs _ _ => (Ok tt, st)
  | MergeBase old new => (if ancestor old new then Ok tt else Err failed, st)
  | PushRef remote name old new =>
    let d := destination remote repository st.1 st.2 in
    if bool_decide (d !! name = old) then (Ok tt, (st.1, set_destination remote repository st.1 (<[name := new]> d) st.2)) else (Err failed, st)
  | EnterEffect _ => (true, st)
  | CatalogLease => (Ok true, st)
  | AcquireGuard | CleanScratch => (Ok tt, st)
  | ReserveCapacity | TakeSlot => (Ok true, st)
  | LeaseHealthy => (true, st)
  | WatchLost => (false, st)
  | ReadRunState => commit st (reads (fun _ s => match runs s !! id with
      | Some r => Ok (rn_state r, rn_cancel_requested r) | None => Err NotFound end))
  | ReadCredential connection => commit st (reads (fun _ s => Ok (sn_credential <$> connection_of repository connection s)))
  | ReadRefs => commit st (reads (fun _ s => Ok (run_refs id s)))
  | ReadProtected => commit st (reads (fun _ s => Ok (match catalog s !! repository with Some r => rp_protected r | None => [] end)))
  | ClaimRun owner => commit st (fun now => claim now id owner)
  | RecordPlan rows => commit st (writes (fun now s => Ok (record_plan now id rows s)))
  | AllowedToApply owner generation => commit st (reads (fun now s => Ok (allowed_to_apply now id owner generation s)))
  | SetRefState name status reason owner generation => commit st (writes (fun now => ref_state now id name status reason owner generation))
  | FinishRun owner generation status message => commit st (writes (fun now => finish now id owner generation status message))
  end.

Lemma commit_committed {A} st (t : Z -> store -> tx A) : committed st.2 t (commit st t).1 (commit st t).2.2.
Proof.
  unfold commit. destruct (t _ _) as [[v s]|m] eqn:E; cbn; [|apply committed_err]. by apply committed_ok.
Qed.

(** These answers are answers of the system. *)
Lemma perform_serves st o : serves ancestor id repository st.1 st.2 o (perform st o).1 (perform st o).2.2.
Proof.
  destruct o; cbn [serves perform fst snd]; try done; try apply commit_committed.
  - split; [done|]. intros text [= <-]. apply lists_output.
  - split; [done|]. by destruct (ancestor old new).
  - case_bool_decide; cbn; [right; done|by left].
Qed.
End perform.

(** The execution of a program for a run. *)
Abbreviation run_io ancestor id repository := (Programs.run_io (perform ancestor id repository)).

(** ** Reading references back *)

(** What Git guarantees of its references and object identifiers. *)
Definition git_entry (name sha : str) : bool :=
  synced_name name && negb (ends_with §"^{}" name) && negb (char_in name 10) && negb (char_in name 13) && is_object_id sha.
Definition git_refs_ok (m : gmap str str) : Prop := forall name sha, m !! name = Some sha -> git_entry name sha = true.

Definition scoped (s : GitSession) (m : gmap str str) : gmap str str := filter (fun e => in_scope s e.1 = true) m.

Lemma lookup_scoped s m name : scoped s m !! name = if in_scope s name then m !! name else None.
Proof.
  unfold scoped. rewrite map_lookup_filter. destruct (m !! name) as [sha|]; cbn; [|by destruct (in_scope s name)].
  unfold guard. cbn. destruct (decide (in_scope s name = true)) as [E|E]; [by rewrite E|]. apply not_true_is_false in E. by rewrite E.
Qed.

Definition ref_line (entry : str * str) : str := entry.2 ++ 9%N :: entry.1.

Lemma object_id_digits sha c : is_object_id sha = true -> c ∈ sha -> is_ascii_hexdigit c = true.
Proof.
  unfold is_object_id. intros [_ Hd]%andb_true_iff Hc. rewrite forallb_iff in Hd.
  assert (Hchar : forall b, b ∈ char_bytes c -> is_ascii_hexdigit b = true).
  { intros b Hb. apply Hd. apply list_elem_of_In, in_flat_map. exists c. by rewrite <- !list_elem_of_In. }
  unfold char_bytes in Hchar. destruct (N.ltb_spec c 0x80) as [Hlt|Hge]; [apply Hchar; left|]. exfalso.
  destruct (c <? 0x800)%N; [|destruct (c <? 0x10000)%N]; specialize (Hchar _ ltac:(left)); revert Hchar;
    unfold is_ascii_hexdigit, is_ascii_digit; rewrite !orb_true_iff, !between_iff; generalize (c / 64)%N, (c / 4096)%N, (c / 262144)%N; intros; lia.
Qed.

Lemma git_entry_facts name sha : git_entry name sha = true ->
  synced_name name = true /\ ends_with §"^{}" name = false /\ 10%N ∉ ref_line (name, sha) /\ 13%N ∉ ref_line (name, sha) /\
  9%N ∉ sha /\ is_object_id sha = true.
Proof.
  unfold git_entry. rewrite !andb_true_iff, !negb_true_iff. intros [[[[Hs He] Hn] Hr] Ho].
  assert (Hsha : forall c, is_ascii_hexdigit c = false -> c ∉ sha).
  { intros c Hc Hin. by rewrite (object_id_digits sha c Ho Hin) in Hc. }
  assert (Hline : forall c, c <> 9%N -> is_ascii_hexdigit c = false -> char_in name c = false -> c ∉ ref_line (name, sha)).
  { intros c Hne Hc Hn'. unfold ref_line. cbn. rewrite elem_of_app, elem_of_cons. intros [Hin|[?|Hin]]; [by eapply Hsha|done|].
    apply not_true_iff_false in Hn'. apply Hn'. by apply char_in_iff. }
  split_and!; [done|done|by apply Hline|by apply Hline|by apply Hsha|done].
Qed.

Lemma strip_cr_clean l : 13%N ∉ l -> strip_cr l = l.
Proof.
  intros Hn. unfold strip_cr. destruct (ends_with [13%N] l) eqn:E; [|done]. exfalso. unfold ends_with in E.
  apply starts_with_iff in E as [r E]. apply Hn. apply list_elem_of_In, in_rev. rewrite E. left. done.
Qed.

Lemma lines_output entries : (forall e, e ∈ entries -> 10%N ∉ ref_line e /\ 13%N ∉ ref_line e) ->
  lines (concat (map ls_line entries)) = map ref_line entries.
Proof.
  intros He. assert (Hsplit : split 10%N (concat (map ls_line entries)) = map ref_line entries ++ [[]]).
  { induction entries as [|e entries IH]; [done|]. cbn [map concat app].
    replace (ls_line e ++ concat (map ls_line entries)) with (ref_line e ++ 10%N :: concat (map ls_line entries)).
    - rewrite split_app by (apply He; left). f_equal. apply IH. intros x Hx. apply He. by right.
    - unfold ls_line, ref_line. by rewrite <- !app_assoc. }
  unfold lines. rewrite Hsplit, rev_app_distr. cbn [rev app]. rewrite rev_involutive, app_nil_r. rewrite <- (map_id (map ref_line entries)) at 2.
  apply map_ext_in. intros l Hl%list_elem_of_In. apply list_elem_of_fmap in Hl as (e & -> & Hin). apply strip_cr_clean. by apply He.
Qed.

Lemma split_once_tab name sha : 9%N ∉ sha -> split_once [9%N] (ref_line (name, sha)) = Some (sha, name).
Proof.
  intros Ht. by apply split_once_char.
Qed.

Lemma parse_entries s entries acc : (forall e, e ∈ entries -> git_entry e.1 e.2 = true) -> NoDup (map fst entries) ->
  (forall n, n ∈ map fst entries -> acc !! n = None) ->
  exists m, rfold (parse_ref s) acc (map ref_line entries) = Ok m /\
    forall n, m !! n = match acc !! n with Some v => Some v | None => if in_scope s n then (list_to_map entries : gmap str str) !! n else None end.
Proof.
  revert acc. induction entries as [|[n sha] entries IH]; intros acc He Hnd Hacc; cbn [map rfold].
  { exists acc. split; [done|]. intros n. destruct (acc !! n); [done|]. by destruct (in_scope s n). }
  destruct (git_entry_facts n sha (He (n, sha) ltac:(left))) as (Hs & Hp & _ & _ & Ht & Ho).
  unfold parse_ref at 1. rewrite split_once_tab by done. rewrite Hp. unfold synced_name in Hs. rewrite Hs, Ho. cbn [negb orb rbind].
  cbn [map fst] in Hnd. apply NoDup_cons in Hnd as [Hni Hnd].
  destruct (IH (if in_scope s n then <[n := sha]> acc else acc)) as (m & Hm & Hl); [intros e Hin; apply He; by right|done| |].
  { intros k Hk. assert (k <> n) by congruence. assert (acc !! k = None) by (apply Hacc; by right).
    destruct (in_scope s n); [by rewrite lookup_insert_ne|done]. }
  exists m. split; [done|]. intros k. rewrite Hl. cbn [list_to_map foldr fst snd]. destruct (decide (k = n)) as [->|Hne].
  - rewrite (Hacc n ltac:(left)), lookup_insert_eq. destruct (in_scope s n) eqn:E; [by rewrite lookup_insert_eq|].
    by rewrite (Hacc n ltac:(left)).
  - rewrite (lookup_insert_ne _ n k) by done. destruct (in_scope s n); [by rewrite lookup_insert_ne|done].
Qed.

(** What [git ls-remote] prints is read back, restricted to the scope. *)
Lemma parse_refs_output s m : git_refs_ok m -> parse_refs s (Some (ls_output m)) = Ok (scoped s m).
Proof.
  intros Hm. unfold parse_refs, ls_output. set (entries := List.filter _ _).
  assert (Hall : entries = map_to_list m).
  { unfold entries. apply forallb_filter_id, forallb_iff. intros [n sha] Hin%elem_of_map_to_list.
    by destruct (git_entry_facts n sha (Hm n sha Hin)). }
  rewrite Hall. assert (He : forall e, e ∈ map_to_list m -> git_entry e.1 e.2 = true).
  { intros [n sha] Hin%elem_of_map_to_list. by apply Hm. }
  rewrite lines_output.
  - destruct (parse_entries s (map_to_list m) ∅ He) as (m' & -> & Hl); [apply NoDup_fst_map_to_list|by intros n _|].
    f_equal. apply map_eq. intros n. rewrite Hl, lookup_scoped, lookup_empty, list_to_map_to_list. done.
  - intros [n sha] Hin. destruct (git_entry_facts n sha (He _ Hin)) as (_ & _ & ? & ? & _). done.
Qed.
