(* ===== verification/SyncSample.v ===== *)
(** * A synchronised repository

    A connection is saved, a run enqueued and a worker started; [drive] runs
    a worker call by call in the environment of [SyncRun].  The witnesses of
    the theorems on synchronisation evaluate these systems. *)
From S2P Require Import Prelude Programs Table Url RepositorySync SyncStore SyncGit SyncWorker SyncSafety SyncSystem SyncJournal SyncReach SyncRun.

(** ** Driving a worker *)

Section drive.
Context (ancestor : str -> str -> bool) `{UrlCrate} (open : str -> result str Error) (origins : list str) (enabled : bool).

Definition drive_worker (i : N) (w : worker) (s : system) : system :=
  match wk_program w with
  | Done _ => s
  | Call o k =>
    let r := perform ancestor (wk_run w) (wk_repository w) (gh_url (wk_ghost w), sy_env s) o in
    {| sy_env := r.2.2;
       sy_workers := <[i := {| wk_run := wk_run w; wk_repository := wk_repository w; wk_ghost := after o r.1 (wk_ghost w);
                               wk_program := k r.1 |}]> (sy_workers s) |}
  end.

(** [n] calls of the worker [i]. *)
Fixpoint drive (n : nat) (i : N) (s : system) : system :=
  match n with
  | O => s
  | S n => match sy_workers s !! i with Some w => drive n i (drive_worker i w s) | None => s end
  end.

Lemma drive_steps n i s : rtc (step ancestor open origins enabled) s (drive n i s).
Proof.
  revert s. induction n as [|n IH]; intros s; [done|]. cbn [drive]. destruct (sy_workers s !! i) as [w|] eqn:Ew; [|done].
  etransitivity; [|apply IH]. unfold drive_worker. destruct (wk_program w) as [a|o k] eqn:Ep; [done|]. apply rtc_once.
  apply step_call with (o := o) (k := k); [done|done|]. apply (perform_serves ancestor (wk_run w) (wk_repository w) (gh_url (wk_ghost w), sy_env s) o).
Qed.

(** The push a worker is about to make. *)
Definition next_push (i : N) (s : system) : option (bool * str * option str * str) :=
  match wk_program <$> sy_workers s !! i with
  | Some (Call (PushRef remote name old new) _) => Some (remote, name, old, new)
  | _ => None
  end.

Lemma next_push_Some i s remote name old new : next_push i s = Some (remote, name, old, new) ->
  exists w k, sy_workers s !! i = Some w /\ wk_program w = Call (PushRef remote name old new) k.
Proof.
  unfold next_push. destruct (sy_workers s !! i) as [w|]; [|done]. cbn [fmap option_fmap option_map].
  destruct (wk_program w) as [a|o k] eqn:E; [done|]. destruct o; try done. intros [= <- <- <- <-]. by exists w, k.
Qed.
End drive.

(** ** The system *)

Definition main : str := §"refs/heads/main".
Definition old_commit : str := repeat 97%N 40.
Definition new_commit : str := repeat 98%N 40.
Definition sample_ancestor (old new : str) : bool := str_eqb old old_commit && str_eqb new new_commit.

Definition sample_settings (d : Direction) : Settings := {|
  ss_provider := Github; ss_instance_url := §"https://github.com"; ss_repository_path := §"team/repo"; ss_direction := d;
  ss_automatic := true; ss_branch := None; ss_protected_branch_updates := Blocked |}.

Definition sample_access : Access := {| ac_actor := 1; ac_project := None; ac_admin := true; ac_machine := false; ac_writable := true |}.
Definition sample_schedule : SyncSchedule := {| sc_interval_seconds := 60; sc_on_change := true |}.
Definition sample_open (token : str) : result str Error := Ok token.

Definition sample_env (s : store) : env := {|
  en_clock := 0; en_store := s; en_local := {[1%N := {[main := new_commit]}]};
  en_remote := {[§"https://github.com/team/repo.git" := {[main := old_commit]}]} |}.

Definition sample_catalog : store := {|
  connections := ∅; runs := ∅; refs := ∅; operations := ∅; policies := ∅;
  catalog := {[1%N := {| rp_ready := true; rp_active := true; rp_storage := §"repo"; rp_protected := [§"main"] |}]} |}.

Definition stored {A} (r : tx A) : store := match r with Ok (_, s) => s | Err _ => empty_store end.

Definition save_sample (version : Z) (key : N) (d : Direction) (s : store) : tx Connection :=
  save 0 false true sample_schedule 1 2 key None sample_access
    {| si_expected_version := version; si_settings := sample_settings d; si_token := None |} (Some §"token") §"fingerprint" s.
Definition saved : store := stored (save_sample 0 10 Both sample_catalog).
Definition enqueue_sample (s : store) : tx (N * SyncRun) := enqueue_at 0 3 false 1 2 Manual None s.
Definition enqueued : store := stored (enqueue_sample saved).

Definition sample_system (s : store) : system := {| sy_env := sample_env s; sy_workers := ∅ |}.

Section sample.
#[local] Instance the_crate : UrlCrate := sample_crate.
Abbreviation steps := (rtc (step sample_ancestor sample_open [] true)).

Definition start (owner : N) (s : system) : system := {|
  sy_env := sy_env s;
  sy_workers := <[owner := {| wk_run := 3; wk_repository := 1; wk_ghost := new_ghost owner;
                              wk_program := execute sample_open [] true §"repo" owner |}]> (sy_workers s) |}.

Lemma handler_step now s s' : (0 <= now)%Z -> handler now s s' -> step sample_ancestor sample_open [] true (sample_system s)
  {| sy_env := written now s' (sample_env s); sy_workers := ∅ |}.
Proof. intros Hn Hh. by apply (step_handler _ _ _ _ now s' (sample_system s)). Qed.

Lemma enqueued_steps : steps (sample_system empty_store) (sample_system enqueued).
Proof.
  eapply rtc_l; [apply (handler_step 0 _ sample_catalog); [done|apply (h_catalog 0 empty_store)]|].
  assert (Hs : exists v, save_sample 0 10 Both sample_catalog = Ok (v, saved)) by (eexists; vm_compute; reflexivity). destruct Hs as [v Hs].
  eapply rtc_l; [apply (handler_step 0 _ saved); [done|eapply h_save; exact Hs]|].
  assert (He : exists v, enqueue_sample saved = Ok (v, enqueued)) by (eexists; vm_compute; reflexivity). destruct He as [r He].
  eapply rtc_l; [apply (handler_step 0 _ enqueued); [done|eapply h_enqueue; exact He]|]. reflexivity.
Qed.

Lemma installed_sample : installed (sample_system empty_store).
Proof. done. Qed.

(** A worker of the run 3 that is driven for [n] calls. *)
Definition driven (n : nat) : system := drive sample_ancestor n 7 (start 7 (sample_system enqueued)).

Lemma start_step : step sample_ancestor sample_open [] true (sample_system enqueued) (start 7 (sample_system enqueued)).
Proof.
  assert (Hr : exists r, runs enqueued !! 3%N = Some r /\ rn_repository r = 1%N) by (eexists; split; vm_compute; reflexivity).
  destruct Hr as (r & Hr & E). unfold start. rewrite <- E. by apply (step_start _ _ _ _ 7 3 r §"repo" 7 (sample_system enqueued)).
Qed.

Lemma driven_steps n : steps (sample_system empty_store) (driven n).
Proof.
  etransitivity; [apply enqueued_steps|]. eapply rtc_l; [apply start_step|]. apply drive_steps.
Qed.
End sample.
