(* ===== verification/SyncExecute.v ===== *)
(** * The execution of a run, undisturbed

    With working calls the worker brings every reference of the scope to the
    state [RepositorySync.planned] asks for, journals it and ends the run. *)
From S2P Require Import Prelude Programs Table Url RepositorySync SyncStore SyncGit SyncWorker SyncSafety SyncSystem SyncJournal SyncReach SyncRun SyncSample.

(** ** Git in the executable environment *)

Section git.
Context (ancestor : str -> str -> bool) (id repository : N).
Abbreviation run_io := (run_io ancestor id repository).

Lemma run_git_refs s remote st : git_refs_ok (destination remote repository st.1 st.2) ->
  run_io (git_refs s remote) st = (Ok (scoped s (destination remote repository st.1 st.2)), st).
Proof.
  intros Hok. unfold git_refs.
  rewrite (run_try (perform ancestor id repository) (call (LsRemote remote (scope_branch s))) _ st (Some (ls_output (destination remote repository st.1 st.2))) st eq_refl).
  cbn [Programs.run_io]. by rewrite parse_refs_output.
Qed.

Lemma run_ancestor old new st : run_io (git_ancestor old new) st = (ancestor old new, st).
Proof. cbn. by destruct (ancestor old new). Qed.

(** A source that has the branch of the scope. *)
Definition has_source (s : GitSession) (remote : bool) (m : gmap str str) : Prop :=
  forall branch d, gs_scope s = Some (branch, d) -> source_side d remote = true -> m !! head_of branch <> None.

Lemma run_fetch_side s remote st : git_refs_ok (destination remote repository st.1 st.2) ->
  has_source s remote (destination remote repository st.1 st.2) -> run_io (fetch_side s remote) st = (Ok tt, st).
Proof.
  intros Hok Hsrc. unfold fetch_side. destruct (gs_scope s) as [[branch d]|] eqn:Es; [|done].
  rewrite (run_try _ _ _ _ _ _ (run_git_refs s remote st Hok)). case_bool_decide as He; [|done].
  destruct (source_side d remote) eqn:Ed; [|done]. exfalso.
  pose proof (Hsrc branch d Es Ed) as Hh. apply Hh. pose proof (lookup_scoped s (destination remote repository st.1 st.2) (head_of branch)) as Hl.
  rewrite He, lookup_empty in Hl. unfold in_scope in Hl. rewrite Es in Hl. unfold str_eqb in Hl. rewrite bool_decide_eq_true_2 in Hl by done.
  done.
Qed.

Lemma run_fetch s st : (forall remote, git_refs_ok (destination remote repository st.1 st.2) /\ has_source s remote (destination remote repository st.1 st.2)) ->
  run_io (git_fetch s) st = (Ok tt, st).
Proof.
  intros Hok. unfold git_fetch. destruct (Hok false), (Hok true). rewrite (run_try _ _ _ _ _ _ (run_fetch_side s false st ltac:(done) ltac:(done))).
  by apply run_fetch_side.
Qed.

Lemma run_apply s remote name old new st :
  let d := destination remote repository st.1 st.2 in
  git_refs_ok d -> in_scope s name = true -> d !! name = old -> (forall o, old = Some o -> is_tag name = false /\ ancestor o new = true) ->
  run_io (git_apply s remote name old new) st = (Ok tt, (st.1, set_destination remote repository st.1 (<[name := new]> d) st.2)).
Proof.
  intros d Hok Hs Hold Hfw. subst d. unfold git_apply. rewrite Hs. cbn [negb]. rewrite (run_try _ _ _ _ _ _ (run_git_refs s remote st Hok)).
  rewrite lookup_scoped, Hs, Hold, bool_decide_eq_true_2 by done. cbn [negb].
  assert (Ha : run_io (check_ancestry name old new) st = (true, st)).
  { destruct old as [o|]; [|done]. destruct (Hfw o eq_refl) as [Ht Hanc]. unfold check_ancestry. rewrite Ht.
    by rewrite run_ancestor, Hanc. }
  rewrite (run_bind _ _ _ _ _ _ Ha). cbn. by rewrite Hold, bool_decide_eq_true_2.
Qed.

(** ** The plan *)

Definition plan_of (settings : Settings) (protected : list str) (local remote : gmap str str) (name : str) : RefPlan :=
  planned ancestor (ss_direction settings) (is_tag name) (is_protected protected name && negb (permits_protected_pull settings))
    (local !! name, remote !! name).

Lemma plan_ref_tag d tag protected a b x y : tag = true \/ a = b ->
  plan_ref d tag protected a b x y = plan_ref d tag protected a b false false.
Proof.
  intros Ht. unfold plan_ref. destruct (bool_decide (d = Disabled)) eqn:Ed; [done|]. cbn.
  destruct Ht as [->| ->]; [|by rewrite bool_decide_eq_true_2]. by destruct (bool_decide (a = b)), d, a, b.
Qed.

Lemma plan_ref_missing d tag protected a b x y : a = None \/ b = None ->
  plan_ref d tag protected a b x y = plan_ref d tag protected a b false false.
Proof. intros [->| ->]; unfold plan_ref; destruct (_ || _), d; try done; try (by destruct a); by destruct b. Qed.

Lemma run_plan_one settings protected local remote name st :
  run_io (plan_one settings protected local remote name) st =
  ((name, planned_row (plan_of settings protected local remote name) (local !! name) (remote !! name)), st).
Proof.
  unfold plan_one, plan_of, planned. cbn [fst snd]. set (a := local !! name). set (b := remote !! name).
  assert (Hanc : exists xy, run_io (ancestry name a b) st = (xy, st) /\
    forall prot, plan_ref (ss_direction settings) (is_tag name) prot a b xy.1 xy.2 =
                 plan_ref (ss_direction settings) (is_tag name) prot a b (is_ancestor ancestor a b) (is_ancestor ancestor b a)).
  { unfold ancestry. destruct a as [a|], b as [b|].
    2,3,4: exists (false, false); split; [done|]; intros prot; symmetry; apply plan_ref_missing; auto.
    destruct (is_tag name) eqn:Et; cbn [negb andb].
    { exists (false, false). split; [done|]. intros prot. symmetry. apply plan_ref_tag. by left. }
    unfold str_eqb. case_bool_decide as Eab; cbn [negb].
    { exists (false, false). split; [done|]. intros prot. symmetry. apply plan_ref_tag. right. by rewrite Eab. }
    exists (ancestor a b, ancestor b a). split; [|done].
    rewrite (run_bind _ _ _ _ _ _ (run_ancestor a b st)), (run_bind _ _ _ _ _ _ (run_ancestor b a st)). done. }
  destruct Hanc as (xy & Hrun & Hplan). rewrite (run_bind _ _ _ _ _ _ Hrun). cbn. by rewrite Hplan.
Qed.

Definition plan_rows (settings : Settings) (protected : list str) (local remote : gmap str str) : list (str * RefResult) :=
  map (fun name => (name, planned_row (plan_of settings protected local remote name) (local !! name) (remote !! name))) (all_names local remote).

Lemma run_plan_all settings protected local remote st :
  run_io (plan_all settings protected local remote (all_names local remote)) st = (plan_rows settings protected local remote, st).
Proof.
  unfold plan_rows. induction (all_names local remote) as [|name names IH]; [done|]. cbn [plan_all map].
  rewrite (run_bind _ _ _ _ _ _ (run_plan_one settings protected local remote name st)), (run_bind _ _ _ _ _ _ IH). done.
Qed.
End git.

(** ** The references *)

(** How a planned reference ends. *)
Definition goal_state (p : RefPlan) : ref_status :=
  match p with
  | PlanPull | PlanPush => RefApplied
  | PlanProtected => RefBlocked
  | PlanConflict => RefConflict
  | PlanNoChange => RefUnchanged
  end.

Section process.
Context (ancestor : str -> str -> bool) (id repository : N) (session : GitSession) (settings : Settings) (owner : N) (generation : Z).
Context (protected : list str) (local0 remote0 : gmap str str) (url : str) (now : Z) (run : SyncRun).
Abbreviation run_io := (SyncRun.run_io ancestor id repository).

Let L := scoped session local0.
Let R := scoped session remote0.
Let plan := plan_of ancestor settings protected L R.
Let row (n : str) : RefResult := planned_row (plan n) (L !! n) (R !! n).
Let final (n : str) : option str * option str := RepositorySync.apply (plan n) (L !! n, R !! n).

Hypothesis (Hlocal : git_refs_ok local0) (Hremote : git_refs_ok remote0).

(** The state after the references [done]. *)
Record progress (done : list str) (st : str * env) : Prop := {
  pg_url : st.1 = url;
  pg_clock : en_clock st.2 = now;
  pg_run : runs (en_store st.2) !! id = Some run;
  pg_owned : owns owner generation run && leased now run = true;
  pg_allowed : allowed_to_apply now id owner generation (en_store st.2) = true;
  pg_protected : match catalog (en_store st.2) !! repository with Some r => rp_protected r | None => [] end = protected;
  pg_local : forall n, destination false repository url st.2 !! n = if bool_decide (n ∈ done) then (final n).1 else local0 !! n;
  pg_remote : forall n, destination true repository url st.2 !! n = if bool_decide (n ∈ done) then (final n).2 else remote0 !! n;
  pg_refs : forall n, n ∈ all_names L R -> exists f, refs (en_store st.2) !! (id, n) = Some f /\ same_ref (row n) f /\
    rf_state f = if bool_decide (n ∈ done) then goal_state (plan n) else rf_state (row n) }.

Lemma L_ok : git_refs_ok L.
Proof. intros n sha Hn. apply Hlocal. unfold L in Hn. rewrite lookup_scoped in Hn. by destruct (in_scope session n). Qed.
Lemma R_ok : git_refs_ok R.
Proof. intros n sha Hn. apply Hremote. unfold R in Hn. rewrite lookup_scoped in Hn. by destruct (in_scope session n). Qed.

Lemma final_ok n : (forall sha, (final n).1 = Some sha -> git_entry n sha = true) /\ (forall sha, (final n).2 = Some sha -> git_entry n sha = true).
Proof.
  pose proof L_ok as HL. pose proof R_ok as HR. unfold final. destruct (plan n); cbn; split; intros sha Hs;
    first [by apply (HL n)|by apply (HR n)].
Qed.

Lemma progress_refs_ok remote done st : progress done st -> git_refs_ok (destination remote repository url st.2).
Proof.
  intros Hp n sha. destruct remote; [rewrite (pg_remote _ _ Hp)|rewrite (pg_local _ _ Hp)]; case_bool_decide;
    [apply final_ok|apply Hremote|apply final_ok|apply Hlocal].
Qed.

Lemma in_names n : n ∈ all_names L R -> in_scope session n = true /\ (is_Some (L !! n) \/ is_Some (R !! n)).
Proof.
  unfold all_names. rewrite elem_of_sort_dedup, elem_of_app, !elem_of_keys. intros Hn. split; [|done].
  destruct Hn as [[v Hv]|[v Hv]]; unfold L, R in Hv; rewrite lookup_scoped in Hv; by destruct (in_scope session n).
Qed.

(** The journal row of a settled reference. *)
Lemma run_record name status reason st f :
  en_clock st.2 = now -> runs (en_store st.2) !! id = Some run -> owns owner generation run && leased now run = true ->
  refs (en_store st.2) !! (id, name) = Some f ->
  run_io (record owner generation name status reason) st =
  (Ok status, (st.1, written now (set_refs (insert (id, name) (set_ref_state status reason f)) (en_store st.2)) st.2)).
Proof.
  intros Hc Hr Ho Hf. unfold record, try_bind, call. cbn [io_bind Programs.run_io perform]. unfold commit, writes, ref_state.
  rewrite Hc, Hf, Hr, Ho. done.
Qed.

Lemma done_other (n name : str) done : n <> name -> bool_decide (n ∈ name :: done) = bool_decide (n ∈ done).
Proof. intros Hne. apply bool_decide_ext. rewrite elem_of_cons. tauto. Qed.
Lemma done_self (name : str) done : bool_decide (name ∈ name :: done) = true.
Proof. apply bool_decide_eq_true_2. left. Qed.

(** A reference that is written: [st] is the state before, [st1] after the
    push. *)
Lemma progress_record done name reason st st1 f :
  progress done st -> refs (en_store st.2) !! (id, name) = Some f -> same_ref (row name) f ->
  st1.1 = st.1 -> en_clock st1.2 = en_clock st.2 -> en_store st1.2 = en_store st.2 ->
  (forall remote n, n <> name -> destination remote repository url st1.2 !! n = destination remote repository url st.2 !! n) ->
  destination false repository url st1.2 !! name = (final name).1 -> destination true repository url st1.2 !! name = (final name).2 ->
  progress (name :: done) (st1.1, written now (set_refs (insert (id, name) (set_ref_state (goal_state (plan name)) reason f)) (en_store st1.2)) st1.2).
Proof.
  intros [P1 P2 P3 P4 P5 P6 P7 P8 P9] Hf Hs E1 E2 E3 Hother Hfl Hfr. rewrite E3. split; cbn [fst snd]; try done; [congruence|..].
  - intros n. change (destination false repository url st1.2 !! n = if bool_decide (n ∈ name :: done) then (final n).1 else local0 !! n).
    destruct (decide (n = name)) as [->|Hne]; [by rewrite done_self|]. by rewrite done_other, (Hother false), P7 by done.
  - intros n. change (destination true repository url st1.2 !! n = if bool_decide (n ∈ name :: done) then (final n).2 else remote0 !! n).
    destruct (decide (n = name)) as [->|Hne]; [by rewrite done_self|]. by rewrite done_other, (Hother true), P8 by done.
  - intros n Hnn. cbn. destruct (decide (n = name)) as [->|Hne].
    + exists (set_ref_state (goal_state (plan name)) reason f). rewrite lookup_insert_eq, done_self. by split_and!.
    + destruct (P9 n Hnn) as (g & Hg & Hsg & Hst). exists g. rewrite lookup_insert_ne, done_other by congruence. by split_and!.
Qed.

(** A reference that is not written. *)
Lemma progress_settled done name st : progress done st -> name ∉ done -> rf_state (row name) = goal_state (plan name) ->
  final name = (L !! name, R !! name) -> in_scope session name = true -> progress (name :: done) st.
Proof.
  intros [P1 P2 P3 P4 P5 P6 P7 P8 P9] Hn Hst Hfin Hsc. split; try done.
  - intros n. rewrite P7. destruct (decide (n = name)) as [->|Hne]; [|by rewrite done_other].
    rewrite bool_decide_eq_false_2, done_self, Hfin by done. cbn. unfold L. by rewrite lookup_scoped, Hsc.
  - intros n. rewrite P8. destruct (decide (n = name)) as [->|Hne]; [|by rewrite done_other].
    rewrite bool_decide_eq_false_2, done_self, Hfin by done. cbn. unfold R. by rewrite lookup_scoped, Hsc.
  - intros n Hnn. destruct (P9 n Hnn) as (g & Hg & Hsg & Hsst). exists g. split_and!; [done|done|]. rewrite Hsst.
    destruct (decide (n = name)) as [->|Hne]; [by rewrite bool_decide_eq_false_2, done_self by done|by rewrite done_other].
Qed.

Lemma destination_set remote r m e :
  destination remote repository url (set_destination r repository url m e) = if Bool.eqb remote r then m else destination remote repository url e.
Proof. destruct remote, r; cbn; try done; by rewrite lookup_insert_eq. Qed.

(** Pushing a reference and recording it. *)
Lemma run_write done name remote old wanted st f :
  progress done st -> name ∈ all_names L R -> refs (en_store st.2) !! (id, name) = Some f -> same_ref (row name) f ->
  destination remote repository url st.2 !! name = old ->
  (forall o, old = Some o -> is_tag name = false /\ ancestor o wanted = true) ->
  plan name = (if remote then PlanPush else PlanPull) ->
  final name = (Some wanted, Some wanted) -> destination (negb remote) repository url st.2 !! name = Some wanted ->
  exists st', run_io (write_ref session owner generation remote name old wanted) st = (Ok (goal_state (plan name)), st') /\ progress (name :: done) st'.
Proof.
  intros Hp Hin Hf Hs Hold Hfw Hplan Hfin Hother. destruct (in_names name Hin) as [Hsc _].
  assert (Hgoal : goal_state (plan name) = RefApplied) by (rewrite Hplan; by destruct remote).
  unfold write_ref. pose proof (progress_refs_ok remote done st Hp) as Hok. rewrite <- (pg_url _ _ Hp) in Hold, Hok, Hother.
  rewrite (run_bind _ _ _ _ _ _ (run_apply ancestor id repository session remote name old wanted st Hok Hsc Hold Hfw)).
  set (st1 := (st.1, set_destination remote repository st.1 (<[name := wanted]> (destination remote repository st.1 st.2)) st.2)).
  eexists. split.
  - rewrite Hgoal. apply (run_record name RefApplied None st1 f); [apply (pg_clock _ _ Hp)|apply (pg_run _ _ Hp)|apply (pg_owned _ _ Hp)|done].
  - rewrite <- Hgoal. rewrite (pg_url _ _ Hp) in *.
    assert (Hd : forall r, destination r repository url st1.2 =
      if Bool.eqb r remote then <[name := wanted]> (destination remote repository url st.2) else destination r repository url st.2).
    { intros r. unfold st1. cbn [snd]. rewrite (pg_url _ _ Hp). apply destination_set. }
    apply (progress_record done name None st st1 f); try done.
    + intros r n Hne. rewrite Hd. destruct (Bool.eqb r remote) eqn:E; [|done]. apply eqb_prop in E as ->. by rewrite lookup_insert_ne.
    + rewrite Hd, Hfin. destruct remote; cbn [Bool.eqb fst snd]; [exact Hother|by rewrite lookup_insert_eq].
    + rewrite Hd, Hfin. destruct remote; cbn [Bool.eqb fst snd]; [by rewrite lookup_insert_eq|exact Hother].
Qed.

Lemma plan_ref_unequal d tag prot a b x y p : plan_ref d tag prot a b x y = p -> p <> PlanNoChange -> a <> b.
Proof. unfold plan_ref. intros E Hp ->. rewrite (bool_decide_eq_true_2 (b = b)), orb_true_r in E by done. congruence. Qed.

Lemma plan_ref_unprotected d tag prot a b x y : plan_ref d tag prot a b x y = PlanPull -> prot = false.
Proof.
  unfold plan_ref. destruct (bool_decide (d = Disabled) || _); [done|]. cbv zeta. destruct prot; [|done]. rewrite andb_true_r.
  case_bool_decide; congruence.
Qed.

Lemma settled_state f s : rf_state f = s -> s <> RefPlanned -> s <> RefUnknown -> settled f = true.
Proof. intros <- H1 H2. unfold settled. by rewrite !bool_decide_eq_false_2. Qed.

(** A planned reference is observed, allowed, permitted and written. *)
Lemma run_planned done name f g wanted st (outgoing : bool) :
  let old := if outgoing then R !! name else L !! name in
  progress done st -> name ∉ done -> name ∈ all_names L R -> refs (en_store st.2) !! (id, name) = Some g -> same_ref (row name) g ->
  rf_state f = RefPlanned -> rf_direction f = (if outgoing then RefPush else RefPull) -> rf_old f = old -> rf_new f = Some wanted ->
  old <> Some wanted -> (if outgoing then L !! name else R !! name) = Some wanted ->
  (forall o, old = Some o -> is_tag name = false /\ ancestor o wanted = true) ->
  (outgoing = false -> is_protected protected name && negb (permits_protected_pull settings) = false) ->
  plan name = (if outgoing then PlanPush else PlanPull) ->
  exists st', run_io (process_ref session settings owner generation true true name f) st = (Ok (goal_state (plan name)), st') /\
              progress (name :: done) st'.
Proof.
  intros old Hp Hn Hin Hf Hs Hst Hdir Hold Hnew Hne Hsource Hfw Hprot Hplan. destruct (in_names name Hin) as [Hsc _].
  assert (Hd : forall remote, destination remote repository url st.2 !! name = if remote then R !! name else L !! name).
  { intros remote. unfold L, R. rewrite !lookup_scoped, Hsc. destruct remote; [rewrite (pg_remote _ _ Hp)|rewrite (pg_local _ _ Hp)];
      by rewrite bool_decide_eq_false_2. }
  assert (Hb : bool_decide (rf_direction f = RefPush) = outgoing) by (rewrite Hdir; by destruct outgoing).
  unfold process_ref. replace (settled f) with false by (unfold settled; by rewrite Hst). rewrite Hb.
  pose proof (progress_refs_ok outgoing done st Hp) as Hok. pose proof (pg_url _ _ Hp) as Hurl. rewrite <- Hurl in Hok.
  rewrite (run_try _ _ _ _ _ _ (run_git_refs ancestor id repository session outgoing st Hok)), Hnew, Hurl.
  rewrite lookup_scoped, Hsc, Hd. fold old. rewrite Hold, (bool_decide_eq_false_2 _ Hne), bool_decide_eq_true_2 by done. cbn [negb].
  assert (Hallow : run_io (may_apply owner generation true true) st = (Ok true, st)).
  { unfold may_apply, call. cbn [negb orb Programs.run_io perform]. unfold commit, reads. rewrite (pg_clock _ _ Hp), (pg_allowed _ _ Hp).
    cbn [rbind fst snd]. destruct st as [u []]. cbn in *. by rewrite <- (pg_clock _ _ Hp). }
  rewrite (run_try _ _ _ _ _ _ Hallow). cbn [negb].
  assert (Hperm : run_io (still_permitted settings outgoing name) st = (Ok true, st)).
  { unfold still_permitted, try_bind, call. destruct outgoing; [done|]. cbn [io_bind Programs.run_io perform]. unfold commit, reads.
    rewrite (pg_protected _ _ Hp). cbn [rbind fst snd]. rewrite (Hprot eq_refl). destruct st as [u []]. done. }
  rewrite (run_try _ _ _ _ _ _ Hperm). cbn [negb].
  apply (run_write done name outgoing old wanted st g); try done.
  - unfold final. rewrite Hplan. by destruct outgoing; cbn; rewrite Hsource.
  - rewrite Hd. by destruct outgoing.
Qed.

Lemma run_process done name f st :
  progress done st -> name ∉ done -> name ∈ all_names L R -> same_ref (row name) f -> rf_state f = rf_state (row name) ->
  exists st', run_io (process_ref session settings owner generation true true name f) st = (Ok (goal_state (plan name)), st') /\
              progress (name :: done) st'.
Proof.
  intros Hp Hn Hin Hs Hst. destruct (in_names name Hin) as [Hsc _]. pose proof Hs as (E1 & E2 & E3).
  destruct (pg_refs _ _ Hp name Hin) as (g & Hg & Hsg & _).
  assert (Hsettled : rf_state (row name) = goal_state (plan name) -> final name = (L !! name, R !! name) -> settled f = true ->
    exists st', run_io (process_ref session settings owner generation true true name f) st = (Ok (goal_state (plan name)), st') /\
                progress (name :: done) st').
  { intros Hgl Hfin Hset. exists st. split; [|by apply progress_settled]. unfold process_ref. rewrite Hset. cbn. by rewrite Hst, Hgl. }
  destruct (plan name) eqn:E; unfold row in *; rewrite E in *; cbn in E1, E2, E3, Hst.
  - apply Hsettled; [done|unfold final; by rewrite E|by eapply settled_state].
  - pose proof E as E'. unfold plan, plan_of, planned in E'. cbn [fst snd] in E'.
    destruct (plan_ref_pull _ _ _ _ _ _ _ (or_introl E')) as (_ & w & Hw & Ha). rewrite Hw in E3. rewrite <- E.
    apply (run_planned done name f g w st false); try done; [by unfold row; rewrite E| | |by intros _; eapply plan_ref_unprotected].
    + rewrite <- Hw. by eapply plan_ref_unequal.
    + intros o Ho. rewrite Ho, Hw in Ha. by apply Ha.
  - pose proof E as E'. unfold plan, plan_of, planned in E'. cbn [fst snd] in E'.
    destruct (plan_ref_push _ _ _ _ _ _ _ E') as (_ & w & Hw & Ha). rewrite Hw in E3. rewrite <- E.
    apply (run_planned done name f g w st true); try done; [by unfold row; rewrite E| |].
    + rewrite <- Hw. symmetry. by eapply plan_ref_unequal.
    + intros o Ho. rewrite Ho, Hw in Ha. by apply Ha.
  - apply Hsettled; [done|unfold final; by rewrite E|by eapply settled_state].
  - apply Hsettled; [done|unfold final; by rewrite E|by eapply settled_state].
Qed.

(** All references, in any order. *)
Lemma run_process_all rows done st :
  progress done st -> NoDup (map fst rows) ->
  (forall n f, (n, f) ∈ rows -> n ∉ done /\ n ∈ all_names L R /\ same_ref (row n) f /\ rf_state f = rf_state (row n)) ->
  exists st', run_io (process_refs session settings owner generation true true rows) st = (Ok (map (fun nf => goal_state (plan nf.1)) rows), st') /\
              progress (rev (map fst rows) ++ done) st'.
Proof.
  revert done st. induction rows as [|[n f] rows IH]; intros done st Hp Hnd Hrows; [by exists st|]. cbn [process_refs fst snd].
  destruct (Hrows n f ltac:(left)) as (Hn & Hin & Hs & Hst).
  destruct (run_process done n f st Hp Hn Hin Hs Hst) as (st1 & Hrun & Hp1). rewrite (run_try _ _ _ _ _ _ Hrun).
  cbn [map fst] in Hnd. apply NoDup_cons in Hnd as [Hni Hnd].
  destruct (IH (n :: done) st1 Hp1 Hnd) as (st2 & Hrun2 & Hp2).
  { intros m h Hm. destruct (Hrows m h ltac:(by right)) as (Hm1 & Hm2 & Hm3 & Hm4). split_and!; try done.
    rewrite not_elem_of_cons. split; [|done]. intros ->. apply Hni, list_elem_of_fmap. by exists (n, h). }
  rewrite (run_try _ _ _ _ _ _ Hrun2). exists st2. split; [done|]. cbn [map fst rev]. by rewrite <- app_assoc.
Qed.
End process.

(** ** The whole execution *)

Lemma final_state_ext canceled l k : (forall s, s ∈ l <-> s ∈ k) -> final_state canceled l = final_state canceled k.
Proof.
  intros Hlk. assert (Ha : forall p, any_state l p = any_state k p).
  { intros p. unfold any_state. apply eq_true_iff_eq. rewrite !existsb_iff. split; intros (x & Hx & Hp); exists x; (split; [by apply Hlk|done]). }
  unfold final_state. by rewrite !Ha.
Qed.

Lemma foldl_record_ref_new now id rows t n f : NoDup (map fst rows) -> (n, f) ∈ rows -> t !! (id, n) = None ->
  foldl (record_ref now id) t rows !! (id, n) = Some (set_event (rf_event_delivered f) (rf_reason f) now f).
Proof.
  revert t. induction rows as [|[m g] rows IH]; intros t Hnd Hin Hn; [by apply elem_of_nil in Hin|]. cbn [map fst] in Hnd.
  apply NoDup_cons in Hnd as [Hni Hnd]. cbn [foldl]. apply elem_of_cons in Hin as [[= <- <-]|Hin].
  - apply foldl_record_ref_kept. unfold record_ref. cbn. rewrite Hn. by rewrite lookup_insert_eq.
  - apply IH; [done|done|]. assert (Hne : m <> n) by (intros ->; apply Hni, list_elem_of_fmap; by exists (n, f)).
    unfold record_ref. cbn. destruct (t !! (id, m)); [done|]. rewrite lookup_insert_ne by congruence. done.
Qed.

Section whole.
Context (ancestor : str -> str -> bool) `{UrlCrate} (open : str -> result str Error) (origins : list str).
Context (id : N) (storage : str) (owner : N) (e : env) (r : SyncRun) (c : SyncConnection) (repository : repository) (settings : Settings).

(** A queued run that can be executed: nobody else writes, its connection
    works and its sources exist. *)
Record ready : Prop := {
  rd_journal : journal ancestor (en_store e);
  rd_run : runs (en_store e) !! id = Some r;
  rd_queued : rn_state r = Queued;
  rd_writers : has_writer (fun other w => (rn_repository w =? rn_repository r)%N && negb (other =? id)%N) (en_store e) = false;
  rd_connection : connection_of (rn_repository r) (rn_connection r) (en_store e) = Some c;
  rd_catalog : catalog (en_store e) !! rn_repository r = Some repository;
  rd_active : rp_active repository = true;
  rd_storage : exists name, validate_repo_name storage = Ok name;
  rd_token : exists token, open (sn_credential c) = Ok token;
  rd_settings : Settings_validate (rn_settings r) origins = (settings, Ok tt);
  rd_new : forall n, refs (en_store e) !! (id, n) = None;
  rd_refs : forall remote, git_refs_ok (destination remote (rn_repository r) (Settings_url settings) e) /\
    has_source (new_session settings) remote (destination remote (rn_repository r) (Settings_url settings) e) }.

Hypothesis (Hready : ready).
Abbreviation run_io := (SyncRun.run_io ancestor id (rn_repository r)).

Let url := Settings_url settings.
Let session := new_session settings.
Let now := en_clock e.
Let local0 := destination false (rn_repository r) url e.
Let remote0 := destination true (rn_repository r) url e.
Let rc := claimed now owner r.
Let protected := rp_protected repository.
Let L := scoped session local0.
Let R := scoped session remote0.
Let plan := plan_of ancestor (rn_settings r) protected L R.
Let st0 : str * env := ([], e).
Let s1 : store := set_runs (fun _ => <[id := rc]> (runs (en_store e))) (en_store e).
Let st1 : str * env := ([], written now s1 e).
Let st2 : str * env := (url, written now s1 e).
Let s3 : store := record_plan now id (plan_rows ancestor (rn_settings r) protected L R) s1.
Let st3 : str * env := (url, written now s3 e).

Lemma ready_uncanceled : rn_cancel_requested r = false /\ rn_generation r = 0%Z.
Proof.
  destruct (j_wf _ _ (rd_journal Hready) _ _ (rd_run Hready)) as [Hw _]. unfold run_wf in Hw. rewrite (rd_queued Hready) in Hw.
  by destruct Hw as (_ & ? & _ & _ & _ & ?).
Qed.

Lemma ready_version : rn_connection_version r = sn_version c /\ ss_direction (sn_settings c) <> Disabled.
Proof.
  destruct (j_wf _ _ (rd_journal Hready) _ _ (rd_run Hready)) as [_ (c' & Hc' & _ & _ & Ha)].
  pose proof (rd_connection Hready) as [Hc _]%connection_of_Some. assert (c' = c) as -> by congruence.
  rewrite (rd_queued Hready) in Ha. specialize (Ha eq_refl). destruct ready_uncanceled as [Hu _]. rewrite Hu in Ha.
  by destruct Ha as (? & _ & ?).
Qed.

Lemma run_acquire : run_io (acquire storage) st0 = (Ok (Some true), st0).
Proof.
  unfold acquire, try_bind, call. cbn [io_bind Programs.run_io perform]. unfold commit, reads. cbn [fst snd].
  change (en_store st0.2) with (en_store e). rewrite (rd_run Hready). cbn [rbind fst snd]. rewrite (rd_queued Hready), bool_decide_eq_true_2 by done.
  destruct (rd_storage Hready) as [name Hname]. cbn [Programs.run_io perform negb io_bind fst snd]. rewrite Hname.
  cbn [Programs.run_io perform negb io_bind fst snd]. unfold st0, written. by destruct e.
Qed.

Lemma run_claim : run_io (call (ClaimRun owner)) st0 = (Ok (Some (rc, 1%Z)), st1).
Proof.
  unfold call. cbn [Programs.run_io perform]. unfold commit, claim. change (en_store st0.2) with (en_store e). change (en_clock st0.2) with now.
  rewrite (rd_run Hready). unfold claimable. rewrite (rd_writers Hready), (rd_queued Hready), bool_decide_eq_true_2 by done. cbn [negb andb orb].
  fold rc. assert (Hput : put id rc (runs (en_store e)) = Ok (<[id := rc]> (runs (en_store e)))).
  { apply put_Ok. pose proof (rd_journal Hready) as [_ [Hcheck Huniq] _ _]. split_and!; [done|apply (Hcheck id r (rd_run Hready))|].
    intros i w Hi Hw. specialize (Huniq id i r w ltac:(done) (rd_run Hready) Hw). cbn in Huniq |- *.
    apply orb_false_iff in Huniq as [Ha _]. unfold both_active, both_writers in *. rewrite (rd_queued Hready) in Ha. cbn in Ha.
    unfold rc, claimed. cbn. rewrite (rd_queued Hready), bool_decide_eq_true_2 by done. cbn. apply orb_false_iff. split; [exact Ha|].
    pose proof (proj1 (exists_row_false _ _) (rd_writers Hready) i w Hw) as Hn. cbn in Hn. rewrite (proj2 (N.eqb_neq i id) Hi) in Hn.
    rewrite andb_true_r in Hn. rewrite (N.eqb_sym (rn_repository r)). destruct (rn_repository w =? rn_repository r)%N, (writer (rn_state w)); done. }
  rewrite Hput. cbn [or_db rbind fst snd]. destruct ready_uncanceled as [_ Hg].
  replace (rn_generation rc) with 1%Z by (unfold rc; cbn; by rewrite Hg). done.
Qed.

Lemma commit_reads {A} st (f : Z -> store -> result A Error) v :
  f (en_clock st.2) (en_store st.2) = Ok v -> commit st (reads f) = (Ok v, st).
Proof. intros E. unfold commit, reads. rewrite E. cbn. by destruct st as [u []]. Qed.

Lemma run_read_refs st : run_io (call ReadRefs) st = (Ok (run_refs id (en_store st.2)), st).
Proof. unfold call. cbn [Programs.run_io perform]. by rewrite (commit_reads _ _ (run_refs id (en_store st.2))). Qed.

Lemma no_refs : run_refs id s1 = [].
Proof.
  destruct (run_refs id s1) as [|[n f] l] eqn:E; [done|].
  assert (Hin : (n, f) ∈ run_refs id s1) by (rewrite E; left). apply elem_of_run_refs in Hin. cbn in Hin. by rewrite (rd_new Hready) in Hin.
Qed.

Lemma run_plan : run_io (plan_refs (rn_settings rc) L R []) st2 = (Ok (run_refs id s3), st3).
Proof.
  unfold plan_refs. cbn [is_empty].
  assert (Hp : run_io (call ReadProtected) st2 = (Ok protected, st2)).
  { unfold call. cbn [Programs.run_io perform]. rewrite (commit_reads _ _ protected); [done|]. cbn. by rewrite (rd_catalog Hready). }
  rewrite (run_try _ _ _ _ _ _ Hp).
  rewrite (run_bind _ _ _ _ _ _ (run_plan_all ancestor id (rn_repository r) (rn_settings rc) protected L R st2)).
  assert (Hr : run_io (call (RecordPlan (plan_rows ancestor (rn_settings r) protected L R))) st2 = (Ok tt, st3)) by done.
  rewrite (run_try _ _ _ _ _ _ Hr). apply run_read_refs.
Qed.

Lemma names_plan : map fst (plan_rows ancestor (rn_settings r) protected L R) = all_names L R.
Proof. unfold plan_rows. rewrite map_map. cbn. apply map_id. Qed.

Lemma plan_row_in n f : (n, f) ∈ plan_rows ancestor (rn_settings r) protected L R <->
  n ∈ all_names L R /\ f = planned_row (plan n) (L !! n) (R !! n).
Proof.
  unfold plan_rows. rewrite list_elem_of_fmap. split.
  - intros (x & [= -> ->] & Hx). done.
  - intros [Hn ->]. by exists n.
Qed.

(** The rows of the run are those of the plan. *)
Lemma rows_of_plan n f : (n, f) ∈ run_refs id s3 <-> n ∈ all_names L R /\
  f = set_event (rf_event_delivered (planned_row (plan n) (L !! n) (R !! n))) (rf_reason (planned_row (plan n) (L !! n) (R !! n))) now
        (planned_row (plan n) (L !! n) (R !! n)).
Proof.
  rewrite elem_of_run_refs. unfold s3. cbn. split.
  - intros [Hf|(m & g & [= <-] & Hin & ->)]%foldl_record_ref; [by rewrite (rd_new Hready) in Hf|].
    apply plan_row_in in Hin as [Hm ->]. done.
  - intros [Hn ->]. apply foldl_record_ref_new; [rewrite names_plan; apply NoDup_sort_dedup|by apply plan_row_in|apply (rd_new Hready)].
Qed.

Lemma progress_start : progress ancestor id (rn_repository r) session (rn_settings r) owner 1 protected local0 remote0 url now rc [] st3.
Proof.
  destruct ready_uncanceled as [Hu Hg]. destruct ready_version as [Hv Hd].
  assert (Hown : owns owner 1 rc && leased now rc = true).
  { unfold owns, leased, rc, claimed. cbn. rewrite bool_decide_eq_true_2, Hg by done. cbn. apply Z.ltb_lt. unfold seconds. lia. }
  split; try done.
  - cbn. by rewrite lookup_insert_eq.
  - unfold allowed_to_apply. cbn. rewrite lookup_insert_eq. apply andb_true_iff in Hown as [H1 H2]. rewrite H1, H2.
    replace (rn_cancel_requested rc) with false by (unfold rc; cbn; by rewrite Hu). cbn [negb andb].
    change (connection_of (rn_repository rc) (rn_connection rc) s3) with (connection_of (rn_repository r) (rn_connection r) (en_store e)).
    rewrite (rd_connection Hready). cbn. rewrite (rd_catalog Hready), (rd_active Hready), Hv, Z.eqb_refl.
    by rewrite bool_decide_eq_false_2.
  - cbn. by rewrite (rd_catalog Hready).
  - intros n Hn. eexists. split; [apply elem_of_run_refs, rows_of_plan; split; [exact Hn|reflexivity]|]. split; [by split_and!|done].
Qed.

Lemma run_claimed : exists st',
  run_io (execute_claimed open origins true rc owner 1 true) st1 =
    (Ok (final_state false (map (fun n => goal_state (plan n)) (all_names L R)), None), st') /\
  progress ancestor id (rn_repository r) session (rn_settings r) owner 1 protected local0 remote0 url now rc (rev (map fst (run_refs id s3)) ++ []) st'.
Proof.
  destruct ready_uncanceled as [Hu _]. unfold execute_claimed.
  assert (Hcred : run_io (call (ReadCredential (rn_connection rc))) st1 = (Ok (Some (sn_credential c)), st1)).
  { unfold call. cbn [Programs.run_io perform]. rewrite (commit_reads _ _ (Some (sn_credential c))); [done|].
    cbn [st1 snd]. change (connection_of (rn_repository r) (rn_connection rc) (en_store (written now s1 e))) with
      (connection_of (rn_repository r) (rn_connection r) (en_store e)). by rewrite (rd_connection Hready). }
  rewrite (run_try _ _ _ _ _ _ Hcred). destruct (rd_token Hready) as [token Ht]. rewrite Ht.
  change (rn_settings rc) with (rn_settings r). rewrite (rd_settings Hready).
  assert (Hinit : run_io (call (InitScratch (Settings_url settings))) st1 = (Ok tt, st2)) by done.
  rewrite (run_try _ _ _ _ _ _ Hinit). pose proof (rd_refs Hready) as Hrefs.
  rewrite (run_try _ _ _ _ _ _ (run_git_refs ancestor id (rn_repository r) (new_session settings) false st2 (proj1 (Hrefs false)))).
  rewrite (run_try _ _ _ _ _ _ (run_git_refs ancestor id (rn_repository r) (new_session settings) true st2 (proj1 (Hrefs true)))).
  rewrite (run_try _ _ _ _ _ _ (run_read_refs st2)). change (en_store st2.2) with s1. rewrite no_refs.
  rewrite (run_try _ _ _ _ _ _ (run_fetch ancestor id (rn_repository r) (new_session settings) st2 Hrefs)).
  rewrite (run_try _ _ _ _ _ _ run_plan).
  destruct (run_process_all ancestor id (rn_repository r) session (rn_settings r) owner 1 protected local0 remote0 url now rc
              (proj1 (Hrefs false)) (proj1 (Hrefs true)) (run_refs id s3) [] st3 progress_start (NoDup_run_refs id s3)) as (st' & Hrun & Hp).
  { intros n f [Hn ->]%rows_of_plan. split_and!; [apply not_elem_of_nil|done|done|done]. }
  rewrite (run_try _ _ _ _ _ _ Hrun). exists st'. split; [|exact Hp]. cbn [Programs.run_io].
  replace (rn_cancel_requested rc) with false by (unfold rc; cbn; by rewrite Hu). do 3 f_equal. apply final_state_ext. intros s.
  rewrite !list_elem_of_fmap. split.
  - intros ([n f] & -> & [Hn _]%rows_of_plan). by exists n.
  - intros (n & -> & Hn). eexists. split; [|apply rows_of_plan; split; [done|reflexivity]]. done.
Qed.

Lemma run_leased : exists st',
  run_io (execute_leased open origins true true rc owner 1) st1 =
    (Ok (final_state false (map (fun n => goal_state (plan n)) (all_names L R)), None), st') /\
  progress ancestor id (rn_repository r) session (rn_settings r) owner 1 protected local0 remote0 url now rc (rev (map fst (run_refs id s3)) ++ []) st'.
Proof.
  destruct run_claimed as (st' & Hrun & Hp). exists st'. split; [|exact Hp]. unfold execute_leased.
  assert (Hh : forall st, run_io (call LeaseHealthy) st = (true, st)) by done.
  assert (Hw : forall st, run_io (call WatchLost) st = (false, st)) by done.
  rewrite (run_bind _ _ _ _ _ _ (Hh st1)), (run_bind _ _ _ _ _ _ Hrun). cbn [andb].
  rewrite (run_bind _ _ _ _ _ _ (Hw st')).
  assert (Hl : run_io (run! h := call LeaseHealthy in Done (negb h)) st' = (false, st')) by done.
  by rewrite (run_bind _ _ _ _ _ _ Hl).
Qed.

Lemma goal_terminal names :
  let state := final_state false (map (fun n => goal_state (plan n)) names) in
  active state = false /\ bool_decide (state = Reconciling) || bool_decide (state = Stopping) = false.
Proof.
  unfold final_state. replace (any_state _ (fun s => bool_decide (s = RefUnknown) || bool_decide (s = RefPlanned))) with false;
    [by repeat case_match|].
  symmetry. apply not_true_iff_false. unfold any_state. rewrite existsb_iff. intros (s & (n & -> & _)%list_elem_of_fmap & Hs).
  by destruct (plan n).
Qed.

(** The final write: nothing conflicts with an ended run. *)
Lemma run_finish state st done :
  progress ancestor id (rn_repository r) session (rn_settings r) owner 1 protected local0 remote0 url now rc done st ->
  active state = false -> bool_decide (state = Reconciling) || bool_decide (state = Stopping) = false ->
  run_io (conclude owner 1 (Ok (state, None))) st =
    (Ok tt, (st.1, written now (set_runs (fun _ => <[id := set_outcome state None (Some now) (now + seconds 30) rc]> (runs (en_store st.2))) (en_store st.2)) st.2)).
Proof.
  intros Hp Ha Ht. unfold conclude, call. cbn [Programs.run_io perform]. unfold commit, writes, finish.
  rewrite (pg_clock _ _ _ _ _ _ _ _ _ _ _ _ _ _ _ Hp), (pg_run _ _ _ _ _ _ _ _ _ _ _ _ _ _ _ Hp), Ht. cbn [negb].
  pose proof (pg_owned _ _ _ _ _ _ _ _ _ _ _ _ _ _ _ Hp) as [-> _]%andb_true_iff.
  assert (Hput : put id (set_outcome state None (Some now) (now + seconds 30) rc) (runs (en_store st.2)) =
    Ok (<[id := set_outcome state None (Some now) (now + seconds 30) rc]> (runs (en_store st.2)))).
  { apply put_Ok. split_and!; [done|apply (vt_check _ (j_runs _ _ (rd_journal Hready)) id r (rd_run Hready))|].
    intros i w _ _. cbn. unfold both_active, both_writers. cbn. rewrite Ha.
    replace (writer state) with false by (by destruct state). by rewrite !andb_false_r. }
  by rewrite Hput.
Qed.

Lemma run_execute : exists st',
  progress ancestor id (rn_repository r) session (rn_settings r) owner 1 protected local0 remote0 url now rc (rev (map fst (run_refs id s3)) ++ []) st' /\
  run_io (execute open origins true storage owner) st0 =
    (Ok tt, (st'.1, written now (set_runs (fun _ =>
       <[id := set_outcome (final_state false (map (fun n => goal_state (plan n)) (all_names L R))) None (Some now) (now + seconds 30) rc]>
         (runs (en_store st'.2))) (en_store st'.2)) st'.2)).
Proof.
  destruct run_leased as (st' & Hrun & Hp). exists st'. split; [exact Hp|]. unfold execute.
  rewrite (run_try _ _ _ _ _ _ run_acquire), (run_try _ _ _ _ _ _ run_claim), (run_bind _ _ _ _ _ _ Hrun).
  destruct (goal_terminal (all_names L R)). by apply (run_finish _ st' _ Hp).
Qed.

(** The state of a run whose references all ended as planned. *)
Definition run_goal (plans : list RefPlan) : run_state :=
  let moved := existsb (fun p => bool_decide (p = PlanPull) || bool_decide (p = PlanPush)) plans in
  let held := existsb (fun p => bool_decide (p = PlanProtected) || bool_decide (p = PlanConflict)) plans in
  if held then if moved then Partial else Conflicting else Success.

Lemma any_goal plans p q : (forall x, p (goal_state x) = q x) -> any_state (map goal_state plans) p = existsb q plans.
Proof. intros Hpq. unfold any_state. induction plans as [|x plans IH]; [done|]. cbn. by rewrite Hpq, IH. Qed.

Lemma final_goal plans : final_state false (map goal_state plans) = run_goal plans.
Proof.
  unfold final_state, run_goal.
  rewrite (any_goal plans (fun s => bool_decide (s = RefApplied)) (fun p => bool_decide (p = PlanPull) || bool_decide (p = PlanPush))) by (by intros []).
  rewrite (any_goal plans (fun s => bool_decide (s = RefConflict) || bool_decide (s = RefBlocked))
             (fun p => bool_decide (p = PlanProtected) || bool_decide (p = PlanConflict))) by (by intros []).
  assert (E : forall p, (forall x, p (goal_state x) = false) -> any_state (map goal_state plans) p = false).
  { intros p Hp. rewrite (any_goal plans p (fun _ => false)) by done. by induction plans. }
  rewrite !E by (by intros []). cbn [orb]. rewrite !orb_false_r. by destruct (existsb _ plans), (existsb _ plans).
Qed.

Lemma done_names n : bool_decide (n ∈ rev (map fst (run_refs id s3)) ++ []) = bool_decide (n ∈ all_names L R).
Proof.
  apply bool_decide_ext. rewrite app_nil_r, list_elem_of_In, <- in_rev, <- list_elem_of_In, list_elem_of_fmap. split.
  - by intros ([m f] & -> & [Hn _]%rows_of_plan).
  - intros Hn. eexists. split; [|apply rows_of_plan; split; [exact Hn|reflexivity]]. done.
Qed.

(** C18. Run by a worker whose calls succeed, a queued run
    ends: every branch and tag of its scope, on both sides, is what the plan
    [RepositorySync.plan_ref] makes of it, everything else is untouched, every
    reference is journaled with its outcome, and the run is finished with the
    state these outcomes ask for. *)
Theorem sync_executes : exists url' e',
  run_io (execute open origins true storage owner) ([], e) = (Ok tt, (url', e')) /\
  (exists r', runs (en_store e') !! id = Some r' /\ rn_finished_at r' = Some (en_clock e) /\
     rn_state r' = run_goal (map plan (all_names L R))) /\
  (forall n, if bool_decide (n ∈ all_names L R)
     then (destination false (rn_repository r) url e' !! n, destination true (rn_repository r) url e' !! n) =
            RepositorySync.apply (plan n) (L !! n, R !! n) /\
          exists f, refs (en_store e') !! (id, n) = Some f /\ rf_old f = rf_old (planned_row (plan n) (L !! n) (R !! n)) /\ rf_state f = goal_state (plan n)
     else destination false (rn_repository r) url e' !! n = local0 !! n /\ destination true (rn_repository r) url e' !! n = remote0 !! n).
Proof.
  destruct run_execute as ([url1 e1] & Hp & Hrun). eexists _, _. split; [exact Hrun|]. split.
  - eexists. split; [cbn; by rewrite lookup_insert_eq|]. split; [done|]. cbn. by rewrite <- final_goal, map_map.
  - intros n. pose proof (pg_local _ _ _ _ _ _ _ _ _ _ _ _ _ _ _ Hp n) as Hl. pose proof (pg_remote _ _ _ _ _ _ _ _ _ _ _ _ _ _ _ Hp n) as Hr.
    rewrite done_names in Hl, Hr. case_bool_decide as Hn; [|done]. split.
    + destruct (RepositorySync.apply _ _) as [x y] eqn:E. cbn [snd fst] in *. f_equal; assumption.
    + destruct (pg_refs _ _ _ _ _ _ _ _ _ _ _ _ _ _ _ Hp n Hn) as (f & Hf & (_ & E & _) & Hst). rewrite done_names, bool_decide_eq_true_2 in Hst by done.
      by exists f.
Qed.
End whole.

(** ** The run of [SyncSample] *)

#[local] Instance the_crate : UrlCrate := sample_crate.

Definition sample_url : str := §"https://github.com/team/repo.git".

Lemma sample_git_refs remote : git_refs_ok (destination remote 1 sample_url (sample_env enqueued)).
Proof.
  assert (E : destination remote 1 sample_url (sample_env enqueued) = {[main := if remote then old_commit else new_commit]})
    by (destruct remote; vm_compute; reflexivity).
  rewrite E. intros n sha. rewrite lookup_singleton_Some. intros [<- <-]. destruct remote; vm_compute; reflexivity.
Qed.

Lemma sample_journal : journal sample_ancestor (en_store (sample_env enqueued)).
Proof.
  apply (gd_journal _ _ (sync_good_steps _ _ _ _ _ _ enqueued_steps (good_installed _ _ installed_sample))).
Qed.

Lemma sample_row : exists r, runs enqueued !! 3%N = Some r /\ rn_state r = Queued /\ rn_repository r = 1%N /\ rn_connection r = 2%N /\
  rn_settings r = sample_settings Both.
Proof. eexists. split; [vm_compute; reflexivity|]. split_and!; vm_compute; reflexivity. Qed.

Lemma sample_connection : exists c, connection_of 1 2 enqueued = Some c /\ sn_credential c = §"token".
Proof. eexists. split; vm_compute; reflexivity. Qed.

Lemma sample_ready : exists r c repository settings,
  ready sample_ancestor sample_open [] 3 §"repo" (sample_env enqueued) r c repository settings /\ rn_repository r = 1%N /\
  rn_settings r = sample_settings Both /\ rp_protected repository = [§"main"] /\ Settings_url settings = sample_url /\ ss_branch settings = None.
Proof.
  destruct sample_row as (r & Hr & Hq & Hrep & Hcon & Hset), sample_connection as (c & Hc & _).
  assert (Hcat : exists rep, catalog enqueued !! 1%N = Some rep /\ rp_active rep = true /\ rp_protected rep = [§"main"])
    by (eexists; split; [vm_compute; reflexivity|split; vm_compute; reflexivity]).
  assert (Hval : exists st, Settings_validate (sample_settings Both) [] = (st, Ok tt) /\ Settings_url st = sample_url /\ ss_branch st = None)
    by (eexists; split; [vm_compute; reflexivity|split; vm_compute; reflexivity]).
  destruct Hcat as (rep & Hcat & Ha & Hp), Hval as (st & Hval & Hurl & Hbr). exists r, c, rep, st.
  split; [|split; [exact Hrep|split; [exact Hset|split; [exact Hp|split; [exact Hurl|exact Hbr]]]]].
  split; rewrite ?Hrep, ?Hcon, ?Hset, ?Hurl; try assumption.
  - exact sample_journal.
  - vm_compute. reflexivity.
  - eexists. vm_compute. reflexivity.
  - eexists. reflexivity.
  - intros n. assert (E : refs (en_store (sample_env enqueued)) = ∅) by (vm_compute; reflexivity). rewrite E. apply lookup_empty.
  - intros remote. split; [apply sample_git_refs|]. intros branch d. cbn. rewrite Hbr. discriminate.
Qed.

Lemma sync_executes_witness : exists url' e',
  SyncRun.run_io sample_ancestor 3 1 (execute sample_open [] true §"repo" 7) ([], sample_env enqueued) = (Ok tt, (url', e')) /\
  exists r', runs (en_store e') !! 3%N = Some r' /\ rn_finished_at r' = Some 0%Z.
Proof.
  destruct sample_ready as (r & c & rep & st & Hready & Hrep & _).
  destruct (sync_executes sample_ancestor sample_open [] 3 §"repo" 7 (sample_env enqueued) r c rep st Hready) as (url' & e' & Hrun & (r' & Hr' & Hfin & _) & _).
  rewrite Hrep in Hrun. exists url', e'. split; [exact Hrun|]. exists r'. split; [exact Hr'|exact Hfin].
Defined.
