(* ===== verification/SyncTheorems.v ===== *)
(** * What repository synchronisation guarantees

    For every interleaving of workers, handlers, heartbeats, crashes and
    foreign changes of the repositories that starts from an empty journal. *)
From S2P Require Import Prelude Programs Table Url RepositorySync SyncStore SyncGit SyncWorker SyncSafety SyncSystem SyncJournal SyncReach SyncRun SyncSample.

Section theorems.
Context (ancestor : str -> str -> bool) `{UrlCrate} (open : str -> result str Error) (origins : list str) (enabled : bool).
Abbreviation steps := (rtc (step ancestor open origins enabled)).

(** ** Lemmas *)

Lemma good_reachable s0 s : installed s0 -> steps s0 s -> good ancestor s.
Proof. intros H0 Hs. eapply sync_good_steps; [exact Hs|]. by apply good_installed. Qed.

(** Two active runs share no connection, two writers no repository. *)
Lemma runs_exclusive s i j x y : journal ancestor s -> i <> j -> runs s !! i = Some x -> runs s !! j = Some y ->
  (rn_connection x = rn_connection y -> active (rn_state x) = true -> active (rn_state y) = false) /\
  (rn_repository x = rn_repository y -> writer (rn_state x) = true -> writer (rn_state y) = false).
Proof.
  intros HJ Hij Hx Hy. pose proof (vt_unique _ (j_runs _ _ HJ) i j x y Hij Hx Hy) as Hc. cbn in Hc.
  apply orb_false_iff in Hc as [Ha Hw]. unfold both_active, both_writers in *. split; intros E E1.
  - rewrite E, N.eqb_refl, E1 in Ha. done.
  - rewrite E, N.eqb_refl, E1 in Hw. done.
Qed.

(** The outcome of a reference is final. *)
Definition outcomes_kept (s s' : store) : Prop := forall k f f', refs s !! k = Some f -> refs s' !! k = Some f' ->
  settled f = true -> rf_state f' = rf_state f.

Lemma outcomes_quiet s s' : quiet s s' -> outcomes_kept s s'.
Proof. intros [_ Hu] [id n] f f' Hf Hf' _. by apply (ud_refs _ _ _ (Hu id) n f f'). Qed.

Lemma outcomes_refs s s' : refs s' = refs s -> outcomes_kept s s'.
Proof. intros E k f f' Hf. rewrite E, Hf. by intros [= ->]. Qed.

Lemma outcomes_call w o k a e e' :
  journal ancestor (en_store e) -> worker_ok ancestor w (en_store e) -> wk_program w = Call o k ->
  serves ancestor (wk_run w) (wk_repository w) (gh_url (wk_ghost w)) e o a e' -> outcomes_kept (en_store e) (en_store e').
Proof.
  intros HJ Hw Hp Hserve. pose proof (wo_program _ _ _ Hw) as Hwp. rewrite Hp in Hwp. destruct Hwp as [Hmay _].
  destruct o; cbn [serves] in Hserve; try (by subst e'; apply outcomes_refs); try (by destruct Hserve as [-> _]; apply outcomes_refs);
    try (by apply outcomes_refs; destruct (committed_reads _ _ _ _ Hserve) as [-> _]).
  - destruct Hserve as [[-> _]|[_ ->]]; by apply outcomes_refs.
  - destruct (committed_store _ _ _ _ Hserve) as [[-> _]|(now & v & s & _ & Hs & -> & _)]; [by apply outcomes_refs|].
    apply outcomes_quiet. cbn. by eapply quiet_put_claim.
  - destruct (committed_writes _ _ _ _ Hserve) as [Es|(now & s & _ & [= <-] & ->)]; [by apply outcomes_refs; rewrite Es|].
    intros [id n] f f' Hf. cbn. rewrite (foldl_record_ref_kept _ _ _ _ _ _ Hf). by intros [= ->].
  - destruct (committed_writes _ _ _ _ Hserve) as [Es|(now & s & _ & Hs & ->)]; [by apply outcomes_refs; rewrite Es|].
    destruct Hmay as (Ho & run & g & Hc & Hfin & Hin & Hset & Hn). intros k' f f' Hf Hf' Hf1.
    destruct (wo_claim _ _ _ Hw _ _ Hc) as [_ _ K3]. destruct (K3 reference g Hin) as (r & f2 & Hr & Hf2 & _ & _ & Hst).
    revert Hs. unfold ref_state. rewrite Hf2, Hr. destruct (owns owner generation r && leased now r) eqn:Eo; [|done].
    intros [= <-]. apply andb_true_iff in Eo as [[_ Eg%Z.eqb_eq]%andb_true_iff _]. specialize (Hst Eg Hn).
    cbn in Hf'. apply lookup_insert_Some in Hf' as [[<- <-]|[_ Hf']]; [|congruence].
    assert (f2 = f) as -> by congruence. unfold settled in Hf1, Hset. rewrite Hst in Hf1. congruence.
  - destruct (committed_writes _ _ _ _ Hserve) as [Es|(now & s & _ & Hs & ->)]; [by apply outcomes_refs; rewrite Es|].
    revert Hs. unfold finish. destruct (runs (en_store e) !! wk_run w) as [r|]; [|intros [= <-]; by apply outcomes_refs].
    destruct (owns owner generation r); [|intros [= <-]; by apply outcomes_refs].
    intros (t & _ & [= <-])%rbind_Ok_inv. by apply outcomes_refs.
Qed.

Lemma step_outcomes s s' : good ancestor s -> step ancestor open origins enabled s s' -> outcomes_kept (en_store (sy_env s)) (en_store (sy_env s')).
Proof.
  intros Hg Hs. destruct Hs as [i id r storage owner s Hi Hr|i w o k a e s Hi Hp Hserve|i s|now s' s Hn Hh|local remote s]; cbn;
    try (by apply outcomes_refs).
  - by apply (outcomes_call w o k a _ _ (gd_journal _ _ Hg) (gd_workers _ _ Hg i w Hi)).
  - apply outcomes_quiet. by apply (journal_handler _ _ _ _ (gd_journal _ _ Hg) Hh).
Qed.

Lemma steps_history s s' : steps s s' -> good ancestor s ->
  evolves (en_store (sy_env s)) (en_store (sy_env s')) /\ outcomes_kept (en_store (sy_env s)) (en_store (sy_env s')).
Proof.
  induction 1 as [s|s1 s2 s3 H12 H23 IH]; intros Hg; [split; [reflexivity|by apply outcomes_refs]|].
  destruct (IH (sync_good_step _ _ _ _ _ _ Hg H12)) as [Hev Hout]. pose proof (step_evolves _ _ _ _ _ _ Hg H12) as Hev1. split; [by etransitivity|].
  intros k f f' Hf Hf' Hset. destruct (ev_refs _ _ Hev1 _ _ Hf) as (f2 & Hf2 & _).
  pose proof (step_outcomes _ _ Hg H12 _ _ _ Hf Hf2 Hset) as E2. rewrite <- E2. apply (Hout k f2 f' Hf2 Hf').
  unfold settled in *. by rewrite E2.
Qed.

(** A worker that changes a repository pushes a reference of its run. *)
Lemma push_of_row w remote name old new k s :
  worker_ok ancestor w s -> wk_program w = Call (PushRef remote name old new) k ->
  exists run f, gh_allowed (wk_ghost w) = true /\ runs s !! wk_run w = Some run /\ refs s !! (wk_run w, name) = Some f /\
    remote = bool_decide (rf_direction f = RefPush) /\ rf_old f = old /\ rf_new f = Some new /\
    (if remote then pushes else pulls) (ss_direction (rn_settings run)) = true /\ advances ancestor (is_tag name) old (Some new).
Proof.
  intros Hw Hp. pose proof (wo_program _ _ _ Hw) as Hwp. rewrite Hp in Hwp.
  destruct Hwp as [(run & generation & f & Hc & _ & Hal & Hin & Hset & _ & Hr & Ho & Hn & Hfw) _].
  destruct (wo_claim _ _ _ Hw _ _ Hc) as [_ _ K3]. destruct (K3 name f Hin) as (r & f' & Hr' & Hf' & (E1 & E2 & E3) & Hok & _).
  destruct (wo_claim _ _ _ Hw _ _ Hc) as [_ (r2 & Hr2 & (_ & _ & _ & Es) & _) _]. assert (r2 = r) as -> by congruence.
  exists r, f'. rewrite E1, E2, E3, Es. split_and!; try done.
  - unfold row_ok in Hok. subst remote. destruct (rf_direction f); cbn; [apply Hok|apply Hok|congruence].
  - unfold advances. destruct old as [o|]; [|by right; left]. right. right. destruct (Hfw o eq_refl) as [Ht Hk].
    split; [done|]. exists o, new. split_and!; [done|done|by apply (wo_forward _ _ _ Hw)].
Qed.

(** A run that was canceled is never allowed again. *)
Lemma allowed_after w o a e e' :
  serves ancestor (wk_run w) (wk_repository w) (gh_url (wk_ghost w)) e o a e' ->
  gh_allowed (after o a (wk_ghost w)) = true -> gh_allowed (wk_ghost w) = true \/
  exists r, runs (en_store e) !! wk_run w = Some r /\ rn_cancel_requested r = false.
Proof.
  intros Hserve. destruct o; cbn; try done; try (by left); try (by destruct a as [[]|]; left).
  - destruct a as [b|]; cbn; [|done]. intros ->. right. cbn in Hserve.
    destruct (committed_reads _ _ _ _ Hserve) as [_ Hv]. destruct (Hv true eq_refl) as (now & _ & [= Ha]).
    unfold allowed_to_apply in Ha. destruct (runs (en_store e) !! wk_run w) as [r|]; [|done]. exists r. split; [done|].
    destruct (rn_cancel_requested r); [|done]. by rewrite !andb_false_r in Ha.
Qed.

(** After a stop only workers that were allowed before are allowed. *)
Definition allowed_before (id : N) (s s' : system) : Prop := forall i w', sy_workers s' !! i = Some w' -> wk_run w' = id ->
  gh_allowed (wk_ghost w') = true -> exists w, sy_workers s !! i = Some w /\ wk_run w = id /\ gh_allowed (wk_ghost w) = true.

Definition canceled (id : N) (s : store) : Prop := exists r, runs s !! id = Some r /\ rn_cancel_requested r = true.

Lemma canceled_evolves id s s' : evolves s s' -> canceled id s -> canceled id s'.
Proof. intros Hev (r & Hr & Hc). destruct (ev_runs _ _ Hev id r Hr) as (r' & Hr' & He). exists r'. split; [done|by apply (re_canceled _ _ He)]. Qed.

Lemma step_allowed id s s1 s2 : good ancestor s1 -> canceled id (en_store (sy_env s1)) -> step ancestor open origins enabled s1 s2 ->
  allowed_before id s s1 -> allowed_before id s s2.
Proof.
  intros Hg (rc & Hrc & Hcan) Hs Hb. destruct Hs as [i n r storage owner s1 Hi Hr|i w o k a e s1 Hi Hp Hserve|i s1|now s' s1 Hn Hh|local remote s1];
    intros j v; cbn; try (by apply Hb).
  - rewrite lookup_insert_Some. intros [[<- <-]|[_ Hj]]; [by cbn|by apply Hb].
  - rewrite lookup_insert_Some. intros [[<- <-]|[_ Hj]]; [|by apply Hb]. cbn. intros Hid Hal.
    destruct (allowed_after w o a _ _ Hserve Hal) as [Hw|(r & Hr & Hc)]; [by apply (Hb i w)|]. subst id. congruence.
  - rewrite lookup_delete_Some. intros [_ Hj]. by apply Hb.
Qed.

Lemma steps_allowed id s s1 s2 : steps s1 s2 -> good ancestor s1 -> canceled id (en_store (sy_env s1)) -> allowed_before id s s1 -> allowed_before id s s2.
Proof.
  induction 1 as [|s1 s2 s3 H12 H23 IH]; [done|]. intros Hg Hc Hb. apply IH.
  - by eapply sync_good_step.
  - eapply canceled_evolves; [by eapply step_evolves|done].
  - by eapply step_allowed.
Qed.

(** A call that changes a repository is a push. *)
Lemma serves_repositories id repository url e o a e' : serves ancestor id repository url e o a e' ->
  en_local e' = en_local e /\ en_remote e' = en_remote e \/
  exists remote name old new, o = PushRef remote name old new /\ destination remote repository url e !! name = old /\
    e' = set_destination remote repository url (<[name := new]> (destination remote repository url e)) e.
Proof.
  assert (Hc : forall A (t : Z -> store -> tx A) r, committed e t r e' -> en_local e' = en_local e /\ en_remote e' = en_remote e).
  { intros A t r Hc. by destruct Hc. }
  destruct o; cbn [serves]; intros Hs; try (by left; subst e'); try (by left; destruct Hs as [-> _]); try (by left; eapply Hc; exact Hs).
  destruct Hs as [[-> _]|[Hd ->]]; [by left|]. right. by exists remote, reference, old, new.
Qed.

(** A call that changes the outcome of a reference, or ends a run. *)
Lemma call_owner w o k a e e' n f f' :
  worker_ok ancestor w (en_store e) -> wk_program w = Call o k ->
  serves ancestor (wk_run w) (wk_repository w) (gh_url (wk_ghost w)) e o a e' ->
  refs (en_store e) !! n = Some f -> refs (en_store e') !! n = Some f' -> rf_state f' <> rf_state f ->
  n.1 = wk_run w /\ exists run generation r, gh_claim (wk_ghost w) = Some (run, generation) /\ runs (en_store e) !! wk_run w = Some r /\
    rn_owner r = Some (gh_owner (wk_ghost w)) /\ rn_generation r = generation.
Proof.
  intros Hw Hp Hserve Hf Hf' Hne. pose proof (wo_program _ _ _ Hw) as Hwp. rewrite Hp in Hwp. destruct Hwp as [Hmay _].
  assert (Hsame : refs (en_store e') = refs (en_store e) -> False) by (intros E; rewrite E in Hf'; congruence).
  destruct o; cbn [serves] in Hserve; try (by subst e'; exfalso; apply Hsame); try (by destruct Hserve as [-> _]; exfalso; apply Hsame);
    try (by exfalso; apply Hsame; destruct (committed_reads _ _ _ _ Hserve) as [-> _]).
  - exfalso. apply Hsame. by destruct Hserve as [[-> _]|[_ ->]].
  - exfalso. apply Hsame. destruct (committed_store _ _ _ _ Hserve) as [[-> _]|(now & v & s & _ & Hs & -> & _)]; [done|]. cbn.
    revert Hs. unfold claim. destruct (runs (en_store e) !! wk_run w) as [r|]; [|by intros [= <- <-]].
    destruct (claimable now (wk_run w) r (en_store e)); [|by intros [= <- <-]]. by intros (t & _ & [= <- <-])%rbind_Ok_inv.
  - exfalso. destruct (committed_writes _ _ _ _ Hserve) as [Es|(now & s & _ & [= <-] & Ee)]; [apply Hsame; by rewrite Es|].
    destruct n as [id n]. rewrite Ee in Hf'. cbn in Hf'. rewrite (foldl_record_ref_kept _ _ _ _ _ _ Hf) in Hf'. congruence.
  - destruct (committed_writes _ _ _ _ Hserve) as [Es|(now & s & _ & Hs & Ee)]; [exfalso; apply Hsame; by rewrite Es|].
    destruct Hmay as (-> & run & g & Hc & _). rewrite Ee in Hf'. revert Hs Hf'. unfold ref_state.
    destruct (refs (en_store e) !! (wk_run w, reference)) as [h|]; [|intros [= <-]; congruence].
    destruct (runs (en_store e) !! wk_run w) as [r|] eqn:Er; [|intros [= <-]; congruence].
    destruct (owns (gh_owner (wk_ghost w)) generation r && leased now r) eqn:Eo; [|intros [= <-]; congruence]. intros [= <-]. cbn.
    rewrite lookup_insert_Some. intros [[<- _]|[_ Hk]]; [|congruence]. split; [done|].
    apply andb_true_iff in Eo as [[Eo%bool_decide_eq_true_1 Eg%Z.eqb_eq]%andb_true_iff _]. by exists run, generation, r.
  - exfalso. apply Hsame. destruct (committed_writes _ _ _ _ Hserve) as [Es|(now & s & _ & Hs & ->)]; [by rewrite Es|]. cbn.
    revert Hs. unfold finish. destruct (runs (en_store e) !! wk_run w) as [r|]; [|by intros [= <-]].
    destruct (owns owner generation r); [|by intros [= <-]]. by intros (t & _ & [= <-])%rbind_Ok_inv.
Qed.

(** ** The guarantees *)

(** C16. In every reachable journal each run has the columns
    of its state and belongs to a connection of its repository, whose version
    and settings it carries while it is active and not stopped; a stopped run
    is one whose connection was switched off; a connection has at most one
    active run and a repository at most one that writes; and every journaled
    reference is settled or moves in a direction the run permits, from a
    branch to a descendant. *)
Theorem sync_journal s0 s : installed s0 -> steps s0 s ->
  let st := en_store (sy_env s) in
  (forall id r, runs st !! id = Some r -> run_wf r /\ run_connected st r) /\
  (forall i j x y, i <> j -> runs st !! i = Some x -> runs st !! j = Some y ->
     (rn_connection x = rn_connection y -> active (rn_state x) = true -> active (rn_state y) = false) /\
     (rn_repository x = rn_repository y -> writer (rn_state x) = true -> writer (rn_state y) = false)) /\
  (forall id n f, refs st !! (id, n) = Some f -> exists r, runs st !! id = Some r /\ row_ok (rn_settings r) (forwards ancestor) n f).
Proof.
  intros H0 Hs. pose proof (gd_journal _ _ (good_reachable _ _ H0 Hs)) as HJ. split_and!; [apply HJ| |apply HJ].
  intros i j x y Hij Hx Hy. by apply (runs_exclusive _ i j x y HJ).
Qed.

(** What the journal says stays true: a run keeps its
    repository, connection, version and settings, its generation only rises,
    a stop is never withdrawn and an ended run never changes its state; a
    reference keeps its direction and its old and new object, and once it is
    settled its outcome is final. *)
Theorem sync_history s0 s s' : installed s0 -> steps s0 s -> steps s s' ->
  let st := en_store (sy_env s) in let st' := en_store (sy_env s') in
  (forall id r, runs st !! id = Some r -> exists r', runs st' !! id = Some r' /\ same_run r r' /\ (rn_generation r <= rn_generation r')%Z /\
     (rn_cancel_requested r = true -> rn_cancel_requested r' = true) /\ (active (rn_state r) = false -> rn_state r' = rn_state r)) /\
  (forall k f, refs st !! k = Some f -> exists f', refs st' !! k = Some f' /\ same_ref f f' /\ (settled f = true -> rf_state f' = rf_state f)).
Proof.
  intros H0 Hs Hs'. destruct (steps_history _ _ Hs' (good_reachable _ _ H0 Hs)) as [[E1 E2] Hout]. split.
  - intros id r Hr. destruct (E1 id r Hr) as (r' & Hr' & [A1 A2 A3 A4 A5]). exists r'. split_and!; try done. intros Ha. by apply A5.
  - intros k f Hf. destruct (E2 k f Hf) as (f' & Hf' & Hsame). exists f'. split_and!; try done. by apply (Hout k f f').
Qed.

(** C17. A worker changes a repository only by pushing one
    reference that is journaled for its run, in a direction the run permits,
    from the recorded old object, which the reference still has, to the
    recorded new one; an existing reference is a branch that moves forward. *)
Theorem sync_writes s0 s i w o k a e : installed s0 -> steps s0 s ->
  sy_workers s !! i = Some w -> wk_program w = Call o k ->
  serves ancestor (wk_run w) (wk_repository w) (gh_url (wk_ghost w)) (sy_env s) o a e ->
  en_local e = en_local (sy_env s) /\ en_remote e = en_remote (sy_env s) \/
  exists remote name old new run f, o = PushRef remote name old new /\
    e = set_destination remote (wk_repository w) (gh_url (wk_ghost w))
          (<[name := new]> (destination remote (wk_repository w) (gh_url (wk_ghost w)) (sy_env s))) (sy_env s) /\
    destination remote (wk_repository w) (gh_url (wk_ghost w)) (sy_env s) !! name = old /\
    runs (en_store (sy_env s)) !! wk_run w = Some run /\ refs (en_store (sy_env s)) !! (wk_run w, name) = Some f /\
    remote = bool_decide (rf_direction f = RefPush) /\ rf_old f = old /\ rf_new f = Some new /\
    (if remote then pushes else pulls) (ss_direction (rn_settings run)) = true /\ advances ancestor (is_tag name) old (Some new).
Proof.
  intros H0 Hs Hi Hp Hserve. pose proof (gd_workers _ _ (good_reachable _ _ H0 Hs) i w Hi) as Hw.
  destruct (serves_repositories _ _ _ _ _ _ _ Hserve) as [?|(remote & name & old & new & -> & Hd & ->)]; [by left|]. right.
  destruct (push_of_row _ _ _ _ _ _ _ Hw Hp) as (run & f & _ & Hr & Hf & ? & ? & ? & ? & ?). by exists remote, name, old, new, run, f.
Qed.

(** A worker changes the outcome of a reference only of its
    own run, only while the journal names it as the owner and has the
    generation of its claim, and no other worker has a claim of this
    generation: a worker whose run was taken over writes nothing more. *)
Theorem sync_fence s0 s i w o k a e n f f' : installed s0 -> steps s0 s ->
  sy_workers s !! i = Some w -> wk_program w = Call o k ->
  serves ancestor (wk_run w) (wk_repository w) (gh_url (wk_ghost w)) (sy_env s) o a e ->
  refs (en_store (sy_env s)) !! n = Some f -> refs (en_store e) !! n = Some f' -> rf_state f' <> rf_state f ->
  n.1 = wk_run w /\ exists run generation r, gh_claim (wk_ghost w) = Some (run, generation) /\
    runs (en_store (sy_env s)) !! wk_run w = Some r /\ rn_owner r = Some (gh_owner (wk_ghost w)) /\ rn_generation r = generation /\
    forall j v rv gv, j <> i -> sy_workers s !! j = Some v -> wk_run v = wk_run w -> gh_claim (wk_ghost v) = Some (rv, gv) -> gv <> generation.
Proof.
  intros H0 Hs Hi Hp Hserve Hf Hf' Hne. pose proof (good_reachable _ _ H0 Hs) as Hg.
  destruct (call_owner w o k a _ _ n f f' (gd_workers _ _ Hg i w Hi) Hp Hserve Hf Hf' Hne) as (Hn & run & g & r & Hc & Hr & Ho & Hgen).
  split; [done|]. exists run, g, r. split_and!; try done. intros j v rv gv Hj Hv Hrun Hcv.
  by apply (gd_fenced _ _ Hg j i v w rv gv run g).
Qed.

(** Once a run is stopped, nobody gets permission to write
    for it any more: a worker that still pushes a reference of it, however
    much later, is one that had the permission for this reference when the
    run was stopped. *)
Theorem sync_stop s0 s s' id r i w remote name old new k : installed s0 -> steps s0 s -> steps s s' ->
  runs (en_store (sy_env s)) !! id = Some r -> rn_cancel_requested r = true ->
  sy_workers s' !! i = Some w -> wk_run w = id -> wk_program w = Call (PushRef remote name old new) k ->
  exists v, sy_workers s !! i = Some v /\ wk_run v = id /\ gh_allowed (wk_ghost v) = true.
Proof.
  intros H0 Hs Hs' Hr Hc Hi Hid Hp. pose proof (good_reachable _ _ H0 Hs) as Hg.
  destruct (push_of_row _ _ _ _ _ _ _ (gd_workers _ _ (sync_good_steps _ _ _ _ _ _ Hs' Hg) i w Hi) Hp) as (_ & _ & Hal & _).
  assert (Hb : allowed_before id s s').
  { apply (steps_allowed id s s s' Hs' Hg); [by exists r|]. intros j v Hj Hv Ha. by exists v. }
  by apply (Hb i w).
Qed.
End theorems.

(** ** Witnesses *)

#[local] Instance the_crate : UrlCrate := sample_crate.

Lemma sync_journal_witness : exists r, runs (en_store (sy_env (driven 25))) !! 3%N = Some r /\ run_wf r.
Proof.
  assert (Hr : exists r, runs (en_store (sy_env (driven 25))) !! 3%N = Some r) by (eexists; vm_compute; reflexivity).
  destruct Hr as [r Hr]. exists r. split; [exact Hr|].
  apply (proj1 (sync_journal sample_ancestor sample_open [] true _ _ installed_sample (driven_steps 25)) 3%N r Hr).
Defined.

Lemma driven_more n m : rtc (step sample_ancestor sample_open [] true) (driven n) (drive sample_ancestor m 7 (driven n)).
Proof. apply drive_steps. Qed.

Lemma sync_history_witness : exists r, runs (en_store (sy_env (driven 25))) !! 3%N = Some r /\
  exists r', runs (en_store (sy_env (drive sample_ancestor 5 7 (driven 25)))) !! 3%N = Some r' /\ same_run r r'.
Proof.
  assert (Hr : exists r, runs (en_store (sy_env (driven 25))) !! 3%N = Some r) by (eexists; vm_compute; reflexivity).
  destruct Hr as [r Hr]. exists r. split; [exact Hr|].
  destruct (proj1 (sync_history sample_ancestor sample_open [] true _ _ _ installed_sample (driven_steps 25) (driven_more 25 5)) 3%N r Hr)
    as (r' & Hr' & Hsame & _). exists r'. split; [exact Hr'|exact Hsame].
Defined.

Lemma pushing : exists w k, sy_workers (driven 25) !! 7%N = Some w /\ wk_program w = Call (PushRef true main (Some old_commit) new_commit) k.
Proof. apply next_push_Some. vm_compute. reflexivity. Qed.

Lemma driven_run w : sy_workers (driven 25) !! 7%N = Some w -> wk_run w = 3%N /\ wk_repository w = 1%N /\ gh_url (wk_ghost w) = §"https://github.com/team/repo.git".
Proof.
  intros Hw. assert (E : (fun v => (wk_run v, wk_repository v, gh_url (wk_ghost v))) <$> sy_workers (driven 25) !! 7%N =
    Some (3%N, 1%N, §"https://github.com/team/repo.git")) by (vm_compute; reflexivity).
  rewrite Hw in E. cbn [fmap option_fmap option_map] in E. clear Hw.
  by injection E as -> -> ->.
Qed.

(** The push of the worker, when it succeeds. *)
Definition pushed (w : worker) : env :=
  set_destination true (wk_repository w) (gh_url (wk_ghost w))
    (<[main := new_commit]> (destination true (wk_repository w) (gh_url (wk_ghost w)) (sy_env (driven 25)))) (sy_env (driven 25)).

Lemma push_served w : sy_workers (driven 25) !! 7%N = Some w ->
  serves sample_ancestor (wk_run w) (wk_repository w) (gh_url (wk_ghost w)) (sy_env (driven 25))
    (PushRef true main (Some old_commit) new_commit) (Ok tt) (pushed w).
Proof.
  intros Hw. right. split; [|reflexivity]. destruct (driven_run w Hw) as (_ & -> & ->). vm_compute. reflexivity.
Qed.

Lemma pushed_changes w : sy_workers (driven 25) !! 7%N = Some w -> en_remote (pushed w) <> en_remote (sy_env (driven 25)).
Proof.
  intros Hw. unfold pushed. destruct (driven_run w Hw) as (_ & -> & ->).
  assert (E : bool_decide (en_remote (set_destination true 1 §"https://github.com/team/repo.git" (<[main := new_commit]>
    (destination true 1 §"https://github.com/team/repo.git" (sy_env (driven 25)))) (sy_env (driven 25))) = en_remote (sy_env (driven 25))) = false)
    by (vm_compute; reflexivity).
  exact (bool_decide_eq_false_1 _ E).
Qed.

Lemma sync_writes_witness : exists run f, runs (en_store (sy_env (driven 25))) !! 3%N = Some run /\
  refs (en_store (sy_env (driven 25))) !! (3%N, main) = Some f /\ rf_direction f = RefPush /\ rf_new f = Some new_commit.
Proof.
  destruct pushing as (w & k & Hw & Hp). destruct (driven_run w Hw) as (E & _).
  destruct (sync_writes sample_ancestor sample_open [] true _ _ 7%N w _ k (Ok tt) (pushed w) installed_sample (driven_steps 25) Hw Hp (push_served w Hw))
    as [[_ Hr]|(remote & name & old & new & run & f & Ho & _ & _ & Hr & Hf & Hd & _ & Hn & _)];
    [destruct (pushed_changes w Hw Hr)|].
  injection Ho as <- <- <- <-. rewrite E in Hr, Hf. exists run, f. symmetry in Hd. apply bool_decide_eq_true_1 in Hd.
  split; [exact Hr|]. split; [exact Hf|]. split; [exact Hd|exact Hn].
Defined.

(** The write of the outcome, after the push. *)
Definition next_outcome (i : N) (s : system) : option (str * ref_status * option str * N * Z) :=
  match wk_program <$> sy_workers s !! i with
  | Some (Call (SetRefState name status reason owner generation) _) => Some (name, status, reason, owner, generation)
  | _ => None
  end.

Lemma next_outcome_Some i s name status reason owner generation : next_outcome i s = Some (name, status, reason, owner, generation) ->
  exists w k, sy_workers s !! i = Some w /\ wk_program w = Call (SetRefState name status reason owner generation) k.
Proof.
  unfold next_outcome. destruct (sy_workers s !! i) as [w|]; [|done]. cbn [fmap option_fmap option_map].
  destruct (wk_program w) as [a|o k] eqn:E; [done|]. destruct o; try done. intros [= <- <- <- <- <-]. by exists w, k.
Qed.

Definition recorded_store : store :=
  match ref_state 0 3 main RefApplied None 7 1 (en_store (sy_env (driven 26))) with Ok s => s | Err _ => empty_store end.

Lemma sync_fence_witness : exists w, sy_workers (driven 26) !! 7%N = Some w /\
  exists run generation, gh_claim (wk_ghost w) = Some (run, generation).
Proof.
  assert (Hn : exists w k, sy_workers (driven 26) !! 7%N = Some w /\ wk_program w = Call (SetRefState main RefApplied None 7 1) k)
    by (apply next_outcome_Some; vm_compute; reflexivity).
  destruct Hn as (w & k & Hw & Hp). exists w. split; [exact Hw|].
  assert (Ew : (fun v => (wk_run v)) <$> sy_workers (driven 26) !! 7%N = Some 3%N) by (vm_compute; reflexivity).
  rewrite Hw in Ew. injection Ew as Ew.
  assert (Hs : ref_state 0 3 main RefApplied None 7 1 (en_store (sy_env (driven 26))) = Ok recorded_store) by (vm_compute; reflexivity).
  assert (Hf : exists f f', refs (en_store (sy_env (driven 26))) !! (3%N, main) = Some f /\ refs recorded_store !! (3%N, main) = Some f' /\ rf_state f' <> rf_state f)
    by (eexists _, _; split_and!; [vm_compute; reflexivity..|vm_compute; discriminate]).
  destruct Hf as (f & f' & Hf & Hf' & Hne).
  assert (Hserve : serves sample_ancestor (wk_run w) (wk_repository w) (gh_url (wk_ghost w)) (sy_env (driven 26))
    (SetRefState main RefApplied None 7 1) (Ok tt) (written 0 recorded_store (sy_env (driven 26)))).
  { cbn [serves]. rewrite Ew. apply committed_ok; [vm_compute; discriminate|]. unfold writes. by rewrite Hs. }
  destruct (sync_fence sample_ancestor sample_open [] true _ _ 7%N w _ k _ _ (3%N, main) f f' installed_sample (driven_steps 26) Hw Hp Hserve Hf Hf' Hne)
    as (_ & run & g & r & Hc & _). exists run, g. exact Hc.
Defined.

(** The connection is switched off while the push is under way. *)
Definition switch_off (s : store) : tx Connection :=
  save 0 false true sample_schedule 1 2 11 None sample_access
    {| si_expected_version := 1; si_settings := sample_settings Disabled; si_token := None |} None §"off" s.
Definition stopped (s : system) : system := {|
  sy_env := written 0 (stored (switch_off (en_store (sy_env s)))) (sy_env s); sy_workers := sy_workers s |}.

Lemma stopped_workers s : sy_workers (stopped s) = sy_workers s.
Proof. reflexivity. Qed.

Lemma stopped_step s : (en_clock (sy_env s) <= 0)%Z -> is_ok (switch_off (en_store (sy_env s))) = true ->
  step sample_ancestor sample_open [] true s (stopped s).
Proof.
  intros Hc Hs. unfold stopped. destruct (switch_off (en_store (sy_env s))) as [[v s']|m] eqn:E; [|done].
  apply step_handler; [done|]. eapply h_save. exact E.
Qed.

Lemma stopped_steps : rtc (step sample_ancestor sample_open [] true) (sample_system empty_store) (stopped (driven 25)).
Proof.
  etransitivity; [apply (driven_steps 25)|]. apply rtc_once, stopped_step; vm_compute; [discriminate|reflexivity].
Qed.

Lemma sync_stop_witness : exists r v, runs (en_store (sy_env (stopped (driven 25)))) !! 3%N = Some r /\ rn_cancel_requested r = true /\
  sy_workers (stopped (driven 25)) !! 7%N = Some v /\ gh_allowed (wk_ghost v) = true.
Proof.
  assert (Hr : exists r, runs (en_store (sy_env (stopped (driven 25)))) !! 3%N = Some r /\ rn_cancel_requested r = true)
    by (eexists; split; vm_compute; reflexivity).
  destruct Hr as (r & Hr & Hc), pushing as (w & k & Hw & Hp), (driven_run w Hw) as (E & _).
  rewrite <- (stopped_workers (driven 25)) in Hw.
  destruct (sync_stop sample_ancestor sample_open [] true _ _ _ 3%N r 7%N w _ _ _ _ k installed_sample stopped_steps (rtc_refl _ _) Hr Hc Hw E Hp)
    as (v & Hv & _ & Ha).
  exists r, v. split; [exact Hr|]. split; [exact Hc|]. split; [exact Hv|exact Ha].
Defined.
